(* ===== verification/_CoqProject ===== *)
-Q . S2P
Prelude.v
CPath.v
Glob.v
Float64.v
GoTime.v
GoPath.v
Scan.v
Arith.v
AlarmExpr.v
AlarmEngine.v
Breaker.v
RBAC.v
WAL.v
Http.v
Tickets.v
TicketScan.v
Control.v
PromQL.v
PromProj.v
Rules.v
AuthMW.v
Routes.v
Schedule.v
Registry.v
Spares.v
Cursor.v
DictLoad.v
PointMap.v
Pages.v
Assets.v
Modbus.v
GoNet.v
Snmp.v
SnmpSim.v
Gateway.v
GatewayRun.v
Publish.v
Calendar.v
Usage.v
Windows.v
AlarmDesk.v
Forms.v
Runbooks.v
Layout.v
Reconcile.v
Freshness.v
AlarmDaemon.v
Tokens.v
Login.v
NetURL.v
ApiGW.v
Reports.v
Migrate.v
