(* ===== verification/Prelude.v ===== *)
(** * CIOS: verification of the control-plane and telemetry core

    CIOS is an operating system for data centres: gateways poll devices and
    project the samples to Prometheus lines, alarm and rule daemons evaluate
    expressions over the time series, the core service keeps assets, tickets
    and stock, authorises every request and lets operators write set points
    back to the devices.  This library models the parts that decide
    something, in Go under src/pkg, src/core and src/cmd, and proves what they
    promise.  Go functions become Rocq functions over values and explicit
    state; everything the code reads from outside (clock, random ids, whether
    a save succeeded, answers of another process) is an argument, so that a
    theorem quantifies over it; requests that interleave are step relations
    whose steps are the code's critical sections.

    ** Files, in dependency order

    - [Prelude]: results (Go's value-and-error pairs), strings as byte
      sequences with the functions of package strings, the shared automation
      ([bool_simpl], the hint databases) and the generic lemmas.
    - [Float64], [GoTime]: the parts of the language's library the program
      computes with: float64 as IEEE binary64 ([SpecFloat]), ParseFloat
      (decimal grammar, correct rounding, range error), time and Duration as
      64-bit nanoseconds with the saturating Sub and the parser of durations.
    - [GoPath]: path.Clean, Base and Join and filepath.Abs of the language's
      library; a cleaned path below a directory stays below it.
    - [CPath] (pkg/cpath/cpath.go, types of dict.go): the address grammar.
      [ParseAssetPath], [ParsePoint], their renderers, the index and the lint
      rule.  Theorems: a parsed point is valid and renders to the input, every
      valid point parses back, and exactly the renderings of valid asset paths
      are accepted.
    - [Glob] (pkg/cpath/glob.go): [CompileGlob] and [Match].  The matcher's
      table is a fold over the pattern; the main theorem equates it, fast
      paths included, with the declarative meaning of the pattern.
    - [Scan], [Arith] (pkg/arith) and [AlarmExpr] (pkg/alarm/expr.go): the two
      recursive-descent parsers and evaluators, the parser shown equal to a
      grammar over longest-match tokens, evaluation errors characterised.
    - [AlarmEngine] (pkg/alarm/engine.go, rule.go, severity.go): loading of
      rules and the engine.  [tick] is one instance, [Observe] the pass over
      all instances.  The refinement theorem says that a run is the
      independent product of its instances; alternation, the for duration
      (safety and liveness) and the hysteresis thresholds follow.
    - [Breaker] (pkg/policy/resilient_pdp.go): retry and circuit breaker as a
      step relation of concurrent callers; fail-closed, the exact opening
      condition, the cooldown, and what a cancelled probe leaves behind.
    - [RBAC] (core/crn.go, auth.go, rbac.go): resource names, compilation of
      scopes to globs (the client of [Glob]), the authorization decision.
    - [WAL] (pkg/wal): the write-ahead log as an implementation of a queue of
      payloads; the refinement theorems cover errors of every call to the
      operating system, and a crash at any byte of a write.
    - [Http]: problem values, UTF-8 decoding and case folding.
    - [Tickets] (core/tickets.go, sla.go and the ticket part of store.go): the
      optimistic lock, the life cycle, the one-active-ticket-per-alarm rule
      and the SLA scanner, over every interleaving of reads and writes.
    - [TicketScan]: the pass of a scanner that opens tickets, over the class
      [TicketSource]; the stock, recurring work and drift scanners are
      instances.
    - [Control] (core/setctl.go, control_sink.go): the allow-list, the policy
      for set points, the audit row, the approval of class A writes; the
      two-man rule over every interleaving.
    - [PromQL] (pkg/tenant/promql.go): the injection of the tenant matcher.
    - [PromProj] (pkg/promproj): exposition lines and back.
    - [Rules] (pkg/rules, cmd/cios-rules): derived quantities, the tick of the
      rules daemon.
    - [AuthMW] (core/authmw.go, mtls_tenant_gate.go) and [Routes]
      (core/server.go): the mapping of a request to path and capability, the
      tenant gate, the bearer middleware; the route table, the mux and the
      dispatch of every handler.  Stacked they give the theorem on access.
    - [Schedule] (core/pm.go, core/inspection.go): recurring work.  The scanner
      is proved against the interface [Scheduled]; its two clients are
      instances.
    - [Registry] (core/store.go, tenants_http.go, tenants_admin_http.go,
      orgs_http.go, siteorg_http.go, rolebindings_http.go): tenants,
      organisations, sites and role bindings with their audit.  [change] is the
      abstract specification; every handler refines it under every
      interleaving.
    - [Spares] (core/spares.go and its part of store.go): stock and movement
      log, create and adjust handlers, the low-stock scanner, which is a client
      of [Tickets.PutTicket].
    - [Cursor] (core/server.go, core/pagination.go): page tokens and the theory
      of a client that follows them, over rows that may change meanwhile.
    - [Pages]: the list endpoints as instances of that theory, and the lists
      that page by position.
    - [Assets] (core/assets.go and its part of store.go): put, delete, life
      cycle, audit and list, with the specs as shared maps in a heap.
    - [DictLoad] (pkg/cpath/dict.go): the files of the vocabulary become the
      dictionary that [CPath] reads addresses with.
    - [PointMap] (pkg/pointmap): loading and validation of point maps, the unit
      table, the canonical chain of parents below which points are checked.
    - [Modbus] (pkg/driver: driver.go, modbus.go, modbussim/sim.go): the Modbus
      client over a network interface, the simulator as a server on byte
      streams.  The driver refines the device's registers; a round of
      collection fails softly; writes are guarded.
    - [GoNet], [Snmp] (pkg/driver/snmp): numbers as text and host addresses; the
      SNMP client over an abstract agent.
    - [SnmpSim] (pkg/driver/snmpsim/sim.go): the simulated agent down to the
      bytes.  Requests are slices, with their capacity, of a receive buffer
      that is never cleared; the refinement theorem says the answers are those
      of a table of integers whatever the buffer held.
    - [Gateway] (src/gateway, pkg/modbusbind) and [GatewayRun]: configuration,
      pipelines, bring-up, ticks, the control endpoint.  The drivers are
      instances of the class [Gateway.Southbound]; [GatewayRun] composes maps,
      drivers, ticks and control requests into one system of steps.
    - [Publish] (pkg/natspub, cmd/cios-edge-writer): publication with [WAL] as
      fallback over the class [Publish.Bus], the consumer of the stream; the
      theorem from bring-up to bus stacks it on [GatewayRun].
    - [Calendar]: civil dates, time zones and RFC 3339 of the language's library.
    - [Usage] (core/usage.go, usage_period.go, usage_scan.go, usage_http.go):
      metering by rack hours and energy as a map from facts to quantities.
    - [Windows] (core/mwindows.go, maintenance.go): maintenance windows.
    - [AlarmDesk] (core/alarms.go): the acknowledgement of alarms.
    - [Forms] (core/inspection_form.go): the form of an inspection ticket, its
      submissions and photos, over tickets and files.
    - [Runbooks] (core/runbooks.go): documents by key, closed cases as JSON and as
      comma-separated values with a reader of RFC 4180.
    - [Layout] (core/sitelayout.go, sitelayout_http.go): drawings of sites and
      their write-back into the assets of [Assets].
    - [Reports] (core/reports.go, report_gen.go): the operations report over the
      tickets and alarms a caller may read, and the directory of daily pages with
      its retention.
    - [Reconcile] (core/reconcile.go, vmquery.go): assets against the time
      series, the drift scanner as an instance of [TicketSource].
    - [Freshness] (pkg/freshness, cmd/cios-alarm/freshness.go): silent
      pipelines.
    - [AlarmDaemon] (cmd/cios-alarm/main.go, pkg/alarm/store.go): messages of the
      bus through [PromProj], [AlarmEngine] and the tables of the database.
    - [Tokens] (pkg/sts, the cookies of pkg/apigw): signed tokens, the
      exchange of credentials, sessions and login states.
    - [Login] (pkg/apigw: oidc.go, handler.go and the gate of server.go): the
      login flow, token endpoints and the middleware of the public gateway as
      one system, composed over [Tokens].
    - [NetURL]: percent-encoding, query strings and request targets of the
      language's library.
    - [ApiGW] (pkg/apigw: reads.go, sites.go, admin_proxy.go, customer.go,
      upstream.go, omniverse.go, sse.go, the routes of server.go): the endpoints
      of the public gateway behind the gate of [Login].  A handler is a tree of
      requests to other services and continuations on their answers.

    The claims are numbered C1 to C40 in the doc comments of their theorems, in
    the order of the manifest:
    C1-C2 alarm engine, C3 addresses, C4 globs, C5 arithmetic expressions,
    C6 breaker, C7 access control, C8-C9 log, C10 tickets, C11-C12 control
    writes, C13 tenant isolation of queries, C14 derived quantities, C15 stock,
    C16 routing, C17-C18 registry, C19 lists, C20 assets, C21-C22 Modbus,
    C23 login, C24 public gateway, C25 dictionary, C26 point maps, C27 control
    endpoint of the gateway, C28-C29 publication, C30 alarm daemon,
    C31 freshness, C32 lines of the gateway, C33 usage, C34 maintenance windows,
    C35 acknowledgements, C36 reconciliation, C37 SNMP simulator, C38 inspection
    forms, C39 cases, C40 site layouts.
    Other theorems of a component that matter are lemmas with a doc comment.

    ** State and operations

    A Go struct is a Record with the fields the modelled code reads or writes,
    prefixed by a letter or two where two structs share a name.  A map keyed by
    a string is a [gmap string]; where the code iterates over a map the model
    uses the list of its entries and the theorems do not depend on the order.
    A handler takes the state, the decoded body ([None] when decoding failed),
    the principal and the outcomes of its effects, and returns the new state
    and the response or the problem.  Where a handler reads and later writes
    under a lock taken twice, it is two definitions (for instance
    [Tickets.transition_read] and [Tickets.cas_write]) and the system of
    [Tickets.tstep] or [Control.cstep] interleaves them freely; the sequential
    handler is their composition.

    ** Fuel

    Go's loops over a string are recursions over the remaining input with fuel
    at least its length; each has a lemma that the result does not depend on
    additional fuel ([Scan], [Http.runes_fuel_enough]) or a theorem that the
    out-of-fuel answer is never returned (the parsers of [Arith] and
    [AlarmExpr], the forward pass of [PromQL]), so every theorem is about the
    code's own result.  The nesting depth of expressions is bounded by the
    length of the input.  A client that follows page tokens ([Cursor.client]) has
    one unit of fuel per request; the theorems on lists show that as many
    requests as there are rows, and one more, reach the last page.  The
    breadth-first search of [PointMap] has the number of types as fuel, which is
    proved enough; the loop over the objects of a request ([SnmpSim]) has the
    length of the body ([SnmpSim.decode_entries_fuel]), and the loops that write
    a number in base 128 or 256 its bits; [Publish.redeliver] counts deliveries, and one more than the
    failing requests is enough.

    ** Parameters

    Code that is not part of the repository is an argument: the compressor of
    the log with its round trip ([WAL]), shortest float formatting and float
    reading in [PromProj] with the law that reading gives the formatted value
    back, the table of Unicode simple folding ([Http.EqualFold], no law), the
    inner policy engine ([Breaker]), the time-series database ([Rules]), the
    network under the Modbus client and the conversion of a float that does
    not fit the integer type ([Modbus]), the keyed hash and the JSON codecs of
    tokens and cookies, with the round trip of the codecs ([Tokens]), signature
    verification and hashing of the identity provider's tokens ([Login]), the
    answers of core and the decoding of its lists ([ApiGW]), YAML
    decoding and the reading of files ([DictLoad], [PointMap], [Gateway]), the
    SNMP agent ([Snmp]), plugin drivers and the lookup of host names
    ([Gateway]), the message bus, with the law that it stores what it
    acknowledges, and the JSON text of a batch with its round trip ([Publish]),
    the order in which a Go map is visited, with the law that it is a
    permutation ([MapOrder], in [Freshness], [Usage] and
    [Reports]), the database of time
    zones ([Calendar], [Usage]), the answers of the time-series database
    ([Usage], [Reconcile]), the case of letters outside ASCII ([Http.ToLower]),
    the files and the working directory ([Forms], [Runbooks], [Layout]), the digest of alarm keys, with the hypothesis
    that the keys in use do not collide ([AlarmDaemon]), the
    clock, minted ids (freshness is stated where a theorem needs it) and the
    success of each save.  Each theorem with such a law has a witness with a
    concrete instance.

    ** Not modelled

    The Postgres store (statements run by a database; the file store has the
    same contract and is the one modelled), JSON and YAML decoding, the HTML
    template and the multipart parser of the inspection form, the HTTP
    transport, request ids and logging, the notification and webhook senders,
    the host of plugin drivers, the gateway's poll for retired assets (its
    result is an input of a tick), metrics, the event an alarm publishes on the
    bus, the fetching of keys and discovery documents, the subscription of a
    browser to events of the bus, the command line client, the web applications,
    the text of the report pages, model packs and the jobs that build scenes: input and output,
    calls of other libraries, or components left for an extension of
    this library.  Data races on the shared maps of [Assets] are modelled as
    interleavings of whole map operations; the crash of the Go runtime on a
    concurrent map write is not. *)
From Stdlib Require Export ZArith Lia Ascii String.
From stdpp Require Export base tactics option list strings gmap pretty.
#[export] Set Default Goal Selector "!".

(** ** Results: Go's [(value, error)] pairs

    A Go function that returns [(v, nil)] or [(zero, err)] returns [Ok v] or
    [Err e]; [E] lists the sentinel errors (or the reasons) of the component. *)

Inductive result (E A : Type) : Type :=
  | Ok (a : A)
  | Err (e : E).
Arguments Ok {E A} a.
Arguments Err {E A} e.

#[export] Instance result_ret E : MRet (result E) := fun A a => Ok a.
#[export] Instance result_bind E : MBind (result E) := fun A B f m =>
  match m with Ok a => f a | Err e => Err e end.
#[export] Instance result_fmap E : FMap (result E) := fun A B f m =>
  match m with Ok a => Ok (f a) | Err e => Err e end.

#[export] Instance result_eq_dec {E A} `{EqDecision E} `{EqDecision A} :
  EqDecision (result E A).
Proof. solve_decision. Defined.

Definition is_ok {E A} (r : result E A) : bool :=
  match r with Ok _ => true | Err _ => false end.

Lemma Ok_inj {E A} (a b : A) : @Ok E A a = Ok b -> a = b.
Proof. congruence. Qed.

Lemma bind_Ok {E A B} (m : result E A) (f : A -> result E B) b :
  m ≫= f = Ok b <-> exists a, m = Ok a /\ f a = Ok b.
Proof.
  destruct m as [a|e]; cbn; split.
  - eauto.
  - by intros (? & [= ->] & ?).
  - done.
  - by intros (? & ? & ?).
Qed.

Lemma bind_Err {E A B} (m : result E A) (f : A -> result E B) e :
  m ≫= f = Err e <-> m = Err e \/ exists a, m = Ok a /\ f a = Err e.
Proof.
  destruct m as [a|e']; cbn; split.
  - eauto.
  - by intros [?|(? & [= ->] & ?)].
  - intros [= ->]; auto.
  - by intros [[= ->]|(? & ? & ?)].
Qed.

(** [if cond { return err }]: the guard clauses of the handlers. *)
Definition guard_err {E} (c : bool) (e : E) : result E unit :=
  if c then Err e else Ok tt.

Lemma guard_err_Ok {E} c (e : E) u : guard_err c e = Ok u <-> c = false.
Proof. destruct c, u; cbn; naive_solver. Qed.

(** ** Automation *)

Create HintDb cios.
Create Rewrite HintDb cios.

(** Case analysis of every test a hypothesis or the goal is stuck on. *)
Ltac crush_match :=
  repeat (case_match; simplify_eq/=; try done).

(** Inverts a successful monadic computation into its steps. *)
Ltac inv_ok :=
  repeat match goal with
  | H : mbind _ _ = Ok _ |- _ =>
      let a := fresh "v" in let H1 := fresh "Hok" in let H2 := fresh "Hok" in
      apply bind_Ok in H as (a & H1 & H2)
  | H : guard_err _ _ = Ok _ |- _ => apply guard_err_Ok in H
  | H : mret _ = Ok _ |- _ => injection H as H; try subst
  | H : Ok _ = Ok _ |- _ => injection H as H; try subst
  | H : Err _ = Ok _ |- _ => discriminate H
  | H : Ok _ = Err _ |- _ => discriminate H
  end.

(** Splits boolean connectives in the context and the goal. *)
Ltac bool_simpl :=
  repeat match goal with
  | H : andb _ _ = true |- _ => apply andb_true_iff in H as [? ?]
  | H : orb _ _ = false |- _ => apply orb_false_iff in H as [? ?]
  | H : negb _ = true |- _ => apply negb_true_iff in H
  | H : negb _ = false |- _ => apply negb_false_iff in H
  | |- andb _ _ = true => apply andb_true_iff; split
  | |- orb _ _ = false => apply orb_false_iff; split
  end.

(** ** Bytes

    A Go [byte] is an [ascii] (eight bits), a Go [string] a [string]: a
    sequence of bytes, compared bytewise. *)

Declare Scope go_scope.
Delimit Scope go_scope with go.

Definition byte_le (a b : ascii) : bool := (N_of_ascii a <=? N_of_ascii b)%N.
Definition byte_eqb (a b : ascii) : bool := Ascii.eqb a b.
Definition in_range (lo hi c : ascii) : bool := byte_le lo c && byte_le c hi.

Definition is_lower (c : ascii) : bool := in_range "a" "z" c.
Definition is_upper (c : ascii) : bool := in_range "A" "Z" c.
Definition is_digit (c : ascii) : bool := in_range "0" "9" c.
Definition is_alnum (c : ascii) : bool := is_lower c || is_digit c.

(** Byte tests stay folded under [cbn]. *)
#[global] Arguments byte_eqb : simpl never.
#[global] Arguments in_range : simpl never.
#[global] Arguments is_lower : simpl never.
#[global] Arguments is_upper : simpl never.
#[global] Arguments is_digit : simpl never.
#[global] Arguments is_alnum : simpl never.

Abbreviation TAB := (Ascii.ascii_of_nat 9).
Abbreviation LF := (Ascii.ascii_of_nat 10).
Abbreviation CR := (Ascii.ascii_of_nat 13).

(** The byte class [' ' | '\t' | '\n' | '\r'] that every scanner of the code
    base skips. *)
Definition is_space (c : ascii) : bool :=
  byte_eqb c " " || byte_eqb c TAB || byte_eqb c LF || byte_eqb c CR.

Lemma byte_eqb_eq a b : byte_eqb a b = true <-> a = b.
Proof. apply Ascii.eqb_eq. Qed.
Lemma byte_eqb_neq a b : byte_eqb a b = false <-> a <> b.
Proof. apply Ascii.eqb_neq. Qed.
Lemma byte_eqb_refl a : byte_eqb a a = true.
Proof. apply Ascii.eqb_refl. Qed.
Lemma byte_eqb_sym a b : byte_eqb a b = byte_eqb b a.
Proof. apply Ascii.eqb_sym. Qed.
#[export] Hint Rewrite byte_eqb_refl : cios.

(** Decides a closed statement about one byte by running through all 256. *)
Ltac byte_cases c := destruct c as [[] [] [] [] [] [] [] []].

Lemma lower_not_digit c : is_lower c = true -> is_digit c = false.
Proof. byte_cases c; vm_compute; congruence. Qed.
Lemma digit_not_lower c : is_digit c = true -> is_lower c = false.
Proof. byte_cases c; vm_compute; congruence. Qed.
Lemma alnum_not_dot c : is_alnum c = true -> c <> "."%char.
Proof. intros H ->. discriminate H. Qed.
Lemma lower_not_dot c : is_lower c = true -> c <> "."%char.
Proof. intros H ->. discriminate H. Qed.
Lemma digit_not_dot c : is_digit c = true -> c <> "."%char.
Proof. intros H ->. discriminate H. Qed.
#[export] Hint Resolve lower_not_digit digit_not_lower alnum_not_dot
  lower_not_dot digit_not_dot : cios.

(** ** Strings *)

(** The library stops [cbn] from unfolding [++] on strings; the scanners below
    compute with it. *)
#[global] Arguments String.append !s1 _ : simpl nomatch.

Abbreviation str_len := String.length.
Definition str_eqb (a b : string) : bool := String.eqb a b.

Lemma str_eqb_eq a b : str_eqb a b = true <-> a = b.
Proof. apply String.eqb_eq. Qed.
Lemma str_eqb_neq a b : str_eqb a b = false <-> a <> b.
Proof. apply String.eqb_neq. Qed.
Lemma str_eqb_refl a : str_eqb a a = true.
Proof. apply String.eqb_refl. Qed.
#[export] Hint Rewrite str_eqb_refl : cios.

Lemma str_app_nil_r s : s +:+ EmptyString = s.
Proof. induction s; cbn; congruence. Qed.
Lemma str_app_assoc a b c : a +:+ (b +:+ c) = (a +:+ b) +:+ c.
Proof. induction a; cbn; congruence. Qed.
Lemma str_app_nil_inv a b : a +:+ b = EmptyString -> a = EmptyString /\ b = EmptyString.
Proof. destruct a; done. Qed.
Lemma str_len_app a b : str_len (a +:+ b) = str_len a + str_len b.
Proof. induction a; cbn; lia. Qed.
Lemma str_app_inv_head s a b : s +:+ a = s +:+ b -> a = b.
Proof. induction s; cbn; naive_solver. Qed.
#[export] Hint Rewrite str_app_nil_r str_len_app : cios.

(** [for i := range s { if !p(s[i]) ... }] *)
Fixpoint all_bytes (p : ascii -> bool) (s : string) : bool :=
  match s with
  | EmptyString => true
  | String c s' => p c && all_bytes p s'
  end.

Lemma all_bytes_app p a b :
  all_bytes p (a +:+ b) = all_bytes p a && all_bytes p b.
Proof. induction a; cbn; [done|]. rewrite IHa. by rewrite andb_assoc. Qed.

Lemma all_bytes_impl (p q : ascii -> bool) s :
  (forall c, p c = true -> q c = true) ->
  all_bytes p s = true -> all_bytes q s = true.
Proof. intros Hpq. induction s; cbn; [done|]. intros H; bool_simpl; auto. Qed.

(** The longest prefix whose bytes satisfy [p], and the rest: the code's
    [for !eof && p(peek()) { pos++ }] loops. *)
Fixpoint span_bytes (p : ascii -> bool) (s : string) : string * string :=
  match s with
  | EmptyString => (EmptyString, EmptyString)
  | String c s' =>
      if p c then let '(a, b) := span_bytes p s' in (String c a, b)
      else (EmptyString, s)
  end.

Lemma span_bytes_app p s : (span_bytes p s).1 +:+ (span_bytes p s).2 = s.
Proof.
  induction s as [|c s IH]; cbn; [done|].
  destruct (p c); cbn; [|done]. destruct (span_bytes p s); cbn in *; congruence.
Qed.

Lemma span_bytes_all p s : all_bytes p (span_bytes p s).1 = true.
Proof.
  induction s as [|c s IH]; cbn; [done|].
  destruct (p c) eqn:E; cbn; [|done].
  destruct (span_bytes p s); cbn in *. by rewrite E.
Qed.

Lemma span_bytes_rest p s c r :
  (span_bytes p s).2 = String c r -> p c = false.
Proof.
  induction s as [|c' s IH]; cbn; [done|].
  destruct (p c') eqn:E; cbn; [|naive_solver].
  destruct (span_bytes p s); cbn in *; auto.
Qed.

Lemma span_bytes_len p s : str_len (span_bytes p s).2 <= str_len s.
Proof.
  rewrite <- (span_bytes_app p s) at 2. rewrite str_len_app. lia.
Qed.

(** Splitting [a ++ b] where [a] satisfies [p] and [b] does not begin with
    such a byte. *)
Lemma span_bytes_split p a b :
  all_bytes p a = true ->
  match b with String c _ => p c = false | EmptyString => True end ->
  span_bytes p (a +:+ b) = (a, b).
Proof.
  induction a as [|c a IH]; cbn; intros Ha Hb.
  - destruct b; cbn; [done|]. by rewrite Hb.
  - bool_simpl. rewrite H. by rewrite IH.
Qed.

(** [strings.HasPrefix(s, pre)]. *)
Fixpoint has_prefix (s pre : string) {struct pre} : bool :=
  match pre, s with
  | EmptyString, _ => true
  | String _ _, EmptyString => false
  | String c pre', String d s' => byte_eqb c d && has_prefix s' pre'
  end.

(** [strings.Contains(s, sub)]. *)
Fixpoint contains (sub s : string) : bool :=
  has_prefix s sub ||
  match s with EmptyString => false | String _ s' => contains sub s' end.

(** [strings.HasSuffix], [strings.TrimPrefix], [strings.TrimSuffix]. *)
Definition has_suffix (s suf : string) : bool :=
  (str_len suf <=? str_len s)%nat &&
  str_eqb (String.substring (str_len s - str_len suf) (str_len suf) s) suf.

Definition trim_prefix (s pre : string) : string :=
  if has_prefix s pre
  then String.substring (str_len pre) (str_len s - str_len pre) s else s.

Definition trim_suffix (s suf : string) : string :=
  if has_suffix s suf
  then String.substring 0 (str_len s - str_len suf) s else s.

Lemma has_prefix_app pre s : has_prefix (pre +:+ s) pre = true.
Proof. induction pre; cbn; [by destruct s|]. by rewrite byte_eqb_refl. Qed.

Lemma has_prefix_split s pre : has_prefix s pre = true -> exists rest, s = pre +:+ rest.
Proof.
  revert s. induction pre as [|c pre IH]; intros s; cbn; [by exists s|].
  destruct s as [|d s]; [done|]. cbn. intros [->%byte_eqb_eq [rest ->]%IH]%andb_true_iff.
  by exists rest.
Qed.

Lemma substring_all s : String.substring 0 (str_len s) s = s.
Proof. induction s; cbn; congruence. Qed.

Lemma substring_app pre s n :
  String.substring (str_len pre) n (pre +:+ s) = String.substring 0 n s.
Proof. by induction pre. Qed.

Lemma trim_prefix_app pre s : trim_prefix (pre +:+ s) pre = s.
Proof.
  unfold trim_prefix. rewrite has_prefix_app, substring_app, str_len_app.
  replace (str_len pre + str_len s - str_len pre) with (str_len s) by lia.
  apply substring_all.
Qed.

Lemma substring_split s : forall n, n <= str_len s ->
  String.substring 0 n s +:+ String.substring n (str_len s - n) s = s.
Proof.
  induction s as [|c s IH]; intros n Hn; cbn in Hn.
  - by replace n with 0 by lia.
  - destruct n as [|n]; cbn; [by rewrite substring_all|]. f_equal. apply IH. lia.
Qed.

Lemma has_suffix_split s suf : has_suffix s suf = true -> s = trim_suffix s suf +:+ suf.
Proof.
  intros H. unfold trim_suffix. rewrite H. unfold has_suffix in H. bool_simpl.
  apply Nat.leb_le in H. apply str_eqb_eq in H0. rewrite <- H0 at 2.
  rewrite <- (substring_split s (str_len s - str_len suf)) at 1 by lia.
  by replace (str_len s - (str_len s - str_len suf)) with (str_len suf) by lia.
Qed.

(** [strings.Split(s, sep)] for a one-byte separator: never empty, and [""]
    splits into the single piece [""]. *)
Fixpoint split (sep : ascii) (s : string) : list string :=
  match s with
  | EmptyString => [EmptyString]
  | String c s' =>
      if byte_eqb c sep then EmptyString :: split sep s'
      else match split sep s' with
           | h :: t => String c h :: t
           | [] => [String c EmptyString]
           end
  end.

(** [strings.Join(parts, sep)]. *)
Fixpoint join (sep : ascii) (parts : list string) : string :=
  match parts with
  | [] => EmptyString
  | [p] => p
  | p :: ps => p +:+ String sep (join sep ps)
  end.

Lemma split_not_nil sep s : split sep s <> [].
Proof. destruct s; cbn; [done|]. case_match; [done|]. by case_match. Qed.

Lemma join_cons sep p ps :
  ps <> [] -> join sep (p :: ps) = p +:+ String sep (join sep ps).
Proof. by destruct ps. Qed.

Lemma join_split sep s : join sep (split sep s) = s.
Proof.
  induction s as [|c s IH]; cbn; [done|].
  destruct (byte_eqb c sep) eqn:E.
  - apply byte_eqb_eq in E as ->.
    rewrite join_cons by apply split_not_nil. cbn. by rewrite IH.
  - destruct (split sep s) as [|h t] eqn:Hs; [by apply split_not_nil in Hs|].
    destruct t; cbn in *; congruence.
Qed.

Lemma split_inj sep s t : split sep s = split sep t -> s = t.
Proof. intros H. by rewrite <- (join_split sep s), H, join_split. Qed.

(** A piece that does not contain the separator. *)
Definition no_byte (c : ascii) (s : string) : bool :=
  all_bytes (fun b => negb (byte_eqb b c)) s.

Lemma split_app_sep sep a s :
  no_byte sep a = true -> split sep (a +:+ String sep s) = a :: split sep s.
Proof.
  unfold no_byte. induction a as [|c a IH]; cbn; intros H.
  - by rewrite byte_eqb_refl.
  - bool_simpl. by rewrite H, IH.
Qed.

Lemma split_no_sep sep a : no_byte sep a = true -> split sep a = [a].
Proof.
  unfold no_byte. induction a as [|c a IH]; cbn; intros H; [done|].
  bool_simpl. by rewrite H, IH.
Qed.

Lemma split_join sep ps :
  ps <> [] -> Forall (fun p => no_byte sep p = true) ps ->
  split sep (join sep ps) = ps.
Proof.
  intros Hne Hall. induction Hall as [|p ps Hp Hps IH]; [done|].
  destruct ps as [|q ps]; [by apply split_no_sep|].
  rewrite join_cons by done. rewrite split_app_sep by done. by rewrite IH.
Qed.

Lemma split_no_byte sep s : Forall (fun p => no_byte sep p = true) (split sep s).
Proof.
  induction s as [|c s IH]; cbn; [by repeat constructor|].
  destruct (byte_eqb c sep) eqn:E; [by constructor|].
  destruct (split sep s) as [|h t]; inv IH.
  - constructor; [|done]. unfold no_byte; cbn. by rewrite E.
  - constructor; [|done]. unfold no_byte in *; cbn. by rewrite E.
Qed.

Lemma split_all_bytes p sep s :
  all_bytes (fun c => p c || byte_eqb c sep) s = true ->
  Forall (fun x => all_bytes p x = true) (split sep s).
Proof.
  induction s as [|c s IH]; cbn; intros H; [by repeat constructor|].
  bool_simpl. specialize (IH H0).
  destruct (byte_eqb c sep) eqn:E; [by constructor|].
  rewrite orb_false_r in H.
  destruct (split sep s) as [|h t]; inv IH.
  - constructor; [|done]. cbn. by rewrite H.
  - constructor; [|done]. cbn. by rewrite H.
Qed.

(** With no doubled separator and a non-empty last piece, every piece after
    the first is non-empty. *)
Lemma split_nonempty_tail sep s :
  contains (String sep (String sep EmptyString)) s = false ->
  last (split sep s) <> Some EmptyString ->
  Forall (fun p => p <> EmptyString) (tail (split sep s)).
Proof.
  induction s as [|c s IH]; intros Hc Hl; [constructor|].
  cbn [contains] in Hc. bool_simpl. cbn [split] in *.
  destruct (byte_eqb c sep) eqn:E.
  - apply byte_eqb_eq in E as ->. cbn [tail].
    destruct (split sep s) as [|h t] eqn:Hs; [by apply split_not_nil in Hs|].
    constructor.
    + intros ->. destruct s as [|c' s']; cbn in Hs.
      * by simplify_eq.
      * destruct (byte_eqb c' sep) eqn:E'.
        -- apply byte_eqb_eq in E' as ->. cbn in H.
           rewrite byte_eqb_refl in H. by destruct s'.
        -- by destruct (split sep s').
    + apply IH; [done|]. cbn in Hl |- *. by destruct t.
  - destruct (split sep s) as [|h t] eqn:Hs; [by apply split_not_nil in Hs|].
    cbn [tail] in *. destruct t as [|h' t]; [constructor|]. by apply IH.
Qed.

(** [b.WriteByte('.'); b.WriteString(x)] for every element: the renderers of
    the code write each segment with its separator in front. *)
Fixpoint dotted (sep : ascii) (xs : list string) : string :=
  match xs with
  | [] => EmptyString
  | x :: xs => String sep (x +:+ dotted sep xs)
  end.

Lemma join_dotted sep x xs : join sep (x :: xs) = x +:+ dotted sep xs.
Proof.
  revert x. induction xs as [|y ys IH]; intros x; cbn [dotted].
  - cbn. by rewrite str_app_nil_r.
  - rewrite join_cons by done. by rewrite IH.
Qed.

Lemma dotted_app sep xs ys : dotted sep (xs ++ ys) = dotted sep xs +:+ dotted sep ys.
Proof.
  induction xs as [|x xs IH]; cbn; [done|]. by rewrite IH, str_app_assoc.
Qed.

Lemma split_app_two sep w s :
  split sep (w +:+ String sep s) = split sep w ++ split sep s.
Proof.
  rewrite <- (split_join sep (split sep w ++ split sep s)).
  - f_equal. rewrite <- (join_split sep w) at 1. rewrite <- (join_split sep s) at 1.
    destruct (split sep w) as [|x xs] eqn:E; [by apply split_not_nil in E|].
    destruct (split sep s) as [|y ys] eqn:E'; [by apply split_not_nil in E'|].
    cbn [app]. rewrite !join_dotted, dotted_app, <- str_app_assoc. done.
  - intros [H _]%app_eq_nil. by apply split_not_nil in H.
  - apply Forall_app. split; apply split_no_byte.
Qed.

(** [strings.TrimSpace]: the Unicode white space of [unicode.IsSpace], in its
    UTF-8 encodings of one, two and three bytes. *)
Definition code (c : ascii) : N := N_of_ascii c.
Definition space1 (c : ascii) : bool :=
  ((9 <=? code c) && (code c <=? 13) || (code c =? 32))%N.
Definition space2 (c d : ascii) : bool :=
  ((code c =? 0xC2) && ((code d =? 0x85) || (code d =? 0xA0)))%N.
Definition space3 (c d e : ascii) : bool :=
  ((code c =? 0xE1) && (code d =? 0x9A) && (code e =? 0x80) ||
   (code c =? 0xE2) && (code d =? 0x80) &&
     ((0x80 <=? code e) && (code e <=? 0x8A) || (code e =? 0xA8) || (code e =? 0xA9) ||
      (code e =? 0xAF)) ||
   (code c =? 0xE2) && (code d =? 0x81) && (code e =? 0x9F) ||
   (code c =? 0xE3) && (code d =? 0x80) && (code e =? 0x80))%N.

Fixpoint trim_left (s : string) : string :=
  match s with
  | String c r =>
      if space1 c then trim_left r
      else match r with
      | String d r2 =>
          if space2 c d then trim_left r2
          else match r2 with
          | String e r3 => if space3 c d e then trim_left r3 else s
          | EmptyString => s
          end
      | EmptyString => s
      end
  | EmptyString => s
  end.

(** The same from the end: [s] is the reversed string. *)
Fixpoint trim_left_rev (s : string) : string :=
  match s with
  | String e r =>
      if space1 e then trim_left_rev r
      else match r with
      | String d r2 =>
          if space2 d e then trim_left_rev r2
          else match r2 with
          | String c r3 => if space3 c d e then trim_left_rev r3 else s
          | EmptyString => s
          end
      | EmptyString => s
      end
  | EmptyString => s
  end.

Fixpoint rev_append_str (s acc : string) : string :=
  match s with
  | EmptyString => acc
  | String c s' => rev_append_str s' (String c acc)
  end.
Definition rev_str (s : string) : string := rev_append_str s EmptyString.

Definition TrimSpace (s : string) : string :=
  rev_str (trim_left_rev (rev_str (trim_left s))).

(** [strings.TrimSpace(s) == ""]. *)
Definition is_blank (s : string) : bool := str_eqb (TrimSpace s) EmptyString.

Example TrimSpace_ex : TrimSpace "  a b " = "a b"%string.
Proof. reflexivity. Qed.

(** A Go [map[string]bool] read: a missing key reads as [false]. *)
Definition map_bool (m : gmap string bool) (k : string) : bool :=
  default false (m !! k).

(** [for _, x := range xs { if x == want { return true } }]. *)
Definition contains_string (xs : list string) (want : string) : bool :=
  existsb (fun x => str_eqb x want) xs.

Lemma contains_string_In xs want : contains_string xs want = true <-> In want xs.
Proof.
  unfold contains_string. rewrite existsb_exists. split.
  - intros (x & Hin & ->%str_eqb_eq). done.
  - intros Hin. exists want. by rewrite str_eqb_refl.
Qed.

(** ** Sorting *)

(** [sort.Strings]. *)
Fixpoint insert_sorted (x : string) (l : list string) : list string :=
  match l with
  | [] => [x]
  | y :: l' => if String.leb x y then x :: l else y :: insert_sorted x l'
  end.
Definition sort_strings (l : list string) : list string := foldr insert_sorted [] l.

Lemma in_insert_sorted x y l : x ∈ insert_sorted y l -> x = y \/ x ∈ l.
Proof.
  induction l as [|z l IH]; cbn; [rewrite list_elem_of_singleton; auto|].
  destruct (String.leb y z); rewrite !elem_of_cons; tauto.
Qed.

Lemma in_sort_strings x l : x ∈ sort_strings l -> x ∈ l.
Proof.
  induction l as [|y l IH]; cbn; [done|]. intros [->|H]%in_insert_sorted;
    [by left|right; by apply IH].
Qed.

Lemma insert_sorted_in x y l : x = y \/ x ∈ l -> x ∈ insert_sorted y l.
Proof.
  induction l as [|z l IH]; cbn; [rewrite list_elem_of_singleton, elem_of_nil; tauto|].
  destruct (String.leb y z); rewrite !elem_of_cons; tauto.
Qed.

Lemma sort_strings_in x l : x ∈ l -> x ∈ sort_strings l.
Proof.
  induction l as [|y l IH]; cbn; [done|]. intros [->|H]%elem_of_cons;
    apply insert_sorted_in; [by left|right; auto].
Qed.

Lemma insert_sorted_perm x l : insert_sorted x l ≡ₚ x :: l.
Proof.
  induction l as [|y l IH]; cbn; [done|]. destruct (String.leb x y); [done|]. rewrite IH. apply Permutation_swap.
Qed.
Lemma sort_strings_perm l : sort_strings l ≡ₚ l.
Proof. induction l as [|x l IH]; cbn; [done|]. by rewrite insert_sorted_perm, IH. Qed.

(** The order in which a Go map is ranged over is unspecified: some permutation
    of its entries. *)
Class MapOrder : Type := shuffle : forall {A : Type}, list A -> list A.
Class MapOrderOk `{MapOrder} : Prop := shuffle_perm : forall {A} (l : list A), shuffle l ≡ₚ l.

Definition demo_order : MapOrder := fun _ l => l.
Lemma demo_order_ok : @MapOrderOk demo_order.
Proof. by intros A l. Qed.
