(* ===== verification/CPath.v ===== *)
(** * Cascading paths (pkg/cpath/cpath.go, types of dict.go)

    The address grammar of assets and telemetry points: the dictionary the
    grammar is driven by, the two parsers, the index rules, the renderers and
    the lint rule.  The theorems characterise exactly which strings parse and
    to what: the parser and the renderer are inverse to each other. *)
From S2P Require Import Prelude.
Open Scope string_scope.
Open Scope list_scope.

(** ** Data *)

Inductive cpath_err : Type :=
  | ErrSyntax
  | ErrBadIndex
  | ErrBadParent
  | ErrUnknownSegment
  | ErrUnknownQuantity
  | ErrBadHost
  | ErrMissingSide.

#[export] Instance cpath_err_eq_dec : EqDecision cpath_err.
Proof. solve_decision. Defined.

Record Node : Type := mkNode { n_Type : string; n_Index : string }.

Record AssetPath : Type := mkAssetPath { ap_Site : string; ap_Nodes : list Node }.

Record Point : Type := mkPoint {
  p_Asset : AssetPath;
  p_Loop : string;
  p_LoopIndex : Z;
  p_Side : string;
  p_Phase : string;
  p_Quantity : string
}.

#[export] Instance Node_eq_dec : EqDecision Node.
Proof. solve_decision. Defined.
#[export] Instance AssetPath_eq_dec : EqDecision AssetPath.
Proof. solve_decision. Defined.
#[export] Instance Point_eq_dec : EqDecision Point.
Proof. solve_decision. Defined.

(** [Level] is a Go string type with two named constants. *)
Definition LevelDevice : string := "device".
Definition LevelChip : string := "chip".

Record TypeDef : Type := mkTypeDef {
  td_Parents : list string;
  td_Level : string;
  td_Desc : string;
  td_AttrsRequired : list string
}.

Record QuantityDef : Type := mkQuantityDef {
  qd_Unit : string;
  qd_Kind : string;
  qd_Host : list string;
  qd_Enum : gmap Z string
}.

Record Dict : Type := mkDict {
  d_Types : gmap string TypeDef;
  d_Quantities : gmap string QuantityDef;
  d_Derived : gmap string QuantityDef;
  d_Loops : gmap string bool;
  d_Sides : gmap string bool;
  d_Phases : gmap string bool;
  d_Domains : gmap string (list string);
  d_Relations : gmap string bool
}.

(** ** The pre-compiled patterns

    Each is the decision procedure of the anchored regular expression the
    source compiles. *)

(** [^[a-z0-9.]+$] *)
Definition is_path_byte (c : ascii) : bool := is_alnum c || byte_eqb c ".".
Definition re_overall (s : string) : bool :=
  negb (str_eqb s EmptyString) && all_bytes is_path_byte s.

(** [^[a-z]{2,8}[0-9]{2}$] *)
Definition re_site (s : string) : bool :=
  let '(letters, rest) := span_bytes is_lower s in
  (2 <=? str_len letters)%nat && (str_len letters <=? 8)%nat &&
  (str_len rest =? 2)%nat && all_bytes is_digit rest.

(** [^([a-z]+)([0-9]+)$], with its two groups. *)
Definition re_node (s : string) : option (string * string) :=
  let '(ty, idx) := span_bytes is_lower s in
  if negb (str_eqb ty EmptyString) && negb (str_eqb idx EmptyString) &&
     all_bytes is_digit idx
  then Some (ty, idx) else None.

(** [^([a-z]+)([0-9])?$], the second group empty when absent. *)
Definition re_loop_name (s : string) : option (string * string) :=
  let '(nm, dg) := span_bytes is_lower s in
  if negb (str_eqb nm EmptyString) && (str_len dg <=? 1)%nat &&
     all_bytes is_digit dg
  then Some (nm, dg) else None.

(** [^(0|[1-9][0-9]{0,2})$] *)
Definition re_chip_index (s : string) : bool :=
  str_eqb s "0" ||
  match s with
  | String c rest =>
      in_range "1" "9" c && all_bytes is_digit rest && (str_len rest <=? 2)%nat
  | EmptyString => false
  end.

(** ** Index rules *)

Definition checkIndex (def : TypeDef) (idx : string) : result cpath_err unit :=
  if str_eqb (td_Level def) LevelDevice then
    if negb (str_len idx =? 3)%nat then Err ErrBadIndex else Ok tt
  else if str_eqb (td_Level def) LevelChip then
    if negb (re_chip_index idx) then Err ErrBadIndex else Ok tt
  else Err ErrBadIndex.

(** ** The parsers *)

(** The guards both parsers start with: the alphabet, no empty segment at the
    ends or doubled dot, at least two segments, and the site segment.  The
    result is the site and the segments after it. *)
Definition path_parts (s : string) : result cpath_err (string * list string) :=
  if negb (re_overall s) || contains ".." s then Err ErrSyntax else
  let parts := split "." s in
  let site := hd EmptyString parts in
  if (length parts <? 2)%nat || str_eqb site EmptyString ||
     str_eqb (List.last parts EmptyString) EmptyString then Err ErrSyntax
  else if negb (re_site site) || has_suffix site "00" then Err ErrSyntax
  else Ok (site, tl parts).

(** The loop of [ParseAssetPath]: every segment must be a typed node. *)
Fixpoint parse_nodes (d : Dict) (prevType : string) (segs : list string) :
    result cpath_err (list Node) :=
  match segs with
  | [] => Ok []
  | seg :: segs' =>
      match re_node seg with
      | None =>
          match d_Types d !! seg with
          | Some _ => Err ErrSyntax
          | None => Err ErrUnknownSegment
          end
      | Some (typeName, idx) =>
          match d_Types d !! typeName with
          | None => Err ErrUnknownSegment
          | Some def =>
              _ ← checkIndex def idx;
              if negb (contains_string (td_Parents def) prevType)
              then Err ErrBadParent
              else
                nodes ← parse_nodes d typeName segs';
                mret (mkNode typeName idx :: nodes)
          end
      end
  end.

Definition ParseAssetPath (d : Dict) (s : string) : result cpath_err AssetPath :=
  '(site, segs) ← path_parts s;
  nodes ← parse_nodes d "site" segs;
  mret (mkAssetPath site nodes).

(** The node pass of [ParsePoint]: consumes typed nodes and hands over the
    segments from the first that is not one. *)
Fixpoint node_pass (d : Dict) (prevType : string) (segs : list string) :
    result cpath_err (list Node * list string) :=
  match segs with
  | [] => Ok ([], [])
  | seg :: segs' =>
      match re_node seg with
      | None =>
          match d_Types d !! seg with
          | Some _ => Err ErrSyntax
          | None => Ok ([], segs)
          end
      | Some (typeName, idx) =>
          match d_Types d !! typeName with
          | None => Ok ([], segs)
          | Some def =>
              _ ← checkIndex def idx;
              if negb (contains_string (td_Parents def) prevType)
              then Err ErrBadParent
              else
                '(nodes, rest) ← node_pass d typeName segs';
                mret (mkNode typeName idx :: nodes, rest)
          end
      end
  end.

(** The variables of the location pass. *)
Record Loc : Type := mkLoc {
  l_loop : string;
  l_loopIndex : Z;
  l_side : string;
  l_phase : string;
  l_stage : Z
}.

Definition loc_init : Loc := mkLoc EmptyString (-1) EmptyString EmptyString 0.

(** [strconv.Atoi] of a one-digit string. *)
Definition atoi_digit (s : string) : Z :=
  match s with
  | String c EmptyString => Z.of_N (N_of_ascii c) - Z.of_N (N_of_ascii "0")
  | _ => 0
  end.

(** One iteration's classification: the category and the updated variables. *)
Definition classify (d : Dict) (seg : string) (st : Loc) : Z * Loc :=
  let '(cat, st) :=
    match re_loop_name seg with
    | Some (nm, dg) =>
        if map_bool (d_Loops d) nm then
          (0, mkLoc nm (if negb (str_eqb dg EmptyString) then atoi_digit dg
                        else l_loopIndex st)
                    (l_side st) (l_phase st) (l_stage st))
        else (-1, st)
    | None => (-1, st)
    end%Z in
  let '(cat, st) :=
    if ((cat <? 0) && map_bool (d_Sides d) seg)%Z
    then (1%Z, mkLoc (l_loop st) (l_loopIndex st) seg (l_phase st) (l_stage st))
    else (cat, st) in
  if ((cat <? 0) && map_bool (d_Phases d) seg)%Z
  then (2%Z, mkLoc (l_loop st) (l_loopIndex st) (l_side st) seg (l_stage st))
  else (cat, st).

(** The location pass stops before the last segment. *)
Fixpoint loc_pass (d : Dict) (segs : list string) (st : Loc) :
    result cpath_err (Loc * list string) :=
  match segs with
  | [] => Ok (st, [])
  | seg :: segs' =>
      match segs' with
      | [] => Ok (st, segs)
      | _ =>
          let '(cat, st1) := classify d seg st in
          if (cat <? 0)%Z then Err ErrUnknownSegment
          else if (cat <? l_stage st1)%Z then Err ErrUnknownSegment
          else loc_pass d segs'
                 (mkLoc (l_loop st1) (l_loopIndex st1) (l_side st1) (l_phase st1)
                        (cat + 1))
      end
  end.

(** The last node's type, or [site] for a site-level address: the host the
    derived-quantity check compares with. *)
Definition last_type (nodes : list Node) : option string :=
  n_Type <$> last nodes.

(** The quantity pass on the last segment. *)
Definition check_quantity (d : Dict) (nodes : list Node) (loc : Loc)
    (qSeg : string) : result cpath_err unit :=
  _ ← (if (length nodes =? 0)%nat then
         match d_Derived d !! qSeg with
         | Some _ => Ok tt
         | None => Err ErrBadHost
         end
       else Ok tt);
  _ ← guard_err (negb (str_eqb (l_loop loc) EmptyString) &&
                 str_eqb (l_side loc) EmptyString && str_eqb qSeg "temp")
        ErrMissingSide;
  match d_Quantities d !! qSeg with
  | Some _ => Ok tt
  | None =>
      match d_Derived d !! qSeg with
      | Some def =>
          match last_type nodes with
          | None =>
              if negb (contains_string (qd_Host def) "site")
              then Err ErrBadHost else Ok tt
          | Some ty =>
              if negb (contains_string (qd_Host def) ty)
              then Err ErrBadHost else Ok tt
          end
      | None => Err ErrUnknownQuantity
      end
  end.

Definition ParsePoint (d : Dict) (s : string) : result cpath_err Point :=
  '(site, segs) ← path_parts s;
  '(nodes, rest) ← node_pass d "site" segs;
  '(loc, rest) ← loc_pass d rest loc_init;
  match rest with
  | [] => Err ErrSyntax
  | qSeg :: _ =>
      _ ← check_quantity d nodes loc qSeg;
      mret (mkPoint (mkAssetPath site nodes) (l_loop loc) (l_loopIndex loc)
                    (l_side loc) (l_phase loc) qSeg)
  end.

(** ** Lint *)

Definition LintPoint (p : Point) : list string :=
  if str_eqb (p_Loop p) EmptyString || negb (str_eqb (p_Side p) EmptyString)
  then []
  else if str_eqb (p_Quantity p) "flow" || str_eqb (p_Quantity p) "press"
  then ["water-loop quantity " +:+ p_Quantity p +:+
        " should carry side (supply/return)"]
  else [].

(** ** Renderers *)

Definition node_seg (n : Node) : string := n_Type n +:+ n_Index n.

Definition AssetPath_String (p : AssetPath) : string :=
  ap_Site p +:+ dotted "." (node_seg <$> ap_Nodes p).

(** [strconv.Itoa] *)
Definition itoa (z : Z) : string := pretty z.

Definition Point_String (p : Point) : string :=
  AssetPath_String (p_Asset p) +:+
  (if negb (str_eqb (p_Loop p) EmptyString) then
     String "." (p_Loop p +:+
       (if (0 <=? p_LoopIndex p)%Z then itoa (p_LoopIndex p) else EmptyString))
   else EmptyString) +:+
  (if negb (str_eqb (p_Side p) EmptyString)
   then String "." (p_Side p) else EmptyString) +:+
  (if negb (str_eqb (p_Phase p) EmptyString)
   then String "." (p_Phase p) else EmptyString) +:+
  String "." (p_Quantity p).

(** ** Segments and patterns *)

(** A path segment: non-empty, lower-case letters and digits. *)
Definition seg_ok (s : string) : bool :=
  negb (str_eqb s EmptyString) && all_bytes is_alnum s.

Definition site_ok (s : string) : bool := re_site s && negb (has_suffix s "00").

Lemma seg_ok_spec s :
  seg_ok s = true <-> s <> EmptyString /\ all_bytes is_alnum s = true.
Proof. unfold seg_ok. by rewrite andb_true_iff, negb_true_iff, str_eqb_neq. Qed.

Lemma seg_ok_no_dot s : seg_ok s = true -> no_byte "." s = true.
Proof.
  intros [? H]%seg_ok_spec. eapply all_bytes_impl; [|done].
  intros c Hc. apply negb_true_iff, byte_eqb_neq. eauto with cios.
Qed.

Lemma all_lower_alnum s : all_bytes is_lower s = true -> all_bytes is_alnum s = true.
Proof. apply all_bytes_impl. intros c Hc. unfold is_alnum. by rewrite Hc. Qed.

Lemma all_digit_alnum s : all_bytes is_digit s = true -> all_bytes is_alnum s = true.
Proof.
  apply all_bytes_impl. intros c Hc. unfold is_alnum. by rewrite Hc, orb_true_r.
Qed.
#[export] Hint Resolve seg_ok_no_dot all_lower_alnum all_digit_alnum : cios.

Lemma span_lower_digits t i :
  all_bytes is_lower t = true -> all_bytes is_digit i = true ->
  span_bytes is_lower (t +:+ i) = (t, i).
Proof.
  intros Ht Hi. apply span_bytes_split; [done|].
  destruct i as [|c i]; [done|]. cbn in Hi. bool_simpl. eauto with cios.
Qed.

Lemma re_node_spec seg t i :
  re_node seg = Some (t, i) <->
  seg = t +:+ i /\ t <> EmptyString /\ i <> EmptyString /\
  all_bytes is_lower t = true /\ all_bytes is_digit i = true.
Proof.
  unfold re_node. split.
  - pose proof (span_bytes_app is_lower seg) as Happ.
    pose proof (span_bytes_all is_lower seg) as Hall.
    destruct (span_bytes is_lower seg) as [t' i']; cbn in *.
    case_match; [|done]. intros [= <- <-]. bool_simpl.
    by rewrite <- !str_eqb_neq.
  - intros (-> & Ht & Hi & Hlo & Hdi). rewrite span_lower_digits by done.
    apply str_eqb_neq in Ht, Hi. by rewrite Ht, Hi, Hdi.
Qed.

Lemma re_loop_name_spec seg nm dg :
  re_loop_name seg = Some (nm, dg) <->
  seg = nm +:+ dg /\ nm <> EmptyString /\ str_len dg <= 1 /\
  all_bytes is_lower nm = true /\ all_bytes is_digit dg = true.
Proof.
  unfold re_loop_name. split.
  - pose proof (span_bytes_app is_lower seg) as Happ.
    pose proof (span_bytes_all is_lower seg) as Hall.
    destruct (span_bytes is_lower seg) as [t' i']; cbn in *.
    case_match; [|done]. intros [= <- <-]. bool_simpl.
    rewrite <- str_eqb_neq. repeat split; try done. by apply Nat.leb_le.
  - intros (-> & Ht & Hi & Hlo & Hdi). rewrite span_lower_digits by done.
    apply str_eqb_neq in Ht. apply Nat.leb_le in Hi. by rewrite Ht, Hi, Hdi.
Qed.

(** ** The shared guards *)

Lemma contains_dots_skip a s :
  no_byte "." a = true ->
  contains ".." (a +:+ s) = contains ".." s.
Proof.
  unfold no_byte. induction a as [|c a IH]; intros H; [done|]. cbn in H.
  bool_simpl. rewrite <- (IH H0). cbn [String.append contains has_prefix].
  by rewrite (byte_eqb_sym "."), H.
Qed.

Lemma contains_dots_join xs :
  Forall (fun x => seg_ok x = true) xs -> contains ".." (join "." xs) = false.
Proof.
  induction 1 as [|x xs Hx Hxs IH]; [done|].
  rewrite join_dotted, contains_dots_skip by eauto with cios.
  destruct Hxs as [|y ys Hy Hys]; [done|].
  rewrite join_dotted in IH. cbn [dotted].
  apply seg_ok_spec in Hy as [? Hy]. destruct y as [|c y]; [done|].
  cbn in Hy. bool_simpl.
  cbn [contains]. rewrite IH, orb_false_r. cbn [String.append has_prefix].
  destruct (byte_eqb "." c) eqn:E; [|done].
  apply byte_eqb_eq in E as <-. done.
Qed.

Lemma re_overall_join xs :
  xs <> [] -> Forall (fun x => seg_ok x = true) xs ->
  re_overall (join "." xs) = true.
Proof.
  intros Hne Hxs. destruct Hxs as [|x xs Hx Hxs]; [done|]. clear Hne.
  rewrite join_dotted. unfold re_overall. bool_simpl.
  - apply negb_true_iff, str_eqb_neq. intros [-> _]%str_app_nil_inv.
    by apply seg_ok_spec in Hx as [? _].
  - rewrite all_bytes_app. bool_simpl.
    + apply seg_ok_spec in Hx as [_ Hx]. eapply all_bytes_impl; [|done].
      intros c Hc. unfold is_path_byte. by rewrite Hc.
    + clear Hx x. induction Hxs as [|x xs Hx Hxs IH]; [done|].
      cbn [dotted all_bytes]. rewrite all_bytes_app, IH, andb_true_r.
      apply seg_ok_spec in Hx as [_ Hx]. cbn. eapply all_bytes_impl; [|done].
      intros c Hc. unfold is_path_byte. by rewrite Hc.
Qed.

Lemma split_segs s :
  re_overall s = true -> contains ".." s = false ->
  hd EmptyString (split "." s) <> EmptyString ->
  List.last (split "." s) EmptyString <> EmptyString ->
  Forall (fun x => seg_ok x = true) (split "." s).
Proof.
  intros Ho Hc Hh Hl. unfold re_overall in Ho. bool_simpl.
  apply split_all_bytes in H0.
  assert (Forall (fun p => p <> EmptyString) (split "." s)) as Hne.
  { destruct (split "." s) as [|x xs] eqn:Hs; [constructor|].
    constructor; [done|].
    pose proof (split_nonempty_tail "." s Hc) as Ht. rewrite Hs in Ht.
    apply Ht. rewrite <- Hs in *. rewrite last_lookup, Hs. cbn in *.
    rewrite Hs in Hl. clear -Hl.
    revert x Hl. induction xs as [|y ys IH]; intros x Hl; cbn in *; [congruence|].
    apply (IH y). by destruct ys. }
  rewrite Forall_forall in *. intros x Hx. apply seg_ok_spec. auto.
Qed.

Lemma path_parts_spec s site segs :
  path_parts s = Ok (site, segs) <->
  s = join "." (site :: segs) /\ site_ok site = true /\ segs <> [] /\
  Forall (fun x => seg_ok x = true) (site :: segs).
Proof.
  unfold path_parts, site_ok. split.
  - case_match; [done|]. case_match; [done|]. case_match; [done|].
    bool_simpl. intros [= <- <-].
    destruct (split "." s) as [|x xs] eqn:Hs; [by apply split_not_nil in Hs|].
    cbn [hd tl] in *.
    assert (Forall (fun x => seg_ok x = true) (x :: xs)) as Hall.
    { rewrite <- Hs in *. apply split_segs; try done.
      - apply str_eqb_neq. by rewrite Hs.
      - apply str_eqb_neq. done. }
    repeat split; try done.
    + rewrite <- Hs. by rewrite join_split.
    + by bool_simpl; [|rewrite H2].
    + intros ->. by cbn in H0.
  - intros (-> & Hsite & Hne & Hall).
    rewrite re_overall_join, contains_dots_join by done. cbn [negb orb].
    rewrite split_join; [|done|eapply Forall_impl; [done|]; eauto with cios].
    cbn [hd tl]. bool_simpl. rewrite H, H0. cbn [negb orb].
    destruct segs as [|y ys]; [done|]. cbn [length Nat.ltb Nat.leb].
    inv Hall. assert (site <> EmptyString) by (intros ->; done).
    rewrite (proj2 (str_eqb_neq _ _)) by done. cbn [orb].
    case_match eqn:El; [|done]. apply str_eqb_eq in El. exfalso.
    assert (Hin : In (List.last (site :: y :: ys) EmptyString) (site :: y :: ys))
      by (apply exists_last in Hne as (l & a & Heq); rewrite Heq;
          rewrite app_comm_cons, last_last; apply in_or_app; right; by left).
    rewrite El in Hin. destruct Hin as [?|Hin]; [congruence|].
    rewrite List.Forall_forall in H4. by apply H4 in Hin.
Qed.

(** ** Asset paths *)

Definition node_fmt (n : Node) : Prop :=
  n_Type n <> EmptyString /\ n_Index n <> EmptyString /\
  all_bytes is_lower (n_Type n) = true /\ all_bytes is_digit (n_Index n) = true.

(** A legal chain of nodes below a segment of type [prev]: each type is in the
    dictionary, admits the previous type as parent, and its index is legal for
    its level. *)
Inductive nodes_ok (d : Dict) : string -> list Node -> Prop :=
  | nodes_ok_nil prev : nodes_ok d prev []
  | nodes_ok_cons prev n def ns :
      node_fmt n ->
      d_Types d !! n_Type n = Some def ->
      checkIndex def (n_Index n) = Ok tt ->
      In prev (td_Parents def) ->
      nodes_ok d (n_Type n) ns ->
      nodes_ok d prev (n :: ns).

Definition asset_ok (d : Dict) (a : AssetPath) : Prop :=
  site_ok (ap_Site a) = true /\ seg_ok (ap_Site a) = true /\
  ap_Nodes a <> [] /\ nodes_ok d "site" (ap_Nodes a).

Lemma node_seg_ok n : node_fmt n -> seg_ok (node_seg n) = true.
Proof.
  intros (Ht & Hi & Hl & Hd). unfold node_seg. apply seg_ok_spec. split.
  - by intros [??]%str_app_nil_inv.
  - rewrite all_bytes_app. bool_simpl; eauto with cios.
Qed.

Lemma re_node_seg n : node_fmt n -> re_node (node_seg n) = Some (n_Type n, n_Index n).
Proof. intros (?&?&?&?). by apply re_node_spec. Qed.

Lemma nodes_ok_segs d prev ns :
  nodes_ok d prev ns -> Forall (fun x => seg_ok x = true) (node_seg <$> ns).
Proof. induction 1; cbn; constructor; auto using node_seg_ok. Qed.

Lemma parse_nodes_spec d prev segs ns :
  parse_nodes d prev segs = Ok ns <->
  nodes_ok d prev ns /\ node_seg <$> ns = segs.
Proof.
  revert prev ns. induction segs as [|seg segs IH]; intros prev ns; cbn.
  - split; [intros [= <-]; split; [constructor|done]|].
    intros [_ H]. by destruct ns.
  - split.
    + destruct (re_node seg) as [[t i]|] eqn:Hre; [|by case_match].
      apply re_node_spec in Hre as (-> & ? & ? & ? & ?).
      case_match; [|done]. intros H'. inv_ok. case_match; [done|]. inv_ok.
      bool_simpl. apply contains_string_In in H4. destruct v.
      apply IH in Hok1 as [? <-]. split; [|done]. by econstructor.
    + intros [Hok Heq]. destruct ns as [|n ns]; [done|]. cbn in Heq.
      injection Heq as <- <-. inv Hok. rewrite re_node_seg by done.
      rewrite H2, H3. cbn [mbind result_bind].
      apply contains_string_In in H5 as ->. cbn [negb].
      rewrite (proj2 (IH (n_Type n) ns)) by done. by destruct n.
Qed.

Lemma AssetPath_String_join a :
  AssetPath_String a = join "." (ap_Site a :: (node_seg <$> ap_Nodes a)).
Proof. by rewrite join_dotted. Qed.

(** ** Points *)

(** The rules on the last segment: L48 (a site-level address carries a derived
    quantity), L47 (a water-loop temperature needs a side), and a derived
    quantity's host list. *)
Definition quantity_ok (d : Dict) (nodes : list Node) (loop side q : string) : Prop :=
  (nodes = [] -> is_Some (d_Derived d !! q)) /\
  (loop <> EmptyString -> q = "temp" -> side <> EmptyString) /\
  (is_Some (d_Quantities d !! q) \/
   exists def, d_Derived d !! q = Some def /\
     In (default "site" (last_type nodes)) (qd_Host def)).

(** The location variables: each is absent or registered in its table; a loop
    index is one digit and only accompanies a loop. *)
Definition loop_ok (d : Dict) (loop : string) (idx : Z) : Prop :=
  (loop = EmptyString /\ idx = -1)%Z \/
  (loop <> EmptyString /\ all_bytes is_lower loop = true /\
   map_bool (d_Loops d) loop = true /\ -1 <= idx <= 9)%Z.

Definition opt_in (m : gmap string bool) (s : string) : Prop :=
  s = EmptyString \/ map_bool m s = true.

Record point_ok (d : Dict) (p : Point) : Prop := mkPointOk {
  pk_site : site_ok (ap_Site (p_Asset p)) = true;
  pk_site_seg : seg_ok (ap_Site (p_Asset p)) = true;
  pk_nodes : nodes_ok d "site" (ap_Nodes (p_Asset p));
  pk_loop : loop_ok d (p_Loop p) (p_LoopIndex p);
  pk_side : opt_in (d_Sides d) (p_Side p);
  pk_phase : opt_in (d_Phases d) (p_Phase p);
  pk_quantity_seg : seg_ok (p_Quantity p) = true;
  pk_quantity : quantity_ok d (ap_Nodes (p_Asset p)) (p_Loop p) (p_Side p)
                  (p_Quantity p)
}.

Definition opt_seg (s : string) : list string :=
  if str_eqb s EmptyString then [] else [s].

Definition loop_seg (loop : string) (idx : Z) : string :=
  loop +:+ (if (0 <=? idx)%Z then itoa idx else EmptyString).

(** The location segments of a rendered point. *)
Definition loc_segs (loop : string) (idx : Z) (side phase : string) : list string :=
  (if str_eqb loop EmptyString then [] else [loop_seg loop idx]) ++
  opt_seg side ++ opt_seg phase.

Lemma dotted_if sep (b : bool) x :
  dotted sep (if b then [] else [x]) = if negb b then String sep x else EmptyString.
Proof. destruct b; cbn; [done|]. by rewrite str_app_nil_r. Qed.

Lemma Point_String_join p :
  Point_String p =
  join "." (ap_Site (p_Asset p) ::
    (node_seg <$> ap_Nodes (p_Asset p)) ++
    loc_segs (p_Loop p) (p_LoopIndex p) (p_Side p) (p_Phase p) ++
    [p_Quantity p]).
Proof.
  rewrite join_dotted. unfold Point_String, AssetPath_String, loc_segs, opt_seg.
  rewrite !dotted_app, !dotted_if, <- !str_app_assoc. cbn [dotted].
  by rewrite str_app_nil_r.
Qed.

Lemma check_quantity_spec d nodes loc q :
  check_quantity d nodes loc q = Ok tt <->
  quantity_ok d nodes (l_loop loc) (l_side loc) q.
Proof.
  unfold check_quantity, quantity_ok, last_type. split.
  - intros H. inv_ok. destruct v, v0. repeat split.
    + intros ->. cbn in Hok. by destruct (d_Derived d !! q).
    + intros Hl -> Hs. rewrite Hs in Hok1. apply str_eqb_neq in Hl.
      by rewrite Hl in Hok1.
    + destruct (d_Quantities d !! q); [by left|right].
      destruct (d_Derived d !! q) as [def|]; [|done]. exists def; split; [done|].
      rewrite <- contains_string_In.
      destruct (last nodes); cbn in *; case_match eqn:E; try done;
        by apply negb_false_iff in E.
  - intros (H1 & H2 & H3).
    assert ((if (length nodes =? 0)%nat then
               match d_Derived d !! q with Some _ => Ok tt | None => Err ErrBadHost end
             else Ok tt) = Ok tt) as ->.
    { destruct nodes; [|done]. by destruct H1 as [? ->]. }
    cbn [mbind result_bind].
    assert (negb (str_eqb (l_loop loc) EmptyString) &&
            str_eqb (l_side loc) EmptyString && str_eqb q "temp" = false) as ->.
    { destruct (str_eqb (l_loop loc) EmptyString) eqn:El; [done|].
      destruct (str_eqb q "temp") eqn:Eq; [|by rewrite andb_false_r].
      apply str_eqb_neq in El. apply str_eqb_eq in Eq. specialize (H2 El Eq).
      apply str_eqb_neq in H2. by rewrite H2. }
    cbn [guard_err mbind result_bind].
    destruct H3 as [[? ->]|(def & -> & Hin)]; [done|].
    apply contains_string_In in Hin.
    case_match; [done|]. destruct (last nodes); cbn in *; by rewrite Hin.
Qed.

Lemma node_pass_sound d prev segs ns rest :
  node_pass d prev segs = Ok (ns, rest) ->
  nodes_ok d prev ns /\ segs = (node_seg <$> ns) ++ rest.
Proof.
  revert prev ns. induction segs as [|seg segs IH]; intros prev ns; cbn.
  - intros [= <- <-]. split; [constructor|done].
  - destruct (re_node seg) as [[t i]|] eqn:Hre.
    + apply re_node_spec in Hre as (-> & ? & ? & ? & ?).
      case_match; [|intros [= <- <-]; split; [constructor|done]].
      intros H'. inv_ok. case_match; [done|]. inv_ok. destruct v0 as [ns' r'].
      inv_ok. bool_simpl. apply contains_string_In in H4. destruct v.
      simplify_eq. apply IH in Hok1 as [? ->]. split; [|done]. by econstructor.
    + case_match; [done|]. intros [= <- <-]. split; [constructor|done].
Qed.

(** [seg] is not read as a node: neither its stem, when an index follows, nor
    the bare segment is a type name. *)
Definition not_node (d : Dict) (seg : string) : Prop :=
  match re_node seg with
  | Some (t, _) => d_Types d !! t = None
  | None => d_Types d !! seg = None
  end.

Lemma node_pass_complete d prev ns rest :
  nodes_ok d prev ns ->
  match rest with seg :: _ => not_node d seg | [] => True end ->
  node_pass d prev ((node_seg <$> ns) ++ rest) = Ok (ns, rest).
Proof.
  intros Hns Hrest. induction Hns as [prev|prev n def ns Hf Ht Hi Hp Hns IH].
  - destruct rest as [|seg rest]; [done|]. unfold not_node in Hrest. cbn.
    destruct (re_node seg) as [[t i]|]; by rewrite Hrest.
  - cbn. rewrite re_node_seg, Ht, Hi by done. cbn [mbind result_bind].
    apply contains_string_In in Hp as ->. cbn [negb].
    rewrite IH by done. by destruct n.
Qed.

(** ** The location pass *)

Definition digit_string (dg : string) : Prop :=
  str_len dg <= 1 /\ all_bytes is_digit dg = true.

Lemma digit_roundtrip dg :
  digit_string dg -> dg <> EmptyString ->
  (0 <= atoi_digit dg <= 9)%Z /\ itoa (atoi_digit dg) = dg.
Proof.
  intros [Hl Hd] Hne. destruct dg as [|c [|]]; [done| |cbn in Hl; lia].
  cbn in Hd. rewrite andb_true_r in Hd. unfold itoa, atoi_digit.
  byte_cases c; try discriminate Hd; vm_compute; done.
Qed.

Definition loc_inv (d : Dict) (st : Loc) : Prop :=
  loop_ok d (l_loop st) (l_loopIndex st) /\
  opt_in (d_Sides d) (l_side st) /\ opt_in (d_Phases d) (l_phase st) /\
  (l_stage st <= 0 -> l_loop st = EmptyString)%Z /\
  (l_stage st <= 1 -> l_side st = EmptyString)%Z /\
  (l_stage st <= 2 -> l_phase st = EmptyString)%Z.

Definition st_segs (st : Loc) : list string :=
  loc_segs (l_loop st) (l_loopIndex st) (l_side st) (l_phase st).

Definition with_stage (st : Loc) (n : Z) : Loc :=
  mkLoc (l_loop st) (l_loopIndex st) (l_side st) (l_phase st) n.

(** [seg] is not read as a water loop: its stem is not a loop name. *)
Definition not_loop (d : Dict) (seg : string) : Prop :=
  forall nm dg, re_loop_name seg = Some (nm, dg) -> map_bool (d_Loops d) nm = false.

Definition set_side (st : Loc) (s : string) : Loc :=
  mkLoc (l_loop st) (l_loopIndex st) s (l_phase st) (l_stage st).
Definition set_phase (st : Loc) (s : string) : Loc :=
  mkLoc (l_loop st) (l_loopIndex st) (l_side st) s (l_stage st).

Lemma classify_loop d seg nm dg st :
  re_loop_name seg = Some (nm, dg) -> map_bool (d_Loops d) nm = true ->
  classify d seg st =
    (0%Z, mkLoc nm (if negb (str_eqb dg EmptyString) then atoi_digit dg
                    else l_loopIndex st)
            (l_side st) (l_phase st) (l_stage st)).
Proof. unfold classify. by intros -> ->. Qed.

Lemma classify_not_loop d seg st :
  not_loop d seg ->
  classify d seg st =
    if map_bool (d_Sides d) seg then (1%Z, set_side st seg)
    else if map_bool (d_Phases d) seg then (2%Z, set_phase st seg)
    else ((-1)%Z, st).
Proof.
  intros Hn. unfold classify.
  destruct (re_loop_name seg) as [[nm dg]|] eqn:E; [rewrite (Hn _ _ E)|];
    cbn; by destruct (map_bool (d_Sides d) seg); cbn;
    destruct (map_bool (d_Phases d) seg).
Qed.

Lemma loop_cases d seg :
  not_loop d seg \/
  exists nm dg, re_loop_name seg = Some (nm, dg) /\ map_bool (d_Loops d) nm = true.
Proof.
  unfold not_loop. destruct (re_loop_name seg) as [[nm dg]|]; [|by left].
  destruct (map_bool (d_Loops d) nm) eqn:E; [right; eauto|left].
  by intros ? ? [= <- <-].
Qed.

Lemma opt_seg_ne s : s <> EmptyString -> opt_seg s = [s].
Proof. intros H. unfold opt_seg. apply str_eqb_neq in H. by rewrite H. Qed.

Lemma loop_segs_ne loop idx :
  loop <> EmptyString ->
  loc_segs loop idx EmptyString EmptyString = [loop_seg loop idx].
Proof. intros H. unfold loc_segs. apply str_eqb_neq in H. by rewrite H. Qed.

(** Closes the components of [loc_inv]: an absent variable or stage arithmetic. *)
Ltac loc_solve :=
  repeat split; intros; eauto; try lia; try (exfalso; lia);
  try match goal with H : (_ <= _)%Z -> ?P |- ?P => apply H; lia end.

(** A consumed segment extends the rendering by itself and keeps the
    invariant: the stage counter forces the order loop, side, phase. *)
Lemma classify_step d seg st cat st1 :
  loc_inv d st -> seg <> EmptyString ->
  classify d seg st = (cat, st1) -> (0 <= cat)%Z -> (l_stage st1 <= cat)%Z ->
  loc_inv d (with_stage st1 (cat + 1)) /\ st_segs st1 = st_segs st ++ [seg].
Proof.
  intros (Hl & Hs & Hp & H0 & H1 & H2) Hne Hc Hcat Hst.
  destruct (loop_cases d seg) as [Hn|(nm & dg & Hre & Hin)].
  - rewrite classify_not_loop in Hc by done.
    unfold loc_inv, st_segs, opt_in.
    destruct (map_bool (d_Sides d) seg) eqn:Es; [|destruct (map_bool (d_Phases d) seg) eqn:Ep];
      injection Hc as <- <-; cbn in *; [| |lia].
    + split; [loc_solve|]. rewrite H1, H2 by lia.
      unfold loc_segs. rewrite (opt_seg_ne seg) by done.
      by rewrite <- !app_assoc.
    + split; [loc_solve|]. rewrite H2 by lia.
      unfold loc_segs. rewrite (opt_seg_ne seg) by done.
      by rewrite !app_nil_r, app_assoc.
  - rewrite (classify_loop _ _ _ _ _ Hre Hin) in Hc. injection Hc as <- <-.
    cbn in Hst. apply re_loop_name_spec in Hre as (-> & Hnm & Hdl & Hlow & Hdd).
    unfold loc_inv, st_segs, opt_in; cbn -[loc_segs].
    rewrite H1, H2, H0 by lia. rewrite loop_segs_ne by done.
    destruct Hl as [[_ Hidx]|[Hbad _]]; [|by rewrite H0 in Hbad by lia].
    unfold loop_ok, loop_seg.
    destruct (str_eqb dg EmptyString) eqn:Edg; cbn [negb].
    + apply str_eqb_eq in Edg as ->. rewrite Hidx. cbn.
      split; [loc_solve; right; loc_solve|done].
    + apply str_eqb_neq in Edg. destruct (digit_roundtrip dg) as [Hr ->]; [by split|done|].
      rewrite (proj2 (Z.leb_le 0 (atoi_digit dg))) by lia.
      split; [loc_solve; right; loc_solve|done].
Qed.

Lemma loc_pass_sound d segs st st' rest :
  loc_inv d st -> Forall (fun s => s <> EmptyString) segs ->
  loc_pass d segs st = Ok (st', rest) ->
  loc_inv d st' /\ st_segs st' ++ rest = st_segs st ++ segs /\ length rest <= 1.
Proof.
  intros Hinv Hne. revert st Hinv.
  induction Hne as [|seg segs Hseg Hsegs IH]; intros st Hinv H.
  - cbn in H. simplify_eq. cbn. auto with lia.
  - destruct segs as [|seg2 segs]; [cbn in H; simplify_eq; cbn; auto with lia|].
    cbn -[classify] in H. destruct (classify d seg st) as [cat st1] eqn:Hc.
    case_match; [done|]. case_match; [done|].
    apply Z.ltb_ge in H0, H1.
    destruct (classify_step d seg st cat st1) as [Hi Hs]; try done.
    apply IH in H as (? & Heq & ?); [|done]. split; [done|]. split; [|done].
    rewrite Heq. change (st_segs (mkLoc (l_loop st1) (l_loopIndex st1) (l_side st1)
      (l_phase st1) (cat + 1))) with (st_segs st1). rewrite Hs.
    by rewrite <- app_assoc.
Qed.

Lemma loc_inv_init d : loc_inv d loc_init.
Proof. unfold loc_inv, opt_in. loc_solve. by left. Qed.

(** ** Disjoint vocabularies

    [tools/speccheck] keeps the dictionary's tables disjoint and the parser
    relies on it: loop names are alphabetic and not types; no side, phase or
    quantity reads as a node or a loop; no phase is a side. *)
Record vocab_ok (d : Dict) : Prop := mkVocabOk {
  vo_loop : forall w, map_bool (d_Loops d) w = true -> d_Types d !! w = None;
  vo_side : forall w, map_bool (d_Sides d) w = true ->
    seg_ok w = true /\ not_node d w /\ not_loop d w;
  vo_phase : forall w, map_bool (d_Phases d) w = true ->
    seg_ok w = true /\ not_node d w /\ not_loop d w /\
    map_bool (d_Sides d) w = false;
  vo_quantity : forall w,
    is_Some (d_Quantities d !! w) \/ is_Some (d_Derived d !! w) -> not_node d w
}.

Lemma loc_pass_cons d seg segs st cat st1 :
  segs <> [] -> classify d seg st = (cat, st1) ->
  (0 <= cat)%Z -> (l_stage st1 <= cat)%Z ->
  loc_pass d (seg :: segs) st = loc_pass d segs (with_stage st1 (cat + 1)).
Proof.
  intros Hne Hc H0 H1. destruct segs as [|s2 segs]; [done|].
  cbn -[classify]. rewrite Hc. apply Z.ltb_ge in H0, H1. by rewrite H0, H1.
Qed.

Lemma itoa_digit idx :
  (0 <= idx <= 9)%Z -> digit_string (itoa idx) /\ itoa idx <> EmptyString /\
  atoi_digit (itoa idx) = idx.
Proof.
  intros H. assert (idx = 0 \/ idx = 1 \/ idx = 2 \/ idx = 3 \/ idx = 4 \/ idx = 5
    \/ idx = 6 \/ idx = 7 \/ idx = 8 \/ idx = 9)%Z as Hc by lia.
  repeat destruct Hc as [->|Hc]; try subst idx; vm_compute; repeat split; try done; lia.
Qed.

Lemma loop_seg_name loop idx :
  loop <> EmptyString -> all_bytes is_lower loop = true -> (-1 <= idx <= 9)%Z ->
  re_loop_name (loop_seg loop idx) =
    Some (loop, if (0 <=? idx)%Z then itoa idx else EmptyString).
Proof.
  intros Hne Hlow Hidx. apply re_loop_name_spec. unfold loop_seg.
  destruct (0 <=? idx)%Z eqn:E; [apply Z.leb_le in E|cbn; auto with lia].
  destruct (itoa_digit idx) as ([??]&?&?); [lia|]. done.
Qed.

Section complete.
Context (d : Dict) (Hv : vocab_ok d).

Lemma loop_step loop idx rest :
  rest <> [] -> loop_ok d loop idx ->
  exists s, (s <= 1)%Z /\
  loc_pass d ((if str_eqb loop EmptyString then [] else [loop_seg loop idx]) ++ rest)
    loc_init = loc_pass d rest (mkLoc loop idx EmptyString EmptyString s).
Proof.
  intros Hr [[-> ->]|(Hne & Hlow & Hin & Hidx)]; [by exists 0%Z|].
  exists 1%Z. split; [done|]. apply str_eqb_neq in Hne as Hneb. rewrite Hneb. cbn [app].
  erewrite loc_pass_cons;
    [|done|by apply classify_loop; [apply loop_seg_name|]|done|done].
  unfold with_stage; cbn -[loc_pass]. do 2 f_equal.
  destruct (0 <=? idx)%Z eqn:E; cbn; [|apply Z.leb_gt in E; lia].
  apply Z.leb_le in E. destruct (itoa_digit idx) as (?&Hn&?); [lia|].
  apply str_eqb_neq in Hn. by rewrite Hn.
Qed.

Lemma side_step loop idx side s rest :
  rest <> [] -> (s <= 1)%Z -> opt_in (d_Sides d) side ->
  exists s', (s' <= 2)%Z /\
  loc_pass d (opt_seg side ++ rest) (mkLoc loop idx EmptyString EmptyString s) =
  loc_pass d rest (mkLoc loop idx side EmptyString s').
Proof.
  intros Hr Hs [->|Hin]; [exists s; split; [lia|done]|].
  destruct (vo_side d Hv side Hin) as ([Hne _]%seg_ok_spec & _ & Hnl).
  exists 2%Z. split; [done|]. rewrite opt_seg_ne by done. cbn [app].
  erewrite loc_pass_cons; [|done|by rewrite classify_not_loop, Hin|done|done].
  done.
Qed.

Lemma phase_step loop idx side phase s rest :
  rest <> [] -> (s <= 2)%Z -> opt_in (d_Phases d) phase ->
  exists s',
  loc_pass d (opt_seg phase ++ rest) (mkLoc loop idx side EmptyString s) =
  loc_pass d rest (mkLoc loop idx side phase s').
Proof.
  intros Hr Hs [->|Hin]; [by exists s|].
  destruct (vo_phase d Hv phase Hin) as ([Hne _]%seg_ok_spec & _ & Hnl & Hns).
  exists 3%Z. rewrite opt_seg_ne by done. cbn [app].
  erewrite loc_pass_cons; [|done|by rewrite classify_not_loop, Hns, Hin|done|done].
  done.
Qed.

Lemma loc_pass_complete loop idx side phase q :
  loop_ok d loop idx -> opt_in (d_Sides d) side -> opt_in (d_Phases d) phase ->
  exists s, loc_pass d (loc_segs loop idx side phase ++ [q]) loc_init =
    Ok (mkLoc loop idx side phase s, [q]).
Proof.
  intros Hl Hs Hp. unfold loc_segs. rewrite <- !app_assoc.
  destruct (loop_step loop idx (opt_seg side ++ opt_seg phase ++ [q]))
    as (s1 & ? & ->); [by intros [_ [_ ?]%app_eq_nil]%app_eq_nil|done|].
  destruct (side_step loop idx side s1 (opt_seg phase ++ [q]))
    as (s2 & ? & ->); [by intros [_ ?]%app_eq_nil|done|done|].
  destruct (phase_step loop idx side phase s2 [q]) as (s3 & ->); [done..|].
  by exists s3.
Qed.

(** The first segment after the nodes does not read as a node. *)
Lemma loc_head_not_node loop idx side phase q :
  loop_ok d loop idx -> opt_in (d_Sides d) side -> opt_in (d_Phases d) phase ->
  not_node d q ->
  match loc_segs loop idx side phase ++ [q] with
  | seg :: _ => not_node d seg | [] => True end.
Proof.
  intros Hl Hs Hp Hq. unfold loc_segs, opt_seg.
  destruct (str_eqb loop EmptyString) eqn:El.
  - destruct (str_eqb side EmptyString) eqn:Es.
    + destruct (str_eqb phase EmptyString) eqn:Ep; [done|].
      apply str_eqb_neq in Ep. destruct Hp as [?|Hp]; [done|].
      by apply (vo_phase d Hv) in Hp as (_ & ? & _).
    + apply str_eqb_neq in Es. destruct Hs as [?|Hs]; [done|].
      by apply (vo_side d Hv) in Hs as (_ & ? & _).
  - apply str_eqb_neq in El. destruct Hl as [[? _]|(_ & Hlow & Hin & Hidx)]; [done|].
    cbn. apply (vo_loop d Hv) in Hin. unfold loop_seg.
    set (i := if (0 <=? idx)%Z then itoa idx else EmptyString).
    assert (all_bytes is_digit i = true) as Hi.
    { subst i. destruct (0 <=? idx)%Z eqn:E; [apply Z.leb_le in E|done].
      destruct (itoa_digit idx) as ([??]&?&?); [lia|done]. }
    unfold not_node, re_node. rewrite span_lower_digits by done.
    destruct (_ && _) eqn:E; [done|]. apply andb_false_iff in E as [E|E]; [|congruence].
    apply str_eqb_neq in El. rewrite El in E. cbn in E.
    apply negb_false_iff, str_eqb_eq in E as ->. by rewrite str_app_nil_r.
Qed.
End complete.

(** ** The characterisation theorems *)

Lemma asset_path_iff d s a :
  ParseAssetPath d s = Ok a <-> asset_ok d a /\ AssetPath_String a = s.
Proof.
  unfold ParseAssetPath, asset_ok. split.
  - intros H. inv_ok. destruct v as [site segs]. inv_ok.
    apply path_parts_spec in Hok as (-> & ? & ? & Hall). inv Hall.
    apply parse_nodes_spec in Hok1 as [? <-]. rewrite AssetPath_String_join.
    cbn. repeat split; try done. by intros ->.
  - intros [(Hs & Hseg & Hne & Hns) <-]. rewrite AssetPath_String_join.
    rewrite (proj2 (path_parts_spec _ (ap_Site a) (node_seg <$> ap_Nodes a))).
    + cbn [mbind result_bind].
      rewrite (proj2 (parse_nodes_spec _ _ _ (ap_Nodes a))) by done. by destruct a.
    + repeat split; try done; [by destruct (ap_Nodes a)|].
      constructor; [done|]. by eapply nodes_ok_segs.
Qed.

Lemma parsed_point_ok d s p :
  ParsePoint d s = Ok p -> Point_String p = s /\ point_ok d p.
Proof.
  unfold ParsePoint. intros H. inv_ok.
  destruct v as [site segs]. inv_ok. destruct v as [ns rest]. inv_ok.
  destruct v as [loc rest']. destruct rest' as [|q rest']; [done|]. inv_ok.
  apply path_parts_spec in Hok as (-> & ? & ? & Hall).
  apply node_pass_sound in Hok1 as [Hns ->]. inv Hall.
  rename select (Forall _ (_ ++ _)) into Hall.
  apply Forall_app in Hall as [_ Hrest].
  apply loc_pass_sound in Hok0 as (Hinv & Heq & Hlen); [|apply loc_inv_init|].
  2: { eapply Forall_impl; [exact Hrest|]. by intros x [? _]%seg_ok_spec. }
  cbn in Hlen. destruct rest'; [|cbn in Hlen; lia]. cbn in Heq.
  destruct v. apply check_quantity_spec in Hok2.
  destruct Hinv as (? & ? & ? & _). split.
  - rewrite Point_String_join. cbn. by rewrite <- Heq.
  - split; try done; cbn. rewrite <- Heq in Hrest.
    apply Forall_app in Hrest as [_ Hq]. by inv Hq.
Qed.

Lemma point_ok_parses d p :
  vocab_ok d -> point_ok d p -> ParsePoint d (Point_String p) = Ok p.
Proof.
  intros Hv [Hs Hseg Hns Hl Hsd Hph Hqs Hq]. destruct p as [[site ns] loop idx side phase q].
  rewrite Point_String_join. cbn -[loc_segs] in *. unfold ParsePoint.
  assert (Hnq : not_node d q).
  { apply (vo_quantity d Hv). destruct Hq as (_ & _ & [?|(? & ? & _)]); eauto. }
  rewrite (proj2 (path_parts_spec _ site
    ((node_seg <$> ns) ++ loc_segs loop idx side phase ++ [q]))).
  - cbn [mbind result_bind].
    rewrite node_pass_complete by (try done; by apply loc_head_not_node).
    cbn [mbind result_bind].
    destruct (loc_pass_complete d Hv loop idx side phase q) as [st ->]; [done..|].
    cbn [mbind result_bind].
    rewrite (proj2 (check_quantity_spec d ns (mkLoc loop idx side phase st) q)) by done.
    done.
  - repeat split; try done; [by intros [_ [_ ?]%app_eq_nil]%app_eq_nil|].
    constructor; [done|]. apply Forall_app; split; [by eapply nodes_ok_segs|].
    apply Forall_app; split; [|by constructor]. unfold loc_segs, opt_seg.
    apply Forall_app; split; [|apply Forall_app; split]; case_match eqn:E;
      try constructor; try constructor; apply str_eqb_neq in E.
    + destruct Hl as [[? _]|(Hne & Hlow & _ & Hidx)]; [done|].
      pose proof (loop_seg_name loop idx Hne Hlow Hidx) as Hre.
      apply re_loop_name_spec in Hre as (-> & _ & _ & ? & ?). apply seg_ok_spec.
      split; [by intros [??]%str_app_nil_inv|]. rewrite all_bytes_app.
      bool_simpl; eauto with cios.
    + destruct Hsd as [?|Hsd]; [done|]. by apply (vo_side d Hv) in Hsd as [? _].
    + destruct Hph as [?|Hph]; [done|]. by apply (vo_phase d Hv) in Hph as [? _].
Qed.

(** [ParseAssetPath] accepts exactly the rendered forms of well-formed
    asset paths: it succeeds on [s] with [a] if and only if [a] has a legal
    site, a non-empty chain of nodes each admitted by the dictionary under its
    predecessor with a legal index, and [s] is the rendering of [a]. *)
Lemma ParseAssetPath_iff d s a :
  ParseAssetPath d s = Ok a <-> asset_ok d a /\ AssetPath_String a = s.
Proof. exact (asset_path_iff d s a).
Qed.

(** C3: every address [ParsePoint] accepts renders back to itself, and the
    parsed point obeys all the rules: legal site and node chain, registered
    loop / side / phase with at most a one-digit loop index, and the quantity
    rules L47, L48 and the host list. *)
Theorem ParsePoint_sound d s p :
  ParsePoint d s = Ok p -> Point_String p = s /\ point_ok d p.
Proof. exact (parsed_point_ok d s p).
Qed.

(** Over disjoint vocabularies every well-formed point survives the round
    trip: parsing its rendering gives the point back, so rendering is
    injective and the parser complete. *)
Lemma ParsePoint_complete d p :
  vocab_ok d -> point_ok d p -> ParsePoint d (Point_String p) = Ok p.
Proof. exact (point_ok_parses d p).
Qed.

(** ** A concrete dictionary

    A fragment of protocol/*.yaml on which the theorems above are exercised. *)
Definition demo_dict : Dict := {|
  d_Types :=
    <["pod" := mkTypeDef ["site"] LevelDevice "pod" []]>
    (<["cdu" := mkTypeDef ["pod"] LevelDevice "cdu" []]>
    (<["gpu" := mkTypeDef ["cdu"] LevelChip "gpu" []]> ∅));
  d_Quantities :=
    <["flow" := mkQuantityDef "lpm" "gauge" [] ∅]>
    (<["temp" := mkQuantityDef "celsius" "gauge" [] ∅]> ∅);
  d_Derived :=
    <["pue" := mkQuantityDef "ratio" EmptyString ["site"] ∅]>
    (<["deltat" := mkQuantityDef "celsius" EmptyString ["cdu"] ∅]> ∅);
  d_Loops := <["fws" := true]> (<["tcs" := true]> ∅);
  d_Sides := <["supply" := true]> (<["return" := true]> ∅);
  d_Phases := <["pa" := true]> (<["pb" := true]> ∅);
  d_Domains := ∅;
  d_Relations := ∅
|}.

Lemma map_bool_insert_inv m k b w :
  map_bool (<[k := b]> m) w = true -> w = k \/ map_bool m w = true.
Proof.
  unfold map_bool. rewrite lookup_insert. case_decide; [by left|by right].
Qed.

Lemma map_bool_empty w : map_bool ∅ w = true -> False.
Proof. unfold map_bool. by rewrite lookup_empty. Qed.

Lemma is_Some_insert_inv {A} (m : gmap string A) k v w :
  is_Some (<[k := v]> m !! w) -> w = k \/ is_Some (m !! w).
Proof. rewrite lookup_insert. case_decide; [by left|by right]. Qed.

Lemma not_loop_bool d w :
  match re_loop_name w with Some (nm, _) => negb (map_bool (d_Loops d) nm)
  | None => true end = true -> not_loop d w.
Proof.
  unfold not_loop. intros H nm dg Hre. rewrite Hre in H. by apply negb_true_iff.
Qed.

Lemma demo_vocab_ok : vocab_ok demo_dict.
Proof.
  split; cbn; intros w.
  - by intros [->|[->|[]%map_bool_empty]%map_bool_insert_inv]%map_bool_insert_inv.
  - intros [->|[->|[]%map_bool_empty]%map_bool_insert_inv]%map_bool_insert_inv;
      repeat split; by apply not_loop_bool.
  - intros [->|[->|[]%map_bool_empty]%map_bool_insert_inv]%map_bool_insert_inv;
      repeat split; by apply not_loop_bool.
  - intros [[->|[->|H]%is_Some_insert_inv]%is_Some_insert_inv|
            [->|[->|H]%is_Some_insert_inv]%is_Some_insert_inv]; try done;
      by rewrite lookup_empty in H; destruct H.
Qed.

Definition demo_point : Point :=
  mkPoint (mkAssetPath "sgp01" [mkNode "pod" "002"; mkNode "cdu" "000"])
    "fws" 1 "supply" EmptyString "temp".

Example demo_parse :
  ParsePoint demo_dict "sgp01.pod002.cdu000.fws1.supply.temp" = Ok demo_point.
Proof. vm_compute. reflexivity. Qed.

Example demo_errors :
  ParsePoint demo_dict "sgp01.pod002.cdu000.fws.temp" = Err ErrMissingSide /\
  ParsePoint demo_dict "sgp01.pod002.cdu000.supply.fws.temp" = Err ErrUnknownSegment /\
  ParsePoint demo_dict "sgp01.pod02.flow" = Err ErrBadIndex /\
  ParsePoint demo_dict "sgp01.cdu000.flow" = Err ErrBadParent /\
  ParsePoint demo_dict "sgp01.flow" = Err ErrBadHost /\
  ParsePoint demo_dict "sgp00.pod002.flow" = Err ErrSyntax /\
  is_ok (ParsePoint demo_dict "sgp01.pue") = true.
Proof. vm_compute. repeat split. Qed.

Lemma demo_point_ok : point_ok demo_dict demo_point.
Proof.
  split; try (vm_compute; reflexivity).
  - repeat (eapply nodes_ok_cons;
      [by repeat split|reflexivity|reflexivity|cbn; auto|]). apply nodes_ok_nil.
  - right. repeat split; [done|cbn; lia..].
  - right. reflexivity.
  - by left.
  - repeat split; [done..|]. left. by eexists.
Qed.

Lemma ParsePoint_sound_witness :
  Point_String demo_point = "sgp01.pod002.cdu000.fws1.supply.temp" /\
  point_ok demo_dict demo_point.
Proof. apply (ParsePoint_sound demo_dict). vm_compute. reflexivity. Defined.

Lemma ParsePoint_complete_witness :
  ParsePoint demo_dict (Point_String demo_point) = Ok demo_point.
Proof.
  apply ParsePoint_complete; [exact demo_vocab_ok|].
  exact demo_point_ok.
Defined.
