(* ===== verification/Glob.v ===== *)
(** * Path globs (pkg/cpath/glob.go)

    Compilation of a pattern into segments, the translation of an in-segment
    glob into a regular expression, and the dynamic-programming matcher.  The
    main theorem is that the matcher, fast paths included, decides the
    declarative meaning of the pattern. *)
From S2P Require Import Prelude CPath.
Open Scope string_scope.
Open Scope list_scope.

(** ** Segment regular expressions

    The fragment of [regexp] that [globSegmentToRegexp] emits: an anchored
    sequence of literal bytes and [[a-z0-9]*] runs. *)
Inductive ratom : Type :=
  | RLit (c : ascii)
  | RStar.

#[export] Instance ratom_eq_dec : EqDecision ratom.
Proof. solve_decision. Defined.

Fixpoint globSegmentToRegexp (seg : string) : list ratom :=
  match seg with
  | EmptyString => []
  | String c seg' =>
      (if byte_eqb c "*" then RStar else RLit c) :: globSegmentToRegexp seg'
  end.

(** [Regexp.MatchString] on that fragment. *)
Fixpoint re_match (r : list ratom) (s : string) {struct r} : bool :=
  match r with
  | [] => str_eqb s EmptyString
  | RLit c :: r' =>
      match s with
      | String d s' => byte_eqb c d && re_match r' s'
      | EmptyString => false
      end
  | RStar :: r' =>
      (fix star (s : string) : bool :=
         re_match r' s ||
         match s with
         | String d s' => is_alnum d && star s'
         | EmptyString => false
         end) s
  end.

(** ** Compiled patterns *)

Record compiledSeg : Type := mkSeg { cs_regex : list ratom; cs_globstar : bool }.

Record Glob : Type := mkGlob {
  g_src : string;
  g_segs : list compiledSeg;
  g_isAll : bool
}.

Inductive glob_err : Type := ErrGlobSyntax.

(** [^[a-z0-9.*]+$] and [^[a-z0-9.]+$] *)
Definition globPatternRe (s : string) : bool :=
  negb (str_eqb s EmptyString) &&
  all_bytes (fun c => is_alnum c || byte_eqb c "." || byte_eqb c "*") s.
Definition globPathRe (s : string) : bool := re_overall s.

(** [s[0]] and [s[len(s)-1]] of a non-empty string. *)
Definition first_byte (s : string) : option ascii :=
  match s with String c _ => Some c | EmptyString => None end.
Fixpoint last_byte (s : string) : option ascii :=
  match s with
  | EmptyString => None
  | String c EmptyString => Some c
  | String _ s' => last_byte s'
  end.
Definition is_dot (o : option ascii) : bool :=
  match o with Some c => byte_eqb c "." | None => false end.

Definition compile_seg (s : string) : result glob_err compiledSeg :=
  if str_eqb s "**" then Ok (mkSeg [] true)
  else if contains "*" s && contains "**" s then Err ErrGlobSyntax
  else Ok (mkSeg (globSegmentToRegexp s) false).

Fixpoint compile_segs (ss : list string) : result glob_err (list compiledSeg) :=
  match ss with
  | [] => Ok []
  | s :: ss' =>
      c ← compile_seg s; cs ← compile_segs ss'; mret (c :: cs)
  end.

Definition CompileGlob (pattern : string) : result glob_err Glob :=
  if str_eqb pattern EmptyString then Err ErrGlobSyntax
  else if negb (globPatternRe pattern) then Err ErrGlobSyntax
  else if contains ".." pattern || is_dot (first_byte pattern) ||
          is_dot (last_byte pattern) then Err ErrGlobSyntax
  else
    segs ← compile_segs (split "." pattern);
    mret (mkGlob pattern segs
      ((length segs =? 1)%nat &&
       match segs with s0 :: _ => cs_globstar s0 | [] => false end)).

Definition Pattern (g : Glob) : string := g_src g.

Fixpoint containsStar (s : string) : bool :=
  match s with
  | EmptyString => false
  | String c s' => if byte_eqb c "*" then true else containsStar s'
  end.

(** ** The matcher

    [dp[i]] is a row of [len(segs)+1] booleans; row [i+1] depends on row [i]
    and the pattern segment [i] only. *)

(** [dp[i+1][k] = true] for every [k] from the leftmost true column on. *)
Fixpoint globstar_row (row : list bool) : list bool :=
  match row with
  | [] => []
  | true :: row' => true :: map (fun _ => true) row'
  | false :: row' => false :: globstar_row row'
  end.

(** [dp[i+1][j+1] = dp[i][j] && regex.MatchString(segs[j])]; column 0 stays
    false. *)
Fixpoint seg_cols (r : list ratom) (row : list bool) (segs : list string) : list bool :=
  match row, segs with
  | b :: row', s :: segs' => (b && re_match r s) :: seg_cols r row' segs'
  | _, _ => []
  end.

Definition step_row (seg : compiledSeg) (segs : list string) (row : list bool) :
    list bool :=
  if cs_globstar seg then globstar_row row
  else false :: seg_cols (cs_regex seg) row segs.

Fixpoint dp_rows (pat : list compiledSeg) (segs : list string) (row : list bool) :
    list bool :=
  match pat with
  | [] => row
  | p :: pat' => dp_rows pat' segs (step_row p segs row)
  end.

(** [dp[0]]: only the empty prefix of the path matches the empty pattern. *)
Definition first_row (segs : list string) : list bool :=
  true :: map (fun _ => false) segs.

Definition dp_match (pat : list compiledSeg) (segs : list string) : bool :=
  List.last (dp_rows pat segs (first_row segs)) false.

Definition Match (g : Glob) (path : string) : bool :=
  if negb (globPathRe path) then false
  else if contains ".." path || is_dot (first_byte path) || is_dot (last_byte path)
  then false
  else
    let segs := split "." path in
    if negb (containsStar (g_src g)) then str_eqb (g_src g) path
    else if g_isAll g then true
    else dp_match (g_segs g) segs.

(** ** Declarative meaning *)

(** In-segment: literals match themselves, a star any run of [[a-z0-9]]. *)
Inductive re_den : list ratom -> string -> Prop :=
  | re_den_nil : re_den [] EmptyString
  | re_den_lit c r s : re_den r s -> re_den (RLit c :: r) (String c s)
  | re_den_star a r s :
      all_bytes is_alnum a = true -> re_den r s -> re_den (RStar :: r) (a +:+ s).

(** Across segments: a [**] segment matches any number of whole segments. *)
Inductive segs_den : list compiledSeg -> list string -> Prop :=
  | segs_den_nil : segs_den [] []
  | segs_den_seg p ps s ss :
      cs_globstar p = false -> re_den (cs_regex p) s -> segs_den ps ss ->
      segs_den (p :: ps) (s :: ss)
  | segs_den_star p ps l ss :
      cs_globstar p = true -> segs_den ps ss -> segs_den (p :: ps) (l ++ ss).

(** A path as the matcher admits it: non-empty segments over [[a-z0-9]]. *)
Definition valid_path (path : string) : Prop :=
  Forall (fun x => seg_ok x = true) (split "." path).

Lemma re_match_star r s :
  re_match (RStar :: r) s =
  re_match r s ||
  match s with
  | String d s' => is_alnum d && re_match (RStar :: r) s'
  | EmptyString => false
  end.
Proof. by destruct s. Qed.

Lemma re_match_den r s : re_match r s = true <-> re_den r s.
Proof.
  revert s. induction r as [|[c|] r IH]; intros s.
  - cbn. rewrite str_eqb_eq. split; [intros ->; constructor|by inversion 1].
  - destruct s as [|d s]; cbn; [split; [done|by inversion 1]|].
    rewrite andb_true_iff, byte_eqb_eq, IH. split.
    + intros [-> ?]. by constructor.
    + by inversion 1.
  - split.
    + induction s as [|d s IHs]; rewrite re_match_star; intros H.
      * rewrite orb_false_r in H. apply (re_den_star EmptyString); [done|]. by apply IH.
      * apply orb_true_iff in H as [H|H].
        -- apply (re_den_star EmptyString); [done|]. by apply IH.
        -- bool_simpl. specialize (IHs H0). inv IHs.
           apply (re_den_star (String d a)); [|done]. cbn. by rewrite H.
    + inversion 1 as [| |a r' s' Ha Hs]; subst. apply IH in Hs. clear H.
      induction a as [|d a IHa]; cbn [String.append]; rewrite re_match_star.
      * by rewrite Hs.
      * cbn in Ha. bool_simpl. rewrite H, IHa by done. by rewrite orb_true_r.
Qed.

(** ** The rows of the table

    Row [i] read at column [j] says whether the first [i] pattern segments
    match the first [j] path segments. *)

Lemma globstar_row_len row : length (globstar_row row) = length row.
Proof. induction row as [|[] row IH]; cbn; rewrite ?length_map; congruence. Qed.

Lemma seg_cols_len r row segs :
  length row = S (length segs) -> length (seg_cols r row segs) = length segs.
Proof.
  revert row. induction segs as [|s segs IH]; intros [|b row]; cbn; try done.
  intros [= H]. by rewrite IH.
Qed.

Lemma step_row_len p segs row :
  length row = S (length segs) -> length (step_row p segs row) = S (length segs).
Proof.
  intros H. unfold step_row. case_match; [by rewrite globstar_row_len|].
  cbn. by rewrite seg_cols_len.
Qed.

Lemma map_const_lookup {A B} (x : B) (l : list A) j :
  map (fun _ => x) l !! j = Some x <-> j < length l.
Proof.
  revert j. induction l as [|a l IH]; intros [|j]; cbn; try (split; [done|lia]).
  - split; [lia|done].
  - rewrite IH. lia.
Qed.

Lemma globstar_row_lookup row j :
  globstar_row row !! j = Some true <->
  j < length row /\ exists i, i <= j /\ row !! i = Some true.
Proof.
  revert j. induction row as [|b row IH]; intros j; cbn.
  - split; [done|]. intros [? _]; lia.
  - destruct b; destruct j as [|j]; cbn.
    + split; [|done]. intros _. split; [lia|]. exists 0. auto.
    + rewrite map_const_lookup. split.
      * intros H. split; [lia|]. exists 0. split; [lia|done].
      * intros [H _]. lia.
    + split; [done|]. intros (_ & i & Hi & Hr). by destruct i; [|lia].
    + rewrite IH. split.
      * intros (? & i & ? & ?). split; [lia|]. exists (S i). split; [lia|done].
      * intros (? & i & ? & Hr). destruct i as [|i]; [done|].
        split; [lia|]. exists i. split; [lia|done].
Qed.

Lemma seg_cols_lookup r row segs j :
  seg_cols r row segs !! j = Some true <->
  exists s, segs !! j = Some s /\ row !! j = Some true /\ re_match r s = true.
Proof.
  revert row j. induction segs as [|s segs IH]; intros [|b row] j; cbn.
  - split; [done|]. by intros (? & ? & ?).
  - split; [done|]. by intros (? & ? & ?).
  - split; [done|]. by intros (? & ? & ? & ?).
  - destruct j as [|j]; cbn; [|apply IH]. split.
    + intros [= [-> H]%andb_true_iff]. eauto.
    + by intros (? & [= ->] & [= ->] & ->).
Qed.

(** The declarative meaning of one row. *)
Definition row_den (pat : list compiledSeg) (segs : list string) (row : list bool) : Prop :=
  length row = S (length segs) /\
  forall j, row !! j = Some true <-> j <= length segs /\ segs_den pat (take j segs).

Lemma segs_den_snoc_seg pat p s ss :
  cs_globstar p = false -> re_den (cs_regex p) s -> segs_den pat ss ->
  segs_den (pat ++ [p]) (ss ++ [s]).
Proof.
  intros Hp Hr. induction 1 as [|q qs x xs Hq Hx Hxs IH|q qs l xs Hq Hxs IH]; cbn.
  - by repeat constructor.
  - by constructor.
  - rewrite <- app_assoc. by constructor.
Qed.

Lemma segs_den_snoc_star pat p l ss :
  cs_globstar p = true -> segs_den pat ss -> segs_den (pat ++ [p]) (ss ++ l).
Proof.
  intros Hp. induction 1 as [|q qs x xs Hq Hx Hxs IH|q qs l' xs Hq Hxs IH]; cbn.
  - rewrite <- (app_nil_r l). constructor; [done|constructor].
  - by constructor.
  - rewrite <- app_assoc. by constructor.
Qed.

Lemma segs_den_snoc_inv pat p ss :
  segs_den (pat ++ [p]) ss ->
  if cs_globstar p
  then exists ss1 l, ss = ss1 ++ l /\ segs_den pat ss1
  else exists ss1 s, ss = ss1 ++ [s] /\ segs_den pat ss1 /\ re_den (cs_regex p) s.
Proof.
  revert ss. induction pat as [|q pat IH]; intros ss; cbn.
  - inversion 1 as [|? ? s ss' Hp Hr Hs|? ? l ss' Hp Hs]; subst; inv Hs; rewrite Hp.
    + exists [], s. repeat split; [constructor|done].
    + exists [], l. rewrite app_nil_r. split; [done|constructor].
  - inversion 1 as [|? ? s ss' Hq Hr Hs|? ? l ss' Hq Hs]; subst;
      apply IH in Hs; destruct (cs_globstar p).
    + destruct Hs as (ss1 & l & -> & ?). exists (s :: ss1), l.
      split; [done|]. by constructor.
    + destruct Hs as (ss1 & x & -> & ? & ?). exists (s :: ss1), x.
      repeat split; [by constructor|done].
    + destruct Hs as (ss1 & l' & -> & ?). exists (l ++ ss1), l'.
      split; [by rewrite app_assoc|by constructor].
    + destruct Hs as (ss1 & x & -> & ? & ?). exists (l ++ ss1), x.
      rewrite app_assoc. repeat split; [by constructor|done].
Qed.

Lemma first_row_den segs : row_den [] segs (first_row segs).
Proof.
  split; [unfold first_row; cbn; by rewrite length_map|]. intros j. destruct j as [|j]; cbn.
  - split; [intros _; split; [lia|constructor]|done].
  - split.
    + intros H. exfalso. clear -H. revert j H.
      induction segs as [|s segs IH]; intros [|j]; cbn; naive_solver.
    + intros [Hj Hd]. inversion Hd as [Heq| |]. destruct segs; [cbn in Hj; lia|done].
Qed.

Lemma step_row_den pat p segs row :
  row_den pat segs row -> row_den (pat ++ [p]) segs (step_row p segs row).
Proof.
  intros [Hlen Hrow]. split; [by apply step_row_len|]. intros j. unfold step_row.
  destruct (cs_globstar p) eqn:Hp.
  - rewrite globstar_row_lookup, Hlen. split.
    + intros (Hj & i & Hi & Hr). split; [lia|]. apply Hrow in Hr as [Hi' Hd].
      replace (take j segs) with (take i segs ++ drop i (take j segs)).
      * by apply segs_den_snoc_star.
      * replace (take i segs) with (take i (take j segs)) by (rewrite take_take; f_equal; lia).
        apply take_drop.
    + intros [Hj Hd]. split; [lia|]. apply segs_den_snoc_inv in Hd. rewrite Hp in Hd.
      destruct Hd as (ss1 & l & Heq & Hd). exists (length ss1).
      assert (length ss1 <= j) as Hle.
      { apply (f_equal length) in Heq. rewrite length_app, length_take in Heq. lia. }
      split; [done|]. apply Hrow. split; [lia|].
      replace (take (length ss1) segs) with ss1; [done|].
      replace (take (length ss1) segs) with (take (length ss1) (take j segs));
        [by rewrite Heq, take_app_length|]. rewrite take_take. f_equal. lia.
  - destruct j as [|j]; cbn.
    + split; [done|]. intros [_ Hd]. apply segs_den_snoc_inv in Hd. rewrite Hp in Hd.
      destruct Hd as (ss1 & s & Heq & _). by destruct ss1.
    + rewrite seg_cols_lookup. split.
      * intros (s & Hs & Hr & Hm). apply lookup_lt_Some in Hs as Hlt. split; [lia|].
        rewrite (take_S_r _ _ s) by done. apply Hrow in Hr as [_ Hd].
        apply segs_den_snoc_seg; [done| |done]. by apply re_match_den.
      * intros [Hj Hd]. apply segs_den_snoc_inv in Hd. rewrite Hp in Hd.
        destruct Hd as (ss1 & s & Heq & Hd & Hr).
        destruct (lookup_lt_is_Some_2 segs j) as [x Hx]; [lia|].
        rewrite (take_S_r _ _ x) in Heq by done. apply app_inj_tail in Heq as [<- <-].
        exists x. repeat split; [done| |by apply re_match_den].
        apply Hrow. split; [lia|done].
Qed.

Lemma dp_rows_den pat1 pat2 segs row :
  row_den pat1 segs row -> row_den (pat1 ++ pat2) segs (dp_rows pat2 segs row).
Proof.
  revert pat1 row. induction pat2 as [|p pat2 IH]; intros pat1 row H; cbn.
  - by rewrite app_nil_r.
  - replace (pat1 ++ p :: pat2) with ((pat1 ++ [p]) ++ pat2) by by rewrite <- app_assoc.
    apply IH. by apply step_row_den.
Qed.

Lemma last_lookup_true (row : list bool) n :
  length row = S n -> List.last row false = true <-> row !! n = Some true.
Proof.
  revert n. induction row as [|b row IH]; intros n; cbn [length]; [done|].
  intros [= <-]. destruct row as [|b' row]; cbn [length].
  - cbn. split; congruence.
  - rewrite <- (IH (length row)) by done. done.
Qed.

Lemma dp_match_den pat segs : dp_match pat segs = true <-> segs_den pat segs.
Proof.
  pose proof (dp_rows_den [] pat segs _ (first_row_den segs)) as [Hlen Hrow].
  cbn [app] in *. unfold dp_match. rewrite (last_lookup_true _ _ Hlen), Hrow.
  rewrite take_ge by done. split; [by intros [_ ?]|done].
Qed.

(** ** The guards of [CompileGlob] and [Match] *)

Lemma hd_split_dot s :
  s <> EmptyString -> hd EmptyString (split "." s) = EmptyString <->
  is_dot (first_byte s) = true.
Proof.
  destruct s as [|c s]; [done|]. intros _. cbn. destruct (byte_eqb c "."); [done|].
  by destruct (split "." s).
Qed.

Lemma last_split_dot s :
  s <> EmptyString -> List.last (split "." s) EmptyString = EmptyString <->
  is_dot (last_byte s) = true.
Proof.
  induction s as [|c s IH]; [done|]. intros _. destruct s as [|d s].
  - cbn. by destruct (byte_eqb c ".").
  - specialize (IH ltac:(done)).
    change (last_byte (String c (String d s))) with (last_byte (String d s)).
    rewrite <- IH. cbn [split]. pose proof (split_not_nil "." s) as Hnil.
    destruct (byte_eqb c "."), (byte_eqb d ".");
      destruct (split "." s) as [|h t]; cbn; try done; by destruct t.
Qed.

Lemma valid_path_guard s :
  globPathRe s = true /\
  contains ".." s || is_dot (first_byte s) || is_dot (last_byte s) = false <->
  valid_path s.
Proof.
  unfold globPathRe, valid_path. split.
  - intros [Ho Hg]. bool_simpl.
    assert (s <> EmptyString) as Hne by (intros ->; done).
    apply split_segs; try done.
    + rewrite hd_split_dot by done. by rewrite H1.
    + rewrite last_split_dot by done. by rewrite H0.
  - intros Hv. pose proof (split_not_nil "." s) as Hnil.
    assert (s <> EmptyString) as Hne by (intros ->; by inv Hv).
    split; [rewrite <- (join_split "." s); by apply re_overall_join|].
    bool_simpl.
    + rewrite <- (join_split "." s). by apply contains_dots_join.
    + destruct (is_dot (first_byte s)) eqn:E; [|done].
      apply hd_split_dot in E; [|done]. destruct (split "." s); [done|].
      cbn in E. subst. by inv Hv.
    + destruct (is_dot (last_byte s)) eqn:E; [|done].
      apply last_split_dot in E; [|done].
      apply exists_last in Hnil as (l & a & Heq). rewrite Heq in *.
      rewrite last_last in E. subst. apply Forall_app in Hv as [_ Hv]. by inv Hv.
Qed.

(** ** Star-free patterns *)

Lemma no_star_contains s : containsStar s = false -> contains "*" s = false.
Proof.
  induction s as [|c s IH]; cbn; [done|]. rewrite (byte_eqb_sym "*").
  destruct (byte_eqb c "*"); [done|]. cbn. auto.
Qed.

Lemma no_star_split s :
  containsStar s = false ->
  Forall (fun p => containsStar p = false) (split "." s).
Proof.
  induction s as [|c s IH]; cbn; [by repeat constructor|].
  destruct (byte_eqb c "*") eqn:Es; [done|]. intros H. specialize (IH H).
  destruct (byte_eqb c "."); [by constructor|].
  destruct (split "." s) as [|h t]; inv IH; constructor; try done; cbn; by rewrite Es.
Qed.

Lemma literal_regexp s t :
  containsStar s = false -> re_den (globSegmentToRegexp s) t <-> t = s.
Proof.
  rewrite <- re_match_den. revert t.
  induction s as [|c s IH]; intros t; cbn; [intros _; apply str_eqb_eq|].
  destruct (byte_eqb c "*"); [done|]. intros H. cbn.
  destruct t as [|d t]; [done|]. rewrite andb_true_iff, byte_eqb_eq, IH by done.
  split; [by intros [-> ->]|by intros [= -> ->]].
Qed.

Lemma literal_segs ps segs ss :
  Forall (fun p => containsStar p = false) ps -> compile_segs ps = Ok segs ->
  segs_den segs ss <-> ss = ps.
Proof.
  intros Hps. revert segs ss. induction Hps as [|p ps Hp Hps IH]; intros segs ss; cbn.
  - intros [= <-]. split; [by inversion 1|intros ->; constructor].
  - intros H. inv_ok. unfold compile_seg in Hok.
    destruct (str_eqb p "**") eqn:E; [by apply str_eqb_eq in E as ->|].
    rewrite no_star_contains in Hok by done. cbn in Hok. simplify_eq. split.
    + inversion 1; subst; [|done]. rename select (re_den _ _) into Hr.
      apply literal_regexp in Hr; [|done]. subst. f_equal. by eapply IH.
    + intros ->. constructor; [done|by apply literal_regexp|by eapply IH].
Qed.

Lemma segs_den_all p ss : cs_globstar p = true -> segs_den [p] ss.
Proof. intros H. rewrite <- (app_nil_r ss). constructor; [done|constructor]. Qed.

Lemma CompileGlob_inv pat g :
  CompileGlob pat = Ok g ->
  g_src g = pat /\ compile_segs (split "." pat) = Ok (g_segs g) /\
  globPatternRe pat = true /\ contains ".." pat = false /\
  is_dot (first_byte pat) = false /\ is_dot (last_byte pat) = false /\
  g_isAll g = ((length (g_segs g) =? 1)%nat &&
       match g_segs g with s0 :: _ => cs_globstar s0 | [] => false end).
Proof.
  unfold CompileGlob. repeat (case_match; [done|]). intros H'. inv_ok. bool_simpl.
  auto 10.
Qed.

(** The matcher, fast paths included, decides the meaning of the pattern. *)
Lemma Match_den pat g path :
  CompileGlob pat = Ok g ->
  Match g path = true <-> valid_path path /\ segs_den (g_segs g) (split "." path).
Proof.
  intros (<- & Hsegs & _ & _ & _ & _ & Hall)%CompileGlob_inv.
  rewrite <- valid_path_guard. unfold Match.
  destruct (globPathRe path); cbn [negb]; [|intuition congruence].
  destruct (contains ".." path || _ || _); [intuition congruence|].
  destruct (containsStar (g_src g)) eqn:Es; cbn [negb].
  - destruct (g_isAll g); [|rewrite dp_match_den; intuition congruence].
    symmetry in Hall. bool_simpl. split; [|done]. intros _. split; [done|].
    destruct (g_segs g) as [|p [|]]; [done| |done]. by apply segs_den_all.
  - rewrite str_eqb_eq. pose proof (no_star_split _ Es) as Hns.
    rewrite (literal_segs _ _ (split "." path) Hns Hsegs). split.
    + intros ->. done.
    + intros [_ H]. symmetry. by eapply split_inj.
Qed.

(** ** Well-formed patterns *)

(** The documented grammar of one segment: [**] alone, or [[a-z0-9]] with
    single stars. *)
Definition pat_seg_ok (x : string) : Prop :=
  x <> EmptyString /\ all_bytes (fun c => is_alnum c || byte_eqb c "*") x = true /\
  (x = "**" \/ contains "**" x = false).

Lemma all_pat_join xs :
  Forall (fun x => all_bytes (fun c => is_alnum c || byte_eqb c "*") x = true) xs ->
  all_bytes (fun c => is_alnum c || byte_eqb c "." || byte_eqb c "*") (join "." xs) = true.
Proof.
  set (p := fun c => is_alnum c || byte_eqb c "." || byte_eqb c "*").
  assert (Hp : forall c, is_alnum c || byte_eqb c "*" = true -> p c = true)
    by (intros c; subst p; cbn; by destruct (is_alnum c), (byte_eqb c "*"), (byte_eqb c ".")).
  induction 1 as [|x xs Hx Hxs IH]; [done|]. destruct xs as [|y ys].
  - cbn [join]. eapply all_bytes_impl; [exact Hp|exact Hx].
  - rewrite join_cons by done. rewrite all_bytes_app. bool_simpl.
    + eapply all_bytes_impl; [exact Hp|exact Hx].
    + cbn [all_bytes]. by rewrite IH.
Qed.

Lemma pattern_split pat :
  globPatternRe pat = true -> contains ".." pat = false ->
  is_dot (first_byte pat) = false -> is_dot (last_byte pat) = false ->
  Forall (fun x => x <> EmptyString /\
    all_bytes (fun c => is_alnum c || byte_eqb c "*") x = true) (split "." pat).
Proof.
  unfold globPatternRe. intros Hp Hc Hf Hl. bool_simpl.
  apply str_eqb_neq in H.
  assert (Forall (fun x => all_bytes (fun c => is_alnum c || byte_eqb c "*") x = true)
    (split "." pat)) as Hall.
  { apply split_all_bytes. eapply all_bytes_impl; [|done]. intros c; cbn.
    by destruct (is_alnum c), (byte_eqb c "*"), (byte_eqb c "."). }
  apply Forall_and. split; [|done].
  pose proof (split_nonempty_tail "." pat Hc) as Ht.
  destruct (split "." pat) as [|h t] eqn:Hs; [by apply split_not_nil in Hs|].
  constructor.
  - intros ->. pose proof (proj1 (hd_split_dot pat H)) as Hh. rewrite Hs in Hh.
    rewrite Hh in Hf; done.
  - apply Ht. intros Hlast. pose proof (proj1 (last_split_dot pat H)) as Hh.
    rewrite Hh in Hl; [done|]. rewrite Hs. clear -Hlast.
    revert h Hlast. induction t as [|x t IH]; intros h Hlast; cbn in *; [congruence|by apply IH].
Qed.

Lemma compile_segs_ok ps :
  is_ok (compile_segs ps) = true <->
  Forall (fun p => p = "**" \/ contains "**" p = false) ps.
Proof.
  assert (Hstar : forall p, contains "*" p = false -> contains "**" p = false).
  { intros p. induction p as [|c p IH]; cbn; [done|]. intros H.
    bool_simpl; [|by apply IH]. destruct (byte_eqb "*" c); [by destruct p|done]. }
  induction ps as [|p ps IH]; cbn; [split; [constructor|done]|].
  assert (is_ok (compile_seg p) = true <-> (p = "**" \/ contains "**" p = false)) as Hp.
  { unfold compile_seg. destruct (str_eqb p "**") eqn:E; [apply str_eqb_eq in E; cbn; intuition congruence|].
    apply str_eqb_neq in E. specialize (Hstar p).
    destruct (contains "*" p), (contains "**" p); cbn; intuition congruence. }
  rewrite Forall_cons, <- Hp, <- IH.
  destruct (compile_seg p), (compile_segs ps); cbn; intuition congruence.
Qed.

Lemma pattern_join_guards pat :
  Forall pat_seg_ok (split "." pat) ->
  contains ".." pat = false /\ is_dot (first_byte pat) = false /\
  is_dot (last_byte pat) = false.
Proof.
  intros Hall. pose proof (split_not_nil "." pat) as Hnil.
  assert (pat <> EmptyString) as Hne by (intros ->; inv Hall; by destruct H1).
  split; [|split].
  - clear Hnil Hne. revert Hall. rewrite <- (join_split "." pat) at 2.
    generalize (split_no_byte "." pat). generalize (split "." pat) as xs.
    induction xs as [|x xs IH]; [done|]. intros Hnd Hall. inv Hnd. inv Hall.
    rewrite join_dotted, contains_dots_skip by done. specialize (IH H2 H4).
    destruct xs as [|y ys]; [done|]. rewrite join_dotted in IH.
    inv H4. destruct H5 as (? & ? & _). destruct y as [|c y]; [done|].
    cbn [dotted contains]. rewrite IH, orb_false_r. cbn.
    destruct (byte_eqb "." c) eqn:E; [|done]. apply byte_eqb_eq in E as <-. done.
  - destruct (is_dot (first_byte pat)) eqn:E; [|done].
    apply hd_split_dot in E; [|done]. destruct (split "." pat); [done|].
    cbn in E. subst. inv Hall. by destruct H1.
  - destruct (is_dot (last_byte pat)) eqn:E; [|done]. apply last_split_dot in E; [|done].
    apply exists_last in Hnil as (l & a & Heq). rewrite Heq in *.
    rewrite last_last in E. subst. apply Forall_app in Hall as [_ Hv]. inv Hv. by destruct H1.
Qed.

Lemma CompileGlob_ok_iff pat :
  is_ok (CompileGlob pat) = true <-> Forall pat_seg_ok (split "." pat).
Proof.
  split.
  - destruct (CompileGlob pat) as [g|] eqn:E; [|done]. intros _.
    apply CompileGlob_inv in E as (_ & Hsegs & Hp & Hc & Hf & Hl & _).
    pose proof (pattern_split _ Hp Hc Hf Hl) as H1.
    assert (is_ok (compile_segs (split "." pat)) = true) as H2 by by rewrite Hsegs.
    apply compile_segs_ok in H2. rewrite Forall_forall in *.
    intros x Hx. destruct (H1 x Hx). unfold pat_seg_ok. auto.
  - intros Hall. destruct (pattern_join_guards pat Hall) as (Hc & Hf & Hl).
    assert (pat <> EmptyString) as Hne by (intros ->; inv Hall; by destruct H1).
    unfold CompileGlob. rewrite Hc, Hf, Hl. apply str_eqb_neq in Hne as Hne'.
    rewrite Hne'. unfold globPatternRe. rewrite Hne'. cbn [negb andb].
    assert (is_ok (compile_segs (split "." pat)) = true) as Hok.
    { apply compile_segs_ok. eapply Forall_impl; [exact Hall|]. by intros x (_ & _ & ?). }
    assert (all_bytes (fun c => is_alnum c || byte_eqb c "." || byte_eqb c "*") pat = true) as ->.
    { rewrite <- (join_split "." pat). apply all_pat_join.
      eapply Forall_impl; [exact Hall|]. by intros x (_ & ? & _). }
    cbn [negb orb]. by destruct (compile_segs (split "." pat)).
Qed.

(** C4: for every compiled pattern and every string, [Match] (with its literal
    and [**] fast paths and its dynamic-programming table) answers true exactly
    when the string is a valid path and its segments match the pattern's
    segments, a star inside a segment standing for any run of [a-z0-9] and [**]
    for any number of whole segments. *)
Theorem Match_correct pat g path :
  CompileGlob pat = Ok g ->
  Match g path = true <-> valid_path path /\ segs_den (g_segs g) (split "." path).
Proof. apply Match_den. Qed.

(** [CompileGlob] accepts exactly the documented pattern grammar: non-empty
    dot-separated segments over [a-z0-9*], each either [**] or without two
    adjacent stars. *)
Lemma CompileGlob_accepts pat :
  is_ok (CompileGlob pat) = true <-> Forall pat_seg_ok (split "." pat).
Proof. apply CompileGlob_ok_iff. Qed.

(** ** Subtree patterns *)

Lemma split_app_dot a b :
  split "." (a +:+ String "." b) = split "." a ++ split "." b.
Proof.
  induction a as [|c a IH]; cbn; [done|].
  destruct (byte_eqb c "."); cbn; rewrite IH; [done|].
  destruct (split "." a) eqn:E; [by apply split_not_nil in E|done].
Qed.

Lemma compile_segs_app ps qs a b :
  compile_segs ps = Ok a -> compile_segs qs = Ok b -> compile_segs (ps ++ qs) = Ok (a ++ b).
Proof.
  revert a. induction ps as [|p ps IH]; intros a; cbn; [by intros [= <-]|].
  intros H Hb. inv_ok. rewrite Hok. cbn. by rewrite (IH _ Hok1 Hb).
Qed.

Lemma subtree_segs pat g g' :
  CompileGlob pat = Ok g -> CompileGlob (pat +:+ ".**") = Ok g' ->
  g_segs g' = g_segs g ++ [mkSeg [] true].
Proof.
  intros (_ & H & _)%CompileGlob_inv (_ & H' & _)%CompileGlob_inv.
  rewrite (split_app_dot pat "**") in H'.
  rewrite (compile_segs_app _ (split "." "**") _ [mkSeg [] true] H eq_refl) in H'.
  congruence.
Qed.

Lemma Match_subtree pat g g' path :
  CompileGlob pat = Ok g -> CompileGlob (pat +:+ ".**") = Ok g' ->
  Match g' path = true <->
  valid_path path /\ exists n, segs_den (g_segs g) (take n (split "." path)).
Proof.
  intros Hg Hg'. rewrite (Match_den _ _ path Hg').
  rewrite (subtree_segs _ _ _ Hg Hg'). apply and_iff_compat_l. split.
  - intros Hd. apply segs_den_snoc_inv in Hd as (ss & l & -> & Hd). exists (length ss).
    by rewrite take_app_length.
  - intros [n Hd]. rewrite <- (take_drop n (split "." path)).
    by apply segs_den_snoc_star.
Qed.

(** Appending [.**] to an accepted pattern is accepted and matches exactly
    the valid paths of which some leading run of segments matches the original
    pattern: the subtree below it, its root included. *)
Lemma subtree_pattern pat g :
  CompileGlob pat = Ok g ->
  exists g', CompileGlob (pat +:+ ".**") = Ok g' /\
    forall path, Match g' path = true <->
      valid_path path /\
      exists n, segs_den (g_segs g) (take n (split "." path)).
Proof.
  intros Hg.
  assert (is_ok (CompileGlob (pat +:+ ".**")) = true) as Hok.
  { apply CompileGlob_ok_iff. rewrite (split_app_dot pat "**"). apply Forall_app. split.
    - apply CompileGlob_ok_iff. by rewrite Hg.
    - constructor; [|constructor]. split; [done|]. split; [done|by left]. }
  destruct (CompileGlob (pat +:+ ".**")) as [g'|] eqn:Hg'; [|done].
  exists g'. split; [done|]. intros path. by apply (Match_subtree pat).
Qed.

(** ** Concrete patterns *)

Definition demo_glob : Glob :=
  match CompileGlob "site1.*.dh1*.**" with
  | Ok g => g
  | Err _ => mkGlob EmptyString [] false
  end.

Lemma demo_glob_ok : CompileGlob "site1.*.dh1*.**" = Ok demo_glob.
Proof. reflexivity. Defined.

Example demo_glob_yes : Match demo_glob "site1.b2.dh12.rack7.temp" = true.
Proof. reflexivity. Qed.
Example demo_glob_root : Match demo_glob "site1.b2.dh1" = true.
Proof. reflexivity. Qed.
Example demo_glob_no : Match demo_glob "site1.b2.dh2.rack7" = false.
Proof. reflexivity. Qed.

Lemma Match_correct_witness :
  CompileGlob "site1.*.dh1*.**" = Ok demo_glob /\
  segs_den (g_segs demo_glob) (split "." "site1.b2.dh12.rack7.temp").
Proof.
  split; [reflexivity|].
  apply (Match_correct "site1.*.dh1*.**" demo_glob "site1.b2.dh12.rack7.temp");
    [exact demo_glob_ok|reflexivity].
Defined.

Lemma subtree_pattern_witness :
  exists g', CompileGlob ("site1.*.dh1*.**" +:+ ".**") = Ok g'.
Proof.
  destruct (subtree_pattern "site1.*.dh1*.**" demo_glob demo_glob_ok) as (g' & H & _).
  exists g'. exact H.
Defined.
