(* ===== verification/Float64.v ===== *)
(** * Go's [float64] (binary64) and [strconv.ParseFloat]

    The arithmetic and comparison operators on [float64] are IEEE 754 binary64
    with round-to-nearest-even: the Standard Library's [SpecFloat] at precision
    53 and maximal exponent 1024.  [ParseFloat] is the decimal grammar and the
    correctly rounded value, with the range error on overflow. *)
From Stdlib Require Import SpecFloat.
From S2P Require Import Prelude.
Open Scope string_scope.
Open Scope list_scope.

Abbreviation float64 := spec_float.
Definition prec : Z := 53.
Definition emax : Z := 1024.

#[export] Instance float64_eq_dec : EqDecision float64.
Proof. solve_decision. Defined.

Definition fadd (x y : float64) : float64 := SFadd prec emax x y.
Definition fsub (x y : float64) : float64 := SFsub prec emax x y.
Definition fmul (x y : float64) : float64 := SFmul prec emax x y.
Definition fdiv (x y : float64) : float64 := SFdiv prec emax x y.

(** [x == y], [x < y], [x <= y] (all false on a NaN). *)
Definition feqb (x y : float64) : bool := SFeqb x y.
Definition fltb (x y : float64) : bool := SFltb x y.
Definition fleb (x y : float64) : bool := SFleb x y.
Definition fgtb (x y : float64) : bool := SFltb y x.
Definition fgeb (x y : float64) : bool := SFleb y x.
Definition fneb (x y : float64) : bool := negb (SFeqb x y).

Definition f_of_Z (z : Z) : float64 := binary_normalize prec emax z 0 false.
Definition f0 : float64 := S754_zero false.
Definition f1 : float64 := f_of_Z 1.
Definition fminus1 : float64 := f_of_Z (-1).

Definition is_nan (x : float64) : bool :=
  match x with S754_nan => true | _ => false end.
Definition is_finite_f (x : float64) : bool :=
  match x with S754_zero _ | S754_finite _ _ _ => true | _ => false end.

(** The conversion of a [float64] to an integer type: truncation towards zero
    where the result fits; the language leaves the other cases to the
    implementation, [oor]. *)
Definition ftrunc (f : float64) : option Z :=
  match f with
  | S754_zero _ => Some 0%Z
  | S754_finite s m e =>
      let a := if (0 <=? e)%Z then (Zpos m * 2 ^ e)%Z else (Zpos m / 2 ^ (- e))%Z in
      Some (if s then (- a)%Z else a)
  | _ => None
  end.

(** ** Comparison laws the clients use *)

Lemma Zcompare_le_lt_false c : c = Eq \/ c = Gt -> c <> Lt.
Proof. intros [-> | ->]; done. Qed.

Lemma fcmp_swap x y :
  SFcompare y x = option_map CompOpp (SFcompare x y).
Proof.
  destruct x as [s|[]| |[] m e], y as [s'|[]| |[] m' e']; cbn; try done.
  - rewrite (Z.compare_antisym e e'). destruct (e ?= e')%Z; cbn; try done.
    pose proof (Pos.compare_cont_antisym m m' Eq) as H. cbn in H. rewrite <- H.
    by rewrite CompOpp_involutive.
  - rewrite (Z.compare_antisym e e'). destruct (e ?= e')%Z; cbn; try done.
    pose proof (Pos.compare_cont_antisym m m' Eq) as H. cbn in H. by rewrite <- H.
Qed.

(** A value that is not a NaN is on one side of any non-NaN threshold. *)
Lemma fcmp_total x y :
  is_nan x = false -> is_nan y = false -> exists c, SFcompare x y = Some c.
Proof. destruct x as [|[]| |[]], y as [|[]| |[]]; cbn; intros; try done; eauto. Qed.

Lemma fgeb_not_fltb x y :
  is_nan x = false -> is_nan y = false -> fgeb x y = negb (fltb x y).
Proof.
  intros Hx Hy. unfold fgeb, fltb, SFleb, SFltb. rewrite (fcmp_swap x y).
  destruct (fcmp_total x y Hx Hy) as [[] ->]; done.
Qed.

Lemma fltb_irrefl x : fltb x x = false.
Proof.
  unfold fltb, SFltb. destruct x as [s|[]| |[] m e]; cbn; try done;
    rewrite Z.compare_refl.
  - pose proof (Pos.compare_cont_antisym m m Eq) as H. cbn in H.
    by destruct (Pos.compare_cont Eq m m).
  - pose proof (Pos.compare_cont_antisym m m Eq) as H. cbn in H.
    by destruct (Pos.compare_cont Eq m m).
Qed.

(** ** [strconv.ParseFloat(lit, 64)] *)

Inductive parse_float_err : Type := ErrSyntax | ErrRange.

#[export] Instance parse_float_err_eq_dec : EqDecision parse_float_err.
Proof. solve_decision. Defined.

Definition digit_val (c : ascii) : Z := Z.of_N (N_of_ascii c) - 48.

(** Mantissa: digits with at most one point.  [acc] is the integer they spell,
    [frac] the number of digits after the point, [dot] whether it was seen,
    [any] whether a digit was. *)
Fixpoint read_mantissa (s : string) (acc frac : Z) (dot any : bool) :
    Z * Z * bool * string :=
  match s with
  | EmptyString => (acc, frac, any, s)
  | String c s' =>
      if is_digit c then
        read_mantissa s' (10 * acc + digit_val c)
          (if dot then frac + 1 else frac)%Z dot true
      else if byte_eqb c "." then
        if dot then (acc, frac, any, s) else read_mantissa s' acc frac true any
      else (acc, frac, any, s)
  end.

(** [for ; i < len(s) && '0' <= s[i] && s[i] <= '9'; i++ { if e < 10000 { e =
    e*10 + digit } }] *)
Fixpoint read_exp_digits (s : string) (e : Z) : Z * string :=
  match s with
  | String c s' =>
      if is_digit c
      then read_exp_digits s' (if (e <? 10000)%Z then e * 10 + digit_val c else e)
      else (e, s)
  | EmptyString => (e, s)
  end.

Definition starts_digit (s : string) : bool :=
  match s with String c _ => is_digit c | EmptyString => false end.

(** The optional exponent [(e|E)[+-]digits]; [None] when malformed. *)
Definition read_exponent (s : string) : option (Z * string) :=
  match s with
  | String c s' =>
      if byte_eqb c "e" || byte_eqb c "E" then
        match s' with
        | String sg s'' =>
            if byte_eqb sg "-" then
              if starts_digit s'' then
                let '(e, r) := read_exp_digits s'' 0 in Some ((- e)%Z, r)
              else None
            else
              let t := if byte_eqb sg "+" then s'' else s' in
              if starts_digit t then Some (read_exp_digits t 0) else None
        | EmptyString => None
        end
      else Some (0%Z, s)
  | EmptyString => Some (0%Z, s)
  end.

(** The binary64 nearest to [m * 10^e], ties to even. *)
Definition dec_to_float (m e : Z) : float64 :=
  if (m =? 0)%Z then f0
  else if (0 <=? e)%Z then binary_normalize prec emax (m * 10 ^ e) 0 false
  else
    let '(mz, ez, lz) := SFdiv_core_binary prec emax m 0 (10 ^ (- e)) 0 in
    binary_round_aux prec emax false mz ez lz.

(** Unsigned decimal literals: the only ones the scanners hand over. *)
Definition ParseFloat (lit : string) : result parse_float_err float64 :=
  let '(m, frac, any, rest) := read_mantissa lit 0 0 false false in
  if negb any then Err ErrSyntax
  else
    match read_exponent rest with
    | None => Err ErrSyntax
    | Some (e, rest') =>
        if negb (str_eqb rest' EmptyString) then Err ErrSyntax
        else
          let v := dec_to_float m (e - frac) in
          if is_finite_f v then Ok v else Err ErrRange
    end.

Example ParseFloat_int : ParseFloat "42" = Ok (f_of_Z 42).
Proof. vm_compute. reflexivity. Qed.
Example ParseFloat_tenth :
  ParseFloat "0.1" = Ok (S754_finite false 7205759403792794 (-56)).
Proof. vm_compute. reflexivity. Qed.
Example ParseFloat_exp : ParseFloat "2.5e-1" = ParseFloat ".25".
Proof. vm_compute. reflexivity. Qed.
Example ParseFloat_range : ParseFloat "1e309" = Err ErrRange.
Proof. vm_compute. reflexivity. Qed.
Example ParseFloat_under : ParseFloat "1e-400" = Ok f0.
Proof. vm_compute. reflexivity. Qed.
Example ParseFloat_two_dots : ParseFloat "1.2.3" = Err ErrSyntax.
Proof. vm_compute. reflexivity. Qed.
Example ParseFloat_sub : ParseFloat "3-1" = Err ErrSyntax.
Proof. vm_compute. reflexivity. Qed.

(** A literal that parses is finite. *)
Lemma ParseFloat_finite lit v : ParseFloat lit = Ok v -> is_finite_f v = true.
Proof.
  unfold ParseFloat. destruct (read_mantissa lit 0 0 false false) as [[[m frac] any] rest].
  repeat case_match; try done. by intros [= <-].
Qed.

Lemma finite_not_nan v : is_finite_f v = true -> is_nan v = false.
Proof. by destruct v. Qed.
#[export] Hint Resolve finite_not_nan : cios.
