(* ===== verification/GoTime.v ===== *)
(** * [time.Time], [time.Duration] and [time.ParseDuration]

    A [time.Time] is its distance in nanoseconds from the zero time; a
    [time.Duration] is an [int64] number of nanoseconds.  [Sub] saturates;
    [ParseDuration] is the standard library's parser, its overflow checks
    included. *)
From Stdlib Require Import SpecFloat.
From S2P Require Import Prelude Float64.
Open Scope string_scope.
Open Scope list_scope.

Abbreviation time := Z.
Abbreviation Duration := Z.
Definition zero_time : time := 0.
Definition IsZero (t : time) : bool := (t =? 0)%Z.
Definition max_int64 : Z := 2 ^ 63 - 1.
Definition min_int64 : Z := - 2 ^ 63.
Definition time_sub (a b : time) : Duration := Z.max min_int64 (Z.min max_int64 (a - b)).

Definition Nanosecond : Duration := 1.
Definition Microsecond : Duration := 1000.
Definition Millisecond : Duration := 1000000.
Definition Second : Duration := 1000000000.
Definition Minute : Duration := 60 * Second.
Definition Hour : Duration := 60 * Minute.

(** Two's-complement wrap-around of an [int64] result. *)
Definition wrap64 (z : Z) : Z := (z + 2 ^ 63) mod 2 ^ 64 - 2 ^ 63.

Lemma wrap64_id z : (min_int64 <= z <= max_int64)%Z -> wrap64 z = z.
Proof.
  unfold wrap64, min_int64, max_int64. intros H. rewrite Z.mod_small; lia.
Qed.

Lemma wrap64_range z : (min_int64 <= wrap64 z <= max_int64)%Z.
Proof.
  unfold wrap64, min_int64, max_int64.
  pose proof (Z.mod_pos_bound (z + 2 ^ 63) (2 ^ 64) ltac:(lia)). lia.
Qed.

(** ** [Time.Add] and [Time.AddDate]

    A time is kept as a 64-bit number of seconds and the nanoseconds within the
    second.  [Add] saturates in the seconds; [AddDate] in UTC with a number of
    days computes in 64-bit arithmetic that wraps around. *)
Definition time_sec (t : time) : Z := t / Second.
Definition time_nsec (t : time) : Z := t mod Second.
Definition at_sec (sec nsec : Z) : time := sec * Second + nsec.

Definition clamp64 (z : Z) : Z := Z.max (- max_int64) (Z.min max_int64 z).
Definition time_add (t : time) (d : Duration) : time :=
  at_sec (clamp64 (time_sec (t + d))) (time_nsec (t + d)).

Definition day_seconds : Z := 86400.
Definition AddDays (t : time) (days : Z) : time :=
  at_sec (wrap64 (time_sec t + days * day_seconds)) (time_nsec t).

Lemma at_sec_split t : at_sec (time_sec t) (time_nsec t) = t.
Proof. unfold at_sec, time_sec, time_nsec. pose proof (Z.div_mod t Second ltac:(done)). lia. Qed.

Lemma time_add_exact t d :
  (- max_int64 <= time_sec (t + d) <= max_int64)%Z -> time_add t d = (t + d)%Z.
Proof.
  intros H. unfold time_add, clamp64.
  replace (Z.max _ _) with (time_sec (t + d)) by lia. apply at_sec_split.
Qed.

Lemma AddDays_exact t n :
  (min_int64 <= time_sec t + n * day_seconds <= max_int64)%Z ->
  AddDays t n = (t + n * day_seconds * Second)%Z.
Proof.
  intros H. unfold AddDays. rewrite wrap64_id by done.
  rewrite <- (at_sec_split t) at 3. unfold at_sec. lia.
Qed.

(** ** [time.ParseDuration] *)

(** [leadingInt]: [None] on overflow past [1 << 63]. *)
Fixpoint leadingInt (s : string) (x : Z) : option (Z * string) :=
  match s with
  | String c s' =>
      if is_digit c then
        if (2 ^ 63 / 10 <? x)%Z then None
        else
          let x' := (x * 10 + digit_val c)%Z in
          if (2 ^ 63 <? x')%Z then None else leadingInt s' x'
      else Some (x, s)
  | EmptyString => Some (x, s)
  end.

(** [leadingFraction]: past the overflow the digits are skipped. *)
Fixpoint leadingFraction (s : string) (x : Z) (scale : float64) (over : bool) :
    Z * float64 * string :=
  match s with
  | String c s' =>
      if is_digit c then
        if over then leadingFraction s' x scale true
        else if ((2 ^ 63 - 1) / 10 <? x)%Z then leadingFraction s' x scale true
        else
          let y := (x * 10 + digit_val c)%Z in
          if (2 ^ 63 <? y)%Z then leadingFraction s' x scale true
          else leadingFraction s' y (fmul scale (f_of_Z 10)) false
      else (x, scale, s)
  | EmptyString => (x, scale, s)
  end.

(** The UTF-8 encodings of the two micro signs. *)
Definition micro1 : string :=
  String (ascii_of_N 0xC2) (String (ascii_of_N 0xB5) "s").
Definition micro2 : string :=
  String (ascii_of_N 0xCE) (String (ascii_of_N 0xBC) "s").

Definition unitMap (u : string) : option Z :=
  if str_eqb u "ns" then Some Nanosecond
  else if str_eqb u "us" || str_eqb u micro1 || str_eqb u micro2 then Some Microsecond
  else if str_eqb u "ms" then Some Millisecond
  else if str_eqb u "s" then Some Second
  else if str_eqb u "m" then Some Minute
  else if str_eqb u "h" then Some Hour
  else None.

(** [uint64(x)] of a non-negative finite float. *)
Definition trunc_float (x : float64) : Z :=
  match x with
  | S754_finite false m e => if (0 <=? e)%Z then Z.pos m * 2 ^ e else Z.pos m / 2 ^ (- e)
  | _ => 0
  end.

Definition unit_byte (c : ascii) : bool := negb (byte_eqb c "." || is_digit c).

(** One [number unit] group: its value and the rest. *)
Definition duration_group (s : string) : option (Z * string) :=
  match s with
  | EmptyString => None
  | String c _ =>
      if negb (byte_eqb c "." || is_digit c) then None
      else
        match leadingInt s 0 with
        | None => None
        | Some (v, s1) =>
            let pre := negb (str_len s =? str_len s1)%nat in
            let '(f, scale, s2, post) :=
              match s1 with
              | String d s1' =>
                  if byte_eqb d "." then
                    let '(f, scale, s2) := leadingFraction s1' 0 f1 false in
                    (f, scale, s2, negb (str_len s1' =? str_len s2)%nat)
                  else (0%Z, f1, s1, false)
              | EmptyString => (0%Z, f1, s1, false)
              end in
            if negb pre && negb post then None
            else
              let '(u, s3) := span_bytes unit_byte s2 in
              match unitMap u with
              | None => None
              | Some unit =>
                  if (2 ^ 63 / unit <? v)%Z then None
                  else
                    let v1 := (v * unit)%Z in
                    let v2 :=
                      if (0 <? f)%Z
                      then (v1 + trunc_float (fmul (f_of_Z f) (fdiv (f_of_Z unit) scale)))%Z
                      else v1 in
                    if (2 ^ 63 <? v2)%Z then None else Some (v2, s3)
              end
        end
  end.

Fixpoint duration_groups (fuel : nat) (s : string) (d : Z) : option Z :=
  match fuel with
  | O => None
  | S n =>
      if str_eqb s EmptyString then Some d
      else
        match duration_group s with
        | None => None
        | Some (v, s') =>
            let d' := ((d + v) mod 2 ^ 64)%Z in
            if (2 ^ 63 <? d')%Z then None else duration_groups n s' d'
        end
  end.

Definition ParseDuration (s : string) : option Duration :=
  let '(neg, s1) :=
    match s with
    | String c s' =>
        if byte_eqb c "-" then (true, s') else if byte_eqb c "+" then (false, s') else (false, s)
    | EmptyString => (false, s)
    end in
  if str_eqb s1 "0" then Some 0%Z
  else if str_eqb s1 EmptyString then None
  else
    match duration_groups (S (str_len s1)) s1 0 with
    | None => None
    | Some d =>
        if neg then Some (- d)%Z
        else if (2 ^ 63 - 1 <? d)%Z then None else Some d
    end.

(** Every group consumes input, so one turn per byte is enough. *)
Lemma leadingInt_len s : forall x v r, leadingInt s x = Some (v, r) -> str_len r <= str_len s.
Proof.
  induction s as [|c s IH]; intros x v r; cbn [leadingInt]; [by intros [= _ <-]|].
  destruct (is_digit c); [|by intros [= _ <-]].
  destruct (_ <? x)%Z; [done|]. destruct (_ <? _)%Z; [done|].
  intros ?%IH. cbn. lia.
Qed.

Lemma leadingFraction_len s : forall x sc o, str_len (leadingFraction s x sc o).2 <= str_len s.
Proof.
  induction s as [|c s IH]; intros x sc o; cbn [leadingFraction]; [done|].
  destruct (is_digit c); [|done]. transitivity (str_len s); [|cbn; lia].
  destruct o; [apply IH|]. destruct (_ <? x)%Z; [apply IH|]. destruct (_ <? _)%Z; apply IH.
Qed.

Lemma duration_group_shorter s v r : duration_group s = Some (v, r) -> str_len r < str_len s.
Proof.
  unfold duration_group. destruct s as [|c s0]; [done|]. set (s := String c s0).
  destruct (negb _); [done|]. destruct (leadingInt s 0) as [[w s1]|] eqn:E1; [|done].
  apply leadingInt_len in E1. cbv zeta.
  destruct (match s1 with EmptyString => _ | String _ _ => _ end) as [[[f scale] s2] post] eqn:E2.
  assert (H2 : str_len s2 <= str_len s1).
  { destruct s1 as [|d s1']; [by injection E2 as _ _ <- _|].
    destruct (byte_eqb d "."); [|by injection E2 as _ _ <- _].
    pose proof (leadingFraction_len s1' 0 f1 false).
    destruct (leadingFraction s1' 0 f1 false) as [[f' sc'] s2'].
    injection E2 as _ _ <- _. cbn in *. lia. }
  destruct (negb _ && negb post); [done|].
  destruct (span_bytes unit_byte s2) as [u s3] eqn:E3.
  destruct (unitMap u) as [unit|] eqn:Eu; [|done].
  assert (Hu : u <> EmptyString) by (intros ->; vm_compute in Eu; done).
  assert (H3 : str_len s3 < str_len s2).
  { pose proof (span_bytes_app unit_byte s2) as Ha. rewrite E3 in Ha. cbn [fst snd] in Ha.
    rewrite <- Ha, str_len_app. destruct u; [done|]. cbn. lia. }
  destruct (_ <? w)%Z; [done|]. destruct (_ <? _)%Z; [done|]. intros [= _ <-]. lia.
Qed.

Lemma duration_groups_enough : forall n m s d,
  str_len s < n -> str_len s < m -> duration_groups n s d = duration_groups m s d.
Proof.
  induction n as [|n IH]; intros [|m] s d Hn Hm; [lia..|]. cbn [duration_groups].
  destruct (str_eqb s _); [done|]. destruct (duration_group s) as [[v r]|] eqn:E; [|done].
  apply duration_group_shorter in E. destruct (_ <? _)%Z; [done|]. apply IH; lia.
Qed.

Example ParseDuration_5m : ParseDuration "5m" = Some (5 * Minute)%Z.
Proof. vm_compute. reflexivity. Qed.
Example ParseDuration_1h30 : ParseDuration "1h30m" = Some (90 * Minute)%Z.
Proof. vm_compute. reflexivity. Qed.
Example ParseDuration_frac : ParseDuration "1.5s" = Some (1500 * Millisecond)%Z.
Proof. vm_compute. reflexivity. Qed.
Example ParseDuration_nounit : ParseDuration "5" = None.
Proof. vm_compute. reflexivity. Qed.
Example ParseDuration_neg : ParseDuration "-10ms" = Some (-10 * Millisecond)%Z.
Proof. vm_compute. reflexivity. Qed.
