(* ===== verification/GoPath.v ===== *)
(** * Paths of files (path and path/filepath of the standard library)

    [path.Clean], [Base], [Join] and [filepath.Abs] on a system with "/", and the
    lemma the handlers that serve and store files rest on: a plain name joined to
    a directory is an entry of that directory, whatever the directory is called. *)
From S2P Require Import Prelude.
Open Scope string_scope.
Open Scope list_scope.

(** The elements kept so far are on a stack, the last one on top. *)
Definition push_element (rooted : bool) (out : list string) (seg : string) : list string :=
  if str_eqb seg EmptyString || str_eqb seg "." then out
  else if str_eqb seg ".." then
    match out with
    | top :: below => if str_eqb top ".." then seg :: out else below
    | [] => if rooted then [] else [seg]
    end
  else seg :: out.
Definition path_elements (rooted : bool) (p : string) : list string :=
  foldl (push_element rooted) [] (split "/" p).
Definition path_IsAbs (p : string) : bool := has_prefix p "/".

Definition path_Clean (p : string) : string :=
  if str_eqb p EmptyString then "."
  else
    let body := join "/" (rev (path_elements (path_IsAbs p) p)) in
    if path_IsAbs p then "/" +:+ body
    else if str_eqb body EmptyString then "." else body.

Definition path_Base (p : string) : string :=
  if str_eqb p EmptyString then "."
  else default "/" (last (List.filter (fun s => negb (str_eqb s EmptyString)) (split "/" p))).

Definition path_Join (a b : string) : string :=
  if str_eqb a EmptyString then (if str_eqb b EmptyString then EmptyString else path_Clean b)
  else path_Clean (a +:+ "/" +:+ b).

(** [wd] is the working directory, [None] when there is none to be found. *)
Definition path_Abs (wd : option string) (p : string) : string :=
  if path_IsAbs p then path_Clean p else match wd with Some w => path_Join w p | None => EmptyString end.

Example Clean_ex : path_Clean "a/./b//../c/" = "a/c" /\ path_Clean "/../x" = "/x" /\ path_Clean "../a/../.." = "../.." /\
  path_Clean "a/.." = "." /\ path_Base "/a/b//" = "b" /\ path_Base "//" = "/" /\ path_Join "a" "../b" = "b" /\
  path_Abs (Some "/srv") "photos/../x" = "/srv/x".
Proof. by repeat split; vm_compute. Qed.

Lemma Join_nonempty dir n : dir <> EmptyString -> path_Join dir n <> EmptyString.
Proof.
  intros Hd%str_eqb_neq. unfold path_Join. rewrite Hd. unfold path_Clean.
  set (p := dir +:+ "/" +:+ n). set (body := join "/" _). destruct (str_eqb p EmptyString); [done|].
  destruct (path_IsAbs p); [intros E; discriminate E|]. destruct (str_eqb body EmptyString) eqn:E; [done|].
  by apply str_eqb_neq in E.
Qed.

(** ** Names *)

(** One element of a path, with no meaning of its own. *)
Definition path_name (s : string) : Prop := s <> EmptyString /\ s <> "." /\ s <> ".." /\ no_byte "/" s = true.
Definition name_or_up (s : string) : Prop := s = ".." \/ path_name s.

Lemma push_name rooted out s : path_name s -> push_element rooted out s = s :: out.
Proof.
  intros (H1 & H2 & H3 & _). unfold push_element. apply str_eqb_neq in H1, H2, H3. by rewrite H1, H2, H3.
Qed.

Lemma push_cases rooted out s : no_byte "/" s = true ->
  push_element rooted out s = out /\ (s = EmptyString \/ s = ".") \/
  s = ".." \/ path_name s.
Proof.
  intros Hs. unfold push_element. destruct (str_eqb s EmptyString) eqn:E1; [apply str_eqb_eq in E1; auto|].
  destruct (str_eqb s ".") eqn:E2; [apply str_eqb_eq in E2; auto|].
  destruct (str_eqb s ".." ) eqn:E3; [apply str_eqb_eq in E3; auto|].
  apply str_eqb_neq in E1, E2, E3. right. right. by split.
Qed.

Lemma push_rooted out s : no_byte "/" s = true -> Forall path_name out -> Forall path_name (push_element true out s).
Proof.
  intros Hs Ho. destruct (push_cases true out s Hs) as [[-> _]|[->|Hn]]; [done| |].
  - cbn. destruct Ho as [|top out Ht Ho]; [done|]. destruct Ht as (_ & _ & Ht & _). apply str_eqb_neq in Ht.
    unfold push_element. cbn. by rewrite Ht.
  - rewrite push_name by done. by constructor.
Qed.

Lemma push_relative out s : no_byte "/" s = true -> Forall name_or_up out -> Forall name_or_up (push_element false out s).
Proof.
  intros Hs Ho. destruct (push_cases false out s Hs) as [[-> _]|[->|Hn]]; [done| |].
  - unfold push_element. cbn. destruct Ho as [|top out Ht Ho]; [by repeat constructor|].
    destruct (str_eqb top ".."); [|done]. constructor; [by left|by constructor].
  - rewrite push_name by done. constructor; [by right|done].
Qed.

Lemma fold_rooted segs : Forall (fun s => no_byte "/" s = true) segs -> forall out, Forall path_name out ->
  Forall path_name (foldl (push_element true) out segs).
Proof. induction 1 as [|s segs Hs _ IH]; intros out Ho; [done|]. cbn. apply IH. by apply push_rooted. Qed.

Lemma fold_relative segs : Forall (fun s => no_byte "/" s = true) segs -> forall out, Forall name_or_up out ->
  Forall name_or_up (foldl (push_element false) out segs).
Proof. induction 1 as [|s segs Hs _ IH]; intros out Ho; [done|]. cbn. apply IH. by apply push_relative. Qed.

Lemma elements_rooted p : Forall path_name (path_elements true p).
Proof. apply fold_rooted; [apply split_no_byte|constructor]. Qed.
Lemma elements_relative p : Forall name_or_up (path_elements false p).
Proof. apply fold_relative; [apply split_no_byte|constructor]. Qed.

(** ** Cleaning a path is cleaning it in place *)

Lemma fold_names rooted names : Forall path_name names -> forall out,
  foldl (push_element rooted) out names = rev names ++ out.
Proof.
  induction 1 as [|s names Hs _ IH]; intros out; [done|]. cbn. rewrite push_name, IH, <- app_assoc by done. done.
Qed.

Lemma fold_again segs : Forall (fun s => no_byte "/" s = true) segs -> forall out, Forall path_name out ->
  foldl (push_element true) out (rev (foldl (push_element false) [] segs)) = foldl (push_element true) out segs.
Proof.
  induction segs as [|s segs IH] using rev_ind; intros Hs out Ho; [done|].
  apply Forall_app in Hs as [Hsegs [Hs _]%Forall_cons]. rewrite !foldl_app. cbn [foldl].
  rewrite <- (IH Hsegs out Ho). pose proof (fold_relative segs Hsegs [] ltac:(constructor)) as Hrel.
  set (rel := foldl (push_element false) [] segs) in *. clearbody rel.
  destruct (push_cases false rel s Hs) as [[E Hv]|[->|Hn]].
  - rewrite E. by destruct Hv as [-> | ->].
  - destruct Hrel as [|top below Htop Hbelow].
    + done.
    + unfold push_element at 2. cbn. destruct (str_eqb top "..") eqn:Et.
      * apply str_eqb_eq in Et as ->. cbn [rev]. by rewrite !foldl_app.
      * destruct Htop as [->|Htop]; [done|]. rewrite foldl_app. cbn [foldl]. rewrite (push_name true) by done.
        unfold push_element. cbn. by rewrite Et.
  - rewrite push_name by done. cbn [rev]. rewrite foldl_app. cbn [foldl]. by rewrite !push_name.
Qed.

Lemma join_names names : names <> [] -> Forall (fun s => s <> EmptyString /\ no_byte "/" s = true) names ->
  join "/" names <> EmptyString /\ path_IsAbs (join "/" names) = false /\ split "/" (join "/" names) = names.
Proof.
  intros Hne Hn. assert (Hs : split "/" (join "/" names) = names).
  { apply split_join; [done|]. eapply Forall_impl; [exact Hn|]. by intros s [_ H]. }
  split; [|split; [|done]].
  - intros E. rewrite E in Hs. cbn in Hs. subst names. by apply Forall_cons in Hn as [[? _] _].
  - unfold path_IsAbs. destruct (join "/" names) as [|c r] eqn:E; [done|]. cbn.
    destruct (byte_eqb "/" c) eqn:Ec; [|by destruct r]. apply byte_eqb_eq in Ec as <-.
    cbn in Hs. subst names. apply Forall_cons in Hn as [[? _] _]. done.
Qed.

Lemma name_or_up_plain s : name_or_up s -> s <> EmptyString /\ no_byte "/" s = true.
Proof. intros [->|(H1 & _ & _ & H2)]; done. Qed.
Lemma path_name_plain s : path_name s -> s <> EmptyString /\ no_byte "/" s = true.
Proof. intros H. apply name_or_up_plain. by right. Qed.

(** The elements of an absolute path. *)
Definition abs_elements (wd p : string) : list string :=
  if path_IsAbs p then path_elements true p else path_elements true (wd +:+ "/" +:+ p).

Lemma IsAbs_app w s : path_IsAbs w = true -> path_IsAbs (w +:+ s) = true.
Proof. unfold path_IsAbs. by destruct w. Qed.

Lemma Abs_elements wd p : path_IsAbs wd = true -> path_Abs (Some wd) p = "/" +:+ join "/" (rev (abs_elements wd p)).
Proof.
  intros Hw. unfold path_Abs, abs_elements, path_Join, path_Clean. destruct (path_IsAbs p) eqn:Ep.
  - destruct p; [done|]. done.
  - rewrite IsAbs_app by done. destruct wd as [|c r]; done.
Qed.

Lemma elements_names rooted a names : names <> [] -> Forall path_name names ->
  path_elements rooted (a +:+ "/" +:+ join "/" names) = rev names ++ path_elements rooted a.
Proof.
  intros Hne Hn. unfold path_elements. change ("/" +:+ ?x) with (String "/" x). rewrite split_app_two, foldl_app.
  destruct (join_names names) as (_ & _ & ->); [done| |by apply fold_names].
  eapply Forall_impl; [exact Hn|apply path_name_plain].
Qed.

Lemma elements_snoc rooted a n : path_name n -> path_elements rooted (a +:+ "/" +:+ n) = n :: path_elements rooted a.
Proof. intros Hn. apply (elements_names rooted a [n]); [done|by constructor]. Qed.

Lemma elements_join_rooted out : Forall path_name out -> path_elements true ("/" +:+ join "/" (rev out)) = out.
Proof.
  intros Ho. destruct (decide (out = [])) as [->|Hne]; [done|]. unfold path_elements.
  change ("/" +:+ join "/" (rev out)) with (EmptyString +:+ String "/" (join "/" (rev out))).
  rewrite split_app_two, foldl_app. cbn [split foldl]. change (push_element true [] EmptyString) with (@nil string).
  destruct (join_names (rev out)) as (_ & _ & ->).
  - intros E. apply Hne. rewrite <- (rev_involutive out), E. done.
  - apply Forall_rev. eapply Forall_impl; [exact Ho|apply path_name_plain].
  - rewrite fold_names by (by apply Forall_rev). by rewrite rev_involutive, app_nil_r.
Qed.

(** Names joined to a directory are below it. *)
Lemma abs_elements_names wd dir names : path_IsAbs wd = true -> dir <> EmptyString ->
  names <> [] -> Forall path_name names ->
  abs_elements wd (path_Join dir (join "/" names)) = rev names ++ abs_elements wd dir.
Proof.
  intros Hw Hd Hne Hn. unfold path_Join, path_Clean. apply str_eqb_neq in Hd as Hd'. rewrite Hd'.
  set (n := join "/" names).
  assert (str_eqb (dir +:+ "/" +:+ n) EmptyString = false) as -> by (by destruct dir).
  assert (Hr : Forall path_name (rev names)) by (by apply Forall_rev).
  unfold abs_elements. destruct (path_IsAbs dir) eqn:Ed.
  - rewrite (IsAbs_app dir) by done. unfold n. rewrite elements_names by done.
    change (path_IsAbs ("/" +:+ ?x)) with true. cbv iota.
    apply elements_join_rooted. apply Forall_app. split; [done|apply elements_rooted].
  - assert (Hrel : path_IsAbs (dir +:+ "/" +:+ n) = false).
    { unfold path_IsAbs in *. destruct dir as [|c r]; [done|]. cbn in *. destruct (byte_eqb "/" c); [|done]. by destruct r. }
    rewrite Hrel. unfold n. rewrite elements_names by done. set (out := rev names ++ path_elements false dir).
    assert (Ho : Forall name_or_up out).
    { apply Forall_app. split; [|apply elements_relative]. eapply Forall_impl; [exact Hr|]. by right. }
    destruct (join_names (rev out)) as (H1 & H2 & H3).
    { unfold out. rewrite rev_app_distr, rev_involutive. intros E. by apply app_eq_nil in E as [_ E]. }
    { apply Forall_rev. eapply Forall_impl; [exact Ho|apply name_or_up_plain]. }
    apply str_eqb_neq in H1. rewrite H1, H2. unfold path_elements at 1. change ("/" +:+ ?x) with (String "/" x).
    rewrite split_app_two, foldl_app, H3. unfold path_elements. rewrite split_app_two, foldl_app.
    fold (path_elements true wd). unfold out. rewrite rev_app_distr, rev_involutive, foldl_app.
    unfold path_elements at 2. rewrite fold_again; [|apply split_no_byte|apply elements_rooted].
    by apply fold_names.
Qed.

(** The check of the handlers: the entry is below the directory, unless the
    directory is the root, whose name ends in "/" already. *)
Lemma Join_names_below wd dir names : path_IsAbs wd = true -> dir <> EmptyString ->
  names <> [] -> Forall path_name names -> path_Abs (Some wd) dir <> "/" ->
  path_Abs (Some wd) (path_Join dir (join "/" names)) = path_Abs (Some wd) dir +:+ "/" +:+ join "/" names.
Proof.
  intros Hw Hd Hne Hn Hr. rewrite !Abs_elements in * by done. rewrite abs_elements_names by done.
  rewrite rev_app_distr, rev_involutive.
  destruct (abs_elements wd dir) as [|e es]; [done|]. cbn [rev] in *. rewrite <- str_app_assoc. f_equal.
  destruct (rev es ++ [e]) as [|x xs] eqn:Ex; [by apply app_eq_nil in Ex as [_ Ex]|]. cbn [app].
  destruct names as [|y ys]; [done|]. rewrite !join_dotted, dotted_app. cbn. by rewrite str_app_assoc.
Qed.

Lemma Join_below wd dir n : path_IsAbs wd = true -> dir <> EmptyString -> path_name n ->
  path_Abs (Some wd) dir <> "/" ->
  path_Abs (Some wd) (path_Join dir n) = path_Abs (Some wd) dir +:+ "/" +:+ n /\
  has_prefix (path_Abs (Some wd) (path_Join dir n)) (path_Abs (Some wd) dir +:+ "/") = true /\
  path_Abs (Some wd) (path_Join dir n) <> "/".
Proof.
  intros Hw Hd Hn Hr. assert (E : path_Abs (Some wd) (path_Join dir n) = path_Abs (Some wd) dir +:+ "/" +:+ n).
  { apply (Join_names_below wd dir [n]); [done..|by constructor|done]. }
  split; [done|]. rewrite E. split.
  - rewrite str_app_assoc. apply has_prefix_app.
  - intros E'. apply (f_equal str_len) in E'. rewrite str_len_app in E'. cbn in E'.
    assert (str_len n <> 0) by (destruct Hn as (Hn & _); by destruct n). lia.
Qed.

(** Below the root itself the check never holds. *)
Lemma root_has_no_entries n : path_name n -> has_prefix (path_Abs (Some "/") (path_Join "/" n)) ("/" +:+ "/") = false.
Proof.
  intros Hn. rewrite Abs_elements by done.
  pose proof (abs_elements_names "/" "/" [n] eq_refl ltac:(done) ltac:(done) ltac:(by constructor)) as E.
  change (join "/" [n]) with n in E. rewrite E. clear E. change (abs_elements "/" "/") with (@nil string).
  destruct Hn as (H1 & _ & _ & H4). destruct n as [|c r]; [done|]. cbn in *. bool_simpl.
  by rewrite (byte_eqb_sym "/" c), H.
Qed.
