(* ===== verification/Scan.v ===== *)
(** * Scanners shared by the expression parsers

    Both recursive-descent parsers (pkg/arith and pkg/alarm) keep a byte
    position in the source; here the state is the remaining input.  The file
    holds the white-space skipper, the left-associative operator loop and the
    facts about them: progress, independence of the fuel. *)
From S2P Require Import Prelude Float64.
Open Scope string_scope.
Open Scope list_scope.

(** [parser.trim]: skip blanks. *)
Definition trim (s : string) : string := (span_bytes is_space s).2.

(** The byte the parser sees next, blanks skipped. *)
Definition next_byte (s : string) : option ascii :=
  match trim s with String c _ => Some c | EmptyString => None end.

(** The literal alphabet both number scanners swallow. *)
Definition num_byte (c : ascii) : bool :=
  is_digit c || byte_eqb c "." || byte_eqb c "e" || byte_eqb c "E" ||
  byte_eqb c "+" || byte_eqb c "-".

Lemma trim_len s : str_len (trim s) <= str_len s.
Proof. apply span_bytes_len. Qed.

Lemma trim_stop s c r : trim s = String c r -> is_space c = false.
Proof. apply span_bytes_rest. Qed.

Lemma trim_cons c s : is_space c = false -> trim (String c s) = String c s.
Proof. intros H. unfold trim; cbn. by rewrite H. Qed.

Lemma trim_idem s : trim (trim s) = trim s.
Proof.
  destruct (trim s) as [|c r] eqn:E; [done|]. apply trim_cons. by eapply trim_stop.
Qed.

Lemma trim_ws w s : all_bytes is_space w = true -> trim (w +:+ s) = trim s.
Proof.
  induction w as [|c w IH]; cbn [String.append all_bytes]; [done|]. intros H. bool_simpl.
  unfold trim in *. cbn. rewrite H. specialize (IH H0).
  by destruct (span_bytes is_space (w +:+ s)).
Qed.

Lemma next_byte_trim s : next_byte (trim s) = next_byte s.
Proof. unfold next_byte. by rewrite trim_idem. Qed.

(** The loops [for { trim; if eof return; c := peek(); if c is not an operator
    return; pos++; rhs := operand(); lhs = &BinOp{c, lhs, rhs} }]. *)
Section loop.
Context {E A : Type} (efuel : E) (is_op : ascii -> bool)
  (operand : string -> result E (A * string)) (mk : ascii -> A -> A -> A).

Fixpoint op_loop (fuel : nat) (lhs : A) (s : string) : result E (A * string) :=
  match fuel with
  | O => Err efuel
  | S n =>
      match trim s with
      | EmptyString => Ok (lhs, EmptyString)
      | String c r =>
          if is_op c then
            '(rhs, r') ← operand r; op_loop n (mk c lhs rhs) r'
          else Ok (lhs, String c r)
      end
  end.

Lemma op_loop_S n lhs s c r :
  trim s = String c r -> is_op c = true ->
  op_loop (S n) lhs s = '(rhs, r') ← operand r; op_loop n (mk c lhs rhs) r'.
Proof. intros Ht Hc. cbn. by rewrite Ht, Hc. Qed.

(** One operand, then the loop. *)
Definition op_chain (s : string) : result E (A * string) :=
  '(lhs, r) ← operand s; op_loop (S (str_len r)) lhs r.

(** [operand] never runs out of fuel below length [n] and consumes input. *)
Definition progress (f : string -> result E (A * string)) (n : nat) : Prop :=
  forall s, str_len s < n ->
    f s <> Err efuel /\ forall x r, f s = Ok (x, r) -> str_len r < str_len s.

Lemma op_loop_progress n fuel lhs s :
  progress operand n -> str_len s <= n -> str_len s < fuel ->
  op_loop fuel lhs s <> Err efuel /\
  forall x r, op_loop fuel lhs s = Ok (x, r) -> str_len r <= str_len s.
Proof.
  intros Hop. revert lhs s. induction fuel as [|fuel IH]; intros lhs s Hs Hf; [lia|].
  cbn. pose proof (trim_len s) as Ht. destruct (trim s) as [|c r] eqn:Etr.
  { split; [done|]. intros x r [= <- <-]. cbn. lia. }
  cbn in Ht. destruct (is_op c).
  - destruct (Hop r) as [Hne Hlt]; [lia|].
    destruct (operand r) as [[rhs r']|e]; cbn.
    + specialize (Hlt _ _ eq_refl).
      destruct (IH (mk c lhs rhs) r') as [H1 H2]; [lia|lia|].
      split; [done|]. intros x r'' H. apply H2 in H. lia.
    + split; [congruence|done].
  - split; [done|]. intros x r' [= <- <-]. cbn. lia.
Qed.

Lemma op_chain_progress n : progress operand n -> progress op_chain n.
Proof.
  intros Hop s Hs. unfold op_chain. destruct (Hop s Hs) as [Hne Hlt].
  destruct (operand s) as [[lhs r]|e]; cbn; [|split; [congruence|done]].
  specialize (Hlt _ _ eq_refl).
  destruct (op_loop_progress n (S (str_len r)) lhs r Hop) as [H1 H2]; [lia|lia|].
  split; [done|]. intros x r' H. apply H2 in H. lia.
Qed.

(** Any fuel above the input's length gives the same answer. *)
Lemma op_loop_fuel n f1 f2 lhs s :
  progress operand n -> str_len s <= n -> str_len s < f1 -> str_len s < f2 ->
  op_loop f1 lhs s = op_loop f2 lhs s.
Proof.
  intros Hop. revert f2 lhs s.
  induction f1 as [|f1 IH]; intros [|f2] lhs s Hs H1 H2; try lia. cbn.
  pose proof (trim_len s) as Ht. destruct (trim s) as [|c r]; [done|]. cbn in Ht.
  destruct (is_op c); [|done]. destruct (Hop r) as [_ Hlt]; [lia|].
  destruct (operand r) as [[rhs r']|e]; cbn; [|done].
  specialize (Hlt _ _ eq_refl). apply IH; lia.
Qed.

Lemma op_loop_trim fuel lhs s : op_loop fuel lhs (trim s) = op_loop fuel lhs s.
Proof. destruct fuel; cbn; [done|]. by rewrite trim_idem. Qed.

Lemma op_loop_stop fuel lhs s :
  (forall c, next_byte s = Some c -> is_op c = false) ->
  op_loop (S fuel) lhs s = Ok (lhs, trim s).
Proof.
  intros H. cbn. unfold next_byte in H. destruct (trim s) as [|c r]; [done|].
  by rewrite (H c eq_refl).
Qed.

(** What a successful loop did: nothing, or one more operand. *)
Lemma op_loop_inv fuel lhs s x r :
  op_loop fuel lhs s = Ok (x, r) ->
  (x = lhs /\ r = trim s /\ forall c, next_byte s = Some c -> is_op c = false) \/
  exists c s' rhs s'' fuel', trim s = String c s' /\ is_op c = true /\
    operand s' = Ok (rhs, s'') /\ op_loop fuel' (mk c lhs rhs) s'' = Ok (x, r) /\
    fuel = S fuel'.
Proof.
  destruct fuel as [|fuel]; cbn; [done|]. unfold next_byte.
  destruct (trim s) as [|c s'].
  - intros [= <- <-]. left. done.
  - destruct (is_op c) eqn:Eop.
    + intros H. apply bind_Ok in H as ([rhs s''] & Ho & Hl). right.
      exists c, s', rhs, s'', fuel. done.
    + intros [= <- <-]. left. split; [done|]. split; [done|]. by intros ? [= <-].
Qed.
End loop.

(** A pointwise equal operand gives the same loop. *)
Lemma op_loop_ext {E A} (efuel : E) is_op (f g : string -> result E (A * string)) mk n fuel lhs s :
  (forall t, str_len t < n -> f t = g t) -> progress efuel f n -> str_len s <= n ->
  op_loop efuel is_op f mk fuel lhs s = op_loop efuel is_op g mk fuel lhs s.
Proof.
  intros Heq Hp. revert lhs s. induction fuel as [|fuel IH]; intros lhs s Hs; cbn; [done|].
  pose proof (trim_len s) as Ht. destruct (trim s) as [|c r]; [done|]. cbn in Ht.
  destruct (is_op c); [|done]. rewrite <- Heq by lia.
  destruct (Hp r) as [_ Hlt]; [lia|]. destruct (f r) as [[rhs r']|e]; cbn; [|done].
  specialize (Hlt _ _ eq_refl). apply IH. lia.
Qed.

Lemma op_chain_ext {E A} (efuel : E) is_op (f g : string -> result E (A * string)) mk n s :
  (forall t, str_len t < n -> f t = g t) -> progress efuel f n -> str_len s < n ->
  op_chain efuel is_op f mk s = op_chain efuel is_op g mk s.
Proof.
  intros Heq Hp Hs. unfold op_chain. rewrite <- Heq by done.
  destruct (Hp s Hs) as [_ Hlt]. destruct (f s) as [[lhs r]|e]; cbn -[op_loop]; [|done].
  specialize (Hlt _ _ eq_refl). eapply op_loop_ext; [done|done|lia].
Qed.
