(* ===== verification/Arith.v ===== *)
(** * Arithmetic expressions (pkg/arith/arith.go)

    The shared expression layer: nodes, evaluation with the missing-variable
    and division errors, reference collection, and the recursive-descent
    parser.  Main theorems: the parser accepts exactly the grammar over the
    token stream and builds the left-associative tree; it always terminates;
    evaluation depends on the collected references only and fails exactly as
    documented. *)
From S2P Require Import Prelude Float64 Scan.
Open Scope string_scope.
Open Scope list_scope.

(** ** Nodes *)

Inductive Node : Type :=
  | NumLit (V : float64)
  | Ident (Name : string)
  | BinOp (Op : ascii) (L R : Node).

#[export] Instance Node_eq_dec : EqDecision Node.
Proof. solve_decision. Defined.

Inductive eval_err : Type := ErrUndefined | ErrDivZero | ErrUnknownOp (Op : ascii).

#[export] Instance eval_err_eq_dec : EqDecision eval_err.
Proof. solve_decision. Defined.

Abbreviation snapshot := (gmap string float64).

(** The [switch b.Op] on the two operand values. *)
Definition binop_apply (Op : ascii) (l r : float64) : result eval_err float64 :=
  if byte_eqb Op "+" then Ok (fadd l r)
  else if byte_eqb Op "-" then Ok (fsub l r)
  else if byte_eqb Op "*" then Ok (fmul l r)
  else if byte_eqb Op "/" then
    if feqb r f0 then Err ErrDivZero else Ok (fdiv l r)
  else Err (ErrUnknownOp Op).

Fixpoint Eval (n : Node) (snap : snapshot) : result eval_err float64 :=
  match n with
  | NumLit v => Ok v
  | Ident x => match snap !! x with Some v => Ok v | None => Err ErrUndefined end
  | BinOp op L R =>
      l ← Eval L snap; r ← Eval R snap; binop_apply op l r
  end.

(** [append] of what is not yet [seen]. *)
Fixpoint dedup_append (out rs : list string) : list string :=
  match rs with
  | [] => out
  | r :: rs' => dedup_append (if decide (r ∈ out) then out else out ++ [r]) rs'
  end.

Fixpoint Refs (n : Node) : list string :=
  match n with
  | NumLit _ => []
  | Ident x => [x]
  | BinOp _ L R => dedup_append (Refs L) (Refs R)
  end.

(** ** Parser *)

Inductive parse_err : Type :=
  | EEmpty | ETrailing | EEnd | EMinusNoOperand | EPlusNoOperand | ECloseParen
  | EUnexpected (c : ascii) | EBadNumber (e : parse_float_err) | EEmptyIdent
  | EInvalidIdent | EFuel.

Definition is_letter (c : ascii) : bool := is_lower c || is_upper c.
Definition ident_byte (c : ascii) : bool :=
  is_lower c || is_upper c || is_digit c || byte_eqb c "." || byte_eqb c "_".
Definition ident_start (c : ascii) : bool :=
  is_lower c || is_upper c || byte_eqb c "_".
Definition num_start (c : ascii) : bool := is_digit c || byte_eqb c ".".

Definition validIdent (s : string) : bool :=
  match s with
  | EmptyString => false
  | String c _ =>
      if is_digit c then false
      else if contains ".." s then false
      else all_bytes ident_byte s
  end.

Definition parseNumber (s : string) : result parse_err (Node * string) :=
  let '(lit, r) := span_bytes num_byte s in
  match ParseFloat lit with
  | Ok v => Ok (NumLit v, r)
  | Err e => Err (EBadNumber e)
  end.

Definition parseIdent (s : string) : result parse_err (Node * string) :=
  let '(name, r) := span_bytes ident_byte s in
  if str_eqb name EmptyString then Err EEmptyIdent
  else if negb (validIdent name) then Err EInvalidIdent
  else Ok (Ident name, r).

Definition is_addop (c : ascii) : bool := byte_eqb c "+" || byte_eqb c "-".
Definition is_mulop (c : ascii) : bool := byte_eqb c "*" || byte_eqb c "/".

(** The body of each parsing function, over the recursive call of
    [parseArith] made between parentheses. *)
Section body.
Context (parseArith : string -> result parse_err (Node * string)).

(** The [switch] of [parseFactor], at the first byte after the sign. *)
Definition parsePrimary (s : string) : result parse_err (Node * string) :=
  match s with
  | EmptyString => Err EEnd
  | String c r =>
      if num_start c then parseNumber s
      else if ident_start c then parseIdent s
      else if byte_eqb c "(" then
        '(n, r1) ← parseArith r;
        match trim r1 with
        | String d r2 => if byte_eqb d ")" then Ok (n, r2) else Err ECloseParen
        | EmptyString => Err ECloseParen
        end
      else Err (EUnexpected c)
  end.

Definition negate_node (n : Node) : Node := BinOp "*" n (NumLit fminus1).

Definition parseFactor (s : string) : result parse_err (Node * string) :=
  match trim s with
  | EmptyString => Err EEnd
  | String c r =>
      if byte_eqb c "-" then
        match trim r with
        | EmptyString => Err EMinusNoOperand
        | s1 => '(inner, r') ← parsePrimary s1; Ok (negate_node inner, r')
        end
      else if byte_eqb c "+" then
        match trim r with
        | EmptyString => Err EPlusNoOperand
        | s1 => parsePrimary s1
        end
      else parsePrimary (String c r)
  end.

Definition parseTerm : string -> result parse_err (Node * string) :=
  op_chain EFuel is_mulop parseFactor BinOp.

Definition parseArith_body : string -> result parse_err (Node * string) :=
  op_chain EFuel is_addop parseTerm BinOp.
End body.

(** Each level of parentheses consumes a byte, so the depth is below the
    length of the input. *)
Fixpoint parseArith (fuel : nat) (s : string) : result parse_err (Node * string) :=
  match fuel with
  | O => Err EFuel
  | S n => parseArith_body (parseArith n) s
  end.

Definition Parse (s : string) : result parse_err Node :=
  let s0 := trim s in
  if str_eqb s0 EmptyString then Err EEmpty
  else
    '(node, r) ← parseArith (S (str_len s0)) s0;
    if str_eqb (trim r) EmptyString then Ok node else Err ETrailing.

Example parse_prec : Parse "a + b * 2 - c" =
  Ok (BinOp "-" (BinOp "+" (Ident "a") (BinOp "*" (Ident "b") (NumLit (f_of_Z 2)))) (Ident "c")).
Proof. vm_compute. reflexivity. Qed.
Example parse_glued : Parse "3-1" = Err (EBadNumber ErrSyntax).
Proof. vm_compute. reflexivity. Qed.
Example parse_twosigns : Parse "--a" = Err (EUnexpected "-").
Proof. vm_compute. reflexivity. Qed.
Example parse_paren : Parse "-(return.temp - supply.temp)/ 2" =
  Ok (BinOp "/" (BinOp "*" (BinOp "-" (Ident "return.temp") (Ident "supply.temp"))
    (NumLit fminus1)) (NumLit (f_of_Z 2))).
Proof. vm_compute. reflexivity. Qed.

(** ** Termination *)

Abbreviation prog := (progress EFuel).

Lemma span_lt p c s :
  p c = true -> str_len (span_bytes p (String c s)).2 < str_len (String c s).
Proof.
  intros H. cbn. rewrite H. pose proof (span_bytes_len p s).
  destruct (span_bytes p s); cbn in *; lia.
Qed.

Lemma num_start_byte c : num_start c = true -> num_byte c = true.
Proof.
  unfold num_start, num_byte. by destruct (is_digit c), (byte_eqb c ".").
Qed.

Lemma ident_start_byte c : ident_start c = true -> ident_byte c = true.
Proof.
  unfold ident_start, ident_byte.
  by destruct (is_lower c), (is_upper c), (is_digit c), (byte_eqb c "."), (byte_eqb c "_").
Qed.

Lemma parsePrimary_progress f n :
  prog f n -> prog (parsePrimary f) (S n).
Proof.
  intros Hf [|c r] Hs; cbn; [done|]. cbn in Hs.
  destruct (num_start c) eqn:En; [|destruct (ident_start c) eqn:Ei;
    [|destruct (byte_eqb c "(") eqn:Ep; [|done]]].
  - unfold parseNumber. pose proof (span_lt num_byte c r (num_start_byte c En)) as Hlt.
    destruct (span_bytes num_byte (String c r)) as [lit r1]. cbn in Hlt.
    destruct (ParseFloat lit); [|done]. split; [done|]. intros x r' [= _ <-]. lia.
  - unfold parseIdent. pose proof (span_lt ident_byte c r (ident_start_byte c Ei)) as Hlt.
    destruct (span_bytes ident_byte (String c r)) as [lit r1]. cbn in Hlt.
    destruct (str_eqb lit EmptyString); [done|]. destruct (validIdent lit); [|done].
    split; [done|]. intros x r' [= _ <-]. lia.
  - destruct (Hf r) as [Hne Hlt]; [lia|]. destruct (f r) as [[x r1]|e]; cbn.
    + specialize (Hlt _ _ eq_refl). pose proof (trim_len r1).
      destruct (trim r1) as [|d r2]; [done|]. cbn in *. destruct (byte_eqb d ")"); [|done].
      split; [done|]. intros y r' [= _ <-]. lia.
    + split; [congruence|done].
Qed.

Lemma parseFactor_progress f n :
  prog f n -> prog (parseFactor f) (S n).
Proof.
  intros Hf s Hs. unfold parseFactor. pose proof (trim_len s) as Ht.
  pose proof (parsePrimary_progress f n Hf) as Hp.
  destruct (trim s) as [|c r]; [done|]. cbn in Ht.
  destruct (byte_eqb c "-"); [|destruct (byte_eqb c "+")].
  - pose proof (trim_len r) as Ht'. destruct (trim r) as [|d r']; [done|].
    destruct (Hp (String d r')) as [H1 H2]; [lia|].
    destruct (parsePrimary f (String d r')) as [[x r1]|e]; cbn in *.
    + specialize (H2 _ _ eq_refl). split; [done|]. intros y r2 [= _ <-]. lia.
    + split; [congruence|done].
  - pose proof (trim_len r) as Ht'. destruct (trim r) as [|d r']; [done|].
    destruct (Hp (String d r')) as [H1 H2]; [lia|]. split; [done|].
    intros x r1 H. apply H2 in H. lia.
  - destruct (Hp (String c r)) as [H1 H2]; [cbn; lia|]. split; [done|].
    intros x r1 H. apply H2 in H. cbn in H. lia.
Qed.

Lemma parseTerm_progress f n : prog f n -> prog (parseTerm f) (S n).
Proof. intros. by apply op_chain_progress, parseFactor_progress. Qed.

Lemma parseArith_progress n : prog (parseArith n) n.
Proof.
  induction n as [|n IH]; [intros s Hs; lia|].
  by apply op_chain_progress, parseTerm_progress.
Qed.

(** The recursive call only sees a shorter input. *)
Lemma parsePrimary_ext f g s :
  (forall t, str_len t < str_len s -> f t = g t) -> parsePrimary f s = parsePrimary g s.
Proof.
  intros H. destruct s as [|c r]; cbn; [done|]. rewrite H by (cbn; lia). done.
Qed.

Lemma parseFactor_ext f g s :
  (forall t, str_len t < str_len s -> f t = g t) -> parseFactor f s = parseFactor g s.
Proof.
  intros H. unfold parseFactor. pose proof (trim_len s) as Hs.
  destruct (trim s) as [|c r]; [done|]. pose proof (trim_len r) as Hr.
  assert (forall t, str_len t <= str_len s -> parsePrimary f t = parsePrimary g t) as Heq
    by (intros t Ht; apply parsePrimary_ext; intros; apply H; lia).
  rewrite (Heq (String c r)) by done.
  destruct (trim r) as [|d r']; [done|].
  by rewrite (Heq (String d r')) by (cbn in *; lia).
Qed.

Lemma parseTerm_ext f g n s :
  (forall t, str_len t < n -> f t = g t) -> prog f n -> str_len s < S n ->
  parseTerm f s = parseTerm g s.
Proof.
  intros H Hf Hs. apply (op_chain_ext _ _ _ _ _ (S n)); [|by apply parseFactor_progress|done].
  intros t Ht. apply parseFactor_ext. intros u Hu. apply H. lia.
Qed.

Lemma parseArith_fuel n m s :
  str_len s < n -> str_len s < m -> parseArith n s = parseArith m s.
Proof.
  revert m s. induction n as [|n IH]; intros [|m] s Hn Hm; try lia. cbn.
  assert (forall t, str_len t < n `min` m -> parseArith n t = parseArith m t) as Heq
    by (intros t Ht; apply IH; lia).
  assert (prog (parseArith n) (n `min` m)) as Hp
    by (intros t Ht; apply parseArith_progress; lia).
  apply (op_chain_ext _ _ _ _ _ (S (n `min` m))); [|by apply parseTerm_progress|lia].
  intros t Ht. by apply (parseTerm_ext _ _ (n `min` m)).
Qed.

(** ** Tokens and the grammar *)

Inductive token : Type :=
  | TNum (v : float64) | TId (x : string) | TSym (c : ascii).

Definition is_sym (c : ascii) : bool :=
  is_addop c || is_mulop c || byte_eqb c "(" || byte_eqb c ")".

(** Longest-match lexing of one token, blanks skipped. *)
Definition lex1 (s : string) : option (token * string) :=
  match trim s with
  | EmptyString => None
  | String c r =>
      if num_start c then
        let '(lit, r') := span_bytes num_byte (String c r) in
        match ParseFloat lit with Ok v => Some (TNum v, r') | Err _ => None end
      else if ident_start c then
        let '(x, r') := span_bytes ident_byte (String c r) in
        if validIdent x then Some (TId x, r') else None
      else if is_sym c then Some (TSym c, r)
      else None
  end.

(** [s] lexes into [ts] and leaves [r] (up to blanks). *)
Inductive lexes : string -> list token -> string -> Prop :=
  | lexes_nil s r : trim s = trim r -> lexes s [] r
  | lexes_cons s t s' ts r : lex1 s = Some (t, s') -> lexes s' ts r -> lexes s (t :: ts) r.

(** The grammar of the package comment, with its tree. *)
Inductive g_primary : list token -> Node -> Prop :=
  | g_num v : g_primary [TNum v] (NumLit v)
  | g_ident x : g_primary [TId x] (Ident x)
  | g_paren ts n : g_arith ts n -> g_primary (TSym "(" :: ts ++ [TSym ")"]) n
with g_factor : list token -> Node -> Prop :=
  | g_plain ts n : g_primary ts n -> g_factor ts n
  | g_plus ts n : g_primary ts n -> g_factor (TSym "+" :: ts) n
  | g_minus ts n : g_primary ts n -> g_factor (TSym "-" :: ts) (negate_node n)
with g_term : list token -> Node -> Prop :=
  | g_term1 ts n : g_factor ts n -> g_term ts n
  | g_termop ts l c ts' r : g_term ts l -> is_mulop c = true -> g_factor ts' r ->
      g_term (ts ++ TSym c :: ts') (BinOp c l r)
with g_arith : list token -> Node -> Prop :=
  | g_arith1 ts n : g_term ts n -> g_arith ts n
  | g_arithop ts l c ts' r : g_arith ts l -> is_addop c = true -> g_term ts' r ->
      g_arith (ts ++ TSym c :: ts') (BinOp c l r).

Scheme g_primary_mut := Induction for g_primary Sort Prop
  with g_factor_mut := Induction for g_factor Sort Prop
  with g_term_mut := Induction for g_term Sort Prop
  with g_arith_mut := Induction for g_arith Sort Prop.
Combined Scheme grammar_ind from g_primary_mut, g_factor_mut, g_term_mut, g_arith_mut.

Lemma lex1_trim s : lex1 (trim s) = lex1 s.
Proof. unfold lex1. by rewrite trim_idem. Qed.

Lemma lex1_eq s s' : trim s = trim s' -> lex1 s = lex1 s'.
Proof. unfold lex1. by intros ->. Qed.

Lemma lexes_eq_l s s' ts r : trim s = trim s' -> lexes s ts r -> lexes s' ts r.
Proof.
  intros H. inversion 1; subst; [constructor; congruence|].
  econstructor; [|done]. by rewrite <- (lex1_eq _ _ H).
Qed.

Lemma lexes_eq_r s ts r r' : trim r = trim r' -> lexes s ts r -> lexes s ts r'.
Proof.
  intros H. induction 1 as [s r Hr|s t s' ts r Hl Hs IH].
  - apply lexes_nil. by rewrite Hr.
  - eapply lexes_cons; [exact Hl|by apply IH].
Qed.

Lemma lexes_app s ts r ts' r' : lexes s ts r -> lexes r ts' r' -> lexes s (ts ++ ts') r'.
Proof.
  induction 1; intros H'; cbn; [|by econstructor; eauto].
  by eapply lexes_eq_l.
Qed.

Lemma lexes_app_inv s ts ts' r :
  lexes s (ts ++ ts') r -> exists m, lexes s ts m /\ lexes m ts' r.
Proof.
  revert s. induction ts as [|t ts IH]; intros s H; cbn in *.
  - exists s. split; [by constructor|done].
  - inv H. destruct (IH _ H5) as (m & ? & ?). exists m. split; [by econstructor|done].
Qed.

Lemma sym_not_start c :
  is_sym c = true -> num_start c = false /\ ident_start c = false /\ is_space c = false.
Proof. byte_cases c; vm_compute; intuition congruence. Qed.

Lemma lex1_sym c r : is_sym c = true -> lex1 (String c r) = Some (TSym c, r).
Proof.
  intros H. destruct (sym_not_start c H) as (H1 & H2 & H3). unfold lex1.
  rewrite trim_cons by done. by rewrite H1, H2, H.
Qed.

Lemma lex1_sym_inv s c r : lex1 s = Some (TSym c, r) -> trim s = String c r /\ is_sym c = true.
Proof.
  unfold lex1. destruct (trim s) as [|d r'] eqn:Et; [done|].
  destruct (num_start d).
  { destruct (span_bytes _ _) as [lit r2]. by destruct (ParseFloat lit). }
  destruct (ident_start d).
  { destruct (span_bytes _ _) as [x r2]. by destruct (validIdent x). }
  destruct (is_sym d) eqn:E; [|done]. by intros [= -> ->].
Qed.

(** ** Soundness: what the parser builds is a derivation *)

Definition sound (G : list token -> Node -> Prop)
    (f : string -> result parse_err (Node * string)) : Prop :=
  forall s n r, f s = Ok (n, r) -> exists ts, lexes s ts r /\ G ts n.

Lemma lexes_one s t r : lex1 s = Some (t, r) -> lexes s [t] r.
Proof. intros H. econstructor; [exact H|by constructor]. Qed.

Lemma lexes_sym s c r ts r' :
  trim s = String c r -> is_sym c = true -> lexes r ts r' -> lexes s (TSym c :: ts) r'.
Proof.
  intros H Hc Hl. econstructor; [|exact Hl].
  rewrite <- (lex1_trim s), H. by apply lex1_sym.
Qed.

Lemma parsePrimary_sound f s n r :
  sound g_arith f -> trim s = s -> parsePrimary f s = Ok (n, r) ->
  exists ts, lexes s ts r /\ g_primary ts n.
Proof.
  intros Hf Hs. destruct s as [|c s']; cbn -[parseNumber parseIdent]; [done|].
  assert (Hlex : lex1 (String c s') =
    if num_start c then
        let '(lit, r') := span_bytes num_byte (String c s') in
        match ParseFloat lit with Ok v => Some (TNum v, r') | Err _ => None end
      else if ident_start c then
        let '(x, r') := span_bytes ident_byte (String c s') in
        if validIdent x then Some (TId x, r') else None
      else if is_sym c then Some (TSym c, s') else None) by (unfold lex1; by rewrite Hs).
  destruct (num_start c); [|destruct (ident_start c)].
  - unfold parseNumber. destruct (span_bytes num_byte _) as [lit r1].
    destruct (ParseFloat lit) as [v|]; [|done]. intros [= <- <-].
    exists [TNum v]. split; [by apply lexes_one|constructor].
  - unfold parseIdent. destruct (span_bytes ident_byte _) as [x r1].
    destruct (str_eqb x EmptyString); [done|]. destruct (validIdent x); [|done].
    intros [= <- <-]. exists [TId x]. split; [by apply lexes_one|constructor].
  - destruct (byte_eqb c "(") eqn:Ec; [|done]. apply byte_eqb_eq in Ec as ->.
    intros H. apply bind_Ok in H as ([m r1] & Hfs & H). apply Hf in Hfs as (ts & Hl & Hg).
    destruct (trim r1) as [|d r2] eqn:Et; [done|].
    destruct (byte_eqb d ")") eqn:Ed; [|done]. apply byte_eqb_eq in Ed as ->.
    injection H as <- <-. exists (TSym "(" :: ts ++ [TSym ")"]). split; [|by constructor].
    eapply lexes_sym; [exact Hs|done|]. eapply lexes_app; [exact Hl|].
    eapply lexes_sym; [exact Et|done|by constructor].
Qed.

Lemma parseFactor_sound f : sound g_arith f -> sound g_factor (parseFactor f).
Proof.
  intros Hf s n r. unfold parseFactor. destruct (trim s) as [|c s'] eqn:Et; [done|].
  destruct (byte_eqb c "-") eqn:Em; [|destruct (byte_eqb c "+") eqn:Ep].
  - apply byte_eqb_eq in Em as ->. pose proof (trim_idem s') as Hi.
    destruct (trim s') as [|d s2] eqn:Et'; [done|]. intros H.
    apply bind_Ok in H as ([m r1] & Hp & [= <- <-]).
    apply parsePrimary_sound in Hp as (ts & Hl & Hg); [|done|done].
    exists (TSym "-" :: ts). split; [|by constructor].
    eapply lexes_sym; [exact Et|done|]. eapply lexes_eq_l; [|exact Hl]. congruence.
  - apply byte_eqb_eq in Ep as ->. pose proof (trim_idem s') as Hi.
    destruct (trim s') as [|d s2] eqn:Et'; [done|]. intros Hp.
    apply parsePrimary_sound in Hp as (ts & Hl & Hg); [|done|done].
    exists (TSym "+" :: ts). split; [|by constructor].
    eapply lexes_sym; [exact Et|done|]. eapply lexes_eq_l; [|exact Hl]. congruence.
  - intros Hp. pose proof (trim_idem s) as Hi. rewrite Et in Hi.
    apply parsePrimary_sound in Hp as (ts & Hl & Hg); [|done|done].
    exists ts. split; [|by constructor]. eapply lexes_eq_l; [|exact Hl]. congruence.
Qed.

(** One left-recursive level: both chains of the grammar. *)
Lemma op_loop_sound (G H : list token -> Node -> Prop) is_op operand fuel lhs s x r ts0 :
  (forall c, is_op c = true -> is_sym c = true) ->
  (forall ts l c ts' n, G ts l -> is_op c = true -> H ts' n ->
     G (ts ++ TSym c :: ts') (BinOp c l n)) ->
  sound H operand -> G ts0 lhs ->
  op_loop EFuel is_op operand BinOp fuel lhs s = Ok (x, r) ->
  exists ts, lexes s ts r /\ G (ts0 ++ ts) x.
Proof.
  intros Hsym Hstep Hop. revert lhs s ts0.
  induction fuel as [|fuel IH]; intros lhs s ts0 HG Hl; [done|].
  apply op_loop_inv in Hl as [(-> & -> & _)|(c & s' & rhs & s'' & fuel' & Et & Hc & Ho & Hl & [= <-])].
  - exists []. rewrite app_nil_r. split; [constructor; by rewrite trim_idem|done].
  - apply Hop in Ho as (ts1 & Hl1 & H1).
    destruct (IH _ _ (ts0 ++ TSym c :: ts1) (Hstep _ _ _ _ _ HG Hc H1) Hl) as (ts2 & Hl2 & H2).
    exists (TSym c :: ts1 ++ ts2). split.
    + eapply lexes_sym; [exact Et|by apply Hsym|by eapply lexes_app].
    + by rewrite <- app_assoc in H2.
Qed.

Lemma mulop_sym c : is_mulop c = true -> is_sym c = true.
Proof. byte_cases c; vm_compute; congruence. Qed.
Lemma addop_sym c : is_addop c = true -> is_sym c = true.
Proof. byte_cases c; vm_compute; congruence. Qed.

Lemma parseTerm_sound f : sound g_arith f -> sound g_term (parseTerm f).
Proof.
  intros Hf s n r H. apply bind_Ok in H as ([lhs r1] & Hp & Hl).
  apply (parseFactor_sound f Hf) in Hp as (ts & Hl1 & Hg).
  apply (op_loop_sound g_term g_factor) with (ts0 := ts) in Hl as (ts' & Hl2 & Hg');
    eauto using mulop_sym, g_term, parseFactor_sound.
  exists (ts ++ ts'). split; [by eapply lexes_app|done].
Qed.

Lemma parseArith_sound fuel : sound g_arith (parseArith fuel).
Proof.
  induction fuel as [|fuel IH]; intros s n r H; [done|].
  apply bind_Ok in H as ([lhs r1] & Hp & Hl).
  apply (parseTerm_sound _ IH) in Hp as (ts & Hl1 & Hg).
  apply (op_loop_sound g_arith g_term) with (ts0 := ts) in Hl as (ts' & Hl2 & Hg');
    eauto using addop_sym, g_arith, parseTerm_sound.
  exists (ts ++ ts'). split; [by eapply lexes_app|done].
Qed.

(** ** Completeness: a derivation is what the parser finds *)

Lemma lexes_nil_inv s r : lexes s [] r -> trim s = trim r.
Proof. by inversion 1. Qed.

Lemma lexes_sym_inv s c ts r :
  lexes s (TSym c :: ts) r ->
  exists s', trim s = String c s' /\ lexes s' ts r /\ is_sym c = true.
Proof.
  inversion 1 as [|? ? s' ? ? Hl Hs]; subst. apply lex1_sym_inv in Hl as [? ?]. eauto.
Qed.

Lemma lex1_num_inv s v r :
  lex1 s = Some (TNum v, r) -> forall f, parsePrimary f (trim s) = Ok (NumLit v, r).
Proof.
  unfold lex1, parsePrimary. intros H f. destruct (trim s) as [|c r']; [done|].
  destruct (num_start c).
  - unfold parseNumber. destruct (span_bytes _ _) as [lit r2].
    destruct (ParseFloat lit); [|done]. by injection H as -> ->.
  - destruct (ident_start c); [|by destruct (is_sym c)].
    destruct (span_bytes _ _) as [x r2]. by destruct (validIdent x).
Qed.

Lemma lex1_id_inv s x r :
  lex1 s = Some (TId x, r) -> forall f, parsePrimary f (trim s) = Ok (Ident x, r).
Proof.
  unfold lex1, parsePrimary. intros H f. destruct (trim s) as [|c r']; [done|].
  destruct (num_start c).
  - destruct (span_bytes _ _) as [lit r2]. by destruct (ParseFloat lit).
  - destruct (ident_start c); [|by destruct (is_sym c)].
    unfold parseIdent. destruct (span_bytes _ _) as [y r2].
    destruct (validIdent y) eqn:E; [|done]. injection H as -> ->. by destruct x.
Qed.

Lemma primary_head ts n s r :
  g_primary ts n -> lexes s ts r ->
  exists c s', trim s = String c s' /\ is_addop c = false.
Proof.
  assert (Hn : forall c, num_start c = true \/ ident_start c = true -> is_addop c = false)
    by (intros c; byte_cases c; vm_compute; intuition congruence).
  intros Hg Hl. assert (exists t ts', ts = t :: ts' /\
    match t with TSym c => c = "("%char | _ => True end) as (t & ts' & -> & Ht)
    by (inversion Hg; subst; do 2 eexists; (split; [reflexivity|done])).
  inversion Hl as [|? ? s' ? ? H1 _]; subst. clear Hl. destruct t as [v|x|c].
  - unfold lex1 in H1. destruct (trim s) as [|d r']; [done|].
    exists d, r'. split; [done|]. apply Hn. destruct (num_start d); [by left|].
    destruct (ident_start d); [by right|]. by destruct (is_sym d).
  - unfold lex1 in H1. destruct (trim s) as [|d r']; [done|].
    exists d, r'. split; [done|]. apply Hn. destruct (num_start d); [by left|].
    destruct (ident_start d); [by right|]. by destruct (is_sym d).
  - apply lex1_sym_inv in H1 as [H1 _]. subst. eauto.
Qed.

(** The loops of the two levels, over the depth-[k] parser. *)
Definition term_loop (k : nat) (lhs : Node) (s : string) : result parse_err (Node * string) :=
  op_loop EFuel is_mulop (parseFactor (parseArith k)) BinOp (S (str_len s)) lhs s.
Definition arith_loop (k : nat) (lhs : Node) (s : string) : result parse_err (Node * string) :=
  op_loop EFuel is_addop (parseTerm (parseArith k)) BinOp (S (str_len s)) lhs s.

Lemma term_loop_eq k lhs s s' :
  str_len s <= k -> str_len s' <= k -> trim s = trim s' -> term_loop k lhs s = term_loop k lhs s'.
Proof.
  intros Hs Hs' H. unfold term_loop.
  pose proof (parseFactor_progress _ _ (parseArith_progress k)) as Hp.
  rewrite (op_loop_fuel _ _ _ _ (S k) (S (str_len s)) (S k)) by (done || lia).
  rewrite (op_loop_fuel _ _ _ _ (S k) (S (str_len s')) (S k)) by (done || lia).
  rewrite <- op_loop_trim, H. apply op_loop_trim.
Qed.

Lemma arith_loop_eq k lhs s s' :
  str_len s <= k -> str_len s' <= k -> trim s = trim s' -> arith_loop k lhs s = arith_loop k lhs s'.
Proof.
  intros Hs Hs' H. unfold arith_loop.
  pose proof (parseTerm_progress _ _ (parseArith_progress k)) as Hp.
  rewrite (op_loop_fuel _ _ _ _ (S k) (S (str_len s)) (S k)) by (done || lia).
  rewrite (op_loop_fuel _ _ _ _ (S k) (S (str_len s')) (S k)) by (done || lia).
  rewrite <- op_loop_trim, H. apply op_loop_trim.
Qed.

Lemma term_loop_stop k lhs s :
  (forall c, next_byte s = Some c -> is_mulop c = false) -> term_loop k lhs s = Ok (lhs, trim s).
Proof. apply op_loop_stop. Qed.
Lemma arith_loop_stop k lhs s :
  (forall c, next_byte s = Some c -> is_addop c = false) -> arith_loop k lhs s = Ok (lhs, trim s).
Proof. apply op_loop_stop. Qed.

Lemma next_byte_eq s r c s' : trim s = trim r -> trim r = String c s' -> next_byte s = Some c.
Proof. unfold next_byte. by intros -> ->. Qed.

(** One turn of a loop. *)
Lemma term_loop_step k lhs s c s' rhs s'' :
  str_len s <= k -> trim s = String c s' -> is_mulop c = true ->
  parseFactor (parseArith k) s' = Ok (rhs, s'') ->
  term_loop k lhs s = term_loop k (BinOp c lhs rhs) s''.
Proof.
  intros Hs Ht Hc Hf. pose proof (trim_len s) as Hl. rewrite Ht in Hl. cbn in Hl.
  pose proof (parseFactor_progress _ _ (parseArith_progress k)) as Hp.
  destruct (Hp s') as [_ Hlt]; [lia|]. specialize (Hlt _ _ Hf).
  unfold term_loop. rewrite (op_loop_S _ _ _ _ _ lhs s c s') by done. rewrite Hf. cbn -[op_loop].
  apply (op_loop_fuel _ _ _ _ (S k)); (done || lia).
Qed.

Lemma arith_loop_step k lhs s c s' rhs s'' :
  str_len s <= k -> trim s = String c s' -> is_addop c = true ->
  parseTerm (parseArith k) s' = Ok (rhs, s'') ->
  arith_loop k lhs s = arith_loop k (BinOp c lhs rhs) s''.
Proof.
  intros Hs Ht Hc Hf. pose proof (trim_len s) as Hl. rewrite Ht in Hl. cbn in Hl.
  pose proof (parseTerm_progress _ _ (parseArith_progress k)) as Hp.
  destruct (Hp s') as [_ Hlt]; [lia|]. specialize (Hlt _ _ Hf).
  unfold arith_loop. rewrite (op_loop_S _ _ _ _ _ lhs s c s') by done. rewrite Hf. cbn -[op_loop].
  apply (op_loop_fuel _ _ _ _ (S k)); (done || lia).
Qed.

Definition follow (p : ascii -> bool) (r : string) : Prop :=
  forall c, next_byte r = Some c -> p c = false.

Lemma follow_sym p r c s' : trim r = String c s' -> p c = false -> follow p r.
Proof. unfold follow, next_byte. intros -> H d [= <-]. done. Qed.

Lemma follow_eq p r r' : trim r = trim r' -> follow p r -> follow p r'.
Proof. unfold follow, next_byte. by intros ->. Qed.

Lemma mulop_not_addop c : is_mulop c = true -> is_addop c = false.
Proof. byte_cases c; vm_compute; congruence. Qed.
Lemma addop_not_mulop c : is_addop c = true -> is_mulop c = false.
Proof. byte_cases c; vm_compute; congruence. Qed.

Lemma lex1_len s t r : lex1 s = Some (t, r) -> str_len r < str_len s.
Proof.
  unfold lex1. pose proof (trim_len s) as Ht. destruct (trim s) as [|c s']; [done|].
  destruct (num_start c) eqn:En; [|destruct (ident_start c) eqn:Ei].
  - pose proof (span_lt num_byte c s' (num_start_byte c En)).
    destruct (span_bytes _ _) as [lit r']. destruct (ParseFloat lit); [|done].
    intros [= _ <-]. cbn in *. lia.
  - pose proof (span_lt ident_byte c s' (ident_start_byte c Ei)).
    destruct (span_bytes _ _) as [lit r']. destruct (validIdent lit); [|done].
    intros [= _ <-]. cbn in *. lia.
  - destruct (is_sym c); [|done]. intros [= _ <-]. cbn in Ht. lia.
Qed.

Definition comp_primary (ts : list token) (n : Node) : Prop :=
  forall s r k, lexes s ts r -> str_len s <= k ->
  exists r0, trim r0 = trim r /\ parsePrimary (parseArith k) (trim s) = Ok (n, r0).
Definition comp_factor (ts : list token) (n : Node) : Prop :=
  forall s r k, lexes s ts r -> str_len s <= k ->
  exists r0, trim r0 = trim r /\ parseFactor (parseArith k) s = Ok (n, r0).
Definition comp_term (ts : list token) (n : Node) : Prop :=
  forall s r k, lexes s ts r -> str_len s <= k ->
  exists r0, trim r0 = trim r /\ str_len r0 <= k /\
    parseTerm (parseArith k) s = term_loop k n r0.
Definition comp_arith (ts : list token) (n : Node) : Prop :=
  forall s r k, lexes s ts r -> str_len s <= k -> follow is_mulop r ->
  exists r0, trim r0 = trim r /\ str_len r0 <= k /\
    parseArith (S k) s = arith_loop k n r0.

Lemma comp_paren ts n :
  comp_arith ts n -> comp_primary (TSym "(" :: ts ++ [TSym ")"]) n.
Proof.
  intros IH s r k Hl Hk. apply lexes_sym_inv in Hl as (s1 & Ht & Hl & _).
  apply lexes_app_inv in Hl as (m & Hl & Hc).
  apply lexes_sym_inv in Hc as (s2 & Hm & Hr & _). apply lexes_nil_inv in Hr.
  pose proof (trim_len s) as Hlen. rewrite Ht in Hlen. cbn in Hlen.
  destruct k as [|k]; [lia|].
  destruct (IH s1 m k Hl) as (r0 & Hr0 & _ & Hp);
    [lia|by eapply follow_sym|].
  exists s2. split; [done|]. rewrite Ht. cbn [parsePrimary].
  change (num_start "(") with false. change (ident_start "(") with false. cbn [byte_eqb].
  change (byte_eqb "(" "(") with true. cbv iota. rewrite Hp.
  rewrite arith_loop_stop; [|by apply (follow_eq _ m); [congruence|by eapply follow_sym]].
  cbn -[trim]. by rewrite trim_idem, Hr0, Hm.
Qed.

Lemma comp_plain ts n : g_primary ts n -> comp_primary ts n -> comp_factor ts n.
Proof.
  intros Hg IH s r k Hl Hk. destruct (IH s r k Hl Hk) as (r0 & Hr0 & Hp).
  exists r0. split; [done|]. destruct (primary_head _ _ _ _ Hg Hl) as (c & s' & Ht & Hc).
  unfold parseFactor. rewrite Ht in *. unfold is_addop in Hc. bool_simpl. by rewrite H, H0.
Qed.

Lemma comp_signed ts n c :
  g_primary ts n -> comp_primary ts n -> is_addop c = true ->
  comp_factor (TSym c :: ts) (if byte_eqb c "-" then negate_node n else n).
Proof.
  intros Hg IH Hc s r k Hl Hk. apply lexes_sym_inv in Hl as (s1 & Ht & Hl & _).
  pose proof (trim_len s) as Hlen. rewrite Ht in Hlen. cbn in Hlen.
  destruct (IH s1 r k Hl ltac:(lia)) as (r0 & Hr0 & Hp).
  exists r0. split; [done|]. unfold parseFactor. rewrite Ht.
  destruct (primary_head _ _ _ _ Hg Hl) as (d & s2 & Ht2 & _). rewrite Ht2 in *.
  unfold is_addop in Hc. destruct (byte_eqb c "-"); [by rewrite Hp|].
  rewrite orb_false_r in Hc. by rewrite Hc.
Qed.

Lemma comp_term1 ts n : comp_factor ts n -> comp_term ts n.
Proof.
  intros IH s r k Hl Hk. destruct (IH s r k Hl Hk) as (r0 & Hr0 & Hp).
  destruct (parseFactor_progress _ _ (parseArith_progress k) s) as [_ Hlt]; [lia|].
  specialize (Hlt _ _ Hp). exists r0. split; [done|]. split; [lia|].
  unfold parseTerm, op_chain. by rewrite Hp.
Qed.

Lemma comp_termop ts l c ts' r :
  comp_term ts l -> is_mulop c = true -> comp_factor ts' r ->
  comp_term (ts ++ TSym c :: ts') (BinOp c l r).
Proof.
  intros IH1 Hc IH2 s q k Hl Hk. apply lexes_app_inv in Hl as (m & Hl1 & Hl2).
  destruct (IH1 s m k Hl1 Hk) as (r0 & Hr0 & Hr0l & Hp).
  apply lexes_sym_inv in Hl2 as (s2 & Hm & Hl2 & _).
  pose proof (trim_len r0) as Hlen. rewrite Hr0, Hm in Hlen. cbn in Hlen.
  destruct (IH2 s2 q k Hl2 ltac:(lia)) as (r1 & Hr1 & Hp2).
  destruct (parseFactor_progress _ _ (parseArith_progress k) s2) as [_ Hlt]; [lia|].
  specialize (Hlt _ _ Hp2). exists r1. split; [done|]. split; [lia|]. rewrite Hp.
  eapply term_loop_step; [done| |done|exact Hp2]. by rewrite Hr0.
Qed.

Lemma parseTerm_follow ts n s r k :
  comp_term ts n -> lexes s ts r -> str_len s <= k -> follow is_mulop r ->
  parseTerm (parseArith k) s = Ok (n, trim r).
Proof.
  intros IH Hl Hk Hf. destruct (IH s r k Hl Hk) as (r0 & Hr0 & _ & ->).
  rewrite term_loop_stop; [by rewrite Hr0|]. by eapply follow_eq.
Qed.

Lemma comp_arith1 ts n : comp_term ts n -> comp_arith ts n.
Proof.
  intros IH s r k Hl Hk Hf. pose proof (parseTerm_follow _ _ _ _ _ IH Hl Hk Hf) as Hp.
  destruct (parseTerm_progress _ _ (parseArith_progress k) s) as [_ Hlt]; [lia|].
  specialize (Hlt _ _ Hp). exists (trim r). rewrite trim_idem. split; [done|]. split; [lia|].
  cbn [parseArith]. unfold parseArith_body, op_chain. by rewrite Hp.
Qed.

Lemma comp_arithop ts l c ts' r :
  comp_arith ts l -> is_addop c = true -> comp_term ts' r ->
  comp_arith (ts ++ TSym c :: ts') (BinOp c l r).
Proof.
  intros IH1 Hc IH2 s q k Hl Hk Hf. apply lexes_app_inv in Hl as (m & Hl1 & Hl2).
  apply lexes_sym_inv in Hl2 as (s2 & Hm & Hl2 & _).
  destruct (IH1 s m k Hl1 Hk) as (r0 & Hr0 & Hr0l & Hp);
    [eapply follow_sym; [exact Hm|by apply addop_not_mulop]|].
  pose proof (trim_len r0) as Hlen. rewrite Hr0, Hm in Hlen. cbn in Hlen.
  assert (parseTerm (parseArith k) s2 = Ok (r, trim q)) as Hp2
    by (apply (parseTerm_follow ts'); [done|done|lia|done]).
  destruct (parseTerm_progress _ _ (parseArith_progress k) s2) as [_ Hlt]; [lia|].
  specialize (Hlt _ _ Hp2). exists (trim q). rewrite trim_idem. split; [done|].
  split; [lia|]. rewrite Hp. eapply arith_loop_step; [done| |done|exact Hp2]. by rewrite Hr0.
Qed.

Lemma grammar_complete :
  (forall ts n, g_primary ts n -> comp_primary ts n) /\
  (forall ts n, g_factor ts n -> comp_factor ts n) /\
  (forall ts n, g_term ts n -> comp_term ts n) /\
  (forall ts n, g_arith ts n -> comp_arith ts n).
Proof.
  apply (grammar_ind (fun ts n _ => comp_primary ts n) (fun ts n _ => comp_factor ts n)
    (fun ts n _ => comp_term ts n) (fun ts n _ => comp_arith ts n)).
  - intros v s r k Hl _. inversion Hl as [|? ? s' ? ? H1 H2]; subst.
    exists s'. split; [by apply lexes_nil_inv|by apply lex1_num_inv].
  - intros x s r k Hl _. inversion Hl as [|? ? s' ? ? H1 H2]; subst.
    exists s'. split; [by apply lexes_nil_inv|by apply lex1_id_inv].
  - intros ts n _. apply comp_paren.
  - intros ts n. apply comp_plain.
  - intros ts n Hg IH. by apply (comp_signed ts n "+").
  - intros ts n Hg IH. by apply (comp_signed ts n "-").
  - intros ts n _. apply comp_term1.
  - intros ts l c ts' r _ IH Hc _. by apply comp_termop.
  - intros ts n _. apply comp_arith1.
  - intros ts l c ts' r _ IH Hc _. by apply comp_arithop.
Qed.

Lemma Parse_grammar s n :
  Parse s = Ok n <-> exists ts, lexes s ts EmptyString /\ g_arith ts n.
Proof.
  unfold Parse. set (s0 := trim s). pose proof (trim_idem s) as Hi. fold s0 in Hi. split.
  - destruct (str_eqb s0 EmptyString); [done|]. intros H.
    apply bind_Ok in H as ([n' r] & Hp & H).
    destruct (str_eqb (trim r) EmptyString) eqn:Er; [|done]. injection H as ->.
    apply str_eqb_eq in Er. apply parseArith_sound in Hp as (ts & Hl & Hg).
    exists ts. split; [|done]. apply (lexes_eq_r _ _ r); [done|].
    by apply (lexes_eq_l s0).
  - intros (ts & Hl & Hg). apply (lexes_eq_l _ s0) in Hl; [|done].
    destruct (str_eqb s0 EmptyString) eqn:E.
    { exfalso. apply str_eqb_eq in E. rewrite E in Hl.
      inv Hl. clear -Hg.
      assert (forall ts n, g_primary ts n -> ts <> []) as H1 by (inversion 1; done).
      assert (forall ts n, g_factor ts n -> ts <> []) as H2
        by (inversion 1; eauto; done).
      assert (forall ts n, g_term ts n -> ts <> []) as H3
        by (inversion 1; subst; eauto; by intros [_ ?]%app_eq_nil).
      inversion Hg; subst; [by eapply H3|]. rename select (_ ++ _ = []) into H.
      by apply app_eq_nil in H as [_ ?]. }
    pose proof (proj2 (proj2 (proj2 grammar_complete)) ts n Hg) as Hc.
    destruct (Hc s0 EmptyString (str_len s0) Hl) as (r0 & Hr0 & _ & Hp); [done|by intros c|].
    rewrite Hp, arith_loop_stop.
    + cbn -[trim]. by rewrite trim_idem, Hr0.
    + intros c. unfold next_byte. by rewrite Hr0.
Qed.

(** [Parse] returns on every input: the recursion depth and the loops are
    bounded by the length of the input. *)
Lemma Parse_no_fuel s : Parse s <> Err EFuel.
Proof.
  unfold Parse. case_match; [done|].
  destruct (parseArith_progress (S (str_len (trim s))) (trim s)) as [Hne _]; [lia|].
  destruct (parseArith _ _) as [[n r]|e]; cbn -[trim]; [by case_match|congruence].
Qed.

(** C5: [Parse] returns on every input, and it accepts a string with a tree
    exactly when the string lexes (by longest match, blanks skipped) into tokens
    that the grammar arith/term/factor derives with that tree: [*] and [/] bind
    tighter than [+] and [-], both levels associate to the left, a factor has
    at most one sign. *)
Theorem Parse_iff_grammar s n :
  Parse s <> Err EFuel /\
  (Parse s = Ok n <-> exists ts, lexes s ts EmptyString /\ g_arith ts n).
Proof. split; [apply Parse_no_fuel|apply Parse_grammar]. Qed.

(** ** References and evaluation *)

Fixpoint occurs (x : string) (n : Node) : Prop :=
  match n with
  | NumLit _ => False
  | Ident y => x = y
  | BinOp _ L R => occurs x L \/ occurs x R
  end.

(** The operators and identifiers of a parsed tree. *)
Fixpoint node_ok (n : Node) : Prop :=
  match n with
  | NumLit v => is_finite_f v = true
  | Ident x => validIdent x = true
  | BinOp op L R => (is_addop op || is_mulop op) = true /\ node_ok L /\ node_ok R
  end.

Lemma dedup_append_elem out rs x : x ∈ dedup_append out rs <-> x ∈ out \/ x ∈ rs.
Proof.
  revert out. induction rs as [|r rs IH]; intros out; cbn.
  - split; [by left|]. intros [?|H]; [done|inv H].
  - rewrite IH, elem_of_cons. destruct (decide (r ∈ out)).
    + split; [tauto|]. intros [?|[->|?]]; auto.
    + rewrite elem_of_app, list_elem_of_singleton. tauto.
Qed.

Lemma dedup_append_NoDup out rs : NoDup out -> NoDup (dedup_append out rs).
Proof.
  revert out. induction rs as [|r rs IH]; intros out Ho; cbn; [done|].
  destruct (decide (r ∈ out)); apply IH; [done|].
  apply NoDup_app. split; [done|]. split; [|apply NoDup_singleton].
  intros y Hy ->%list_elem_of_singleton. done.
Qed.

Lemma Refs_occurs n x : x ∈ Refs n <-> occurs x n.
Proof.
  induction n as [v|y|op L IHL R IHR]; cbn.
  - split; [intros H; inv H|done].
  - apply list_elem_of_singleton.
  - by rewrite dedup_append_elem, IHL, IHR.
Qed.

Lemma Refs_NoDup n : NoDup (Refs n).
Proof.
  induction n as [v|y|op L IHL R IHR]; cbn;
    [constructor|apply NoDup_singleton|by apply dedup_append_NoDup].
Qed.

Lemma lex1_wf s t r : lex1 s = Some (t, r) ->
  match t with
  | TNum v => is_finite_f v = true | TId x => validIdent x = true | TSym _ => True
  end.
Proof.
  unfold lex1. destruct (trim s) as [|c s']; [done|].
  destruct (num_start c); [|destruct (ident_start c)].
  - destruct (span_bytes _ _) as [lit r']. destruct (ParseFloat lit) eqn:E; [|done].
    intros [= <- _]. by eapply ParseFloat_finite.
  - destruct (span_bytes _ _) as [lit r']. destruct (validIdent lit) eqn:E; [|done].
    by intros [= <- _].
  - destruct (is_sym c); [|done]. by intros [= <- _].
Qed.

Lemma lexes_wf s ts r : lexes s ts r ->
  Forall (fun t => match t with
  | TNum v => is_finite_f v = true | TId x => validIdent x = true | TSym _ => True
  end) ts.
Proof. induction 1; constructor; [by eapply lex1_wf|done]. Qed.

Lemma grammar_wf (P : token -> Prop) :
  (forall v, P (TNum v) -> is_finite_f v = true) ->
  (forall x, P (TId x) -> validIdent x = true) ->
  (forall ts n, g_primary ts n -> Forall P ts -> node_ok n) /\
  (forall ts n, g_factor ts n -> Forall P ts -> node_ok n) /\
  (forall ts n, g_term ts n -> Forall P ts -> node_ok n) /\
  (forall ts n, g_arith ts n -> Forall P ts -> node_ok n).
Proof.
  intros Hv Hx.
  apply (grammar_ind (fun ts n _ => Forall P ts -> node_ok n)
    (fun ts n _ => Forall P ts -> node_ok n) (fun ts n _ => Forall P ts -> node_ok n)
    (fun ts n _ => Forall P ts -> node_ok n)); cbn [node_ok];
    try (intros; match goal with H : Forall P (_ :: _) |- _ => inv H end; by auto);
    try by auto.
  - intros ts n _ IH H. inv H. apply IH. by apply Forall_app in H3 as [? _].
  - intros ts n _ IH H. inv H. repeat split; [by apply IH].
  - intros ts l c ts' r _ IHl Hc _ IHr H. apply Forall_app in H as [H1 H2]. inv H2.
    rewrite Hc, orb_true_r. auto.
  - intros ts l c ts' r _ IHl Hc _ IHr H. apply Forall_app in H as [H1 H2]. inv H2.
    rewrite Hc. auto.
Qed.

Lemma Parse_node_ok s n : Parse s = Ok n -> node_ok n.
Proof.
  intros (ts & Hl & Hg)%Parse_grammar. apply lexes_wf in Hl.
  by eapply (proj2 (proj2 (proj2 (grammar_wf _ (fun v H => H) (fun x H => H))))).
Qed.

Lemma binop_apply_err op l r e :
  (is_addop op || is_mulop op) = true -> binop_apply op l r = Err e -> e = ErrDivZero.
Proof.
  unfold binop_apply, is_addop, is_mulop. intros H.
  destruct (byte_eqb op "+"), (byte_eqb op "-"), (byte_eqb op "*"), (byte_eqb op "/");
    try done. case_match; congruence.
Qed.

Lemma Eval_undefined n snap e :
  node_ok n -> Eval n snap = Err e ->
  (e = ErrUndefined /\ exists x, occurs x n /\ snap !! x = None) \/ e = ErrDivZero.
Proof.
  induction n as [v|x|op L IHL R IHR]; cbn; intros Hok H; [done| |].
  - destruct (snap !! x) eqn:E; [done|]. injection H as <-. eauto.
  - destruct Hok as (Hop & HL & HR). apply bind_Err in H as [H|(l & Hl & H)].
    + destruct (IHL HL H) as [(? & x & ? & ?)|?]; eauto 10.
    + apply bind_Err in H as [H|(r & Hr & H)].
      * destruct (IHR HR H) as [(? & x & ? & ?)|?]; eauto 10.
      * right. by eapply binop_apply_err.
Qed.

Lemma Eval_Ok_refs n snap v x :
  Eval n snap = Ok v -> occurs x n -> is_Some (snap !! x).
Proof.
  revert v. induction n as [w|y|op L IHL R IHR]; cbn; intros v H Hx; [done| |].
  - subst. by destruct (snap !! y); eauto.
  - apply bind_Ok in H as (l & Hl & H). apply bind_Ok in H as (r & Hr & H).
    destruct Hx; eauto.
Qed.

Lemma Eval_agree n s1 s2 :
  (forall x, occurs x n -> s1 !! x = s2 !! x) -> Eval n s1 = Eval n s2.
Proof.
  induction n as [w|y|op L IHL R IHR]; cbn; intros H; [done|by rewrite H|].
  rewrite IHL, IHR by auto. done.
Qed.

(** For every parsed expression, evaluation reads exactly the snapshot
    entries listed by [Refs] (a duplicate-free list), succeeds only when all of
    them are present, and fails only with the undefined-variable sentinel, when
    one of them is absent, or with the division-by-zero error. *)
Lemma Eval_parsed s n snap :
  Parse s = Ok n ->
  NoDup (Refs n) /\
  (forall snap', (forall x, x ∈ Refs n -> snap !! x = snap' !! x) ->
     Eval n snap = Eval n snap') /\
  match Eval n snap with
  | Ok _ => forall x, x ∈ Refs n -> is_Some (snap !! x)
  | Err ErrUndefined => exists x, x ∈ Refs n /\ snap !! x = None
  | Err ErrDivZero => True
  | Err (ErrUnknownOp _) => False
  end.
Proof.
  intros Hok%Parse_node_ok. split; [apply Refs_NoDup|]. split.
  - intros snap' H. apply Eval_agree. intros x Hx. apply H. by apply Refs_occurs.
  - destruct (Eval n snap) as [v|e] eqn:E.
    + intros x Hx%Refs_occurs. by eapply Eval_Ok_refs.
    + destruct (Eval_undefined n snap e Hok E) as [(-> & x & Hx & Hn)| ->]; [|done].
      exists x. by rewrite Refs_occurs.
Qed.

(** ** A concrete formula *)

Definition demo_node : Node :=
  BinOp "-" (Ident "return.temp") (Ident "supply.temp").
Definition demo_snap : snapshot :=
  <["return.temp" := f_of_Z 24]> (<["supply.temp" := f_of_Z 18]> ∅).

Lemma demo_formula_parse : Parse "return.temp - supply.temp" = Ok demo_node.
Proof. vm_compute. reflexivity. Defined.
Example demo_eval : Eval demo_node demo_snap = Ok (f_of_Z 6).
Proof. vm_compute. reflexivity. Qed.
Example demo_missing : Eval demo_node ∅ = Err ErrUndefined.
Proof. reflexivity. Qed.

Lemma Eval_parsed_witness :
  Parse "return.temp - supply.temp" = Ok demo_node /\ NoDup (Refs demo_node).
Proof.
  split; [vm_compute; reflexivity|].
  apply (Eval_parsed "return.temp - supply.temp" demo_node demo_snap demo_formula_parse).
Defined.
