(* ===== verification/AlarmExpr.v ===== *)
(** * Alarm expressions (pkg/alarm/expr.go)

    The boolean layer over the arithmetic nodes: comparison and logical nodes,
    short-circuit evaluation, reference collection and the alarm package's own
    recursive-descent parser.  The parser terminates, produces well-formed
    trees only, and evaluation has the documented three outcomes. *)
From S2P Require Import Prelude Float64 Scan Arith.
Open Scope string_scope.
Open Scope list_scope.

(** ** Trees

    [evalNode] is the union of the arithmetic nodes and [logical]; the operand
    of a [BinOp] may be a parenthesised logical. *)

Inductive cmp_op : Type := OpLt | OpLe | OpGt | OpGe | OpEq | OpNe.
Inductive lkind : Type := KAnd | KOr.

Inductive evalNode : Type :=
  | ENum (V : float64)
  | EIdent (Name : string)
  | EBinOp (Op : ascii) (L R : evalNode)
  | ELogical (kind : lkind) (xs : list cmp)
with cmp : Type :=
  | mkCmp (op : cmp_op) (lhs rhs : evalNode).

#[export] Instance cmp_op_eq_dec : EqDecision cmp_op.
Proof. solve_decision. Defined.
#[export] Instance lkind_eq_dec : EqDecision lkind.
Proof. solve_decision. Defined.

Definition cmp_lhs (c : cmp) : evalNode := match c with mkCmp _ l _ => l end.
Definition cmp_rhs (c : cmp) : evalNode := match c with mkCmp _ _ r => r end.

Record logical : Type := mkLogical { l_kind : lkind; l_xs : list cmp }.

Record compiled : Type := mkCompiled { c_root : logical; c_refs : list string }.

(** Induction that reaches the clauses of a nested logical. *)
Section node_ind.
Context (P : evalNode -> Prop).
Context (Hnum : forall v, P (ENum v)) (Hid : forall x, P (EIdent x)).
Context (Hbin : forall op l r, P l -> P r -> P (EBinOp op l r)).
Context (Hlog : forall k xs,
  Forall (fun c => P (cmp_lhs c) /\ P (cmp_rhs c)) xs -> P (ELogical k xs)).

Fixpoint evalNode_nested_ind (n : evalNode) : P n :=
  match n with
  | ENum v => Hnum v
  | EIdent x => Hid x
  | EBinOp op l r => Hbin op l r (evalNode_nested_ind l) (evalNode_nested_ind r)
  | ELogical k xs =>
      Hlog k xs
        ((fix go (ys : list cmp) : Forall (fun c => P (cmp_lhs c) /\ P (cmp_rhs c)) ys :=
           match ys with
           | [] => Forall_nil_2 _
           | mkCmp op l r :: ys' =>
               Forall_cons_2 _ (mkCmp op l r) ys'
                 (conj (evalNode_nested_ind l) (evalNode_nested_ind r)) (go ys')
           end) xs)
  end.
End node_ind.

(** ** Evaluation *)

Definition boolToFloat (b : bool) : float64 := if b then f1 else f0.

Definition cmp_apply (op : cmp_op) (x y : float64) : bool :=
  match op with
  | OpLt => fltb x y
  | OpLe => fleb x y
  | OpGt => fgtb x y
  | OpGe => fgeb x y
  | OpEq => feqb x y
  | OpNe => fneb x y
  end.

Section eval.
Context (Ev : evalNode -> result eval_err float64).

Definition cmp_eval (c : cmp) : result eval_err float64 :=
  match c with
  | mkCmp op l r => x ← Ev l; y ← Ev r; Ok (boolToFloat (cmp_apply op x y))
  end.

(** [logical.Eval]: left to right, stopping at the clause that decides. *)
Fixpoint logical_eval (k : lkind) (xs : list cmp) : result eval_err float64 :=
  match xs with
  | [] => Ok (match k with KAnd => f1 | KOr => f0 end)
  | x :: xs' =>
      v ← cmp_eval x;
      match k with
      | KOr => if fneb v f0 then Ok f1 else logical_eval k xs'
      | KAnd => if feqb v f0 then Ok f0 else logical_eval k xs'
      end
  end.

(** [compiled.Eval]. *)
Fixpoint root_eval (k : lkind) (xs : list cmp) : result eval_err bool :=
  match xs with
  | [] => Ok (match k with KAnd => true | KOr => false end)
  | x :: xs' =>
      v ← cmp_eval x;
      match k with
      | KOr => if fneb v f0 then Ok true else root_eval k xs'
      | KAnd => if feqb v f0 then Ok false else root_eval k xs'
      end
  end.
End eval.

Fixpoint node_eval (snap : snapshot) (n : evalNode) : result eval_err float64 :=
  match n with
  | ENum v => Ok v
  | EIdent x => match snap !! x with Some v => Ok v | None => Err ErrUndefined end
  | EBinOp op L R =>
      l ← node_eval snap L; r ← node_eval snap R; binop_apply op l r
  | ELogical k xs => logical_eval (node_eval snap) k xs
  end.

Definition compiled_Eval (c : compiled) (snap : snapshot) : result eval_err bool :=
  root_eval (node_eval snap) (l_kind (c_root c)) (l_xs (c_root c)).

(** [collectArithRefs]: [out] holds the identifiers in order of first
    occurrence, [seen] is its set of elements. *)
Fixpoint collectArithRefs (n : evalNode) (out : list string) : list string :=
  match n with
  | ENum _ => out
  | EIdent x => if decide (x ∈ out) then out else out ++ [x]
  | EBinOp _ L R => collectArithRefs R (collectArithRefs L out)
  | ELogical _ xs =>
      (fix go (ys : list cmp) (out : list string) : list string :=
         match ys with
         | [] => out
         | mkCmp _ l r :: ys' => go ys' (collectArithRefs r (collectArithRefs l out))
         end) xs out
  end.

Fixpoint collectRefs (xs : list cmp) (out : list string) : list string :=
  match xs with
  | [] => out
  | mkCmp _ l r :: xs' => collectRefs xs' (collectArithRefs r (collectArithRefs l out))
  end.

Definition compiled_Refs (c : compiled) : list string := c_refs c.

(** ** Parser *)

Inductive expr_err : Type :=
  | XEmpty | XTrailing | XEnd | XExpected (c : ascii) | XUnexpected (c : ascii)
  | XBadNumber (e : parse_float_err) | XEmptyIdent | XReserved | XFuel.

#[export] Instance expr_err_eq_dec : EqDecision expr_err.
Proof. solve_decision. Defined.

Definition expr_ident_byte (c : ascii) : bool :=
  is_lower c || is_digit c || byte_eqb c ".".

Definition expr_parseNumber (s : string) : result expr_err (evalNode * string) :=
  let '(lit, r) := span_bytes num_byte s in
  match ParseFloat lit with
  | Ok v => Ok (ENum v, r)
  | Err e => Err (XBadNumber e)
  end.

Definition expr_parseIdent (s : string) : result expr_err (evalNode * string) :=
  let '(name, r) := span_bytes expr_ident_byte s in
  if str_eqb name EmptyString then Err XEmptyIdent
  else if str_eqb name "and" || str_eqb name "or" then Err XReserved
  else Ok (EIdent name, r).

(** [p.consume(want)]. *)
Definition consume (want : ascii) (s : string) : result expr_err string :=
  match trim s with
  | String c r => if byte_eqb c want then Ok r else Err (XExpected want)
  | EmptyString => Err (XExpected want)
  end.

(** The comparison operator at the head of the input, if there is one: a lone
    [=] or [!] is none. *)
Definition cmp_operator (s : string) : option (cmp_op * string) :=
  match s with
  | String c r =>
      if byte_eqb c "<" then
        match r with
        | String d r' => if byte_eqb d "=" then Some (OpLe, r') else Some (OpLt, r)
        | EmptyString => Some (OpLt, r)
        end
      else if byte_eqb c ">" then
        match r with
        | String d r' => if byte_eqb d "=" then Some (OpGe, r') else Some (OpGt, r)
        | EmptyString => Some (OpGt, r)
        end
      else if byte_eqb c "=" then
        match r with
        | String d r' => if byte_eqb d "=" then Some (OpEq, r') else None
        | EmptyString => None
        end
      else if byte_eqb c "!" then
        match r with
        | String d r' => if byte_eqb d "=" then Some (OpNe, r') else None
        | EmptyString => None
        end
      else None
  | EmptyString => None
  end.

(** The levels above [parseFactor], over the factor parser. *)
Section levels.
Context (factor : string -> result expr_err (evalNode * string)).

Definition expr_parseTerm : string -> result expr_err (evalNode * string) :=
  op_chain XFuel is_mulop factor EBinOp.
Definition expr_parseArith : string -> result expr_err (evalNode * string) :=
  op_chain XFuel is_addop expr_parseTerm EBinOp.

Definition parseCmp (s : string) : result expr_err (cmp * string) :=
  '(lhs, r) ← expr_parseArith s;
  match cmp_operator (trim r) with
  | None => Ok (mkCmp OpNe lhs (ENum f0), trim r)
  | Some (op, r') =>
      '(rhs, r'') ← expr_parseArith r'; Ok (mkCmp op lhs rhs, r'')
  end.

(** The loop of [parseBool]; every keyword overwrites the kind. *)
Fixpoint bool_loop (fuel : nat) (out : logical) (s : string) :
    result expr_err (logical * string) :=
  match fuel with
  | O => Err XFuel
  | S n =>
      let s1 := trim s in
      let '(word, r) := span_bytes is_lower s1 in
      if str_eqb word "and" then
        '(next, r') ← parseCmp r; bool_loop n (mkLogical KAnd (l_xs out ++ [next])) r'
      else if str_eqb word "or" then
        '(next, r') ← parseCmp r; bool_loop n (mkLogical KOr (l_xs out ++ [next])) r'
      else Ok (out, s1)
  end.

Definition parseBool (s : string) : result expr_err (logical * string) :=
  '(first, r) ← parseCmp s;
  bool_loop (S (str_len r)) (mkLogical KAnd [first]) r.
End levels.

(** Every recursive call of [parseFactor] follows a consumed byte. *)
Fixpoint expr_parseFactor (fuel : nat) (s : string) : result expr_err (evalNode * string) :=
  match fuel with
  | O => Err XFuel
  | S n =>
      match trim s with
      | EmptyString => Err XEnd
      | String c r =>
          if byte_eqb c "(" then
            '(inner, r1) ← parseBool (expr_parseFactor n) (trim r);
            r2 ← consume ")" r1;
            Ok (ELogical (l_kind inner) (l_xs inner), r2)
          else if byte_eqb c "-" then
            '(inner, r1) ← expr_parseFactor n r;
            Ok (EBinOp "*" inner (ENum fminus1), r1)
          else if byte_eqb c "+" then expr_parseFactor n r
          else if num_start c then expr_parseNumber (String c r)
          else if is_letter c then expr_parseIdent (String c r)
          else Err (XUnexpected c)
      end
  end.

Definition ParseExpr (s : string) : result expr_err compiled :=
  let s0 := trim s in
  if str_eqb s0 EmptyString then Err XEmpty
  else
    '(root, r) ← parseBool (expr_parseFactor (S (str_len s0))) s0;
    if str_eqb (trim r) EmptyString
    then Ok (mkCompiled root (collectRefs (l_xs root) []))
    else Err XTrailing.

Example expr_simple : ParseExpr "fws.deltat < 4" =
  Ok (mkCompiled (mkLogical KAnd [mkCmp OpLt (EIdent "fws.deltat") (ENum (f_of_Z 4))])
        ["fws.deltat"]).
Proof. vm_compute. reflexivity. Qed.
Example expr_upper : ParseExpr "STATUS == 3" = Err XEmptyIdent.
Proof. vm_compute. reflexivity. Qed.

(** Mixed connectives: the last keyword names the kind of the whole list. *)
Example expr_mixed : ParseExpr "a and b or c" =
  Ok (mkCompiled (mkLogical KOr [mkCmp OpNe (EIdent "a") (ENum f0);
        mkCmp OpNe (EIdent "b") (ENum f0); mkCmp OpNe (EIdent "c") (ENum f0)])
        ["a"; "b"; "c"]).
Proof. vm_compute. reflexivity. Qed.

(** A parenthesised arithmetic operand becomes a 0/1 logical. *)
Example expr_paren : ParseExpr "(a - b) > 5" =
  Ok (mkCompiled (mkLogical KAnd [mkCmp OpGt
        (ELogical KAnd [mkCmp OpNe (EBinOp "-" (EIdent "a") (EIdent "b")) (ENum f0)])
        (ENum (f_of_Z 5))]) ["a"; "b"]).
Proof. vm_compute. reflexivity. Qed.

(** ** Termination *)

Abbreviation xprog := (progress XFuel).

Lemma cmp_operator_len s op r : cmp_operator s = Some (op, r) -> str_len r < str_len s.
Proof.
  destruct s as [|c [|d r']]; cbn; intros H; repeat case_match; simplify_eq; cbn; lia.
Qed.

Lemma letter_ident_byte c : is_lower c = true -> expr_ident_byte c = true.
Proof. unfold expr_ident_byte. by intros ->. Qed.

Lemma expr_parseNumber_len c s x r :
  num_start c = true -> expr_parseNumber (String c s) = Ok (x, r) -> str_len r < S (str_len s).
Proof.
  intros H. unfold expr_parseNumber.
  pose proof (span_lt num_byte c s (num_start_byte c H)) as Hlt.
  destruct (span_bytes num_byte (String c s)) as [lit r1]. cbn in Hlt.
  destruct (ParseFloat lit); [|done]. by intros [= _ <-].
Qed.

Lemma expr_parseIdent_len s x r : expr_parseIdent s = Ok (x, r) -> str_len r < str_len s.
Proof.
  unfold expr_parseIdent. pose proof (span_bytes_app expr_ident_byte s) as Happ.
  destruct (span_bytes expr_ident_byte s) as [name r1]. cbn in Happ.
  destruct name as [|c name]; cbn; [done|]. case_match; [done|]. intros [= _ <-].
  rewrite <- Happ. cbn. rewrite str_len_app. lia.
Qed.

Section levels_progress.
Context (factor : string -> result expr_err (evalNode * string)) (n : nat).
Context (Hf : xprog factor n).

Lemma expr_parseArith_progress : xprog (expr_parseArith factor) n.
Proof using Hf. by apply op_chain_progress, op_chain_progress. Qed.

Lemma parseCmp_progress : xprog (parseCmp factor) n.
Proof using Hf.
  intros s Hs. unfold parseCmp. destruct (expr_parseArith_progress s Hs) as [H1 H2].
  destruct (expr_parseArith factor s) as [[lhs r]|e]; cbn -[trim];
    [|split; [congruence|done]].
  specialize (H2 _ _ eq_refl). pose proof (trim_len r) as Ht.
  destruct (cmp_operator (trim r)) as [[op r']|] eqn:Eo.
  - apply cmp_operator_len in Eo.
    destruct (expr_parseArith_progress r') as [H3 H4]; [lia|].
    destruct (expr_parseArith factor r') as [[rhs r'']|e]; cbn; [|split; [congruence|done]].
    specialize (H4 _ _ eq_refl). split; [done|]. intros x q [= _ <-]. lia.
  - split; [done|]. intros x q [= _ <-]. lia.
Qed.

Lemma bool_loop_progress fuel out s :
  str_len s < n -> str_len s < fuel ->
  bool_loop factor fuel out s <> Err XFuel /\
  forall x r, bool_loop factor fuel out s = Ok (x, r) -> str_len r <= str_len s.
Proof using Hf.
  revert out s. induction fuel as [|fuel IH]; intros out s Hs Hfu; [lia|]. cbn -[trim].
  pose proof (trim_len s) as Ht. pose proof (span_bytes_app is_lower (trim s)) as Happ.
  destruct (span_bytes is_lower (trim s)) as [word r]. cbn in Happ.
  assert (word <> EmptyString -> str_len r < str_len s) as Hr.
  { intros Hw. destruct word; [done|]. rewrite <- Happ in Ht. cbn in Ht.
    rewrite str_len_app in Ht. lia. }
  assert (forall k, word <> EmptyString ->
    ('(next, r') ← parseCmp factor r; bool_loop factor fuel (mkLogical k (l_xs out ++ [next])) r')
      <> Err XFuel /\ forall x q,
    ('(next, r') ← parseCmp factor r; bool_loop factor fuel (mkLogical k (l_xs out ++ [next])) r')
      = Ok (x, q) -> str_len q <= str_len s) as Hgo.
  { intros k Hw. specialize (Hr Hw). destruct (parseCmp_progress r) as [H1 H2]; [lia|].
    destruct (parseCmp factor r) as [[next r']|e]; cbn; [|split; [congruence|done]].
    specialize (H2 _ _ eq_refl).
    destruct (IH (mkLogical k (l_xs out ++ [next])) r') as [H3 H4]; [lia|lia|].
    split; [done|]. intros x q H. apply H4 in H. lia. }
  destruct (str_eqb word "and") eqn:Ea; [apply Hgo; by intros ->|].
  destruct (str_eqb word "or") eqn:Eo; [apply Hgo; by intros ->|].
  split; [done|]. by intros x q [= _ <-].
Qed.

Lemma parseBool_progress : xprog (parseBool factor) n.
Proof using Hf.
  intros s Hs. unfold parseBool. destruct (parseCmp_progress s Hs) as [H1 H2].
  destruct (parseCmp factor s) as [[first r]|e]; cbn -[bool_loop];
    [|split; [congruence|done]].
  specialize (H2 _ _ eq_refl).
  destruct (bool_loop_progress (S (str_len r)) (mkLogical KAnd [first]) r) as [H3 H4];
    [lia|lia|]. split; [done|]. intros x q H. apply H4 in H. lia.
Qed.
End levels_progress.

Lemma expr_parseFactor_progress n : xprog (expr_parseFactor n) n.
Proof.
  induction n as [|n IH]; intros s Hs; [lia|]. cbn -[parseBool trim].
  pose proof (trim_len s) as Ht. destruct (trim s) as [|c r]; [done|]. cbn in Ht.
  destruct (byte_eqb c "("); [|destruct (byte_eqb c "-"); [|destruct (byte_eqb c "+");
    [|destruct (num_start c) eqn:En; [|destruct (is_letter c); [|done]]]]].
  - pose proof (trim_len r). destruct (parseBool_progress _ _ IH (trim r)) as [H1 H2]; [lia|].
    destruct (parseBool (expr_parseFactor n) (trim r)) as [[inner r1]|e]; cbn -[trim];
      [|split; [congruence|done]].
    specialize (H2 _ _ eq_refl). unfold consume. pose proof (trim_len r1).
    destruct (trim r1) as [|d r2]; cbn; [done|]. destruct (byte_eqb d ")"); cbn; [|done].
    split; [done|]. intros x q [= _ <-]. cbn in *. lia.
  - destruct (IH r) as [H1 H2]; [lia|]. destruct (expr_parseFactor n r) as [[x r1]|e]; cbn.
    + specialize (H2 _ _ eq_refl). split; [done|]. intros y q [= _ <-]. lia.
    + split; [congruence|done].
  - destruct (IH r) as [H1 H2]; [lia|]. split; [done|]. intros x q H. apply H2 in H. lia.
  - split.
    + unfold expr_parseNumber. destruct (span_bytes _ _) as [lit r1].
      by destruct (ParseFloat lit).
    + intros x q H. apply expr_parseNumber_len in H; [lia|done].
  - split.
    + unfold expr_parseIdent. destruct (span_bytes _ _) as [name r1]. by repeat case_match.
    + intros x q H. apply expr_parseIdent_len in H. cbn in H. lia.
Qed.

(** ** Well-formed trees *)

Definition expr_ident_ok (x : string) : bool :=
  negb (str_eqb x EmptyString) && all_bytes expr_ident_byte x &&
  negb (str_eqb x "and") && negb (str_eqb x "or").

Inductive node_wf : evalNode -> Prop :=
  | wf_num v : is_finite_f v = true -> node_wf (ENum v)
  | wf_ident x : expr_ident_ok x = true -> node_wf (EIdent x)
  | wf_bin op l r : (is_addop op || is_mulop op) = true -> node_wf l -> node_wf r ->
      node_wf (EBinOp op l r)
  | wf_log k xs : xs <> [] -> Forall cmp_wf xs -> node_wf (ELogical k xs)
with cmp_wf : cmp -> Prop :=
  | wf_cmp op l r : node_wf l -> node_wf r -> cmp_wf (mkCmp op l r).

Definition logical_wf (l : logical) : Prop := l_xs l <> [] /\ Forall cmp_wf (l_xs l).

Definition yields {A} (P : A -> Prop) (f : string -> result expr_err (A * string)) : Prop :=
  forall s x r, f s = Ok (x, r) -> P x.

Lemma op_loop_yields is_op operand fuel lhs s x r :
  (forall c, is_op c = true -> (is_addop c || is_mulop c) = true) ->
  yields node_wf operand -> node_wf lhs ->
  op_loop XFuel is_op operand EBinOp fuel lhs s = Ok (x, r) -> node_wf x.
Proof.
  intros Hop Ho. revert lhs s. induction fuel as [|fuel IH]; intros lhs s Hl H; [done|].
  apply op_loop_inv in H as [(-> & _)|(c & s' & rhs & s'' & fuel' & _ & Hc & Hr & H & [= <-])];
    [done|]. eapply IH; [|exact H]. constructor; [by apply Hop|done|by eapply Ho].
Qed.

Lemma op_chain_yields is_op operand :
  (forall c, is_op c = true -> (is_addop c || is_mulop c) = true) ->
  yields node_wf operand -> yields node_wf (op_chain XFuel is_op operand EBinOp).
Proof.
  intros Hop Ho s x r H. apply bind_Ok in H as ([lhs r1] & H1 & H2).
  eapply op_loop_yields; [done|done| |exact H2]. by eapply Ho.
Qed.

Section levels_wf.
Context (factor : string -> result expr_err (evalNode * string)).
Context (Hf : yields node_wf factor).

Lemma expr_parseArith_wf : yields node_wf (expr_parseArith factor).
Proof using Hf.
  apply op_chain_yields; [by intros c ->|].
  apply op_chain_yields; [intros c ->; by rewrite orb_true_r|done].
Qed.

Lemma parseCmp_wf : yields cmp_wf (parseCmp factor).
Proof using Hf.
  intros s x r H. apply bind_Ok in H as ([lhs r1] & H1 & H). cbn in H.
  apply expr_parseArith_wf in H1.
  destruct (cmp_operator (trim r1)) as [[op r']|].
  - apply bind_Ok in H as ([rhs r2] & H2 & [= <- _]). constructor; [done|].
    by eapply expr_parseArith_wf.
  - injection H as <- _. constructor; [done|by constructor].
Qed.

Lemma bool_loop_wf fuel out s x r :
  logical_wf out -> bool_loop factor fuel out s = Ok (x, r) -> logical_wf x.
Proof using Hf.
  revert out s. induction fuel as [|fuel IH]; intros out s Ho; cbn -[trim]; [done|].
  destruct (span_bytes is_lower (trim s)) as [word r1].
  assert (forall k next r', parseCmp factor r1 = Ok (next, r') ->
    logical_wf (mkLogical k (l_xs out ++ [next]))) as Hk.
  { intros k next r' H. split; [by intros [_ ?]%app_eq_nil|].
    apply Forall_app. split; [apply Ho|]. constructor; [|done]. by eapply parseCmp_wf. }
  case_match; [|case_match].
  - intros H'. apply bind_Ok in H' as ([next r'] & H1 & H2). eauto.
  - intros H'. apply bind_Ok in H' as ([next r'] & H1 & H2). eauto.
  - by intros [= <- _].
Qed.

Lemma parseBool_wf : yields logical_wf (parseBool factor).
Proof using Hf.
  intros s x r H. apply bind_Ok in H as ([first r1] & H1 & H).
  eapply bool_loop_wf; [|exact H]. split; [done|]. constructor; [|done].
  by eapply parseCmp_wf.
Qed.
End levels_wf.

Lemma expr_parseFactor_wf n : yields node_wf (expr_parseFactor n).
Proof.
  induction n as [|n IH]; intros s x q H; [done|]. cbn -[parseBool trim] in H.
  destruct (trim s) as [|c r]; [done|].
  destruct (byte_eqb c "("); [|destruct (byte_eqb c "-"); [|destruct (byte_eqb c "+");
    [|destruct (num_start c); [|destruct (is_letter c); [|done]]]]].
  - apply bind_Ok in H as ([inner r1] & H1 & H). apply bind_Ok in H as (r2 & _ & [= <- _]).
    apply parseBool_wf in H1 as [? ?]; [|done]. by constructor.
  - apply bind_Ok in H as ([inner r1] & H1 & [= <- _]). constructor; [done| |by constructor].
    by eapply IH.
  - by eapply IH.
  - unfold expr_parseNumber in H. destruct (span_bytes _ _) as [lit r1].
    destruct (ParseFloat lit) as [v|] eqn:E; [|done]. injection H as <- _.
    constructor. by eapply ParseFloat_finite.
  - unfold expr_parseIdent in H. pose proof (span_bytes_all expr_ident_byte (String c r)) as Ha.
    destruct (span_bytes _ _) as [name r1]. cbn in Ha.
    destruct (str_eqb name EmptyString) eqn:E1; [done|].
    destruct (str_eqb name "and" || str_eqb name "or") eqn:E2; [done|]. injection H as <- _.
    bool_simpl. constructor. unfold expr_ident_ok. by rewrite E1, Ha, H, H0.
Qed.

Lemma ParseExpr_inv s c :
  ParseExpr s = Ok c ->
  logical_wf (c_root c) /\ c_refs c = collectRefs (l_xs (c_root c)) [].
Proof.
  unfold ParseExpr. destruct (str_eqb (trim s) EmptyString); [done|]. intros H.
  apply bind_Ok in H as ([root r] & H1 & H). destruct (str_eqb (trim r) EmptyString); [|done].
  injection H as <-. split; [|done]. by eapply parseBool_wf, H1; apply expr_parseFactor_wf.
Qed.

Lemma ParseExpr_no_fuel s : ParseExpr s <> Err XFuel.
Proof.
  unfold ParseExpr. case_match; [done|].
  destruct (parseBool_progress _ _ (expr_parseFactor_progress (S (str_len (trim s))))
    (trim s)) as [Hne _]; [lia|].
  destruct (parseBool _ _) as [[root r]|e]; cbn -[trim]; [by case_match|congruence].
Qed.

(** ** References *)

Fixpoint eoccurs (x : string) (n : evalNode) : Prop :=
  match n with
  | ENum _ => False
  | EIdent y => x = y
  | EBinOp _ L R => eoccurs x L \/ eoccurs x R
  | ELogical _ xs =>
      (fix go (ys : list cmp) : Prop :=
         match ys with
         | [] => False
         | mkCmp _ l r :: ys' => eoccurs x l \/ eoccurs x r \/ go ys'
         end) xs
  end.

Definition cmp_occurs (x : string) (c : cmp) : Prop :=
  eoccurs x (cmp_lhs c) \/ eoccurs x (cmp_rhs c).

Lemma eoccurs_log x k xs : eoccurs x (ELogical k xs) <-> Exists (cmp_occurs x) xs.
Proof.
  cbn. induction xs as [|[op l r] xs IH]; [by rewrite Exists_nil|].
  rewrite Exists_cons, <- IH. unfold cmp_occurs. cbn. tauto.
Qed.

Lemma collect_log k xs out : collectArithRefs (ELogical k xs) out = collectRefs xs out.
Proof. cbn. revert out. induction xs as [|[op l r] xs IH]; intros out; cbn; [done|apply IH]. Qed.

Lemma collectArithRefs_spec n :
  (forall x out, x ∈ collectArithRefs n out <-> x ∈ out \/ eoccurs x n) /\
  (forall out, NoDup out -> NoDup (collectArithRefs n out)).
Proof.
  induction n as [v|y|op l r IHl IHr|k xs IH] using evalNode_nested_ind.
  - split; cbn; [tauto|done].
  - split; cbn.
    + intros x out. case_match; [|by rewrite elem_of_app, list_elem_of_singleton].
      split; [by left|]. by intros [?| ->].
    + intros out Ho. case_match; [done|]. apply NoDup_app. split; [done|].
      split; [|apply NoDup_singleton]. by intros z Hz ->%list_elem_of_singleton.
  - destruct IHl as [Hl1 Hl2], IHr as [Hr1 Hr2]. split; cbn.
    + intros x out. rewrite Hr1, Hl1. tauto.
    + auto.
  - setoid_rewrite collect_log. setoid_rewrite eoccurs_log.
    induction IH as [|[op l r] xs [[Hl1 Hl2] [Hr1 Hr2]] Hxs [IH1 IH2]]; cbn in *.
    + split; [|done]. intros x out. rewrite Exists_nil. tauto.
    + split; [|auto]. intros x out. rewrite IH1, Hr1, Hl1, Exists_cons.
      unfold cmp_occurs. cbn. tauto.
Qed.

Lemma collectRefs_spec xs :
  NoDup (collectRefs xs []) /\
  forall x, x ∈ collectRefs xs [] <-> Exists (cmp_occurs x) xs.
Proof.
  destruct (collectArithRefs_spec (ELogical KAnd xs)) as [H1 H2].
  rewrite <- (collect_log KAnd). split; [apply H2; constructor|].
  intros x. rewrite H1, eoccurs_log. split; [|by right]. by intros [H|?]; [inv H|].
Qed.

(** ** Evaluation *)

(** The comparison as a boolean. *)
Definition cmp_bool (snap : snapshot) (c : cmp) : result eval_err bool :=
  match c with
  | mkCmp op l r => x ← node_eval snap l; y ← node_eval snap r; Ok (cmp_apply op x y)
  end.

Lemma cmp_eval_bool snap c : cmp_eval (node_eval snap) c = boolToFloat <$> cmp_bool snap c.
Proof.
  destruct c as [op l r]. cbn. destruct (node_eval snap l); cbn; [|done].
  by destruct (node_eval snap r).
Qed.

Lemma boolToFloat_eq b : feqb (boolToFloat b) f0 = negb b.
Proof. by destruct b. Qed.
Lemma boolToFloat_ne b : fneb (boolToFloat b) f0 = b.
Proof. by destruct b. Qed.

Lemma root_eval_cons snap k x xs :
  root_eval (node_eval snap) k (x :: xs) =
  b ← cmp_bool snap x;
  match k with
  | KOr => if (b : bool) then Ok true else root_eval (node_eval snap) k xs
  | KAnd => if (b : bool) then root_eval (node_eval snap) k xs else Ok false
  end.
Proof.
  cbn [root_eval]. rewrite cmp_eval_bool. destruct (cmp_bool snap x) as [b|e]; cbn; [|done].
  rewrite boolToFloat_eq, boolToFloat_ne. by destruct k, b.
Qed.

(** The clause list is read from the left up to the first clause that is not
    the neutral value of the kind. *)
Definition neutral (k : lkind) : bool := match k with KAnd => true | KOr => false end.

Lemma root_eval_spec snap k xs v :
  root_eval (node_eval snap) k xs = v <->
  (v = Ok (neutral k) /\ Forall (fun c => cmp_bool snap c = Ok (neutral k)) xs) \/
  (exists pre c post, xs = pre ++ c :: post /\
     Forall (fun c => cmp_bool snap c = Ok (neutral k)) pre /\
     cmp_bool snap c = v /\ v <> Ok (neutral k)).
Proof.
  revert v. induction xs as [|x xs IH]; intros v.
  - cbn. split.
    + intros <-. left. by destruct k.
    + intros [[-> _]|(pre & c & post & H & _)]; [by destruct k|by destruct pre].
  - rewrite root_eval_cons. split.
    + intros H. destruct (decide (cmp_bool snap x = Ok (neutral k))) as [Hx|Hx].
      * rewrite Hx in H. assert (root_eval (node_eval snap) k xs = v) as H'
          by (by destruct k).
        apply IH in H' as [[-> Hall]|(pre & c & post & -> & Hpre & Hc & Hv)].
        -- left. split; [done|by constructor].
        -- right. exists (x :: pre), c, post. split; [done|]. by split; [constructor|].
      * right. exists [], x, xs. split; [done|]. split; [constructor|].
        assert (cmp_bool snap x = v) as <-; [|done].
        destruct (cmp_bool snap x) as [b|e]; cbn in *; [|done].
        destruct k, b; cbn in *; congruence.
    + intros [[-> Hall]|([|p pre] & c & post & [= -> ->] & Hpre & Hc & Hv)].
      * inv Hall. rewrite H1. assert (root_eval (node_eval snap) k xs = Ok (neutral k)) as H
          by (apply IH; by left). by destruct k.
      * rewrite Hc. destruct v as [b|e]; cbn; [|done]. destruct k, b; cbn in *; congruence.
      * apply Forall_cons in Hpre as [Hp Hpre]. rewrite Hp.
        assert (root_eval (node_eval snap) k (pre ++ c :: post) = v) as H
          by (apply IH; right; eauto 10). by destruct k.
Qed.

Definition err_explained (snap : snapshot) (occ : string -> Prop) (e : eval_err) : Prop :=
  match e with
  | ErrUndefined => exists x, occ x /\ snap !! x = None
  | ErrDivZero => True
  | ErrUnknownOp _ => False
  end.

Lemma err_explained_mono snap (P Q : string -> Prop) e :
  (forall x, P x -> Q x) -> err_explained snap P e -> err_explained snap Q e.
Proof. intros H. destruct e; cbn; [|done|done]. intros (x & ? & ?). eauto. Qed.

Lemma node_eval_err snap n :
  node_wf n -> forall e, node_eval snap n = Err e ->
  err_explained snap (fun x => eoccurs x n) e.
Proof.
  induction n as [v|y|op l r IHl IHr|k xs IH] using evalNode_nested_ind; intros Hwf e H.
  - done.
  - cbn in H. destruct (snap !! y) eqn:E; [done|]. injection H as <-. cbn. eauto.
  - inv Hwf. cbn in H. apply bind_Err in H as [H|(a & Hl & H)].
    + eapply err_explained_mono; [|by apply IHl]. cbn; auto.
    + apply bind_Err in H as [H|(b & Hr & H)].
      * eapply err_explained_mono; [|by apply IHr]. cbn; auto.
      * apply binop_apply_err in H as ->; done.
  - inv Hwf. clear H2. cbn [node_eval] in H.
    apply (err_explained_mono _ (fun x => Exists (cmp_occurs x) xs));
      [intros x Hx; by apply eoccurs_log|].
    revert H. induction IH as [|[op l r] xs [IHl IHr] Hxs IH]; cbn [logical_eval]; [done|].
    inv H3. inv H1. intros H. apply bind_Err in H as [H|(v & Hv & H)].
    + cbn in H. apply bind_Err in H as [H|(a & Hl & H)].
      * eapply err_explained_mono; [|by apply IHl]. intros x Hx. left. by left.
      * apply bind_Err in H as [H|(b & Hr & H)]; [|done].
        eapply err_explained_mono; [|by apply IHr]. intros x Hx. left. by right.
    + eapply err_explained_mono; [intros x Hx; right; exact Hx|].
      apply IH; [done|]. by destruct k; case_match.
Qed.

Lemma cmp_bool_explained snap c e :
  cmp_wf c -> cmp_bool snap c = Err e -> err_explained snap (fun x => cmp_occurs x c) e.
Proof.
  destruct 1 as [op l r Hl Hr]. cbn. intros H. apply bind_Err in H as [H|(a & Ha & H)].
  - apply (err_explained_mono _ (fun x => eoccurs x l)); [by left|by apply node_eval_err].
  - apply bind_Err in H as [H|(b & Hb & H)]; [|done].
    apply (err_explained_mono _ (fun x => eoccurs x r)); [by right|by apply node_eval_err].
Qed.

Lemma compiled_Eval_err s c snap e :
  ParseExpr s = Ok c -> compiled_Eval c snap = Err e ->
  err_explained snap (fun x => x ∈ c_refs c) e.
Proof.
  intros [[_ Hwf] Hrefs]%ParseExpr_inv H. apply root_eval_spec in H as [[? _]|H]; [done|].
  destruct H as (pre & x & post & Hxs & _ & Hc & _). rewrite Hrefs.
  rewrite Hxs in Hwf. apply Forall_app in Hwf as [_ Hwf]. inv Hwf.
  apply (err_explained_mono _ (fun y => cmp_occurs y x)); [|by apply cmp_bool_explained].
  intros y Hy. apply collectRefs_spec. rewrite Hxs. apply Exists_app. right. by left.
Qed.

(** ** The comparison rules are written with *)

Definition op_str (op : cmp_op) : string :=
  match op with
  | OpLt => "<" | OpLe => "<=" | OpGt => ">" | OpGe => ">=" | OpEq => "==" | OpNe => "!="
  end.

(** An operand as rules write it: a point name or a numeric literal. *)
Inductive operand : string -> evalNode -> Prop :=
  | operand_ident c x :
      is_lower c = true -> expr_ident_ok (String c x) = true ->
      operand (String c x) (EIdent (String c x))
  | operand_num c x v :
      num_start c = true -> all_bytes num_byte (String c x) = true ->
      ParseFloat (String c x) = Ok v -> operand (String c x) (ENum v).

(** The rest of the input after an operand: blank or nothing. *)
Definition blank_head (r : string) : bool :=
  match r with String c _ => byte_eqb c " " | EmptyString => true end.

Lemma start_bytes c :
  (num_start c = true -> num_byte c = true /\ is_space c = false /\ byte_eqb c "(" = false /\
     byte_eqb c "-" = false /\ byte_eqb c "+" = false) /\
  (is_lower c = true -> expr_ident_byte c = true /\ is_space c = false /\
     byte_eqb c "(" = false /\ byte_eqb c "-" = false /\ byte_eqb c "+" = false /\
     num_start c = false /\ is_letter c = true).
Proof. byte_cases c; vm_compute; intuition congruence. Qed.

Lemma span_blank p x r :
  p " "%char = false -> all_bytes p x = true -> blank_head r = true ->
  span_bytes p (x +:+ r) = (x, r).
Proof.
  intros Hp Hx Hr. apply span_bytes_split; [done|]. destruct r as [|c r]; [done|].
  cbn in Hr. by apply byte_eqb_eq in Hr as ->.
Qed.

Lemma operand_factor n x e r :
  operand x e -> blank_head r = true -> expr_parseFactor (S n) (x +:+ r) = Ok (e, r).
Proof.
  intros Hx Hr. destruct Hx as [c x Hc Hok|c x v Hc Hok Hv]; cbn [String.append expr_parseFactor].
  - destruct (proj2 (start_bytes c) Hc) as (_ & Hs & H1 & H2 & H3 & H4 & H5).
    rewrite trim_cons, H1, H2, H3, H4, H5 by done. unfold expr_parseIdent.
    unfold expr_ident_ok in Hok. bool_simpl.
    change (String c (x +:+ r)) with (String c x +:+ r).
    rewrite span_blank by done. by rewrite H, H6, H0.
  - destruct (proj1 (start_bytes c) Hc) as (_ & Hs & H1 & H2 & H3).
    rewrite trim_cons, H1, H2, H3, Hc by done. unfold expr_parseNumber.
    change (String c (x +:+ r)) with (String c x +:+ r).
    by rewrite span_blank, Hv by done.
Qed.

Lemma operand_arith n x e r c :
  operand x e -> blank_head r = true -> next_byte r = c ->
  match c with Some d => is_addop d || is_mulop d = false | None => True end ->
  expr_parseArith (expr_parseFactor (S n)) (x +:+ r) = Ok (e, trim r).
Proof.
  intros Hx Hr Hn Hc.
  assert (forall f lhs, op_loop XFuel is_mulop (expr_parseFactor (S n)) EBinOp (S f) lhs r
    = Ok (lhs, trim r)) as Hm.
  { intros f lhs. apply op_loop_stop. intros d Hd. rewrite Hd in Hn. subst c.
    by bool_simpl. }
  assert (expr_parseTerm (expr_parseFactor (S n)) (x +:+ r) = Ok (e, trim r)) as Ht.
  { unfold expr_parseTerm, op_chain. rewrite (operand_factor n x e r Hx Hr). apply Hm. }
  unfold expr_parseArith, op_chain. rewrite Ht.
  change (op_loop XFuel is_addop (expr_parseTerm (expr_parseFactor (S n))) EBinOp
    (S (str_len (trim r))) e (trim r) = Ok (e, trim r)).
  rewrite op_loop_stop; [by rewrite trim_idem|]. intros d. rewrite next_byte_trim.
  intros Hd. rewrite Hd in Hn. subst c. by bool_simpl.
Qed.

Lemma operand_head x e r : operand x e -> exists c s, x +:+ r = String c s /\ is_space c = false.
Proof.
  destruct 1 as [c x Hc _|c x v Hc _ _]; exists c, (x +:+ r); (split; [done|]);
    pose proof (start_bytes c); tauto.
Qed.

Lemma expr_parseArith_trim n s :
  expr_parseArith (expr_parseFactor n) (trim s) = expr_parseArith (expr_parseFactor n) s.
Proof.
  unfold expr_parseArith, expr_parseTerm, op_chain.
  assert (expr_parseFactor n (trim s) = expr_parseFactor n s) as ->; [|done].
  destruct n; cbn -[trim]; [done|]. by rewrite trim_idem.
Qed.

Lemma ParseExpr_simple x l op y r :
  operand x l -> operand y r ->
  ParseExpr (x +:+ " " +:+ op_str op +:+ " " +:+ y) =
  Ok (mkCompiled (mkLogical KAnd [mkCmp op l r])
        (collectRefs [mkCmp op l r] [])).
Proof.
  intros Hx Hy. set (s := x +:+ _).
  destruct (operand_head x l (" " +:+ op_str op +:+ " " +:+ y) Hx) as (c & s' & Hs & Hc).
  assert (trim s = s) as Ht by (unfold s; rewrite Hs; by apply trim_cons).
  unfold ParseExpr. rewrite Ht. assert (str_eqb s EmptyString = false) as ->
    by (unfold s; by rewrite Hs).
  assert (forall n, parseCmp (expr_parseFactor (S n)) s = Ok (mkCmp op l r, EmptyString)) as Hp.
  { intros n. unfold parseCmp, s.
    rewrite (operand_arith n x l (" " +:+ op_str op +:+ " " +:+ y)
      (next_byte (" " +:+ op_str op +:+ " " +:+ y))) by (done || by destruct op).
    assert (trim (" " +:+ op_str op +:+ " " +:+ y) = op_str op +:+ " " +:+ y) as Hto
      by (by destruct op).
    cbn [mbind result_bind]. rewrite Hto.
    assert (trim (op_str op +:+ " " +:+ y) = op_str op +:+ " " +:+ y) as ->
      by (by destruct op).
    assert (cmp_operator (op_str op +:+ " " +:+ y) = Some (op, " " +:+ y)) as ->
      by (by destruct op).
    assert (expr_parseArith (expr_parseFactor (S n)) (" " +:+ y) = Ok (r, EmptyString)) as ->; [|done].
    pose proof (operand_arith n y r EmptyString None Hy eq_refl eq_refl I) as Hy'.
    rewrite str_app_nil_r in Hy'. destruct (operand_head y r EmptyString Hy) as (d & y' & Hd & Hds).
    rewrite str_app_nil_r in Hd. rewrite <- (expr_parseArith_trim _ (" " +:+ y)), (trim_ws " ") by done.
    by rewrite expr_parseArith_trim. }
  unfold parseBool. by rewrite Hp.
Qed.

(** A compiled alarm expression is evaluated clause by clause from the
    left: the answer is the first clause outcome that differs from the neutral
    value of the connective (true for [and], false for [or]), an evaluation
    error included, and the neutral value when every clause yields it. *)
Lemma compiled_Eval_clauses c snap v :
  compiled_Eval c snap = v <->
  (v = Ok (neutral (l_kind (c_root c))) /\
   Forall (fun x => cmp_bool snap x = Ok (neutral (l_kind (c_root c)))) (l_xs (c_root c))) \/
  (exists pre x post, l_xs (c_root c) = pre ++ x :: post /\
     Forall (fun y => cmp_bool snap y = Ok (neutral (l_kind (c_root c)))) pre /\
     cmp_bool snap x = v /\ v <> Ok (neutral (l_kind (c_root c)))).
Proof. apply root_eval_spec. Qed.

(** [ParseExpr] returns on every input; for a parsed expression, [Refs]
    lists without duplicates exactly the point names occurring in the tree, and
    evaluation fails only with the missing-point sentinel, when a listed point
    is absent from the snapshot, or with the division-by-zero error. *)
Lemma ParseExpr_Refs_errors s :
  ParseExpr s <> Err XFuel /\
  forall c snap, ParseExpr s = Ok c ->
  NoDup (compiled_Refs c) /\
  (forall x, x ∈ compiled_Refs c <-> Exists (cmp_occurs x) (l_xs (c_root c))) /\
  match compiled_Eval c snap with
  | Ok _ => True
  | Err ErrUndefined => exists x, x ∈ compiled_Refs c /\ snap !! x = None
  | Err ErrDivZero => True
  | Err (ErrUnknownOp _) => False
  end.
Proof.
  split; [apply ParseExpr_no_fuel|]. intros c snap Hp.
  destruct (ParseExpr_inv s c Hp) as [_ Hrefs]. unfold compiled_Refs.
  rewrite Hrefs. pose proof (collectRefs_spec (l_xs (c_root c))) as [Hnd Hocc].
  split; [done|]. split; [done|].
  destruct (compiled_Eval c snap) as [b|e] eqn:E; [done|].
  pose proof (compiled_Eval_err s c snap e Hp E) as H. destruct e; cbn in H; [|done|done].
  by rewrite Hrefs in H.
Qed.

(** A rule written as a comparison of two operands (point names or numeric
    literals, blanks around the operator) compiles to that single comparison,
    for each of the six operators. *)
Lemma ParseExpr_comparison x l op y r :
  operand x l -> operand y r ->
  ParseExpr (x +:+ " " +:+ op_str op +:+ " " +:+ y) =
  Ok (mkCompiled (mkLogical KAnd [mkCmp op l r]) (collectRefs [mkCmp op l r] [])).
Proof. apply ParseExpr_simple. Qed.

Definition demo_expr : compiled :=
  mkCompiled (mkLogical KAnd [mkCmp OpLt (EIdent "fws.deltat") (ENum (f_of_Z 4))])
    ["fws.deltat"].

Lemma operand_fws : operand "fws.deltat" (EIdent "fws.deltat").
Proof. by constructor. Defined.
Lemma operand_4 : operand "4" (ENum (f_of_Z 4)).
Proof. apply operand_num; [reflexivity|reflexivity|vm_compute; reflexivity]. Defined.

Lemma ParseExpr_comparison_witness :
  ParseExpr "fws.deltat < 4" = Ok demo_expr.
Proof. exact (ParseExpr_comparison _ _ OpLt _ _ operand_fws operand_4). Defined.

Lemma ParseExpr_Refs_errors_witness :
  ParseExpr "fws.deltat < 4" = Ok demo_expr /\
  compiled_Eval demo_expr ∅ = Err ErrUndefined /\ NoDup (compiled_Refs demo_expr).
Proof.
  split; [vm_compute; reflexivity|]. split; [reflexivity|].
  apply (proj2 (ParseExpr_Refs_errors "fws.deltat < 4") demo_expr ∅). vm_compute. reflexivity.
Defined.
