(* ===== verification/AlarmEngine.v ===== *)
(** * The alarm engine (pkg/alarm/engine.go, rule.go, severity.go)

    One instance per (rule name, asset path) runs the two-state machine
    resolved/firing with the [for] timer and the hysteresis recovery; [Observe]
    drives every instance the snapshot concerns.  The engine is shown to be the
    independent product of its instances; the instance machine then yields
    alternation of the events, the meaning of [since] and of the [for]
    duration, and the recovery thresholds. *)
From Stdlib Require Import SpecFloat.
From S2P Require Import Prelude Float64 GoTime Arith AlarmExpr.
Open Scope string_scope.
Open Scope list_scope.

(** ** Rules *)

Record ruleMetadata : Type := mkRuleMetadata { m_Name : string; m_AppliesTo : string }.

Record ruleSpec : Type := mkRuleSpec {
  sp_Expr : string;
  sp_For : string;
  sp_Severity : string;
  sp_Hysteresis : float64;
  sp_Annotations : gmap string string;
  sp_ForDuration : Z
}.

Record AlarmRule : Type := mkAlarmRule {
  r_Kind : string;
  r_Metadata : ruleMetadata;
  r_Spec : ruleSpec;
  r_Expr : compiled
}.

Definition rule_name (r : AlarmRule) : string := m_Name (r_Metadata r).
Definition applies_to (r : AlarmRule) : string := m_AppliesTo (r_Metadata r).

(** [m[k]] on a [map[string]string]. *)
Definition annotation (r : AlarmRule) (k : string) : string :=
  default EmptyString (sp_Annotations (r_Spec r) !! k).

Definition AllowedSeverities : list string := ["critical"; "major"; "minor"; "info"].

(** ** Events and instances *)

Inductive State : Type := StateFiring | StateResolved | StateAcked.

#[export] Instance State_eq_dec : EqDecision State.
Proof. solve_decision. Defined.

Record Event : Type := mkEvent {
  ev_RuleName : string;
  ev_AssetPath : string;
  ev_PointPath : string;
  ev_Severity : string;
  ev_State : State;
  ev_Summary : string;
  ev_Since : time;
  ev_OccurredAt : time;
  ev_Runbook : string
}.

Abbreviation recoveryFn := (snapshot -> result eval_err bool).

Record instance : Type := mkInstance {
  i_rule : AlarmRule;
  i_assetPath : string;
  i_state : State;
  i_firstSatisfiedAt : time;
  i_since : time;
  i_recovery : recoveryFn;
  i_pointPath : string
}.

Abbreviation dedupKey := (string * string)%type.

Record Engine : Type := mkEngine {
  e_rules : list AlarmRule;
  e_instances : gmap dedupKey instance
}.

(** ** Recovery *)

Definition extractCmpLiterals (c : cmp) : option (string * float64) :=
  match cmp_lhs c, cmp_rhs c with
  | EIdent x, ENum v => Some (x, v)
  | ENum v, EIdent x => Some (x, v)
  | _, _ => None
  end.

Definition always_recovered : recoveryFn := fun _ => Ok true.

(** [v, ok := snap[lhs]; if !ok { return false, ErrMissingPoint }]. *)
Definition on_point (x : string) (p : float64 -> bool) : recoveryFn :=
  fun snap => match snap !! x with Some v => Ok (p v) | None => Err ErrUndefined end.

Definition cmp_op_of (c : cmp) : cmp_op := match c with mkCmp op _ _ => op end.

Definition deriveRecoveryFromExpr (e : compiled) (hysteresis : float64) : recoveryFn :=
  match l_kind (c_root e), l_xs (c_root e) with
  | KAnd, [cm] =>
      match extractCmpLiterals cm with
      | None => always_recovered
      | Some (lhs, rhs) =>
          match cmp_op_of cm with
          | OpLt => on_point lhs (fun v => fgeb v (fadd rhs hysteresis))
          | OpLe => on_point lhs (fun v => fgtb v (fadd rhs hysteresis))
          | OpGt => on_point lhs (fun v => fleb v (fsub rhs hysteresis))
          | OpGe => on_point lhs (fun v => fltb v (fsub rhs hysteresis))
          | OpEq => on_point lhs (fun v =>
              fgeb v (fadd rhs hysteresis) || fleb v (fsub rhs hysteresis))
          | OpNe => on_point lhs (fun v => feqb v rhs)
          end
      end
  | _, _ => always_recovered
  end.

Definition buildRecovery (r : AlarmRule) : recoveryFn :=
  if fleb (sp_Hysteresis (r_Spec r)) f0 then always_recovered
  else deriveRecoveryFromExpr (r_Expr r) (sp_Hysteresis (r_Spec r)).

Definition buildPointPath (r : AlarmRule) (assetPath : string) : string :=
  match compiled_Refs (r_Expr r) with
  | [] => assetPath
  | ref :: _ => assetPath +:+ "." +:+ ref
  end.

(** ** The state machine *)

Definition new_instance (r : AlarmRule) (assetPath : string) : instance :=
  mkInstance r assetPath StateResolved zero_time zero_time (buildRecovery r)
    (buildPointPath r assetPath).

Definition mk_event (i : instance) (st : State) (since now : time) : Event :=
  mkEvent (rule_name (i_rule i)) (i_assetPath i) (i_pointPath i)
    (sp_Severity (r_Spec (i_rule i))) st (annotation (i_rule i) "summary")
    since now (annotation (i_rule i) "runbook").

Definition set_state (i : instance) (st : State) (first since : time) : instance :=
  mkInstance (i_rule i) (i_assetPath i) st first since (i_recovery i) (i_pointPath i).

(** An evaluation error counts as not satisfied. *)
Definition satisfied (r : AlarmRule) (snap : snapshot) : bool :=
  match compiled_Eval (r_Expr r) snap with Ok b => b | Err _ => false end.

Definition tick (i : instance) (snap : snapshot) (now : time) : instance * option Event :=
  match i_state i with
  | StateResolved =>
      if satisfied (i_rule i) snap then
        if (sp_ForDuration (r_Spec (i_rule i)) =? 0)%Z then
          (set_state i StateFiring zero_time now, Some (mk_event i StateFiring now now))
        else if IsZero (i_firstSatisfiedAt i) then
          (set_state i StateResolved now (i_since i), None)
        else if (sp_ForDuration (r_Spec (i_rule i)) <=? time_sub now (i_firstSatisfiedAt i))%Z then
          (set_state i StateFiring zero_time (i_firstSatisfiedAt i),
           Some (mk_event i StateFiring (i_firstSatisfiedAt i) now))
        else (i, None)
      else (set_state i StateResolved zero_time (i_since i), None)
  | StateFiring =>
      if satisfied (i_rule i) snap then (i, None)
      else
        match i_recovery i snap with
        | Ok true =>
            (set_state i StateResolved zero_time (i_since i),
             Some (mk_event i StateResolved (i_since i) now))
        | _ => (i, None)
        end
  | StateAcked => (i, None)
  end.

(** ** The engine *)

Definition NewEngine (rules : list AlarmRule) : Engine := mkEngine rules ∅.

Definition getOrCreate (insts : gmap dedupKey instance) (r : AlarmRule) (assetPath : string) :
    gmap dedupKey instance * instance :=
  match insts !! (rule_name r, assetPath) with
  | Some inst => (insts, inst)
  | None =>
      let inst := new_instance r assetPath in
      (<[(rule_name r, assetPath) := inst]> insts, inst)
  end.

(** The loop of [Observe] over the rules; [tick] updates the instance in
    place. *)
Fixpoint observe_rules (rules : list AlarmRule) (insts : gmap dedupKey instance)
    (assetPath assetType : string) (snap : snapshot) (now : time) :
    gmap dedupKey instance * list Event :=
  match rules with
  | [] => (insts, [])
  | r :: rules' =>
      if str_eqb (applies_to r) assetType then
        let '(insts1, inst) := getOrCreate insts r assetPath in
        let '(inst', ev) := tick inst snap now in
        let '(insts2, evs) :=
          observe_rules rules' (<[(rule_name r, assetPath) := inst']> insts1)
            assetPath assetType snap now in
        (insts2, option_list ev ++ evs)
      else observe_rules rules' insts assetPath assetType snap now
  end.

Definition Observe (e : Engine) (assetPath assetType : string) (snap : snapshot) (now : time) :
    Engine * list Event :=
  if str_eqb assetType EmptyString then (e, [])
  else
    let '(insts, evs) :=
      observe_rules (e_rules e) (e_instances e) assetPath assetType snap now in
    (mkEngine (e_rules e) insts, evs).

(** One call of [Observe] per element, in order. *)
Record observation : Type := mkObs {
  o_asset : string; o_type : string; o_snap : snapshot; o_now : time }.

Fixpoint run (e : Engine) (obs : list observation) : Engine * list Event :=
  match obs with
  | [] => (e, [])
  | o :: obs' =>
      let '(e1, evs1) := Observe e (o_asset o) (o_type o) (o_snap o) (o_now o) in
      let '(e2, evs2) := run e1 obs' in
      (e2, evs1 ++ evs2)
  end.

(** ** One instance alone *)

Abbreviation sample := (snapshot * time)%type.

Fixpoint run_ticks (i : instance) (l : list sample) : instance * list Event :=
  match l with
  | [] => (i, [])
  | (s, t) :: l' =>
      let '(i1, ev) := tick i s t in
      let '(i2, evs) := run_ticks i1 l' in
      (i2, option_list ev ++ evs)
  end.

Lemma run_ticks_app i l1 l2 :
  run_ticks i (l1 ++ l2) =
  let '(i1, evs1) := run_ticks i l1 in
  let '(i2, evs2) := run_ticks i1 l2 in (i2, evs1 ++ evs2).
Proof.
  revert i. induction l1 as [|[s t] l1 IH]; intros i; cbn.
  - by destruct (run_ticks i l2).
  - destruct (tick i s t) as [i1 ev]. rewrite IH.
    destruct (run_ticks i1 l1) as [i2 evs1]. destruct (run_ticks i2 l2) as [i3 evs2].
    by rewrite app_assoc.
Qed.

Lemma run_ticks_cons i s t l :
  run_ticks i ((s, t) :: l) =
  ((run_ticks (tick i s t).1 l).1,
   option_list (tick i s t).2 ++ (run_ticks (tick i s t).1 l).2).
Proof. cbn. destruct (tick i s t) as [i1 ev]. cbn. by destruct (run_ticks i1 l). Qed.

(** What a tick never changes. *)
Definition same_identity (i j : instance) : Prop :=
  i_rule i = i_rule j /\ i_assetPath i = i_assetPath j /\
  i_recovery i = i_recovery j /\ i_pointPath i = i_pointPath j.

#[export] Instance same_identity_equiv : Equivalence same_identity.
Proof.
  split.
  - by intros i.
  - intros i j (? & ? & ? & ?). done.
  - intros i j k (? & ? & ? & ?) (? & ? & ? & ?). repeat split; congruence.
Qed.

Lemma tick_identity i s t : same_identity (tick i s t).1 i.
Proof. unfold tick. repeat case_match; done. Qed.

Lemma run_ticks_identity i l : same_identity (run_ticks i l).1 i.
Proof.
  revert i. induction l as [|[s t] l IH]; intros i; cbn; [done|].
  pose proof (tick_identity i s t) as H. destruct (tick i s t) as [i1 ev]. cbn in H.
  specialize (IH i1). destruct (run_ticks i1 l) as [i2 evs]. cbn in *. by rewrite IH.
Qed.

(** The event of a tick names the rule and the asset of its instance. *)
Lemma tick_event i s t ev :
  (tick i s t).2 = Some ev ->
  ev_RuleName ev = rule_name (i_rule i) /\ ev_AssetPath ev = i_assetPath i /\
  ev_OccurredAt ev = t /\ ev_State ev = i_state (tick i s t).1 /\
  ev_Since ev = i_since (tick i s t).1 /\ ev_State ev <> i_state i.
Proof.
  unfold tick. destruct (i_state i) eqn:Est; repeat case_match; intros H'; simplify_eq/=;
    rewrite ?Est; done.
Qed.

(** *** Alternation

    [cur] is the [since] of the open alarm, if there is one. *)
Fixpoint alternates (cur : option time) (evs : list Event) : Prop :=
  match evs with
  | [] => True
  | ev :: evs' =>
      match cur with
      | None => ev_State ev = StateFiring /\ alternates (Some (ev_Since ev)) evs'
      | Some since =>
          ev_State ev = StateResolved /\ ev_Since ev = since /\ alternates None evs'
      end
  end.

Definition open_since (i : instance) : option time :=
  match i_state i with StateFiring => Some (i_since i) | _ => None end.

Definition live (i : instance) : Prop := i_state i <> StateAcked.

Lemma tick_live i s t : live i -> live (tick i s t).1.
Proof. unfold live, tick. intros H. repeat case_match; cbn; congruence. Qed.

Lemma run_ticks_alternates i l : live i -> alternates (open_since i) (run_ticks i l).2.
Proof.
  revert i. induction l as [|[s t] l IH]; intros i Hl; cbn; [done|].
  pose proof (tick_live i s t Hl) as Hl'. specialize (IH _ Hl').
  unfold tick, live, open_since in *. destruct (i_state i) eqn:Est; [| |done].
  - destruct (satisfied (i_rule i) s); [|destruct (i_recovery i s) as [[]|]]; cbn in *;
      try rewrite Est in *; destruct (run_ticks _ l); done.
  - destruct (satisfied (i_rule i) s); [destruct (_ =? 0)%Z; [|
      destruct (IsZero (i_firstSatisfiedAt i)); [|destruct (_ <=? _)%Z]]|]; cbn in *;
      try rewrite Est in *; destruct (run_ticks _ l); done.
Qed.

(** *** The [for] timer

    A pending timer is the time of the first of an unbroken run of satisfying
    samples. *)
Definition all_satisfied (r : AlarmRule) (l : list sample) : Prop :=
  Forall (fun x => satisfied r x.1 = true) l.

Definition started_at (l : list sample) (t : time) : Prop :=
  match l with (_, t0) :: _ => t0 = t | [] => False end.

Definition timer_ok (i : instance) (hist : list sample) : Prop :=
  i_state i = StateResolved -> i_firstSatisfiedAt i <> zero_time ->
  exists pre win, hist = pre ++ win /\ started_at win (i_firstSatisfiedAt i) /\
    all_satisfied (i_rule i) win.

Lemma started_at_snoc win x t : started_at win t -> started_at (win ++ [x]) t.
Proof. by destruct win as [|[]]. Qed.

Lemma tick_timer_ok i hist s t :
  timer_ok i hist -> timer_ok (tick i s t).1 (hist ++ [(s, t)]).
Proof.
  unfold timer_ok, tick. intros H.
  destruct (i_state i) eqn:Est; cbn; try (repeat case_match; cbn; congruence).
  specialize (H eq_refl). destruct (satisfied (i_rule i) s) eqn:Es; cbn; [|done].
  destruct (sp_ForDuration _ =? 0)%Z; cbn; [done|].
  destruct (IsZero (i_firstSatisfiedAt i)) eqn:Ez; cbn.
  - intros _ _. exists hist, [(s, t)]. split; [done|]. split; [done|].
    by constructor.
  - destruct (_ <=? _)%Z; cbn; [done|]. intros _ Hz.
    destruct (H Hz) as (pre & win & -> & Hst & Hall). exists pre, (win ++ [(s, t)]).
    split; [by rewrite app_assoc|]. split; [by apply started_at_snoc|].
    apply Forall_app. split; [done|]. by constructor.
Qed.

Lemma run_ticks_timer_ok i l :
  timer_ok i [] -> timer_ok (run_ticks i l).1 l.
Proof.
  intros H0. induction l as [|[s t] l IH] using rev_ind; [done|].
  rewrite run_ticks_app. destruct (run_ticks i l) as [i1 evs1]. cbn in *.
  pose proof (tick_timer_ok i1 l s t IH) as H. by destruct (tick i1 s t).
Qed.

Lemma new_timer_ok r a : timer_ok (new_instance r a) [].
Proof. by intros _ H. Qed.

(** What stands behind a firing event. *)
Definition firing_justified (r : AlarmRule) (hist : list sample) (ev : Event) : Prop :=
  exists pre win, hist = pre ++ win /\ all_satisfied r win /\
    started_at win (ev_Since ev) /\
    (exists s, last win = Some (s, ev_OccurredAt ev)) /\
    (sp_ForDuration (r_Spec r) = 0%Z \/
     (sp_ForDuration (r_Spec r) <= time_sub (ev_OccurredAt ev) (ev_Since ev))%Z).

Lemma tick_firing_justified i hist s t ev :
  timer_ok i hist -> (tick i s t).2 = Some ev -> ev_State ev = StateFiring ->
  firing_justified (i_rule i) (hist ++ [(s, t)]) ev.
Proof.
  unfold timer_ok, tick. intros H.
  destruct (i_state i) eqn:Est; cbn; [repeat case_match; intros; simplify_eq/=| |done].
  specialize (H eq_refl). destruct (satisfied (i_rule i) s) eqn:Es; cbn; [|done].
  destruct (sp_ForDuration _ =? 0)%Z eqn:Ef; cbn.
  - intros [= <-] _. exists hist, [(s, t)]. split; [done|]. split; [by constructor|].
    split; [done|]. split; [by exists s|]. left. by apply Z.eqb_eq.
  - destruct (IsZero (i_firstSatisfiedAt i)) eqn:Ez; cbn; [done|].
    destruct (_ <=? _)%Z eqn:Ed; cbn; [|done]. intros [= <-] _.
    destruct H as (pre & win & -> & Hst & Hall).
    { intros Hz. unfold IsZero in Ez. rewrite Hz in Ez. done. }
    exists pre, (win ++ [(s, t)]). split; [by rewrite app_assoc|].
    split; [apply Forall_app; split; [done|by constructor]|].
    split; [by apply started_at_snoc|]. split; [exists s; by rewrite last_snoc|].
    right. by apply Z.leb_le.
Qed.

Lemma IsZero_false t : t <> zero_time -> IsZero t = false.
Proof. unfold IsZero, zero_time. apply Z.eqb_neq. Qed.

(** Enough unbroken satisfaction fires. *)
Lemma satisfied_stays_firing i l :
  i_state i = StateFiring -> all_satisfied (i_rule i) l -> (run_ticks i l).1 = i.
Proof.
  intros Hf Hall. induction Hall as [|[s t] l Hs _ IH]; cbn in *; [done|].
  unfold tick. rewrite Hf, Hs. by destruct (run_ticks i l).
Qed.

Lemma pending_fires i l s t :
  i_state i = StateResolved -> i_firstSatisfiedAt i <> zero_time ->
  all_satisfied (i_rule i) (l ++ [(s, t)]) ->
  (sp_ForDuration (r_Spec (i_rule i)) <= time_sub t (i_firstSatisfiedAt i))%Z ->
  i_state (run_ticks i (l ++ [(s, t)])).1 = StateFiring.
Proof.
  intros Hst Hz Hall Hd. induction l as [|[s' t'] l IH]; cbn [app] in *;
    apply Forall_cons in Hall as [Hs Hall]; rewrite run_ticks_cons; cbn [fst snd] in *;
    unfold tick; rewrite Hst, Hs, (IsZero_false _ Hz).
  - apply Z.leb_le in Hd. rewrite Hd. by destruct (_ =? 0)%Z.
  - destruct (_ =? 0)%Z; [by rewrite satisfied_stays_firing|].
    destruct (_ <=? _)%Z; [by rewrite satisfied_stays_firing|]. by apply IH.
Qed.

(** ** The engine is the product of its instances *)

Definition samples_for (r : AlarmRule) (a : string) (obs : list observation) : list sample :=
  map (fun o => (o_snap o, o_now o))
    (List.filter (fun o => str_eqb (o_asset o) a && str_eqb (applies_to r) (o_type o) &&
       negb (str_eqb (o_type o) EmptyString)) obs).

Definition events_of (n a : string) (evs : list Event) : list Event :=
  List.filter (fun ev => str_eqb (ev_RuleName ev) n && str_eqb (ev_AssetPath ev) a) evs.

Definition current (insts : gmap dedupKey instance) (r : AlarmRule) (a : string) : instance :=
  default (new_instance r a) (insts !! (rule_name r, a)).

Definition keyed (insts : gmap dedupKey instance) : Prop :=
  forall n a inst, insts !! (n, a) = Some inst ->
  rule_name (i_rule inst) = n /\ i_assetPath inst = a.

Lemma events_of_app n a l1 l2 : events_of n a (l1 ++ l2) = events_of n a l1 ++ events_of n a l2.
Proof. apply List.filter_app. Qed.

Lemma keyed_insert insts n a inst :
  keyed insts -> rule_name (i_rule inst) = n -> i_assetPath inst = a ->
  keyed (<[(n, a) := inst]> insts).
Proof.
  intros Hk Hn Ha n' a' inst' H. apply lookup_insert_Some in H as [[[= <- <-] <-]|[_ H]];
    [done|by apply Hk].
Qed.

Lemma current_keyed insts r a :
  keyed insts -> rule_name (i_rule (current insts r a)) = rule_name r /\
  i_assetPath (current insts r a) = a.
Proof.
  intros Hk. unfold current. destruct (insts !! (rule_name r, a)) eqn:E; cbn; [|done].
  by apply Hk.
Qed.

(** [getOrCreate] followed by the in-place tick. *)
Lemma getOrCreate_step insts r a :
  let '(insts1, inst) := getOrCreate insts r a in
  inst = current insts r a /\
  forall i', <[(rule_name r, a) := i']> insts1 = <[(rule_name r, a) := i']> insts.
Proof.
  unfold getOrCreate, current. destruct (insts !! (rule_name r, a)); cbn; [done|].
  split; [done|]. intros i'. apply insert_insert_eq.
Qed.

Lemma observe_rules_cons r rules insts a ty s t :
  observe_rules (r :: rules) insts a ty s t =
  if str_eqb (applies_to r) ty then
    let res := tick (current insts r a) s t in
    let rest := observe_rules rules (<[(rule_name r, a) := res.1]> insts) a ty s t in
    (rest.1, option_list res.2 ++ rest.2)
  else observe_rules rules insts a ty s t.
Proof.
  cbn [observe_rules]. destruct (str_eqb (applies_to r) ty); [|done].
  pose proof (getOrCreate_step insts r a) as H.
  destruct (getOrCreate insts r a) as [insts1 inst]. destruct H as [-> H].
  destruct (tick (current insts r a) s t) as [i' ev]. rewrite H. cbn.
  by destruct (observe_rules _ _ _ _ _ _).
Qed.

Lemma tick_keyed insts r a s t :
  keyed insts -> keyed (<[(rule_name r, a) := (tick (current insts r a) s t).1]> insts).
Proof.
  intros Hk. destruct (current_keyed insts r a Hk) as [H1 H2].
  destruct (tick_identity (current insts r a) s t) as (Hr & Ha & _).
  apply keyed_insert; [done|by rewrite Hr|by rewrite Ha].
Qed.

Lemma tick_events_of insts r a s t n b :
  keyed insts ->
  events_of n b (option_list (tick (current insts r a) s t).2) =
  if str_eqb (rule_name r) n && str_eqb a b
  then option_list (tick (current insts r a) s t).2 else [].
Proof.
  intros Hk. destruct (current_keyed insts r a Hk) as [H1 H2].
  destruct (tick (current insts r a) s t).2 as [ev|] eqn:E; cbn; [|by case_match].
  apply tick_event in E as (Hn & Ha & _). rewrite Hn, Ha, H1, H2. by case_match.
Qed.

(** A key no rule of the loop drives. *)
Lemma observe_rules_other rules insts a ty s t n b :
  keyed insts ->
  (forall r, r ∈ rules -> applies_to r = ty -> rule_name r = n -> a <> b) ->
  keyed (observe_rules rules insts a ty s t).1 /\
  (observe_rules rules insts a ty s t).1 !! (n, b) = insts !! (n, b) /\
  events_of n b (observe_rules rules insts a ty s t).2 = [].
Proof.
  revert insts. induction rules as [|r rules IH]; intros insts Hk Hno; [done|].
  rewrite observe_rules_cons. destruct (str_eqb (applies_to r) ty) eqn:Et.
  - apply str_eqb_eq in Et. cbv zeta; cbn [fst snd]; rewrite events_of_app, tick_events_of by done.
    assert ((rule_name r, a) <> (n, b)) as Hne.
    { intros [= Hn Hb]. eapply Hno; [|exact Et|exact Hn|exact Hb]. by left. }
    destruct (IH _ (tick_keyed insts r a s t Hk)) as (H1 & H2 & H3).
    { intros r' Hr'. apply Hno. by right. }
    split; [done|]. split; [rewrite H2; by apply lookup_insert_ne|].
    rewrite H3, app_nil_r. destruct (str_eqb (rule_name r) n) eqn:E1; [|done].
    destruct (str_eqb a b) eqn:E2; [|done]. apply str_eqb_eq in E1, E2. congruence.
  - apply IH; [done|]. intros r' Hr'. apply Hno. by right.
Qed.

(** The key of one rule of the loop: exactly one tick of its instance. *)
Lemma observe_rules_one rules insts a ty s t r :
  keyed insts -> NoDup (map rule_name rules) -> r ∈ rules -> applies_to r = ty ->
  keyed (observe_rules rules insts a ty s t).1 /\
  (observe_rules rules insts a ty s t).1 !! (rule_name r, a) =
    Some (tick (current insts r a) s t).1 /\
  events_of (rule_name r) a (observe_rules rules insts a ty s t).2 =
    option_list (tick (current insts r a) s t).2.
Proof.
  intros Hk Hnd Hr Hty. revert insts Hk.
  induction rules as [|r' rules IH]; intros insts Hk; [inv Hr|].
  cbn in Hnd. apply NoDup_cons in Hnd as [Hnot Hnd]. rewrite observe_rules_cons.
  apply elem_of_cons in Hr as [->|Hr].
  - rewrite Hty, str_eqb_refl. cbv zeta; cbn [fst snd]; rewrite events_of_app, tick_events_of by done.
    rewrite !str_eqb_refl. cbn.
    destruct (observe_rules_other rules _ a ty s t (rule_name r') a
      (tick_keyed insts r' a s t Hk)) as (H1 & H2 & H3).
    { intros r2 Hr2 _ Hn _. apply Hnot. rewrite <- Hn. by apply list_elem_of_fmap_2. }
    split; [done|]. rewrite H3, app_nil_r. split; [|done].
    rewrite H2. apply lookup_insert_eq.
  - assert (rule_name r' <> rule_name r) as Hne.
    { intros Hn. apply Hnot. rewrite Hn. by apply list_elem_of_fmap_2. }
    destruct (str_eqb (applies_to r') ty); [|by apply IH].
    cbv zeta; cbn [fst snd]; rewrite events_of_app, tick_events_of by done.
    apply str_eqb_neq in Hne as Hne'. rewrite Hne'. cbn.
    destruct (IH Hnd Hr _ (tick_keyed insts r' a s t Hk)) as (H1 & H2 & H3).
    assert (current (<[(rule_name r', a) := (tick (current insts r' a) s t).1]> insts) r a =
      current insts r a) as Hc by (unfold current; rewrite lookup_insert_ne; congruence).
    rewrite Hc in H2, H3. done.
Qed.

Definition concerns (r : AlarmRule) (a : string) (o : observation) : bool :=
  str_eqb (o_asset o) a && str_eqb (applies_to r) (o_type o) &&
  negb (str_eqb (o_type o) EmptyString).

Definition sample_of (o : observation) : sample := (o_snap o, o_now o).

Lemma Observe_key e o r a :
  keyed (e_instances e) -> NoDup (map rule_name (e_rules e)) -> r ∈ e_rules e ->
  let '(e', evs) := Observe e (o_asset o) (o_type o) (o_snap o) (o_now o) in
  keyed (e_instances e') /\ e_rules e' = e_rules e /\
  if concerns r a o
  then let res := tick (current (e_instances e) r a) (o_snap o) (o_now o) in
       e_instances e' !! (rule_name r, a) = Some res.1 /\
       events_of (rule_name r) a evs = option_list res.2
  else e_instances e' !! (rule_name r, a) = e_instances e !! (rule_name r, a) /\
       events_of (rule_name r) a evs = [].
Proof.
  intros Hk Hnd Hr. unfold Observe, concerns.
  destruct (str_eqb (o_type o) EmptyString); [by rewrite andb_false_r|].
  rewrite andb_true_r. rewrite (surjective_pairing (observe_rules _ _ _ _ _ _)).
  destruct (str_eqb (o_asset o) a && str_eqb (applies_to r) (o_type o)) eqn:E.
  - bool_simpl. apply str_eqb_eq in H, H0. subst a.
    destruct (observe_rules_one (e_rules e) (e_instances e) (o_asset o) (o_type o)
      (o_snap o) (o_now o) r Hk Hnd Hr H0) as (H1 & H2 & H3). done.
  - destruct (observe_rules_other (e_rules e) (e_instances e) (o_asset o) (o_type o)
      (o_snap o) (o_now o) (rule_name r) a Hk) as (H1 & H2 & H3); [|done].
    intros r' Hr' Hty Hn Ha. assert (r' = r) as ->.
    { apply list_elem_of_lookup in Hr as [i Hi], Hr' as [j Hj].
      assert (i = j) as ->; [|congruence].
      eapply (NoDup_lookup (map rule_name (e_rules e)) i j (rule_name r) Hnd).
      - by rewrite list_lookup_fmap, Hi.
      - by rewrite list_lookup_fmap, Hj, <- Hn. }
    rewrite Ha, Hty, !str_eqb_refl in E. done.
Qed.

Lemma run_key e obs r a :
  keyed (e_instances e) -> NoDup (map rule_name (e_rules e)) -> r ∈ e_rules e ->
  let '(e', evs) := run e obs in
  let alone := run_ticks (current (e_instances e) r a) (samples_for r a obs) in
  current (e_instances e') r a = alone.1 /\ events_of (rule_name r) a evs = alone.2.
Proof.
  revert e. induction obs as [|o obs IH]; intros e Hk Hnd Hr; cbn [run]; [done|].
  pose proof (Observe_key e o r a Hk Hnd Hr) as Ho.
  destruct (Observe e (o_asset o) (o_type o) (o_snap o) (o_now o)) as [e1 evs1].
  destruct Ho as (Hk1 & Hr1 & Ho). rewrite <- Hr1 in Hnd, Hr. specialize (IH e1 Hk1 Hnd Hr).
  destruct (run e1 obs) as [e2 evs2]. destruct IH as [IH1 IH2]. cbv zeta.
  rewrite events_of_app, IH1, IH2. unfold samples_for. cbn [List.filter].
  fold (concerns r a o). destruct (concerns r a o).
  - destruct Ho as [Hl He]. cbn [map]. rewrite run_ticks_cons. cbn [fst snd].
    rewrite He. unfold current at 1 4. by rewrite Hl.
  - destruct Ho as [Hl He]. rewrite He. unfold current at 1 3. by rewrite Hl.
Qed.

Lemma NewEngine_key rules obs r a :
  NoDup (map rule_name rules) -> r ∈ rules ->
  events_of (rule_name r) a (run (NewEngine rules) obs).2 =
    (run_ticks (new_instance r a) (samples_for r a obs)).2 /\
  current (e_instances (run (NewEngine rules) obs).1) r a =
    (run_ticks (new_instance r a) (samples_for r a obs)).1.
Proof.
  intros Hnd Hr. pose proof (run_key (NewEngine rules) obs r a) as H.
  destruct (run (NewEngine rules) obs) as [e evs]. cbn in *.
  destruct H as [H1 H2]; [by intros ? ? ? ?|done|done|]. done.
Qed.

(** C1: the engine is the independent product of its instances: with unique
    rule names, the events of one (rule, asset) pair in a run over any
    interleaving of observations, and the final state of that pair, are those
    of the pair's own machine run over the observations of that asset whose
    type the rule applies to; other assets, other types and other rules do not
    influence it. *)
Theorem engine_product rules obs r a :
  NoDup (map rule_name rules) -> r ∈ rules ->
  events_of (rule_name r) a (run (NewEngine rules) obs).2 =
    (run_ticks (new_instance r a) (samples_for r a obs)).2 /\
  current (e_instances (run (NewEngine rules) obs).1) r a =
    (run_ticks (new_instance r a) (samples_for r a obs)).1.
Proof. apply NewEngine_key. Qed.

(** For every (rule, asset) pair of a run the events alternate, starting
    with a firing event, and every resolved event carries the [since] of the
    firing event before it. *)
Lemma events_alternate rules obs r a :
  NoDup (map rule_name rules) -> r ∈ rules ->
  alternates None (events_of (rule_name r) a (run (NewEngine rules) obs).2).
Proof.
  intros Hnd Hr. destruct (NewEngine_key rules obs r a Hnd Hr) as [-> _].
  by apply (run_ticks_alternates (new_instance r a)).
Qed.

(** C2: a firing event of the instance machine is always backed by an unbroken
    run of samples, all satisfying the expression, that begins at the event's
    [since] and ends at the firing sample; the time between them is at least
    the rule's [for] duration (for a non-zero duration). *)
Theorem firing_backed r a hist s t ev :
  (tick (run_ticks (new_instance r a) hist).1 s t).2 = Some ev ->
  ev_State ev = StateFiring ->
  firing_justified r (hist ++ [(s, t)]) ev.
Proof.
  intros Ht Hs.
  pose proof (run_ticks_timer_ok _ hist (new_timer_ok r a)) as Hok.
  pose proof (run_ticks_identity (new_instance r a) hist) as (Hr & _).
  pose proof (tick_firing_justified _ hist s t ev Hok Ht Hs) as H. by rewrite Hr in H.
Qed.

(** Conversely, after unbroken satisfying samples from a resolved state
    with no pending timer, at non-zero timestamps, spanning at least the [for]
    duration, the instance is firing. *)
Lemma for_duration_fires i s1 t1 mid s2 t2 :
  i_state i = StateResolved -> i_firstSatisfiedAt i = zero_time -> t1 <> zero_time ->
  all_satisfied (i_rule i) ((s1, t1) :: mid ++ [(s2, t2)]) ->
  (sp_ForDuration (r_Spec (i_rule i)) <= time_sub t2 t1)%Z ->
  i_state (run_ticks i ((s1, t1) :: mid ++ [(s2, t2)])).1 = StateFiring.
Proof.
  intros Hst Hz Ht Hall Hd. apply Forall_cons in Hall as [Hs Hall]. cbn in Hs.
  rewrite run_ticks_cons. cbn [fst]. unfold tick. rewrite Hst, Hs, Hz.
  destruct (_ =? 0)%Z; [by rewrite satisfied_stays_firing|].
  change (IsZero zero_time) with true. cbv iota. by apply pending_fires.
Qed.

(** ** Recovery *)

(** The rule [x op lit] as [ParseExpr] compiles it. *)
Definition comparison_rule (r : AlarmRule) (op : cmp_op) (l rh : evalNode) : Prop :=
  r_Expr r = mkCompiled (mkLogical KAnd [mkCmp op l rh]) (collectRefs [mkCmp op l rh] []).

(** The value at which a hysteresis [h] around the literal [lit] lets the
    alarm clear. *)
Definition cleared (op : cmp_op) (lit h v : float64) : bool :=
  match op with
  | OpLt => fgeb v (fadd lit h)
  | OpLe => fgtb v (fadd lit h)
  | OpGt => fleb v (fsub lit h)
  | OpGe => fltb v (fsub lit h)
  | OpEq => fgeb v (fadd lit h) || fleb v (fsub lit h)
  | OpNe => feqb v lit
  end.

Definition positive_hyst (r : AlarmRule) : Prop := fleb (sp_Hysteresis (r_Spec r)) f0 = false.

Lemma comparison_recovery r op x lit :
  comparison_rule r op (EIdent x) (ENum lit) -> positive_hyst r ->
  buildRecovery r = on_point x (cleared op lit (sp_Hysteresis (r_Spec r))).
Proof.
  intros Hc Hh. unfold buildRecovery. rewrite Hh, Hc. by destruct op.
Qed.

Lemma comparison_satisfied r op x lit snap :
  comparison_rule r op (EIdent x) (ENum lit) ->
  satisfied r snap =
  match snap !! x with Some v => cmp_apply op v lit | None => false end.
Proof.
  intros Hc. unfold satisfied, compiled_Eval. rewrite Hc. cbn [c_root l_kind l_xs].
  rewrite root_eval_cons. cbn. destruct (snap !! x) as [v|]; cbn; [|done].
  by destruct (cmp_apply op v lit).
Qed.

(** A firing instance of a rule [point op literal] with a positive
    hysteresis resolves on a sample exactly when the point is present, the
    comparison fails and the value has passed the threshold moved by the
    hysteresis; a missing point keeps it firing. *)
Lemma hysteresis_recovery r a op x lit i snap t :
  comparison_rule r op (EIdent x) (ENum lit) -> positive_hyst r ->
  same_identity i (new_instance r a) -> i_state i = StateFiring ->
  (i_state (tick i snap t).1 = StateResolved <->
   exists v, snap !! x = Some v /\ cmp_apply op v lit = false /\
     cleared op lit (sp_Hysteresis (r_Spec r)) v = true).
Proof.
  intros Hc Hh (Hr & _ & Hrec & _) Hst. cbn in Hr, Hrec. unfold tick.
  rewrite Hst, Hr, Hrec, (comparison_recovery r op x lit Hc Hh).
  rewrite (comparison_satisfied r op x lit snap Hc). unfold on_point.
  destruct (snap !! x) as [v|]; [|cbn; rewrite Hst; split; [done|by intros (? & ? & _)]].
  destruct (cmp_apply op v lit) eqn:E.
  - cbn. rewrite Hst. split; [done|]. intros (v' & [= <-] & ? & _). congruence.
  - destruct (cleared _ _ _ v) eqn:Ec; cbn; rewrite ?Hst.
    + split; [|done]. intros _. by exists v.
    + split; [done|]. intros (v' & [= <-] & _ & ?). congruence.
Qed.

(** Without hysteresis a firing instance resolves on the first sample that
    does not satisfy the expression, a sample with a missing point or a
    division by zero included. *)
Lemma plain_recovery r a i snap t :
  fleb (sp_Hysteresis (r_Spec r)) f0 = true ->
  same_identity i (new_instance r a) -> i_state i = StateFiring ->
  (i_state (tick i snap t).1 = StateResolved <->
   compiled_Eval (r_Expr r) snap <> Ok true).
Proof.
  intros Hh (Hr & _ & Hrec & _) Hst. cbn in Hr, Hrec. unfold tick.
  rewrite Hst, Hr, Hrec. unfold buildRecovery, satisfied. rewrite Hh.
  destruct (compiled_Eval (r_Expr r) snap) as [[]|e]; cbn; rewrite ?Hst; intuition congruence.
Qed.

(** *** A literal on the left

    [extractCmpLiterals] returns the operands swapped but the comparison
    operator is used as written. *)

Lemma le3_lt4 v :
  fleb v (fsub (f_of_Z 4) f1) = true -> fgtb (f_of_Z 4) v = true.
Proof.
  change (fsub (f_of_Z 4) f1) with (S754_finite false 6755399441055744%positive (-51)%Z).
  change (f_of_Z 4) with (S754_finite false 4503599627370496%positive (-50)%Z).
  unfold fleb, fgtb, SFleb, SFltb. destruct v as [[]|[]| |[] m e]; cbn [SFcompare];
    try (intros _; reflexivity); try discriminate.
  destruct (Z.compare e (-51)) eqn:E; [| |discriminate]; intros _.
  - apply Z.compare_eq in E. rewrite E. reflexivity.
  - assert (e < -51)%Z as Hlt by exact E. assert (Z.compare e (-50) = Lt) as ->; [|reflexivity].
    clear E. change (e < -50)%Z. lia.
Qed.

Lemma swapped_tick r a x i s t :
  comparison_rule r OpGt (ENum (f_of_Z 4)) (EIdent x) ->
  sp_Hysteresis (r_Spec r) = f1 ->
  same_identity i (new_instance r a) -> i_state i = StateFiring ->
  tick i s t = (i, None).
Proof.
  intros Hc Hh (Hr & _ & Hrec & _) Hst. cbn in Hr, Hrec. unfold tick.
  rewrite Hst, Hr, Hrec. unfold buildRecovery, satisfied, compiled_Eval. rewrite Hh, Hc.
  change (fleb f1 f0) with false. cbv iota. cbn [c_root l_kind l_xs].
  unfold deriveRecoveryFromExpr, on_point. rewrite root_eval_cons.
  cbn -[fsub fgtb fleb f_of_Z]. destruct (s !! x) as [v|]; cbn -[fsub fgtb fleb f_of_Z]; [|done].
  destruct (fgtb (f_of_Z 4) v) eqn:E; [done|].
  destruct (fleb v (fsub (f_of_Z 4) f1)) eqn:E'; [|done].
  apply le3_lt4 in E'. congruence.
Qed.

(** With the literal on the left ([4 > point]) and a hysteresis of 1 the
    recovery test is never passed by a value that clears the comparison: once
    firing, no sequence of samples, whatever its values, resolves the alarm. *)
Lemma swapped_literal_never_resolves r a x i l :
  comparison_rule r OpGt (ENum (f_of_Z 4)) (EIdent x) ->
  sp_Hysteresis (r_Spec r) = f1 ->
  same_identity i (new_instance r a) -> i_state i = StateFiring ->
  run_ticks i l = (i, []).
Proof.
  intros Hc Hh Hid Hst. induction l as [|[s t] l IH]; [done|].
  rewrite run_ticks_cons, (swapped_tick r a x) by done. cbn [fst snd]. by rewrite IH.
Qed.

(** ** Rule validation (rule.go)

    The YAML document is given decoded; the file name only labels errors. *)

Inductive rule_err : Type :=
  | RKind | RName | RDuplicate | RAppliesTo | RSeverity | REmptyExpr | RHysteresis.

#[export] Instance rule_err_eq_dec : EqDecision rule_err.
Proof. solve_decision. Defined.

(** [^[a-z][a-z0-9]*(-[a-z0-9]+)*$] *)
Definition reRuleName (s : string) : bool :=
  match split "-" s with
  | String c p :: ps =>
      is_lower c && all_bytes is_alnum p &&
      forallb (fun q => negb (str_eqb q EmptyString) && all_bytes is_alnum q) ps
  | _ => false
  end.

Definition validateRule (r : AlarmRule) (types : list string) (seen : list string) :
    result rule_err (list string) :=
  if negb (str_eqb (r_Kind r) "AlarmRule") then Err RKind
  else if negb (reRuleName (rule_name r)) then Err RName
  else if contains_string seen (rule_name r) then Err RDuplicate
  else if negb (contains_string types (applies_to r)) then Err RAppliesTo
  else if negb (contains_string AllowedSeverities (sp_Severity (r_Spec r))) then Err RSeverity
  else if is_blank (sp_Expr (r_Spec r)) then Err REmptyExpr
  else if fltb (sp_Hysteresis (r_Spec r)) f0 then Err RHysteresis
  else Ok (rule_name r :: seen).

(** The loop of [LoadRules] over the decoded documents, in file-name order. *)
Inductive load_err : Type :=
  | LRule (e : rule_err) | LFor | LExpr (e : expr_err).

Definition with_duration (r : AlarmRule) : option AlarmRule :=
  if is_blank (sp_For (r_Spec r)) then Some r
  else
    match ParseDuration (sp_For (r_Spec r)) with
    | None => None
    | Some d =>
        let sp := r_Spec r in
        Some (mkAlarmRule (r_Kind r) (r_Metadata r)
          (mkRuleSpec (sp_Expr sp) (sp_For sp) (sp_Severity sp) (sp_Hysteresis sp)
             (sp_Annotations sp) d) (r_Expr r))
    end.

Fixpoint load_rules (rs : list AlarmRule) (types seen : list string) :
    result load_err (list AlarmRule) :=
  match rs with
  | [] => Ok []
  | r :: rs' =>
      match validateRule r types seen with
      | Err e => Err (LRule e)
      | Ok seen' =>
          match with_duration r with
          | None => Err LFor
          | Some r1 =>
              match ParseExpr (sp_Expr (r_Spec r1)) with
              | Err e => Err (LExpr e)
              | Ok c =>
                  rest ← load_rules rs' types seen';
                  Ok (mkAlarmRule (r_Kind r1) (r_Metadata r1) (r_Spec r1) c :: rest)
              end
          end
      end
  end.

Definition LoadRules (rs : list AlarmRule) (types : list string) :
    result load_err (list AlarmRule) := load_rules rs types [].

(** ** What the loader guarantees *)

Definition rule_loaded (types : list string) (r : AlarmRule) : Prop :=
  r_Kind r = "AlarmRule" /\ reRuleName (rule_name r) = true /\
  applies_to r ∈ types /\ sp_Severity (r_Spec r) ∈ AllowedSeverities /\
  fltb (sp_Hysteresis (r_Spec r)) f0 = false /\
  ParseExpr (sp_Expr (r_Spec r)) = Ok (r_Expr r) /\
  (is_blank (sp_For (r_Spec r)) = false ->
   ParseDuration (sp_For (r_Spec r)) = Some (sp_ForDuration (r_Spec r))).

Lemma contains_string_elem xs x : contains_string xs x = true <-> x ∈ xs.
Proof. rewrite contains_string_In. symmetry. apply list_elem_of_In. Qed.

Lemma validateRule_inv r types seen seen' :
  validateRule r types seen = Ok seen' ->
  seen' = rule_name r :: seen /\ (rule_name r ∉ seen) /\ r_Kind r = "AlarmRule" /\
  reRuleName (rule_name r) = true /\ applies_to r ∈ types /\
  sp_Severity (r_Spec r) ∈ AllowedSeverities /\
  fltb (sp_Hysteresis (r_Spec r)) f0 = false.
Proof.
  unfold validateRule.
  destruct (str_eqb (r_Kind r) "AlarmRule") eqn:E1; [|done]. cbn [negb].
  destruct (reRuleName (rule_name r)) eqn:E2; [|done]. cbn [negb].
  destruct (contains_string seen (rule_name r)) eqn:E3; [done|].
  destruct (contains_string types (applies_to r)) eqn:E4; [|done]. cbn [negb].
  destruct (contains_string AllowedSeverities _) eqn:E5; [|done]. cbn [negb].
  destruct (is_blank _); [done|]. destruct (fltb _ _) eqn:E6; [done|]. intros [= <-].
  apply str_eqb_eq in E1. apply contains_string_elem in E4, E5.
  repeat split; try done. intros H%contains_string_elem. congruence.
Qed.

Lemma with_duration_inv r r1 :
  with_duration r = Some r1 ->
  r_Kind r1 = r_Kind r /\ r_Metadata r1 = r_Metadata r /\
  sp_Expr (r_Spec r1) = sp_Expr (r_Spec r) /\ sp_For (r_Spec r1) = sp_For (r_Spec r) /\
  sp_Severity (r_Spec r1) = sp_Severity (r_Spec r) /\
  sp_Hysteresis (r_Spec r1) = sp_Hysteresis (r_Spec r) /\
  (is_blank (sp_For (r_Spec r)) = false ->
   ParseDuration (sp_For (r_Spec r)) = Some (sp_ForDuration (r_Spec r1))).
Proof.
  unfold with_duration. destruct (is_blank (sp_For (r_Spec r))); [by intros [= <-]|].
  destruct (ParseDuration (sp_For (r_Spec r))); [|done]. by intros [= <-].
Qed.

Lemma load_rules_inv rs types seen out :
  load_rules rs types seen = Ok out ->
  length out = length rs /\ map rule_name out = map rule_name rs /\
  NoDup (map rule_name out) /\ (forall n, n ∈ map rule_name out -> (n ∉ seen)) /\
  Forall (rule_loaded types) out.
Proof.
  revert seen out. induction rs as [|r rs IH]; intros seen out; cbn [load_rules].
  { intros [= <-]. split; [done|]. split; [done|]. split; [constructor|].
    split; [|constructor]. intros n H. inv H. }
  destruct (validateRule r types seen) as [seen'|] eqn:Ev; [|done].
  destruct (with_duration r) as [r1|] eqn:Ed; [|done].
  destruct (ParseExpr (sp_Expr (r_Spec r1))) as [c|] eqn:Ep; [|done].
  intros H. apply bind_Ok in H as (rest & Hl & [= <-]).
  apply IH in Hl as (H1 & H2 & H3 & H4 & H5).
  apply validateRule_inv in Ev as (-> & Hns & Hk & Hn & Ha & Hs & Hh).
  apply with_duration_inv in Ed as (Dk & Dm & De & Df & Ds & Dh & Dd).
  assert (rule_name (mkAlarmRule (r_Kind r1) (r_Metadata r1) (r_Spec r1) c) = rule_name r) as Hname
    by (unfold rule_name; cbn; by rewrite Dm).
  cbn [map length]. rewrite Hname. split; [by rewrite H1|]. split; [by rewrite H2|].
  split; [|split].
  - constructor; [|done]. intros Hin. apply (H4 _ Hin). by left.
  - intros n [->|Hin]%elem_of_cons; [done|]. intros Hns'. apply (H4 _ Hin). by right.
  - constructor; [|done]. unfold rule_loaded. rewrite Hname. unfold applies_to. cbn.
    rewrite Dk, Dm, De, Df, Ds, Dh in *. done.
Qed.

(** A rule set that loads is complete (one rule per document, in order)
    and every rule in it is valid: right kind, kebab-case name, names pairwise
    distinct, a known asset type, an allowed severity, a hysteresis that is not
    negative, the [for] text parsed, the expression compiled. *)
Lemma LoadRules_valid rs types out :
  LoadRules rs types = Ok out ->
  map rule_name out = map rule_name rs /\ NoDup (map rule_name out) /\
  Forall (rule_loaded types) out.
Proof. intros (_ & ? & ? & _ & ?)%load_rules_inv. done. Qed.

(** ** A concrete rule *)

Definition demo_doc : AlarmRule :=
  mkAlarmRule "AlarmRule" (mkRuleMetadata "cdu-deltat-low" "cdu")
    (mkRuleSpec "fws.deltat < 4" "5m" "major" f1 (<["summary" := "low"]> ∅) 0)
    (mkCompiled (mkLogical KAnd []) []).

Definition demo_rule : AlarmRule :=
  mkAlarmRule "AlarmRule" (mkRuleMetadata "cdu-deltat-low" "cdu")
    (mkRuleSpec "fws.deltat < 4" "5m" "major" f1 (<["summary" := "low"]> ∅) (5 * Minute))
    demo_expr.

Lemma demo_load : LoadRules [demo_doc] ["cdu"; "pdu"] = Ok [demo_rule].
Proof. vm_compute. reflexivity. Defined.

Lemma demo_names : NoDup (map rule_name [demo_rule]).
Proof. cbn. apply NoDup_singleton. Defined.
Lemma demo_in : demo_rule ∈ [demo_rule].
Proof. by left. Defined.

Definition low : snapshot := {[ "fws.deltat" := f_of_Z 3 ]}.
Definition high : snapshot := {[ "fws.deltat" := f_of_Z 6 ]}.
Definition at_min (m : Z) : time := (1000000 * Hour + m * Minute)%Z.

Definition demo_obs : list observation :=
  [ mkObs "s1.cdu1" "cdu" low (at_min 0); mkObs "s1.cdu1" "cdu" low (at_min 6);
    mkObs "s1.pdu1" "pdu" low (at_min 7); mkObs "s1.cdu1" "cdu" high (at_min 8) ].

Definition demo_firing : instance :=
  (run_ticks (new_instance demo_rule "s1.cdu1") [(low, at_min 0); (low, at_min 6)]).1.

Example demo_events :
  map (fun ev => (ev_State ev, ev_Since ev, ev_OccurredAt ev))
    (run (NewEngine [demo_rule]) demo_obs).2 =
  [(StateFiring, at_min 0, at_min 6); (StateResolved, at_min 0, at_min 8)].
Proof. vm_compute. reflexivity. Qed.

Lemma LoadRules_valid_witness : NoDup (map rule_name [demo_rule]).
Proof. apply (LoadRules_valid _ _ _ demo_load). Defined.

Lemma engine_product_witness :
  events_of "cdu-deltat-low" "s1.cdu1" (run (NewEngine [demo_rule]) demo_obs).2 =
    (run_ticks (new_instance demo_rule "s1.cdu1") (samples_for demo_rule "s1.cdu1" demo_obs)).2.
Proof. apply (engine_product [demo_rule] demo_obs demo_rule "s1.cdu1" demo_names demo_in). Defined.

Lemma events_alternate_witness :
  alternates None (events_of "cdu-deltat-low" "s1.cdu1" (run (NewEngine [demo_rule]) demo_obs).2).
Proof. exact (events_alternate [demo_rule] demo_obs demo_rule "s1.cdu1" demo_names demo_in). Defined.

Definition demo_event : Event :=
  mk_event (new_instance demo_rule "s1.cdu1") StateFiring (at_min 0) (at_min 6).

Lemma firing_backed_witness :
  firing_justified demo_rule ([(low, at_min 0)] ++ [(low, at_min 6)]) demo_event.
Proof.
  apply (firing_backed demo_rule "s1.cdu1" [(low, at_min 0)] low (at_min 6) demo_event).
  - vm_compute. reflexivity.
  - reflexivity.
Defined.

Lemma for_duration_fires_witness :
  i_state (run_ticks (new_instance demo_rule "s1.cdu1")
    ((low, at_min 0) :: ([] ++ [(low, at_min 6)]))).1 = StateFiring.
Proof.
  apply (for_duration_fires (new_instance demo_rule "s1.cdu1") low (at_min 0) [] low (at_min 6)).
  - reflexivity.
  - reflexivity.
  - vm_compute. discriminate.
  - repeat constructor; vm_compute; reflexivity.
  - vm_compute. discriminate.
Defined.

Lemma demo_identity : same_identity demo_firing (new_instance demo_rule "s1.cdu1").
Proof. apply run_ticks_identity. Defined.

Lemma hysteresis_recovery_witness :
  i_state (tick demo_firing high (at_min 8)).1 = StateResolved <->
  exists v, high !! "fws.deltat" = Some v /\ cmp_apply OpLt v (f_of_Z 4) = false /\
    cleared OpLt (f_of_Z 4) f1 v = true.
Proof.
  exact (hysteresis_recovery demo_rule "s1.cdu1" OpLt "fws.deltat" (f_of_Z 4) demo_firing high
    (at_min 8) eq_refl eq_refl demo_identity eq_refl).
Defined.

Definition plain_rule : AlarmRule :=
  mkAlarmRule "AlarmRule" (mkRuleMetadata "plain" "cdu")
    (mkRuleSpec "fws.deltat < 4" EmptyString "major" f0 ∅ 0) demo_expr.
Definition plain_firing : instance :=
  (run_ticks (new_instance plain_rule "s1.cdu1") [(low, at_min 0)]).1.

Lemma plain_recovery_witness :
  i_state (tick plain_firing ∅ (at_min 1)).1 = StateResolved.
Proof.
  apply (plain_recovery plain_rule "s1.cdu1" plain_firing ∅ (at_min 1)).
  - reflexivity.
  - apply run_ticks_identity.
  - vm_compute. reflexivity.
  - vm_compute. discriminate.
Defined.

Definition swapped_expr : compiled :=
  mkCompiled (mkLogical KAnd [mkCmp OpGt (ENum (f_of_Z 4)) (EIdent "fws.deltat")])
    ["fws.deltat"].
Example swapped_parses : ParseExpr "4 > fws.deltat" = Ok swapped_expr.
Proof. vm_compute. reflexivity. Qed.
Definition swapped_rule : AlarmRule :=
  mkAlarmRule "AlarmRule" (mkRuleMetadata "swapped" "cdu")
    (mkRuleSpec "4 > fws.deltat" EmptyString "major" f1 ∅ 0) swapped_expr.
Definition swapped_firing : instance :=
  (run_ticks (new_instance swapped_rule "s1.cdu1") [(low, at_min 0)]).1.

Lemma swapped_literal_never_resolves_witness :
  i_state swapped_firing = StateFiring /\
  run_ticks swapped_firing [(high, at_min 1); (∅, at_min 2)] = (swapped_firing, []).
Proof.
  assert (i_state swapped_firing = StateFiring) as Hst by (vm_compute; reflexivity).
  split; [exact Hst|].
  apply (swapped_literal_never_resolves swapped_rule "s1.cdu1" "fws.deltat").
  - vm_compute. reflexivity.
  - reflexivity.
  - apply run_ticks_identity.
  - exact Hst.
Defined.
