(* ===== verification/Breaker.v ===== *)
(** * The resilient policy decision point (pkg/policy/resilient_pdp.go)

    Bounded retry around an inner PDP and a three-state circuit breaker.  One
    [Decision] is a function of what the environment answers; several callers
    interleave through the two critical sections [beforeCall] and [afterCall],
    which is a step relation on the breaker and the calls in flight. *)
From S2P Require Import Prelude GoTime.
Open Scope string_scope.
Open Scope list_scope.

Record RetryConfig : Type := mkRetryConfig {
  MaxAttempts : Z;
  BaseBackoff : Duration;
  MaxBackoff : Duration;
  FailureThresh : Z;
  OpenCooldown : Duration
}.

Inductive breakerState : Type := breakerClosed | breakerOpen | breakerHalfOpen.

#[export] Instance breakerState_eq_dec : EqDecision breakerState.
Proof. solve_decision. Defined.

Record breaker : Type := mkBreaker {
  b_state : breakerState;
  b_consecFail : Z;
  b_openedAt : time;
  b_halfOpenIn : bool
}.

#[export] Instance breaker_eq_dec : EqDecision breaker.
Proof. solve_decision. Defined.

Definition new_breaker : breaker := mkBreaker breakerClosed 0 zero_time false.

(** [beforeCall]: [None] is [ErrCircuitOpen], [Some probe] an admitted call. *)
Definition beforeCall (cfg : RetryConfig) (b : breaker) (now : time) : breaker * option bool :=
  match b_state b with
  | breakerClosed => (b, Some false)
  | breakerOpen =>
      if (time_sub now (b_openedAt b) <? OpenCooldown cfg)%Z then (b, None)
      else (mkBreaker breakerHalfOpen (b_consecFail b) (b_openedAt b) true, Some true)
  | breakerHalfOpen =>
      if b_halfOpenIn b then (b, None)
      else (mkBreaker breakerHalfOpen (b_consecFail b) (b_openedAt b) true, Some false)
  end.

(** [afterCall(success, _)]: the probe flag is not read. *)
Definition afterCall (cfg : RetryConfig) (b : breaker) (success : bool) (now : time) : breaker :=
  match b_state b with
  | breakerClosed =>
      if success then mkBreaker breakerClosed 0 (b_openedAt b) (b_halfOpenIn b)
      else
        let n := (b_consecFail b + 1)%Z in
        if (FailureThresh cfg <=? n)%Z
        then mkBreaker breakerOpen 0 now (b_halfOpenIn b)
        else mkBreaker breakerClosed n (b_openedAt b) (b_halfOpenIn b)
  | breakerHalfOpen =>
      if success then mkBreaker breakerClosed 0 (b_openedAt b) false
      else mkBreaker breakerOpen 0 now false
  | breakerOpen => b
  end.

(** [backoff(attempt)] with the drawn jitter [j] in [0, base). *)
Definition backoff_base (cfg : RetryConfig) : Duration :=
  if (BaseBackoff cfg <=? 0)%Z then Millisecond else BaseBackoff cfg.

Definition backoff (cfg : RetryConfig) (attempt : Z) (j : Duration) : Duration :=
  let base := backoff_base cfg in
  let shift := Z.min (attempt - 1) 30 in
  let d := wrap64 (Z.shiftl base shift) in
  let d' := if ((d <=? 0) || (MaxBackoff cfg <? d))%Z then MaxBackoff cfg else d in
  wrap64 (d' + j).

(** ** One decision

    What one attempt meets: whether the context is done before it, the inner
    PDP's answer, and whether the context is done during the backoff. *)
Section decision.
Context {E : Type}.

Record attempt_env : Type := mkAttempt {
  a_done_before : bool;
  a_inner : result E bool;
  a_done_backoff : bool
}.

Inductive decision_err : Type := ErrCircuitOpen | ErrCtx | ErrInner (e : E).

(** The loop from [attempt] on: the returned pair and the accounting, [Some
    success] when [afterCall] runs.  [n] counts the remaining attempts. *)
Fixpoint attempts (n : nat) (env : nat -> attempt_env) (k : nat) :
    result decision_err bool * option bool :=
  match n with
  | O => (Ok false, None)
  | S n' =>
      let a := env k in
      if a_done_before a then (Err ErrCtx, None)
      else
        match a_inner a with
        | Ok allow => (Ok allow, Some true)
        | Err e =>
            match n' with
            | O => (Err (ErrInner e), Some false)
            | S _ => if a_done_backoff a then (Err ErrCtx, None) else attempts n' env (S k)
            end
        end
  end.

Definition Decision (cfg : RetryConfig) (b : breaker) (env : nat -> attempt_env)
    (start stop : time) : breaker * result decision_err bool :=
  match beforeCall cfg b start with
  | (b1, None) => (b1, Err ErrCircuitOpen)
  | (b1, Some probe) =>
      match attempts (Z.to_nat (MaxAttempts cfg)) env 0 with
      | (r, Some success) => (afterCall cfg b1 success stop, r)
      | (r, None) => (b1, r)
      end
  end.

(** The first answered attempt: all earlier ones failed and were not cancelled. *)
Definition answers_at (env : nat -> attempt_env) (k i : nat) (allow : bool) : Prop :=
  a_done_before (env (k + i)) = false /\ a_inner (env (k + i)) = Ok allow /\
  forall j, j < i -> a_done_before (env (k + j)) = false /\
    a_done_backoff (env (k + j)) = false /\ exists e, a_inner (env (k + j)) = Err e.

Lemma attempts_answer n env k allow acc :
  0 < n ->
  attempts n env k = (Ok allow, acc) <->
  acc = Some true /\ exists i, i < n /\ answers_at env k i allow.
Proof.
  revert k. induction n as [|n IH]; intros k Hn; [lia|]. cbn [attempts].
  destruct (a_done_before (env k)) eqn:Eb.
  { split; [done|]. intros (_ & i & _ & Ha). destruct i as [|i].
    - destruct Ha as (H & _). rewrite Nat.add_0_r in H. congruence.
    - destruct Ha as (_ & _ & H). destruct (H 0 ltac:(lia)) as (H' & _).
      rewrite Nat.add_0_r in H'. congruence. }
  destruct (a_inner (env k)) as [a|e] eqn:Ei.
  { split.
    - intros [= <- <-]. split; [done|]. exists 0. split; [lia|]. unfold answers_at.
      rewrite Nat.add_0_r. split; [done|]. split; [done|]. intros j Hj. lia.
    - intros (-> & [|i] & _ & Ha).
      + destruct Ha as (_ & H & _). rewrite Nat.add_0_r in H. congruence.
      + destruct Ha as (_ & _ & H). destruct (H 0 ltac:(lia)) as (_ & _ & e & H').
        rewrite Nat.add_0_r in H'. congruence. }
  assert (forall i, answers_at env k i allow <-> exists i', i = S i' /\
    a_done_backoff (env k) = false /\ answers_at env (S k) i' allow) as Hshift.
  { intros [|i]; split.
    - intros (_ & H & _). rewrite Nat.add_0_r in H. congruence.
    - by intros (? & ? & _).
    - intros (H1 & H2 & H3). exists i. split; [done|].
      replace (k + S i) with (S k + i) in * by lia.
      destruct (H3 0 ltac:(lia)) as (_ & H & _). rewrite Nat.add_0_r in H.
      split; [done|]. split; [done|]. split; [done|]. intros j Hj.
      replace (S k + j) with (k + S j) by lia. apply H3. lia.
    - intros (i' & [= ->] & Hb & H1 & H2 & H3). unfold answers_at.
      replace (k + S i') with (S k + i') by lia. split; [done|]. split; [done|].
      intros [|j] Hj; [rewrite Nat.add_0_r; eauto|].
      replace (k + S j) with (S k + j) by lia. apply H3. lia. }
  destruct n as [|n].
  { split; [done|]. intros (_ & i & Hi & (i' & -> & _)%Hshift). lia. }
  destruct (a_done_backoff (env k)) eqn:Ed.
  { split; [done|]. intros (_ & i & _ & (i' & _ & ? & _)%Hshift). done. }
  rewrite IH by lia. split.
  - intros (-> & i & Hi & Ha). split; [done|]. exists (S i). split; [lia|].
    apply Hshift. eauto.
  - intros (-> & i & Hi & (i' & -> & _ & Ha)%Hshift). split; [done|]. exists i'.
    split; [lia|done].
Qed.

End decision.

Arguments attempt_env : clear implicits.
Arguments decision_err : clear implicits.

(** ** Concurrent callers

    The state is the breaker and the calls in flight; a call remembers whether
    it was admitted by a breaker that was not closed (a probe).  A call leaves
    by an accounted outcome or by the cancellation of its context, which skips
    [afterCall]. *)

Record sys : Type := mkSys { s_breaker : breaker; s_calls : list bool }.

Inductive event : Type :=
  | EAdmit (now : time)
  | EDeny (now : time)
  | EFinish (i : nat) (success : bool) (now : time)
  | ECancel (i : nat).

Inductive step (cfg : RetryConfig) : sys -> event -> sys -> Prop :=
  | step_admit b calls now b' probe :
      beforeCall cfg b now = (b', Some probe) ->
      step cfg (mkSys b calls) (EAdmit now)
        (mkSys b' (calls ++ [bool_decide (b_state b' = breakerHalfOpen)]))
  | step_deny b calls now b' :
      beforeCall cfg b now = (b', None) ->
      step cfg (mkSys b calls) (EDeny now) (mkSys b' calls)
  | step_finish b calls i p success now :
      calls !! i = Some p ->
      step cfg (mkSys b calls) (EFinish i success now)
        (mkSys (afterCall cfg b success now) (delete i calls))
  | step_cancel b calls i p :
      calls !! i = Some p ->
      step cfg (mkSys b calls) (ECancel i) (mkSys b (delete i calls)).

Inductive steps (cfg : RetryConfig) : sys -> list event -> sys -> Prop :=
  | steps_nil s : steps cfg s [] s
  | steps_cons s e s' es s'' :
      step cfg s e s' -> steps cfg s' es s'' -> steps cfg s (e :: es) s''.

Definition initial : sys := mkSys new_breaker [].

Definition is_admit (e : event) : bool := match e with EAdmit _ => true | _ => false end.
Definition is_deny (e : event) : bool := match e with EDeny _ => true | _ => false end.

Definition event_time (e : event) : option time :=
  match e with
  | EAdmit t | EDeny t | EFinish _ _ t => Some t
  | ECancel _ => None
  end.

Definition half_open_busy (b : breaker) : bool :=
  bool_decide (b_state b = breakerHalfOpen) && b_halfOpenIn b.

Lemma steps_app cfg s es s' es' s'' :
  steps cfg s es s' -> steps cfg s' es' s'' -> steps cfg s (es ++ es') s''.
Proof. induction 1; intros H'; cbn; [done|]. econstructor; eauto. Qed.

(** The counter stays below the threshold; the probe slot is taken exactly in
    the half-open state. *)
Definition breaker_ok (cfg : RetryConfig) (b : breaker) : Prop :=
  (0 <= b_consecFail b < FailureThresh cfg)%Z /\
  match b_state b with
  | breakerClosed => b_halfOpenIn b = false
  | breakerOpen => b_consecFail b = 0%Z /\ b_halfOpenIn b = false
  | breakerHalfOpen => b_consecFail b = 0%Z /\ b_halfOpenIn b = true
  end.

Lemma beforeCall_ok cfg b now : breaker_ok cfg b -> breaker_ok cfg (beforeCall cfg b now).1.
Proof.
  intros Hok. unfold beforeCall. destruct (b_state b) eqn:E; [done| |].
  - destruct (_ <? _)%Z; [done|]. destruct Hok as [H1 H2]. rewrite E in H2.
    destruct H2. split; cbn; [lia|done].
  - pose proof Hok as [_ H2]. rewrite E in H2. destruct H2 as [_ ->]. done.
Qed.

Lemma afterCall_ok cfg b ok now :
  (1 <= FailureThresh cfg)%Z -> breaker_ok cfg b -> breaker_ok cfg (afterCall cfg b ok now).
Proof.
  intros Ht Hok. pose proof Hok as [H1 H2]. unfold afterCall.
  destruct (b_state b) eqn:E; [|done|].
  - destruct ok; [|destruct (Z.leb_spec (FailureThresh cfg) (b_consecFail b + 1))];
      unfold breaker_ok; cbn; repeat split; done || lia.
  - destruct ok; unfold breaker_ok; cbn; repeat split; done || lia.
Qed.

Lemma step_ok cfg s e s' :
  (1 <= FailureThresh cfg)%Z -> breaker_ok cfg (s_breaker s) -> step cfg s e s' ->
  breaker_ok cfg (s_breaker s').
Proof.
  intros Ht Hok Hs. inversion Hs; subst; cbn in *.
  - pose proof (beforeCall_ok cfg b now Hok) as H'. by rewrite H in H'.
  - pose proof (beforeCall_ok cfg b now Hok) as H'. by rewrite H in H'.
  - by apply afterCall_ok.
  - done.
Qed.

Lemma steps_ok cfg s es s' :
  (1 <= FailureThresh cfg)%Z -> breaker_ok cfg (s_breaker s) -> steps cfg s es s' ->
  breaker_ok cfg (s_breaker s').
Proof. intros Ht Hok. induction 1; [done|]. eauto using step_ok. Qed.

Lemma initial_ok cfg : (1 <= FailureThresh cfg)%Z -> breaker_ok cfg (s_breaker initial).
Proof. intros. unfold breaker_ok. cbn. split; [lia|done]. Qed.

(** A half-open breaker whose slot is taken and that no call in flight will
    release: every event is a denial and nothing changes. *)
Lemma stuck_steps cfg s es s' :
  b_state (s_breaker s) = breakerHalfOpen -> b_halfOpenIn (s_breaker s) = true ->
  s_calls s = [] -> steps cfg s es s' ->
  s' = s /\ Forall (fun e => is_deny e = true) es.
Proof.
  intros Hst Hin Hc. induction 1 as [s|s e s1 es s2 Hstep Hsteps IH]; [done|].
  assert (s1 = s /\ is_deny e = true) as [-> He].
  { inversion Hstep; subst; cbn in *; try (subst calls; by destruct i).
    - unfold beforeCall in H. rewrite Hst, Hin in H. done.
    - unfold beforeCall in H. rewrite Hst, Hin in H. by injection H as <-. }
  destruct (IH Hst Hin Hc) as [-> Hall]. split; [done|]. by constructor.
Qed.

(** While the cooldown lasts an open breaker stays as it is. *)
Definition in_cooldown (cfg : RetryConfig) (opened t : time) : Prop :=
  (time_sub t opened < OpenCooldown cfg)%Z.

Lemma open_steps cfg s es s' :
  b_state (s_breaker s) = breakerOpen ->
  Forall (fun e => match event_time e with
    | Some t => in_cooldown cfg (b_openedAt (s_breaker s)) t | None => True end) es ->
  steps cfg s es s' ->
  s_breaker s' = s_breaker s /\ Forall (fun e => is_admit e = false) es.
Proof.
  intros Hst Hall Hs. induction Hs as [s|s e s1 es s2 Hstep Hsteps IH]; [done|].
  inv Hall. assert (s_breaker s1 = s_breaker s /\ is_admit e = false) as [Hb He].
  { inversion Hstep; subst; cbn in *; try done.
    - unfold beforeCall, in_cooldown in *. rewrite Hst in H.
      apply Z.ltb_lt in H1. rewrite H1 in H. done.
    - unfold beforeCall, in_cooldown in *. rewrite Hst in H.
      apply Z.ltb_lt in H1. rewrite H1 in H. by injection H as <-.
    - unfold afterCall. by rewrite Hst. }
  rewrite Hb in IH. destruct (IH Hst H2) as [-> ?]. split; [done|]. by constructor.
Qed.

(** The outcomes of the calls of a closed breaker, one at a time. *)
Fixpoint outcomes (cfg : RetryConfig) (b : breaker) (l : list (bool * time)) : breaker :=
  match l with
  | [] => b
  | (ok, t) :: l' => outcomes cfg (afterCall cfg b ok t) l'
  end.

Fixpoint longest_fail (cur : Z) (l : list (bool * time)) : Z :=
  match l with
  | [] => cur
  | (true, _) :: l' => Z.max cur (longest_fail 0 l')
  | (false, _) :: l' => longest_fail (cur + 1) l'
  end.

Lemma longest_fail_ge cur l : (cur <= longest_fail cur l)%Z.
Proof.
  revert cur. induction l as [|[[] t] l IH]; intros cur; cbn; [lia|lia|].
  specialize (IH (cur + 1)%Z). lia.
Qed.

Lemma outcomes_open cfg b l : b_state b = breakerOpen -> outcomes cfg b l = b.
Proof.
  intros H. induction l as [|[ok t] l IH]; cbn; [done|]. unfold afterCall. by rewrite H.
Qed.

Lemma outcomes_closed cfg b l :
  (1 <= FailureThresh cfg)%Z -> b_state b = breakerClosed ->
  (0 <= b_consecFail b < FailureThresh cfg)%Z ->
  b_state (outcomes cfg b l) =
    if (FailureThresh cfg <=? longest_fail (b_consecFail b) l)%Z
    then breakerOpen else breakerClosed.
Proof.
  intros Ht. revert b. induction l as [|[ok t] l IH]; intros b Hst Hc; cbn [outcomes longest_fail].
  - rewrite Hst. destruct (Z.leb_spec (FailureThresh cfg) (b_consecFail b)); [lia|done].
  - unfold afterCall. rewrite Hst. destruct ok.
    + rewrite IH by (cbn; done || lia). cbn.
      pose proof (longest_fail_ge 0 l).
      destruct (Z.leb_spec (FailureThresh cfg) (longest_fail 0 l)),
        (Z.leb_spec (FailureThresh cfg) (Z.max (b_consecFail b) (longest_fail 0 l))); done || lia.
    + pose proof (longest_fail_ge (b_consecFail b + 1) l).
      destruct (Z.leb_spec (FailureThresh cfg) (b_consecFail b + 1)).
      * rewrite outcomes_open by done. cbn.
        destruct (Z.leb_spec (FailureThresh cfg) (longest_fail (b_consecFail b + 1) l)); [done|lia].
      * rewrite IH by (cbn; done || lia). done.
Qed.

(** C6: fail-closed: with at least one attempt configured, a decision returns a
    verdict (allow or deny, without an error) exactly when the breaker admits
    the call and some attempt gets that verdict from the inner PDP, every
    earlier attempt having failed and none having been cancelled; so a failure
    is never turned into an allow and a deny is never retried. *)
Theorem Decision_fail_closed {E} cfg b (env : nat -> attempt_env E) start stop allow :
  (1 <= MaxAttempts cfg)%Z ->
  (Decision cfg b env start stop).2 = Ok allow <->
  (beforeCall cfg b start).2 <> None /\
  exists i, i < Z.to_nat (MaxAttempts cfg) /\ answers_at env 0 i allow.
Proof.
  intros Hm. unfold Decision. destruct (beforeCall cfg b start) as [b1 [probe|]]; cbn [fst snd].
  2: { split; [done|]. by intros [? _]. }
  pose proof (attempts_answer (Z.to_nat (MaxAttempts cfg)) env 0 allow) as H.
  destruct (attempts _ env 0) as [r acc]. split.
  - intros Hr. split; [done|]. apply (H acc); [lia|]. by destruct acc; cbn in Hr; subst.
  - intros [_ Hi]. pose proof (proj2 (H (Some true) ltac:(lia)) (conj eq_refl Hi)) as [= -> ->].
    done.
Qed.

(** Starting from any well-formed closed breaker, a sequence of accounted
    outcomes opens it exactly when it contains a run of [FailureThresh]
    consecutive failures (the failures already counted included); a success in
    between resets the count. *)
Lemma breaker_opens_iff cfg b l :
  (1 <= FailureThresh cfg)%Z -> b_state b = breakerClosed -> breaker_ok cfg b ->
  b_state (outcomes cfg b l) = breakerOpen <->
  (FailureThresh cfg <= longest_fail (b_consecFail b) l)%Z.
Proof.
  intros Ht Hst [Hc _]. rewrite outcomes_closed by done.
  destruct (Z.leb_spec (FailureThresh cfg) (longest_fail (b_consecFail b) l));
    split; (done || lia).
Qed.

(** In every reachable state with an open breaker, no call is admitted
    before the cooldown has elapsed, whatever the calls still in flight report
    or cancel meanwhile; the breaker does not change. *)
Lemma open_until_cooldown cfg es0 s es s' :
  steps cfg initial es0 s -> b_state (s_breaker s) = breakerOpen ->
  Forall (fun e => match event_time e with
    | Some t => in_cooldown cfg (b_openedAt (s_breaker s)) t | None => True end) es ->
  steps cfg s es s' ->
  s_breaker s' = s_breaker s /\ Forall (fun e => is_admit e = false) es.
Proof. intros _. apply open_steps. Qed.

(** A probe whose context is cancelled never releases its slot: after an
    open breaker with no call in flight admits a probe and the probe is
    cancelled, every later event is a denial, at any time, forever. *)
Lemma cancelled_probe_denies_forever cfg b now es s' :
  b_state b = breakerOpen ->
  steps cfg (mkSys b []) (EAdmit now :: ECancel 0 :: es) s' ->
  Forall (fun e => is_deny e = true) es.
Proof.
  intros Hst H. inversion H as [|? ? s1 ? ? H1 H']; subst. clear H.
  inversion H' as [|? ? s2 ? ? H2 H3]; subst. clear H'.
  inversion H1; subst. inversion H2; subst. unfold beforeCall in *. rewrite Hst in *.
  destruct (_ <? _)%Z; [done|]. simplify_eq. cbn in H3. by eapply stuck_steps in H3 as [_ ?].
Qed.

(** The pause between attempts lies in (0, MaxBackoff + base) and, as long
    as the doubled base fits an int64, it is min(MaxBackoff, base *
    2^(attempt-1)) plus the jitter. *)
Lemma backoff_bounds cfg attempt j :
  (0 < MaxBackoff cfg)%Z -> (MaxBackoff cfg + backoff_base cfg <= max_int64)%Z ->
  (0 <= j < backoff_base cfg)%Z -> (1 <= attempt)%Z ->
  (0 < backoff cfg attempt j < MaxBackoff cfg + backoff_base cfg)%Z /\
  ((attempt <= 31)%Z -> (backoff_base cfg * 2 ^ (attempt - 1) <= max_int64)%Z ->
   backoff cfg attempt j =
     (Z.min (MaxBackoff cfg) (backoff_base cfg * 2 ^ (attempt - 1)) + j)%Z).
Proof.
  intros Hm Hsum Hj Ha.
  assert (0 < backoff_base cfg)%Z as Hb.
  { unfold backoff_base. destruct (Z.leb_spec (BaseBackoff cfg) 0); [done|lia]. }
  unfold backoff. set (base := backoff_base cfg) in *. cbv zeta. split.
  - set (d := wrap64 (Z.shiftl _ _)). destruct (Z.leb_spec d 0); cbn [orb];
      [|destruct (Z.ltb_spec (MaxBackoff cfg) d)];
      rewrite wrap64_id by (unfold min_int64; lia); lia.
  - intros H31 Hfit. rewrite (Z.min_l (attempt - 1) 30) by lia.
    rewrite Z.shiftl_mul_pow2 by lia.
    assert (0 < 2 ^ (attempt - 1))%Z as Hp by (apply Z.pow_pos_nonneg; lia).
    rewrite (wrap64_id (base * _)) by (unfold min_int64; nia).
    destruct (Z.leb_spec (base * 2 ^ (attempt - 1)) 0); [nia|]. cbn [orb].
    destruct (Z.ltb_spec (MaxBackoff cfg) (base * 2 ^ (attempt - 1)));
      rewrite wrap64_id by (unfold min_int64; nia); lia.
Qed.

(** ** A concrete configuration *)

Definition demo_cfg : RetryConfig :=
  mkRetryConfig 3 (50 * Millisecond) (500 * Millisecond) 2 (2 * Second).

Definition demo_env (k : nat) : attempt_env unit :=
  match k with
  | O => mkAttempt false (Err tt) false
  | _ => mkAttempt false (Ok false) false
  end.

Lemma Decision_fail_closed_witness :
  (Decision demo_cfg new_breaker demo_env 1 2).2 = Ok false.
Proof.
  apply (Decision_fail_closed demo_cfg new_breaker demo_env 1 2 false); [vm_compute; congruence|].
  split; [vm_compute; congruence|]. exists 1. split; [vm_compute; lia|].
  split; [reflexivity|]. split; [reflexivity|]. intros j Hj.
  assert (j = 0) as -> by lia. split; [reflexivity|]. split; [reflexivity|].
  exists tt. reflexivity.
Defined.

Lemma breaker_opens_iff_witness :
  b_state (outcomes demo_cfg new_breaker [(false, 1%Z); (true, 2%Z); (false, 3%Z); (false, 4%Z)])
    = breakerOpen.
Proof.
  apply (breaker_opens_iff demo_cfg new_breaker).
  - vm_compute. congruence.
  - reflexivity.
  - apply initial_ok. vm_compute. congruence.
  - vm_compute. congruence.
Defined.

Definition opened : breaker := mkBreaker breakerOpen 0 20 false.

(** Two failing calls open the breaker of the configuration. *)
Lemma demo_open :
  steps demo_cfg initial
    [EAdmit 1; EAdmit 2; EFinish 0 false 10; EFinish 0 false 20] (mkSys opened []).
Proof.
  eapply steps_cons; [eapply step_admit; reflexivity|].
  eapply steps_cons; [eapply step_admit; reflexivity|].
  eapply steps_cons; [eapply step_finish; reflexivity|].
  eapply steps_cons; [eapply step_finish; reflexivity|]. apply steps_nil.
Defined.

Lemma open_until_cooldown_witness :
  Forall (fun e => is_admit e = false) [EDeny (1 * Second)].
Proof.
  apply (open_until_cooldown demo_cfg _ _ [EDeny (1 * Second)] (mkSys opened []) demo_open).
  - reflexivity.
  - repeat constructor; vm_compute; reflexivity.
  - eapply steps_cons; [eapply step_deny; reflexivity|]. apply steps_nil.
Defined.

Lemma cancelled_probe_denies_forever_witness :
  Forall (fun e => is_deny e = true) [EDeny (100 * Hour)].
Proof.
  eapply (cancelled_probe_denies_forever demo_cfg opened (3 * Second)).
  - reflexivity.
  - eapply steps_cons; [eapply step_admit; reflexivity|].
    eapply steps_cons; [eapply step_cancel; reflexivity|].
    eapply steps_cons; [eapply step_deny; reflexivity|]. apply steps_nil.
Defined.

Lemma backoff_bounds_witness :
  backoff demo_cfg 3 7 = (200 * Millisecond + 7)%Z.
Proof.
  apply (backoff_bounds demo_cfg 3 7); vm_compute; try split; congruence.
Defined.
