(* ===== verification/RBAC.v ===== *)
(** * Scope grammar and authorization (core/crn.go, core/auth.go, core/rbac.go)

    The canonical resource names of the access-control layer, the compilation
    of a principal's scopes into path globs, and the authorization decision
    with the role floor, the read-implies-subtree rule, the cross-tenant red
    line and the legacy-scope meter. *)
From S2P Require Import Prelude CPath Glob.
Open Scope string_scope.
Open Scope list_scope.

(** ** CRN (crn.go) *)

Record crn : Type := mkCRN {
  crn_tid : string; crn_oid : string; crn_sid : string; crn_tail : list string }.

#[export] Instance crn_eq_dec : EqDecision crn.
Proof. solve_decision. Defined.

Inductive crn_err : Type := ErrCRNSyntax.

Definition crnPrefix : string := "crn:".

Definition glob_byte (c : ascii) : bool := is_alnum c || byte_eqb c "*".

(** [^[a-z][a-z0-9-]{1,30}$], [^[a-z0-9*]+$], [^[a-z0-9*]*\*[a-z0-9*]*$]. *)
Definition crnTidOidRe (s : string) : bool :=
  match s with
  | String c r =>
      is_lower c && all_bytes (fun d => is_alnum d || byte_eqb d "-") r &&
      (1 <=? str_len r)%nat && (str_len r <=? 30)%nat
  | EmptyString => false
  end.
Definition crnSiteRe (s : string) : bool :=
  negb (str_eqb s EmptyString) && all_bytes glob_byte s.
Definition crnGlobSegRe (s : string) : bool := all_bytes glob_byte s && contains "*" s.

Definition crnIsGlobSeg (seg : string) : bool :=
  match seg with
  | EmptyString => false
  | String c r =>
      if str_eqb seg "*" || str_eqb seg "**" then true
      else if negb (byte_eqb c "*") && negb (is_lower c) && negb (is_digit c) then false
      else if contains "**" seg then false
      else all_bytes glob_byte r
  end.

Definition crnIsTidOrOid (s : string) : bool := crnIsGlobSeg s || crnTidOidRe s.

Definition crnValidPiece (piece : string) : bool :=
  str_eqb piece "*" || str_eqb piece "**" || all_bytes is_alnum piece ||
  (crnGlobSegRe piece && negb (contains "**" piece)).

Definition crnValidNode (seg : string) : bool :=
  if str_eqb seg EmptyString then false
  else if str_eqb seg "*" || str_eqb seg "**" then true
  else forallb crnValidPiece (split "." seg).

(** The loop over the nodes after the site. *)
Fixpoint crn_tail_of (nodes : list string) : result crn_err (list string) :=
  match nodes with
  | [] => Ok []
  | seg :: nodes' =>
      if crnValidNode seg then
        rest ← crn_tail_of nodes'; Ok (split "." seg ++ rest)
      else Err ErrCRNSyntax
  end.

Definition ParseCRN (s : string) : result crn_err crn :=
  if negb (has_prefix s crnPrefix) then Err ErrCRNSyntax
  else
    let rest := trim_prefix s crnPrefix in
    if str_eqb rest EmptyString then Err ErrCRNSyntax
    else
      match split "/" rest with
      | t :: tid :: o :: oid :: st :: sites =>
          if negb (str_eqb t "tenant") then Err ErrCRNSyntax
          else if negb (str_eqb o "org") then Err ErrCRNSyntax
          else if negb (str_eqb st "site") then Err ErrCRNSyntax
          else if negb (crnIsTidOrOid tid) then Err ErrCRNSyntax
          else if negb (crnIsTidOrOid oid) then Err ErrCRNSyntax
          else
            match sites with
            | [] => Err ErrCRNSyntax
            | sid :: nodes =>
                if negb (crnSiteRe sid) then Err ErrCRNSyntax
                else tail ← crn_tail_of nodes; Ok (mkCRN tid oid sid tail)
            end
      | _ => Err ErrCRNSyntax
      end.

Definition dotPath (c : crn) : string := crn_sid c +:+ dotted "." (crn_tail c).

Definition crn_String (c : crn) : string :=
  crnPrefix +:+ "tenant/" +:+ crn_tid c +:+ "/org/" +:+ crn_oid c +:+ "/site/" +:+
  crn_sid c +:+ dotted "/" (crn_tail c).

Definition legacyToCRN (dotGlob tokenTenant : string) : crn :=
  if str_eqb dotGlob EmptyString then mkCRN EmptyString EmptyString EmptyString []
  else
    match split "." dotGlob with
    | sid :: tail => mkCRN tokenTenant "default" sid tail
    | [] => mkCRN EmptyString EmptyString EmptyString []
    end.

(** ** Principals (auth.go) *)

Inductive Action : Type := ActionRead | ActionControlWrite | ActionApply.
Inductive Role : Type := RoleViewer | RoleOperator | RoleAdmin | RoleOther (name : string).
Inductive scopeOrigin : Type := originLegacy | originCRN.

#[export] Instance Action_eq_dec : EqDecision Action.
Proof. solve_decision. Defined.
#[export] Instance Role_eq_dec : EqDecision Role.
Proof. solve_decision. Defined.
#[export] Instance scopeOrigin_eq_dec : EqDecision scopeOrigin.
Proof. solve_decision. Defined.

Record scopeGlob : Type := mkScopeGlob {
  sg_exact : Glob; sg_subtree : Glob; sg_origin : scopeOrigin; sg_tid : string }.

(** [compiledScopes] is nil for a principal built by hand. *)
Record Principal : Type := mkPrincipal {
  p_Subject : string;
  p_Role : Role;
  p_Scopes : list string;
  p_compiled : option (list scopeGlob)
}.

Inductive scope_err : Type := SErrCRN | SErrGlob.

Definition compileScope (pattern : string) : result glob_err Glob := CompileGlob pattern.

(** One turn of the loop of [compilePrincipalScopes]. *)
Definition scope_parts (s : string) : result scope_err (string * scopeOrigin * string) :=
  if has_prefix s "crn:" then
    match ParseCRN s with
    | Err _ => Err SErrCRN
    | Ok c => Ok (dotPath c, originCRN, crn_tid c)
    end
  else
    let c := legacyToCRN s EmptyString in Ok (dotPath c, originLegacy, crn_tid c).

Definition compile_one (s : string) : result scope_err scopeGlob :=
  '(path, origin, tid) ← scope_parts s;
  match CompileGlob path with
  | Err _ => Err SErrGlob
  | Ok exact =>
      match CompileGlob (path +:+ ".**") with
      | Err _ => Err SErrGlob
      | Ok subtree => Ok (mkScopeGlob exact subtree origin tid)
      end
  end.

Fixpoint compile_scopes (ss : list string) : result scope_err (list scopeGlob) :=
  match ss with
  | [] => Ok []
  | s :: ss' => g ← compile_one s; gs ← compile_scopes ss'; Ok (g :: gs)
  end.

Definition compilePrincipalScopes (p : Principal) : result scope_err Principal :=
  gs ← compile_scopes (p_Scopes p);
  Ok (mkPrincipal (p_Subject p) (p_Role p) (p_Scopes p) (Some gs)).

(** ** Authorization (rbac.go) *)

(** Process state: the legacy-use counter, the patterns already warned about,
    and the closure flag. *)
Record meter : Type := mkMeter {
  m_uses : Z; m_warned : gset string; m_closed : bool }.

Inductive auth_err : Type := ErrForbidden.

Definition roleAllows (p : Principal) (action : Action) : result auth_err unit :=
  match p_Role p with
  | RoleAdmin => Ok tt
  | RoleOperator =>
      match action with ActionApply => Err ErrForbidden | _ => Ok tt end
  | RoleViewer =>
      match action with ActionRead => Ok tt | _ => Err ErrForbidden end
  | RoleOther _ => Err ErrForbidden
  end.

Definition warnLegacyScopeOnce (m : meter) (raw : string) : meter :=
  mkMeter (m_uses m) ({[raw]} ∪ m_warned m) (m_closed m).

Definition afterMatch (m : meter) (sg : scopeGlob) (p : Principal) (i : nat)
    (requestTenant : string) : meter * result auth_err unit :=
  if bool_decide (sg_origin sg = originCRN) && negb (str_eqb requestTenant EmptyString) &&
     negb (str_eqb (sg_tid sg) requestTenant)
  then (m, Err ErrForbidden)
  else if bool_decide (sg_origin sg = originLegacy) && m_closed m then (m, Err ErrForbidden)
  else if bool_decide (sg_origin sg = originLegacy) then
    let m1 := mkMeter (m_uses m + 1) (m_warned m) (m_closed m) in
    (match p_Scopes p !! i with Some raw => warnLegacyScopeOnce m1 raw | None => m1 end, Ok tt)
  else (m, Ok tt).

Definition scope_matches (sg : scopeGlob) (action : Action) (path : string) : bool :=
  Match (sg_exact sg) path ||
  match action with ActionRead => Match (sg_subtree sg) path | _ => false end.

(** The loop over the compiled scopes: the first one that matches decides. *)
Fixpoint scope_loop (m : meter) (scopes : list scopeGlob) (i : nat) (p : Principal)
    (action : Action) (path requestTenant : string) : meter * result auth_err unit :=
  match scopes with
  | [] => (m, Err ErrForbidden)
  | sg :: scopes' =>
      if scope_matches sg action path then afterMatch m sg p i requestTenant
      else scope_loop m scopes' (S i) p action path requestTenant
  end.

Definition authorizeTenant (m : meter) (p : Principal) (action : Action)
    (path requestTenant : string) : meter * result auth_err unit :=
  match roleAllows p action with
  | Err e => (m, Err e)
  | Ok _ =>
      if bool_decide (p_Role p = RoleAdmin) then (m, Ok tt)
      else
        match p_compiled p with
        | Some scopes => scope_loop m scopes 0 p action path requestTenant
        | None =>
            match compilePrincipalScopes p with
            | Err _ => (m, Err ErrForbidden)
            | Ok ready =>
                scope_loop m (default [] (p_compiled ready)) 0 p action path requestTenant
            end
        end
  end.

Definition authorize (m : meter) (p : Principal) (action : Action) (path : string) :
    meter * result auth_err unit := authorizeTenant m p action path EmptyString.

Lemma ParseCRN_ex : ParseCRN "crn:tenant/acme/org/emea/site/fra01/pod002.*/**" =
  Ok (mkCRN "acme" "emea" "fra01" ["pod002"; "*"; "**"]).
Proof. vm_compute. reflexivity. Qed.
Example ParseCRN_empty_piece : ParseCRN "crn:tenant/acme/org/emea/site/fra01/a..b" =
  Ok (mkCRN "acme" "emea" "fra01" ["a"; EmptyString; "b"]).
Proof. vm_compute. reflexivity. Qed.
Example ParseCRN_two_stars : is_ok (ParseCRN "crn:tenant/acme/org/emea/site/fra01/p*d*") = true.
Proof. vm_compute. reflexivity. Qed.

(** ** CRN round trips *)

Lemma crnValidPiece_byte_free c s :
  is_alnum c = false -> byte_eqb c "*" = false -> crnValidPiece s = true ->
  no_byte c s = true.
Proof.
  intros Hc Hs. unfold crnValidPiece, crnGlobSegRe.
  assert (all_bytes glob_byte s = true -> no_byte c s = true) as H1.
  { apply all_bytes_impl. intros d Hd. apply negb_true_iff, byte_eqb_neq. intros ->.
    unfold glob_byte in Hd. by rewrite Hc, Hs in Hd. }
  assert (all_bytes is_alnum s = true -> no_byte c s = true) as H2.
  { apply all_bytes_impl. intros d Hd. apply negb_true_iff, byte_eqb_neq. intros ->. congruence. }
  intros [[[H|H]%orb_true_iff|H]%orb_true_iff|H]%orb_true_iff.
  - apply str_eqb_eq in H as ->. unfold no_byte. cbn. by rewrite byte_eqb_sym, Hs.
  - apply str_eqb_eq in H as ->. unfold no_byte. cbn. by rewrite byte_eqb_sym, Hs.
  - auto.
  - apply andb_true_iff in H as [[H _]%andb_true_iff _]. auto.
Qed.

Lemma crnValidNode_pieces seg :
  crnValidNode seg = true -> Forall (fun x => crnValidPiece x = true) (split "." seg).
Proof.
  unfold crnValidNode. destruct (str_eqb seg EmptyString); [done|].
  destruct (str_eqb seg "*" || str_eqb seg "**") eqn:E.
  - intros _. apply orb_true_iff in E as [->%str_eqb_eq| ->%str_eqb_eq]; by repeat constructor.
  - intros H. apply Forall_forall. intros x Hx. rewrite forallb_forall in H. apply H.
    by apply list_elem_of_In.
Qed.

Lemma crn_tail_of_pieces nodes tail :
  crn_tail_of nodes = Ok tail -> Forall (fun x => crnValidPiece x = true) tail.
Proof.
  revert tail. induction nodes as [|seg nodes IH]; intros tail; cbn; [by intros [= <-]|].
  destruct (crnValidNode seg) eqn:E; [|done]. intros H. apply bind_Ok in H as (rest & Hr & [= <-]).
  apply Forall_app. split; [by apply crnValidNode_pieces|by apply IH].
Qed.

(** A piece that is not empty is a node of its own. *)
Lemma crnValidNode_piece x :
  x <> EmptyString -> crnValidPiece x = true -> crnValidNode x = true /\ split "." x = [x].
Proof.
  intros Hne H. assert (split "." x = [x]) as Hs
    by (apply split_no_sep, crnValidPiece_byte_free; done).
  split; [|done]. unfold crnValidNode. apply str_eqb_neq in Hne. rewrite Hne.
  destruct (str_eqb x "*" || str_eqb x "**"); [done|]. rewrite Hs. cbn. by rewrite H.
Qed.

Lemma crn_tail_of_tail tail :
  Forall (fun x => crnValidPiece x = true) tail -> Forall (fun x => x <> EmptyString) tail ->
  crn_tail_of tail = Ok tail.
Proof.
  induction 1 as [|x tail Hx _ IH]; intros Hne; inv Hne; cbn; [done|].
  destruct (crnValidNode_piece x) as [-> ->]; [done|done|]. by rewrite IH.
Qed.

Lemma crnIsTidOrOid_no_slash s : crnIsTidOrOid s = true -> no_byte "/" s = true.
Proof.
  unfold crnIsTidOrOid. intros [H|H]%orb_true_iff.
  - destruct s as [|c r]; [done|]. unfold crnIsGlobSeg in H.
    destruct (str_eqb (String c r) "*" || str_eqb (String c r) "**") eqn:E.
    { by apply orb_true_iff in E as [->%str_eqb_eq| ->%str_eqb_eq]. }
    destruct (negb (byte_eqb c "*") && negb (is_lower c) && negb (is_digit c)) eqn:Ec; [done|].
    destruct (contains "**" (String c r)); [done|]. unfold no_byte. cbn [all_bytes].
    apply andb_true_iff. split.
    + apply negb_true_iff, byte_eqb_neq. intros ->. done.
    + eapply all_bytes_impl; [|exact H]. intros d Hd. apply negb_true_iff, byte_eqb_neq.
      by intros ->.
  - destruct s as [|c r]; [done|]. unfold crnTidOidRe in H. bool_simpl. unfold no_byte.
    cbn [all_bytes]. apply andb_true_iff. split.
    + apply negb_true_iff, byte_eqb_neq. by intros ->.
    + eapply all_bytes_impl; [|exact H2]. intros d Hd. apply negb_true_iff, byte_eqb_neq.
      by intros ->.
Qed.

Lemma crnSiteRe_no_slash s : crnSiteRe s = true -> no_byte "/" s = true.
Proof.
  unfold crnSiteRe. intros H. bool_simpl. eapply all_bytes_impl; [|exact H0].
  intros d Hd. apply negb_true_iff, byte_eqb_neq. by intros ->.
Qed.

Definition crn_ok (c : crn) : Prop :=
  crnIsTidOrOid (crn_tid c) = true /\ crnIsTidOrOid (crn_oid c) = true /\
  crnSiteRe (crn_sid c) = true /\ Forall (fun x => crnValidPiece x = true) (crn_tail c).

Lemma ParseCRN_ok s c : ParseCRN s = Ok c -> crn_ok c.
Proof.
  unfold ParseCRN. destruct (has_prefix s crnPrefix); [|done]. cbn [negb].
  destruct (str_eqb _ EmptyString); [done|].
  destruct (split "/" _) as [|t [|tid [|o [|oid [|st sites]]]]]; try done.
  destruct (str_eqb t "tenant"); [|done]. destruct (str_eqb o "org"); [|done].
  destruct (str_eqb st "site"); [|done]. cbn [negb].
  destruct (crnIsTidOrOid tid) eqn:E1; [|done]. destruct (crnIsTidOrOid oid) eqn:E2; [|done].
  cbn [negb]. destruct sites as [|sid nodes]; [done|].
  destruct (crnSiteRe sid) eqn:E3; [|done]. cbn [negb]. intros H.
  apply bind_Ok in H as (tail & Ht & [= <-]). unfold crn_ok; cbn.
  by apply crn_tail_of_pieces in Ht.
Qed.

Lemma join_dotted_head sep x y ys :
  join sep (x :: y :: ys) = x +:+ String sep (join sep (y :: ys)).
Proof. by rewrite join_cons. Qed.

Lemma crn_String_join c :
  crn_String c = crnPrefix +:+
    join "/" ("tenant" :: crn_tid c :: "org" :: crn_oid c :: "site" :: crn_sid c :: crn_tail c).
Proof.
  unfold crn_String. f_equal. rewrite !join_dotted_head, join_dotted.
  rewrite !str_app_assoc. by rewrite <- !str_app_assoc.
Qed.

Lemma ParseCRN_String c :
  crn_ok c -> Forall (fun x => x <> EmptyString) (crn_tail c) -> ParseCRN (crn_String c) = Ok c.
Proof.
  intros (Ht & Ho & Hs & Hp) Hne. unfold ParseCRN. rewrite crn_String_join.
  set (body := join "/" _).
  rewrite has_prefix_app, trim_prefix_app.
  cbn [negb]. destruct (str_eqb body EmptyString) eqn:E; [by apply str_eqb_eq in E|].
  unfold body. rewrite split_join; [|done|].
  2: { repeat constructor; try done; auto using crnIsTidOrOid_no_slash, crnSiteRe_no_slash.
       eapply Forall_impl; [exact Hp|]. intros x Hx. by apply crnValidPiece_byte_free. }
  cbn [str_eqb]. rewrite !str_eqb_refl. cbn [negb]. rewrite Ht, Ho, Hs. cbn [negb].
  rewrite crn_tail_of_tail by done. by destruct c.
Qed.

Lemma legacy_dotPath s t : s <> EmptyString -> dotPath (legacyToCRN s t) = s.
Proof.
  intros Hne. unfold legacyToCRN. apply str_eqb_neq in Hne. rewrite Hne.
  pose proof (join_split "." s) as Hj. destruct (split "." s) as [|sid tail] eqn:E;
    [by apply split_not_nil in E|]. by rewrite join_dotted in Hj.
Qed.

(** ** The authorization decision *)

(** What a raw scope grants: its pattern matches the whole path or, for a read,
    some leading run of its segments. *)
Definition grants (s : string) (action : Action) (path : string) : Prop :=
  exists base origin tid g,
    scope_parts s = Ok (base, origin, tid) /\ CompileGlob base = Ok g /\ valid_path path /\
    match action with
    | ActionRead => exists n, segs_den (g_segs g) (take n (split "." path))
    | _ => segs_den (g_segs g) (split "." path)
    end.

Lemma compile_one_inv s sg :
  compile_one s = Ok sg ->
  exists base, scope_parts s = Ok (base, sg_origin sg, sg_tid sg) /\
    CompileGlob base = Ok (sg_exact sg) /\ CompileGlob (base +:+ ".**") = Ok (sg_subtree sg).
Proof.
  unfold compile_one. intros H. apply bind_Ok in H as ([[base origin] tid] & Hp & H).
  destruct (CompileGlob base) as [g|] eqn:E1; [|done].
  destruct (CompileGlob (base +:+ ".**")) as [g'|] eqn:E2; [|done].
  injection H as <-. by exists base.
Qed.

Lemma scope_matches_grants s sg action path :
  compile_one s = Ok sg -> scope_matches sg action path = true <-> grants s action path.
Proof.
  intros (base & Hp & He & Hs)%compile_one_inv. unfold scope_matches, grants.
  pose proof (Match_den _ _ path He) as H1. pose proof (Match_subtree _ _ _ path He Hs) as H2.
  rewrite orb_true_iff, H1. split.
  - intros Hm. exists base, (sg_origin sg), (sg_tid sg), (sg_exact sg).
    split; [done|]. split; [done|]. destruct action.
    + destruct Hm as [[? Hd]|[? Hd]%H2]; [|done]. split; [done|].
      exists (length (split "." path)). by rewrite take_ge.
    + destruct Hm as [?|?]; done.
    + destruct Hm as [?|?]; done.
  - intros (base' & o & t & g & Hp' & Hg & Hv & Hd). rewrite Hp in Hp'. simplify_eq.
    assert (g = sg_exact sg) as -> by congruence.
    destruct action; [right; by apply H2|by left|by left].
Qed.

Lemma compile_scopes_lookup ss gs i sg :
  compile_scopes ss = Ok gs -> gs !! i = Some sg ->
  exists s, ss !! i = Some s /\ compile_one s = Ok sg.
Proof.
  revert gs i. induction ss as [|s ss IH]; intros gs i; cbn; [by intros [= <-]|].
  intros H. apply bind_Ok in H as (g & Hg & H). apply bind_Ok in H as (gs' & Hgs & [= <-]).
  destruct i as [|i]; cbn; [intros [= <-]; eauto|]. by apply IH.
Qed.

Lemma compile_scopes_elem ss gs s :
  compile_scopes ss = Ok gs -> s ∈ ss -> exists sg, sg ∈ gs /\ compile_one s = Ok sg.
Proof.
  revert gs. induction ss as [|s' ss IH]; intros gs; cbn; [intros _ H; inv H|].
  intros H Hin. apply bind_Ok in H as (g & Hg & H). apply bind_Ok in H as (gs' & Hgs & [= <-]).
  apply elem_of_cons in Hin as [->|Hin]; [exists g; split; [by left|done]|].
  destruct (IH _ Hgs Hin) as (sg & ? & ?). exists sg. split; [by right|done].
Qed.

(** The tenant and closure conditions of [afterMatch]. *)
Definition tenant_ok (m : meter) (sg : scopeGlob) (requestTenant : string) : Prop :=
  match sg_origin sg with
  | originCRN => requestTenant = EmptyString \/ sg_tid sg = requestTenant
  | originLegacy => m_closed m = false
  end.

Lemma afterMatch_ok m sg p i t :
  (afterMatch m sg p i t).2 = Ok tt <-> tenant_ok m sg t.
Proof.
  unfold afterMatch, tenant_ok. destruct (sg_origin sg).
  - rewrite bool_decide_eq_false_2 by done. cbn [andb].
    rewrite bool_decide_eq_true_2 by done. cbn [andb].
    by destruct (m_closed m).
  - rewrite bool_decide_eq_true_2 by done. rewrite bool_decide_eq_false_2 by done. cbn [andb].
    destruct (str_eqb t EmptyString) eqn:E1; cbn [negb andb].
    { apply str_eqb_eq in E1. intuition. }
    destruct (str_eqb (sg_tid sg) t) eqn:E2; cbn.
    + apply str_eqb_eq in E2. intuition.
    + apply str_eqb_neq in E1, E2. split; [done|]. by intros [?|?].
Qed.

(** The first scope that matches, and only that one, decides. *)
Lemma scope_loop_ok m scopes i p a path t :
  (scope_loop m scopes i p a path t).2 = Ok tt <->
  exists k sg, scopes !! k = Some sg /\ scope_matches sg a path = true /\
    (forall j sg', j < k -> scopes !! j = Some sg' -> scope_matches sg' a path = false) /\
    tenant_ok m sg t.
Proof.
  revert i. induction scopes as [|sg scopes IH]; intros i; cbn.
  - split; [done|]. by intros (k & sg & H & _).
  - destruct (scope_matches sg a path) eqn:E.
    + rewrite afterMatch_ok. split.
      * intros Ht. exists 0, sg. repeat split; try done. intros j sg' Hj. lia.
      * intros ([|k] & sg' & Hk & Hm & Hf & Ht); [by injection Hk as ->|].
        pose proof (Hf 0 sg ltac:(lia) eq_refl). congruence.
    + rewrite IH. split.
      * intros (k & sg' & Hk & Hm & Hf & Ht). exists (S k), sg'.
        repeat split; try done. intros [|j] sg'' Hj; cbn; [by intros [= <-]|].
        apply Hf. lia.
      * intros ([|k] & sg' & Hk & Hm & Hf & Ht); [injection Hk as ->; congruence|].
        exists k, sg'. repeat split; try done. intros j sg'' Hj Hl.
        by apply (Hf (S j) sg''); [lia|].
Qed.

Lemma authorizeTenant_loop m p scopes a path t :
  p_compiled p = Some scopes ->
  (authorizeTenant m p a path t).2 = Ok tt <->
  roleAllows p a = Ok tt /\
  (p_Role p = RoleAdmin \/ (scope_loop m scopes 0 p a path t).2 = Ok tt).
Proof.
  intros Hc. unfold authorizeTenant. destruct (roleAllows p a) as [[]|e]; cbn.
  2: { split; [done|]. by intros [? _]. }
  case_bool_decide as Hr; [split; [by auto|done]|]. rewrite Hc.
  split; [by auto|]. by intros [_ [?|?]].
Qed.

Lemma scope_loop_open m scopes i p a path :
  m_closed m = false ->
  (scope_loop m scopes i p a path EmptyString).2 = Ok tt <->
  Exists (fun sg => scope_matches sg a path = true) scopes.
Proof.
  intros Hm. revert i. induction scopes as [|sg scopes IH]; intros i; cbn.
  - rewrite Exists_nil. done.
  - rewrite Exists_cons, <- (IH (S i)). destruct (scope_matches sg a path).
    + rewrite afterMatch_ok. unfold tenant_ok. destruct (sg_origin sg); intuition.
    + intuition congruence.
Qed.

(** Without a request tenant and with the legacy grammar open. *)
Lemma authorize_allowed p p' m a path :
  compilePrincipalScopes p = Ok p' -> m_closed m = false ->
  (authorize m p' a path).2 = Ok tt <->
  roleAllows p a = Ok tt /\
  (p_Role p = RoleAdmin \/ exists s, s ∈ p_Scopes p /\ grants s a path).
Proof.
  unfold compilePrincipalScopes. intros H Hm. apply bind_Ok in H as (gs & Hgs & [= <-]).
  unfold authorize. rewrite (authorizeTenant_loop _ _ gs) by done.
  rewrite (scope_loop_open m gs) by done. apply and_iff_compat_l, or_iff_compat_l.
  rewrite Exists_exists. split.
  - intros (sg & Hin & Hmt). apply list_elem_of_lookup in Hin as [i Hi].
    destruct (compile_scopes_lookup _ _ _ _ Hgs Hi) as (s & Hs & Hc).
    exists s. split; [by eapply list_elem_of_lookup_2|]. by eapply scope_matches_grants.
  - intros (s & Hin & Hg). destruct (compile_scopes_elem _ _ _ Hgs Hin) as (sg & ? & Hc).
    exists sg. split; [done|]. by eapply scope_matches_grants.
Qed.

(** C7: without a request tenant and with the legacy grammar open, a principal
    whose scopes compile is allowed exactly when the role permits the action
    and the role is admin or some scope grants it: a read needs the pattern to
    match a leading run of the path's segments (read implies subtree), a write
    needs it to match the whole path. *)
Theorem authorize_iff p p' m a path :
  compilePrincipalScopes p = Ok p' -> m_closed m = false ->
  (authorize m p' a path).2 = Ok tt <->
  roleAllows p a = Ok tt /\
  (p_Role p = RoleAdmin \/ exists s, s ∈ p_Scopes p /\ grants s a path).
Proof. apply authorize_allowed. Qed.

(** With a request tenant, the first scope that matches the path decides
    alone: a non-admin is allowed exactly when that scope is a CRN scope of the
    same tenant (or no tenant is attached), or a legacy scope while the legacy
    grammar is open; a later scope that would allow is not consulted. *)
Lemma authorizeTenant_first_match m p scopes a path t :
  p_compiled p = Some scopes -> p_Role p <> RoleAdmin ->
  (authorizeTenant m p a path t).2 = Ok tt <->
  roleAllows p a = Ok tt /\
  exists k sg, scopes !! k = Some sg /\ scope_matches sg a path = true /\
    (forall j sg', j < k -> scopes !! j = Some sg' -> scope_matches sg' a path = false) /\
    tenant_ok m sg t.
Proof.
  intros Hc Hr. rewrite (authorizeTenant_loop _ _ scopes) by done.
  rewrite scope_loop_ok. intuition.
Qed.

(** A parsed CRN whose tail has no empty piece renders to a string that
    parses back to it, and a legacy dot glob keeps its path: the site and tail
    of its CRN render to the glob itself. *)
Lemma CRN_roundtrip s c d t :
  ParseCRN s = Ok c -> Forall (fun x => x <> EmptyString) (crn_tail c) -> d <> EmptyString ->
  ParseCRN (crn_String c) = Ok c /\ dotPath (legacyToCRN d t) = d.
Proof.
  intros Hc Hne Hd. split; [|by apply legacy_dotPath].
  apply ParseCRN_String; [by eapply ParseCRN_ok|done].
Qed.

(** ** Concrete principals *)

Definition demo_principal : Principal :=
  mkPrincipal "svc:demo" RoleOperator
    ["crn:tenant/acme/org/emea/site/fra01/pod002"; "crn:tenant/beta/org/emea/site/fra01/**"] None.

Definition demo_compiled : Principal :=
  match compilePrincipalScopes demo_principal with Ok p => p | Err _ => demo_principal end.

Lemma demo_compiled_ok : compilePrincipalScopes demo_principal = Ok demo_compiled.
Proof. vm_compute. reflexivity. Defined.

Definition open_meter : meter := mkMeter 0 ∅ false.

Example demo_read : (authorize open_meter demo_compiled ActionRead "fra01.pod002.cdu000").2 = Ok tt.
Proof. vm_compute. reflexivity. Qed.

(** The second scope belongs to the request tenant, the first matches first. *)
Example demo_first_match_denies :
  (authorizeTenant open_meter demo_compiled ActionRead "fra01.pod002.cdu000" "beta").2
    = Err ErrForbidden /\
  (authorizeTenant open_meter demo_compiled ActionRead "fra01.pod003" "beta").2 = Ok tt.
Proof. split; vm_compute; reflexivity. Qed.

Lemma authorize_iff_witness :
  exists s, s ∈ p_Scopes demo_principal /\ grants s ActionRead "fra01.pod002.cdu000".
Proof.
  destruct (proj1 (authorize_iff demo_principal demo_compiled open_meter ActionRead
    "fra01.pod002.cdu000" demo_compiled_ok eq_refl)) as [_ [H|H]].
  - vm_compute. reflexivity.
  - discriminate H.
  - exact H.
Defined.

Lemma authorizeTenant_first_match_witness :
  exists k sg, default [] (p_compiled demo_compiled) !! k = Some sg /\
    scope_matches sg ActionRead "fra01.pod003" = true.
Proof.
  destruct (proj1 (authorizeTenant_first_match open_meter demo_compiled
    (default [] (p_compiled demo_compiled)) ActionRead "fra01.pod003" "beta" eq_refl
    ltac:(discriminate))) as [_ (k & sg & H1 & H2 & _)].
  - vm_compute. reflexivity.
  - exists k, sg. split; [exact H1|exact H2].
Defined.

Lemma CRN_roundtrip_witness :
  ParseCRN (crn_String (mkCRN "acme" "emea" "fra01" ["pod002"; "*"; "**"])) =
  Ok (mkCRN "acme" "emea" "fra01" ["pod002"; "*"; "**"]).
Proof.
  apply (CRN_roundtrip "crn:tenant/acme/org/emea/site/fra01/pod002.*/**" _ "a" "t").
  - exact ParseCRN_ex.
  - repeat constructor; discriminate.
  - discriminate.
Defined.
