(* ===== verification/WAL.v ===== *)
(** * The write-ahead log (pkg/wal/wal.go)

    A file of length-prefixed compressed frames: opening with recovery of a
    torn tail, appending with rollback, replaying with truncation.  The
    specification is a queue of payloads; the file operations implement it, and
    a crash in the middle of a write loses at most the frame being written.

    The compressor of [compress/gzip] is a parameter with its round-trip law.
    Every operation seeks before it reads or writes, so the file offset is not
    part of the state. *)
From S2P Require Import Prelude.
Open Scope list_scope.

(** A byte is a [Z] in [0, 256). *)
Abbreviation bytes := (list Z).

Record wal : Type := mkWAL { w_file : bytes; w_cachedLen : Z; w_maxSize : Z }.

Definition MaxSize : Z := 2 ^ 30.

Inductive wal_err : Type :=
  | ErrWALFull | EWriteHeader | EWritePayload | ESync
  | EReadHeader | EFrameTooLong | EReadPayload | EGunzip.

Definition size (w : wal) : Z := Z.of_nat (length (w_file w)).
Definition Size (w : wal) : Z := size w.
Definition Len (w : wal) : Z := w_cachedLen w.

(** [binary.BigEndian.PutUint32] and [Uint32]. *)
Definition put_uint32 (n : Z) : bytes :=
  [ Z.shiftr n 24 mod 256; Z.shiftr n 16 mod 256; Z.shiftr n 8 mod 256; n mod 256 ]%Z.
Definition get_uint32 (a b c d : Z) : Z := (a * 2 ^ 24 + b * 2 ^ 16 + c * 2 ^ 8 + d)%Z.

(** ** Opening *)

(** The loop of [recoverTail]: the length of the complete frames, and their
    number. *)
Fixpoint recover_scan (fuel : nat) (maxSize : Z) (rest : bytes) (off : nat) (cnt : Z) :
    nat * Z :=
  match fuel with
  | O => (off, cnt)
  | S fuel' =>
      match rest with
      | a :: b :: c :: d :: rest' =>
          let n := get_uint32 a b c d in
          if (n <? 0)%Z || (maxSize <? n)%Z then (off, cnt)
          else if (Z.of_nat (length rest') <? n)%Z then (off, cnt)
          else recover_scan fuel' maxSize (drop (Z.to_nat n) rest') (off + 4 + Z.to_nat n) (cnt + 1)
      | _ => (off, cnt)
      end
  end.

Definition recoverTail (file : bytes) (maxSize : Z) : wal :=
  let '(off, cnt) := recover_scan (S (length file)) maxSize file 0 0 in
  mkWAL (take off file) cnt maxSize.

Definition OpenWithMaxSize (file : bytes) (maxBytes : Z) : wal :=
  recoverTail file (if (maxBytes <=? 0)%Z then MaxSize else maxBytes).

Definition Open (file : bytes) : wal := OpenWithMaxSize file MaxSize.

(** ** Writing

    What the file system answers: a failing write leaves the first [k] bytes it
    was given; [rb] says whether the rollback's [Truncate] succeeds. *)
Inductive write_io : Type :=
  | IoOk
  | IoHeaderFails (k : nat) (rb : bool)
  | IoPayloadFails (k : nat) (rb : bool)
  | IoSyncFails (rb : bool).

Definition with_file (w : wal) (f : bytes) (n : Z) : wal := mkWAL f n (w_maxSize w).

Definition rollback (w : wal) (written : bytes) (rb : bool) : wal :=
  if rb then w else with_file w (w_file w ++ written) (w_cachedLen w).

Section gzip.
Context (gzipFrame : bytes -> bytes) (gunzipFrame : bytes -> option bytes).

Definition Write (w : wal) (frame : bytes) (io : write_io) : wal * result wal_err unit :=
  let comp := gzipFrame frame in
  let need := (4 + Z.of_nat (length comp))%Z in
  if (w_maxSize w <? size w + need)%Z then (w, Err ErrWALFull)
  else
    let hdr := put_uint32 (Z.of_nat (length comp) mod 2 ^ 32) in
    match io with
    | IoHeaderFails k rb => (rollback w (take k hdr) rb, Err EWriteHeader)
    | IoPayloadFails k rb => (rollback w (hdr ++ take k comp) rb, Err EWritePayload)
    | IoSyncFails rb => (rollback w (hdr ++ comp) rb, Err ESync)
    | IoOk => (with_file w (w_file w ++ hdr ++ comp) (w_cachedLen w + 1), Ok tt)
    end.

(** ** Replaying

    The callback threads a state of its own; its failure stops the walk. *)
Section replay.
Context {St Er : Type} (fn : St -> bytes -> St * option Er).

Fixpoint replay_loop (fuel : nat) (maxSize : Z) (rest : bytes) (st : St) :
    St * result (wal_err + Er) unit :=
  match fuel with
  | O => (st, Ok tt)
  | S fuel' =>
      match rest with
      | [] => (st, Ok tt)
      | a :: b :: c :: d :: rest' =>
          let n := get_uint32 a b c d in
          if (maxSize <? n)%Z then (st, Err (inl EFrameTooLong))
          else if (Z.of_nat (length rest') <? n)%Z then (st, Err (inl EReadPayload))
          else
            match gunzipFrame (take (Z.to_nat n) rest') with
            | None => (st, Err (inl EGunzip))
            | Some raw =>
                match fn st raw with
                | (st', Some e) => (st', Err (inr e))
                | (st', None) => replay_loop fuel' maxSize (drop (Z.to_nat n) rest') st'
                end
            end
      | _ => (st, Err (inl EReadHeader))
      end
  end.

Definition Replay (w : wal) (st : St) : wal * St * result (wal_err + Er) unit :=
  match replay_loop (S (length (w_file w))) (w_maxSize w) (w_file w) st with
  | (st', Ok _) => (with_file w [] 0, st', Ok tt)
  | (st', Err e) => (w, st', Err e)
  end.

End replay.

(** ** The queue of payloads *)

Definition frame_bytes (payload : bytes) : bytes :=
  put_uint32 (Z.of_nat (length (gzipFrame payload))) ++ gzipFrame payload.

Definition encode (q : list bytes) : bytes := concat (map frame_bytes q).

Definition fits (maxSize : Z) (payload : bytes) : Prop :=
  (Z.of_nat (length (gzipFrame payload)) <= maxSize)%Z.

(** The file holds exactly the frames of the queue. *)
Definition represents (w : wal) (q : list bytes) : Prop :=
  w_file w = encode q /\ w_cachedLen w = Z.of_nat (length q) /\
  Forall (fits (w_maxSize w)) q /\ (0 < w_maxSize w < 2 ^ 32)%Z.

Lemma get_put_uint32 n :
  (0 <= n < 2 ^ 32)%Z ->
  get_uint32 (Z.shiftr n 24 mod 256) (Z.shiftr n 16 mod 256) (Z.shiftr n 8 mod 256) (n mod 256) = n.
Proof.
  intros Hn. unfold get_uint32. rewrite !Z.shiftr_div_pow2 by lia.
  change (2 ^ 24)%Z with 16777216%Z. change (2 ^ 16)%Z with 65536%Z.
  change (2 ^ 8)%Z with 256%Z. change (2 ^ 32)%Z with 4294967296%Z in Hn.
  rewrite (Z.mod_small (n / 16777216) 256)
    by (split; [apply Z.div_pos; lia|apply Z.div_lt_upper_bound; lia]).
  replace (n / 16777216)%Z with (n / 256 / 256 / 256)%Z by (rewrite !Z.div_div by lia; done).
  replace (n / 65536)%Z with (n / 256 / 256)%Z by (rewrite !Z.div_div by lia; done).
  pose proof (Z.div_mod n 256 ltac:(lia)). pose proof (Z.div_mod (n / 256) 256 ltac:(lia)).
  pose proof (Z.div_mod (n / 256 / 256) 256 ltac:(lia)). lia.
Qed.

Lemma encode_cons p q : encode (p :: q) = frame_bytes p ++ encode q.
Proof. done. Qed.

Lemma encode_app q q' : encode (q ++ q') = encode q ++ encode q'.
Proof. unfold encode. by rewrite map_app, concat_app. Qed.

Lemma frame_len p : length (frame_bytes p) = 4 + length (gzipFrame p).
Proof. unfold frame_bytes. by rewrite length_app. Qed.

Lemma fits_uint32 maxSize p :
  (maxSize < 2 ^ 32)%Z -> fits maxSize p ->
  (0 <= Z.of_nat (length (gzipFrame p)) < 2 ^ 32)%Z.
Proof. unfold fits. lia. Qed.

(** The scan over a complete frame. *)
Lemma recover_scan_frame fuel maxSize p rest off cnt :
  (maxSize < 2 ^ 32)%Z -> fits maxSize p ->
  recover_scan (S fuel) maxSize (frame_bytes p ++ rest) off cnt =
  recover_scan fuel maxSize rest (off + length (frame_bytes p)) (cnt + 1).
Proof.
  intros Hm Hf. pose proof (fits_uint32 _ _ Hm Hf) as Hn. rewrite frame_len.
  unfold frame_bytes, put_uint32. cbn [app recover_scan]. rewrite get_put_uint32 by done.
  unfold fits in Hf.
  destruct (Z.ltb_spec (Z.of_nat (length (gzipFrame p))) 0); [lia|].
  destruct (Z.ltb_spec maxSize (Z.of_nat (length (gzipFrame p)))); [lia|]. cbn [orb].
  rewrite length_app.
  destruct (Z.ltb_spec (Z.of_nat (length (gzipFrame p) + length rest))
    (Z.of_nat (length (gzipFrame p)))); [lia|].
  rewrite Nat2Z.id, drop_app_length. f_equal. lia.
Qed.

(** A strict prefix of a frame holds no complete frame. *)
Lemma recover_scan_torn fuel maxSize p k off cnt :
  (maxSize < 2 ^ 32)%Z -> fits maxSize p -> k < length (frame_bytes p) ->
  recover_scan fuel maxSize (take k (frame_bytes p)) off cnt = (off, cnt).
Proof.
  intros Hm Hf Hk. pose proof (fits_uint32 _ _ Hm Hf) as Hn.
  destruct fuel as [|fuel]; [done|]. rewrite frame_len in Hk.
  unfold frame_bytes, put_uint32. destruct k as [|[|[|[|k]]]]; cbn [app take recover_scan]; try done.
  rewrite get_put_uint32 by done. destruct (_ || _); [done|].
  rewrite length_take.
  destruct (Z.ltb_spec (Z.of_nat (k `min` length (gzipFrame p)))
    (Z.of_nat (length (gzipFrame p)))); [done|lia].
Qed.

Lemma recover_scan_encode fuel maxSize q rest off cnt :
  (maxSize < 2 ^ 32)%Z -> Forall (fits maxSize) q -> length q <= fuel ->
  recover_scan fuel maxSize (encode q ++ rest) off cnt =
  recover_scan (fuel - length q) maxSize rest (off + length (encode q))
    (cnt + Z.of_nat (length q)).
Proof.
  intros Hm Hq. revert fuel off cnt. induction Hq as [|p q Hp Hq IH]; intros fuel off cnt Hf.
  - cbn [length encode map concat app]. f_equal; lia.
  - cbn [length] in Hf. destruct fuel as [|fuel]; [lia|].
    rewrite encode_cons, <- app_assoc, recover_scan_frame by done. rewrite IH by lia.
    rewrite length_app. cbn [length]. f_equal; lia.
Qed.

Lemma length_encode_ge q : length q <= length (encode q).
Proof.
  induction q as [|p q IH]; [cbn; lia|]. rewrite encode_cons, length_app, frame_len. cbn. lia.
Qed.

Lemma recoverTail_torn maxSize q p k :
  (0 < maxSize < 2 ^ 32)%Z -> Forall (fits maxSize) q -> fits maxSize p ->
  k < length (frame_bytes p) ->
  represents (recoverTail (encode q ++ take k (frame_bytes p)) maxSize) q.
Proof.
  intros Hm Hq Hp Hk. unfold recoverTail.
  rewrite recover_scan_encode; [|lia|done|].
  2: { rewrite length_app. pose proof (length_encode_ge q). lia. }
  rewrite recover_scan_torn by (lia || done).
  unfold represents; cbn. rewrite take_app_length. done.
Qed.

Lemma recoverTail_encode maxSize q :
  (0 < maxSize < 2 ^ 32)%Z -> Forall (fits maxSize) q ->
  represents (recoverTail (encode q) maxSize) q.
Proof.
  intros Hm Hq. unfold recoverTail.
  replace (encode q) with (encode q ++ []) at 2 by apply app_nil_r.
  pose proof (length_encode_ge q).
  rewrite recover_scan_encode by (lia || done).
  replace (S (length (encode q)) - length q) with (S (length (encode q) - length q)) by lia.
  cbn [recover_scan]. unfold represents; cbn. by rewrite firstn_all.
Qed.

(** A frame that fits under the cap with its header. *)
Lemma need_fits w p :
  ((w_maxSize w <? size w + (4 + Z.of_nat (length (gzipFrame p)))) = false)%Z ->
  fits (w_maxSize w) p.
Proof. intros H%Z.ltb_ge. unfold fits, size in *. lia. Qed.

Lemma hdr_mod w p :
  (w_maxSize w < 2 ^ 32)%Z -> fits (w_maxSize w) p ->
  put_uint32 (Z.of_nat (length (gzipFrame p)) mod 2 ^ 32) =
  put_uint32 (Z.of_nat (length (gzipFrame p))).
Proof. intros Hm Hf. rewrite Z.mod_small; [done|]. by apply (fits_uint32 (w_maxSize w)). Qed.

Lemma represents_push w q p :
  represents w q -> fits (w_maxSize w) p ->
  represents (with_file w (w_file w ++ frame_bytes p) (w_cachedLen w + 1)) (q ++ [p]).
Proof.
  intros (Hf & Hc & Hq & Hm) Hp. unfold represents, with_file; cbn.
  rewrite encode_app, Hf, Hc, length_app. cbn. rewrite app_nil_r.
  split; [done|]. split; [lia|]. split; [|done]. apply Forall_app. split; [done|by constructor].
Qed.

Definition io_rolled_back (io : write_io) : bool :=
  match io with
  | IoOk => true
  | IoHeaderFails _ rb | IoPayloadFails _ rb | IoSyncFails rb => rb
  end.

(** The delivery of a queue: in order, up to the first failing callback. *)
Fixpoint deliver {St Er} (fn : St -> bytes -> St * option Er) (st : St) (q : list bytes) :
    St * option Er :=
  match q with
  | [] => (st, None)
  | p :: q' =>
      match fn st p with
      | (st', Some e) => (st', Some e)
      | (st', None) => deliver fn st' q'
      end
  end.

Lemma take_app_plus {A} (l m : list A) n : take (length l + n) (l ++ m) = l ++ take n m.
Proof. rewrite take_app. rewrite take_ge by lia. f_equal. f_equal. lia. Qed.

Context (gunzip_gzip : forall p, gunzipFrame (gzipFrame p) = Some p).

Lemma replay_loop_encode {St Er} (fn : St -> bytes -> St * option Er) fuel maxSize q st :
  (maxSize < 2 ^ 32)%Z -> Forall (fits maxSize) q -> length q < fuel ->
  replay_loop fn fuel maxSize (encode q) st =
  match deliver fn st q with
  | (st', None) => (st', Ok tt)
  | (st', Some e) => (st', Err (inr e))
  end.
Proof using gunzip_gzip.
  intros Hm Hq. revert fuel st. induction Hq as [|p q Hp Hq IH]; intros fuel st Hf;
    (destruct fuel as [|fuel]; [cbn in Hf; lia|]); [done|].
  pose proof (fits_uint32 _ _ Hm Hp) as Hn. rewrite encode_cons.
  unfold frame_bytes, put_uint32. cbn [app replay_loop deliver].
  rewrite get_put_uint32 by done. unfold fits in Hp.
  destruct (Z.ltb_spec maxSize (Z.of_nat (length (gzipFrame p)))); [lia|].
  rewrite length_app.
  destruct (Z.ltb_spec (Z.of_nat (length (gzipFrame p) + length (encode q)))
    (Z.of_nat (length (gzipFrame p)))); [lia|].
  rewrite Nat2Z.id, take_app_length, drop_app_length, gunzip_gzip.
  destruct (fn st p) as [st' [e|]]; [done|]. apply IH. cbn in Hf. lia.
Qed.

Lemma Replay_deliver {St Er} (fn : St -> bytes -> St * option Er) w q st :
  represents w q ->
  Replay fn w st =
  match deliver fn st q with
  | (st', None) => (with_file w [] 0, st', Ok tt)
  | (st', Some e) => (w, st', Err (inr e))
  end.
Proof using gunzip_gzip.
  intros (Hf & _ & Hq & Hm). unfold Replay. rewrite Hf.
  pose proof (length_encode_ge q).
  rewrite replay_loop_encode by (lia || done). by destruct (deliver fn st q) as [st' [e|]].
Qed.

Lemma Write_queue w q p io :
  represents w q -> io_rolled_back io = true ->
  let '(w', r) := Write w p io in
  match r with
  | Ok _ => represents w' (q ++ [p]) /\ (size w' <= w_maxSize w)%Z /\ io = IoOk
  | Err ErrWALFull =>
      w' = w /\ (w_maxSize w < size w + 4 + Z.of_nat (length (gzipFrame p)))%Z
  | Err _ => w' = w /\ io <> IoOk
  end.
Proof.
  intros Hw Hrb. pose proof Hw as (Hf & Hc & Hq & Hm). unfold Write.
  destruct (w_maxSize w <? _)%Z eqn:E.
  - split; [done|]. apply Z.ltb_lt in E. lia.
  - pose proof (need_fits w p E) as Hp. apply Z.ltb_ge in E.
    rewrite (hdr_mod w p) by (done || lia). fold (frame_bytes p).
    destruct io as [|k rb|k rb|rb]; cbn in Hrb; subst; cbn.
    + split; [by apply represents_push|]. split; [|done]. unfold size in *. cbn.
      rewrite length_app. cbn [length]. lia.
    + by split.
    + by split.
    + by split.
Qed.


(** Replaying a log that represents a queue delivers exactly its payloads,
    in order and each once, up to the first callback that fails; when all
    succeed the log is emptied, otherwise it is left as it was and the error is
    the callback's. *)
Lemma Replay_refines {St Er} (fn : St -> bytes -> St * option Er) w q st :
  represents w q ->
  let '(w', st', r) := Replay fn w st in
  match deliver fn st q with
  | (st1, None) => st' = st1 /\ r = Ok tt /\ represents w' [] /\ Len w' = 0%Z
  | (st1, Some e) => st' = st1 /\ r = Err (inr e) /\ w' = w
  end.
Proof using gunzip_gzip.
  intros Hw. rewrite (Replay_deliver fn w q st Hw).
  destruct (deliver fn st q) as [st1 [e|]]; [done|]. destruct Hw as (_ & _ & _ & Hm).
  split; [done|]. split; [done|]. split; [|done]. repeat split; (done || cbn; lia).
Qed.

(** C9: crash safety. If the process dies after any number [k] of the bytes of
    a frame have reached the file, reopening recovers every payload written
    before and loses at most the one being written (it keeps it when its last
    byte is there), and the recovered log replays. *)
Theorem reopen_after_crash w q p k :
  represents w q -> fits (w_maxSize w) p -> k <= length (frame_bytes p) ->
  let w' := OpenWithMaxSize (w_file w ++ take k (frame_bytes p)) (w_maxSize w) in
  let q' := if decide (k = length (frame_bytes p)) then q ++ [p] else q in
  represents w' q' /\ Len w' = Z.of_nat (length q') /\
  (Replay (fun st x => (st ++ [x], @None unit)) w' []).1.2 = q'.
Proof using gunzip_gzip.
  intros (Hf & Hc & Hq & Hm) Hp Hk. cbv zeta.
  set (w' := OpenWithMaxSize _ _). set (q' := if decide _ then _ else _).
  assert (represents w' q') as Hw'.
  { unfold w', q', OpenWithMaxSize. destruct (Z.leb_spec (w_maxSize w) 0); [lia|].
    rewrite Hf. destruct (decide (k = length (frame_bytes p))) as [->|Hne].
    - rewrite take_ge by done.
      replace (encode q ++ frame_bytes p) with (encode (q ++ [p]))
        by (rewrite encode_app; cbn; by rewrite app_nil_r).
      apply recoverTail_encode; [done|]. apply Forall_app. split; [done|by constructor].
    - apply recoverTail_torn; (done || lia). }
  split; [done|]. split; [apply Hw'|].
  rewrite (Replay_deliver _ w' q' [] Hw').
  assert (forall l st, deliver (fun st x => (st ++ [x], @None unit)) st l = (st ++ l, None)) as Hd.
  { induction l as [|x l IH]; intros st; cbn; [by rewrite app_nil_r|].
    by rewrite IH, <- app_assoc. }
  by rewrite Hd.
Qed.

End gzip.

(** ** A concrete log

    A stand-in compressor: one marker byte in front of the payload. *)

Definition demo_gzip (p : bytes) : bytes := 31%Z :: p.
Definition demo_gunzip (b : bytes) : option bytes :=
  match b with _ :: p => Some p | [] => None end.

Lemma demo_gunzip_gzip p : demo_gunzip (demo_gzip p) = Some p.
Proof. done. Defined.

Definition demo_wal : wal :=
  (Write demo_gzip (Write demo_gzip (OpenWithMaxSize [] 64) [1; 2; 3]%Z IoOk).1 [4]%Z IoOk).1.

Lemma demo_represents : represents demo_gzip demo_wal [[1; 2; 3]%Z; [4]%Z].
Proof.
  repeat split; try reflexivity. unfold fits. repeat constructor; vm_compute; discriminate.
Defined.

Example demo_full : (Write demo_gzip demo_wal (repeat 7%Z 60) IoOk).2 = Err ErrWALFull.
Proof. reflexivity. Qed.


Lemma Replay_refines_witness :
  (Replay demo_gunzip (fun st x => (st ++ [x], @None unit)) demo_wal []).1.2 =
  [[1; 2; 3]%Z; [4]%Z].
Proof.
  exact (proj1 (Replay_refines demo_gzip demo_gunzip demo_gunzip_gzip
    (fun st x => (st ++ [x], @None unit)) demo_wal _ [] demo_represents)).
Defined.

Lemma reopen_after_crash_witness :
  represents demo_gzip
    (OpenWithMaxSize (w_file demo_wal ++ take 5 (frame_bytes demo_gzip [9; 9]%Z)) 64)
    [[1; 2; 3]%Z; [4]%Z].
Proof.
  refine (proj1 (reopen_after_crash demo_gzip demo_gunzip demo_gunzip_gzip demo_wal _
    [9; 9]%Z 5 demo_represents _ _)).
  - vm_compute. discriminate.
  - vm_compute. lia.
Defined.
