(* ===== verification/Http.v ===== *)
(** * What the HTTP handlers of core share

    Problem responses (core/server.go), the mutate-then-save discipline of the
    file store, and the standard library's UTF-8 decoding and case folding used
    to compare subjects. *)
From S2P Require Import Prelude GoTime.
Open Scope string_scope.
Open Scope list_scope.

(** An RFC 7807 problem: status, type and title. *)
Record problem : Type := Problem { p_status : Z; p_type : string; p_title : string }.

#[export] Instance problem_eq_dec : EqDecision problem.
Proof. solve_decision. Defined.

Definition bad_request (title : string) : problem := Problem 400 "bad-request" title.
Definition store_error : problem := Problem 500 "bad-request" "store error".

(** Append, then save; a failed save truncates the slice again. *)
Definition append_saved {A} (l : list A) (x : A) (saved : bool) : list A :=
  if saved then l ++ [x] else l.

(** ** UTF-8 *)

Definition RuneError : N := 0xFFFD.
Definition cont_in (lo hi : N) (c : ascii) : bool := ((lo <=? code c) && (code c <=? hi))%N.
Definition cont (c : ascii) : bool := cont_in 0x80 0xBF c.
Definition low6 (c : ascii) : N := N.land (code c) 0x3F.

(** The first byte's length and the range of the second byte; [None] for a byte
    that cannot start a rune. *)
Definition lead (c : ascii) : option (nat * N * N) :=
  let n := code c in
  if (n <? 0xC2)%N then None
  else if (n <=? 0xDF)%N then Some (2, 0x80%N, 0xBF%N)
  else if (n =? 0xE0)%N then Some (3, 0xA0%N, 0xBF%N)
  else if (n =? 0xED)%N then Some (3, 0x80%N, 0x9F%N)
  else if (n <=? 0xEF)%N then Some (3, 0x80%N, 0xBF%N)
  else if (n =? 0xF0)%N then Some (4, 0x90%N, 0xBF%N)
  else if (n <=? 0xF3)%N then Some (4, 0x80%N, 0xBF%N)
  else if (n =? 0xF4)%N then Some (4, 0x80%N, 0x8F%N)
  else None.

(** [utf8.DecodeRuneInString]: an invalid byte is one [RuneError]. *)
Definition decode_rune (c : ascii) (r : string) : N * string :=
  if (code c <? 0x80)%N then (code c, r)
  else
    match lead c, r with
    | Some (2, lo, hi), String d r2 =>
        if cont_in lo hi d
        then (N.lor (N.shiftl (N.land (code c) 0x1F) 6) (low6 d), r2) else (RuneError, r)
    | Some (3, lo, hi), String d (String e r3) =>
        if cont_in lo hi d && cont e
        then (N.lor (N.shiftl (N.land (code c) 0x0F) 12)
                (N.lor (N.shiftl (low6 d) 6) (low6 e)), r3)
        else (RuneError, r)
    | Some (4, lo, hi), String d (String e (String f r4)) =>
        if cont_in lo hi d && cont e && cont f
        then (N.lor (N.shiftl (N.land (code c) 0x07) 18)
                (N.lor (N.shiftl (low6 d) 12) (N.lor (N.shiftl (low6 e) 6) (low6 f))), r4)
        else (RuneError, r)
    | _, _ => (RuneError, r)
    end.

(** A rune takes at least one byte. *)
Fixpoint runes_fuel (fuel : nat) (s : string) : list N :=
  match fuel, s with
  | S n, String c r => let '(x, r') := decode_rune c r in x :: runes_fuel n r'
  | _, _ => []
  end.
Definition runes (s : string) : list N := runes_fuel (str_len s) s.

Lemma decode_rune_len c r : str_len (decode_rune c r).2 <= str_len r.
Proof.
  unfold decode_rune. destruct (code c <? 0x80)%N; [done|].
  destruct (lead c) as [[[n lo] hi]|]; [|done].
  destruct r as [|d r2]; [by destruct n as [|[|[|[|[|n]]]]]|].
  destruct n as [|[|[|[|[|n]]]]]; try done; cbn [str_len].
  - destruct (cont_in lo hi d); cbn; lia.
  - destruct r2 as [|e r3]; [done|]. destruct (_ && _); cbn; lia.
  - destruct r2 as [|e [|f r4]]; [done..|]. destruct (_ && _); cbn; lia.
Qed.

(** The fuel is enough: more does not change the result. *)
Lemma runes_fuel_enough s : forall n m,
  str_len s <= n -> str_len s <= m -> runes_fuel n s = runes_fuel m s.
Proof.
  intros n. revert s. induction n as [|n IH]; intros [|c r] m Hn Hm; cbn in Hn.
  - by destruct m.
  - lia.
  - by destruct m.
  - destruct m as [|m]; cbn in Hm; [lia|]. cbn.
    pose proof (decode_rune_len c r). destruct (decode_rune c r) as [x r']; cbn in *.
    f_equal. apply IH; lia.
Qed.

Lemma runes_cons c r :
  runes (String c r) = let '(x, r') := decode_rune c r in x :: runes r'.
Proof.
  unfold runes. cbn. pose proof (decode_rune_len c r). destruct (decode_rune c r) as [x r'].
  cbn in *. f_equal. apply runes_fuel_enough; lia.
Qed.

(** [utf8.AppendRune]. *)
Definition byte_of (n : N) : ascii := ascii_of_N n.
Definition encode_rune (r : N) : string :=
  if (r <? 0x80)%N then String (byte_of r) EmptyString
  else if (r <? 0x800)%N then
    String (byte_of (N.lor 0xC0 (N.shiftr r 6))) (String (byte_of (N.lor 0x80 (N.land r 0x3F)))
      EmptyString)
  else if (r <? 0x10000)%N then
    String (byte_of (N.lor 0xE0 (N.shiftr r 12)))
      (String (byte_of (N.lor 0x80 (N.land (N.shiftr r 6) 0x3F)))
        (String (byte_of (N.lor 0x80 (N.land r 0x3F))) EmptyString))
  else
    String (byte_of (N.lor 0xF0 (N.shiftr r 18)))
      (String (byte_of (N.lor 0x80 (N.land (N.shiftr r 12) 0x3F)))
        (String (byte_of (N.lor 0x80 (N.land (N.shiftr r 6) 0x3F)))
          (String (byte_of (N.lor 0x80 (N.land r 0x3F))) EmptyString))).

(** ** [strings.ToLower] *)

Section lower.
(** [unicode.ToLower] outside ASCII: the table of the Unicode standard. *)
Context (lower_rune : N -> N).

Definition ToLower_rune (r : N) : N :=
  if (r <? 0x80)%N then (if ((65 <=? r) && (r <=? 90))%N then (r + 32)%N else r)
  else lower_rune r.

Definition ToLower (s : string) : string :=
  foldr (fun r acc => encode_rune (ToLower_rune r) +:+ acc) EmptyString (runes s).
End lower.

Example ToLower_ex : ToLower (fun r => r) "Site-APIGW" = "site-apigw".
Proof. vm_compute. reflexivity. Qed.

(** ** [strings.EqualFold] *)

Section fold.
(** Whether two runes, not both ASCII, are in one orbit of [unicode.SimpleFold]:
    the table of the Unicode standard. *)
Context (same_orbit : N -> N -> bool).

Definition ascii_lower (n : N) : N := if ((65 <=? n) && (n <=? 90))%N then (n + 32)%N else n.

Definition rune_fold_eq (a b : N) : bool :=
  (a =? b)%N ||
  (if ((a <? 0x80) && (b <? 0x80))%N then (ascii_lower a =? ascii_lower b)%N
   else same_orbit a b).

Fixpoint runes_fold_eq (xs ys : list N) : bool :=
  match xs, ys with
  | [], [] => true
  | x :: xs', y :: ys' => rune_fold_eq x y && runes_fold_eq xs' ys'
  | _, _ => false
  end.

Definition EqualFold (s t : string) : bool := runes_fold_eq (runes s) (runes t).

Lemma EqualFold_refl s : EqualFold s s = true.
Proof.
  unfold EqualFold. generalize (runes s) as l. induction l as [|x l IH]; [done|].
  cbn. unfold rune_fold_eq. by rewrite N.eqb_refl.
Qed.

(** Subjects the comparison tells apart are different strings. *)
Lemma EqualFold_neq s t : EqualFold s t = false -> s <> t.
Proof. intros H ->. by rewrite EqualFold_refl in H. Qed.
End fold.

(** The part of the table with the two runes that fold to ASCII letters: the
    Kelvin sign and the long s. *)
Definition latin_orbit (a b : N) : bool :=
  let canon n := if (n =? 0x212A)%N then 107%N else if (n =? 0x17F)%N then 115%N
                 else ascii_lower n in
  (canon a =? canon b)%N.

Example EqualFold_case : EqualFold latin_orbit "Alice" "aLICE" = true.
Proof. vm_compute. reflexivity. Qed.
Example EqualFold_diff : EqualFold latin_orbit "alice" "alice2" = false.
Proof. vm_compute. reflexivity. Qed.
Definition kelvin : string :=
  String (ascii_of_nat 226) (String (ascii_of_nat 132) (String (ascii_of_nat 170) EmptyString)).
Example EqualFold_kelvin : EqualFold latin_orbit kelvin "k" = true.
Proof. vm_compute. reflexivity. Qed.
