(* ===== verification/Tickets.v ===== *)
(** * Tickets (core/tickets.go, core/sla.go, the ticket part of core/store.go)

    The ticket table with its optimistic lock, the create, transition, assign
    and note handlers, and the SLA scanner.  Handlers read a row, change it and
    write it back under the version they saw; an interleaving of several of
    them is a sequence of such reads and writes.  The main theorem is that no
    interleaving breaks the life cycle of a ticket or loses an update. *)
From S2P Require Import Prelude GoTime CPath RBAC Http.
Open Scope string_scope.
Open Scope list_scope.

(** ** Rows *)

Record Ticket : Type := mkTicket {
  t_ID : string;
  t_AlarmID : string;
  t_AssetPath : string;
  t_Title : string;
  t_Severity : string;
  t_State : string;
  t_Assignee : string;
  t_OpenedAt : time;
  t_AckedAt : option time;
  t_ResolvedAt : option time;
  t_ClosedAt : option time;
  t_EscalatedAt : option time;
  t_ResourceVersion : Z;
  t_Runbook : string
}.

#[export] Instance Ticket_eq_dec : EqDecision Ticket.
Proof. solve_decision. Defined.

Record TicketNote : Type := mkTicketNote {
  n_ID : string; n_TicketID : string; n_Author : string; n_Body : string; n_At : time }.

Record TicketAudit : Type := mkTicketAudit {
  a_ID : string; a_TicketID : string; a_Op : string; a_FromState : string;
  a_ToState : string; a_Who : string; a_At : time }.

(** The parts of the file store and of the server the handlers touch. *)
Record server : Type := mkServer {
  s_tickets : gmap string Ticket;
  s_notes : list TicketNote;
  s_audits : list TicketAudit;
  s_meter : meter
}.

(** ** The store *)

Inductive put_err : Type :=
  | ErrDuplicateActiveTicket
  | ErrVersionConflict
  | ErrSave.

Definition with_version (t : Ticket) (v : Z) : Ticket :=
  mkTicket (t_ID t) (t_AlarmID t) (t_AssetPath t) (t_Title t) (t_Severity t) (t_State t)
    (t_Assignee t) (t_OpenedAt t) (t_AckedAt t) (t_ResolvedAt t) (t_ClosedAt t)
    (t_EscalatedAt t) v (t_Runbook t).

(** Another row, not closed, on the same alarm. *)
Definition duplicate_active (m : gmap string Ticket) (t : Ticket) : bool :=
  negb (str_eqb (t_AlarmID t) EmptyString) && negb (str_eqb (t_State t) "closed") &&
  existsb (fun '(id, other) =>
      negb (str_eqb id (t_ID t)) && str_eqb (t_AlarmID other) (t_AlarmID t) &&
      negb (str_eqb (t_State other) "closed"))
    (map_to_list m).

(** [PutTicket]; [saved] says whether writing the file succeeded, otherwise the
    previous row is restored. *)
Definition PutTicket (m : gmap string Ticket) (t : Ticket) (expectVersion : Z) (saved : bool) :
    gmap string Ticket * result put_err Ticket :=
  if duplicate_active m t then (m, Err ErrDuplicateActiveTicket)
  else
    match m !! t_ID t with
    | Some cur =>
        if (0 <? expectVersion)%Z && negb (t_ResourceVersion cur =? expectVersion)%Z
        then (m, Err ErrVersionConflict)
        else
          let t' := with_version t (t_ResourceVersion cur + 1) in
          if saved then (<[t_ID t := t']> m, Ok t') else (m, Err ErrSave)
    | None =>
        if (0 <? expectVersion)%Z then (m, Err ErrVersionConflict)
        else
          let t' := with_version t 1 in
          if saved then (<[t_ID t := t']> m, Ok t') else (m, Err ErrSave)
    end.

Definition GetTicket (m : gmap string Ticket) (id : string) : option Ticket := m !! id.

(** ** The state machine *)

Definition allowedTicketStates : list string := ["open"; "acknowledged"; "resolved"; "closed"].
Definition allowedTicketSeverities : list string := ["critical"; "major"; "minor"; "info"].

Definition allowedTransition (from to : string) : bool :=
  if str_eqb from "open" then str_eqb to "acknowledged" || str_eqb to "closed"
  else if str_eqb from "acknowledged" then str_eqb to "resolved" || str_eqb to "closed"
  else if str_eqb from "resolved" then str_eqb to "closed"
  else false.

(** [if t.X == nil { t.X = &now }]. *)
Definition first_time (o : option time) (now : time) : option time :=
  match o with None => Some now | Some _ => o end.

Definition apply_transition (t : Ticket) (to : string) (now : time) : Ticket :=
  let acked := if str_eqb to "acknowledged" then first_time (t_AckedAt t) now else t_AckedAt t in
  let resolved := if str_eqb to "resolved" then first_time (t_ResolvedAt t) now else t_ResolvedAt t in
  let closed := if str_eqb to "closed" then first_time (t_ClosedAt t) now else t_ClosedAt t in
  mkTicket (t_ID t) (t_AlarmID t) (t_AssetPath t) (t_Title t) (t_Severity t) to
    (t_Assignee t) (t_OpenedAt t) acked resolved closed
    (t_EscalatedAt t) (t_ResourceVersion t) (t_Runbook t).

Definition apply_assign (t : Ticket) (assignee : string) : Ticket :=
  mkTicket (t_ID t) (t_AlarmID t) (t_AssetPath t) (t_Title t) (t_Severity t) (t_State t)
    assignee (t_OpenedAt t) (t_AckedAt t) (t_ResolvedAt t) (t_ClosedAt t)
    (t_EscalatedAt t) (t_ResourceVersion t) (t_Runbook t).

Definition apply_escalate (t : Ticket) (now : time) : Ticket :=
  mkTicket (t_ID t) (t_AlarmID t) (t_AssetPath t) (t_Title t) (t_Severity t) (t_State t)
    (t_Assignee t) (t_OpenedAt t) (t_AckedAt t) (t_ResolvedAt t) (t_ClosedAt t)
    (Some now) (t_ResourceVersion t) (t_Runbook t).

(** ** Handlers *)

Definition forbidden : problem := Problem 403 "forbidden" "Forbidden".
Definition not_found : problem := Problem 404 "path-not-found" "ticket not found".

(** [ticketIDPattern]: ^tk_[A-Z2-7]{16}$ *)
Definition base32_byte (c : ascii) : bool := is_upper c || in_range "2" "7" c.
Definition ticketIDPattern (s : string) : bool :=
  has_prefix s "tk_" && (str_len s =? 19)%nat && all_bytes base32_byte (trim_prefix s "tk_").

(** [PrincipalFromContext] is [auth]; without a principal there is no check. *)
Definition check_scope (sv : server) (auth : option Principal) (action : Action) (path : string) :
    server * bool :=
  match auth with
  | None => (sv, true)
  | Some p =>
      let '(m, r) := authorize (s_meter sv) p action path in
      (mkServer (s_tickets sv) (s_notes sv) (s_audits sv) m, is_ok r)
  end.

Definition with_tickets (sv : server) (m : gmap string Ticket) : server :=
  mkServer m (s_notes sv) (s_audits sv) (s_meter sv).

Definition who (auth : option Principal) : string :=
  match auth with
  | Some p => if str_eqb (p_Subject p) EmptyString then "anonymous" else p_Subject p
  | None => "anonymous"
  end.

(** What the environment supplies to a request: the clock, the minted ids and
    whether the saves succeed. *)
Record request_env : Type := mkEnv {
  env_now : time; env_id : string; env_audit_id : string;
  env_put_saved : bool; env_audit_saved : bool }.

Definition appendTicketAudit (sv : server) (auth : option Principal) (env : request_env)
    (ticketID op fromState toState : string) : server :=
  mkServer (s_tickets sv) (s_notes sv)
    (append_saved (s_audits sv)
       (mkTicketAudit (env_audit_id env) ticketID op fromState toState (who auth) (env_now env))
       (env_audit_saved env))
    (s_meter sv).

Record ticketCreateRequest : Type := mkCreate {
  c_AssetPath : string; c_Title : string; c_Severity : string; c_Assignee : string;
  c_AlarmID : string }.

(** The decoded body is [None] when reading or decoding it failed. *)
Definition serveTicketsCreate (d : Dict) (sv : server) (auth : option Principal)
    (body : option ticketCreateRequest) (env : request_env) : server * result problem Ticket :=
  match body with
  | None => (sv, Err (bad_request "bad json"))
  | Some req =>
      if str_eqb (c_AssetPath req) EmptyString then (sv, Err (bad_request "missing asset_path"))
      else if negb (is_ok (ParseAssetPath d (c_AssetPath req)))
      then (sv, Err (Problem 400 "bad-path" "bad asset path"))
      else if str_eqb (c_Title req) EmptyString then (sv, Err (bad_request "missing title"))
      else if negb (contains_string allowedTicketSeverities (c_Severity req))
      then (sv, Err (bad_request "bad severity"))
      else
        let '(sv1, ok) := check_scope sv auth ActionControlWrite (c_AssetPath req) in
        if negb ok then (sv1, Err forbidden)
        else
          let t := mkTicket (env_id env) (c_AlarmID req) (c_AssetPath req) (c_Title req)
            (c_Severity req) "open" (c_Assignee req) (env_now env) None None None None 0
            EmptyString in
          match PutTicket (s_tickets sv1) t 0 (env_put_saved env) with
          | (_, Err ErrDuplicateActiveTicket) =>
              (sv1, Err (Problem 409 "conflict" "duplicate active ticket"))
          | (_, Err _) => (sv1, Err store_error)
          | (m, Ok _) =>
              (appendTicketAudit (with_tickets sv1 m) auth env (t_ID t) "created" EmptyString
                 (t_State t), Ok t)
          end
  end.

(** The read half of the transition handler, up to the row to write back. *)
Definition transition_read (sv : server) (auth : option Principal) (body : option string)
    (id : string) (now : time) : server * result problem (Ticket * Ticket) :=
  match body with
  | None => (sv, Err (bad_request "bad json"))
  | Some to =>
      if negb (contains_string allowedTicketStates to)
      then (sv, Err (Problem 422 "invalid-transition" "invalid transition target"))
      else
        match GetTicket (s_tickets sv) id with
        | None => (sv, Err not_found)
        | Some t =>
            if negb (allowedTransition (t_State t) to)
            then (sv, Err (Problem 422 "invalid-transition" "illegal transition"))
            else
              let '(sv1, ok) := check_scope sv auth ActionControlWrite (t_AssetPath t) in
              if negb ok then (sv1, Err forbidden)
              else (sv1, Ok (t, apply_transition t to now))
        end
  end.

Definition assign_read (sv : server) (auth : option Principal) (body : option string)
    (id : string) : server * result problem (Ticket * Ticket) :=
  match body with
  | None => (sv, Err (bad_request "bad json"))
  | Some assignee =>
      match GetTicket (s_tickets sv) id with
      | None => (sv, Err not_found)
      | Some t =>
          let '(sv1, ok) := check_scope sv auth ActionControlWrite (t_AssetPath t) in
          if negb ok then (sv1, Err forbidden) else (sv1, Ok (t, apply_assign t assignee))
      end
  end.

(** The write half of both: compare-and-swap, then the audit row. *)
Definition cas_write (sv : server) (auth : option Principal) (base t : Ticket) (op : string)
    (env : request_env) : server * result problem Ticket :=
  match PutTicket (s_tickets sv) t (t_ResourceVersion t) (env_put_saved env) with
  | (_, Err ErrVersionConflict) =>
      (sv, Err (Problem 409 "version-conflict" "ticket was updated concurrently; refetch and retry"))
  | (_, Err _) => (sv, Err store_error)
  | (m, Ok out) =>
      let '(from, to) := if str_eqb op "transitioned" then (t_State base, t_State out)
                         else (EmptyString, EmptyString) in
      (appendTicketAudit (with_tickets sv m) auth env (t_ID t) op from to, Ok out)
  end.

Definition serveTicketTransition (sv : server) (auth : option Principal) (body : option string)
    (id : string) (env : request_env) : server * result problem Ticket :=
  match transition_read sv auth body id (env_now env) with
  | (sv1, Err e) => (sv1, Err e)
  | (sv1, Ok (base, t)) => cas_write sv1 auth base t "transitioned" env
  end.

Definition serveTicketAssign (sv : server) (auth : option Principal) (body : option string)
    (id : string) (env : request_env) : server * result problem Ticket :=
  match assign_read sv auth body id with
  | (sv1, Err e) => (sv1, Err e)
  | (sv1, Ok (base, t)) => cas_write sv1 auth base t "assigned" env
  end.

Definition serveTicketNote (sv : server) (auth : option Principal) (body : option string)
    (id : string) (env : request_env) : server * result problem TicketNote :=
  match body with
  | None => (sv, Err (bad_request "bad json"))
  | Some text =>
      if str_eqb text EmptyString then (sv, Err (bad_request "missing body"))
      else if (8192 <? Z.of_nat (str_len text))%Z then (sv, Err (bad_request "body too large"))
      else
        match GetTicket (s_tickets sv) id with
        | None => (sv, Err not_found)
        | Some t =>
            let '(sv1, ok) := check_scope sv auth ActionControlWrite (t_AssetPath t) in
            if negb ok then (sv1, Err forbidden)
            else
              let author := match auth with Some p => p_Subject p | None => "anonymous" end in
              let note := mkTicketNote (env_id env) id author text (env_now env) in
              if env_put_saved env
              then (mkServer (s_tickets sv1) (s_notes sv1 ++ [note]) (s_audits sv1) (s_meter sv1),
                    Ok note)
              else (sv1, Err store_error)
        end
  end.

(** The dispatch of /v1/tickets/{id}[:action]; [rest] is the URL path behind
    the prefix. *)
Inductive ticket_route : Type :=
  | RouteGet (id : string) | RouteTransition (id : string) | RouteNote (id : string)
  | RouteAssign (id : string) | RouteHistory (id : string).

Definition split_suffix (rest : string) : string * string :=
  if has_suffix rest ":transition" then (trim_suffix rest ":transition", "transition")
  else if has_suffix rest ":note" then (trim_suffix rest ":note", "note")
  else if has_suffix rest ":assign" then (trim_suffix rest ":assign", "assign")
  else if has_suffix rest ":history" then (trim_suffix rest ":history", "history")
  else (rest, EmptyString).

Definition serveTicket (method rest : string) : result problem ticket_route :=
  if str_eqb rest EmptyString then Err (bad_request "missing id")
  else
    let '(id, suffix) := split_suffix rest in
    if str_eqb id EmptyString then Err (bad_request "missing id")
    else if negb (ticketIDPattern id) then Err (bad_request "bad ticket id")
    else if str_eqb suffix EmptyString && str_eqb method "GET" then Ok (RouteGet id)
    else if str_eqb suffix "transition" && str_eqb method "POST" then Ok (RouteTransition id)
    else if str_eqb suffix "note" && str_eqb method "POST" then Ok (RouteNote id)
    else if str_eqb suffix "assign" && str_eqb method "POST" then Ok (RouteAssign id)
    else if str_eqb suffix "history" && str_eqb method "GET" then Ok (RouteHistory id)
    else Err (Problem 405 "bad-request" "method not allowed").

Example demo_routes :
  serveTicket "POST" "tk_ABCDEFGHIJKLMNO2:assign" = Ok (RouteAssign "tk_ABCDEFGHIJKLMNO2") /\
  serveTicket "POST" "tk_abc:assign" = Err (bad_request "bad ticket id") /\
  serveTicket "GET" ":note" = Err (bad_request "missing id") /\
  serveTicket "PUT" "tk_ABCDEFGHIJKLMNO2" = Err (Problem 405 "bad-request" "method not allowed").
Proof. vm_compute. repeat split. Qed.

(** ** SLA (sla.go) *)

Definition slaResponseCritical : Duration := 15 * Minute.
Definition slaResponseMajor : Duration := 1 * Hour.
Definition slaResponseMinor : Duration := 8 * Hour.
Definition slaResolveCritical : Duration := 4 * Hour.
Definition slaResolveMajor : Duration := 24 * Hour.
Definition slaResolveMinor : Duration := 72 * Hour.

Definition slaWindows (severity : string) : Duration * Duration * bool :=
  if str_eqb severity "critical" then (slaResponseCritical, slaResolveCritical, true)
  else if str_eqb severity "major" then (slaResponseMajor, slaResolveMajor, true)
  else if str_eqb severity "minor" then (slaResponseMinor, slaResolveMinor, true)
  else (0%Z, 0%Z, false).

Definition isSLABreach (t : Ticket) (now : time) : bool :=
  if str_eqb (t_State t) "resolved" || str_eqb (t_State t) "closed" then false
  else
    let '(resp, resolve, hasSLA) := slaWindows (t_Severity t) in
    if negb hasSLA then false
    else if str_eqb (t_State t) "open" then (resp <? time_sub now (t_OpenedAt t))%Z
    else if str_eqb (t_State t) "acknowledged" then (resolve <? time_sub now (t_OpenedAt t))%Z
    else false.

Definition not_escalated (t : Ticket) : bool :=
  match t_EscalatedAt t with None => true | Some _ => false end.

Definition scanSLA (now : time) (tickets : list Ticket) : list Ticket :=
  List.filter (fun t => not_escalated t && isSLABreach t now) tickets.

(** The read half of one escalation: the fresh row, if it is still a
    candidate. *)
Definition escalate_read (m : gmap string Ticket) (id : string) (now : time) :
    option (Ticket * Ticket) :=
  match GetTicket m id with
  | Some cur =>
      if negb (not_escalated cur) then None
      else if negb (isSLABreach cur now) then None
      else Some (cur, apply_escalate cur now)
  | None => None
  end.

(** The loop over the breached tickets; [saved k] says whether the [k]-th save
    succeeds.  The result lists the tickets whose event is emitted. *)
Fixpoint escalate_loop (m : gmap string Ticket) (breached : list Ticket) (now : time)
    (saved : nat -> bool) (k : nat) : gmap string Ticket * list Ticket :=
  match breached with
  | [] => (m, [])
  | t :: rest =>
      match escalate_read m (t_ID t) now with
      | None => escalate_loop m rest now saved (S k)
      | Some (_, cur) =>
          match PutTicket m cur (t_ResourceVersion cur) (saved k) with
          | (_, Err _) => escalate_loop m rest now saved (S k)
          | (m', Ok _) =>
              let '(m2, evs) := escalate_loop m' rest now saved (S k) in (m2, cur :: evs)
          end
      end
  end.

(** [locked] is the scanner lock, [all] what [ListTickets] returned. *)
Definition scanSLATick (m : gmap string Ticket) (locked : bool) (all : list Ticket) (now : time)
    (saved : nat -> bool) : gmap string Ticket * list Ticket :=
  if negb locked then (m, []) else escalate_loop m (scanSLA now all) now saved 0.

(** ** Interleaving

    Requests in flight have read a row and hold the row they will write back. *)

Record pending : Type := mkPending {
  q_auth : option Principal; q_base : Ticket; q_new : Ticket; q_op : string }.

Record sys : Type := mkSys { y_server : server; y_pending : list pending }.

(** The write half of a pending update: the scanner writes the row alone, a
    request also records the audit row. *)
Definition write_back (sv : server) (p : pending) (env : request_env) : server :=
  if str_eqb (q_op p) "escalated"
  then with_tickets sv
         (PutTicket (s_tickets sv) (q_new p) (t_ResourceVersion (q_new p)) (env_put_saved env)).1
  else (cas_write sv (q_auth p) (q_base p) (q_new p) (q_op p) env).1.

Inductive tstep (d : Dict) : sys -> sys -> Prop :=
  | ts_create sv ps auth body env sv' r :
      s_tickets sv !! env_id env = None ->
      serveTicketsCreate d sv auth body env = (sv', r) ->
      tstep d (mkSys sv ps) (mkSys sv' ps)
  | ts_transition_read sv ps auth body id now sv' base t :
      transition_read sv auth body id now = (sv', Ok (base, t)) ->
      tstep d (mkSys sv ps) (mkSys sv' (ps ++ [mkPending auth base t "transitioned"]))
  | ts_transition_refused sv ps auth body id now sv' e :
      transition_read sv auth body id now = (sv', Err e) ->
      tstep d (mkSys sv ps) (mkSys sv' ps)
  | ts_assign_read sv ps auth body id sv' base t :
      assign_read sv auth body id = (sv', Ok (base, t)) ->
      tstep d (mkSys sv ps) (mkSys sv' (ps ++ [mkPending auth base t "assigned"]))
  | ts_assign_refused sv ps auth body id sv' e :
      assign_read sv auth body id = (sv', Err e) ->
      tstep d (mkSys sv ps) (mkSys sv' ps)
  | ts_escalate_read sv ps id now base t :
      escalate_read (s_tickets sv) id now = Some (base, t) ->
      tstep d (mkSys sv ps) (mkSys sv (ps ++ [mkPending None base t "escalated"]))
  | ts_write sv ps i p env :
      ps !! i = Some p ->
      tstep d (mkSys sv ps) (mkSys (write_back sv p env) (delete i ps))
  | ts_note sv ps auth body id env sv' r :
      serveTicketNote sv auth body id env = (sv', r) ->
      tstep d (mkSys sv ps) (mkSys sv' ps)
  | ts_drop sv ps i :
      tstep d (mkSys sv ps) (mkSys sv (delete i ps)).

Inductive reachable (d : Dict) : sys -> Prop :=
  | reach_init m : reachable d (mkSys (mkServer ∅ [] [] m) [])
  | reach_step y y' : reachable d y -> tstep d y y' -> reachable d y'.

(** *** What may happen to a row *)

Definition kept (o n : option time) : Prop := forall t, o = Some t -> n = Some t.

Definition row_change (old new : Ticket) : Prop :=
  t_ID new = t_ID old /\ t_AlarmID new = t_AlarmID old /\ t_AssetPath new = t_AssetPath old /\
  t_Title new = t_Title old /\ t_Severity new = t_Severity old /\
  t_OpenedAt new = t_OpenedAt old /\ t_Runbook new = t_Runbook old /\
  (t_State new = t_State old \/ allowedTransition (t_State old) (t_State new) = true) /\
  kept (t_AckedAt old) (t_AckedAt new) /\ kept (t_ResolvedAt old) (t_ResolvedAt new) /\
  kept (t_ClosedAt old) (t_ClosedAt new) /\ kept (t_EscalatedAt old) (t_EscalatedAt new).

Lemma kept_refl o : kept o o.
Proof. by intros t. Qed.
Lemma kept_first b o now : kept o (if (b : bool) then first_time o now else o).
Proof. intros t ->. by destruct b. Qed.
#[local] Hint Resolve kept_refl kept_first : core.

Lemma apply_transition_change t to now :
  allowedTransition (t_State t) to = true -> row_change t (apply_transition t to now).
Proof. intros H. unfold row_change, apply_transition; cbn. auto 20. Qed.

Lemma apply_assign_change t a : row_change t (apply_assign t a).
Proof. unfold row_change, apply_assign; cbn. auto 20. Qed.

Lemma apply_escalate_change t now :
  t_EscalatedAt t = None -> row_change t (apply_escalate t now).
Proof.
  intros H. unfold row_change, apply_escalate; cbn. rewrite H.
  repeat (split; [by auto|]). by intros u.
Qed.

Lemma with_version_change t n v : row_change t n -> row_change t (with_version n v).
Proof. done. Qed.

Lemma with_version_self t : with_version t (t_ResourceVersion t) = t.
Proof. by destruct t. Qed.

(** *** The store's invariants *)

Definition rows_ok (m : gmap string Ticket) : Prop :=
  map_Forall (fun id t => t_ID t = id /\ (1 <= t_ResourceVersion t)%Z) m.

Definition active (t : Ticket) : Prop :=
  t_AlarmID t <> EmptyString /\ t_State t <> "closed".

Definition unique_active (m : gmap string Ticket) : Prop :=
  forall id1 id2 t1 t2, m !! id1 = Some t1 -> m !! id2 = Some t2 ->
  active t1 -> active t2 -> t_AlarmID t1 = t_AlarmID t2 -> id1 = id2.

Lemma duplicate_active_false m t :
  duplicate_active m t = false -> active t ->
  forall id other, m !! id = Some other -> active other -> t_AlarmID other = t_AlarmID t ->
  id = t_ID t.
Proof.
  unfold duplicate_active. intros H [Ha Hs] id other Hm [_ Ho] Heq.
  apply str_eqb_neq in Ha, Hs, Ho. rewrite Ha, Hs in H. cbn [negb andb] in H.
  destruct (str_eqb id (t_ID t)) eqn:E; [by apply str_eqb_eq|exfalso].
  apply not_true_iff_false in H. apply H. apply existsb_exists. exists (id, other).
  split; [by apply list_elem_of_In, elem_of_map_to_list|].
  rewrite E, Ho. cbn. rewrite Heq. by rewrite str_eqb_refl.
Qed.

(** What a put can do: nothing, or write the row with the next version; a
    positive expected version is the version of the row replaced. *)
Lemma PutTicket_inv m t v saved m' r :
  PutTicket m t v saved = (m', r) ->
  (m' = m /\ exists e, r = Err e) \/
  exists n, r = Ok (with_version t n) /\ m' = <[t_ID t := with_version t n]> m /\
    duplicate_active m t = false /\
    match m !! t_ID t with
    | Some cur => n = (t_ResourceVersion cur + 1)%Z /\
        ((0 < v)%Z -> t_ResourceVersion cur = v)
    | None => n = 1%Z /\ (v <= 0)%Z
    end.
Proof.
  unfold PutTicket. destruct (duplicate_active m t) eqn:Ed; [intros [= <- <-]; eauto|].
  destruct (m !! t_ID t) as [cur|] eqn:Ec.
  - destruct (Z.ltb_spec 0 v) as [Hv|Hv]; cbn [andb].
    + destruct (Z.eqb_spec (t_ResourceVersion cur) v); cbn [negb]; [|intros [= <- <-]; eauto].
      destruct saved; intros [= <- <-]; [|eauto]. right. eauto 10.
    + destruct saved; intros [= <- <-]; [|eauto]. right.
      exists (t_ResourceVersion cur + 1)%Z. repeat split; try done. lia.
  - destruct (Z.ltb_spec 0 v) as [Hv|Hv]; [intros [= <- <-]; eauto|].
    destruct saved; intros [= <- <-]; [|eauto]. right. exists 1%Z. auto.
Qed.

Lemma PutTicket_rows_ok m t v saved :
  rows_ok m -> rows_ok (PutTicket m t v saved).1.
Proof.
  intros Hok. destruct (PutTicket m t v saved) as [m' r] eqn:E. cbn.
  apply PutTicket_inv in E as [[-> _]|(n & _ & -> & _ & Hn)]; [done|].
  apply map_Forall_insert_2; [|done]. cbn. split; [done|].
  destruct (m !! t_ID t) as [cur|] eqn:Ec; [|lia].
  specialize (Hok _ _ Ec). cbn in Hok. lia.
Qed.

Lemma PutTicket_unique m t v saved :
  unique_active m -> unique_active (PutTicket m t v saved).1.
Proof.
  intros Hu. destruct (PutTicket m t v saved) as [m' r] eqn:E. cbn.
  apply PutTicket_inv in E as [[-> _]|(n & _ & -> & Hd & _)]; [done|].
  intros id1 id2 t1 t2 H1 H2 Ha1 Ha2 Heq.
  apply lookup_insert_Some in H1 as [[<- <-]|[Hne1 H1]],
    H2 as [[<- <-]|[Hne2 H2]]; [done| | |by eapply Hu].
  - exfalso. apply Hne2. symmetry. by eapply (duplicate_active_false m t Hd).
  - exfalso. apply Hne1. symmetry. by eapply (duplicate_active_false m t Hd).
Qed.

(** *** The table part of every step *)

Lemma check_scope_tickets sv auth a path :
  s_tickets (check_scope sv auth a path).1 = s_tickets sv.
Proof. unfold check_scope. destruct auth; [|done]. by destruct (authorize _ _ _ _). Qed.

Lemma check_scope_inv sv auth a path sv' ok :
  check_scope sv auth a path = (sv', ok) -> s_tickets sv' = s_tickets sv.
Proof. intros H. by rewrite <- (check_scope_tickets sv auth a path), H. Qed.

Lemma transition_read_inv sv auth body id now sv' r :
  transition_read sv auth body id now = (sv', r) ->
  s_tickets sv' = s_tickets sv /\
  forall base t, r = Ok (base, t) ->
  s_tickets sv !! id = Some base /\
  exists to, allowedTransition (t_State base) to = true /\ t = apply_transition base to now.
Proof.
  unfold transition_read, GetTicket. destruct body as [to|]; [|by intros [= <- <-]].
  destruct (negb (contains_string _ to)); [by intros [= <- <-]|].
  destruct (s_tickets sv !! id) as [t0|] eqn:Em; [|by intros [= <- <-]].
  destruct (allowedTransition (t_State t0) to) eqn:Ea; cbn [negb]; [|by intros [= <- <-]].
  destruct (check_scope sv auth _ _) as [sv1 ok] eqn:Es. apply check_scope_inv in Es.
  destruct ok; cbn [negb]; intros [= <- <-]; (split; [done|]); [|done].
  intros base t [= <- <-]. eauto.
Qed.

Lemma assign_read_inv sv auth body id sv' r :
  assign_read sv auth body id = (sv', r) ->
  s_tickets sv' = s_tickets sv /\
  forall base t, r = Ok (base, t) ->
  s_tickets sv !! id = Some base /\ exists a, t = apply_assign base a.
Proof.
  unfold assign_read, GetTicket. destruct body as [a|]; [|by intros [= <- <-]].
  destruct (s_tickets sv !! id) as [t0|] eqn:Em; [|by intros [= <- <-]].
  destruct (check_scope sv auth _ _) as [sv1 ok] eqn:Es. apply check_scope_inv in Es.
  destruct ok; cbn [negb]; intros [= <- <-]; (split; [done|]); [|done].
  intros base t [= <- <-]. eauto.
Qed.

Lemma escalate_read_inv m id now base t :
  escalate_read m id now = Some (base, t) ->
  m !! id = Some base /\ t_EscalatedAt base = None /\ isSLABreach base now = true /\
  t = apply_escalate base now.
Proof.
  unfold escalate_read, GetTicket, not_escalated.
  destruct (m !! id) as [cur|]; [|done].
  destruct (t_EscalatedAt cur) eqn:Ee; [done|]. cbn [negb].
  destruct (isSLABreach cur now) eqn:Eb; cbn [negb]; [|done]. by intros [= <- <-].
Qed.

Lemma cas_write_tickets sv auth base t op env :
  s_tickets (cas_write sv auth base t op env).1 =
  (PutTicket (s_tickets sv) t (t_ResourceVersion t) (env_put_saved env)).1.
Proof.
  unfold cas_write. destruct (PutTicket _ _ _ _) as [m r] eqn:E. cbn.
  pose proof (PutTicket_inv _ _ _ _ _ _ E) as [[-> [e ->]]|(n & -> & _)]; [by destruct e|].
  by destruct (str_eqb op _).
Qed.

Lemma write_back_tickets sv p env :
  s_tickets (write_back sv p env) =
  (PutTicket (s_tickets sv) (q_new p) (t_ResourceVersion (q_new p)) (env_put_saved env)).1.
Proof. unfold write_back. case_match; [done|]. apply cas_write_tickets. Qed.

Lemma serveTicketNote_tickets sv auth body id env :
  s_tickets (serveTicketNote sv auth body id env).1 = s_tickets sv.
Proof.
  unfold serveTicketNote. destruct body as [text|]; [|done].
  case_match; [done|]. case_match; [done|]. destruct (GetTicket _ id); [|done].
  destruct (check_scope sv auth _ _) as [sv1 ok] eqn:Es. apply check_scope_inv in Es.
  destruct ok; cbn [negb]; [|done]. by destruct (env_put_saved env).
Qed.

(** The row a create handler puts. *)
Definition new_row (req : ticketCreateRequest) (env : request_env) : Ticket :=
  mkTicket (env_id env) (c_AlarmID req) (c_AssetPath req) (c_Title req) (c_Severity req) "open"
    (c_Assignee req) (env_now env) None None None None 0 EmptyString.

Lemma serveTicketsCreate_inv d sv auth body env sv' r :
  serveTicketsCreate d sv auth body env = (sv', r) ->
  s_tickets sv' = s_tickets sv \/
  exists req, body = Some req /\ r = Ok (new_row req env) /\
    s_tickets sv' = (PutTicket (s_tickets sv) (new_row req env) 0 (env_put_saved env)).1.
Proof.
  unfold serveTicketsCreate. destruct body as [req|]; [|intros [= <- <-]; auto].
  repeat (case_match; [intros [= <- <-]; by auto|]).
  destruct (check_scope sv auth _ _) as [sv1 ok] eqn:Es. apply check_scope_inv in Es.
  destruct ok; cbn [negb]; [|intros [= <- <-]; auto].
  fold (new_row req env). destruct (PutTicket _ _ _ _) as [m r'] eqn:E.
  rewrite Es in E. destruct r' as [t|e].
  - intros [= <- <-]. right. exists req. by rewrite E.
  - destruct e; intros [= <- <-]; auto.
Qed.

(** *** The invariant of the interleaved system *)

(** A ticket's state is one of the four and carries its time stamps. *)
Definition stamped (t : Ticket) : Prop :=
  match t_State t with
  | "open" => True
  | "acknowledged" => t_AckedAt t <> None
  | "resolved" => t_AckedAt t <> None /\ t_ResolvedAt t <> None
  | "closed" => t_ClosedAt t <> None
  | _ => False
  end.

(** A request in flight holds a legal change of a row it read; as long as the
    version is the same the row is still that one. *)
Definition pending_ok (m : gmap string Ticket) (p : pending) : Prop :=
  row_change (q_base p) (q_new p) /\ stamped (q_new p) /\
  t_ResourceVersion (q_new p) = t_ResourceVersion (q_base p) /\
  (1 <= t_ResourceVersion (q_base p))%Z /\
  exists cur, m !! t_ID (q_base p) = Some cur /\
    (t_ResourceVersion (q_base p) <= t_ResourceVersion cur)%Z /\
    (t_ResourceVersion cur = t_ResourceVersion (q_base p) -> cur = q_base p).

Definition table_ok (m : gmap string Ticket) : Prop :=
  rows_ok m /\ unique_active m /\ map_Forall (fun _ t => stamped t) m.

Definition sys_ok (y : sys) : Prop :=
  table_ok (s_tickets (y_server y)) /\
  Forall (pending_ok (s_tickets (y_server y))) (y_pending y).

Lemma first_time_some o now : first_time o now <> None.
Proof. by destruct o. Qed.

Lemma apply_transition_stamped t to now :
  allowedTransition (t_State t) to = true -> stamped t -> stamped (apply_transition t to now).
Proof.
  unfold allowedTransition. intros H Hs.
  assert (Hc : forall a b : string, str_eqb a b = true -> a = b) by (intros; by apply str_eqb_eq).
  repeat case_match; try done;
    repeat match goal with
    | H : str_eqb _ _ || str_eqb _ _ = true |- _ => apply orb_true_iff in H as [H|H]
    | H : str_eqb _ _ = true |- _ => apply Hc in H
    end; subst; unfold stamped in *; cbn;
    repeat match goal with H : t_State t = _ |- _ => rewrite H in Hs; clear H end;
    try (split; [tauto|]); apply first_time_some.
Qed.

Lemma pending_new m base t auth op :
  rows_ok m -> m !! t_ID base = Some base -> row_change base t -> stamped t ->
  t_ResourceVersion t = t_ResourceVersion base ->
  pending_ok m (mkPending auth base t op).
Proof.
  intros Hm Hb Hc Hs Hv. pose proof (Hm _ _ Hb) as [_ H1]. cbn in H1.
  unfold pending_ok; cbn. repeat (split; [done|]). exists base. split; [done|]. split; [lia|done].
Qed.

(** A put that creates or replaces a row by a legal change keeps the table and
    the requests in flight. *)
Lemma PutTicket_sys m t v saved :
  table_ok m -> stamped t ->
  table_ok (PutTicket m t v saved).1 /\
  forall p, pending_ok m p -> pending_ok (PutTicket m t v saved).1 p.
Proof.
  intros (Hr & Hu & Hs) Ht. split.
  - split; [by apply PutTicket_rows_ok|]. split; [by apply PutTicket_unique|].
    destruct (PutTicket m t v saved) as [m' r] eqn:E. cbn.
    apply PutTicket_inv in E as [[-> _]|(n & _ & -> & _)]; [done|].
    by apply map_Forall_insert_2.
  - intros p (H1 & H2 & H3 & H4 & cur & H5 & H6 & H7).
    repeat (split; [done|]).
    destruct (PutTicket m t v saved) as [m' r] eqn:E. cbn.
    apply PutTicket_inv in E as [[-> _]|(n & _ & -> & _ & Hn)]; [by exists cur|].
    destruct (decide (t_ID t = t_ID (q_base p))) as [Heq|Hne].
    + rewrite Heq, H5 in Hn. destruct Hn as [-> _].
      exists (with_version t (t_ResourceVersion cur + 1)). rewrite Heq, lookup_insert_eq.
      split; [done|]. cbn. lia.
    + exists cur. by rewrite lookup_insert_ne.
Qed.

(** The same table leaves everything as it was; a new request needs only its
    own check. *)
Lemma sys_ok_tickets sv sv' ps :
  s_tickets sv' = s_tickets sv -> sys_ok (mkSys sv ps) -> sys_ok (mkSys sv' ps).
Proof. unfold sys_ok. cbn. by intros ->. Qed.

Lemma sys_ok_app sv sv' ps p :
  s_tickets sv' = s_tickets sv -> sys_ok (mkSys sv ps) -> pending_ok (s_tickets sv) p ->
  sys_ok (mkSys sv' (ps ++ [p])).
Proof. unfold sys_ok. cbn. intros -> [Ht Hp] H. split; [done|]. apply Forall_app. auto. Qed.

Lemma sys_ok_put sv sv' ps t v saved :
  s_tickets sv' = (PutTicket (s_tickets sv) t v saved).1 -> stamped t ->
  sys_ok (mkSys sv ps) -> sys_ok (mkSys sv' ps).
Proof.
  unfold sys_ok. cbn. intros -> Hs [Ht Hp].
  destruct (PutTicket_sys (s_tickets sv) t v saved Ht Hs) as [Ht' Hp'].
  split; [done|]. by eapply Forall_impl.
Qed.

Lemma sys_ok_delete sv ps i : sys_ok (mkSys sv ps) -> sys_ok (mkSys sv (delete i ps)).
Proof. intros [Ht Hp]. split; [done|]. by apply Forall_delete. Qed.

Lemma read_row_ok m id base : table_ok m -> m !! id = Some base ->
  rows_ok m /\ m !! t_ID base = Some base /\ stamped base.
Proof.
  intros (Hr & _ & Hs) Hb. split; [done|]. split; [|by apply (Hs id)].
  pose proof (Hr _ _ Hb) as [Hid _]. cbn in Hid. by rewrite Hid.
Qed.

Lemma tstep_sys_ok d y y' : sys_ok y -> tstep d y y' -> sys_ok y'.
Proof.
  intros Hy Hstep. destruct Hstep.
  - apply serveTicketsCreate_inv in H0 as [Ht|(req & _ & _ & Ht)]; [by eapply sys_ok_tickets|].
    eapply sys_ok_put; [exact Ht|exact I|done].
  - apply transition_read_inv in H as [Ht Hr].
    destruct (Hr _ _ eq_refl) as (Hb & to & Ha & ->).
    destruct (read_row_ok _ _ _ (proj1 Hy) Hb) as (Hro & Hb' & Hs).
    eapply sys_ok_app; [done..|]. apply pending_new; [done..| | |done].
    + by apply apply_transition_change.
    + by apply apply_transition_stamped.
  - apply transition_read_inv in H as [Ht _]. by eapply sys_ok_tickets.
  - apply assign_read_inv in H as [Ht Hr]. destruct (Hr _ _ eq_refl) as (Hb & a & ->).
    destruct (read_row_ok _ _ _ (proj1 Hy) Hb) as (Hro & Hb' & Hs).
    eapply sys_ok_app; [done..|]. apply pending_new; [done..| |done|done].
    apply apply_assign_change.
  - apply assign_read_inv in H as [Ht _]. by eapply sys_ok_tickets.
  - apply escalate_read_inv in H as (Hb & He & _ & ->).
    destruct (read_row_ok _ _ _ (proj1 Hy) Hb) as (Hro & Hb' & Hs).
    eapply sys_ok_app; [done..|]. apply pending_new; [done..| |done|done].
    by apply apply_escalate_change.
  - apply sys_ok_delete. eapply sys_ok_put; [apply write_back_tickets| |done].
    destruct Hy as [_ Hp]. cbn in Hp. rewrite Forall_lookup in Hp.
    by destruct (Hp _ _ H) as (_ & ? & _).
  - eapply sys_ok_tickets; [|done].
    pose proof (serveTicketNote_tickets sv auth body id env) as Hn. by rewrite H in Hn.
  - by apply sys_ok_delete.
Qed.

Lemma reachable_sys_ok d y : reachable d y -> sys_ok y.
Proof.
  induction 1 as [m|y y' _ IH Hs]; [|by eapply tstep_sys_ok].
  split; [|by constructor]. split; [by apply map_Forall_empty|].
  split; [by intros ? ? ? ?|by apply map_Forall_empty].
Qed.

(** What one step can do to one row. *)
Definition row_step (y : sys) (o n : option Ticket) : Prop :=
  n = o \/
  (o = None /\ exists t, n = Some t /\ t_State t = "open" /\ t_ResourceVersion t = 1%Z) \/
  exists old p, o = Some old /\ p ∈ y_pending y /\ q_base p = old /\
    n = Some (with_version (q_new p) (t_ResourceVersion old + 1)) /\ row_change old (q_new p).

Lemma write_row_step sv ps i p env id :
  sys_ok (mkSys sv ps) -> ps !! i = Some p ->
  row_step (mkSys sv ps) (s_tickets sv !! id) (s_tickets (write_back sv p env) !! id).
Proof.
  intros [_ Hp] Hi. cbn in Hp. rewrite Forall_lookup in Hp.
  destruct (Hp _ _ Hi) as (Hc & _ & Hv & H1 & cur & Hcur & _ & Hsame).
  rewrite write_back_tickets. destruct (PutTicket _ _ _ _) as [m r] eqn:E. cbn.
  apply PutTicket_inv in E as [[-> _]|(n & _ & -> & _ & Hn)]; [by left|].
  assert (Hid : t_ID (q_new p) = t_ID (q_base p)) by apply Hc.
  rewrite Hid in *. rewrite Hcur in Hn. destruct Hn as [-> Hn].
  assert (Hcb : cur = q_base p) by (apply Hsame; rewrite <- Hv; apply Hn; lia).
  destruct (decide (t_ID (q_base p) = id)) as [<-|Hne]; [|left; by rewrite lookup_insert_ne].
  right; right. exists cur, p. rewrite Hcur, lookup_insert_eq, Hcb.
  repeat (split; [done|]). split; [by eapply list_elem_of_lookup_2|]. auto.
Qed.

Lemma tstep_row d y y' id :
  sys_ok y -> tstep d y y' ->
  row_step y (s_tickets (y_server y) !! id) (s_tickets (y_server y') !! id).
Proof.
  intros Hy Hstep. destruct Hstep; cbn [y_server]; try (by left).
  - apply serveTicketsCreate_inv in H0 as [->|(req & _ & _ & ->)]; [by left|].
    destruct (PutTicket _ _ _ _) as [m r'] eqn:E. cbn.
    apply PutTicket_inv in E as [[-> _]|(n & _ & -> & _ & Hn)]; [by left|].
    cbn in Hn |- *. rewrite H in Hn. destruct Hn as [-> _].
    destruct (decide (env_id env = id)) as [<-|Hne]; [|left; by rewrite lookup_insert_ne].
    right; left. rewrite lookup_insert_eq. eauto.
  - apply transition_read_inv in H as [-> _]. by left.
  - apply transition_read_inv in H as [-> _]. by left.
  - apply assign_read_inv in H as [-> _]. by left.
  - apply assign_read_inv in H as [-> _]. by left.
  - by eapply write_row_step.
  - left. pose proof (serveTicketNote_tickets sv auth body id0 env) as Hn.
    rewrite H in Hn. cbn in Hn. by rewrite Hn.
Qed.


(** In every reachable table the rows are stored under their id with a
    version of at least one, carry the time stamps of their state (an
    acknowledged ticket was acknowledged at some time, a resolved one resolved,
    a closed one closed), and no alarm has two tickets that are not closed. *)
Lemma reachable_table_ok d y :
  reachable d y -> table_ok (s_tickets (y_server y)).
Proof. intros H%reachable_sys_ok. apply H. Qed.

(** *** The SLA scanner *)

(** A row the scanner escalates, and what it becomes. *)
Definition sla_candidate (t : Ticket) (now : time) : bool :=
  not_escalated t && isSLABreach t now.

Definition escalated (t : Ticket) (now : time) : Ticket :=
  with_version (apply_escalate t now) (t_ResourceVersion t + 1).

Lemma escalate_read_spec m id now :
  escalate_read m id now =
  match m !! id with
  | Some cur => if sla_candidate cur now then Some (cur, apply_escalate cur now) else None
  | None => None
  end.
Proof.
  unfold escalate_read, GetTicket, sla_candidate. destruct (m !! id) as [cur|]; [|done].
  destruct (not_escalated cur), (isSLABreach cur now); done.
Qed.

(** Escalating a current row always passes the checks of the store. *)
Lemma PutTicket_escalate m id cur now saved :
  rows_ok m -> unique_active m -> m !! id = Some cur ->
  PutTicket m (apply_escalate cur now) (t_ResourceVersion cur) saved =
  if saved then (<[id := escalated cur now]> m, Ok (escalated cur now)) else (m, Err ErrSave).
Proof.
  intros Hr Hu Hm. destruct (Hr _ _ Hm) as [Hid H1]. unfold PutTicket.
  assert (Hd : duplicate_active m (apply_escalate cur now) = false).
  { apply not_true_iff_false. unfold duplicate_active. cbn [t_AlarmID t_State t_ID apply_escalate].
    intros [Ha ((id' & other) & Hin & Hx)%existsb_exists]%andb_true_iff.
    apply list_elem_of_In, elem_of_map_to_list in Hin. bool_simpl.
    repeat match goal with
    | H : str_eqb _ _ = true |- _ => apply str_eqb_eq in H
    | H : str_eqb _ _ = false |- _ => apply str_eqb_neq in H
    end.
    match goal with H : id' <> _ |- _ => apply H end.
    rewrite Hid. eapply Hu; [exact Hin|exact Hm|split|split|]; congruence. }
  rewrite Hd. cbn. rewrite Hid, Hm. rewrite Z.eqb_refl. cbn [negb]. rewrite andb_false_r.
  by destruct saved.
Qed.

(** One step of the loop. *)
Lemma escalate_loop_cons m t rest now saved k :
  rows_ok m -> unique_active m ->
  escalate_loop m (t :: rest) now saved k =
  match m !! t_ID t with
  | Some cur =>
      if sla_candidate cur now && saved k
      then let '(m2, evs) :=
             escalate_loop (<[t_ID t := escalated cur now]> m) rest now saved (S k) in
           (m2, apply_escalate cur now :: evs)
      else escalate_loop m rest now saved (S k)
  | None => escalate_loop m rest now saved (S k)
  end.
Proof.
  intros Hr Hu. cbn [escalate_loop]. rewrite escalate_read_spec.
  destruct (m !! t_ID t) as [cur|] eqn:Em; [|done].
  destruct (sla_candidate cur now); cbn [andb]; [|done].
  cbn [t_ResourceVersion apply_escalate].
  rewrite (PutTicket_escalate m (t_ID t) cur) by done. by destruct (saved k).
Qed.

Lemma escalated_table m id cur now :
  rows_ok m -> unique_active m -> m !! id = Some cur ->
  rows_ok (<[id := escalated cur now]> m) /\ unique_active (<[id := escalated cur now]> m).
Proof.
  intros Hr Hu Hm.
  pose proof (PutTicket_rows_ok m (apply_escalate cur now) (t_ResourceVersion cur) true Hr) as H1.
  pose proof (PutTicket_unique m (apply_escalate cur now) (t_ResourceVersion cur) true Hu) as H2.
  by rewrite (PutTicket_escalate m id cur) in H1, H2 by done.
Qed.

Lemma sla_candidate_escalated t now now' : sla_candidate (escalated t now) now' = false.
Proof. done. Qed.

(** What the loop promises for the rows, and for the events. *)
Definition escalation_rows (m m' : gmap string Ticket) (ids : list string) (now : time) : Prop :=
  forall id, m' !! id =
    match m !! id with
    | Some cur => Some (if sla_candidate cur now && bool_decide (id ∈ ids)
                        then escalated cur now else cur)
    | None => None
    end.

Definition escalation_events (m : gmap string Ticket) (evs : list Ticket) (ids : list string)
    (now : time) : Prop :=
  NoDup (t_ID <$> evs) /\
  forall e, e ∈ evs <-> exists id cur, id ∈ ids /\ m !! id = Some cur /\
    sla_candidate cur now = true /\ e = apply_escalate cur now.

(** An id that is not a candidate can be dropped from the list. *)
Lemma escalation_skip m m' evs id0 ids now :
  (forall cur, m !! id0 = Some cur -> sla_candidate cur now = false) ->
  escalation_rows m m' ids now /\ escalation_events m evs ids now ->
  escalation_rows m m' (id0 :: ids) now /\ escalation_events m evs (id0 :: ids) now.
Proof.
  intros Hno [H1 [H2 H3]]. split; [|split; [done|]].
  - intros id. rewrite H1. destruct (m !! id) as [cur|] eqn:Em; [|done].
    destruct (sla_candidate cur now) eqn:Ec; [|done]. cbn [andb].
    destruct (decide (id = id0)) as [->|Hne]; [by rewrite (Hno _ Em) in Ec|].
    f_equal. rewrite (bool_decide_ext (id ∈ id0 :: ids) (id ∈ ids)); [done|].
    rewrite elem_of_cons. tauto.
  - intros e. rewrite H3. split; intros (id & cur & Hin & Hm & Hc & ->); exists id, cur.
    + rewrite elem_of_cons. auto.
    + apply elem_of_cons in Hin as [->|Hin]; [by rewrite (Hno _ Hm) in Hc|auto].
Qed.

(** A candidate at the head is escalated before the rest. *)
Lemma escalation_take m m' evs id0 cur0 ids now :
  rows_ok m -> m !! id0 = Some cur0 -> sla_candidate cur0 now = true ->
  escalation_rows (<[id0 := escalated cur0 now]> m) m' ids now /\
  escalation_events (<[id0 := escalated cur0 now]> m) evs ids now ->
  escalation_rows m m' (id0 :: ids) now /\
  escalation_events m (apply_escalate cur0 now :: evs) (id0 :: ids) now.
Proof.
  intros Hr Hm0 Hc0 [H1 [H2 H3]].
  assert (Hother : forall id cur, <[id0 := escalated cur0 now]> m !! id = Some cur ->
    sla_candidate cur now = true -> id <> id0 /\ m !! id = Some cur).
  { intros id cur [[<- <-]|[? ?]]%lookup_insert_Some Hc; [done|auto]. }
  split; [|split].
  - intros id. rewrite H1. destruct (decide (id = id0)) as [->|Hne].
    + rewrite lookup_insert_eq, Hm0, sla_candidate_escalated, Hc0.
      rewrite (bool_decide_eq_true_2 (id0 ∈ id0 :: ids)) by (by left). done.
    + rewrite lookup_insert_ne by done. destruct (m !! id); [|done].
      rewrite (bool_decide_ext (id ∈ id0 :: ids) (id ∈ ids)); [done|].
      rewrite elem_of_cons. tauto.
  - cbn. constructor; [|done]. intros (e & He & Hin)%list_elem_of_fmap.
    apply H3 in Hin as (id & cur & _ & Hm & Hc & ->).
    destruct (Hother _ _ Hm Hc) as [Hne Hm']. apply Hne.
    destruct (Hr _ _ Hm') as [Hid _]. destruct (Hr _ _ Hm0) as [Hid0 _].
    cbn in He. congruence.
  - intros e. rewrite elem_of_cons, H3. split.
    + intros [->|(id & cur & Hin & Hm & Hc & ->)].
      * exists id0, cur0. rewrite elem_of_cons. auto.
      * destruct (Hother _ _ Hm Hc). exists id, cur. rewrite elem_of_cons. auto.
    + intros (id & cur & Hin & Hm & Hc & ->).
      destruct (decide (id = id0)) as [->|Hne]; [left; congruence|].
      apply elem_of_cons in Hin as [->|Hin]; [done|]. right. exists id, cur.
      rewrite lookup_insert_ne by done. auto.
Qed.

(** The whole loop when every save succeeds. *)
Lemma escalate_loop_spec now breached : forall m k m' evs,
  rows_ok m -> unique_active m ->
  escalate_loop m breached now (fun _ => true) k = (m', evs) ->
  escalation_rows m m' (t_ID <$> breached) now /\
  escalation_events m evs (t_ID <$> breached) now.
Proof.
  induction breached as [|t rest IH]; intros m k m' evs Hr Hu.
  - intros [= <- <-]. split; [|split; [constructor|]].
    + intros id. destruct (m !! id); [|done]. cbn. by rewrite andb_false_r.
    + intros e. split; [by intros ?%elem_of_nil|by intros (? & ? & ?%elem_of_nil & _)].
  - rewrite escalate_loop_cons by done. cbn [fmap list_fmap].
    destruct (m !! t_ID t) as [cur|] eqn:Em.
    + destruct (sla_candidate cur now) eqn:Ec; cbn [andb].
      * destruct (escalated_table m _ cur now Hr Hu Em) as [Hr' Hu'].
        destruct (escalate_loop _ rest _ _ _) as [m2 evs2] eqn:El. intros [= <- <-].
        apply escalation_take; [done..|]. by eapply IH.
      * intros El. apply escalation_skip; [congruence|]. by eapply IH.
    + intros El. apply escalation_skip; [congruence|]. by eapply IH.
Qed.

(** Whatever the saves do, an event is only produced by stamping a row that
    had no stamp, and the stamp stays. *)
Lemma escalate_loop_once now breached saved : forall m k m' evs,
  rows_ok m -> unique_active m ->
  escalate_loop m breached now saved k = (m', evs) ->
  rows_ok m' /\ unique_active m' /\
  (forall id cur, m !! id = Some cur -> not_escalated cur = false -> m' !! id = Some cur) /\
  forall e, e ∈ evs -> exists old new,
    m !! t_ID e = Some old /\ not_escalated old = true /\
    m' !! t_ID e = Some new /\ not_escalated new = false.
Proof.
  induction breached as [|t rest IH]; intros m k m' evs Hr Hu.
  - intros [= <- <-]. split_and!; [done..|]. by intros e ?%elem_of_nil.
  - rewrite escalate_loop_cons by done.
    destruct (m !! t_ID t) as [cur|] eqn:Em; [|by apply IH].
    destruct (sla_candidate cur now) eqn:Ec; cbn [andb]; [|by apply IH].
    destruct (saved k); [|by apply IH].
    destruct (escalated_table m _ cur now Hr Hu Em) as [Hr' Hu'].
    destruct (escalate_loop _ rest _ _ _) as [m2 evs2] eqn:El. intros [= <- <-].
    destruct (IH _ _ _ _ Hr' Hu' El) as (H1 & H2 & H3 & H4). split_and!; [done..| |].
    + intros id c Hc Hn. apply H3; [|done].
      rewrite lookup_insert_ne; [done|]. intros <-. simplify_eq.
      unfold sla_candidate in Ec. by rewrite Hn in Ec.
    + assert (Hnc : not_escalated cur = true) by (by apply andb_true_iff in Ec as [? _]).
      intros e [->|He]%elem_of_cons.
      * destruct (Hr _ _ Em) as [Hid _]. cbn [t_ID apply_escalate]. rewrite Hid.
        exists cur, (escalated cur now). split_and!; [done..| |done].
        apply H3; [by rewrite lookup_insert_eq|done].
      * destruct (H4 _ He) as (old & new & Ho & Hno & Hn & Hnn).
        exists old, new. split_and!; [|done..].
        apply lookup_insert_Some in Ho as [[? <-]|[? ?]]; done.
Qed.

(** The listing the scanner asks for. *)
Definition ListTickets (m : gmap string Ticket) : list Ticket := (map_to_list m).*2.

Lemma ListTickets_candidate m id t now :
  rows_ok m -> m !! id = Some t -> sla_candidate t now = true ->
  id ∈ (t_ID <$> scanSLA now (ListTickets m)).
Proof.
  intros Hr Hm Hc. destruct (Hr _ _ Hm) as [Hid _]. cbn in Hid.
  apply list_elem_of_fmap. exists t. split; [done|].
  apply list_elem_of_In, filter_In. split; [|exact Hc].
  apply list_elem_of_In, list_elem_of_fmap. exists (id, t). split; [done|].
  by apply elem_of_map_to_list.
Qed.

(** A scanner pass over a reachable table that wins the lock and whose
    saves succeed stamps exactly the open or acknowledged tickets past their
    SLA window that had no stamp, leaves every other row alone, and produces
    one event for each stamped ticket. *)
Lemma scanSLATick_complete d y now m' evs :
  reachable d y -> let m := s_tickets (y_server y) in
  scanSLATick m true (ListTickets m) now (fun _ => true) = (m', evs) ->
  (forall id, m' !! id =
    (fun t => if sla_candidate t now then escalated t now else t) <$> m !! id) /\
  NoDup (t_ID <$> evs) /\
  (forall e, e ∈ evs <-> exists id t, m !! id = Some t /\ sla_candidate t now = true /\
    e = apply_escalate t now).
Proof.
  intros ((Hr & Hu & _) & _)%reachable_sys_ok m Hscan. unfold scanSLATick in Hscan.
  apply escalate_loop_spec in Hscan as (H1 & H2 & H3); [|done..].
  pose proof (ListTickets_candidate m) as Hl. split; [|split; [done|]].
  - intros id. rewrite H1. destruct (m !! id) as [t|] eqn:Em; [|done]. cbn.
    destruct (sla_candidate t now) eqn:Ec; [|done]. cbn [andb].
    rewrite bool_decide_eq_true_2; [done|]. by eapply Hl.
  - intros e. rewrite H3. split.
    + intros (id & t & _ & ? & ? & ->). eauto.
    + intros (id & t & Hm & Hc & ->). exists id, t. split; [by eapply Hl|auto].
Qed.

(** No ticket is escalated twice: for any two scanner passes, whatever
    they listed, whenever they run and whichever saves fail, a ticket the first
    produced an event for produces none in the second. *)
Lemma escalated_once d y locked1 locked2 all1 all2 now1 now2 saved1 saved2 m1 evs1 m2 evs2 :
  reachable d y ->
  scanSLATick (s_tickets (y_server y)) locked1 all1 now1 saved1 = (m1, evs1) ->
  scanSLATick m1 locked2 all2 now2 saved2 = (m2, evs2) ->
  forall e1 e2, e1 ∈ evs1 -> e2 ∈ evs2 -> t_ID e1 <> t_ID e2.
Proof.
  intros ((Hr & Hu & _) & _)%reachable_sys_ok H1 H2 e1 e2 He1 He2 Heq.
  unfold scanSLATick in H1, H2.
  destruct locked1; cbn [negb] in H1; [|injection H1 as <- <-; by apply elem_of_nil in He1].
  destruct locked2; cbn [negb] in H2; [|injection H2 as <- <-; by apply elem_of_nil in He2].
  apply escalate_loop_once in H1 as (Hr1 & Hu1 & _ & Hev1); [|done..].
  apply escalate_loop_once in H2 as (_ & _ & _ & Hev2); [|done..].
  destruct (Hev1 _ He1) as (o1 & n1 & _ & _ & Hn1 & Hs1).
  destruct (Hev2 _ He2) as (o2 & n2 & Ho2 & Hs2 & _).
  rewrite <- Heq, Hn1 in Ho2. congruence.
Qed.

(** *** The transition handler without a race *)

Lemma allowedTransition_state from to :
  allowedTransition from to = true -> contains_string allowedTicketStates to = true.
Proof.
  unfold allowedTransition. intros H. apply contains_string_In. cbn.
  repeat case_match; try done;
    repeat match goal with
    | H : str_eqb _ _ || str_eqb _ _ = true |- _ => apply orb_true_iff in H as [H|H]
    end; repeat match goal with H : str_eqb to _ = true |- _ => apply str_eqb_eq in H end; auto.
Qed.

(** The row read is still there when it is written back, so the version check
    passes, and so does the check for a second active ticket. *)
Lemma PutTicket_transition m id t to now saved :
  table_ok m -> m !! id = Some t -> allowedTransition (t_State t) to = true ->
  PutTicket m (apply_transition t to now) (t_ResourceVersion t) saved =
  let out := with_version (apply_transition t to now) (t_ResourceVersion t + 1) in
  if saved then (<[id := out]> m, Ok out) else (m, Err ErrSave).
Proof.
  intros (Hr & Hu & _) Hm Ha. destruct (Hr _ _ Hm) as [Hid H1]. unfold PutTicket.
  assert (Hd : duplicate_active m (apply_transition t to now) = false).
  { apply not_true_iff_false. unfold duplicate_active.
    cbn [t_AlarmID t_State t_ID apply_transition].
    intros [Hal ((id' & other) & Hin & Hx)%existsb_exists]%andb_true_iff.
    apply list_elem_of_In, elem_of_map_to_list in Hin. bool_simpl.
    assert (Hnc : t_State t <> "closed") by (intros Hc; by rewrite Hc in Ha).
    repeat match goal with
    | H : str_eqb _ _ = true |- _ => apply str_eqb_eq in H
    | H : str_eqb _ _ = false |- _ => apply str_eqb_neq in H
    end.
    match goal with H : id' <> _ |- _ => apply H end.
    rewrite Hid. eapply Hu; [exact Hin|exact Hm|split|split|]; congruence. }
  rewrite Hd. cbn. rewrite Hid, Hm, Z.eqb_refl. cbn [negb]. rewrite andb_false_r.
  by destruct saved.
Qed.

Lemma serveTicketTransition_ok sv auth to id env t :
  table_ok (s_tickets sv) -> s_tickets sv !! id = Some t ->
  allowedTransition (t_State t) to = true ->
  (check_scope sv auth ActionControlWrite (t_AssetPath t)).2 = true ->
  env_put_saved env = true ->
  let out := with_version (apply_transition t to (env_now env)) (t_ResourceVersion t + 1) in
  let res := serveTicketTransition sv auth (Some to) id env in
  res.2 = Ok out /\ s_tickets res.1 = <[id := out]> (s_tickets sv) /\
  s_audits res.1 = append_saved (s_audits sv)
    (mkTicketAudit (env_audit_id env) id "transitioned" (t_State t) to (who auth) (env_now env))
    (env_audit_saved env).
Proof.
  intros Hok Hm Ha Hs Hsave. unfold serveTicketTransition, transition_read, GetTicket.
  rewrite (allowedTransition_state _ _ Ha), Hm, Ha. cbn [negb].
  destruct (check_scope sv auth _ _) as [sv1 ok] eqn:Es. cbn in Hs. subst ok. cbn [negb].
  assert (Haud : s_audits sv1 = s_audits sv).
  { revert Es. unfold check_scope. destruct auth; [|by intros [= <-]].
    destruct (authorize _ _ _ _). by intros [= <-]. }
  apply check_scope_inv in Es. destruct Hok as (Hr & Hok'). destruct (Hr _ _ Hm) as [Hid _].
  unfold cas_write. rewrite Es. cbn [t_ResourceVersion apply_transition].
  rewrite (PutTicket_transition _ id) by done. rewrite Hsave. cbn.
  rewrite Haud, Hid. done.
Qed.

Lemma serveTicketTransition_fail sv auth to id env out :
  (serveTicketTransition sv auth (Some to) id env).2 = Ok out ->
  exists t, s_tickets sv !! id = Some t /\ allowedTransition (t_State t) to = true /\
    (check_scope sv auth ActionControlWrite (t_AssetPath t)).2 = true /\
    env_put_saved env = true.
Proof.
  unfold serveTicketTransition, transition_read, GetTicket.
  destruct (negb _); [done|]. destruct (s_tickets sv !! id) as [t|] eqn:Em; [|done].
  destruct (allowedTransition _ to) eqn:Ea; cbn [negb]; [|done].
  destruct (check_scope sv auth _ _) as [sv1 ok] eqn:Es. destruct ok; cbn [negb]; [|done].
  intros H. exists t. rewrite Es. split_and!; [done..|].
  destruct (env_put_saved env) eqn:Ep; [done|]. unfold cas_write in H. rewrite Ep in H.
  destruct (PutTicket _ _ _ false) as [m r] eqn:E. unfold PutTicket in E.
  repeat case_match; simplify_eq/=.
Qed.

(** On a sound table and without a concurrent writer the transition
    request succeeds exactly when the ticket exists, the transition table
    allows the move, the principal (if any) is authorised for the ticket's
    asset and the save succeeds; then the row is the one read with the new
    state, the first-time stamp and the next version, nothing else in the table
    moves, and an audit row records the old and the new state.  It is then never
    refused as a conflict. *)
Lemma transition_iff sv auth to id env :
  table_ok (s_tickets sv) ->
  let res := serveTicketTransition sv auth (Some to) id env in
  ((exists out, res.2 = Ok out) <->
   exists t, s_tickets sv !! id = Some t /\ allowedTransition (t_State t) to = true /\
     (check_scope sv auth ActionControlWrite (t_AssetPath t)).2 = true /\
     env_put_saved env = true) /\
  (forall out, res.2 = Ok out -> exists t, s_tickets sv !! id = Some t /\
     out = with_version (apply_transition t to (env_now env)) (t_ResourceVersion t + 1) /\
     s_tickets res.1 = <[id := out]> (s_tickets sv) /\
     s_audits res.1 = append_saved (s_audits sv)
       (mkTicketAudit (env_audit_id env) id "transitioned" (t_State t) to (who auth)
          (env_now env)) (env_audit_saved env)).
Proof.
  intros Hok. cbv zeta. split; [split|].
  - intros [out H]. by eapply serveTicketTransition_fail.
  - intros (t & Hm & Ha & Hs & Hp). eexists.
    by apply (serveTicketTransition_ok sv auth to id env t).
  - intros out H. destruct (serveTicketTransition_fail _ _ _ _ _ _ H) as (t & Hm & Ha & Hs & Hp).
    destruct (serveTicketTransition_ok sv auth to id env t Hok Hm Ha Hs Hp) as (H1 & H2 & H3).
    exists t. rewrite H in H1. injection H1 as ->. auto.
Qed.

(** ** A concrete run *)

Definition env_at (now : time) (id : string) : request_env := mkEnv now id "ta_1" true true.
Definition demo_req : ticketCreateRequest :=
  mkCreate "sgp01.pod002" "hot pod" "critical" EmptyString "pod_hot".
Definition sv0 : server := mkServer ∅ [] [] open_meter.
Definition sv1 : server :=
  (serveTicketsCreate demo_dict sv0 None (Some demo_req) (env_at 0 "tk_A")).1.

Example demo_created : t_ResourceVersion <$> s_tickets sv1 !! "tk_A" = Some 1%Z.
Proof. vm_compute. reflexivity. Qed.

(** A second active ticket on the same alarm is refused. *)
Example demo_duplicate :
  (serveTicketsCreate demo_dict sv1 None (Some demo_req) (env_at 0 "tk_B")).2 =
  Err (Problem 409 "conflict" "duplicate active ticket").
Proof. vm_compute. reflexivity. Qed.

Lemma demo_reach1 : reachable demo_dict (mkSys sv1 []).
Proof.
  eapply reach_step; [apply (reach_init demo_dict open_meter)|].
  eapply (ts_create demo_dict sv0 [] None (Some demo_req) (env_at 0 "tk_A")); [done|].
  apply surjective_pairing.
Qed.

(** Two requests read the same row; the second to write loses. *)
Definition demo_ack : result problem (Ticket * Ticket) :=
  (transition_read sv1 None (Some "acknowledged") "tk_A" 5).2.
Definition demo_p1 : pending :=
  match demo_ack with
  | Ok (b, t) => mkPending None b t "transitioned"
  | Err _ => mkPending None (new_row demo_req (env_at 0 "x")) (new_row demo_req (env_at 0 "x"))
               EmptyString
  end.
Definition demo_p2 : pending :=
  match (assign_read sv1 None (Some "ops") "tk_A").2 with
  | Ok (b, t) => mkPending None b t "assigned"
  | Err _ => demo_p1
  end.

Lemma demo_reach2 : reachable demo_dict (mkSys sv1 [demo_p1; demo_p2]).
Proof.
  eapply (reach_step _ (mkSys sv1 [demo_p1])).
  - eapply reach_step; [apply demo_reach1|].
    eapply (ts_transition_read demo_dict sv1 [] None (Some "acknowledged") "tk_A" 5 sv1).
    reflexivity.
  - eapply (ts_assign_read demo_dict sv1 [demo_p1] None (Some "ops") "tk_A" sv1). reflexivity.
Qed.

Example demo_race :
  (cas_write (write_back sv1 demo_p1 (env_at 6 "x")) None (q_base demo_p2) (q_new demo_p2)
     "assigned" (env_at 7 "x")).2 =
  Err (Problem 409 "version-conflict" "ticket was updated concurrently; refetch and retry").
Proof. vm_compute. reflexivity. Qed.


Lemma reachable_table_ok_witness : table_ok (s_tickets sv1).
Proof. exact (reachable_table_ok demo_dict (mkSys sv1 []) demo_reach1). Defined.

Definition demo_tick : gmap string Ticket * list Ticket :=
  scanSLATick (s_tickets sv1) true (ListTickets (s_tickets sv1)) (16 * Minute) (fun _ => true).

Example demo_tick_events : t_ID <$> demo_tick.2 = ["tk_A"].
Proof. vm_compute. reflexivity. Qed.

Lemma scanSLATick_complete_witness :
  t_EscalatedAt <$> demo_tick.1 !! "tk_A" = Some (Some (16 * Minute)%Z) /\
  NoDup (t_ID <$> demo_tick.2).
Proof.
  destruct (scanSLATick_complete demo_dict (mkSys sv1 []) (16 * Minute) demo_tick.1 demo_tick.2
    demo_reach1 eq_refl) as (H1 & H2 & _).
  split; [|exact H2]. rewrite H1. vm_compute. reflexivity.
Defined.

Definition demo_tick2 : gmap string Ticket * list Ticket :=
  scanSLATick demo_tick.1 true (ListTickets demo_tick.1) (20 * Minute) (fun _ => true).

Lemma escalated_once_witness : ("tk_A" ∉ (t_ID <$> demo_tick2.2)).
Proof.
  intros (e2 & Heq & He2)%list_elem_of_fmap.
  assert (Hin : "tk_A" ∈ (t_ID <$> demo_tick.2)) by (rewrite demo_tick_events; by left).
  apply list_elem_of_fmap in Hin as (e1 & Heq1 & He1).
  apply (escalated_once demo_dict (mkSys sv1 []) true true (ListTickets (s_tickets sv1))
    (ListTickets demo_tick.1) (16 * Minute) (20 * Minute) (fun _ => true) (fun _ => true)
    demo_tick.1 demo_tick.2 demo_tick2.1 demo_tick2.2 demo_reach1) with e1 e2;
    [apply surjective_pairing..|done|done|congruence].
Defined.

Lemma transition_iff_witness :
  exists out,
    (serveTicketTransition sv1 None (Some "acknowledged") "tk_A" (env_at 6 "x")).2 = Ok out.
Proof.
  assert (Hok : table_ok (s_tickets sv1)) by (apply (reachable_sys_ok _ _ demo_reach1)).
  apply (proj1 (transition_iff sv1 None "acknowledged" "tk_A" (env_at 6 "x") Hok)).
  exists (with_version (new_row demo_req (env_at 0 "tk_A")) 1). vm_compute. repeat split.
Defined.
