(* ===== verification/TicketScan.v ===== *)
(** * Scanners that open one ticket per subject

    The low-stock scanner (core/spares.go) and the drift scanner
    (core/reconcile.go) are one algorithm: for every subject that needs it, open
    a ticket under the alarm id of the subject unless one that is not closed
    exists.  [TicketSource] is what a scanner says of its subjects; the theorem
    is proved once against it. *)
From S2P Require Import Prelude GoTime CPath RBAC Http Tickets.
Open Scope string_scope.
Open Scope list_scope.

Class TicketSource (A : Type) : Type := {
  source_alarm : A -> string;
  source_wants : A -> bool;
  (* the ticket opened at a time under a minted id, as handed to the store *)
  source_ticket : A -> time -> string -> Ticket
}.

(** The loop over all tickets. *)
Definition has_open_ticket (m : gmap string Ticket) (alarm : string) : bool :=
  existsb (fun t => str_eqb (t_AlarmID t) alarm && negb (str_eqb (t_State t) "closed")) (ListTickets m).

Section source.
Context {A : Type} `{TicketSource A}.

Definition open_ticket (m : gmap string Ticket) (x : A) (now : time) (id : string) (saved : bool) :
    gmap string Ticket :=
  if has_open_ticket m (source_alarm x) then m else (PutTicket m (source_ticket x now id) 0 saved).1.

(** [id k] is the minted id and [saved k] the outcome of the save of the [k]-th
    subject. *)
Fixpoint ticket_loop (m : gmap string Ticket) (xs : list A) (now : time) (id : nat -> string)
    (saved : nat -> bool) (k : nat) : gmap string Ticket :=
  match xs with
  | [] => m
  | x :: rest =>
      ticket_loop (if negb (source_wants x) then m else open_ticket m x now (id k) (saved k)) rest now id saved (S k)
  end.
End source.

(** A scanner's tickets carry the minted id and the alarm id, and are open. *)
Class TicketSourceLaws (A : Type) `{TicketSource A} : Prop := {
  source_alarm_set : forall x, source_alarm x <> EmptyString;
  source_ticket_open : forall x now id, let t := source_ticket x now id in
    t_ID t = id /\ t_AlarmID t = source_alarm x /\ t_State t = "open" /\ stamped t
}.

Definition has_open (m : gmap string Ticket) (alarm : string) : Prop :=
  exists id t, m !! id = Some t /\ t_AlarmID t = alarm /\ t_State t <> "closed".

Lemma has_open_ticket_spec m alarm : has_open_ticket m alarm = true <-> has_open m alarm.
Proof.
  unfold has_open_ticket, ListTickets. rewrite existsb_exists. split.
  - intros (t & ([id t'] & -> & Hin%elem_of_map_to_list)%list_elem_of_In%list_elem_of_fmap & H).
    apply andb_true_iff in H as [H1%str_eqb_eq H2%negb_true_iff].
    exists id, t'. split_and!; [done..|]. by apply str_eqb_neq.
  - intros (id & t & Hm & Ha & Hs). exists t. split.
    + apply list_elem_of_In, list_elem_of_fmap. exists (id, t). by rewrite elem_of_map_to_list.
    + rewrite Ha, str_eqb_refl. cbn [andb]. apply negb_true_iff. by apply str_eqb_neq.
Qed.

Lemma has_open_mono m m' alarm : m ⊆ m' -> has_open m alarm -> has_open m' alarm.
Proof. intros Hs (id & t & Hm & H). exists id, t. split; [by eapply lookup_weaken|done]. Qed.

Section laws.
Context {A : Type} `{TicketSourceLaws A}.

Definition opened (x : A) (now : time) (id : string) : Ticket := with_version (source_ticket x now id) 1.

Lemma open_ticket_spec m x now id saved : m !! id = None ->
  open_ticket m x now id saved =
  if has_open_ticket m (source_alarm x) || negb saved then m else <[id := opened x now id]> m.
Proof using Type*.
  intros Hid. unfold open_ticket. destruct (has_open_ticket m (source_alarm x)) eqn:E; [done|]. unfold PutTicket.
  destruct (source_ticket_open x now id) as (Ht & Ha & Hs & _).
  assert (Hd : duplicate_active m (source_ticket x now id) = false).
  { apply not_true_iff_false. unfold duplicate_active.
    intros [_ ((id' & other) & Hin & Hx)%existsb_exists]%andb_true_iff.
    apply list_elem_of_In, elem_of_map_to_list in Hin.
    apply andb_true_iff in Hx as [[_ Hal]%andb_true_iff Hst].
    apply not_true_iff_false in E. apply E, has_open_ticket_spec.
    exists id', other. rewrite Ha in Hal. apply str_eqb_eq in Hal. apply negb_true_iff, str_eqb_neq in Hst. done. }
  rewrite Hd, Ht, Hid. by destruct saved.
Qed.

Lemma opened_open x now id : has_open {[id := opened x now id]} (source_alarm x).
Proof using Type*.
  destruct (source_ticket_open x now id) as (_ & Ha & Hs & _). exists id, (opened x now id).
  split; [by rewrite lookup_singleton_eq|]. split; [done|]. unfold opened. cbn. by rewrite Hs.
Qed.

(** A pass under new ids: it only adds tickets, each for a subject that wants
    one and had none; the table stays well formed, so that no alarm id has two
    active tickets; and when the saves succeed every subject that wants a ticket
    has one. *)
Lemma ticket_loop_spec xs now id saved : forall m k,
  table_ok m -> (forall j, k <= j -> m !! id j = None) -> (forall i j, id i = id j -> i = j) ->
  let m' := ticket_loop m xs now id saved k in
  table_ok m' /\ m ⊆ m' /\
  (forall i t, m' !! i = Some t -> m !! i = Some t \/
    exists x, x ∈ xs /\ source_wants x = true /\ ~ has_open m (source_alarm x) /\ t = opened x now i) /\
  ((forall j, saved j = true) -> forall x, x ∈ xs -> source_wants x = true -> has_open m' (source_alarm x)).
Proof using Type*.
  induction xs as [|x rest IH]; intros m k Hok Hfresh Hinj; cbn [ticket_loop].
  { split_and!; [done|done|by left|]. by intros _ x ?%elem_of_nil. }
  set (m1 := if negb (source_wants x) then m else open_ticket m x now (id k) (saved k)).
  assert (Hm1 : m1 = m \/ (source_wants x = true /\ ~ has_open m (source_alarm x) /\
                           m1 = <[id k := opened x now (id k)]> m)).
  { unfold m1. destruct (source_wants x); cbn [negb]; [|by left]. rewrite open_ticket_spec by (by apply Hfresh).
    destruct (has_open_ticket m (source_alarm x)) eqn:E; [by left|]. destruct (saved k); cbn; [right|by left].
    split; [done|]. split; [|done]. intros Hh%has_open_ticket_spec. congruence. }
  assert (Hok1 : table_ok m1).
  { unfold m1. destruct (negb _); [done|]. unfold open_ticket. destruct (has_open_ticket _ _); [done|].
    apply PutTicket_sys; [done|]. apply (source_ticket_open x now (id k)). }
  assert (Hs1 : m ⊆ m1).
  { destruct Hm1 as [->|(_ & _ & ->)]; [done|]. by apply insert_subseteq, Hfresh. }
  destruct (IH m1 (S k) Hok1) as (H1 & H2 & H3 & H4); [|done|].
  { intros j Hj. destruct Hm1 as [->|(_ & _ & ->)]; [apply Hfresh; lia|].
    rewrite lookup_insert_ne; [apply Hfresh; lia|]. intros E%Hinj. lia. }
  split_and!; [done|by etrans| |].
  - intros i t [Ht|(y & Hy & Hw & Hno & ->)]%H3.
    + destruct Hm1 as [E|(Hw & Hno & E)]; rewrite E in Ht; [by left|].
      apply lookup_insert_Some in Ht as [[<- <-]|[_ Ht]]; [right|by left]. exists x. split; [by left|done].
    + right. exists y. split; [by right|]. split_and!; [done| |done]. intros Hh. apply Hno. by eapply has_open_mono.
  - intros Hsv y [->|Hy]%elem_of_cons Hw; [|by apply H4]. eapply has_open_mono; [exact H2|].
    unfold m1. rewrite Hw. cbn [negb]. rewrite open_ticket_spec by (by apply Hfresh). rewrite Hsv. cbn [negb].
    rewrite orb_false_r. destruct (has_open_ticket m (source_alarm x)) eqn:E; [by apply has_open_ticket_spec|].
    eapply has_open_mono; [|apply opened_open]. apply map_singleton_subseteq_l. by rewrite lookup_insert_eq.
Qed.

(** A pass that finds a ticket for every subject changes nothing. *)
Lemma ticket_loop_idle xs m now id saved : forall k,
  (forall x, x ∈ xs -> source_wants x = true -> has_open m (source_alarm x)) -> ticket_loop m xs now id saved k = m.
Proof using Type.
  induction xs as [|x rest IH]; intros k Ho; [done|]. cbn [ticket_loop].
  assert (E : (if negb (source_wants x) then m else open_ticket m x now (id k) (saved k)) = m).
  { destruct (source_wants x) eqn:Hw; [|done]. cbn [negb]. unfold open_ticket.
    by rewrite (proj2 (has_open_ticket_spec m (source_alarm x)) (Ho x ltac:(by left) Hw)). }
  rewrite E. apply IH. intros y Hy. apply Ho. by right.
Qed.
End laws.
