(* ===== verification/Control.v ===== *)
(** * Control writes (core/setctl.go, core/control_sink.go)

    The L108 allow-list and its risk classes, the set policy, the execution
    tail with its audit row and southbound dispatch, and the two-phase approval
    of class A.  Requests interleave: an approval reads the pending entry in one
    critical section and consumes it in another.  The main theorem is the
    two-man rule over every interleaving. *)
From S2P Require Import Prelude Float64 GoTime CPath RBAC Http.
Open Scope string_scope.
Open Scope list_scope.

(** ** Risk classes *)

Inductive RiskClass : Type := RiskClassA | RiskClassB | RiskClassC.

#[export] Instance RiskClass_eq_dec : EqDecision RiskClass.
Proof. solve_decision. Defined.

Record setAllowEntry : Type := mkAllow { al_Suffix : string; al_Class : RiskClass }.

Definition l108AllowList : list setAllowEntry :=
  [ mkAllow "chiller.compressor.status" RiskClassA;
    mkAllow "fws.supply.temp" RiskClassA;
    mkAllow "cdu.pump.rpm" RiskClassA;
    mkAllow "chiller.valve.opening" RiskClassA;
    mkAllow "switchgear.breaker.status" RiskClassA;
    mkAllow "bess.pcs.power" RiskClassA;
    mkAllow "genset.status" RiskClassA;
    mkAllow "ups.status" RiskClassA;
    mkAllow "drycooler.fan.rpm" RiskClassB;
    mkAllow "cdu.valve.opening" RiskClassB;
    mkAllow "tcs.opening" RiskClassB;
    mkAllow "tou.status" RiskClassB;
    mkAllow "pdu.status" RiskClassB;
    mkAllow "node.status" RiskClassB;
    mkAllow "gpu.clock" RiskClassC;
    mkAllow ".status" RiskClassC ].

(** [strings.ToLower] on the ASCII letters; the handlers only look up paths
    that passed [ParsePoint], which are ASCII. *)
Fixpoint to_lower (s : string) : string :=
  match s with
  | EmptyString => EmptyString
  | String c s' =>
      String (if is_upper c then ascii_of_N (N_of_ascii c + 32) else c) (to_lower s')
  end.

Fixpoint stripInstanceDigits (p : string) : string :=
  match p with
  | EmptyString => EmptyString
  | String c p' =>
      if is_digit c then stripInstanceDigits p' else String c (stripInstanceDigits p')
  end.

(** The condition under which the loop considers an entry. *)
Definition allow_matches (p norm : string) (e : setAllowEntry) : bool :=
  let suf := to_lower (al_Suffix e) in
  if str_eqb suf ".status" then has_suffix norm ".status" && contains "maintenance" norm
  else has_suffix norm suf || contains ("." +:+ suf) norm || has_suffix p suf.

Definition allow_len (e : setAllowEntry) : Z := Z.of_nat (str_len (to_lower (al_Suffix e))).

(** The loop: [best] is [bestLen] and [best]; a longer match replaces it. *)
Fixpoint lookup_loop (p norm : string) (entries : list setAllowEntry)
    (bestLen : Z) (best : option RiskClass) : option RiskClass :=
  match entries with
  | [] => best
  | e :: entries' =>
      if allow_matches p norm e && (bestLen <? allow_len e)%Z
      then lookup_loop p norm entries' (allow_len e) (Some (al_Class e))
      else lookup_loop p norm entries' bestLen best
  end.

Definition LookupRiskClass (pointPath : string) : option RiskClass :=
  let p := to_lower (TrimSpace pointPath) in
  if str_eqb p EmptyString then None
  else lookup_loop p (stripInstanceDigits p) l108AllowList (-1) None.

(** ** Requests *)

Record SetRequest : Type := mkSetRequest {
  rq_Value : float64; rq_TTLSeconds : Z; rq_SecondApprover : string;
  rq_RequireReadback : bool; rq_Note : string }.

Record SetAudit : Type := mkSetAudit {
  sa_ID : string; sa_Path : string; sa_Class : RiskClass; sa_Value : float64;
  sa_Actor : string; sa_Second : string; sa_At : time; sa_Readback : bool;
  sa_Note : string; sa_RequestID : string }.

Record ControlDispatch : Type := mkDispatch {
  d_Path : string; d_AuditID : string; d_Actor : string; d_Class : RiskClass;
  d_Value : float64; d_TTL : Duration; d_RequireReadback : bool }.

Record ControlDispatchResult : Type := mkDispatchResult {
  dr_Accepted : bool; dr_Readback : float64; dr_ReadbackTs : time; dr_Detail : string }.

Record pendingControl : Type := mkPendingControl {
  pc_ID : string; pc_Path : string; pc_Class : RiskClass; pc_Req : SetRequest;
  pc_Requester : string; pc_CreatedAt : time; pc_ExpiresAt : time }.

(** The parts of the server the control path touches; [k_sent] are the commands
    handed to the sink. *)
Record ctl : Type := mkCtl {
  k_audits : list SetAudit;
  k_pending : gmap string pendingControl;
  k_sent : list ControlDispatch;
  k_meter : meter }.

(** What the environment supplies: the clock, the minted ids, whether the save
    succeeds, the sink ([None]: not wired; [Err]: the dispatch fails) and the
    request id. *)
Record set_env : Type := mkSetEnv {
  se_now : time; se_audit_id : string; se_pending_id : string; se_saved : bool;
  se_sink : option (result unit ControlDispatchResult); se_rid : string }.

Inductive set_response : Type :=
  | RespPending (id : string) (expires : time)
  | RespAccepted (audit_id : string) (class : RiskClass) (readback dispatched : bool)
      (note : string) (readback_value : option float64).

Definition EvaluateSetPolicy (path actor : string) (req : SetRequest) :
    result (Z * string) RiskClass :=
  if str_eqb actor EmptyString then Err (401%Z, "missing actor identity")
  else if (rq_TTLSeconds req <=? 0)%Z then Err (400%Z, "ttl_seconds must be > 0")
  else
    match LookupRiskClass path with
    | None => Err (403%Z, "point is not on L108 rw allow-list (default ro)")
    | Some RiskClassA => Ok RiskClassA
    | Some RiskClassB =>
        if negb (rq_RequireReadback req)
        then Err (400%Z, "risk_class=b requires require_readback=true") else Ok RiskClassB
    | Some RiskClassC => Ok RiskClassC
    end.

Definition policy_problem (code : Z) (detail : string) : problem :=
  Problem code
    (if (code =? 400)%Z then "bad-request" else if (code =? 401)%Z then "unauthorized"
     else "set-denied") detail.

(** [time.Duration(req.TTLSeconds) * time.Second]. *)
Definition set_ttl (req : SetRequest) : Duration := wrap64 (rq_TTLSeconds req * Second).

Definition is_class_AB (c : RiskClass) : bool :=
  match c with RiskClassC => false | _ => true end.

Definition sink_note (res : ControlDispatchResult) : string :=
  if negb (str_eqb (dr_Detail res) EmptyString) then dr_Detail res
  else if dr_Accepted res then "dispatched southbound" else "sink refused write".

Definition executeSet (k : ctl) (pt : string) (class : RiskClass) (req : SetRequest)
    (actor second : string) (env : set_env) : ctl * result problem set_response :=
  let audit := mkSetAudit (se_audit_id env) pt class (rq_Value req) actor second (se_now env)
    (rq_RequireReadback req || is_class_AB class) (rq_Note req) (se_rid env) in
  if negb (se_saved env) then (k, Err store_error)
  else
    let audits := append_saved (k_audits k) audit (se_saved env) in
    match se_sink env with
    | None =>
        (mkCtl audits (k_pending k) (k_sent k) (k_meter k),
         Ok (RespAccepted (sa_ID audit) class (sa_Readback audit) false
               "policy gate only; no control sink wired" None))
    | Some answer =>
        let cmd := mkDispatch pt (sa_ID audit) actor class (rq_Value req) (set_ttl req)
          (sa_Readback audit) in
        let k' := mkCtl audits (k_pending k) (k_sent k ++ [cmd]) (k_meter k) in
        match answer with
        | Err _ => (k', Err (Problem 502 "upstream-unavailable" "control dispatch failed"))
        | Ok res =>
            (k', Ok (RespAccepted (sa_ID audit) class (sa_Readback audit) (dr_Accepted res)
                  (sink_note res)
                  (if dr_Accepted res &&
                      (fneb (dr_Readback res) f0 || negb (IsZero (dr_ReadbackTs res)))
                   then Some (dr_Readback res) else None)))
        end
    end.

(** The lazy sweep of expired entries. *)
Definition sweep (now : time) (m : gmap string pendingControl) : gmap string pendingControl :=
  filter (fun kv => ~ (pc_ExpiresAt kv.2 < now)%Z) m.

Definition serveSetPending (k : ctl) (auth : option Principal) (pt : string) (req : SetRequest)
    (env : set_env) : ctl * result problem set_response :=
  match auth with
  | None => (k, Err (Problem 401 "unauthorized"
      "risk_class=a requires an authenticated principal (header actor not accepted)"))
  | Some p =>
      let now := se_now env in
      let pend := mkPendingControl (se_pending_id env) pt RiskClassA req (p_Subject p) now
        (now + set_ttl req) in
      let audit := mkSetAudit (pc_ID pend) pt RiskClassA (rq_Value req) (p_Subject p)
        EmptyString now true "pending dual approval" (se_rid env) in
      if negb (se_saved env) then (k, Err store_error)
      else
        (mkCtl (append_saved (k_audits k) audit (se_saved env))
           (<[pc_ID pend := pend]> (sweep now (k_pending k))) (k_sent k) (k_meter k),
         Ok (RespPending (pc_ID pend) (pc_ExpiresAt pend)))
  end.

(** The body is [None] when it does not decode, [hdr] is X-CIOS-Actor. *)
Definition set_actor (auth : option Principal) (hdr : string) : string :=
  let actor := match auth with Some p => p_Subject p | None => EmptyString end in
  if str_eqb actor EmptyString then TrimSpace hdr else actor.

Definition servePointSet (d : Dict) (k : ctl) (auth : option Principal) (pt hdr : string)
    (body : option SetRequest) (env : set_env) : ctl * result problem set_response :=
  if negb (is_ok (ParsePoint d pt)) then (k, Err (Problem 400 "bad-path" "bad point path"))
  else
    match body with
    | None => (k, Err (bad_request "invalid set body"))
    | Some req =>
        let actor := set_actor auth hdr in
        match EvaluateSetPolicy pt actor req with
        | Err (code, detail) => (k, Err (policy_problem code detail))
        | Ok RiskClassA => serveSetPending k auth pt req env
        | Ok class => executeSet k pt class req actor (rq_SecondApprover req) env
        end
    end.

(** ** Approval *)

Definition no_pending : problem := Problem 404 "not-found" "no such pending control write".

Section approve.
(** The case-folding table of the standard library. *)
Context (same_orbit : N -> N -> bool).

(** The first critical section and the checks that follow it. *)
Definition approve_read (k : ctl) (auth : option Principal) (id : string) (now : time) :
    ctl * result problem (Principal * pendingControl) :=
  match auth with
  | None => (k, Err (Problem 401 "unauthorized" "approve requires an authenticated principal"))
  | Some approver =>
      match k_pending k !! id with
      | None => (k, Err no_pending)
      | Some pend =>
          if (pc_ExpiresAt pend <? now)%Z then
            (mkCtl (k_audits k) (delete id (k_pending k)) (k_sent k) (k_meter k),
             Err (Problem 410 "pending-expired" "pending control write expired"))
          else if EqualFold same_orbit (p_Subject approver) (pc_Requester pend)
          then (k, Err (Problem 403 "set-denied"
                 "approver must differ from requester (two-man rule)"))
          else
            let '(m, r) := authorize (k_meter k) approver ActionControlWrite (pc_Path pend) in
            let k' := mkCtl (k_audits k) (k_pending k) (k_sent k) m in
            match r with
            | Err _ => (k', Err (Problem 403 "forbidden"
                         "approver lacks control:write on the target path"))
            | Ok _ => (k', Ok (approver, pend))
            end
      end
  end.

(** The second critical section: consume the entry, then execute. *)
Definition approve_commit (k : ctl) (approver : Principal) (id : string) (pend : pendingControl)
    (env : set_env) : ctl * result problem set_response :=
  match k_pending k !! id with
  | None => (k, Err no_pending)
  | Some _ =>
      let k' := mkCtl (k_audits k) (delete id (k_pending k)) (k_sent k) (k_meter k) in
      executeSet k' (pc_Path pend) (pc_Class pend) (pc_Req pend) (pc_Requester pend)
        (p_Subject approver) env
  end.

(** [rest] is the URL path behind /v1/control/. *)
Definition serveControlApprove (k : ctl) (method rest : string) (auth : option Principal)
    (env : set_env) : ctl * result problem set_response :=
  if negb (has_suffix rest ":approve")
  then (k, Err (Problem 404 "not-found" "unknown control resource"))
  else if negb (str_eqb method "POST")
  then (k, Err (Problem 405 "method-not-allowed" "use POST for :approve"))
  else
    let id := trim_suffix rest ":approve" in
    match approve_read k auth id (se_now env) with
    | (k1, Err e) => (k1, Err e)
    | (k1, Ok (approver, pend)) => approve_commit k1 approver id pend env
    end.
End approve.

(** ** Interleaving

    The state of the server together with the history the theorem speaks of:
    what was parked and by whom, which approvals are between their two critical
    sections, and which were granted. *)

Record park : Type := mkPark { pk_by : Principal; pk_pend : pendingControl }.
Record flight : Type := mkFlight {
  fl_id : string; fl_approver : Principal; fl_pend : pendingControl; fl_read : time }.
Record grant : Type := mkGrant { gr_flight : flight; gr_audit : string }.

Record csys : Type := mkCsys {
  y_ctl : ctl; y_parks : list park; y_flights : list flight; y_grants : list grant }.

Definition park_ids (ps : list park) : list string := (fun p => pc_ID (pk_pend p)) <$> ps.
Definition grant_ids (gs : list grant) : list string := (fun g => fl_id (gr_flight g)) <$> gs.

(** The history entry of a set request: one if it parked a pending write. *)
Definition parked (auth : option Principal) (k' : ctl) (r : result problem set_response) :
    list park :=
  match auth, r with
  | Some p, Ok (RespPending id _) =>
      match k_pending k' !! id with Some pend => [mkPark p pend] | None => [] end
  | _, _ => []
  end.

Inductive cstep (d : Dict) (orbit : N -> N -> bool) : csys -> csys -> Prop :=
  | cs_set k ps fs gs auth pt hdr body env k' r :
      (se_pending_id env ∉ park_ids ps) ->
      servePointSet d k auth pt hdr body env = (k', r) ->
      cstep d orbit (mkCsys k ps fs gs) (mkCsys k' (ps ++ parked auth k' r) fs gs)
  | cs_approve_read k ps fs gs auth id now k' approver pend :
      approve_read orbit k auth id now = (k', Ok (approver, pend)) ->
      cstep d orbit (mkCsys k ps fs gs)
        (mkCsys k' ps (fs ++ [mkFlight id approver pend now]) gs)
  | cs_approve_refused k ps fs gs auth id now k' e :
      approve_read orbit k auth id now = (k', Err e) ->
      cstep d orbit (mkCsys k ps fs gs) (mkCsys k' ps fs gs)
  | cs_approve_commit k ps fs gs i f env k' r :
      fs !! i = Some f ->
      approve_commit k (fl_approver f) (fl_id f) (fl_pend f) env = (k', r) ->
      cstep d orbit (mkCsys k ps fs gs)
        (mkCsys k' ps (delete i fs)
           (if bool_decide (is_Some (k_pending k !! fl_id f))
            then gs ++ [mkGrant f (se_audit_id env)] else gs)).

Inductive creachable (d : Dict) (orbit : N -> N -> bool) : csys -> Prop :=
  | cr_init m : creachable d orbit (mkCsys (mkCtl [] ∅ [] m) [] [] [])
  | cr_step y y' : creachable d orbit y -> cstep d orbit y y' -> creachable d orbit y'.

(** *** The invariant *)

(** A pending write was parked by an authenticated principal under its subject,
    for a class A point. *)
Definition park_ok (p : park) : Prop :=
  p_Subject (pk_by p) = pc_Requester (pk_pend p) /\ pc_Class (pk_pend p) = RiskClassA /\
  LookupRiskClass (pc_Path (pk_pend p)) = Some RiskClassA /\
  pc_ExpiresAt (pk_pend p) = (pc_CreatedAt (pk_pend p) + set_ttl (pc_Req (pk_pend p)))%Z.

(** An approval in flight passed its checks: a parked entry read before it
    expired, and an approver who differs from the requester and was granted
    control:write on the path. *)
Definition flight_ok (orbit : N -> N -> bool) (ps : list park) (f : flight) : Prop :=
  (exists p, p ∈ ps /\ pk_pend p = fl_pend f) /\ fl_id f = pc_ID (fl_pend f) /\
  EqualFold orbit (p_Subject (fl_approver f)) (pc_Requester (fl_pend f)) = false /\
  (exists m, (authorize m (fl_approver f) ActionControlWrite (pc_Path (fl_pend f))).2 = Ok tt) /\
  (fl_read f <= pc_ExpiresAt (fl_pend f))%Z.

(** The dispatch executes the granted pending write, and its audit row names
    the approver. *)
Definition executes (g : grant) (as_ : list SetAudit) (d : ControlDispatch) : Prop :=
  let pend := fl_pend (gr_flight g) in
  gr_audit g = d_AuditID d /\ d_Path d = pc_Path pend /\ d_Actor d = pc_Requester pend /\
  d_Value d = rq_Value (pc_Req pend) /\
  exists a, a ∈ as_ /\ sa_ID a = d_AuditID d /\ sa_Path a = d_Path d /\
    sa_Second a = p_Subject (fl_approver (gr_flight g)).

(** The audit row of a dispatch. *)
Definition audited (as_ : list SetAudit) (d : ControlDispatch) : Prop :=
  exists a, a ∈ as_ /\ sa_ID a = d_AuditID d /\ sa_Path a = d_Path d /\
    sa_Class a = d_Class d /\ sa_Actor a = d_Actor d /\ sa_Value a = d_Value d /\
    sa_Readback a = d_RequireReadback d.

Definition dispatch_ok (gs : list grant) (as_ : list SetAudit) (d : ControlDispatch) : Prop :=
  LookupRiskClass (d_Path d) = Some (d_Class d) /\ audited as_ d /\
  (d_Class d = RiskClassA -> exists g, g ∈ gs /\ executes g as_ d).

Record csys_ok (orbit : N -> N -> bool) (y : csys) : Prop := {
  cy_parks : Forall park_ok (y_parks y);
  cy_nodup : NoDup (park_ids (y_parks y));
  cy_pending : forall id pend, k_pending (y_ctl y) !! id = Some pend ->
    pc_ID pend = id /\ exists p, p ∈ y_parks y /\ pk_pend p = pend;
  cy_flights : Forall (flight_ok orbit (y_parks y)) (y_flights y);
  cy_granted : Forall (fun g => flight_ok orbit (y_parks y) (gr_flight g)) (y_grants y);
  cy_once : NoDup (grant_ids (y_grants y));
  cy_spent : forall g, g ∈ y_grants y ->
    k_pending (y_ctl y) !! fl_id (gr_flight g) = None;
  cy_sent : Forall (dispatch_ok (y_grants y) (k_audits (y_ctl y))) (k_sent (y_ctl y))
}.

(** *** Preservation *)

Lemma audited_mono as1 l d : audited as1 d -> audited (as1 ++ l) d.
Proof. intros (a & Ha & H). exists a. split; [by apply elem_of_app; left|done]. Qed.

Lemma executes_mono g as1 l d : executes g as1 d -> executes g (as1 ++ l) d.
Proof.
  intros (H1 & H2 & H3 & H4 & a & Ha & H). split_and!; [done..|].
  exists a. split; [by apply elem_of_app; left|done].
Qed.

Lemma dispatch_ok_mono gs gs' as1 l d :
  dispatch_ok gs as1 d -> dispatch_ok (gs ++ gs') (as1 ++ l) d.
Proof.
  intros (H1 & H2 & H3). split; [done|]. split; [by apply audited_mono|].
  intros Hc. destruct (H3 Hc) as (g & Hg & He). exists g.
  split; [by apply elem_of_app; left|by apply executes_mono].
Qed.

Lemma flight_ok_mono orbit ps l f : flight_ok orbit ps f -> flight_ok orbit (ps ++ l) f.
Proof.
  intros ((p & Hp & He) & H). split; [|done]. exists p. split; [by apply elem_of_app; left|done].
Qed.

(** What the execution tail can do: nothing but a store error, or an audit row,
    and at most one dispatch that the row covers. *)
Lemma executeSet_inv k pt class req actor second env k' r :
  executeSet k pt class req actor second env = (k', r) ->
  k_pending k' = k_pending k /\ exists l, k_audits k' = k_audits k ++ l /\
  (k_sent k' = k_sent k \/
   exists cmd, k_sent k' = k_sent k ++ [cmd] /\ audited (k_audits k') cmd /\
     d_Path cmd = pt /\ d_Class cmd = class /\ d_Actor cmd = actor /\
     d_Value cmd = rq_Value req /\ d_AuditID cmd = se_audit_id env /\
     exists a, a ∈ k_audits k' /\ sa_ID a = d_AuditID cmd /\ sa_Path a = pt /\
       sa_Second a = second).
Proof.
  unfold executeSet. destruct (se_saved env); cbn [negb].
  2: { intros [= <- <-]. split; [done|]. exists []. rewrite app_nil_r. auto. }
  set (audit := mkSetAudit _ _ _ _ _ _ _ _ _ _). cbn [append_saved].
  destruct (se_sink env) as [answer|].
  2: { intros [= <- <-]. split; [done|]. exists [audit]. auto. }
  intros H.
  assert (Hk : k' = mkCtl (k_audits k ++ [audit]) (k_pending k)
    (k_sent k ++ [mkDispatch pt (sa_ID audit) actor class (rq_Value req) (set_ttl req)
       (sa_Readback audit)]) (k_meter k)) by (destruct answer; by injection H as <- <-).
  rewrite Hk. cbn. split; [done|]. exists [audit]. split; [done|]. right.
  eexists. split; [done|].
  assert (Hin : audit ∈ k_audits k ++ [audit]) by (apply elem_of_app; right; by left).
  split_and!; try done; exists audit; done.
Qed.

Lemma executeSet_not_pending k pt class req actor second env id t :
  (executeSet k pt class req actor second env).2 <> Ok (RespPending id t).
Proof. unfold executeSet. repeat case_match; done. Qed.

(** The three outcomes of a set request. *)
Lemma servePointSet_inv d k auth pt hdr body env k' r :
  servePointSet d k auth pt hdr body env = (k', r) ->
  (k' = k /\ parked auth k' r = []) \/
  (exists p req, auth = Some p /\ LookupRiskClass pt = Some RiskClassA /\
    let now := se_now env in
    let pend := mkPendingControl (se_pending_id env) pt RiskClassA req (p_Subject p) now
      (now + set_ttl req) in
    parked auth k' r = [mkPark p pend] /\ k_sent k' = k_sent k /\
    (exists l, k_audits k' = k_audits k ++ l) /\
    k_pending k' = <[se_pending_id env := pend]> (sweep now (k_pending k))) \/
  exists class req actor second, class <> RiskClassA /\ LookupRiskClass pt = Some class /\
    parked auth k' r = [] /\ executeSet k pt class req actor second env = (k', r).
Proof.
  unfold servePointSet. destruct (is_ok _); cbn [negb].
  2: { intros [= <- <-]. left. split; [done|]. by destruct auth. }
  destruct body as [req|]; [|intros [= <- <-]; left; split; [done|by destruct auth]].
  assert (Hpk : forall e, parked auth k (Err e) = []) by (by destruct auth).
  assert (Hex : forall class actor second,
    executeSet k pt class req actor second env = (k', r) -> parked auth k' r = []).
  { intros class actor second H. unfold parked. destruct auth as [p|]; [|done].
    pose proof (executeSet_not_pending k pt class req actor second env) as Hnp.
    rewrite H in Hnp. destruct r as [[id t|]|]; [by destruct (Hnp id t)|done..]. }
  unfold EvaluateSetPolicy. destruct (str_eqb (set_actor auth hdr) EmptyString);
    [intros [= <- <-]; auto|].
  destruct (_ <=? 0)%Z; [intros [= <- <-]; auto|].
  destruct (LookupRiskClass pt) as [[]|] eqn:El; [| | |intros [= <- <-]; auto].
  - unfold serveSetPending. destruct auth as [p|]; [|intros [= <- <-]; auto].
    destruct (se_saved env); cbn [negb]; intros [= <- <-]; [|auto].
    right; left. exists p, req. cbn. rewrite lookup_insert_eq. eauto 10.
  - destruct (negb (rq_RequireReadback req)); [intros [= <- <-]; auto|].
    intros H. right; right. exists RiskClassB, req. do 2 eexists. eauto.
  - intros H. right; right. exists RiskClassC, req. do 2 eexists. eauto.
Qed.

Lemma approve_read_inv orbit k auth id now k' r :
  approve_read orbit k auth id now = (k', r) ->
  k_audits k' = k_audits k /\ k_sent k' = k_sent k /\
  (k_pending k' = k_pending k \/ k_pending k' = delete id (k_pending k)) /\
  forall approver pend, r = Ok (approver, pend) ->
  k_pending k !! id = Some pend /\ (now <= pc_ExpiresAt pend)%Z /\
  EqualFold orbit (p_Subject approver) (pc_Requester pend) = false /\
  exists m, (authorize m approver ActionControlWrite (pc_Path pend)).2 = Ok tt.
Proof.
  unfold approve_read. destruct auth as [ap|]; [|intros [= <- <-]; split_and!; eauto; done].
  destruct (k_pending k !! id) as [pend|] eqn:Ep; [|intros [= <- <-]; split_and!; eauto; done].
  destruct (Z.ltb_spec (pc_ExpiresAt pend) now);
    [intros [= <- <-]; split_and!; cbn; eauto; done|].
  destruct (EqualFold _ _ _) eqn:Ef; [intros [= <- <-]; split_and!; eauto; done|].
  destruct (authorize _ _ _ _) as [m res] eqn:Ea.
  destruct res as [[]|e]; intros [= <- <-]; cbn; split_and!; auto; [|done].
  intros ? ? [= <- <-]. split_and!; [done|lia|done|]. exists (k_meter k). by rewrite Ea.
Qed.

(** *** Each step keeps the invariant *)

Lemma cstep_set d orbit k ps fs gs auth pt hdr body env k' r :
  csys_ok orbit (mkCsys k ps fs gs) -> (se_pending_id env ∉ park_ids ps) ->
  servePointSet d k auth pt hdr body env = (k', r) ->
  csys_ok orbit (mkCsys k' (ps ++ parked auth k' r) fs gs).
Proof.
  intros [] Hfresh H. cbn [y_ctl y_parks y_flights y_grants] in *.
  apply servePointSet_inv in H as [[-> ->]|[(p & req & -> & Hl & -> & Hs & [l Hl2] & Hp)|
    (class & req & actor & second & Hc & Hl & -> & He)]].
  - rewrite app_nil_r. by split.
  - set (pend := mkPendingControl _ _ _ _ _ _ _) in *.
    assert (Hgf : forall g, g ∈ gs -> fl_id (gr_flight g) <> se_pending_id env).
    { intros g Hg Heq. rewrite Forall_forall in cy_granted0.
      destruct (cy_granted0 g Hg) as ((p' & Hp' & Hpe) & Hid & _). apply Hfresh.
      apply list_elem_of_fmap. exists p'. split; [|done]. by rewrite Hpe, <- Hid. }
    split; cbn.
    + apply Forall_app. split; [done|]. by repeat constructor.
    + unfold park_ids. rewrite fmap_app. apply NoDup_app. split; [done|]. split.
      * intros x Hx ->%list_elem_of_singleton. by apply Hfresh.
      * apply NoDup_singleton.
    + rewrite Hp. intros id pd [[<- <-]|[Hne Hm]]%lookup_insert_Some.
      * split; [done|]. exists (mkPark p pend).
        split; [apply elem_of_app; right; by left|done].
      * apply map_lookup_filter_Some in Hm as [Hm _].
        destruct (cy_pending0 _ _ Hm) as (Hid & p' & Hp' & He). split; [done|].
        exists p'. split; [apply elem_of_app; by left|done].
    + eapply Forall_impl; [exact cy_flights0|]. intros f. apply flight_ok_mono.
    + eapply Forall_impl; [exact cy_granted0|]. intros g. apply flight_ok_mono.
    + done.
    + intros g Hg. rewrite Hp, lookup_insert_ne by (by apply not_eq_sym, Hgf).
      unfold sweep. apply map_lookup_filter_None. left. by apply cy_spent0.
    + rewrite Hs, Hl2. eapply Forall_impl; [exact cy_sent0|]. intros c Hc.
      rewrite <- (app_nil_r gs). by apply dispatch_ok_mono.
  - rewrite app_nil_r. apply executeSet_inv in He as (Hp & l & Hau & Hs). split; cbn; try done.
    + by rewrite Hp.
    + by rewrite Hp.
    + assert (Hold : Forall (dispatch_ok gs (k_audits k')) (k_sent k)).
      { rewrite Hau. eapply Forall_impl; [exact cy_sent0|]. intros c Hd.
        rewrite <- (app_nil_r gs). by apply dispatch_ok_mono. }
      destruct Hs as [->|(cmd & -> & Had & H1 & H2 & _)]; [done|].
      apply Forall_app. split; [done|]. repeat constructor; [by rewrite H1, H2|done|].
      rewrite H2. done.
Qed.

Lemma cstep_pending_delete k k' id :
  (k_pending k' = k_pending k \/ k_pending k' = delete id (k_pending k)) ->
  forall i, k_pending k' !! i = None \/ k_pending k' !! i = k_pending k !! i.
Proof.
  intros [-> | ->] i; [by right|].
  destruct (decide (i = id)) as [->|]; [left; apply lookup_delete_eq|right].
  by apply lookup_delete_ne.
Qed.

(** Losing pending entries and nothing else is harmless. *)
Lemma csys_ok_shrink orbit k k' ps fs gs :
  csys_ok orbit (mkCsys k ps fs gs) ->
  k_audits k' = k_audits k -> k_sent k' = k_sent k ->
  (forall i, k_pending k' !! i = None \/ k_pending k' !! i = k_pending k !! i) ->
  csys_ok orbit (mkCsys k' ps fs gs).
Proof.
  intros [] Ha Hs Hp. cbn [y_ctl y_parks y_flights y_grants] in *. split; cbn; try done.
  - intros id pend Hm. destruct (Hp id) as [H|H]; rewrite H in Hm; [done|by apply cy_pending0].
  - intros g Hg. destruct (Hp (fl_id (gr_flight g))) as [->| ->]; [done|by apply cy_spent0].
  - by rewrite Ha, Hs.
Qed.

Lemma cstep_approve_read orbit k ps fs gs auth id now k' approver pend :
  csys_ok orbit (mkCsys k ps fs gs) ->
  approve_read orbit k auth id now = (k', Ok (approver, pend)) ->
  csys_ok orbit (mkCsys k' ps (fs ++ [mkFlight id approver pend now]) gs).
Proof.
  intros Hok H. apply approve_read_inv in H as (Ha & Hs & Hp & Hr).
  destruct (Hr _ _ eq_refl) as (Hm & Hexp & Hfold & Hauth).
  destruct (csys_ok_shrink _ _ _ _ _ _ Hok Ha Hs (cstep_pending_delete _ _ _ Hp)).
  split; try done. cbn in *. apply Forall_app. split; [done|]. repeat constructor; cbn; try done.
  - destruct Hok as [_ _ Hpend _ _ _ _ _]. cbn in Hpend.
    destruct (Hpend _ _ Hm) as (Hid & p & Hp' & Hpe). by exists p.
  - destruct Hok as [_ _ Hpend _ _ _ _ _]. cbn in Hpend. by destruct (Hpend _ _ Hm).
Qed.

Lemma cstep_approve_commit orbit k ps fs gs i f env k' r :
  csys_ok orbit (mkCsys k ps fs gs) -> fs !! i = Some f ->
  approve_commit k (fl_approver f) (fl_id f) (fl_pend f) env = (k', r) ->
  csys_ok orbit (mkCsys k' ps (delete i fs)
    (if bool_decide (is_Some (k_pending k !! fl_id f))
     then gs ++ [mkGrant f (se_audit_id env)] else gs)).
Proof.
  intros Hok Hf H. unfold approve_commit in H.
  assert (Hfl : flight_ok orbit ps f).
  { destruct Hok as [_ _ _ Hfs _ _ _ _]. rewrite Forall_lookup in Hfs. by eapply Hfs. }
  destruct (k_pending k !! fl_id f) as [pend|] eqn:Ep.
  2: { injection H as <- <-. rewrite bool_decide_eq_false_2 by (by intros [? ?]).
       destruct Hok. split; try done. cbn in *. by apply Forall_delete. }
  rewrite bool_decide_eq_true_2 by eauto. set (g := mkGrant f (se_audit_id env)).
  apply executeSet_inv in H as (Hp & l & Hau & Hs). cbn in Hp, Hau, Hs.
  destruct Hok; cbn [y_ctl y_parks y_flights y_grants] in *.
  destruct Hfl as ((p & Hpin & Hpe) & Hid & Hrest). rewrite Forall_forall in cy_parks0.
  destruct (cy_parks0 p Hpin) as (_ & Hca & Hla & _). rewrite Hpe in Hca, Hla.
  assert (Hg : flight_ok orbit ps (gr_flight g)) by (split; [by exists p|done]).
  split; cbn; try done.
  - by apply Forall_forall.
  - rewrite Hp. intros id pd [_ Hm]%lookup_delete_Some. by apply cy_pending0.
  - by apply Forall_delete.
  - apply Forall_app. split; [done|]. by apply Forall_singleton.
  - unfold grant_ids. rewrite fmap_app. apply NoDup_app. split; [done|].
    split; [|apply NoDup_singleton]. intros x Hx ->%list_elem_of_singleton.
    apply list_elem_of_fmap in Hx as (g' & Heq & Hg'). apply cy_spent0 in Hg'.
    cbn in Heq. congruence.
  - intros g' [Hg'| ->%list_elem_of_singleton]%elem_of_app; rewrite Hp.
    + apply lookup_delete_None. right. by apply cy_spent0.
    + apply lookup_delete_eq.
  - assert (Hold : Forall (dispatch_ok (gs ++ [g]) (k_audits k')) (k_sent k)).
    { rewrite Hau. eapply Forall_impl; [exact cy_sent0|]. intros c. apply dispatch_ok_mono. }
    destruct Hs as [->|(cmd & -> & Had & H1 & H2 & H3 & H4 & H5 & Hrow)]; [done|].
    apply Forall_app. split; [done|]. apply Forall_singleton. split_and!.
    + by rewrite H1, H2, Hca.
    + done.
    + intros _. exists g. split; [apply elem_of_app; right; by left|].
      destruct Hrow as (a & ? & ? & ? & ?). split_and!; try done. exists a.
      by rewrite H1.
Qed.

Lemma creachable_ok d orbit y : creachable d orbit y -> csys_ok orbit y.
Proof.
  induction 1 as [m|y y' _ IH Hs].
  - split; cbn; try done; constructor.
  - destruct Hs.
    + by eapply cstep_set.
    + by eapply cstep_approve_read.
    + apply approve_read_inv in H as (Ha & Hs & Hp & _).
      eapply csys_ok_shrink; [exact IH|done|done|]. by eapply cstep_pending_delete.
    + by eapply cstep_approve_commit.
Qed.

(** C11: two-man rule.  Under every interleaving of set requests and approvals,
    a command sent southbound for a class A point executes a pending write
    that an authenticated principal had parked, unchanged, with that
    principal as the actor; it was granted by an approver whose subject differs
    from the requester's even up to case, who holds control:write on the point,
    and who read the entry before it expired; the audit row names the approver;
    and no pending write is granted twice. *)
Theorem two_man_rule d orbit y cmd :
  creachable d orbit y -> cmd ∈ k_sent (y_ctl y) ->
  LookupRiskClass (d_Path cmd) = Some RiskClassA ->
  NoDup (grant_ids (y_grants y)) /\
  exists g p, g ∈ y_grants y /\ p ∈ y_parks y /\ pk_pend p = fl_pend (gr_flight g) /\
    park_ok p /\ executes g (k_audits (y_ctl y)) cmd /\
    flight_ok orbit (y_parks y) (gr_flight g).
Proof.
  intros Hr Hin Hl. destruct (creachable_ok _ _ _ Hr) as [Hpk _ _ _ Hgr Hnd _ Hs].
  split; [done|]. rewrite Forall_forall in Hs. rewrite Forall_forall in Hpk.
  rewrite Forall_forall in Hgr. destruct (Hs _ Hin) as (Hc & _ & Hg).
  rewrite Hl in Hc. injection Hc as Hc. destruct (Hg (eq_sym Hc)) as (g & Hgin & He).
  pose proof (Hgr g Hgin) as Hf. destruct (proj1 Hf) as (p & Hp & Hpe). exists g, p.
  do 3 (split; [done|]). split; [by apply Hpk|]. done.
Qed.

(** C12: every command handed to the sink was on the allow-list, carries the
    class the list assigns to its path, and is covered by an audit row with its
    id, path, class, actor, value and read-back flag. *)
Theorem dispatch_audited d orbit y cmd :
  creachable d orbit y -> cmd ∈ k_sent (y_ctl y) ->
  LookupRiskClass (d_Path cmd) = Some (d_Class cmd) /\ audited (k_audits (y_ctl y)) cmd.
Proof.
  intros Hr Hin. destruct (creachable_ok _ _ _ Hr) as [_ _ _ _ _ _ _ Hs].
  rewrite Forall_forall in Hs. by destruct (Hs _ Hin) as (? & ? & _).
Qed.

(** *** The allow-list lookup *)

Lemma lookup_loop_spec p norm entries : forall bestLen best,
  (forall c, best = Some c -> (0 <= bestLen)%Z) ->
  match lookup_loop p norm entries bestLen best with
  | None => best = None /\
      Forall (fun e => allow_matches p norm e = true -> (allow_len e <= bestLen)%Z) entries
  | Some c => exists len, (bestLen <= len)%Z /\
      (best = Some c /\ len = bestLen \/
       exists e, e ∈ entries /\ allow_matches p norm e = true /\ al_Class e = c /\
         len = allow_len e) /\
      Forall (fun e => allow_matches p norm e = true -> (allow_len e <= len)%Z) entries
  end.
Proof.
  induction entries as [|e entries IH]; intros bestLen best Hb; cbn.
  - destruct best as [c|]; [exists bestLen; split_and!; auto; lia|auto].
  - destruct (allow_matches p norm e) eqn:Em; cbn [andb];
      [destruct (Z.ltb_spec bestLen (allow_len e))|].
    + specialize (IH (allow_len e) (Some (al_Class e))).
      destruct (lookup_loop _ _ _ _ _) as [c|]; [|destruct IH; [unfold allow_len; lia|done]].
      destruct IH as (len & Hlen & Hor & Hall); [unfold allow_len; lia|].
      exists len. split_and!; [lia| |constructor; [lia|done]].
      right. destruct Hor as [[[= <-] ->]|(e' & ? & ?)].
      * exists e. split_and!; try done. by left.
      * exists e'. split; [by right|done].
    + specialize (IH bestLen best Hb). destruct (lookup_loop _ _ _ _ _) as [c|].
      * destruct IH as (len & Hlen & Hor & Hall). exists len.
        split_and!; [done| |constructor; [lia|done]].
        destruct Hor as [?|(e' & ? & ?)]; [by left|right; exists e'; split; [by right|done]].
      * destruct IH. split; [done|]. constructor; [lia|done].
    + specialize (IH bestLen best Hb). destruct (lookup_loop _ _ _ _ _) as [c|].
      * destruct IH as (len & Hlen & Hor & Hall). exists len.
        split_and!; [done| |constructor; [by rewrite Em|done]].
        destruct Hor as [?|(e' & ? & ?)]; [by left|right; exists e'; split; [by right|done]].
      * destruct IH. split; [done|]. constructor; [by rewrite Em|done].
Qed.

(** Entry [e] applies to the point path. *)
Definition allow_applies (pt : string) (e : setAllowEntry) : Prop :=
  let p := to_lower (TrimSpace pt) in
  p <> EmptyString /\ e ∈ l108AllowList /\ allow_matches p (stripInstanceDigits p) e = true.

(** The class of a point is the class of a longest allow-list stem that
    applies to it, and a point to which no stem applies has none: it is read
    only. *)
Lemma LookupRiskClass_longest pt :
  match LookupRiskClass pt with
  | Some c => exists e, allow_applies pt e /\ al_Class e = c /\
      forall e', allow_applies pt e' -> (allow_len e' <= allow_len e)%Z
  | None => forall e, ~ allow_applies pt e
  end.
Proof.
  unfold LookupRiskClass, allow_applies. cbv zeta. set (p := to_lower (TrimSpace pt)).
  destruct (str_eqb p EmptyString) eqn:Ee.
  - apply str_eqb_eq in Ee. by intros e [? _].
  - apply str_eqb_neq in Ee.
    pose proof (lookup_loop_spec p (stripInstanceDigits p) l108AllowList (-1) None) as H.
    destruct (lookup_loop _ _ _ _ _) as [c|].
    + destruct H as (len & _ & [[? _]|(e & Hin & Hm & Hc & ->)] & Hall); [done..|].
      exists e. rewrite Forall_forall in Hall. split_and!; try done.
      intros e' (_ & Hin' & Hm'). by apply Hall.
    + destruct H as [_ Hall]; [done|]. rewrite Forall_forall in Hall.
      intros e (_ & Hin & Hm). specialize (Hall e Hin Hm). unfold allow_len in Hall. lia.
Qed.

Example demo_class_a : LookupRiskClass "sgp01.pod000.cdu000.pump.rpm" = Some RiskClassA.
Proof. vm_compute. reflexivity. Qed.
(** The stems are not aligned to segments: "ups.status" also covers a type whose
    name ends in "ups". *)
Example demo_unaligned : LookupRiskClass "sgp01.groups.status" = Some RiskClassA.
Proof. vm_compute. reflexivity. Qed.
(** A stem may also sit in the middle of the path. *)
Example demo_inner : LookupRiskClass "sgp01.pod000.ups.status.x" = Some RiskClassA.
Proof. vm_compute. reflexivity. Qed.
Example demo_read_only : LookupRiskClass "sgp01.pod000.cdu000.return.temp" = None.
Proof. vm_compute. reflexivity. Qed.

(** ** A concrete run *)

Definition alice : Principal := mkPrincipal "alice" RoleAdmin [] None.
Definition bob : Principal := mkPrincipal "bob" RoleAdmin [] None.
Definition demo_path : string := "sgp01.pod002.cdu000.fws1.supply.temp".
Definition demo_set : SetRequest := mkSetRequest f1 60 EmptyString false EmptyString.
Definition env_for (now : time) (audit_id : string) : set_env :=
  mkSetEnv now audit_id "p1" true (Some (Ok (mkDispatchResult true f1 0 EmptyString))) "rid".

Definition ctl0 : ctl := mkCtl [] ∅ [] open_meter.
Definition ctl1 : ctl :=
  (servePointSet demo_dict ctl0 (Some alice) demo_path EmptyString (Some demo_set)
     (env_for 0 "a0")).1.
Definition demo_pend : pendingControl :=
  mkPendingControl "p1" demo_path RiskClassA demo_set "alice" 0 (60 * Second).
Definition demo_flight : flight := mkFlight "p1" bob demo_pend (30 * Second).
Definition ctl2 : ctl :=
  (approve_commit ctl1 bob "p1" demo_pend (env_for (30 * Second) "a1")).1.

Example demo_same_subject :
  (serveControlApprove latin_orbit ctl1 "POST" "p1:approve" (Some alice) (env_for 1 "a1")).2 =
  Err (Problem 403 "set-denied" "approver must differ from requester (two-man rule)").
Proof. vm_compute. reflexivity. Qed.
Example demo_expired :
  (serveControlApprove latin_orbit ctl1 "POST" "p1:approve" (Some bob)
     (env_for (61 * Second) "a1")).2 =
  Err (Problem 410 "pending-expired" "pending control write expired").
Proof. vm_compute. reflexivity. Qed.
Example demo_header_actor :
  (servePointSet demo_dict ctl0 None demo_path "alice" (Some demo_set) (env_for 0 "a0")).2 =
  Err (Problem 401 "unauthorized"
    "risk_class=a requires an authenticated principal (header actor not accepted)").
Proof. vm_compute. reflexivity. Qed.

(** A large ttl_seconds wraps around: the entry expires before it is created. *)
Example demo_ttl_wraps :
  set_ttl (mkSetRequest f1 9223372037 EmptyString false EmptyString) = (-9223372036709551616)%Z.
Proof. vm_compute. reflexivity. Qed.

Definition demo_sys : csys :=
  mkCsys ctl2 [mkPark alice demo_pend] [] [mkGrant demo_flight "a1"].

Lemma demo_creachable : creachable demo_dict latin_orbit demo_sys.
Proof.
  eapply (cr_step _ _ (mkCsys ctl1 [mkPark alice demo_pend] [demo_flight] [])).
  - eapply (cr_step _ _ (mkCsys ctl1 [mkPark alice demo_pend] [] [])).
    + eapply (cr_step _ _ (mkCsys ctl0 [] [] [])); [apply (cr_init _ _ open_meter)|].
      apply (cs_set demo_dict latin_orbit ctl0 [] [] [] (Some alice) demo_path EmptyString
        (Some demo_set) (env_for 0 "a0") ctl1 (Ok (RespPending "p1" (60 * Second))));
        [by intros ?%elem_of_nil|].
      vm_compute. reflexivity.
    + apply (cs_approve_read demo_dict latin_orbit ctl1 [mkPark alice demo_pend] [] []
        (Some bob) "p1" (30 * Second) ctl1 bob demo_pend).
      vm_compute. reflexivity.
  - eapply (cs_approve_commit demo_dict latin_orbit ctl1 [mkPark alice demo_pend] [demo_flight] []
      0 demo_flight (env_for (30 * Second) "a1") ctl2); [done|].
    apply surjective_pairing.
Qed.

Definition demo_cmd : ControlDispatch :=
  mkDispatch demo_path "a1" "alice" RiskClassA f1 (60 * Second) true.

Lemma demo_cmd_sent : demo_cmd ∈ k_sent (y_ctl demo_sys).
Proof. apply list_elem_of_In. vm_compute. by left. Qed.

Lemma two_man_rule_witness :
  exists g p, g ∈ y_grants demo_sys /\ p ∈ y_parks demo_sys /\
    p_Subject (pk_by p) = pc_Requester (pk_pend p) /\
    EqualFold latin_orbit (p_Subject (fl_approver (gr_flight g)))
      (pc_Requester (fl_pend (gr_flight g))) = false.
Proof.
  destruct (two_man_rule demo_dict latin_orbit demo_sys demo_cmd demo_creachable demo_cmd_sent)
    as (_ & g & p & Hg & Hp & _ & Hpk & _ & Hf); [vm_compute; reflexivity|].
  exists g, p. split_and!; [done|done|apply Hpk|apply Hf].
Defined.

Lemma dispatch_audited_witness :
  LookupRiskClass demo_path = Some RiskClassA /\ audited (k_audits ctl2) demo_cmd.
Proof.
  exact (dispatch_audited demo_dict latin_orbit demo_sys demo_cmd demo_creachable demo_cmd_sent).
Defined.
