(* ===== verification/PromQL.v ===== *)
(** * Tenant label injection into PromQL (pkg/tenant/promql.go)

    The forward pass that appends tenant="id" to the selectors of a query and
    refuses what it cannot audit.  Positions in the query are represented by the
    remaining suffix; [out] is the output builder.  The theorems say what the
    output is: the query with the matcher inserted, where, and which metric
    names are left without it. *)
From S2P Require Import Prelude.
Open Scope string_scope.
Open Scope list_scope.

(** The reasons of [ErrPromQLBypass]; [PFuel] is the model's own. *)
Inductive bypass : Type :=
  | PEmptyQuery | PEmptyTenant | PTenantByte | PNoSelector
  | PComment | PGroup | PRange | PVectorOp | PTwoIdents | PAfterMetric
  | PNested | PMissingOp | PBadOp | PMissingValue | PUnquoted | PTenantSet
  | PUnterminated | PMultiLine | PFuel.

#[export] Instance bypass_eq_dec : EqDecision bypass.
Proof. solve_decision. Defined.

Definition tenantLabelName : string := "tenant".
Abbreviation DQ := (ascii_of_nat 34).
Abbreviation BS := (ascii_of_nat 92).

(** ** Tenant ids *)

Definition tenant_byte_ok (b : ascii) : bool :=
  negb (byte_eqb b BS || byte_eqb b DQ || byte_eqb b LF || byte_eqb b CR || byte_eqb b TAB) &&
  negb (N_of_ascii b <? 0x20)%N.

Definition validateTenantIDForLabel (id : string) : result bypass unit :=
  if all_bytes tenant_byte_ok id then Ok tt else Err PTenantByte.

(** [strings.NewReplacer] over single bytes. *)
Fixpoint escapeTenantIDForLabel (id : string) : string :=
  match id with
  | EmptyString => EmptyString
  | String c r =>
      let r' := escapeTenantIDForLabel r in
      if byte_eqb c BS then String BS (String BS r')
      else if byte_eqb c DQ then String BS (String DQ r')
      else if byte_eqb c LF then String BS (String "n" r')
      else String c r'
  end.

(** The text [tenant="id"]. *)
Definition tenant_matcher (id : string) : string :=
  tenantLabelName +:+ "=" +:+ String DQ (escapeTenantIDForLabel id +:+ String DQ EmptyString).

Definition synthetic_selector (id : string) : string := "{" +:+ tenant_matcher id +:+ "}".
Definition injectSyntheticSelector (out id : string) : string := out +:+ synthetic_selector id.

(** ** Bytes *)

Definition isIdentStart (c : ascii) : bool :=
  is_lower c || is_upper c || byte_eqb c "_" || byte_eqb c ":".
Definition isIdentCont (c : ascii) : bool := isIdentStart c || is_digit c.
Definition isOperatorStart (c : ascii) : bool :=
  byte_eqb c "+" || byte_eqb c "-" || byte_eqb c "*" || byte_eqb c "/" || byte_eqb c "%" ||
  byte_eqb c "^".
Definition is_sep (c : ascii) : bool := is_space c || byte_eqb c ",".
Definition is_blank2 (c : ascii) : bool := byte_eqb c " " || byte_eqb c TAB.
Definition num_cont (c : ascii) : bool :=
  is_digit c || byte_eqb c "." || byte_eqb c "e" || byte_eqb c "E" || byte_eqb c "-" ||
  byte_eqb c "+".

Definition snoc (s : string) (c : ascii) : string := s +:+ String c EmptyString.

(** ** String literals

    The text up to and including the closing quote, and what follows. *)
Fixpoint scanQuotedString (s : string) : result bypass (string * string) :=
  match s with
  | EmptyString => Err PUnterminated
  | String c r =>
      if byte_eqb c BS then
        match r with
        | EmptyString => Err PUnterminated
        | String d r' =>
            if byte_eqb d LF then Err PMultiLine
            else '(lit, rest) ← scanQuotedString r'; Ok (String c (String d lit), rest)
        end
      else if byte_eqb c DQ then Ok (String c EmptyString, r)
      else if byte_eqb c LF then Err PMultiLine
      else '(lit, rest) ← scanQuotedString r; Ok (String c lit, rest)
  end.

(** [copyStringLiteral] writes the opening quote and what [scanQuotedString]
    steps over. *)
Definition copyStringLiteral (s out : string) : result bypass (string * string) :=
  '(lit, rest) ← scanQuotedString s; Ok (snoc out DQ +:+ lit, rest).

(** ** Selectors *)

(** Trailing separators of [out], never its first byte: what stays, and the
    suffix cut off. *)
Fixpoint trim_seps (s : string) : string * string :=
  match s with
  | EmptyString => (EmptyString, EmptyString)
  | String c r =>
      match trim_seps r with
      | (EmptyString, t) =>
          if is_sep c then (EmptyString, String c t) else (String c EmptyString, t)
      | (k, t) => (String c k, t)
      end
  end.
Definition trimTrailingSeparators (out : string) : string * string :=
  match out with
  | EmptyString => (EmptyString, EmptyString)
  | String c r => let '(k, t) := trim_seps r in (String c k, t)
  end.

(** One matcher [name op value]: its name, its text, and what follows. *)
Definition scan_matcher (s : string) : result bypass (string * string * string) :=
  let '(name, s1) := span_bytes isIdentCont s in
  let '(w1, s2) := span_bytes is_blank2 s1 in
  match s2 with
  | EmptyString => Err PMissingOp
  | String op s3 =>
      if negb (byte_eqb op "=") && negb (byte_eqb op "!") then Err PBadOp
      else
        let '(tilde, s4) :=
          match s3 with
          | String c r => if byte_eqb c "~" then (String c EmptyString, r) else (EmptyString, s3)
          | EmptyString => (EmptyString, s3)
          end in
        let '(w2, s5) := span_bytes is_blank2 s4 in
        match s5 with
        | EmptyString => Err PMissingValue
        | String q s6 =>
            if negb (byte_eqb q DQ) then Err PUnquoted
            else
              '(lit, rest) ← scanQuotedString s6;
              if str_eqb name tenantLabelName then Err PTenantSet
              else Ok (name,
                name +:+ w1 +:+ String op (tilde +:+ w2 +:+ String q lit), rest)
        end
  end.

(** The loop over the selector body. *)
Fixpoint selector_loop (fuel : nat) (s tenantID : string) (sawMatcher : bool) (out : string) :
    result bypass (string * string) :=
  match fuel with
  | O => Err PFuel
  | S n =>
      match s with
      | EmptyString => Err PUnterminated
      | String c r =>
          if is_sep c then selector_loop n r tenantID sawMatcher (snoc out c)
          else if byte_eqb c "#" then Err PComment
          else if byte_eqb c "{" then Err PNested
          else if byte_eqb c "}" then
            let '(kept, trail) := trimTrailingSeparators out in
            Ok (kept +:+ (if sawMatcher then "," else EmptyString) +:+ tenant_matcher tenantID
                  +:+ trail +:+ "}", r)
          else if isIdentStart c then
            '(_, text, rest) ← scan_matcher s;
            selector_loop n rest tenantID true (out +:+ text)
          else selector_loop n r tenantID sawMatcher (snoc out c)
      end
  end.

Definition rewriteSelector (s tenantID out : string) : result bypass (string * string) :=
  selector_loop (S (str_len s)) s tenantID false (snoc out "{").

(** ** The forward pass *)

Definition vector_op (word : string) : bool :=
  str_eqb word "or" || str_eqb word "and" || str_eqb word "unless".

(** After an identifier: whether the selector is injected, from the next byte
    that is not white space. *)
Definition after_ident (rest : string) (sawSelector : bool) : result bypass bool :=
  match (span_bytes is_space rest).2 with
  | EmptyString => Ok true
  | String k _ =>
      if byte_eqb k "{" then Ok false
      else if isOperatorStart k then Ok (negb sawSelector)
      else if isIdentStart k then Err PTwoIdents
      else Err PAfterMetric
  end.

Fixpoint injectScan (fuel : nat) (s tenantID : string) (sawSelector : bool) (out : string) :
    result bypass (string * bool) :=
  match fuel with
  | O => Err PFuel
  | S n =>
      match s with
      | EmptyString => Ok (out, sawSelector)
      | String c r =>
          if is_space c then injectScan n r tenantID sawSelector (snoc out c)
          else if byte_eqb c "#" then Err PComment
          else if byte_eqb c "(" then Err PGroup
          else if byte_eqb c "[" then Err PRange
          else if byte_eqb c "{" then
            '(out', rest) ← rewriteSelector r tenantID out;
            injectScan n rest tenantID true out'
          else if byte_eqb c DQ then
            '(out', rest) ← copyStringLiteral r out;
            injectScan n rest tenantID sawSelector out'
          else if isIdentStart c then
            let '(w, rest) := span_bytes isIdentCont r in
            let word := String c w in
            if vector_op word then Err PVectorOp
            else
              inject ← after_ident rest sawSelector;
              if (inject : bool)
              then injectScan n rest tenantID true (injectSyntheticSelector (out +:+ word) tenantID)
              else injectScan n rest tenantID sawSelector (out +:+ word)
          else if byte_eqb c "-" || byte_eqb c "+" || is_digit c then
            let '(w, rest) := span_bytes num_cont r in
            injectScan n rest tenantID sawSelector (out +:+ String c w)
          else injectScan n r tenantID sawSelector (snoc out c)
      end
  end.

(** The scan consumes the whole input when it returns, so the check for trailing
    content never fires. *)
Definition InjectTenantLabel (promql tenantID : string) : result bypass string :=
  if str_eqb promql EmptyString then Err PEmptyQuery
  else if str_eqb tenantID EmptyString then Err PEmptyTenant
  else
    _ ← validateTenantIDForLabel tenantID;
    '(out, saw) ← injectScan (S (str_len promql)) promql tenantID false EmptyString;
    if (saw : bool) then Ok out else Err PNoSelector.

Definition dq (s : string) : string := String DQ (s +:+ String DQ EmptyString).

Example inject_bare : InjectTenantLabel "up" "acme" = Ok ("up{tenant=" +:+ dq "acme" +:+ "}").
Proof. vm_compute. reflexivity. Qed.
Example inject_spaces :
  InjectTenantLabel ("  up { job = " +:+ dq "prom" +:+ " }  ") "acme" =
  Ok ("  up { job = " +:+ dq "prom" +:+ ",tenant=" +:+ dq "acme" +:+ " }  ").
Proof. vm_compute. reflexivity. Qed.
Example inject_or : InjectTenantLabel "up or vector(1)" "acme" = Err PTwoIdents.
Proof. vm_compute. reflexivity. Qed.
(** The documented operator != is refused: only the byte after it may be a
    tilde, so the value is looked for at the equals sign. *)
Example inject_neq : InjectTenantLabel ("up{job!=" +:+ dq "x" +:+ "}") "acme" = Err PUnquoted.
Proof. vm_compute. reflexivity. Qed.
Example inject_second :
  InjectTenantLabel "up + down * 1" "acme" =
  Ok ("up{tenant=" +:+ dq "acme" +:+ "} + down * 1").
Proof. vm_compute. reflexivity. Qed.

(** ** What the scanners consume *)

(** The rest of a literal: up to the first unescaped quote, on one line. *)
Inductive quoted_tail : string -> Prop :=
  | qt_end : quoted_tail (String DQ EmptyString)
  | qt_esc d r : d <> LF -> quoted_tail r -> quoted_tail (String BS (String d r))
  | qt_byte c r : c <> BS -> c <> DQ -> c <> LF -> quoted_tail r -> quoted_tail (String c r).

(** The text of a matcher on the label [name]. *)
Definition matcher_text (name text : string) : Prop :=
  exists w1 op tilde w2 lit,
  text = name +:+ w1 +:+ String op (tilde +:+ w2 +:+ String DQ lit) /\
  all_bytes isIdentCont name = true /\ all_bytes is_blank2 w1 = true /\
  all_bytes is_blank2 w2 = true /\ (op = "="%char \/ op = "!"%char) /\
  (tilde = EmptyString \/ tilde = "~") /\ quoted_tail lit.

(** A selector body without a matcher on the tenant label; the flag says
    whether it has any matcher. *)
Inductive sel_body : bool -> string -> Prop :=
  | sb_nil : sel_body false EmptyString
  | sb_byte c b saw : c <> "#"%char -> c <> "{"%char -> c <> "}"%char ->
      isIdentStart c = false -> sel_body saw b -> sel_body saw (String c b)
  | sb_matcher name text b saw : matcher_text name text -> name <> tenantLabelName ->
      sel_body saw b -> sel_body true (text +:+ b).

Ltac byte_facts :=
  repeat match goal with
  | H : byte_eqb _ _ = true |- _ => apply byte_eqb_eq in H; subst
  | H : byte_eqb _ _ = false |- _ => apply byte_eqb_neq in H
  end.

Lemma scanQuotedString_ok s : forall lit rest,
  scanQuotedString s = Ok (lit, rest) -> s = lit +:+ rest /\ quoted_tail lit.
Proof.
  remember (str_len s) as n eqn:Hn. assert (Hle : str_len s <= n) by lia. clear Hn.
  revert s Hle. induction n as [|n IH]; intros [|c r] Hle lit rest; cbn in Hle; try done; [lia|].
  cbn [scanQuotedString]. destruct (byte_eqb c BS) eqn:Eb.
  - destruct r as [|d r']; [done|]. destruct (byte_eqb d LF) eqn:Ed; [done|].
    intros ([lit' rest'] & Hq & [= <- <-])%bind_Ok. cbn in Hle.
    apply IH in Hq as [-> Hq]; [|lia]. byte_facts. split; [done|by constructor].
  - destruct (byte_eqb c DQ) eqn:Eq; [|destruct (byte_eqb c LF) eqn:El; [done|]].
    + intros [= <- <-]. byte_facts. split; [done|constructor].
    + intros ([lit' rest'] & Hq & [= <- <-])%bind_Ok.
      apply IH in Hq as [-> Hq]; [|lia]. byte_facts. split; [done|by constructor].
Qed.

Lemma scan_matcher_ok s name text rest :
  scan_matcher s = Ok (name, text, rest) ->
  s = text +:+ rest /\ matcher_text name text /\ name <> tenantLabelName /\
  name = (span_bytes isIdentCont s).1.
Proof.
  unfold scan_matcher.
  pose proof (span_bytes_app isIdentCont s) as H1. pose proof (span_bytes_all isIdentCont s) as A1.
  destruct (span_bytes isIdentCont s) as [nm s1]. cbn in H1, A1.
  pose proof (span_bytes_app is_blank2 s1) as H2. pose proof (span_bytes_all is_blank2 s1) as A2.
  destruct (span_bytes is_blank2 s1) as [w1 s2]. cbn in H2, A2.
  destruct s2 as [|op s3]; [done|].
  destruct (negb (byte_eqb op "=") && negb (byte_eqb op "!")) eqn:Eop; [done|].
  set (tl := match s3 with String c r => _ | EmptyString => _ end).
  assert (Ht : (tl.1 = EmptyString \/ tl.1 = "~") /\ s3 = tl.1 +:+ tl.2).
  { unfold tl. destruct s3 as [|c r]; [auto|]. destruct (byte_eqb c "~") eqn:E; [|auto].
    byte_facts. auto. }
  destruct tl as [tilde s4]. cbn in Ht. destruct Ht as [Ht H3].
  pose proof (span_bytes_app is_blank2 s4) as H4. pose proof (span_bytes_all is_blank2 s4) as A4.
  destruct (span_bytes is_blank2 s4) as [w2 s5]. cbn in H4, A4.
  destruct s5 as [|q s6]; [done|]. destruct (byte_eqb q DQ) eqn:Eq; [|done]. cbn [negb].
  intros ([lit rest'] & Hq & H)%bind_Ok. apply scanQuotedString_ok in Hq as [-> Hq].
  destruct (str_eqb nm tenantLabelName) eqn:Et; [done|]. injection H as <- <- <-.
  apply byte_eqb_eq in Eq as ->. apply str_eqb_neq in Et.
  split; [|split; [|done]].
  - rewrite <- H1, <- H2, H3, <- H4. rewrite <- !str_app_assoc. cbn.
    by rewrite <- !str_app_assoc.
  - exists w1, op, tilde, w2, lit. split_and!; try done.
    clear H1 H2 H3 H4. apply andb_false_iff in Eop as [E|E]; apply negb_false_iff in E; byte_facts; auto.
Qed.

Lemma snoc_app s c r : snoc s c +:+ r = s +:+ String c r.
Proof. unfold snoc. by rewrite <- str_app_assoc. Qed.

(** What the selector loop writes, given the body it stepped over. *)
Definition close_selector (id out : string) (saw : bool) : string :=
  (trimTrailingSeparators out).1 +:+ (if saw then "," else EmptyString) +:+ tenant_matcher id
  +:+ (trimTrailingSeparators out).2 +:+ "}".

Lemma is_sep_not_marker c : is_sep c = true ->
  c <> "#"%char /\ c <> "{"%char /\ c <> "}"%char /\ isIdentStart c = false.
Proof. byte_cases c; vm_compute; intros H; try discriminate H; repeat split; congruence. Qed.

Lemma selector_loop_ok id fuel : forall s saw out out' rest,
  selector_loop fuel s id saw out = Ok (out', rest) ->
  exists body saw', s = body +:+ String "}" rest /\ sel_body saw' body /\
  out' = close_selector id (out +:+ body) (saw || saw').
Proof.
  induction fuel as [|n IH]; intros s saw out out' rest; [done|]. destruct s as [|c r]; [done|].
  cbn [selector_loop]. destruct (is_sep c) eqn:Es.
  { intros H. apply IH in H as (body & saw' & -> & Hb & ->).
    apply is_sep_not_marker in Es as (? & ? & ? & ?).
    exists (String c body), saw'. rewrite snoc_app. split_and!; [done|by constructor|done]. }
  destruct (byte_eqb c "#") eqn:E1; [done|]. destruct (byte_eqb c "{") eqn:E2; [done|].
  destruct (byte_eqb c "}") eqn:E3.
  { unfold close_selector. destruct (trimTrailingSeparators out) as [kept trail] eqn:Et.
    intros [= <- <-]. byte_facts. exists EmptyString, false.
    rewrite str_app_nil_r, orb_false_r, Et. split_and!; [done|constructor|done]. }
  destruct (isIdentStart c) eqn:Ei.
  - intros ([[name text] rest'] & Hm & H)%bind_Ok. apply IH in H as (body & saw' & -> & Hb & ->).
    apply scan_matcher_ok in Hm as (Hs & Hm & Hne & _).
    exists (text +:+ body), true. rewrite <- !str_app_assoc, Hs. split_and!; [done| |].
    + by eapply sb_matcher.
    + by rewrite orb_true_r.
  - intros H. apply IH in H as (body & saw' & -> & Hb & ->). byte_facts.
    exists (String c body), saw'. rewrite snoc_app. split_and!; [done|by constructor|done].
Qed.

(** ** The structure of a rewritten query *)

(** The pieces of a query: a byte copied as it is, a string literal, a number,
    a name (with or without a selector injected behind it), a selector. *)
Inductive item : Type :=
  | IByte (c : ascii)
  | IStr (lit : string)
  | INum (w : string)
  | IName (w : string) (injected : bool)
  | ISel (body : string) (matchers : bool).

Definition orig (i : item) : string :=
  match i with
  | IByte c => String c EmptyString
  | IStr lit => String DQ lit
  | INum w => w
  | IName w _ => w
  | ISel body _ => "{" +:+ body +:+ "}"
  end.

(** The matcher goes behind the last byte of the body that is not a separator. *)
Definition render (id : string) (i : item) : string :=
  match i with
  | IName w true => w +:+ synthetic_selector id
  | ISel body m =>
      "{" +:+ (trim_seps body).1 +:+ (if m then "," else EmptyString) +:+ tenant_matcher id
      +:+ (trim_seps body).2 +:+ "}"
  | _ => orig i
  end.

Fixpoint text_of (f : item -> string) (l : list item) : string :=
  match l with [] => EmptyString | i :: l' => f i +:+ text_of f l' end.

Definition labelled (i : item) : bool :=
  match i with IName _ lab => lab | ISel _ _ => true | _ => false end.

Definition is_space_item (i : item) : Prop :=
  match i with IByte c => is_space c = true | _ => False end.

(** The byte classes of [item_ok] exclude each other. *)
Definition plain_byte (c : ascii) : bool :=
  is_space c ||
  negb (byte_eqb c "#" || byte_eqb c "(" || byte_eqb c "[" || byte_eqb c "{" || byte_eqb c DQ ||
        isIdentStart c || byte_eqb c "-" || byte_eqb c "+" || is_digit c).

Definition item_ok (i : item) : Prop :=
  match i with
  | IByte c => plain_byte c = true
  | IStr lit => quoted_tail lit
  | INum w => exists c w', w = String c w' /\ all_bytes num_cont w' = true /\
      (byte_eqb c "-" || byte_eqb c "+" || is_digit c) = true
  | IName w _ => exists c w', w = String c w' /\ isIdentStart c = true /\
      all_bytes isIdentCont w' = true /\ vector_op w = false
  | ISel body m => sel_body m body
  end.

(** The next item that is not white space is a selector. *)
Definition before_selector (l : list item) : Prop :=
  exists sp body m l', l = sp ++ ISel body m :: l' /\ Forall is_space_item sp.

(** The next byte that is not white space is an operator. *)
Definition before_operator (l : list item) : Prop :=
  match (span_bytes is_space (text_of orig l)).2 with
  | String k _ => isOperatorStart k = true
  | EmptyString => False
  end.

(** Where a name stands: it gets a selector of its own at the end of the query
    or, as the first selector of the query, before an operator; it is left alone
    before a selector, and before an operator once an earlier selector was
    seen. *)
Definition name_placed (saw injected : bool) (rest : list item) : Prop :=
  if injected then all_bytes is_space (text_of orig rest) = true \/
                   (saw = false /\ before_operator rest)
  else before_selector rest \/ (saw = true /\ before_operator rest).

Fixpoint items_ok (saw : bool) (l : list item) : Prop :=
  match l with
  | [] => True
  | i :: l' =>
      item_ok i /\
      match i with IName _ lab => name_placed saw lab l' | _ => True end /\
      items_ok (saw || labelled i) l'
  end.

Lemma span_none_rest p s : (span_bytes p s).2 = EmptyString -> all_bytes p s = true.
Proof.
  intros H. rewrite <- (span_bytes_app p s), H, str_app_nil_r. apply span_bytes_all.
Qed.

Lemma byte_classes_disjoint c :
  (plain_byte c = true -> c <> "{"%char) /\ (isIdentStart c = true -> c <> "{"%char) /\
  (isIdentStart c = true -> is_space c = false) /\
  ((byte_eqb c "-" || byte_eqb c "+" || is_digit c) = true -> c <> "{"%char /\ is_space c = false).
Proof. byte_cases c; vm_compute; intuition congruence. Qed.

(** A brace can only be the beginning of a selector. *)
Lemma next_brace saw l r :
  items_ok saw l -> (span_bytes is_space (text_of orig l)).2 = String "{" r -> before_selector l.
Proof.
  revert saw. induction l as [|i l IH]; intros saw Hok H; [done|].
  destruct Hok as (Hi & _ & Hl). cbn in H.
  destruct i as [c|lit|w|w lab|body m]; cbn in Hi, H.
  - destruct (is_space c) eqn:Es.
    + destruct (span_bytes is_space (text_of orig l)) as [a b] eqn:E. cbn in H.
      destruct (IH _ Hl H) as (sp & body & m & l' & -> & Hsp).
      exists (IByte c :: sp), body, m, l'. split; [done|by constructor].
    + cbn in H. injection H as Hc _. by apply byte_classes_disjoint in Hi.
  - by vm_compute in H.
  - destruct Hi as (c & w' & -> & _ & Hc). apply byte_classes_disjoint in Hc as [Hc Hs].
    cbn in H. rewrite Hs in H. cbn in H. congruence.
  - destruct Hi as (c & w' & -> & Hc & _). cbn in H.
    destruct (byte_classes_disjoint c) as (_ & H1 & H2 & _). rewrite (H2 Hc) in H.
    injection H as Hx _. by apply H1 in Hc.
  - by exists [], body, m, l.
Qed.

Lemma trim_seps_app a c b : is_sep c = false ->
  trim_seps (a +:+ String c b) = (a +:+ String c (trim_seps b).1, (trim_seps b).2).
Proof.
  intros Hc. induction a as [|d a IH]; cbn.
  - destruct (trim_seps b) as [[|k1 k] t]; [by rewrite Hc|done].
  - rewrite IH. by destruct a.
Qed.

Lemma trimTrailing_open out body :
  trimTrailingSeparators (snoc out "{" +:+ body) =
  (out +:+ String "{" (trim_seps body).1, (trim_seps body).2).
Proof.
  rewrite snoc_app. destruct out as [|c out]; cbn.
  - by destruct (trim_seps body).
  - by rewrite trim_seps_app.
Qed.

(** Trailing separators only: the body is what stays followed by what was cut
    off. *)
Lemma trim_seps_split s :
  s = (trim_seps s).1 +:+ (trim_seps s).2 /\ all_bytes is_sep (trim_seps s).2 = true.
Proof.
  induction s as [|c s [IH1 IH2]]; [done|]. cbn. destruct (trim_seps s) as [[|k1 k] t]; cbn in *.
  - subst s. destruct (is_sep c) eqn:Ec; cbn; by rewrite ?Ec.
  - by rewrite <- IH1.
Qed.

Lemma rewriteSelector_ok s id out out' rest :
  rewriteSelector s id out = Ok (out', rest) ->
  exists body m, s = body +:+ String "}" rest /\ sel_body m body /\
  out' = out +:+ render id (ISel body m).
Proof.
  unfold rewriteSelector. intros (body & m & -> & Hb & ->)%selector_loop_ok.
  exists body, m. split_and!; [done..|]. unfold close_selector. rewrite trimTrailing_open.
  cbn. by rewrite <- !str_app_assoc.
Qed.

Lemma copyStringLiteral_ok s out out' rest :
  copyStringLiteral s out = Ok (out', rest) ->
  exists lit, s = lit +:+ rest /\ quoted_tail lit /\ out' = out +:+ String DQ lit.
Proof.
  unfold copyStringLiteral. intros ([lit r] & Hq & [= <- <-])%bind_Ok.
  apply scanQuotedString_ok in Hq as [-> Hq]. exists lit. by rewrite snoc_app.
Qed.

Lemma after_ident_placed rest saw lab saw' l :
  after_ident rest saw = Ok lab -> rest = text_of orig l -> items_ok saw' l ->
  name_placed saw lab l.
Proof.
  unfold after_ident, name_placed, before_operator. intros H -> Hl.
  destruct (span_bytes is_space (text_of orig l)).2 as [|k r] eqn:E.
  { injection H as <-. left. by apply span_none_rest. }
  destruct (byte_eqb k "{") eqn:Eb.
  { injection H as <-. byte_facts. left. by eapply next_brace. }
  destruct (isOperatorStart k); [|by destruct (isIdentStart k)].
  injection H as <-. destruct saw; cbn; auto.
Qed.

(** What a returning scan has done. *)
Definition scanned (id s : string) (saw : bool) (out out' : string) (saw' : bool) : Prop :=
  exists l, s = text_of orig l /\ out' = out +:+ text_of (render id) l /\ items_ok saw l /\
  saw' = saw || existsb labelled l.

(** One more item in front. *)
Lemma scanned_cons id i s rest saw out out1 out' saw' :
  item_ok i -> s = orig i +:+ rest -> out1 = out +:+ render id i ->
  (forall l, rest = text_of orig l -> items_ok (saw || labelled i) l ->
     match i with IName _ lab => name_placed saw lab l | _ => True end) ->
  scanned id rest (saw || labelled i) out1 out' saw' -> scanned id s saw out out' saw'.
Proof.
  intros Hi -> -> Hp (l & Hl & -> & Hok & ->). exists (i :: l). cbn.
  split_and!; [by rewrite Hl|by rewrite str_app_assoc|done|by apply Hp|done|].
  by rewrite orb_assoc.
Qed.

Lemma plain_space c : is_space c = true -> plain_byte c = true.
Proof. unfold plain_byte. by intros ->. Qed.

Lemma injectScan_ok id fuel : forall s saw out out' saw',
  injectScan fuel s id saw out = Ok (out', saw') -> scanned id s saw out out' saw'.
Proof.
  induction fuel as [|n IH]; intros s saw out out' saw'; [done|]. destruct s as [|c r].
  { intros [= <- <-]. exists []. cbn. by rewrite str_app_nil_r, orb_false_r. }
  cbn [injectScan]. destruct (is_space c) eqn:Es.
  { intros H%IH. eapply (scanned_cons id (IByte c)); [by apply plain_space|done|done|done|].
    cbn. by rewrite orb_false_r. }
  destruct (byte_eqb c "#") eqn:E1; [done|]. destruct (byte_eqb c "(") eqn:E2; [done|].
  destruct (byte_eqb c "[") eqn:E3; [done|]. destruct (byte_eqb c "{") eqn:E4.
  { intros ([o rest] & Hr & H%IH)%bind_Ok. byte_facts.
    apply rewriteSelector_ok in Hr as (body & m & -> & Hb & ->).
    eapply (scanned_cons id (ISel body m)); [done| |done|done|cbn; by rewrite orb_true_r].
    cbn. by rewrite <- str_app_assoc. }
  destruct (byte_eqb c DQ) eqn:E5.
  { intros ([o rest] & Hr & H%IH)%bind_Ok. byte_facts.
    apply copyStringLiteral_ok in Hr as (lit & -> & Hq & ->).
    eapply (scanned_cons id (IStr lit)); [done..|]. cbn. by rewrite orb_false_r. }
  destruct (isIdentStart c) eqn:E6.
  { pose proof (span_bytes_app isIdentCont r) as Hw. pose proof (span_bytes_all isIdentCont r) as Ha.
    destruct (span_bytes isIdentCont r) as [w rest]. cbn in Hw, Ha. subst r.
    destruct (vector_op (String c w)) eqn:Ev; [done|].
    intros (lab & Hl & H)%bind_Ok.
    apply (scanned_cons id (IName (String c w) lab) _ rest _ _
      (if lab then injectSyntheticSelector (out +:+ String c w) id else out +:+ String c w));
      [by exists c, w|done|destruct lab; cbn; [by unfold injectSyntheticSelector;
        rewrite <- str_app_assoc|done]| |].
    - intros l Hr Hok. by eapply after_ident_placed.
    - destruct lab; apply IH in H; cbn; by rewrite ?orb_true_r, ?orb_false_r. }
  destruct (byte_eqb c "-" || byte_eqb c "+" || is_digit c) eqn:E7.
  { pose proof (span_bytes_app num_cont r) as Hw. pose proof (span_bytes_all num_cont r) as Ha.
    destruct (span_bytes num_cont r) as [w rest]. cbn in Hw, Ha. subst r. intros H%IH.
    eapply (scanned_cons id (INum (String c w))); [by exists c, w|done..|].
    cbn. by rewrite orb_false_r. }
  intros H%IH. eapply (scanned_cons id (IByte c)); [|done|done|done|cbn; by rewrite orb_false_r].
  cbn. unfold plain_byte. apply orb_false_iff in E7 as [[??]%orb_false_iff ?].
  by rewrite Es, E1, E2, E3, E4, E5, E6, H0, H1, H2.
Qed.

(** ** The fuel is enough *)

Lemma scanQuotedString_fuel s : scanQuotedString s <> Err PFuel.
Proof.
  remember (str_len s) as n eqn:Hn. assert (Hle : str_len s <= n) by lia. clear Hn.
  revert s Hle. induction n as [|n IH]; intros [|c r] Hle; cbn in Hle; try done; [lia|].
  cbn [scanQuotedString]. destruct (byte_eqb c BS).
  - destruct r as [|d r']; [done|]. destruct (byte_eqb d LF); [done|].
    cbn in Hle. intros [H|([lit rest] & _ & ?)]%bind_Err; [|done]. apply (IH r'); [lia|done].
  - destruct (byte_eqb c DQ); [done|]. destruct (byte_eqb c LF); [done|].
    intros [H|([lit rest] & _ & ?)]%bind_Err; [|done]. apply (IH r); [lia|done].
Qed.

Lemma scan_matcher_fuel s : scan_matcher s <> Err PFuel.
Proof.
  unfold scan_matcher. destruct (span_bytes isIdentCont s) as [nm s1].
  destruct (span_bytes is_blank2 s1) as [w1 s2]. destruct s2 as [|op s3]; [done|].
  destruct (negb _ && negb _); [done|].
  match goal with |- context [let '(_, _) := ?t in _] => destruct t as [tilde s4] end.
  destruct (span_bytes is_blank2 s4) as [w2 s5]. destruct s5 as [|q s6]; [done|].
  destruct (negb _); [done|].
  intros [H|([lit rest] & _ & H)]%bind_Err; [by apply scanQuotedString_fuel in H|].
  by destruct (str_eqb nm tenantLabelName).
Qed.

Lemma matcher_text_len name text : matcher_text name text -> 1 <= str_len text.
Proof.
  intros (w1 & op & tilde & w2 & lit & -> & _). rewrite !str_len_app. cbn.
  rewrite !str_len_app. cbn. lia.
Qed.

Lemma selector_loop_fuel id fuel : forall s saw out,
  str_len s < fuel -> selector_loop fuel s id saw out <> Err PFuel.
Proof.
  induction fuel as [|n IH]; intros s saw out Hlt; [lia|]. destruct s as [|c r]; [done|].
  cbn in Hlt. cbn [selector_loop]. repeat case_match; try done; try (apply IH; lia).
  intros [H'|([[name text] rest] & Hm & H')]%bind_Err; [by apply scan_matcher_fuel in H'|].
  apply scan_matcher_ok in Hm as (Hs & Hm & _). apply matcher_text_len in Hm.
  apply (f_equal str_len) in Hs. rewrite str_len_app in Hs. cbn in Hs.
  apply IH in H'; [done|lia].
Qed.

Lemma injectScan_fuel id fuel : forall s saw out,
  str_len s < fuel -> injectScan fuel s id saw out <> Err PFuel.
Proof.
  induction fuel as [|n IH]; intros s saw out Hlt; [lia|]. destruct s as [|c r]; [done|].
  cbn in Hlt. cbn [injectScan].
  repeat (match goal with |- (if ?b then _ else _) <> _ => destruct b end; try done);
    try (apply IH; lia).
  - intros [H|([o rest] & Hr & H)]%bind_Err.
    + by apply selector_loop_fuel in H; [|lia].
    + apply rewriteSelector_ok in Hr as (body & m & -> & _). rewrite str_len_app in Hlt.
      cbn in Hlt. apply IH in H; [done|lia].
  - intros [H|([o rest] & Hr & H)]%bind_Err.
    + apply bind_Err in H as [H|([lit rest] & _ & ?)]; [by apply scanQuotedString_fuel in H|done].
    + apply copyStringLiteral_ok in Hr as (lit & -> & _). rewrite str_len_app in Hlt.
      apply IH in H; [done|lia].
  - pose proof (span_bytes_len isIdentCont r). destruct (span_bytes isIdentCont r) as [w rest].
    cbn in *. destruct (vector_op _); [done|].
    intros [H'|(lab & _ & H')]%bind_Err.
    + unfold after_ident in H'. repeat case_match; done.
    + destruct lab; apply IH in H'; (done || lia).
  - pose proof (span_bytes_len num_cont r). destruct (span_bytes num_cont r) as [w rest].
    cbn in *. apply IH. lia.
Qed.

(** ** The theorems *)

(** C13: the rewriting always returns, and what it returns is the query itself
    with tenant matchers inserted: the query is a sequence of pieces none of
    which is a comment, a parenthesis, a range or a vector operator; every
    selector, none of which had a matcher on the tenant label, gets the matcher
    behind its last one; every name gets a selector of its own, except before a
    selector or, once the query had an earlier selector, before an operator;
    and at least one matcher was inserted. *)
Theorem InjectTenantLabel_structure q id :
  InjectTenantLabel q id <> Err PFuel /\
  forall out, InjectTenantLabel q id = Ok out ->
  all_bytes tenant_byte_ok id = true /\
  exists l, q = text_of orig l /\ out = text_of (render id) l /\ items_ok false l /\
    existsb labelled l = true.
Proof.
  unfold InjectTenantLabel, validateTenantIDForLabel.
  destruct (str_eqb q EmptyString); [done|]. destruct (str_eqb id EmptyString); [done|].
  destruct (all_bytes tenant_byte_ok id); [|done]. cbn [mbind result_bind]. split.
  - intros [H|([o saw] & _ & H)]%bind_Err; [apply injectScan_fuel in H; [done|lia]|].
    by destruct saw.
  - intros out ([o saw] & Hs & H)%bind_Ok. destruct saw; [|done]. injection H as <-.
    apply injectScan_ok in Hs as (l & -> & -> & Hok & Hl). split; [done|]. by exists l.
Qed.

(** *** A name the rewriting leaves without the matcher *)

(** A metric name: an identifier that is not a vector operator. *)
Definition metric_name (w : string) : Prop :=
  exists c w', w = String c w' /\ isIdentStart c = true /\ all_bytes isIdentCont w' = true /\
  vector_op w = false.

Lemma ident_start_other c : isIdentStart c = true ->
  is_space c = false /\ byte_eqb c "#" = false /\ byte_eqb c "(" = false /\
  byte_eqb c "[" = false /\ byte_eqb c "{" = false /\ byte_eqb c DQ = false.
Proof. byte_cases c; vm_compute; intuition congruence. Qed.

(** The step of the pass over a name followed by a blank and an operator. *)
Lemma injectScan_name n w op r id saw out :
  metric_name w -> isOperatorStart op = true -> is_space op = false -> byte_eqb op "{" = false ->
  injectScan (S n) (w +:+ String " " (String op r)) id saw out =
  if saw then injectScan n (String " " (String op r)) id saw (out +:+ w)
  else injectScan n (String " " (String op r)) id true (injectSyntheticSelector (out +:+ w) id).
Proof.
  intros (c & w' & -> & Hc & Hw & Hv) Hop Hs Hb. cbn [String.append injectScan].
  destruct (ident_start_other c Hc) as (-> & -> & -> & -> & -> & ->). rewrite Hc.
  rewrite span_bytes_split by done. rewrite Hv. unfold after_ident.
  cbn [span_bytes]. change (is_space " ") with true. cbv iota. rewrite Hs. cbn [snd].
  rewrite Hb, Hop. by destruct saw.
Qed.

Lemma metric_name_len w : metric_name w -> 1 <= str_len w.
Proof. intros (c & w' & -> & _). cbn. lia. Qed.

(** Tenant isolation does not hold for a sum whose second operand is a
    scaled bare metric: for any two metric names the query [a + b * 1] is
    accepted, and only the first name receives the tenant matcher. *)
Lemma second_metric_unlabelled a b id :
  metric_name a -> metric_name b -> id <> EmptyString -> all_bytes tenant_byte_ok id = true ->
  InjectTenantLabel (a +:+ " + " +:+ b +:+ " * 1") id =
  Ok (a +:+ synthetic_selector id +:+ " + " +:+ b +:+ " * 1").
Proof.
  intros Ha Hb Hne Hid. unfold InjectTenantLabel, validateTenantIDForLabel.
  pose proof (metric_name_len a Ha). pose proof (metric_name_len b Hb).
  replace (str_eqb (a +:+ _) EmptyString) with false
    by (symmetry; apply str_eqb_neq; destruct a; done).
  replace (str_eqb id EmptyString) with false by (symmetry; by apply str_eqb_neq).
  rewrite Hid. cbn [mbind result_bind].
  assert (exists k, S (str_len (a +:+ " + " +:+ b +:+ " * 1")) = 10 + k) as [k ->].
  { rewrite !str_len_app. cbn. exists (str_len a + str_len b - 2). lia. }
  cbn [Nat.add]. change (" + " +:+ b +:+ " * 1") with (String " " (String "+" (" " +:+ b +:+ " * 1"))).
  rewrite (injectScan_name _ a) by done. cbv iota.
  set (o1 := injectSyntheticSelector _ _).
  change (injectScan (S (S (S (S (S (S (S (S (S k))))))))) (String " " (String "+" (" " +:+ b +:+ " * 1"))) id true o1)
    with (injectScan (S (S (S (S (S (S k)))))) (b +:+ String " " (String "*" " 1")) id true
      (snoc (snoc o1 " " +:+ "+") " ")).
  rewrite (injectScan_name _ b) by done. cbv iota. set (o2 := _ +:+ b).
  change (Ok (snoc (snoc (snoc o2 " ") "*") " " +:+ "1") =
    Ok (a +:+ synthetic_selector id +:+ " + " +:+ b +:+ " * 1") :> result bypass string).
  unfold o2, o1, injectSyntheticSelector, snoc. generalize (synthetic_selector id) as t. intros t.
  by rewrite <- !str_app_assoc.
Qed.

Lemma demo_metric c w :
  isIdentStart c = true -> all_bytes isIdentCont w = true -> vector_op (String c w) = false ->
  metric_name (String c w).
Proof. intros. by exists c, w. Qed.

Lemma second_metric_unlabelled_witness :
  InjectTenantLabel "up + down * 1" "acme" =
  Ok ("up{tenant=" +:+ dq "acme" +:+ "} + down * 1").
Proof. by apply (second_metric_unlabelled "up" "down" "acme"); [apply demo_metric..| |]. Defined.

Lemma InjectTenantLabel_structure_witness :
  exists l, "up + down * 1" = text_of orig l /\ items_ok false l.
Proof.
  destruct (proj2 (InjectTenantLabel_structure "up + down * 1" "acme")
    ("up{tenant=" +:+ dq "acme" +:+ "} + down * 1")) as (_ & l & H1 & _ & H2 & _);
    [vm_compute; reflexivity|]. by exists l.
Defined.
