(* ===== verification/PromProj.v ===== *)
(** * Projection to Prometheus lines and back (pkg/promproj/promproj.go)

    [Render] turns a point and a sample into an exposition line; [ParseLine]
    reads a line and [RelPoint] rebuilds the relative point from the labels.
    The round-trip theorem says the consumers recover the address and the
    value the producer wrote.

    The formatting and the reading of the sample value are strconv.FormatFloat
    (shortest form) and strconv.ParseFloat; they are parameters, related by the
    documented law that reading gives the formatted value back. *)
From S2P Require Import Prelude Float64 GoTime CPath Http.
Open Scope string_scope.
Open Scope list_scope.

Abbreviation DQ := (ascii_of_nat 34).
Abbreviation BS := (ascii_of_nat 92).

Inductive proj_err : Type :=
  | EEmptyQuantity | EUnknownQuantity | ENoPrefix | ENoMatch | ENoName
  | ENoLabels | EUnterminatedLabels | ENoValue | EBadValue.

#[export] Instance proj_err_eq_dec : EqDecision proj_err.
Proof. solve_decision. Defined.

(** ** Names *)

Definition lookupQuantity (name : string) (d : Dict) : option QuantityDef :=
  match d_Quantities d !! name with
  | Some def => Some def
  | None => d_Derived d !! name
  end.

Definition MetricName (quantity : string) (d : Dict) : result proj_err string :=
  match lookupQuantity quantity d with
  | None => Err EUnknownQuantity
  | Some q =>
      if str_eqb (qd_Unit q) "enum" then Ok ("cios_" +:+ quantity)
      else Ok ("cios_" +:+ quantity +:+ "_" +:+ qd_Unit q)
  end.

(** ** Labels *)

Fixpoint first_domain (keys : list string) (d : Dict) (topType : string) : string :=
  match keys with
  | [] => EmptyString
  | k :: keys' =>
      if contains_string (default [] (d_Domains d !! k)) topType then k
      else first_domain keys' d topType
  end.

Definition reverseDomain (topType : string) (d : Dict) : string :=
  first_domain (sort_strings ((map_to_list (d_Domains d)).*1)) d topType.

Definition loop_value (p : Point) : string :=
  p_Loop p +:+ (if (0 <=? p_LoopIndex p)%Z then itoa (p_LoopIndex p) else EmptyString).

(** [if v != "" { out = append(out, kv{k, v}) }]. *)
Definition opt_kv (k v : string) : list (string * string) :=
  if str_eqb v EmptyString then [] else [(k, v)].

Definition buildLabels (p : Point) (quality : string) (d : Dict) : list (string * string) :=
  [("site", ap_Site (p_Asset p))] ++
  ((fun n => (n_Type n, node_seg n)) <$> ap_Nodes (p_Asset p)) ++
  [("path", AssetPath_String (p_Asset p))] ++
  (if str_eqb (p_Loop p) EmptyString then [] else [("loop", loop_value p)]) ++
  opt_kv "side" (p_Side p) ++ opt_kv "phase" (p_Phase p) ++
  match ap_Nodes (p_Asset p) with
  | [] => []
  | top :: _ =>
      [("asset_type", default EmptyString (last_type (ap_Nodes (p_Asset p))))] ++
      opt_kv "domain" (reverseDomain (n_Type top) d)
  end ++
  opt_kv "quality" quality.

(** ** Escaping *)

Definition escape_rune (r : N) : string :=
  if (r =? 92)%N then String BS (String BS EmptyString)
  else if (r =? 34)%N then String BS (String DQ EmptyString)
  else if (r =? 10)%N then String BS "n"
  else encode_rune r.

(** A byte the exposition format does not treat as syntax. *)
Definition plain_byte (c : ascii) : bool :=
  negb (byte_eqb c BS || byte_eqb c DQ || byte_eqb c LF).
Definition plain (s : string) : bool := all_bytes plain_byte s.

Definition escapeLabel (s : string) : string :=
  if plain s then s else foldr (fun r acc => escape_rune r +:+ acc) EmptyString (runes s).

Definition label_text (l : string * string) : string :=
  l.1 +:+ "=" +:+ String DQ (escapeLabel l.2 +:+ String DQ EmptyString).
Definition labels_text (ls : list (string * string)) : string := join "," (label_text <$> ls).

(** ** Rendering *)

(** [t.UnixMilli()]. *)
Definition unix_epoch : time := 62135596800 * Second.
Definition UnixMilli (t : time) : Z := (t - unix_epoch) / Millisecond.

Section strconv.
Context (formatFloat : float64 -> string).
Context (parseFloat : string -> option float64).

Definition Render (p : Point) (value : float64) (ts : time) (quality : string) (d : Dict) :
    result proj_err string :=
  if str_eqb (p_Quantity p) EmptyString then Err EEmptyQuantity
  else
    name ← MetricName (p_Quantity p) d;
    Ok (name +:+ "{" +:+ labels_text (buildLabels p quality d) +:+ "} " +:+
        formatFloat value +:+ " " +:+ itoa (UnixMilli ts)).

Definition Selector (p : Point) (d : Dict) : result proj_err string :=
  if str_eqb (p_Quantity p) EmptyString then Err EEmptyQuantity
  else
    name ← MetricName (p_Quantity p) d;
    Ok (name +:+ "{" +:+
        labels_text (List.filter (fun l => negb (str_eqb l.1 "quality"))
          (buildLabels p EmptyString d)) +:+ "}").

(** ** The inverse *)

(** The scan over a dictionary map; its iteration order is unspecified. *)
Definition scan_metric (metric : string) (m : gmap string QuantityDef) : option string :=
  fst <$> List.find (fun '(q, def) =>
    negb (str_eqb (qd_Unit def) EmptyString) && negb (str_eqb (qd_Unit def) "enum") &&
    str_eqb ("cios_" +:+ q +:+ "_" +:+ qd_Unit def) metric) (map_to_list m).

Definition is_enum (o : option QuantityDef) : bool :=
  match o with Some def => str_eqb (qd_Unit def) "enum" | None => false end.

Definition QuantityFromMetric (metric : string) (d : Dict) : result proj_err string :=
  if negb (has_prefix metric "cios_") then Err ENoPrefix
  else
    let body := trim_prefix metric "cios_" in
    if is_enum (d_Quantities d !! body) then Ok body
    else if is_enum (d_Derived d !! body) then Ok body
    else
      match scan_metric metric (d_Quantities d) with
      | Some q => Ok q
      | None =>
          match scan_metric metric (d_Derived d) with
          | Some q => Ok q
          | None => Err ENoMatch
          end
      end.

(** A read of a Go map[string]string. *)
Definition label (m : gmap string string) (k : string) : string := default EmptyString (m !! k).
Definition opt_part (v : string) : list string := if str_eqb v EmptyString then [] else [v].

Definition RelPoint (labels : gmap string string) (d : Dict) : result proj_err string :=
  let name := label labels "__name__" in
  if str_eqb name EmptyString then Err ENoName
  else
    quantity ← QuantityFromMetric name d;
    Ok (join "." (opt_part (label labels "loop") ++ opt_part (label labels "side") ++
                  opt_part (label labels "phase") ++ [quantity])).

(** Whether an unescaped quote follows: the inner loop of [findMatchingBrace]. *)
Fixpoint closes (s : string) : bool :=
  match s with
  | EmptyString => false
  | String c r =>
      if byte_eqb c BS then match r with EmptyString => false | String _ r' => closes r' end
      else byte_eqb c DQ || closes r
  end.

(** [findMatchingBrace] as one pass: outside quotes, behind a backslash, inside
    quotes, behind a backslash inside quotes.  The result is the text before
    the brace and the text behind it. *)
Inductive brace_mode : Type := MOut | MEsc | MIn | MInEsc.

Definition cons_fst (c : ascii) (o : option (string * string)) : option (string * string) :=
  '(a, b) ← o; Some (String c a, b).

Fixpoint match_brace (m : brace_mode) (s : string) : option (string * string) :=
  match s with
  | EmptyString => None
  | String c r =>
      match m with
      | MOut =>
          if byte_eqb c BS then cons_fst c (match_brace MEsc r)
          else if byte_eqb c DQ then
            cons_fst c (if closes r then match_brace MIn r else match_brace MOut r)
          else if byte_eqb c "}" then Some (EmptyString, r)
          else cons_fst c (match_brace MOut r)
      | MEsc => cons_fst c (match_brace MOut r)
      | MIn =>
          if byte_eqb c BS then cons_fst c (match_brace MInEsc r)
          else if byte_eqb c DQ then cons_fst c (match_brace MOut r)
          else cons_fst c (match_brace MIn r)
      | MInEsc => cons_fst c (match_brace MIn r)
      end
  end.
Definition findMatchingBrace (s : string) : option (string * string) := match_brace MOut s.

(** The value behind the opening quote, unescaped, and what follows the closing
    quote. *)
Fixpoint unquote (s : string) : string * string :=
  match s with
  | EmptyString => (EmptyString, EmptyString)
  | String c r =>
      if byte_eqb c DQ then (EmptyString, r)
      else if byte_eqb c BS then
        match r with
        | String e r' =>
            let '(v, rest) := unquote r' in
            (String (if byte_eqb e "n" then LF else e) v, rest)
        | EmptyString => (String c EmptyString, EmptyString)
        end
      else let '(v, rest) := unquote r in (String c v, rest)
  end.

Definition label_sep (c : ascii) : bool := byte_eqb c " " || byte_eqb c "," || byte_eqb c TAB.
Definition key_byte (c : ascii) : bool := negb (byte_eqb c "=") && negb (byte_eqb c " ").
Definition eq_byte (c : ascii) : bool := byte_eqb c "=" || byte_eqb c " " || byte_eqb c TAB.

(** One turn per label. *)
Fixpoint parse_labels (fuel : nat) (s : string) (out : gmap string string) : gmap string string :=
  match fuel with
  | O => out
  | S n =>
      let s1 := (span_bytes label_sep s).2 in
      if str_eqb s1 EmptyString then out
      else
        let '(k, s2) := span_bytes key_byte s1 in
        match (span_bytes eq_byte s2).2 with
        | String q s3 =>
            if byte_eqb q DQ then
              let '(v, rest) := unquote s3 in parse_labels n rest (<[k := v]> out)
            else out
        | EmptyString => out
        end
  end.
Definition parseLabels (s : string) : gmap string string := parse_labels (S (str_len s)) s ∅.

(** [strings.Cut(s, c)]: what comes before the first [c]. *)
Definition cut_before (c : ascii) (s : string) : string :=
  (span_bytes (fun b => negb (byte_eqb b c)) s).1.

Definition ParseLine (line : string) (d : Dict) :
    result proj_err (gmap string string * float64) :=
  let '(metric, s1) := span_bytes (fun b => negb (byte_eqb b "{")) line in
  match s1 with
  | EmptyString => Err ENoLabels
  | String _ s2 =>
      match findMatchingBrace s2 with
      | None => Err EUnterminatedLabels
      | Some (labelStr, s3) =>
          let tail := TrimSpace s3 in
          if str_eqb tail EmptyString then Err ENoValue
          else
            match parseFloat (cut_before " " tail) with
            | None => Err EBadValue
            | Some v => Ok (<["__name__" := metric]> (parseLabels labelStr), v)
            end
      end
  end.
End strconv.

Example render_demo :
  Render (fun _ => "23.5") demo_point f1 unix_epoch "good" demo_dict =
  Ok ("cios_temp_celsius{site=" +:+ String DQ ("sgp01" +:+ String DQ (",pod=" +:+ String DQ
     ("pod002" +:+ String DQ (",cdu=" +:+ String DQ ("cdu000" +:+ String DQ (",path=" +:+ String DQ
     ("sgp01.pod002.cdu000" +:+ String DQ (",loop=" +:+ String DQ ("fws1" +:+ String DQ (",side=" +:+
     String DQ ("supply" +:+ String DQ (",asset_type=" +:+ String DQ ("cdu" +:+ String DQ (",quality="
     +:+ String DQ ("good" +:+ String DQ "} 23.5 0")))))))))))))))).
Proof. vm_compute. reflexivity. Qed.

(** ** Label text *)

(** A label name: not empty, without the bytes the two scanners stop at. *)
Definition name_byte (c : ascii) : bool :=
  plain_byte c && negb (byte_eqb c "}" || byte_eqb c "=" || label_sep c).
Definition key_ok (k : string) : Prop := k <> EmptyString /\ all_bytes name_byte k = true.
Definition label_ok (l : string * string) : Prop := key_ok l.1 /\ plain l.2 = true.

Lemma escape_plain v : plain v = true -> escapeLabel v = v.
Proof. unfold escapeLabel. by intros ->. Qed.

Definition pre (s : string) (o : option (string * string)) : option (string * string) :=
  '(a, b) ← o; Some (s +:+ a, b).

Lemma pre_cons c s o : cons_fst c (pre s o) = pre (String c s) o.
Proof. by destruct o as [[a b]|]. Qed.
Lemma pre_app s t o : pre s (pre t o) = pre (s +:+ t) o.
Proof. destruct o as [[a b]|]; [|done]. cbn. by rewrite str_app_assoc. Qed.

Lemma plain_byte_inv c : plain_byte c = true -> byte_eqb c BS = false /\ byte_eqb c DQ = false.
Proof. unfold plain_byte. intros H. bool_simpl. done. Qed.

Lemma name_byte_inv c : name_byte c = true ->
  byte_eqb c BS = false /\ byte_eqb c DQ = false /\ byte_eqb c "}" = false /\
  label_sep c = false /\ key_byte c = true.
Proof.
  unfold name_byte, key_byte, label_sep. intros H. bool_simpl.
  apply plain_byte_inv in H as [-> ->]. rewrite H0, H2, H3, H4, H1. done.
Qed.

Lemma match_brace_in v r : plain v = true ->
  match_brace MIn (v +:+ String DQ r) = pre (v +:+ String DQ EmptyString) (match_brace MOut r) /\
  closes (v +:+ String DQ r) = true.
Proof.
  unfold plain. induction v as [|c v IH]; cbn [String.append all_bytes match_brace closes].
  - intros _. rewrite byte_eqb_refl. cbn. by destruct (match_brace MOut r) as [[a b]|].
  - intros H. apply andb_true_iff in H as [Hc Hv]. apply plain_byte_inv in Hc as [-> ->].
    destruct (IH Hv) as [-> ->]. split; [|done]. apply pre_cons.
Qed.

Lemma match_brace_key k r : all_bytes name_byte k = true ->
  match_brace MOut (k +:+ r) = pre k (match_brace MOut r).
Proof.
  induction k as [|c k IH]; cbn [String.append all_bytes match_brace].
  - intros _. cbn. by destruct (match_brace MOut r) as [[a b]|].
  - intros H. apply andb_true_iff in H as [Hc Hk].
    apply name_byte_inv in Hc as (-> & -> & -> & _). rewrite IH by done. apply pre_cons.
Qed.

Lemma match_brace_label l r : label_ok l ->
  match_brace MOut (label_text l +:+ r) = pre (label_text l) (match_brace MOut r).
Proof.
  destruct l as [k v]. intros [[_ Hk] Hv]. unfold label_text. cbn in *.
  rewrite escape_plain by done. rewrite <- str_app_assoc, match_brace_key by done.
  cbn [String.append match_brace]. change (byte_eqb "=" BS) with false.
  change (byte_eqb "=" DQ) with false. change (byte_eqb "=" "}") with false. cbv iota.
  change (byte_eqb DQ BS) with false. rewrite byte_eqb_refl. cbv iota.
  rewrite <- str_app_assoc. cbn [String.append].
  destruct (match_brace_in v r Hv) as [-> ->]. by rewrite !pre_cons, pre_app.
Qed.

(** Labels after the first are preceded by a comma. *)
Lemma match_brace_more ls r : Forall label_ok ls ->
  match_brace MOut (dotted "," (label_text <$> ls) +:+ String "}" r) =
  Some (dotted "," (label_text <$> ls), r).
Proof.
  induction 1 as [|l ls Hl Hls IH]; [done|]. cbn [fmap list_fmap dotted String.append].
  rewrite <- str_app_assoc. cbn [match_brace]. change (byte_eqb "," BS) with false.
  change (byte_eqb "," DQ) with false. change (byte_eqb "," "}") with false. cbv iota.
  rewrite match_brace_label by done. by rewrite IH.
Qed.

Lemma findMatchingBrace_labels ls r : Forall label_ok ls -> ls <> [] ->
  findMatchingBrace (labels_text ls +:+ String "}" r) = Some (labels_text ls, r).
Proof.
  intros Hls Hne. destruct ls as [|l ls]; [done|]. inv Hls. unfold findMatchingBrace, labels_text.
  cbn [fmap list_fmap]. rewrite join_dotted, <- str_app_assoc, match_brace_label by done.
  by rewrite match_brace_more.
Qed.

Lemma unquote_plain v r : plain v = true -> unquote (v +:+ String DQ r) = (v, r).
Proof.
  unfold plain. induction v as [|c v IH]; cbn [String.append all_bytes unquote].
  - by rewrite byte_eqb_refl.
  - intros H. apply andb_true_iff in H as [Hc Hv]. apply plain_byte_inv in Hc as [-> ->].
    by rewrite IH.
Qed.

(** One label is read and stored. *)
(** Every label consumes input, so one turn per byte is enough. *)
Lemma unquote_len : forall n s, str_len s < n -> str_len (unquote s).2 <= str_len s.
Proof.
  induction n as [|n IH]; intros s Hn; [lia|]. destruct s as [|c r]; cbn in *; [done|].
  destruct (byte_eqb c DQ); [cbn; lia|]. destruct (byte_eqb c BS).
  - destruct r as [|e r']; [cbn; lia|]. cbn in *. pose proof (IH r' ltac:(lia)).
    destruct (unquote r'). cbn in *. lia.
  - pose proof (IH r ltac:(lia)). destruct (unquote r). cbn in *. lia.
Qed.

Lemma parse_labels_enough : forall n m s out,
  str_len s < n -> str_len s < m -> parse_labels n s out = parse_labels m s out.
Proof.
  induction n as [|n IH]; intros [|m] s out Hn Hm; [lia..|]. cbn [parse_labels].
  pose proof (span_bytes_len label_sep s) as H1. set (s1 := (span_bytes label_sep s).2) in *.
  destruct (str_eqb s1 _); [done|].
  pose proof (span_bytes_len key_byte s1) as H2.
  destruct (span_bytes key_byte s1) as [k s2]. cbn in H2.
  pose proof (span_bytes_len eq_byte s2) as H3.
  destruct (span_bytes eq_byte s2).2 as [|q s3]; [done|]. destruct (byte_eqb q DQ); [|done].
  pose proof (unquote_len (S (str_len s3)) s3 ltac:(lia)) as H4.
  destruct (unquote s3) as [v rest]. cbn in *. apply IH; lia.
Qed.

Lemma parse_labels_step n s l r out : label_ok l ->
  (span_bytes label_sep s).2 = label_text l +:+ r ->
  parse_labels (S n) s out = parse_labels n r (<[l.1 := l.2]> out).
Proof.
  destruct l as [k v]. intros [[Hne Hk] Hv] Hs. cbn in *. cbn [parse_labels]. rewrite Hs.
  unfold label_text. cbn [fst snd]. rewrite escape_plain, <- !str_app_assoc by done.
  destruct (str_eqb _ EmptyString) eqn:E.
  { apply str_eqb_eq in E. by destruct k. }
  cbn [String.append]. rewrite span_bytes_split; [|by eapply all_bytes_impl, Hk;
    intros c Hc; apply name_byte_inv in Hc as (_ & _ & _ & _ & ?)|done].
  change (String "=" (String DQ ((v +:+ String DQ EmptyString) +:+ r)))
    with ("=" +:+ String DQ ((v +:+ String DQ EmptyString) +:+ r)).
  rewrite (span_bytes_split eq_byte) by done. cbn [snd]. rewrite byte_eqb_refl.
  rewrite <- str_app_assoc. cbn [String.append]. by rewrite unquote_plain.
Qed.

Definition store (m : gmap string string) (l : string * string) : gmap string string :=
  <[l.1 := l.2]> m.

Lemma key_start k r : key_ok k -> span_bytes label_sep (k +:+ r) = (EmptyString, k +:+ r).
Proof.
  intros [Hne Hk]. destruct k as [|c k]; [done|]. cbn in *. bool_simpl.
  apply name_byte_inv in H as (_ & _ & _ & -> & _). done.
Qed.

Lemma parse_labels_more ls : Forall label_ok ls -> forall n out, length ls < n ->
  parse_labels n (dotted "," (label_text <$> ls)) out = foldl store out ls.
Proof.
  induction 1 as [|l ls Hl Hls IH]; intros n out Hn; destruct n as [|n]; cbn in Hn; try lia; [done|].
  cbn [foldl]. rewrite (parse_labels_step n _ l (dotted "," (label_text <$> ls))); [|done|].
  - unfold store at 2. apply IH. lia.
  - cbn [fmap list_fmap dotted span_bytes]. change (label_sep ",") with true. cbv iota.
    unfold label_text at 1. rewrite <- !str_app_assoc, key_start by apply Hl.
    unfold label_text at 2. cbn [snd]. by rewrite <- !str_app_assoc.
Qed.

Lemma label_text_len l : 3 <= str_len (label_text l).
Proof. unfold label_text. rewrite !str_len_app. cbn. rewrite str_len_app. cbn. lia. Qed.

Lemma dotted_len ls : length ls <= str_len (dotted "," (label_text <$> ls)).
Proof. induction ls as [|l ls IH]; cbn; [done|]. rewrite str_len_app. lia. Qed.

Lemma parseLabels_text ls : Forall label_ok ls -> parseLabels (labels_text ls) = foldl store ∅ ls.
Proof.
  intros Hls. destruct ls as [|l ls]; [done|]. inv Hls. unfold parseLabels, labels_text.
  cbn [fmap list_fmap]. rewrite join_dotted.
  rewrite (parse_labels_step _ _ l (dotted "," (label_text <$> ls))); [|done|].
  - cbn [foldl]. apply parse_labels_more; [done|]. rewrite str_len_app.
    pose proof (dotted_len ls). pose proof (label_text_len l). lia.
  - unfold label_text at 1. rewrite <- !str_app_assoc, key_start by apply H1.
    unfold label_text at 2. cbn [snd]. by rewrite <- !str_app_assoc.
Qed.

(** ** The tail of the line *)

(** A visible ASCII byte. *)
Definition graph_byte (c : ascii) : bool := ((0x21 <=? code c) && (code c <=? 0x7E))%N.
Definition word (s : string) : Prop := s <> EmptyString /\ all_bytes graph_byte s = true.

Lemma rev_append_app s t acc : rev_append_str (s +:+ t) acc = rev_append_str t (rev_append_str s acc).
Proof. revert acc. induction s as [|c s IH]; intros acc; cbn; [done|]. apply IH. Qed.

Lemma rev_append_acc s : forall acc, rev_append_str s acc = rev_append_str s EmptyString +:+ acc.
Proof.
  induction s as [|c s IH]; intros acc; cbn; [done|].
  rewrite (IH (String c acc)), (IH (String c EmptyString)). by rewrite <- str_app_assoc.
Qed.

Lemma rev_str_app s t : rev_str (s +:+ t) = rev_str t +:+ rev_str s.
Proof. unfold rev_str. by rewrite rev_append_app, rev_append_acc. Qed.

Lemma rev_str_rev s : rev_str (rev_str s) = s.
Proof.
  induction s as [|c s IH]; [done|]. change (String c s) with (String c EmptyString +:+ s) at 1.
  by rewrite !rev_str_app, IH.
Qed.

Lemma graph_not_space c d e : graph_byte c = true ->
  space1 c = false /\ space2 c d = false /\ space3 c d e = false.
Proof.
  unfold graph_byte, space1, space2, space3. intros [H1 H2]%andb_true_iff.
  apply N.leb_le in H1, H2. repeat split.
  - apply orb_false_iff. split; [apply andb_false_iff; right; apply N.leb_gt; lia|].
    apply N.eqb_neq. lia.
  - apply andb_false_iff. left. apply N.eqb_neq. lia.
  - repeat (apply orb_false_iff; split); repeat (apply andb_false_iff; left); apply N.eqb_neq; lia.
Qed.

Lemma graph_not_space_rev c d e : graph_byte e = true ->
  space1 e = false /\ space2 d e = false /\ space3 c d e = false.
Proof.
  intros H. split; [by apply (graph_not_space e e e)|]. revert H.
  unfold graph_byte, space2, space3. intros [H1 H2]%andb_true_iff. apply N.leb_le in H1, H2.
  assert (Hne : forall n, (0x80 <= n)%N -> (code e =? n)%N = false)
    by (intros n Hn; apply N.eqb_neq; lia).
  rewrite !Hne by lia. replace (0x80 <=? code e)%N with false by (symmetry; apply N.leb_gt; lia).
  cbn [orb andb]. by rewrite !andb_false_r.
Qed.

Lemma trim_left_graph c r : graph_byte c = true -> trim_left (String c r) = String c r.
Proof.
  intros H. cbn. destruct r as [|d [|e r]];
    destruct (graph_not_space c c c H) as (-> & _); try done;
    destruct (graph_not_space c d d H) as (_ & -> & _); try done.
  by destruct (graph_not_space c d e H) as (_ & _ & ->).
Qed.

Lemma trim_left_rev_graph c r : graph_byte c = true -> trim_left_rev (String c r) = String c r.
Proof.
  intros H. cbn. destruct r as [|d [|e r]];
    destruct (graph_not_space_rev c c c H) as (-> & _); try done;
    destruct (graph_not_space_rev d d c H) as (_ & -> & _); try done.
  by destruct (graph_not_space_rev e d c H) as (_ & _ & ->).
Qed.

Lemma word_last s : word s -> exists s' c, s = s' +:+ String c EmptyString /\ graph_byte c = true.
Proof.
  intros [Hne Hg]. destruct (rev_str s) as [|c r] eqn:E.
  - apply (f_equal rev_str) in E. by rewrite rev_str_rev in E.
  - apply (f_equal rev_str) in E. rewrite rev_str_rev in E.
    change (String c r) with (String c EmptyString +:+ r) in E. rewrite rev_str_app in E.
    exists (rev_str r), c. split; [done|]. rewrite E, all_bytes_app in Hg. bool_simpl. cbn in H0. by bool_simpl.
Qed.

Lemma trim_right_graph s l : graph_byte l = true ->
  rev_str (trim_left_rev (rev_str (s +:+ String l EmptyString))) = s +:+ String l EmptyString.
Proof.
  intros Hl. rewrite rev_str_app. change (rev_str (String l EmptyString) +:+ rev_str s)
    with (String l (rev_str s)).
  rewrite trim_left_rev_graph by done. change (String l (rev_str s))
    with (rev_str (String l EmptyString) +:+ rev_str s).
  by rewrite <- rev_str_app, rev_str_rev.
Qed.

Lemma TrimSpace_words a b : word a -> word b ->
  TrimSpace (" " +:+ a +:+ " " +:+ b) = a +:+ " " +:+ b.
Proof.
  intros [Ha Hga] Hb. destruct (word_last b Hb) as (b' & l & -> & Hl).
  unfold TrimSpace. change (" " +:+ ?x) with (String " " x).
  rewrite !str_app_assoc. set (s := (a +:+ " ") +:+ b').
  cbn [String.append trim_left]. change (space1 " ") with true. cbv iota.
  destruct a as [|c a]; [done|]. cbn in Hga. bool_simpl.
  assert (Ht : trim_left (s +:+ String l EmptyString) = s +:+ String l EmptyString)
    by (by apply trim_left_graph).
  rewrite Ht, trim_right_graph by done. unfold s. by rewrite <- !str_app_assoc.
Qed.

Lemma graph_not_blank c : graph_byte c = true -> negb (byte_eqb c " ") = true.
Proof. byte_cases c; vm_compute; congruence. Qed.

Lemma cut_before_word a r : word a -> cut_before " " (a +:+ String " " r) = a.
Proof.
  intros [_ Ha]. unfold cut_before. rewrite span_bytes_split; [done| |done].
  eapply all_bytes_impl; [|exact Ha]. intros c. apply graph_not_blank.
Qed.

(** [strconv.Itoa] and [strconv.FormatInt] write visible ASCII. *)
Lemma pretty_go_graph x : forall s,
  all_bytes graph_byte s = true -> all_bytes graph_byte (pretty_N_go x s) = true.
Proof.
  induction (N.lt_wf_0 x) as [x _ IH]. intros s Hs. destruct (decide (x = 0)%N) as [->|Hx].
  - by rewrite pretty_N_go_0.
  - rewrite pretty_N_go_step by lia. apply IH; [by apply N.div_lt; lia|].
    cbn. rewrite Hs, andb_true_r. unfold pretty_N_char.
    repeat case_match; vm_compute; done.
Qed.

Lemma pretty_go_ne x : forall s, s <> EmptyString -> pretty_N_go x s <> EmptyString.
Proof.
  induction (N.lt_wf_0 x) as [x _ IH]. intros s Hs. destruct (decide (x = 0)%N) as [->|Hx].
  - by rewrite pretty_N_go_0.
  - rewrite pretty_N_go_step by lia. apply IH; [by apply N.div_lt; lia|done].
Qed.

Lemma pretty_N_word (n : N) : word (pretty n).
Proof.
  unfold pretty, pretty_N. case_decide as Hn; [by split|]. split.
  - rewrite pretty_N_go_step by lia. by apply pretty_go_ne.
  - by apply pretty_go_graph.
Qed.

Lemma itoa_word z : word (itoa z).
Proof.
  unfold itoa, pretty, pretty_Z. destruct z as [|p|p]; [by split|apply pretty_N_word|].
  destruct (pretty_N_word (Npos p)) as [H1 H2]. by split.
Qed.

(** ** Names *)

(** What the projection needs of the dictionary, beyond disjoint vocabularies:
    quantities are path segments (so without an underscore) and have a unit, a
    unit has no brace, no device type is called like a location label, and
    domain names need no escaping. *)
Record proj_dict (d : Dict) : Prop := {
  pd_quantity : forall q def, d_Quantities d !! q = Some def \/ d_Derived d !! q = Some def ->
    seg_ok q = true /\ qd_Unit def <> EmptyString /\ no_byte "{" (qd_Unit def) = true;
  pd_types : forall w, In w ["loop"; "side"; "phase"] -> d_Types d !! w = None;
  pd_domains : forall k, is_Some (d_Domains d !! k) -> plain k = true
}.

Lemma alnum_no_underscore s : all_bytes is_alnum s = true -> no_byte "_" s = true.
Proof.
  unfold no_byte. apply all_bytes_impl. intros c. byte_cases c; vm_compute; congruence.
Qed.

Lemma seg_no_underscore s : seg_ok s = true -> no_byte "_" s = true.
Proof. intros [_ H]%seg_ok_spec. by apply alnum_no_underscore. Qed.

Lemma metric_unique q q' u u' :
  seg_ok q = true -> seg_ok q' = true ->
  "cios_" +:+ q +:+ "_" +:+ u = "cios_" +:+ q' +:+ "_" +:+ u' -> q = q'.
Proof.
  intros H%seg_no_underscore H'%seg_no_underscore Heq. apply str_app_inv_head in Heq.
  apply (f_equal (split "_")) in Heq. cbn in Heq.
  rewrite !split_app_sep in Heq by done. by injection Heq.
Qed.

(** The scan finds at most the right name, whatever order the map is walked
    in. *)
Lemma scan_metric_unique d m q u :
  proj_dict d -> (forall x def, m !! x = Some def ->
    d_Quantities d !! x = Some def \/ d_Derived d !! x = Some def) ->
  seg_ok q = true ->
  match scan_metric ("cios_" +:+ q +:+ "_" +:+ u) m with
  | Some q' => q' = q
  | None => forall def, m !! q = Some def -> qd_Unit def = "enum" \/ qd_Unit def <> u
  end.
Proof.
  intros Hd Hm Hq. unfold scan_metric. destruct (List.find _ _) as [[q' def]|] eqn:E; cbn.
  - apply find_some in E as [Hin E]. apply list_elem_of_In, elem_of_map_to_list in Hin.
    bool_simpl. apply str_eqb_eq in H0. destruct (pd_quantity d Hd q' def (Hm _ _ Hin)) as [Hq' _].
    by eapply metric_unique.
  - intros def Hdef. destruct (decide (qd_Unit def = "enum")) as [|He]; [by left|right].
    intros Hu. destruct (pd_quantity d Hd q def (Hm _ _ Hdef)) as (_ & Hne & _).
    apply elem_of_map_to_list, list_elem_of_In in Hdef. apply (find_none _ _ E) in Hdef.
    apply str_eqb_neq in He, Hne. rewrite He, Hne, Hu, str_eqb_refl in Hdef. done.
Qed.

Lemma no_enum_underscore d q u :
  proj_dict d -> is_enum (d_Quantities d !! (q +:+ "_" +:+ u)) = false /\
  is_enum (d_Derived d !! (q +:+ "_" +:+ u)) = false.
Proof.
  intros Hd. assert (Hno : forall def, d_Quantities d !! (q +:+ "_" +:+ u) = Some def \/
    d_Derived d !! (q +:+ "_" +:+ u) = Some def -> False).
  { intros def H. destruct (pd_quantity d Hd _ _ H) as [Hs%seg_no_underscore _].
    unfold no_byte in Hs. rewrite all_bytes_app in Hs. cbn in Hs.
    by rewrite andb_false_r in Hs. }
  split.
  - destruct (d_Quantities d !! _) as [def|]; [destruct (Hno def); auto|done].
  - destruct (d_Derived d !! _) as [def|]; [destruct (Hno def); auto|done].
Qed.

Lemma QuantityFromMetric_MetricName d q name :
  proj_dict d -> seg_ok q = true -> MetricName q d = Ok name ->
  QuantityFromMetric name d = Ok q.
Proof.
  unfold MetricName, lookupQuantity, QuantityFromMetric. intros Hd Hq.
  destruct (d_Quantities d !! q) as [def|] eqn:Eq; [|destruct (d_Derived d !! q) as [def|] eqn:Ed;
    [|done]]; destruct (str_eqb (qd_Unit def) "enum") eqn:Ee; intros <-%Ok_inj;
    rewrite has_prefix_app, trim_prefix_app; cbn [negb].
  - by rewrite Eq; cbn; rewrite Ee.
  - destruct (no_enum_underscore d q (qd_Unit def) Hd) as [-> ->].
    pose proof (scan_metric_unique d (d_Quantities d) q (qd_Unit def) Hd) as H.
    destruct (scan_metric _ _) as [q'|]; [rewrite H; auto|]. apply str_eqb_neq in Ee.
    destruct (H (fun x df Hx => or_introl Hx) Hq def Eq); done.
  - by rewrite Eq, Ed; cbn; rewrite Ee.
  - destruct (no_enum_underscore d q (qd_Unit def) Hd) as [-> ->].
    pose proof (scan_metric_unique d (d_Quantities d) q (qd_Unit def) Hd) as H1.
    pose proof (scan_metric_unique d (d_Derived d) q (qd_Unit def) Hd) as H2.
    destruct (scan_metric _ (d_Quantities d)) as [q'|]; [rewrite H1; auto|].
    destruct (scan_metric _ (d_Derived d)) as [q'|]; [rewrite H2; auto|].
    apply str_eqb_neq in Ee.
    destruct (H2 (fun x df Hx => or_intror Hx) Hq def Ed); done.
Qed.

(** ** The labels of a point *)

Lemma alnum_plain s : all_bytes is_alnum s = true -> plain s = true.
Proof. apply all_bytes_impl. intros c. byte_cases c; vm_compute; congruence. Qed.

Lemma lower_name s : all_bytes is_lower s = true -> all_bytes name_byte s = true.
Proof. apply all_bytes_impl. intros c. byte_cases c; vm_compute; congruence. Qed.

Lemma lower_plain s : all_bytes is_lower s = true -> plain s = true.
Proof. apply all_bytes_impl. intros c. byte_cases c; vm_compute; congruence. Qed.

Lemma plain_app a b : plain (a +:+ b) = plain a && plain b.
Proof. apply all_bytes_app. Qed.

Lemma plain_dot s : plain (String "." s) = plain s.
Proof. done. Qed.

Lemma dotted_plain l : Forall (fun x => seg_ok x = true) l -> plain (dotted "." l) = true.
Proof.
  induction 1 as [|x l [_ Hx]%seg_ok_spec Hl IH]; [done|]. cbn [dotted].
  rewrite plain_dot, plain_app, IH, alnum_plain by done. done.
Qed.

Lemma loop_value_spec d p : loop_ok d (p_Loop p) (p_LoopIndex p) -> p_Loop p <> EmptyString ->
  plain (loop_value p) = true /\ loop_value p <> EmptyString.
Proof.
  unfold loop_value. intros [[? _]|(Hne & Hl & _ & Hi)] Hn; [done|]. split.
  - rewrite plain_app, lower_plain by done. destruct (Z.leb_spec 0 (p_LoopIndex p)); [|done].
    destruct (itoa_digit (p_LoopIndex p)) as ([_ Hd] & _); [lia|].
    apply alnum_plain. eapply all_bytes_impl, Hd. intros c. unfold is_alnum. intros ->.
    apply orb_true_r.
  - intros [? _]%str_app_nil_inv. done.
Qed.

Lemma first_domain_in keys d t : first_domain keys d t = EmptyString \/ first_domain keys d t ∈ keys.
Proof.
  induction keys as [|k keys IH]; cbn; [by left|]. destruct (contains_string _ t).
  - right. by left.
  - destruct IH as [?|?]; [by left|right; by right].
Qed.

Lemma reverseDomain_plain d t : proj_dict d -> plain (reverseDomain t d) = true.
Proof.
  intros Hd. unfold reverseDomain.
  destruct (first_domain_in (sort_strings (map_to_list (d_Domains d)).*1) d t) as [->|Hin]; [done|].
  apply in_sort_strings, list_elem_of_fmap in Hin as ([k v] & -> & Hkv).
  apply elem_of_map_to_list in Hkv. apply (pd_domains d Hd). by exists v.
Qed.

Lemma opt_kv_ok k v : key_ok k -> plain v = true -> Forall label_ok (opt_kv k v).
Proof. intros. unfold opt_kv. case_match; [constructor|]. by apply Forall_singleton. Qed.

Ltac const_key := split; [done|vm_compute; reflexivity].

Lemma opt_in_plain m s : (forall w, map_bool m w = true -> seg_ok w = true) ->
  opt_in m s -> plain s = true.
Proof.
  intros Hm [->|H]; [done|]. apply Hm, seg_ok_spec in H as [_ H]. by apply alnum_plain.
Qed.

Lemma nodes_ok_fmt d prev ns : nodes_ok d prev ns ->
  Forall (fun n => node_fmt n /\ is_Some (d_Types d !! n_Type n)) ns.
Proof. induction 1; constructor; eauto. Qed.

Lemma node_label_ok n : node_fmt n -> label_ok (n_Type n, node_seg n).
Proof.
  intros Hn. pose proof (node_seg_ok n Hn) as [_ Hs]%seg_ok_spec. destruct Hn as (H1 & _ & H3 & _).
  split; [split; [done|by apply lower_name]|by apply alnum_plain].
Qed.

Lemma last_type_plain ns : Forall node_fmt ns -> plain (default EmptyString (last_type ns)) = true.
Proof.
  unfold last_type. intros H. destruct (last ns) as [n|] eqn:E; [|done]. cbn.
  apply last_Some_elem_of in E. rewrite Forall_forall in H. destruct (H n E) as (_ & _ & Hl & _).
  by apply lower_plain.
Qed.

Lemma buildLabels_ok d p quality :
  vocab_ok d -> proj_dict d -> point_ok d p -> plain quality = true ->
  Forall label_ok (buildLabels p quality d).
Proof.
  intros Hv Hd [Hs Hseg Hns Hl Hsd Hph Hqs Hq] Hqual. unfold buildLabels.
  pose proof (nodes_ok_fmt _ _ _ Hns) as Hf.
  assert (Hfm : Forall node_fmt (ap_Nodes (p_Asset p)))
    by (eapply Forall_impl; [exact Hf|by intros n [? _]]).
  apply seg_ok_spec in Hseg as [_ Hsite].
  repeat (apply Forall_app; split).
  - apply Forall_singleton. split; [const_key|by apply alnum_plain].
  - apply Forall_fmap. eapply Forall_impl; [exact Hfm|]. apply node_label_ok.
  - apply Forall_singleton. split; [const_key|]. cbn. unfold AssetPath_String.
    rewrite plain_app, alnum_plain by done. apply dotted_plain. by eapply nodes_ok_segs.
  - destruct (str_eqb (p_Loop p) EmptyString) eqn:El; [constructor|]. apply str_eqb_neq in El.
    apply Forall_singleton. split; [const_key|]. by eapply loop_value_spec.
  - apply opt_kv_ok; [const_key|]. eapply opt_in_plain; [|exact Hsd].
    by intros w [? _]%(vo_side d Hv).
  - apply opt_kv_ok; [const_key|]. eapply opt_in_plain; [|exact Hph].
    by intros w [? _]%(vo_phase d Hv).
  - destruct (ap_Nodes (p_Asset p)) as [|top ns] eqn:En; [constructor|].
    apply Forall_app; split.
    + apply Forall_singleton. split; [const_key|]. cbn [snd]. by apply last_type_plain.
    + apply opt_kv_ok; [const_key|]. by apply reverseDomain_plain.
  - by apply opt_kv_ok; [const_key|].
Qed.

(** ** Reading the labels back *)

Lemma store_skip l k : forall m, Forall (fun x => x.1 <> k) l -> foldl store m l !! k = m !! k.
Proof.
  induction l as [|x l IH]; intros m H; [done|]. inv H. cbn. rewrite IH by done.
  unfold store. by rewrite lookup_insert_ne.
Qed.

Lemma store_opt m k v : m !! k = None -> label (foldl store m (opt_kv k v)) k = v.
Proof.
  unfold label, opt_kv. intros Hm. destruct (str_eqb v EmptyString) eqn:E; cbn.
  - rewrite Hm. by apply str_eqb_eq in E as ->.
  - unfold store. by rewrite lookup_insert_eq.
Qed.

Definition loc_keys : list string := ["loop"; "side"; "phase"].

(** The labels before and after the location labels. *)
Definition asset_labels (p : Point) : list (string * string) :=
  [("site", ap_Site (p_Asset p))] ++
  ((fun n => (n_Type n, node_seg n)) <$> ap_Nodes (p_Asset p)) ++
  [("path", AssetPath_String (p_Asset p))].
Definition tail_labels (p : Point) (quality : string) (d : Dict) : list (string * string) :=
  match ap_Nodes (p_Asset p) with
  | [] => []
  | top :: _ =>
      [("asset_type", default EmptyString (last_type (ap_Nodes (p_Asset p))))] ++
      opt_kv "domain" (reverseDomain (n_Type top) d)
  end ++ opt_kv "quality" quality.
Definition loop_label (p : Point) : list (string * string) :=
  if str_eqb (p_Loop p) EmptyString then [] else [("loop", loop_value p)].

Lemma buildLabels_parts p quality d :
  buildLabels p quality d = asset_labels p ++ loop_label p ++ opt_kv "side" (p_Side p) ++
    opt_kv "phase" (p_Phase p) ++ tail_labels p quality d.
Proof. unfold buildLabels, asset_labels, loop_label, tail_labels. by rewrite <- !app_assoc. Qed.

Lemma opt_kv_keys k v (P : string -> Prop) : P k -> Forall (fun x => P x.1) (opt_kv k v).
Proof. intros. unfold opt_kv. case_match; [constructor|by apply Forall_singleton]. Qed.

Lemma tail_keys p quality d k : k = "path" \/ In k loc_keys ->
  Forall (fun x => x.1 <> k) (tail_labels p quality d).
Proof.
  intros Hk. assert (Hne : k <> "asset_type" /\ k <> "domain" /\ k <> "quality").
  { destruct Hk as [->|Hk]; [done|]. cbn in Hk.
    destruct Hk as [<-|[<-|[<-|[]]]]; done. }
  destruct Hne as (H1 & H2 & H3). unfold tail_labels. apply Forall_app; split.
  - destruct (ap_Nodes _) as [|top ns]; [constructor|]. constructor; [by apply not_eq_sym|].
    apply (opt_kv_keys _ _ (fun x => x <> k)). by apply not_eq_sym.
  - apply (opt_kv_keys _ _ (fun x => x <> k)). by apply not_eq_sym.
Qed.

Lemma asset_keys d p k : proj_dict d -> nodes_ok d "site" (ap_Nodes (p_Asset p)) ->
  In k loc_keys -> Forall (fun x => x.1 <> k) (asset_labels p).
Proof.
  intros Hd Hns Hk. pose proof (pd_types d Hd k Hk) as Hno. cbn in Hk. unfold asset_labels.
  repeat (apply Forall_app; split).
  - apply Forall_singleton. cbn. destruct Hk as [<-|[<-|[<-|[]]]]; done.
  - apply Forall_fmap. eapply Forall_impl; [by eapply nodes_ok_fmt|].
    intros n [_ [def Hdef]] Heq. cbn in Heq. rewrite Heq in Hdef. congruence.
  - apply Forall_singleton. cbn. destruct Hk as [<-|[<-|[<-|[]]]]; done.
Qed.

Lemma loop_keys p k : k <> "loop" -> Forall (fun x => x.1 <> k) (loop_label p).
Proof. intros. unfold loop_label. case_match; [constructor|]. apply Forall_singleton. cbn. congruence. Qed.

(** What the consumers read. *)
Lemma stored_labels d p quality (m := foldl store ∅ (buildLabels p quality d)) :
  proj_dict d -> point_ok d p ->
  m !! "path" = Some (AssetPath_String (p_Asset p)) /\
  label m "loop" = (if str_eqb (p_Loop p) EmptyString then EmptyString else loop_value p) /\
  label m "side" = p_Side p /\ label m "phase" = p_Phase p.
Proof.
  intros Hd Hp. pose proof (pk_nodes d p Hp) as Hns. unfold m, label.
  rewrite buildLabels_parts, !foldl_app.
  assert (Ha : forall k, In k loc_keys -> foldl store ∅ (asset_labels p) !! k = None)
    by (intros k Hk; rewrite store_skip by (by apply (asset_keys d)); apply lookup_empty).
  assert (Ht : forall mm k, k = "path" \/ In k loc_keys ->
    foldl store mm (tail_labels p quality d) !! k = mm !! k)
    by (intros mm k Hk; apply store_skip; by apply tail_keys).
  assert (Ho : forall mm k k' v, k <> k' -> foldl store mm (opt_kv k v) !! k' = mm !! k')
    by (intros; apply store_skip, (opt_kv_keys _ _ (fun x => x <> k')); done).
  rewrite !Ht by (cbn; tauto). split_and!.
  - rewrite !Ho by done. rewrite store_skip by (by apply loop_keys).
    unfold asset_labels. rewrite !foldl_app. cbn [foldl]. unfold store at 1.
    by rewrite lookup_insert_eq.
  - rewrite !Ho by done. unfold loop_label. destruct (str_eqb (p_Loop p) EmptyString); cbn.
    + by rewrite Ha by (cbn; tauto).
    + unfold store. by rewrite lookup_insert_eq.
  - rewrite Ho by done. apply store_opt. rewrite store_skip by (by apply loop_keys).
    apply Ha. cbn. tauto.
  - apply store_opt. rewrite Ho by done. rewrite store_skip by (by apply loop_keys).
    apply Ha. cbn. tauto.
Qed.

Lemma opt_part_loop d p : loop_ok d (p_Loop p) (p_LoopIndex p) ->
  opt_part (if str_eqb (p_Loop p) EmptyString then EmptyString else loop_value p) ++
  opt_part (p_Side p) ++ opt_part (p_Phase p) =
  loc_segs (p_Loop p) (p_LoopIndex p) (p_Side p) (p_Phase p).
Proof.
  intros Hl. unfold loc_segs. f_equal. destruct (str_eqb (p_Loop p) EmptyString) eqn:E; [done|].
  apply str_eqb_neq in E. destruct (loop_value_spec d p Hl E) as [_ Hne].
  unfold opt_part. apply str_eqb_neq in Hne. by rewrite Hne.
Qed.

Lemma join_app sep l1 l2 : l1 <> [] -> l2 <> [] ->
  join sep (l1 ++ l2) = join sep l1 +:+ String sep (join sep l2).
Proof.
  intros H1 H2. induction l1 as [|x l1 IH]; [done|]. destruct l1 as [|y l1].
  - cbn [app]. by rewrite join_cons.
  - change ((x :: y :: l1) ++ l2) with (x :: ((y :: l1) ++ l2)).
    rewrite !join_cons by done. rewrite IH by done. by rewrite <- str_app_assoc.
Qed.

Lemma Point_String_split p :
  Point_String p = AssetPath_String (p_Asset p) +:+ String "."
    (join "." (loc_segs (p_Loop p) (p_LoopIndex p) (p_Side p) (p_Phase p) ++ [p_Quantity p])).
Proof.
  rewrite Point_String_join. unfold AssetPath_String. rewrite <- join_dotted.
  rewrite <- join_app; [done|done|]. by intros [_ ?]%app_eq_nil.
Qed.

(** A line of this shape is read back label by label. *)
Lemma ParseLine_text parseFloat d name ls fv ms v :
  no_byte "{" name = true -> Forall label_ok ls -> ls <> [] -> word fv -> word ms ->
  parseFloat fv = Some v ->
  ParseLine parseFloat (name +:+ "{" +:+ labels_text ls +:+ "} " +:+ fv +:+ " " +:+ ms) d =
  Ok (<["__name__" := name]> (foldl store ∅ ls), v).
Proof.
  intros Hn Hls Hne Hf Hm Hp. unfold ParseLine. rewrite span_bytes_split by done.
  cbn [String.append]. rewrite findMatchingBrace_labels by done.
  change (String " " (fv +:+ String " " ms)) with (" " +:+ fv +:+ " " +:+ ms).
  rewrite TrimSpace_words by done.
  destruct (str_eqb _ EmptyString) eqn:E; [apply str_eqb_eq in E; by destruct fv, Hf|].
  change (fv +:+ " " +:+ ms) with (fv +:+ String " " ms).
  by rewrite cut_before_word, Hp, parseLabels_text.
Qed.

Lemma no_byte_app c a b : no_byte c (a +:+ b) = no_byte c a && no_byte c b.
Proof. apply all_bytes_app. Qed.

Lemma alnum_no_brace s : all_bytes is_alnum s = true -> no_byte "{" s = true.
Proof. apply all_bytes_impl. intros c. byte_cases c; vm_compute; congruence. Qed.

Lemma MetricName_text d q name : proj_dict d -> MetricName q d = Ok name ->
  no_byte "{" name = true /\ name <> EmptyString.
Proof.
  unfold MetricName, lookupQuantity. intros Hd H.
  destruct (match d_Quantities d !! q with Some def => Some def | None => d_Derived d !! q end)
    as [def|] eqn:E; [|done].
  destruct (pd_quantity d Hd q def) as ([_ Hs]%seg_ok_spec & _ & Hu).
  { destruct (d_Quantities d !! q); [left; congruence|by right]. }
  apply alnum_no_brace in Hs.
  destruct (str_eqb (qd_Unit def) "enum"); apply Ok_inj in H as <-; (split; [|done]);
    by rewrite !no_byte_app, Hs, ?Hu.
Qed.

Lemma stored_quality d p quality : quality <> EmptyString ->
  label (foldl store ∅ (buildLabels p quality d)) "quality" = quality.
Proof.
  intros Hq. apply str_eqb_neq in Hq. assert (Hkv : opt_kv "quality" quality = [("quality", quality)]) by (unfold opt_kv; by rewrite Hq).
  unfold buildLabels. rewrite Hkv, !foldl_app. cbn [foldl]. unfold store at 1, label. by rewrite lookup_insert_eq.
Qed.

Lemma rendered_line_parses formatFloat parseFloat d p v ts quality line :
  vocab_ok d -> proj_dict d -> point_ok d p -> plain quality = true ->
  word (formatFloat v) -> parseFloat (formatFloat v) = Some v ->
  Render formatFloat p v ts quality d = Ok line ->
  exists labels rel, ParseLine parseFloat line d = Ok (labels, v) /\
    RelPoint labels d = Ok rel /\
    label labels "path" = AssetPath_String (p_Asset p) /\
    label labels "path" +:+ "." +:+ rel = Point_String p /\
    (quality <> EmptyString -> label labels "quality" = quality).
Proof.
  intros Hv Hd Hp Hq Hw Hf Hr. pose proof (buildLabels_ok d p quality Hv Hd Hp Hq) as Hls.
  unfold Render in Hr. destruct (str_eqb (p_Quantity p) EmptyString) eqn:Eq; [done|].
  apply bind_Ok in Hr as (name & Hn & <-%Ok_inj).
  pose proof (QuantityFromMetric_MetricName d _ _ Hd (pk_quantity_seg d p Hp) Hn) as Hqm.
  destruct (stored_labels d p quality Hd Hp) as (Hpath & Hloop & Hside & Hphase).
  set (labels := <["__name__" := name]> (foldl store ∅ (buildLabels p quality d))).
  destruct (MetricName_text d _ _ Hd Hn) as [Hbr Hne].
  assert (Hlab : forall k, k <> "__name__" ->
    label labels k = label (foldl store ∅ (buildLabels p quality d)) k)
    by (intros k Hk; unfold label, labels; by rewrite lookup_insert_ne).
  exists labels, (join "." (loc_segs (p_Loop p) (p_LoopIndex p) (p_Side p) (p_Phase p) ++
    [p_Quantity p])).
  split_and!.
  - apply ParseLine_text; try done. apply itoa_word.
  - unfold RelPoint.
    rewrite (Hlab "loop"), (Hlab "side"), (Hlab "phase"), Hloop, Hside, Hphase by done.
    replace (label labels "__name__") with name
      by (unfold label, labels; by rewrite lookup_insert_eq).
    apply str_eqb_neq in Hne. rewrite Hne, Hqm. cbn [mbind result_bind]. rewrite !app_assoc.
    rewrite <- (app_assoc (opt_part _)), (opt_part_loop d) by apply Hp. done.
  - rewrite Hlab by done. unfold label. by rewrite Hpath.
  - rewrite Hlab by done. unfold label. rewrite Hpath. symmetry. apply Point_String_split.
  - intros Hne2. rewrite Hlab by done. by apply stored_quality.
Qed.

(** Projection round trip: over a sound dictionary, the line rendered for
    a valid point parses back to the sample's value and to labels from which the
    path label and the relative point give the point's address again, so the
    consumers recover exactly the point the producer wrote; the quality label
    gives the quality back. *)
Lemma Render_ParseLine formatFloat parseFloat d p v ts quality line :
  vocab_ok d -> proj_dict d -> point_ok d p -> plain quality = true ->
  word (formatFloat v) -> parseFloat (formatFloat v) = Some v ->
  Render formatFloat p v ts quality d = Ok line ->
  exists labels rel, ParseLine parseFloat line d = Ok (labels, v) /\
    RelPoint labels d = Ok rel /\
    label labels "path" = AssetPath_String (p_Asset p) /\
    label labels "path" +:+ "." +:+ rel = Point_String p /\
    (quality <> EmptyString -> label labels "quality" = quality).
Proof. apply rendered_line_parses. Qed.

(** ** A concrete dictionary *)

Lemma demo_proj_dict : proj_dict demo_dict.
Proof.
  split.
  - intros q def [H|H]; cbn in H;
      repeat (apply lookup_insert_Some in H as [[<- <-]|[_ H]]; [by vm_compute|]);
      by rewrite lookup_empty in H.
  - intros w [<-|[<-|[<-|[]]]]; vm_compute; done.
  - intros k [v H]. cbn in H. by rewrite lookup_empty in H.
Qed.

(** Enough of the two conversions for the value 1. *)
Definition demo_format (v : float64) : string := "1".
Definition demo_read (s : string) : option float64 :=
  match ParseFloat s with Ok v => Some v | Err _ => None end.

Lemma Render_ParseLine_witness :
  exists line labels rel, Render demo_format demo_point f1 unix_epoch "good" demo_dict = Ok line /\
    ParseLine demo_read line demo_dict = Ok (labels, f1) /\
    label labels "path" +:+ "." +:+ rel = "sgp01.pod002.cdu000.fws1.supply.temp".
Proof.
  destruct (Render demo_format demo_point f1 unix_epoch "good" demo_dict) as [line|e] eqn:E;
    [|vm_compute in E; discriminate E].
  destruct (Render_ParseLine demo_format demo_read demo_dict demo_point f1 unix_epoch "good" line)
    as (labels & rel & H1 & _ & _ & H4);
    [exact demo_vocab_ok|exact demo_proj_dict|exact demo_point_ok|reflexivity
    |by split|vm_compute; reflexivity|exact E|].
  exists line, labels, rel. split; [done|]. split; [exact H1|]. rewrite (proj1 H4). vm_compute. reflexivity.
Defined.
