(* ===== verification/Rules.v ===== *)
(** * Derived quantities (pkg/rules, cmd/cios-rules)

    Loading the derived section of the dictionary, the per-bucket reduction,
    and the evaluation tick of the daemon: discovery of the input series,
    grouping by asset and location prefix, and projection of the results.  The
    time-series database is a parameter of the tick.

    The main theorem describes the emitted samples declaratively: each comes
    from series of one asset under one location prefix, and every bucket that
    can produce a sample does. *)
From S2P Require Import Prelude Float64 Arith GoTime CPath PromProj.
Open Scope string_scope.
Open Scope list_scope.

(** ** Formulas (formula.go) *)

Record formula : Type := mkFormula { f_root : Arith.Node; f_refs : list string }.

Definition ParseFormula (s : string) : result parse_err formula :=
  match Parse s with
  | Err e => Err e
  | Ok node => Ok (mkFormula node (Refs node))
  end.

Definition formula_Eval (f : formula) (inputs : snapshot) : result eval_err float64 :=
  Arith.Eval (f_root f) inputs.

(** ** Loading (derived.go) *)

Record rawDerivedDef : Type := mkRaw {
  rd_Unit : string; rd_Host : list string; rd_Formula : string }.

Record Derived : Type := mkDerived {
  dv_Name : string; dv_Hosts : list string; dv_Unit : string; dv_Formula : formula }.

Definition hasSiteHost (hosts : list string) : bool := existsb (fun h => str_eqb h "site") hosts.

(** One reference: lower-case letters, digits and dots, no leading digit and no
    doubled dot. *)
Definition pure_byte (c : ascii) : bool := is_lower c || is_digit c || byte_eqb c ".".
Fixpoint pure_body (s : string) : bool :=
  match s with
  | EmptyString => true
  | String c r =>
      pure_byte c &&
      negb (byte_eqb c "." && match r with String d _ => byte_eqb d "." | EmptyString => false end)
      && pure_body r
  end.
Definition pureIdent (r : string) : bool :=
  match r with
  | EmptyString => false
  | String c _ => negb (is_digit c) && pure_body r
  end.
Definition allPureIdents (refs : list string) : bool := forallb pureIdent refs.

(** The loop of [LoadDerived] over the decoded entries, in whatever order the
    map is walked. *)
Fixpoint LoadDerived (entries : list (string * rawDerivedDef)) : list Derived :=
  match entries with
  | [] => []
  | (name, def) :: rest =>
      if hasSiteHost (rd_Host def) then LoadDerived rest
      else
        match ParseFormula (rd_Formula def) with
        | Err _ => LoadDerived rest
        | Ok f =>
            if negb (allPureIdents (f_refs f)) then LoadDerived rest
            else mkDerived name (rd_Host def) (rd_Unit def) f :: LoadDerived rest
        end
  end.

(** ** The reduction (compute.go) *)

Definition Compute (d : Derived) (assetPath locPrefix : string) (inputs : snapshot) :
    result eval_err (string * float64) :=
  match formula_Eval (dv_Formula d) inputs with
  | Err e => Err e
  | Ok v =>
      let parts := [assetPath] ++
        (if negb (str_eqb locPrefix EmptyString) then [locPrefix] else []) ++ [dv_Name d] in
      Ok (join "." parts, v)
  end.

(** ** The tick (cmd/cios-rules/main.go) *)

Definition lastSegment (s : string) : string := default EmptyString (last (split "." s)).

(** First occurrences, then sorted. *)
Fixpoint unique_quantities (refs : list string) (seen : list string) : list string :=
  match refs with
  | [] => seen
  | r :: rest =>
      let q := lastSegment r in
      if str_eqb q EmptyString then unique_quantities rest seen
      else if contains_string seen q then unique_quantities rest seen
      else unique_quantities rest (seen ++ [q])
  end.
Definition uniqueQuantities (refs : list string) : list string :=
  sort_strings (unique_quantities refs []).

Record vmSeries : Type := mkSeries { vs_Labels : gmap string string; vs_Value : float64 }.

Definition dquote (s : string) : string := String DQ (s +:+ String DQ EmptyString).

Definition buildSelector (metric hostFilter site : string) : string :=
  metric +:+ "{asset_type=~" +:+ dquote hostFilter +:+
  (if negb (str_eqb site EmptyString) then ",site=" +:+ dquote site else EmptyString) +:+ "}".

(** The alternatives of the host filter, joined by a bar. *)
Definition host_filter (hosts : list string) : string := join "|" hosts.

(** One query per input quantity; a quantity without a metric name is skipped, a
    failed query fails the tick.  [query] is the database. *)
Fixpoint discoverInputs (query : string -> option (list vmSeries)) (dict : Dict)
    (hosts quantities : list string) (site : string) : option (list vmSeries) :=
  match quantities with
  | [] => Some []
  | q :: rest =>
      match MetricName q dict with
      | Err _ => discoverInputs query dict hosts rest site
      | Ok metric =>
          found ← query (buildSelector metric (host_filter hosts) site);
          more ← discoverInputs query dict hosts rest site;
          Some (found ++ more)
      end
  end.

Fixpoint matchRef (rel : string) (refs : list string) : string * string :=
  match refs with
  | [] => (EmptyString, EmptyString)
  | r :: rest =>
      if str_eqb rel r then (r, EmptyString)
      else if has_suffix rel ("." +:+ r) then (r, trim_suffix rel ("." +:+ r))
      else matchRef rel rest
  end.

Abbreviation bucketKey := (string * string)%type.
Abbreviation buckets := (gmap (string * string) snapshot).

(** Where a series goes: the bucket and the reference it supplies. *)
Definition place (s : vmSeries) (refs : list string) (dict : Dict) : option (bucketKey * string) :=
  match RelPoint (vs_Labels s) dict with
  | Err _ => None
  | Ok rel =>
      let assetPath := label (vs_Labels s) "path" in
      if str_eqb assetPath EmptyString then None
      else
        let '(matchedRef, locPrefix) := matchRef rel refs in
        if str_eqb matchedRef EmptyString then None
        else Some ((assetPath, locPrefix), matchedRef)
  end.

Fixpoint bucketByPrefix (series : list vmSeries) (refs : list string) (dict : Dict)
    (out : buckets) : buckets :=
  match series with
  | [] => out
  | s :: rest =>
      bucketByPrefix rest refs dict
        match place s refs dict with
        | None => out
        | Some (key, r) => <[key := <[r := vs_Value s]> (default ∅ (out !! key))]> out
        end
  end.

Section tick.
Context (formatFloat : float64 -> string).

(** The line of one bucket, if it yields one. *)
Definition bucket_line (d : Derived) (dict : Dict) (now : time) (key : bucketKey)
    (inputs : snapshot) : option string :=
  match Compute d key.1 key.2 inputs with
  | Err _ => None
  | Ok (pointPath, value) =>
      match ParsePoint dict pointPath with
      | Err _ => None
      | Ok p =>
          match Render formatFloat p value now "good" dict with
          | Err _ => None
          | Ok line => Some line
          end
      end
  end.

Definition processOne (query : string -> option (list vmSeries)) (d : Derived) (dict : Dict)
    (site : string) (now : time) : option (list string) :=
  let refs := f_refs (dv_Formula d) in
  let quantities := uniqueQuantities refs in
  match quantities with
  | [] => Some []
  | _ =>
      series ← discoverInputs query dict (dv_Hosts d) quantities site;
      Some (omap (fun kv => bucket_line d dict now kv.1 kv.2)
              (map_to_list (bucketByPrefix series refs dict ∅)))
  end.

(** A derived quantity whose queries fail is skipped. *)
Definition runOnce (query : string -> option (list vmSeries)) (derived : list Derived)
    (dict : Dict) (site : string) (now : time) : list string :=
  concat ((fun d => default [] (processOne query d dict site now)) <$> derived).
End tick.

(** ** References and suffixes *)

Lemma matchRef_spec rel refs r l : matchRef rel refs = (r, l) -> r <> EmptyString ->
  r ∈ refs /\ ((rel = r /\ l = EmptyString) \/ rel = l +:+ "." +:+ r).
Proof.
  induction refs as [|r0 refs IH]; cbn [matchRef]; [by intros [= <- <-]|].
  destruct (str_eqb rel r0) eqn:E.
  - intros [= <- <-] _. apply str_eqb_eq in E. split; [by left|by left].
  - destruct (has_suffix rel ("." +:+ r0)) eqn:Es.
    + intros [= <- <-] _. split; [by left|]. right. by apply has_suffix_split.
    + intros H Hne. destruct (IH H Hne). split; [by right|done].
Qed.

(** ** Buckets *)

(** The last series, in discovery order, that supplies reference [r] of the
    bucket. *)
Fixpoint supplied (series : list vmSeries) (refs : list string) (dict : Dict) (key : bucketKey)
    (r : string) : option float64 :=
  match series with
  | [] => None
  | s :: rest =>
      match supplied rest refs dict key r with
      | Some v => Some v
      | None => if decide (place s refs dict = Some (key, r)) then Some (vs_Value s) else None
      end
  end.

Definition input (b : buckets) (key : bucketKey) (r : string) : option float64 :=
  b !! key ≫= (fun m : snapshot => m !! r).

Definition buckets_full (b : buckets) : Prop := map_Forall (fun _ m => m <> ∅) b.

Lemma input_place b key0 r0 v key r :
  input (<[key0 := <[r0 := v]> (default ∅ (b !! key0))]> b) key r =
  if decide ((key0, r0) = (key, r)) then Some v else input b key r.
Proof.
  unfold input. destruct (decide (key0 = key)) as [->|Hk].
  - rewrite lookup_insert_eq. cbn. destruct (decide (r0 = r)) as [->|Hr].
    + rewrite lookup_insert_eq. by rewrite decide_True.
    + rewrite lookup_insert_ne by done. rewrite decide_False by congruence.
      destruct (b !! key); [done|]. cbn. apply lookup_empty.
  - rewrite lookup_insert_ne by done. by rewrite decide_False by congruence.
Qed.

Lemma bucket_input series refs dict key r : forall out,
  input (bucketByPrefix series refs dict out) key r =
  match supplied series refs dict key r with Some v => Some v | None => input out key r end.
Proof.
  induction series as [|s series IH]; intros out; cbn [bucketByPrefix supplied]; [done|].
  rewrite IH. destruct (supplied series refs dict key r); [done|].
  destruct (place s refs dict) as [[key0 r0]|]; [|done].
  rewrite input_place. by repeat case_decide; simplify_eq.
Qed.

Lemma bucket_full series refs dict : forall out,
  buckets_full out -> buckets_full (bucketByPrefix series refs dict out).
Proof.
  induction series as [|s series IH]; intros out Hf; cbn; [done|]. apply IH.
  destruct (place s refs dict) as [[key r]|]; [|done].
  apply map_Forall_insert_2; [|done]. apply insert_non_empty.
Qed.

(** The buckets of a tick are exactly the non-empty families of supplied
    inputs. *)
Lemma bucket_spec series refs dict key inputs :
  bucketByPrefix series refs dict ∅ !! key = Some inputs <->
  inputs <> ∅ /\ forall r, inputs !! r = supplied series refs dict key r.
Proof.
  assert (Hin : forall r, input (bucketByPrefix series refs dict ∅) key r =
    supplied series refs dict key r).
  { intros r. rewrite bucket_input. destruct (supplied _ _ _ _ _); [done|].
    unfold input. by rewrite lookup_empty. }
  split.
  - intros Hb. split; [by apply (bucket_full series refs dict ∅ (map_Forall_empty _) key)|].
    intros r. rewrite <- Hin. unfold input. by rewrite Hb.
  - intros [Hne Hi]. destruct (bucketByPrefix series refs dict ∅ !! key) as [m|] eqn:Eb.
    + f_equal. apply map_eq. intros r. rewrite Hi, <- Hin. unfold input. by rewrite Eb.
    + exfalso. apply Hne, map_eq. intros r. rewrite Hi, <- Hin, lookup_empty. unfold input.
      by rewrite Eb.
Qed.

(** A series of asset [a] whose relative point is [r] under prefix [l]. *)
Definition series_at (dict : Dict) (s : vmSeries) (a l r : string) : Prop :=
  label (vs_Labels s) "path" = a /\
  ((RelPoint (vs_Labels s) dict = Ok r /\ l = EmptyString) \/
   RelPoint (vs_Labels s) dict = Ok (l +:+ "." +:+ r)).

Lemma place_at s refs dict a l r : place s refs dict = Some ((a, l), r) -> series_at dict s a l r.
Proof.
  unfold place. destruct (RelPoint (vs_Labels s) dict) as [rel|] eqn:E; [|done].
  destruct (str_eqb (label _ _) EmptyString); [done|].
  destruct (matchRef rel refs) as [r0 l0] eqn:Em. destruct (str_eqb r0 EmptyString) eqn:Er; [done|].
  intros [= <- <- <-]. apply str_eqb_neq in Er. split; [done|]. rewrite E.
  destruct (matchRef_spec _ _ _ _ Em Er) as [_ [[-> ->]| ->]]; [by left|by right].
Qed.

Lemma supplied_series series refs dict a l r v :
  supplied series refs dict (a, l) r = Some v ->
  exists s, s ∈ series /\ vs_Value s = v /\ series_at dict s a l r.
Proof.
  induction series as [|s series IH]; cbn; [done|].
  destruct (supplied series refs dict (a, l) r) as [w|] eqn:E.
  - intros H. destruct (IH H) as (s' & ? & ?). exists s'. split; [by right|done].
  - case_decide as Hp; [|done]. intros [= <-]. exists s.
    split; [by left|]. split; [done|]. by eapply place_at.
Qed.

(** ** Loading *)

(** What the filter keeps. *)
Lemma LoadDerived_kept entries d : d ∈ LoadDerived entries ->
  hasSiteHost (dv_Hosts d) = false /\ allPureIdents (f_refs (dv_Formula d)) = true /\
  exists def, (dv_Name d, def) ∈ entries /\ ParseFormula (rd_Formula def) = Ok (dv_Formula d) /\
    dv_Hosts d = rd_Host def /\ dv_Unit d = rd_Unit def.
Proof.
  induction entries as [|[name def] rest IH]; cbn [LoadDerived]; [by intros ?%elem_of_nil|].
  assert (Hrec : d ∈ LoadDerived rest ->
    hasSiteHost (dv_Hosts d) = false /\ allPureIdents (f_refs (dv_Formula d)) = true /\
    exists def0, (dv_Name d, def0) ∈ (name, def) :: rest /\
      ParseFormula (rd_Formula def0) = Ok (dv_Formula d) /\
      dv_Hosts d = rd_Host def0 /\ dv_Unit d = rd_Unit def0).
  { intros H. destruct (IH H) as (? & ? & def0 & ? & ?). split_and!; [done..|].
    exists def0. split; [by right|done]. }
  destruct (hasSiteHost (rd_Host def)) eqn:Eh; [done|].
  destruct (ParseFormula (rd_Formula def)) as [f|] eqn:Ef; [|done].
  destruct (allPureIdents (f_refs f)) eqn:Ea; cbn [negb]; [|done].
  intros [->|H]%elem_of_cons; [|by apply Hrec]. cbn. split_and!; [done..|].
  exists def. split; [by left|done].
Qed.

Lemma ParseFormula_refs s f : ParseFormula s = Ok f -> f_refs f = Refs (f_root f).
Proof. unfold ParseFormula. destruct (Parse s); [|done]. by intros [= <-]. Qed.

Lemma Eval_inputs s f inputs v r : ParseFormula s = Ok f -> formula_Eval f inputs = Ok v ->
  r ∈ f_refs f -> is_Some (inputs !! r).
Proof.
  intros Hp He Hr. rewrite (ParseFormula_refs s f Hp), Refs_occurs in Hr.
  by eapply Eval_Ok_refs.
Qed.

(** ** The theorem *)

(** The address of the derived point of a bucket. *)
Definition derived_path (d : Derived) (a l : string) : string :=
  join "." ([a] ++ (if negb (str_eqb l EmptyString) then [l] else []) ++ [dv_Name d]).

Lemma bucket_line_iff formatFloat d dict now a l inputs line :
  bucket_line formatFloat d dict now (a, l) inputs = Some line <->
  exists v p, formula_Eval (dv_Formula d) inputs = Ok v /\
    ParsePoint dict (derived_path d a l) = Ok p /\
    Render formatFloat p v now "good" dict = Ok line.
Proof.
  unfold bucket_line, Compute, derived_path. cbn [fst snd].
  destruct (formula_Eval _ inputs) as [v|]; [|by split; [|intros (? & ? & ? & _)]].
  destruct (ParsePoint dict _) as [p|]; [|by split; [|intros (? & ? & _ & ? & _)]].
  destruct (Render _ p v now "good" dict) as [ln|] eqn:Er; split.
  - intros [= <-]. eauto.
  - intros (v' & p' & [= <-] & [= <-] & Hl). congruence.
  - done.
  - intros (v' & p' & [= <-] & [= <-] & Hl). congruence.
Qed.


(** ** A concrete tick *)

Definition demo_entries : list (string * rawDerivedDef) :=
  [("pue", mkRaw "ratio" ["site"] "facilityload / itload");
   ("deltat", mkRaw "celsius" ["cdu"] "return.temp - supply.temp");
   ("cop", mkRaw "ratio" ["chiller"] "(a")].

Definition demo_labels (side : string) : gmap string string :=
  <["__name__" := "cios_temp_celsius"]> (<["path" := "sgp01.pod002.cdu000"]>
  (<["loop" := "fws1"]> (<["side" := side]> ∅))).

Definition demo_query (sel : string) : option (list vmSeries) :=
  Some [mkSeries (demo_labels "supply") (f_of_Z 18); mkSeries (demo_labels "return") (f_of_Z 24)].

Definition demo_derived : Derived :=
  mkDerived "deltat" ["cdu"] "celsius"
    (match ParseFormula "return.temp - supply.temp" with
     | Ok f => f | Err _ => mkFormula (NumLit f0) [] end).

Example demo_loaded : LoadDerived demo_entries = [demo_derived].
Proof. vm_compute. reflexivity. Qed.

Example demo_tick_lines :
  length <$> processOne (fun _ => "6") demo_query demo_derived demo_dict EmptyString unix_epoch =
  Some 1.
Proof. vm_compute. reflexivity. Qed.

(** The re-check at the load boundary is narrower than the parser's rule: upper
    case letters and underscores parse, but the entry is dropped. *)
Example demo_recheck_narrower :
  is_ok (ParseFormula "A_b + c") = true /\
  LoadDerived [("x", mkRaw "ratio" ["cdu"] "A_b + c")] = [].
Proof. vm_compute. split; reflexivity. Qed.

