(* ===== verification/AuthMW.v ===== *)
(** * The authorization middleware (core/authmw.go, core/mtls_tenant_gate.go)

    The mapping from a request to an action and a path, the list-scope table,
    the gate itself with its audit lines, and the tenant-header gate in front.
    What the inner handler receives is shown to be exactly what the token, the
    role, the scopes and the peer allow. *)
From S2P Require Import Prelude CPath RBAC Http.
Open Scope string_scope.
Open Scope list_scope.

(** What the middleware reads of a request: the method, the URL path, the two
    headers (empty when absent) and the component named by the verified client
    certificate (empty without one). *)
Record Request : Type := mkRequest {
  r_Method : string; r_Path : string; r_Authorization : string; r_Tenant : string;
  r_Peer : string }.

Definition is_get (m : string) : bool := str_eqb m "GET".
Definition is_post (m : string) : bool := str_eqb m "POST".
Definition is_put (m : string) : bool := str_eqb m "PUT".
Definition is_delete (m : string) : bool := str_eqb m "DELETE".

(** ** The mapping of requests *)

Definition mapMethodReadOnly (m : string) : Action := ActionRead.

(** The create endpoints: POST writes, every other method reads. *)
Definition post_writes (m : string) : option (Action * string) :=
  Some (if is_post m then ActionControlWrite else ActionRead, "**").

Definition map_assets (m p : string) : option (Action * string) :=
  if is_post m && has_suffix p ":lifecycle" then Some (ActionApply, trim_suffix p ":lifecycle")
  else if is_get m then Some (ActionRead, p)
  else if is_put m || is_delete m then Some (ActionApply, p)
  else Some (ActionRead, p).

Definition map_tickets (m p : string) : option (Action * string) :=
  if has_suffix p ":transition" || has_suffix p ":note" || has_suffix p ":assign" then
    Some (ActionControlWrite,
      if has_suffix p ":transition" then trim_suffix p ":transition"
      else if has_suffix p ":note" then trim_suffix p ":note"
      else if has_suffix p ":assign" then trim_suffix p ":assign"
      else p)
  else if is_get m && has_suffix p ":history" then Some (ActionRead, trim_suffix p ":history")
  else Some (ActionRead, p).

(** [mapRequest]; [None] is a URL outside the API. *)
Definition mapRequest (m u : string) : option (Action * string) :=
  if str_eqb u "/v1/assets" then Some (mapMethodReadOnly m, "**")
  else if has_prefix u "/v1/assets/" then map_assets m (trim_prefix u "/v1/assets/")
  else if str_eqb u "/v1/alarms" then Some (mapMethodReadOnly m, "**")
  else if has_prefix u "/v1/alarms/" then
    let p := trim_prefix u "/v1/alarms/" in
    if has_suffix p ":ack" then Some (ActionControlWrite, trim_suffix p ":ack")
    else Some (ActionRead, p)
  else if str_eqb u "/v1/reports/ops" then Some (mapMethodReadOnly m, "**")
  else if str_eqb u "/v1/reports/reconcile" then Some (mapMethodReadOnly m, "**")
  else if str_eqb u "/v1/maintenance/upcoming" then Some (mapMethodReadOnly m, "**")
  else if str_eqb u "/v1/maintenance/windows" then post_writes m
  else if has_prefix u "/v1/maintenance/windows/" then
    Some (ActionControlWrite, trim_prefix u "/v1/maintenance/windows/")
  else if str_eqb u "/v1/sla" then Some (mapMethodReadOnly m, "**")
  else if str_eqb u "/v1/usage" then Some (mapMethodReadOnly m, "**")
  else if str_eqb u "/v1/usage:export" then Some (mapMethodReadOnly m, "**")
  else if str_eqb u "/v1/usage:compute" then Some (ActionApply, "**")
  else if str_eqb u "/v1/control/audit" then Some (mapMethodReadOnly m, "**")
  else if has_prefix u "/v1/control/" then
    let p := trim_prefix u "/v1/control/" in
    if has_suffix p ":approve" then Some (ActionControlWrite, trim_suffix p ":approve")
    else Some (ActionRead, p)
  else if str_eqb u "/v1/tickets" then post_writes m
  else if str_eqb u "/v1/pm/schedules" then post_writes m
  else if has_prefix u "/v1/pm/schedules/" then
    Some (ActionRead, trim_prefix u "/v1/pm/schedules/")
  else if str_eqb u "/v1/inspections" then post_writes m
  else if has_prefix u "/v1/inspections/" then
    if has_prefix u "/v1/inspections/form/" then
      Some (if is_post m then ActionControlWrite else ActionRead,
            trim_prefix u "/v1/inspections/form/")
    else Some (ActionRead, trim_prefix u "/v1/inspections/")
  else if str_eqb u "/v1/cases" then Some (ActionRead, "**")
  else if str_eqb u "/v1/spares" then post_writes m
  else if has_prefix u "/v1/spares/" then
    Some (if has_suffix (trim_prefix u "/v1/spares/") ":adjust"
          then ActionControlWrite else ActionRead, "**")
  else if str_eqb u "/v1/orgs" then post_writes m
  else if has_prefix u "/v1/orgs/" then Some (ActionControlWrite, "**")
  else if str_eqb u "/v1/tenants" then post_writes m
  else if has_prefix u "/v1/tenants/" then Some (ActionApply, "**")
  else if str_eqb u "/v1/site-orgs" then post_writes m
  else if str_eqb u "/v1/role-bindings" then
    Some (if is_post m || is_delete m then ActionControlWrite else ActionRead, "**")
  else if str_eqb u "/v1/model-packs" || has_prefix u "/v1/model-packs/" then
    Some (if is_get m then ActionRead else ActionControlWrite, "**")
  else if str_eqb u "/v1/site-layouts" || has_prefix u "/v1/site-layouts/" then
    Some (if is_get m then ActionRead else ActionControlWrite, "**")
  else if has_prefix u "/v1/runbooks/" then Some (ActionRead, "**")
  else if has_prefix u "/v1/tickets/" then map_tickets m (trim_prefix u "/v1/tickets/")
  else if str_eqb u "/v1/metrics/query" || str_eqb u "/v1/metrics/query_range" then
    Some (mapMethodReadOnly m, "**")
  else if has_prefix u "/v1/points/" then
    let p := trim_prefix u "/v1/points/" in
    if has_suffix p ":set" then Some (ActionControlWrite, trim_suffix p ":set")
    else Some (ActionRead, p)
  else if str_eqb u "/v1/health/scanners" then Some (ActionRead, "**")
  else None.

(** [isListScopeEndpoint]: the middleware checks the role floor only, the
    handler checks the scope of what it finds. *)
Definition isListScopeEndpoint (m u : string) : bool :=
  if str_eqb u "/v1/assets" || str_eqb u "/v1/alarms" then is_get m
  else if has_prefix u "/v1/alarms/" then is_post m && has_suffix u ":ack"
  else if str_eqb u "/v1/reports/ops" then is_get m
  else if str_eqb u "/v1/reports/reconcile" then is_get m
  else if str_eqb u "/v1/maintenance/upcoming" then is_get m
  else if str_eqb u "/v1/maintenance/windows" then is_get m || is_post m
  else if has_prefix u "/v1/maintenance/windows/" then is_delete m
  else if str_eqb u "/v1/sla" then is_get m
  else if str_eqb u "/v1/usage" then is_get m
  else if str_eqb u "/v1/usage:export" then is_get m
  else if str_eqb u "/v1/usage:compute" then is_post m
  else if str_eqb u "/v1/control/audit" then is_get m
  else if has_prefix u "/v1/control/" && has_suffix u ":approve" then is_post m
  else if str_eqb u "/v1/tickets" then is_get m || is_post m
  else if has_prefix u "/v1/tickets/" then
    is_get m || (is_post m &&
      (has_suffix u ":transition" || has_suffix u ":note" || has_suffix u ":assign"))
  else if str_eqb u "/v1/pm/schedules" then is_get m || is_post m
  else if has_prefix u "/v1/pm/schedules/" then is_get m
  else if str_eqb u "/v1/inspections" then is_get m || is_post m
  else if has_prefix u "/v1/inspections/" then
    if has_prefix u "/v1/inspections/form/" then is_get m || is_post m else is_get m
  else if str_eqb u "/v1/cases" then is_get m
  else if str_eqb u "/v1/spares" then is_get m || is_post m
  else if has_prefix u "/v1/spares/" then is_get m || (is_post m && has_suffix u ":adjust")
  else if str_eqb u "/v1/tenants" then is_get m || is_post m
  else if has_prefix u "/v1/tenants/" then is_post m
  else if str_eqb u "/v1/orgs" then is_get m || is_post m
  else if has_prefix u "/v1/orgs/" then true
  else if str_eqb u "/v1/site-orgs" then is_get m || is_post m
  else if str_eqb u "/v1/role-bindings" then is_get m || is_post m || is_delete m
  else if str_eqb u "/v1/model-packs" || has_prefix u "/v1/model-packs/" then true
  else if str_eqb u "/v1/site-layouts" || has_prefix u "/v1/site-layouts/" then true
  else if has_prefix u "/v1/runbooks/" then is_get m
  else if has_prefix u "/v1/assets/" then is_get m && has_suffix u ":history"
  else if str_eqb u "/v1/health/scanners" then is_get m
  else false.

(** ** The gate *)

Inductive authDecision : Type := authAllow | authDenyUnauth | authDenyForbidden.

(** One audit line: subject, role, action, path and decision; the zero
    principal is an empty subject and role. *)
Record audit_line : Type := mkAudit {
  au_Subject : string; au_Role : option Role; au_Action : Action; au_Path : string;
  au_Decision : authDecision }.

Definition audit (p : option Principal) (a : Action) (path : string) (d : authDecision) :
    audit_line :=
  match p with
  | Some p => mkAudit (p_Subject p) (Some (p_Role p)) a path d
  | None => mkAudit EmptyString None a path d
  end.

(** What becomes of a request: the inner handler runs with the principal and
    the tenant of the context, or a problem is written. *)
Inductive verdict : Type :=
  | Inner (auth : option Principal) (tenant : option string)
  | Reject (p : problem).

Section gate.
(** The verifier of tokens, the Unicode tables, and the process-wide switch
    that makes the tenant header depend on the peer. *)
Context (Verify : string -> option Principal) (same_orbit : N -> N -> bool)
  (lower_rune : N -> N) (tenantHeaderRequiresPeer : bool).

Definition bearerFromHeader (hdr : string) : option string :=
  if (str_len hdr <=? 7)%nat then None
  else if negb (EqualFold same_orbit (String.substring 0 6 hdr) "Bearer") then None
  else if negb (str_eqb (String.substring 6 1 hdr) " ") then None
  else
    let tok := String.substring 7 (str_len hdr - 7) hdr in
    if str_eqb tok EmptyString then None else Some tok.

Definition IsAPIGW (component : string) : bool :=
  let c := ToLower lower_rune (TrimSpace component) in
  str_eqb c "apigw" || str_eqb c "cios-apigw" || has_suffix c "-apigw".

(** [gateTenantHeader]: the header is rejected. *)
Definition gateTenantHeader (r : Request) : bool :=
  tenantHeaderRequiresPeer && negb (str_eqb (r_Tenant r) EmptyString) && negb (IsAPIGW (r_Peer r)).

Definition unauthorized : problem := Problem 401 "unauthorized" "Unauthorized".
Definition forbidden : problem := Problem 403 "forbidden" "Forbidden".

(** Step 3: the role floor, or the whole decision. *)
Definition gate (mt : meter) (r : Request) (p : Principal) (a : Action) (path : string) :
    meter * result auth_err unit :=
  if isListScopeEndpoint (r_Method r) (r_Path r) then (mt, roleAllows p a)
  else authorize mt p a path.

Definition public_path (u : string) : bool :=
  str_eqb u "/v1/health" || str_eqb u "/v1/health/ready".

(** [authMW.ServeHTTP] *)
Definition authMW_ServeHTTP (mt : meter) (r : Request) : meter * list audit_line * verdict :=
  if public_path (r_Path r) then (mt, [], Inner None None)
  else
    match mapRequest (r_Method r) (r_Path r) with
    | None => (mt, [], Inner None None)
    | Some (action, path) =>
        match bearerFromHeader (r_Authorization r) with
        | None => (mt, [audit None action path authDenyUnauth], Reject unauthorized)
        | Some raw =>
            match Verify raw with
            | None => (mt, [audit None action path authDenyUnauth], Reject unauthorized)
            | Some p =>
                let '(mt', g) := gate mt r p action path in
                match g with
                | Err _ => (mt', [audit (Some p) action path authDenyForbidden], Reject forbidden)
                | Ok _ =>
                    let allow := audit (Some p) action path authAllow in
                    if str_eqb (r_Tenant r) EmptyString
                    then (mt', [allow], Inner (Some p) None)
                    else if gateTenantHeader r
                    then (mt', [allow; audit (Some p) action path authDenyForbidden],
                          Reject forbidden)
                    else (mt', [allow], Inner (Some p) (Some (r_Tenant r)))
                end
            end
        end
    end.

(** The tenant gate in front of it, as [Handler] stacks them when a verifier is
    configured. *)
Definition serve (mt : meter) (r : Request) : meter * list audit_line * verdict :=
  if gateTenantHeader r then (mt, [], Reject forbidden) else authMW_ServeHTTP mt r.
End gate.
