(* ===== verification/Routes.v ===== *)
(** * Routing (core/server.go Handler and the dispatchers of the handlers)

    The route table of the core service, the selection of the handler by the
    mux, and the method and suffix dispatch of every handler up to the
    operation it calls.  Stacked behind the middleware this gives the two
    theorems on access: no handler of the API runs without the gate, and every
    operation runs only for a principal whose role, and where the URL names an
    asset or point whose scopes, allow it. *)
From S2P Require Import Prelude CPath RBAC Http Tickets AuthMW.
Open Scope string_scope.
Open Scope list_scope.

Inductive handler : Type :=
  | serveAssetsRoot | serveAssetPath | serveAlarms | serveAlarmAck | serveTickets
  | serveTicketPath | serveOpsReport | serveReconcile | servePMSchedules | servePMSchedule
  | serveControlAudit | serveControlApprove | serveCustomerSLA | serveUsage | serveUsageExport
  | serveUsageCompute | serveRunbook | serveCases | serveSpares | serveSpare
  | serveInspections | serveInspection | serveInspectionForm | serveMaintenanceUpcoming
  | serveMaintenanceWindowsRoot | ServeMaintenanceWindow | serveTenants | serveTenantTier
  | serveOrgs | serveOrg | serveSiteOrgs | serveRoleBindings | serveModelPacks
  | serveModelPack | serveSiteLayoutsRoot | serveSiteLayout | serveMetricsQuery | servePoint
  | serveHealth | serveReady | serveScanners.

#[export] Instance handler_eq_dec : EqDecision handler.
Proof. solve_decision. Defined.

(** ** The mux *)

Definition routes : list (string * handler) :=
  [("/v1/assets", serveAssetsRoot); ("/v1/assets/", serveAssetPath);
   ("/v1/alarms", serveAlarms); ("/v1/alarms/", serveAlarmAck);
   ("/v1/tickets", serveTickets); ("/v1/tickets/", serveTicketPath);
   ("/v1/reports/ops", serveOpsReport); ("/v1/reports/reconcile", serveReconcile);
   ("/v1/pm/schedules", servePMSchedules); ("/v1/pm/schedules/", servePMSchedule);
   ("/v1/control/audit", serveControlAudit); ("/v1/control/", serveControlApprove);
   ("/v1/sla", serveCustomerSLA); ("/v1/usage", serveUsage);
   ("/v1/usage:export", serveUsageExport); ("/v1/usage:compute", serveUsageCompute);
   ("/v1/runbooks/", serveRunbook); ("/v1/cases", serveCases);
   ("/v1/spares", serveSpares); ("/v1/spares/", serveSpare);
   ("/v1/inspections", serveInspections); ("/v1/inspections/", serveInspection);
   ("/v1/inspections/form/", serveInspectionForm);
   ("/v1/maintenance/upcoming", serveMaintenanceUpcoming);
   ("/v1/maintenance/windows", serveMaintenanceWindowsRoot);
   ("/v1/maintenance/windows/", ServeMaintenanceWindow);
   ("/v1/tenants", serveTenants); ("/v1/tenants/", serveTenantTier);
   ("/v1/orgs", serveOrgs); ("/v1/orgs/", serveOrg);
   ("/v1/site-orgs", serveSiteOrgs); ("/v1/role-bindings", serveRoleBindings);
   ("/v1/model-packs", serveModelPacks); ("/v1/model-packs/", serveModelPack);
   ("/v1/site-layouts", serveSiteLayoutsRoot); ("/v1/site-layouts/", serveSiteLayout);
   ("/v1/metrics/query", serveMetricsQuery); ("/v1/metrics/query_range", serveMetricsQuery);
   ("/v1/points/", servePoint);
   ("/v1/health", serveHealth); ("/v1/health/ready", serveReady);
   ("/v1/health/scanners", serveScanners)].

(** A pattern that ends in a slash matches its subtree, any other pattern
    itself; the most specific of the matching patterns is the longest one. *)
Definition pattern_matches (pat u : string) : bool :=
  if has_suffix pat "/" then has_prefix u pat else str_eqb u pat.

Definition more_specific (best : option (string * handler)) (r : string * handler) :
    option (string * handler) :=
  match best with
  | Some b => if (str_len b.1 <? str_len r.1)%nat then Some r else Some b
  | None => Some r
  end.

Definition mux_lookup (u : string) : option handler :=
  snd <$> foldl more_specific None (List.filter (fun r => pattern_matches r.1 u) routes).

(** The mux redirects a path that path.Clean would change. *)
Definition plain_segment (s : string) : bool :=
  negb (str_eqb s EmptyString || str_eqb s "." || str_eqb s "..").
Fixpoint clean_segments (segs : list string) : bool :=
  match segs with
  | [] => true
  | [s] => str_eqb s EmptyString || plain_segment s
  | s :: rest => plain_segment s && clean_segments rest
  end.
Definition clean_path (u : string) : bool :=
  match split "/" u with
  | s :: rest => str_eqb s EmptyString && clean_segments rest
  | [] => false
  end.

Definition mux (u : string) : option handler := if clean_path u then mux_lookup u else None.

(** ** Operations

    What a dispatcher calls.  A read continues with the handler's own query;
    an operator's write checks the scope of the row it finds; an
    administrator's operation requires the role. *)

Inductive write_op : Type :=
  | AlarmAck (id : string) | TicketsCreate | TicketTransition (id : string)
  | TicketNote (id : string) | TicketAssign (id : string) | PMSchedulesCreate
  | ControlApprove (id : string) | SparesCreate | SpareAdjust (id : string)
  | InspectionsCreate | FormPost (id : string) | PhotoUpload (id : string)
  | WindowsCreate | WindowDelete (id : string).

Inductive admin_op : Type :=
  | UsageCompute | TenantsList | TenantsCreate | TenantTier (id : string)
  | TenantDelete (id : string) | OrgsList | OrgsCreate | OrgGet (id : string)
  | OrgRename (id : string) | OrgDelete (id : string) | SiteOrgsList | SiteOrgsAttach
  | SiteOrgsDetach | RoleBindingsList | RoleBindingsPut | RoleBindingsDelete
  | PacksList | PackImport | PackBindings (typ model : string) | PackExport (typ model : string)
  | PackLint (typ model : string) | PackConform (typ model : string) | PackVocab
  | PackDetail (typ model : string) | LayoutsList | LayoutGet (site : string)
  | LayoutPut (site : string) | LayoutWriteback (site : string)
  | LayoutRebuild (site : string) | LayoutSceneJob (site : string).

Inductive op : Type :=
  | OpProbe                      (* the public probes *)
  | OpRead                       (* a read that filters or checks by itself *)
  | OpMetrics                    (* the query proxy *)
  | OpGetAsset (p : string) | OpPutAsset (p : string) | OpDeleteAsset (p : string)
  | OpLifecycle (p : string)
  | OpGetPoint (p : string) | OpSetPoint (p : string)
  | OpWrite (w : write_op)
  | OpAdmin (a : admin_op).

Definition method_not_allowed : problem := Problem 405 "bad-request" "method not allowed".
Definition path_not_found : problem := Problem 404 "path-not-found" "not found".
Definition not_admin : problem := Problem 403 "forbidden" "forbidden".

Definition get_only (m : string) : result problem op :=
  if is_get m then Ok OpRead else Err method_not_allowed.

(** [requireOrgAdmin] *)
Definition requireOrgAdmin (auth : option Principal) : bool :=
  match auth with Some p => bool_decide (p_Role p = RoleAdmin) | None => false end.
Definition admin_only (auth : option Principal) (a : admin_op) : result problem op :=
  if requireOrgAdmin auth then Ok (OpAdmin a) else Err not_admin.

(** ** Dispatchers *)

Definition dispatchAssetPath (m u : string) : result problem op :=
  let path := trim_prefix u "/v1/assets/" in
  if str_eqb path EmptyString || contains "/" path then Err (Problem 400 "bad-path" "bad asset path")
  else if is_get m && has_suffix path ":history" then Ok OpRead
  else if is_post m && has_suffix path ":lifecycle"
  then Ok (OpLifecycle (trim_suffix path ":lifecycle"))
  else if is_put m then Ok (OpPutAsset path)
  else if is_get m then Ok (OpGetAsset path)
  else if is_delete m then Ok (OpDeleteAsset path)
  else Err method_not_allowed.

Definition dispatchAlarmAck (m u : string) : result problem op :=
  let rest := trim_prefix u "/v1/alarms/" in
  if negb (has_suffix rest ":ack") then Err path_not_found
  else
    let id := trim_suffix rest ":ack" in
    if str_eqb id EmptyString then Err (bad_request "missing id")
    else if negb (is_post m) then Err method_not_allowed
    else Ok (OpWrite (AlarmAck id)).

Definition dispatchCreate (m : string) (w : write_op) : result problem op :=
  if is_get m then Ok OpRead else if is_post m then Ok (OpWrite w) else Err method_not_allowed.

Definition dispatchTicket (m u : string) : result problem op :=
  match serveTicket m (trim_prefix u "/v1/tickets/") with
  | Err e => Err e
  | Ok (RouteGet _) | Ok (RouteHistory _) => Ok OpRead
  | Ok (RouteTransition id) => Ok (OpWrite (TicketTransition id))
  | Ok (RouteNote id) => Ok (OpWrite (TicketNote id))
  | Ok (RouteAssign id) => Ok (OpWrite (TicketAssign id))
  end.

(** The id patterns: a prefix and 16 base32 bytes. *)
Definition id_pattern (pre s : string) : bool :=
  has_prefix s pre && (str_len s =? str_len pre + 16)%nat &&
  all_bytes base32_byte (trim_prefix s pre).

Definition dispatchById (m u root pre title : string) : result problem op :=
  if negb (is_get m) then Err method_not_allowed
  else if negb (id_pattern pre (trim_prefix u root)) then Err (bad_request title)
  else Ok OpRead.

Definition dispatchControlApprove (m u : string) : result problem op :=
  let raw := trim_prefix u "/v1/control/" in
  if negb (has_suffix raw ":approve")
  then Err (Problem 404 "not-found" "unknown control resource")
  else if negb (is_post m) then Err (Problem 405 "method-not-allowed" "use POST for :approve")
  else Ok (OpWrite (ControlApprove (trim_suffix raw ":approve"))).

Definition dispatchUsageCompute (auth : option Principal) (m : string) : result problem op :=
  if negb (is_post m) then Err method_not_allowed else admin_only auth UsageCompute.

Definition dispatchSpare (m u : string) : result problem op :=
  let rest := trim_prefix u "/v1/spares/" in
  if str_eqb rest EmptyString then Err (bad_request "missing id")
  else
    let adjust := has_suffix rest ":adjust" in
    let id := if adjust then trim_suffix rest ":adjust" else rest in
    if str_eqb id EmptyString then Err (bad_request "missing id")
    else if negb (id_pattern "sp_" id) then Err (bad_request "bad spare id")
    else if adjust && is_post m then Ok (OpWrite (SpareAdjust id))
    else if negb adjust && is_get m then Ok OpRead
    else Err method_not_allowed.

Definition dispatchInspectionForm (m u : string) : result problem op :=
  let rest := trim_prefix u "/v1/inspections/form/" in
  if str_eqb rest EmptyString || str_eqb rest u then Err (bad_request "missing ticket id")
  else if has_suffix rest "/photo" then
    let id := trim_suffix rest "/photo" in
    if negb (ticketIDPattern id) then Err (bad_request "bad ticket id")
    else if negb (is_post m) then Err method_not_allowed
    else Ok (OpWrite (PhotoUpload id))
  else if negb (ticketIDPattern rest) then Err (bad_request "bad ticket id")
  else if is_get m then Ok OpRead
  else if is_post m then Ok (OpWrite (FormPost rest))
  else Err method_not_allowed.

Definition dispatchMaintenanceWindow (m u : string) : result problem op :=
  let rest := trim_prefix u "/v1/maintenance/windows/" in
  if str_eqb rest EmptyString then Err (bad_request "missing id")
  else if negb (is_delete m) then Err method_not_allowed
  else if negb (id_pattern "mw_" rest) then Err (bad_request "bad maintenance window id")
  else Ok (OpWrite (WindowDelete rest)).

Definition tenant_mismatch : problem :=
  Problem 403 "tenant-scope-mismatch" "platform admin required".

(** Creating and deleting tenants is refused to a request that carries a
    tenant. *)
Definition platform_only (auth : option Principal) (tenant : option string) (a : admin_op) :
    result problem op :=
  if negb (requireOrgAdmin auth) then Err not_admin
  else match tenant with Some _ => Err tenant_mismatch | None => Ok (OpAdmin a) end.

Definition dispatchTenants (auth : option Principal) (tenant : option string) (m : string) :
    result problem op :=
  if is_get m then admin_only auth TenantsList
  else if is_post m then platform_only auth tenant TenantsCreate
  else Err method_not_allowed.

Definition dispatchTenantTier (auth : option Principal) (tenant : option string) (m u : string) :
    result problem op :=
  let rest := trim_prefix u "/v1/tenants/" in
  if str_eqb rest EmptyString then Err (bad_request "missing id")
  else if is_delete m then
    if contains ":" rest then Err method_not_allowed
    else platform_only auth tenant (TenantDelete rest)
  else if negb (is_post m) then Err method_not_allowed
  else if negb (has_suffix rest ":tier") then Err path_not_found
  else
    let id := trim_suffix rest ":tier" in
    if str_eqb id EmptyString then Err (bad_request "missing id")
    else admin_only auth (TenantTier id).

Definition dispatchOrgs (auth : option Principal) (m : string) : result problem op :=
  if is_get m then admin_only auth OrgsList
  else if is_post m then admin_only auth OrgsCreate
  else Err method_not_allowed.

Definition dispatchOrg (auth : option Principal) (m u : string) : result problem op :=
  let rest := trim_prefix u "/v1/orgs/" in
  if str_eqb rest EmptyString then Err (bad_request "missing id")
  else
    let isRename := has_suffix rest ":rename" in
    let id := if isRename then trim_suffix rest ":rename" else rest in
    if str_eqb id EmptyString then Err (bad_request "missing id")
    else if negb (id_pattern "og_" id) then Err (bad_request "bad org id")
    else if isRename && is_post m then admin_only auth (OrgRename id)
    else if negb isRename && is_get m then admin_only auth (OrgGet id)
    else if negb isRename && is_delete m then admin_only auth (OrgDelete id)
    else Err method_not_allowed.

Definition dispatchSiteOrgs (auth : option Principal) (m : string) : result problem op :=
  if is_get m then admin_only auth SiteOrgsList
  else if is_post m then admin_only auth SiteOrgsAttach
  else if is_delete m then admin_only auth SiteOrgsDetach
  else Err method_not_allowed.

Definition dispatchRoleBindings (auth : option Principal) (m : string) : result problem op :=
  if is_get m then admin_only auth RoleBindingsList
  else if is_post m then admin_only auth RoleBindingsPut
  else if is_delete m then admin_only auth RoleBindingsDelete
  else Err method_not_allowed.

(** [sanitizeSeg] *)
Definition sanitizeSeg (s : string) : string :=
  let s := TrimSpace s in
  if str_eqb s EmptyString || contains ".." s || contains "/" s || contains "\" s
  then EmptyString else s.

(** [strings.Trim(rest, "/")] *)
Fixpoint trim_left (c : ascii) (s : string) : string :=
  match s with
  | String d r => if byte_eqb d c then trim_left c r else s
  | EmptyString => s
  end.
Fixpoint trim_right (c : ascii) (s : string) : string :=
  match s with
  | String d r =>
      match trim_right c r with
      | EmptyString => if byte_eqb d c then EmptyString else String d EmptyString
      | r' => String d r'
      end
  | EmptyString => EmptyString
  end.

Definition splitTypeModel (rest : string) : option (string * string) :=
  match split "/" (trim_right "/" (trim_left "/" rest)) with
  | [a; b] =>
      let typ := sanitizeSeg a in
      let model := sanitizeSeg b in
      if str_eqb typ EmptyString || str_eqb model EmptyString then None else Some (typ, model)
  | _ => None
  end.

Definition bad_pack : problem := bad_request "bad pack path".

Definition dispatchModelPacks (auth : option Principal) (m : string) : result problem op :=
  if is_get m then admin_only auth PacksList
  else if is_post m then admin_only auth PackImport
  else Err method_not_allowed.

(** A verb on one pack: the path first, then the method, then the role. *)
Definition pack_verb (auth : option Principal) (allowed : bool) (core : string)
    (a : string -> string -> admin_op) : result problem op :=
  match splitTypeModel core with
  | None => Err bad_pack
  | Some (typ, model) => if allowed then admin_only auth (a typ model) else Err method_not_allowed
  end.

Definition dispatchBindings (auth : option Principal) (m typ model : string) : result problem op :=
  if negb (requireOrgAdmin auth) then Err not_admin
  else if is_get m || is_put m || is_post m then Ok (OpAdmin (PackBindings typ model))
  else Err method_not_allowed.

Definition dispatchModelPack (auth : option Principal) (m u : string) : result problem op :=
  let rest := trim_prefix u "/v1/model-packs/" in
  if str_eqb rest EmptyString || str_eqb rest u then Err path_not_found
  else if has_suffix rest "/bindings" then
    match splitTypeModel (trim_suffix (trim_suffix rest "/bindings") "/") with
    | None => Err bad_pack
    | Some (typ, model) => dispatchBindings auth m typ model
    end
  else if str_eqb rest "import" || str_eqb rest ":import" || str_eqb rest "import/" then
    if negb (is_post m) then Err method_not_allowed else admin_only auth PackImport
  else if has_suffix rest ":export" then
    pack_verb auth (is_get m) (trim_suffix rest ":export") PackExport
  else if has_suffix rest ":lint" then
    pack_verb auth (is_post m) (trim_suffix rest ":lint") PackLint
  else if has_suffix rest ":conform" then
    pack_verb auth (is_post m) (trim_suffix rest ":conform") PackConform
  else if str_eqb rest "vocab" || str_eqb rest "vocab/" then
    if negb (is_get m) then Err method_not_allowed else admin_only auth PackVocab
  else pack_verb auth (is_get m) rest PackDetail.

Definition dispatchSiteLayoutsRoot (auth : option Principal) (m : string) : result problem op :=
  if negb (is_get m) then Err method_not_allowed else admin_only auth LayoutsList.

Definition dispatchSiteLayout (auth : option Principal) (m u : string) : result problem op :=
  let rest := trim_prefix u "/v1/site-layouts/" in
  if str_eqb rest EmptyString then Err (bad_request "missing site")
  else if has_suffix rest ":writeback" then
    if negb (is_post m) then Err method_not_allowed
    else admin_only auth (LayoutWriteback (sanitizeSeg (trim_suffix rest ":writeback")))
  else if has_suffix rest ":rebuild-scene" then
    if negb (is_post m) then Err method_not_allowed
    else admin_only auth (LayoutRebuild (sanitizeSeg (trim_suffix rest ":rebuild-scene")))
  else if has_suffix rest "/scene-job" then
    if negb (is_get m) then Err method_not_allowed
    else admin_only auth (LayoutSceneJob
           (sanitizeSeg (trim_suffix (trim_suffix rest "/scene-job") "/")))
  else
    let site := sanitizeSeg rest in
    if str_eqb site EmptyString then Err (bad_request "bad site")
    else if is_get m then admin_only auth (LayoutGet site)
    else if is_put m then admin_only auth (LayoutPut site)
    else Err method_not_allowed.

Definition dispatchPoint (m u : string) : result problem op :=
  let raw := trim_prefix u "/v1/points/" in
  if str_eqb raw EmptyString then Err (Problem 400 "bad-path" "missing point path")
  else if has_suffix raw ":set" then
    if negb (is_put m) then Err (Problem 405 "method-not-allowed" "use PUT for :set")
    else Ok (OpSetPoint (trim_suffix raw ":set"))
  else if negb (is_get m) then Err (Problem 405 "method-not-allowed" "use GET for point read")
  else Ok (OpGetPoint raw).

Definition dispatch (h : handler) (auth : option Principal) (tenant : option string)
    (m u : string) : result problem op :=
  match h with
  | serveAssetsRoot | serveAlarms | serveOpsReport | serveReconcile | serveCustomerSLA
  | serveUsage | serveUsageExport | serveRunbook | serveCases | serveMaintenanceUpcoming
  | serveScanners => get_only m
  | serveControlAudit =>
      if is_get m then Ok OpRead
      else Err (Problem 405 "method-not-allowed" "use GET for control audit")
  | serveHealth | serveReady => if is_get m then Ok OpProbe else Err method_not_allowed
  | serveMetricsQuery => Ok OpMetrics
  | serveAssetPath => dispatchAssetPath m u
  | serveAlarmAck => dispatchAlarmAck m u
  | serveTickets => dispatchCreate m TicketsCreate
  | serveTicketPath => dispatchTicket m u
  | servePMSchedules => dispatchCreate m PMSchedulesCreate
  | servePMSchedule => dispatchById m u "/v1/pm/schedules/" "pm_" "bad pm id"
  | serveControlApprove => dispatchControlApprove m u
  | serveUsageCompute => dispatchUsageCompute auth m
  | serveSpares => dispatchCreate m SparesCreate
  | serveSpare => dispatchSpare m u
  | serveInspections => dispatchCreate m InspectionsCreate
  | serveInspection => dispatchById m u "/v1/inspections/" "ins_" "bad inspection id"
  | serveInspectionForm => dispatchInspectionForm m u
  | serveMaintenanceWindowsRoot => dispatchCreate m WindowsCreate
  | ServeMaintenanceWindow => dispatchMaintenanceWindow m u
  | serveTenants => dispatchTenants auth tenant m
  | serveTenantTier => dispatchTenantTier auth tenant m u
  | serveOrgs => dispatchOrgs auth m
  | serveOrg => dispatchOrg auth m u
  | serveSiteOrgs => dispatchSiteOrgs auth m
  | serveRoleBindings => dispatchRoleBindings auth m
  | serveModelPacks => dispatchModelPacks auth m
  | serveModelPack => dispatchModelPack auth m u
  | serveSiteLayoutsRoot => dispatchSiteLayoutsRoot auth m
  | serveSiteLayout => dispatchSiteLayout auth m u
  | servePoint => dispatchPoint m u
  end.

(** ** The stack *)

Inductive outcome : Type :=
  | Ran (auth : option Principal) (o : op)   (* the operation is called *)
  | Refused (p : problem)                    (* a problem was written *)
  | NoRoute.                                 (* redirect or 404 of the mux *)

Section stack.
Context (Verify : string -> option Principal) (same_orbit : N -> N -> bool)
  (lower_rune : N -> N) (tenantHeaderRequiresPeer : bool).

(** [Handler] with a verifier configured. *)
Definition Handler (mt : meter) (r : Request) : meter * list audit_line * outcome :=
  let '(mt', lines, v) := serve Verify same_orbit lower_rune tenantHeaderRequiresPeer mt r in
  (mt', lines,
   match v with
   | Reject p => Refused p
   | Inner auth tenant =>
       match mux (r_Path r) with
       | None => NoRoute
       | Some h =>
           match dispatch h auth tenant (r_Method r) (r_Path r) with
           | Ok o => Ran auth o
           | Err p => Refused p
           end
       end
   end).
End stack.

(** ** Lemmas *)

Lemma is_get_eq m : is_get m = true -> m = "GET".
Proof. apply str_eqb_eq. Qed.
Lemma is_post_eq m : is_post m = true -> m = "POST".
Proof. apply str_eqb_eq. Qed.
Lemma is_put_eq m : is_put m = true -> m = "PUT".
Proof. apply str_eqb_eq. Qed.
Lemma is_delete_eq m : is_delete m = true -> m = "DELETE".
Proof. apply str_eqb_eq. Qed.

(** *** The mux *)

Lemma more_specific_in (l : list (string * handler)) : forall best b,
  foldl more_specific best l = Some b -> b ∈ l \/ best = Some b.
Proof.
  induction l as [|r l IH]; intros best b; cbn [foldl]; [by right|].
  intros [Hb|Hb]%IH; [left; by right|]. destruct best as [b0|]; cbn [more_specific] in Hb.
  - destruct (_ <? _)%nat; injection Hb as <-; [left; by left|by right].
  - injection Hb as <-. left. by left.
Qed.

Lemma mux_lookup_matches u h :
  mux_lookup u = Some h -> exists pat, (pat, h) ∈ routes /\ pattern_matches pat u = true.
Proof.
  unfold mux_lookup. intros H. apply fmap_Some in H as ([pat h'] & H & ->).
  apply more_specific_in in H as [Hin|?]; [|done].
  apply list_elem_of_In, filter_In in Hin as [Hin Hm].
  exists pat. split; [by apply list_elem_of_In|done].
Qed.

Lemma mux_matches u h :
  mux u = Some h -> exists pat, (pat, h) ∈ routes /\ pattern_matches pat u = true.
Proof. unfold mux. destruct (clean_path u); [apply mux_lookup_matches|done]. Qed.

(** Every route is one of the two forms. *)
Lemma route_cases (P : string -> handler -> Prop) u :
  (forall pat h, (pat, h) ∈ routes -> has_suffix pat "/" = false -> u = pat -> P u h) ->
  (forall pat h rest, (pat, h) ∈ routes -> has_suffix pat "/" = true -> u = pat +:+ rest -> P u h) ->
  forall h, mux u = Some h -> P u h.
Proof.
  intros H1 H2 h (pat & Hin & Hm)%mux_matches. unfold pattern_matches in Hm.
  destruct (has_suffix pat "/") eqn:E.
  - apply has_prefix_split in Hm as [rest Hr]. by eapply H2.
  - apply str_eqb_eq in Hm. by eapply H1.
Qed.

(** Evaluates which form of a concrete pattern matches. *)
Ltac eval_pattern H :=
  unfold pattern_matches in H;
  match type of H with
  | (if ?b then _ else _) = true =>
      let v := eval vm_compute in b in change b with v in H; cbv iota in H
  end.

(** *** Complete mediation *)

Lemma has_prefix_trans u pre pre' :
  has_prefix u (pre +:+ pre') = true -> has_prefix u pre = true.
Proof. intros [r ->]%has_prefix_split. rewrite <- str_app_assoc. apply has_prefix_app. Qed.

(** A URL outside the API matches no route but the probes. *)
Lemma mapRequest_None m u pat h :
  mapRequest m u = None -> (pat, h) ∈ routes -> pattern_matches pat u = true ->
  public_path u = true.
Proof.
  intros Hn Hin Hm. apply not_false_is_true. intros Hp.
  unfold public_path in Hp. apply orb_false_iff in Hp as [Hp1 Hp2].
  assert (Hu : pat <> "/v1/health" /\ pat <> "/v1/health/ready").
  { split; intros ->; eval_pattern Hm; congruence. }
  unfold mapRequest, map_assets, map_tickets, post_writes in Hn.
  repeat (match type of Hn with
          | (if ?b then _ else _) = None => destruct b eqn:?
          | (let p := ?t in _) = None => cbv zeta in Hn
          end; try discriminate Hn).
  all: repeat match goal with H : _ || _ = false |- _ => apply orb_false_iff in H as [? ?] end.
  assert (Hf : has_prefix u "/v1/inspections/form/" = false).
  { apply not_true_is_false. intros Hf%(has_prefix_trans u "/v1/inspections/" "form/").
    congruence. }
  unfold routes in Hin.
  repeat (apply elem_of_cons in Hin as [[= -> ->]|Hin];
    [eval_pattern Hm; destruct Hu; congruence|]).
  by apply elem_of_nil in Hin.
Qed.

(** *** Suffixes of URLs *)

Lemma has_suffix_app a suf : has_suffix (a +:+ suf) suf = true.
Proof.
  unfold has_suffix. rewrite str_len_app. apply andb_true_iff. split; [apply Nat.leb_le; lia|].
  replace (str_len a + str_len suf - str_len suf) with (str_len a) by lia.
  rewrite substring_app, substring_all. apply str_eqb_refl.
Qed.

Lemma has_suffix_more a s suf : has_suffix s suf = true -> has_suffix (a +:+ s) suf = true.
Proof. intros ->%has_suffix_split. rewrite str_app_assoc. apply has_suffix_app. Qed.

(** A suffix without the separator lies behind the separator. *)
Lemma app_eq_app_inv a b t s : a +:+ b = t +:+ s ->
  (exists k, b = k +:+ s) \/ (exists k, s = k +:+ b).
Proof.
  revert t. induction a as [|c a IH]; intros t; cbn; [intros ->; left; by exists t|].
  destruct t as [|d t]; cbn; [intros <-; right; by exists (String c a)|].
  intros [= _ H]. by apply IH in H.
Qed.

Lemma has_suffix_behind a c s suf :
  no_byte c suf = true -> has_suffix (a +:+ String c s) suf = true -> has_suffix s suf = true.
Proof.
  intros Hn Hs. apply has_suffix_split in Hs. apply app_eq_app_inv in Hs as [[k Hk]|[k Hk]].
  - destruct k as [|d k]; cbn in Hk.
    + subst suf. unfold no_byte in Hn. cbn in Hn. by rewrite byte_eqb_refl in Hn.
    + injection Hk as _ ->. apply has_suffix_app.
  - exfalso. rewrite Hk in Hn. unfold no_byte in Hn. rewrite all_bytes_app in Hn.
    apply andb_true_iff in Hn as [_ Hn]. cbn in Hn. by rewrite byte_eqb_refl in Hn.
Qed.

(** *** Where the mapping and the dispatchers agree *)

(** What the middleware checked when the operation is reached. *)
Definition url_claim (m u : string) (o : op) : Prop :=
  match o with
  | OpProbe => public_path u = true
  | OpRead | OpAdmin _ => True
  | OpMetrics => mapRequest m u = Some (ActionRead, "**") /\ isListScopeEndpoint m u = false
  | OpGetAsset p | OpGetPoint p =>
      mapRequest m u = Some (ActionRead, p) /\ isListScopeEndpoint m u = false
  | OpPutAsset p | OpDeleteAsset p | OpLifecycle p =>
      mapRequest m u = Some (ActionApply, p) /\ isListScopeEndpoint m u = false
  | OpSetPoint p =>
      mapRequest m u = Some (ActionControlWrite, p) /\ isListScopeEndpoint m u = false
  | OpWrite _ => exists path, mapRequest m u = Some (ActionControlWrite, path)
  end.

Lemma asset_url m rest o :
  dispatchAssetPath m ("/v1/assets/" +:+ rest) = Ok o -> url_claim m ("/v1/assets/" +:+ rest) o.
Proof.
  unfold dispatchAssetPath. rewrite trim_prefix_app. cbv zeta.
  assert (Hm : mapRequest m ("/v1/assets/" +:+ rest) =
    let p := trim_prefix ("/v1/assets/" +:+ rest) "/v1/assets/" in
    map_assets m p) by reflexivity.
  cbv zeta in Hm. rewrite trim_prefix_app in Hm.
  assert (Hl : isListScopeEndpoint m ("/v1/assets/" +:+ rest) =
    is_get m && has_suffix ("/v1/assets/" +:+ rest) ":history") by reflexivity.
  destruct (str_eqb rest _ || contains "/" rest); [done|].
  destruct (is_get m && has_suffix rest ":history") eqn:Eh; [by intros <-%Ok_inj|].
  destruct (is_post m && has_suffix rest ":lifecycle") eqn:El.
  { intros <-%Ok_inj. cbn [url_claim]. split; [by rewrite Hm; unfold map_assets; rewrite El|].
    apply andb_true_iff in El as [->%is_post_eq _]. by rewrite Hl. }
  destruct (is_put m) eqn:Ep.
  { intros <-%Ok_inj. apply is_put_eq in Ep as ->. cbn [url_claim]. by rewrite Hm, Hl. }
  destruct (is_get m) eqn:Eg.
  { intros <-%Ok_inj. cbn [url_claim]. rewrite Hm, Hl. split.
    - unfold map_assets. by rewrite El, Eg.
    - apply is_get_eq in Eg as ->. cbn [andb] in *. apply not_true_is_false. intros Hs.
      apply (has_suffix_behind "/v1/assets" "/" rest) in Hs; [congruence|done]. }
  destruct (is_delete m) eqn:Ed; [|done].
  intros <-%Ok_inj. apply is_delete_eq in Ed as ->. cbn [url_claim]. by rewrite Hm, Hl.
Qed.

Lemma point_url m rest o :
  dispatchPoint m ("/v1/points/" +:+ rest) = Ok o -> url_claim m ("/v1/points/" +:+ rest) o.
Proof.
  unfold dispatchPoint. rewrite trim_prefix_app. cbv zeta.
  assert (Hm : mapRequest m ("/v1/points/" +:+ rest) =
    let p := trim_prefix ("/v1/points/" +:+ rest) "/v1/points/" in
    if has_suffix p ":set" then Some (ActionControlWrite, trim_suffix p ":set")
    else Some (ActionRead, p)) by reflexivity.
  cbv zeta in Hm. rewrite trim_prefix_app in Hm.
  assert (Hl : isListScopeEndpoint m ("/v1/points/" +:+ rest) = false) by reflexivity.
  destruct (str_eqb rest _); [done|]. destruct (has_suffix rest ":set").
  - destruct (is_put m); [|done]. intros <-%Ok_inj. done.
  - destruct (is_get m); [|done]. intros <-%Ok_inj. done.
Qed.

Lemma alarm_url m rest o :
  dispatchAlarmAck m ("/v1/alarms/" +:+ rest) = Ok o -> url_claim m ("/v1/alarms/" +:+ rest) o.
Proof.
  unfold dispatchAlarmAck. rewrite trim_prefix_app. cbv zeta.
  assert (Hm : mapRequest m ("/v1/alarms/" +:+ rest) =
    let p := trim_prefix ("/v1/alarms/" +:+ rest) "/v1/alarms/" in
    if has_suffix p ":ack" then Some (ActionControlWrite, trim_suffix p ":ack")
    else Some (ActionRead, p)) by reflexivity.
  cbv zeta in Hm. rewrite trim_prefix_app in Hm.
  destruct (has_suffix rest ":ack"); [|done]. cbn [negb]. destruct (str_eqb _ _); [done|].
  destruct (is_post m); [|done]. intros <-%Ok_inj. cbn [url_claim]. rewrite Hm. eauto.
Qed.

Lemma approve_url m rest o :
  dispatchControlApprove m ("/v1/control/" +:+ rest) = Ok o ->
  url_claim m ("/v1/control/" +:+ rest) o.
Proof.
  unfold dispatchControlApprove. rewrite trim_prefix_app. cbv zeta.
  assert (Hm : mapRequest m ("/v1/control/" +:+ rest) =
    let p := trim_prefix ("/v1/control/" +:+ rest) "/v1/control/" in
    if str_eqb ("/v1/control/" +:+ rest) "/v1/control/audit" then Some (ActionRead, "**")
    else if has_suffix p ":approve" then Some (ActionControlWrite, trim_suffix p ":approve")
    else Some (ActionRead, p)) by reflexivity.
  cbv zeta in Hm. rewrite trim_prefix_app in Hm.
  destruct (has_suffix rest ":approve") eqn:Es; [|done]. cbn [negb].
  destruct (is_post m); [|done]. intros <-%Ok_inj. cbn [url_claim]. rewrite Hm.
  destruct (str_eqb _ "/v1/control/audit") eqn:Ea; [|eauto].
  apply str_eqb_eq, (str_app_inv_head "/v1/control/" rest "audit") in Ea as ->. discriminate Es.
Qed.

Lemma serveTicket_write m rest r : serveTicket m rest = Ok r ->
  match r with
  | RouteTransition _ => has_suffix rest ":transition" = true
  | RouteNote _ => has_suffix rest ":note" = true
  | RouteAssign _ => has_suffix rest ":assign" = true
  | _ => True
  end.
Proof.
  unfold serveTicket, split_suffix. destruct (str_eqb rest _); [done|].
  destruct (has_suffix rest ":transition");
    [|destruct (has_suffix rest ":note");
      [|destruct (has_suffix rest ":assign"); [|destruct (has_suffix rest ":history")]]];
    cbn [str_eqb String.eqb Ascii.eqb Bool.eqb andb];
    repeat case_match; intros [= <-] || intros [=]; done.
Qed.

Lemma ticket_url m rest o :
  dispatchTicket m ("/v1/tickets/" +:+ rest) = Ok o -> url_claim m ("/v1/tickets/" +:+ rest) o.
Proof.
  unfold dispatchTicket. rewrite trim_prefix_app.
  assert (Hm : mapRequest m ("/v1/tickets/" +:+ rest) =
    let p := trim_prefix ("/v1/tickets/" +:+ rest) "/v1/tickets/" in
    map_tickets m p) by reflexivity.
  cbv zeta in Hm. rewrite trim_prefix_app in Hm.
  destruct (serveTicket m rest) as [r|] eqn:E; [|done]. apply serveTicket_write in E.
  destruct r; intros <-%Ok_inj; cbn [url_claim]; try done; rewrite Hm; unfold map_tickets;
    rewrite E, ?orb_true_r; eauto.
Qed.

Lemma spare_url m rest o :
  dispatchSpare m ("/v1/spares/" +:+ rest) = Ok o -> url_claim m ("/v1/spares/" +:+ rest) o.
Proof.
  unfold dispatchSpare. rewrite trim_prefix_app. cbv zeta.
  assert (Hm : mapRequest m ("/v1/spares/" +:+ rest) =
    let p := trim_prefix ("/v1/spares/" +:+ rest) "/v1/spares/" in
    Some (if has_suffix p ":adjust" then ActionControlWrite else ActionRead, "**")) by reflexivity.
  cbv zeta in Hm. rewrite trim_prefix_app in Hm.
  destruct (str_eqb rest _); [done|]. destruct (str_eqb _ _); [done|].
  destruct (id_pattern _ _); [|done]. cbn [negb].
  destruct (has_suffix rest ":adjust"); cbn [andb negb].
  - destruct (is_post m); [|done]. intros <-%Ok_inj. cbn [url_claim]. rewrite Hm. eauto.
  - destruct (is_get m); [|done]. by intros <-%Ok_inj.
Qed.

Lemma form_url m rest o :
  dispatchInspectionForm m ("/v1/inspections/form/" +:+ rest) = Ok o ->
  url_claim m ("/v1/inspections/form/" +:+ rest) o.
Proof.
  unfold dispatchInspectionForm. rewrite trim_prefix_app. cbv zeta.
  assert (Hm : mapRequest "POST" ("/v1/inspections/form/" +:+ rest) =
    Some (ActionControlWrite, trim_prefix ("/v1/inspections/form/" +:+ rest)
      "/v1/inspections/form/")) by reflexivity.
  destruct (_ || _); [done|]. destruct (has_suffix rest "/photo").
  - destruct (ticketIDPattern _); [|done]. cbn [negb].
    destruct (is_post m) eqn:E; [|done]. apply is_post_eq in E as ->.
    intros <-%Ok_inj. cbn [url_claim]. rewrite Hm. eauto.
  - destruct (ticketIDPattern _); [|done]. cbn [negb]. destruct (is_get m); [by intros <-%Ok_inj|].
    destruct (is_post m) eqn:E; [|done]. apply is_post_eq in E as ->.
    intros <-%Ok_inj. cbn [url_claim]. rewrite Hm. eauto.
Qed.

Lemma window_url m rest o :
  dispatchMaintenanceWindow m ("/v1/maintenance/windows/" +:+ rest) = Ok o ->
  url_claim m ("/v1/maintenance/windows/" +:+ rest) o.
Proof.
  unfold dispatchMaintenanceWindow. rewrite trim_prefix_app. cbv zeta.
  destruct (str_eqb rest _); [done|]. destruct (is_delete m); [|done].
  destruct (id_pattern _ _); [|done]. intros <-%Ok_inj. cbn [url_claim].
  exists (trim_prefix ("/v1/maintenance/windows/" +:+ rest) "/v1/maintenance/windows/").
  reflexivity.
Qed.

Lemma create_url m u w o :
  mapRequest "POST" u = Some (ActionControlWrite, "**") -> dispatchCreate m w = Ok o ->
  url_claim m u o.
Proof.
  unfold dispatchCreate. intros Hu. destruct (is_get m); [by intros <-%Ok_inj|].
  destruct (is_post m) eqn:E; [|done]. apply is_post_eq in E as ->.
  intros <-%Ok_inj. cbn [url_claim]. eauto.
Qed.

(** *** Administration *)

Definition admin_result (auth : option Principal) (r : result problem op) : Prop :=
  forall o, r = Ok o -> (exists a, o = OpAdmin a) /\ requireOrgAdmin auth = true.

Lemma admin_only_result auth a : admin_result auth (admin_only auth a).
Proof. intros o. unfold admin_only. destruct (requireOrgAdmin auth); [|done]. intros [= <-]. eauto. Qed.

Lemma platform_only_result auth t a : admin_result auth (platform_only auth t a).
Proof.
  intros o. unfold platform_only. destruct (requireOrgAdmin auth); [|done]. destruct t; [done|].
  intros [= <-]. eauto.
Qed.

Lemma bindings_result auth m typ model : admin_result auth (dispatchBindings auth m typ model).
Proof.
  intros o. unfold dispatchBindings. destruct (requireOrgAdmin auth); [|done].
  cbn [negb]. destruct (_ || _); [|done]. intros [= <-]. eauto.
Qed.

Lemma Err_result auth e : admin_result auth (Err e).
Proof. by intros o. Qed.

Create HintDb admin.
#[local] Hint Resolve admin_only_result platform_only_result bindings_result Err_result : admin.

(** Splits a dispatcher into its branches. *)
Ltac admin_branches :=
  cbv zeta;
  repeat match goal with
  | |- admin_result _ (if ?b then _ else _) => destruct b
  | |- admin_result _ (match ?x with _ => _ end) => destruct x as [[? ?]|]
  end; auto with admin.

Lemma pack_verb_result auth b core a : admin_result auth (pack_verb auth b core a).
Proof. unfold pack_verb. admin_branches. Qed.
#[local] Hint Resolve pack_verb_result : admin.

Lemma dispatch_admin h auth t m u :
  match h with
  | serveUsageCompute | serveTenants | serveTenantTier | serveOrgs | serveOrg | serveSiteOrgs
  | serveRoleBindings | serveModelPacks | serveModelPack | serveSiteLayoutsRoot
  | serveSiteLayout => admin_result auth (dispatch h auth t m u)
  | _ => forall a, dispatch h auth t m u <> Ok (OpAdmin a)
  end.
Proof.
  destruct h; cbn [dispatch].
  all: try (intros a; unfold get_only, dispatchAssetPath, dispatchAlarmAck, dispatchCreate,
    dispatchById, dispatchControlApprove, dispatchSpare, dispatchInspectionForm,
    dispatchMaintenanceWindow, dispatchPoint, dispatchTicket;
    cbv zeta; repeat case_match; congruence).
  all: unfold dispatchUsageCompute, dispatchTenants, dispatchTenantTier, dispatchOrgs,
    dispatchOrg, dispatchSiteOrgs, dispatchRoleBindings, dispatchModelPacks, dispatchModelPack,
    dispatchSiteLayoutsRoot, dispatchSiteLayout; admin_branches.
Qed.

Lemma dispatch_OpAdmin h auth t m u a :
  dispatch h auth t m u = Ok (OpAdmin a) -> requireOrgAdmin auth = true.
Proof.
  intros H. pose proof (dispatch_admin h auth t m u) as Hd.
  destruct h; try (by destruct (Hd a)); by destruct (Hd _ H).
Qed.

(** *** Every route *)

Lemma get_only_url m u o : get_only m = Ok o -> url_claim m u o.
Proof. unfold get_only. destruct (is_get m); [|done]. by intros <-%Ok_inj. Qed.

Lemma admin_url auth m u r o : admin_result auth r -> r = Ok o -> url_claim m u o.
Proof. intros Hr H. apply Hr in H as [[a ->] _]. exact I. Qed.

Lemma by_id_url m u root pre title o :
  dispatchById m u root pre title = Ok o -> url_claim m u o.
Proof.
  unfold dispatchById. destruct (is_get m); [|done]. destruct (id_pattern _ _); [|done].
  by intros <-%Ok_inj.
Qed.

Lemma dispatch_url h auth t m u o :
  mux u = Some h -> dispatch h auth t m u = Ok o -> url_claim m u o.
Proof.
  intros (pat & Hin & Hm)%mux_matches. pose proof (dispatch_admin h auth t m u) as Ha.
  unfold routes in Hin.
  repeat (apply elem_of_cons in Hin as [[= -> ->]|Hin];
    [eval_pattern Hm; cbn [dispatch] in Ha |- *;
     first [ by apply get_only_url | by apply admin_url with auth | by apply by_id_url
           | apply str_eqb_eq in Hm as -> | apply has_prefix_split in Hm as [rest ->] ];
     first [ by apply create_url
           | apply asset_url | apply point_url | apply alarm_url | apply approve_url
           | apply ticket_url | apply spare_url | apply form_url | apply window_url
           | by intros <-%Ok_inj
           | by destruct (is_get m); [intros <-%Ok_inj|] ]|]).
  by apply elem_of_nil in Hin.
Qed.

(** ** Theorems *)

(** What an operation requires of the principal it runs for. *)
Definition permitted (mt : meter) (p : Principal) (o : op) : Prop :=
  match o with
  | OpProbe => True
  | OpRead => roleAllows p ActionRead = Ok tt
  | OpMetrics => (authorize mt p ActionRead "**").2 = Ok tt
  | OpGetAsset path | OpGetPoint path => (authorize mt p ActionRead path).2 = Ok tt
  | OpPutAsset _ | OpDeleteAsset _ | OpLifecycle _ => p_Role p = RoleAdmin
  | OpSetPoint path => (authorize mt p ActionControlWrite path).2 = Ok tt
  | OpWrite _ => p_Role p = RoleOperator \/ p_Role p = RoleAdmin
  | OpAdmin _ => p_Role p = RoleAdmin
  end.

Lemma roleAllows_write p :
  roleAllows p ActionControlWrite = Ok tt -> p_Role p = RoleOperator \/ p_Role p = RoleAdmin.
Proof. unfold roleAllows. destruct (p_Role p); auto; discriminate. Qed.

Lemma roleAllows_apply p : roleAllows p ActionApply = Ok tt -> p_Role p = RoleAdmin.
Proof. unfold roleAllows. destruct (p_Role p); auto; discriminate. Qed.

Lemma roleAllows_read p a : roleAllows p a = Ok tt -> roleAllows p ActionRead = Ok tt.
Proof. unfold roleAllows. destruct (p_Role p), a; auto. Qed.

Lemma authorize_role mt p a path :
  (authorize mt p a path).2 = Ok tt -> roleAllows p a = Ok tt.
Proof.
  unfold authorize, authorizeTenant. destruct (roleAllows p a) as [[]|]; [done|]. by cbn.
Qed.

Lemma gate_role mt r p a path : (gate mt r p a path).2 = Ok tt -> roleAllows p a = Ok tt.
Proof. unfold gate. destruct (isListScopeEndpoint _ _); [done|apply authorize_role]. Qed.

Section access.
Context (Verify : string -> option Principal) (same_orbit : N -> N -> bool)
  (lower_rune : N -> N) (requiresPeer : bool).

(** What reaches the inner handler, and under which checks. *)
Lemma serve_inner mt r mt' lines auth tenant :
  serve Verify same_orbit lower_rune requiresPeer mt r = (mt', lines, Inner auth tenant) ->
  gateTenantHeader lower_rune requiresPeer r = false /\
  ((auth = None /\ tenant = None /\ lines = [] /\ (public_path (r_Path r) = true \/
     mapRequest (r_Method r) (r_Path r) = None)) \/
   exists a path raw p, public_path (r_Path r) = false /\
     mapRequest (r_Method r) (r_Path r) = Some (a, path) /\
     bearerFromHeader same_orbit (r_Authorization r) = Some raw /\ Verify raw = Some p /\
     (gate mt r p a path).2 = Ok tt /\ auth = Some p /\
     tenant = (if str_eqb (r_Tenant r) EmptyString then None else Some (r_Tenant r)) /\
     lines = [audit (Some p) a path authAllow]).
Proof.
  unfold serve. destruct (gateTenantHeader _ _ _) eqn:Eg; [done|]. intros H. split; [done|].
  revert H. unfold authMW_ServeHTTP. destruct (public_path _) eqn:Ep.
  { intros [= <- <- <- <-]. left. auto. }
  destruct (mapRequest _ _) as [[a path]|] eqn:Em; [|intros [= <- <- <- <-]; left; auto].
  destruct (bearerFromHeader _ _) as [raw|] eqn:Eb; [|done].
  destruct (Verify raw) as [p|] eqn:Ev; [|done].
  destruct (gate mt r p a path) as [mt0 g] eqn:Eg'. destruct g as [[]|]; [|done].
  intros H. right. exists a, path, raw, p. rewrite Eg in H.
  destruct (str_eqb (r_Tenant r) EmptyString); injection H as <- <- <- <-;
    rewrite Eg'; split_and!; done.
Qed.

Lemma mux_probe u h : public_path u = true -> mux u = Some h -> h = serveHealth \/ h = serveReady.
Proof.
  unfold public_path. intros [->%str_eqb_eq| ->%str_eqb_eq]%orb_true_iff; vm_compute;
    intros [= <-]; auto.
Qed.

Lemma mux_mapped m u h : public_path u = false -> mux u = Some h -> mapRequest m u <> None.
Proof.
  intros Hp (pat & Hin & Hm)%mux_matches Hn. by rewrite (mapRequest_None m u pat h) in Hp.
Qed.

Lemma permitted_gate mt r p a path o :
  mapRequest (r_Method r) (r_Path r) = Some (a, path) -> (gate mt r p a path).2 = Ok tt ->
  url_claim (r_Method r) (r_Path r) o ->
  (forall x, o = OpAdmin x -> p_Role p = RoleAdmin) -> permitted mt p o.
Proof.
  intros Hm Hg Hc Ha. pose proof (gate_role _ _ _ _ _ Hg) as Hr.
  destruct o; cbn [url_claim permitted] in *; try done; eauto using roleAllows_read.
  all: rewrite Hm in Hc; unfold gate in Hg.
  all: try (destruct Hc as [[= -> ->] Hl]; rewrite Hl in Hg; try done;
    by apply roleAllows_apply).
  destruct Hc as [? [= -> ->]]. by apply roleAllows_write.
Qed.

(** C16: access control of the whole stack: an operation runs only when it is
    one of the two public probes, or when the bearer token of the request was
    verified and the principal it names is permitted the operation.  Reads of
    an asset or a point and writes of a point require the full decision on that
    very path, changes of assets and all administration the administrator's
    role, every other write at least the operator's role.  The allow decision
    is on the audit trail, and a tenant header was only let through when the
    gate admits its sender. *)
Theorem access_control mt r mt' lines auth o :
  Handler Verify same_orbit lower_rune requiresPeer mt r = (mt', lines, Ran auth o) ->
  gateTenantHeader lower_rune requiresPeer r = false /\
  ((o = OpProbe /\ public_path (r_Path r) = true) \/
   exists raw p a path, bearerFromHeader same_orbit (r_Authorization r) = Some raw /\
     Verify raw = Some p /\ auth = Some p /\ permitted mt p o /\
     lines = [audit (Some p) a path authAllow]).
Proof.
  unfold Handler.
  destruct (serve _ _ _ _ mt r) as [[mt0 lines0] v] eqn:Es. destruct v as [auth0 tenant|]; [|done].
  apply serve_inner in Es as [Hg Hs]. destruct (mux (r_Path r)) as [h|] eqn:Em; [|done].
  destruct (dispatch h auth0 tenant (r_Method r) (r_Path r)) as [o0|] eqn:Ed; [|done].
  intros [= <- <- <- <-]. split; [done|].
  destruct Hs as [(-> & -> & -> & [Hp|Hn])|(a & path & raw & p & Hp & Hm & Hb & Hv & Ha & -> & -> & ->)].
  - left. destruct (mux_probe _ _ Hp Em) as [-> | ->]; cbn in Ed;
      (destruct (is_get _); [by injection Ed as <-|done]).
  - left. destruct (public_path (r_Path r)) eqn:Hp.
    + destruct (mux_probe _ _ Hp Em) as [-> | ->]; cbn in Ed;
        (destruct (is_get _); [by injection Ed as <-|done]).
    + by destruct (mux_mapped (r_Method r) _ _ Hp Em).
  - right. exists raw, p, a, path. split_and!; [done..| |done].
    eapply permitted_gate; [done..| |].
    + by eapply dispatch_url.
    + intros x ->. apply dispatch_OpAdmin in Ed. cbn in Ed. by apply bool_decide_eq_true in Ed.
Qed.
End access.

(** An operator's set of a point under a legacy scope, with the tenant header
    accepted from the gateway. *)
Definition demo_operator : Principal := mkPrincipal "ops" RoleOperator ["fra01.**"] None.
Definition demo_Verify (raw : string) : option Principal :=
  if str_eqb raw "tok-1" then Some demo_operator else None.
Definition demo_request (m u : string) : Request :=
  mkRequest m u "bearer tok-1" "acme" "cios-apigw".
Definition demo_run (m u : string) : outcome :=
  (Handler demo_Verify latin_orbit (fun r => r) true open_meter (demo_request m u)).2.

Example demo_set : demo_run "PUT" "/v1/points/fra01.pod002.cdu000.fan000.rpm:set" =
  Ran (Some demo_operator) (OpSetPoint "fra01.pod002.cdu000.fan000.rpm").
Proof. vm_compute. reflexivity. Qed.
Example demo_set_elsewhere : demo_run "PUT" "/v1/points/sgp01.pod002.cdu000.fan000.rpm:set" =
  Refused forbidden.
Proof. vm_compute. reflexivity. Qed.
Example demo_delete_asset : demo_run "DELETE" "/v1/assets/fra01.pod002" = Refused forbidden.
Proof. vm_compute. reflexivity. Qed.
Example demo_unclean : mux "/v1/points/../assets/fra01" = None /\ demo_run "GET" "/v1/points" = NoRoute.
Proof. vm_compute. split; reflexivity. Qed.
Example demo_longest : mux "/v1/inspections/form/tk_A" = Some serveInspectionForm.
Proof. vm_compute. reflexivity. Qed.

(** Detaching a site is a write, yet the middleware maps it to a read: only the
    check of the handler stands between a viewer and the operation. *)
Example detach_is_mapped_to_read :
  mapRequest "DELETE" "/v1/site-orgs" = Some (ActionRead, "**") /\
  mapRequest "DELETE" "/v1/role-bindings" = Some (ActionControlWrite, "**") /\
  demo_run "DELETE" "/v1/site-orgs" = Refused forbidden /\
  dispatch serveSiteOrgs (Some demo_operator) None "DELETE" "/v1/site-orgs" = Err not_admin.
Proof. vm_compute. repeat split. Qed.

(** An administrator acting for a tenant can neither create nor delete tenants
    but may change the tier of any of them. *)
Example tier_ignores_tenant :
  let admin := Some (mkPrincipal "root" RoleAdmin [] None) in
  dispatch serveTenants admin (Some "acme") "POST" "/v1/tenants" = Err tenant_mismatch /\
  dispatch serveTenantTier admin (Some "acme") "DELETE" "/v1/tenants/beta" = Err tenant_mismatch /\
  dispatch serveTenantTier admin (Some "acme") "POST" "/v1/tenants/beta:tier" =
    Ok (OpAdmin (TenantTier "beta")).
Proof. vm_compute. repeat split. Qed.

Lemma access_control_witness :
  exists mt' lines, Handler demo_Verify latin_orbit (fun r => r) true open_meter
    (demo_request "PUT" "/v1/points/fra01.pod002.cdu000.fan000.rpm:set") =
    (mt', lines, Ran (Some demo_operator) (OpSetPoint "fra01.pod002.cdu000.fan000.rpm")) /\
  (authorize open_meter demo_operator ActionControlWrite "fra01.pod002.cdu000.fan000.rpm").2 = Ok tt.
Proof.
  set (r := demo_request "PUT" "/v1/points/fra01.pod002.cdu000.fan000.rpm:set").
  pose proof demo_set as H. unfold demo_run in H. fold r in H.
  destruct (Handler demo_Verify latin_orbit (fun r => r) true open_meter r) as [[mt' lines] out] eqn:E.
  cbn in H. subst out. exists mt', lines. split; [done|].
  apply access_control in E as [_ [[E _]|(raw & p & a & path & _ & _ & Ep & Hp & _)]]; [done|].
  injection Ep as <-. exact Hp.
Defined.
