(* ===== verification/Schedule.v ===== *)
(** * Recurring work (core/pm.go, core/inspection.go and their part of store.go)

    Preventive-maintenance schedules and inspection templates are two types
    with one scanner: a pass opens a ticket for every enabled item that is due
    and moves the item to its next date.  [Scheduled] is the interface the
    scanner uses, [ScheduledLaws] what it relies on; the two types are its
    instances.  The theorems are proved once against the interface: the
    tickets of an item are at least its interval apart, and a successful pass
    opens one ticket for exactly the due items. *)
From stdpp Require Import sorting.
From S2P Require Import Prelude GoTime CPath RBAC Http Tickets.
Open Scope string_scope.
Open Scope list_scope.

(** ** The interface *)

Class Scheduled (P : Type) : Type := {
  sched_id : P -> string;
  sched_enabled : P -> bool;
  sched_due : P -> time;
  sched_interval : P -> Duration;
  (* the ticket opened at a time under a minted id *)
  sched_ticket : P -> time -> string -> Ticket;
  sched_advance : P -> time -> P }.

(** Clocks between the zero time and the year 10000. *)
Definition clock_ok (now : time) : Prop := (0 <= now < 315569520000 * Second)%Z.

Class ScheduledLaws (P : Type) `{Scheduled P} : Type := {
  sched_valid : P -> Prop;
  sched_interval_pos : forall p, sched_valid p -> (0 < sched_interval p)%Z;
  advance_valid : forall p now, sched_valid p -> sched_valid (sched_advance p now);
  advance_id : forall p now, sched_id (sched_advance p now) = sched_id p;
  advance_enabled : forall p now, sched_enabled (sched_advance p now) = sched_enabled p;
  advance_interval : forall p now, sched_interval (sched_advance p now) = sched_interval p;
  advance_due : forall p now, sched_valid p -> clock_ok now ->
    sched_due (sched_advance p now) = (now + sched_interval p)%Z;
  (* a manual ticket: no alarm, open, not yet stored *)
  ticket_manual : forall p now id, let t := sched_ticket p now id in
    t_ID t = id /\ t_AlarmID t = EmptyString /\ t_State t = "open" }.

(** ** The scanner *)

Section scanner.
Context {P : Type} `{Scheduled P}.

(** [PutPMSchedule], [PutInspectionTemplate]: on a failed save the previous
    item is restored. *)
Definition put_sched (m : gmap string P) (p : P) (saved : bool) : gmap string P :=
  if saved then <[sched_id p := p]> m else m.

(** [ListPMSchedules], [ListInspectionTemplates]: by due date, then by id. *)
Definition sched_before (a b : P) : Prop :=
  (sched_due a < sched_due b)%Z \/
  (sched_due a = sched_due b /\ String.leb (sched_id a) (sched_id b) = true).
#[global] Instance sched_before_dec : RelDecision sched_before.
Proof. unfold sched_before. intros a b. apply _. Defined.
Definition ListSchedules (m : gmap string P) : list P :=
  merge_sort sched_before (map_to_list m).*2.

(** The effects of opening one ticket: its minted id and whether the two saves
    succeed. *)
Record fire_env : Type := mkFire {
  fe_id : string; fe_put_saved : bool; fe_advance_saved : bool }.

(** A ticket that was opened. *)
Record firing : Type := mkFiring {
  f_sched : string; f_at : time; f_ticket : string; f_advanced : bool }.

(** [firePMSchedule], [fireInspection] *)
Definition fire (ts : gmap string Ticket) (m : gmap string P) (p : P) (now : time)
    (env : fire_env) : gmap string Ticket * gmap string P * list firing :=
  match PutTicket ts (sched_ticket p now (fe_id env)) 0 (fe_put_saved env) with
  | (ts', Err _) => (ts', m, [])
  | (ts', Ok _) =>
      (ts', put_sched m (sched_advance p now) (fe_advance_saved env),
       [mkFiring (sched_id p) now (fe_id env) (fe_advance_saved env)])
  end.

Definition is_due (now : time) (p : P) : bool :=
  sched_enabled p && negb (now <? sched_due p)%Z.

(** The loop over the listed items; [env k] belongs to the [k]-th of them. *)
Fixpoint scan_loop (ts : gmap string Ticket) (m : gmap string P) (ps : list P) (now : time)
    (env : nat -> fire_env) (k : nat) : gmap string Ticket * gmap string P * list firing :=
  match ps with
  | [] => (ts, m, [])
  | p :: rest =>
      if negb (sched_enabled p) then scan_loop ts m rest now env (S k)
      else if (now <? sched_due p)%Z then scan_loop ts m rest now env (S k)
      else
        let '(ts1, m1, l1) := fire ts m p now (env k) in
        let '(ts2, m2, l2) := scan_loop ts1 m1 rest now env (S k) in
        (ts2, m2, l1 ++ l2)
  end.

(** [scanPMTick], [scanInspectionTick]; [locked] is whether this instance got
    the scanner lock. *)
Definition scanTick (ts : gmap string Ticket) (m : gmap string P) (locked : bool) (now : time)
    (env : nat -> fire_env) : gmap string Ticket * gmap string P * list firing :=
  if negb locked then (ts, m, []) else scan_loop ts m (ListSchedules m) now env 0.
End scanner.

(** ** Preventive maintenance (pm.go) *)

Record PMSchedule : Type := mkPM {
  pm_ID : string; pm_AssetPath : string; pm_Kind : string; pm_IntervalDays : Z;
  pm_LastRun : option time; pm_NextDue : time; pm_Title : string; pm_Severity : string;
  pm_Enabled : bool }.

Definition pm_ticket (p : PMSchedule) (now : time) (id : string) : Ticket :=
  mkTicket id EmptyString (pm_AssetPath p) (pm_Title p) (pm_Severity p) "open" EmptyString now
    None None None None 0 EmptyString.

Definition pm_advance (p : PMSchedule) (now : time) : PMSchedule :=
  mkPM (pm_ID p) (pm_AssetPath p) (pm_Kind p) (pm_IntervalDays p) (Some now)
    (AddDays now (pm_IntervalDays p)) (pm_Title p) (pm_Severity p) (pm_Enabled p).

#[export] Instance pm_scheduled : Scheduled PMSchedule := {
  sched_id := pm_ID;
  sched_enabled := pm_Enabled;
  sched_due := pm_NextDue;
  sched_interval p := (pm_IntervalDays p * day_seconds * Second)%Z;
  sched_ticket := pm_ticket;
  sched_advance := pm_advance }.

Record createPMScheduleRequest : Type := mkPMCreate {
  pr_AssetPath : string; pr_Kind : string; pr_IntervalDays : Z; pr_Title : string;
  pr_Severity : string; pr_Enabled : option bool }.

(** [hasAuth && authorize(...) != nil]; without a principal there is no check. *)
Definition in_scope (mt : meter) (auth : option Principal) (path : string) : meter * bool :=
  match auth with
  | None => (mt, true)
  | Some p => let '(mt', r) := authorize mt p ActionControlWrite path in (mt', is_ok r)
  end.

Definition servePMSchedulesCreate (m : gmap string PMSchedule) (mt : meter)
    (auth : option Principal) (body : option createPMScheduleRequest) (now : time) (id : string)
    (saved : bool) : gmap string PMSchedule * meter * result problem PMSchedule :=
  match body with
  | None => (m, mt, Err (bad_request "bad json"))
  | Some req =>
      if str_eqb (pr_AssetPath req) EmptyString || str_eqb (pr_Title req) EmptyString ||
         str_eqb (pr_Severity req) EmptyString
      then (m, mt, Err (bad_request "asset_path, title, severity required"))
      else
        let kind := if str_eqb (pr_Kind req) EmptyString then "calendar" else pr_Kind req in
        if negb (str_eqb kind "calendar")
        then (m, mt, Err (bad_request "only kind=calendar is supported in M2"))
        else if (pr_IntervalDays req <=? 0)%Z
        then (m, mt, Err (bad_request "interval_days must be > 0"))
        else if negb (contains_string allowedTicketSeverities (pr_Severity req))
        then (m, mt, Err (bad_request "unknown severity"))
        else
          let '(mt', ok) := in_scope mt auth (pr_AssetPath req) in
          if negb ok then (m, mt', Err (Problem 403 "forbidden" "out of scope"))
          else
            let p := mkPM id (pr_AssetPath req) kind (pr_IntervalDays req) None
              (AddDays now (pr_IntervalDays req)) (pr_Title req) (pr_Severity req)
              (default true (pr_Enabled req)) in
            if saved then (put_sched m p true, mt', Ok p) else (m, mt', Err store_error)
  end.

(** ** Inspections (inspection.go) *)

Record InspectionTemplate : Type := mkInsp {
  in_ID : string; in_AssetPath : string; in_Title : string; in_Items : list string;
  in_Interval : Duration; in_NextDue : time; in_Enabled : bool }.

Definition encodeInspectionRunbook (items : list string) : string :=
  match items with
  | [] => EmptyString
  | _ => "inspection:" +:+ join LF items
  end.

Definition insp_ticket (p : InspectionTemplate) (now : time) (id : string) : Ticket :=
  mkTicket id EmptyString (in_AssetPath p) (in_Title p) "info" "open" EmptyString now
    None None None None 0 (encodeInspectionRunbook (in_Items p)).

Definition insp_advance (p : InspectionTemplate) (now : time) : InspectionTemplate :=
  mkInsp (in_ID p) (in_AssetPath p) (in_Title p) (in_Items p) (in_Interval p)
    (time_add now (in_Interval p)) (in_Enabled p).

#[export] Instance insp_scheduled : Scheduled InspectionTemplate := {
  sched_id := in_ID;
  sched_enabled := in_Enabled;
  sched_due := in_NextDue;
  sched_interval := in_Interval;
  sched_ticket := insp_ticket;
  sched_advance := insp_advance }.

Record createInspectionRequest : Type := mkInspCreate {
  ir_AssetPath : string; ir_Title : string; ir_Items : option (list string);
  ir_Interval : Duration; ir_Enabled : option bool }.

Definition serveInspectionsCreate (m : gmap string InspectionTemplate) (mt : meter)
    (auth : option Principal) (body : option createInspectionRequest) (now : time) (id : string)
    (saved : bool) : gmap string InspectionTemplate * meter * result problem InspectionTemplate :=
  match body with
  | None => (m, mt, Err (bad_request "bad json"))
  | Some req =>
      if str_eqb (ir_AssetPath req) EmptyString || str_eqb (ir_Title req) EmptyString
      then (m, mt, Err (bad_request "asset_path, title required"))
      else if (ir_Interval req <=? 0)%Z
      then (m, mt, Err (bad_request "interval must be > 0"))
      else
        let '(mt', ok) := in_scope mt auth (ir_AssetPath req) in
        if negb ok then (m, mt', Err (Problem 403 "forbidden" "out of scope"))
        else
          let p := mkInsp id (ir_AssetPath req) (ir_Title req) (default [] (ir_Items req))
            (ir_Interval req) (time_add now (ir_Interval req)) (default true (ir_Enabled req)) in
          if saved then (put_sched m p true, mt', Ok p) else (m, mt', Err store_error)
  end.

(** ** The instances keep the laws *)

Definition pm_valid (p : PMSchedule) : Prop := (0 < pm_IntervalDays p <= 10 ^ 13)%Z.
Definition insp_valid (p : InspectionTemplate) : Prop := (0 < in_Interval p <= max_int64)%Z.

Lemma clock_sec now : clock_ok now -> (0 <= time_sec now < 315569520000)%Z.
Proof.
  unfold clock_ok, time_sec. intros [H0 H1]. split; [by apply Z.div_pos|].
  apply Z.div_lt_upper_bound; lia.
Qed.

#[export] Instance pm_laws : ScheduledLaws PMSchedule.
Proof.
  refine {| sched_valid := pm_valid |}; cbn; try done.
  - unfold pm_valid, day_seconds, Second. lia.
  - intros p now Hp Hc%clock_sec. unfold pm_valid in Hp. apply AddDays_exact.
    unfold day_seconds, min_int64, max_int64. lia.
Defined.

#[export] Instance insp_laws : ScheduledLaws InspectionTemplate.
Proof.
  refine {| sched_valid := insp_valid |}; cbn; try done.
  - by intros p [? _].
  - intros p now [Hp0 Hp] [Hc0 Hc]. apply time_add_exact. unfold time_sec, max_int64 in *.
    unfold Second in *. split.
    + pose proof (Z.div_pos (now + in_Interval p) 1000000000). lia.
    + apply Z.div_le_upper_bound; lia.
Defined.

(** ** Histories

    Passes of the scanner, creations of items under new ids, and any other
    change of the ticket table, in any order. *)

Section history.
Context {P : Type} `{Scheduled P} `{!ScheduledLaws P}.

Record ssys : Type := mkSsys {
  y_tickets : gmap string Ticket; y_scheds : gmap string P; y_fired : list firing }.

Inductive sstep : ssys -> ssys -> Prop :=
  | ss_tick ts m log locked now env ts' m' l :
      clock_ok now -> scanTick ts m locked now env = (ts', m', l) ->
      sstep (mkSsys ts m log) (mkSsys ts' m' (log ++ l))
  | ss_create ts m log p :
      m !! sched_id p = None -> sched_valid p ->
      sstep (mkSsys ts m log) (mkSsys ts (put_sched m p true) log)
  | ss_tickets ts ts' m log :
      sstep (mkSsys ts m log) (mkSsys ts' m log).

Inductive sreachable : ssys -> Prop :=
  | sr_init ts : sreachable (mkSsys ts ∅ [])
  | sr_step y y' : sreachable y -> sstep y y' -> sreachable y'.

(** Every firing of [log] belongs to an item; once the item was advanced after
    it, the item is due an interval later at the earliest, and so was every
    firing since. *)
Definition after_interval (m : gmap string P) (f : firing) (t : time) : Prop :=
  exists p, m !! f_sched f = Some p /\ (f_at f + sched_interval p <= t)%Z.

Record history_ok (m : gmap string P) (log : list firing) : Prop := {
  h_item : forall i p, m !! i = Some p -> sched_id p = i /\ sched_valid p;
  h_due : forall f, f ∈ log -> f_advanced f = true ->
    exists p, m !! f_sched f = Some p /\ (f_at f + sched_interval p <= sched_due p)%Z;
  h_spaced : forall l1 f l2 g l3, log = l1 ++ f :: l2 ++ g :: l3 -> f_sched g = f_sched f ->
    f_advanced f = true -> after_interval m f (f_at g) }.

(** Moving an item on, or adding one, keeps what was said of earlier firings. *)
Lemma history_ok_insert m log p :
  history_ok m log -> sched_valid p ->
  (forall q, m !! sched_id p = Some q ->
    sched_interval p = sched_interval q /\ (sched_due q <= sched_due p)%Z) ->
  history_ok (<[sched_id p := p]> m) log.
Proof.
  intros [Hi Hd Hs] Hv Hq.
  assert (Hmono : forall i q, m !! i = Some q -> exists q', <[sched_id p := p]> m !! i = Some q' /\
    sched_interval q' = sched_interval q /\ (sched_due q <= sched_due q')%Z).
  { intros i q Hm. destruct (decide (sched_id p = i)) as [<-|Hne].
    - exists p. rewrite lookup_insert_eq. destruct (Hq q Hm). auto.
    - exists q. rewrite lookup_insert_ne by done. auto using Z.le_refl. }
  split.
  - intros i q [[<- <-]|[_ Hm]]%lookup_insert_Some; eauto.
  - intros f Hf Ha. destruct (Hd f Hf Ha) as (q & Hm & Hle).
    destruct (Hmono _ _ Hm) as (q' & Hm' & Hint & Hdue). exists q'. split; [done|lia].
  - intros l1 f l2 g l3 -> Hfg Ha. destruct (Hs l1 f l2 g l3 eq_refl Hfg Ha) as (q & Hm & Hle).
    destruct (Hmono _ _ Hm) as (q' & Hm' & Hint & _). exists q'. split; [done|lia].
Qed.

(** One more firing of an item that is due. *)
Lemma history_ok_fire m log p now id adv :
  history_ok m log -> m !! sched_id p = Some p -> (sched_due p <= now)%Z -> clock_ok now ->
  history_ok (put_sched m (sched_advance p now) adv)
    (log ++ [mkFiring (sched_id p) now id adv]).
Proof.
  intros Hok Hm Hdue Hc. pose proof (h_item _ _ Hok _ _ Hm) as [_ Hv].
  pose proof (sched_interval_pos p Hv) as Hpos.
  assert (Hok' : history_ok (put_sched m (sched_advance p now) adv) log).
  { unfold put_sched. destruct adv; [|done]. apply history_ok_insert; [done|by apply advance_valid|].
    rewrite advance_id. intros q Hq. assert (q = p) as -> by congruence.
    rewrite advance_interval, advance_due by done. split; [done|lia]. }
  destruct Hok' as [Hi Hd Hs]. split; [done| |].
  - intros f [Hf| ->%list_elem_of_singleton]%elem_of_app Ha; [by apply Hd|]. cbn in Ha. subst adv.
    cbn. exists (sched_advance p now). rewrite <- (advance_id p now), lookup_insert_eq.
    split; [done|]. rewrite advance_interval, advance_due by done. lia.
  - intros l1 f l2 g l3 Heq Hfg Ha.
    destruct (decide (l3 = [])) as [->|Hl3].
    + rewrite (app_comm_cons l2 [g] f), (app_assoc l1 (f :: l2) [g]) in Heq.
      apply app_inj_tail in Heq as [Hlog <-]. cbn in *.
      assert (Hf : f ∈ log) by (rewrite Hlog; apply elem_of_app; right; by left).
      destruct (h_due _ _ Hok f Hf Ha) as (q & Hq & Hle).
      assert (q = p) as -> by congruence.
      unfold after_interval, put_sched. rewrite <- Hfg. destruct adv.
      * exists (sched_advance p now). rewrite <- (advance_id p now), lookup_insert_eq.
        split; [done|]. rewrite advance_interval. lia.
      * exists p. split; [done|lia].
    + destruct (exists_last Hl3) as (l3' & x & ->).
      apply (Hs l1 f l2 g l3'); [|done..].
      rewrite !app_comm_cons, !app_assoc in Heq.
      apply app_inj_tail in Heq as [-> _]. by rewrite <- !app_assoc.
Qed.
End history.

(** ** The loop *)

Section loop.
Context {P : Type} `{Scheduled P} `{!ScheduledLaws P}.

Definition keyed (m : gmap string P) : Prop := forall i p, m !! i = Some p -> sched_id p = i.

Lemma elem_of_ListSchedules (m : gmap string P) p :
  p ∈ ListSchedules m <-> exists i, m !! i = Some p.
Proof.
  unfold ListSchedules. rewrite merge_sort_Permutation. rewrite list_elem_of_fmap. split.
  - intros ([i q] & -> & Hq%elem_of_map_to_list). by exists i.
  - intros [i Hi]. exists (i, p). by rewrite elem_of_map_to_list.
Qed.

Lemma ListSchedules_NoDup (m : gmap string P) : keyed m -> NoDup (sched_id <$> ListSchedules m).
Proof.
  intros Hk. unfold ListSchedules. rewrite merge_sort_Permutation.
  replace (sched_id <$> (map_to_list m).*2) with (map_to_list m).*1;
    [apply NoDup_fst_map_to_list|].
  rewrite <- list_fmap_compose. apply list_fmap_ext. intros j [i p] Hj. cbn.
  symmetry. apply Hk. apply elem_of_map_to_list. by eapply list_elem_of_lookup_2.
Qed.

Lemma ListSchedules_lookup (m : gmap string P) p :
  keyed m -> p ∈ ListSchedules m -> m !! sched_id p = Some p.
Proof. intros Hk [i Hi]%elem_of_ListSchedules. by rewrite (Hk i p Hi). Qed.

Lemma fire_inv ts (m : gmap string P) p now env ts1 m1 l1 :
  fire ts m p now env = (ts1, m1, l1) ->
  (m1 = m /\ l1 = []) \/
  (m1 = put_sched m (sched_advance p now) (fe_advance_saved env) /\
   l1 = [mkFiring (sched_id p) now (fe_id env) (fe_advance_saved env)]).
Proof. unfold fire. destruct (PutTicket _ _ _ _) as [ts' [t|e]]; intros [= <- <- <-]; auto. Qed.

Lemma put_sched_other (m : gmap string P) p now adv i :
  i <> sched_id p -> put_sched m (sched_advance p now) adv !! i = m !! i.
Proof.
  intros Hne. unfold put_sched. destruct adv; [|done]. rewrite advance_id.
  by rewrite lookup_insert_ne.
Qed.

(** Both guards of the loop in one. *)
Lemma scan_loop_cons ts (m : gmap string P) p rest now env k :
  scan_loop ts m (p :: rest) now env k =
  if is_due now p then
    let '(ts1, m1, l1) := fire ts m p now (env k) in
    let '(ts2, m2, l2) := scan_loop ts1 m1 rest now env (S k) in (ts2, m2, l1 ++ l2)
  else scan_loop ts m rest now env (S k).
Proof. cbn [scan_loop]. unfold is_due. by destruct (sched_enabled p), (now <? sched_due p)%Z. Qed.

Lemma is_due_le now p : is_due now p = true -> (sched_due p <= now)%Z.
Proof. unfold is_due. intros [_ Hl%negb_true_iff]%andb_true_iff. by apply Z.ltb_ge in Hl. Qed.

Lemma scan_loop_history ps now env : clock_ok now -> NoDup (sched_id <$> ps) ->
  forall k ts (m : gmap string P) log, history_ok m log ->
  (forall p, p ∈ ps -> m !! sched_id p = Some p) ->
  forall ts' m' l, scan_loop ts m ps now env k = (ts', m', l) -> history_ok m' (log ++ l).
Proof.
  intros Hc. induction ps as [|p ps IH]; intros Hnd k ts m log Hok Hps ts' m' l.
  { intros [= <- <- <-]. by rewrite app_nil_r. }
  apply NoDup_cons in Hnd as [Hp Hnd]. rewrite scan_loop_cons.
  assert (Hrest : forall q, q ∈ ps -> m !! sched_id q = Some q) by (intros; apply Hps; by right).
  destruct (is_due now p) eqn:Ed; [|by apply IH].
  destruct (fire ts m p now (env k)) as [[ts1 m1] l1] eqn:Ef.
  destruct (scan_loop ts1 m1 ps now env (S k)) as [[ts2 m2] l2] eqn:El. intros [= <- <- <-].
  rewrite app_assoc.
  apply fire_inv in Ef as [[-> ->]|[-> ->]]; [rewrite app_nil_r; by eapply IH|].
  eapply IH; [done| | |exact El].
  - apply history_ok_fire; [done|apply Hps; by left|by apply is_due_le|done].
  - intros q Hq. rewrite put_sched_other; [by apply Hrest|]. intros Heq. apply Hp.
    rewrite <- Heq. by apply (list_elem_of_fmap_2 sched_id).
Qed.

Lemma scanTick_history ts (m : gmap string P) log locked now env ts' m' l :
  clock_ok now -> history_ok m log -> scanTick ts m locked now env = (ts', m', l) ->
  history_ok m' (log ++ l).
Proof.
  intros Hc Hok. unfold scanTick. destruct locked; cbn [negb].
  - assert (Hk : keyed m) by (intros i p Hp; by apply (h_item _ _ Hok)).
    apply scan_loop_history; [done|by apply ListSchedules_NoDup|done|].
    intros p. by apply ListSchedules_lookup.
  - intros [= <- <- <-]. by rewrite app_nil_r.
Qed.

Lemma sreachable_ok y : sreachable y -> history_ok (y_scheds y) (y_fired y).
Proof.
  induction 1 as [ts|y y' _ IH Hstep]; cbn.
  { split; [by intros i p ?%lookup_empty_Some|by intros f ?%elem_of_nil|].
    by intros [|? ?] ? ? ? ?. }
  destruct Hstep as [ts m log locked now env ts' m' l Hc E|ts m log p Hn Hv|]; cbn in *; [| |done].
  - by eapply scanTick_history.
  - apply history_ok_insert; [done|done|]. intros q Hq. congruence.
Qed.

(** *** A pass in which nothing fails *)

(** The ticket of an item as stored. *)
Definition stored_ticket (p : P) (now : time) (id : string) : Ticket :=
  with_version (sched_ticket p now id) 1.

Lemma PutTicket_fresh ts p now id : ts !! id = None ->
  PutTicket ts (sched_ticket p now id) 0 true =
  (<[id := stored_ticket p now id]> ts, Ok (stored_ticket p now id)).
Proof.
  intros Hn. destruct (ticket_manual p now id) as (Hid & Ha & _).
  unfold PutTicket, duplicate_active. rewrite Ha, Hid, Hn. done.
Qed.

Definition all_saved (env : nat -> fire_env) : Prop :=
  forall k, fe_put_saved (env k) = true /\ fe_advance_saved (env k) = true.

(** What the loop leaves behind: the due items of [ps] moved on, a ticket for
    each, everything else as it was. *)
Record scanned (ps : list P) (now : time) (ts : gmap string Ticket) (m : gmap string P)
    (ts' : gmap string Ticket) (m' : gmap string P) (l : list firing) : Prop := {
  sc_sched : forall i, m' !! i =
    (fun p => if bool_decide (p.1 ∈ sched_id <$> List.filter (is_due now) ps)
              then sched_advance p.2 now else p.2) <$> (pair i <$> m !! i);
  sc_fired : f_sched <$> l = sched_id <$> List.filter (is_due now) ps;
  sc_kept : ts ⊆ ts';
  sc_opened : forall f, f ∈ l -> exists p, p ∈ ps /\ is_due now p = true /\
    f_sched f = sched_id p /\ f_at f = now /\ f_advanced f = true /\
    ts' !! f_ticket f = Some (stored_ticket p now (f_ticket f));
  sc_only : forall i t, ts' !! i = Some t -> ts !! i = Some t \/ exists f, f ∈ l /\ f_ticket f = i }.

Lemma scan_loop_scanned ps now env : all_saved env ->
  (forall i j, fe_id (env i) = fe_id (env j) -> i = j) -> NoDup (sched_id <$> ps) ->
  forall k ts (m : gmap string P), (forall j, k <= j -> ts !! fe_id (env j) = None) ->
  (forall p, p ∈ ps -> m !! sched_id p = Some p) ->
  forall ts' m' l, scan_loop ts m ps now env k = (ts', m', l) -> scanned ps now ts m ts' m' l.
Proof.
  intros Hsav Hinj. induction ps as [|p ps IH]; intros Hnd k ts m Hfresh Hps ts' m' l.
  { intros [= <- <- <-]. split; cbn; [|done|done|by intros f ?%elem_of_nil|by left].
    intros i. by destruct (m !! i). }
  apply NoDup_cons in Hnd as [Hp Hnd]. rewrite scan_loop_cons.
  assert (Hrest : forall q, q ∈ ps -> m !! sched_id q = Some q) by (intros; apply Hps; by right).
  cbn [List.filter]. destruct (is_due now p) eqn:Ed.
  2: { intros E. destruct (IH Hnd (S k) ts m ltac:(intros; apply Hfresh; lia) Hrest _ _ _ E)
         as [H1 H2 H3 H4 H5].
       split; cbn [List.filter]; rewrite ?Ed; [done..| |done].
       intros f (q & Hq & Hr)%H4. exists q. split; [by right|done]. }
  destruct (Hsav k) as [Hs1 Hs2]. unfold fire.
  rewrite Hs1, (PutTicket_fresh ts p now _ (Hfresh k (le_n k))), Hs2.
  set (ts1 := <[_ := _]> ts). set (m1 := put_sched m _ true).
  destruct (scan_loop ts1 m1 ps now env (S k)) as [[ts2 m2] l2] eqn:El. intros [= <- <- <-].
  assert (Hm1p : m1 !! sched_id p = Some (sched_advance p now))
    by (unfold m1, put_sched; rewrite advance_id; apply lookup_insert_eq).
  assert (Hm1 : forall i, i <> sched_id p -> m1 !! i = m !! i)
    by (intros i Hi; by apply put_sched_other).
  edestruct (IH Hnd (S k) ts1 m1) as [H1 H2 H3 H4 H5]; [| |exact El|].
  { intros j Hj. unfold ts1. rewrite lookup_insert_ne; [apply Hfresh; lia|].
    intros Heq%Hinj. lia. }
  { intros q Hq. rewrite Hm1; [by apply Hrest|]. intros Heq. apply Hp. rewrite <- Heq.
    by apply list_elem_of_fmap_2. }
  assert (Hsub : ts ⊆ ts1) by (by apply insert_subseteq, Hfresh).
  split; cbn [List.filter]; rewrite ?Ed.
  - intros i. rewrite H1. destruct (decide (i = sched_id p)) as [->|Hne].
    + rewrite Hm1p, (Hps p) by (by left). cbn [fmap option_fmap option_map fst snd].
      rewrite bool_decide_eq_false_2, bool_decide_eq_true_2; [done|by left|].
      intros (q & Heq & Hq%list_elem_of_In)%list_elem_of_fmap.
      apply filter_In in Hq as [Hq%list_elem_of_In _]. apply Hp. cbn in Heq. rewrite Heq.
      by apply (list_elem_of_fmap_2 sched_id).
    + rewrite Hm1 by done.
      assert (Hext : bool_decide (i ∈ sched_id <$> p :: List.filter (is_due now) ps) =
        bool_decide (i ∈ sched_id <$> List.filter (is_due now) ps)).
      { apply bool_decide_ext. rewrite fmap_cons, elem_of_cons.
        split; [intros [?|?]; done|by right]. }
      destruct (m !! i) as [q|]; [|done]. cbn in Hext |- *. by rewrite Hext.
  - cbn. by rewrite H2.
  - by etrans.
  - intros f [->|Hf]%elem_of_cons.
    + exists p. split_and!; [by left|done..|]. cbn.
      eapply lookup_weaken; [|exact H3]. apply lookup_insert_eq.
    + destruct (H4 f Hf) as (q & Hq & Hr). exists q. split; [by right|done].
  - intros i t [Ht|(f & Hf & <-)]%H5; [|right; exists f; split; [by right|done]].
    unfold ts1 in Ht. apply lookup_insert_Some in Ht as [[<- <-]|[_ Ht]]; [|by left].
    right. eexists. split; [by left|done].
Qed.
End loop.

(** ** Theorems *)

Section theorems.
Context {P : Type} `{Scheduled P} `{!ScheduledLaws P}.

(** Spacing: in any history of passes, creations and other changes of the
    ticket table, whatever the saves do, two tickets opened for the same item
    are at least the item's interval apart, provided the item's next date was
    saved with the earlier of them. *)
Lemma tickets_spaced y l1 f l2 g l3 :
  sreachable y -> y_fired y = l1 ++ f :: l2 ++ g :: l3 -> f_sched g = f_sched f ->
  f_advanced f = true ->
  exists p, y_scheds y !! f_sched f = Some p /\ (f_at f + sched_interval p <= f_at g)%Z.
Proof. intros Hy Hlog. by apply (h_spaced _ _ (sreachable_ok y Hy) l1 f l2 g l3). Qed.

(** A pass in which the lock is held, every save succeeds and every minted
    ticket id is new moves exactly the enabled items that are due to their next
    date, opens exactly one ticket for each of them, and leaves every other
    item and every ticket of the table as it was. *)
Lemma scan_exact ts (m : gmap string P) now env ts' m' l :
  keyed m -> all_saved env -> (forall i j, fe_id (env i) = fe_id (env j) -> i = j) ->
  (forall j, ts !! fe_id (env j) = None) ->
  scanTick ts m true now env = (ts', m', l) ->
  m' = (fun p => if is_due now p then sched_advance p now else p) <$> m /\
  f_sched <$> l = sched_id <$> List.filter (is_due now) (ListSchedules m) /\
  (forall p i, m !! i = Some p -> is_due now p = true -> exists f, f ∈ l /\ f_sched f = i /\
     ts' !! f_ticket f = Some (stored_ticket p now (f_ticket f))) /\
  ts ⊆ ts' /\
  (forall i t, ts' !! i = Some t -> ts !! i = Some t \/ exists f, f ∈ l /\ f_ticket f = i).
Proof.
  intros Hk Hsav Hinj Hfresh E.
  destruct (scan_loop_scanned (ListSchedules m) now env Hsav Hinj (ListSchedules_NoDup m Hk) 0
    ts m (fun j _ => Hfresh j) (fun p => ListSchedules_lookup m p Hk) ts' m' l E)
    as [H1 H2 H3 H4 H5].
  assert (Hin : forall p i, m !! i = Some p ->
    i ∈ sched_id <$> List.filter (is_due now) (ListSchedules m) <-> is_due now p = true).
  { intros p i Hp. rewrite list_elem_of_fmap. split.
    - intros (q & -> & [Hq%list_elem_of_In Hd]%list_elem_of_In%filter_In).
      apply ListSchedules_lookup in Hq; [|done]. congruence.
    - intros Hd. exists p. split; [symmetry; by apply Hk|].
      apply list_elem_of_In, filter_In. split; [|done].
      apply list_elem_of_In, elem_of_ListSchedules. by exists i. }
  split_and!; [|done| |done|done].
  - apply map_eq. intros i. rewrite H1, lookup_fmap. destruct (m !! i) as [p|] eqn:Hp; [|done].
    cbn. f_equal. pose proof (Hin p i Hp) as Hi.
    case_bool_decide as Hc; destruct (is_due now p); try done; exfalso;
      [by apply Hi in Hc|by apply Hc, Hi].
  - intros p i Hp Hd. pose proof (proj2 (Hin p i Hp) Hd) as Hi. rewrite <- H2 in Hi.
    apply list_elem_of_fmap in Hi as (f & Hf & Hfl). exists f. split; [done|]. split; [done|].
    destruct (H4 f Hfl) as (q & Hq & _ & Hqi & _ & _ & Ht).
    assert (q = p) as ->; [|done]. apply ListSchedules_lookup in Hq; [|done].
    rewrite <- Hqi, <- Hf in Hq. congruence.
Qed.
End theorems.

(** ** Concrete histories *)

Definition demo_now : time := 63849600000 * Second.
Definition demo_pm : PMSchedule :=
  mkPM "pm_A" "fra01.pod002" "calendar" 30 None demo_now "filters" "minor" true.
Definition demo_env (k : nat) : fire_env := mkFire ("tk_" +:+ pretty k) true true.

Lemma demo_env_inj i j : fe_id (demo_env i) = fe_id (demo_env j) -> i = j.
Proof. cbn. intros Hs. by apply (inj (String.append "tk_")), (inj pretty) in Hs. Qed.

Lemma scan_exact_witness :
  (scanTick ∅ {[ "pm_A" := demo_pm ]} true demo_now demo_env).1.2 =
  {[ "pm_A" := sched_advance demo_pm demo_now ]}.
Proof.
  destruct (scanTick ∅ {[ "pm_A" := demo_pm ]} true demo_now demo_env) as [[ts' m'] l] eqn:E.
  apply scan_exact in E as [-> _]; [by vm_compute|..].
  - intros i p [<- <-]%lookup_singleton_Some. done.
  - intros k. split; reflexivity.
  - apply demo_env_inj.
  - intros j. apply lookup_empty.
Defined.

(** Two passes thirty days apart. *)
Definition demo_later : time := demo_now + 30 * day_seconds * Second.

Lemma demo_sreachable : exists y : @ssys PMSchedule, sreachable y /\
  y_fired y = [mkFiring "pm_A" demo_now "tk_0" true; mkFiring "pm_A" demo_later "tk_1" true].
Proof.
  eexists. split.
  - eapply sr_step; [eapply sr_step; [eapply sr_step; [apply (sr_init ∅)|]|]|].
    + apply (ss_create _ _ _ demo_pm); [apply lookup_empty|]. split; vm_compute; [reflexivity|discriminate].
    + apply (ss_tick _ _ _ true demo_now demo_env); [split; vm_compute; [discriminate|reflexivity]|]. vm_compute. reflexivity.
    + apply (ss_tick _ _ _ true demo_later (fun k => demo_env (S k)));
        [split; vm_compute; [discriminate|reflexivity]|].
      vm_compute. reflexivity.
  - reflexivity.
Qed.

Lemma tickets_spaced_witness : exists p : PMSchedule,
  (demo_now + sched_interval p <= demo_later)%Z.
Proof.
  destruct demo_sreachable as (y & Hy & Hlog).
  destruct (tickets_spaced y [] (mkFiring "pm_A" demo_now "tk_0" true) []
    (mkFiring "pm_A" demo_later "tk_1" true) [] Hy Hlog eq_refl eq_refl) as (p & _ & Hp).
  exists p. exact Hp.
Defined.

(** No upper bound is placed on the number of days: for this one the date wraps
    around to seven hours before the creation, so the item is due at once and
    stays due, and every pass opens another ticket. *)
Definition wrap_days : Z := 213503982334601.

Example demo_days_wrap :
  match servePMSchedulesCreate ∅ open_meter None
    (Some (mkPMCreate "fra01.pod002" EmptyString wrap_days "filters" "minor" None))
    demo_now "pm_W" true with
  | (_, _, Ok p) => sched_due p = (demo_now - 25216 * Second)%Z /\
      is_due demo_now p = true /\ is_due demo_now (sched_advance p demo_now) = true
  | _ => False
  end.
Proof. vm_compute. repeat split. Qed.

(** A failed save of the next date lets the following pass open the ticket
    again. *)
Example demo_double_fire :
  let '(ts1, m1, l1) := scanTick ∅ {[ "pm_A" := demo_pm ]} true demo_now
    (fun k => mkFire ("tk_" +:+ pretty k) true false) in
  let '(ts2, m2, l2) := scanTick ts1 m1 true (demo_now + Hour) (fun k => demo_env (S k)) in
  (length l1, length l2, size ts2) = (1, 1, 2).
Proof. vm_compute. reflexivity. Qed.
