(* ===== verification/Registry.v ===== *)
(** * Tenants, organisations, sites and role bindings (core/store.go,
      core/tenants_http.go, tenants_admin_http.go, orgs_http.go, siteorg_http.go,
      rolebindings_http.go, tenant.go)

    The administrative registry of the file store with its audit log, and the
    handlers that change it.  A handler that first reads (existence, tenant of
    the row) and then writes under the store's lock again is two definitions;
    [rstep] interleaves the halves of different requests.  The theorems are
    the referential integrity of the registry, that every change is audited
    under the name of the acting principal, that tiers only go up, and that a
    request which carries a tenant changes only organisations of that tenant. *)
From S2P Require Import Prelude GoTime RBAC Http Routes.
Open Scope string_scope.
Open Scope list_scope.

(** ** Data *)

Record Tenant : Type := mkTenant {
  tn_ID : string; tn_DisplayName : string; tn_IsolationTier : string; tn_Status : string;
  tn_CreatedAt : time; tn_UpdatedAt : time }.

Record Org : Type := mkOrg {
  og_ID : string; og_TenantID : string; og_Name : string; og_CreatedAt : time }.

Record SiteOrg : Type := mkSiteOrg {
  so_Site : string; so_OrgID : string; so_CreatedAt : time; so_UpdatedAt : time }.

Record RoleBinding : Type := mkBinding {
  rb_ID : string; rb_Subject : string; rb_Scope : string; rb_Origin : string;
  rb_CreatedAt : time; rb_UpdatedAt : time }.

Record TenantAudit : Type := mkTAudit {
  ta_ID : string; ta_TS : time; ta_Principal : string; ta_TenantID : string;
  ta_Op : string; ta_Detail : string }.

Record registry : Type := mkReg {
  rg_tenants : gmap string Tenant;
  rg_orgs : gmap string Org;
  rg_siteOrgs : gmap string SiteOrg;
  rg_bindings : list RoleBinding;
  rg_auds : list TenantAudit }.

(** What a write takes from outside: the clock, the minted ids and whether the
    save succeeds. *)
Record wenv : Type := mkWenv {
  we_now : time; we_id : string; we_aud : string; we_aud2 : string; we_saved : bool }.

Inductive reg_err : Type :=
  | ErrTenantExists | ErrOrgNameConflict | ErrOrgOwnsResources | ErrTenantOwnsOrgs
  | ErrTierDowngrade | tenantTierValidationError | siteSlugError | siteOrgNotFoundError
  | ErrInvalidSlug | ErrDisplayName | ErrRegNotFound | ErrTenantNotFound | ErrBindingFields
  | ErrRegSave.

(** ** Slugs *)

Definition slug_byte (c : ascii) : bool := is_lower c || is_digit c || byte_eqb c "-".

Definition validTenantSlug (s : string) : bool :=
  if (str_len s <? 2)%nat || (31 <? str_len s)%nat then false
  else match s with
  | String c rest => if negb (is_lower c) then false else all_bytes slug_byte rest
  | EmptyString => false
  end.

Definition validSiteSlug (s : string) : bool :=
  if (str_len s <? 4)%nat || (10 <? str_len s)%nat then false
  else
    let letters := String.substring 0 (str_len s - 2) s in
    let digits := String.substring (str_len s - 2) 2 s in
    if negb (all_bytes is_digit digits) then false
    else if str_eqb digits "00" then false
    else all_bytes is_lower letters.

(** ** The store *)

Definition audit (env : wenv) (principal tenant op detail : string) : TenantAudit :=
  mkTAudit (we_aud env) (we_now env) principal tenant op detail.

(** [s.tenantAuds = append(s.tenantAuds, a)] and, after a failed save, the
    truncation [s.tenantAuds[:prevAudLen]]. *)
Definition truncate {A} (prev now : list A) : list A := take (length prev) now.

Definition with_tenants (rg : registry) (m : gmap string Tenant) (auds : list TenantAudit) :=
  mkReg m (rg_orgs rg) (rg_siteOrgs rg) (rg_bindings rg) auds.
Definition with_orgs (rg : registry) (m : gmap string Org) (auds : list TenantAudit) :=
  mkReg (rg_tenants rg) m (rg_siteOrgs rg) (rg_bindings rg) auds.
Definition with_sites (rg : registry) (m : gmap string SiteOrg) (auds : list TenantAudit) :=
  mkReg (rg_tenants rg) (rg_orgs rg) m (rg_bindings rg) auds.
Definition with_bindings (rg : registry) (l : list RoleBinding) :=
  mkReg (rg_tenants rg) (rg_orgs rg) (rg_siteOrgs rg) l (rg_auds rg).

(** A loop over a map that looks for a row. *)
Definition some_row {A} (p : A -> bool) (m : gmap string A) : bool :=
  existsb (fun kv => p kv.2) (map_to_list m).

Definition CreateTenant (rg : registry) (id displayName principal : string) (env : wenv) :
    registry * result reg_err (Tenant * Org) :=
  let id := TrimSpace id in
  let displayName := TrimSpace displayName in
  if negb (validTenantSlug id) then (rg, Err ErrInvalidSlug)
  else if str_eqb displayName EmptyString then (rg, Err ErrDisplayName)
  else
    match rg_tenants rg !! id with
    | Some _ => (rg, Err ErrTenantExists)
    | None =>
        let now := we_now env in
        let t := mkTenant id displayName "label" "active" now now in
        let o := mkOrg (we_id env) id "default" now in
        let auds := rg_auds rg ++
          [mkTAudit (we_aud env) now principal id "tenant_create" displayName;
           mkTAudit (we_aud2 env) now principal id "org_create"
             (og_ID o +:+ ":" +:+ og_Name o)] in
        let rg' := mkReg (<[id := t]> (rg_tenants rg)) (<[og_ID o := o]> (rg_orgs rg))
          (rg_siteOrgs rg) (rg_bindings rg) auds in
        if we_saved env then (rg', Ok (t, o))
        else (mkReg (delete id (rg_tenants rg')) (delete (og_ID o) (rg_orgs rg'))
                (rg_siteOrgs rg) (rg_bindings rg) (truncate (rg_auds rg) auds), Err ErrRegSave)
    end.

Definition CreateOrg (rg : registry) (tenantID name principal : string) (env : wenv) :
    registry * result reg_err Org :=
  if negb (validTenantSlug name) then (rg, Err ErrInvalidSlug)
  else
    match rg_tenants rg !! tenantID with
    | None => (rg, Err ErrTenantNotFound)
    | Some _ =>
        if some_row (fun o => str_eqb (og_TenantID o) tenantID && str_eqb (og_Name o) name)
             (rg_orgs rg)
        then (rg, Err ErrOrgNameConflict)
        else
          let o := mkOrg (we_id env) tenantID name (we_now env) in
          let auds := rg_auds rg ++
            [audit env principal tenantID "org_create" (og_ID o +:+ ":" +:+ name)] in
          let m := <[og_ID o := o]> (rg_orgs rg) in
          if we_saved env then (with_orgs rg m auds, Ok o)
          else (with_orgs rg (delete (og_ID o) m) (truncate (rg_auds rg) auds), Err ErrRegSave)
    end.

Definition RenameOrg (rg : registry) (id newName principal : string) (env : wenv) :
    registry * result reg_err unit :=
  if negb (validTenantSlug newName) then (rg, Err ErrInvalidSlug)
  else
    match rg_orgs rg !! id with
    | None => (rg, Err ErrRegNotFound)
    | Some prev =>
        if str_eqb (og_Name prev) newName then (rg, Ok tt)
        else if some_row (fun o => str_eqb (og_TenantID o) (og_TenantID prev) &&
                  str_eqb (og_Name o) newName && negb (str_eqb (og_ID o) id)) (rg_orgs rg)
        then (rg, Err ErrOrgNameConflict)
        else
          let updated := mkOrg (og_ID prev) (og_TenantID prev) newName (og_CreatedAt prev) in
          let auds := rg_auds rg ++ [audit env principal (og_TenantID prev) "org_rename"
            (og_Name prev +:+ "→" +:+ newName)] in
          let m := <[id := updated]> (rg_orgs rg) in
          if we_saved env then (with_orgs rg m auds, Ok tt)
          else (with_orgs rg (<[id := prev]> m) (truncate (rg_auds rg) auds), Err ErrRegSave)
    end.

Definition DeleteOrg (rg : registry) (id principal : string) (env : wenv) :
    registry * result reg_err unit :=
  match rg_orgs rg !! id with
  | None => (rg, Err ErrRegNotFound)
  | Some prev =>
      if some_row (fun so => str_eqb (so_OrgID so) id) (rg_siteOrgs rg)
      then (rg, Err ErrOrgOwnsResources)
      else
        let auds := rg_auds rg ++
          [audit env principal (og_TenantID prev) "org_delete" (og_Name prev)] in
        let m := delete id (rg_orgs rg) in
        if we_saved env then (with_orgs rg m auds, Ok tt)
        else (with_orgs rg (<[id := prev]> m) (truncate (rg_auds rg) auds), Err ErrRegSave)
  end.

Definition tenantTierRank (tier : string) : option Z :=
  if str_eqb tier "label" then Some 0%Z
  else if str_eqb tier "row" then Some 1%Z
  else if str_eqb tier "db" then Some 2%Z
  else None.

Definition UpdateTenantTier (rg : registry) (id target principal : string) (env : wenv) :
    registry * result reg_err unit :=
  match tenantTierRank target with
  | None => (rg, Err tenantTierValidationError)
  | Some targetRank =>
      match rg_tenants rg !! id with
      | None => (rg, Err ErrRegNotFound)
      | Some t =>
          match tenantTierRank (tn_IsolationTier t) with
          | None => (rg, Err ErrRegNotFound)
          | Some curRank =>
              if (targetRank =? curRank)%Z then (rg, Ok tt)
              else if (targetRank <? curRank)%Z then
                let auds := rg_auds rg ++ [audit env principal id "tier_change"
                  (tn_IsolationTier t +:+ "→" +:+ target +:+ " REFUSED")] in
                if we_saved env then (with_tenants rg (rg_tenants rg) auds, Err ErrTierDowngrade)
                else (with_tenants rg (rg_tenants rg) (truncate (rg_auds rg) auds),
                      Err ErrRegSave)
              else
                let t' := mkTenant (tn_ID t) (tn_DisplayName t) target (tn_Status t)
                  (tn_CreatedAt t) (we_now env) in
                let m := <[id := t']> (rg_tenants rg) in
                let auds := rg_auds rg ++ [audit env principal id "tier_change"
                  (tn_IsolationTier t +:+ "→" +:+ target)] in
                if we_saved env then (with_tenants rg m auds, Ok tt)
                else (with_tenants rg (<[id := t]> m) (truncate (rg_auds rg) auds),
                      Err ErrRegSave)
          end
      end
  end.

Definition AttachSiteToOrg (rg : registry) (site orgID principal : string) (env : wenv) :
    registry * result reg_err unit :=
  if negb (validSiteSlug site) then (rg, Err siteSlugError)
  else
    match rg_orgs rg !! orgID with
    | None => (rg, Err siteOrgNotFoundError)
    | Some o =>
        let cur := rg_siteOrgs rg !! site in
        if match cur with Some c => str_eqb (so_OrgID c) orgID | None => false end
        then (rg, Ok tt)
        else
          let now := we_now env in
          let detail := match cur with
            | Some c => site +:+ ": " +:+ so_OrgID c +:+ "→" +:+ orgID
            | None => site +:+ "→" +:+ orgID
            end in
          let updated := mkSiteOrg site orgID
            (match cur with Some c => so_CreatedAt c | None => now end) now in
          let m := <[site := updated]> (rg_siteOrgs rg) in
          let auds := rg_auds rg ++ [audit env principal (og_TenantID o) "org_reattach" detail] in
          if we_saved env then (with_sites rg m auds, Ok tt)
          else (with_sites rg
                  (match cur with Some c => <[site := c]> m | None => delete site m end)
                  (truncate (rg_auds rg) auds), Err ErrRegSave)
    end.

Definition DetachSiteFromOrg (rg : registry) (site principal : string) (env : wenv) :
    registry * result reg_err unit :=
  match rg_siteOrgs rg !! site with
  | None => (rg, Err ErrRegNotFound)
  | Some cur =>
      let tenantID := match rg_orgs rg !! so_OrgID cur with
        | Some o => og_TenantID o | None => EmptyString end in
      let m := delete site (rg_siteOrgs rg) in
      let auds :=
        if negb (str_eqb tenantID EmptyString)
        then rg_auds rg ++ [audit env principal tenantID "org_reattach"
               (site +:+ ": " +:+ so_OrgID cur +:+ "→")]
        else rg_auds rg in
      if we_saved env then (with_sites rg m auds, Ok tt)
      else (with_sites rg (<[site := cur]> m) (truncate (rg_auds rg) auds), Err ErrRegSave)
  end.

Definition DeleteTenant (rg : registry) (id principal : string) (env : wenv) :
    registry * result reg_err unit :=
  match rg_tenants rg !! id with
  | None => (rg, Err ErrRegNotFound)
  | Some prev =>
      if some_row (fun o => str_eqb (og_TenantID o) id) (rg_orgs rg)
      then (rg, Err ErrTenantOwnsOrgs)
      else
        let m := delete id (rg_tenants rg) in
        let auds := rg_auds rg ++ [audit env principal id "tenant_status" "deleted"] in
        if we_saved env then (with_tenants rg m auds, Ok tt)
        else (with_tenants rg (<[id := prev]> m) (truncate (rg_auds rg) auds), Err ErrRegSave)
  end.

(** The loop of [PutRoleBinding]: the first row with the subject and scope is
    updated in place; [None] when there is none. *)
Fixpoint update_binding (l : list RoleBinding) (rb : RoleBinding) (now : time) :
    option (list RoleBinding) :=
  match l with
  | [] => None
  | existing :: rest =>
      if str_eqb (rb_Subject existing) (rb_Subject rb) &&
         str_eqb (rb_Scope existing) (rb_Scope rb)
      then Some (mkBinding (rb_ID existing) (rb_Subject existing) (rb_Scope existing)
                   (rb_Origin rb)
                   (if IsZero (rb_CreatedAt existing) then now else rb_CreatedAt existing) now
                 :: rest)
      else cons existing <$> update_binding rest rb now
  end.

Definition PutRoleBinding (rg : registry) (rb : RoleBinding) (env : wenv) :
    registry * result reg_err unit :=
  if str_eqb (rb_Subject rb) EmptyString || str_eqb (rb_Scope rb) EmptyString
  then (rg, Err ErrBindingFields)
  else
    let origin := if str_eqb (rb_Origin rb) EmptyString then "legacy" else rb_Origin rb in
    let id := if str_eqb (rb_ID rb) EmptyString then we_id env else rb_ID rb in
    let now := we_now env in
    let rb := mkBinding id (rb_Subject rb) (rb_Scope rb) origin (rb_CreatedAt rb)
      (rb_UpdatedAt rb) in
    match update_binding (rg_bindings rg) rb now with
    | Some l =>
        if we_saved env then (with_bindings rg l, Ok tt)
        else (with_bindings rg (rg_bindings rg), Err ErrRegSave)
    | None =>
        let rb := mkBinding id (rb_Subject rb) (rb_Scope rb) origin
          (if IsZero (rb_CreatedAt rb) then now else rb_CreatedAt rb) now in
        let l := rg_bindings rg ++ [rb] in
        if we_saved env then (with_bindings rg l, Ok tt)
        else (with_bindings rg (truncate (rg_bindings rg) l), Err ErrRegSave)
    end.

(** The loop of [DeleteRoleBinding]: the rows before and after the first match. *)
Fixpoint cut_binding (l : list RoleBinding) (subject scope : string) :
    option (list RoleBinding * RoleBinding * list RoleBinding) :=
  match l with
  | [] => None
  | existing :: rest =>
      if negb (str_eqb (rb_Subject existing) subject) || negb (str_eqb (rb_Scope existing) scope)
      then (fun '(a, x, b) => (existing :: a, x, b)) <$> cut_binding rest subject scope
      else Some ([], existing, rest)
  end.

Definition DeleteRoleBinding (rg : registry) (subject scope : string) (saved : bool) :
    registry * result reg_err unit :=
  if str_eqb subject EmptyString || str_eqb scope EmptyString then (rg, Err ErrBindingFields)
  else
    match cut_binding (rg_bindings rg) subject scope with
    | None => (rg, Ok tt)
    | Some (before, existing, after) =>
        if saved then (with_bindings rg (before ++ after), Ok tt)
        else (with_bindings rg (before ++ existing :: after), Err ErrRegSave)
    end.

(** ** Handlers

    [auth] is the principal and [tenant] the tenant of the request's context.
    A body that cannot be read or decoded is [None]. *)

Definition subject_of (auth : option Principal) : string :=
  match auth with Some p => p_Subject p | None => EmptyString end.

Definition scope_mismatch : problem :=
  Problem 403 "tenant-scope-mismatch" "tenant scope mismatch".

(** [tid, ok := TenantFromContext(ctx); ok && owner != tid] *)
Definition foreign (tenant : option string) (owner : string) : bool :=
  match tenant with Some tid => negb (str_eqb owner tid) | None => false end.

Definition serveTenantsCreate (rg : registry) (auth : option Principal) (tenant : option string)
    (body : option (string * string)) (env : wenv) : registry * result problem (Tenant * Org) :=
  if negb (requireOrgAdmin auth) then (rg, Err not_admin)
  else match tenant with
  | Some _ => (rg, Err (Problem 403 "tenant-scope-mismatch"
                          "platform admin required to create tenants"))
  | None =>
      match body with
      | None => (rg, Err (bad_request "bad json"))
      | Some (rid, rname) =>
          let id := TrimSpace rid in
          let name := TrimSpace rname in
          if str_eqb id EmptyString || str_eqb name EmptyString
          then (rg, Err (bad_request "id and display_name required"))
          else if negb (validTenantSlug id) then (rg, Err (bad_request "bad slug"))
          else
            match CreateTenant rg id name (subject_of auth) env with
            | (rg', Ok r) => (rg', Ok r)
            | (rg', Err ErrTenantExists) =>
                (rg', Err (Problem 409 "tenant-exists" "tenant already exists"))
            | (rg', Err ErrInvalidSlug) => (rg', Err (bad_request "bad slug"))
            | (rg', Err ErrDisplayName) => (rg', Err (bad_request "display_name required"))
            | (rg', Err _) => (rg', Err store_error)
            end
      end
  end.

Definition serveOrgsCreate (rg : registry) (auth : option Principal) (tenant : option string)
    (body : option (string * string)) (env : wenv) : registry * result problem Org :=
  if negb (requireOrgAdmin auth) then (rg, Err not_admin)
  else match body with
  | None => (rg, Err (bad_request "bad json"))
  | Some (tenantID, name) =>
      if str_eqb tenantID EmptyString then (rg, Err (bad_request "missing tenant_id"))
      else if str_eqb name EmptyString then (rg, Err (bad_request "missing name"))
      else if negb (validTenantSlug name) then (rg, Err (bad_request "bad slug"))
      else if foreign tenant tenantID then (rg, Err scope_mismatch)
      else
        match CreateOrg rg tenantID name (subject_of auth) env with
        | (rg', Ok o) => (rg', Ok o)
        | (rg', Err ErrOrgNameConflict) =>
            (rg', Err (Problem 409 "org-name-conflict" "org name already exists in tenant"))
        | (rg', Err ErrTenantNotFound) =>
            (rg', Err (Problem 404 "path-not-found" "tenant not found"))
        | (rg', Err ErrInvalidSlug) => (rg', Err (bad_request "bad slug"))
        | (rg', Err _) => (rg', Err store_error)
        end
  end.

Definition org_not_found : problem := Problem 404 "path-not-found" "org not found".
Definition tenant_not_found : problem := Problem 404 "path-not-found" "tenant not found".

(** What the read half of rename and delete checks. *)
Definition org_read (rg : registry) (auth : option Principal) (tenant : option string)
    (id : string) : result problem Org :=
  if negb (requireOrgAdmin auth) then Err not_admin
  else match rg_orgs rg !! id with
  | None => Err org_not_found
  | Some o => if foreign tenant (og_TenantID o) then Err scope_mismatch else Ok o
  end.

Definition serveOrgGet := org_read.

Definition rename_read (rg : registry) (auth : option Principal) (tenant : option string)
    (id : string) (body : option string) : result problem string :=
  match org_read rg auth tenant id with
  | Err e => Err e
  | Ok _ =>
      match body with
      | None => Err (bad_request "bad json")
      | Some name =>
          if str_eqb name EmptyString then Err (bad_request "missing name")
          else if negb (validTenantSlug name) then Err (bad_request "bad slug")
          else Ok name
      end
  end.

Definition rename_write (rg : registry) (auth : option Principal) (id name : string)
    (env : wenv) : registry * result problem (option Org) :=
  match RenameOrg rg id name (subject_of auth) env with
  | (rg', Ok _) => (rg', Ok (rg_orgs rg' !! id))
  | (rg', Err ErrOrgNameConflict) =>
      (rg', Err (Problem 409 "org-name-conflict" "org name already exists in tenant"))
  | (rg', Err ErrRegNotFound) => (rg', Err org_not_found)
  | (rg', Err ErrInvalidSlug) => (rg', Err (bad_request "bad slug"))
  | (rg', Err _) => (rg', Err store_error)
  end.

Definition serveOrgRename (rg : registry) (auth : option Principal) (tenant : option string)
    (id : string) (body : option string) (env : wenv) :
    registry * result problem (option Org) :=
  match rename_read rg auth tenant id body with
  | Err e => (rg, Err e)
  | Ok name => rename_write rg auth id name env
  end.

Definition delete_write (rg : registry) (auth : option Principal) (id : string) (env : wenv) :
    registry * result problem unit :=
  match DeleteOrg rg id (subject_of auth) env with
  | (rg', Ok _) => (rg', Ok tt)
  | (rg', Err ErrOrgOwnsResources) =>
      (rg', Err (Problem 409 "org-owns-resources" "org owns resources"))
  | (rg', Err ErrRegNotFound) => (rg', Err org_not_found)
  | (rg', Err _) => (rg', Err store_error)
  end.

Definition serveOrgDelete (rg : registry) (auth : option Principal) (tenant : option string)
    (id : string) (env : wenv) : registry * result problem unit :=
  match org_read rg auth tenant id with
  | Err e => (rg, Err e)
  | Ok _ => delete_write rg auth id env
  end.

(** The body of a tier change: empty, not decodable, or a tier. *)
Inductive tier_body : Type := TierEmpty | TierBadJSON | TierWanted (tier : string).

Definition tier_read (rg : registry) (auth : option Principal) (id : string) (body : tier_body) :
    result problem string :=
  if negb (requireOrgAdmin auth) then Err not_admin
  else match body with
  | TierEmpty => Err (bad_request "empty body")
  | TierBadJSON => Err (bad_request "bad json")
  | TierWanted tier =>
      if str_eqb tier EmptyString then Err (bad_request "isolation_tier required")
      else match rg_tenants rg !! id with
      | None => Err tenant_not_found
      | Some _ => Ok tier
      end
  end.

Definition tier_write (rg : registry) (auth : option Principal) (id tier : string)
    (env : wenv) : registry * result problem (option Tenant) :=
  match UpdateTenantTier rg id tier (subject_of auth) env with
  | (rg', Ok _) => (rg', Ok (rg_tenants rg' !! id))
  | (rg', Err ErrTierDowngrade) =>
      (rg', Err (Problem 409 "tier-downgrade" "isolation_tier downgrade refused"))
  | (rg', Err tenantTierValidationError) => (rg', Err (bad_request "bad isolation_tier"))
  | (rg', Err ErrRegNotFound) => (rg', Err tenant_not_found)
  | (rg', Err _) => (rg', Err store_error)
  end.

Definition serveTenantTier (rg : registry) (auth : option Principal) (id : string)
    (body : tier_body) (env : wenv) : registry * result problem (option Tenant) :=
  match tier_read rg auth id body with
  | Err e => (rg, Err e)
  | Ok tier => tier_write rg auth id tier env
  end.

Definition tenant_delete_read (rg : registry) (auth : option Principal) (tenant : option string)
    (rid : string) : result problem string :=
  if negb (requireOrgAdmin auth) then Err not_admin
  else match tenant with
  | Some _ => Err (Problem 403 "tenant-scope-mismatch" "platform admin required to delete tenants")
  | None =>
      let id := TrimSpace rid in
      if str_eqb id EmptyString then Err (bad_request "missing id")
      else match rg_tenants rg !! id with
      | None => Err tenant_not_found
      | Some _ => Ok id
      end
  end.

Definition tenant_delete_write (rg : registry) (auth : option Principal) (id : string)
    (env : wenv) : registry * result problem unit :=
  match DeleteTenant rg id (subject_of auth) env with
  | (rg', Ok _) => (rg', Ok tt)
  | (rg', Err ErrTenantOwnsOrgs) =>
      (rg', Err (Problem 409 "tenant-owns-orgs" "tenant still has orgs; delete orgs first"))
  | (rg', Err ErrRegNotFound) => (rg', Err tenant_not_found)
  | (rg', Err _) => (rg', Err store_error)
  end.

Definition serveTenantDelete (rg : registry) (auth : option Principal) (tenant : option string)
    (rid : string) (env : wenv) : registry * result problem unit :=
  match tenant_delete_read rg auth tenant rid with
  | Err e => (rg, Err e)
  | Ok id => tenant_delete_write rg auth id env
  end.

Definition serveSiteOrgsAttach (rg : registry) (auth : option Principal)
    (body : option (string * string)) (env : wenv) : registry * result problem SiteOrg :=
  if negb (requireOrgAdmin auth) then (rg, Err not_admin)
  else match body with
  | None => (rg, Err (bad_request "bad json"))
  | Some (rsite, rorg) =>
      let site := TrimSpace rsite in
      let orgID := TrimSpace rorg in
      if str_eqb site EmptyString || str_eqb orgID EmptyString
      then (rg, Err (bad_request "site and org_id required"))
      else
        match AttachSiteToOrg rg site orgID (subject_of auth) env with
        | (rg', Ok _) =>
            match rg_siteOrgs rg' !! site with
            | Some so => (rg', Ok so)
            | None => (rg', Err (Problem 500 "bad-request" "store error after attach"))
            end
        | (rg', Err siteSlugError) => (rg', Err (bad_request "invalid site slug"))
        | (rg', Err siteOrgNotFoundError) => (rg', Err org_not_found)
        | (rg', Err _) => (rg', Err store_error)
        end
  end.

Definition serveSiteOrgsDetach (rg : registry) (auth : option Principal) (rsite : string)
    (env : wenv) : registry * result problem unit :=
  if negb (requireOrgAdmin auth) then (rg, Err not_admin)
  else
    let site := TrimSpace rsite in
    if str_eqb site EmptyString then (rg, Err (bad_request "site query required"))
    else
      match DetachSiteFromOrg rg site (subject_of auth) env with
      | (rg', Ok _) => (rg', Ok tt)
      | (rg', Err ErrRegNotFound) =>
          (rg', Err (Problem 404 "path-not-found" "site not found"))
      | (rg', Err _) => (rg', Err store_error)
      end.

(** The stored row with the subject and scope, as the put handler answers. *)
Definition find_binding (l : list RoleBinding) (subject scope : string) : option RoleBinding :=
  List.find (fun rb => str_eqb (rb_Subject rb) subject && str_eqb (rb_Scope rb) scope) l.

Definition serveRoleBindingsPut (rg : registry) (auth : option Principal)
    (body : option (string * string * string)) (env : wenv) :
    registry * result problem RoleBinding :=
  if negb (requireOrgAdmin auth) then (rg, Err not_admin)
  else match body with
  | None => (rg, Err (bad_request "bad json"))
  | Some (rsubject, rscope, rorigin) =>
      let subject := TrimSpace rsubject in
      let scope := TrimSpace rscope in
      let origin0 := TrimSpace rorigin in
      if str_eqb subject EmptyString || str_eqb scope EmptyString
      then (rg, Err (bad_request "subject and scope required"))
      else
        let origin := if str_eqb origin0 EmptyString then "legacy" else origin0 in
        if negb (str_eqb origin "legacy") && negb (str_eqb origin "crn")
        then (rg, Err (bad_request "origin must be legacy or crn"))
        else
          let now := we_now env in
          let rb := mkBinding (we_id env) subject scope origin now now in
          match PutRoleBinding rg rb env with
          | (rg', Err _) => (rg', Err (bad_request "put role binding"))
          | (rg', Ok _) => (rg', Ok (default rb (find_binding (rg_bindings rg') subject scope)))
          end
  end.

Definition serveRoleBindingsDelete (rg : registry) (auth : option Principal)
    (rsubject rscope : string) (saved : bool) : registry * result problem unit :=
  if negb (requireOrgAdmin auth) then (rg, Err not_admin)
  else
    let subject := TrimSpace rsubject in
    let scope := TrimSpace rscope in
    if str_eqb subject EmptyString || str_eqb scope EmptyString
    then (rg, Err (bad_request "subject and scope query required"))
    else
      match DeleteRoleBinding rg subject scope saved with
      | (rg', Ok _) => (rg', Ok tt)
      | (rg', Err _) => (rg', Err store_error)
      end.

(** ** What the registry promises: its changes, seen from outside

    [change subj touched minted rg rg']: the principal [subj] turns [rg] into
    [rg'], the audit rows of the change are filed under the tenant [touched],
    and [minted] is the id of a new organisation. *)

Definition row (principal tenant op : string) (a : TenantAudit) : Prop :=
  ta_Principal a = principal /\ ta_TenantID a = tenant /\ ta_Op a = op.

Inductive change (subj : string) : option string -> option string -> registry -> registry -> Prop :=
  | ch_none rg : change subj None None rg rg
  | ch_create_tenant rg id name o now a1 a2 :
      validTenantSlug id = true -> name <> EmptyString -> rg_tenants rg !! id = None ->
      rg_orgs rg !! og_ID o = None -> og_TenantID o = id -> og_Name o = "default" ->
      row subj id "tenant_create" a1 -> row subj id "org_create" a2 ->
      change subj (Some id) (Some (og_ID o)) rg
        (mkReg (<[id := mkTenant id name "label" "active" now now]> (rg_tenants rg))
           (<[og_ID o := o]> (rg_orgs rg)) (rg_siteOrgs rg) (rg_bindings rg)
           (rg_auds rg ++ [a1; a2]))
  | ch_create_org rg o a :
      validTenantSlug (og_Name o) = true -> is_Some (rg_tenants rg !! og_TenantID o) ->
      rg_orgs rg !! og_ID o = None ->
      (forall id' o', rg_orgs rg !! id' = Some o' -> og_TenantID o' = og_TenantID o ->
         og_Name o' <> og_Name o) ->
      row subj (og_TenantID o) "org_create" a ->
      change subj (Some (og_TenantID o)) (Some (og_ID o)) rg
        (with_orgs rg (<[og_ID o := o]> (rg_orgs rg)) (rg_auds rg ++ [a]))
  | ch_rename_org rg id o name a :
      validTenantSlug name = true -> rg_orgs rg !! id = Some o ->
      (forall id' o', rg_orgs rg !! id' = Some o' -> og_TenantID o' = og_TenantID o ->
         og_Name o' = name -> og_ID o' = id) ->
      row subj (og_TenantID o) "org_rename" a ->
      change subj (Some (og_TenantID o)) None rg
        (with_orgs rg (<[id := mkOrg (og_ID o) (og_TenantID o) name (og_CreatedAt o)]> (rg_orgs rg))
           (rg_auds rg ++ [a]))
  | ch_delete_org rg id o a :
      rg_orgs rg !! id = Some o ->
      (forall s so, rg_siteOrgs rg !! s = Some so -> so_OrgID so <> id) ->
      row subj (og_TenantID o) "org_delete" a ->
      change subj (Some (og_TenantID o)) None rg
        (with_orgs rg (delete id (rg_orgs rg)) (rg_auds rg ++ [a]))
  | ch_tier rg id t tier rank rank' now a :
      rg_tenants rg !! id = Some t -> tenantTierRank (tn_IsolationTier t) = Some rank ->
      tenantTierRank tier = Some rank' -> (rank < rank')%Z ->
      row subj id "tier_change" a ->
      change subj (Some id) None rg
        (with_tenants rg
           (<[id := mkTenant (tn_ID t) (tn_DisplayName t) tier (tn_Status t) (tn_CreatedAt t) now]>
              (rg_tenants rg)) (rg_auds rg ++ [a]))
  | ch_tier_refused rg id a :
      is_Some (rg_tenants rg !! id) -> row subj id "tier_change" a ->
      change subj (Some id) None rg (with_tenants rg (rg_tenants rg) (rg_auds rg ++ [a]))
  | ch_attach rg site o so a :
      validSiteSlug site = true -> rg_orgs rg !! so_OrgID so = Some o -> so_Site so = site ->
      row subj (og_TenantID o) "org_reattach" a ->
      change subj (Some (og_TenantID o)) None rg
        (with_sites rg (<[site := so]> (rg_siteOrgs rg)) (rg_auds rg ++ [a]))
  | ch_detach rg site o so a :
      rg_siteOrgs rg !! site = Some so -> rg_orgs rg !! so_OrgID so = Some o ->
      row subj (og_TenantID o) "org_reattach" a ->
      change subj (Some (og_TenantID o)) None rg
        (with_sites rg (delete site (rg_siteOrgs rg)) (rg_auds rg ++ [a]))
  | ch_delete_tenant rg id a :
      is_Some (rg_tenants rg !! id) ->
      (forall id' o, rg_orgs rg !! id' = Some o -> og_TenantID o <> id) ->
      row subj id "tenant_status" a ->
      change subj (Some id) None rg (with_tenants rg (delete id (rg_tenants rg)) (rg_auds rg ++ [a]))
  | ch_bind rg rb :
      rb_Subject rb <> EmptyString -> rb_Scope rb <> EmptyString ->
      (rb_Origin rb = "legacy" \/ rb_Origin rb = "crn") ->
      find_binding (rg_bindings rg) (rb_Subject rb) (rb_Scope rb) = None ->
      change subj None None rg (with_bindings rg (rg_bindings rg ++ [rb]))
  | ch_rebind rg before old rb after :
      rg_bindings rg = before ++ old :: after ->
      rb_Subject rb = rb_Subject old -> rb_Scope rb = rb_Scope old ->
      (rb_Origin rb = "legacy" \/ rb_Origin rb = "crn") ->
      change subj None None rg (with_bindings rg (before ++ rb :: after))
  | ch_unbind rg before old after :
      rg_bindings rg = before ++ old :: after ->
      change subj None None rg (with_bindings rg (before ++ after)).

(** ** Integrity *)

Definition binding_key (rb : RoleBinding) : string * string := (rb_Subject rb, rb_Scope rb).
Definition binding_ok (rb : RoleBinding) : Prop :=
  rb_Subject rb <> EmptyString /\ rb_Scope rb <> EmptyString /\
  (rb_Origin rb = "legacy" \/ rb_Origin rb = "crn").

Record registry_ok (rg : registry) : Prop := {
  ro_tenant : forall id t, rg_tenants rg !! id = Some t ->
    tn_ID t = id /\ validTenantSlug id = true /\ tn_DisplayName t <> EmptyString /\
    tn_Status t = "active" /\ is_Some (tenantTierRank (tn_IsolationTier t));
  ro_org : forall id o, rg_orgs rg !! id = Some o ->
    og_ID o = id /\ is_Some (rg_tenants rg !! og_TenantID o) /\
    validTenantSlug (og_Name o) = true;
  ro_name : forall id1 id2 o1 o2, rg_orgs rg !! id1 = Some o1 -> rg_orgs rg !! id2 = Some o2 ->
    og_TenantID o1 = og_TenantID o2 -> og_Name o1 = og_Name o2 -> id1 = id2;
  ro_site : forall s so, rg_siteOrgs rg !! s = Some so ->
    so_Site so = s /\ validSiteSlug s = true /\ is_Some (rg_orgs rg !! so_OrgID so);
  ro_key : NoDup (map binding_key (rg_bindings rg));
  ro_binding : Forall binding_ok (rg_bindings rg)
}.

(** ** Requests in flight

    A request that passed its read half waits for its write half. *)

Inductive reg_write : Type :=
  | WRename (id name : string) | WOrgDelete (id : string) | WTier (id tier : string)
  | WTenantDelete (id : string).

Record flight : Type := mkFlight {
  fl_auth : option Principal; fl_tenant : option string; fl_write : reg_write }.

Definition commit (rg : registry) (f : flight) (env : wenv) : registry :=
  match fl_write f with
  | WRename id name => (rename_write rg (fl_auth f) id name env).1
  | WOrgDelete id => (delete_write rg (fl_auth f) id env).1
  | WTier id tier => (tier_write rg (fl_auth f) id tier env).1
  | WTenantDelete id => (tenant_delete_write rg (fl_auth f) id env).1
  end.

(** [rs_minted] remembers the organisation ids given out so far: a fresh random
    id is none of them. *)
Record rsys : Type := mkRsys {
  rs_reg : registry; rs_flight : list flight; rs_minted : gset string }.

Definition who (auth : option Principal) (tenant : option string) : string * option string :=
  (subject_of auth, tenant).

Inductive rstep : rsys -> string * option string -> rsys -> Prop :=
  | rs_tenants_create rg fs ids auth tenant body env rg' r :
      we_id env ∉ ids -> serveTenantsCreate rg auth tenant body env = (rg', r) ->
      rstep (mkRsys rg fs ids) (who auth tenant) (mkRsys rg' fs ({[we_id env]} ∪ ids))
  | rs_orgs_create rg fs ids auth tenant body env rg' r :
      we_id env ∉ ids -> serveOrgsCreate rg auth tenant body env = (rg', r) ->
      rstep (mkRsys rg fs ids) (who auth tenant) (mkRsys rg' fs ({[we_id env]} ∪ ids))
  | rs_attach rg fs ids auth tenant body env rg' r :
      serveSiteOrgsAttach rg auth body env = (rg', r) ->
      rstep (mkRsys rg fs ids) (who auth tenant) (mkRsys rg' fs ids)
  | rs_detach rg fs ids auth tenant site env rg' r :
      serveSiteOrgsDetach rg auth site env = (rg', r) ->
      rstep (mkRsys rg fs ids) (who auth tenant) (mkRsys rg' fs ids)
  | rs_bind rg fs ids auth tenant body env rg' r :
      serveRoleBindingsPut rg auth body env = (rg', r) ->
      rstep (mkRsys rg fs ids) (who auth tenant) (mkRsys rg' fs ids)
  | rs_unbind rg fs ids auth tenant subject scope saved rg' r :
      serveRoleBindingsDelete rg auth subject scope saved = (rg', r) ->
      rstep (mkRsys rg fs ids) (who auth tenant) (mkRsys rg' fs ids)
  | rs_rename_read rg fs ids auth tenant id body name :
      rename_read rg auth tenant id body = Ok name ->
      rstep (mkRsys rg fs ids) (who auth tenant)
        (mkRsys rg (fs ++ [mkFlight auth tenant (WRename id name)]) ids)
  | rs_delete_read rg fs ids auth tenant id o :
      org_read rg auth tenant id = Ok o ->
      rstep (mkRsys rg fs ids) (who auth tenant)
        (mkRsys rg (fs ++ [mkFlight auth tenant (WOrgDelete id)]) ids)
  | rs_tier_read rg fs ids auth tenant id body tier :
      tier_read rg auth id body = Ok tier ->
      rstep (mkRsys rg fs ids) (who auth tenant)
        (mkRsys rg (fs ++ [mkFlight auth tenant (WTier id tier)]) ids)
  | rs_tenant_delete_read rg fs ids auth tenant rid id :
      tenant_delete_read rg auth tenant rid = Ok id ->
      rstep (mkRsys rg fs ids) (who auth tenant)
        (mkRsys rg (fs ++ [mkFlight auth tenant (WTenantDelete id)]) ids)
  | rs_commit rg fs ids i f env :
      fs !! i = Some f ->
      rstep (mkRsys rg fs ids) (who (fl_auth f) (fl_tenant f))
        (mkRsys (commit rg f env) (delete i fs) ids)
  | rs_drop rg fs ids i f :
      fs !! i = Some f ->
      rstep (mkRsys rg fs ids) (who (fl_auth f) (fl_tenant f)) (mkRsys rg (delete i fs) ids).

Inductive rreachable : rsys -> Prop :=
  | rr_init : rreachable (mkRsys (mkReg ∅ ∅ ∅ [] []) [] ∅)
  | rr_step y l y' : rreachable y -> rstep y l y' -> rreachable y'.

(** *** Lemmas on the pieces *)

Lemma truncate_app {A} (l x : list A) : truncate l (l ++ x) = l.
Proof. apply take_app_length. Qed.

Lemma some_row_false {A} (p : A -> bool) m :
  some_row p m = false -> forall k x, m !! k = Some x -> p x = false.
Proof.
  unfold some_row. intros H k x Hk. apply not_true_iff_false. intros Hp.
  apply not_true_iff_false in H. apply H, existsb_exists. exists (k, x).
  split; [by apply list_elem_of_In, elem_of_map_to_list|done].
Qed.

Lemma with_tenants_same rg : with_tenants rg (rg_tenants rg) (rg_auds rg) = rg.
Proof. by destruct rg. Qed.
Lemma with_orgs_same rg : with_orgs rg (rg_orgs rg) (rg_auds rg) = rg.
Proof. by destruct rg. Qed.
Lemma with_sites_same rg : with_sites rg (rg_siteOrgs rg) (rg_auds rg) = rg.
Proof. by destruct rg. Qed.
Lemma with_bindings_same rg : with_bindings rg (rg_bindings rg) = rg.
Proof. by destruct rg. Qed.

(** The rollbacks restore the map. *)
Lemma undo_insert {A} (m : gmap string A) k x : m !! k = None -> delete k (<[k := x]> m) = m.
Proof. apply delete_insert_id. Qed.
Lemma undo_update {A} (m : gmap string A) k x y :
  m !! k = Some y -> <[k := y]> (<[k := x]> m) = m.
Proof. intros. by rewrite insert_insert_eq, insert_id. Qed.
Lemma undo_delete {A} (m : gmap string A) k y : m !! k = Some y -> <[k := y]> (delete k m) = m.
Proof. intros. by rewrite insert_delete_eq, insert_id. Qed.

Create Rewrite HintDb reg.
#[local] Hint Rewrite @truncate_app with_tenants_same with_orgs_same with_sites_same
  with_bindings_same : reg.

Ltac row_done := by repeat split.

(** *** Every operation of the store is a change *)

Definition changes (subj : string) (rg rg' : registry) : Prop :=
  exists touched, change subj touched None rg rg'.

Lemma changes_none subj rg : changes subj rg rg.
Proof. exists None. constructor. Qed.

Lemma CreateTenant_change rg id dn subj env rg' r :
  rg_orgs rg !! we_id env = None -> CreateTenant rg id dn subj env = (rg', r) ->
  rg' = rg \/ exists touched, change subj (Some touched) (Some (we_id env)) rg rg'.
Proof.
  intros Hf. unfold CreateTenant.
  destruct (validTenantSlug _) eqn:Hs; [|intros [= <- <-]; by left].
  destruct (str_eqb _ _) eqn:Hn; [intros [= <- <-]; by left|].
  apply str_eqb_neq in Hn.
  destruct (rg_tenants rg !! _) eqn:Ht; [intros [= <- <-]; by left|].
  cbn [og_ID og_Name rg_tenants rg_orgs negb].
  destruct (we_saved env); intros [= <- <-].
  - right. eexists. by apply (ch_create_tenant subj rg _ _ (mkOrg _ _ _ _)).
  - rewrite truncate_app, !undo_insert by done. left. by destruct rg.
Qed.

Lemma name_free rg tenant name :
  some_row (fun o => str_eqb (og_TenantID o) tenant && str_eqb (og_Name o) name) (rg_orgs rg)
    = false ->
  forall id' o', rg_orgs rg !! id' = Some o' -> og_TenantID o' = tenant -> og_Name o' <> name.
Proof.
  intros H id' o' Ho <- <-. pose proof (some_row_false _ _ H _ _ Ho) as E. cbn in E.
  by rewrite !str_eqb_refl in E.
Qed.

(** [CreateOrg] touches the tenant it is given. *)
Lemma CreateOrg_change rg tenant name subj env rg' r :
  rg_orgs rg !! we_id env = None -> CreateOrg rg tenant name subj env = (rg', r) ->
  rg' = rg \/ change subj (Some tenant) (Some (we_id env)) rg rg'.
Proof.
  intros Hf. unfold CreateOrg.
  destruct (validTenantSlug _) eqn:Hs; [|intros [= <- <-]; by left].
  destruct (rg_tenants rg !! _) eqn:Ht; [|intros [= <- <-]; by left].
  destruct (some_row _ _) eqn:Hc; [intros [= <- <-]; by left|].
  cbn [og_ID negb]. destruct (we_saved env); intros [= <- <-].
  - right. apply (ch_create_org subj rg (mkOrg _ _ _ _)); cbn; eauto using name_free.
    row_done.
  - left. by rewrite truncate_app, undo_insert, with_orgs_same.
Qed.

(** [RenameOrg] and [DeleteOrg] touch the tenant of the organisation. *)
Definition org_change subj id rg rg' : Prop :=
  rg' = rg \/ exists o, rg_orgs rg !! id = Some o /\ change subj (Some (og_TenantID o)) None rg rg'.

Lemma RenameOrg_change rg id name subj env rg' r :
  RenameOrg rg id name subj env = (rg', r) -> org_change subj id rg rg'.
Proof.
  unfold RenameOrg.
  destruct (validTenantSlug _) eqn:Hs; [|intros [= <- <-]; by left].
  destruct (rg_orgs rg !! _) as [o|] eqn:Ho; [|intros [= <- <-]; by left]. cbn [negb].
  destruct (str_eqb _ _); [intros [= <- <-]; by left|].
  destruct (some_row _ _) eqn:Hc; [intros [= <- <-]; by left|].
  destruct (we_saved env); intros [= <- <-].
  - right. exists o. split; [done|]. apply ch_rename_org; [done..| |row_done].
    intros id' o' Ho' Et En. pose proof (some_row_false _ _ Hc _ _ Ho') as E. cbn in E.
    rewrite Et, En, !str_eqb_refl in E. cbn in E. by apply negb_false_iff, str_eqb_eq in E.
  - left. by rewrite truncate_app, undo_update, with_orgs_same.
Qed.

Lemma DeleteOrg_change rg id subj env rg' r :
  DeleteOrg rg id subj env = (rg', r) -> org_change subj id rg rg'.
Proof.
  unfold DeleteOrg.
  destruct (rg_orgs rg !! _) as [o|] eqn:Ho; [|intros [= <- <-]; by left].
  destruct (some_row _ _) eqn:Hc; [intros [= <- <-]; by left|].
  destruct (we_saved env); intros [= <- <-].
  - right. exists o. split; [done|]. apply ch_delete_org; [done| |row_done].
    intros s so Hso <-. pose proof (some_row_false _ _ Hc _ _ Hso) as E. cbn in E.
    by rewrite str_eqb_refl in E.
  - left. by rewrite truncate_app, undo_delete, with_orgs_same.
Qed.

Lemma UpdateTenantTier_change rg id tier subj env rg' r :
  UpdateTenantTier rg id tier subj env = (rg', r) -> changes subj rg rg'.
Proof.
  unfold UpdateTenantTier.
  destruct (tenantTierRank tier) as [rank'|] eqn:Hr'; [|intros [= <- <-]; apply changes_none].
  destruct (rg_tenants rg !! id) as [t|] eqn:Ht; [|intros [= <- <-]; apply changes_none].
  destruct (tenantTierRank (tn_IsolationTier t)) as [rank|] eqn:Hr;
    [|intros [= <- <-]; apply changes_none].
  destruct (Z.eqb_spec rank' rank); [intros [= <- <-]; apply changes_none|].
  destruct (Z.ltb_spec rank' rank), (we_saved env); intros [= <- <-]; autorewrite with reg;
    rewrite ?undo_update by done; autorewrite with reg; try apply changes_none; eexists.
  - apply ch_tier_refused; [by eexists|row_done].
  - eapply ch_tier; [done..|lia|row_done].
Qed.

Lemma AttachSiteToOrg_change rg site org subj env rg' r :
  AttachSiteToOrg rg site org subj env = (rg', r) -> changes subj rg rg'.
Proof.
  unfold AttachSiteToOrg.
  destruct (validSiteSlug site) eqn:Hs; [|intros [= <- <-]; apply changes_none].
  destruct (rg_orgs rg !! org) as [o|] eqn:Ho; [|intros [= <- <-]; apply changes_none].
  cbn [negb]. case_match; [intros [= <- <-]; apply changes_none|].
  destruct (we_saved env); intros [= <- <-].
  - eexists. by apply (ch_attach subj rg site o (mkSiteOrg _ _ _ _)).
  - rewrite truncate_app.
    destruct (rg_siteOrgs rg !! site) eqn:Hc; rewrite ?undo_update, ?undo_insert by done;
      rewrite with_sites_same; apply changes_none.
Qed.

Lemma slug_nonempty s : validTenantSlug s = true -> s <> EmptyString.
Proof. by intros H ->. Qed.

(** The tenant of an attached site's organisation is known, so that a
    detachment always leaves an audit row. *)
Lemma DetachSiteFromOrg_change rg site subj env rg' r :
  registry_ok rg -> DetachSiteFromOrg rg site subj env = (rg', r) -> changes subj rg rg'.
Proof.
  intros Hok. unfold DetachSiteFromOrg.
  destruct (rg_siteOrgs rg !! site) as [so|] eqn:Hso; [|intros [= <- <-]; apply changes_none].
  destruct (ro_site _ Hok _ _ Hso) as (_ & _ & o & Ho). rewrite Ho.
  destruct (ro_org _ Hok _ _ Ho) as (_ & [t Ht] & _).
  destruct (ro_tenant _ Hok _ _ Ht) as (_ & Hslug%slug_nonempty & _).
  apply str_eqb_neq in Hslug. rewrite Hslug. cbn [negb].
  destruct (we_saved env); intros [= <- <-].
  - eexists. by eapply ch_detach.
  - rewrite truncate_app, undo_delete, with_sites_same by done. apply changes_none.
Qed.

Lemma DeleteTenant_change rg id subj env rg' r :
  DeleteTenant rg id subj env = (rg', r) -> changes subj rg rg'.
Proof.
  unfold DeleteTenant.
  destruct (rg_tenants rg !! id) as [t|] eqn:Ht; [|intros [= <- <-]; apply changes_none].
  destruct (some_row _ _) eqn:Hc; [intros [= <- <-]; apply changes_none|].
  destruct (we_saved env); intros [= <- <-].
  - eexists. apply ch_delete_tenant; [by eexists| |row_done].
    intros id' o Ho <-. pose proof (some_row_false _ _ Hc _ _ Ho) as E. cbn in E.
    by rewrite str_eqb_refl in E.
  - rewrite truncate_app, undo_delete, with_tenants_same by done. apply changes_none.
Qed.

(** *** Role bindings *)

Lemma update_binding_Some l rb now l' : update_binding l rb now = Some l' ->
  exists before old after new, l = before ++ old :: after /\ l' = before ++ new :: after /\
    binding_key new = binding_key old /\ rb_Origin new = rb_Origin rb.
Proof.
  revert l'. induction l as [|x l IH]; intros l'; cbn [update_binding]; [done|].
  destruct (_ && _).
  - intros [= <-]. by exists [], x, l, (mkBinding (rb_ID x) (rb_Subject x) (rb_Scope x)
      (rb_Origin rb) (if IsZero (rb_CreatedAt x) then now else rb_CreatedAt x) now).
  - destruct (update_binding l rb now) as [l1|]; [|done]. intros [= <-].
    destruct (IH _ eq_refl) as (b & o & a & n & -> & -> & ? & ?).
    by exists (x :: b), o, a, n.
Qed.

Lemma update_binding_None l rb now : update_binding l rb now = None ->
  find_binding l (rb_Subject rb) (rb_Scope rb) = None.
Proof.
  unfold find_binding. induction l as [|x l IH]; cbn [update_binding List.find]; [done|].
  destruct (_ && _); [done|]. destruct (update_binding l rb now); [done|]. by intros _; apply IH.
Qed.

Lemma find_binding_None l s c : find_binding l s c = None -> (s, c) ∉ map binding_key l.
Proof.
  unfold find_binding. intros H Hin. apply list_elem_of_In, in_map_iff in Hin.
  destruct Hin as (rb & Hk & Hin). injection Hk as <- <-.
  pose proof (List.find_none _ _ H _ Hin) as E. cbn in E. by rewrite !str_eqb_refl in E.
Qed.

Lemma PutRoleBinding_change rg rb env subj rg' r :
  rb_Origin rb = "legacy" \/ rb_Origin rb = "crn" ->
  PutRoleBinding rg rb env = (rg', r) -> changes subj rg rg'.
Proof.
  intros Hor. unfold PutRoleBinding.
  destruct (_ || _) eqn:E; [intros [= <- <-]; apply changes_none|].
  apply orb_false_iff in E as [E1%str_eqb_neq E2%str_eqb_neq].
  assert (str_eqb (rb_Origin rb) EmptyString = false) as Ho by (by destruct Hor as [-> | ->]).
  rewrite Ho. cbn [rb_Subject rb_Scope rb_CreatedAt].
  destruct (update_binding _ _ _) as [l|] eqn:Hu.
  - destruct (we_saved env); intros [= <- <-]; autorewrite with reg; [|apply changes_none].
    apply update_binding_Some in Hu as (b & o & a & n & Hl & -> & Hk & Hn).
    injection Hk as Hk1 Hk2. eexists. eapply ch_rebind; [done..|]. by rewrite Hn.
  - apply update_binding_None in Hu.
    destruct (we_saved env); intros [= <- <-]; autorewrite with reg; [|apply changes_none].
    eexists. by apply ch_bind.
Qed.

Lemma cut_binding_Some l s c b x a : cut_binding l s c = Some (b, x, a) -> l = b ++ x :: a.
Proof.
  revert b. induction l as [|y l IH]; intros b; cbn [cut_binding]; [done|].
  destruct (_ || _); [|by intros [= <- <- <-]].
  destruct (cut_binding l s c) as [[[b1 x1] a1]|]; [|done]. cbn. intros [= <- <- <-].
  cbn. f_equal. by apply IH.
Qed.

Lemma DeleteRoleBinding_change rg s c saved subj rg' r :
  DeleteRoleBinding rg s c saved = (rg', r) -> changes subj rg rg'.
Proof.
  unfold DeleteRoleBinding. destruct (_ || _); [intros [= <- <-]; apply changes_none|].
  destruct (cut_binding _ _ _) as [[[b x] a]|] eqn:Hc; [|intros [= <- <-]; apply changes_none].
  apply cut_binding_Some in Hc. destruct saved; intros [= <- <-].
  - eexists. by eapply ch_unbind.
  - rewrite <- Hc, with_bindings_same. apply changes_none.
Qed.

(** *** What a change keeps *)

Lemma org_unique_insert rg id o :
  registry_ok rg -> (forall id' o', rg_orgs rg !! id' = Some o' -> id' <> id ->
    og_TenantID o' = og_TenantID o -> og_Name o' <> og_Name o) ->
  forall id1 id2 o1 o2, <[id := o]> (rg_orgs rg) !! id1 = Some o1 ->
    <[id := o]> (rg_orgs rg) !! id2 = Some o2 ->
    og_TenantID o1 = og_TenantID o2 -> og_Name o1 = og_Name o2 -> id1 = id2.
Proof.
  intros Hok Hfree id1 id2 o1 o2 [[<- <-]|[Hn1 H1]]%lookup_insert_Some
    [[<- <-]|[Hn2 H2]]%lookup_insert_Some Ht Hn; [done| | |].
  - exfalso. by apply (Hfree id2 o2 H2); [congruence|..].
  - exfalso. by apply (Hfree id1 o1 H1); [congruence|..].
  - by apply (ro_name _ Hok id1 id2 o1 o2).
Qed.

Lemma is_Some_insert {A} (m : gmap string A) k k' x : is_Some (m !! k) -> is_Some (<[k' := x]> m !! k).
Proof. intros H. destruct (decide (k = k')) as [->|]; [rewrite lookup_insert_eq|rewrite lookup_insert_ne by done]; eauto. Qed.

Lemma ok_create_tenant rg id name o now auds :
  registry_ok rg -> validTenantSlug id = true -> name <> EmptyString ->
  rg_tenants rg !! id = None -> rg_orgs rg !! og_ID o = None ->
  og_TenantID o = id -> og_Name o = "default" ->
  registry_ok (mkReg (<[id := mkTenant id name "label" "active" now now]> (rg_tenants rg))
    (<[og_ID o := o]> (rg_orgs rg)) (rg_siteOrgs rg) (rg_bindings rg) auds).
Proof.
  intros Hok Hs Hn Ht Ho Eo En. split; cbn [rg_tenants rg_orgs rg_siteOrgs rg_bindings].
  - intros id' t [[<- <-]|[_ H]]%lookup_insert_Some; [|by apply (ro_tenant _ Hok)].
    cbn. repeat split; [done..|]. by exists 0%Z.
  - intros id' o' [[<- <-]|[_ H]]%lookup_insert_Some.
    + rewrite Eo, En, lookup_insert_eq. by split; [|split].
    + destruct (ro_org _ Hok _ _ H) as (? & ? & ?). auto using is_Some_insert.
  - apply org_unique_insert; [done|]. intros id' o' H _ E.
    destruct (ro_org _ Hok _ _ H) as (_ & [t Htt] & _). congruence.
  - intros s so H. destruct (ro_site _ Hok _ _ H) as (? & ? & ?). auto using is_Some_insert.
  - apply Hok.
  - apply Hok.
Qed.

Lemma ok_with_orgs_insert rg id o auds :
  registry_ok rg -> og_ID o = id -> is_Some (rg_tenants rg !! og_TenantID o) ->
  validTenantSlug (og_Name o) = true ->
  (forall id' o', rg_orgs rg !! id' = Some o' -> id' <> id ->
    og_TenantID o' = og_TenantID o -> og_Name o' <> og_Name o) ->
  registry_ok (with_orgs rg (<[id := o]> (rg_orgs rg)) auds).
Proof.
  intros Hok Ei Ht Hs Hfree. split; cbn [with_orgs rg_tenants rg_orgs rg_siteOrgs rg_bindings];
    try apply Hok.
  - intros id' o' [[<- <-]|[_ H]]%lookup_insert_Some; [done|by apply (ro_org _ Hok)].
  - by apply org_unique_insert.
  - intros s so H. destruct (ro_site _ Hok _ _ H) as (? & ? & ?). auto using is_Some_insert.
Qed.

Lemma ok_with_orgs_delete rg id auds :
  registry_ok rg -> (forall s so, rg_siteOrgs rg !! s = Some so -> so_OrgID so <> id) ->
  registry_ok (with_orgs rg (delete id (rg_orgs rg)) auds).
Proof.
  intros Hok Hfree. split; cbn [with_orgs rg_tenants rg_orgs rg_siteOrgs rg_bindings];
    try apply Hok.
  - intros id' o' [_ H]%lookup_delete_Some. by apply (ro_org _ Hok).
  - intros id1 id2 o1 o2 [_ H1]%lookup_delete_Some [_ H2]%lookup_delete_Some.
    by apply (ro_name _ Hok).
  - intros s so H. destruct (ro_site _ Hok _ _ H) as (? & ? & ?).
    rewrite lookup_delete_ne by (by apply not_eq_sym, (Hfree s)). done.
Qed.

Lemma ok_with_tenants_insert rg id t auds :
  registry_ok rg -> tn_ID t = id -> validTenantSlug id = true ->
  tn_DisplayName t <> EmptyString -> tn_Status t = "active" ->
  is_Some (tenantTierRank (tn_IsolationTier t)) ->
  registry_ok (with_tenants rg (<[id := t]> (rg_tenants rg)) auds).
Proof.
  intros Hok ? ? ? ? ?.
  split; cbn [with_tenants rg_tenants rg_orgs rg_siteOrgs rg_bindings]; try apply Hok.
  - intros id' t' [[<- <-]|[_ H']]%lookup_insert_Some; [done|by apply (ro_tenant _ Hok)].
  - intros id' o H'. destruct (ro_org _ Hok _ _ H') as (? & ? & ?). auto using is_Some_insert.
Qed.

Lemma ok_with_tenants_delete rg id auds :
  registry_ok rg -> (forall id' o, rg_orgs rg !! id' = Some o -> og_TenantID o <> id) ->
  registry_ok (with_tenants rg (delete id (rg_tenants rg)) auds).
Proof.
  intros Hok Hfree. split; cbn [with_tenants rg_tenants rg_orgs rg_siteOrgs rg_bindings];
    try apply Hok.
  - intros id' t [_ H]%lookup_delete_Some. by apply (ro_tenant _ Hok).
  - intros id' o H. destruct (ro_org _ Hok _ _ H) as (? & ? & ?).
    rewrite lookup_delete_ne by (by apply not_eq_sym, (Hfree id')). done.
Qed.

Lemma ok_with_sites_insert rg site so auds :
  registry_ok rg -> validSiteSlug site = true -> so_Site so = site ->
  is_Some (rg_orgs rg !! so_OrgID so) ->
  registry_ok (with_sites rg (<[site := so]> (rg_siteOrgs rg)) auds).
Proof.
  intros Hok ? ? ?.
  split; cbn [with_sites rg_tenants rg_orgs rg_siteOrgs rg_bindings]; try apply Hok.
  intros s' so' [[<- <-]|[_ H']]%lookup_insert_Some; [done|by apply (ro_site _ Hok)].
Qed.

Lemma ok_with_sites_delete rg site auds :
  registry_ok rg -> registry_ok (with_sites rg (delete site (rg_siteOrgs rg)) auds).
Proof.
  intros Hok. split; cbn [with_sites rg_tenants rg_orgs rg_siteOrgs rg_bindings]; try apply Hok.
  intros s' so' [_ H]%lookup_delete_Some. by apply (ro_site _ Hok).
Qed.

Lemma ok_with_bindings rg l :
  registry_ok rg -> NoDup (map binding_key l) -> Forall binding_ok l ->
  registry_ok (with_bindings rg l).
Proof.
  intros Hok ? ?. by split; cbn [with_bindings rg_tenants rg_orgs rg_siteOrgs rg_bindings];
    try apply Hok.
Qed.

Lemma change_ok subj touched minted rg rg' :
  change subj touched minted rg rg' -> registry_ok rg -> registry_ok rg'.
Proof.
  intros H Hok. pose proof (ro_key _ Hok) as Hk. pose proof (ro_binding _ Hok) as Hb.
  destruct H; [done|by apply ok_create_tenant|..].
  - apply ok_with_orgs_insert; [done..|]. intros. by eapply H2.
  - destruct (ro_org _ Hok _ _ H0) as (? & ? & ?).
    apply ok_with_orgs_insert; [done..|]. cbn. intros id' o' Ho' Hne Et En.
    apply Hne. rewrite <- (H1 _ _ Ho' Et En). symmetry. by destruct (ro_org _ Hok _ _ Ho').
  - by apply ok_with_orgs_delete.
  - destruct (ro_tenant _ Hok _ _ H) as (? & ? & ? & ? & ?).
    apply ok_with_tenants_insert; cbn; [done..|by eexists].
  - destruct Hok; by split.
  - apply ok_with_sites_insert; [done..|by eexists].
  - by apply ok_with_sites_delete.
  - by apply ok_with_tenants_delete.
  - apply ok_with_bindings; [done| |].
    + rewrite map_app. apply NoDup_app. split; [done|]. split; [|apply NoDup_singleton].
      intros x Hx ->%list_elem_of_singleton. by apply find_binding_None in H2.
    + apply Forall_app. split; [done|]. by apply Forall_singleton.
  - rewrite H in Hk, Hb. apply Forall_app in Hb as [Hb1 [Hb2 Hb3]%Forall_cons].
    apply ok_with_bindings; [done| |].
    + rewrite map_app in Hk |- *. cbn [map] in *.
      by replace (binding_key rb) with (binding_key old) by (unfold binding_key; congruence).
    + apply Forall_app. split; [done|]. constructor; [|done].
      destruct Hb2 as (? & ? & ?). split; [congruence|]. by split; [congruence|].
  - rewrite H in Hk, Hb. apply Forall_app in Hb as [Hb1 [Hb2 Hb3]%Forall_cons].
    apply ok_with_bindings; [done| |by apply Forall_app].
    rewrite map_app in Hk |- *. cbn [map] in Hk.
    apply NoDup_app in Hk as (Hk1 & Hk2 & [Hk3 Hk4]%NoDup_cons). apply NoDup_app.
    split; [done|]. split; [|done]. intros x Hx Hx'. eapply Hk2; [done|]. by right.
Qed.

(** *** What a change does to rows and audits *)

Lemma change_audits subj touched minted rg rg' : change subj touched minted rg rg' ->
  exists new, rg_auds rg' = rg_auds rg ++ new /\
    Forall (fun a => ta_Principal a = subj /\ touched = Some (ta_TenantID a)) new /\
    (is_Some touched -> new <> []).
Proof.
  assert (forall a t op, row subj t op a -> ta_Principal a = subj /\ Some t = Some (ta_TenantID a))
    as Hrow by (intros a t op (<- & <- & _); done).
  destruct 1; cbn [with_orgs with_tenants with_sites with_bindings rg_auds];
    try (exists []; rewrite app_nil_r; split; [done|]; split; [done|by intros [? ?]]);
    eexists; (split; [reflexivity|]); (split; [|done]); eauto.
Qed.

Lemma lookup_insert_differs {A} (m : gmap string A) k x k' :
  m !! k' <> <[k := x]> m !! k' -> k' = k.
Proof. intros H. destruct (decide (k' = k)); [done|]. by rewrite lookup_insert_ne in H. Qed.
Lemma lookup_delete_differs {A} (m : gmap string A) k k' :
  m !! k' <> delete k m !! k' -> k' = k.
Proof. intros H. destruct (decide (k' = k)); [done|]. by rewrite lookup_delete_ne in H. Qed.

(** A tenant's row only changes under its own name. *)
Lemma change_tenants subj touched minted rg rg' id : change subj touched minted rg rg' ->
  rg_tenants rg !! id <> rg_tenants rg' !! id -> touched = Some id.
Proof.
  destruct 1; cbn [with_orgs with_tenants with_sites with_bindings rg_tenants]; intros Hd;
    try done; by first [apply lookup_insert_differs in Hd as ->|apply lookup_delete_differs in Hd as ->].
Qed.

(** An organisation's row only changes under the name of its tenant. *)
Lemma change_orgs subj touched minted rg rg' id o : change subj touched minted rg rg' ->
  rg_orgs rg !! id <> rg_orgs rg' !! id ->
  rg_orgs rg !! id = Some o \/ rg_orgs rg' !! id = Some o -> touched = Some (og_TenantID o).
Proof.
  destruct 1; cbn [with_orgs with_tenants with_sites with_bindings rg_orgs]; intros Hd Hin;
    try done; first [apply lookup_insert_differs in Hd as ->|apply lookup_delete_differs in Hd as ->];
    rewrite ?lookup_insert_eq, ?lookup_delete_eq in Hin; destruct Hin; simplify_eq; try done.
Qed.

(** A site only moves under the tenant of its old or new organisation. *)
Lemma change_sites subj touched minted rg rg' s : change subj touched minted rg rg' ->
  rg_siteOrgs rg !! s <> rg_siteOrgs rg' !! s ->
  exists so o, (rg_siteOrgs rg !! s = Some so \/ rg_siteOrgs rg' !! s = Some so) /\
    rg_orgs rg !! so_OrgID so = Some o /\ touched = Some (og_TenantID o).
Proof.
  destruct 1; cbn [with_orgs with_tenants with_sites with_bindings rg_siteOrgs]; intros Hd;
    try done; first [apply lookup_insert_differs in Hd as ->|apply lookup_delete_differs in Hd as ->];
    rewrite ?lookup_insert_eq; eauto 10.
Qed.

(** A tier is only raised. *)
Lemma change_tier subj touched minted rg rg' id t t' : change subj touched minted rg rg' ->
  rg_tenants rg !! id = Some t -> rg_tenants rg' !! id = Some t' ->
  t' = t \/ exists r r', tenantTierRank (tn_IsolationTier t) = Some r /\
    tenantTierRank (tn_IsolationTier t') = Some r' /\ (r < r')%Z /\
    tn_ID t' = tn_ID t /\ tn_DisplayName t' = tn_DisplayName t /\ tn_Status t' = tn_Status t /\
    tn_CreatedAt t' = tn_CreatedAt t.
Proof.
  destruct 1; cbn [with_orgs with_tenants with_sites with_bindings rg_tenants]; intros Ht Ht';
    simplify_eq; eauto.
  - apply lookup_insert_Some in Ht' as [[<- <-]|[_ ?]]; simplify_eq; eauto.
  - apply lookup_insert_Some in Ht' as [[<- <-]|[_ ?]]; simplify_eq; eauto 15.
  - apply lookup_delete_Some in Ht' as [_ ?]; simplify_eq; eauto.
Qed.

(** An organisation keeps its tenant; a row that appears has the minted id. *)
Lemma change_rows subj touched minted rg rg' id o' : change subj touched minted rg rg' ->
  rg_orgs rg' !! id = Some o' ->
  minted = Some id \/ exists o, rg_orgs rg !! id = Some o /\ og_TenantID o = og_TenantID o'.
Proof.
  destruct 1; cbn [with_orgs with_tenants with_sites with_bindings rg_orgs]; intros Ho; eauto.
  - apply lookup_insert_Some in Ho as [[<- <-]|[_ ?]]; eauto.
  - apply lookup_insert_Some in Ho as [[<- <-]|[_ ?]]; eauto.
  - apply lookup_insert_Some in Ho as [[<- <-]|[_ ?]]; eauto.
  - apply lookup_delete_Some in Ho as [_ ?]; eauto.
Qed.

(** *** Every handler is a change *)

Ltac handler_refused := intros [= <- <-]; by left.

Lemma serveTenantsCreate_change rg auth tenant body env rg' r :
  rg_orgs rg !! we_id env = None -> serveTenantsCreate rg auth tenant body env = (rg', r) ->
  rg' = rg \/ tenant = None /\
    exists touched, change (subject_of auth) (Some touched) (Some (we_id env)) rg rg'.
Proof.
  intros Hf. unfold serveTenantsCreate. destruct (requireOrgAdmin auth); [|handler_refused].
  destruct tenant; [handler_refused|]. destruct body as [[rid rname]|]; [|handler_refused].
  cbn [negb]. case_match; [handler_refused|]. case_match; [handler_refused|].
  destruct (CreateTenant _ _ _ _ _) as [rg1 r1] eqn:E.
  apply CreateTenant_change in E; [|done]. intros H1.
  assert (rg' = rg1) as -> by (destruct r1 as [?|[]]; by injection H1 as <- _).
  destruct E as [?|E]; [by left|]. right. by split.
Qed.

Lemma serveOrgsCreate_change rg auth tenant body env rg' r :
  rg_orgs rg !! we_id env = None -> serveOrgsCreate rg auth tenant body env = (rg', r) ->
  rg' = rg \/ exists t, foreign tenant t = false /\
    change (subject_of auth) (Some t) (Some (we_id env)) rg rg'.
Proof.
  intros Hf. unfold serveOrgsCreate. destruct (requireOrgAdmin auth); [|handler_refused].
  destruct body as [[t name]|]; [|handler_refused]. cbn [negb].
  do 3 (case_match; [handler_refused|]).
  destruct (foreign tenant t) eqn:Ht; [handler_refused|].
  destruct (CreateOrg _ _ _ _ _) as [rg1 r1] eqn:E.
  apply CreateOrg_change in E; [|done]. intros H1'.
  assert (rg' = rg1) as -> by (destruct r1 as [?|[]]; by injection H1' as <- _).
  destruct E as [?|E]; [by left|]. right. by exists t.
Qed.

(** The other handlers do not mint an organisation; the ones on sites and
    bindings leave the organisations alone. *)
Definition side_change subj rg rg' : Prop := changes subj rg rg' /\ rg_orgs rg' = rg_orgs rg.

Lemma side_change_refl subj rg : side_change subj rg rg.
Proof. split; [apply changes_none|done]. Qed.
#[local] Hint Resolve side_change_refl : core.

Lemma AttachSiteToOrg_orgs rg site org subj env :
  rg_orgs (AttachSiteToOrg rg site org subj env).1 = rg_orgs rg.
Proof. unfold AttachSiteToOrg. by repeat case_match. Qed.

Lemma serveSiteOrgsAttach_change rg auth body env rg' r :
  serveSiteOrgsAttach rg auth body env = (rg', r) -> side_change (subject_of auth) rg rg'.
Proof.
  unfold serveSiteOrgsAttach. destruct (requireOrgAdmin auth); [|by intros [= <- <-]].
  destruct body as [[rs ro]|]; [|by intros [= <- <-]]. cbn [negb].
  case_match; [by intros [= <- <-]|].
  destruct (AttachSiteToOrg _ _ _ _ _) as [rg1 r1] eqn:E. intros H1.
  assert (rg' = rg1) as ->.
  { destruct r1 as [?|[]]; [destruct (rg_siteOrgs rg1 !! _)|..]; by injection H1 as <- _. }
  split; [by eapply AttachSiteToOrg_change|].
  pose proof (AttachSiteToOrg_orgs rg (TrimSpace rs) (TrimSpace ro) (subject_of auth) env) as Ho.
  by rewrite E in Ho.
Qed.

Lemma DetachSiteFromOrg_orgs rg site subj env :
  rg_orgs (DetachSiteFromOrg rg site subj env).1 = rg_orgs rg.
Proof. unfold DetachSiteFromOrg. by repeat case_match. Qed.

Lemma serveSiteOrgsDetach_change rg auth rsite env rg' r :
  registry_ok rg -> serveSiteOrgsDetach rg auth rsite env = (rg', r) ->
  side_change (subject_of auth) rg rg'.
Proof.
  intros Hok. unfold serveSiteOrgsDetach. destruct (requireOrgAdmin auth); [|by intros [= <- <-]].
  cbn [negb]. case_match; [by intros [= <- <-]|].
  destruct (DetachSiteFromOrg _ _ _ _) as [rg1 r1] eqn:E. intros H1.
  assert (rg' = rg1) as -> by (destruct r1 as [?|[]]; by injection H1 as <- _).
  split; [by eapply DetachSiteFromOrg_change|].
  pose proof (DetachSiteFromOrg_orgs rg (TrimSpace rsite) (subject_of auth) env) as Ho.
  by rewrite E in Ho.
Qed.

Lemma PutRoleBinding_orgs rg rb env : rg_orgs (PutRoleBinding rg rb env).1 = rg_orgs rg.
Proof. unfold PutRoleBinding. by repeat case_match. Qed.
Lemma DeleteRoleBinding_orgs rg s c saved : rg_orgs (DeleteRoleBinding rg s c saved).1 = rg_orgs rg.
Proof. unfold DeleteRoleBinding. by repeat case_match. Qed.

Lemma serveRoleBindingsPut_change rg auth body env rg' r :
  serveRoleBindingsPut rg auth body env = (rg', r) -> side_change (subject_of auth) rg rg'.
Proof.
  unfold serveRoleBindingsPut. destruct (requireOrgAdmin auth); [|by intros [= <- <-]].
  destruct body as [[[rs rc] ro]|]; [|by intros [= <- <-]]. cbn [negb].
  case_match; [by intros [= <- <-]|].
  set (origin := if str_eqb (TrimSpace ro) _ then _ else _).
  destruct (_ && _) eqn:Eo; [by intros [= <- <-]|].
  assert (origin = "legacy" \/ origin = "crn") as Hor.
  { apply andb_false_iff in Eo as [Eo|Eo]; apply negb_false_iff, str_eqb_eq in Eo; auto. }
  destruct (PutRoleBinding _ _ _) as [rg1 r1] eqn:E. intros H1.
  assert (rg' = rg1) as -> by (destruct r1; by injection H1 as <- _).
  split; [by eapply PutRoleBinding_change, E|].
  match type of E with PutRoleBinding _ ?rb _ = _ =>
    pose proof (PutRoleBinding_orgs rg rb env) as Ho end.
  by rewrite E in Ho.
Qed.

Lemma serveRoleBindingsDelete_change rg auth s c saved rg' r :
  serveRoleBindingsDelete rg auth s c saved = (rg', r) -> side_change (subject_of auth) rg rg'.
Proof.
  unfold serveRoleBindingsDelete. destruct (requireOrgAdmin auth); [|by intros [= <- <-]].
  cbn [negb]. case_match; [by intros [= <- <-]|].
  destruct (DeleteRoleBinding _ _ _ _) as [rg1 r1] eqn:E. intros H1.
  assert (rg' = rg1) as -> by (destruct r1; by injection H1 as <- _).
  split; [by eapply DeleteRoleBinding_change|].
  pose proof (DeleteRoleBinding_orgs rg (TrimSpace s) (TrimSpace c) saved) as Ho.
  by rewrite E in Ho.
Qed.

(** A commit: the write half of a rename or deletion touches the tenant of the
    organisation it finds. *)
Lemma rename_write_change rg auth id name env :
  org_change (subject_of auth) id rg (rename_write rg auth id name env).1.
Proof.
  unfold rename_write. destruct (RenameOrg _ _ _ _ _) as [rg1 r1] eqn:E.
  apply RenameOrg_change in E. by destruct r1 as [?|[]].
Qed.
Lemma delete_write_change rg auth id env :
  org_change (subject_of auth) id rg (delete_write rg auth id env).1.
Proof.
  unfold delete_write. destruct (DeleteOrg _ _ _ _) as [rg1 r1] eqn:E.
  apply DeleteOrg_change in E. by destruct r1 as [?|[]].
Qed.

Lemma UpdateTenantTier_orgs rg id tier subj env :
  rg_orgs (UpdateTenantTier rg id tier subj env).1 = rg_orgs rg.
Proof. unfold UpdateTenantTier. by repeat case_match. Qed.
Lemma tier_write_change rg auth id tier env :
  side_change (subject_of auth) rg (tier_write rg auth id tier env).1.
Proof.
  unfold tier_write. pose proof (UpdateTenantTier_orgs rg id tier (subject_of auth) env) as Ho.
  destruct (UpdateTenantTier _ _ _ _ _) as [rg1 r1] eqn:E.
  apply UpdateTenantTier_change in E. by destruct r1 as [?|[]].
Qed.

Lemma DeleteTenant_orgs rg id subj env : rg_orgs (DeleteTenant rg id subj env).1 = rg_orgs rg.
Proof. unfold DeleteTenant. by repeat case_match. Qed.
Lemma tenant_delete_write_change rg auth id env :
  side_change (subject_of auth) rg (tenant_delete_write rg auth id env).1.
Proof.
  unfold tenant_delete_write. pose proof (DeleteTenant_orgs rg id (subject_of auth) env) as Ho.
  destruct (DeleteTenant _ _ _ _) as [rg1 r1] eqn:E.
  apply DeleteTenant_change in E. by destruct r1 as [?|[]].
Qed.

Lemma commit_change rg f env : changes (subject_of (fl_auth f)) rg (commit rg f env).
Proof.
  unfold commit. destruct (fl_write f).
  - destruct (rename_write_change rg (fl_auth f) id name env) as [->|(o & _ & H)];
      [apply changes_none|by eexists].
  - destruct (delete_write_change rg (fl_auth f) id env) as [->|(o & _ & H)];
      [apply changes_none|by eexists].
  - apply tier_write_change.
  - apply tenant_delete_write_change.
Qed.

(** ** The system invariant *)

(** The tenant a request in flight carries is the tenant of the organisation it
    is about to change. *)
Definition flight_ok (rg : registry) (ids : gset string) (f : flight) : Prop :=
  match fl_write f with
  | WRename id _ | WOrgDelete id =>
      id ∈ ids /\ (forall o t, rg_orgs rg !! id = Some o -> fl_tenant f = Some t ->
        og_TenantID o = t)
  | WTier _ _ | WTenantDelete _ => True
  end.

Record rsys_ok (y : rsys) : Prop := {
  rso_reg : registry_ok (rs_reg y);
  rso_ids : forall id o, rg_orgs (rs_reg y) !! id = Some o -> id ∈ rs_minted y;
  rso_flight : Forall (flight_ok (rs_reg y) (rs_minted y)) (rs_flight y)
}.

Lemma foreign_false tenant owner t : foreign tenant owner = false -> tenant = Some t -> owner = t.
Proof. intros H ->. cbn in H. by apply negb_false_iff, str_eqb_eq in H. Qed.

Lemma org_read_ok y auth tenant id o : rsys_ok y ->
  org_read (rs_reg y) auth tenant id = Ok o ->
  id ∈ rs_minted y /\ (forall o t, rg_orgs (rs_reg y) !! id = Some o -> tenant = Some t ->
    og_TenantID o = t).
Proof.
  intros Hok. unfold org_read. destruct (requireOrgAdmin auth); [|done]. cbn [negb].
  destruct (rg_orgs (rs_reg y) !! id) as [o1|] eqn:Ho; [|done].
  destruct (foreign _ _) eqn:Hf; [done|]. intros _.
  split; [by eapply rso_ids|]. intros o2 t [= <-]. by apply foreign_false.
Qed.

Lemma rename_read_org rg auth tenant id body name :
  rename_read rg auth tenant id body = Ok name -> exists o, org_read rg auth tenant id = Ok o.
Proof. unfold rename_read. destruct (org_read _ _ _ _) as [o|]; [|done]. by exists o. Qed.

(** A change keeps what the requests in flight rely on. *)
Lemma flight_ok_change subj touched minted rg rg' ids ids' f :
  change subj touched minted rg rg' -> (forall id, minted = Some id -> id ∉ ids) ->
  (forall id, id ∈ ids -> id ∈ ids') ->
  flight_ok rg ids f -> flight_ok rg' ids' f.
Proof.
  intros Hc Hm Hsub. unfold flight_ok. destruct (fl_write f) as [id ?|id|? ?|?]; try done;
    (intros [Hid Ht]; split; [by apply Hsub|]; intros o' t Ho' Hft;
     destruct (change_rows _ _ _ _ _ _ _ Hc Ho') as [E|(o & Ho & <-)];
     [by apply Hm in E|by apply Ht]).
Qed.

Lemma rsys_ok_change subj touched minted rg rg' fs fs' ids ids' :
  change subj touched minted rg rg' -> (forall id, minted = Some id -> (id ∉ ids) /\ id ∈ ids') ->
  (forall id, id ∈ ids -> id ∈ ids') -> (forall f, f ∈ fs' -> f ∈ fs) ->
  rsys_ok (mkRsys rg fs ids) -> rsys_ok (mkRsys rg' fs' ids').
Proof.
  intros Hc Hm Hsub Hfs [Hr Hi Hf]. cbn in *. split; cbn.
  - by eapply change_ok.
  - intros id o' Ho'. destruct (change_rows _ _ _ _ _ _ _ Hc Ho') as [E|(o & Ho & _)];
      [by apply Hm|by eapply Hsub, Hi].
  - apply Forall_forall. intros f Hin. eapply flight_ok_change; [done| |done|].
    + intros id E. by apply Hm.
    + by eapply Forall_forall; [|apply Hfs].
Qed.

Lemma rsys_ok_flight rg fs ids f :
  rsys_ok (mkRsys rg fs ids) -> flight_ok rg ids f -> rsys_ok (mkRsys rg (fs ++ [f]) ids).
Proof.
  intros [? ? ?] ?. split; [done..|]. apply Forall_app. split; [done|by apply Forall_singleton].
Qed.

Lemma in_delete {A} (l : list A) i x : x ∈ delete i l -> x ∈ l.
Proof.
  intros [j Hj]%list_elem_of_lookup. destruct (decide (j < i)).
  - rewrite list_lookup_delete_lt in Hj by done. by eapply list_elem_of_lookup_2.
  - rewrite list_lookup_delete_ge in Hj by lia. by eapply list_elem_of_lookup_2.
Qed.

Lemma fresh_org rg fs ids id : rsys_ok (mkRsys rg fs ids) -> id ∉ ids -> rg_orgs rg !! id = None.
Proof.
  intros Hok Hid. destruct (rg_orgs rg !! id) as [o|] eqn:E; [|done].
  by destruct Hid; eapply (rso_ids _ Hok).
Qed.

(** *** Every step is a change *)

Definition step_change (y : rsys) (l : string * option string) (y' : rsys) : Prop :=
  exists touched minted, change l.1 touched minted (rs_reg y) (rs_reg y') /\
    (forall id, minted = Some id -> (id ∉ rs_minted y) /\ id ∈ rs_minted y') /\
    (forall t, l.2 = Some t -> rg_orgs (rs_reg y') = rg_orgs (rs_reg y) \/ touched = Some t).

Lemma step_none rg fs ids l fs' ids' : step_change (mkRsys rg fs ids) l (mkRsys rg fs' ids').
Proof. exists None, None. split; [constructor|]. split; [done|]. by left. Qed.

Lemma step_side rg rg' fs ids auth tenant fs' ids' :
  side_change (subject_of auth) rg rg' ->
  step_change (mkRsys rg fs ids) (who auth tenant) (mkRsys rg' fs' ids').
Proof. intros [[touched H] Ho]. exists touched, None. split; [done|]. split; [done|]. by left. Qed.

Lemma step_org rg rg' fs ids auth tenant fs' ids' id :
  org_change (subject_of auth) id rg rg' ->
  (forall o t, rg_orgs rg !! id = Some o -> tenant = Some t -> og_TenantID o = t) ->
  step_change (mkRsys rg fs ids) (who auth tenant) (mkRsys rg' fs' ids').
Proof.
  intros [->|(o & Ho & Hc)] Ht; [apply step_none|].
  exists (Some (og_TenantID o)), None. split; [done|]. split; [done|].
  intros t E. right. by rewrite (Ht _ _ Ho E).
Qed.

Lemma step_commit rg fs ids i f env :
  flight_ok rg ids f ->
  step_change (mkRsys rg fs ids) (who (fl_auth f) (fl_tenant f))
    (mkRsys (commit rg f env) (delete i fs) ids).
Proof.
  unfold flight_ok, commit. destruct (fl_write f) as [id name|id|id tier|id].
  - intros [_ Ht]. eapply step_org; [apply rename_write_change|done].
  - intros [_ Ht]. eapply step_org; [apply delete_write_change|done].
  - intros _. apply step_side, tier_write_change.
  - intros _. apply step_side, tenant_delete_write_change.
Qed.

Lemma rstep_change y l y' : rsys_ok y -> rstep y l y' -> step_change y l y'.
Proof.
  intros Hok. destruct 1; try apply step_none.
  - destruct (serveTenantsCreate_change _ _ _ _ _ _ _ (fresh_org _ _ _ _ Hok H) H0)
      as [->|(-> & t & Hc)]; [apply step_none|].
    exists (Some t), (Some (we_id env)). split; [done|]. split; [|done].
    intros id [= <-]. split; [done|by apply elem_of_union_l, elem_of_singleton_2].
  - destruct (serveOrgsCreate_change _ _ _ _ _ _ _ (fresh_org _ _ _ _ Hok H) H0)
      as [->|(t & Ht & Hc)]; [apply step_none|].
    exists (Some t), (Some (we_id env)). split; [done|]. split.
    + intros id [= <-]. split; [done|by apply elem_of_union_l, elem_of_singleton_2].
    + intros t' E. right. f_equal. by eapply foreign_false.
  - by eapply step_side, serveSiteOrgsAttach_change.
  - by eapply step_side, serveSiteOrgsDetach_change; [apply Hok|].
  - by eapply step_side, serveRoleBindingsPut_change.
  - by eapply step_side, serveRoleBindingsDelete_change.
  - apply step_commit. by eapply Forall_lookup_1; [apply (rso_flight _ Hok)|].
Qed.

Lemma rstep_ok y l y' : rsys_ok y -> rstep y l y' -> rsys_ok y'.
Proof.
  intros Hok Hs. destruct (rstep_change _ _ _ Hok Hs) as (touched & minted & Hc & Hm & _).
  destruct Hs; cbn in Hc, Hm;
    try (eapply rsys_ok_change; [exact Hc|exact Hm| |..|exact Hok];
         [by intros; try apply elem_of_union_r|by first [done|apply in_delete]]).
  - apply rsys_ok_flight; [done|].
    destruct (rename_read_org _ _ _ _ _ _ H) as [o Ho]. by apply (org_read_ok _ _ _ _ _ Hok Ho).
  - apply rsys_ok_flight; [done|]. by apply (org_read_ok _ _ _ _ _ Hok H).
  - by apply rsys_ok_flight.
  - by apply rsys_ok_flight.
Qed.

Lemma rreachable_ok y : rreachable y -> rsys_ok y.
Proof.
  induction 1; [|by eapply rstep_ok].
  split; cbn; [|by intros|constructor].
  split; cbn; intros; try done; constructor.
Qed.

(** ** Examples *)

Definition root : Principal := mkPrincipal "u:root" RoleAdmin [] None.
Definition env_of (id aud : string) : wenv := mkWenv 1000 id aud (aud +:+ "x") true.

(** A tenant, an organisation in it, and a site of the organisation. *)
Definition demo0 : rsys := mkRsys (mkReg ∅ ∅ ∅ [] []) [] ∅.
Definition demo1 : rsys :=
  mkRsys (serveTenantsCreate (rs_reg demo0) (Some root) None (Some ("acme", "Acme"))
            (env_of "og_A" "ta_1")).1 [] ({["og_A"]} ∪ ∅).
Definition demo2 : rsys :=
  mkRsys (serveOrgsCreate (rs_reg demo1) (Some root) (Some "acme") (Some ("acme", "ops"))
            (env_of "og_B" "ta_2")).1 [] ({["og_B"]} ∪ ({["og_A"]} ∪ ∅)).
Definition demo3 : rsys :=
  mkRsys (serveSiteOrgsAttach (rs_reg demo2) (Some root) (Some ("site01", "og_B"))
            (env_of EmptyString "ta_3")).1 [] (rs_minted demo2).

Lemma step1 : rstep demo0 (who (Some root) None) demo1.
Proof.
  eapply (rs_tenants_create _ _ _ _ _ _ (env_of "og_A" "ta_1")); [apply not_elem_of_empty|].
  apply surjective_pairing.
Defined.
Lemma step2 : rstep demo1 (who (Some root) (Some "acme")) demo2.
Proof.
  eapply (rs_orgs_create _ _ _ _ _ _ (env_of "og_B" "ta_2")); [|apply surjective_pairing].
  cbn. rewrite elem_of_union, elem_of_singleton, elem_of_empty. by intros [|].
Defined.
Lemma step3 : rstep demo2 (who (Some root) None) demo3.
Proof. eapply rs_attach, surjective_pairing. Defined.

Lemma demo1_reachable : rreachable demo1.
Proof. eapply rr_step; [apply rr_init|apply step1]. Defined.
Lemma demo2_reachable : rreachable demo2.
Proof. eapply rr_step; [apply demo1_reachable|apply step2]. Defined.
Lemma demo3_reachable : rreachable demo3.
Proof. eapply rr_step; [apply demo2_reachable|apply step3]. Defined.

Example demo_audits : map ta_Detail (rg_auds (rs_reg demo3)) =
  ["Acme"; "og_A:default"; "og_B:ops"; "site01→og_B"].
Proof. vm_compute. reflexivity. Qed.

(** The organisation keeps its site: it cannot be deleted, and the tenant not
    while it has organisations. *)
Example demo_refused :
  (DeleteOrg (rs_reg demo3) "og_B" "u:root" (env_of EmptyString "ta_4")).2
    = Err ErrOrgOwnsResources /\
  (DeleteTenant (rs_reg demo3) "acme" "u:root" (env_of EmptyString "ta_4")).2
    = Err ErrTenantOwnsOrgs.
Proof. vm_compute. split; reflexivity. Qed.

(** The handlers of site attachments, role bindings and tiers do not look at
    the tenant of the request: an administrator confined to the tenant
    "globex" takes a site from a tenant, binds any subject to any scope, and
    raises the tier of a tenant, although creating an organisation there is
    refused. *)
Definition globex_admin : option string := Some "globex".
Example demo_site_taken : exists y,
  rstep demo3 (who (Some root) globex_admin) y /\
  so_OrgID <$> rg_siteOrgs (rs_reg y) !! "site01" = Some "og_A" /\
  so_OrgID <$> rg_siteOrgs (rs_reg demo3) !! "site01" = Some "og_B" /\
  (serveOrgsCreate (rs_reg demo3) (Some root) globex_admin (Some ("acme", "xx"))
     (env_of "og_C" "ta_5")).2 = Err scope_mismatch.
Proof.
  eexists. split.
  - eapply (rs_attach _ _ _ _ _ (Some ("site01", "og_A")) (env_of EmptyString "ta_4")).
    apply surjective_pairing.
  - vm_compute. repeat split.
Qed.

Example demo_bind_any : exists y,
  rstep demo3 (who (Some root) globex_admin) y /\
  map binding_key (rg_bindings (rs_reg y)) = [("u:globex", "crn:acme:**")].
Proof.
  eexists. split.
  - eapply (rs_bind _ _ _ _ _ (Some ("u:globex", "crn:acme:**", "crn"))
              (env_of "rb_1" EmptyString)). apply surjective_pairing.
  - vm_compute. reflexivity.
Qed.

(** ** Theorems *)

(** C17: the registry stays well-formed under every interleaving of requests
    and with every outcome of the saves: every tenant has a valid slug, a name
    and a known tier, every organisation belongs to an existing tenant and its
    name is a valid slug, unique in the tenant, every site mapping has a valid
    slug and leads to an existing organisation, and there is one role binding
    per subject and scope, of a known origin. *)
Theorem registry_integrity y : rreachable y -> registry_ok (rs_reg y).
Proof. intros H. apply rso_reg, rreachable_ok, H. Qed.

Lemma registry_integrity_witness : rreachable demo3 /\ registry_ok (rs_reg demo3).
Proof. split; [apply demo3_reachable|apply registry_integrity, demo3_reachable]. Defined.

(** The tenant audit is append-only, every row that is added names the
    acting principal, and no tenant, organisation or site mapping changes
    without a row for the tenant it belongs to (for a site the tenant of its
    old or new organisation). *)
Lemma changes_audited y subj tn y' :
  rreachable y -> rstep y (subj, tn) y' ->
  exists new, rg_auds (rs_reg y') = rg_auds (rs_reg y) ++ new /\
    (forall a, a ∈ new -> ta_Principal a = subj) /\
    (forall id, rg_tenants (rs_reg y) !! id <> rg_tenants (rs_reg y') !! id ->
       exists a, a ∈ new /\ ta_TenantID a = id) /\
    (forall id o, rg_orgs (rs_reg y) !! id <> rg_orgs (rs_reg y') !! id ->
       rg_orgs (rs_reg y) !! id = Some o \/ rg_orgs (rs_reg y') !! id = Some o ->
       exists a, a ∈ new /\ ta_TenantID a = og_TenantID o) /\
    (forall s, rg_siteOrgs (rs_reg y) !! s <> rg_siteOrgs (rs_reg y') !! s ->
       exists so o a,
         (rg_siteOrgs (rs_reg y) !! s = Some so \/ rg_siteOrgs (rs_reg y') !! s = Some so) /\
         rg_orgs (rs_reg y) !! so_OrgID so = Some o /\ a ∈ new /\ ta_TenantID a = og_TenantID o).
Proof.
  intros Hr Hs. destruct (rstep_change _ _ _ (rreachable_ok _ Hr) Hs)
    as (touched & minted & Hc & _). cbn in Hc.
  destruct (change_audits _ _ _ _ _ Hc) as (new & Ha & Hall & Hne). exists new.
  assert (forall t, touched = Some t -> exists a, a ∈ new /\ ta_TenantID a = t) as Hrow.
  { intros t ->. destruct new as [|a new']; [by destruct Hne|]. exists a.
    apply Forall_cons in Hall as [[_ [= ->]] _]. split; [by left|done]. }
  split; [done|]. split; [intros a Hin; by eapply Forall_forall in Hall as [? _]|].
  split; [|split].
  - intros id Hd. by eapply Hrow, change_tenants.
  - intros id o Hd Hin. by eapply Hrow, change_orgs.
  - intros s Hd. destruct (change_sites _ _ _ _ _ _ Hc Hd) as (so & o & H1 & H2 & H3).
    destruct (Hrow _ H3) as (a & ? & ?). eauto 10.
Qed.

Lemma changes_audited_witness :
  rreachable demo2 /\ exists new, rg_auds (rs_reg demo3) = rg_auds (rs_reg demo2) ++ new.
Proof.
  split; [apply demo2_reachable|].
  destruct (changes_audited demo2 "u:root" None demo3 demo2_reachable step3) as (new & H & _).
  exists new. exact H.
Defined.

(** C18: isolation of tenants in the organisation handlers: a request that
    carries a tenant, whatever other requests do between its check and its
    write, only creates, renames or deletes organisations of that tenant. *)
Theorem tenant_isolation y subj t y' :
  rreachable y -> rstep y (subj, Some t) y' ->
  forall id o, rg_orgs (rs_reg y) !! id <> rg_orgs (rs_reg y') !! id ->
    rg_orgs (rs_reg y) !! id = Some o \/ rg_orgs (rs_reg y') !! id = Some o ->
    og_TenantID o = t.
Proof.
  intros Hr Hs id o Hd Hin. destruct (rstep_change _ _ _ (rreachable_ok _ Hr) Hs)
    as (touched & minted & Hc & _ & Ht). cbn in Hc, Ht.
  destruct (Ht t eq_refl) as [E|E]; [by rewrite E in Hd|].
  pose proof (change_orgs _ _ _ _ _ _ _ Hc Hd Hin). congruence.
Qed.

Lemma tenant_isolation_witness :
  rg_orgs (rs_reg demo1) !! "og_B" = None /\
  exists o, rg_orgs (rs_reg demo2) !! "og_B" = Some o /\ og_TenantID o = "acme".
Proof.
  split; [vm_compute; reflexivity|].
  exists (mkOrg "og_B" "acme" "ops" 1000). split; [vm_compute; reflexivity|].
  apply (tenant_isolation demo1 "u:root" "acme" demo2 demo1_reachable step2 "og_B").
  - vm_compute. discriminate.
  - right. vm_compute. reflexivity.
Defined.

(** The isolation tier of a tenant only goes up: a step leaves the row as
    it is or raises its tier and keeps everything else but the time of the
    update; a lower tier needs the tenant to be deleted first. *)
Lemma tier_only_up y l y' id t t' :
  rreachable y -> rstep y l y' ->
  rg_tenants (rs_reg y) !! id = Some t -> rg_tenants (rs_reg y') !! id = Some t' ->
  t' = t \/ exists r r', tenantTierRank (tn_IsolationTier t) = Some r /\
    tenantTierRank (tn_IsolationTier t') = Some r' /\ (r < r')%Z /\
    tn_ID t' = tn_ID t /\ tn_DisplayName t' = tn_DisplayName t /\ tn_Status t' = tn_Status t /\
    tn_CreatedAt t' = tn_CreatedAt t.
Proof.
  intros Hr Hs. destruct (rstep_change _ _ _ (rreachable_ok _ Hr) Hs)
    as (touched & minted & Hc & _). by apply (change_tier _ _ _ _ _ _ _ _ Hc).
Qed.

Lemma tier_only_up_witness : exists t, rg_tenants (rs_reg demo3) !! "acme" = Some t /\
  tn_IsolationTier t = "label".
Proof.
  exists (mkTenant "acme" "Acme" "label" "active" 1000 1000).
  split; [vm_compute; reflexivity|].
  destruct (tier_only_up demo2 (who (Some root) None) demo3 "acme"
    (mkTenant "acme" "Acme" "label" "active" 1000 1000)
    (mkTenant "acme" "Acme" "label" "active" 1000 1000) demo2_reachable step3)
    as [_|(r & r' & _)]; try (vm_compute; reflexivity).
Defined.
