(* ===== verification/Spares.v ===== *)
(** * Spare parts (core/spares.go, the spare part of core/store.go)

    The catalogue with its stock counter, the append-only movement log, the
    create and adjust handlers, and the low-stock scanner that opens tickets.
    The main theorem is that the counter and the log never disagree and that
    the stock neither goes below zero nor wraps around. *)
From S2P Require Import Prelude GoTime CPath RBAC Http Tickets TicketScan.
Open Scope string_scope.
Open Scope list_scope.

Record SparePart : Type := mkSpare {
  sp_ID : string; sp_SKU : string; sp_Name : string; sp_Qty : Z; sp_MinQty : Z;
  sp_Location : string }.

Record SpareTxn : Type := mkTxn {
  tx_ID : string; tx_SpareID : string; tx_Delta : Z; tx_TicketID : string; tx_At : time }.

Record depot : Type := mkDepot { dp_spares : gmap string SparePart; dp_txns : list SpareTxn }.

Inductive spare_err : Type :=
  | ErrSKUExists | ErrInsufficientStock | ErrNotFound | ErrZeroDelta | ErrSpareSave.

(** [int] is 64 bits wide. *)
Definition is_int64 (z : Z) : Prop := (min_int64 <= z <= max_int64)%Z.

(** ** The store *)

Definition sku_taken (m : gmap string SparePart) (sp : SparePart) : bool :=
  existsb (fun '(id, other) =>
      negb (str_eqb id (sp_ID sp)) && str_eqb (sp_SKU other) (sp_SKU sp)) (map_to_list m).

Definition PutSpare (dp : depot) (sp : SparePart) (saved : bool) : depot * result spare_err unit :=
  if sku_taken (dp_spares dp) sp then (dp, Err ErrSKUExists)
  else if saved then (mkDepot (<[sp_ID sp := sp]> (dp_spares dp)) (dp_txns dp), Ok tt)
  else (dp, Err ErrSpareSave).

Definition with_qty (sp : SparePart) (q : Z) : SparePart :=
  mkSpare (sp_ID sp) (sp_SKU sp) (sp_Name sp) q (sp_MinQty sp) (sp_Location sp).

Definition AdjustSpare (dp : depot) (id : string) (delta : Z) (ticketID : string) (at_ : time)
    (txnID : string) (saved : bool) : depot * result spare_err (SparePart * SpareTxn) :=
  match dp_spares dp !! id with
  | None => (dp, Err ErrNotFound)
  | Some sp =>
      if (delta =? 0)%Z then (dp, Err ErrZeroDelta)
      else
        let newQty := wrap64 (sp_Qty sp + delta) in
        if (newQty <? 0)%Z then (dp, Err ErrInsufficientStock)
        else
          let sp' := with_qty sp newQty in
          let txn := mkTxn txnID id delta ticketID at_ in
          if saved
          then (mkDepot (<[id := sp']> (dp_spares dp)) (dp_txns dp ++ [txn]), Ok (sp', txn))
          else (dp, Err ErrSpareSave)
  end.

(** ** Handlers *)

Record spareCreateRequest : Type := mkSpareCreate {
  sc_SKU : string; sc_Name : string; sc_Qty : Z; sc_MinQty : Z; sc_Location : string }.

Definition serveSparesCreate (dp : depot) (body : option spareCreateRequest) (id : string)
    (saved : bool) : depot * result problem SparePart :=
  match body with
  | None => (dp, Err (bad_request "bad json"))
  | Some req =>
      if str_eqb (sc_SKU req) EmptyString then (dp, Err (bad_request "missing sku"))
      else if str_eqb (sc_Name req) EmptyString then (dp, Err (bad_request "missing name"))
      else if (sc_Qty req <? 0)%Z then (dp, Err (bad_request "qty < 0"))
      else if (sc_MinQty req <? 0)%Z then (dp, Err (bad_request "min_qty < 0"))
      else
        let sp := mkSpare id (sc_SKU req) (sc_Name req) (sc_Qty req) (sc_MinQty req)
          (sc_Location req) in
        match PutSpare dp sp saved with
        | (dp', Ok _) => (dp', Ok sp)
        | (dp', Err ErrSKUExists) => (dp', Err (Problem 422 "sku-exists" "sku already exists"))
        | (dp', Err _) => (dp', Err store_error)
        end
  end.

Record spareAdjustRequest : Type := mkAdjust { sj_Delta : Z; sj_TicketID : string }.

Definition low_stock (sp : SparePart) : bool := (sp_Qty sp <? sp_MinQty sp)%Z.

Definition serveSpareAdjust (dp : depot) (body : option spareAdjustRequest) (id : string)
    (now : time) (txnID : string) (saved : bool) :
    depot * result problem (SparePart * bool * SpareTxn) :=
  match body with
  | None => (dp, Err (bad_request "bad json"))
  | Some req =>
      if (sj_Delta req =? 0)%Z then (dp, Err (bad_request "delta must be non-zero"))
      else if negb (str_eqb (sj_TicketID req) EmptyString) &&
              negb (has_prefix (sj_TicketID req) "tk_")
      then (dp, Err (bad_request "bad ticket_id prefix"))
      else
        match AdjustSpare dp id (sj_Delta req) (sj_TicketID req) now txnID saved with
        | (dp', Ok (sp, txn)) => (dp', Ok (sp, low_stock sp, txn))
        | (dp', Err ErrInsufficientStock) =>
            (dp', Err (Problem 422 "insufficient-stock" "insufficient stock"))
        | (dp', Err _) => (dp', Err store_error)
        end
  end.

(** ** The low-stock scanner *)

Definition spareAlarmID (spareID : string) : string := "spare:" +:+ spareID.

Definition low_stock_title (sp : SparePart) : string :=
  "Low stock: " +:+ sp_SKU sp +:+ " (qty " +:+ itoa (sp_Qty sp) +:+ " < min " +:+
  itoa (sp_MinQty sp) +:+ ")".

#[export] Instance low_stock_source : TicketSource SparePart := {
  source_alarm sp := spareAlarmID (sp_ID sp);
  source_wants sp := negb (sp_MinQty sp <=? sp_Qty sp)%Z;
  source_ticket sp now id := mkTicket id (spareAlarmID (sp_ID sp)) EmptyString (low_stock_title sp) "minor" "open"
    EmptyString now None None None None 0 EmptyString }.

Definition hasOpenLowStockTicket (m : gmap string Ticket) (spareID : string) : bool :=
  has_open_ticket m (spareAlarmID spareID).

(** [id] is the minted ticket id. *)
Definition fireLowStock (m : gmap string Ticket) (sp : SparePart) (now : time) (id : string) (saved : bool) :
    gmap string Ticket := open_ticket m sp now id saved.

Definition scanSpareStockTick (m : gmap string Ticket) (locked : bool) (spares : list SparePart)
    (now : time) (id : nat -> string) (saved : nat -> bool) : gmap string Ticket :=
  if negb locked then m else ticket_loop m spares now id saved 0.

(** ** Histories

    [initial] remembers the quantity each part was created with. *)

Record dsys : Type := mkDsys { ds_depot : depot; ds_initial : gmap string Z }.

Inductive dstep : dsys -> dsys -> Prop :=
  | ds_create dp ini body id saved dp' sp :
      dp_spares dp !! id = None -> (forall req, body = Some req -> is_int64 (sc_Qty req)) ->
      serveSparesCreate dp body id saved = (dp', Ok sp) ->
      dstep (mkDsys dp ini) (mkDsys dp' (<[id := sp_Qty sp]> ini))
  | ds_create_refused dp ini body id saved dp' e :
      serveSparesCreate dp body id saved = (dp', Err e) ->
      dstep (mkDsys dp ini) (mkDsys dp' ini)
  | ds_adjust dp ini body id now txnID saved dp' r :
      (forall req, body = Some req -> is_int64 (sj_Delta req)) ->
      serveSpareAdjust dp body id now txnID saved = (dp', r) ->
      dstep (mkDsys dp ini) (mkDsys dp' ini).

Inductive dreachable : dsys -> Prop :=
  | dr_init : dreachable (mkDsys (mkDepot ∅ []) ∅)
  | dr_step y y' : dreachable y -> dstep y y' -> dreachable y'.

(** The sum of the movements of one part. *)
Fixpoint moved (txns : list SpareTxn) (id : string) : Z :=
  match txns with
  | [] => 0
  | t :: rest => ((if str_eqb (tx_SpareID t) id then tx_Delta t else 0) + moved rest id)%Z
  end.

Record ledger_ok (y : dsys) : Prop := {
  lg_qty : forall id sp, dp_spares (ds_depot y) !! id = Some sp ->
    (0 <= sp_Qty sp <= max_int64)%Z /\
    exists q0, ds_initial y !! id = Some q0 /\
      sp_Qty sp = (q0 + moved (dp_txns (ds_depot y)) id)%Z;
  lg_id : forall id sp, dp_spares (ds_depot y) !! id = Some sp -> sp_ID sp = id;
  lg_sku : forall id1 id2 sp1 sp2, dp_spares (ds_depot y) !! id1 = Some sp1 ->
    dp_spares (ds_depot y) !! id2 = Some sp2 -> sp_SKU sp1 = sp_SKU sp2 -> id1 = id2;
  lg_txn : forall t, t ∈ dp_txns (ds_depot y) ->
    tx_Delta t <> 0%Z /\ is_Some (dp_spares (ds_depot y) !! tx_SpareID t)
}.

(** ** Lemmas *)

Lemma moved_app a b id : moved (a ++ b) id = (moved a id + moved b id)%Z.
Proof. induction a as [|t a IH]; cbn [moved app]; [lia|]. rewrite IH. lia. Qed.

Lemma sku_taken_false m sp :
  sku_taken m sp = false ->
  forall id other, m !! id = Some other -> sp_SKU other = sp_SKU sp -> id = sp_ID sp.
Proof.
  unfold sku_taken. intros H id other Hm Heq.
  destruct (str_eqb id (sp_ID sp)) eqn:E; [by apply str_eqb_eq|exfalso].
  apply not_true_iff_false in H. apply H. apply existsb_exists. exists (id, other).
  split; [by apply list_elem_of_In, elem_of_map_to_list|].
  rewrite E, Heq. cbn. apply str_eqb_refl.
Qed.

(** A 64-bit sum of a non-negative counter and a movement is non-negative only
    when it did not wrap. *)
Lemma wrap64_sum_nonneg q d :
  (0 <= q <= max_int64)%Z -> is_int64 d -> (0 <= wrap64 (q + d))%Z ->
  wrap64 (q + d) = (q + d)%Z /\ (0 <= q + d <= max_int64)%Z.
Proof.
  unfold wrap64, is_int64, min_int64, max_int64. intros Hq Hd H.
  pose proof (Z.div_mod (q + d + 2 ^ 63) (2 ^ 64)) as Hdm.
  pose proof (Z.mod_pos_bound (q + d + 2 ^ 63) (2 ^ 64)) as Hb. nia.
Qed.

Lemma serveSparesCreate_inv dp body id saved dp' r :
  serveSparesCreate dp body id saved = (dp', r) ->
  match r with
  | Err _ => dp' = dp
  | Ok sp => exists req, body = Some req /\ sp_ID sp = id /\ sp_Qty sp = sc_Qty req /\
      (0 <= sc_Qty req)%Z /\ sku_taken (dp_spares dp) sp = false /\
      dp' = mkDepot (<[id := sp]> (dp_spares dp)) (dp_txns dp)
  end.
Proof.
  unfold serveSparesCreate, PutSpare. destruct body as [req|]; [|by intros [= <- <-]].
  destruct (str_eqb (sc_SKU req) _); [by intros [= <- <-]|].
  destruct (str_eqb (sc_Name req) _); [by intros [= <- <-]|].
  destruct (Z.ltb_spec (sc_Qty req) 0); [by intros [= <- <-]|].
  destruct (Z.ltb_spec (sc_MinQty req) 0); [by intros [= <- <-]|].
  destruct (sku_taken _ _) eqn:Et; [by intros [= <- <-]|].
  destruct saved; intros [= <- <-]; [|done]. cbn. eauto 10.
Qed.

Lemma serveSpareAdjust_inv dp body id now txnID saved dp' r :
  serveSpareAdjust dp body id now txnID saved = (dp', r) ->
  match r with
  | Err _ => dp' = dp
  | Ok (sp', low, txn) => exists req sp, body = Some req /\ dp_spares dp !! id = Some sp /\
      sj_Delta req <> 0%Z /\ (0 <= wrap64 (sp_Qty sp + sj_Delta req))%Z /\
      sp' = with_qty sp (wrap64 (sp_Qty sp + sj_Delta req)) /\ low = low_stock sp' /\
      txn = mkTxn txnID id (sj_Delta req) (sj_TicketID req) now /\
      dp' = mkDepot (<[id := sp']> (dp_spares dp)) (dp_txns dp ++ [txn])
  end.
Proof.
  unfold serveSpareAdjust, AdjustSpare. destruct body as [req|]; [|by intros [= <- <-]].
  destruct (Z.eqb_spec (sj_Delta req) 0); [by intros [= <- <-]|].
  destruct (negb _ && negb _); [by intros [= <- <-]|].
  destruct (dp_spares dp !! id) as [sp|]; [|by intros [= <- <-]].
  destruct (Z.ltb_spec (wrap64 (sp_Qty sp + sj_Delta req)) 0); [by intros [= <- <-]|].
  destruct saved; intros [= <- <-]; [|done]. eauto 15.
Qed.

Lemma ledger_ok_create dp ini sp id :
  ledger_ok (mkDsys dp ini) -> dp_spares dp !! id = None -> sp_ID sp = id ->
  (0 <= sp_Qty sp <= max_int64)%Z -> sku_taken (dp_spares dp) sp = false ->
  ledger_ok (mkDsys (mkDepot (<[id := sp]> (dp_spares dp)) (dp_txns dp))
    (<[id := sp_Qty sp]> ini)).
Proof.
  intros [Hq Hi Hs Ht] Hnone <- Hr Hsku. cbn in *.
  assert (Hm : moved (dp_txns dp) (sp_ID sp) = 0%Z).
  { clear -Ht Hnone. induction (dp_txns dp) as [|t l IH]; [done|]. cbn [moved].
    rewrite IH; [|intros; apply Ht; by constructor].
    destruct (str_eqb _ _) eqn:E; [|done]. apply str_eqb_eq in E.
    destruct (Ht t) as [_ [x Hx]]; [by constructor|]. congruence. }
  split; cbn.
  - intros id' sp' [[<- <-]|[Hne H]]%lookup_insert_Some.
    + split; [done|]. exists (sp_Qty sp). rewrite lookup_insert_eq. split; [done|lia].
    + rewrite lookup_insert_ne by done. eauto.
  - intros id' sp' [[<- <-]|[Hne H]]%lookup_insert_Some; eauto.
  - intros id1 id2 sp1 sp2 [[<- <-]|[Hne1 H1]]%lookup_insert_Some
      [[<- <-]|[Hne2 H2]]%lookup_insert_Some Heq; [done| | |by eapply Hs].
    + exfalso. apply Hne2. symmetry. eapply sku_taken_false; [done| |symmetry]; done.
    + exfalso. apply Hne1. symmetry. by eapply sku_taken_false.
  - intros t Hin. destruct (Ht t Hin) as [Hd Hx]. split; [done|].
    destruct (decide (sp_ID sp = tx_SpareID t)) as [->|];
      [by rewrite lookup_insert_eq|by rewrite lookup_insert_ne].
Qed.

Lemma ledger_ok_adjust dp ini sp id d txnID tk now :
  ledger_ok (mkDsys dp ini) -> dp_spares dp !! id = Some sp -> is_int64 d -> d <> 0%Z ->
  (0 <= wrap64 (sp_Qty sp + d))%Z ->
  ledger_ok (mkDsys (mkDepot (<[id := with_qty sp (wrap64 (sp_Qty sp + d))]> (dp_spares dp))
    (dp_txns dp ++ [mkTxn txnID id d tk now])) ini).
Proof.
  intros [Hq Hi Hs Ht] Hid Hd Hd0 Hw. cbn in *.
  destruct (Hq _ _ Hid) as (Hr & q0 & Hini & Hsum).
  destruct (wrap64_sum_nonneg _ _ Hr Hd Hw) as [-> Hr'].
  split; cbn.
  - intros id' sp' [[<- <-]|[Hne H]]%lookup_insert_Some.
    + split; [done|]. exists q0. split; [done|]. rewrite moved_app. cbn [moved tx_SpareID tx_Delta sp_Qty with_qty].
      rewrite str_eqb_refl. lia.
    + destruct (Hq _ _ H) as (? & q1 & ? & ?). split; [done|]. exists q1. split; [done|].
      rewrite moved_app. cbn [moved tx_SpareID tx_Delta]. rewrite (proj2 (str_eqb_neq id id') Hne). lia.
  - intros id' sp' [[<- <-]|[Hne H]]%lookup_insert_Some; cbn; eauto.
  - assert (Hsku : forall i x, <[id := with_qty sp (sp_Qty sp + d)]> (dp_spares dp) !! i = Some x ->
      exists x', dp_spares dp !! i = Some x' /\ sp_SKU x' = sp_SKU x).
    { intros i x [[<- <-]|[_ H]]%lookup_insert_Some; eauto. }
    intros id1 id2 sp1 sp2 (x1 & H1 & E1)%Hsku (x2 & H2 & E2)%Hsku Heq.
    eapply Hs; [done..|congruence].
  - assert (Hdom : forall i, is_Some (dp_spares dp !! i) ->
      is_Some (<[id := with_qty sp (sp_Qty sp + d)]> (dp_spares dp) !! i)).
    { intros i Hi'. apply lookup_insert_is_Some'. by right. }
    intros t [Hin| ->%list_elem_of_singleton]%elem_of_app; cbn.
    + destruct (Ht t Hin). auto.
    + eauto.
Qed.

Lemma dstep_ledger_ok y y' : ledger_ok y -> dstep y y' -> ledger_ok y'.
Proof.
  intros Hy Hstep. destruct Hstep as [dp ini body id saved dp' sp Hnone Hb E
    |dp ini body id saved dp' e E|dp ini body id now txnID saved dp' r Hb E].
  - apply serveSparesCreate_inv in E as (req & -> & Hid & Hqty & H0 & Hsku & ->).
    specialize (Hb req eq_refl). apply ledger_ok_create; [done..| |done].
    unfold is_int64 in Hb. rewrite Hqty. lia.
  - apply serveSparesCreate_inv in E as ->. done.
  - apply serveSpareAdjust_inv in E. destruct r as [[[sp' low] txn]|e]; [|by subst].
    destruct E as (req & sp & -> & Hid & H0 & Hw & -> & _ & -> & ->).
    apply ledger_ok_adjust; auto.
Qed.

Lemma dreachable_ledger_ok y : dreachable y -> ledger_ok y.
Proof.
  induction 1 as [|y y' _ IH Hstep]; [|by eapply dstep_ledger_ok].
  split; cbn; intros *; try (by rewrite lookup_empty); by intros ?%elem_of_nil.
Qed.

(** ** The scanner *)

#[export] Instance low_stock_laws : TicketSourceLaws SparePart.
Proof. split; [done|]. intros sp now id. repeat split; done. Qed.

(** A pass opens tickets for low parts only, for each at most one; nothing else
    is touched; and when the saves succeed every low part has an open ticket. *)
Lemma scanSpareStockTick_spec spares m now id saved :
  table_ok m -> (forall j, m !! id j = None) -> (forall i j, id i = id j -> i = j) ->
  let m' := scanSpareStockTick m true spares now id saved in
  table_ok m' /\ m ⊆ m' /\
  (forall i t, m' !! i = Some t -> m !! i = Some t \/
    exists sp, sp ∈ spares /\ low_stock sp = true /\ ~ has_open m (spareAlarmID (sp_ID sp)) /\ t = opened sp now i) /\
  ((forall j, saved j = true) -> forall sp, sp ∈ spares -> low_stock sp = true ->
     has_open m' (spareAlarmID (sp_ID sp))).
Proof.
  intros Hok Hf Hi. destruct (ticket_loop_spec spares now id saved m 0 Hok) as (H1 & H2 & H3 & H4); [done..|].
  assert (Hw : forall sp, source_wants sp = low_stock sp).
  { intros sp. cbn. unfold low_stock. by rewrite Z.leb_antisym, negb_involutive. }
  split; [done|]. split; [done|]. split.
  - intros i t [?|(sp & ? & ? & ?)]%H3; [by left|right]. exists sp. by rewrite <- Hw.
  - intros Hs sp Hin Hlow. apply H4; [done..|]. by rewrite Hw.
Qed.

(** ** Theorems *)

(** C15: after any history of create and adjust requests, successful or not,
    every part's quantity is between 0 and the largest 64-bit integer and
    equals the quantity the part was created with plus the sum of its logged
    movements; every log entry is non-zero and belongs to a part that exists;
    no two parts share a SKU. The requests' numbers are 64-bit integers and a
    minted part id is new. *)
Theorem stock_ledger y : dreachable y -> ledger_ok y.
Proof. apply dreachable_ledger_ok. Qed.

(** A part with 5 pieces; taking 7 is refused, taking 3 is logged, and adding
    the largest integer wraps around and is refused. *)
Definition demo_depot : depot :=
  mkDepot {[ "sp_A" := mkSpare "sp_A" "FAN-1" "fan" 2 4 EmptyString ]}
    [mkTxn "st_1" "sp_A" (-3) EmptyString 10].

Lemma demo_dreachable : dreachable (mkDsys demo_depot {[ "sp_A" := 5%Z ]}).
Proof.
  assert (Hb : forall d : Z, Is_true (bool_decide (min_int64 <= d <= max_int64)%Z) ->
    forall req, Some (mkAdjust d EmptyString) = Some req -> is_int64 (sj_Delta req)).
  { intros d H req [= <-]. by apply bool_decide_unpack in H. }
  eapply (dr_step (mkDsys demo_depot {[ "sp_A" := 5%Z ]}));
    [|by eapply (ds_adjust _ _ (Some (mkAdjust max_int64 EmptyString)) "sp_A" 11 "st_2" true);
      [apply Hb; vm_compute|vm_compute]].
  eapply (dr_step (mkDsys (mkDepot {[ "sp_A" := mkSpare "sp_A" "FAN-1" "fan" 5 4 EmptyString ]} [])
    {[ "sp_A" := 5%Z ]}));
    [|by eapply (ds_adjust _ _ (Some (mkAdjust (-3) EmptyString)) "sp_A" 10 "st_1" true);
      [apply Hb; vm_compute|vm_compute]].
  eapply (dr_step (mkDsys (mkDepot {[ "sp_A" := mkSpare "sp_A" "FAN-1" "fan" 5 4 EmptyString ]} [])
    {[ "sp_A" := 5%Z ]}));
    [|by eapply (ds_adjust _ _ (Some (mkAdjust (-7) EmptyString)) "sp_A" 10 "st_1" true);
      [apply Hb; vm_compute|vm_compute]].
  eapply dr_step; [apply dr_init|].
  eapply (ds_create _ _ (Some (mkSpareCreate "FAN-1" "fan" 5 4 EmptyString)) "sp_A" true
    _ (mkSpare "sp_A" "FAN-1" "fan" 5 4 EmptyString)); [done| |done].
  intros req [= <-]. split; vm_compute; discriminate.
Qed.

Lemma stock_ledger_witness : ledger_ok (mkDsys demo_depot {[ "sp_A" := 5%Z ]}).
Proof. apply stock_ledger. apply demo_dreachable. Defined.
