(* ===== verification/Cursor.v ===== *)
(** * Page tokens and cursors (core/server.go, core/pagination.go)

    What the list endpoints share: URL-safe base64, the two token formats, the
    page size, integers in decimal, and the theory of enumeration by cursor.
    [follow] is a client that asks for the next page as long as it gets a
    token, while the rows may change between two requests.  The theory says
    when this client terminates, sees no row twice, and sees every row that is
    there throughout. *)
From stdpp Require Import sorting.
From S2P Require Import Prelude GoTime Http CPath.
Open Scope string_scope.
Open Scope list_scope.

(** ** base64.RawURLEncoding *)

Definition alphabet : string :=
  "ABCDEFGHIJKLMNOPQRSTUVWXYZabcdefghijklmnopqrstuvwxyz0123456789-_".

Definition enc6 (n : N) : ascii := default "A"%char (String.get (N.to_nat n) alphabet).

Definition dec6 (c : ascii) : option N :=
  let n := code c in
  if is_upper c then Some (n - 65)%N
  else if is_lower c then Some (n - 71)%N
  else if is_digit c then Some (n + 4)%N
  else if byte_eqb c "-" then Some 62%N
  else if byte_eqb c "_" then Some 63%N
  else None.

Fixpoint b64_encode (s : string) : string :=
  match s with
  | String a (String b (String c r)) =>
      String (enc6 (code a / 4))
        (String (enc6 (code a mod 4 * 16 + code b / 16))
          (String (enc6 (code b mod 16 * 4 + code c / 64))
            (String (enc6 (code c mod 64)) (b64_encode r))))
  | String a (String b EmptyString) =>
      String (enc6 (code a / 4))
        (String (enc6 (code a mod 4 * 16 + code b / 16))
          (String (enc6 (code b mod 16 * 4)) EmptyString))
  | String a EmptyString =>
      String (enc6 (code a / 4)) (String (enc6 (code a mod 4 * 16)) EmptyString)
  | EmptyString => EmptyString
  end.

(** The decoder skips line ends; the surplus bits of a last group are not
    looked at. *)
Fixpoint strip_newlines (s : string) : string :=
  match s with
  | EmptyString => EmptyString
  | String c r => if byte_eqb c LF || byte_eqb c CR then strip_newlines r
                  else String c (strip_newlines r)
  end.

Fixpoint b64_groups (s : string) : option string :=
  match s with
  | String a (String b (String c (String d r))) =>
      x ← dec6 a; y ← dec6 b; z ← dec6 c; w ← dec6 d;
      t ← b64_groups r;
      Some (String (byte_of (x * 4 + y / 16))
        (String (byte_of (y mod 16 * 16 + z / 4)) (String (byte_of (z mod 4 * 64 + w)) t)))
  | String a (String b (String c EmptyString)) =>
      x ← dec6 a; y ← dec6 b; z ← dec6 c;
      Some (String (byte_of (x * 4 + y / 16)) (String (byte_of (y mod 16 * 16 + z / 4)) EmptyString))
  | String a (String b EmptyString) =>
      x ← dec6 a; y ← dec6 b; Some (String (byte_of (x * 4 + y / 16)) EmptyString)
  | String a EmptyString => None
  | EmptyString => Some EmptyString
  end.

Definition b64_decode (s : string) : option string := b64_groups (strip_newlines s).

(** ** Tokens *)

Definition encodePageToken (lastPath : string) : string := b64_encode ("v1:" +:+ lastPath).

Definition decodePageToken (tok : string) : option string :=
  match b64_decode tok with
  | None => None
  | Some raw => if negb (has_prefix raw "v1:") then None else Some (trim_prefix raw "v1:")
  end.

Definition US : ascii := Ascii.ascii_of_nat 31.

Definition encodePageTokenPair (k : string * string) : string :=
  b64_encode ("v2:" +:+ k.1 +:+ String US k.2).

(** The text before and behind the first byte [c]. *)
Fixpoint cut_at (c : ascii) (s : string) : option (string * string) :=
  match s with
  | EmptyString => None
  | String d r =>
      if byte_eqb d c then Some (EmptyString, r)
      else (fun '(a, b) => (String d a, b)) <$> cut_at c r
  end.

Definition decodePageTokenPair (tok : string) : option (string * string) :=
  match b64_decode tok with
  | None => None
  | Some raw => if negb (has_prefix raw "v2:") then None else cut_at US (trim_prefix raw "v2:")
  end.

(** ** Integers: strconv.Atoi, strconv.ParseInt(s, 10, 64) *)

Fixpoint dec_value (acc : N) (s : string) : N :=
  match s with
  | EmptyString => acc
  | String c r => dec_value (acc * 10 + (code c - 48))%N r
  end.

Definition Atoi (s : string) : option Z :=
  let '(neg, d) := match s with
    | String c r => if byte_eqb c "-" then (true, r)
                    else if byte_eqb c "+" then (false, r) else (false, s)
    | EmptyString => (false, s)
    end in
  if str_eqb d EmptyString || negb (all_bytes is_digit d) then None
  else
    let v := Z.of_N (dec_value 0 d) in
    let z := if neg then (- v)%Z else v in
    if ((min_int64 <=? z) && (z <=? max_int64))%Z then Some z else None.

(** ** Page sizes *)

Definition DefaultPageSize : Z := 100.
Definition MaxPageSize : Z := 1000.

(** [parseAdminPageSize] *)
Definition parseAdminPageSize (raw : string) : option Z :=
  if str_eqb raw EmptyString then Some MaxPageSize
  else match Atoi raw with
  | None => None
  | Some n => if (n <=? 0)%Z then None else Some (if (MaxPageSize <? n)%Z then MaxPageSize else n)
  end.

(** The page size of the other lists. *)
Definition parsePageSize (raw : string) : result problem Z :=
  if str_eqb raw EmptyString then Ok DefaultPageSize
  else match Atoi raw with
  | None => Err (bad_request "bad page_size")
  | Some n =>
      if (n <=? 0)%Z then Err (bad_request "bad page_size")
      else if (MaxPageSize <? n)%Z then Err (bad_request "page_size > 1000")
      else Ok n
  end.

(** ** Lemmas on tokens *)

Lemma enc6_facts n : (n < 64)%N ->
  dec6 (enc6 n) = Some n /\ byte_eqb (enc6 n) LF || byte_eqb (enc6 n) CR = false.
Proof.
  intros H. assert (n = N.of_nat (N.to_nat n)) as -> by lia.
  assert (N.to_nat n < 64) as Hm by lia. clear H. revert Hm. generalize (N.to_nat n). intros m Hm.
  do 64 (destruct m as [|m]; [split; reflexivity|]). lia.
Qed.

Lemma byte_of_code a : byte_of (code a) = a.
Proof. apply ascii_N_embedding. Qed.
Lemma code_lt a : (code a < 256)%N.
Proof. apply N_ascii_bounded. Qed.

Lemma string_ind3 (P : string -> Prop) :
  P EmptyString -> (forall a, P (String a EmptyString)) ->
  (forall a b, P (String a (String b EmptyString))) ->
  (forall a b c r, P r -> P (String a (String b (String c r)))) -> forall s, P s.
Proof.
  intros H0 H1 H2 H3 s.
  enough (P s /\ (forall a, P (String a s)) /\ forall a b, P (String a (String b s))) by tauto.
  induction s as [|c s (IH1 & IH2 & IH3)]; eauto.
Qed.

Lemma dec6_enc6 n : (n < 64)%N -> dec6 (enc6 n) = Some n.
Proof. apply enc6_facts. Qed.
Lemma strip_enc6 n r : (n < 64)%N ->
  strip_newlines (String (enc6 n) r) = String (enc6 n) (strip_newlines r).
Proof. intros H. cbn [strip_newlines]. by destruct (enc6_facts n H) as [_ ->]. Qed.

(** A byte is put together from its high and low part. *)
Lemma div_pack x y k : (y < k)%N -> ((x * k + y) / k = x)%N.
Proof. intros. rewrite N.div_add_l, N.div_small by lia. lia. Qed.
Lemma mod_pack x y k : (y < k)%N -> ((x * k + y) mod k = y)%N.
Proof. intros. rewrite N.add_comm, N.Div0.mod_add. by apply N.mod_small. Qed.
Lemma unpack a k : (0 < k)%N -> (code a / k * k + code a mod k = code a)%N.
Proof. intros. pose proof (N.div_mod' (code a) k). lia. Qed.
Lemma mod_below a k : (0 < k)%N -> (code a mod k < k)%N.
Proof. intros. apply N.mod_lt. lia. Qed.
Lemma div_below a k m : (0 < k)%N -> (256 = m * k)%N -> (code a / k < m)%N.
Proof. intros. apply N.Div0.div_lt_upper_bound. pose proof (code_lt a). lia. Qed.

Ltac byte_bounds a :=
  pose proof (div_below a 4 64 eq_refl eq_refl); pose proof (div_below a 16 16 eq_refl eq_refl);
  pose proof (div_below a 64 4 eq_refl eq_refl); pose proof (mod_below a 4 eq_refl);
  pose proof (mod_below a 16 eq_refl); pose proof (mod_below a 64 eq_refl).

Lemma b64_roundtrip s : b64_decode (b64_encode s) = Some s.
Proof.
  unfold b64_decode. induction s as [|a|a b|a b c r IH] using string_ind3; [done|..].
  - byte_bounds a. cbn [b64_encode]. rewrite !strip_enc6 by lia.
    cbn [strip_newlines b64_groups]. rewrite !dec6_enc6 by lia. cbn [mbind option_bind].
    rewrite N.div_mul, unpack, byte_of_code by done. done.
  - byte_bounds a. byte_bounds b. cbn [b64_encode]. rewrite !strip_enc6 by lia.
    cbn [strip_newlines b64_groups]. rewrite !dec6_enc6 by lia. cbn [mbind option_bind].
    rewrite div_pack, mod_pack, N.div_mul, !unpack, !byte_of_code by done. done.
  - byte_bounds a. byte_bounds b. byte_bounds c. cbn [b64_encode]. rewrite !strip_enc6 by lia.
    cbn [b64_groups]. rewrite !dec6_enc6 by lia. cbn [mbind option_bind]. rewrite IH.
    cbn [mbind option_bind].
    rewrite !div_pack, !mod_pack, !unpack, !byte_of_code by done. done.
Qed.

Lemma decode_encode s : decodePageToken (encodePageToken s) = Some s.
Proof.
  unfold decodePageToken, encodePageToken. by rewrite b64_roundtrip, has_prefix_app, trim_prefix_app.
Qed.

Lemma b64_nonempty s : s <> EmptyString -> b64_encode s <> EmptyString.
Proof. by destruct s as [|a [|b [|c r]]]. Qed.
Lemma token_nonempty s : encodePageToken s <> EmptyString.
Proof. by apply b64_nonempty. Qed.
Lemma token_pair_nonempty k : encodePageTokenPair k <> EmptyString.
Proof. by apply b64_nonempty. Qed.

Lemma cut_at_app c a b : no_byte c a = true -> cut_at c (a +:+ String c b) = Some (a, b).
Proof.
  induction a as [|d a IH]; cbn; [by rewrite byte_eqb_refl|].
  intros [Hd Ha]%andb_true_iff. apply negb_true_iff in Hd. rewrite Hd, IH by done. done.
Qed.

(** The pair format is faithful as long as the sort key has no separator. *)
Lemma decode_encode_pair k : no_byte US k.1 = true ->
  decodePageTokenPair (encodePageTokenPair k) = Some k.
Proof.
  intros H. unfold decodePageTokenPair, encodePageTokenPair.
  rewrite b64_roundtrip, has_prefix_app, trim_prefix_app. cbn [negb].
  rewrite cut_at_app by done. by destruct k.
Qed.

(** A subject with the separator in it is cut at the wrong place. *)
Example pair_separator :
  decodePageTokenPair (encodePageTokenPair (String US "a", "b")) =
    Some (EmptyString, "a" +:+ String US "b").
Proof. vm_compute. reflexivity. Qed.

Example token_ex : encodePageToken "site01.pod002" = "djE6c2l0ZTAxLnBvZDAwMg" /\
  decodePageToken "djE6c2l0ZTAxLnBvZDAwMg" = Some "site01.pod002" /\
  decodePageToken "djI6YQ" = None /\ decodePageToken "!" = None.
Proof. vm_compute. repeat split. Qed.

(** ** Lemmas on integers *)

Lemma pretty_N_char_code n : (n < 10)%N ->
  is_digit (pretty_N_char n) = true /\ (code (pretty_N_char n) - 48 = n)%N.
Proof.
  intros H. assert (n = N.of_nat (N.to_nat n)) as -> by lia.
  assert (N.to_nat n < 10) as Hm by lia. clear H. revert Hm. generalize (N.to_nat n). intros m Hm.
  do 10 (destruct m as [|m]; [split; reflexivity|]). lia.
Qed.

Lemma pretty_go_value n : forall s, dec_value 0 (pretty_N_go n s) = dec_value n s.
Proof.
  induction (N.lt_wf_0 n) as [n _ IH]. intros s.
  destruct (decide (n = 0)%N) as [->|Hn]; [done|].
  rewrite pretty_N_go_step by lia. rewrite IH by (apply N.div_lt; lia). cbn [dec_value].
  destruct (pretty_N_char_code (n mod 10)) as [_ ->]; [apply N.mod_lt; lia|].
  f_equal. pose proof (N.div_mod' n 10). lia.
Qed.

Lemma pretty_go_digits n : forall s, all_bytes is_digit (pretty_N_go n s) = all_bytes is_digit s.
Proof.
  induction (N.lt_wf_0 n) as [n _ IH]. intros s.
  destruct (decide (n = 0)%N) as [->|Hn]; [done|].
  rewrite pretty_N_go_step by lia. rewrite IH by (apply N.div_lt; lia). cbn [all_bytes].
  by destruct (pretty_N_char_code (n mod 10)) as [-> _]; [apply N.mod_lt; lia|].
Qed.

Lemma pretty_N_digits n : all_bytes is_digit (pretty n) = true /\ dec_value 0 (pretty n) = n.
Proof.
  unfold pretty, pretty_N. destruct (decide (n = 0)%N) as [->|Hn]; [done|].
  by rewrite pretty_go_digits, pretty_go_value.
Qed.

Lemma pretty_N_nonempty (n : N) : pretty n <> EmptyString.
Proof.
  intros E. destruct (decide (n = 0)%N) as [->|Hn]; [done|].
  destruct (pretty_N_digits n) as [_ H]. rewrite E in H. by rewrite <- H in Hn.
Qed.

Lemma digit_no_sign c : is_digit c = true -> byte_eqb c "-" = false /\ byte_eqb c "+" = false.
Proof. by byte_cases c. Qed.

Lemma Atoi_itoa z : (min_int64 <= z <= max_int64)%Z -> Atoi (itoa z) = Some z.
Proof.
  intros Hz. assert (((min_int64 <=? z) && (z <=? max_int64))%Z = true) as Hr
    by (apply andb_true_iff; lia).
  unfold Atoi, itoa, pretty, pretty_Z. destruct z as [|p|p].
  - done.
  - destruct (pretty_N_digits (N.pos p)) as [Hd Hv]. pose proof (pretty_N_nonempty (N.pos p)) as Hn.
    apply str_eqb_neq in Hn.
    change (pretty p) with (pretty (N.pos p)).
    destruct (pretty (N.pos p)) as [|c r] eqn:E; [done|].
    assert (is_digit c = true) as Hc by (cbn in Hd; by apply andb_true_iff in Hd as [? _]).
    destruct (digit_no_sign c Hc) as [-> ->]. rewrite Hn, Hd, Hv. cbn [orb negb].
    change (Z.of_N (N.pos p)) with (Z.pos p). by rewrite Hr.
  - destruct (pretty_N_digits (N.pos p)) as [Hd Hv]. pose proof (pretty_N_nonempty (N.pos p)) as Hn.
    apply str_eqb_neq in Hn. change ("-" +:+ pretty p) with (String "-" (pretty (N.pos p))).
    cbv iota beta. rewrite byte_eqb_refl. rewrite Hn, Hd, Hv. cbn [orb negb].
    change (- Z.of_N (N.pos p))%Z with (Z.neg p). by rewrite Hr.
Qed.

Example Atoi_ex : Atoi "-17" = Some (-17)%Z /\ Atoi "+5" = Some 5%Z /\ Atoi "1_0" = None /\
  Atoi "9223372036854775808" = None /\ Atoi "-" = None.
Proof. vm_compute. repeat split. Qed.

Lemma parseAdminPageSize_range raw n : parseAdminPageSize raw = Some n -> (1 <= n <= 1000)%Z.
Proof.
  unfold parseAdminPageSize, MaxPageSize. destruct (str_eqb raw _); [intros [= <-]; lia|].
  destruct (Atoi raw) as [m|]; [|done]. destruct (Z.leb_spec m 0); [done|].
  destruct (Z.ltb_spec 1000 m); intros [= <-]; lia.
Qed.

Lemma parsePageSize_range raw n : parsePageSize raw = Ok n -> (1 <= n <= 1000)%Z.
Proof.
  unfold parsePageSize, DefaultPageSize, MaxPageSize.
  destruct (str_eqb raw _); [intros <-%Ok_inj; lia|].
  destruct (Atoi raw) as [m|]; [|done]. destruct (Z.leb_spec m 0); [done|].
  destruct (Z.ltb_spec 1000 m); [done|]. intros <-%Ok_inj. lia.
Qed.

(** ** Enumeration by cursor *)

Lemma in_filter {A} (f : A -> bool) l y : y ∈ List.filter f l <-> y ∈ l /\ f y = true.
Proof. by rewrite !list_elem_of_In, filter_In. Qed.

Section paging.
Context {A K : Type}.
(** The cursor of a row, whether a row lies behind a cursor, and the token
    format. *)
Context (key : A -> K) (after : K -> A -> bool) (enc : K -> string) (dec : string -> option K).

(** [if len(items) > pageSize { next = ...; items = items[:pageSize] }] *)
Definition cut_page (size : Z) (items : list A) : list A * string :=
  if (size <? Z.of_nat (length items))%Z then
    (take (Z.to_nat size) items,
     match items !! Z.to_nat (size - 1) with Some x => enc (key x) | None => EmptyString end)
  else (items, EmptyString).

(** One request; [None] when the token is refused. *)
Definition page_at (items : list A) (size : Z) (tok : string) : option (list A * string) :=
  if str_eqb tok EmptyString then Some (cut_page size items)
  else match dec tok with
  | None => None
  | Some k => Some (cut_page size (List.filter (after k) items))
  end.

(** A loop that stops one row behind the page. *)
Fixpoint scan_page (size : Z) (keep : A -> bool) (n : Z) (items : list A) : list A :=
  match items with
  | [] => []
  | x :: rest =>
      if negb (keep x) then scan_page size keep n rest
      else x :: (if (size <? n + 1)%Z then [] else scan_page size keep (n + 1)%Z rest)
  end.

(** Following the tokens; [snap i] are the rows at the [i]-th request. *)
Fixpoint follow (fuel : nat) (snap : nat -> list A) (size : Z) (tok : string) : option (list A) :=
  match fuel with
  | O => None
  | S f =>
      match page_at (snap 0) size tok with
      | None => None
      | Some (page, next) =>
          if str_eqb next EmptyString then Some page
          else app page <$> follow f (fun i => snap (S i)) size next
      end
  end.

(** *** The laws of a cursor *)

Definition behind (x y : A) : Prop := after (key x) y = true.

(** [row] says which rows the format can express. *)
Context (row : A -> Prop).
Context (Hdec : forall x, row x -> dec (enc (key x)) = Some (key x)).
Context (Henc : forall x, row x -> enc (key x) <> EmptyString).
Context (Hirr : forall x, row x -> ~ behind x x).
Context (Htrans : forall x y z, row x -> row y -> row z -> behind x y -> behind y z -> behind x z).

Definition listing (l : list A) : Prop := StronglySorted behind l /\ Forall row l.

Lemma scan_page_spec size keep items : forall n, (0 <= n <= size)%Z ->
  scan_page size keep n items = take (Z.to_nat (size - n) + 1) (List.filter keep items).
Proof using.
  induction items as [|x rest IH]; intros n Hn; cbn [scan_page List.filter].
  - by rewrite take_nil.
  - destruct (keep x); cbn [negb]; [|by apply IH].
    rewrite Nat.add_1_r. cbn [take]. f_equal. destruct (Z.ltb_spec size (n + 1)).
    + assert (size - n = 0)%Z as -> by lia. done.
    + rewrite IH by lia. f_equal. lia.
Qed.

(** Stopping early does not change the page. *)
Lemma cut_scan_page size keep items : (1 <= size)%Z ->
  cut_page size (scan_page size keep 0 items) = cut_page size (List.filter keep items).
Proof using.
  intros Hs. rewrite scan_page_spec by lia. rewrite Z.sub_0_r.
  set (l := List.filter keep items). unfold cut_page. rewrite length_take.
  destruct (Z.ltb_spec size (Z.of_nat (length l))).
  - destruct (Z.ltb_spec size (Z.of_nat ((Z.to_nat size + 1) `min` length l))); [|lia].
    rewrite take_take. f_equal; [f_equal; lia|].
    rewrite lookup_take_lt by lia. done.
  - destruct (Z.ltb_spec size (Z.of_nat ((Z.to_nat size + 1) `min` length l))); [lia|].
    rewrite take_ge by lia. done.
Qed.

(** *** Sorted rows *)

Lemma filter_behind (l1 : list A) x l2 : listing (l1 ++ x :: l2) ->
  List.filter (after (key x)) (l1 ++ x :: l2) = l2.
Proof using Hirr Htrans.
  intros [Hs Hr]. apply StronglySorted_app in Hs as (Hcross & Hs1 & Hs2).
  apply Forall_app in Hr as [Hr1 [Hrx Hr2]%Forall_cons].
  rewrite List.filter_app.
  replace (List.filter (after (key x)) l1) with (@nil A).
  - cbn [app List.filter]. destruct (after (key x) x) eqn:E; [by destruct (Hirr x Hrx)|].
    apply StronglySorted_inv in Hs2 as [_ Hs2]. clear -Hs2.
    induction Hs2 as [|y l Hy _ IH]; [done|]. cbn [List.filter]. unfold behind in Hy.
    by rewrite Hy, IH.
  - assert (forall y, y ∈ l1 -> after (key x) y = false) as Hno.
    { intros y Hy. apply not_true_iff_false. intros E.
      assert (row y) as Hry by (by eapply Forall_forall in Hr1).
      apply (Hirr y Hry), (Htrans y x y); try done. by apply Hcross; [|left]. }
    clear -Hno. induction l1 as [|y l IH]; [done|]. cbn [List.filter].
    rewrite (Hno y) by (by left). apply IH. intros z Hz. apply Hno. by right.
Qed.

Lemma listing_filter f l : listing l -> listing (List.filter f l).
Proof using.
  intros [Hs Hr]. split.
  - induction Hs as [|x l Hs IH Hx]; cbn [List.filter]; [constructor|].
    apply Forall_cons in Hr as [_ Hr].
    destruct (f x); [|by apply IH]. constructor; [by apply IH|].
    apply Forall_forall. intros y [Hy _]%in_filter. by eapply Forall_forall in Hx.
  - apply Forall_forall. intros y [Hy _]%in_filter. by eapply Forall_forall in Hr.
Qed.

(** *** One page *)

(** The rows behind a cursor; [None] is the first request. *)
Definition rest (cur : option A) (l : list A) : list A :=
  match cur with None => l | Some x => List.filter (after (key x)) l end.
Definition token (cur : option A) : string :=
  match cur with None => EmptyString | Some x => enc (key x) end.
Definition cur_row (cur : option A) : Prop := match cur with None => True | Some x => row x end.

Lemma page_at_rest l size cur : cur_row cur ->
  page_at l size (token cur) = Some (cut_page size (rest cur l)).
Proof using Hdec Henc.
  destruct cur as [x|]; cbn; [|done]. intros Hx. unfold page_at.
  pose proof (Henc x Hx) as Hn. apply str_eqb_neq in Hn. by rewrite Hn, Hdec.
Qed.

(** A page is everything, or a full page that ends with the row of its token. *)
Lemma cut_page_cases size l : (1 <= size)%Z ->
  (cut_page size l = (l, EmptyString) /\ (Z.of_nat (length l) <= size)%Z) \/
  (exists p x s, l = p ++ x :: s /\ cut_page size l = (p ++ [x], enc (key x)) /\
     Z.of_nat (length (p ++ [x])) = size /\ s <> []).
Proof using.
  intros Hs. unfold cut_page. destruct (Z.ltb_spec size (Z.of_nat (length l))) as [Hl|]; [right|by left].
  assert (exists x, l !! Z.to_nat (size - 1) = Some x) as [x Hx] by (apply lookup_lt_is_Some; lia).
  exists (take (Z.to_nat (size - 1)) l), x, (drop (S (Z.to_nat (size - 1))) l).
  assert (Hl2 : l = take (Z.to_nat (size - 1)) l ++ x :: drop (S (Z.to_nat (size - 1))) l)
    by (by rewrite take_drop_middle).
  split; [done|]. rewrite Hx. split; [|split].
  - f_equal. rewrite <- take_S_r by done. f_equal. lia.
  - rewrite length_app, length_take. cbn [length]. lia.
  - intros E. apply (f_equal length) in E. rewrite length_drop in E. cbn in E. lia.
Qed.

(** *** A client that follows the tokens of unchanging rows *)

Lemma follow_app size : (1 <= size)%Z -> forall fuel pre suf cur,
  cur_row cur -> listing (pre ++ suf) -> rest cur (pre ++ suf) = suf ->
  (length suf / Z.to_nat size < fuel) ->
  follow fuel (fun _ => pre ++ suf) size (token cur) = Some suf.
Proof using Hdec Henc Hirr Htrans.
  intros Hs. induction fuel as [|f IH]; intros pre suf cur Hc Hl Hr Hf; [lia|].
  cbn [follow]. rewrite page_at_rest, Hr by done.
  destruct (cut_page_cases size suf Hs) as [[-> _]|(p & x & s & -> & -> & Hlen & _)]; [done|].
  assert (row x) as Hx.
  { destruct Hl as [_ Hl]. apply Forall_app in Hl as [_ Hl]. apply Forall_app in Hl as [_ Hl].
    by apply Forall_cons in Hl as [? _]. }
  pose proof (Henc x Hx) as Hn. apply str_eqb_neq in Hn. rewrite Hn.
  replace (pre ++ p ++ x :: s) with ((pre ++ p ++ [x]) ++ s) in *
    by (by rewrite <- !app_assoc).
  change (enc (key x)) with (token (Some x)).
  rewrite (IH (pre ++ p ++ [x]) s (Some x) Hx Hl).
  - cbn. by rewrite <- app_assoc.
  - cbn [rest]. replace ((pre ++ p ++ [x]) ++ s) with ((pre ++ p) ++ x :: s) in *
      by (by rewrite <- !app_assoc). by apply filter_behind.
  - replace (length (p ++ x :: s)) with (1 * Z.to_nat size + length s) in Hf.
    + rewrite Nat.div_add_l in Hf by lia. lia.
    + rewrite length_app in Hlen |- *. cbn [length] in *. lia.
Qed.

(** After [n / size + 1] requests the client has exactly the rows. *)
Lemma follow_complete size l fuel : (1 <= size)%Z -> listing l ->
  (length l / Z.to_nat size < fuel) ->
  follow fuel (fun _ => l) size EmptyString = Some l.
Proof using Hdec Henc Hirr Htrans. intros Hs Hl Hf. by apply (follow_app size Hs fuel [] l None). Qed.

(** *** A client that follows the tokens while the rows change *)

Lemma filter_shrinks (f g : A -> bool) (u : list A) x :
  (forall y, y ∈ u -> f y = true -> g y = true) -> x ∈ u -> g x = true -> f x = false ->
  length (List.filter f u) < length (List.filter g u).
Proof using.
  assert (forall v : list A, (forall y, y ∈ v -> f y = true -> g y = true) ->
    length (List.filter f v) <= length (List.filter g v)) as Hle.
  { induction v as [|y v IH]; intros Hv; cbn [List.filter]; [done|].
    pose proof (Hv y ltac:(by left)) as Hy. specialize (IH ltac:(intros z Hz; apply Hv; by right)).
    destruct (f y); [rewrite Hy by done|destruct (g y)]; cbn [length]; lia. }
  induction u as [|y u IH]; intros Hu Hx Hg Hf; [by apply elem_of_nil in Hx|].
  pose proof (Hu y ltac:(by left)) as Hy.
  assert (Hu' : forall z, z ∈ u -> f z = true -> g z = true) by (intros z Hz; apply Hu; by right).
  pose proof (Hle u Hu'). cbn [List.filter].
  apply elem_of_cons in Hx as [<-|Hx].
  - rewrite Hf, Hg. cbn [length]. lia.
  - specialize (IH Hu' Hx Hg Hf). destruct (f y); [rewrite Hy by done|destruct (g y)]; cbn [length]; lia.
Qed.

Definition behind_cur (cur : option A) (y : A) : Prop :=
  match cur with None => True | Some x => behind x y end.

Lemma in_rest cur l y : y ∈ rest cur l <-> y ∈ l /\ behind_cur cur y.
Proof using. destruct cur as [x|]; cbn; [apply in_filter|tauto]. Qed.

Lemma rest_listing cur l : listing l -> listing (rest cur l).
Proof using. destruct cur; [apply listing_filter|done]. Qed.

Lemma rest_shrinks cur x u : cur_row cur -> row x -> Forall row u -> x ∈ rest cur u ->
  length (rest (Some x) u) < length (rest cur u).
Proof using Hirr Htrans.
  intros Hc Hx Hu [Hxu Hb]%in_rest.
  assert (after (key x) x = false) as Hn by (apply not_true_iff_false; by apply Hirr).
  destruct cur as [c|]; cbn [rest].
  - apply (filter_shrinks _ _ _ x); try done. intros y Hy Ha.
    apply (Htrans c x y); try done. by eapply Forall_forall in Hu.
  - replace u with (List.filter (fun _ => true) u) at 2.
    + by apply (filter_shrinks _ _ _ x).
    + clear. induction u as [|y u IH]; cbn; [done|by rewrite IH].
Qed.

Lemma listing_split p x s : listing (p ++ x :: s) ->
  listing (p ++ [x]) /\ row x /\ (forall y, y ∈ p -> behind y x) /\ (forall y, y ∈ s -> behind x y).
Proof using.
  intros [Hs Hr]. change (x :: s) with ([x] ++ s) in Hs, Hr. rewrite app_assoc in Hs, Hr.
  apply Forall_app in Hr as [Hr _]. apply StronglySorted_app in Hs as (Hc & Hs & _).
  split; [by split|]. apply Forall_app in Hr as [_ [Hx _]%Forall_cons].
  split; [done|]. apply StronglySorted_app in Hs as (Hp & _).
  split; intros y Hy; [by apply Hp; [|left]|]. apply Hc; [|done]. apply elem_of_app. right. by left.
Qed.

(** What the client has got when it ends. *)
Definition got (snap : nat -> list A) (cur : option A) (out : list A) : Prop :=
  StronglySorted behind out /\ Forall row out /\ (forall y, y ∈ out -> behind_cur cur y) /\
  (forall y, y ∈ out -> exists k, y ∈ snap k) /\
  (forall y, behind_cur cur y -> (forall k, y ∈ snap k) -> y ∈ out).

Lemma got_page snap cur p x s out : cur_row cur -> rest cur (snap 0) = p ++ x :: s ->
  listing (rest cur (snap 0)) -> got (fun i => snap (S i)) (Some x) out ->
  got snap cur ((p ++ [x]) ++ out).
Proof using Htrans.
  intros Hc Hrest Hl (Ho1 & Ho2 & Ho3 & Ho4 & Ho5).
  assert (Hin : forall y, y ∈ p ++ [x] -> y ∈ rest cur (snap 0)).
  { intros y Hy. rewrite Hrest. change (x :: s) with ([x] ++ s). rewrite app_assoc.
    apply elem_of_app. by left. }
  rewrite Hrest in Hl. destruct (listing_split _ _ _ Hl) as ([Hpx Hpr] & Hx & Hp & Hs).
  assert (Hlast : forall y, y ∈ p ++ [x] -> y = x \/ behind y x).
  { intros y [Hy|Hy%list_elem_of_singleton]%elem_of_app; [right; by apply Hp|by left]. }
  assert (Hcx : behind_cur cur x).
  { eapply (proj1 (in_rest cur (snap 0) x)), Hin, elem_of_app. right. by left. }
  split; [|split; [|split; [|split]]].
  - apply StronglySorted_app_2; [|done..]. intros y z Hy Hz. specialize (Ho3 z Hz). cbn in Ho3.
    destruct (Hlast y Hy) as [->|Hyx]; [done|].
    apply (Htrans y x z); try done; [by eapply Forall_forall in Hpr|by eapply Forall_forall in Ho2].
  - by apply Forall_app.
  - intros y [Hy|Hy]%elem_of_app; [by eapply (proj1 (in_rest _ _ _)), Hin|].
    specialize (Ho3 y Hy). cbn in Ho3. destruct cur as [c|]; [|done]. cbn in *.
    apply (Htrans c x y); try done. by eapply Forall_forall in Ho2.
  - intros y [Hy|Hy]%elem_of_app; [|destruct (Ho4 y Hy) as [k Hk]; by exists (S k)].
    exists 0. by eapply (proj1 (in_rest _ _ _)), Hin.
  - intros y Hb Hall. assert (y ∈ rest cur (snap 0)) as Hy by (by apply in_rest).
    rewrite Hrest in Hy. change (x :: s) with ([x] ++ s) in Hy. rewrite app_assoc in Hy.
    apply elem_of_app in Hy as [Hy|Hy]; apply elem_of_app; [by left|right].
    apply Ho5; [by apply Hs|done].
Qed.

Lemma follow_changing size u : (1 <= size)%Z -> Forall row u -> forall fuel snap cur,
  (forall k, listing (snap k)) -> (forall k y, y ∈ snap k -> y ∈ u) -> cur_row cur ->
  length (rest cur u) < fuel ->
  exists out, follow fuel snap size (token cur) = Some out /\ got snap cur out.
Proof using Hdec Henc Hirr Htrans.
  intros Hs Hu. induction fuel as [|f IH]; intros snap cur Hl Hsub Hc Hf; [lia|].
  cbn [follow]. rewrite page_at_rest by done.
  pose proof (rest_listing cur _ (Hl 0)) as Hrl.
  destruct (cut_page_cases size (rest cur (snap 0)) Hs)
    as [[-> _]|(p & x & s & Hrest & -> & Hlen & _)].
  - cbn [str_eqb String.eqb]. eexists. split; [done|]. destruct Hrl as [Hr1 Hr2].
    split; [done|]. split; [done|]. split; [by intros y [_ ?]%in_rest|]. split.
    + intros y [Hy _]%in_rest. by exists 0.
    + intros y Hb Hall. by apply in_rest.
  - assert (row x) as Hx by (rewrite Hrest in Hrl; by apply listing_split in Hrl as (_ & ? & _)).
    pose proof (Henc x Hx) as Hn. apply str_eqb_neq in Hn. rewrite Hn.
    destruct (IH (fun i => snap (S i)) (Some x)) as (out & Hout & Hgot); [done|naive_solver|done| |].
    + assert (x ∈ rest cur u); [|pose proof (rest_shrinks cur x u Hc Hx Hu); naive_solver lia].
      apply in_rest. assert (x ∈ rest cur (snap 0)) as [Hxs Hb]%in_rest.
      { rewrite Hrest. apply elem_of_app. right. by left. }
      split; [by eapply Hsub|done].
    + change (enc (key x)) with (token (Some x)). rewrite Hout. cbn. eexists. split; [done|].
      by eapply got_page.
Qed.
End paging.

(** ** Rows in the order of a string *)

Definition str_lt (a b : string) : bool := negb (String.leb b a).

Lemma leb_refl s : String.leb s s = true.
Proof. pose proof (String.leb_total s s). tauto. Qed.
Lemma leb_trans a b c : String.leb a b = true -> String.leb b c = true -> String.leb a c = true.
Proof.
  intros H1 H2. apply Is_true_true. apply (transitivity (R := String.le) (y := b));
    by apply Is_true_true.
Qed.
Lemma str_lt_irrefl s : str_lt s s = false.
Proof. unfold str_lt. by rewrite leb_refl. Qed.
Lemma str_lt_leb a b : str_lt a b = true -> String.leb a b = true.
Proof.
  unfold str_lt. intros H%negb_true_iff. by destruct (String.leb_total a b) as [E|E]; [|congruence].
Qed.
Lemma str_lt_trans a b c : str_lt a b = true -> str_lt b c = true -> str_lt a c = true.
Proof.
  unfold str_lt. intros H1%negb_true_iff H2. apply negb_true_iff, not_true_iff_false. intros H3.
  apply not_true_iff_false in H1. apply H1. by eapply leb_trans; [apply str_lt_leb|].
Qed.
Lemma leb_neq_lt a b : String.leb a b = true -> a <> b -> str_lt a b = true.
Proof.
  unfold str_lt. intros H Hn. apply negb_true_iff, not_true_iff_false. intros H2.
  by apply Hn, String.leb_antisym.
Qed.

(** [sort.Slice] by the key.  The order of rows with equal keys is not
    specified by the language; every use below has distinct keys. *)
Section by_string.
Context {A : Type} (key : A -> string).

Definition key_le (x y : A) : Prop := String.leb (key x) (key y) = true.
#[global] Instance key_le_dec : RelDecision key_le.
Proof. unfold key_le. intros x y. apply _. Defined.
#[local] Instance key_le_total : Total key_le.
Proof. intros x y. apply String.leb_total. Qed.
#[local] Instance key_le_trans : Transitive key_le.
Proof. intros x y z. apply leb_trans. Qed.

Definition sort_by (l : list A) : list A := merge_sort key_le l.

(** [if after != "" && key(x) <= after { continue }] *)
Definition after_key (k : string) (x : A) : bool := str_eqb k EmptyString || str_lt k (key x).

(** A row has a non-empty key. *)
Definition keyed (x : A) : Prop := key x <> EmptyString.

Lemma sort_by_sorted l : StronglySorted key_le (sort_by l).
Proof. apply StronglySorted_merge_sort; apply _. Qed.

Lemma sort_by_perm l : sort_by l ≡ₚ l.
Proof. apply merge_sort_Permutation. Qed.

Lemma key_behind x y : keyed x -> behind key after_key x y <-> str_lt (key x) (key y) = true.
Proof.
  intros H%str_eqb_neq. unfold behind, after_key. by rewrite H.
Qed.

Lemma key_dec x : keyed x -> decodePageToken (encodePageToken (key x)) = Some (key x).
Proof. intros _. apply decode_encode. Qed.
Lemma key_enc x : keyed x -> encodePageToken (key x) <> EmptyString.
Proof. intros _. apply token_nonempty. Qed.
Lemma key_irr x : keyed x -> ~ behind key after_key x x.
Proof. intros H. rewrite key_behind by done. by rewrite str_lt_irrefl. Qed.
Lemma key_trans x y z : keyed x -> keyed y -> keyed z ->
  behind key after_key x y -> behind key after_key y z -> behind key after_key x z.
Proof. intros Hx Hy Hz. rewrite !key_behind by done. apply str_lt_trans. Qed.

Lemma sorted_strict l : StronglySorted key_le l -> NoDup (map key l) -> Forall keyed l ->
  StronglySorted (behind key after_key) l.
Proof.
  induction 1 as [|x l Hs IH Hx]; intros Hn Hk; [constructor|].
  cbn [map] in Hn. apply NoDup_cons in Hn as [Hn1 Hn2]. apply Forall_cons in Hk as [Hkx Hk].
  constructor; [by apply IH|]. apply Forall_forall. intros y Hy. apply key_behind; [done|].
  apply leb_neq_lt; [by eapply Forall_forall in Hx|]. intros E. apply Hn1. rewrite E.
  by apply list_elem_of_In, in_map, list_elem_of_In.
Qed.

Lemma sort_by_listing l : NoDup (map key l) -> Forall keyed l -> listing key after_key keyed (sort_by l).
Proof.
  intros Hn Hk. split.
  - apply sorted_strict; [apply StronglySorted_merge_sort; apply _|by rewrite sort_by_perm|
      by rewrite sort_by_perm].
  - by rewrite sort_by_perm.
Qed.
End by_string.

(** ** Rows in the order of two strings *)

Section by_pair.
Context {A : Type} (key : A -> string * string).

Definition pair_lt (a b : string * string) : bool :=
  str_lt a.1 b.1 || (str_eqb a.1 b.1 && str_lt a.2 b.2).

Definition pair_le (x y : A) : Prop := pair_lt (key y) (key x) = false.
#[global] Instance pair_le_dec : RelDecision pair_le.
Proof. unfold pair_le. intros x y. apply _. Defined.

Definition sort_by_pair (l : list A) : list A := merge_sort pair_le l.

(** [if x.1 < k.1 || (x.1 == k.1 && x.2 <= k.2) { continue }] *)
Definition after_pair (k : string * string) (x : A) : bool :=
  negb (str_lt (key x).1 k.1 || (str_eqb (key x).1 k.1 && negb (str_lt k.2 (key x).2))).

(** The first component can be written in a token. *)
Definition pair_row (x : A) : Prop := no_byte US (key x).1 = true.

Lemma str_lt_total a b : str_lt a b = true \/ a = b \/ str_lt b a = true.
Proof.
  destruct (decide (a = b)) as [->|Hn]; [auto|].
  destruct (String.leb_total a b) as [H|H]; [left|right; right]; by apply leb_neq_lt.
Qed.
Lemma str_lt_asym a b : str_lt a b = true -> str_lt b a = false.
Proof.
  intros H. apply not_true_iff_false. intros H2.
  pose proof (str_lt_trans _ _ _ H H2) as E. by rewrite str_lt_irrefl in E.
Qed.

Lemma pair_lt_irrefl a : pair_lt a a = false.
Proof. unfold pair_lt. by rewrite !str_lt_irrefl, andb_false_r. Qed.
Lemma pair_lt_trans a b c : pair_lt a b = true -> pair_lt b c = true -> pair_lt a c = true.
Proof.
  unfold pair_lt. rewrite !orb_true_iff, !andb_true_iff, !str_eqb_eq.
  intros [H1|[E1 H1]] [H2|[E2 H2]].
  - left. by eapply str_lt_trans.
  - left. by rewrite <- E2.
  - left. by rewrite E1.
  - right. split; [congruence|by eapply str_lt_trans].
Qed.
Lemma pair_lt_total a b : pair_lt a b = true \/ a = b \/ pair_lt b a = true.
Proof.
  unfold pair_lt. destruct a as [a1 a2], b as [b1 b2]. cbn.
  destruct (str_lt_total a1 b1) as [->|[->|H]]; [auto| |rewrite H; auto].
  rewrite str_lt_irrefl, str_eqb_refl. cbn.
  destruct (str_lt_total a2 b2) as [H|[->|H]]; auto.
Qed.
Lemma pair_lt_asym a b : pair_lt a b = true -> pair_lt b a = false.
Proof.
  intros H. apply not_true_iff_false. intros H2.
  pose proof (pair_lt_trans _ _ _ H H2) as E. by rewrite pair_lt_irrefl in E.
Qed.

(** The skip condition of the loop is the order of the pairs. *)
Lemma after_pair_lt k x : after_pair k x = pair_lt k (key x).
Proof.
  unfold after_pair, pair_lt. destruct (str_lt_total (key x).1 k.1) as [H|[E|H]].
  - rewrite H. cbn. rewrite (str_lt_asym _ _ H). cbn.
    destruct (str_eqb k.1 (key x).1) eqn:E; [|done]. apply str_eqb_eq in E.
    by rewrite E, str_lt_irrefl in H.
  - rewrite E, str_lt_irrefl, str_eqb_refl. cbn. by rewrite negb_involutive.
  - rewrite H, (str_lt_asym _ _ H). cbn. destruct (str_eqb (key x).1 k.1) eqn:E; [|done].
    apply str_eqb_eq in E. by rewrite E, str_lt_irrefl in H.
Qed.

#[local] Instance pair_le_total : Total pair_le.
Proof.
  intros x y. unfold pair_le. destruct (pair_lt_total (key x) (key y)) as [H|[->|H]].
  - left. by apply pair_lt_asym.
  - left. apply pair_lt_irrefl.
  - right. by apply pair_lt_asym.
Qed.
#[local] Instance pair_le_trans : Transitive pair_le.
Proof.
  intros x y z. unfold pair_le. intros H1 H2. apply not_true_iff_false. intros H3.
  destruct (pair_lt_total (key y) (key x)) as [E|[E|E]]; [congruence|congruence|].
  pose proof (pair_lt_trans _ _ _ H3 E). congruence.
Qed.

Lemma sort_by_pair_perm l : sort_by_pair l ≡ₚ l.
Proof. apply merge_sort_Permutation. Qed.

Lemma pair_dec x : pair_row x -> decodePageTokenPair (encodePageTokenPair (key x)) = Some (key x).
Proof. apply decode_encode_pair. Qed.
Lemma pair_enc x : pair_row x -> encodePageTokenPair (key x) <> EmptyString.
Proof. intros _. apply token_pair_nonempty. Qed.
Lemma pair_irr x : pair_row x -> ~ behind key after_pair x x.
Proof. intros _. unfold behind. by rewrite after_pair_lt, pair_lt_irrefl. Qed.
Lemma pair_trans x y z : pair_row x -> pair_row y -> pair_row z ->
  behind key after_pair x y -> behind key after_pair y z -> behind key after_pair x z.
Proof. intros _ _ _. unfold behind. rewrite !after_pair_lt. apply pair_lt_trans. Qed.

Lemma sort_by_pair_listing l : NoDup (map key l) -> Forall pair_row l ->
  listing key after_pair pair_row (sort_by_pair l).
Proof.
  intros Hn Hk. split; [|by rewrite sort_by_pair_perm].
  assert (NoDup (map key (sort_by_pair l))) as Hn2 by (by rewrite sort_by_pair_perm).
  assert (StronglySorted pair_le (sort_by_pair l)) as Hs
    by (apply StronglySorted_merge_sort; apply _).
  clear Hn Hk. revert Hn2. induction Hs as [|x l' Hs IH Hx]; intros Hn; [constructor|].
  cbn [map] in Hn. apply NoDup_cons in Hn as [Hn1 Hn2]. constructor; [by apply IH|].
  apply Forall_forall. intros y Hy. unfold behind. rewrite after_pair_lt.
  eapply Forall_forall in Hx; [|done]. unfold pair_le in Hx.
  destruct (pair_lt_total (key x) (key y)) as [H|[E|H]]; [done| |congruence].
  destruct Hn1. rewrite E. by apply list_elem_of_In, in_map, list_elem_of_In.
Qed.
End by_pair.

(** ** A client

    It asks [req k tok], the [k]-th request with the token of the previous
    answer, until there is no token or a request is refused. *)

Fixpoint client {A} (fuel : nat) (req : nat -> string -> result problem (list A * string))
    (tok : string) : option (list A) :=
  match fuel with
  | O => None
  | S f =>
      match req 0 tok with
      | Err _ => None
      | Ok (page, next) =>
          if str_eqb next EmptyString then Some page
          else app page <$> client f (fun i => req (S i)) next
      end
  end.

Definition as_answer {P} (r : option P) : result problem P :=
  match r with Some x => Ok x | None => Err (bad_request "bad page_token") end.

Lemma client_follow {A K} (key : A -> K) after enc dec size fuel : forall req snap tok,
  (forall k t, req k t = as_answer (page_at key after enc dec (snap k) size t)) ->
  client fuel req tok = follow key after enc dec fuel snap size tok.
Proof.
  induction fuel as [|f IH]; intros req snap tok H; [done|]. cbn [client follow]. rewrite H.
  destruct (page_at _ _ _ _ _ _ _) as [[page next]|]; cbn [as_answer]; [|done].
  destruct (str_eqb next EmptyString); [done|].
  by rewrite (IH (fun i => req (S i)) (fun i => snap (S i))).
Qed.
