(* ===== verification/DictLoad.v ===== *)
(** * The dictionary loader (pkg/cpath/dict.go)

    [LoadDict] reads the three core files and the fragments under ext.d and
    merges them; a fragment may add names, never redefine one.  The theorems
    say exactly when loading succeeds and with which tables, and that
    fragments are conservative: an address the core dictionary accepts is read
    the same way by the extended one, over disjoint vocabularies. *)
From S2P Require Import Prelude Float64 GoTime CPath Cursor.
Open Scope string_scope.
Open Scope list_scope.

(** ** YAML values

    What yaml.v3 stores in an [interface{}]: a mapping whose keys are all
    strings is a [map[string]interface{}], any other mapping a
    [map[interface{}]interface{}]; [YOther] stands for the types the code has
    no case for (unsigned integers, timestamps).  The entries of a map are
    listed in the order a [range] visits them. *)
#[warnings="-register-all"] Inductive yaml : Type :=
  | YNull
  | YBool (b : bool)
  | YInt (n : Z)
  | YInt64 (n : Z)
  | YFloat (f : float64)
  | YStr (s : string)
  | YSeq (xs : list yaml)
  | YMap (m : list (string * yaml))
  | YIMap (m : list (yaml * yaml))
  | YOther.

(** A Go [map[string]interface{}] of the second level, and its read. *)
Abbreviation fields := (gmap string yaml).
Definition field (m : fields) (k : string) : yaml := default YNull (m !! k).

(** [s, _ := v.(string)] and [xs, _ := v.([]interface{})]. *)
Definition as_string (v : yaml) : string := match v with YStr s => s | _ => EmptyString end.
Definition as_seq (v : yaml) : list yaml := match v with YSeq xs => xs | _ => [] end.

Definition toStrings (xs : list yaml) : list string :=
  omap (fun x => match x with YStr s => Some s | _ => None end) xs.

(** ** Enumerations *)

(** One turn of the loop over the entries: a key that is a string or an int
    and reads as an integer is stored, any other is skipped. *)
Definition enum_key (k : yaml) : option Z :=
  match k with
  | YStr ks => Atoi ks
  | YInt ki => Atoi (itoa ki)
  | _ => None
  end.

Definition enum_entry (out : gmap Z string) (kv : yaml * yaml) : gmap Z string :=
  match enum_key kv.1 with
  | Some n => <[n := as_string kv.2]> out
  | None => out
  end.

(** The empty map stands for Go's [nil]: [parseEnum] returns no other empty
    map, and its callers only compare with [nil]. *)
Definition parseEnum (raw : yaml) : gmap Z string :=
  match raw with
  | YMap m => foldl enum_entry ∅ ((fun '(k, v) => (YStr k, v)) <$> m)
  | YIMap m => foldl enum_entry ∅ m
  | _ => ∅
  end.

(** ** Entries of the tables *)

Definition typeDef (def : fields) : TypeDef :=
  mkTypeDef (toStrings (as_seq (field def "parents"))) (as_string (field def "level"))
    (as_string (field def "desc")) (toStrings (as_seq (field def "attrs_required"))).

Definition quantityDef (def : fields) : QuantityDef :=
  mkQuantityDef (as_string (field def "unit")) (as_string (field def "kind")) []
    (parseEnum (field def "enum")).

Definition derivedDef (def : fields) : QuantityDef :=
  mkQuantityDef (as_string (field def "unit")) EmptyString
    (toStrings (as_seq (field def "host"))) ∅.

(** ** Documents *)

Record rawTypes : Type := mkRawTypes {
  rt_Domains : gmap string (list string);
  rt_Types : gmap string fields;
  rt_Relations : gmap string fields
}.

Record rawQuantities : Type := mkRawQuantities {
  rq_Quantities : gmap string fields;
  rq_Derived : gmap string fields
}.

Record rawLocations : Type := mkRawLocations {
  rl_Loop : gmap string fields;
  rl_Side : gmap string fields;
  rl_Phase : gmap string fields
}.

Record fragmentTypes : Type := mkFragTypes { ft_Types : gmap string fields }.
Record fragmentQuantities : Type := mkFragQuant {
  fq_Quantities : gmap string fields;
  fq_Derived : gmap string fields
}.

Definition keysToBool {V} (m : gmap string V) : gmap string bool := (fun _ => true) <$> m.

(** ** Merging *)

(** Errors name a file (a path as the list of its elements) or the name that
    is defined twice. *)
Inductive load_err : Type :=
  | ERead (path : list string)
  | EParse (path : list string)
  | EConflictType (name : string)
  | EConflictQuantity (name : string)
  | EConflictDerived (name : string).

(** The loop over one section of one fragment: the first name that is already
    in the table stops the load. *)
Fixpoint add_entries {A} (f : fields -> A) (conflict : string -> load_err)
    (entries : list (string * fields)) (tbl : gmap string A) :
    result load_err (gmap string A) :=
  match entries with
  | [] => Ok tbl
  | (name, def) :: entries' =>
      match tbl !! name with
      | Some _ => Err (conflict name)
      | None => add_entries f conflict entries' (<[name := f def]> tbl)
      end
  end.

(** A Go map ranged over; its order is unspecified. *)
Definition addEntry {A} (f : fields -> A) (conflict : string -> load_err)
    (frag : gmap string fields) (tbl : gmap string A) : result load_err (gmap string A) :=
  add_entries f conflict (map_to_list frag) tbl.

Fixpoint merge_types (fts : list fragmentTypes) (tbl : gmap string TypeDef) :
    result load_err (gmap string TypeDef) :=
  match fts with
  | [] => Ok tbl
  | ft :: fts' =>
      tbl' ← addEntry typeDef EConflictType (ft_Types ft) tbl;
      merge_types fts' tbl'
  end.

Fixpoint merge_quantities (fqs : list fragmentQuantities)
    (qs ds : gmap string QuantityDef) :
    result load_err (gmap string QuantityDef * gmap string QuantityDef) :=
  match fqs with
  | [] => Ok (qs, ds)
  | fq :: fqs' =>
      qs' ← addEntry quantityDef EConflictQuantity (fq_Quantities fq) qs;
      ds' ← addEntry derivedDef EConflictDerived (fq_Derived fq) ds;
      merge_quantities fqs' qs' ds'
  end.

(** The tables before the fragments are merged. *)
Definition core_dict (t : rawTypes) (q : rawQuantities) (l : rawLocations) : Dict := {|
  d_Types := typeDef <$> rt_Types t;
  d_Quantities := quantityDef <$> rq_Quantities q;
  d_Derived := derivedDef <$> rq_Derived q;
  d_Loops := keysToBool (rl_Loop l);
  d_Sides := keysToBool (rl_Side l);
  d_Phases := keysToBool (rl_Phase l);
  d_Domains := rt_Domains t;
  d_Relations := keysToBool (rt_Relations t)
|}.

Definition with_tables (d : Dict) (ts : gmap string TypeDef) (qs ds : gmap string QuantityDef) : Dict :=
  mkDict ts qs ds (d_Loops d) (d_Sides d) (d_Phases d) (d_Domains d) (d_Relations d).

(** ** Files

    The directory is read through [ReadFile] and [ReadDir]; the decoders are
    yaml.Unmarshal at the document types. *)
Inductive dir_read : Type :=
  | DirAbsent
  | DirFailed
  | DirEntries (es : list (string * bool)).

(** [filepath.Ext] of a directory entry (a name without slashes). *)
Definition Ext (name : string) : string :=
  let '(ext, rest) := span_bytes (fun c => negb (byte_eqb c ".")) (rev_str name) in
  match rest with
  | EmptyString => EmptyString
  | String _ _ => String "." (rev_str ext)
  end.

(** The names [ReadDir] loops keep: no directories, extension [.yaml], sorted. *)
Definition fragment_names (es : list (string * bool)) : list string :=
  sort_strings (omap (fun '(name, isDir) =>
    if (isDir : bool) then None
    else if negb (str_eqb (Ext name) ".yaml") then None else Some name) es).

Section files.
Context (ReadFile : list string -> option string) (ReadDir : list string -> dir_read).
Context (as_types : string -> option rawTypes) (as_quantities : string -> option rawQuantities).
Context (as_locations : string -> option rawLocations).
Context (as_ftypes : string -> option fragmentTypes) (as_fquant : string -> option fragmentQuantities).

Definition loadRaw {T} (decode : string -> option T) (path : list string) : result load_err T :=
  match ReadFile path with
  | None => Err (ERead path)
  | Some raw => match decode raw with Some v => Ok v | None => Err (EParse path) end
  end.

Fixpoint read_fragments (extDir : list string) (files : list string) :
    result load_err (list fragmentTypes * list fragmentQuantities) :=
  match files with
  | [] => Ok ([], [])
  | name :: files' =>
      ft ← loadRaw as_ftypes (extDir ++ [name]);
      fq ← loadRaw as_fquant (extDir ++ [name]);
      '(ts, qs) ← read_fragments extDir files';
      mret (ft :: ts, fq :: qs)
  end.

Definition loadDictFragments (dir : list string) :
    result load_err (list fragmentTypes * list fragmentQuantities) :=
  let extDir := dir ++ ["ext.d"] in
  match ReadDir extDir with
  | DirAbsent => Ok ([], [])
  | DirFailed => Err (ERead extDir)
  | DirEntries es => read_fragments extDir (fragment_names es)
  end.

Definition LoadDict (dir : list string) : result load_err Dict :=
  t ← loadRaw as_types (dir ++ ["types.yaml"]);
  q ← loadRaw as_quantities (dir ++ ["quantities.yaml"]);
  l ← loadRaw as_locations (dir ++ ["locations.yaml"]);
  '(fragTypes, fragQuant) ← loadDictFragments dir;
  let d := core_dict t q l in
  ts ← merge_types fragTypes (d_Types d);
  '(qs, ds) ← merge_quantities fragQuant (d_Quantities d) (d_Derived d);
  mret (with_tables d ts qs ds).
End files.

(** ** Tables that only grow

    [apart ms]: no name is defined by two of the maps. *)
Definition apart {A} (ms : list (gmap string A)) : Prop := ForallOrdPairs map_disjoint ms.
Definition together {A} (ms : list (gmap string A)) : gmap string A := foldr (∪) ∅ ms.

Lemma apart_join {A} (a b : gmap string A) ms :
  apart (a :: b :: ms) <-> a ##ₘ b /\ apart (a ∪ b :: ms).
Proof.
  unfold apart. split.
  - intros H. inv H. inv H3. inv H2. split; [done|]. constructor; [|done].
    rewrite Forall_forall in *. intros m Hm. apply map_disjoint_union_l. auto.
  - intros [Hab H]. inv H. rewrite Forall_forall in H2.
    constructor; [constructor; [done|]|constructor; [|done]]; apply Forall_forall;
      intros m Hm; specialize (H2 m Hm); by apply map_disjoint_union_l in H2 as [??].
Qed.

Lemma together_join {A} (a b : gmap string A) ms :
  together (a :: b :: ms) = together (a ∪ b :: ms).
Proof. cbn. by rewrite map_union_assoc. Qed.

Lemma add_entries_spec {A} (f : fields -> A) conflict es tbl r :
  NoDup es.*1 ->
  add_entries f conflict es tbl = Ok r <->
  Forall (fun k => tbl !! k = None) es.*1 /\ r = tbl ∪ (f <$> list_to_map es).
Proof.
  revert tbl. induction es as [|[k v] es IH]; intros tbl Hnd; cbn [add_entries fmap list_fmap fst].
  - cbn. rewrite fmap_empty, map_union_empty. split; [intros [= ->]|intros [_ ->]]; auto.
  - cbn in Hnd. apply NoDup_cons in Hnd as [Hk Hnd].
    destruct (tbl !! k) as [x|] eqn:Ek.
    + split; [done|]. intros [H _]. by inv H.
    + rewrite IH by done. cbn [list_to_map foldr uncurry].
      change (foldr (fun p => <[p.1:=p.2]>) ∅ es) with (list_to_map (M := gmap string fields) es).
      rewrite fmap_insert, <- insert_union_l, insert_union_r by done.
      rewrite Forall_cons. split.
      * intros [H ->]. split; [split; [done|]|done].
        eapply Forall_impl; [exact H|]. intros j Hj. cbn in Hj.
        rewrite lookup_insert in Hj. by case_decide.
      * intros [[_ H] ->]. split; [|done]. rewrite Forall_forall in *. intros j Hj.
        rewrite lookup_insert. case_decide as Hkj; [by subst|auto].
Qed.

Lemma addEntry_spec {A} (f : fields -> A) conflict frag acc r :
  addEntry f conflict frag (f <$> acc) = Ok r <-> acc ##ₘ frag /\ r = f <$> (acc ∪ frag).
Proof.
  unfold addEntry. rewrite add_entries_spec by apply NoDup_fst_map_to_list.
  rewrite list_to_map_to_list, map_fmap_union. split; intros [H ->]; (split; [|done]).
  - apply map_disjoint_spec. intros k x y Hx Hy. rewrite Forall_forall in H.
    enough (Hn : (f <$> acc) !! k = None) by (rewrite lookup_fmap, Hx in Hn; done).
    apply H, list_elem_of_fmap. exists (k, y). split; [done|]. by apply elem_of_map_to_list.
  - apply Forall_forall. intros k ([k' y] & -> & Hy%elem_of_map_to_list)%list_elem_of_fmap.
    rewrite lookup_fmap. cbn. destruct (acc !! k') as [x|] eqn:Ex; [|done].
    exfalso. rewrite map_disjoint_spec in H. by eapply H.
Qed.

Lemma merge_types_spec fts acc r :
  merge_types fts (typeDef <$> acc) = Ok r <->
  apart (acc :: (ft_Types <$> fts)) /\ r = typeDef <$> together (acc :: (ft_Types <$> fts)).
Proof.
  revert acc. induction fts as [|ft fts IH]; intros acc.
  - cbn. rewrite map_union_empty. split; [intros [= ->]|intros [_ ->]]; [|done].
    split; [|done]. repeat constructor.
  - cbn [merge_types fmap list_fmap]. rewrite bind_Ok, apart_join, together_join. split.
    + intros (m & [? ->]%addEntry_spec & [? ->]%IH). auto.
    + intros [[??] ->]. eexists. split; [by apply addEntry_spec|]. by apply IH.
Qed.

Lemma merge_quantities_spec fqs qacc dacc qs ds :
  merge_quantities fqs (quantityDef <$> qacc) (derivedDef <$> dacc) = Ok (qs, ds) <->
  (apart (qacc :: (fq_Quantities <$> fqs)) /\ apart (dacc :: (fq_Derived <$> fqs))) /\
  qs = quantityDef <$> together (qacc :: (fq_Quantities <$> fqs)) /\
  ds = derivedDef <$> together (dacc :: (fq_Derived <$> fqs)).
Proof.
  revert qacc dacc. induction fqs as [|fq fqs IH]; intros qacc dacc.
  - cbn. rewrite !map_union_empty. split; [intros [= -> ->]|by intros (_ & -> & ->)].
    split; [|done]. split; repeat constructor.
  - cbn [merge_quantities fmap list_fmap]. rewrite bind_Ok, !apart_join, !together_join. split.
    + intros (m & [? ->]%addEntry_spec & (m' & [? ->]%addEntry_spec & Hm)%bind_Ok).
      apply IH in Hm as ([??] & -> & ->). auto.
    + intros (([??] & [??]) & -> & ->). eexists. split; [by apply addEntry_spec|].
      apply bind_Ok. eexists. split; [by apply addEntry_spec|]. by apply IH.
Qed.

(** ** What loading promises *)

Section loading.
Context (ReadFile : list string -> option string) (ReadDir : list string -> dir_read).
Context (as_types : string -> option rawTypes) (as_quantities : string -> option rawQuantities).
Context (as_locations : string -> option rawLocations).
Context (as_ftypes : string -> option fragmentTypes) (as_fquant : string -> option fragmentQuantities).

Abbreviation read_raw := (loadRaw ReadFile).
Abbreviation load := (LoadDict ReadFile ReadDir as_types as_quantities as_locations as_ftypes as_fquant).
Abbreviation load_fragments := (loadDictFragments ReadFile ReadDir as_ftypes as_fquant).

(** The documents of a directory: the three core files and the fragments. *)
Record docs : Type := mkDocs {
  dc_t : rawTypes; dc_q : rawQuantities; dc_l : rawLocations;
  dc_fts : list fragmentTypes; dc_fqs : list fragmentQuantities
}.

Definition readable (dir : list string) (x : docs) : Prop :=
  read_raw as_types (dir ++ ["types.yaml"]) = Ok (dc_t x) /\
  read_raw as_quantities (dir ++ ["quantities.yaml"]) = Ok (dc_q x) /\
  read_raw as_locations (dir ++ ["locations.yaml"]) = Ok (dc_l x) /\
  load_fragments dir = Ok (dc_fts x, dc_fqs x).

(** No name of a section is defined twice. *)
Definition additive (x : docs) : Prop :=
  apart (rt_Types (dc_t x) :: (ft_Types <$> dc_fts x)) /\
  apart (rq_Quantities (dc_q x) :: (fq_Quantities <$> dc_fqs x)) /\
  apart (rq_Derived (dc_q x) :: (fq_Derived <$> dc_fqs x)).

Definition merged (x : docs) : Dict :=
  with_tables (core_dict (dc_t x) (dc_q x) (dc_l x))
    (typeDef <$> together (rt_Types (dc_t x) :: (ft_Types <$> dc_fts x)))
    (quantityDef <$> together (rq_Quantities (dc_q x) :: (fq_Quantities <$> dc_fqs x)))
    (derivedDef <$> together (rq_Derived (dc_q x) :: (fq_Derived <$> dc_fqs x))).

Lemma load_merged dir d :
  load dir = Ok d <-> exists x, readable dir x /\ additive x /\ d = merged x.
Proof using Type.
  unfold LoadDict. split.
  - intros H. apply bind_Ok in H as (t & Ht & H). apply bind_Ok in H as (q & Hq & H).
    apply bind_Ok in H as (l & Hl & H). apply bind_Ok in H as ([fts fqs] & Hf & H).
    cbn [core_dict d_Types d_Quantities d_Derived] in H.
    apply bind_Ok in H as (ts & [Ha ->]%merge_types_spec & H).
    apply bind_Ok in H as ([qs ds] & Hm & H).
    apply merge_quantities_spec in Hm as ([??] & -> & ->). injection H as <-.
    exists (mkDocs t q l fts fqs). repeat split; done.
  - intros ([t q l fts fqs] & (Ht & Hq & Hl & Hf) & (H1 & H2 & H3) & ->). cbn in *.
    rewrite Ht, Hq, Hl, Hf. cbn [mbind result_bind core_dict d_Types d_Quantities d_Derived].
    rewrite (proj2 (merge_types_spec _ _ _) (conj H1 eq_refl)). cbn [mbind result_bind].
    rewrite (proj2 (merge_quantities_spec _ _ _ _ _) (conj (conj H2 H3) (conj eq_refl eq_refl))).
    done.
Qed.
End loading.

Lemma apart_lookup {A} (ms : list (gmap string A)) m k x :
  apart ms -> m ∈ ms -> m !! k = Some x -> together ms !! k = Some x.
Proof.
  intros Ha Hin Hk. induction Ha as [|m' ms Hm Ha IH]; [by apply not_elem_of_nil in Hin|].
  apply elem_of_cons in Hin as [<-|Hin]; cbn; [by apply lookup_union_Some_l|].
  rewrite lookup_union_r; [auto|]. rewrite Forall_forall in Hm. specialize (Hm m Hin).
  rewrite map_disjoint_spec in Hm. destruct (m' !! k) as [y|] eqn:E; [|done].
  exfalso. by eapply Hm.
Qed.

Lemma together_lookup {A} (ms : list (gmap string A)) k x :
  together ms !! k = Some x -> exists m, m ∈ ms /\ m !! k = Some x.
Proof.
  induction ms as [|m ms IH]; cbn; [by rewrite lookup_empty|].
  intros [H|[_ H]]%lookup_union_Some_raw.
  - exists m. split; [left|done].
  - destruct (IH H) as (m' & ? & ?). exists m'. split; [by right|done].
Qed.

(** [d] has every entry of [d0], and the same location words: what merging
    fragments does to the core dictionary. *)
Record extends (d0 d : Dict) : Prop := {
  ex_types : d_Types d0 ⊆ d_Types d;
  ex_quantities : d_Quantities d0 ⊆ d_Quantities d;
  ex_derived : d_Derived d0 ⊆ d_Derived d;
  ex_loops : d_Loops d = d_Loops d0;
  ex_sides : d_Sides d = d_Sides d0;
  ex_phases : d_Phases d = d_Phases d0
}.

Lemma fmap_together_subseteq {A B} (f : A -> B) (m : gmap string A) ms :
  f <$> m ⊆ f <$> together (m :: ms).
Proof. apply map_fmap_mono. cbn. apply map_union_subseteq_l. Qed.

Lemma merged_extends x : extends (core_dict (dc_t x) (dc_q x) (dc_l x)) (merged x).
Proof. split; cbn; try done; apply fmap_together_subseteq. Qed.

Lemma nodes_ok_extends d0 d prev ns : extends d0 d -> nodes_ok d0 prev ns -> nodes_ok d prev ns.
Proof.
  intros He. induction 1 as [|prev n def ns Hf Ht Hi Hp Hns IH]; [constructor|].
  econstructor; try done. by eapply lookup_weaken, ex_types.
Qed.

Lemma quantity_ok_extends d0 d ns loop side q :
  extends d0 d -> quantity_ok d0 ns loop side q -> quantity_ok d ns loop side q.
Proof.
  intros He (H1 & H2 & H3). split; [|split; [done|]].
  - intros Hn. destruct (H1 Hn) as [x Hx]. exists x. by eapply lookup_weaken, ex_derived.
  - destruct H3 as [[x Hx]|(def & Hd & Hin)].
    + left. exists x. by eapply lookup_weaken, ex_quantities.
    + right. exists def. split; [by eapply lookup_weaken, ex_derived|done].
Qed.

Lemma point_ok_extends d0 d p : extends d0 d -> point_ok d0 p -> point_ok d p.
Proof.
  intros He [Hs Hseg Hns Hl Hsd Hph Hqs Hq].
  split; try done; [by eapply nodes_ok_extends|..| |by eapply quantity_ok_extends].
  - unfold loop_ok. by rewrite (ex_loops _ _ He).
  - unfold opt_in. by rewrite (ex_sides _ _ He).
  - unfold opt_in. by rewrite (ex_phases _ _ He).
Qed.

(** [d] holds what the documents define: an entry for every name of every file,
    nothing else, and the location words, domains and relations of the core. *)
Definition defines {B} (f : fields -> B) (ms : list (gmap string fields)) (tbl : gmap string B) : Prop :=
  forall name b, tbl !! name = Some b <-> exists m def, m ∈ ms /\ m !! name = Some def /\ f def = b.

Definition describes (x : docs) (d : Dict) : Prop :=
  defines typeDef (rt_Types (dc_t x) :: (ft_Types <$> dc_fts x)) (d_Types d) /\
  defines quantityDef (rq_Quantities (dc_q x) :: (fq_Quantities <$> dc_fqs x)) (d_Quantities d) /\
  defines derivedDef (rq_Derived (dc_q x) :: (fq_Derived <$> dc_fqs x)) (d_Derived d) /\
  d_Loops d = keysToBool (rl_Loop (dc_l x)) /\ d_Sides d = keysToBool (rl_Side (dc_l x)) /\
  d_Phases d = keysToBool (rl_Phase (dc_l x)) /\ d_Domains d = rt_Domains (dc_t x) /\
  d_Relations d = keysToBool (rt_Relations (dc_t x)).

Lemma defines_together {B} (f : fields -> B) ms : apart ms -> defines f ms (f <$> together ms).
Proof.
  intros Ha name b. rewrite lookup_fmap, fmap_Some. split.
  - intros (def & (m & ? & ?)%together_lookup & ->). by exists m, def.
  - intros (m & def & ? & ? & <-). exists def. split; [by eapply apart_lookup|done].
Qed.

Lemma defines_unique {B} (f : fields -> B) ms a b : defines f ms a -> defines f ms b -> a = b.
Proof. intros Ha Hb. apply map_eq. intros k. apply option_eq. intros v. by rewrite (Ha k v), (Hb k v). Qed.

(** C25: [LoadDict] succeeds with [d] exactly when the core files and every
    fragment under ext.d can be read, no type, quantity or derived quantity is
    defined by two of the files, and [d] describes them: every entry of every
    file and no other, so a fragment can neither edit nor remove a core entry,
    nor touch the location words, domains and relations. *)
Theorem LoadDict_exact ReadFile ReadDir as_types as_quantities as_locations as_ftypes as_fquant dir d :
  LoadDict ReadFile ReadDir as_types as_quantities as_locations as_ftypes as_fquant dir = Ok d <->
  exists x, readable ReadFile ReadDir as_types as_quantities as_locations as_ftypes as_fquant dir x /\
    additive x /\ describes x d.
Proof.
  rewrite load_merged. split; intros (x & Hr & Ha & Hd); exists x; (split; [done|split; [done|]]);
    destruct Ha as (H1 & H2 & H3).
  - subst d. repeat split; try (by apply defines_together).
  - destruct Hd as (Ht & Hq & Hv & ? & ? & ? & ? & ?). destruct d. cbn in *. subst.
    unfold merged, with_tables, core_dict. cbn [d_Loops d_Sides d_Phases d_Domains d_Relations]. f_equal.
    + by eapply defines_unique, defines_together.
    + by eapply defines_unique, defines_together.
    + by eapply defines_unique, defines_together.
Qed.

(** Fragments are conservative: when loading succeeds with [d] and the
    vocabularies of [d] are disjoint, every asset path and every point address
    the core files alone accept is accepted under [d] and read as the same
    asset or point. *)
Lemma extensions_conservative ReadFile ReadDir as_types as_quantities as_locations as_ftypes as_fquant
    dir d x s :
  LoadDict ReadFile ReadDir as_types as_quantities as_locations as_ftypes as_fquant dir = Ok d ->
  readable ReadFile ReadDir as_types as_quantities as_locations as_ftypes as_fquant dir x ->
  vocab_ok d ->
  (forall p, ParsePoint (core_dict (dc_t x) (dc_q x) (dc_l x)) s = Ok p -> ParsePoint d s = Ok p) /\
  (forall a, ParseAssetPath (core_dict (dc_t x) (dc_q x) (dc_l x)) s = Ok a -> ParseAssetPath d s = Ok a).
Proof.
  intros H Hx Hv. apply load_merged in H as (x' & Hx' & _ & ->).
  destruct Hx as (Ht & Hq & Hl & _), Hx' as (Ht' & Hq' & Hl' & _).
  rewrite Ht in Ht'. rewrite Hq in Hq'. rewrite Hl in Hl'.
  injection Ht' as Ht'. injection Hq' as Hq'. injection Hl' as Hl'.
  pose proof (merged_extends x') as He. rewrite <- Ht', <- Hq', <- Hl' in He. split.
  - intros p [<- Hp]%parsed_point_ok. apply point_ok_parses; [done|]. by eapply point_ok_extends.
  - intros a [(Hs & Hseg & Hne & Hns) <-]%asset_path_iff. apply asset_path_iff.
    split; [|done]. repeat split; try done. by eapply nodes_ok_extends.
Qed.

(** ** A concrete directory

    Core files that load to [demo_dict] and one fragment. *)
Definition ystrs (xs : list string) : yaml := YSeq (YStr <$> xs).
Definition demo_type (parents : list string) (level desc : string) : fields :=
  <["parents" := ystrs parents]> (<["level" := YStr level]> (<["desc" := YStr desc]> ∅)).
Definition demo_quantity (unit kind : string) : fields :=
  <["unit" := YStr unit]> (<["kind" := YStr kind]> ∅).
Definition demo_derived (unit : string) (host : list string) : fields :=
  <["unit" := YStr unit]> (<["host" := ystrs host]> ∅).

Definition demo_docs : docs := {|
  dc_t := mkRawTypes ∅
    (<["pod" := demo_type ["site"] "device" "pod"]>
    (<["cdu" := demo_type ["pod"] "device" "cdu"]>
    (<["gpu" := demo_type ["cdu"] "chip" "gpu"]> ∅))) ∅;
  dc_q := mkRawQuantities
    (<["flow" := demo_quantity "lpm" "gauge"]> (<["temp" := demo_quantity "celsius" "gauge"]> ∅))
    (<["pue" := demo_derived "ratio" ["site"]]> (<["deltat" := demo_derived "celsius" ["cdu"]]> ∅));
  dc_l := mkRawLocations (<["fws" := ∅]> (<["tcs" := ∅]> ∅))
    (<["supply" := ∅]> (<["return" := ∅]> ∅)) (<["pa" := ∅]> (<["pb" := ∅]> ∅));
  dc_fts := [mkFragTypes (<["fan" := demo_type ["cdu"; "pod"] "device" "fan"]> ∅)];
  dc_fqs := [mkFragQuant
    (<["status" := <["unit" := YStr "enum"]> (<["enum" := YIMap [(YInt 0, YStr "off"); (YStr "1", YStr "on")]]> ∅)]> ∅) ∅]
|}.

Definition demo_read (path : list string) : option string := Some (List.last path EmptyString).
Definition demo_dir (path : list string) : dir_read :=
  DirEntries [("a.yaml", false); ("notes.txt", false); ("old.yaml", true)].
Definition demo_ft (s : string) : option fragmentTypes := head (dc_fts demo_docs).
Definition demo_fq (s : string) : option fragmentQuantities := head (dc_fqs demo_docs).

Abbreviation demo_load := (LoadDict demo_read demo_dir (fun _ => Some (dc_t demo_docs))
  (fun _ => Some (dc_q demo_docs)) (fun _ => Some (dc_l demo_docs)) demo_ft demo_fq ["protocol"]).

Definition demo_ext_dict : Dict :=
  with_tables demo_dict
    (<["fan" := mkTypeDef ["cdu"; "pod"] LevelDevice "fan" []]> (d_Types demo_dict))
    (<["status" := mkQuantityDef "enum" EmptyString [] (<[0%Z := "off"]> (<[1%Z := "on"]> ∅))]>
       (d_Quantities demo_dict)) (d_Derived demo_dict).

Example demo_core_loads :
  core_dict (dc_t demo_docs) (dc_q demo_docs) (dc_l demo_docs) = demo_dict /\
  demo_load = Ok demo_ext_dict.
Proof. split; vm_compute; reflexivity. Qed.

(** A fragment that defines [temp] as a type name breaks every temperature of
    the core: without disjoint vocabularies extensions are not conservative. *)
Example shadowing_breaks :
  let x := mkDocs (dc_t demo_docs) (dc_q demo_docs) (dc_l demo_docs)
    [mkFragTypes (<["temp" := demo_type ["pod"] "device" "probe"]> ∅)] [] in
  is_ok (ParsePoint demo_dict "sgp01.pod002.temp") = true /\
  ParsePoint (merged x) "sgp01.pod002.temp" = Err ErrSyntax.
Proof. vm_compute. done. Qed.

Lemma demo_ext_vocab : vocab_ok demo_ext_dict.
Proof.
  pose proof demo_vocab_ok as Hv. split; cbn; intros w.
  - by intros [->|[->|[]%map_bool_empty]%map_bool_insert_inv]%map_bool_insert_inv.
  - intros [->|[->|[]%map_bool_empty]%map_bool_insert_inv]%map_bool_insert_inv;
      repeat split; by apply not_loop_bool.
  - intros [->|[->|[]%map_bool_empty]%map_bool_insert_inv]%map_bool_insert_inv;
      repeat split; by apply not_loop_bool.
  - intros [[->|[->|[->|H]%is_Some_insert_inv]%is_Some_insert_inv]%is_Some_insert_inv|
            [->|[->|H]%is_Some_insert_inv]%is_Some_insert_inv]; try done;
      by rewrite lookup_empty in H; destruct H.
Qed.

Lemma extensions_conservative_witness :
  ParsePoint demo_ext_dict "sgp01.pod002.cdu000.fws1.supply.temp" = Ok demo_point.
Proof.
  refine (proj1 (extensions_conservative demo_read demo_dir (fun _ => Some (dc_t demo_docs))
    (fun _ => Some (dc_q demo_docs)) (fun _ => Some (dc_l demo_docs)) demo_ft demo_fq ["protocol"]
    demo_ext_dict demo_docs "sgp01.pod002.cdu000.fws1.supply.temp" _ _ demo_ext_vocab) demo_point _).
  - vm_compute. reflexivity.
  - repeat split; vm_compute; reflexivity.
  - vm_compute. reflexivity.
Defined.
