(* ===== verification/PointMap.v ===== *)
(** * Point maps (pkg/pointmap)

    The unit table (units.go), the decoding of a point and the static rules V1
    to V7 ([Load], pointmap.go), with the canonical address prefix of an asset
    type: a breadth-first search for the shortest chain of parents and an
    enumeration of all the shortest ones.  The theorems say that the prefix is
    the least of the shortest chains, that checking a point below it decides
    the point for every asset of the type, and exactly which maps [Load]
    accepts. *)
From stdpp Require Import sorting.
From S2P Require Import Prelude Float64 GoTime CPath Cursor DictLoad.
Open Scope string_scope.
Open Scope list_scope.

(** ** Units *)

Record Conv : Type := mkConv { c_Factor : float64; c_Offset : float64 }.

Abbreviation unit_row := (gmap string Conv).
Record Units : Type := mkUnits { u_accepts : gmap string unit_row }.
Record unitsDoc : Type := mkUnitsDoc { ud_Units : gmap string unit_row }.

Inductive units_err : Type :=
  | URead (path : list string)
  | UParse (path : list string)
  | UConflict (label : nat) (std : string).

Fixpoint merge_units_entries (label : nat) (entries : list (string * unit_row)) (u : Units) :
    result units_err Units :=
  match entries with
  | [] => Ok u
  | (std, row) :: entries' =>
      match u_accepts u !! std with
      | Some _ => Err (UConflict label std)
      | None => merge_units_entries label entries' (mkUnits (<[std := row]> (u_accepts u)))
      end
  end.

(** The label is the number of the fragment, zero for the core file. *)
Definition mergeUnitsDoc (u : Units) (doc : unitsDoc) (label : nat) : result units_err Units :=
  merge_units_entries label (map_to_list (ud_Units doc)) u.

Fixpoint merge_fragments (i : nat) (fragments : list unitsDoc) (u : Units) : result units_err Units :=
  match fragments with
  | [] => Ok u
  | frag :: fragments' =>
      u' ← mergeUnitsDoc u frag (i + 1);
      merge_fragments (i + 1) fragments' u'
  end.

Section units_files.
Context (ReadFile : list string -> option string) (ReadDir : list string -> dir_read).
Context (as_units : string -> option unitsDoc).

Definition readUnitsDoc (path : list string) : result units_err unitsDoc :=
  match ReadFile path with
  | None => Err (URead path)
  | Some raw => match as_units raw with Some doc => Ok doc | None => Err (UParse path) end
  end.

Fixpoint read_units_docs (extDir : list string) (files : list string) :
    result units_err (list unitsDoc) :=
  match files with
  | [] => Ok []
  | name :: files' =>
      doc ← readUnitsDoc (extDir ++ [name]);
      docs ← read_units_docs extDir files';
      mret (doc :: docs)
  end.

Definition readUnitsFragments (extDir : list string) : result units_err (list unitsDoc) :=
  match ReadDir extDir with
  | DirAbsent => Ok []
  | DirFailed => Err (URead extDir)
  | DirEntries es => read_units_docs extDir (fragment_names es)
  end.

Definition LoadUnits (dir : list string) : result units_err Units :=
  core ← readUnitsDoc (dir ++ ["units.yaml"]);
  fragments ← readUnitsFragments (dir ++ ["ext.d"]);
  u ← mergeUnitsDoc (mkUnits ∅) core 0;
  merge_fragments 0 fragments u.
End units_files.

Definition identity_conv : Conv := mkConv f1 f0.

Definition CanConvert (u : Units) (std inu : string) : option Conv :=
  if str_eqb std inu then Some identity_conv
  else match u_accepts u !! std with
       | Some row => row !! inu
       | None => None
       end.

(** ** Points *)

Record Limits : Type := mkLimits { l_Min : float64; l_Max : float64 }.

Record PointDef : Type := mkPointDef {
  pd_Point : string;
  pd_Access : string;
  pd_RiskClass : string;
  pd_Source : string;
  pd_UnitIn : string;
  pd_Scale : float64;
  pd_Limits : option Limits;
  pd_EnumMap : gmap Z Z;
  pd_Readback : string;
  pd_Protocol : fields
}.

Record PointMap : Type := mkPointMap {
  pm_Name : string;
  pm_Driver : string;
  pm_AppliesTo : string;
  pm_Points : list PointDef
}.

(** One constructor per message of [Load]; the point's name where the message
    carries it. *)
Inductive pm_err : Type :=
  | ERead | EParse | EKind (got : string)
  | V6Name | V6Driver | V6AppliesEmpty | V6AppliesUnknown
  | ENotMapping (i : nat) | EScale (i : nat) | ELimits (i : nat) | EEnumMap (i : nat)
  | EKey (i : nat) (k : string)
  | V6Duplicate (point : string) (first : nat)
  | V1 (point : string) (e : cpath_err)
  | V2Unknown (point : string) | V2Convert (point : string)
  | V3NonEnum (point : string) | V3Value (point : string) | V3NoMap (point : string)
  | V4NoRisk (point : string) | V4BadRisk (point : string) | V4NoLimits (point : string)
  | V4Limits (point : string) | V4RoRisk (point : string) | V4RoLimits (point : string)
  | V4Access (point : string)
  | V5 (point : string)
  | V7Virtual (point : string) | V7Derived (point : string).

(** [if cond { errs = append(errs, e) }]. *)
Definition err_if {E} (c : bool) (e : E) : list E := if c then [e] else [].

Section decode.
(** [ParseFloat] is strconv.ParseFloat on the text of a quoted number, with its
    special values and hexadecimal forms; [oor] the conversion to [int] of a
    float that does not fit. *)
Context (ParseFloat : string -> option float64) (oor : float64 -> Z).

Definition to_int (f : float64) : Z :=
  match ftrunc f with
  | Some z => if (min_int64 <=? z)%Z && (z <=? max_int64)%Z then z else wrap64 (oor f)
  | None => wrap64 (oor f)
  end.

Definition toFloat (v : yaml) : option float64 :=
  match v with
  | YFloat n => Some n
  | YInt n => Some (f_of_Z n)
  | YInt64 n => Some (f_of_Z n)
  | YStr n => ParseFloat n
  | _ => None
  end.

Definition toInt (v : yaml) : option Z :=
  match v with
  | YInt n => Some n
  | YInt64 n => Some n
  | YFloat n => Some (to_int n)
  | YStr n => Atoi n
  | _ => None
  end.

(** [get]: a missing key reads as zero. *)
Definition get_bound (m : fields) (key : string) : option float64 :=
  match m !! key with
  | None => Some f0
  | Some raw => toFloat raw
  end.

Definition min_max (m : fields) : option (float64 * float64) :=
  lo ← get_bound m "min";
  hi ← get_bound m "max";
  Some (lo, hi).

(** The string-keyed entries of a map with keys of any type. *)
Definition string_entries (m : list (yaml * yaml)) : list (string * yaml) :=
  omap (fun '(k, v) => match k with YStr ks => Some (ks, v) | _ => None end) m.

Definition minMax (v : yaml) : option (float64 * float64) :=
  match v with
  | YMap m => min_max (list_to_map m)
  | YIMap m => min_max (list_to_map (string_entries m))
  | _ => None
  end.

Definition decodeLimits (v : yaml) : option Limits :=
  '(lo, hi) ← minMax v;
  Some (mkLimits lo hi).

Definition flattenMap (v : yaml) : option (list (yaml * yaml)) :=
  match v with
  | YMap m => Some ((fun '(k, x) => (YStr k, x)) <$> m)
  | YIMap m => Some m
  | _ => None
  end.

Fixpoint enum_entries (entries : list (yaml * yaml)) (out : gmap Z Z) : option (gmap Z Z) :=
  match entries with
  | [] => Some out
  | (k, v) :: entries' =>
      nk ← toInt k;
      nv ← toInt v;
      enum_entries entries' (<[nk := nv]> out)
  end.

Definition decodeEnumMap (v : yaml) : option (gmap Z Z) :=
  entries ← flattenMap v;
  enum_entries entries ∅.

Definition known_keys : list string :=
  ["point"; "access"; "risk_class"; "source"; "unit_in"; "scale"; "limits"; "enum_map"; "readback"].

Definition zero_point : PointDef :=
  mkPointDef EmptyString EmptyString EmptyString EmptyString EmptyString f0 None ∅ EmptyString ∅.

Definition set_Point s p := mkPointDef s (pd_Access p) (pd_RiskClass p) (pd_Source p) (pd_UnitIn p)
  (pd_Scale p) (pd_Limits p) (pd_EnumMap p) (pd_Readback p) (pd_Protocol p).
Definition set_Access s p := mkPointDef (pd_Point p) s (pd_RiskClass p) (pd_Source p) (pd_UnitIn p)
  (pd_Scale p) (pd_Limits p) (pd_EnumMap p) (pd_Readback p) (pd_Protocol p).
Definition set_RiskClass s p := mkPointDef (pd_Point p) (pd_Access p) s (pd_Source p) (pd_UnitIn p)
  (pd_Scale p) (pd_Limits p) (pd_EnumMap p) (pd_Readback p) (pd_Protocol p).
Definition set_Source s p := mkPointDef (pd_Point p) (pd_Access p) (pd_RiskClass p) s (pd_UnitIn p)
  (pd_Scale p) (pd_Limits p) (pd_EnumMap p) (pd_Readback p) (pd_Protocol p).
Definition set_UnitIn s p := mkPointDef (pd_Point p) (pd_Access p) (pd_RiskClass p) (pd_Source p) s
  (pd_Scale p) (pd_Limits p) (pd_EnumMap p) (pd_Readback p) (pd_Protocol p).
Definition set_Scale f p := mkPointDef (pd_Point p) (pd_Access p) (pd_RiskClass p) (pd_Source p)
  (pd_UnitIn p) f (pd_Limits p) (pd_EnumMap p) (pd_Readback p) (pd_Protocol p).
Definition set_Limits l p := mkPointDef (pd_Point p) (pd_Access p) (pd_RiskClass p) (pd_Source p)
  (pd_UnitIn p) (pd_Scale p) l (pd_EnumMap p) (pd_Readback p) (pd_Protocol p).
Definition set_EnumMap m p := mkPointDef (pd_Point p) (pd_Access p) (pd_RiskClass p) (pd_Source p)
  (pd_UnitIn p) (pd_Scale p) (pd_Limits p) m (pd_Readback p) (pd_Protocol p).
Definition set_Readback s p := mkPointDef (pd_Point p) (pd_Access p) (pd_RiskClass p) (pd_Source p)
  (pd_UnitIn p) (pd_Scale p) (pd_Limits p) (pd_EnumMap p) s (pd_Protocol p).
Definition set_Protocol m p := mkPointDef (pd_Point p) (pd_Access p) (pd_RiskClass p) (pd_Source p)
  (pd_UnitIn p) (pd_Scale p) (pd_Limits p) (pd_EnumMap p) (pd_Readback p) m.

(** One turn of the loop over the keys of a point. *)
Definition decode_key (idx : nat) (k : string) (v : yaml) (pd : PointDef) : result pm_err PointDef :=
  if str_eqb k "point" then Ok (set_Point (as_string v) pd)
  else if str_eqb k "access" then Ok (set_Access (as_string v) pd)
  else if str_eqb k "risk_class" then Ok (set_RiskClass (as_string v) pd)
  else if str_eqb k "source" then Ok (set_Source (as_string v) pd)
  else if str_eqb k "unit_in" then Ok (set_UnitIn (as_string v) pd)
  else if str_eqb k "scale" then
    match toFloat v with Some f => Ok (set_Scale f pd) | None => Err (EScale idx) end
  else if str_eqb k "limits" then
    match decodeLimits v with Some l => Ok (set_Limits (Some l) pd) | None => Err (ELimits idx) end
  else if str_eqb k "enum_map" then
    match decodeEnumMap v with Some em => Ok (set_EnumMap em pd) | None => Err (EEnumMap idx) end
  else if str_eqb k "readback" then Ok (set_Readback (as_string v) pd)
  else if contains_string known_keys k then Err (EKey idx k)
  else Ok (set_Protocol (<[k := v]> (pd_Protocol pd)) pd).

Fixpoint decode_keys (idx : nat) (entries : list (string * yaml)) (pd : PointDef) :
    result pm_err PointDef :=
  match entries with
  | [] => Ok pd
  | (k, v) :: entries' =>
      pd' ← decode_key idx k v pd;
      decode_keys idx entries' pd'
  end.

(** The defaults: read-only, measured, scale one (a scale of zero too). *)
Definition defaults (pd : PointDef) : PointDef :=
  let pd := if str_eqb (pd_Access pd) EmptyString then set_Access "ro" pd else pd in
  let pd := if str_eqb (pd_Source pd) EmptyString then set_Source "measured" pd else pd in
  if feqb (pd_Scale pd) f0 then set_Scale f1 pd else pd.

(** A point is a decoded mapping, [None] where the list holds a null. *)
Definition decodePoint (raw : option fields) (idx : nat) : result pm_err PointDef :=
  match raw with
  | None => Err (ENotMapping idx)
  | Some m => defaults <$> decode_keys idx (map_to_list m) zero_point
  end.
End decode.

(** ** The canonical prefix *)

(** [p[i+1:]] behind the last dot, [p] without one. *)
Definition quantityOf (p : string) : string := List.last (split "." p) EmptyString.

Definition quantityStandardUnit (name : string) (d : Dict) : string * string :=
  match d_Quantities d !! name with
  | Some q => (qd_Unit q, qd_Kind q)
  | None =>
      match d_Derived d !! name with
      | Some q => (qd_Unit q, "derived")
      | None => (EmptyString, EmptyString)
      end
  end.

Definition indexFor (name : string) (d : Dict) : string :=
  match d_Types d !! name with
  | Some def =>
      if str_eqb (td_Level def) LevelDevice then "000"
      else if str_eqb (td_Level def) LevelChip then "0" else EmptyString
  | None => EmptyString
  end.

Definition renderChain (acc : list string) (d : Dict) : string :=
  join "." ((fun name => name +:+ indexFor name d) <$> acc).

Section chain.
Context (d : Dict) (t : string) (def : TypeDef).

(** The parents of a type on the way up: the definition at hand for [t] itself. *)
Definition parents_of (cur : string) : list string :=
  if str_eqb cur t then td_Parents def
  else match d_Types d !! cur with Some pd => td_Parents pd | None => [] end.

(** The inner loop: parents not seen yet are recorded and enqueued. *)
Fixpoint push_parents (ps : list string) (n : nat) (dist : gmap string nat) (queue : list string) :
    gmap string nat * list string :=
  match ps with
  | [] => (dist, queue)
  | p :: ps' =>
      match dist !! p with
      | Some _ => push_parents ps' n dist queue
      | None => push_parents ps' n (<[p := n + 1]> dist) (queue ++ [p])
      end
  end.

Fixpoint bfs (fuel : nat) (dist : gmap string nat) (queue : list string) : gmap string nat :=
  match fuel, queue with
  | S fuel', cur :: queue' =>
      if str_eqb cur "site" then dist
      else
        let '(dist', queue'') := push_parents (parents_of cur) (default 0 (dist !! cur)) dist queue' in
        bfs fuel' dist' queue''
  | _, _ => dist
  end.

(** Every name the search can enqueue. *)
Definition all_names : list string :=
  t :: td_Parents def ++ concat ((fun kv => td_Parents kv.2) <$> map_to_list (d_Types d)).

(** The recursive closure [walk], by the levels that remain; [best] is the
    variable it updates. *)
Definition pick (best rendered : string) : string :=
  if str_eqb best EmptyString || str_lt rendered best then rendered else best.

Fixpoint walk (rem : nat) (cur : string) (acc : list string) (best : string) : string :=
  match rem with
  | O => if str_eqb cur "site" then pick best (renderChain (rev acc) d) else best
  | S rem' => foldl (fun best p => walk rem' p (acc ++ [cur]) best) best (sort_strings (parents_of cur))
  end.

Definition enumerateShortest (distGoal : nat) : string :=
  if str_eqb t "site" then EmptyString else walk (distGoal - 1) t [] EmptyString.

Definition buildParentChain : string :=
  let dist := bfs (S (length all_names)) (<[t := 0]> ∅) [t] in
  match dist !! "site" with
  | None => EmptyString
  | Some n => enumerateShortest (n + 1)
  end.
End chain.

(** ** The rules *)

Definition prefix_of (d : Dict) (appliesTo : string) : string :=
  if str_eqb appliesTo EmptyString then EmptyString
  else match d_Types d !! appliesTo with
       | Some p => "site01." +:+ buildParentChain d appliesTo p +:+ "."
       | None => EmptyString
       end.

Definition check_duplicate (seen : gmap string nat) (pd : PointDef) : list pm_err :=
  match seen !! pd_Point pd with
  | Some first => [V6Duplicate (pd_Point pd) first]
  | None => []
  end.

Definition check_V1 (d : Dict) (prefix : string) (pd : PointDef) : list pm_err :=
  if str_eqb prefix EmptyString then []
  else match ParsePoint d (prefix +:+ pd_Point pd) with
       | Err e => [V1 (pd_Point pd) e]
       | Ok _ => []
       end.

Definition check_V2 (d : Dict) (u : Units) (pd : PointDef) : list pm_err :=
  if str_eqb (pd_UnitIn pd) EmptyString then []
  else
    let '(stdUnit, _) := quantityStandardUnit (quantityOf (pd_Point pd)) d in
    if str_eqb stdUnit EmptyString then [V2Unknown (pd_Point pd)]
    else match CanConvert u stdUnit (pd_UnitIn pd) with
         | None => [V2Convert (pd_Point pd)]
         | Some _ => []
         end.

(** A read of a Go map compared with [nil]. *)
Definition is_null (v : yaml) : bool := match v with YNull => true | _ => false end.
Definition is_true (v : yaml) : bool := match v with YBool b => b | _ => false end.

Definition check_V3 (d : Dict) (pd : PointDef) : list pm_err :=
  let enum := from_option qd_Enum ∅ (d_Quantities d !! quantityOf (pd_Point pd)) in
  if negb (bool_decide (pd_EnumMap pd = ∅)) then
    if bool_decide (enum = ∅) then [V3NonEnum (pd_Point pd)]
    else err_if (existsb (fun v => negb (bool_decide (is_Some (enum !! v))))
                   ((map_to_list (pd_EnumMap pd)).*2)) (V3Value (pd_Point pd))
  else if negb (bool_decide (enum = ∅)) then
    err_if (negb (is_true (field (pd_Protocol pd) "standard_codes"))) (V3NoMap (pd_Point pd))
  else [].

Definition check_V4 (pd : PointDef) : list pm_err :=
  let a := pd_Access pd in let rc := pd_RiskClass pd in let pt := pd_Point pd in
  if str_eqb a "rw" then
    (if str_eqb rc EmptyString then [V4NoRisk pt]
     else err_if (negb (str_eqb rc "a") && negb (str_eqb rc "b") && negb (str_eqb rc "c")) (V4BadRisk pt)) ++
    (if str_eqb rc "a" then
       match pd_Limits pd with
       | None => [V4NoLimits pt]
       | Some l => err_if (negb (fltb (l_Min l) (l_Max l))) (V4Limits pt)
       end
     else [])
  else if str_eqb a "ro" || str_eqb a EmptyString then
    err_if (negb (str_eqb rc EmptyString)) (V4RoRisk pt) ++
    err_if (bool_decide (is_Some (pd_Limits pd))) (V4RoLimits pt)
  else [V4Access pt].

Definition check_V5 (pd : PointDef) : list pm_err :=
  err_if (str_eqb (pd_Access pd) "rw" && str_eqb (pd_Readback pd) EmptyString &&
          is_null (field (pd_Protocol pd) "register")) (V5 (pd_Point pd)).

Definition check_V7 (d : Dict) (pd : PointDef) : list pm_err :=
  err_if (str_eqb (pd_Source pd) "virtual" && str_eqb (pd_Access pd) "rw") (V7Virtual (pd_Point pd)) ++
  err_if (bool_decide (is_Some (d_Derived d !! quantityOf (pd_Point pd)))) (V7Derived (pd_Point pd)).

Definition check_point (d : Dict) (u : Units) (prefix : string) (seen : gmap string nat)
    (pd : PointDef) : list pm_err :=
  check_duplicate seen pd ++ check_V1 d prefix pd ++ check_V2 d u pd ++ check_V3 d pd ++
  check_V4 pd ++ check_V5 pd ++ check_V7 d pd.

Definition see (seen : gmap string nat) (point : string) (i : nat) : gmap string nat :=
  match seen !! point with Some _ => seen | None => <[point := i]> seen end.

(** The decoded file. *)
Record doc : Type := mkDoc {
  doc_Kind : string;
  doc_Name : string;
  doc_Driver : string;
  doc_AppliesTo : string;
  doc_Points : list (option fields)
}.

Definition check_metadata (d : Dict) (x : doc) : list pm_err :=
  err_if (str_eqb (doc_Name x) EmptyString) V6Name ++
  err_if (str_eqb (doc_Driver x) EmptyString) V6Driver ++
  (if str_eqb (doc_AppliesTo x) EmptyString then [V6AppliesEmpty]
   else err_if (negb (bool_decide (is_Some (d_Types d !! doc_AppliesTo x)))) V6AppliesUnknown).

Section load.
Context (ParseFloat : string -> option float64) (oor : float64 -> Z).

(** The loop over the points: what is appended to [pm.Points] and to [errs]. *)
Fixpoint load_points (d : Dict) (u : Units) (prefix : string) (i : nat) (seen : gmap string nat)
    (raws : list (option fields)) : list PointDef * list pm_err :=
  match raws with
  | [] => ([], [])
  | raw :: raws' =>
      match decodePoint ParseFloat oor raw i with
      | Err e =>
          let '(pds, errs) := load_points d u prefix (i + 1) seen raws' in (pds, e :: errs)
      | Ok pd =>
          let '(pds, errs) := load_points d u prefix (i + 1) (see seen (pd_Point pd) i) raws' in
          (pd :: pds, check_point d u prefix seen pd ++ errs)
      end
  end.

Definition load_doc (x : doc) (d : Dict) (u : Units) : PointMap * list pm_err :=
  let '(pds, errs) := load_points d u (prefix_of d (doc_AppliesTo x)) 0 ∅ (doc_Points x) in
  (mkPointMap (doc_Name x) (doc_Driver x) (doc_AppliesTo x) pds, check_metadata d x ++ errs).

Definition Load (ReadFile : list string -> option string) (as_doc : string -> option doc)
    (path : list string) (d : Dict) (u : Units) : option PointMap * list pm_err :=
  match ReadFile path with
  | None => (None, [ERead])
  | Some raw =>
      match as_doc raw with
      | None => (None, [EParse])
      | Some x =>
          if negb (str_eqb (doc_Kind x) "PointMap") then (None, [EKind (doc_Kind x)])
          else let '(pm, errs) := load_doc x d u in (Some pm, errs)
      end
  end.
End load.

(** ** The shortest chains

    [chain_up cur l]: [l] lists the types from [cur] up to the type below the
    site, each a parent of the one before. *)
Section chains.
Context (d : Dict) (t : string) (def : TypeDef).
Abbreviation parents := (parents_of d t def).

Inductive chain_up : string -> list string -> Prop :=
  | chain_site : chain_up "site" []
  | chain_step cur p l : In p (parents cur) -> chain_up p l -> chain_up cur (cur :: l).

(** [ups n y]: [y] is an ancestor of [t] in [n] steps. *)
Inductive ups : nat -> string -> Prop :=
  | ups_0 : ups 0 t
  | ups_S n x p : ups n x -> In p (parents x) -> ups (S n) p.

Lemma chain_ups n cur l : ups n cur -> chain_up cur l -> ups (n + length l) "site".
Proof using Type.
  intros Hu Hc. revert n Hu. induction Hc as [|cur p l Hp Hc IH]; intros n Hu; cbn.
  - by rewrite Nat.add_0_r.
  - replace (n + S (length l)) with (S n + length l) by lia. apply IH. by econstructor.
Qed.

Lemma ups_chain n y l : ups n y -> chain_up y l -> exists l', chain_up t l' /\ length l' = n + length l.
Proof using Type.
  intros Hu. revert l. induction Hu as [|n x p Hu IH Hp]; intros l Hl; [by exists l|].
  destruct (IH (x :: l)) as (l' & ? & Hlen); [by econstructor|].
  exists l'. split; [done|]. cbn in Hlen. lia.
Qed.

Record bfs_inv (dist : gmap string nat) (queue : list string) : Prop := {
  bi_start : dist !! t = Some 0;
  bi_ups : forall x n, dist !! x = Some n -> ups n x;
  bi_queue : forall x, In x queue -> is_Some (dist !! x);
  bi_sorted : StronglySorted (fun x y => default 0 (dist !! x) <= default 0 (dist !! y)) queue;
  bi_bound : forall x y n, In x queue -> dist !! y = Some n -> n <= S (default 0 (dist !! x));
  bi_done : forall x n p, dist !! x = Some n -> ~ In x queue -> In p (parents x) ->
    exists m, dist !! p = Some m /\ m <= S n
}.

Lemma push_spec ps n dist queue dist' queue' :
  push_parents ps n dist queue = (dist', queue') ->
  exists new, queue' = queue ++ new /\ NoDup new /\ dist ⊆ dist' /\
    (forall x, In x new -> In x ps /\ dist !! x = None /\ dist' !! x = Some (n + 1)) /\
    (forall x m, dist' !! x = Some m -> dist !! x = Some m \/ In x new) /\
    (forall p, In p ps -> is_Some (dist' !! p)).
Proof using Type.
  revert dist queue. induction ps as [|p ps IH]; intros dist queue; cbn [push_parents].
  - intros [= <- <-]. exists []. rewrite app_nil_r. repeat split; try done; [constructor|by left].
  - destruct (dist !! p) as [k|] eqn:Ep; intros H; apply IH in H as (new & -> & Hnd & Hsub & Hnew & Hold & Hps).
    + exists new. split; [done|]. split; [done|]. split; [done|]. split; [|split; [done|]].
      * intros x Hx. destruct (Hnew x Hx) as (? & ? & ?). split; [by right|done].
      * intros q [<-|Hq]; [|auto]. exists k. by eapply lookup_weaken.
    + exists (p :: new). rewrite <- app_assoc. split; [done|].
      assert (Hpn : dist' !! p = Some (n + 1)) by (eapply lookup_weaken; [apply lookup_insert_eq|done]).
      split; [|split; [|split; [|split]]].
      * constructor; [|done]. intros Hin%list_elem_of_In. apply Hnew in Hin as (_ & Hin & _).
        by rewrite lookup_insert_eq in Hin.
      * transitivity (<[p := n + 1]> dist); [by apply insert_subseteq|done].
      * intros x [<-|Hx]; [by split; [left|]|]. destruct (Hnew x Hx) as (? & Hn & ?).
        rewrite lookup_insert in Hn. case_decide; [done|]. split; [by right|done].
      * intros x m Hx. apply Hold in Hx as [Hx|Hx]; [|by right; right].
        rewrite lookup_insert in Hx. case_decide; [right; left; done|by left].
      * intros q [<-|Hq]; [by eexists|auto].
Qed.

Lemma bfs_inv_step cur queue dist dist' queue' :
  bfs_inv dist (cur :: queue) ->
  push_parents (parents cur) (default 0 (dist !! cur)) dist queue = (dist', queue') ->
  bfs_inv dist' queue'.
Proof using Type.
  intros [Hst Hup Hq Hso Hbo Hdo] H.
  apply push_spec in H as (new & -> & Hnd & Hsub & Hnew & Hold & Hps).
  destruct (Hq cur (or_introl eq_refl)) as [k Hk]. rewrite Hk in *. cbn [default] in *.
  inv Hso. rename H1 into Hso, H2 into Hge.
  assert (Hkeep : forall x, is_Some (dist !! x) -> dist' !! x = dist !! x).
  { intros x [m Hm]. rewrite Hm. by eapply lookup_weaken. }
  assert (Hval : forall x, In x (queue ++ new) -> k <= default 0 (dist' !! x) <= S k).
  { intros x [Hx|Hx]%in_app_or.
    - assert (Hs : is_Some (dist !! x)) by (apply Hq; by right). rewrite (Hkeep x Hs).
      rewrite List.Forall_forall in Hge. specialize (Hge x Hx). rewrite Hk in Hge. cbn in Hge.
      destruct Hs as [m Hm]. rewrite Hm in *. cbn in *.
      specialize (Hbo cur x m (or_introl eq_refl) Hm). rewrite Hk in Hbo. cbn in Hbo. lia.
    - destruct (Hnew x Hx) as (_ & _ & ->). cbn. lia. }
  assert (Hall : forall y m, dist' !! y = Some m -> m <= S k).
  { intros y m Hy. destruct (Hold y m Hy) as [Hy'|Hy'].
    - specialize (Hbo cur y m (or_introl eq_refl) Hy'). by rewrite Hk in Hbo.
    - destruct (Hnew y Hy') as (_ & _ & Hn). rewrite Hn in Hy. injection Hy as <-. lia. }
  split.
  - by eapply lookup_weaken.
  - intros x m Hx. destruct (Hold x m Hx) as [Hx'|Hx']; [auto|].
    destruct (Hnew x Hx') as (Hin & _ & Hn). rewrite Hn in Hx. injection Hx as <-.
    replace (k + 1) with (S k) by lia. by econstructor; [apply Hup|].
  - intros x [Hx|Hx]%in_app_or; [|destruct (Hnew x Hx) as (_ & _ & ->); by eexists].
    destruct (Hq x (or_intror Hx)) as [m Hm]. exists m. by eapply lookup_weaken.
  - apply StronglySorted_app_2.
    + intros x y Hx%list_elem_of_In Hy%list_elem_of_In.
      destruct (Hnew y Hy) as (_ & _ & ->). cbn.
      specialize (Hval x (in_or_app _ _ _ (or_introl Hx))). lia.
    + clear -Hso Hkeep Hq. induction Hso as [|x l Hso IH Hx]; [constructor|].
      constructor; [apply IH; intros y [->|Hy]; apply Hq; cbn; auto|].
      rewrite List.Forall_forall in *. intros y Hy. rewrite !Hkeep by (apply Hq; cbn; auto). auto.
    + clear -Hnew. induction new as [|x l IH]; constructor.
      * apply IH. intros y Hy. apply Hnew. by right.
      * apply List.Forall_forall. intros y Hy.
        destruct (Hnew x (or_introl eq_refl)) as (_ & _ & ->).
        destruct (Hnew y (or_intror Hy)) as (_ & _ & ->). done.
  - intros x y m Hx Hy. specialize (Hval x Hx). specialize (Hall y m Hy). lia.
  - intros x m p Hx Hnot Hp. destruct (Hold x m Hx) as [Hx'|Hx'];
      [|exfalso; apply Hnot, in_or_app; by right].
    destruct (decide (x = cur)) as [->|Hne].
    + rewrite Hk in Hx'. injection Hx' as <-. destruct (Hps p Hp) as [j Hj]. exists j. split; [done|].
      by eapply Hall.
    + destruct (Hdo x m p Hx') as (j & Hj & ?); [|done|].
      * intros [->|Hin]; [done|]. apply Hnot, in_or_app. by left.
      * exists j. split; [by eapply lookup_weaken|done].
Qed.

(** The names not reached yet. *)
Definition missing (dist : gmap string nat) : gset string :=
  list_to_set (all_names d t def) ∖ dom dist.

Lemma parents_in_all cur p : In p (parents cur) -> In p (all_names d t def).
Proof using Type.
  unfold parents_of, all_names. intros H. right. apply in_or_app. case_match; [by left|right].
  destruct (d_Types d !! cur) as [pd|] eqn:E; [|done]. apply in_concat.
  exists (td_Parents pd). split; [|done]. apply list_elem_of_In, list_elem_of_fmap.
  exists (cur, pd). split; [done|]. by apply elem_of_map_to_list.
Qed.

Lemma missing_push cur n dist queue dist' queue' :
  push_parents (parents cur) n dist queue = (dist', queue') ->
  size (missing dist') + length queue' = size (missing dist) + length queue.
Proof using Type.
  intros H. apply push_spec in H as (new & -> & Hnd & Hsub & Hnew & Hold & _).
  assert (missing dist = missing dist' ∪ list_to_set new) as ->.
  { apply set_eq. intros x. unfold missing. rewrite elem_of_union, !elem_of_difference, !elem_of_dom,
      !elem_of_list_to_set, <- !eq_None_not_Some, (list_elem_of_In new). split.
    - intros [Hx Hn]. destruct (dist' !! x) as [m|] eqn:E; [|by left].
      destruct (Hold x m E) as [Hx'|Hx']; [congruence|by right].
    - intros [[Hx Hn]|Hx].
      + split; [done|]. destruct (dist !! x) as [m|] eqn:E; [|done].
        assert (dist' !! x = Some m) by (by eapply lookup_weaken). congruence.
      + destruct (Hnew x Hx) as (Hp & Hn & _). split; [|done].
        by eapply list_elem_of_In, parents_in_all. }
  rewrite size_union; [by rewrite size_list_to_set, length_app by done; lia|].
  intros x [_ Hn]%elem_of_difference Hx%elem_of_list_to_set%list_elem_of_In.
  destruct (Hnew x Hx) as (_ & _ & Hs). apply Hn, elem_of_dom. by eexists.
Qed.

(** With fuel for every name the search runs to its end. *)
Lemma bfs_end fuel dist queue :
  bfs_inv dist queue -> size (missing dist) + length queue <= fuel ->
  exists queue', bfs_inv (bfs d t def fuel dist queue) queue' /\
    (queue' = [] \/ head queue' = Some "site").
Proof using Type.
  revert dist queue. induction fuel as [|fuel IH]; intros dist queue Hi Hf.
  - destruct queue as [|x queue]; [|cbn in Hf; lia]. exists []. cbn. auto.
  - destruct queue as [|cur queue]; [exists []; cbn; auto|]. cbn [bfs].
    destruct (str_eqb cur "site") eqn:E.
    + apply str_eqb_eq in E as ->. exists ("site" :: queue). auto.
    + destruct (push_parents _ _ _ _) as [dist' queue'] eqn:Hp.
      apply IH; [by eapply bfs_inv_step|]. apply missing_push in Hp. cbn in Hf. lia.
Qed.

Lemma bfs_inv_init : bfs_inv (<[t := 0]> ∅) [t].
Proof using Type.
  split.
  - apply lookup_insert_eq.
  - intros x n Hx. rewrite lookup_insert in Hx. case_decide; [|done]. subst x.
    injection Hx as <-. constructor.
  - intros x [<-|[]]. rewrite lookup_insert_eq. by eexists.
  - repeat constructor.
  - intros x y n _ Hy. rewrite lookup_insert in Hy. case_decide; [|done]. injection Hy as <-. lia.
  - intros x n p Hx Hnot. rewrite lookup_insert in Hx. case_decide as E; [|done]. destruct Hnot. by left.
Qed.

(** Whatever is an ancestor in [k] steps has been recorded with at most [k],
    unless the site was reached first. *)
Lemma bfs_complete dist queue k y :
  bfs_inv dist queue -> queue = [] \/ head queue = Some "site" -> ups k y ->
  (exists m, dist !! y = Some m /\ m <= k) \/ (exists m, dist !! "site" = Some m /\ m <= k).
Proof using Type.
  intros Hi Hq. induction 1 as [|k x p Hu IH Hp].
  - left. exists 0. split; [apply Hi|lia].
  - destruct IH as [(m & Hm & Hle)|(m & Hm & Hle)]; [|right; exists m; split; [done|lia]].
    destruct (in_dec string_dec x queue) as [Hx|Hx].
    + right. destruct queue as [|q queue]; [done|].
      assert (q = "site") as -> by (destruct Hq as [?|Hq]; [done|]; by injection Hq).
      destruct (bi_queue _ _ Hi "site" (or_introl eq_refl)) as [j Hj]. exists j. split; [done|].
      pose proof (bi_sorted _ _ Hi) as Hs. inv Hs. rewrite Hj in H2. cbn in H2.
      destruct Hx as [<-|Hx]; [assert (j = m) by congruence; lia|].
      rewrite List.Forall_forall in H2. specialize (H2 x Hx). rewrite Hm in H2. cbn in H2. lia.
    + left. destruct (bi_done _ _ Hi x m p Hm Hx Hp) as (j & ? & ?). exists j. split; [done|lia].
Qed.

(** The search finds the length of the shortest chain, or that there is none. *)
Lemma bfs_shortest :
  match bfs d t def (S (length (all_names d t def))) (<[t := 0]> ∅) [t] !! "site" with
  | Some n => (exists l, chain_up t l /\ length l = n) /\ (forall l, chain_up t l -> n <= length l)
  | None => forall l, ~ chain_up t l
  end.
Proof using Type.
  destruct (bfs_end (S (length (all_names d t def))) _ _ bfs_inv_init) as (queue & Hi & Hq).
  { cbn [length]. enough (size (missing (<[t:=0]> ∅)) <= length (all_names d t def)) by lia.
    unfold missing. transitivity (size (list_to_set (C := gset string) (all_names d t def))).
    - apply subseteq_size. apply subseteq_difference_l. done.
    - clear. induction (all_names d t def) as [|x xs IH]; [done|]. cbn [list_to_set length].
      rewrite size_union_alt. pose proof (subseteq_size (list_to_set xs ∖ {[x]}) (list_to_set (C := gset string) xs)).
      rewrite size_singleton. specialize (H ltac:(by apply subseteq_difference_l)). lia. }
  set (dist := bfs _ _ _ _ _ _) in *.
  assert (Hc : forall l, chain_up t l -> exists m, dist !! "site" = Some m /\ m <= length l).
  { intros l Hl. pose proof (chain_ups 0 t l ups_0 Hl) as Hu.
    by destruct (bfs_complete dist queue _ _ Hi Hq Hu) as [?|?]. }
  destruct (dist !! "site") as [n|] eqn:E.
  - split.
    + destruct (ups_chain n "site" [] (bi_ups _ _ Hi _ _ E) chain_site) as (l & ? & Hl).
      exists l. split; [done|]. cbn in Hl. lia.
    + intros l Hl. destruct (Hc l Hl) as (m & [= <-] & ?). done.
  - intros l Hl. by destruct (Hc l Hl) as (m & ? & _).
Qed.

(** ** The least of the shortest chains *)

(** The chains of [rem] types the recursion visits, in its order. *)
Fixpoint paths (rem : nat) (cur : string) : list (list string) :=
  match rem with
  | O => if str_eqb cur "site" then [[]] else []
  | S rem' => concat ((fun p => cons cur <$> paths rem' p) <$> sort_strings (parents cur))
  end.

Lemma walk_paths rem cur acc best :
  walk d t def rem cur acc best =
  foldl pick best ((fun l => renderChain (rev (acc ++ l)) d) <$> paths rem cur).
Proof using Type.
  revert cur acc best. induction rem as [|rem IH]; intros cur acc best; cbn [walk paths].
  - destruct (str_eqb cur "site"); [|done]. cbn. by rewrite app_nil_r.
  - generalize (sort_strings (parents cur)) as ps. intros ps. revert best.
    induction ps as [|p ps IHps]; intros best; [done|].
    cbn [foldl fmap list_fmap concat]. rewrite IHps, fmap_app, foldl_app. f_equal.
    rewrite IH, <- list_fmap_compose. f_equal. apply list_fmap_ext. intros _ l _. cbn.
    by rewrite <- app_assoc.
Qed.

Lemma in_paths rem cur l : In l (paths rem cur) <-> chain_up cur l /\ length l = rem.
Proof using Type.
  revert cur l. induction rem as [|rem IH]; intros cur l; cbn [paths].
  - split.
    + destruct (str_eqb cur "site") eqn:E; [|done]. apply str_eqb_eq in E as ->.
      intros [<-|[]]. split; [constructor|done].
    + intros [Hc Hl]. destruct l; [|done]. inv Hc. by left.
  - rewrite in_concat. split.
    + intros (x & Hx & Hl). apply list_elem_of_In, list_elem_of_fmap in Hx as (p & -> & Hp).
      apply list_elem_of_In, list_elem_of_fmap in Hl as (l' & -> & Hl%list_elem_of_In).
      apply IH in Hl as [? <-]. split; [|done]. econstructor; [|done].
      by apply list_elem_of_In, in_sort_strings.
    + intros [Hc Hl]. destruct l as [|c l]; [done|]. inv Hc. injection Hl as Hl.
      eexists. split; [|apply in_map, (proj2 (IH p l)); done].
      apply list_elem_of_In, list_elem_of_fmap. exists p. split; [done|].
      by apply sort_strings_in, list_elem_of_In.
Qed.

Lemma pick_least xs best :
  best <> EmptyString -> Forall (fun x => x <> EmptyString) xs ->
  In (foldl pick best xs) (best :: xs) /\
  forall x, In x (best :: xs) -> String.leb (foldl pick best xs) x = true.
Proof using Type.
  revert best. induction xs as [|x xs IH]; intros best Hb Hxs; cbn [foldl].
  - split; [by left|]. intros y [<-|[]]. apply leb_refl.
  - inv Hxs. unfold pick at 2 4. apply str_eqb_neq in Hb as Hbf. rewrite Hbf. cbn [orb].
    destruct (str_lt x best) eqn:E; [destruct (IH x) as [Hin Hle]|destruct (IH best) as [Hin Hle]];
      try done; (split; [destruct Hin as [Hin|Hin]; cbn; auto|]); intros y [<-|[<-|Hy]].
    + eapply leb_trans; [by apply Hle; left|by apply str_lt_leb].
    + apply Hle. by left.
    + apply Hle. by right.
    + apply Hle. by left.
    + eapply leb_trans; [apply Hle; by left|]. unfold str_lt in E. by apply negb_false_iff in E.
    + apply Hle. by right.
Qed.

Lemma join_nonempty xs x : In x xs -> x <> EmptyString -> join "." xs <> EmptyString.
Proof using Type.
  destruct xs as [|y ys]; [done|]. intros Hin Hx. rewrite join_dotted.
  intros [-> H]%str_app_nil_inv. destruct Hin as [<-|Hin]; [done|]. by destruct ys.
Qed.

Lemma render_nonempty l : t <> EmptyString -> t <> "site" -> chain_up t l ->
  renderChain (rev l) d <> EmptyString.
Proof using Type.
  intros Ht Hs Hc. inv Hc. unfold renderChain.
  apply (join_nonempty _ (t +:+ indexFor t d)).
  - apply in_map_iff. exists t. split; [done|]. apply -> in_rev. by left.
  - by intros [??]%str_app_nil_inv.
Qed.

(** [l] is a shortest chain, and its rendering the least among the shortest. *)
Definition least_chain (l : list string) : Prop :=
  chain_up t l /\
  forall l', chain_up t l' ->
    length l < length l' \/
    (length l = length l' /\ String.leb (renderChain (rev l) d) (renderChain (rev l') d) = true).

Lemma chain_spec : t <> EmptyString -> t <> "site" ->
  (buildParentChain d t def = EmptyString /\ forall l, ~ chain_up t l) \/
  (exists l, least_chain l /\ buildParentChain d t def = renderChain (rev l) d).
Proof using Type.
  intros Ht Hs. unfold buildParentChain. pose proof bfs_shortest as Hb.
  destruct (_ !! "site") as [n|]; [|by left]. right. destruct Hb as [(l0 & Hc0 & Hl0) Hmin].
  unfold enumerateShortest. apply str_eqb_neq in Hs as Hsf. rewrite Hsf.
  replace (n + 1 - 1) with n by lia. rewrite walk_paths. cbn [app].
  set (xs := (fun l => renderChain (rev l) d) <$> paths n t).
  assert (Hxs : forall x, In x xs <-> exists l, chain_up t l /\ length l = n /\ x = renderChain (rev l) d).
  { intros x. subst xs. rewrite <- list_elem_of_In, list_elem_of_fmap. split.
    - intros (l & -> & [??]%list_elem_of_In%in_paths). by exists l.
    - intros (l & ? & ? & ->). exists l. split; [done|]. by apply list_elem_of_In, in_paths. }
  assert (Hne : Forall (fun x => x <> EmptyString) xs).
  { apply List.Forall_forall. intros x (l & Hc & _ & ->)%Hxs. by apply render_nonempty. }
  assert (Hpick : In (foldl pick EmptyString xs) xs /\
                  forall x, In x xs -> String.leb (foldl pick EmptyString xs) x = true).
  { clear -Hne Hxs Hc0 Hl0. destruct xs as [|x xs].
    - exfalso. apply (proj2 (Hxs (renderChain (rev l0) d))). by exists l0.
    - inv Hne. cbn [foldl]. change (pick EmptyString x) with x. by apply pick_least. }
  destruct Hpick as [(l & Hc & Hl & ->)%Hxs Hle]. exists l. split; [|done]. split; [done|].
  intros l' Hc'. pose proof (Hmin l' Hc') as Hn.
  destruct (decide (length l' = n)) as [Hl'|Hl']; [right|left; lia].
  split; [congruence|]. apply Hle, Hxs. by exists l'.
Qed.
End chains.

(** ** Relative points

    Whether a relative point is legal below an asset depends on the asset's
    type only. *)
Lemma split_join_app x xs s :
  Forall (fun y => seg_ok y = true) (x :: xs) ->
  split "." (join "." (x :: xs) +:+ String "." s) = (x :: xs) ++ split "." s.
Proof.
  revert x. induction xs as [|y ys IH]; intros x Hall; inv Hall.
  - cbn [join]. by rewrite split_app_sep by eauto with cios.
  - rewrite join_cons by done. rewrite <- str_app_assoc. cbn [String.append].
    rewrite split_app_sep by eauto with cios. by rewrite IH.
Qed.

Lemma path_parts_err s e : path_parts s = Err e -> e = ErrSyntax.
Proof. unfold path_parts. repeat case_match; congruence. Qed.

Lemma last_type_cons prev n ns :
  default prev (last_type (n :: ns)) = default (n_Type n) (last_type ns).
Proof. unfold last_type. rewrite last_cons. by destruct (last ns). Qed.

Lemma node_pass_app d prev ns rest :
  nodes_ok d prev ns ->
  node_pass d prev ((node_seg <$> ns) ++ rest) =
  ('(ns', r) ← node_pass d (default prev (last_type ns)) rest; mret (ns ++ ns', r)).
Proof.
  induction 1 as [prev|prev n def ns Hf Ht Hi Hp Hns IH].
  - cbn. by destruct (node_pass d prev rest) as [[??]|].
  - cbn. rewrite re_node_seg, Ht, Hi by done. cbn [mbind result_bind].
    apply contains_string_In in Hp as ->. cbn [negb]. rewrite IH.
    rewrite last_type_cons.
    destruct (node_pass d _ rest) as [[ns' r]|]; [|done]. by destruct n.
Qed.

Lemma last_type_app ns1 ns2 : last_type (ns1 ++ ns2) =
  match last_type ns2 with Some ty => Some ty | None => last_type ns1 end.
Proof. unfold last_type. rewrite last_app. by destruct (last ns2). Qed.

Lemma check_quantity_host d ns1 ns2 loc q :
  ns1 <> [] -> ns2 <> [] -> last_type ns1 = last_type ns2 ->
  check_quantity d ns1 loc q = check_quantity d ns2 loc q.
Proof.
  intros H1 H2 H. unfold check_quantity. rewrite H.
  destruct ns1; [done|]. by destruct ns2.
Qed.

(** What [ParsePoint] does behind the nodes [ns0] of an asset of type [ty]. *)
Definition parse_below (d : Dict) (site : string) (ns0 : list Node) (ty : string) (segs : list string) :
    result cpath_err Point :=
  '(ns, rest) ← node_pass d ty segs;
  '(loc, rest) ← loc_pass d rest loc_init;
  match rest with
  | [] => Err ErrSyntax
  | qSeg :: _ =>
      _ ← check_quantity d (ns0 ++ ns) loc qSeg;
      mret (mkPoint (mkAssetPath site (ns0 ++ ns)) (l_loop loc) (l_loopIndex loc)
                    (l_side loc) (l_phase loc) qSeg)
  end.

Definition is_asset (d : Dict) (ty : string) (a : AssetPath) : Prop :=
  asset_ok d a /\ last_type (ap_Nodes a) = Some ty.

Lemma ParsePoint_below d ty a s : is_asset d ty a ->
  ParsePoint d (AssetPath_String a +:+ String "." s) =
  if forallb seg_ok (split "." s) then parse_below d (ap_Site a) (ap_Nodes a) ty (split "." s)
  else Err ErrSyntax.
Proof.
  intros [(Hsite & Hseg & Hne & Hns) Hty].
  assert (Hall : Forall (fun y => seg_ok y = true) (ap_Site a :: (node_seg <$> ap_Nodes a)))
    by (constructor; [done|by eapply nodes_ok_segs]).
  rewrite AssetPath_String_join. pose proof (split_join_app _ _ s Hall) as Hsplit.
  set (w := join "." (ap_Site a :: (node_seg <$> ap_Nodes a)) +:+ String "." s) in *.
  destruct (forallb seg_ok (split "." s)) eqn:E.
  - assert (Hp : path_parts w = Ok (ap_Site a, (node_seg <$> ap_Nodes a) ++ split "." s)).
    { apply path_parts_spec. split; [by rewrite <- (join_split "." w), Hsplit|]. split; [done|]. split.
      - intros [_ ?]%app_eq_nil. by apply (split_not_nil "." s).
      - rewrite app_comm_cons. apply Forall_app. split; [done|]. rewrite forallb_forall in E.
        apply List.Forall_forall. auto. }
    unfold ParsePoint, parse_below. rewrite Hp. cbn [mbind result_bind].
    rewrite node_pass_app by done. rewrite Hty. change (default "site" (Some ty)) with ty.
    by destruct (node_pass d ty (split "." s)) as [[ns' r]|].
  - unfold ParsePoint. destruct (path_parts w) as [[site' segs']|e] eqn:Ep.
    + exfalso. apply path_parts_spec in Ep as (Hw & _ & _ & Hok).
      rewrite Hw, split_join in Hsplit; [|done|eapply Forall_impl; [exact Hok|]; eauto with cios].
      rewrite Hsplit in Hok. apply Forall_app in Hok as [_ Hok].
      rewrite <- not_true_iff_false, forallb_forall in E. apply E.
      by rewrite List.Forall_forall in Hok.
    + cbn. f_equal. by eapply path_parts_err.
Qed.

(** The same point below another asset. *)
Definition below (a : AssetPath) (ns : list Node) (p : Point) : Point :=
  mkPoint (mkAssetPath (ap_Site a) (ap_Nodes a ++ ns)) (p_Loop p) (p_LoopIndex p) (p_Side p)
    (p_Phase p) (p_Quantity p).

Definition same_point (a1 a2 : AssetPath) (r1 r2 : result cpath_err Point) : Prop :=
  match r1 with
  | Ok p => exists ns, p = below a1 ns p /\ r2 = Ok (below a2 ns p)
  | Err e => r2 = Err e
  end.

Lemma ParsePoint_relative d ty a1 a2 s : is_asset d ty a1 -> is_asset d ty a2 ->
  same_point a1 a2 (ParsePoint d (AssetPath_String a1 +:+ String "." s))
    (ParsePoint d (AssetPath_String a2 +:+ String "." s)).
Proof.
  intros H1 H2. rewrite !(ParsePoint_below d ty) by done.
  destruct H1 as [(_ & _ & Hn1 & _) Ht1], H2 as [(_ & _ & Hn2 & _) Ht2].
  destruct (forallb seg_ok (split "." s)); [|done]. unfold parse_below.
  destruct (node_pass d ty (split "." s)) as [[ns r]|]; [|done]. cbn [mbind result_bind].
  destruct (loc_pass d r loc_init) as [[loc [|q rest]]|]; [done| |done]. cbn [mbind result_bind].
  rewrite (check_quantity_host d (ap_Nodes a1 ++ ns) (ap_Nodes a2 ++ ns)).
  - destruct (check_quantity d (ap_Nodes a2 ++ ns) loc q); [|done]. by exists ns.
  - by intros [??]%app_eq_nil.
  - by intros [??]%app_eq_nil.
  - rewrite !last_type_app. by rewrite Ht1, Ht2.
Qed.

(** ** The canonical asset of a type *)

(** What the search and the index rule rely on: type names are lower-case
    words, levels are the two known ones, and the site is not a type. *)
Record types_ok (d : Dict) : Prop := {
  ty_name : forall name def, d_Types d !! name = Some def ->
    name <> EmptyString /\ all_bytes is_lower name = true;
  ty_level : forall name def, d_Types d !! name = Some def ->
    td_Level def = LevelDevice \/ td_Level def = LevelChip;
  ty_site : d_Types d !! "site" = None
}.

Definition canonical_nodes (d : Dict) (l : list string) : list Node :=
  (fun name => mkNode name (indexFor name d)) <$> rev l.
Definition canonical (d : Dict) (l : list string) : AssetPath :=
  mkAssetPath "site01" (canonical_nodes d l).

Lemma indexFor_ok d name def : types_ok d -> d_Types d !! name = Some def ->
  indexFor name d <> EmptyString /\ all_bytes is_digit (indexFor name d) = true /\
  checkIndex def (indexFor name d) = Ok tt.
Proof.
  intros Hd Hn. unfold indexFor, checkIndex. rewrite Hn.
  destruct (ty_level d Hd name def Hn) as [-> | ->]; repeat split; done.
Qed.

Lemma nodes_ok_snoc d prev ns n def :
  nodes_ok d prev ns -> node_fmt n -> d_Types d !! n_Type n = Some def ->
  checkIndex def (n_Index n) = Ok tt -> In (default prev (last_type ns)) (td_Parents def) ->
  nodes_ok d prev (ns ++ [n]).
Proof.
  intros Hns Hf Ht Hi. induction Hns as [prev|prev m def' ns Hf' Ht' Hi' Hp' Hns IH]; intros Hp.
  - cbn in *. econstructor; try done. constructor.
  - cbn [app]. econstructor; try done. apply IH. by rewrite last_type_cons in Hp.
Qed.

Section canonical.
Context (d : Dict) (Hd : types_ok d) (t : string) (def : TypeDef) (Ht : d_Types d !! t = Some def).

Lemma parents_of_def cur p : In p (parents_of d t def cur) ->
  exists pd, d_Types d !! cur = Some pd /\ In p (td_Parents pd).
Proof using Ht.
  unfold parents_of. destruct (str_eqb cur t) eqn:E.
  - apply str_eqb_eq in E as ->. eauto.
  - destruct (d_Types d !! cur); [eauto|done].
Qed.

Lemma def_parents_of cur pd p : d_Types d !! cur = Some pd -> In p (td_Parents pd) ->
  In p (parents_of d t def cur).
Proof using Ht.
  intros Hc Hp. unfold parents_of. destruct (str_eqb cur t) eqn:E; [|by rewrite Hc].
  apply str_eqb_eq in E as ->. by rewrite Ht in Hc; injection Hc as <-.
Qed.

Lemma canonical_nodes_ok cur l : chain_up d t def cur l ->
  nodes_ok d "site" (canonical_nodes d l) /\
  default "site" (last_type (canonical_nodes d l)) = cur.
Proof using Hd Ht.
  induction 1 as [|cur p l Hp Hc [IH Hlast]]; [split; [constructor|done]|].
  unfold canonical_nodes in *. cbn [rev]. rewrite fmap_app. cbn [fmap list_fmap].
  apply parents_of_def in Hp as (pd & Hcur & Hp).
  destruct (ty_name d Hd cur pd Hcur). destruct (indexFor_ok d cur pd Hd Hcur) as (? & ? & ?). split.
  - eapply nodes_ok_snoc; try done. by rewrite Hlast.
  - rewrite last_type_app. done.
Qed.

Lemma not_site : t <> "site" /\ t <> EmptyString.
Proof using Hd Ht.
  split; [|by eapply ty_name]. intros ->. by rewrite (ty_site d Hd) in Ht.
Qed.

Lemma canonical_asset l : chain_up d t def t l -> is_asset d t (canonical d l).
Proof using Hd Ht.
  intros Hc. destruct (canonical_nodes_ok t l Hc) as [Hns Hlast]. destruct not_site as [Hs _].
  assert (canonical_nodes d l <> []) as Hne.
  { intros Hnil. rewrite Hnil in Hlast. cbn in Hlast. congruence. }
  split; [split; [reflexivity|split; [reflexivity|done]]|]. cbn [ap_Nodes canonical].
  destruct (last_type (canonical_nodes d l)) eqn:E; cbn in Hlast; [by subst|]. congruence.
Qed.

(** Every asset of the type gives a chain with as many types as it has nodes. *)
Lemma asset_chain ns prev cur l : nodes_ok d prev ns -> chain_up d t def prev l ->
  default prev (last_type ns) = cur ->
  exists l', chain_up d t def cur l' /\ length l' = length l + length ns.
Proof using Ht.
  intros Hns. revert l. induction Hns as [prev|prev n pd ns Hf Hn Hi Hp Hns IH]; intros l Hl Hcur.
  - cbn in Hcur. subst. exists l. split; [done|cbn; lia].
  - destruct (IH (n_Type n :: l)) as (l' & Hc & Hlen).
    + econstructor; [by eapply def_parents_of|done].
    + by rewrite <- Hcur, last_type_cons.
    + exists l'. split; [done|]. cbn in Hlen |- *. lia.
Qed.

Lemma asset_types a : is_asset d t a ->
  exists l, chain_up d t def t l /\ length l = length (ap_Nodes a).
Proof using Ht.
  intros [(_ & _ & _ & Hns) Hty].
  destruct (asset_chain _ "site" t [] Hns (chain_site d t def)) as (l & ? & ?); [by rewrite Hty|].
  by exists l.
Qed.

Lemma canonical_string l : l <> [] ->
  AssetPath_String (canonical d l) = "site01." +:+ renderChain (rev l) d.
Proof using Type.
  intros Hl. rewrite AssetPath_String_join. unfold canonical, canonical_nodes, renderChain.
  cbn [ap_Site ap_Nodes]. rewrite <- list_fmap_compose, join_cons; [done|].
  intros Hn%(f_equal length). rewrite length_fmap, length_rev in Hn. by destruct l.
Qed.

(** The prefix [Load] checks below is the canonical asset of the type, if the
    type can be reached from the site at all. *)
Lemma prefix_canonical :
  (exists l, least_chain d t def l /\ is_asset d t (canonical d l) /\
     prefix_of d t = AssetPath_String (canonical d l) +:+ ".") \/
  ((forall a, ~ is_asset d t a) /\ prefix_of d t = "site01..").
Proof using Hd Ht.
  destruct not_site as [Hs He]. unfold prefix_of. rewrite Ht.
  rewrite (proj2 (str_eqb_neq t EmptyString)) by done.
  destruct (chain_spec d t def He Hs) as [[-> Hno]|(l & Hl & ->)].
  - right. split; [|done]. intros a (l & Hc & _)%asset_types. by apply (Hno l).
  - left. exists l. split; [done|]. destruct Hl as [Hc _]. split; [by apply canonical_asset|].
    rewrite canonical_string by (intros ->; inv Hc; done). done.
Qed.
End canonical.

(** ** Decoding does not depend on the order of the keys *)
Section decoding.
Context (ParseFloat : string -> option float64) (oor : float64 -> Z).

Definition or_else {A} (m : fields) (k : string) (f : yaml -> A) (old : A) : A :=
  match m !! k with Some v => f v | None => old end.

(** The point with the fields [m] gives overwritten. *)
Definition overlay (m : fields) (pd : PointDef) : option PointDef :=
  scale ← or_else m "scale" (toFloat ParseFloat) (Some (pd_Scale pd));
  limits ← or_else m "limits" (fun v => Some <$> decodeLimits ParseFloat v) (Some (pd_Limits pd));
  enum ← or_else m "enum_map" (decodeEnumMap oor) (Some (pd_EnumMap pd));
  Some (mkPointDef (or_else m "point" as_string (pd_Point pd))
    (or_else m "access" as_string (pd_Access pd)) (or_else m "risk_class" as_string (pd_RiskClass pd))
    (or_else m "source" as_string (pd_Source pd)) (or_else m "unit_in" as_string (pd_UnitIn pd))
    scale limits enum (or_else m "readback" as_string (pd_Readback pd))
    (filter (fun kv => kv.1 ∉ known_keys) m ∪ pd_Protocol pd)).

Lemma or_else_insert {A} (m : fields) k k' v (f : yaml -> A) old : m !! k = None ->
  or_else (<[k := v]> m) k' f old =
  if str_eqb k k' then or_else m k' f (f v) else or_else m k' f old.
Proof using Type.
  intros Hk. unfold or_else. rewrite lookup_insert. case_decide as E.
  - subst. rewrite str_eqb_refl. by rewrite Hk.
  - by rewrite (proj2 (str_eqb_neq k k')).
Qed.

Lemma or_else_none {A} (m : fields) k (f : yaml -> A) old : m !! k = None -> or_else m k f old = old.
Proof using Type. unfold or_else. by intros ->. Qed.

Ltac eval_str :=
  repeat match goal with |- context [str_eqb ?a ?b] =>
    let r := eval vm_compute in (str_eqb a b) in
    match r with true => idtac | false => idtac end; change (str_eqb a b) with r end; cbv iota.

Lemma overlay_insert idx m k v pd : m !! k = None ->
  overlay (<[k := v]> m) pd =
  match decode_key ParseFloat oor idx k v pd with Ok pd' => overlay m pd' | Err _ => None end.
Proof using Type.
  intros Hk. unfold overlay, decode_key. rewrite !(or_else_insert m k _ v _ _ Hk).
  destruct (decide (k ∈ known_keys)) as [Hin|Hout].
  - rewrite map_filter_insert_False, delete_id by (try done; cbn; tauto).
    repeat (apply elem_of_cons in Hin as [->|Hin]); [..|by apply not_elem_of_nil in Hin];
      eval_str; rewrite ?(or_else_none _ _ _ _ Hk); try done.
    + destruct (toFloat ParseFloat v); [|done]. by rewrite (or_else_none _ _ _ _ Hk).
    + destruct (or_else m "scale" _ _) eqn:E; destruct (decodeLimits ParseFloat v); cbn;
        rewrite ?E, ?(or_else_none _ _ _ _ Hk); done.
    + destruct (or_else m "scale" _ _) eqn:E; destruct (or_else m "limits" _ _) eqn:E2;
        destruct (decodeEnumMap oor v); cbn; rewrite ?E; cbn; rewrite ?E2; cbn;
        rewrite ?(or_else_none _ _ _ _ Hk); done.
  - assert (Hno : forall s, s ∈ known_keys -> str_eqb k s = false).
    { intros s Hs. apply str_eqb_neq. by intros ->. }
    rewrite !Hno by (by apply list_elem_of_In; cbn; auto 12).
    assert (contains_string known_keys k = false) as ->.
    { apply not_true_iff_false. by rewrite contains_string_In, <- list_elem_of_In. }
    rewrite map_filter_insert_True by done. cbn [pd_Point pd_Access pd_RiskClass pd_Source pd_UnitIn
      pd_Scale pd_Limits pd_EnumMap pd_Readback pd_Protocol set_Protocol].
    rewrite <- insert_union_l, insert_union_r; [done|]. apply map_lookup_filter_None. by left.
Qed.

Lemma decode_keys_overlay idx es pd : NoDup es.*1 ->
  overlay (list_to_map es) pd =
  match decode_keys ParseFloat oor idx es pd with Ok pd' => Some pd' | Err _ => None end.
Proof using Type.
  revert pd. induction es as [|[k v] es IH]; intros pd Hnd; cbn [list_to_map decode_keys fmap list_fmap] in *.
  - cbn. unfold overlay, or_else. rewrite !lookup_empty, map_filter_empty, map_empty_union.
    by destruct pd.
  - apply NoDup_cons in Hnd as [Hk Hnd]. rewrite list_to_map_cons, (overlay_insert idx);
      [|by apply not_elem_of_list_to_map_1].
    destruct (decode_key ParseFloat oor idx k v pd); [|done]. by rewrite IH.
Qed.

(** The point a mapping decodes to, without reference to an order. *)
Lemma decodePoint_spec idx m pd :
  decodePoint ParseFloat oor (Some m) idx = Ok pd <->
  exists pd', overlay m zero_point = Some pd' /\ pd = defaults pd'.
Proof using Type.
  pose proof (decode_keys_overlay idx (map_to_list m) zero_point (NoDup_fst_map_to_list m)) as H.
  rewrite list_to_map_to_list in H. unfold decodePoint. rewrite H.
  destruct (decode_keys ParseFloat oor idx (map_to_list m) zero_point) as [pd'|]; cbn; split.
  - intros [= <-]. by exists pd'.
  - by intros (? & [= <-] & ->).
  - done.
  - by intros (? & ? & _).
Qed.

Lemma decodePoint_index i j raw pd :
  decodePoint ParseFloat oor raw i = Ok pd -> decodePoint ParseFloat oor raw j = Ok pd.
Proof using Type. destruct raw as [m|]; [|done]. by rewrite !decodePoint_spec. Qed.
End decoding.

(** ** The rules, declaratively *)

(** The relative point [s] makes sense below assets of type [ty]: there are
    such assets, and below each of them it is a legal point address. *)
Definition point_of_type (d : Dict) (ty s : string) : Prop :=
  (exists a, is_asset d ty a) /\
  forall a, is_asset d ty a -> exists p, ParsePoint d (AssetPath_String a +:+ String "." s) = Ok p.

(** The enumeration of a quantity, empty for a quantity without one. *)
Definition enum_of (d : Dict) (q : string) : gmap Z string := from_option qd_Enum ∅ (d_Quantities d !! q).

Definition control_ok (pd : PointDef) : Prop :=
  pd_Access pd = "rw" /\
  (pd_RiskClass pd = "a" \/ pd_RiskClass pd = "b" \/ pd_RiskClass pd = "c") /\
  (pd_RiskClass pd = "a" -> exists l, pd_Limits pd = Some l /\ fltb (l_Min l) (l_Max l) = true) /\
  (pd_Readback pd <> EmptyString \/ is_null (field (pd_Protocol pd) "register") = false) /\
  pd_Source pd <> "virtual".

Definition read_only_ok (pd : PointDef) : Prop :=
  pd_Access pd = "ro" /\ pd_RiskClass pd = EmptyString /\ pd_Limits pd = None.

Record point_valid (d : Dict) (u : Units) (ty : string) (pd : PointDef) : Prop := {
  pv_point : point_of_type d ty (pd_Point pd);
  pv_derived : d_Derived d !! quantityOf (pd_Point pd) = None;
  pv_unit : pd_UnitIn pd <> EmptyString ->
    exists q, d_Quantities d !! quantityOf (pd_Point pd) = Some q /\ qd_Unit q <> EmptyString /\
      is_Some (CanConvert u (qd_Unit q) (pd_UnitIn pd));
  pv_enum : pd_EnumMap pd <> ∅ -> enum_of d (quantityOf (pd_Point pd)) <> ∅ /\
    forall k v, pd_EnumMap pd !! k = Some v -> is_Some (enum_of d (quantityOf (pd_Point pd)) !! v);
  pv_codes : pd_EnumMap pd = ∅ -> enum_of d (quantityOf (pd_Point pd)) = ∅ \/
    field (pd_Protocol pd) "standard_codes" = YBool true;
  pv_access : control_ok pd \/ read_only_ok pd
}.

Lemma err_if_nil {E} c (e : E) : err_if c e = [] <-> c = false.
Proof. by destruct c. Qed.

Lemma check_V1_ok d ty def pd : types_ok d -> d_Types d !! ty = Some def ->
  check_V1 d (prefix_of d ty) pd = [] <-> point_of_type d ty (pd_Point pd).
Proof.
  intros Hd Ht. unfold check_V1, point_of_type.
  destruct (prefix_canonical d Hd ty def Ht) as [(l & _ & Ha & Hp)|[Hno Hp]]; rewrite Hp.
  - rewrite (proj2 (str_eqb_neq _ _)) by (intros [_ ?]%str_app_nil_inv; done).
    rewrite <- str_app_assoc. cbn [String.append]. split.
    + intros H. split; [by eexists|]. intros a Hasset.
      pose proof (ParsePoint_relative d ty _ a (pd_Point pd) Ha Hasset) as Hrel.
      destruct (ParsePoint d (AssetPath_String (canonical d l) +:+ _)) as [p|e]; [|done].
      destruct Hrel as (ns & _ & Hrel). by eexists.
    + intros [_ H]. by destruct (H _ Ha) as [p ->].
  - split; [|by intros [[a Ha] _]; destruct (Hno a)].
    destruct (ParsePoint d _) as [p|e] eqn:E; [|done]. exfalso. clear -E. unfold ParsePoint in E.
    enough (path_parts ("site01.." +:+ pd_Point pd) = Err ErrSyntax) as H by (by rewrite H in E).
    unfold path_parts. assert (contains ".." ("site01.." +:+ pd_Point pd) = true) as ->; [|by rewrite orb_true_r].
    destruct (pd_Point pd); reflexivity.
Qed.

Lemma check_V2_ok d u pd : d_Derived d !! quantityOf (pd_Point pd) = None ->
  check_V2 d u pd = [] <->
  (pd_UnitIn pd <> EmptyString ->
    exists q, d_Quantities d !! quantityOf (pd_Point pd) = Some q /\ qd_Unit q <> EmptyString /\
      is_Some (CanConvert u (qd_Unit q) (pd_UnitIn pd))).
Proof.
  intros Hder. unfold check_V2, quantityStandardUnit. rewrite Hder.
  destruct (str_eqb (pd_UnitIn pd) EmptyString) eqn:E.
  - apply str_eqb_eq in E. split; [by intros _ ?|done].
  - apply str_eqb_neq in E. destruct (d_Quantities d !! _) as [q|]; cbn.
    + destruct (str_eqb (qd_Unit q) EmptyString) eqn:Eu.
      * apply str_eqb_eq in Eu. split; [done|]. intros H. destruct (H E) as (? & [= <-] & ? & _). done.
      * apply str_eqb_neq in Eu. destruct (CanConvert u (qd_Unit q) (pd_UnitIn pd)) eqn:Ec.
        -- split; [intros _ _; exists q; rewrite Ec; eauto|done].
        -- split; [done|]. intros H. destruct (H E) as (? & [= <-] & _ & H'). rewrite Ec in H'. by destruct H'.
    + split; [done|]. intros H. by destruct (H E) as (? & ? & _).
Qed.

Lemma check_V3_ok d pd : check_V3 d pd = [] <->
  (pd_EnumMap pd <> ∅ -> enum_of d (quantityOf (pd_Point pd)) <> ∅ /\
    forall k v, pd_EnumMap pd !! k = Some v -> is_Some (enum_of d (quantityOf (pd_Point pd)) !! v)) /\
  (pd_EnumMap pd = ∅ -> enum_of d (quantityOf (pd_Point pd)) = ∅ \/
    field (pd_Protocol pd) "standard_codes" = YBool true).
Proof.
  unfold check_V3. fold (enum_of d (quantityOf (pd_Point pd))).
  set (en := enum_of d _). destruct (bool_decide_reflect (pd_EnumMap pd = ∅)) as [He|He]; cbn [negb].
  - destruct (bool_decide_reflect (en = ∅)) as [Hn|Hn]; cbn [negb].
    + split; [|done]. intros _. split; [done|by left].
    + rewrite err_if_nil, negb_false_iff. split.
      * intros H. split; [done|]. right. destruct (field _ _) as [|[]| | | | | | | |]; done.
      * intros [_ H]. destruct (H He) as [?|H']; [done|]. by rewrite H'.
  - destruct (bool_decide_reflect (en = ∅)) as [Hn|Hn].
    + split; [done|]. intros [H _]. by destruct (H He).
    + rewrite err_if_nil, <- not_true_iff_false, existsb_exists. split.
      * intros H. split; [|done]. intros _. split; [done|]. intros k v Hk.
        destruct (en !! v) eqn:Ev; [by eexists|]. exfalso. apply H. exists v. split.
        -- apply list_elem_of_In, list_elem_of_fmap. exists (k, v). split; [done|].
           by apply elem_of_map_to_list.
        -- apply negb_true_iff, bool_decide_eq_false. rewrite Ev. by intros [].
      * intros [H _] (v & Hv & Hb). apply list_elem_of_In, list_elem_of_fmap in Hv as ([k v'] & -> & Hk).
        apply elem_of_map_to_list in Hk. destruct (H He) as [_ H']. apply H' in Hk. cbn in Hb.
        by rewrite bool_decide_eq_true_2 in Hb.
Qed.

Lemma decoded_access ParseFloat oor raw i pd :
  decodePoint ParseFloat oor raw i = Ok pd -> pd_Access pd <> EmptyString.
Proof.
  destruct raw as [m|]; [|done]. intros (pd' & _ & ->)%decodePoint_spec. unfold defaults.
  destruct (str_eqb (pd_Access pd') EmptyString) eqn:E.
  - repeat case_match; done.
  - apply str_eqb_neq in E. repeat case_match; done.
Qed.

Lemma app_nil_iff {A} (xs ys : list A) : xs ++ ys = [] <-> xs = [] /\ ys = [].
Proof. split; [apply app_eq_nil|by intros [-> ->]]. Qed.

Lemma risk_class_ok rc pt :
  (if str_eqb rc EmptyString then [V4NoRisk pt]
   else err_if (negb (str_eqb rc "a") && negb (str_eqb rc "b") && negb (str_eqb rc "c")) (V4BadRisk pt)) = []
  <-> rc = "a" \/ rc = "b" \/ rc = "c".
Proof.
  rewrite <- !str_eqb_eq. destruct (str_eqb rc EmptyString) eqn:E.
  - apply str_eqb_eq in E as ->. cbn. intuition discriminate.
  - rewrite err_if_nil. destruct (str_eqb rc "a"), (str_eqb rc "b"), (str_eqb rc "c"); cbn;
      intuition discriminate.
Qed.

Lemma limits_ok rc lims pt :
  (if str_eqb rc "a" then
     match lims with
     | None => [V4NoLimits pt]
     | Some l => err_if (negb (fltb (l_Min l) (l_Max l))) (V4Limits pt)
     end
   else []) = [] <->
  (rc = "a" -> exists l, lims = Some l /\ fltb (l_Min l) (l_Max l) = true).
Proof.
  rewrite <- str_eqb_eq. destruct (str_eqb rc "a"); [|by intuition].
  destruct lims as [l|].
  - rewrite err_if_nil, negb_false_iff. split; [by eauto|]. intros H.
    by destruct (H eq_refl) as (? & [= <-] & ?).
  - split; [done|]. intros H. by destruct (H eq_refl) as (? & ? & _).
Qed.

Lemma check_access_ok pd : pd_Access pd <> EmptyString ->
  check_V4 pd = [] /\ check_V5 pd = [] /\
  (str_eqb (pd_Source pd) "virtual" && str_eqb (pd_Access pd) "rw" = false) <->
  control_ok pd \/ read_only_ok pd.
Proof.
  intros Hne. unfold check_V4, check_V5, control_ok, read_only_ok. rewrite err_if_nil.
  apply str_eqb_neq in Hne. rewrite Hne, orb_false_r.
  destruct (str_eqb (pd_Access pd) "rw") eqn:Erw.
  - apply str_eqb_eq in Erw. rewrite Erw, app_nil_iff, risk_class_ok, limits_ok. cbn [andb].
    rewrite andb_true_r, str_eqb_neq, andb_false_iff, str_eqb_neq. split.
    + intros ((H1 & H2) & H3 & H4). left. auto.
    + intros [(_ & H1 & H2 & H3 & H4)|(? & _)]; [auto|discriminate].
  - rewrite andb_false_r. cbn [andb]. destruct (str_eqb (pd_Access pd) "ro") eqn:Ero.
    + apply str_eqb_eq in Ero. rewrite Ero, app_nil_iff, !err_if_nil, negb_false_iff, str_eqb_eq,
        bool_decide_eq_false, <- eq_None_not_Some. split; [intros ((? & ?) & _); by right|].
      intros [(? & _)|(_ & ? & ?)]; [discriminate|done].
    + apply str_eqb_neq in Erw, Ero. split; [by intros (? & _)|]. by intros [[? _]|[? _]].
Qed.

(** A point passes all the rules exactly when it is valid and not seen before. *)
Lemma check_point_ok ParseFloat oor raw i d u ty def seen pd :
  types_ok d -> d_Types d !! ty = Some def -> decodePoint ParseFloat oor raw i = Ok pd ->
  check_point d u (prefix_of d ty) seen pd = [] <->
  seen !! pd_Point pd = None /\ point_valid d u ty pd.
Proof.
  intros Hd Ht Hdec. apply decoded_access in Hdec. unfold check_point.
  rewrite !app_nil_iff, (check_V1_ok d ty def pd Hd Ht), check_V3_ok.
  assert (Hdup : check_duplicate seen pd = [] <-> seen !! pd_Point pd = None)
    by (unfold check_duplicate; by destruct (seen !! pd_Point pd)).
  rewrite Hdup. unfold check_V7. rewrite app_nil_iff, !err_if_nil, bool_decide_eq_false, <- eq_None_not_Some.
  pose proof (check_access_ok pd Hdec) as Hacc. split.
  - intros (? & ? & H2 & (? & ?) & ? & ? & ? & Hder). split; [done|].
    rewrite check_V2_ok in H2 by done. split; try done. tauto.
  - intros (? & [H1 Hder H2 H3 H3' H4]). apply Hacc in H4. rewrite check_V2_ok by done. tauto.
Qed.

Lemma load_points_ok ParseFloat oor d u ty def i seen raws pds :
  types_ok d -> d_Types d !! ty = Some def ->
  load_points ParseFloat oor d u (prefix_of d ty) i seen raws = (pds, []) <->
  Forall2 (fun raw pd => decodePoint ParseFloat oor raw 0 = Ok pd) raws pds /\
  Forall (point_valid d u ty) pds /\ NoDup (pd_Point <$> pds) /\
  Forall (fun pd => seen !! pd_Point pd = None) pds.
Proof.
  intros Hd Ht. revert i seen pds. induction raws as [|raw raws IH]; intros i seen pds; cbn [load_points].
  - split; [intros [= <-]; repeat constructor|]. intros (H & _). by inv H.
  - destruct (decodePoint ParseFloat oor raw i) as [pd|e] eqn:Hdec.
    + destruct (load_points _ _ _ _ _ _ _ raws) as [pds' errs] eqn:Hl.
      assert (Hsee : forall p, see seen (pd_Point pd) i !! p = None <-> seen !! p = None /\
                (seen !! pd_Point pd = None -> p <> pd_Point pd)).
      { intros p. unfold see. destruct (seen !! pd_Point pd) eqn:E; [by intuition|].
        rewrite lookup_insert_None. intuition congruence. }
      pose proof (check_point_ok ParseFloat oor raw i d u ty def seen pd Hd Ht Hdec) as Hchk. split.
      * intros [= <- [Hc He]%app_nil_iff]. subst errs. apply Hchk in Hc as [Hs Hv].
        apply IH in Hl as (H1 & H2 & H3 & H4).
        split; [constructor; [by eapply decodePoint_index|done]|]. split; [by constructor|].
        split; [|constructor; [done|]; eapply Forall_impl; [exact H4|]; by intros q [? _]%Hsee].
        constructor; [|done]. intros (q & Hq & Hin)%list_elem_of_fmap. rewrite Forall_forall in H4.
        specialize (H4 q Hin). apply Hsee in H4 as [_ H4]. by apply (H4 Hs).
      * intros (H1 & H2 & H3 & H4). inv H1. inv H2. inv H4. cbn in H3. apply NoDup_cons in H3 as [Hn Hnd].
        match goal with Hx : decodePoint _ _ raw 0 = Ok ?y |- _ =>
          apply (decodePoint_index _ _ 0 i) in Hx; rewrite Hdec in Hx; injection Hx as <- end.
        assert (Hl2 : load_points ParseFloat oor d u (prefix_of d ty) (i + 1)
                  (see seen (pd_Point pd) i) raws = (l', [])).
        { apply IH. repeat split; try done. apply Forall_forall. intros q Hq. apply Hsee.
          rewrite Forall_forall in *. split; [auto|]. intros _ Heq. apply Hn. rewrite <- Heq.
          by apply list_elem_of_fmap_2. }
        rewrite Hl2 in Hl. injection Hl as <- <-. by rewrite (proj2 Hchk).
    + destruct (load_points _ _ _ _ _ _ _ raws) as [pds' errs]. split; [done|]. intros (H & _).
      inv H. match goal with Hx : decodePoint _ _ raw 0 = Ok ?y |- _ =>
        apply (decodePoint_index _ _ 0 i) in Hx; congruence end.
Qed.

(** ** The properties *)

(** The prefix [Load] puts in front of a relative point decides for every
    asset of the type: it is the address of an asset of the type with as few
    nodes as any other, and below it a relative point gets the same verdict,
    error included, and the same location and quantity as below any asset of
    the type; if no asset of the type can exist, every point is refused. *)
Lemma prefix_decides d ty def : types_ok d -> d_Types d !! ty = Some def ->
  (exists c, is_asset d ty c /\ prefix_of d ty = AssetPath_String c +:+ "." /\
     forall a, is_asset d ty a -> length (ap_Nodes c) <= length (ap_Nodes a) /\
       forall s, same_point c a (ParsePoint d (prefix_of d ty +:+ s))
                   (ParsePoint d (AssetPath_String a +:+ "." +:+ s))) \/
  ((forall a, ~ is_asset d ty a) /\
   forall pd, check_V1 d (prefix_of d ty) pd <> []).
Proof.
  intros Hd Ht. destruct (prefix_canonical d Hd ty def Ht) as [(l & [Hc Hl] & Ha & Hp)|[Hno Hp]].
  - left. exists (canonical d l). split; [done|]. split; [done|]. intros a Hasset. split.
    + destruct (asset_types d ty def Ht a Hasset) as (l' & Hc' & Hlen).
      unfold canonical, canonical_nodes. cbn [ap_Nodes]. rewrite length_fmap, length_rev, <- Hlen.
      destruct (Hl l' Hc'); lia.
    + intros s. rewrite Hp, <- str_app_assoc. cbn [String.append]. by eapply ParsePoint_relative.
  - right. split; [done|]. intros pd H. apply (check_V1_ok d ty def) in H; [|done..].
    destruct H as [[a Ha] _]. by apply (Hno a).
Qed.

(** The chain of parents the prefix is built from is a shortest one from
    the type to the site, and among the shortest ones the rendering is the
    least in the order of strings; the result is empty exactly when there is
    no chain. *)
Lemma buildParentChain_least d t def : t <> EmptyString -> t <> "site" ->
  (buildParentChain d t def = EmptyString /\ forall l, ~ chain_up d t def t l) \/
  (exists l, chain_up d t def t l /\ buildParentChain d t def = renderChain (rev l) d /\
     buildParentChain d t def <> EmptyString /\
     forall l', chain_up d t def t l' ->
       length l < length l' \/
       (length l = length l' /\
        String.leb (renderChain (rev l) d) (renderChain (rev l') d) = true)).
Proof.
  intros He Hs. destruct (chain_spec d t def He Hs) as [?|(l & [Hc Hl] & Heq)]; [by left|right].
  exists l. rewrite Heq. repeat split; try done. by eapply render_nonempty.
Qed.

Lemma load_accepts ParseFloat oor ReadFile as_doc path d u pm : types_ok d ->
  Load ParseFloat oor ReadFile as_doc path d u = (Some pm, []) <->
  exists raw x, ReadFile path = Some raw /\ as_doc raw = Some x /\ doc_Kind x = "PointMap" /\
    doc_Name x <> EmptyString /\ doc_Driver x <> EmptyString /\ is_Some (d_Types d !! doc_AppliesTo x) /\
    pm_Name pm = doc_Name x /\ pm_Driver pm = doc_Driver x /\ pm_AppliesTo pm = doc_AppliesTo x /\
    Forall2 (fun raw pd => decodePoint ParseFloat oor raw 0 = Ok pd) (doc_Points x) (pm_Points pm) /\
    NoDup (pd_Point <$> pm_Points pm) /\
    Forall (point_valid d u (pm_AppliesTo pm)) (pm_Points pm).
Proof.
  intros Hd. unfold Load, load_doc. split.
  - destruct (ReadFile path) as [raw|]; [|done]. destruct (as_doc raw) as [x|] eqn:Ex; [|done].
    destruct (str_eqb (doc_Kind x) "PointMap") eqn:Ek; [|done]. apply str_eqb_eq in Ek. cbn [negb].
    destruct (load_points _ _ _ _ _ _ _ _) as [pds errs] eqn:El.
    intros [= <- [Hm He]%app_nil_iff]. subst errs. unfold check_metadata in Hm.
    rewrite !app_nil_iff, !err_if_nil, !str_eqb_neq in Hm. destruct Hm as (Hn & Hdr & Ha).
    destruct (str_eqb (doc_AppliesTo x) EmptyString); [done|].
    apply err_if_nil, negb_false_iff, bool_decide_eq_true in Ha.
    destruct Ha as [def Ht]. apply (load_points_ok _ _ d u _ def) in El as (H1 & H2 & H3 & _); [|done..].
    exists raw, x. repeat split; eauto.
  - intros (raw & x & -> & -> & Hk & Hn & Hdr & [def Ht] & H1 & H2 & H3 & Hpts & Hnd & Hv).
    rewrite Hk. change (negb (str_eqb "PointMap" "PointMap")) with false. cbv iota.
    rewrite H3 in Hv.
    assert (Hl : load_points ParseFloat oor d u (prefix_of d (doc_AppliesTo x)) 0 ∅ (doc_Points x) =
      (pm_Points pm, [])).
    { apply (load_points_ok _ _ d u _ def); [done..|]. repeat split; try done.
      apply Forall_forall. intros pd _. apply lookup_empty. }
    rewrite Hl. f_equal; [f_equal; destruct pm; cbn in *; congruence|]. rewrite app_nil_r.
    unfold check_metadata. rewrite !app_nil_iff, !err_if_nil, !str_eqb_neq. split; [done|]. split; [done|].
    destruct (ty_name d Hd _ def Ht) as [Hne _]. rewrite (proj2 (str_eqb_neq _ _)) by done.
    apply err_if_nil, negb_false_iff, bool_decide_eq_true. by eexists.
Qed.

(** C26: [Load] returns a map and no error exactly when the file is a PointMap
    document with a name, a driver and a known asset type, every entry decodes,
    no point is listed twice, and every point is valid: a legal address below
    every asset of the type, not derived, convertible to the standard unit,
    its vendor codes mapped into the quantity's codes, and either read-only
    without risk class and limits or a measured control point with a risk
    class, ordered limits in class A, and a way to be read back. *)
Theorem Load_accepts_iff ParseFloat oor ReadFile as_doc path d u pm : types_ok d ->
  Load ParseFloat oor ReadFile as_doc path d u = (Some pm, []) <->
  exists raw x, ReadFile path = Some raw /\ as_doc raw = Some x /\ doc_Kind x = "PointMap" /\
    doc_Name x <> EmptyString /\ doc_Driver x <> EmptyString /\ is_Some (d_Types d !! doc_AppliesTo x) /\
    pm_Name pm = doc_Name x /\ pm_Driver pm = doc_Driver x /\ pm_AppliesTo pm = doc_AppliesTo x /\
    Forall2 (fun raw pd => decodePoint ParseFloat oor raw 0 = Ok pd) (doc_Points x) (pm_Points pm) /\
    NoDup (pd_Point <$> pm_Points pm) /\
    Forall (point_valid d u (pm_AppliesTo pm)) (pm_Points pm).
Proof. apply load_accepts. Qed.

(** ** A concrete map *)
Lemma demo_types_ok : types_ok demo_ext_dict.
Proof.
  split; [..|reflexivity]; intros name def H; cbn in H; repeat (rewrite lookup_insert in H;
    case_decide; [subst; injection H as <-; cbn; auto|]); by rewrite lookup_empty in H.
Qed.

Definition demo_units : Units :=
  mkUnits (<["celsius" := <["decicelsius" := mkConv (dec_to_float 1 (-1)) f0]> ∅]> ∅).

Definition demo_point_temp : fields :=
  <["point" := YStr "fws1.supply.temp"]> (<["unit_in" := YStr "decicelsius"]>
  (<["register" := YInt 3]> ∅)).
Definition demo_point_set : fields :=
  <["point" := YStr "flow"]> (<["access" := YStr "rw"]> (<["risk_class" := YStr "a"]>
  (<["limits" := YMap [("max", YInt 90); ("min", YStr "10")]]> (<["register" := YInt 7]> ∅)))).
Definition demo_point_status : fields :=
  <["point" := YStr "status"]> (<["enum_map" := YIMap [(YInt 16, YInt 1); (YStr "2", YInt 0)]]>
  (<["register" := YInt 9]> ∅)).

Definition demo_doc : doc := mkDoc "PointMap" "cdu-x" "modbus" "cdu"
  [Some demo_point_temp; Some demo_point_set; Some demo_point_status].

Definition demo_parse (s : string) : option float64 :=
  match ParseFloat s with Ok f => Some f | Err _ => None end.
Definition demo_oor (f : float64) : Z := min_int64.

Abbreviation demo_load_map x := (load_doc demo_parse demo_oor x demo_ext_dict demo_units).

Example demo_map_loads :
  (demo_load_map demo_doc).2 = [] /\
  (pd_Point <$> pm_Points (demo_load_map demo_doc).1) = ["fws1.supply.temp"; "flow"; "status"] /\
  prefix_of demo_ext_dict "fan" = "site01.pod000.fan000." /\
  prefix_of demo_ext_dict "gpu" = "site01.pod000.cdu000.gpu0.".
Proof. vm_compute. repeat split. Qed.

(** One map, an error of almost every rule. *)
Example demo_map_errors :
  (demo_load_map (mkDoc "PointMap" "m" EmptyString "cdu"
    [Some (<["point" := YStr "fws1.temp"]> (<["unit_in" := YStr "kelvin"]> ∅));
     Some (<["point" := YStr "status"]> (<["enum_map" := YMap [("1", YInt 7)]]> ∅));
     Some (<["point" := YStr "status"]> (<["access" := YStr "rw"]> ∅));
     Some (<["point" := YStr "deltat"]> (<["risk_class" := YStr "a"]> ∅));
     Some (<["scale" := YBool true]> ∅); None])).2 =
  [V6Driver; V1 "fws1.temp" CPath.ErrMissingSide; V2Convert "fws1.temp"; V3Value "status";
   V6Duplicate "status" 1; V3NoMap "status"; V4NoRisk "status"; V5 "status"; V4RoRisk "deltat";
   V7Derived "deltat"; EScale 4; ENotMapping 5].
Proof. vm_compute. reflexivity. Qed.

(** A written scale of zero is replaced by one. *)
Example demo_scale_zero :
  pd_Scale <$> pm_Points (demo_load_map (mkDoc "PointMap" "m" "modbus" "cdu"
    [Some (<["point" := YStr "flow"]> (<["scale" := YInt 0]> ∅))])).1 = [f1].
Proof. vm_compute. reflexivity. Qed.

Definition demo_cdu : AssetPath := mkAssetPath "sgp01" [mkNode "pod" "002"; mkNode "cdu" "007"].

Lemma demo_cdu_asset : is_asset demo_ext_dict "cdu" demo_cdu.
Proof.
  split; [|reflexivity]. split; [reflexivity|]. split; [reflexivity|]. split; [done|].
  repeat (eapply nodes_ok_cons; [by repeat split|reflexivity|reflexivity|cbn; auto|]).
  apply nodes_ok_nil.
Qed.

Lemma prefix_decides_witness :
  (exists c, is_asset demo_ext_dict "cdu" c /\
     prefix_of demo_ext_dict "cdu" = AssetPath_String c +:+ "." /\
     forall a, is_asset demo_ext_dict "cdu" a -> length (ap_Nodes c) <= length (ap_Nodes a) /\
       forall s, same_point c a (ParsePoint demo_ext_dict (prefix_of demo_ext_dict "cdu" +:+ s))
                   (ParsePoint demo_ext_dict (AssetPath_String a +:+ "." +:+ s))) \/
  ((forall a, ~ is_asset demo_ext_dict "cdu" a) /\
   forall pd, check_V1 demo_ext_dict (prefix_of demo_ext_dict "cdu") pd <> []).
Proof. exact (prefix_decides demo_ext_dict "cdu" _ demo_types_ok eq_refl). Defined.

Lemma buildParentChain_least_witness :
  buildParentChain demo_ext_dict "fan" (mkTypeDef ["cdu"; "pod"] LevelDevice "fan" []) = "pod000.fan000" /\
  exists l, chain_up demo_ext_dict "fan" (mkTypeDef ["cdu"; "pod"] LevelDevice "fan" []) "fan" l /\
    length l = 2.
Proof.
  split; [vm_compute; reflexivity|].
  destruct (buildParentChain_least demo_ext_dict "fan" (mkTypeDef ["cdu"; "pod"] LevelDevice "fan" []))
    as [[H _]|(l & Hl & Heq & _ & Hmin)]; [discriminate|discriminate|discriminate H|].
  exists l. split; [exact Hl|].
  assert (Hc : chain_up demo_ext_dict "fan" (mkTypeDef ["cdu"; "pod"] LevelDevice "fan" []) "fan" ["fan"; "pod"]).
  { eapply chain_step; [right; left; reflexivity|]. eapply chain_step; [left; reflexivity|]. constructor. }
  destruct (Hmin _ Hc) as [Hlt|[He _]]; [|exact He].
  destruct l as [|x [|y l]]; cbn in Hlt; [inversion Hl| |lia].
  exfalso. inversion Hl as [|? p ? Hp Hp2]; subst. inversion Hp2; subst. vm_compute in Hp.
  destruct Hp as [Hp|[Hp|[]]]; discriminate Hp.
Defined.

Lemma Load_accepts_iff_witness :
  exists pm, Forall (point_valid demo_ext_dict demo_units "cdu") (pm_Points pm) /\
    length (pm_Points pm) = 3.
Proof.
  exists (demo_load_map demo_doc).1.
  destruct (proj1 (Load_accepts_iff demo_parse demo_oor (fun _ => Some "x") (fun _ => Some demo_doc)
    ["cdu.yaml"] demo_ext_dict demo_units (demo_load_map demo_doc).1 demo_types_ok) eq_refl)
    as (raw & x & _ & _ & _ & _ & _ & _ & _ & _ & _ & _ & _ & Hv).
  split; [exact Hv|vm_compute; reflexivity].
Defined.
