(* ===== verification/Pages.v ===== *)
(** * List endpoints (orgs_http.go, tenants_admin_http.go, siteorg_http.go,
      rolebindings_http.go, tickets.go, spares.go)

    The lists of the administrative registry page by cursor, those of tickets
    and spare parts by position.  Every list is shown to be a page of the
    theory of [Cursor] over its own rows, so that a client which follows the
    tokens terminates and gets every row; for the cursor lists also while the
    registry changes.  Positions do not have that property. *)
From stdpp Require Import sorting.
From S2P Require Import Prelude GoTime CPath Glob RBAC Http Tickets Routes Registry Spares Cursor.
Open Scope string_scope.
Open Scope list_scope.

Definition bad_token : problem := bad_request "bad page_token".
Definition bad_size : problem := bad_request "bad page_size".

(** ** Store: sorted rows *)

Definition ListOrgs (rg : registry) (tenantID : string) : list Org :=
  sort_by og_Name
    (List.filter (fun o => str_eqb (og_TenantID o) tenantID) (map_to_list (rg_orgs rg)).*2).

Definition ListTenants (rg : registry) : list Tenant :=
  sort_by tn_ID (map_to_list (rg_tenants rg)).*2.

Definition ListSiteOrgs (rg : registry) : list SiteOrg :=
  sort_by so_Site (map_to_list (rg_siteOrgs rg)).*2.

Definition ListRoleBindings (rg : registry) (subject : string) : list RoleBinding :=
  sort_by rb_Scope (List.filter (fun rb => str_eqb (rb_Subject rb) subject) (rg_bindings rg)).

Definition ListAllRoleBindings (rg : registry) : list RoleBinding :=
  sort_by_pair binding_key (rg_bindings rg).

(** ** The cursor part of a handler

    [pageSize] was parsed; the token selects the rows that the loop keeps. *)

Definition string_page {A} (key : A -> string) (all : list A) (page_size page_token : string) :
    result problem (list A * string) :=
  match parseAdminPageSize page_size with
  | None => Err bad_size
  | Some pageSize =>
      match (if str_eqb page_token EmptyString then Some EmptyString
             else decodePageToken page_token) with
      | None => Err bad_token
      | Some after =>
          Ok (cut_page key encodePageToken pageSize
                (scan_page pageSize (after_key key after) 0 all))
      end
  end.

Definition serveOrgsList (rg : registry) (auth : option Principal) (tenant : option string)
    (tenant_id page_size page_token : string) : result problem (list Org * string) :=
  if negb (requireOrgAdmin auth) then Err not_admin
  else
    match (match tenant with
           | Some tid => if negb (str_eqb tenant_id EmptyString) && negb (str_eqb tenant_id tid)
                         then Err scope_mismatch else Ok tid
           | None => Ok tenant_id
           end) with
    | Err e => Err e
    | Ok tenantID =>
        if str_eqb tenantID EmptyString then Err (bad_request "missing tenant_id")
        else match rg_tenants rg !! tenantID with
        | None => Err tenant_not_found
        | Some _ => string_page og_Name (ListOrgs rg tenantID) page_size page_token
        end
    end.

(** A row of the tenant list: the tenant, its organisations and the one named
    "default". *)
Record tenantListItem : Type := mkItem {
  ti_Tenant : Tenant; ti_Orgs : list Org; ti_DefaultOrg : option Org }.

Definition buildTenantListItem (rg : registry) (t : Tenant) : tenantListItem :=
  let orgs := ListOrgs rg (tn_ID t) in
  mkItem t orgs (List.find (fun o => str_eqb (og_Name o) "default") orgs).

Section lists.
(** [unicode.ToLower] outside ASCII. *)
Context (lower_rune : N -> N).

(** [q], trimmed: a case-insensitive substring filter when it is not empty. *)
Definition search {A} (q : string) (fields : A -> list string) (all : list A) : list A :=
  let q := TrimSpace q in
  if str_eqb q EmptyString then all
  else
    let ql := ToLower lower_rune q in
    List.filter (fun x => existsb (fun f => contains ql (ToLower lower_rune f)) (fields x)) all.

Definition serveTenantsList (rg : registry) (auth : option Principal) (tenant : option string)
    (q page_size page_token : string) : result problem (list tenantListItem * string) :=
  if negb (requireOrgAdmin auth) then Err not_admin
  else match tenant with
  | Some tid =>
      match rg_tenants rg !! tid with
      | None => Ok ([], EmptyString)
      | Some t => Ok ([buildTenantListItem rg t], EmptyString)
      end
  | None =>
      match string_page tn_ID
              (search q (fun t => [tn_ID t; tn_DisplayName t]) (ListTenants rg))
              page_size page_token with
      | Err e => Err e
      | Ok (page, next) => Ok (map (buildTenantListItem rg) page, next)
      end
  end.

Definition serveSiteOrgsList (rg : registry) (auth : option Principal)
    (org_id q page_size page_token : string) : result problem (list SiteOrg * string) :=
  if negb (requireOrgAdmin auth) then Err not_admin
  else
    let all := ListSiteOrgs rg in
    let all := if negb (str_eqb org_id EmptyString)
               then List.filter (fun so => str_eqb (so_OrgID so) org_id) all else all in
    string_page so_Site (search q (fun so => [so_Site so]) all) page_size page_token.

Definition serveRoleBindingsList (rg : registry) (auth : option Principal)
    (rsubject rq page_size page_token : string) : result problem (list RoleBinding * string) :=
  if negb (requireOrgAdmin auth) then Err not_admin
  else
    let subject := TrimSpace rsubject in
    if negb (str_eqb subject EmptyString)
    then string_page rb_Scope (ListRoleBindings rg subject) page_size page_token
    else
      let items := search rq (fun rb => [rb_Subject rb]) (ListAllRoleBindings rg) in
      match parseAdminPageSize page_size with
      | None => Err bad_size
      | Some pageSize =>
          match (if str_eqb page_token EmptyString then Some None
                 else Some <$> decodePageTokenPair page_token) with
          | None => Err bad_token
          | Some after =>
              Ok (cut_page binding_key encodePageTokenPair pageSize
                    (scan_page pageSize
                       (fun rb => match after with
                                  | Some k => after_pair binding_key k rb | None => true end)
                       0 items))
          end
      end.
End lists.

(** ** Lists by position *)

(** [items[startIdx:]] and the next token, the position behind the page. *)
Definition index_page {A} (items : list A) (pageSize : Z) (page_token : string) :
    result problem (list A * string) :=
  match (if str_eqb page_token EmptyString then Some EmptyString
         else decodePageToken page_token) with
  | None => Err bad_token
  | Some after =>
      match (if str_eqb after EmptyString then Some 0%Z
             else match Atoi after with
                  | Some idx => if (idx <? 0)%Z then None
                                else Some (Z.min idx (Z.of_nat (length items)))
                  | None => None
                  end) with
      | None => Err (bad_request "bad page_token (not an int)")
      | Some startIdx =>
          let items := drop (Z.to_nat startIdx) items in
          if (pageSize <? Z.of_nat (length items))%Z
          then Ok (take (Z.to_nat pageSize) items, encodePageToken (itoa (startIdx + pageSize)))
          else Ok (items, EmptyString)
      end
  end.

Definition ListSpares (dp : depot) : list SparePart :=
  sort_by sp_ID (map_to_list (dp_spares dp)).*2.

Definition serveSparesList (dp : depot) (page_size page_token : string) :
    result problem (list SparePart * string) :=
  match parsePageSize page_size with
  | Err e => Err e
  | Ok pageSize => index_page (ListSpares dp) pageSize page_token
  end.

Record ticketQuery : Type := mkTicketQuery {
  tq_severity : string; tq_state : string; tq_filter : string;
  tq_page_size : string; tq_page_token : string }.

(** [authorize(p, ActionRead, path) != nil], the meter threaded through. *)
Definition visible (mt : meter) (auth : option Principal) (path : string) : meter * bool :=
  match auth with
  | None => (mt, true)
  | Some p => let '(mt', r) := authorize mt p ActionRead path in (mt', is_ok r)
  end.

(** The loop over the listed rows. *)
Fixpoint filter_visible {A} (mt : meter) (auth : option Principal) (want : A -> bool)
    (path : A -> string) (all : list A) : meter * list A :=
  match all with
  | [] => (mt, [])
  | x :: rest =>
      if negb (want x) then filter_visible mt auth want path rest
      else
        let '(mt1, ok) := visible mt auth (path x) in
        let '(mt2, items) := filter_visible mt1 auth want path rest in
        (mt2, if ok then x :: items else items)
  end.

(** [want == "" || v == want] *)
Definition wanted (want v : string) : bool := str_eqb want EmptyString || str_eqb v want.

(** What [ListTickets] may return: the rows, newest first.  It sorts by the
    opening time only, and collects the rows from a map, so that the order of
    tickets opened at the same time may differ from call to call. *)
Definition tickets_listed (m : gmap string Ticket) (all : list Ticket) : Prop :=
  all ≡ₚ (map_to_list m).*2 /\
  StronglySorted (fun a b => (t_OpenedAt b <= t_OpenedAt a)%Z) all.

(** [all] is what [ListTickets] returned. *)
Definition serveTicketsList (all : list Ticket) (mt : meter) (auth : option Principal)
    (q : ticketQuery) : meter * result problem (list Ticket * string) :=
  if negb (str_eqb (tq_severity q) EmptyString) &&
     negb (contains_string allowedTicketSeverities (tq_severity q))
  then (mt, Err (bad_request "bad severity"))
  else if negb (str_eqb (tq_state q) EmptyString) &&
     negb (contains_string allowedTicketStates (tq_state q))
  then (mt, Err (bad_request "bad state"))
  else
    match CompileGlob (if str_eqb (tq_filter q) EmptyString then "**" else tq_filter q) with
    | Err _ => (mt, Err (bad_request "bad filter"))
    | Ok glob =>
        match parsePageSize (tq_page_size q) with
        | Err e => (mt, Err e)
        | Ok pageSize =>
            if negb (str_eqb (tq_page_token q) EmptyString) &&
               negb (bool_decide (is_Some (decodePageToken (tq_page_token q))))
            then (mt, Err bad_token)
            else
              let want t := wanted (tq_severity q) (t_Severity t) &&
                            wanted (tq_state q) (t_State t) && Match glob (t_AssetPath t) in
              let '(mt', items) := filter_visible mt auth want t_AssetPath all in
              (mt', index_page items pageSize (tq_page_token q))
        end
    end.

(** ** Every list is a page over its rows *)

Lemma scan_all {A} (l : list A) f : (forall x, f x = true) -> List.filter f l = l.
Proof. intros H. induction l as [|x l IH]; cbn; [done|]. by rewrite H, IH. Qed.

Lemma string_page_at {A} (key : A -> string) all ps size tok :
  parseAdminPageSize ps = Some size ->
  string_page key all ps tok =
    as_answer (page_at key (after_key key) encodePageToken decodePageToken all size tok).
Proof.
  intros Hs. pose proof (parseAdminPageSize_range _ _ Hs). unfold string_page, page_at.
  rewrite Hs. destruct (str_eqb tok EmptyString) eqn:Et.
  - cbn [as_answer]. f_equal. rewrite cut_scan_page by lia. f_equal. by apply scan_all.
  - destruct (decodePageToken tok) as [k|]; cbn [as_answer]; [|done]. f_equal.
    apply cut_scan_page. lia.
Qed.

(** Rows of a map under their own key. *)
Lemma map_rows_keys {A} (m : gmap string A) (key : A -> string) :
  (forall k x, m !! k = Some x -> key x = k) -> NoDup (map key (map_to_list m).*2).
Proof.
  intros H. replace (map key (map_to_list m).*2) with ((map_to_list m).*1); [apply NoDup_fst_map_to_list|].
  assert (Hl : forall kv, kv ∈ map_to_list m -> key kv.2 = kv.1)
    by (intros [k x] Hin%elem_of_map_to_list; by apply H).
  revert Hl. generalize (map_to_list m). intros l Hl. induction l as [|kv l IH]; [done|].
  cbn. rewrite Hl by (by left). f_equal. apply IH. intros kv' Hin. apply Hl. by right.
Qed.

Lemma in_rows {A} (m : gmap string A) x : x ∈ (map_to_list m).*2 <-> exists k, m !! k = Some x.
Proof.
  rewrite list_elem_of_fmap. split.
  - intros ([k y] & -> & H%elem_of_map_to_list). by exists k.
  - intros [k H]. exists (k, x). split; [done|by apply elem_of_map_to_list].
Qed.

Lemma rows_Forall {A} (m : gmap string A) (P : A -> Prop) :
  (forall k x, m !! k = Some x -> P x) -> Forall P (map_to_list m).*2.
Proof. intros H. apply Forall_forall. intros x [k Hk]%in_rows. by eapply H. Qed.

Lemma Forall_list_filter {A} (P : A -> Prop) f l : Forall P l -> Forall P (List.filter f l).
Proof.
  intros H. apply Forall_forall. intros x [Hx _]%in_filter. by eapply Forall_forall in H.
Qed.

Lemma NoDup_map_filter {A B} (f : A -> B) (p : A -> bool) l :
  NoDup (map f l) -> NoDup (map f (List.filter p l)).
Proof.
  induction l as [|x l IH]; cbn; [done|]. intros [Hn Hl]%NoDup_cons. destruct (p x); [|by apply IH].
  cbn. apply NoDup_cons. split; [|by apply IH]. intros Hin. apply Hn.
  apply list_elem_of_In, in_map_iff in Hin as (y & <- & [Hy _]%filter_In).
  by apply list_elem_of_In, in_map.
Qed.

Definition by_key {A} (key : A -> string) (l : list A) : Prop :=
  listing key (after_key key) (keyed key) l.

Lemma by_key_search {A} lower q fields (key : A -> string) l :
  by_key key l -> by_key key (search lower q fields l).
Proof. intros H. unfold search. destruct (str_eqb _ _); [done|by apply listing_filter]. Qed.

Lemma ListTenants_by_key rg : registry_ok rg -> by_key tn_ID (ListTenants rg).
Proof.
  intros Hok. apply sort_by_listing.
  - apply map_rows_keys. intros k t H. by destruct (ro_tenant _ Hok _ _ H) as [? _].
  - apply rows_Forall. intros k t H. destruct (ro_tenant _ Hok _ _ H) as (<- & Hs & _).
    by apply slug_nonempty.
Qed.

Lemma ListSiteOrgs_by_key rg : registry_ok rg -> by_key so_Site (ListSiteOrgs rg).
Proof.
  intros Hok. apply sort_by_listing.
  - apply map_rows_keys. intros k t H. by destruct (ro_site _ Hok _ _ H) as [? _].
  - apply rows_Forall. intros k t H. destruct (ro_site _ Hok _ _ H) as (<- & Hs & _).
    intros E. by rewrite E in Hs.
Qed.

Lemma in_ListOrgs rg tid o :
  o ∈ ListOrgs rg tid <-> og_TenantID o = tid /\ exists id, rg_orgs rg !! id = Some o.
Proof.
  unfold ListOrgs. rewrite sort_by_perm, in_filter, in_rows, str_eqb_eq. tauto.
Qed.

(** Names are unique inside a tenant. *)
Lemma ListOrgs_by_key rg tid : registry_ok rg -> by_key og_Name (ListOrgs rg tid).
Proof.
  intros Hok. apply sort_by_listing.
  - assert (Hids : NoDup (map og_ID (map_to_list (rg_orgs rg)).*2))
      by (apply map_rows_keys; intros k o H; by destruct (ro_org _ Hok _ _ H) as [? _]).
    apply (NoDup_map_filter _ (fun o => str_eqb (og_TenantID o) tid)) in Hids.
    assert (Hin : forall o, o ∈ List.filter (fun o => str_eqb (og_TenantID o) tid)
        (map_to_list (rg_orgs rg)).*2 -> og_TenantID o = tid /\ rg_orgs rg !! og_ID o = Some o).
    { intros o [[k H]%in_rows Ht%str_eqb_eq]%in_filter. split; [done|].
      by destruct (ro_org _ Hok _ _ H) as [-> _]. }
    revert Hids Hin. generalize (List.filter (fun o => str_eqb (og_TenantID o) tid)
      (map_to_list (rg_orgs rg)).*2). intros l. induction l as [|o l IH]; intros Hids Hin; [constructor|].
    cbn [map] in *. apply NoDup_cons in Hids as [Hn Hids]. apply NoDup_cons.
    split; [|apply IH; [done|intros; apply Hin; by right]].
    intros Hx. apply list_elem_of_In, in_map_iff in Hx as (o' & En & Ho'%list_elem_of_In).
    destruct (Hin o ltac:(by left)) as [Et Ho]. destruct (Hin o' ltac:(by right)) as [Et' Ho2].
    apply Hn. rewrite (ro_name _ Hok _ _ _ _ Ho Ho2) by congruence.
    by apply list_elem_of_In, in_map, list_elem_of_In.
  - apply Forall_list_filter, rows_Forall. intros k o H.
    destruct (ro_org _ Hok _ _ H) as (_ & _ & Hs). by apply slug_nonempty.
Qed.

Lemma ListRoleBindings_by_key rg subject : registry_ok rg ->
  by_key rb_Scope (ListRoleBindings rg subject).
Proof.
  intros Hok. apply sort_by_listing.
  - pose proof (ro_key _ Hok) as Hk.
    apply (NoDup_map_filter _ (fun rb => str_eqb (rb_Subject rb) subject)) in Hk.
    assert (Hin : forall rb, rb ∈ List.filter (fun rb => str_eqb (rb_Subject rb) subject)
      (rg_bindings rg) -> rb_Subject rb = subject) by (by intros rb [_ ?%str_eqb_eq]%in_filter).
    revert Hk Hin. generalize (List.filter (fun rb => str_eqb (rb_Subject rb) subject)
      (rg_bindings rg)). intros l. induction l as [|rb l IH]; intros Hk Hin; [constructor|].
    cbn [map] in *. apply NoDup_cons in Hk as [Hn Hk]. apply NoDup_cons.
    split; [|apply IH; [done|intros; apply Hin; by right]].
    intros Hx. apply list_elem_of_In, in_map_iff in Hx as (rb' & En & Hr'%list_elem_of_In).
    apply Hn. replace (binding_key rb) with (binding_key rb').
    + by apply list_elem_of_In, in_map, list_elem_of_In.
    + unfold binding_key. rewrite En. f_equal.
      by rewrite (Hin rb ltac:(by left)), (Hin rb' ltac:(by right)).
  - apply Forall_list_filter. apply (Forall_impl _ _ _ (ro_binding _ Hok)). by intros rb (_ & ? & _).
Qed.

(** *** The scope check of a list

    The answers of the check depend on whether the legacy window is closed and
    on nothing else of the meter. *)

Lemma authorize_meter m m' p action path : m_closed m = m_closed m' ->
  (authorize m p action path).2 = (authorize m' p action path).2.
Proof.
  intros H. unfold authorize, authorizeTenant. destruct (roleAllows p action); [|done].
  case_bool_decide; [done|].
  assert (Hl : forall scopes i q, (scope_loop m scopes i q action path EmptyString).2 =
    (scope_loop m' scopes i q action path EmptyString).2).
  { induction scopes as [|sg scopes IH]; intros i q; [done|]. cbn [scope_loop].
    destruct (scope_matches sg action path); [|apply IH]. unfold afterMatch. rewrite H.
    destruct (_ && _ && _); [done|]. destruct (_ && _); [done|]. by case_bool_decide. }
  destruct (p_compiled p); [apply Hl|]. destruct (compilePrincipalScopes p); [apply Hl|done].
Qed.

Lemma authorize_closed m p action path : m_closed (authorize m p action path).1 = m_closed m.
Proof.
  unfold authorize, authorizeTenant. destruct (roleAllows p action); [|done].
  case_bool_decide; [done|].
  assert (Hl : forall scopes i q,
    m_closed (scope_loop m scopes i q action path EmptyString).1 = m_closed m).
  { induction scopes as [|sg scopes IH]; intros i q; [done|]. cbn [scope_loop].
    destruct (scope_matches sg action path); [|apply IH]. unfold afterMatch.
    destruct (_ && _ && _); [done|]. destruct (_ && _); [done|]. case_bool_decide; [|done].
    by destruct (p_Scopes q !! i). }
  destruct (p_compiled p); [apply Hl|]. destruct (compilePrincipalScopes p); [apply Hl|done].
Qed.

(** Who sees a path. *)
Definition sees (closed : bool) (auth : option Principal) (path : string) : bool :=
  (visible (mkMeter 0 ∅ closed) auth path).2.

Lemma visible_sees mt auth path :
  (visible mt auth path).2 = sees (m_closed mt) auth path /\
  m_closed (visible mt auth path).1 = m_closed mt.
Proof.
  unfold sees, visible. destruct auth as [p|]; [|done].
  pose proof (authorize_meter mt (mkMeter 0 ∅ (m_closed mt)) p ActionRead path eq_refl) as H.
  pose proof (authorize_closed mt p ActionRead path) as Hc.
  destruct (authorize mt p ActionRead path), (authorize (mkMeter 0 ∅ (m_closed mt)) p ActionRead path).
  cbn in *. by rewrite H.
Qed.

Lemma filter_visible_sees {A} auth (want : A -> bool) path all : forall mt,
  (filter_visible mt auth want path all).2 =
    List.filter (fun x => want x && sees (m_closed mt) auth (path x)) all /\
  m_closed (filter_visible mt auth want path all).1 = m_closed mt.
Proof.
  induction all as [|x all IH]; intros mt; [done|]. cbn [filter_visible List.filter].
  destruct (want x); cbn [negb andb]; [|apply IH].
  pose proof (visible_sees mt auth (path x)) as [Hv Hc].
  destruct (visible mt auth (path x)) as [mt1 ok]. cbn in Hv, Hc. subst ok.
  pose proof (IH mt1) as [Hi Hm]. destruct (filter_visible mt1 auth want path all) as [mt2 items].
  cbn in *. rewrite Hc in *. subst items. by destruct (sees _ _ _).
Qed.

(** *** Unchanging rows: the client gets them all in [n / size + 1] requests *)

Lemma string_pages {A} (key : A -> string) all ps size fuel :
  parseAdminPageSize ps = Some size -> by_key key all ->
  length all / Z.to_nat size < fuel ->
  client fuel (fun _ => string_page key all ps) EmptyString = Some all.
Proof.
  intros Hs Hl Hf. pose proof (parseAdminPageSize_range _ _ Hs).
  rewrite (client_follow key (after_key key) encodePageToken decodePageToken size fuel
    _ (fun _ => all)) by (intros _ t; by apply string_page_at).
  apply (follow_complete key (after_key key) encodePageToken decodePageToken (keyed key)
    (key_dec key) (key_enc key) (key_irr key) (key_trans key)); [lia|done|done].
Qed.

(** *** Changing rows: no row twice, and every row that stays *)

Lemma string_pages_changing {A} (key : A -> string) (snap : nat -> list A) u ps size :
  parseAdminPageSize ps = Some size -> (forall k, by_key key (snap k)) ->
  Forall (keyed key) u -> (forall k x, x ∈ snap k -> x ∈ u) ->
  exists out,
    client (S (length u)) (fun k => string_page key (snap k) ps) EmptyString = Some out /\
    StronglySorted (fun x y => str_lt (key x) (key y) = true) out /\
    (forall x, x ∈ out -> exists k, x ∈ snap k) /\
    (forall x, (forall k, x ∈ snap k) -> x ∈ out).
Proof.
  intros Hs Hl Hu Hsub. pose proof (parseAdminPageSize_range _ _ Hs).
  destruct (follow_changing key (after_key key) encodePageToken decodePageToken (keyed key)
    (key_dec key) (key_enc key) (key_irr key) (key_trans key) size u ltac:(lia) Hu
    (S (length u)) snap None Hl Hsub I ltac:(cbn; lia)) as (out & Hout & Hgot).
  destruct Hgot as (Hsort & Hrow & _ & Hfrom & Hall). exists out.
  rewrite (client_follow key (after_key key) encodePageToken decodePageToken size _ _ snap)
    by (intros k t; by apply string_page_at).
  split; [done|]. split; [|split; [done|by intros x ?; apply Hall]].
  clear -Hsort Hrow. induction Hsort as [|x l Hl IH Hx]; [constructor|].
  apply Forall_cons in Hrow as [Hk Hrow]. constructor; [by apply IH|].
  apply Forall_forall. intros y Hy. eapply Forall_forall in Hx; [|done].
  by apply key_behind in Hx.
Qed.

(** *** Pair cursors *)

Lemma pair_pages lower rg auth rq ps size fuel :
  requireOrgAdmin auth = true -> parseAdminPageSize ps = Some size -> registry_ok rg ->
  (forall rb, rb ∈ rg_bindings rg -> no_byte US (rb_Subject rb) = true) ->
  let items := search lower rq (fun rb => [rb_Subject rb]) (ListAllRoleBindings rg) in
  length items / Z.to_nat size < fuel ->
  client fuel (fun _ => serveRoleBindingsList lower rg auth EmptyString rq ps) EmptyString
    = Some items.
Proof.
  intros Ha Hs Hok Hus items Hf. pose proof (parseAdminPageSize_range _ _ Hs).
  assert (listing binding_key (after_pair binding_key) (pair_row binding_key) items) as Hl.
  { assert (listing binding_key (after_pair binding_key) (pair_row binding_key)
      (ListAllRoleBindings rg)) as Hl.
    { apply sort_by_pair_listing; [apply Hok|]. apply Forall_forall. intros rb Hrb. by apply Hus. }
    unfold items, search. destruct (str_eqb _ _); [done|by apply listing_filter]. }
  rewrite (client_follow binding_key (after_pair binding_key) encodePageTokenPair
    decodePageTokenPair size _ _ (fun _ => items)).
  - apply (follow_complete binding_key (after_pair binding_key) encodePageTokenPair
      decodePageTokenPair (pair_row binding_key) (pair_dec _) (pair_enc _) (pair_irr _)
      (pair_trans _)); [lia|done|done].
  - intros _ t. unfold serveRoleBindingsList, page_at. rewrite Ha, Hs. cbn [negb str_eqb].
    change (str_eqb (TrimSpace EmptyString) EmptyString) with true. cbn [negb]. fold items.
    destruct (str_eqb t EmptyString).
    + cbn [as_answer]. f_equal. rewrite cut_scan_page by lia. f_equal. by apply scan_all.
    + destruct (decodePageTokenPair t) as [k|]; cbn; [|done]. f_equal. apply cut_scan_page. lia.
Qed.

(** *** Positions *)

Lemma index_page_first {A} (items : list A) size :
  index_page items size EmptyString =
    if (size <? Z.of_nat (length items))%Z
    then Ok (take (Z.to_nat size) items, encodePageToken (itoa (0 + size)))
    else Ok (items, EmptyString).
Proof. done. Qed.

Lemma itoa_nonempty z : itoa z <> EmptyString.
Proof. destruct z as [|p|p]; [done|apply pretty_N_nonempty|done]. Qed.

Lemma index_page_at {A} (items : list A) size n :
  (0 <= n <= Z.of_nat (length items))%Z -> (n <= max_int64)%Z ->
  index_page items size (encodePageToken (itoa n)) =
    let rest := drop (Z.to_nat n) items in
    if (size <? Z.of_nat (length rest))%Z
    then Ok (take (Z.to_nat size) rest, encodePageToken (itoa (n + size)))
    else Ok (rest, EmptyString).
Proof.
  intros Hn Hm. unfold index_page. pose proof (token_nonempty (itoa n)) as Ht.
  apply str_eqb_neq in Ht. rewrite Ht, decode_encode.
  pose proof (itoa_nonempty n) as Hi. apply str_eqb_neq in Hi.
  rewrite Hi, Atoi_itoa by (unfold min_int64, max_int64 in *; lia).
  destruct (Z.ltb_spec n 0); [lia|]. by rewrite Z.min_l by lia.
Qed.

Lemma index_client {A} (items : list A) size fuel : forall n,
  (1 <= size)%Z -> (0 <= n <= Z.of_nat (length items))%Z ->
  (Z.of_nat (length items) <= max_int64)%Z ->
  length (drop (Z.to_nat n) items) / Z.to_nat size < fuel ->
  client fuel (fun _ => index_page items size) (encodePageToken (itoa n))
    = Some (drop (Z.to_nat n) items).
Proof.
  induction fuel as [|f IH]; intros n Hs Hn Hm Hf; [lia|]. cbn [client].
  rewrite index_page_at by lia. cbv zeta.
  destruct (Z.ltb_spec size (Z.of_nat (length (drop (Z.to_nat n) items)))) as [Hl|Hl]; [|done].
  pose proof (token_nonempty (itoa (n + size))) as Ht. apply str_eqb_neq in Ht. rewrite Ht.
  rewrite length_drop in Hl, Hf.
  replace (Z.to_nat (n + size)) with (Z.to_nat n + Z.to_nat size) in * by lia.
  rewrite IH; [|lia..|].
  - cbn. f_equal. replace (Z.to_nat (n + size)) with (Z.to_nat n + Z.to_nat size) by lia.
    by rewrite <- drop_drop, take_drop.
  - rewrite length_drop. replace (Z.to_nat (n + size)) with (Z.to_nat n + Z.to_nat size) by lia.
    replace (length items - Z.to_nat n) with
      (1 * Z.to_nat size + (length items - (Z.to_nat n + Z.to_nat size))) in Hf by lia.
    rewrite Nat.div_add_l in Hf by lia. lia.
Qed.

(** Over an unchanging order the positions work as well. *)
Lemma index_pages {A} (items : list A) size fuel : (1 <= size)%Z ->
  (Z.of_nat (length items) <= max_int64)%Z -> length items / Z.to_nat size < fuel ->
  client fuel (fun _ => index_page items size) EmptyString = Some items.
Proof.
  intros Hs Hm Hf. destruct fuel as [|f]; [lia|]. cbn [client]. rewrite index_page_first.
  destruct (Z.ltb_spec size (Z.of_nat (length items))) as [Hl|Hl]; [|done].
  pose proof (token_nonempty (itoa (0 + size))) as Ht. apply str_eqb_neq in Ht. rewrite Ht.
  rewrite index_client; [|lia..|].
  - cbn. f_equal. rewrite Z.add_0_l. apply take_drop.
  - rewrite length_drop, Z.add_0_l.
    replace (length items) with (1 * Z.to_nat size + (length items - Z.to_nat size)) in Hf by lia.
    rewrite Nat.div_add_l in Hf by lia. lia.
Qed.

Lemma sort_by_rows {A} (key : A -> string) l : length (sort_by key l) = length l.
Proof. by rewrite sort_by_perm. Qed.

Lemma client_map {A B} (f : A -> B) fuel : forall (req : nat -> string -> result problem (list A * string)) tok,
  client fuel (fun k t => match req k t with
                          | Err e => Err e
                          | Ok (page, next) => Ok (map f page, next)
                          end) tok = map f <$> client fuel req tok.
Proof.
  induction fuel as [|n IH]; intros req tok; [done|]. cbn [client].
  destruct (req 0 tok) as [[page next]|e]; [|done].
  destruct (str_eqb next EmptyString); [done|].
  rewrite (IH (fun i => req (S i))). destruct (client n _ next) as [out|]; [|done].
  cbn. by rewrite map_app.
Qed.

Lemma client_ext {A} fuel : forall (req req' : nat -> string -> result problem (list A * string)) tok,
  (forall k t, req k t = req' k t) -> client fuel req tok = client fuel req' tok.
Proof.
  induction fuel as [|n IH]; intros req req' tok H; [done|]. cbn [client]. rewrite H.
  destruct (req' 0 tok) as [[page next]|e]; [|done]. destruct (str_eqb next EmptyString); [done|].
  by rewrite (IH _ (fun i => req' (S i))).
Qed.

(** The guards of the list of organisations. *)
Lemma serveOrgsList_page rg auth tenant tid ps tok :
  registry_ok rg -> is_Some (rg_tenants rg !! tid) -> requireOrgAdmin auth = true ->
  foreign tenant tid = false ->
  serveOrgsList rg auth tenant tid ps tok = string_page og_Name (ListOrgs rg tid) ps tok.
Proof.
  intros Hok [t Ht] Ha Hf. unfold serveOrgsList. rewrite Ha. cbn [negb].
  destruct (ro_tenant _ Hok _ _ Ht) as (_ & Hn%slug_nonempty%str_eqb_neq & _).
  destruct tenant as [tid'|]; cbn [foreign] in Hf.
  - apply negb_false_iff, str_eqb_eq in Hf as <-. rewrite str_eqb_refl, andb_false_r, Hn.
    by rewrite Ht.
  - by rewrite Hn, Ht.
Qed.

(** ** Examples *)

Definition rg1 : registry := rs_reg demo3.

Example demo_orgs :
  let tok := encodePageToken "default" in
  serveOrgsList rg1 (Some root) None "acme" "1" EmptyString
    = Ok ([mkOrg "og_A" "acme" "default" 1000], tok) /\
  serveOrgsList rg1 (Some root) None "acme" "1" tok
    = Ok ([mkOrg "og_B" "acme" "ops" 1000], EmptyString) /\
  serveOrgsList rg1 (Some root) (Some "globex") "acme" "1" tok = Err scope_mismatch /\
  serveOrgsList rg1 (Some root) None "acme" "0" tok = Err bad_size /\
  serveOrgsList rg1 (Some root) None "acme" "1" "?" = Err bad_token.
Proof. vm_compute. repeat split. Qed.

(** Two tickets that one scanner pass opened carry the same time, so that
    [ListTickets] may return them in either order.  A client that reads page
    after page, while nothing changes, can get one of them twice and the other
    one never. *)
Definition twin (id : string) : Ticket :=
  mkTicket id EmptyString "site01" "inspect" "minor" "open" EmptyString 1000 None None None None 1
    EmptyString.
Definition twins : gmap string Ticket := {["tk_a" := twin "tk_a"; "tk_b" := twin "tk_b"]}.

Definition ask (all : nat -> list Ticket) (k : nat) (tok : string) :=
  (serveTicketsList (all k) open_meter None
     (mkTicketQuery EmptyString EmptyString EmptyString "1" tok)).2.

Example ticket_pages_skip :
  let all k := match k with 0 => [twin "tk_a"; twin "tk_b"] | _ => [twin "tk_b"; twin "tk_a"] end in
  (forall k, tickets_listed twins (all k)) /\
  client 2 (ask all) EmptyString = Some [twin "tk_a"; twin "tk_a"].
Proof.
  split.
  - intros k. assert (Hp : [twin "tk_a"; twin "tk_b"] ≡ₚ (map_to_list twins).*2).
    { change twins with (list_to_map [("tk_a", twin "tk_a"); ("tk_b", twin "tk_b")] : gmap string Ticket).
      rewrite map_to_list_to_map; [done|]. apply NoDup_cons. split; [|apply NoDup_singleton].
      by intros H%list_elem_of_singleton. }
    split; [destruct k; [done|by rewrite <- Hp; apply perm_swap]|].
    destruct k; (constructor; [constructor; [constructor|constructor]|]);
      (constructor; [cbn; lia|constructor]).
  - vm_compute. reflexivity.
Qed.

(** ** Theorems *)



(** While organisations are created, renamed and deleted between the
    requests, a client of the list of organisations still terminates, sees the
    names in strictly increasing order, hence no organisation twice, only rows
    the tenant had at some request, and every row that was there unchanged
    all the time. *)
Lemma orgs_pages_changing (ys : nat -> rsys) auth tenant tid ps size u :
  (forall k, rreachable (ys k)) -> (forall k, is_Some (rg_tenants (rs_reg (ys k)) !! tid)) ->
  requireOrgAdmin auth = true -> foreign tenant tid = false -> parseAdminPageSize ps = Some size ->
  (forall o, o ∈ u -> og_Name o <> EmptyString) ->
  (forall k id o, rg_orgs (rs_reg (ys k)) !! id = Some o -> og_TenantID o = tid -> o ∈ u) ->
  exists out,
    client (S (length u)) (fun k => serveOrgsList (rs_reg (ys k)) auth tenant tid ps) EmptyString
      = Some out /\
    StronglySorted (fun a b => str_lt (og_Name a) (og_Name b) = true) out /\
    (forall o, o ∈ out -> og_TenantID o = tid /\
       exists k id, rg_orgs (rs_reg (ys k)) !! id = Some o) /\
    (forall id o, og_TenantID o = tid -> (forall k, rg_orgs (rs_reg (ys k)) !! id = Some o) ->
       o ∈ out).
Proof.
  intros Hr Ht Ha Hfor Hs Hu Hsub.
  assert (Hok : forall k, registry_ok (rs_reg (ys k))) by (intros k; apply rso_reg, rreachable_ok, Hr).
  destruct (string_pages_changing og_Name (fun k => ListOrgs (rs_reg (ys k)) tid) u ps size)
    as (out & Hout & Hsort & Hfrom & Hall); [done| | |intros k o|].
  - intros k. by apply ListOrgs_by_key.
  - apply Forall_forall, Hu.
  - intros [Et [id Ho]]%in_ListOrgs. by eapply Hsub.
  - exists out. split; [|split; [done|split]].
    + rewrite <- Hout. apply client_ext. intros k t. by apply serveOrgsList_page.
    + intros o Ho. destruct (Hfrom o Ho) as [k [Et [id Hid]]%in_ListOrgs]. eauto.
    + intros id o Et Hid. apply Hall. intros k. apply in_ListOrgs. eauto.
Qed.

Lemma orgs_pages_changing_witness : exists out,
  client 3 (fun k => serveOrgsList (rs_reg (if k =? 0 then demo1 else demo3)%nat) (Some root) None
                       "acme" "1") EmptyString = Some out.
Proof.
  destruct (orgs_pages_changing (fun k => if (k =? 0)%nat then demo1 else demo3) (Some root) None
    "acme" "1" 1 [mkOrg "og_A" "acme" "default" 1000; mkOrg "og_B" "acme" "ops" 1000])
    as (out & H & _).
  - intros [|k]; [apply demo1_reachable|apply demo3_reachable].
  - intros [|k]; vm_compute; eexists; reflexivity.
  - reflexivity.
  - reflexivity.
  - reflexivity.
  - intros o [->|[->|[]%elem_of_nil]%elem_of_cons]%elem_of_cons; discriminate.
  - intros k id o Ho _.
    rewrite elem_of_cons, list_elem_of_singleton.
    assert (H1 : rg_orgs (rs_reg demo1) = {["og_A" := mkOrg "og_A" "acme" "default" 1000]})
      by (vm_compute; reflexivity).
    assert (H3 : rg_orgs (rs_reg demo3) = <["og_B" := mkOrg "og_B" "acme" "ops" 1000]>
      {["og_A" := mkOrg "og_A" "acme" "default" 1000]}) by (vm_compute; reflexivity).
    destruct k as [|k]; cbn [Nat.eqb] in Ho.
    + rewrite H1 in Ho. apply lookup_singleton_Some in Ho as [_ <-]. left. reflexivity.
    + rewrite H3 in Ho. apply lookup_insert_Some in Ho as [[_ <-]|[_ Ho]]; [right; reflexivity|].
      apply lookup_singleton_Some in Ho as [_ <-]. left. reflexivity.
  - exists out. exact H.
Defined.
