(* ===== verification/Assets.v ===== *)
(** * Assets (core/assets.go, the asset part of core/store.go, the dedup table
      of core/server.go)

    The declarative put with its optimistic lock and replay of repeated
    requests, the cascading delete, the life cycle and the audit trail.

    A spec is a Go map, so that the row in the store, the copy a handler read
    and the copy it writes share one object: the model keeps the maps in a heap
    and rows hold references.  The life-cycle handler writes through the
    reference it read, outside the lock, before it knows whether its put will
    be accepted. *)
From stdpp Require Import sorting.
From S2P Require Import Prelude GoTime CPath Glob RBAC Http Tickets Routes Registry Cursor Pages.
Open Scope string_scope.
Open Scope list_scope.

(** ** Data *)

(** A decoded JSON value: a string, or something else. *)
Inductive jvalue : Type := JString (s : string) | JOther (raw : string).
#[export] Instance jvalue_eq_dec : EqDecision jvalue.
Proof. solve_decision. Defined.

Abbreviation spec := (gmap string jvalue).

(** [as_Spec] is a reference; [None] is the nil map. *)
Record Asset : Type := mkAsset {
  as_Path : string; as_Version : Z; as_Spec : option positive;
  as_CreatedAt : time; as_UpdatedAt : time }.

(** An asset as it is marshalled, to a response or to the disk. *)
Record asset_view : Type := mkView {
  av_Path : string; av_Version : Z; av_Spec : option spec;
  av_CreatedAt : time; av_UpdatedAt : time }.

Record AssetAudit : Type := mkAudit {
  aa_ID : string; aa_TS : time; aa_Principal : string; aa_Path : string;
  aa_Op : string; aa_Detail : string }.

(** A remembered response: the status and the marshalled asset. *)
Record dedupEntry : Type := mkDedup { de_status : Z; de_body : asset_view; de_expires : time }.

Record cmdb : Type := mkCmdb {
  cm_rows : gmap string Asset;
  cm_heap : gmap positive spec;
  cm_disk : gmap string asset_view;
  cm_audits : list AssetAudit;
  cm_dedup : gmap string dedupEntry }.

Inductive asset_err : Type := ErrAssetConflict | ErrHasChildren | ErrAssetSave.

Definition with_rows (st : cmdb) (rows : gmap string Asset) : cmdb :=
  mkCmdb rows (cm_heap st) (cm_disk st) (cm_audits st) (cm_dedup st).
Definition with_heap (st : cmdb) (h : gmap positive spec) : cmdb :=
  mkCmdb (cm_rows st) h (cm_disk st) (cm_audits st) (cm_dedup st).
Definition with_dedup (st : cmdb) (t : gmap string dedupEntry) : cmdb :=
  mkCmdb (cm_rows st) (cm_heap st) (cm_disk st) (cm_audits st) t.

(** ** The heap *)

Definition deref (h : gmap positive spec) (l : option positive) : option spec :=
  match l with Some l => Some (default ∅ (h !! l)) | None => None end.

Definition view_of (h : gmap positive spec) (a : Asset) : asset_view :=
  mkView (as_Path a) (as_Version a) (deref h (as_Spec a)) (as_CreatedAt a) (as_UpdatedAt a).

(** [s, _ := spec[key].(string)] *)
Definition spec_string (sp : option spec) (key : string) : string :=
  match sp ≫= lookup key with Some (JString s) => s | _ => EmptyString end.

(** [save()] writes what the rows look like now. *)
Definition saved_disk (st : cmdb) (rows : gmap string Asset) : cmdb :=
  mkCmdb rows (cm_heap st) (view_of (cm_heap st) <$> rows) (cm_audits st) (cm_dedup st).

(** ** The store *)

Definition PutAsset (st : cmdb) (a : Asset) (expectVersion : Z) (now : time) (saved : bool) :
    cmdb * result asset_err Asset :=
  match cm_rows st !! as_Path a with
  | Some cur =>
      if (0 <? expectVersion)%Z && negb (as_Version cur =? expectVersion)%Z
      then (st, Err ErrAssetConflict)
      else
        let cur' := mkAsset (as_Path cur) (as_Version cur + 1) (as_Spec a) (as_CreatedAt cur) now in
        let rows := <[as_Path a := cur']> (cm_rows st) in
        if saved then (saved_disk st rows, Ok cur')
        else (with_rows st (<[as_Path a := cur]> rows), Err ErrAssetSave)
  | None =>
      if (0 <? expectVersion)%Z then (st, Err ErrAssetConflict)
      else
        let a' := mkAsset (as_Path a) 1 (as_Spec a) now now in
        let rows := <[as_Path a := a']> (cm_rows st) in
        if saved then (saved_disk st rows, Ok a')
        else (with_rows st (delete (as_Path a) rows), Err ErrAssetSave)
  end.

(** [hasChildren] looks for the rows below a path. *)
Definition child_of (path p : string) : bool := has_prefix p (path +:+ ".").

Definition hasChildren (st : cmdb) (path : string) : list Asset :=
  sort_by as_Path (List.filter (fun a => child_of path (as_Path a)) (map_to_list (cm_rows st)).*2).

(** The deletions, one row after the other. *)
Definition delete_all (rows : gmap string Asset) (paths : list string) : gmap string Asset :=
  foldl (fun m p => delete p m) rows paths.

(** The restoring loop over the snapshot. *)
Definition restore_all (rows : gmap string Asset) (prev : list (string * Asset)) :
    gmap string Asset :=
  foldl (fun m kv => <[kv.1 := kv.2]> m) rows prev.

Definition DeleteAsset (st : cmdb) (path : string) (cascade saved : bool) :
    cmdb * result asset_err Z * Z :=
  let exists_ := cm_rows st !! path in
  let kids := hasChildren st path in
  if negb (bool_decide (is_Some exists_)) && (length kids =? 0)%nat then (st, Ok 0%Z, 0%Z)
  else if negb (length kids =? 0)%nat && negb cascade
  then (st, Err ErrHasChildren, Z.of_nat (length kids))
  else
    let prev := match exists_ with Some a => [(path, a)] | None => [] end ++
                map (fun k => (as_Path k, k)) kids in
    let rows := delete_all (cm_rows st) (map fst prev) in
    if saved then (saved_disk st rows, Ok (Z.of_nat (length prev)), 0%Z)
    else (with_rows st (restore_all rows prev), Err ErrAssetSave, 0%Z).

(** ** The dedup table *)

Definition dedup_ttl : Duration := (24 * Hour)%Z.

Definition gcLocked (t : gmap string dedupEntry) (now : time) : gmap string dedupEntry :=
  filter (fun kv => negb (de_expires kv.2 <? now)%Z = true) t.

Definition dedup_lookup (t : gmap string dedupEntry) (key : string) (now : time) :
    gmap string dedupEntry * option dedupEntry :=
  let t := gcLocked t now in
  match t !! key with
  | None => (t, None)
  | Some e => if (de_expires e <? now)%Z then (delete key t, None) else (t, Some e)
  end.

Definition dedup_remember (t : gmap string dedupEntry) (key : string) (status : Z)
    (body : asset_view) (now : time) : gmap string dedupEntry :=
  <[key := mkDedup status body (now + dedup_ttl)%Z]> t.

Definition dedup_key (path rid : string) : string := "PUT " +:+ path +:+ " " +:+ rid.

(** ** Audit *)

Definition auditPutDetail (existed : bool) (newVersion : Z) : string :=
  if negb existed then "0→1" else itoa (newVersion - 1) +:+ "→" +:+ itoa newVersion.

Definition auditDeleteDetail (cascade : bool) (n : Z) : string :=
  "cascade=" +:+ (if cascade then "true" else "false") +:+ ",n=" +:+ itoa n.

Definition auditLifecycleDetail (from to : string) : string := from +:+ "→" +:+ to.

(** What a request takes from outside: the clock, the reference of the map the
    JSON decoder allocated, the audit id, and whether the two saves succeed. *)
Record aenv : Type := mkAenv {
  ae_now : time; ae_loc : positive; ae_audit : string; ae_saved : bool; ae_audit_saved : bool }.

Definition appendAudit (st : cmdb) (auth : option Principal) (path op detail : string)
    (env : aenv) : cmdb :=
  let principal := match auth with
    | Some p => if str_eqb (p_Subject p) EmptyString then "anonymous" else p_Subject p
    | None => "anonymous" end in
  mkCmdb (cm_rows st) (cm_heap st) (cm_disk st)
    (append_saved (cm_audits st)
       (mkAudit (ae_audit env) (ae_now env) principal path op detail) (ae_audit_saved env))
    (cm_dedup st).

(** [ListAssetAudits]: one path, newest first; the order of equal times by id. *)
Definition audit_before (a b : AssetAudit) : Prop :=
  (aa_TS b < aa_TS a)%Z \/ (aa_TS a = aa_TS b /\ String.leb (aa_ID a) (aa_ID b) = true).
#[global] Instance audit_before_dec : RelDecision audit_before.
Proof. unfold audit_before. intros a b. apply _. Defined.
Definition ListAssetAudits (st : cmdb) (path : string) : list AssetAudit :=
  merge_sort audit_before (List.filter (fun a => str_eqb (aa_Path a) path) (cm_audits st)).

(** ** The life cycle *)

Definition allowedLifecycle : list string :=
  ["planned"; "installed"; "active"; "maintenance"; "retired"].
Definition defaultLifecycle : string := "planned".

Definition allowedLifecycleTransition (from to : string) : bool :=
  if str_eqb from "planned" then str_eqb to "installed"
  else if str_eqb from "installed" then str_eqb to "active"
  else if str_eqb from "active" then str_eqb to "maintenance" || str_eqb to "retired"
  else if str_eqb from "maintenance" then str_eqb to "active" || str_eqb to "retired"
  else false.

(** The life cycle a spec shows. *)
Definition lifecycle_of (sp : option spec) : string :=
  let lc := spec_string sp "lifecycle" in
  if str_eqb lc EmptyString then defaultLifecycle else lc.

(** ** Handlers *)

Section handlers.
Context (d : Dict).

Definition leaf_type (ap : AssetPath) : string :=
  n_Type (List.last (ap_Nodes ap) (mkNode EmptyString EmptyString)).

Definition bad_asset_path : problem := Problem 400 "bad-path" "bad asset path".
Definition asset_not_found : problem := Problem 404 "path-not-found" "asset path not found".
Definition version_conflict : problem := Problem 409 "conflict" "resource version conflict".

Record putAssetRequest : Type := mkPutAsset {
  pa_Spec : option spec; pa_ResourceVersion : Z; pa_RequestID : string }.

(** The validation of a put: the spec that will be stored. *)
Definition put_spec (path : string) (req : putAssetRequest) : result problem spec :=
  match ParseAssetPath d path with
  | Err _ => Err bad_asset_path
  | Ok ap =>
      let specType := spec_string (pa_Spec req) "type" in
      if str_eqb specType EmptyString then Err (bad_request "spec.type is required")
      else if negb (str_eqb specType (leaf_type ap))
      then Err (bad_request "spec.type does not match path leaf")
      else
        let sp := default ∅ (pa_Spec req) in
        match sp !! "lifecycle" with
        | None => Ok (<["lifecycle" := JString defaultLifecycle]> sp)
        | Some (JString lc) =>
            if negb (contains_string allowedLifecycle lc) then Err (bad_request "bad lifecycle")
            else Ok sp
        | Some (JOther _) => Err (bad_request "spec.lifecycle must be a string")
        end
  end.

(** The first half of a put: a replay, a refusal, or a validated spec in the
    heap that waits to be stored. *)
Inductive put_start : Type :=
  | PutReplay (status : Z) (body : asset_view)
  | PutRefused (p : problem)
  | PutGo (loc : positive) (existed : bool).

Definition put_begin (st : cmdb) (path : string) (body : option putAssetRequest) (env : aenv) :
    cmdb * put_start :=
  match body with
  | None => (st, PutRefused (bad_request "bad json"))
  | Some req =>
      let '(st, hit) :=
        if str_eqb (pa_RequestID req) EmptyString then (st, None)
        else
          let '(t, e) := dedup_lookup (cm_dedup st) (dedup_key path (pa_RequestID req)) (ae_now env) in
          (with_dedup st t, e) in
      match hit with
      | Some e => (st, PutReplay (de_status e) (de_body e))
      | None =>
          match put_spec path req with
          | Err p => (st, PutRefused p)
          | Ok sp =>
              (with_heap st (<[ae_loc env := sp]> (cm_heap st)),
               PutGo (ae_loc env) (bool_decide (is_Some (cm_rows st !! path))))
          end
      end
  end.

(** The second half: store, audit, remember, answer. *)
Definition put_finish (st : cmdb) (auth : option Principal) (path : string) (loc : positive)
    (existed : bool) (expect : Z) (rid : string) (env : aenv) :
    cmdb * result problem (Z * asset_view) :=
  match PutAsset st (mkAsset path 0 (Some loc) zero_time zero_time) expect (ae_now env)
          (ae_saved env) with
  | (st', Err ErrAssetConflict) => (st', Err version_conflict)
  | (st', Err _) => (st', Err store_error)
  | (st', Ok out) =>
      let status := if existed then 200%Z else 201%Z in
      let st' := appendAudit st' auth path "put" (auditPutDetail existed (as_Version out)) env in
      let body := view_of (cm_heap st') out in
      let st' := if str_eqb rid EmptyString then st'
                 else with_dedup st' (dedup_remember (cm_dedup st') (dedup_key path rid) status body
                        (ae_now env)) in
      (st', Ok (status, body))
  end.

Definition putAsset (st : cmdb) (auth : option Principal) (path : string)
    (body : option putAssetRequest) (env : aenv) : cmdb * result problem (Z * asset_view) :=
  match put_begin st path body env with
  | (st', PutReplay status v) => (st', Ok (status, v))
  | (st', PutRefused p) => (st', Err p)
  | (st', PutGo loc existed) =>
      put_finish st' auth path loc existed
        (match body with Some req => pa_ResourceVersion req | None => 0%Z end)
        (match body with Some req => pa_RequestID req | None => EmptyString end) env
  end.

Definition getAsset (st : cmdb) (path : string) : result problem asset_view :=
  match ParseAssetPath d path with
  | Err _ => Err bad_asset_path
  | Ok _ => match cm_rows st !! path with
            | None => Err asset_not_found
            | Some a => Ok (view_of (cm_heap st) a)
            end
  end.

Definition deleteAsset (st : cmdb) (auth : option Principal) (path : string) (cascade : bool)
    (env : aenv) : cmdb * result problem Z :=
  match ParseAssetPath d path with
  | Err _ => (st, Err bad_asset_path)
  | Ok _ =>
      match DeleteAsset st path cascade (ae_saved env) with
      | (st', Err ErrHasChildren, _) => (st', Err (Problem 409 "conflict" "asset has children"))
      | (st', Err _, _) => (st', Err store_error)
      | (st', Ok n, _) =>
          if (n =? 0)%Z then (st', Err asset_not_found)
          else (appendAudit st' auth path "delete" (auditDeleteDetail cascade n) env, Ok n)
      end
  end.

(** *** The life-cycle request in three steps *)

(** It reads the row and decides; the copy holds the store's own map. *)
Definition life_read (st : cmdb) (path : string) (body : option string) :
    result problem (Asset * string * string) :=
  match ParseAssetPath d path with
  | Err _ => Err bad_asset_path
  | Ok _ =>
      match body with
      | None => Err (bad_request "bad json")
      | Some to =>
          if negb (contains_string allowedLifecycle to)
          then Err (Problem 422 "invalid-transition" "invalid lifecycle value")
          else match cm_rows st !! path with
          | None => Err asset_not_found
          | Some a =>
              let cur := lifecycle_of (deref (cm_heap st) (as_Spec a)) in
              if negb (allowedLifecycleTransition cur to)
              then Err (Problem 422 "invalid-transition" "illegal lifecycle transition")
              else Ok (a, cur, to)
          end
      end
  end.

(** It writes the new value through the reference. *)
Definition life_mutate (st : cmdb) (a : Asset) (to : string) (env : aenv) : cmdb * Asset :=
  match as_Spec a with
  | None =>
      (with_heap st (<[ae_loc env := {["lifecycle" := JString to]}]> (cm_heap st)),
       mkAsset (as_Path a) (as_Version a) (Some (ae_loc env)) (as_CreatedAt a) (as_UpdatedAt a))
  | Some l =>
      (with_heap st (alter <["lifecycle" := JString to]> l (cm_heap st)), a)
  end.

(** It puts the copy under the version it read. *)
Definition life_write (st : cmdb) (auth : option Principal) (path : string) (a : Asset)
    (cur to : string) (env : aenv) : cmdb * result problem asset_view :=
  match PutAsset st a (as_Version a) (ae_now env) (ae_saved env) with
  | (st', Err ErrAssetConflict) => (st', Err version_conflict)
  | (st', Err _) => (st', Err store_error)
  | (st', Ok out) =>
      let st' := appendAudit st' auth path "lifecycle" (auditLifecycleDetail cur to) env in
      (st', Ok (view_of (cm_heap st') out))
  end.

Definition serveAssetLifecycle (st : cmdb) (auth : option Principal) (path : string)
    (body : option string) (env : aenv) : cmdb * result problem asset_view :=
  match life_read st path body with
  | Err p => (st, Err p)
  | Ok (a, cur, to) =>
      let '(st', a') := life_mutate st a to env in
      life_write st' auth path a' cur to env
  end.

(** *** Reads *)

Definition out_of_scope : problem := Problem 403 "forbidden" "out of scope".

Definition serveAssetHistory (st : cmdb) (mt : meter) (auth : option Principal) (path : string) :
    meter * result problem (list AssetAudit) :=
  match ParseAssetPath d path with
  | Err _ => (mt, Err bad_asset_path)
  | Ok _ =>
      let '(mt', ok) := visible mt auth path in
      (mt', if ok then Ok (ListAssetAudits st path) else Err out_of_scope)
  end.

Record assetQuery : Type := mkAssetQuery {
  qa_limit : string; qa_page_size : string; qa_order_by : string; qa_filter : string;
  qa_page_token : string; qa_type : string; qa_lifecycle : string; qa_prefix : string }.

Definition ListAssets (st : cmdb) : list Asset :=
  sort_by as_Path (map_to_list (cm_rows st)).*2.

(** [limit] wins over [page_size]. *)
Definition asset_page_size (q : assetQuery) : result problem Z :=
  if negb (str_eqb (qa_limit q) EmptyString) then
    match Atoi (qa_limit q) with
    | None => Err (bad_request "bad limit")
    | Some n => if (n <=? 0)%Z then Err (bad_request "bad limit")
                else if (MaxPageSize <? n)%Z then Err (bad_request "limit > 1000") else Ok n
    end
  else parsePageSize (qa_page_size q).

(** The filters of the loop, in its order; the scope check comes last. *)
Definition asset_wanted (h : gmap positive spec) (q : assetQuery) (glob : Glob)
    (after : string) (a : Asset) : bool :=
  after_key as_Path after a &&
  (str_eqb (qa_type q) EmptyString ||
   match ParseAssetPath d (as_Path a) with
   | Err _ => false
   | Ok ap => str_eqb (leaf_type ap) (qa_type q)
   end) &&
  (str_eqb (qa_lifecycle q) EmptyString ||
   str_eqb (lifecycle_of (deref h (as_Spec a))) (qa_lifecycle q)) &&
  (str_eqb (qa_prefix q) EmptyString || has_prefix (as_Path a) (qa_prefix q)) &&
  Match glob (as_Path a).

Definition listAssets (st : cmdb) (mt : meter) (auth : option Principal) (q : assetQuery) :
    meter * result problem (list Asset * string) :=
  match asset_page_size q with
  | Err p => (mt, Err p)
  | Ok pageSize =>
      if negb (str_eqb (qa_order_by q) EmptyString) && negb (str_eqb (qa_order_by q) "path")
      then (mt, Err (bad_request "order_by must be path"))
      else
        match CompileGlob (if str_eqb (qa_filter q) EmptyString then "**" else qa_filter q) with
        | Err _ => (mt, Err (bad_request "bad filter"))
        | Ok glob =>
            match (if str_eqb (qa_page_token q) EmptyString then Some EmptyString
                   else decodePageToken (qa_page_token q)) with
            | None => (mt, Err bad_token)
            | Some after =>
                if negb (str_eqb (qa_lifecycle q) EmptyString) &&
                   negb (contains_string allowedLifecycle (qa_lifecycle q))
                then (mt, Err (bad_request "bad lifecycle"))
                else
                  let '(mt', items) := filter_visible mt auth
                    (asset_wanted (cm_heap st) q glob after) as_Path (ListAssets st) in
                  (mt', Ok (cut_page as_Path encodePageToken pageSize items))
            end
        end
  end.

(** ** Interleaving

    A request in flight has done its first step. *)

Inductive aflight : Type :=
  | FPut (auth : option Principal) (path : string) (loc : positive) (existed : bool)
      (expect : Z) (rid : string)
  | FLifeRead (auth : option Principal) (path : string) (a : Asset) (cur to : string)
  | FLifeWrite (auth : option Principal) (path : string) (a : Asset) (cur to : string).

(** [ay_used] are the references given out so far. *)
Record asys : Type := mkAsys { ay_st : cmdb; ay_flight : list aflight; ay_used : gset positive }.

Inductive astep : time -> asys -> asys -> Prop :=
  | as_put_go st fs used auth path req env st' loc existed :
      ae_loc env ∉ used -> put_begin st path (Some req) env = (st', PutGo loc existed) ->
      astep (ae_now env) (mkAsys st fs used)
        (mkAsys st' (fs ++ [FPut auth path loc existed (pa_ResourceVersion req) (pa_RequestID req)])
           ({[loc]} ∪ used))
  | as_put_done st fs used path body env st' r :
      put_begin st path body env = (st', r) -> (forall loc e, r <> PutGo loc e) ->
      astep (ae_now env) (mkAsys st fs used) (mkAsys st' fs used)
  | as_put_finish st fs used i auth path loc existed expect rid env :
      fs !! i = Some (FPut auth path loc existed expect rid) ->
      astep (ae_now env) (mkAsys st fs used)
        (mkAsys (put_finish st auth path loc existed expect rid env).1 (delete i fs) used)
  | as_delete st fs used auth path cascade env :
      astep (ae_now env) (mkAsys st fs used) (mkAsys (deleteAsset st auth path cascade env).1 fs used)
  | as_life_read st fs used auth path body a cur to now :
      life_read st path body = Ok (a, cur, to) ->
      astep now (mkAsys st fs used) (mkAsys st (fs ++ [FLifeRead auth path a cur to]) used)
  | as_life_mutate st fs used i auth path a cur to env :
      fs !! i = Some (FLifeRead auth path a cur to) -> ae_loc env ∉ used ->
      astep (ae_now env) (mkAsys st fs used)
        (mkAsys (life_mutate st a to env).1
           (<[i := FLifeWrite auth path (life_mutate st a to env).2 cur to]> fs)
           ({[ae_loc env]} ∪ used))
  | as_life_write st fs used i auth path a cur to env :
      fs !! i = Some (FLifeWrite auth path a cur to) ->
      astep (ae_now env) (mkAsys st fs used)
        (mkAsys (life_write st auth path a cur to env).1 (delete i fs) used)
  | as_drop st fs used i now :
      astep now (mkAsys st fs used) (mkAsys st (delete i fs) used).

(** Started from an empty store. *)
Inductive areachable : asys -> Prop :=
  | ar_init : areachable (mkAsys (mkCmdb ∅ ∅ ∅ [] ∅) [] ∅)
  | ar_step now y y' : areachable y -> astep now y y' -> areachable y'.
End handlers.

(** ** What the put and the delete do to the rows *)

Lemma PutAsset_inv st a expect now saved st' r :
  PutAsset st a expect now saved = (st', r) ->
  match r with
  | Err _ => st' = st
  | Ok a' =>
      saved = true /\ st' = saved_disk st (<[as_Path a := a']> (cm_rows st)) /\
      as_Spec a' = as_Spec a /\ as_UpdatedAt a' = now /\
      match cm_rows st !! as_Path a with
      | Some cur => as_Path a' = as_Path cur /\ as_Version a' = (as_Version cur + 1)%Z /\
          as_CreatedAt a' = as_CreatedAt cur /\ ((0 < expect)%Z -> as_Version cur = expect)
      | None => as_Path a' = as_Path a /\ as_Version a' = 1%Z /\ as_CreatedAt a' = now /\
          ~ (0 < expect)%Z
      end
  end.
Proof.
  unfold PutAsset. destruct (cm_rows st !! as_Path a) as [cur|] eqn:Hcur.
  - destruct (_ && _) eqn:Hc; [by intros [= <- <-]|].
    destruct saved; intros [= <- <-].
    + repeat split; try done. intros He. apply andb_false_iff in Hc as [Hc|Hc].
      * by apply Z.ltb_ge in Hc; lia.
      * apply negb_false_iff in Hc. by apply Z.eqb_eq in Hc.
    + rewrite undo_update by done. by destruct st.
  - destruct (Z.ltb_spec 0 expect); [by intros [= <- <-]|].
    destruct saved; intros [= <- <-].
    + repeat split; try done. lia.
    + rewrite undo_insert by done. by destruct st.
Qed.

(** *** Deleting *)

Lemma lookup_delete_all rows paths p :
  delete_all rows paths !! p = if decide (p ∈ paths) then None else rows !! p.
Proof.
  unfold delete_all. revert rows. induction paths as [|q paths IH]; intros rows; cbn [foldl].
  - by rewrite decide_False by apply not_elem_of_nil.
  - rewrite IH. destruct (decide (p ∈ paths)) as [Hin|Hin].
    + by rewrite decide_True by (by right).
    + destruct (decide (p = q)) as [->|Hne].
      * rewrite lookup_delete_eq. by rewrite decide_True by (by left).
      * rewrite lookup_delete_ne by done. rewrite decide_False; [done|].
        by intros [?|?]%elem_of_cons.
Qed.

Lemma lookup_restore_all rows prev p :
  NoDup (map fst prev) ->
  restore_all rows prev !! p =
    match (list_to_map prev : gmap string Asset) !! p with Some a => Some a | None => rows !! p end.
Proof.
  unfold restore_all. revert rows. induction prev as [|[q a] prev IH]; intros rows Hn; cbn [foldl].
  - cbn. by rewrite lookup_empty.
  - cbn [map fst] in Hn. apply NoDup_cons in Hn as [Hq Hn]. rewrite IH by done. cbn [list_to_map foldr].
    destruct (decide (p = q)) as [->|Hne].
    + rewrite lookup_insert_eq. rewrite not_elem_of_list_to_map_1; [|exact Hq].
      by rewrite lookup_insert_eq.
    + by rewrite !lookup_insert_ne by done.
Qed.

(** Every row is stored under its path. *)
Definition paths_ok (rows : gmap string Asset) : Prop :=
  forall p a, rows !! p = Some a -> as_Path a = p.

Lemma child_of_not_self path : child_of path path = false.
Proof.
  unfold child_of. apply not_true_iff_false. intros H. apply has_prefix_split in H as [rest H].
  apply (f_equal str_len) in H. rewrite !str_len_app in H. cbn in H. lia.
Qed.

Lemma in_hasChildren st path a : paths_ok (cm_rows st) ->
  a ∈ hasChildren st path <-> cm_rows st !! as_Path a = Some a /\ child_of path (as_Path a) = true.
Proof.
  intros Hp. unfold hasChildren. rewrite sort_by_perm, in_filter, in_rows. split.
  - intros [[k Hk] Hc]. by rewrite (Hp _ _ Hk) in *.
  - intros [Hk Hc]. eauto.
Qed.

Lemma hasChildren_NoDup st path : paths_ok (cm_rows st) -> NoDup (map as_Path (hasChildren st path)).
Proof.
  intros Hp. unfold hasChildren. rewrite sort_by_perm. apply NoDup_map_filter.
  by apply map_rows_keys.
Qed.

(** The snapshot of a deletion. *)
Definition doomed (st : cmdb) (path : string) : list (string * Asset) :=
  match cm_rows st !! path with Some a => [(path, a)] | None => [] end ++
  map (fun k => (as_Path k, k)) (hasChildren st path).

Lemma in_doomed st path p a : paths_ok (cm_rows st) ->
  (p, a) ∈ doomed st path <->
  cm_rows st !! p = Some a /\ (p = path \/ child_of path p = true).
Proof.
  intros Hp. unfold doomed. rewrite elem_of_app. split.
  - intros [H|H].
    + destruct (cm_rows st !! path) as [x|] eqn:E; [|by apply elem_of_nil in H].
      apply list_elem_of_singleton in H as [= -> ->]. auto.
    + apply list_elem_of_In, in_map_iff in H as (k & [= <- <-] & Hk%list_elem_of_In).
      apply in_hasChildren in Hk; [|done]. destruct Hk. auto.
  - intros [H [->|Hc]]; [left; rewrite H; by left|right].
    apply list_elem_of_In, in_map_iff. exists a. rewrite (Hp _ _ H). split; [done|].
    apply list_elem_of_In, in_hasChildren; [done|]. by rewrite (Hp _ _ H).
Qed.

Lemma doomed_NoDup st path : paths_ok (cm_rows st) -> NoDup (map fst (doomed st path)).
Proof.
  intros Hp. unfold doomed. rewrite map_app, map_map. cbn [fst].
  pose proof (hasChildren_NoDup st path Hp) as Hn.
  destruct (cm_rows st !! path) as [x|]; [|done]. cbn. apply NoDup_cons. split; [|done].
  intros H. apply list_elem_of_In, in_map_iff in H as (k & E & Hk%list_elem_of_In).
  apply in_hasChildren in Hk as [_ Hc]; [|done]. rewrite E in Hc. by rewrite child_of_not_self in Hc.
Qed.

Lemma doomed_paths st path p : paths_ok (cm_rows st) ->
  p ∈ map fst (doomed st path) <->
  is_Some (cm_rows st !! p) /\ (p = path \/ child_of path p = true).
Proof.
  intros Hp. rewrite list_elem_of_In, in_map_iff. split.
  - intros ([q a] & <- & [H Hc]%list_elem_of_In%in_doomed); [|done]. cbn. by rewrite H.
  - intros [[a H] Hc]. exists (p, a). split; [done|]. by apply list_elem_of_In, in_doomed.
Qed.

(** The rows that a deletion leaves: everything but the path and what is below. *)
Definition pruned (rows : gmap string Asset) (path : string) : gmap string Asset :=
  filter (fun kv => (str_eqb kv.1 path || child_of path kv.1) = false) rows.

Lemma delete_doomed st path : paths_ok (cm_rows st) ->
  delete_all (cm_rows st) (map fst (doomed st path)) = pruned (cm_rows st) path.
Proof.
  intros Hp. apply map_eq. intros p. rewrite lookup_delete_all. unfold pruned.
  rewrite map_lookup_filter.
  destruct (decide (p ∈ map fst (doomed st path))) as [Hin|Hin]; rewrite doomed_paths in Hin by done.
  - destruct Hin as [[a ->] Hc]. cbn. rewrite option_guard_False; [done|]. cbn.
    destruct Hc as [->|Hc]; [by rewrite str_eqb_refl|by rewrite Hc, orb_true_r].
  - destruct (cm_rows st !! p) as [a|] eqn:E; [|done]. cbn. rewrite option_guard_True; [done|]. cbn.
    apply orb_false_iff. split; apply not_true_iff_false; intros H; apply Hin; (split; [done|]).
    + left. by apply str_eqb_eq.
    + by right.
Qed.

(** A failed save puts every row back. *)
Lemma restore_doomed st path : paths_ok (cm_rows st) ->
  restore_all (delete_all (cm_rows st) (map fst (doomed st path))) (doomed st path) = cm_rows st.
Proof.
  intros Hp. apply map_eq. intros p. rewrite lookup_restore_all by (by apply doomed_NoDup).
  rewrite lookup_delete_all.
  destruct ((list_to_map (doomed st path) : gmap string Asset) !! p) as [a|] eqn:E.
  - apply elem_of_list_to_map in E; [|by apply doomed_NoDup]. by apply in_doomed in E as [-> _].
  - apply not_elem_of_list_to_map in E.
    rewrite decide_False; [done|]. exact E.
Qed.

(** The rows a deletion removes. *)
Definition subtree (rows : gmap string Asset) (path : string) : gmap string Asset :=
  filter (fun kv => (str_eqb kv.1 path || child_of path kv.1) = true) rows.

Lemma doomed_subtree st path : paths_ok (cm_rows st) ->
  (list_to_map (doomed st path) : gmap string Asset) = subtree (cm_rows st) path.
Proof.
  intros Hp. apply map_eq. intros p. apply option_eq. intros a. unfold subtree.
  rewrite map_lookup_filter_Some. rewrite <- elem_of_list_to_map by (by apply doomed_NoDup).
  rewrite in_doomed by done. cbn. by rewrite orb_true_iff, str_eqb_eq.
Qed.

Lemma doomed_size st path : paths_ok (cm_rows st) ->
  length (doomed st path) = size (subtree (cm_rows st) path).
Proof.
  intros Hp. rewrite <- doomed_subtree by done. rewrite map_size_list_to_map; [done|].
  by apply doomed_NoDup.
Qed.

Lemma hasChildren_nil st path : paths_ok (cm_rows st) ->
  hasChildren st path = [] <-> (forall p, is_Some (cm_rows st !! p) -> child_of path p = false).
Proof.
  intros Hp. split.
  - intros H p [a Ha]. apply not_true_iff_false. intros Hc.
    assert (a ∈ hasChildren st path) as Hin
      by (apply in_hasChildren; [done|]; by rewrite (Hp _ _ Ha)).
    rewrite H in Hin. by apply elem_of_nil in Hin.
  - intros H. destruct (hasChildren st path) as [|a l] eqn:E; [done|].
    assert (a ∈ hasChildren st path) as Hin by (rewrite E; by left).
    apply in_hasChildren in Hin as [Ha Hc]; [|done]. rewrite H in Hc; [done|by eexists].
Qed.

(** [DeleteAsset] on every branch. *)
Lemma DeleteAsset_spec st path cascade saved : paths_ok (cm_rows st) ->
  DeleteAsset st path cascade saved =
    if (length (doomed st path) =? 0)%nat then (st, Ok 0%Z, 0%Z)
    else if negb (length (hasChildren st path) =? 0)%nat && negb cascade
    then (st, Err ErrHasChildren, Z.of_nat (length (hasChildren st path)))
    else if saved then (saved_disk st (pruned (cm_rows st) path),
                        Ok (Z.of_nat (length (doomed st path))), 0%Z)
    else (st, Err ErrAssetSave, 0%Z).
Proof.
  intros Hp. unfold DeleteAsset. fold (doomed st path).
  assert (negb (bool_decide (is_Some (cm_rows st !! path))) && (length (hasChildren st path) =? 0)%nat
    = (length (doomed st path) =? 0)%nat) as ->.
  { unfold doomed. rewrite length_app, length_map. by destruct (cm_rows st !! path). }
  destruct (length (doomed st path) =? 0)%nat; [done|]. destruct (_ && _); [done|].
  rewrite delete_doomed by done. destruct saved; [done|].
  rewrite <- delete_doomed, restore_doomed by done. by destruct st.
Qed.

(** ** Rows, maps and requests in flight *)

Section invariant.
Context (d : Dict).

(** A spec that may be stored under a path. *)
Definition spec_ok (path : string) (sp : spec) : Prop :=
  exists ap lc, ParseAssetPath d path = Ok ap /\
    sp !! "type" = Some (JString (leaf_type ap)) /\
    sp !! "lifecycle" = Some (JString lc) /\ In lc allowedLifecycle.

(** [owner] tells for which path a map was made: no two paths share one. *)
Definition owned (owner : gmap positive string) (st : cmdb) (l : positive) (path : string) : Prop :=
  owner !! l = Some path /\ exists sp, cm_heap st !! l = Some sp /\ spec_ok path sp.

Definition copy_ok (owner : gmap positive string) (st : cmdb) (path : string) (a : Asset) : Prop :=
  as_Path a = path /\ (1 <= as_Version a)%Z /\
  exists l, as_Spec a = Some l /\ owned owner st l path.

Definition aflight_ok (owner : gmap positive string) (st : cmdb) (f : aflight) : Prop :=
  match f with
  | FPut _ path loc _ _ _ => owned owner st loc path
  | FLifeRead _ path a _ to | FLifeWrite _ path a _ to =>
      copy_ok owner st path a /\ In to allowedLifecycle
  end.

Record asys_ok (owner : gmap positive string) (y : asys) : Prop := {
  ao_rows : forall p a, cm_rows (ay_st y) !! p = Some a -> copy_ok owner (ay_st y) p a;
  ao_flight : forall f, f ∈ ay_flight y -> aflight_ok owner (ay_st y) f;
  ao_used : forall l p, owner !! l = Some p -> l ∈ ay_used y
}.

Lemma owned_mono owner owner' st st' l p :
  (forall l p, owner !! l = Some p -> owner' !! l = Some p) ->
  (forall l sp p, owner !! l = Some p -> cm_heap st !! l = Some sp -> spec_ok p sp ->
     exists sp', cm_heap st' !! l = Some sp' /\ spec_ok p sp') ->
  owned owner st l p -> owned owner' st' l p.
Proof. intros Ho Hh (H1 & sp & H2 & H3). split; [by apply Ho|]. by eapply Hh. Qed.

Lemma copy_ok_mono owner owner' st st' p a :
  (forall l, owned owner st l p -> owned owner' st' l p) ->
  copy_ok owner st p a -> copy_ok owner' st' p a.
Proof. intros Ho (H1 & H2 & l & H3 & H4). repeat split; eauto. Qed.

Lemma aflight_ok_mono owner owner' st st' f :
  (forall l p, owned owner st l p -> owned owner' st' l p) ->
  aflight_ok owner st f -> aflight_ok owner' st' f.
Proof.
  intros Ho. destruct f; cbn; [apply Ho| |];
    (intros [H ?]; split; [by eapply copy_ok_mono; [intros l; apply Ho|]|done]).
Qed.

(** The step to a system whose maps are kept or only become other valid maps. *)
Lemma asys_ok_step owner owner' y y' :
  asys_ok owner y ->
  (forall l p, owned owner (ay_st y) l p -> owned owner' (ay_st y') l p) ->
  (forall p a, cm_rows (ay_st y') !! p = Some a ->
     cm_rows (ay_st y) !! p = Some a \/ copy_ok owner' (ay_st y') p a) ->
  (forall f, f ∈ ay_flight y' -> f ∈ ay_flight y \/ aflight_ok owner' (ay_st y') f) ->
  (forall l p, owner' !! l = Some p -> l ∈ ay_used y') ->
  asys_ok owner' y'.
Proof.
  intros [Hr Hf Hu] Ho Hr' Hf' Hu'. split; [| |done].
  - intros p a H. destruct (Hr' p a H) as [?|?]; [|done].
    eapply copy_ok_mono; [intros l; apply Ho|]. by apply Hr.
  - intros f H. destruct (Hf' f H) as [?|?]; [|done].
    eapply aflight_ok_mono; [apply Ho|]. by apply Hf.
Qed.

Lemma owned_heap owner st st' l p :
  cm_heap st' = cm_heap st -> owned owner st l p -> owned owner st' l p.
Proof. intros E (H1 & sp & H2 & H3). split; [done|]. exists sp. by rewrite E. Qed.

Lemma copy_ok_heap owner st st' p a :
  cm_heap st' = cm_heap st -> copy_ok owner st p a -> copy_ok owner st' p a.
Proof. intros E. apply copy_ok_mono. intros l. by apply owned_heap. Qed.

(** Put and audit leave the heap alone; the row becomes the copy. *)
Lemma PutAsset_rows owner st a expect now saved st' r p :
  PutAsset st a expect now saved = (st', r) ->
  (forall q x, cm_rows st !! q = Some x -> copy_ok owner st q x) ->
  as_Path a = p -> (exists l, as_Spec a = Some l /\ owned owner st l p) ->
  cm_heap st' = cm_heap st /\
  forall q x, cm_rows st' !! q = Some x -> cm_rows st !! q = Some x \/ copy_ok owner st' q x.
Proof.
  intros H Hrows <- (l & Hl & Hown). apply PutAsset_inv in H. destruct r as [a'|e].
  - destruct H as (_ & -> & Hs & _ & Hcur). split; [done|]. cbn [saved_disk cm_rows].
    intros q x [[<- <-]|[_ Hq]]%lookup_insert_Some; [right|by left].
    split; [|split].
    + destruct (cm_rows st !! as_Path a) as [cur|] eqn:E; [|by destruct Hcur as (-> & _)].
      destruct Hcur as (-> & _). by destruct (Hrows _ _ E).
    + destruct (cm_rows st !! as_Path a) as [cur|] eqn:E.
      * destruct Hcur as (_ & -> & _). destruct (Hrows _ _ E) as (_ & ? & _). lia.
      * by destruct Hcur as (_ & -> & _).
    + exists l. rewrite Hs. split; [done|]. by eapply owned_heap; [|exact Hown].
  - subst. split; [done|]. by left.
Qed.

Lemma put_finish_heap st auth path loc existed expect rid env st1 r1 :
  PutAsset st (mkAsset path 0 (Some loc) zero_time zero_time) expect (ae_now env) (ae_saved env)
    = (st1, r1) ->
  let st' := (put_finish st auth path loc existed expect rid env).1 in
  cm_heap st' = cm_heap st1 /\ cm_rows st' = cm_rows st1.
Proof.
  intros E. unfold put_finish. rewrite E. destruct r1 as [out|[]]; cbn; [|done..].
  by destruct (str_eqb rid EmptyString).
Qed.

Lemma life_write_heap st auth path a cur to env st1 r1 :
  PutAsset st a (as_Version a) (ae_now env) (ae_saved env) = (st1, r1) ->
  let st' := (life_write st auth path a cur to env).1 in
  cm_heap st' = cm_heap st1 /\ cm_rows st' = cm_rows st1.
Proof. intros E. unfold life_write. rewrite E. by destruct r1 as [out|[]]. Qed.

Lemma put_spec_ok path req sp : put_spec d path req = Ok sp -> spec_ok path sp.
Proof.
  unfold put_spec. destruct (ParseAssetPath d path) as [ap|] eqn:Hp; [|done].
  destruct (str_eqb _ EmptyString) eqn:He; [done|]. destruct (str_eqb _ (leaf_type ap)) eqn:Ht; [|done].
  cbn [negb]. apply str_eqb_eq in Ht. apply str_eqb_neq in He.
  assert (default ∅ (pa_Spec req) !! "type" = Some (JString (leaf_type ap))) as Hty.
  { unfold spec_string in *. destruct (pa_Spec req) as [s|]; [|done]. cbn in *.
    destruct (s !! "type") as [[x|]|]; cbn in *; congruence. }
  destruct (default ∅ (pa_Spec req) !! "lifecycle") as [[lc|raw]|] eqn:Hl; [|done|].
  - destruct (contains_string allowedLifecycle lc) eqn:Hc; [|done]. cbn [negb].
    intros <-%Ok_inj. exists ap, lc. repeat split; try done. by apply contains_string_In.
  - intros <-%Ok_inj. exists ap, defaultLifecycle. split; [done|].
    rewrite lookup_insert_ne by done. split; [done|]. rewrite lookup_insert_eq. split; [done|by left].
Qed.

Lemma put_begin_go st path req env st' loc existed :
  put_begin d st path (Some req) env = (st', PutGo loc existed) ->
  exists sp, put_spec d path req = Ok sp /\ loc = ae_loc env /\
    cm_rows st' = cm_rows st /\ cm_heap st' = <[loc := sp]> (cm_heap st).
Proof.
  unfold put_begin. destruct (str_eqb _ _).
  - destruct (put_spec d path req) as [sp|]; [|done]. intros [= <- <- <-]. by exists sp.
  - destruct (dedup_lookup _ _ _) as [t [e|]]; [done|].
    destruct (put_spec d path req) as [sp|]; [|done]. intros [= <- <- <-]. by exists sp.
Qed.

Lemma put_begin_done st path body env st' r :
  put_begin d st path body env = (st', r) -> (forall loc e, r <> PutGo loc e) ->
  cm_rows st' = cm_rows st /\ cm_heap st' = cm_heap st.
Proof.
  unfold put_begin. intros H Hr. destruct body as [req|]; [|by injection H as <- <-].
  destruct (str_eqb _ _).
  - destruct (put_spec d path req) as [sp|]; injection H as <- <-; [by destruct (Hr _ _ eq_refl)|done].
  - destruct (dedup_lookup _ _ _) as [t [e|]]; [by injection H as <- <-|].
    destruct (put_spec d path req) as [sp|]; injection H as <- <-; [by destruct (Hr _ _ eq_refl)|done].
Qed.

Lemma allowed_transition_to from to : allowedLifecycleTransition from to = true ->
  In from allowedLifecycle /\ In to allowedLifecycle /\ from <> to.
Proof.
  unfold allowedLifecycleTransition.
  repeat (let E := fresh in destruct (str_eqb from _) eqn:E; [apply str_eqb_eq in E as ->|clear E]);
    [..|done]; rewrite ?orb_true_iff, ?str_eqb_eq; intros H;
    repeat match goal with H : _ \/ _ |- _ => destruct H end; subst; cbn; auto 10.
Qed.

Lemma spec_ok_lifecycle path sp to : spec_ok path sp -> In to allowedLifecycle ->
  spec_ok path (<["lifecycle" := JString to]> sp).
Proof.
  intros (ap & lc & H1 & H2 & H3 & H4) Hto. exists ap, to. split; [done|].
  rewrite lookup_insert_ne by done. split; [done|]. by rewrite lookup_insert_eq.
Qed.

(** *** Every step keeps the invariant *)

(** A new map gets an owner. *)
Lemma owned_alloc owner st h loc path sp l p :
  owner !! loc = None -> h = <[loc := sp]> (cm_heap st) ->
  owned owner st l p -> owned (<[loc := path]> owner) (with_heap st h) l p.
Proof.
  intros Hn -> (H1 & s & H2 & H3). split.
  - rewrite lookup_insert_ne by congruence. done.
  - exists s. cbn. rewrite lookup_insert_ne by congruence. done.
Qed.

Lemma owned_new owner st loc path sp :
  spec_ok path sp -> owned (<[loc := path]> owner) (with_heap st (<[loc := sp]> (cm_heap st))) loc path.
Proof.
  intros H. split; [apply lookup_insert_eq|]. exists sp. split; [apply lookup_insert_eq|done].
Qed.

(** Writing a life cycle through a reference keeps every map valid. *)
Lemma owned_mutate owner st l0 to l p :
  In to allowedLifecycle -> owned owner st l p ->
  owned owner (with_heap st (alter <["lifecycle" := JString to]> l0 (cm_heap st))) l p.
Proof.
  intros Hto (H1 & s & H2 & H3). split; [done|]. cbn.
  destruct (decide (l = l0)) as [->|Hne].
  - exists (<["lifecycle" := JString to]> s). rewrite lookup_alter_eq, H2. split; [done|].
    by apply spec_ok_lifecycle.
  - exists s. by rewrite lookup_alter_ne.
Qed.

Lemma fresh_loc owner y l : asys_ok owner y -> l ∉ ay_used y -> owner !! l = None.
Proof.
  intros Hok Hn. destruct (owner !! l) as [p|] eqn:E; [|done]. by destruct Hn; eapply (ao_used _ _ Hok).
Qed.

Lemma owned_same_heap owner st st' : cm_heap st' = cm_heap st ->
  forall l p, owned owner st l p -> owned owner st' l p.
Proof. intros E l p. by apply owned_heap. Qed.

(** The write half of a put or life cycle. *)
Lemma step_write owner st fs used a expect now saved st1 r1 st' path i :
  asys_ok owner (mkAsys st fs used) -> PutAsset st a expect now saved = (st1, r1) ->
  cm_heap st' = cm_heap st1 -> cm_rows st' = cm_rows st1 ->
  as_Path a = path -> (exists l, as_Spec a = Some l /\ owned owner st l path) ->
  asys_ok owner (mkAsys st' (delete i fs) used).
Proof.
  intros Hok E Hh Hr Hp Hs.
  destruct (PutAsset_rows owner st a expect now saved st1 r1 path E (ao_rows _ _ Hok) Hp Hs)
    as [Hh1 Hrows].
  assert (cm_heap st' = cm_heap st) as Hheap by congruence.
  apply (asys_ok_step owner owner _ _ Hok); cbn [ay_st ay_flight ay_used].
  - by apply owned_same_heap.
  - intros q x. rewrite Hr. intros [?|Hc]%Hrows; [by left|right].
    eapply copy_ok_heap; [|exact Hc]. congruence.
  - intros f Hf. left. by eapply in_delete.
  - apply Hok.
Qed.

Lemma step_rows_shrink owner st fs used st' :
  asys_ok owner (mkAsys st fs used) -> cm_heap st' = cm_heap st ->
  (forall p a, cm_rows st' !! p = Some a -> cm_rows st !! p = Some a) ->
  asys_ok owner (mkAsys st' fs used).
Proof.
  intros Hok Hh Hr. apply (asys_ok_step owner owner _ _ Hok); cbn [ay_st ay_flight ay_used].
  - by apply owned_same_heap.
  - intros p a H. left. by apply Hr.
  - by left.
  - apply Hok.
Qed.

Lemma asys_paths owner y : asys_ok owner y -> paths_ok (cm_rows (ay_st y)).
Proof. intros Hok p a H. by destruct (ao_rows _ _ Hok _ _ H) as [? _]. Qed.

(** A deletion prunes the rows or changes nothing but the audit. *)
Lemma deleteAsset_rows st auth path cascade env st' r :
  paths_ok (cm_rows st) -> deleteAsset d st auth path cascade env = (st', r) ->
  cm_heap st' = cm_heap st /\ cm_dedup st' = cm_dedup st /\
  match r with
  | Err _ => st' = st
  | Ok n => ae_saved env = true /\ cm_rows st' = pruned (cm_rows st) path /\
      n = Z.of_nat (length (doomed st path)) /\ doomed st path <> [] /\
      (cascade = true \/ hasChildren st path = []) /\
      cm_disk st' = view_of (cm_heap st) <$> pruned (cm_rows st) path
  end.
Proof.
  intros Hp. unfold deleteAsset. destruct (ParseAssetPath d path); [|by intros [= <- <-]].
  rewrite DeleteAsset_spec by done.
  destruct (length (doomed st path) =? 0)%nat eqn:Hd; [by intros [= <- <-]|].
  apply Nat.eqb_neq in Hd.
  destruct (length (hasChildren st path) =? 0)%nat eqn:Hk; cbn [negb andb].
  - apply Nat.eqb_eq, length_zero_iff_nil in Hk.
    destruct (ae_saved env); [|by intros [= <- <-]].
    destruct (Z.eqb_spec (Z.of_nat (length (doomed st path))) 0); [lia|]. intros [= <- <-].
    cbn. repeat split; auto. intros E. by rewrite E in Hd.
  - destruct cascade; cbn [negb]; [|by intros [= <- <-]].
    destruct (ae_saved env); [|by intros [= <- <-]].
    destruct (Z.eqb_spec (Z.of_nat (length (doomed st path))) 0); [lia|]. intros [= <- <-].
    cbn. repeat split; auto. intros E. by rewrite E in Hd.
Qed.

Lemma step_put_go owner st fs used auth path req env st' loc existed :
  asys_ok owner (mkAsys st fs used) -> ae_loc env ∉ used ->
  put_begin d st path (Some req) env = (st', PutGo loc existed) ->
  asys_ok (<[loc := path]> owner)
    (mkAsys st' (fs ++ [FPut auth path loc existed (pa_ResourceVersion req) (pa_RequestID req)])
       ({[loc]} ∪ used)).
Proof.
  intros Hok Hn H. apply put_begin_go in H as (sp & Hsp & -> & Hr & Hh).
  apply put_spec_ok in Hsp. pose proof (fresh_loc _ _ _ Hok Hn) as Hfresh.
  assert (Ho : forall l p, owned owner st l p -> owned (<[ae_loc env := path]> owner) st' l p).
  { intros l p Hl. apply (owned_heap _ (with_heap st (cm_heap st'))); [done|].
    by eapply owned_alloc; [|exact Hh|]. }
  apply (asys_ok_step owner _ _ _ Hok); cbn [ay_st ay_flight ay_used].
  - exact Ho.
  - intros p a. rewrite Hr. by left.
  - intros f [?| ->%list_elem_of_singleton]%elem_of_app; [by left|right]. cbn.
    apply (owned_heap _ (with_heap st (<[ae_loc env := sp]> (cm_heap st)))); [done|].
    by apply owned_new.
  - intros l p [[<- _]|[_ H]]%lookup_insert_Some; apply elem_of_union;
      [left; by apply elem_of_singleton|right]. by eapply (ao_used _ _ Hok).
Qed.

Lemma life_read_ok owner st fs used path body a cur to :
  asys_ok owner (mkAsys st fs used) -> life_read d st path body = Ok (a, cur, to) ->
  copy_ok owner st path a /\ In to allowedLifecycle.
Proof.
  intros Hok. unfold life_read. destruct (ParseAssetPath d path); [|done].
  destruct body as [to'|]; [|done]. destruct (contains_string _ _); [|done]. cbn [negb].
  destruct (cm_rows st !! path) as [a'|] eqn:Ha; [|done].
  destruct (allowedLifecycleTransition _ _) eqn:Ht; [|done]. cbn [negb].
  intros [= <- _ <-]. split; [by apply (ao_rows _ _ Hok)|]. by apply allowed_transition_to in Ht as (_ & ? & _).
Qed.

Lemma step_mutate owner st fs used i auth path a cur to env :
  asys_ok owner (mkAsys st fs used) -> fs !! i = Some (FLifeRead auth path a cur to) ->
  asys_ok owner (mkAsys (life_mutate st a to env).1
    (<[i := FLifeWrite auth path (life_mutate st a to env).2 cur to]> fs) ({[ae_loc env]} ∪ used)).
Proof.
  intros Hok Hi. destruct (ao_flight _ _ Hok _ (list_elem_of_lookup_2 _ _ _ Hi)) as [Hc Hto].
  cbn [ay_st] in Hc. pose proof Hc as (Hp & Hv & l & Hl & Hown).
  unfold life_mutate. rewrite Hl. cbn [fst snd].
  assert (Ho : forall l' p, owned owner st l' p ->
    owned owner (with_heap st (alter <["lifecycle" := JString to]> l (cm_heap st))) l' p)
    by (intros; by apply owned_mutate).
  apply (asys_ok_step owner owner _ _ Hok); cbn [ay_st ay_flight ay_used].
  - exact Ho.
  - by left.
  - intros f Hf. apply list_elem_of_lookup in Hf as [j Hj].
    destruct (decide (i = j)) as [<-|Hne].
    + rewrite list_lookup_insert_eq in Hj by (by eapply lookup_lt_Some).
      injection Hj as <-. right. split; [|done]. by eapply copy_ok_mono; [intros l'; apply Ho|].
    + rewrite list_lookup_insert_ne in Hj by done. left. by eapply list_elem_of_lookup_2.
  - intros l' p H. apply elem_of_union. right. by eapply (ao_used _ _ Hok).
Qed.

Lemma astep_ok owner now y y' : asys_ok owner y -> astep d now y y' -> exists owner', asys_ok owner' y'.
Proof.
  intros Hok Hs. destruct Hs.
  - eexists. by eapply step_put_go.
  - exists owner. destruct (put_begin_done _ _ _ _ _ _ H H0) as [Hr Hh].
    apply (step_rows_shrink _ _ _ _ _ Hok Hh). by rewrite Hr.
  - exists owner. pose proof (ao_flight _ _ Hok _ (list_elem_of_lookup_2 _ _ _ H)) as Hf.
    destruct (PutAsset st (mkAsset path 0 (Some loc) zero_time zero_time) expect (ae_now env)
      (ae_saved env)) as [st1 r1] eqn:E.
    destruct (put_finish_heap st auth path loc existed expect rid env _ _ E) as [Hh Hr].
    eapply step_write; [exact Hok|exact E|exact Hh|exact Hr|done|]. by exists loc.
  - exists owner. destruct (deleteAsset d st auth path cascade env) as [st' r] eqn:E.
    destruct (deleteAsset_rows _ _ _ _ _ _ _ (asys_paths _ _ Hok) E) as (Hh & _ & Hr).
    apply (step_rows_shrink _ _ _ _ _ Hok Hh). cbn [fst].
    destruct r; [|by rewrite Hr]. destruct Hr as (_ & -> & _). unfold pruned.
    by intros p x [? _]%map_lookup_filter_Some.
  - exists owner. apply (asys_ok_step owner owner _ _ Hok); cbn; [done|by left| |apply Hok].
    intros f [?| ->%list_elem_of_singleton]%elem_of_app; [by left|right]. by eapply life_read_ok.
  - exists owner. by apply step_mutate.
  - exists owner. destruct (ao_flight _ _ Hok _ (list_elem_of_lookup_2 _ _ _ H)) as [Hf _].
    destruct (PutAsset st a (as_Version a) (ae_now env) (ae_saved env)) as [st1 r1] eqn:E.
    destruct (life_write_heap st auth path a cur to env _ _ E) as [Hh Hr].
    destruct Hf as (Hp & _ & Hl). by eapply step_write.
  - exists owner. apply (asys_ok_step owner owner _ _ Hok); cbn; [done|by left| |apply Hok].
    intros f Hf. left. by eapply in_delete.
Qed.

Lemma areachable_ok y : areachable d y -> exists owner, asys_ok owner y.
Proof.
  induction 1 as [|now y y' _ [owner IH] Hs]; [|by eapply astep_ok].
  exists ∅. split; cbn; [done|by intros f ?%elem_of_nil|done].
Qed.
End invariant.

(** ** Replay *)

Section replay.
Context (d : Dict) (path rid : string) (e : dedupEntry).

Definition this_key : string := dedup_key path rid.
Definition remembers (st : cmdb) : Prop := cm_dedup st !! this_key = Some e.

(** No other put under the key is past its lookup. *)
Definition alone (fs : list aflight) : Prop :=
  forall auth p loc ex expect r, FPut auth p loc ex expect r ∈ fs -> r <> EmptyString ->
    dedup_key p r <> this_key.

(** Steps up to a time. *)
Inductive until (t : time) : asys -> asys -> Prop :=
  | until_refl y : until t y y
  | until_step y y1 y2 now : until t y y1 -> (now <= t)%Z -> astep d now y1 y2 -> until t y y2.

Lemma gcLocked_keeps t now : t !! this_key = Some e -> (now <= de_expires e)%Z ->
  gcLocked t now !! this_key = Some e.
Proof.
  intros H Hn. unfold gcLocked. apply map_lookup_filter_Some. split; [done|]. cbn.
  destruct (Z.ltb_spec (de_expires e) now); [lia|done].
Qed.

Lemma dedup_lookup_keeps t key now : t !! this_key = Some e -> (now <= de_expires e)%Z ->
  (dedup_lookup t key now).1 !! this_key = Some e /\
  (key = this_key -> (dedup_lookup t key now).2 = Some e).
Proof.
  intros H Hn. pose proof (gcLocked_keeps t now H Hn) as Hg. unfold dedup_lookup.
  destruct (gcLocked t now !! key) as [e'|] eqn:E; [|split; [done|congruence]].
  destruct (Z.ltb_spec (de_expires e') now) as [Hlt|Hge]; cbn [fst snd].
  - split.
    + rewrite lookup_delete_ne; [done|]. intros ->. rewrite Hg in E. injection E as <-. lia.
    + intros ->. rewrite Hg in E. injection E as <-. lia.
  - split; [done|]. intros ->. congruence.
Qed.

Lemma put_begin_keeps st p req env : remembers st -> (ae_now env <= de_expires e)%Z ->
  remembers (put_begin d st p (Some req) env).1 /\
  (pa_RequestID req <> EmptyString -> dedup_key p (pa_RequestID req) = this_key ->
   (put_begin d st p (Some req) env).2 = PutReplay (de_status e) (de_body e)).
Proof.
  intros H Hn. unfold put_begin. destruct (str_eqb (pa_RequestID req) EmptyString) eqn:Er.
  - apply str_eqb_eq in Er. split; [|done]. by destruct (put_spec d p req).
  - pose proof (dedup_lookup_keeps (cm_dedup st) (dedup_key p (pa_RequestID req)) _ H Hn) as [Hk Hh].
    destruct (dedup_lookup _ _ _) as [t [e'|]]; cbn in Hk, Hh.
    + split; [done|]. intros _ Ek. specialize (Hh Ek). by injection Hh as ->.
    + split; [by destruct (put_spec d p req)|]. intros _ Ek. by specialize (Hh Ek).
Qed.

Lemma PutAsset_dedup st a expect now saved :
  cm_dedup (PutAsset st a expect now saved).1 = cm_dedup st.
Proof. unfold PutAsset. by repeat case_match. Qed.
Lemma DeleteAsset_dedup st p cascade saved :
  cm_dedup (DeleteAsset st p cascade saved).1.1 = cm_dedup st.
Proof. unfold DeleteAsset. by repeat case_match. Qed.

Lemma put_finish_keeps st auth p loc ex expect r env :
  remembers st -> (r <> EmptyString -> dedup_key p r <> this_key) ->
  remembers (put_finish st auth p loc ex expect r env).1.
Proof.
  unfold remembers, put_finish. intros H Hk.
  match goal with |- context [PutAsset ?s ?a ?x ?n ?b] =>
    pose proof (PutAsset_dedup s a x n b) as Hd; destruct (PutAsset s a x n b) as [st1 [out|[]]] end;
    cbn in *; rewrite <- Hd in H; try done.
  destruct (str_eqb r EmptyString) eqn:Er; cbn; [done|]. apply str_eqb_neq in Er.
  unfold dedup_remember. rewrite lookup_insert_ne; [done|]. by apply Hk.
Qed.

Lemma deleteAsset_keeps st auth p cascade env :
  remembers st -> remembers (deleteAsset d st auth p cascade env).1.
Proof.
  unfold remembers, deleteAsset. intros H. destruct (ParseAssetPath d p); [|done].
  pose proof (DeleteAsset_dedup st p cascade (ae_saved env)) as Hd.
  destruct (DeleteAsset st p cascade (ae_saved env)) as [[st1 [n|[]]] k]; cbn in *;
    rewrite <- Hd in H; try done. by destruct (n =? 0)%Z.
Qed.

Lemma life_write_keeps st auth p a cur to env :
  remembers st -> remembers (life_write st auth p a cur to env).1.
Proof.
  unfold remembers, life_write. intros H.
  pose proof (PutAsset_dedup st a (as_Version a) (ae_now env) (ae_saved env)) as Hd.
  destruct (PutAsset st a (as_Version a) (ae_now env) (ae_saved env)) as [st1 [out|[]]]; cbn in *;
    by rewrite <- Hd in H.
Qed.

Lemma life_mutate_keeps st a to env : remembers st -> remembers (life_mutate st a to env).1.
Proof. unfold remembers, life_mutate. by destruct (as_Spec a). Qed.

Lemma alone_delete fs i : alone fs -> alone (delete i fs).
Proof. intros H auth p loc ex expect r Hin. by eapply H, in_delete. Qed.

(** While the entry lives, it stays, and no put under the key gets past its
    lookup. *)
Lemma replay_step y y' now : remembers (ay_st y) -> alone (ay_flight y) ->
  (now <= de_expires e)%Z -> astep d now y y' -> remembers (ay_st y') /\ alone (ay_flight y').
Proof.
  intros Hr Ha Hn Hs. destruct Hs; cbn [ay_st ay_flight] in *.
  - pose proof (put_begin_keeps st path0 req env Hr Hn) as [Hk Hh]. rewrite H0 in Hk, Hh. cbn in Hk, Hh.
    split; [done|]. intros auth' p loc' ex' expect' r [?|Hin%list_elem_of_singleton]%elem_of_app.
    + by eapply Ha.
    + injection Hin as -> -> -> -> -> ->. intros Hne Ek. by specialize (Hh Hne Ek).
  - split; [|done]. destruct body as [req|].
    + pose proof (put_begin_keeps st path0 req env Hr Hn) as [Hk _]. by rewrite H in Hk.
    + injection H as <- _. done.
  - split; [|by apply alone_delete]. apply put_finish_keeps; [done|].
    eapply Ha. by eapply list_elem_of_lookup_2.
  - split; [|done]. by apply deleteAsset_keeps.
  - split; [done|]. intros auth' p loc' ex' expect' r [?|Hin%list_elem_of_singleton]%elem_of_app;
      [by eapply Ha|done].
  - split; [by apply life_mutate_keeps|]. intros auth' p loc' ex' expect' r Hin.
    apply list_elem_of_lookup in Hin as [j Hj]. destruct (decide (i = j)) as [<-|Hne].
    + rewrite list_lookup_insert_eq in Hj by (by eapply lookup_lt_Some). done.
    + rewrite list_lookup_insert_ne in Hj by done. by eapply Ha, list_elem_of_lookup_2.
  - split; [by apply life_write_keeps|by apply alone_delete].
  - split; [done|by apply alone_delete].
Qed.

Lemma replay_until y y' t : remembers (ay_st y) -> alone (ay_flight y) ->
  (t <= de_expires e)%Z -> until t y y' -> remembers (ay_st y') /\ alone (ay_flight y').
Proof.
  intros Hr Ha Ht. induction 1 as [|y y1 y2 now _ IH Hle Hs]; [done|].
  destruct IH as [IH1 IH2]; [done..|]. apply (replay_step y1 y2 now); [done|done|lia|done].
Qed.
End replay.

(** A put that succeeds with a request id is remembered for a day. *)
Lemma put_finish_remembers st auth path loc existed expect rid env st' status body :
  put_finish st auth path loc existed expect rid env = (st', Ok (status, body)) ->
  rid <> EmptyString ->
  remembers path rid (mkDedup status body (ae_now env + dedup_ttl)) st'.
Proof.
  unfold put_finish, remembers. intros H Hr. apply str_eqb_neq in Hr.
  destruct (PutAsset _ _ _ _ _) as [st1 [out|[]]]; try done.
  rewrite Hr in H. injection H as <- <- <-. cbn. apply lookup_insert_eq.
Qed.

(** ** Examples *)

Definition demo_apath : string := "sgp01.pod002".
Definition pod_spec (lc : string) : spec :=
  <["lifecycle" := JString lc]> {["type" := JString "pod"]}.
Definition aenv_at (now : time) (loc : positive) (saved : bool) : aenv :=
  mkAenv now loc "au_1" saved true.

(** A stored pod, version 1. *)
Definition cm0 : cmdb := mkCmdb ∅ ∅ ∅ [] ∅.
Definition put_body (lc rid : string) : putAssetRequest := mkPutAsset (Some (pod_spec lc)) 0 rid.
Definition cm1 (lc : string) : cmdb :=
  (putAsset demo_dict cm0 (Some root) demo_apath (Some (put_body lc "r1")) (aenv_at 1000 1 true)).1.

Definition shown (st : cmdb) : option (Z * string) :=
  (fun a => (as_Version a, lifecycle_of (deref (cm_heap st) (as_Spec a)))) <$> cm_rows st !! demo_apath.
Definition on_disk (st : cmdb) : option (Z * string) :=
  (fun v => (av_Version v, lifecycle_of (av_Spec v))) <$> cm_disk st !! demo_apath.

Example demo_put :
  shown (cm1 "active") = Some (1%Z, "active") /\
  (putAsset demo_dict (cm1 "active") None demo_apath (Some (put_body "planned" "r1")) (aenv_at 2000 2 true)).2 =
    Ok (201%Z, mkView demo_apath 1 (Some (pod_spec "active")) 1000 1000) /\
  (putAsset demo_dict cm0 None demo_apath (Some (mkPutAsset (Some {["type" := JString "cdu"]}) 0 EmptyString))
     (aenv_at 2000 2 true)).2 = Err (bad_request "spec.type does not match path leaf").
Proof. vm_compute. repeat split. Qed.

(** The life-cycle request writes into the store's own map before its put: when
    the save fails the client is told so, the disk keeps the old value, and
    the store shows the new one. *)
Example life_failed_save :
  let '(st, r) := serveAssetLifecycle demo_dict (cm1 "active") (Some root) demo_apath (Some "retired")
                    (aenv_at 2000 2 false) in
  r = Err store_error /\ on_disk st = Some (1%Z, "active") /\ shown st = Some (1%Z, "retired").
Proof. vm_compute. repeat split. Qed.

(** Two life-cycle requests that both read "active": the first retires the
    asset, the second is refused with a conflict, and the retired asset is
    shown as in maintenance, a transition the table forbids. *)
Example life_escapes :
  let st := cm1 "active" in
  match life_read demo_dict st demo_apath (Some "retired"),
        life_read demo_dict st demo_apath (Some "maintenance") with
  | Ok (a1, c1, to1), Ok (a2, c2, to2) =>
      let '(st, a1) := life_mutate st a1 to1 (aenv_at 2000 2 true) in
      let '(st, r1) := life_write st (Some root) demo_apath a1 c1 to1 (aenv_at 2001 2 true) in
      let '(st, a2) := life_mutate st a2 to2 (aenv_at 2002 2 true) in
      let '(st, r2) := life_write st (Some root) demo_apath a2 c2 to2 (aenv_at 2003 2 true) in
      is_ok r1 = true /\ r2 = Err version_conflict /\
      on_disk st = Some (2%Z, "retired") /\ shown st = Some (2%Z, "maintenance")
  | _, _ => False
  end.
Proof. vm_compute. repeat split. Qed.

(** Two puts with one request id that both look before either has answered are
    both applied. *)
Example put_twice :
  let '(st, g1) := put_begin demo_dict cm0 demo_apath (Some (put_body "active" "r1")) (aenv_at 1 1 true) in
  let '(st, g2) := put_begin demo_dict st demo_apath (Some (put_body "active" "r1")) (aenv_at 1 2 true) in
  match g1, g2 with
  | PutGo l1 e1, PutGo l2 e2 =>
      let st := (put_finish st None demo_apath l1 e1 0 "r1" (aenv_at 2 3 true)).1 in
      let st := (put_finish st None demo_apath l2 e2 0 "r1" (aenv_at 3 3 true)).1 in
      shown st = Some (2%Z, "active")
  | _, _ => False
  end.
Proof. vm_compute. reflexivity. Qed.

(** The same history as steps. *)
Definition ay0 : asys := mkAsys cm0 [] ∅.
Definition ay1 : asys :=
  mkAsys (put_begin demo_dict cm0 demo_apath (Some (put_body "active" "r1")) (aenv_at 1000 1 true)).1
    [FPut (Some root) demo_apath 1 false 0 "r1"] ({[1%positive]} ∪ ∅).
Definition ay2 : asys :=
  mkAsys (put_finish (ay_st ay1) (Some root) demo_apath 1 false 0 "r1" (aenv_at 1001 1 true)).1
    [] ({[1%positive]} ∪ ∅).

Lemma ay1_reachable : areachable demo_dict ay1.
Proof.
  eapply ar_step; [apply ar_init|].
  apply (as_put_go demo_dict cm0 [] ∅ (Some root) demo_apath (put_body "active" "r1")
    (aenv_at 1000 1 true)).
  - apply not_elem_of_empty.
  - vm_compute. reflexivity.
Defined.
Lemma ay2_reachable : areachable demo_dict ay2.
Proof.
  eapply ar_step; [apply ay1_reachable|].
  apply (as_put_finish demo_dict (ay_st ay1) [FPut (Some root) demo_apath 1 false 0 "r1"] _ 0
    (Some root) demo_apath 1 false 0 "r1" (aenv_at 1001 1 true)). reflexivity.
Defined.
Definition ay2_row : Asset := mkAsset demo_apath 1 (Some 1%positive) 1001 1001.
Lemma ay2_stored : cm_rows (ay_st ay2) !! demo_apath = Some ay2_row.
Proof. vm_compute. reflexivity. Qed.

(** ** Listing *)

(** A query without a token, and the list it stands for. *)
Definition with_token (q : assetQuery) (tok : string) : assetQuery :=
  mkAssetQuery (qa_limit q) (qa_page_size q) (qa_order_by q) (qa_filter q) tok (qa_type q)
    (qa_lifecycle q) (qa_prefix q).

Lemma ListAssets_by_key st : paths_ok (cm_rows st) -> (forall p, is_Some (cm_rows st !! p) -> p <> EmptyString) ->
  by_key as_Path (ListAssets st).
Proof.
  intros Hp Hne. apply sort_by_listing; [by apply map_rows_keys|].
  apply rows_Forall. intros k a H. unfold keyed. rewrite (Hp _ _ H). apply Hne. by eexists.
Qed.

Lemma filter_filter {A} (f g : A -> bool) l :
  List.filter f (List.filter g l) = List.filter (fun x => g x && f x) l.
Proof.
  induction l as [|x l IH]; cbn; [done|]. destruct (g x); cbn; [|done].
  destruct (f x); by rewrite IH.
Qed.

Lemma filter_ext_eq {A} (f g : A -> bool) l :
  (forall x, f x = g x) -> List.filter f l = List.filter g l.
Proof. intros H. induction l as [|x l IH]; cbn; [done|]. rewrite H. by destruct (g x); rewrite IH. Qed.

Section listing.
Context (d : Dict).

(** The rows a query asks for and the caller may see. *)
Definition listed (st : cmdb) (closed : bool) (auth : option Principal) (q : assetQuery)
    (glob : Glob) : list Asset :=
  List.filter (fun a => asset_wanted d (cm_heap st) q glob EmptyString a && sees closed auth (as_Path a))
    (ListAssets st).

Lemma asset_wanted_after h q glob after a :
  asset_wanted d h q glob after a = after_key as_Path after a && asset_wanted d h q glob EmptyString a.
Proof.
  unfold asset_wanted. change (after_key as_Path EmptyString a) with true.
  by rewrite andb_true_l, !andb_assoc.
Qed.

Lemma listAssets_page st mt auth q size glob tok :
  asset_page_size q = Ok size -> (qa_order_by q = EmptyString \/ qa_order_by q = "path") ->
  CompileGlob (if str_eqb (qa_filter q) EmptyString then "**" else qa_filter q) = Ok glob ->
  (qa_lifecycle q = EmptyString \/ In (qa_lifecycle q) allowedLifecycle) ->
  (listAssets d st mt auth (with_token q tok)).2 =
    as_answer (page_at as_Path (after_key as_Path) encodePageToken decodePageToken
      (listed st (m_closed mt) auth q glob) size tok).
Proof.
  intros Hs Ho Hg Hl. unfold listAssets, asset_page_size in *. cbn [with_token qa_limit qa_page_size
    qa_order_by qa_filter qa_page_token qa_lifecycle]. rewrite Hs, Hg.
  assert (negb (str_eqb (qa_order_by q) EmptyString) && negb (str_eqb (qa_order_by q) "path") = false)
    as -> by (by destruct Ho as [-> | ->]).
  assert (negb (str_eqb (qa_lifecycle q) EmptyString) &&
    negb (contains_string allowedLifecycle (qa_lifecycle q)) = false) as ->.
  { destruct Hl as [-> |Hin]; [done|]. apply contains_string_In in Hin. by rewrite Hin, andb_false_r. }
  unfold page_at. destruct (str_eqb tok EmptyString) eqn:Et.
  - pose proof (filter_visible_sees auth (asset_wanted d (cm_heap st) (with_token q tok) glob EmptyString)
      as_Path (ListAssets st) mt) as [Hf _].
    destruct (filter_visible mt auth _ as_Path (ListAssets st)) as [mt' items]. cbn in Hf |- *.
    by subst items.
  - destruct (decodePageToken tok) as [k|]; [|done].
    pose proof (filter_visible_sees auth (asset_wanted d (cm_heap st) (with_token q tok) glob k)
      as_Path (ListAssets st) mt) as [Hf _].
    destruct (filter_visible mt auth _ as_Path (ListAssets st)) as [mt' items]. cbn [snd] in Hf |- *.
    subst items. cbn [as_answer]. do 2 f_equal. unfold listed. rewrite filter_filter.
    apply filter_ext_eq. intros a. rewrite asset_wanted_after.
    change (asset_wanted d (cm_heap st) (with_token q tok) glob EmptyString a) with
      (asset_wanted d (cm_heap st) q glob EmptyString a).
    destruct (after_key as_Path k a), (asset_wanted d (cm_heap st) q glob EmptyString a),
      (sees (m_closed mt) auth (as_Path a)); done.
Qed.

Lemma asset_page_size_range q n : asset_page_size q = Ok n -> (1 <= n <= 1000)%Z.
Proof.
  unfold asset_page_size, MaxPageSize. destruct (str_eqb (qa_limit q) EmptyString); cbn [negb];
    [apply parsePageSize_range|].
  destruct (Atoi (qa_limit q)) as [m|]; [|done]. destruct (Z.leb_spec m 0); [done|].
  destruct (Z.ltb_spec 1000 m); [done|]. intros <-%Ok_inj. lia.
Qed.
End listing.

(** ** Theorems *)

(** The type of a stored asset, under every interleaving of puts, deletes
    and life-cycle requests, with every outcome of the saves and however the
    requests share their maps: the row has its path, which is a valid asset
    path, a version of at least one, a spec whose type is that of the path's
    last node and whose life cycle is one of the five values; and no two rows
    share a map. *)
Lemma assets_typed d y p a :
  areachable d y -> cm_rows (ay_st y) !! p = Some a ->
  as_Path a = p /\ (1 <= as_Version a)%Z /\
  (exists ap sp lc, ParseAssetPath d p = Ok ap /\
     deref (cm_heap (ay_st y)) (as_Spec a) = Some sp /\
     sp !! "type" = Some (JString (leaf_type ap)) /\
     sp !! "lifecycle" = Some (JString lc) /\ In lc allowedLifecycle) /\
  (forall p' a', cm_rows (ay_st y) !! p' = Some a' -> as_Spec a' = as_Spec a -> p' = p).
Proof.
  intros Hr Ha. destruct (areachable_ok _ _ Hr) as [owner Hok].
  destruct (ao_rows _ _ _ Hok _ _ Ha) as (Hp & Hv & l & Hl & Hown & sp & Hh & ap & lc & H1 & H2 & H3 & H4).
  split; [done|]. split; [done|]. split.
  - exists ap, sp, lc. rewrite Hl. cbn. by rewrite Hh.
  - intros p' a' Ha' E. destruct (ao_rows _ _ _ Hok _ _ Ha') as (_ & _ & l' & Hl' & Hown' & _).
    rewrite Hl, Hl' in E. injection E as ->. congruence.
Qed.

Lemma assets_typed_witness :
  areachable demo_dict ay2 /\ cm_rows (ay_st ay2) !! demo_apath = Some ay2_row /\
  (1 <= as_Version ay2_row)%Z.
Proof.
  split; [apply ay2_reachable|]. split; [apply ay2_stored|].
  apply (assets_typed demo_dict ay2 demo_apath ay2_row ay2_reachable ay2_stored).
Defined.

(** C20: the delete request on every branch.  It succeeds exactly when the path
    is valid, the save succeeds, there is something at or below the path, and
    nothing below it unless a cascade is asked for; then exactly the rows at
    and below the path are gone, in memory and on disk, and their number is
    the answer.  Every refusal and every failed save leaves the whole store as
    it was, the rows that were already removed included. *)
Theorem delete_exact d y auth path cascade env st' r :
  areachable d y -> deleteAsset d (ay_st y) auth path cascade env = (st', r) ->
  let rows := cm_rows (ay_st y) in
  (is_ok r = true <->
     is_ok (ParseAssetPath d path) = true /\ ae_saved env = true /\ subtree rows path <> ∅ /\
     (cascade = true \/ forall p, is_Some (rows !! p) -> child_of path p = false)) /\
  match r with
  | Ok n => n = Z.of_nat (size (subtree rows path)) /\
      (forall p, cm_rows st' !! p = if str_eqb p path || child_of path p then None else rows !! p) /\
      cm_disk st' = view_of (cm_heap (ay_st y)) <$> cm_rows st'
  | Err _ => st' = ay_st y
  end.
Proof.
  intros Hr H rows. destruct (areachable_ok _ _ Hr) as [owner Hok].
  pose proof (asys_paths _ _ _ Hok) as Hp.
  destruct (deleteAsset_rows d _ _ _ _ _ _ _ Hp H) as (_ & _ & Hres).
  assert (Hempty : doomed (ay_st y) path = [] <-> subtree rows path = ∅).
  { rewrite <- length_zero_iff_nil, doomed_size by done. apply map_size_empty_iff. }
  assert (Hkids := hasChildren_nil (ay_st y) path Hp).
  split.
  - unfold deleteAsset in H. destruct (ParseAssetPath d path); [|by injection H as <- <-; split; [|intros [? _]]].
    rewrite DeleteAsset_spec in H by done.
    destruct (length (doomed (ay_st y) path) =? 0)%nat eqn:Hd.
    { apply Nat.eqb_eq, length_zero_iff_nil, Hempty in Hd. injection H as <- <-.
      split; [done|]. intros (_ & _ & Hne & _). by rewrite Hd in Hne. }
    apply Nat.eqb_neq in Hd.
    assert (subtree rows path <> ∅) as Hne
      by (intros E; apply Hempty in E; by rewrite E in Hd).
    destruct (length (hasChildren (ay_st y) path) =? 0)%nat eqn:Hk; cbn [negb andb] in H.
    + apply Nat.eqb_eq, length_zero_iff_nil in Hk.
      destruct (ae_saved env).
      * destruct (Z.eqb_spec (Z.of_nat (length (doomed (ay_st y) path))) 0); [lia|].
        injection H as <- <-. split; [|done]. intros _. repeat split; try done. right. by apply Hkids.
      * injection H as <- <-. split; [done|]. by intros (_ & ? & _).
    + apply Nat.eqb_neq in Hk. destruct cascade; cbn [negb] in H.
      * destruct (ae_saved env).
        -- destruct (Z.eqb_spec (Z.of_nat (length (doomed (ay_st y) path))) 0); [lia|].
           injection H as <- <-. split; [|done]. intros _. repeat split; try done. by left.
        -- injection H as <- <-. split; [done|]. by intros (_ & ? & _).
      * injection H as <- <-. split; [done|]. intros (_ & _ & _ & [?|Hc]); [done|].
        apply Hkids in Hc. by rewrite Hc in Hk.
  - destruct r as [n|]; [|done]. destruct Hres as (_ & Hrows & -> & _ & _ & Hdisk).
    split; [by rewrite doomed_size|]. split; [|by rewrite Hrows].
    intros p. rewrite Hrows. unfold pruned. rewrite map_lookup_filter. fold rows.
    destruct (rows !! p) as [a|]; cbn; [|by destruct (_ || _)].
    destruct (str_eqb p path || child_of path p) eqn:E.
    + rewrite option_guard_False; [done|]. unfold str_eqb in E. by rewrite E.
    + by rewrite option_guard_True.
Qed.

Lemma delete_exact_witness :
  let '(st', r) := deleteAsset demo_dict (ay_st ay2) (Some root) demo_apath false
                     (aenv_at 2000 2 true) in
  is_ok r = true /\ cm_rows st' !! demo_apath = None.
Proof.
  destruct (deleteAsset demo_dict (ay_st ay2) (Some root) demo_apath false (aenv_at 2000 2 true))
    as [st' r] eqn:E.
  destruct (delete_exact demo_dict ay2 (Some root) demo_apath false (aenv_at 2000 2 true) st' r
    ay2_reachable E) as [_ Hr].
  assert (Hok : is_ok r = true) by (vm_compute in E; injection E as <- <-; reflexivity).
  split; [exact Hok|]. destruct r as [n|e]; [|discriminate Hok].
  destruct Hr as (_ & Hrows & _). rewrite Hrows. reflexivity.
Defined.

(** Idempotence of the put.  When a put with a request id has succeeded
    and no other put with that path and id is past its lookup, then for a day,
    whatever else happens in between, a repetition gets the very same answer
    and changes neither the rows nor the maps, the disk or the audit; its own
    body does not matter. *)
Lemma put_replayed d st fs used auth path loc existed expect rid env st1 status body y t
    req auth' env' :
  put_finish st auth path loc existed expect rid env = (st1, Ok (status, body)) ->
  rid <> EmptyString -> alone path rid fs ->
  (t <= ae_now env + dedup_ttl)%Z -> until d t (mkAsys st1 fs used) y ->
  pa_RequestID req = rid -> (ae_now env' <= ae_now env + dedup_ttl)%Z ->
  let '(st2, r) := putAsset d (ay_st y) auth' path (Some req) env' in
  r = Ok (status, body) /\ cm_rows st2 = cm_rows (ay_st y) /\ cm_heap st2 = cm_heap (ay_st y) /\
  cm_disk st2 = cm_disk (ay_st y) /\ cm_audits st2 = cm_audits (ay_st y).
Proof.
  intros Hf Hrid Hal Ht Hu Hreq Hn.
  pose proof (put_finish_remembers _ _ _ _ _ _ _ _ _ _ _ Hf Hrid) as Hrem.
  set (e := mkDedup status body (ae_now env + dedup_ttl)) in *.
  destruct (replay_until d path rid e (mkAsys st1 fs used) y t Hrem Hal Ht Hu) as [Hrem' _].
  destruct (put_begin_keeps d path rid e (ay_st y) path req env' Hrem' Hn) as [_ Hh].
  rewrite Hreq in Hh. specialize (Hh Hrid eq_refl). unfold putAsset.
  assert (Hsame : let st2 := (put_begin d (ay_st y) path (Some req) env').1 in
    cm_rows st2 = cm_rows (ay_st y) /\ cm_heap st2 = cm_heap (ay_st y) /\
    cm_disk st2 = cm_disk (ay_st y) /\ cm_audits st2 = cm_audits (ay_st y)).
  { unfold put_begin in Hh |- *. destruct (str_eqb (pa_RequestID req) EmptyString).
    - by destruct (put_spec d path req).
    - destruct (dedup_lookup _ _ _) as [tb [e'|]]; [done|]. by destruct (put_spec d path req). }
  destruct (put_begin d (ay_st y) path (Some req) env') as [st2 g]. cbn in Hh, Hsame. subst g.
  by split.
Qed.

Lemma put_replayed_witness :
  let '(st2, r) := putAsset demo_dict (ay_st ay2) None demo_apath (Some (put_body "planned" "r1"))
                     (aenv_at 5000 9 true) in
  is_ok r = true /\ cm_rows st2 = cm_rows (ay_st ay2).
Proof.
  pose proof (put_replayed demo_dict (ay_st ay1) [] ({[1%positive]} ∪ ∅) (Some root) demo_apath 1 false
    0 "r1" (aenv_at 1001 1 true) (ay_st ay2) 201 (mkView demo_apath 1 (Some (pod_spec "active")) 1001 1001)
    ay2 1001 (put_body "planned" "r1") None (aenv_at 5000 9 true)) as H.
  destruct (putAsset demo_dict (ay_st ay2) None demo_apath (Some (put_body "planned" "r1"))
    (aenv_at 5000 9 true)) as [st2 r].
  destruct H as (Hr & Hrows & _).
  - vm_compute. reflexivity.
  - discriminate.
  - intros auth p loc ex expect r' Hin. apply elem_of_nil in Hin as [].
  - vm_compute. discriminate.
  - apply until_refl.
  - reflexivity.
  - vm_compute. discriminate.
  - split; [rewrite Hr; reflexivity|exact Hrows].
Defined.

(** The list of assets.  Over an unchanging store a client that follows
    the tokens gets after [n / size + 1] requests exactly the assets that every
    given filter (type, life cycle, prefix, glob) accepts and whose path the
    principal may read, in the order of their paths: the scope check is never
    bypassed and no visible asset is left out. *)
Lemma assets_listed d y mt auth q size glob fuel :
  areachable d y -> asset_page_size q = Ok size ->
  (qa_order_by q = EmptyString \/ qa_order_by q = "path") ->
  CompileGlob (if str_eqb (qa_filter q) EmptyString then "**" else qa_filter q) = Ok glob ->
  (qa_lifecycle q = EmptyString \/ In (qa_lifecycle q) allowedLifecycle) ->
  let out := listed d (ay_st y) (m_closed mt) auth q glob in
  length out / Z.to_nat size < fuel ->
  client fuel (fun _ tok => (listAssets d (ay_st y) mt auth (with_token q tok)).2) EmptyString = Some out /\
  (forall a, a ∈ out <-> cm_rows (ay_st y) !! as_Path a = Some a /\
     asset_wanted d (cm_heap (ay_st y)) q glob EmptyString a = true /\
     match auth with
     | Some p => (authorize mt p ActionRead (as_Path a)).2 = Ok tt
     | None => True
     end).
Proof.
  intros Hr Hs Ho Hg Hl out Hf. destruct (areachable_ok _ _ Hr) as [owner Hok].
  pose proof (asys_paths _ _ _ Hok) as Hp. pose proof (asset_page_size_range _ _ Hs).
  assert (Hkey : by_key as_Path out).
  { apply listing_filter, ListAssets_by_key; [done|]. intros p [a Ha] ->.
    destruct (ao_rows _ _ _ Hok _ _ Ha) as (_ & _ & l & _ & _ & sp & _ & ap & lc & Hparse & _).
    by vm_compute in Hparse. }
  split.
  - rewrite (client_follow as_Path (after_key as_Path) encodePageToken decodePageToken size fuel
      _ (fun _ => out)) by (intros _ tok; by apply listAssets_page).
    apply (follow_complete as_Path (after_key as_Path) encodePageToken decodePageToken (keyed as_Path)
      (key_dec as_Path) (key_enc as_Path) (key_irr as_Path) (key_trans as_Path)); [lia|done|done].
  - intros a. unfold out, listed, ListAssets. rewrite in_filter, sort_by_perm, in_rows, andb_true_iff.
    destruct (visible_sees mt auth (as_Path a)) as [<- _]. unfold visible.
    assert (Hk : (exists k, cm_rows (ay_st y) !! k = Some a) <-> cm_rows (ay_st y) !! as_Path a = Some a).
    { split; [|eauto]. intros [k Hk]. by rewrite (Hp _ _ Hk). }
    rewrite Hk. destruct auth as [p|]; [|cbn; tauto].
    destruct (authorize mt p ActionRead (as_Path a)) as [mt' [[]|e]]; cbn; split; intros (? & ? & ?);
      repeat split; try done.
Qed.

Lemma assets_listed_witness :
  client 2 (fun _ tok => (listAssets demo_dict (ay_st ay2) open_meter (Some root)
    (with_token (mkAssetQuery EmptyString EmptyString EmptyString EmptyString EmptyString "pod"
       "active" "sgp01") tok)).2) EmptyString = Some [ay2_row].
Proof.
  destruct (CompileGlob "**") as [glob|] eqn:Eg; [|vm_compute in Eg; discriminate].
  destruct (assets_listed demo_dict ay2 open_meter (Some root)
    (mkAssetQuery EmptyString EmptyString EmptyString EmptyString EmptyString "pod" "active" "sgp01")
    100 glob 2 ay2_reachable) as [H _].
  - reflexivity.
  - left. reflexivity.
  - exact Eg.
  - right. vm_compute. tauto.
  - vm_compute in Eg. injection Eg as <-. vm_compute. lia.
  - rewrite H. vm_compute in Eg. injection Eg as <-. vm_compute. reflexivity.
Defined.
