(* ===== verification/Modbus.v ===== *)
(** * The Modbus TCP driver and its simulator (pkg/driver/driver.go,
      pkg/driver/modbus/modbus.go, pkg/driver/modbussim/sim.go)

    The client half is written against an interface, [Network]: what a TCP
    connection answers to dialling, writing and reading.  [roundTrip], [Collect],
    [Write] and [Init] are the code's functions over the driver's state and a
    network; their fail-soft contract holds for every network, whatever the
    peer sends.  The simulator is the code's server over the bytes it has
    received; [sim_network] is the network whose other end is that server, and
    the refinement theorems say that through it the driver reads and writes the
    register tables. *)
From Stdlib Require Import SpecFloat.
From S2P Require Import Prelude Float64.
Open Scope string_scope.
Open Scope list_scope.

(** ** Samples and commands (pkg/driver/driver.go) *)

Inductive Quality : Type := QGood | QStale | QSuspect | QSubstituted.
#[export] Instance Quality_eq_dec : EqDecision Quality.
Proof. solve_decision. Defined.

Record Sample : Type := mkSample
  { s_Point : string; s_Value : float64; s_Ts : Z; s_Quality : Quality }.

Record ControlCommand : Type := mkCommand
  { c_Point : string; c_Value : float64; c_RequestID : string; c_TTL : Z }.

Record ControlResult : Type := mkResult
  { r_Accepted : bool; r_Readback : float64; r_ReadbackTs : option Z }.

Record DriverHealth : Type := mkHealth
  { h_Connected : bool; h_LastSuccess : option Z; h_ErrorCount : Z }.

(** ** Bytes *)

Abbreviation bytes := (list Z).
Definition is_byte (b : Z) : Prop := (0 <= b < 256)%Z.

(** [binary.BigEndian.PutUint16] and [Uint16]. *)
Definition put16 (n : Z) : bytes := [Z.shiftr n 8 mod 256; n mod 256]%Z.
Definition get16 (a b : Z) : Z := (Z.lor (Z.shiftl a 8) b)%Z.
Definition u16 (n : Z) : Z := (n mod 2 ^ 16)%Z.

(** The conversion to [uint16]; see [Float64.ftrunc]. *)
Definition to_uint16 (oor : float64 -> Z) (f : float64) : Z :=
  match ftrunc f with
  | Some z => if (0 <=? z)%Z && (z <? 2 ^ 16)%Z then z else u16 (oor f)
  | None => u16 (oor f)
  end.

(** ** The connection *)

Inductive conn_cause : Type :=
  | CNoConn | CDeadline | CWrite | CReadHeader | CProtoID | CLength | CTxID
  | CReadBody | CEmptyPDU | CTruncatedException.

Inductive mb_err : Type :=
  | EContext
  | EInvalidBinding (i : nat)
  | EEmptyTable
  | EUnitID
  | EDial
  | ENoEndpoint
  | EConnLost (c : conn_cause)
  | EException (code : Z)
  | EShort
  | ENotWritable
  | EExpired.

(** What the environment offers to a driver: a clock and at most one TCP
    connection.  The operations return whether they succeeded; a read of [n]
    bytes is [io.ReadFull] under the deadline. *)
Class Network (W : Type) : Type := {
  now : W -> W * Z;
  dial : W -> string -> W * bool;
  set_deadline : W -> W * bool;
  send : W -> bytes -> W * bool;
  recv : W -> nat -> W * option bytes
}.

(** A full read delivers what was asked for, and bytes are bytes. *)
Class NetworkOk (W : Type) `{Network W} : Prop :=
  recv_full : forall w n w' bs, recv w n = (w', Some bs) -> length bs = n /\ Forall is_byte bs.

(** ** The driver *)

Inductive Table : Type := Holding | Input | OtherTable.
#[export] Instance Table_eq_dec : EqDecision Table.
Proof. solve_decision. Defined.

Record Binding : Type := mkBinding
  { b_Point : string; b_Table : Table; b_Register : Z; b_Writable : bool }.

Record Driver : Type := mkDriver
  { d_bindings : list Binding;
    d_endpoint : string;
    d_unitID : Z;
    d_conn : bool;
    d_txID : Z;
    d_connected : bool;
    d_lastSuccess : option Z;
    d_errorCount : Z;
    d_detail : option mb_err }.

Definition New (bindings : list Binding) : Driver :=
  mkDriver bindings EmptyString 0 false 0 false None 0 None.

Definition with_conn (d : Driver) (c connected : bool) : Driver :=
  mkDriver (d_bindings d) (d_endpoint d) (d_unitID d) c (d_txID d) connected
    (d_lastSuccess d) (d_errorCount d) (d_detail d).
Definition with_txID (d : Driver) (t : Z) : Driver :=
  mkDriver (d_bindings d) (d_endpoint d) (d_unitID d) (d_conn d) t (d_connected d)
    (d_lastSuccess d) (d_errorCount d) (d_detail d).
Definition with_lastSuccess (d : Driver) (t : option Z) : Driver :=
  mkDriver (d_bindings d) (d_endpoint d) (d_unitID d) (d_conn d) (d_txID d) (d_connected d)
    t (d_errorCount d) (d_detail d).
Definition with_errors (d : Driver) (n : Z) (e : option mb_err) : Driver :=
  mkDriver (d_bindings d) (d_endpoint d) (d_unitID d) (d_conn d) (d_txID d) (d_connected d)
    (d_lastSuccess d) n e.

Definition fcReadHolding : Z := 3.
Definition fcReadInput : Z := 4.
Definition fcWriteSingle : Z := 6.
Definition exceptionMask : Z := 128.

Definition nextTxID (d : Driver) : Driver * Z :=
  let t := u16 (d_txID d + 1) in (with_txID d t, t).

Definition closeConn (d : Driver) : Driver := with_conn d false false.

Definition recordErr (d : Driver) (e : mb_err) : Driver :=
  with_errors d (d_errorCount d + 1) (Some e).

Definition isModbusException (e : mb_err) : bool :=
  match e with EException _ => true | _ => false end.

Definition suspect (point : string) (ts : Z) : Sample := mkSample point f0 ts QSuspect.

(** The first loop of [Init]: [Some e] when the table is rejected. *)
Fixpoint check_bindings (i : nat) (seen : gset string) (bs : list Binding) : option mb_err :=
  match bs with
  | [] => None
  | b :: bs' =>
      if str_eqb (b_Point b) EmptyString then Some (EInvalidBinding i)
      else if bool_decide (b_Table b = OtherTable) then Some (EInvalidBinding i)
      else if bool_decide (b_Table b = Input) && b_Writable b then Some (EInvalidBinding i)
      else if bool_decide (b_Point b ∈ seen) then Some (EInvalidBinding i)
      else check_bindings (S i) ({[ b_Point b ]} ∪ seen) bs'
  end.

(** [strconv.ParseUint(s, 10, 8)]: decimal digits, at least one, at most 255. *)
Fixpoint read_uint (s : string) (acc : Z) : option Z :=
  match s with
  | EmptyString => Some acc
  | String c s' => if is_digit c then read_uint s' (10 * acc + digit_val c)%Z else None
  end.
Definition ParseUint (bits : Z) (s : string) : option Z :=
  if str_eqb s EmptyString then None
  else match read_uint s 0 with
       | Some n => if (n <? 2 ^ bits)%Z then Some n else None
       | None => None
       end.

Section client.
Context {W : Type} `{Network W}.

(** [reconnect]: a socket that is still open is closed first. *)
Definition reconnect (d : Driver) (w : W) : Driver * W * option mb_err :=
  if str_eqb (d_endpoint d) EmptyString then (with_conn d false false, w, Some ENoEndpoint)
  else
    let '(w, ok) := dial w (d_endpoint d) in
    if ok then (with_conn d true true, w, None)
    else (with_errors (with_conn d false false) (d_errorCount d) (Some EDial), w, Some EDial).

(** [Init]: [ctx_err] is whether the context is already done, [unit_id] the
    option (empty when absent). *)
Definition Init (ctx_err : bool) (endpoint unit_id : string) (d : Driver) (w : W) :
    Driver * W * option mb_err :=
  if ctx_err then (d, w, Some EContext)
  else match d_bindings d with
  | [] => (d, w, Some EEmptyTable)
  | _ :: _ =>
      match check_bindings 0 ∅ (d_bindings d) with
      | Some e => (d, w, Some e)
      | None =>
          match ParseUint 8 (if str_eqb unit_id EmptyString then "1" else unit_id) with
          | None => (d, w, Some EUnitID)
          | Some uid =>
              let d := mkDriver (d_bindings d) endpoint uid false 0 false None 0 None in
              let '(w, ok) := dial w endpoint in
              if ok then (with_conn d true true, w, None)
              else (with_errors d 0 (Some EDial), w, Some EDial)
          end
      end
  end.

Definition mbap (tx uid : Z) (pdu : bytes) : bytes :=
  put16 tx ++ [0; 0]%Z ++ put16 (u16 (1 + Z.of_nat (length pdu))) ++ [uid] ++ pdu.

(** [roundTrip]: one request and its answer. *)
Definition roundTrip (pdu : bytes) (d : Driver) (w : W) : Driver * W * result mb_err bytes :=
  let lost c := Err (EConnLost c) in
  if negb (d_conn d) then (d, w, lost CNoConn)
  else
    let '(d, tx) := nextTxID d in
    let '(w, ok) := set_deadline w in
    if negb ok then (d, w, lost CDeadline)
    else
      let '(w, ok) := send w (mbap tx (d_unitID d) pdu) in
      if negb ok then (d, w, lost CWrite)
      else
        let '(w, ok) := set_deadline w in
        if negb ok then (d, w, lost CDeadline)
        else
          match recv w 6 with
          | (w, Some [t1; t2; p1; p2; l1; l2]) =>
              let len := get16 l1 l2 in
              if negb (get16 p1 p2 =? 0)%Z then (d, w, lost CProtoID)
              else if (len <? 2)%Z || (253 <? len)%Z then (d, w, lost CLength)
              else if negb (get16 t1 t2 =? tx)%Z then (d, w, lost CTxID)
              else
                match recv w (Z.to_nat len) with
                | (w, Some (_ :: fc :: data)) =>
                    if negb (Z.land fc exceptionMask =? 0)%Z then
                      match data with
                      | [] => (d, w, lost CTruncatedException)
                      | code :: _ => (d, w, Err (EException code))
                      end
                    else (d, w, Ok (fc :: data))
                | (w, Some _) => (d, w, lost CEmptyPDU)
                | (w, None) => (d, w, lost CReadBody)
                end
          | (w, _) => (d, w, lost CReadHeader)
          end.

Definition fillSuspect (bs : list Binding) (w : W) : W * list Sample :=
  let '(w, t) := now w in (w, map (fun b => suspect (b_Point b) t) bs).

Definition read_pdu (b : Binding) : bytes :=
  (if bool_decide (b_Table b = Holding) then fcReadHolding else fcReadInput)
    :: put16 (b_Register b) ++ [0; 1]%Z.

(** A connection that is lost under binding [b]: a suspect sample, then one
    attempt to reconnect; the round goes on, or the rest of it is suspect. *)
Definition lose_conn (b : Binding) (rest : list Binding)
    (go_on : Driver -> W -> Driver * W * list Sample) (e : mb_err) (d : Driver) (w : W) :
    Driver * W * list Sample :=
  let d := recordErr d e in
  let '(w, t) := now w in
  let '(d, w, rerr) := reconnect (closeConn d) w in
  let '(d, w, ss) :=
    match rerr with
    | Some _ => let '(w, ss) := fillSuspect rest w in (d, w, ss)
    | None => go_on d w
    end in
  (d, w, suspect (b_Point b) t :: ss).

(** The loop of [Collect] over the bindings that are left. *)
Fixpoint collect_loop (bs : list Binding) (allGood : bool) (d : Driver) (w : W) :
    Driver * W * list Sample :=
  match bs with
  | [] =>
      if allGood then let '(w, t) := now w in (with_lastSuccess d (Some t), w, [])
      else (d, w, [])
  | b :: bs' =>
      match roundTrip (read_pdu b) d w with
      | (d, w, Ok (_ :: _ :: hi :: lo :: _)) =>
          let '(w, t) := now w in
          let '(d, w, rest) := collect_loop bs' allGood d w in
          (d, w, mkSample (b_Point b) (f_of_Z (get16 hi lo)) t QGood :: rest)
      | (d, w, Ok _) => lose_conn b bs' (collect_loop bs' false) EShort d w
      | (d, w, Err e) =>
          if isModbusException e then
            let '(w, t) := now w in
            let '(d, w, rest) := collect_loop bs' false (recordErr d e) w in
            (d, w, suspect (b_Point b) t :: rest)
          else lose_conn b bs' (collect_loop bs' false) e d w
      end
  end.

Definition Collect (d : Driver) (w : W) : Driver * W * list Sample :=
  if d_conn d then collect_loop (d_bindings d) true d w
  else
    let '(d, w, rerr) := reconnect d w in
    match rerr with
    | Some _ =>
        let d := with_errors d (d_errorCount d + 1) (d_detail d) in
        let '(w, ss) := fillSuspect (d_bindings d) w in (d, w, ss)
    | None => collect_loop (d_bindings d) true d w
    end.

Definition refused : ControlResult := mkResult false f0 None.

Definition find_binding (point : string) (bs : list Binding) : option Binding :=
  List.find (fun b => str_eqb (b_Point b) point) bs.

(** What both failing round trips of [Write] do. *)
Definition write_failed (d : Driver) (e : mb_err) : Driver :=
  let d := recordErr d e in if isModbusException e then d else closeConn d.

(** The write and the read-back of [Write], on an open connection. *)
Definition write_rounds (reg val : Z) (d : Driver) (w : W) :
    Driver * W * (ControlResult * option mb_err) :=
  match roundTrip (fcWriteSingle :: put16 reg ++ put16 val) d w with
  | (d, w, Err e) => (write_failed d e, w, (refused, Some e))
  | (d, w, Ok _) =>
      match roundTrip (fcReadHolding :: put16 reg ++ [0; 1]%Z) d w with
      | (d, w, Err e) => (write_failed d e, w, (refused, Some e))
      | (d, w, Ok (_ :: _ :: hi :: lo :: _)) =>
          let '(w, t) := now w in
          (d, w, (mkResult true (f_of_Z (get16 hi lo)) (Some t), None))
      | (d, w, Ok _) => (closeConn (recordErr d EShort), w, (refused, Some EShort))
      end
  end.

Definition Write (oor : float64 -> Z) (ctx_err : bool) (cmd : ControlCommand) (d : Driver) (w : W) :
    Driver * W * (ControlResult * option mb_err) :=
  if ctx_err then (d, w, (refused, Some EContext))
  else match find_binding (c_Point cmd) (d_bindings d) with
  | None => (d, w, (refused, Some ENotWritable))
  | Some b =>
      if negb (b_Writable b) then (d, w, (refused, Some ENotWritable))
      else if (c_TTL cmd <=? 0)%Z then (d, w, (refused, Some EExpired))
      else
        let '(d, w, cerr) := if d_conn d then (d, w, None) else reconnect d w in
        match cerr with
        | Some e => (with_errors d (d_errorCount d + 1) (d_detail d), w, (refused, Some e))
        | None => write_rounds (b_Register b) (to_uint16 oor (c_Value cmd)) d w
        end
  end.

Definition Health (d : Driver) : DriverHealth :=
  mkHealth (d_connected d) (d_lastSuccess d) (d_errorCount d).

End client.

(** ** The simulator *)

Record Sim : Type := mkSim
  { m_holding : gmap Z Z; m_input : gmap Z Z; m_masked : gmap Z bool; m_requests : Z }.

Definition with_holding (s : Sim) (h : gmap Z Z) : Sim :=
  mkSim h (m_input s) (m_masked s) (m_requests s).
Definition SetHolding (s : Sim) (addr val : Z) : Sim :=
  with_holding s (<[addr := val]> (m_holding s)).
Definition SetInput (s : Sim) (addr val : Z) : Sim :=
  mkSim (m_holding s) (<[addr := val]> (m_input s)) (m_masked s) (m_requests s).
Definition GetHolding (s : Sim) (addr : Z) : option Z := m_holding s !! addr.
Definition Mask (s : Sim) (addr : Z) : Sim :=
  mkSim (m_holding s) (m_input s) (<[addr := true]> (m_masked s)) (m_requests s).
Definition Unmask (s : Sim) (addr : Z) : Sim :=
  mkSim (m_holding s) (m_input s) (delete addr (m_masked s)) (m_requests s).
Definition isMasked (s : Sim) (addr : Z) : bool := default false (m_masked s !! addr).
Definition count_request (s : Sim) : Sim :=
  mkSim (m_holding s) (m_input s) (m_masked s) ((m_requests s + 1) mod 2 ^ 64).

Definition excIllegalFunction : Z := 1.
Definition excIllegalDataAddress : Z := 2.
Definition excIllegalDataValue : Z := 3.
Definition exception (fc code : Z) : bytes := [Z.lor fc exceptionMask; code].

(** [readRange]: the registers from [start] on, [None] when one is masked or
    missing. *)
Fixpoint readRange (s : Sim) (tbl : gmap Z Z) (start : Z) (qty : nat) : option (list Z) :=
  match qty with
  | O => Some []
  | S q =>
      let rest := readRange s tbl (u16 (start + 1)) q in
      if isMasked s start then None
      else match tbl !! start, rest with
           | Some v, Some vs => Some (v :: vs)
           | _, _ => None
           end
  end.

Definition fcRead (s : Sim) (tbl : gmap Z Z) (pdu : bytes) : bytes :=
  match pdu with
  | fc :: a1 :: a2 :: q1 :: q2 :: _ =>
      let qty := get16 q1 q2 in
      if (qty <? 1)%Z || (125 <? qty)%Z then exception fc excIllegalDataValue
      else
        match readRange s tbl (get16 a1 a2) (Z.to_nat qty) with
        | None => exception fc excIllegalDataAddress
        | Some vs => fc :: (u16 (qty * 2) mod 256)%Z :: concat (map put16 vs)
        end
  | fc :: _ => exception fc excIllegalDataValue
  | [] => []
  end.

Definition fcWriteSingle_h (s : Sim) (pdu : bytes) : Sim * bytes :=
  match pdu with
  | fc :: a1 :: a2 :: v1 :: v2 :: _ =>
      let addr := get16 a1 a2 in
      if isMasked s addr then (s, exception fc excIllegalDataAddress)
      else (SetHolding s addr (get16 v1 v2), [fc; a1; a2; v1; v2])
  | fc :: _ => (s, exception fc excIllegalDataValue)
  | [] => (s, [])
  end.

Fixpoint any_masked (s : Sim) (start : Z) (qty : nat) : bool :=
  match qty with
  | O => false
  | S q => isMasked s start || any_masked s (u16 (start + 1)) q
  end.

(** The values at [data], two bytes each, into consecutive registers. *)
Fixpoint write_range (s : Sim) (start : Z) (qty : nat) (data : bytes) : Sim :=
  match qty, data with
  | S q, v1 :: v2 :: data' => write_range (SetHolding s start (get16 v1 v2)) (u16 (start + 1)) q data'
  | _, _ => s
  end.

Definition fcWriteMultiple (s : Sim) (pdu : bytes) : Sim * bytes :=
  match pdu with
  | fc :: a1 :: a2 :: q1 :: q2 :: count :: data =>
      let start := get16 a1 a2 in
      let qty := get16 q1 q2 in
      if (qty <? 1)%Z || (123 <? qty)%Z then (s, exception fc excIllegalDataValue)
      else if negb (count =? qty * 2)%Z || (Z.of_nat (length data) <? qty * 2)%Z
      then (s, exception fc excIllegalDataValue)
      else if any_masked s start (Z.to_nat qty) then (s, exception fc excIllegalDataAddress)
      else (write_range s start (Z.to_nat qty) data, fc :: put16 start ++ put16 qty)
  | fc :: _ => (s, exception fc excIllegalDataValue)
  | [] => (s, [])
  end.

Definition dispatch (s : Sim) (pdu : bytes) : Sim * bytes :=
  match pdu with
  | [] => (s, exception 0 excIllegalFunction)
  | fc :: _ =>
      if (fc =? 3)%Z then (s, fcRead s (m_holding s) pdu)
      else if (fc =? 4)%Z then (s, fcRead s (m_input s) pdu)
      else if (fc =? 6)%Z then fcWriteSingle_h s pdu
      else if (fc =? 16)%Z then fcWriteMultiple s pdu
      else (s, exception fc excIllegalFunction)
  end.

Definition writeResponse (t1 t2 unitID : Z) (pdu : bytes) : bytes :=
  put16 (get16 t1 t2) ++ put16 0 ++ put16 (u16 (1 + Z.of_nat (length pdu))) ++ unitID :: pdu.

(** The loop of [handle] over the bytes received so far: the state, the bytes
    not consumed yet (an incomplete frame), the bytes sent, and whether the
    connection is still open. *)
Fixpoint handle (fuel : nat) (s : Sim) (inp : bytes) : Sim * bytes * bytes * bool :=
  match fuel, inp with
  | S fuel', t1 :: t2 :: p1 :: p2 :: l1 :: l2 :: rest =>
      let len := get16 l1 l2 in
      if negb (get16 p1 p2 =? 0)%Z then (s, rest, [], false)
      else if (len <? 1)%Z || (253 <? len)%Z then (s, rest, [], false)
      else
        match take (Z.to_nat len) rest with
        | unitID :: pdu =>
            if (Z.of_nat (length (unitID :: pdu)) <? len)%Z then (s, inp, [], true)
            else
              let '(s, resp) := dispatch (count_request s) pdu in
              let '(s, inp', out, op) := handle fuel' s (drop (Z.to_nat len) rest) in
              (s, inp', writeResponse t1 t2 unitID resp ++ out, op)
        | [] => (s, inp, [], true)
        end
  | _, _ => (s, inp, [], true)
  end.

(** ** The network whose other end is the simulator

    [n_in] is what the server has not consumed, [n_out] what the client has not
    read; a read that asks for more than there is runs into its deadline. *)
Record simnet : Type := mkNet
  { n_sim : Sim; n_in : bytes; n_out : bytes; n_open : bool; n_clock : Z }.

Definition net_tick (w : simnet) : simnet :=
  mkNet (n_sim w) (n_in w) (n_out w) (n_open w) (n_clock w + 1).

#[export] Instance sim_network : Network simnet := {|
  now w := (net_tick w, n_clock w);
  dial w _ := (mkNet (n_sim w) [] [] true (n_clock w), true);
  set_deadline w := (w, true);
  send w bs :=
    if n_open w then
      let inp := n_in w ++ bs in
      let '(s, inp', out, op) := handle (S (length inp)) (n_sim w) inp in
      (mkNet s inp' (n_out w ++ out) op (n_clock w), true)
    else (w, false);
  recv w n :=
    if decide (n <= length (n_out w)) then
      (mkNet (n_sim w) (n_in w) (drop n (n_out w)) (n_open w) (n_clock w), Some (take n (n_out w)))
    else (w, None)
|}.

Definition demo_sim : Sim :=
  mkSim {[ 10 := 65535; 11 := 300 ]}%Z {[ 7 := 258 ]}%Z {[ 11 := true ]}%Z 0.
Definition demo_bindings : list Binding :=
  [mkBinding "temp" Holding 10 true; mkBinding "flow" Input 7 false;
   mkBinding "masked" Holding 11 false; mkBinding "none" Input 8 false].
Definition demo_net : simnet := mkNet demo_sim [] [] true 0.

Example demo_collect :
  let '(d, w, _) := Init false "127.0.0.1:1502" "1" (New demo_bindings) demo_net in
  map (fun s => (s_Point s, s_Value s, s_Quality s)) (Collect d w).2 =
  [("temp", f_of_Z 65535, QGood); ("flow", f_of_Z 258, QGood);
   ("masked", f0, QSuspect); ("none", f0, QSuspect)].
Proof. vm_compute. reflexivity. Qed.

(** ** Two-byte integers *)

Lemma get16_add a b : is_byte b -> get16 a b = (a * 256 + b)%Z.
Proof.
  intros Hb. unfold get16. pose proof (Z.add_lor_land (Z.shiftl a 8) b) as Hl.
  assert (Z.land (Z.shiftl a 8) b = 0%Z) as H0.
  { apply Z.bits_inj'. intros n Hn. rewrite Z.land_spec, Z.bits_0, Z.shiftl_spec by done.
    destruct (Z.lt_ge_cases n 8).
    - by rewrite Z.testbit_neg_r by lia.
    - destruct (decide (b = 0%Z)) as [->|Hz]; [by rewrite Z.bits_0, andb_false_r|].
      rewrite (Z.bits_above_log2 b n); [by rewrite andb_false_r|unfold is_byte in Hb; lia|].
      apply Z.log2_lt_pow2; [unfold is_byte in Hb; lia|].
      apply Z.lt_le_trans with (2 ^ 8)%Z; [unfold is_byte in Hb; lia|].
      apply Z.pow_le_mono_r; lia. }
  rewrite Z.shiftl_mul_pow2 in * by lia. lia.
Qed.

Lemma get16_range a b : is_byte a -> is_byte b -> (0 <= get16 a b < 65536)%Z.
Proof. intros Ha Hb. rewrite get16_add by done. unfold is_byte in *. lia. Qed.

Lemma is_byte_mod n : is_byte (n mod 256).
Proof. unfold is_byte. apply Z.mod_pos_bound. lia. Qed.
#[export] Hint Resolve is_byte_mod : cios.

Lemma get16_put16 n : (0 <= n < 65536)%Z ->
  get16 (Z.shiftr n 8 mod 256) (n mod 256) = n.
Proof.
  intros Hn. rewrite get16_add by auto with cios. rewrite Z.shiftr_div_pow2 by lia.
  change (2 ^ 8)%Z with 256%Z. rewrite (Z.mod_small (n / 256) 256).
  - pose proof (Z.div_mod n 256). lia.
  - split; [apply Z.div_pos; lia|apply Z.div_lt_upper_bound; lia].
Qed.

Lemma put16_get16 a b : is_byte a -> is_byte b -> put16 (get16 a b) = [a; b].
Proof.
  intros Ha Hb. rewrite get16_add by done. unfold put16. rewrite Z.shiftr_div_pow2 by lia.
  change (2 ^ 8)%Z with 256%Z. unfold is_byte in *.
  rewrite Z.div_add_l, (Z.div_small b), Z.add_0_r, Z.mod_small by lia.
  rewrite Z.add_comm, Z.mod_add, Z.mod_small by lia. done.
Qed.

Lemma u16_range n : (0 <= u16 n < 65536)%Z.
Proof. unfold u16. apply (Z.mod_pos_bound n (2 ^ 16)). lia. Qed.

Lemma u16_small n : (0 <= n < 65536)%Z -> u16 n = n.
Proof. intros Hn. unfold u16. by apply Z.mod_small. Qed.

Lemma get16_put16_u16 n : get16 (Z.shiftr (u16 n) 8 mod 256) (u16 n mod 256) = u16 n.
Proof. apply get16_put16, u16_range. Qed.

Lemma to_uint16_range oor f : (0 <= to_uint16 oor f < 65536)%Z.
Proof.
  unfold to_uint16. destruct (ftrunc f) as [z|]; [|apply u16_range].
  destruct (_ && _) eqn:E; [|apply u16_range]. bool_simpl. lia.
Qed.

(** ** The contract of the driver over any network *)

(** The parts of the state a round trip leaves alone. *)
Definition same_but_txID (d d' : Driver) : Prop := d' = with_txID d (d_txID d').

Lemma same_but_txID_fields d d' : same_but_txID d d' ->
  d_bindings d' = d_bindings d /\ d_endpoint d' = d_endpoint d /\ d_conn d' = d_conn d /\
  d_errorCount d' = d_errorCount d /\ d_lastSuccess d' = d_lastSuccess d /\
  d_unitID d' = d_unitID d.
Proof. intros ->. done. Qed.

Definition good (s : Sample) : bool := bool_decide (s_Quality s = QGood).

Definition sample_ok (s : Sample) : Prop :=
  (s_Quality s = QGood /\ exists v, (0 <= v < 65536)%Z /\ s_Value s = f_of_Z v) \/
  (s_Quality s = QSuspect /\ s_Value s = f0).

Lemma suspect_ok p t : sample_ok (suspect p t).
Proof. by right. Qed.
#[export] Hint Resolve suspect_ok : cios.

Section contract.
Context {W : Type} `{NetworkOk W}.

Lemma roundTrip_state pdu d w :
  let '(d', _, r) := roundTrip pdu d w in
  same_but_txID d d' /\ match r with Ok resp => Forall is_byte resp /\ resp <> [] | Err _ => True end.
Proof.
  unfold roundTrip, nextTxID. destruct (d_conn d); cbn [negb].
  2: { split; [by destruct d|done]. }
  assert (forall t, same_but_txID d (with_txID d t)) as Hs by done.
  destruct (set_deadline w) as [w1 []]; cbn [negb]; [|done].
  destruct (send w1 _) as [w2 []]; cbn [negb]; [|done].
  destruct (set_deadline w2) as [w3 []]; cbn [negb]; [|done].
  destruct (recv w3 6) as [w4 [h|]] eqn:E6; [|done].
  destruct h as [|? [|? [|? [|? [|? [|? [|]]]]]]]; try done.
  destruct (negb (_ =? 0)%Z); [done|]. destruct (_ || _); [done|].
  destruct (negb (_ =? _)%Z); [done|].
  destruct (recv w4 _) as [w5 [rest|]] eqn:Er; [|done].
  destruct (recv_full _ _ _ _ Er) as [_ Hb].
  destruct rest as [|x [|fc data]]; try done. destruct (negb _); [by destruct data|].
  split; [done|]. split; [|done]. by inversion Hb.
Qed.

Lemma reconnect_state d w :
  let '(d', _, e) := reconnect d w in
  d_bindings d' = d_bindings d /\ d_errorCount d' = d_errorCount d /\
  d_lastSuccess d' = d_lastSuccess d /\ d_conn d' = match e with Some _ => false | None => true end /\
  d_endpoint d' = d_endpoint d /\ d_txID d' = d_txID d /\ d_unitID d' = d_unitID d.
Proof.
  unfold reconnect. destruct (str_eqb _ _); [done|]. by destruct (dial w _) as [w' []].
Qed.

(** What a round over the bindings [bs] promises, from [allGood] on. *)
Definition round_post (bs : list Binding) (allGood : bool) (d d' : Driver)
    (ss : list Sample) : Prop :=
  map s_Point ss = map b_Point bs /\ Forall sample_ok ss /\ d_bindings d' = d_bindings d /\
  (if forallb good ss then
     d_errorCount d' = d_errorCount d /\ d_conn d' = d_conn d /\
     (if allGood then is_Some (d_lastSuccess d') else d_lastSuccess d' = d_lastSuccess d)
   else (d_errorCount d < d_errorCount d')%Z /\ d_lastSuccess d' = d_lastSuccess d).

Lemma fillSuspect_spec bs w :
  map s_Point (fillSuspect bs w).2 = map b_Point bs /\
  Forall sample_ok (fillSuspect bs w).2.
Proof.
  unfold fillSuspect. destruct (now w) as [w' t]. cbn. rewrite map_map. split; [done|].
  apply Forall_map, Forall_true. auto with cios.
Qed.

(** A suspect sample in front: the round counted at least one error. *)
Lemma round_post_suspect b bs d d' t ss flag :
  map s_Point ss = map b_Point bs -> Forall sample_ok ss ->
  d_bindings d' = d_bindings d -> (d_errorCount d < d_errorCount d')%Z ->
  d_lastSuccess d' = d_lastSuccess d ->
  round_post (b :: bs) flag d d' (suspect (b_Point b) t :: ss).
Proof.
  intros Hp Hf Hb He Hl. split; [cbn; by rewrite Hp|].
  split; [by constructor; auto with cios|]. done.
Qed.

Lemma round_post_weaken bs d d' ss : round_post bs false d d' ss ->
  map s_Point ss = map b_Point bs /\ Forall sample_ok ss /\ d_bindings d' = d_bindings d /\
  (d_errorCount d <= d_errorCount d')%Z /\ d_lastSuccess d' = d_lastSuccess d.
Proof.
  intros (Hp & Hf & Hb & Hr). do 3 (split; [done|]).
  destruct (forallb good ss); destruct_and?; split; (lia || done).
Qed.

Lemma round_post_good b bs d d1 d' v t ss flag :
  same_but_txID d d1 -> (0 <= v < 65536)%Z -> round_post bs flag d1 d' ss ->
  round_post (b :: bs) flag d d' (mkSample (b_Point b) (f_of_Z v) t QGood :: ss).
Proof.
  intros (Hb & _ & Hc & He & Hl & _)%same_but_txID_fields Hv (Hp & Hf & Hb' & Hr).
  split; [cbn; by rewrite Hp|]. split; [constructor; [left; eauto|done]|].
  split; [by rewrite Hb'|]. cbn [forallb]. change (good (mkSample _ _ _ QGood)) with true.
  cbn [andb]. rewrite <- He, <- Hl, <- Hc. done.
Qed.

Lemma lose_conn_post b bs go_on e flag d0 d w :
  (forall d w, let '(d', _, ss) := go_on d w in round_post bs false d d' ss) ->
  same_but_txID d0 d ->
  let '(d', _, ss) := lose_conn b bs go_on e d w in round_post (b :: bs) flag d0 d' ss.
Proof.
  intros Hgo (Hb & _ & _ & He & Hl & _)%same_but_txID_fields. unfold lose_conn.
  destruct (now w) as [w2 t]. pose proof (reconnect_state (closeConn (recordErr d e)) w2) as Hrc.
  destruct (reconnect _ w2) as [[d2 w3] [err|]]; cbn in Hrc; destruct_and!.
  - pose proof (fillSuspect_spec bs w3) as [Hp Hf]. destruct (fillSuspect bs w3) as [w4 rest].
    apply round_post_suspect; (done || congruence || lia).
  - specialize (Hgo d2 w3). destruct (go_on d2 w3) as [[d3 w4] rest].
    apply round_post_weaken in Hgo. destruct_and!.
    apply round_post_suspect; (done || congruence || lia).
Qed.

Lemma collect_loop_post bs : forall allGood d w,
  let '(d', _, ss) := collect_loop bs allGood d w in round_post bs allGood d d' ss.
Proof.
  induction bs as [|b bs IH]; intros allGood d w; cbn [collect_loop].
  { destruct allGood; [destruct (now w) as [w' t]|]; repeat split; (done || eauto). }
  pose proof (roundTrip_state (read_pdu b) d w) as Hrt.
  destruct (roundTrip (read_pdu b) d w) as [[d1 w1] r]. destruct Hrt as [Hs Hr].
  pose proof (lose_conn_post b bs (collect_loop bs false)) as Hlose.
  destruct r as [resp|e].
  - destruct Hr as [Hbytes _].
    destruct resp as [|x1 [|x2 [|hi [|lo rest]]]]; try (apply Hlose; [apply IH|done]).
    destruct (now w1) as [w2 t]. specialize (IH allGood d1 w2).
    destruct (collect_loop bs allGood d1 w2) as [[d2 w3] ss].
    apply (round_post_good _ _ _ d1); [done| |done]. inversion_clear Hbytes as [|? ? _ Hb1].
    inversion_clear Hb1 as [|? ? _ Hb2]. inversion_clear Hb2 as [|? ? Hhi Hb3].
    inversion_clear Hb3. by apply get16_range.
  - destruct (isModbusException e); [|apply Hlose; [apply IH|done]].
    destruct (now w1) as [w2 t]. specialize (IH false (recordErr d1 e) w2).
    destruct (collect_loop bs false (recordErr d1 e) w2) as [[d2 w3] ss].
    apply round_post_weaken in IH. apply same_but_txID_fields in Hs. cbn in IH. destruct_and!.
    apply round_post_suspect; (done || congruence || lia).
Qed.


(** What holds of a write once it has begun. *)
Definition write_post (d d' : Driver) (r : ControlResult) (err : option mb_err) : Prop :=
  (r_Accepted r = true <-> err = None) /\
  (r_Accepted r = true -> exists v, (0 <= v < 65536)%Z /\ r_Readback r = f_of_Z v) /\
  d_lastSuccess d' = d_lastSuccess d /\ d_bindings d' = d_bindings d.

Lemma write_refused_post d d' e :
  d_lastSuccess d' = d_lastSuccess d -> d_bindings d' = d_bindings d ->
  write_post d d' refused (Some e).
Proof. by repeat split. Qed.

Lemma write_failed_post d d1 e :
  same_but_txID d d1 -> write_post d (write_failed d1 e) refused (Some e).
Proof.
  intros (Hb & _ & _ & _ & Hl & _)%same_but_txID_fields. unfold write_failed.
  destruct (isModbusException e); by apply write_refused_post.
Qed.

(** Both round trips of a write, on an open connection. *)
Lemma write_rounds_post reg val d w :
  let '(d', _, (r, err)) := write_rounds reg val d w in write_post d d' r err.
Proof.
  unfold write_rounds. set (pdu1 := _ :: _). set (pdu2 := _ :: _ ++ [0; 1]%Z).
  pose proof (roundTrip_state pdu1 d w) as H1.
  destruct (roundTrip pdu1 d w) as [[d1 w1] [resp1|e]]; destruct H1 as [Hs1 _];
    [|by apply write_failed_post].
  pose proof (roundTrip_state pdu2 d1 w1) as H2.
  destruct (roundTrip pdu2 d1 w1) as [[d2 w2] [resp|e]]; destruct H2 as [Hs2 Hr];
    (assert (same_but_txID d d2) as Hs by (rewrite Hs2, Hs1; done));
    [|by apply write_failed_post].
  pose proof (same_but_txID_fields _ _ Hs) as (Hb & _ & _ & _ & Hl & _).
  destruct Hr as [Hbytes _].
  destruct resp as [|x1 [|x2 [|hi [|lo rest]]]]; try by apply write_refused_post.
  destruct (now w2) as [w3 t]. split; [done|]. split; [|done]. intros _.
  exists (get16 hi lo). split; [|done]. rewrite !Forall_cons in Hbytes.
  apply get16_range; apply Hbytes.
Qed.

Lemma Write_contract oor ctx_err cmd d w :
  let '(d', w', (r, err)) := Write oor ctx_err cmd d w in
  (r_Accepted r = true <-> err = None) /\
  (r_Accepted r = true -> exists v, (0 <= v < 65536)%Z /\ r_Readback r = f_of_Z v) /\
  d_lastSuccess d' = d_lastSuccess d /\ d_bindings d' = d_bindings d /\
  ((d' = d /\ w' = w /\ r_Accepted r = false) \/
   (ctx_err = false /\ (0 < c_TTL cmd)%Z /\
    exists b, find_binding (c_Point cmd) (d_bindings d) = Some b /\ b_Writable b = true)).
Proof.
  unfold Write. destruct ctx_err; [by repeat split; auto|].
  destruct (find_binding _ _) as [b|]; [|by repeat split; auto].
  destruct (b_Writable b) eqn:Ew; cbn [negb]; [|by repeat split; auto].
  destruct (Z.leb_spec (c_TTL cmd) 0); [by repeat split; auto|].
  assert (Hgo : false = false /\ (0 < c_TTL cmd)%Z /\
    exists b0, Some b = Some b0 /\ b_Writable b0 = true) by eauto.
  destruct (d_conn d).
  { pose proof (write_rounds_post (b_Register b) (to_uint16 oor (c_Value cmd)) d w) as Hp.
    destruct (write_rounds _ _ d w) as [[d' w'] [r err]]. destruct Hp as (? & ? & ? & ?). auto 6. }
  pose proof (reconnect_state d w) as Hrc.
  destruct (reconnect d w) as [[d1 w1] [e|]]; destruct_and!.
  { by repeat split; auto. }
  pose proof (write_rounds_post (b_Register b) (to_uint16 oor (c_Value cmd)) d1 w1) as Hp.
  destruct (write_rounds _ _ d1 w1) as [[d' w'] [r err]]. destruct Hp as (Ha & Hv & Hl & Hb).
  rewrite Hl, Hb. repeat (split; [done|]). right. eauto.
Qed.

(** A control write reaches the wire only for a point of the table that is
    writable and with time left; otherwise neither the driver nor the
    connection changes. It is accepted exactly when no error is returned, and
    then the value read back has sixteen bits. A write never moves the time of
    the last successful round, on any network. *)
Lemma Write_guarded oor ctx_err cmd d w :
  let '(d', w', (r, err)) := Write oor ctx_err cmd d w in
  (r_Accepted r = true <-> err = None) /\
  (r_Accepted r = true -> exists v, (0 <= v < 65536)%Z /\ r_Readback r = f_of_Z v) /\
  d_lastSuccess d' = d_lastSuccess d /\ d_bindings d' = d_bindings d /\
  ((d' = d /\ w' = w /\ r_Accepted r = false) \/
   (ctx_err = false /\ (0 < c_TTL cmd)%Z /\
    exists b, find_binding (c_Point cmd) (d_bindings d) = Some b /\ b_Writable b = true)).
Proof. apply Write_contract. Qed.

End contract.

(** ** The driver and the simulator

    The abstract device: three tables of registers, read and written directly. *)
Record regs : Type := mkRegs { g_holding : gmap Z Z; g_input : gmap Z Z; g_masked : gmap Z bool }.

Definition regs_of (s : Sim) : regs := mkRegs (m_holding s) (m_input s) (m_masked s).

Definition masked (g : regs) (a : Z) : bool := default false (g_masked g !! a).

Definition device_read (g : regs) (b : Binding) : option Z :=
  if masked g (b_Register b) then None
  else (if bool_decide (b_Table b = Holding) then g_holding g else g_input g) !! b_Register b.

Definition view (s : Sample) : string * float64 * Quality := (s_Point s, s_Value s, s_Quality s).

Definition reading (g : regs) (b : Binding) : string * float64 * Quality :=
  match device_read g b with
  | Some v => (b_Point b, f_of_Z v, QGood)
  | None => (b_Point b, f0, QSuspect)
  end.

Definition u16_map (m : gmap Z Z) : Prop := map_Forall (fun _ v => (0 <= v < 65536)%Z) m.
Definition regs_ok (g : regs) : Prop := u16_map (g_holding g) /\ u16_map (g_input g).

Definition binding_ok (b : Binding) : Prop :=
  b_Table b <> OtherTable /\ (0 <= b_Register b < 65536)%Z /\
  (b_Writable b = true -> b_Table b = Holding).

(** The connection is up and nothing is in flight. *)
Definition idle (w : simnet) : Prop := n_in w = [] /\ n_out w = [] /\ n_open w = true.

Definition answer (resp : bytes) : result mb_err bytes :=
  match resp with
  | fc :: data =>
      if negb (Z.land fc exceptionMask =? 0)%Z then
        match data with
        | [] => Err (EConnLost CTruncatedException)
        | code :: _ => Err (EException code)
        end
      else Ok resp
  | [] => Err (EConnLost CEmptyPDU)
  end.

Lemma handle_frame fuel s tx uid pdu s' resp :
  (0 <= tx < 65536)%Z -> length pdu < 253 ->
  dispatch (count_request s) pdu = (s', resp) ->
  handle (S (S fuel)) s (mbap tx uid pdu) =
  (s', [], put16 tx ++ put16 0 ++ put16 (u16 (1 + Z.of_nat (length resp))) ++ uid :: resp, true).
Proof.
  intros Htx Hl Hd. unfold mbap, put16. cbn [app]. remember (S fuel) as f eqn:Ef. cbn [handle].
  rewrite get16_put16 by (pose proof (u16_range (1 + Z.of_nat (length pdu))); lia).
  change (get16 0 0 =? 0)%Z with true. cbn [negb].
  rewrite u16_small by lia.
  destruct (Z.ltb_spec (1 + Z.of_nat (length pdu)) 1); [lia|].
  destruct (Z.ltb_spec 253 (1 + Z.of_nat (length pdu))); [lia|]. cbn [orb].
  replace (Z.to_nat (1 + Z.of_nat (length pdu))) with (length (uid :: pdu)) by (cbn; lia).
  rewrite firstn_all, skipn_all. cbn [length].
  destruct (Z.ltb_spec (Z.of_nat (S (length pdu))) (1 + Z.of_nat (length pdu))); [lia|].
  rewrite Hd. subst f. cbn [handle]. unfold writeResponse. rewrite get16_put16 by done.
  rewrite app_nil_r. done.
Qed.

Lemma roundTrip_sim pdu d w s' resp :
  d_conn d = true -> idle w -> length pdu < 253 -> 1 <= length resp < 253 ->
  dispatch (count_request (n_sim w)) pdu = (s', resp) ->
  roundTrip pdu d w =
  (with_txID d (u16 (d_txID d + 1)), mkNet s' [] [] true (n_clock w), answer resp).
Proof.
  intros Hc (Hin & Hout & Hop) Hl Hr Hd. unfold roundTrip, nextTxID. rewrite Hc. cbn [negb].
  cbn [set_deadline send recv sim_network negb]. rewrite Hop, Hin, Hout. cbn [app].
  set (tx := u16 (d_txID d + 1)). assert (0 <= tx < 65536)%Z as Htx by apply u16_range.
  change (d_unitID (with_txID d tx)) with (d_unitID d).
  replace (length (mbap tx (d_unitID d) pdu)) with (S (6 + length pdu))
    by (unfold mbap; rewrite !length_app; cbn; lia).
  rewrite (handle_frame _ _ tx (d_unitID d) pdu s' resp Htx Hl Hd).
  unfold put16. cbn [app n_out n_sim n_in n_open n_clock negb].
  rewrite decide_True by (cbn; lia). cbn [take drop n_out n_sim n_in n_open n_clock].
  rewrite (get16_put16 0), (get16_put16 tx), (u16_small (1 + _)), get16_put16 by (done || lia).
  rewrite !Z.eqb_refl. cbn [negb].
  destruct (Z.ltb_spec (1 + Z.of_nat (length resp)) 2); [lia|].
  destruct (Z.ltb_spec 253 (1 + Z.of_nat (length resp))); [lia|]. cbn [orb].
  replace (Z.to_nat (1 + Z.of_nat (length resp))) with (S (length resp)) by lia.
  rewrite decide_True by (cbn; lia). cbn [take drop]. rewrite firstn_all, skipn_all.
  destruct resp as [|fc data]; [cbn in Hr; lia|]. unfold answer.
  destruct (negb _); [by destruct data|done].
Qed.

Lemma isMasked_count s a : isMasked (count_request s) a = isMasked s a.
Proof. done. Qed.

(** What the simulator answers to the requests of the driver. *)
Lemma fcRead_one s tbl fc r :
  (0 <= r < 65536)%Z ->
  fcRead s tbl (fc :: put16 r ++ [0; 1]%Z) =
  match (if isMasked s r then None else tbl !! r) with
  | Some v => fc :: 2%Z :: put16 v
  | None => exception fc excIllegalDataAddress
  end.
Proof.
  intros Hr. unfold put16. cbn [app fcRead]. rewrite get16_put16 by done.
  change (get16 0 1) with 1%Z. change ((1 <? 1)%Z || (125 <? 1)%Z) with false. cbv iota.
  change (Z.to_nat 1) with 1. cbn [readRange]. destruct (isMasked s r); [done|].
  by destruct (tbl !! r).
Qed.

Lemma dispatch_read s b :
  binding_ok b ->
  dispatch s (read_pdu b) =
  (s, let fc := if bool_decide (b_Table b = Holding) then fcReadHolding else fcReadInput in
      match device_read (regs_of s) b with
      | Some v => fc :: 2%Z :: put16 v
      | None => exception fc excIllegalDataAddress
      end).
Proof.
  intros (_ & Hr & _). unfold read_pdu, device_read.
  change (masked (regs_of s) (b_Register b)) with (isMasked s (b_Register b)).
  destruct (bool_decide (b_Table b = Holding)); cbn [dispatch]; rewrite <- fcRead_one; done.
Qed.

Lemma dispatch_write s r v :
  (0 <= r < 65536)%Z -> (0 <= v < 65536)%Z ->
  dispatch s (fcWriteSingle :: put16 r ++ put16 v) =
  if isMasked s r then (s, exception fcWriteSingle excIllegalDataAddress)
  else (SetHolding s r v, fcWriteSingle :: put16 r ++ put16 v).
Proof.
  intros Hr Hv. unfold put16. cbn [app dispatch fcWriteSingle Z.eqb Pos.eqb fcWriteSingle_h].
  by rewrite !get16_put16 by done.
Qed.

Lemma device_read_range g b v : regs_ok g -> device_read g b = Some v -> (0 <= v < 65536)%Z.
Proof.
  intros [Hh Hi]. unfold device_read. destruct (masked _ _); [done|].
  destruct (bool_decide _); [apply Hh|apply Hi].
Qed.

Definition fresh_net (s : Sim) (clock : Z) : simnet := mkNet s [] [] true clock.

Lemma idle_fresh s t : idle (fresh_net s t).
Proof. done. Qed.
#[local] Hint Resolve idle_fresh : core.

Lemma roundTrip_read b d w :
  d_conn d = true -> idle w -> binding_ok b ->
  roundTrip (read_pdu b) d w =
  (with_txID d (u16 (d_txID d + 1)), fresh_net (count_request (n_sim w)) (n_clock w),
   match device_read (regs_of (n_sim w)) b with
   | Some v => Ok ((if bool_decide (b_Table b = Holding) then fcReadHolding else fcReadInput)
                     :: 2%Z :: put16 v)
   | None => Err (EException excIllegalDataAddress)
   end).
Proof.
  intros Hc Hw Hb.
  pose proof (dispatch_read (count_request (n_sim w)) b Hb) as Hd.
  eapply (roundTrip_sim _ d w) in Hd; [|done|done|cbn; lia|].
  2: { destruct (device_read (regs_of (count_request (n_sim w))) b); cbn; lia. }
  rewrite Hd.
  change (regs_of (count_request (n_sim w))) with (regs_of (n_sim w)).
  destruct (bool_decide _); by destruct (device_read _ b).
Qed.

(** A session: the connection is up on both sides, the table was accepted. *)
Definition session (d : Driver) (w : simnet) : Prop :=
  d_conn d = true /\ idle w /\ regs_ok (regs_of (n_sim w)) /\ Forall binding_ok (d_bindings d).

Lemma collect_loop_sim bs : forall flag d w,
  d_conn d = true -> idle w -> regs_ok (regs_of (n_sim w)) -> Forall binding_ok bs ->
  let '(d', w', ss) := collect_loop bs flag d w in
  map view ss = map (reading (regs_of (n_sim w))) bs /\ idle w' /\
  regs_of (n_sim w') = regs_of (n_sim w) /\ d_conn d' = true /\ d_bindings d' = d_bindings d.
Proof.
  induction bs as [|b bs IH]; intros flag d w Hc Hw Hg Hbs; cbn [collect_loop].
  { destruct flag; cbn; by repeat split; try apply Hw. }
  apply Forall_cons in Hbs as [Hb Hbs]. rewrite roundTrip_read by done.
  set (w1 := fresh_net _ _). set (d1 := with_txID _ _).
  assert (reading (regs_of (n_sim w)) b = match device_read (regs_of (n_sim w)) b with
    | Some v => (b_Point b, f_of_Z v, QGood) | None => (b_Point b, f0, QSuspect) end) as Hrd by done.
  cbn [map]. rewrite Hrd. clear Hrd.
  destruct (device_read (regs_of (n_sim w)) b) as [v|] eqn:Ev.
  - cbn [put16]. unfold put16. cbn [now sim_network].
    specialize (IH flag d1 (net_tick w1)). destruct (collect_loop bs flag d1 _) as [[d2 w2] ss].
    destruct IH as (Hss & Hw2 & Hg2 & Hc2 & Hb2); [done..|].
    cbn [map]. rewrite Hss. unfold view at 1. cbn [s_Point s_Value s_Quality].
    by rewrite get16_put16 by (by apply (device_read_range (regs_of (n_sim w)) b)).
  - cbn [isModbusException now sim_network].
    specialize (IH false (recordErr d1 (EException excIllegalDataAddress)) (net_tick w1)).
    destruct (collect_loop bs false _ _) as [[d2 w2] ss].
    destruct IH as (Hss & Hw2 & Hg2 & Hc2 & Hb2); [done..|].
    cbn [map]. by rewrite Hss.
Qed.

(** *** The abstract device and the run of the system *)

Inductive event : Type :=
  | ECollect
  | EWrite (cmd : ControlCommand)
  | ESetHolding (addr val : Z)
  | ESetInput (addr val : Z)
  | EMask (addr : Z)
  | EUnmask (addr : Z).

Inductive out : Type :=
  | ORound (rs : list (string * float64 * Quality))
  | OWritten (accepted : bool) (readback : float64) (err : option mb_err)
  | ONone.

Definition device_write (oor : float64 -> Z) (bs : list Binding) (g : regs) (cmd : ControlCommand) :
    regs * out :=
  match find_binding (c_Point cmd) bs with
  | None => (g, OWritten false f0 (Some ENotWritable))
  | Some b =>
      if negb (b_Writable b) then (g, OWritten false f0 (Some ENotWritable))
      else if (c_TTL cmd <=? 0)%Z then (g, OWritten false f0 (Some EExpired))
      else if masked g (b_Register b)
      then (g, OWritten false f0 (Some (EException excIllegalDataAddress)))
      else
        let v := to_uint16 oor (c_Value cmd) in
        (mkRegs (<[b_Register b := v]> (g_holding g)) (g_input g) (g_masked g),
         OWritten true (f_of_Z v) None)
  end.

Definition device_step (oor : float64 -> Z) (bs : list Binding) (g : regs) (e : event) : regs * out :=
  match e with
  | ECollect => (g, ORound (map (reading g) bs))
  | EWrite cmd => device_write oor bs g cmd
  | ESetHolding a v => (mkRegs (<[a := v]> (g_holding g)) (g_input g) (g_masked g), ONone)
  | ESetInput a v => (mkRegs (g_holding g) (<[a := v]> (g_input g)) (g_masked g), ONone)
  | EMask a => (mkRegs (g_holding g) (g_input g) (<[a := true]> (g_masked g)), ONone)
  | EUnmask a => (mkRegs (g_holding g) (g_input g) (delete a (g_masked g)), ONone)
  end.

Definition on_sim (f : Sim -> Sim) (w : simnet) : simnet :=
  mkNet (f (n_sim w)) (n_in w) (n_out w) (n_open w) (n_clock w).

Definition driver_step (oor : float64 -> Z) (d : Driver) (w : simnet) (e : event) :
    Driver * simnet * out :=
  match e with
  | ECollect => let '(d, w, ss) := Collect d w in (d, w, ORound (map view ss))
  | EWrite cmd =>
      let '(d, w, (r, err)) := Write oor false cmd d w in
      (d, w, OWritten (r_Accepted r) (r_Readback r) err)
  | ESetHolding a v => (d, on_sim (fun s => SetHolding s a v) w, ONone)
  | ESetInput a v => (d, on_sim (fun s => SetInput s a v) w, ONone)
  | EMask a => (d, on_sim (fun s => Mask s a) w, ONone)
  | EUnmask a => (d, on_sim (fun s => Unmask s a) w, ONone)
  end.

Definition event_ok (e : event) : Prop :=
  match e with
  | ESetHolding _ v | ESetInput _ v => (0 <= v < 65536)%Z
  | _ => True
  end.

Fixpoint device_run (oor : float64 -> Z) (bs : list Binding) (g : regs) (es : list event) : list out :=
  match es with
  | [] => []
  | e :: es' => let '(g, o) := device_step oor bs g e in o :: device_run oor bs g es'
  end.

Fixpoint driver_run (oor : float64 -> Z) (d : Driver) (w : simnet) (es : list event) : list out :=
  match es with
  | [] => []
  | e :: es' => let '(d, w, o) := driver_step oor d w e in o :: driver_run oor d w es'
  end.

Lemma u16_map_insert m a v : u16_map m -> (0 <= v < 65536)%Z -> u16_map (<[a := v]> m).
Proof. intros Hm Hv. by apply map_Forall_insert_2. Qed.

Lemma find_binding_In point bs b :
  find_binding point bs = Some b -> b ∈ bs /\ b_Point b = point.
Proof.
  intros H. apply List.find_some in H as [Hin He]. split; [by apply list_elem_of_In|].
  by apply str_eqb_eq.
Qed.

Lemma roundTrip_write d w r v :
  d_conn d = true -> idle w -> (0 <= r < 65536)%Z -> (0 <= v < 65536)%Z ->
  roundTrip (fcWriteSingle :: put16 r ++ put16 v) d w =
  (with_txID d (u16 (d_txID d + 1)),
   fresh_net (if isMasked (n_sim w) r then count_request (n_sim w)
              else SetHolding (count_request (n_sim w)) r v) (n_clock w),
   if isMasked (n_sim w) r then Err (EException excIllegalDataAddress)
   else Ok (fcWriteSingle :: put16 r ++ put16 v)).
Proof.
  intros Hc Hw Hr Hv. pose proof (dispatch_write (count_request (n_sim w)) r v Hr Hv) as Hd.
  rewrite isMasked_count in Hd.
  destruct (isMasked (n_sim w) r); eapply (roundTrip_sim _ d w) in Hd;
    (done || (cbn; lia) || (rewrite Hd; done)).
Qed.

Lemma session_step d d' w w' :
  session d w -> d_conn d' = true -> d_bindings d' = d_bindings d -> idle w' ->
  regs_ok (regs_of (n_sim w')) -> session d' w'.
Proof. intros (_ & _ & _ & Hb) Hc Hb' Hw Hg. by rewrite <- Hb' in Hb. Qed.

(** One write through the connection. *)
Lemma Write_sim oor cmd d w :
  session d w ->
  let '(d', w', (r, err)) := Write oor false cmd d w in
  session d' w' /\ d_bindings d' = d_bindings d /\
  (regs_of (n_sim w'), OWritten (r_Accepted r) (r_Readback r) err) =
  device_write oor (d_bindings d) (regs_of (n_sim w)) cmd.
Proof.
  intros Hs. pose proof Hs as (Hc & Hw & Hg & Hbs). unfold Write, device_write.
  destruct (find_binding _ _) as [b|] eqn:Ef; [|done].
  apply find_binding_In in Ef as [Hin _].
  pose proof (proj1 (Forall_forall _ _) Hbs b Hin) as (Ht & Hr & Hwr).
  destruct (b_Writable b); [|done]. cbn [negb]. specialize (Hwr eq_refl).
  destruct (c_TTL cmd <=? 0)%Z; [done|]. rewrite Hc. unfold write_rounds.
  set (v := to_uint16 oor (c_Value cmd)).
  assert (0 <= v < 65536)%Z as Hv by apply to_uint16_range.
  rewrite (roundTrip_write d w) by done.
  change (masked (regs_of (n_sim w)) (b_Register b)) with (isMasked (n_sim w) (b_Register b)).
  destruct (isMasked (n_sim w) (b_Register b)) eqn:Em.
  { cbn. split; [|done]. by apply (session_step d _ w). }
  set (s1 := SetHolding (count_request (n_sim w)) (b_Register b) v).
  set (d1 := with_txID d _). set (w1 := fresh_net s1 _).
  pose proof (roundTrip_read (mkBinding (b_Point b) Holding (b_Register b) true) d1 w1) as Hrd.
  change (read_pdu _) with (fcReadHolding :: put16 (b_Register b) ++ [0; 1]%Z) in Hrd.
  rewrite Hrd by (done || by repeat split).
  assert (device_read (regs_of (n_sim w1)) (mkBinding (b_Point b) Holding (b_Register b) true) = Some v)
    as ->.
  { assert (masked (regs_of (n_sim w1)) (b_Register b) = false) as Hm by exact Em.
    unfold device_read. cbn [b_Register b_Table]. rewrite Hm, bool_decide_true by done.
    apply lookup_insert_eq. }
  cbn. rewrite get16_put16 by done. split; [|done].
  apply (session_step d _ w); try done. split; [|apply Hg]. apply u16_map_insert; [apply Hg|done].
Qed.

Lemma Collect_sim d w :
  session d w ->
  let '(d', w', ss) := Collect d w in
  session d' w' /\ d_bindings d' = d_bindings d /\ regs_of (n_sim w') = regs_of (n_sim w) /\
  map view ss = map (reading (regs_of (n_sim w))) (d_bindings d).
Proof.
  intros Hs. pose proof Hs as (Hc & Hw & Hg & Hbs). unfold Collect. rewrite Hc.
  pose proof (collect_loop_sim (d_bindings d) true d w Hc Hw Hg Hbs) as Hl.
  destruct (collect_loop _ true d w) as [[d' w'] ss]. destruct Hl as (Hss & Hw' & Hg' & Hc' & Hb').
  split; [|done]. apply (session_step d _ w); try done. by rewrite Hg'.
Qed.

Lemma driver_step_sim oor e d w :
  event_ok e -> session d w ->
  let '(d', w', o) := driver_step oor d w e in
  session d' w' /\ d_bindings d' = d_bindings d /\
  (regs_of (n_sim w'), o) = device_step oor (d_bindings d) (regs_of (n_sim w)) e.
Proof.
  intros He Hs. pose proof Hs as (Hc & Hw & [Hh Hi] & Hbs).
  destruct e as [|cmd|a v|a v|a|a]; cbn [driver_step device_step] in *.
  - pose proof (Collect_sim d w Hs) as Hl. destruct (Collect d w) as [[d' w'] ss].
    destruct Hl as (Hs' & Hb & Hg & Hss). by rewrite Hg, Hss.
  - pose proof (Write_sim oor cmd d w Hs) as Hl.
    by destruct (Write oor false cmd d w) as [[d' w'] [r err]].
  - split; [|done]. apply (session_step d _ w); try done. split; [by apply u16_map_insert|done].
  - split; [|done]. apply (session_step d _ w); try done. split; [done|by apply u16_map_insert].
  - split; [|done]. by apply (session_step d _ w).
  - split; [|done]. by apply (session_step d _ w).
Qed.

Lemma driver_run_sim oor es : forall d w, Forall event_ok es -> session d w ->
  driver_run oor d w es = device_run oor (d_bindings d) (regs_of (n_sim w)) es.
Proof.
  induction es as [|e es IH]; intros d w Hes Hs; [done|]. apply Forall_cons in Hes as [He Hes].
  cbn [driver_run device_run]. pose proof (driver_step_sim oor e d w He Hs) as Hst.
  destruct (driver_step oor d w e) as [[d' w'] o]. destruct Hst as (Hs' & Hb & Hst).
  rewrite <- Hst. f_equal. rewrite IH by done. by rewrite Hb.
Qed.

(** The table [Init] accepts. *)
Lemma check_bindings_ok bs : forall i seen,
  check_bindings i seen bs = None ->
  Forall (fun b => b_Point b <> EmptyString /\ b_Table b <> OtherTable /\
                   (b_Writable b = true -> b_Table b = Holding) /\ (b_Point b ∉ seen)) bs /\
  NoDup (map b_Point bs).
Proof.
  induction bs as [|b bs IH]; intros i seen Hc; cbn in Hc; [by repeat constructor|].
  destruct (str_eqb (b_Point b) EmptyString) eqn:Ee; [done|]. apply str_eqb_neq in Ee.
  destruct (bool_decide_reflect (b_Table b = OtherTable)) as [|Ht]; [done|].
  destruct (bool_decide (b_Table b = Input) && b_Writable b) eqn:Ew; [done|].
  destruct (bool_decide_reflect (b_Point b ∈ seen)) as [|Hn]; [done|].
  apply IH in Hc as [Hf Hnd]. split.
  - constructor.
    + repeat split; try done. intros Hwr. rewrite Hwr, andb_true_r in Ew.
      apply bool_decide_eq_false in Ew. by destruct (b_Table b).
    + eapply Forall_impl; [exact Hf|]. cbn. intros b' (? & ? & ? & Hs). repeat split; try done.
      intros Hin. by apply Hs, elem_of_union_r.
  - cbn. constructor; [|done]. intros Hin. apply list_elem_of_In, in_map_iff in Hin as (b' & Hp & Hb').
    rewrite Forall_forall in Hf. apply list_elem_of_In in Hb'.
    destruct (Hf b' Hb') as (_ & _ & _ & Hs). apply Hs, elem_of_union_l, elem_of_singleton, Hp.
Qed.

(** C21: the driver refines a device with three register tables. After [Init] has
    accepted the binding table, every sequence of rounds, control writes and
    changes at the device gives through two TCP byte streams and the simulator
    exactly the results of reading and writing the tables directly: a good
    sample with the register's value where it is defined and not masked, a
    suspect one elsewhere; a write that is accepted only for a writable point
    with time left, stores the converted value and reads it back. *)
Theorem driver_refines_device oor bs s endpoint unit_id es :
  Forall (fun b => 0 <= b_Register b < 65536)%Z bs -> regs_ok (regs_of s) ->
  Forall event_ok es ->
  let '(d, w, err) := Init false endpoint unit_id (New bs) (fresh_net s 0) in
  match err with
  | None => driver_run oor d w es = device_run oor bs (regs_of s) es
  | Some _ => d = New bs /\ w = fresh_net s 0
  end.
Proof.
  intros Hr Hg Hes. unfold Init. cbn [d_bindings New].
  destruct bs as [|b0 bs0] eqn:Ebs; [done|]. rewrite <- Ebs in *.
  destruct (check_bindings 0 ∅ bs) eqn:Ec; [done|].
  destruct (ParseUint 8 _) as [uid|]; [|done]. cbn [dial sim_network].
  rewrite driver_run_sim; [done|done|]. split; [done|]. split; [done|]. split; [done|].
  apply check_bindings_ok in Ec as [Hf _]. cbn.
  apply Forall_forall. intros b Hb. rewrite Forall_forall in Hf, Hr.
  destruct (Hf b Hb) as (_ & Ht & Hw & _). by split; [|split; [apply Hr|]].
Qed.

(** ** Concrete runs

    A peer that sends a prepared stream of bytes, whatever it is asked. *)
Record scripted : Type := mkScripted { x_stream : list Z; x_clock : Z }.

#[export] Instance scripted_network : Network scripted := {|
  now w := (mkScripted (x_stream w) (x_clock w + 1), x_clock w);
  dial w _ := (w, true);
  set_deadline w := (w, true);
  send w _ := (w, true);
  recv w n :=
    if decide (n <= length (x_stream w)) then
      (mkScripted (drop n (x_stream w)) (x_clock w),
       Some (map (fun b => (b mod 256)%Z) (take n (x_stream w))))
    else (w, None)
|}.

#[export] Instance scripted_ok : NetworkOk scripted.
Proof.
  intros w n w' bs. cbn. destruct (decide _); [|done]. intros [= <- <-].
  rewrite length_map, length_take. split; [lia|]. apply Forall_map, Forall_true.
  intros b. apply is_byte_mod.
Qed.

Definition demo_driver : Driver :=
  mkDriver demo_bindings "127.0.0.1:1502" 1 true 0 true None 0 None.

(** The first answer is a good one, then the stream breaks off. *)
Definition demo_stream : list Z := [0; 1; 0; 0; 0; 5; 1; 3; 2; 1; 44; 9]%Z.


(** An answer to another function, from another unit, is taken for the reading:
    [roundTrip] compares the transaction id alone. *)
Example other_function_accepted :
  map view (Collect (mkDriver [mkBinding "temp" Holding 10 true] "plc" 1 true 0 true None 0 None)
    (mkScripted [0; 1; 0; 0; 0; 6; 77; 6; 0; 99; 1; 44]%Z 0)).2 = [("temp", f_of_Z 25345, QGood)].
Proof. vm_compute. reflexivity. Qed.

Definition demo_oor (f : float64) : Z :=
  match ftrunc f with Some z => (z mod 2 ^ 32)%Z | None => 0%Z end.

(** A set point that does not fit sixteen bits is written wrapped and accepted:
    70000 becomes 4464 (with a conversion that truncates). *)
Example wide_set_point_wraps :
  (Write demo_oor false (mkCommand "temp" (f_of_Z 70000) "r1" 5) demo_driver demo_net).2 =
  (mkResult true (f_of_Z 4464) (Some 0%Z), None).
Proof. vm_compute. reflexivity. Qed.

Definition demo_events : list event :=
  [ECollect; EWrite (mkCommand "temp" (f_of_Z 42) "r1" 5); EUnmask 11; ESetInput 7 9; ECollect;
   EWrite (mkCommand "flow" (f_of_Z 1) "r2" 5)].

Lemma driver_refines_device_witness :
  driver_run demo_oor demo_driver demo_net demo_events =
  [ORound [("temp", f_of_Z 65535, QGood); ("flow", f_of_Z 258, QGood);
           ("masked", f0, QSuspect); ("none", f0, QSuspect)];
   OWritten true (f_of_Z 42) None; ONone; ONone;
   ORound [("temp", f_of_Z 42, QGood); ("flow", f_of_Z 9, QGood);
           ("masked", f_of_Z 300, QGood); ("none", f0, QSuspect)];
   OWritten false f0 (Some ENotWritable)].
Proof.
  assert (Forall (fun b => 0 <= b_Register b < 65536)%Z demo_bindings) as Hb.
  { repeat constructor; cbn; lia. }
  assert (regs_ok (regs_of demo_sim)) as Hg.
  { split; intros k v; cbn; intros Hk.
    - apply lookup_insert_Some in Hk as [[_ <-]|[_ Hk]]; [lia|].
      apply lookup_singleton_Some in Hk as [_ <-]. lia.
    - apply lookup_singleton_Some in Hk as [_ <-]. lia. }
  assert (Forall event_ok demo_events) as He by (repeat constructor; cbn; lia).
  pose proof (driver_refines_device demo_oor demo_bindings demo_sim "127.0.0.1:1502" "1"
    demo_events Hb Hg He) as Hrun.
  change (Init false "127.0.0.1:1502" "1" (New demo_bindings) (fresh_net demo_sim 0))
    with (demo_driver, demo_net, @None mb_err) in Hrun.
  cbv beta iota in Hrun. rewrite Hrun. vm_compute. reflexivity.
Defined.

(** The answers to a write and to its read-back. *)
Definition write_stream : list Z :=
  [0; 1; 0; 0; 0; 6; 1; 6; 0; 10; 0; 42;  0; 2; 0; 0; 0; 5; 1; 3; 2; 0; 42]%Z.

Lemma Write_guarded_witness :
  exists v, (0 <= v < 65536)%Z /\
  r_Readback (Write demo_oor false (mkCommand "temp" (f_of_Z 42) "r1" 5) demo_driver
    (mkScripted write_stream 0)).2.1 = f_of_Z v.
Proof.
  pose proof (Write_guarded demo_oor false (mkCommand "temp" (f_of_Z 42) "r1" 5) demo_driver
    (mkScripted write_stream 0)) as Hw.
  assert ((Write demo_oor false (mkCommand "temp" (f_of_Z 42) "r1" 5) demo_driver
    (mkScripted write_stream 0)).2.1.(r_Accepted) = true) as Ha by (vm_compute; reflexivity).
  destruct (Write demo_oor false (mkCommand "temp" (f_of_Z 42) "r1" 5) demo_driver
    (mkScripted write_stream 0)) as [[d' w'] [r err]]. exact (proj1 (proj2 Hw) Ha).
Defined.
