(* ===== verification/GoNet.v ===== *)
(** * Host and port (package net)

    [net.SplitHostPort] and [net.JoinHostPort], used by the SNMP driver and the
    gateway's control listener. *)
From S2P Require Import Prelude GoTime CPath Cursor.
Open Scope string_scope.
Open Scope list_scope.

(** What comes before and behind the last [c]. *)
Definition cut_last (c : ascii) (s : string) : option (string * string) :=
  match split c s with
  | [] | [_] => None
  | parts => Some (join c (removelast parts), List.last parts EmptyString)
  end.

Definition has_byte (c : ascii) (s : string) : bool := negb (no_byte c s).

(** The host and the port; [None] for the errors (no port, too many colons,
    misplaced brackets). *)
Definition SplitHostPort (hostport : string) : option (string * string) :=
  match cut_last ":" hostport with
  | None => None
  | Some (before, port) =>
      match hostport with
      | String "[" rest =>
          match cut_at "]" rest with
          | None => None
          | Some (host, after) =>
              if negb (str_eqb after (String ":" port)) then None
              else if has_byte "[" rest || has_byte "]" after then None
              else Some (host, port)
          end
      | _ =>
          if has_byte ":" before then None
          else if has_byte "[" hostport || has_byte "]" hostport then None
          else Some (before, port)
      end
  end.

Definition JoinHostPort (host port : string) : string :=
  if has_byte ":" host then "[" +:+ host +:+ "]:" +:+ port else host +:+ ":" +:+ port.

Example SplitHostPort_ex :
  SplitHostPort "10.0.0.5:161" = Some ("10.0.0.5", "161") /\
  SplitHostPort "[::1]:161" = Some ("::1", "161") /\
  SplitHostPort "::1" = None /\ SplitHostPort "10.0.0.5" = None /\
  SplitHostPort "[::1]" = None /\ SplitHostPort ":80" = Some (EmptyString, "80") /\
  SplitHostPort "[a]b:1" = None /\ SplitHostPort "a]:1" = None.
Proof. vm_compute. repeat split. Qed.

Lemma cut_last_app c a b : no_byte c b = true -> cut_last c (a +:+ String c b) = Some (a, b).
Proof.
  intros Hb. unfold cut_last.
  assert (H : split c (a +:+ String c b) = split c a ++ [b]).
  { induction a as [|x a IH]; cbn [String.append split].
    - by rewrite byte_eqb_refl, split_no_sep.
    - rewrite IH. destruct (byte_eqb x c); [done|].
      pose proof (split_not_nil c a). by destruct (split c a). }
  rewrite H. destruct (split c a) as [|p ps] eqn:Ea; [by apply split_not_nil in Ea|].
  cbn [app]. destruct (ps ++ [b]) as [|q qs] eqn:Eq; [by destruct ps|]. rewrite <- Eq.
  change (p :: ps ++ [b]) with ((p :: ps) ++ [b]).
  rewrite removelast_last, List.last_last, <- Ea. by rewrite join_split.
Qed.

Lemma has_byte_false c s : has_byte c s = false <-> no_byte c s = true.
Proof. unfold has_byte. apply negb_false_iff. Qed.

(** A joined address splits into its parts. *)
Lemma Split_Join host port :
  no_byte "[" host = true -> no_byte "]" host = true ->
  no_byte ":" port = true -> no_byte "[" port = true -> no_byte "]" port = true ->
  SplitHostPort (JoinHostPort host port) = Some (host, port).
Proof.
  intros H1 H2 H3 H4 H5. unfold JoinHostPort. destruct (has_byte ":" host) eqn:E.
  - replace ("[" +:+ host +:+ "]:" +:+ port) with ((String "[" (host +:+ "]")) +:+ String ":" port)
      by (cbn; by rewrite <- !str_app_assoc).
    unfold SplitHostPort. rewrite cut_last_app by done. cbn [String.append].
    replace ((host +:+ "]") +:+ String ":" port) with (host +:+ String "]" (String ":" port))
      by (by rewrite <- str_app_assoc).
    assert (cut_at "]" (host +:+ String "]" (String ":" port)) = Some (host, String ":" port)) as ->.
    { clear -H2. unfold no_byte in H2. induction host as [|c h IH]; cbn in *; [done|].
      apply andb_true_iff in H2 as [Hc Hh]. apply negb_true_iff in Hc.
      by rewrite Hc, IH. }
    rewrite str_eqb_refl. cbn [negb].
    assert (has_byte "[" (host +:+ String "]" (String ":" port)) = false) as ->.
    { apply has_byte_false. unfold no_byte in *. rewrite all_bytes_app, H1. cbn. done. }
    assert (has_byte "]" (String ":" port) = false) as -> by (apply has_byte_false; unfold no_byte in *; cbn; done).
    done.
  - apply has_byte_false in E. unfold SplitHostPort.
    change (host +:+ ":" +:+ port) with (host +:+ String ":" port).
    rewrite cut_last_app by done.
    assert (Hno : forall c, c <> ":"%char -> no_byte c host = true -> no_byte c port = true ->
      has_byte c (host +:+ String ":" port) = false).
    { intros c Hc Hh Hp. apply has_byte_false. unfold no_byte in *.
      rewrite all_bytes_app, Hh. cbn. rewrite Hp, andb_true_r. apply negb_true_iff, byte_eqb_neq. congruence. }
    rewrite (Hno "["%char), (Hno "]"%char), (proj2 (has_byte_false ":" host) E) by done.
    destruct host as [|c h]; [done|]. cbn [String.append].
    assert (c <> "["%char) as Hc by (intros ->; done).
    destruct c as [[] [] [] [] [] [] [] []]; try done; by destruct Hc.
Qed.
