(* ===== verification/Snmp.v ===== *)
(** * The SNMP driver (pkg/driver/snmp/snmp.go)

    The client is written against an interface, [Agent]: what a session of the
    SNMP library answers to connecting, getting and setting one object.  The
    contract of the driver holds for every agent: a round returns one sample
    per binding, a write reaches the agent only for a writable point with time
    left and a value its kind can hold. *)
From Stdlib Require Import SpecFloat.
From S2P Require Import Prelude Float64 GoTime CPath Cursor GoNet Modbus.
Open Scope string_scope.
Open Scope list_scope.

(** ** Packets *)

(** The dynamic value of a variable: an integer of any Go type, a float, or
    anything else (strings, addresses, nil). *)
Inductive snmp_value : Type :=
  | SVInt (n : Z)
  | SVFloat (f : float64)
  | SVOther.

(** The types the driver compares with; every other tag is [TOther]. *)
Inductive var_type : Type := TNoSuchObject | TNoSuchInstance | TEndOfMibView | TOther.

Record variable : Type := mkVar { v_Type : var_type; v_Value : snmp_value }.
Record packet : Type := mkPacket { pk_Error : Z; pk_Variables : list variable }.

Definition NoError : Z := 0.
Definition AuthorizationError : Z := 16.

(** The tags of a set request. *)
Inductive ber : Type := BInteger | BGauge32 | BCounter32 | BTimeTicks | BUinteger32 | BCounter64.

(** A session: [get] fails or returns a packet, possibly nil; [set] fails or
    returns the error status of the response, [None] for a nil packet. *)
Class Agent (W : Type) : Type := {
  a_now : W -> W * Z;
  a_connect : W -> string -> Z -> string -> W * bool;
  a_get : W -> string -> W * option (option packet);
  a_set : W -> string -> ber -> Z -> W * option (option Z)
}.

(** ** The driver *)

Record snmp_Binding : Type := mkSnmpBinding
  { sb_Point : string; sb_OID : string; sb_Writable : bool; sb_Kind : string }.

Inductive snmp_err : Type :=
  | SContext | SEmptyTable | SInvalidBinding (i : nat) | SEndpoint | SSplit | SPort | SConnect
  | SProbeTimeout | SProbe | SAuth
  | SConnLost | SGet | SEmptyResponse | SNotPresent | SNonNumeric
  | SExpired | SNotWritable | SRange (kind : string) | SKind
  | SSet | SSetStatus (status : Z) | SReadback | SReadbackEmpty.

Record snmp_Driver : Type := mkSnmpDriver
  { n_bindings : list snmp_Binding;
    n_endpoint : string;
    n_community : string;
    n_sess : bool;
    n_connected : bool;
    n_lastSuccess : option Z;
    n_errorCount : Z;
    n_detail : option snmp_err }.

Definition snmp_New (bindings : list snmp_Binding) : snmp_Driver :=
  mkSnmpDriver bindings EmptyString EmptyString false false None 0 None.

Definition n_with_sess (d : snmp_Driver) (s : bool) : snmp_Driver :=
  mkSnmpDriver (n_bindings d) (n_endpoint d) (n_community d) s (n_connected d)
    (n_lastSuccess d) (n_errorCount d) (n_detail d).
Definition n_with_connected (d : snmp_Driver) (c : bool) : snmp_Driver :=
  mkSnmpDriver (n_bindings d) (n_endpoint d) (n_community d) (n_sess d) c
    (n_lastSuccess d) (n_errorCount d) (n_detail d).
Definition n_with_lastSuccess (d : snmp_Driver) (t : option Z) : snmp_Driver :=
  mkSnmpDriver (n_bindings d) (n_endpoint d) (n_community d) (n_sess d) (n_connected d)
    t (n_errorCount d) (n_detail d).
Definition n_with_errors (d : snmp_Driver) (n : Z) (e : option snmp_err) : snmp_Driver :=
  mkSnmpDriver (n_bindings d) (n_endpoint d) (n_community d) (n_sess d) (n_connected d)
    (n_lastSuccess d) n e.
Definition n_count (d : snmp_Driver) : snmp_Driver := n_with_errors d (n_errorCount d + 1) (n_detail d).

Definition n_recordErr (d : snmp_Driver) (e : snmp_err) : snmp_Driver :=
  n_with_errors d (n_errorCount d + 1) (Some e).

Definition validKind (kind : string) : bool :=
  contains_string ["integer"; "gauge"; "counter"; "timeticks"; "counter64"; "uinteger32"] kind.

Definition normalizeOID (oid : string) : string := trim_prefix oid ".".

(** [^\.?\d+(\.\d+)+$] *)
Definition validOID (oid : string) : bool :=
  let arcs := split "." (normalizeOID oid) in
  (2 <=? length arcs)%nat &&
  forallb (fun a => negb (str_eqb a EmptyString) && all_bytes is_digit a) arcs.

Definition defaultPort : string := "161".

Definition normalizeEndpoint (ep : string) : option string :=
  let ep := TrimSpace ep in
  if str_eqb ep EmptyString then None
  else match SplitHostPort ep with
       | None => Some (JoinHostPort ep defaultPort)
       | Some (host, portStr) =>
           if str_eqb portStr EmptyString then Some (JoinHostPort host defaultPort)
           else match Atoi portStr with
                | None => None
                | Some _ => Some ep
                end
       end.

Fixpoint check_snmp_bindings (i : nat) (seen : gset string) (bs : list snmp_Binding) : option snmp_err :=
  match bs with
  | [] => None
  | b :: bs' =>
      if str_eqb (sb_Point b) EmptyString then Some (SInvalidBinding i)
      else if str_eqb (sb_OID b) EmptyString || negb (validOID (sb_OID b)) then Some (SInvalidBinding i)
      else if bool_decide (sb_Point b ∈ seen) then Some (SInvalidBinding i)
      else if sb_Writable b then
        if negb (validKind (sb_Kind b)) then Some (SInvalidBinding i)
        else check_snmp_bindings (i + 1) ({[sb_Point b]} ∪ seen) bs'
      else if negb (str_eqb (sb_Kind b) EmptyString) then Some (SInvalidBinding i)
      else check_snmp_bindings (i + 1) ({[sb_Point b]} ∪ seen) bs'
  end.

(** ** Values *)

Section conversion.
(** The conversion to an unsigned or signed integer type of a float that does
    not fit it. *)
Context (oor : float64 -> Z).

(** [int(v)], [uint32(v)], [uint64(v)]: truncation where it fits. *)
Definition to_range (lo hi : Z) (f : float64) : Z :=
  match ftrunc f with
  | Some z => if (lo <=? z)%Z && (z <? hi)%Z then z else (lo + (oor f - lo) mod (hi - lo))%Z
  | None => (lo + (oor f - lo) mod (hi - lo))%Z
  end.

(** [if v < lo || v > hi { return error }]. *)
Definition out_of_range (v lo hi : float64) : bool := fltb v lo || fgtb v hi.

Definition encodeForKind (v : float64) (kind : string) : result snmp_err (Z * ber) :=
  let u32 t := if out_of_range v f0 (f_of_Z 4294967295) then Err (SRange kind)
               else Ok (to_range 0 (2 ^ 32) v, t) in
  if str_eqb kind "integer" then
    if out_of_range v (f_of_Z (-2147483648)) (f_of_Z 2147483647) then Err (SRange kind)
    else Ok (to_range (- 2 ^ 63) (2 ^ 63) v, BInteger)
  else if str_eqb kind "gauge" then u32 BGauge32
  else if str_eqb kind "counter" then u32 BCounter32
  else if str_eqb kind "timeticks" then u32 BTimeTicks
  else if str_eqb kind "uinteger32" then u32 BUinteger32
  else if str_eqb kind "counter64" then
    if out_of_range v f0 (f_of_Z (2 ^ 64)) then Err (SRange kind)
    else Ok (to_range 0 (2 ^ 64) v, BCounter64)
  else Err SKind.

Definition numericToFloat (v : snmp_value) : option float64 :=
  match v with
  | SVInt n => Some (f_of_Z n)
  | SVFloat f => Some f
  | SVOther => None
  end.

(** ** Operations *)

Section client.
Context {W : Type} `{Agent W}.

(** [reconnect]: the old session, if any, is closed first; the driver counts
    as connected only after the next answered request. *)
Definition snmp_reconnect (d : snmp_Driver) (w : W) : snmp_Driver * W * option snmp_err :=
  let d := n_with_sess d false in
  if str_eqb (n_endpoint d) EmptyString then (n_with_connected d false, w, Some SConnLost)
  else match SplitHostPort (n_endpoint d) with
  | None => (n_with_errors (n_with_connected d false) (n_errorCount d) (Some SSplit), w, Some SConnLost)
  | Some (host, portStr) =>
      match Atoi portStr with
      | None => (n_with_errors (n_with_connected d false) (n_errorCount d) (Some SPort), w, Some SConnLost)
      | Some port =>
          match a_connect w host (u16 port) (n_community d) with
          | (w, false) =>
              (n_with_errors (n_with_connected d false) (n_errorCount d) (Some SConnect), w, Some SConnect)
          | (w, true) => (n_with_sess d true, w, None)
          end
      end
  end.

(** [Init].  [cancelled] says that the context ends while the probe is under
    way. *)
Definition snmp_Init (ctx_err cancelled : bool) (endpoint community : string) (d : snmp_Driver) (w : W) :
    snmp_Driver * W * option snmp_err :=
  if ctx_err then (d, w, Some SContext)
  else if (length (n_bindings d) =? 0)%nat then (d, w, Some SEmptyTable)
  else match check_snmp_bindings 0 ∅ (n_bindings d) with
  | Some e => (d, w, Some e)
  | None =>
      let community := if str_eqb community EmptyString then "public" else community in
      match normalizeEndpoint endpoint with
      | None => (d, w, Some SEndpoint)
      | Some endpoint =>
          let d := mkSnmpDriver (n_bindings d) endpoint community false false None 0 None in
          match SplitHostPort endpoint with
          | None => (d, w, Some SSplit)
          | Some (host, portStr) =>
              match Atoi portStr with
              | None => (d, w, Some SPort)
              | Some port =>
                  match a_connect w host (u16 port) community with
                  | (w, false) => (n_with_errors d 0 (Some SConnect), w, Some SConnect)
                  | (w, true) =>
                      let '(w, r) := a_get w (normalizeOID (from_option sb_OID EmptyString (head (n_bindings d)))) in
                      if cancelled then (d, w, Some SProbeTimeout)
                      else match r with
                      | None => (n_with_errors d 0 (Some SProbe), w, Some SProbe)
                      | Some pkt =>
                          if from_option (fun p => (pk_Error p =? AuthorizationError)%Z) false pkt
                          then (n_with_errors d 0 (Some SAuth), w, Some SAuth)
                          else (n_with_connected (n_with_sess d true) true, w, None)
                      end
                  end
              end
          end
      end
  end.

(** [suspectSample] and [fillSuspect]. *)
Definition suspect_now (b : snmp_Binding) (w : W) : W * Sample :=
  let '(w, t) := a_now w in (w, suspect (sb_Point b) t).
Definition snmp_fillSuspect (bs : list snmp_Binding) (w : W) : W * list Sample :=
  let '(w, t) := a_now w in (w, (fun b => suspect (sb_Point b) t) <$> bs).

(** How one answer of the agent is read: the value, or why there is none. *)
Definition read_variable (pkt : option packet) : result snmp_err float64 :=
  match pkt with
  | None => Err SEmptyResponse
  | Some p =>
      match pk_Variables p with
      | [] => Err SEmptyResponse
      | v :: _ =>
          match v_Type v with
          | TNoSuchObject | TNoSuchInstance | TEndOfMibView => Err SNotPresent
          | TOther =>
              match numericToFloat (v_Value v) with
              | None => Err SNonNumeric
              | Some f => Ok f
              end
          end
      end
  end.

(** The loop of [Collect]. *)
Fixpoint snmp_loop (bs : list snmp_Binding) (allGood : bool) (d : snmp_Driver) (w : W) :
    snmp_Driver * W * list Sample :=
  match bs with
  | [] =>
      if allGood then let '(w, t) := a_now w in (n_with_lastSuccess d (Some t), w, [])
      else (d, w, [])
  | b :: bs' =>
      match a_get w (normalizeOID (sb_OID b)) with
      | (w, None) =>
          let d := n_with_connected (n_recordErr d SGet) false in
          let '(w, s) := suspect_now b w in
          match snmp_reconnect d w with
          | (d, w, Some _) => let '(w, rest) := snmp_fillSuspect bs' w in (d, w, s :: rest)
          | (d, w, None) =>
              let '(d, w, rest) := snmp_loop bs' false d w in (d, w, s :: rest)
          end
      | (w, Some pkt) =>
          let d := n_with_connected d true in
          match read_variable pkt with
          | Err e =>
              let '(w, s) := suspect_now b w in
              let '(d, w, rest) := snmp_loop bs' false (n_recordErr d e) w in (d, w, s :: rest)
          | Ok val =>
              let '(w, t) := a_now w in
              let '(d, w, rest) := snmp_loop bs' allGood d w in
              (d, w, mkSample (sb_Point b) val t QGood :: rest)
          end
      end
  end.

Definition snmp_Collect (d : snmp_Driver) (w : W) : snmp_Driver * W * list Sample :=
  if n_sess d then snmp_loop (n_bindings d) true d w
  else match snmp_reconnect d w with
  | (d, w, Some _) =>
      let d := n_count d in
      let '(w, ss) := snmp_fillSuspect (n_bindings d) w in (d, w, ss)
  | (d, w, None) => snmp_loop (n_bindings d) true d w
  end.

(** What [Write] returns for a set that the agent took: accepted, with the
    value read back or an error about reading it back. *)
Definition snmp_readback (oid : string) (d : snmp_Driver) (w : W) :
    snmp_Driver * W * (ControlResult * option snmp_err) :=
  match a_get w oid with
  | (w, None) => (n_recordErr d SReadback, w, (mkResult true f0 None, Some SReadback))
  | (w, Some pkt) =>
      match from_option pk_Variables [] pkt with
      | [] => (d, w, (mkResult true f0 None, Some SReadbackEmpty))
      | v :: _ =>
          let '(w, t) := a_now w in
          (d, w, (mkResult true (default f0 (numericToFloat (v_Value v))) (Some t), None))
      end
  end.

Definition snmp_set (b : snmp_Binding) (value : float64) (d : snmp_Driver) (w : W) :
    snmp_Driver * W * (ControlResult * option snmp_err) :=
  let oid := normalizeOID (sb_OID b) in
  match encodeForKind value (sb_Kind b) with
  | Err e => (d, w, (refused, Some e))
  | Ok (iv, t) =>
      match a_set w oid t iv with
      | (w, None) => (n_recordErr d SSet, w, (refused, Some SSet))
      | (w, Some None) => (n_recordErr d (SSetStatus 0), w, (refused, Some (SSetStatus 0)))
      | (w, Some (Some es)) =>
          if negb (es =? NoError)%Z then (n_recordErr d (SSetStatus es), w, (refused, Some (SSetStatus es)))
          else snmp_readback oid d w
      end
  end.

Definition find_snmp (point : string) (bs : list snmp_Binding) : option snmp_Binding :=
  List.find (fun b => str_eqb (sb_Point b) point) bs.

Definition snmp_Write (ctx_err : bool) (cmd : ControlCommand) (d : snmp_Driver) (w : W) :
    snmp_Driver * W * (ControlResult * option snmp_err) :=
  if ctx_err then (d, w, (refused, Some SContext))
  else if (c_TTL cmd <=? 0)%Z then (d, w, (refused, Some SExpired))
  else match find_snmp (c_Point cmd) (n_bindings d) with
  | None => (d, w, (refused, Some SNotWritable))
  | Some b =>
      if negb (sb_Writable b) then (d, w, (refused, Some SNotWritable))
      else if n_sess d then snmp_set b (c_Value cmd) d w
      else match snmp_reconnect d w with
      | (d, w, Some e) => (n_count d, w, (refused, Some e))
      | (d, w, None) => snmp_set b (c_Value cmd) d w
      end
  end.

Definition snmp_Health (d : snmp_Driver) : DriverHealth :=
  mkHealth (n_connected d) (n_lastSuccess d) (n_errorCount d).
End client.
End conversion.

(** ** The contract of the driver over any agent *)

(** A good sample, or a suspect one with value zero. *)
Definition snmp_sample_ok (s : Sample) : Prop :=
  s_Quality s = QGood \/ (s_Quality s = QSuspect /\ s_Value s = f0).

Section contract.
Context {W : Type} `{Agent W}.

Lemma snmp_reconnect_state d w :
  let '(d', _, e) := snmp_reconnect d w in
  n_bindings d' = n_bindings d /\ n_errorCount d' = n_errorCount d /\
  n_lastSuccess d' = n_lastSuccess d /\ n_sess d' = match e with Some _ => false | None => true end /\
  n_endpoint d' = n_endpoint d /\ n_community d' = n_community d.
Proof.
  unfold snmp_reconnect. destruct (str_eqb _ _); [done|]. destruct (SplitHostPort _) as [[host port]|]; [|done].
  destruct (Atoi port) as [p|]; [|done]. by destruct (a_connect w _ _ _) as [w' []].
Qed.

Definition snmp_round (bs : list snmp_Binding) (allGood : bool) (d d' : snmp_Driver)
    (ss : list Sample) : Prop :=
  map s_Point ss = map sb_Point bs /\ Forall snmp_sample_ok ss /\ n_bindings d' = n_bindings d /\
  (if forallb good ss then
     n_errorCount d' = n_errorCount d /\ n_sess d' = n_sess d /\
     (if allGood then is_Some (n_lastSuccess d') else n_lastSuccess d' = n_lastSuccess d)
   else (n_errorCount d < n_errorCount d')%Z /\ n_lastSuccess d' = n_lastSuccess d).

Lemma snmp_round_suspect b bs d d' t ss flag :
  map s_Point ss = map sb_Point bs -> Forall snmp_sample_ok ss ->
  n_bindings d' = n_bindings d -> (n_errorCount d < n_errorCount d')%Z ->
  n_lastSuccess d' = n_lastSuccess d ->
  snmp_round (b :: bs) flag d d' (suspect (sb_Point b) t :: ss).
Proof.
  intros Hp Hf Hb He Hl. split; [cbn; by rewrite Hp|].
  split; [constructor; [by right|done]|]. done.
Qed.

Lemma snmp_round_weaken bs d d' ss : snmp_round bs false d d' ss ->
  map s_Point ss = map sb_Point bs /\ Forall snmp_sample_ok ss /\ n_bindings d' = n_bindings d /\
  (n_errorCount d <= n_errorCount d')%Z /\ n_lastSuccess d' = n_lastSuccess d.
Proof.
  intros (Hp & Hf & Hb & Hr). do 3 (split; [done|]).
  destruct (forallb good ss); destruct_and?; split; (lia || done).
Qed.

Lemma snmp_fillSuspect_spec bs w :
  map s_Point (snmp_fillSuspect bs w).2 = map sb_Point bs /\
  Forall snmp_sample_ok (snmp_fillSuspect bs w).2.
Proof.
  unfold snmp_fillSuspect. destruct (a_now w) as [w' t]. cbn. rewrite map_map. split; [done|].
  apply Forall_map, Forall_true. by right.
Qed.

Lemma snmp_loop_post bs : forall allGood d w,
  let '(d', _, ss) := snmp_loop bs allGood d w in snmp_round bs allGood d d' ss.
Proof.
  induction bs as [|b bs IH]; intros allGood d w; cbn [snmp_loop].
  { destruct allGood; [destruct (a_now w) as [w' t]|]; repeat split; (done || eauto). }
  unfold suspect_now. destruct (a_get w _) as [w1 [pkt|]].
  - destruct (read_variable pkt) as [v|e]; destruct (a_now w1) as [w2 t].
    + specialize (IH allGood (n_with_connected d true) w2).
      destruct (snmp_loop bs allGood _ w2) as [[d3 w3] ss]. destruct IH as (Hp & Hf & Hb & Hr).
      split; [cbn; by rewrite Hp|]. split; [constructor; [by left|done]|]. done.
    + specialize (IH false (n_recordErr (n_with_connected d true) e) w2).
      destruct (snmp_loop bs false _ w2) as [[d3 w3] ss].
      apply snmp_round_weaken in IH. cbn in IH. destruct_and!.
      apply snmp_round_suspect; (done || lia).
  - destruct (a_now w1) as [w2 t]. set (d1 := n_with_connected (n_recordErr d SGet) false).
    pose proof (snmp_reconnect_state d1 w2) as Hrc.
    destruct (snmp_reconnect d1 w2) as [[d2 w3] [err|]]; cbn in Hrc; destruct_and!.
    + pose proof (snmp_fillSuspect_spec bs w3) as [Hp Hf].
      destruct (snmp_fillSuspect bs w3) as [w4 rest].
      apply snmp_round_suspect; (done || congruence || lia).
    + specialize (IH false d2 w3). destruct (snmp_loop bs false d2 w3) as [[d3 w4] ss].
      apply snmp_round_weaken in IH. destruct_and!.
      apply snmp_round_suspect; (done || congruence || lia).
Qed.

(** Collecting is fail-soft, whatever the agent does: exactly one sample per
    binding, in the order of the table, good or suspect with value zero; the
    time of the last success moves exactly when every sample is good, and the
    error counter grows exactly when one is not. *)
Lemma snmp_Collect_soft d w :
  n_bindings d <> [] ->
  let '(d', _, ss) := snmp_Collect d w in
  map s_Point ss = map sb_Point (n_bindings d) /\ Forall snmp_sample_ok ss /\
  n_bindings d' = n_bindings d /\
  (if forallb good ss
   then n_errorCount d' = n_errorCount d /\ is_Some (n_lastSuccess d') /\ n_sess d' = true
   else (n_errorCount d < n_errorCount d')%Z /\ n_lastSuccess d' = n_lastSuccess d).
Proof.
  intros Hne. unfold snmp_Collect. destruct (n_sess d) eqn:Ec.
  { pose proof (snmp_loop_post (n_bindings d) true d w) as Hp.
    destruct (snmp_loop _ true d w) as [[d' w'] ss]. destruct Hp as (Hp & Hf & Hb & Hr).
    do 3 (split; [done|]). destruct (forallb good ss); destruct_and?; repeat split; congruence. }
  pose proof (snmp_reconnect_state d w) as Hrc.
  destruct (snmp_reconnect d w) as [[d1 w1] [e|]]; destruct_and!.
  - pose proof (snmp_fillSuspect_spec (n_bindings d1) w1) as [Hp Hf].
    change (n_bindings (n_count d1)) with (n_bindings d1).
    unfold snmp_fillSuspect in *. destruct (a_now w1) as [w2 t]. cbn in Hp, Hf.
    split; [congruence|]. split; [done|]. split; [cbn; congruence|].
    replace (n_bindings d1) with (n_bindings d) by congruence.
    destruct (n_bindings d); [done|]. cbn. split; [lia|congruence].
  - replace (n_bindings d) with (n_bindings d1) by congruence.
    pose proof (snmp_loop_post (n_bindings d1) true d1 w1) as Hp.
    destruct (snmp_loop _ true d1 w1) as [[d' w'] ss]. destruct Hp as (Hp & Hf & Hb & Hr).
    do 3 (split; [done|]). destruct (forallb good ss); destruct_and?; repeat split;
      (congruence || lia || done).
Qed.

(** The table a driver is built from survives every write; a write to a point
    that is not writable, or without time left, touches nothing. *)
Lemma snmp_set_state oor b v d w :
  let '(d', _, (r, err)) := snmp_set oor b v d w in
  n_bindings d' = n_bindings d /\ n_lastSuccess d' = n_lastSuccess d /\
  (err = None -> r_Accepted r = true).
Proof.
  unfold snmp_set, snmp_readback. destruct (encodeForKind oor v (sb_Kind b)) as [[iv t]|e]; [|done].
  destruct (a_set w _ t iv) as [w1 [[es|]|]]; [|done..].
  destruct (negb (es =? NoError)%Z); [done|].
  destruct (a_get w1 _) as [w2 [pkt|]]; [|done].
  destruct (from_option pk_Variables [] pkt) as [|x xs]; [done|]. by destruct (a_now w2).
Qed.

Lemma snmp_Write_state oor ctx_err cmd d w :
  let '(d', w', (r, err)) := snmp_Write oor ctx_err cmd d w in
  n_bindings d' = n_bindings d /\ n_lastSuccess d' = n_lastSuccess d /\
  (err = None -> r_Accepted r = true) /\
  ((d' = d /\ w' = w /\ r_Accepted r = false) \/
   (ctx_err = false /\ (0 < c_TTL cmd)%Z /\
    exists b, find_snmp (c_Point cmd) (n_bindings d) = Some b /\ sb_Writable b = true)).
Proof.
  unfold snmp_Write. destruct ctx_err; [by repeat split; auto|].
  destruct (Z.leb_spec (c_TTL cmd) 0); [by repeat split; auto|].
  destruct (find_snmp _ _) as [b|]; [|by repeat split; auto].
  destruct (sb_Writable b) eqn:Ew; cbn [negb]; [|by repeat split; auto].
  assert (Hgo : false = false /\ (0 < c_TTL cmd)%Z /\
    exists b0, Some b = Some b0 /\ sb_Writable b0 = true) by eauto.
  destruct (n_sess d).
  { pose proof (snmp_set_state oor b (c_Value cmd) d w) as Hp.
    destruct (snmp_set oor b _ d w) as [[d' w'] [r err]]. destruct Hp as (? & ? & ?). auto 6. }
  pose proof (snmp_reconnect_state d w) as Hrc.
  destruct (snmp_reconnect d w) as [[d1 w1] [e|]]; destruct Hrc as (Hb1 & _ & Hl1 & _).
  { repeat (split; [done|]). by right. }
  pose proof (snmp_set_state oor b (c_Value cmd) d1 w1) as Hp.
  destruct (snmp_set oor b _ d1 w1) as [[d' w'] [r err]]. destruct Hp as (Hb2 & Hl2 & Ha).
  rewrite Hb2, Hl2. repeat (split; [done|]). by right.
Qed.
End contract.

(** ** Range checks on floats

    The magnitude [m * 2^e], truncated. *)
Definition fmag (m : positive) (e : Z) : Z :=
  (if 0 <=? e then Zpos m * 2 ^ e else Zpos m / 2 ^ (- e))%Z.

Lemma fmag_scale m e k : (0 <= k)%Z -> (0 <= e + k)%Z ->
  fmag m e = (Zpos m * 2 ^ (e + k) / 2 ^ k)%Z.
Proof.
  intros Hk He. unfold fmag. destruct (Z.leb_spec 0 e).
  - rewrite Z.pow_add_r, Z.mul_assoc, Z.div_mul by lia. done.
  - replace k with ((e + k) + - e)%Z at 2 by lia.
    rewrite (Z.pow_add_r 2 (e + k)), (Z.mul_comm (Zpos m)), Z.div_mul_cancel_l by lia. done.
Qed.

Lemma fmag_nonneg m e : (0 <= fmag m e)%Z.
Proof. unfold fmag. destruct (Z.leb_spec 0 e); [lia|]. apply Z.div_pos; lia. Qed.

(** With normalised mantissas the order of floats is that of the pairs of
    exponent and mantissa. *)
Lemma scaled_le m e M E k :
  (Zpos m < 2 ^ 53)%Z -> (2 ^ 52 <= Zpos M)%Z -> (e < E \/ e = E /\ (m <= M)%positive)%Z ->
  (0 <= e + k)%Z -> (Zpos m * 2 ^ (e + k) <= Zpos M * 2 ^ (E + k))%Z.
Proof.
  intros Hm HM Hc Hk. destruct Hc as [Hc|[-> Hc]].
  - transitivity (2 ^ 52 * 2 ^ (e + k + 1))%Z.
    + rewrite (Z.pow_add_r 2 (e + k) 1), Z.mul_assoc, (Z.mul_comm (2 ^ 52 * _)), Z.mul_assoc by lia.
      apply Z.mul_le_mono_nonneg_r; [lia|]. lia.
    + apply Z.mul_le_mono_nonneg; try lia. apply Z.pow_le_mono_r; lia.
  - apply Z.mul_le_mono_nonneg_r; lia.
Qed.

Lemma fmag_le m e M E :
  (Zpos m < 2 ^ 53)%Z -> (2 ^ 52 <= Zpos M)%Z -> (e < E \/ e = E /\ (m <= M)%positive)%Z ->
  (fmag m e <= fmag M E)%Z.
Proof.
  intros Hm HM Hc. set (k := (Z.abs e + Z.abs E)%Z).
  rewrite (fmag_scale m e k), (fmag_scale M E k) by lia.
  apply Z.div_le_mono; [lia|]. apply scaled_le; (done || lia).
Qed.

Lemma digits2_lt m : (Zpos m < 2 ^ Zpos (digits2_pos m))%Z.
Proof.
  induction m as [m IH|m IH|]; cbn [digits2_pos]; [| |done];
    rewrite Pos2Z.inj_succ, Z.pow_succ_r by lia; lia.
Qed.

Lemma valid_mantissa s m e : valid_binary prec emax (S754_finite s m e) = true -> (Zpos m < 2 ^ 53)%Z.
Proof.
  intros H%andb_true_iff. destruct H as [H%Z.eqb_eq _]. unfold fexp, prec in H.
  eapply Z.lt_le_trans; [apply digits2_lt|]. apply Z.pow_le_mono_r; lia.
Qed.

Lemma not_above m e M E s : fgtb (S754_finite s m e) (S754_finite s M E) = false ->
  (if s then E < e \/ e = E /\ (M <= m)%positive else e < E \/ e = E /\ (m <= M)%positive)%Z.
Proof.
  unfold fgtb, SFltb. cbn. destruct s.
  - destruct (Z.compare_spec E e); [subst|by left|done].
    change (Pos.compare_cont Eq M m) with (Pos.compare M m). destruct (Pos.compare_spec M m); cbn;
      [right; split; [done|lia]|right; split; [done|lia]|done].
  - destruct (Z.compare_spec E e); [subst|done|left; lia].
    change (Pos.compare_cont Eq M m) with (Pos.compare M m). destruct (Pos.compare_spec M m);
      [right; split; [done|lia]|done|right; split; [done|lia]].
Qed.

Lemma strictly_below m e M E : fltb (S754_finite false m e) (S754_finite false M E) = true ->
  (e < E \/ e = E /\ (m < M)%positive)%Z.
Proof.
  unfold fltb, SFltb. cbn. destruct (Z.compare_spec e E); [subst|by left|done].
  change (Pos.compare_cont Eq m M) with (Pos.compare m M).
  destruct (Pos.compare_spec m M); [done|by right|done].
Qed.

Lemma trunc_unsigned v M E :
  valid_binary prec emax v = true -> is_nan v = false -> (2 ^ 52 <= Zpos M)%Z ->
  out_of_range v f0 (S754_finite false M E) = false ->
  exists z, ftrunc v = Some z /\ (0 <= z <= fmag M E)%Z.
Proof.
  intros Hv Hn HM H. unfold out_of_range in H. apply orb_false_iff in H as [Hlo Hhi].
  pose proof (fmag_nonneg M E) as H0.
  destruct v as [s|[]| |[] m e]; try done; [by exists 0%Z|].
  apply (not_above m e M E false) in Hhi. exists (fmag m e). split; [done|].
  split; [apply fmag_nonneg|].
  apply fmag_le; [by eapply valid_mantissa|done|done].
Qed.

Lemma trunc_signed v m1 e1 m2 e2 :
  valid_binary prec emax v = true -> is_nan v = false ->
  (2 ^ 52 <= Zpos m1)%Z -> (2 ^ 52 <= Zpos m2)%Z ->
  out_of_range v (S754_finite true m1 e1) (S754_finite false m2 e2) = false ->
  exists z, ftrunc v = Some z /\ (- fmag m1 e1 <= z <= fmag m2 e2)%Z.
Proof.
  intros Hv Hn H1 H2 H. unfold out_of_range in H. apply orb_false_iff in H as [Hlo Hhi].
  pose proof (fmag_nonneg m1 e1). pose proof (fmag_nonneg m2 e2).
  destruct v as [s|[]| |[] m e]; try done; [exists 0%Z; split; [done|lia]| |].
  - apply (not_above m1 e1 m e true) in Hlo. exists (- fmag m e)%Z. split; [done|].
    pose proof (fmag_nonneg m e). enough (fmag m e <= fmag m1 e1)%Z by lia.
    apply fmag_le; [by eapply valid_mantissa|done|]. destruct Hlo as [?|[-> ?]]; [by left|by right].
  - apply (not_above m e m2 e2 false) in Hhi. exists (fmag m e). split; [done|].
    pose proof (fmag_nonneg m e). enough (fmag m e <= fmag m2 e2)%Z by lia.
    apply fmag_le; [by eapply valid_mantissa|done|done].
Qed.

Lemma to_range_fits oor lo hi v z : ftrunc v = Some z -> (lo <= z < hi)%Z -> to_range oor lo hi v = z.
Proof.
  intros Hz Hr. unfold to_range. rewrite Hz.
  rewrite (proj2 (Z.leb_le lo z)), (proj2 (Z.ltb_lt z hi)) by lia. done.
Qed.

(** The integers of each kind. *)
Definition kind_range (kind : string) : Z * Z :=
  if str_eqb kind "integer" then (- 2 ^ 31, 2 ^ 31 - 1)%Z
  else if str_eqb kind "counter64" then (0, 2 ^ 64 - 1)%Z
  else (0, 2 ^ 32 - 1)%Z.

Lemma trunc_below_64 v z : valid_binary prec emax v = true -> ftrunc v = Some z -> (0 <= z)%Z ->
  fltb v (f_of_Z (2 ^ 64)) = true -> (z < 2 ^ 64)%Z.
Proof.
  intros Hv Hz Hp Hlt. destruct v as [s|[]| |[] m e]; cbn in Hz; try done.
  - injection Hz as <-. lia.
  - change (Some (- fmag m e)%Z = Some z) in Hz. injection Hz as <-. pose proof (fmag_nonneg m e). lia.
  - change (Some (fmag m e) = Some z) in Hz. injection Hz as <-. apply valid_mantissa in Hv.
    change (f_of_Z (2 ^ 64)) with (S754_finite false 4503599627370496 12) in Hlt.
    apply strictly_below in Hlt as [Hlt|[-> Hlt]].
    + rewrite (fmag_scale m e (Z.abs e)) by lia. apply Z.div_lt_upper_bound; [lia|].
      rewrite <- Z.pow_add_r by lia.
      apply Z.lt_le_trans with (2 ^ 53 * 2 ^ (e + Z.abs e))%Z; [apply Z.mul_lt_mono_pos_r; lia|].
      rewrite <- Z.pow_add_r by lia. apply Z.pow_le_mono_r; lia.
    + unfold fmag. cbn [Z.leb Z.compare]. change (2 ^ 64)%Z with (4503599627370496 * 2 ^ 12)%Z.
      apply Z.mul_lt_mono_pos_r; [done|]. exact Hlt.
Qed.

(** A set point that is a number is refused or sent as its integer part,
    which is an integer of the binding's kind, so nothing wraps or is clipped;
    for the 64-bit counter this needs the value to be below two to the power
    of 64, which the check of the code lets through itself. *)
Lemma encodeForKind_bounds oor v kind iv t :
  valid_binary prec emax v = true -> is_nan v = false ->
  (kind = "counter64" -> fltb v (f_of_Z (2 ^ 64)) = true) ->
  encodeForKind oor v kind = Ok (iv, t) ->
  ftrunc v = Some iv /\ ((kind_range kind).1 <= iv <= (kind_range kind).2)%Z.
Proof.
  intros Hv Hn Hc H.
  assert (Hu32 : forall t', (if out_of_range v f0 (f_of_Z 4294967295) then Err (SRange kind)
                  else Ok (to_range oor 0 (2 ^ 32) v, t')) = Ok (iv, t) ->
                ftrunc v = Some iv /\ (0 <= iv <= 2 ^ 32 - 1)%Z).
  { intros t'. destruct (out_of_range _ _ _) eqn:E; [done|]. intros [= <- <-].
    change (f_of_Z 4294967295) with (S754_finite false 9007199252643840 (-21)) in E.
    apply trunc_unsigned in E as (z & Hz & Hr); [|done|done|vm_compute; discriminate].
    change (fmag 9007199252643840 (-21)) with 4294967295%Z in Hr.
    rewrite (to_range_fits oor 0 (2 ^ 32) v z Hz) by lia. split; [done|lia]. }
  unfold encodeForKind, kind_range in *. destruct (str_eqb kind "integer") eqn:Ei.
  { destruct (out_of_range _ _ _) eqn:E; [done|]. injection H as <- <-.
    change (f_of_Z (-2147483648)) with (S754_finite true 4503599627370496 (-21)) in E.
    change (f_of_Z 2147483647) with (S754_finite false 9007199250546688 (-22)) in E.
    apply trunc_signed in E as (z & Hz & Hr); [|done|done|vm_compute; discriminate|vm_compute; discriminate].
    change (fmag 4503599627370496 (-21)) with 2147483648%Z in Hr.
    change (fmag 9007199250546688 (-22)) with 2147483647%Z in Hr.
    rewrite (to_range_fits oor (- 2 ^ 63) (2 ^ 63) v z Hz) by lia. split; [done|cbn; lia]. }
  destruct (str_eqb kind "counter64") eqn:E6.
  { apply str_eqb_eq in E6. subst kind.
    change ((if out_of_range v f0 (f_of_Z (2 ^ 64)) then Err (SRange "counter64")
             else Ok (to_range oor 0 (2 ^ 64) v, BCounter64)) = Ok (iv, t)) in H.
    destruct (out_of_range _ _ _) eqn:E in H; [done|]. injection H as <- <-.
    change (f_of_Z (2 ^ 64)) with (S754_finite false 4503599627370496 12) in E.
    apply trunc_unsigned in E as (z & Hz & Hr); [|done|done|vm_compute; discriminate].
    pose proof (trunc_below_64 v z Hv Hz (proj1 Hr) (Hc eq_refl)).
    rewrite (to_range_fits oor 0 (2 ^ 64) v z Hz) by lia. split; [done|cbn; lia]. }
  repeat (destruct (str_eqb kind _) in H; [by eapply Hu32|]). done.
Qed.

(** ** A concrete agent

    A table of objects and a script of requests that are lost. *)
Record agent_sim : Type := mkAgent { ag_table : gmap string Z; ag_lost : list bool; ag_clock : Z }.

Definition lose (w : agent_sim) : agent_sim * bool :=
  match ag_lost w with
  | [] => (w, false)
  | b :: rest => (mkAgent (ag_table w) rest (ag_clock w), b)
  end.

#[export] Instance demo_agent : Agent agent_sim := {|
  a_now w := (mkAgent (ag_table w) (ag_lost w) (ag_clock w + 1), ag_clock w);
  a_connect w _ _ _ := (w, true);
  a_get w oid :=
    let '(w, lost) := lose w in
    if lost then (w, None)
    else (w, Some (Some (mkPacket 0
      match ag_table w !! oid with
      | Some v => [mkVar TOther (SVInt v)]
      | None => [mkVar TNoSuchInstance SVOther]
      end)));
  a_set w oid _ v :=
    let '(w, lost) := lose w in
    if lost then (w, None)
    else (mkAgent (<[oid := v]> (ag_table w)) (ag_lost w) (ag_clock w), Some (Some 0%Z))
|}.

Definition demo_snmp_bindings : list snmp_Binding :=
  [mkSnmpBinding "temp" ".1.3.1" false EmptyString; mkSnmpBinding "gone" "1.3.9" false EmptyString;
   mkSnmpBinding "flow" "1.3.2" true "gauge"].
Definition demo_agent_sim (lost : list bool) : agent_sim :=
  mkAgent (<["1.3.1" := 23%Z]> (<["1.3.2" := 40%Z]> ∅)) lost 0.
Definition demo_snmp : snmp_Driver :=
  (snmp_Init false false "10.0.0.5" EmptyString (snmp_New demo_snmp_bindings) (demo_agent_sim [])).1.1.

Example demo_snmp_init :
  n_endpoint demo_snmp = "10.0.0.5:161" /\ n_community demo_snmp = "public" /\
  n_connected demo_snmp = true /\
  (snmp_Init false false "h:x" EmptyString (snmp_New demo_snmp_bindings) (demo_agent_sim [])).2 = Some SEndpoint /\
  (snmp_Init false false "h" EmptyString (snmp_New [mkSnmpBinding "p" "1" false EmptyString])
    (demo_agent_sim [])).2 = Some (SInvalidBinding 0).
Proof. vm_compute. repeat split. Qed.

Example demo_snmp_round :
  (view <$> (snmp_Collect demo_snmp (demo_agent_sim [false; false; true])).2) =
  [("temp", f_of_Z 23, QGood); ("gone", f0, QSuspect); ("flow", f0, QSuspect)] /\
  snmp_Health (snmp_Collect demo_snmp (demo_agent_sim [])).1.1 = mkHealth true None 1.
Proof. vm_compute. done. Qed.

Example demo_snmp_write :
  (snmp_Write demo_oor false (mkCommand "flow" (f_of_Z 55) "r" 5) demo_snmp (demo_agent_sim [])).2 =
    (mkResult true (f_of_Z 55) (Some 0%Z), None) /\
  (snmp_Write demo_oor false (mkCommand "flow" (f_of_Z 5000000000) "r" 5) demo_snmp (demo_agent_sim [])).2 =
    (refused, Some (SRange "gauge")) /\
  (snmp_Write demo_oor false (mkCommand "temp" (f_of_Z 1) "r" 5) demo_snmp (demo_agent_sim [])).2 =
    (refused, Some SNotWritable).
Proof. vm_compute. done. Qed.

(** A set point that is not a number passes the range check and is sent as
    whatever the conversion gives. *)
Example nan_is_sent oor : encodeForKind oor S754_nan "gauge" = Ok ((oor S754_nan - 0) mod (2 ^ 32 - 0), BGauge32)%Z.
Proof. reflexivity. Qed.

(** The upper bound of the 64-bit counter is two to the power of 64, which the
    type cannot hold. *)
Example counter64_bound oor :
  exists iv, encodeForKind oor (f_of_Z (2 ^ 64)) "counter64" = Ok (iv, BCounter64) /\
    ftrunc (f_of_Z (2 ^ 64)) = Some (2 ^ 64)%Z.
Proof. eexists. split; reflexivity. Qed.

Lemma encodeForKind_bounds_witness :
  ftrunc (f_of_Z 4294967295) = Some 4294967295%Z /\
  (0 <= 4294967295 <= (kind_range "timeticks").2)%Z.
Proof.
  exact (encodeForKind_bounds demo_oor (f_of_Z 4294967295) "timeticks" 4294967295 BTimeTicks
    eq_refl eq_refl ltac:(discriminate) eq_refl).
Defined.
