(* ===== verification/SnmpSim.v ===== *)
(** * The SNMP simulator (pkg/driver/snmpsim/sim.go)

    An SNMP v2c agent over UDP that the driver is tested against: the parser of
    requests over slices of the receive buffer, the table of objects, and the
    encoder of responses.  A slice carries the memory behind it, because the code
    slices up to the capacity: a datagram that declares more than it holds is
    parsed with what earlier ones left in the buffer, or stops the process.  The
    main theorem says that for requests a client encodes by the rules of BER the
    agent is a table of integers, whatever the buffer held before. *)
From S2P Require Import Prelude GoTime Http CPath PromProj Cursor.
Open Scope string_scope.
Open Scope list_scope.
Open Scope Z_scope.

(** ** Slices *)

Abbreviation bytes := (list Z).
Definition is_byte (b : Z) : Prop := 0 <= b < 256.

(** The memory from the first byte to the capacity, and the length. *)
Record slice : Type := mkSlice { sl_mem : bytes; sl_len : Z }.

Inductive panic : Type := Panic.
Abbreviation go A := (result panic A).

(** [b[i]] *)
Definition index (b : slice) (i : Z) : go Z :=
  if (0 <=? i) && (i <? sl_len b) then
    match sl_mem b !! Z.to_nat i with Some x => Ok x | None => Err Panic end
  else Err Panic.

(** [b[i:j]], bounded by the capacity, and [b[i:]], bounded by the length. *)
Definition cut (b : slice) (i j : Z) : go slice :=
  if (0 <=? i) && (i <=? j) && (j <=? Z.of_nat (length (sl_mem b)))
  then Ok (mkSlice (drop (Z.to_nat i) (sl_mem b)) (j - i)) else Err Panic.
Definition from (b : slice) (i : Z) : go slice := cut b i (sl_len b).

Definition content (b : slice) : bytes := take (Z.to_nat (sl_len b)) (sl_mem b).

(** ** Tags *)

Definition tagInteger : Z := 2.
Definition tagOctetString : Z := 4.
Definition tagNull : Z := 5.
Definition tagObjectIdentifier : Z := 6.
Definition tagSequence : Z := 48.
Definition tagCounter32 : Z := 65.
Definition tagGauge32 : Z := 66.
Definition tagTimeTicks : Z := 67.
Definition tagCounter64 : Z := 70.
Definition tagUinteger32 : Z := 71.
Definition tagNoSuchObject : Z := 128.
Definition tagNoSuchInstance : Z := 129.
Definition tagEndOfMibView : Z := 130.
Definition pduGetRequest : Z := 160.
Definition pduGetResponse : Z := 162.
Definition pduSetRequest : Z := 163.
Definition snmpErrGenErr : Z := 5.
Definition snmpErrAuthorizationError : Z := 16.

(** [uint32(x)]; [int] is 64 bits wide. *)
Definition u32 (x : Z) : Z := x mod 2 ^ 32.

Record SnmpPDU : Type := mkPDU { pd_Name : string; pd_Type : Z; pd_Value : Z }.

(** ** Lengths *)

(** The loop over the octets of the long form. *)
Definition be_int (octets : bytes) : Z := fold_left (fun v b => wrap64 (Z.lor (Z.shiftl v 8) b)) octets 0.

(** The length, and the bytes it takes. *)
Definition parseLength (b : slice) : go (option (Z * Z)) :=
  if sl_len b <? 1 then Ok None
  else
    first ← index b 0;
    if first <? 128 then Ok (Some (first, 1))
    else
      let numOctets := Z.land first 127 in
      if (numOctets =? 0) || (127 <? numOctets) || (sl_len b <? numOctets + 1) then Ok None
      else Ok (Some (be_int (take (Z.to_nat numOctets) (drop 1 (sl_mem b))), 1 + numOctets)).

(** [for tmp > 0 { body = append([]byte{byte(tmp)}, body...); tmp >>= 8 }] *)
Fixpoint be_bytes (fuel : nat) (tmp : Z) (body : bytes) : bytes :=
  match fuel with
  | O => body
  | S f => if tmp <=? 0 then body else be_bytes f (Z.shiftr tmp 8) (Z.land tmp 255 :: body)
  end.

Definition encodeLength (n : Z) : bytes :=
  if n <? 128 then [n]
  else
    let body := be_bytes 8 n [] in
    Z.lor 128 (Z.of_nat (length body)) :: body.

(** ** Integers *)

(** The second bound is that of the loop [b[1+h+i]], which a sum that wrapped in
    the guard runs into. *)
Definition decodeInteger (b : slice) : go (option (Z * Z)) :=
  if sl_len b <? 2 then Ok None
  else
    tag ← index b 0;
    if negb (tag =? tagInteger) then Ok None
    else
      b1 ← from b 1;
      r ← parseLength b1;
      match r with
      | None => Ok None
      | Some (ln, h) =>
          if sl_len b - 1 <? wrap64 (h + ln) then Ok None
          else if sl_len b - 1 <? h + ln then Err Panic
          else
            let octets := take (Z.to_nat ln) (drop (Z.to_nat (1 + h)) (sl_mem b)) in
            Ok (Some (fold_left (fun v x => u32 (Z.lor (Z.shiftl v 8) x)) octets 0, wrap64 (1 + h + ln)))
      end.

(** The body of an unsigned 32-bit number: a zero byte in front when bit 31 is set. *)
Definition pad5 (v : Z) : bytes :=
  [0; Z.land (Z.shiftr v 24) 255; Z.land (Z.shiftr v 16) 255; Z.land (Z.shiftr v 8) 255; Z.land v 255].

Definition encodeInteger (v : Z) : bytes :=
  if v =? 0 then [tagInteger; 1; 0]
  else
    let body := if Z.shiftr v 31 =? 1 then pad5 v else be_bytes 4 v [] in
    tagInteger :: Z.of_nat (length body) :: body.

(** ** Object identifiers *)

Definition FormatUint (v : Z) : string := itoa v.

(** The loop over the bytes behind the first: the arcs, and the value that is
    not terminated. *)
Fixpoint oid_arcs (body : bytes) (v : Z) : list string :=
  match body with
  | [] => []
  | x :: rest =>
      let v := u32 (Z.lor (Z.shiftl v 7) (Z.land x 127)) in
      if Z.land x 128 =? 0 then FormatUint v :: oid_arcs rest 0 else oid_arcs rest v
  end.

Definition decodeOID (b : slice) : go (option (string * Z)) :=
  if sl_len b <? 2 then Ok None
  else
    tag ← index b 0;
    if negb (tag =? tagObjectIdentifier) then Ok None
    else
      b1 ← from b 1;
      r ← parseLength b1;
      match r with
      | None => Ok None
      | Some (ln, h) =>
          if sl_len b <? wrap64 (1 + h + ln) then Ok None
          else
            body ← cut b (1 + h) (wrap64 (1 + h + ln));
            match content body with
            | [] => Ok None
            | first :: arcs =>
                if negb (Z.land (List.last (first :: arcs) 0) 128 =? 0) then Ok None
                else Ok (Some (join "." (FormatUint (first / 40) :: FormatUint (first mod 40) :: oid_arcs arcs 0),
                               wrap64 (1 + h + ln)))
            end
      end.

(** [strconv.ParseUint(s, 10, bits)] *)
Definition ParseUint (s : string) (bits : Z) : option Z :=
  if str_eqb s EmptyString || negb (all_bytes is_digit s) then None
  else let v := Z.of_N (dec_value 0 s) in if v <? 2 ^ bits then Some v else None.

(** [for v > 0 { body = append([]byte{byte(v & 0x7f)}, body...); v >>= 7 }] and the
    marks on all but the last byte. *)
Fixpoint base128 (fuel : nat) (v : Z) (body : bytes) : bytes :=
  match fuel with
  | O => body
  | S f => if v <=? 0 then body else base128 f (Z.shiftr v 7) (Z.land v 127 :: body)
  end.
Fixpoint mark_all_but_last (body : bytes) : bytes :=
  match body with
  | [] => []
  | [x] => [x]
  | x :: rest => Z.lor x 128 :: mark_all_but_last rest
  end.
Definition encodeBase128 (v : Z) : bytes := if v =? 0 then [0] else mark_all_but_last (base128 5 v []).

Fixpoint encode_arcs (parts : list string) : option bytes :=
  match parts with
  | [] => Some []
  | p :: rest => v ← ParseUint p 32; bs ← encode_arcs rest; Some (encodeBase128 v ++ bs)
  end.

Definition canonicalOID (oid : string) : string := trim_prefix oid ".".

Definition encodeObjectIdentifier (oid : string) : option bytes :=
  match split "." (canonicalOID oid) with
  | p0 :: p1 :: rest =>
      first ← ParseUint p0 8;
      if 2 <? first then None
      else
        second ← ParseUint p1 8;
        if (2 <=? first) && (39 <? second) then None
        else
          arcs ← encode_arcs rest;
          let body := Z.land (first * 40 + second) 255 :: arcs in
          Some (tagObjectIdentifier :: Z.land (Z.of_nat (length body)) 255 :: body)
  | _ => None
  end.

(** ** Variable bindings *)

(** The loop of [decodeVarbindList]; every entry takes at least two bytes. *)
Definition decode_entry (body : slice) : go (option (SnmpPDU * slice)) :=
  tag0 ← index body 0;
  if negb (tag0 =? tagSequence) then Ok None
  else
    b1 ← from body 1;
    r ← parseLength b1;
    match r with
    | None => Ok None
    | Some (innerLen, innerH) =>
        inner ← cut body (1 + innerH) (wrap64 (1 + innerH + innerLen));
        rest_body ← from body (wrap64 (1 + innerH + innerLen));
        o ← decodeOID inner;
        match o with
        | None => Ok None
        | Some (oid, n) =>
            rest ← from inner n;
            if sl_len rest <? 1 then Ok (Some (mkPDU oid tagNull 0, rest_body))
            else
              tag ← index rest 0;
              if tag =? tagNull then Ok (Some (mkPDU oid tagNull 0, rest_body))
              else if existsb (Z.eqb tag) [tagInteger; tagCounter32; tagGauge32; tagTimeTicks; tagUinteger32; tagCounter64]
              then
                v ← decodeInteger rest;
                match v with
                | None => Ok None
                | Some (v, _) => Ok (Some (mkPDU oid tag v, rest_body))
                end
              else Ok (Some (mkPDU oid tag 0, rest_body))
        end
    end.

Fixpoint decode_entries (fuel : nat) (body : slice) : go (option (list SnmpPDU)) :=
  match fuel with
  | O => Ok None
  | S f =>
      if sl_len body <=? 0 then Ok (Some [])
      else
        r ← decode_entry body;
        match r with
        | None => Ok None
        | Some (pdu, body') =>
            out ← decode_entries f body';
            Ok (option_map (cons pdu) out)
        end
  end.

Definition decodeVarbindList (b : slice) : go (option (list SnmpPDU)) :=
  if sl_len b <? 2 then Ok None
  else
    tag ← index b 0;
    if negb (tag =? tagSequence) then Ok None
    else
      b1 ← from b 1;
      r ← parseLength b1;
      match r with
      | None => Ok None
      | Some (ln, h) =>
          body ← cut b (1 + h) (wrap64 (1 + h + ln));
          decode_entries (S (Z.to_nat (sl_len body))) body
      end.

Record pdu_header : Type := mkHeader { ph_rid : Z; ph_es : Z; ph_ei : Z }.

Definition parsePDUHeaderAndVarbinds (pdu : slice) : go (option (pdu_header * list SnmpPDU)) :=
  a ← decodeInteger pdu;
  match a with
  | None => Ok None
  | Some (rid, n) =>
      cur ← from pdu n;
      b ← decodeInteger cur;
      match b with
      | None => Ok None
      | Some (es, n) =>
          cur ← from cur n;
          c ← decodeInteger cur;
          match c with
          | None => Ok None
          | Some (ei, n) =>
              cur ← from cur n;
              vbs ← decodeVarbindList cur;
              Ok (option_map (fun vbs => (mkHeader rid es (Z.land ei 255), vbs)) vbs)
          end
      end
  end.

(** ** The agent *)

Record Sim : Type := mkSim {
  sm_community : bytes; sm_values : gmap string Z; sm_masked : gset string; sm_requests : Z
}.

Definition New (community : bytes) : Sim :=
  mkSim (match community with [] => [112; 117; 98; 108; 105; 99] | _ => community end) ∅ ∅ 0.

Definition with_values (s : Sim) (values : gmap string Z) : Sim :=
  mkSim (sm_community s) values (sm_masked s) (sm_requests s).
Definition with_masked (s : Sim) (masked : gset string) : Sim :=
  mkSim (sm_community s) (sm_values s) masked (sm_requests s).

Definition SetOID (s : Sim) (oid : string) (value : Z) : Sim :=
  with_values s (<[canonicalOID oid := value]> (sm_values s)).
Definition Requests (s : Sim) : Z := sm_requests s.
Definition Get (s : Sim) (oid : string) : option Z := sm_values s !! canonicalOID oid.
Definition Mask (s : Sim) (oid : string) : Sim := with_masked s ({[canonicalOID oid]} ∪ sm_masked s).
Definition Unmask (s : Sim) (oid : string) : Sim := with_masked s (sm_masked s ∖ {[canonicalOID oid]}).

Definition handleGet (s : Sim) (vb : SnmpPDU) : SnmpPDU :=
  let canon := canonicalOID (pd_Name vb) in
  if bool_decide (canon ∈ sm_masked s) then mkPDU (pd_Name vb) tagNoSuchInstance 0
  else match sm_values s !! canon with
  | None => mkPDU (pd_Name vb) tagNoSuchInstance 0
  | Some _ => mkPDU (pd_Name vb) tagInteger (default 0 (Get s canon))
  end.

Definition handleSet (s : Sim) (vb : SnmpPDU) : Sim * SnmpPDU :=
  let canon := canonicalOID (pd_Name vb) in
  let refuse := (s, mkPDU (pd_Name vb) tagNoSuchInstance 0) in
  let accept v := (SetOID s canon v, mkPDU (pd_Name vb) tagInteger v) in
  if bool_decide (canon ∈ sm_masked s) then refuse
  else if pd_Type vb =? tagInteger then accept (pd_Value vb)
  else if existsb (Z.eqb (pd_Type vb)) [tagCounter32; tagGauge32; tagTimeTicks; tagUinteger32]
  then accept (u32 (pd_Value vb))
  else if pd_Type vb =? tagCounter64 then accept (pd_Value vb)
  else refuse.

Fixpoint handle_all (s : Sim) (pduType : Z) (vbs : list SnmpPDU) : Sim * list SnmpPDU :=
  match vbs with
  | [] => (s, [])
  | vb :: rest =>
      let '(s, out) := if pduType =? pduGetRequest then (s, handleGet s vb) else handleSet s vb in
      let '(s, outs) := handle_all s pduType rest in (s, out :: outs)
  end.

(** ** Responses *)

(** The bodies of the wider types are computed, but only their tag and length are
    returned. *)
Definition encodeValue (vb : SnmpPDU) : bytes :=
  let t := pd_Type vb in
  if t =? tagInteger then encodeInteger (u32 (pd_Value vb))
  else if existsb (Z.eqb t) [tagCounter32; tagGauge32; tagTimeTicks; tagUinteger32] then
    let v := u32 (pd_Value vb) in
    let body := if Z.shiftr v 31 =? 1 then pad5 v else if v =? 0 then [0] else be_bytes 4 v [] in
    [t; Z.of_nat (length body)]
  else if t =? tagCounter64 then
    let v := pd_Value vb mod 2 ^ 64 in
    let body := if Z.shiftr v 63 =? 1 then 0 :: be_bytes 8 v [] else be_bytes 8 v [] in
    [tagCounter64; Z.of_nat (length body)]
  else if existsb (Z.eqb t) [tagNoSuchObject; tagNoSuchInstance; tagEndOfMibView] then [t; 0]
  else [tagNull; 0].

Definition encodeVarbind (vb : SnmpPDU) : bytes :=
  let body := default [tagObjectIdentifier; 0] (encodeObjectIdentifier (pd_Name vb)) ++ encodeValue vb in
  tagSequence :: encodeLength (Z.of_nat (length body)) ++ body.

Definition encodePDUHeader (h : pdu_header) : bytes :=
  encodeInteger (ph_rid h) ++ encodeInteger (ph_es h) ++ encodeInteger (ph_ei h).

Definition buildResponse (s : Sim) (pduType : Z) (h : pdu_header) (vbs : list SnmpPDU) : bytes :=
  let verBytes := [tagInteger; 1; 1] in
  let comBytes := tagOctetString :: Z.land (Z.of_nat (length (sm_community s))) 255 :: sm_community s in
  let vbBytes := concat (encodeVarbind <$> vbs) in
  let vbl := tagSequence :: encodeLength (Z.of_nat (length vbBytes)) ++ vbBytes in
  let pduBody := encodePDUHeader h ++ vbl in
  let pdu := pduType :: encodeLength (Z.of_nat (length pduBody)) ++ pduBody in
  let msgBody := verBytes ++ comBytes ++ pdu in
  tagSequence :: encodeLength (Z.of_nat (length msgBody)) ++ msgBody.

(** ** Requests *)

Definition gen_err (s : Sim) : bytes := buildResponse s pduGetResponse (mkHeader 0 snmpErrGenErr 0) [].

Definition bytes_eqb (a b : bytes) : bool := bool_decide (a = b).

(** From the PDU on; [community] is the one of the request. *)
Definition handle_pdu (s : Sim) (community : bytes) (body : slice) : go (Sim * option bytes) :=
  if sl_len body <? 2 then Ok (s, None)
  else
    pduType ← index body 0;
    b1 ← from body 1;
    r ← parseLength b1;
    match r with
    | None => Ok (s, None)
    | Some (pduLen, pduHeaderLen) =>
        if sl_len body <? wrap64 (1 + pduHeaderLen + pduLen) then Ok (s, None)
        else
          pduBody ← cut body (1 + pduHeaderLen) (wrap64 (1 + pduHeaderLen + pduLen));
          if negb (pduType =? pduGetRequest) && negb (pduType =? pduSetRequest) then Ok (s, Some (gen_err s))
          else
            p ← parsePDUHeaderAndVarbinds pduBody;
            match p with
            | None => Ok (s, Some (gen_err s))
            | Some (h, varbinds) =>
                if negb (bytes_eqb community (sm_community s))
                then Ok (s, Some (buildResponse s pduGetResponse (mkHeader (ph_rid h) snmpErrAuthorizationError 0) varbinds))
                else
                  let '(s', out) := handle_all s pduType varbinds in
                  Ok (s', Some (buildResponse s' pduGetResponse h out))
            end
    end.

Definition handle_community (s : Sim) (body : slice) : go (Sim * option bytes) :=
  if sl_len body <? 2 then Ok (s, None)
  else
    tag ← index body 0;
    if negb (tag =? tagOctetString) then Ok (s, None)
    else
      b1 ← from body 1;
      r ← parseLength b1;
      match r with
      | None => Ok (s, None)
      | Some (comLen, comHeaderLen) =>
          if sl_len body <? wrap64 (comHeaderLen + comLen) then Ok (s, None)
          else
            com ← cut body (1 + comHeaderLen) (wrap64 (1 + comHeaderLen + comLen));
            body ← from body (wrap64 (1 + comHeaderLen + comLen));
            handle_pdu s (content com) body
      end.

(** What the code takes for the length of the version is the number of bytes its
    length takes. *)
Definition handle_version (s : Sim) (body : slice) : go (Sim * option bytes) :=
  if sl_len body <? 3 then Ok (s, None)
  else
    tag ← index body 0;
    if negb (tag =? tagInteger) then Ok (s, None)
    else
      b1 ← from body 1;
      r ← parseLength b1;
      match r with
      | None => Ok (s, None)
      | Some (_, verLen) =>
          if (verLen <? 1) || (sl_len body <? 2 + verLen) then Ok (s, None)
          else body ← from body (2 + verLen); handle_community s body
      end.

Definition handleRequest (s : Sim) (raw : slice) : go (Sim * option bytes) :=
  if sl_len raw <? 2 then Ok (s, None)
  else
    tag ← index raw 0;
    if negb (tag =? tagSequence) then Ok (s, None)
    else
      b1 ← from raw 1;
      r ← parseLength b1;
      match r with
      | None => Ok (s, None)
      | Some (seqLen, seqHeaderLen) =>
          body ← cut raw (1 + seqHeaderLen) (wrap64 (1 + seqHeaderLen + seqLen));
          if sl_len body <? seqLen then Ok (s, None) else handle_version s body
      end.

(** ** The loop: a datagram overwrites the front of the buffer *)

Definition buffer_size : nat := 64 * 1024.
Definition read_from (buf dgram : bytes) : slice :=
  let got := take (length buf) dgram in mkSlice (got ++ drop (length got) buf) (Z.of_nat (length got)).

Definition serve (s : Sim) (buf dgram : bytes) : go (Sim * bytes * option bytes) :=
  let s := mkSim (sm_community s) (sm_values s) (sm_masked s) ((sm_requests s + 1) mod 2 ^ 64) in
  let raw := read_from buf dgram in
  r ← handleRequest s raw;
  Ok (r.1, sl_mem raw, r.2).

(** What the tests and the network do to an agent; [buf] is the memory of the loop. *)
Inductive input : Type :=
  | InSet (oid : string) (value : Z) | InMask (oid : string) | InUnmask (oid : string) | InDatagram (dgram : bytes).

Definition step (s : Sim) (buf : bytes) (i : input) : go (Sim * bytes * option bytes) :=
  match i with
  | InSet o v => Ok (SetOID s o v, buf, None)
  | InMask o => Ok (Mask s o, buf, None)
  | InUnmask o => Ok (Unmask s o, buf, None)
  | InDatagram d => serve s buf d
  end.

Fixpoint run (s : Sim) (buf : bytes) (inputs : list input) : go (Sim * list (option bytes)) :=
  match inputs with
  | [] => Ok (s, [])
  | i :: inputs =>
      r ← step s buf i;
      let '(s, buf, out) := r in
      k ← run s buf inputs;
      Ok (k.1, out :: k.2)
  end.

(** ** BER, as its rules say it

    The lengths, integers and identifiers that a client may send; the relations
    allow every length form and padding that the rules of BER allow. *)

Definition be_value (octets : bytes) : Z := fold_left (fun v b => v * 256 + b) octets 0.

Inductive ber_length : Z -> bytes -> Prop :=
  | ber_short n : 0 <= n < 128 -> ber_length n [n]
  | ber_long octets : octets <> [] -> (length octets < 127)%nat -> Forall is_byte octets ->
      be_value octets <= max_int64 ->
      ber_length (be_value octets) (128 + Z.of_nat (length octets) :: octets).

(** Tag, length, contents. *)
Definition ber (tag : Z) (body bs : bytes) : Prop :=
  exists l, ber_length (Z.of_nat (length body)) l /\ bs = tag :: l ++ body.

(** A non-negative INTEGER: the first bit is the sign. *)
Definition ber_nat (v : Z) (bs : bytes) : Prop :=
  exists x body, Forall is_byte (x :: body) /\ x < 128 /\ be_value (x :: body) = v /\ v < 2 ^ 32 /\
    ber tagInteger (x :: body) bs.

(** A subidentifier: seven bits a byte, a mark on all but the last. *)
Definition seven_value (ds : bytes) : Z := fold_left (fun v d => v * 128 + d) ds 0.
Definition subid (v : Z) (bs : bytes) : Prop :=
  exists ds d, bs = map (fun x => 128 + x) ds ++ [d] /\ Forall (fun x => 0 <= x < 128) (ds ++ [d]) /\
    seven_value (ds ++ [d]) = v.

Record oid : Type := mkOid { o_first : Z; o_second : Z; o_arcs : list Z }.
Definition oid_ok (o : oid) : Prop :=
  0 <= o_first o <= 2 /\ 0 <= o_second o <= 39 /\ Forall (fun a => 0 <= a < 2 ^ 32) (o_arcs o).
Definition oid_text (o : oid) : string :=
  join "." (itoa (o_first o) :: itoa (o_second o) :: map itoa (o_arcs o)).
Definition ber_oid (o : oid) (bs : bytes) : Prop :=
  exists parts, Forall2 subid (o_arcs o) parts /\
    ber tagObjectIdentifier (40 * o_first o + o_second o :: concat parts) bs.

(** Values of bindings, and a message: a request carries nulls and integers, a
    response also the mark of an object that is not there. *)
Inductive datum : Type := DNull | DInt (v : Z) | DNoSuch.
Abbreviation binding := (oid * datum)%type.
Definition ber_datum (d : datum) (bs : bytes) : Prop :=
  match d with
  | DNull => ber tagNull [] bs
  | DInt v => ber_nat v bs
  | DNoSuch => ber tagNoSuchInstance [] bs
  end.
Definition ber_binding (b : binding) (bs : bytes) : Prop :=
  exists o v, ber_oid b.1 o /\ ber_datum b.2 v /\ ber tagSequence (o ++ v) bs.
Definition ber_bindings (items : list binding) (bs : bytes) : Prop :=
  exists parts, Forall2 ber_binding items parts /\ ber tagSequence (concat parts) bs.

Record message : Type := mkMessage {
  ms_community : bytes; ms_type : Z; ms_rid : Z; ms_es : Z; ms_ei : Z; ms_items : list binding
}.
Definition ber_pdu (m : message) (bs : bytes) : Prop :=
  exists r e i l, ber_nat (ms_rid m) r /\ ber_nat (ms_es m) e /\ ber_nat (ms_ei m) i /\
    ber_bindings (ms_items m) l /\ ber (ms_type m) (r ++ e ++ i ++ l) bs.
Definition ber_message (m : message) (bs : bytes) : Prop :=
  exists version c p, ber tagOctetString (ms_community m) c /\ ber_pdu m p /\
    ber tagSequence ([tagInteger; 1; version] ++ c ++ p) bs.

(** *** Slices that hold what they show *)

Definition view (bs tail : bytes) : slice := mkSlice (bs ++ tail) (Z.of_nat (length bs)).
Definition small (bs : bytes) : Prop := Z.of_nat (length bs) < 2 ^ 32.

Lemma index_view x bs tail : index (view (x :: bs) tail) 0 = Ok x.
Proof. done. Qed.

Lemma cut_view a b c tail :
  cut (view (a ++ b ++ c) tail) (Z.of_nat (length a)) (Z.of_nat (length a) + Z.of_nat (length b)) =
  Ok (view b (c ++ tail)).
Proof.
  unfold cut, view. cbn [sl_mem].
  rewrite (proj2 (Z.leb_le _ _)), (proj2 (Z.leb_le _ _)), (proj2 (Z.leb_le _ _)) by (rewrite ?length_app; lia).
  cbn [andb]. rewrite Nat2Z.id, <- !app_assoc, drop_app_length. f_equal. f_equal. lia.
Qed.

Lemma from_view a b tail : from (view (a ++ b) tail) (Z.of_nat (length a)) = Ok (view b tail).
Proof.
  unfold from, cut, view. cbn [sl_mem sl_len].
  rewrite (proj2 (Z.leb_le _ _)), (proj2 (Z.leb_le _ _)), (proj2 (Z.leb_le _ _)) by (rewrite ?length_app; lia).
  cbn [andb]. rewrite Nat2Z.id, <- !app_assoc, drop_app_length. f_equal. f_equal. rewrite length_app. lia.
Qed.

Lemma from_view_1 x b tail : from (view (x :: b) tail) 1 = Ok (view b tail).
Proof. apply (from_view [x] b tail). Qed.

Lemma content_view bs tail : content (view bs tail) = bs.
Proof. unfold content, view. cbn. by rewrite Nat2Z.id, take_app_length. Qed.

Lemma view_len bs tail : sl_len (view bs tail) = Z.of_nat (length bs).
Proof. done. Qed.

(** *** Numbers *)

Lemma lor_low v b k : 0 <= k -> 0 <= b < 2 ^ k -> Z.lor (Z.shiftl v k) b = v * 2 ^ k + b.
Proof.
  intros Hk Hb. rewrite <- Z.shiftl_mul_pow2 by done.
  pose proof (Z.add_lor_land (Z.shiftl v k) b) as H. enough (Z.land (Z.shiftl v k) b = 0) by lia.
  apply Z.bits_inj'. intros n Hn. rewrite Z.land_spec, Z.bits_0, Z.shiftl_spec by done.
  destruct (Z.ltb_spec n k).
  - by rewrite Z.testbit_neg_r by lia.
  - destruct (decide (b = 0)) as [->|]; [by rewrite Z.testbit_0_l, andb_false_r|].
    rewrite (Z.bits_above_log2 b n); [by rewrite andb_false_r|lia|]. apply Z.log2_lt_pow2; [lia|].
    apply Z.lt_le_trans with (2 ^ k); [lia|]. apply Z.pow_le_mono_r; lia.
Qed.

Lemma fold_grows k ds : 0 <= k -> Forall (fun b => 0 <= b) ds ->
  forall v, 0 <= v -> v <= fold_left (fun v b => v * 2 ^ k + b) ds v.
Proof.
  intros Hk. pose proof (Z.pow_pos_nonneg 2 k) as Hp.
  induction 1 as [|b ds Hb _ IH]; intros v Hv; cbn; [done|]. etrans; [|apply IH]; nia.
Qed.

Lemma be_value_app_le octets : Forall is_byte octets -> forall v, 0 <= v ->
  v <= fold_left (fun v b => v * 256 + b) octets v.
Proof.
  intros Ho v Hv. apply (fold_grows 8); [done| |done]. eapply Forall_impl; [exact Ho|]. unfold is_byte. lia.
Qed.

Lemma be_int_value octets : Forall is_byte octets -> be_value octets <= max_int64 -> be_int octets = be_value octets.
Proof.
  unfold be_int, be_value. assert (H : forall v, Forall is_byte octets -> 0 <= v ->
    fold_left (fun v b => v * 256 + b) octets v <= max_int64 ->
    fold_left (fun v b => wrap64 (Z.lor (Z.shiftl v 8) b)) octets v = fold_left (fun v b => v * 256 + b) octets v).
  { induction octets as [|b octets IH]; intros v Hf Hv Hm; cbn in *; [done|].
    apply Forall_cons in Hf as [Hb Hf]. unfold is_byte in Hb.
    rewrite (lor_low v b 8) by lia. change (2 ^ 8) with 256.
    pose proof (be_value_app_le octets Hf (v * 256 + b) ltac:(lia)).
    rewrite wrap64_id by (unfold min_int64; lia). apply IH; [done|lia|done]. }
  intros Hf Hm. by apply H.
Qed.

Lemma u32_value octets : Forall is_byte octets -> be_value octets < 2 ^ 32 ->
  fold_left (fun v x => u32 (Z.lor (Z.shiftl v 8) x)) octets 0 = be_value octets.
Proof.
  unfold be_value. assert (H : forall v, Forall is_byte octets -> 0 <= v ->
    fold_left (fun v b => v * 256 + b) octets v < 2 ^ 32 ->
    fold_left (fun v x => u32 (Z.lor (Z.shiftl v 8) x)) octets v = fold_left (fun v b => v * 256 + b) octets v).
  { induction octets as [|b octets IH]; intros v Hf Hv Hm; cbn in *; [done|].
    apply Forall_cons in Hf as [Hb Hf]. unfold is_byte in Hb.
    rewrite (lor_low v b 8) by lia. change (2 ^ 8) with 256.
    pose proof (be_value_app_le octets Hf (v * 256 + b) ltac:(lia)).
    unfold u32. rewrite Z.mod_small by lia. apply IH; [done|lia|done]. }
  intros Hf Hm. by apply H.
Qed.

(** *** Reading a length *)

Lemma parseLength_view n l rest tail : ber_length n l ->
  parseLength (view (l ++ rest) tail) = Ok (Some (n, Z.of_nat (length l))).
Proof.
  intros [k Hk|octets Hne Hlen Hb Hm]; unfold parseLength; rewrite view_len; cbn [app length].
  - destruct (Z.ltb_spec (Z.of_nat (S (length rest))) 1); [lia|]. rewrite index_view. cbn [mbind result_bind].
    by destruct (Z.ltb_spec k 128); [|lia].
  - destruct (Z.ltb_spec (Z.of_nat (S (length (octets ++ rest)))) 1); [lia|]. rewrite index_view.
    cbn [mbind result_bind]. destruct (Z.ltb_spec (128 + Z.of_nat (length octets)) 128); [lia|].
    assert (Hl : Z.land (128 + Z.of_nat (length octets)) 127 = Z.of_nat (length octets)).
    { change 127 with (Z.ones 7). rewrite Z.land_ones by done. change (2 ^ 7) with 128.
      rewrite <- (Z.mul_1_l 128) at 1. rewrite Z.add_comm, Z.mod_add by done. apply Z.mod_small. lia. }
    rewrite Hl. destruct octets as [|o octets]; [done|]. set (os := o :: octets) in *.
    destruct (Z.eqb_spec (Z.of_nat (length os)) 0); [cbn in *; lia|].
    destruct (Z.ltb_spec 127 (Z.of_nat (length os))); [lia|].
    destruct (Z.ltb_spec (Z.of_nat (S (length (os ++ rest)))) (Z.of_nat (length os) + 1)).
    { rewrite length_app in *. lia. }
    cbn [orb]. rewrite Nat2Z.id. cbn [view sl_mem app drop]. rewrite drop_0, <- app_assoc, take_app_length.
    rewrite be_int_value by done. f_equal. f_equal. f_equal. lia.
Qed.

Lemma ber_length_pos n l : ber_length n l -> 0 <= n /\ (1 <= length l)%nat.
Proof.
  intros [k Hk|octets Hne Hlen Hb Hm]; cbn [length]; split; try lia. by apply be_value_app_le.
Qed.

(** *** Reading one element of a view *)

Record reads_as (tag : Z) (body bs rest tail : bytes) (ln h : Z) : Prop := mkReads {
  ra_len : ln = Z.of_nat (length body);
  ra_size : 1 + h + ln = Z.of_nat (length bs);
  ra_h : 1 <= h;
  ra_index : index (view (bs ++ rest) tail) 0 = Ok tag;
  ra_length : (b1 ← from (view (bs ++ rest) tail) 1; parseLength b1) = Ok (Some (ln, h));
  ra_cut : cut (view (bs ++ rest) tail) (1 + h) (Z.of_nat (length bs)) = Ok (view body (rest ++ tail));
  ra_mem : drop (Z.to_nat (1 + h)) (sl_mem (view (bs ++ rest) tail)) = body ++ rest ++ tail
}.

Lemma ber_reads tag body bs rest tail : ber tag body bs ->
  exists ln h, reads_as tag body bs rest tail ln h.
Proof.
  intros (l & Hl & ->). exists (Z.of_nat (length body)), (Z.of_nat (length l)).
  pose proof (ber_length_pos _ _ Hl) as [_ Hp]. split.
  - done.
  - cbn [length]. rewrite length_app. lia.
  - lia.
  - done.
  - cbn [app]. rewrite from_view_1. cbn [mbind result_bind]. rewrite <- app_assoc. by apply parseLength_view.
  - assert (E : cut (view ((tag :: l) ++ body ++ rest) tail) (Z.of_nat (length (tag :: l)))
      (Z.of_nat (length (tag :: l)) + Z.of_nat (length body)) = Ok (view body (rest ++ tail))) by apply cut_view.
    replace ((tag :: l ++ body) ++ rest) with ((tag :: l) ++ body ++ rest) by (cbn; by rewrite <- app_assoc).
    rewrite <- E. f_equal; cbn [length]; rewrite ?length_app; lia.
  - replace (Z.to_nat (1 + Z.of_nat (length l))) with (length (tag :: l)) by (cbn; lia).
    cbn [view sl_mem]. replace (((tag :: l ++ body) ++ rest) ++ tail) with ((tag :: l) ++ body ++ rest ++ tail)
      by (cbn; by rewrite <- !app_assoc).
    apply drop_app_length.
Qed.

Lemma wrap_small z : 0 <= z < 2 ^ 32 -> wrap64 z = z.
Proof. intros H. apply wrap64_id. unfold min_int64, max_int64. lia. Qed.

(** The two reads of a length, and the bounds behind them, as one step. *)
Lemma read_length {A} (b : slice) r (k : option (Z * Z) -> go A) :
  (b1 ← from b 1; parseLength b1) = Ok r -> (b1 ← from b 1; r ← parseLength b1; k r) = k r.
Proof. destruct (from b 1) as [b1|]; cbn; [|done]. by intros ->. Qed.

(** *** Integers *)

Lemma decodeInteger_view v bs rest tail : ber_nat v bs -> small (bs ++ rest) ->
  decodeInteger (view (bs ++ rest) tail) = Ok (Some (v, Z.of_nat (length bs))).
Proof.
  intros (x & body & Hb & Hx & Hv & Hmax & Hber) Hs.
  destruct (ber_reads _ _ _ rest tail Hber) as (ln & h & [Hln Hsz Hh Hi Hl Hc Hm]).
  unfold small in Hs. rewrite length_app in Hs.
  unfold decodeInteger. rewrite view_len, length_app.
  destruct (Z.ltb_spec (Z.of_nat (length bs + length rest)) 2); [cbn in Hln; lia|].
  rewrite Hi. cbn [mbind result_bind]. rewrite Z.eqb_refl. cbn [negb]. rewrite (read_length _ _ _ Hl).
  rewrite !wrap_small by (cbn in Hln; lia).
  destruct (Z.ltb_spec (Z.of_nat (length bs + length rest) - 1) (h + ln)); [lia|]. cbv iota.
  rewrite Hm, Hln, Nat2Z.id, take_app_length, u32_value by (rewrite ?Hv; done).
  by rewrite Hv, <- Hln, Hsz.
Qed.

(** *** Object identifiers *)

Lemma land_128_low x : 0 <= x < 128 -> Z.land x 128 = 0 /\ Z.land x 127 = x.
Proof.
  intros H. assert (Hf : forallb (fun n => (Z.land n 128 =? 0) && (Z.land n 127 =? n)) (Z.of_nat <$> seq 0 128) = true)
    by (vm_compute; reflexivity).
  rewrite forallb_forall in Hf. specialize (Hf x). cbv beta in Hf. rewrite andb_true_iff, !Z.eqb_eq in Hf. apply Hf.
  apply list_elem_of_In, list_elem_of_fmap. exists (Z.to_nat x). rewrite Z2Nat.id by lia. split; [done|].
  apply elem_of_seq. lia.
Qed.
Lemma land_128_marked x : 0 <= x < 128 -> Z.land (128 + x) 128 = 128 /\ Z.land (128 + x) 127 = x.
Proof.
  intros H. assert (Hf : forallb (fun n => (Z.land (128 + n) 128 =? 128) && (Z.land (128 + n) 127 =? n))
    (Z.of_nat <$> seq 0 128) = true) by (vm_compute; reflexivity).
  rewrite forallb_forall in Hf. specialize (Hf x). cbv beta in Hf. rewrite andb_true_iff, !Z.eqb_eq in Hf. apply Hf.
  apply list_elem_of_In, list_elem_of_fmap. exists (Z.to_nat x). rewrite Z2Nat.id by lia. split; [done|].
  apply elem_of_seq. lia.
Qed.

Lemma seven_le ds : Forall (fun x => 0 <= x < 128) ds -> forall v, 0 <= v ->
  v <= fold_left (fun v d => v * 128 + d) ds v.
Proof. intros Hd v Hv. apply (fold_grows 7); [done| |done]. eapply Forall_impl; [exact Hd|]. cbn. lia. Qed.

Lemma oid_arcs_subid a bs rest : subid a bs -> 0 <= a < 2 ^ 32 -> oid_arcs (bs ++ rest) 0 = itoa a :: oid_arcs rest 0.
Proof.
  intros (ds & d & -> & Hd & Hv) Ha. unfold seven_value in Hv. rewrite <- Hv in *. clear Hv.
  assert (H : forall v, 0 <= v -> fold_left (fun v d => v * 128 + d) (ds ++ [d]) v < 2 ^ 32 ->
    oid_arcs ((map (fun x => 128 + x) ds ++ [d]) ++ rest) v =
    itoa (fold_left (fun v d => v * 128 + d) (ds ++ [d]) v) :: oid_arcs rest 0).
  { clear Ha. induction ds as [|x ds IH]; intros v Hv Hm; cbn [map app fold_left oid_arcs] in *;
      apply Forall_cons in Hd as [Hx Hd].
    - destruct (land_128_low d Hx) as [-> ->]. rewrite Z.eqb_refl. rewrite (lor_low v d 7) by lia.
      change (2 ^ 7) with 128. unfold u32. by rewrite Z.mod_small by lia.
    - destruct (land_128_marked x Hx) as [-> ->]. change (128 =? 0) with false. cbv iota.
      rewrite (lor_low v x 7) by lia. change (2 ^ 7) with 128.
      pose proof (seven_le _ Hd (v * 128 + x) ltac:(lia)). unfold u32. rewrite Z.mod_small by lia.
      apply IH; [done|lia|done]. }
  apply H; [done|]. apply Ha.
Qed.

Lemma oid_arcs_parts arcs parts : Forall2 subid arcs parts -> Forall (fun a => 0 <= a < 2 ^ 32) arcs ->
  oid_arcs (concat parts) 0 = map itoa arcs.
Proof.
  induction 1 as [|a p arcs parts Hs _ IH]; intros Ha; [done|]. apply Forall_cons in Ha as [Ha Hrest].
  cbn [concat map]. rewrite (oid_arcs_subid a) by done. by rewrite IH.
Qed.

(** The last byte of an identifier carries no mark. *)
Lemma last_unmarked arcs parts first : Forall2 subid arcs parts -> 0 <= first < 128 ->
  Z.land (List.last (first :: concat parts) 0) 128 = 0.
Proof.
  intros H Hf. destruct (decide (parts = [])) as [->|Hne]; [by apply land_128_low|].
  assert (E : exists d, 0 <= d < 128 /\ List.last (first :: concat parts) 0 = d).
  { destruct (exists_last Hne) as (ps & p & ->). apply Forall2_app_inv_r in H as (l1 & l2 & _ & H & _).
    inversion H as [|a q l3 ps' (ds & d & -> & Hd & _) H']; subst. exists d.
    apply Forall_app in Hd as [_ [Hd _]%Forall_cons]. split; [done|].
    rewrite concat_app. cbn [concat]. rewrite app_nil_r, app_comm_cons, app_assoc. apply last_last. }
  destruct E as (d & Hd & ->). by apply land_128_low.
Qed.

(** One element and what is behind it: the step every reader takes. *)
Lemma reads_rest tag body bs rest tail ln h : reads_as tag body bs rest tail ln h ->
  from (view (bs ++ rest) tail) (1 + h + ln) = Ok (view rest tail).
Proof. intros [_ Hsz _ _ _ _ _]. rewrite Hsz. apply from_view. Qed.

Lemma decodeOID_view o bs rest tail : oid_ok o -> ber_oid o bs -> small (bs ++ rest) ->
  decodeOID (view (bs ++ rest) tail) = Ok (Some (oid_text o, Z.of_nat (length bs))).
Proof.
  intros (Ha & Hb & Harcs) (parts & Hp & Hber) Hs.
  destruct (ber_reads _ _ _ rest tail Hber) as (ln & h & [Hln Hsz Hh Hi Hl Hc Hm]).
  unfold small in Hs. rewrite length_app in Hs.
  unfold decodeOID. rewrite view_len, length_app.
  destruct (Z.ltb_spec (Z.of_nat (length bs + length rest)) 2); [cbn in Hln; lia|].
  rewrite Hi. cbn [mbind result_bind]. rewrite Z.eqb_refl. cbn [negb]. rewrite (read_length _ _ _ Hl).
  rewrite Hsz, wrap_small by lia.
  destruct (Z.ltb_spec (Z.of_nat (length bs + length rest)) (Z.of_nat (length bs))); [lia|].
  rewrite Hc. cbn [mbind result_bind]. rewrite content_view, (last_unmarked _ _ _ Hp) by lia.
  change (negb (0 =? 0)) with false. cbv iota.
  assert (E1 : (40 * o_first o + o_second o) / 40 = o_first o) by (symmetry; apply (Z.div_unique _ _ _ (o_second o)); lia).
  assert (E2 : (40 * o_first o + o_second o) mod 40 = o_second o) by (symmetry; apply (Z.mod_unique _ _ (o_first o)); lia).
  rewrite E1, E2, (oid_arcs_parts _ _ Hp Harcs). done.
Qed.

(** *** Bindings *)

Definition request_datum (d : datum) : Prop := d <> DNoSuch.
Definition item_ok (b : binding) : Prop := oid_ok b.1 /\ request_datum b.2.

Definition pdu_of (b : binding) : SnmpPDU :=
  match b.2 with
  | DNull => mkPDU (oid_text b.1) tagNull 0
  | DInt v => mkPDU (oid_text b.1) tagInteger v
  | DNoSuch => mkPDU (oid_text b.1) tagNoSuchInstance 0
  end.

Lemma ber_cons tag body bs : ber tag body bs ->
  exists rest, bs = tag :: rest /\ (length body + 1 <= length rest)%nat.
Proof.
  intros (l & Hl & ->). exists (l ++ body). split; [done|]. apply ber_length_pos in Hl. rewrite length_app. lia.
Qed.

Lemma ber_body_small tag body bs rest : ber tag body bs -> small (bs ++ rest) -> small (body ++ rest).
Proof. intros (r & -> & Hr)%ber_cons. unfold small. rewrite !length_app. cbn. lia. Qed.

Lemma small_r a b : small (a ++ b) -> small b.
Proof. unfold small. rewrite length_app. lia. Qed.
Lemma small_l a b : small (a ++ b) -> small a.
Proof. unfold small. rewrite length_app. lia. Qed.

Lemma decode_entry_view b bs rest tail : item_ok b -> ber_binding b bs -> small (bs ++ rest) ->
  decode_entry (view (bs ++ rest) tail) = Ok (Some (pdu_of b, view rest tail)).
Proof.
  intros [Ho Hd] (o & v & Hbo & Hbv & Hber) Hs.
  destruct (ber_reads _ _ _ rest tail Hber) as (ln & h & R). pose proof R as [Hln Hsz Hh Hi Hl Hc Hm].
  assert (Hs' : small (o ++ v)) by (eapply small_l, ber_body_small; done).
  unfold small in Hs. rewrite length_app in Hs.
  unfold decode_entry. rewrite Hi. cbn [mbind result_bind]. rewrite Z.eqb_refl. cbn [negb].
  rewrite (read_length _ _ _ Hl), !wrap_small by lia.
  rewrite (reads_rest _ _ _ _ _ _ _ R), Hsz, Hc. cbn [mbind result_bind].
  rewrite (decodeOID_view (b.1)) by done. cbn [mbind result_bind]. rewrite from_view.
  cbn [mbind result_bind]. unfold pdu_of. destruct (b.2) as [|n|]; cbn [ber_datum] in Hbv; [| |done].
  - destruct (ber_cons _ _ _ Hbv) as (r & -> & Hr). rewrite view_len.
    destruct (Z.ltb_spec (Z.of_nat (length (tagNull :: r))) 1); [cbn in *; lia|]. by rewrite index_view.
  - assert (Hbv' := Hbv). destruct Hbv as (x & body & _ & _ & _ & _ & Hb).
    destruct (ber_cons _ _ _ Hb) as (r & -> & Hr). rewrite view_len.
    destruct (Z.ltb_spec (Z.of_nat (length (tagInteger :: r))) 1); [cbn in *; lia|].
    rewrite index_view. cbn [mbind result_bind]. change (tagInteger =? tagNull) with false. cbv iota.
    cbn [existsb]. change (tagInteger =? tagInteger) with true. cbn [orb].
    rewrite <- (app_nil_r (tagInteger :: r)), (decodeInteger_view n); [done..|].
    rewrite app_nil_r. by apply small_r in Hs'.
Qed.

Lemma decode_entries_view items parts : Forall2 ber_binding items parts -> Forall item_ok items ->
  forall tail fuel, small (concat parts) -> (length (concat parts) < fuel)%nat ->
  decode_entries fuel (view (concat parts) tail) = Ok (Some (map pdu_of items)).
Proof.
  induction 1 as [|b bs items parts Hb _ IH]; intros Hi tail fuel Hs Hf; destruct fuel as [|f]; try (cbn in Hf; lia);
    cbn [decode_entries concat map].
  - done.
  - apply Forall_cons in Hi as [Hi Hr]. cbn [concat] in Hs, Hf. rewrite length_app in Hf.
    assert (Hp : (2 <= length bs)%nat).
    { destruct Hb as (o & v & _ & _ & Hb). destruct (ber_cons _ _ _ Hb) as (r & -> & Hr'). cbn. lia. }
    rewrite view_len, length_app. destruct (Z.leb_spec (Z.of_nat (length bs + length (concat parts))) 0); [lia|].
    rewrite (decode_entry_view b) by done. cbn [mbind result_bind].
    rewrite IH; [done|done|by apply small_r in Hs|lia].
Qed.

Lemma decodeVarbindList_view items bs tail : ber_bindings items bs -> Forall item_ok items -> small bs ->
  decodeVarbindList (view bs tail) = Ok (Some (map pdu_of items)).
Proof.
  intros (parts & Hp & Hber) Hi Hs.
  destruct (ber_reads _ _ _ [] tail Hber) as (ln & h & [Hln Hsz Hh Hx Hl Hc _]). rewrite !app_nil_r in *.
  assert (Hs' : small (concat parts)).
  { rewrite <- (app_nil_r bs) in Hs. apply (ber_body_small _ _ _ _ Hber) in Hs. by rewrite app_nil_r in Hs. }
  unfold decodeVarbindList. rewrite view_len. destruct (Z.ltb_spec (Z.of_nat (length bs)) 2); [lia|].
  rewrite Hx. cbn [mbind result_bind]. rewrite Z.eqb_refl. cbn [negb]. rewrite (read_length _ _ _ Hl).
  unfold small in Hs. rewrite Hsz, wrap_small, Hc by lia. cbn [mbind result_bind app].
  apply decode_entries_view; [done..|]. rewrite view_len. lia.
Qed.

(** *** The header, and the message *)

Definition header_of (m : message) : pdu_header := mkHeader (ms_rid m) (ms_es m) (Z.land (ms_ei m) 255).

Lemma parsePDU_view m r e i l tail :
  ber_nat (ms_rid m) r -> ber_nat (ms_es m) e -> ber_nat (ms_ei m) i -> ber_bindings (ms_items m) l ->
  Forall item_ok (ms_items m) -> small (r ++ e ++ i ++ l) ->
  parsePDUHeaderAndVarbinds (view (r ++ e ++ i ++ l) tail) = Ok (Some (header_of m, map pdu_of (ms_items m))).
Proof.
  intros Hr He Hi Hl Hok Hs. unfold parsePDUHeaderAndVarbinds.
  rewrite (decodeInteger_view _ _ _ _ Hr Hs). cbn [mbind result_bind]. rewrite from_view. cbn [mbind result_bind].
  apply small_r in Hs. rewrite (decodeInteger_view _ _ _ _ He Hs). cbn [mbind result_bind]. rewrite from_view.
  cbn [mbind result_bind]. apply small_r in Hs. rewrite (decodeInteger_view _ _ _ _ Hi Hs). cbn [mbind result_bind].
  rewrite from_view. cbn [mbind result_bind]. apply small_r in Hs.
  by rewrite (decodeVarbindList_view _ _ _ Hl Hok Hs).
Qed.

Definition request_ok (m : message) : Prop :=
  (ms_type m = pduGetRequest \/ ms_type m = pduSetRequest) /\ Forall item_ok (ms_items m).

(** What the agent does with a request that parses. *)
Definition answer (s : Sim) (m : message) : Sim * bytes :=
  if bytes_eqb (ms_community m) (sm_community s) then
    let '(s', out) := handle_all s (ms_type m) (map pdu_of (ms_items m)) in
    (s', buildResponse s' pduGetResponse (header_of m) out)
  else (s, buildResponse s pduGetResponse (mkHeader (ms_rid m) snmpErrAuthorizationError 0) (map pdu_of (ms_items m))).

Lemma handle_pdu_view s m bs tail : ber_pdu m bs -> request_ok m -> small bs ->
  handle_pdu s (ms_community m) (view bs tail) = Ok ((answer s m).1, Some (answer s m).2).
Proof.
  intros (r & e & i & l & Hr & He & Hi & Hl & Hber) [Ht Hok] Hs.
  destruct (ber_reads _ _ _ [] tail Hber) as (ln & h & [Hln Hsz Hh Hx Hlen Hc _]). rewrite !app_nil_r in *.
  assert (Hs' : small (r ++ e ++ i ++ l)).
  { rewrite <- (app_nil_r bs) in Hs. apply (ber_body_small _ _ _ _ Hber) in Hs. by rewrite app_nil_r in Hs. }
  unfold handle_pdu. rewrite view_len. destruct (Z.ltb_spec (Z.of_nat (length bs)) 2); [lia|].
  rewrite Hx. cbn [mbind result_bind]. rewrite (read_length _ _ _ Hlen). unfold small in Hs.
  rewrite Hsz, wrap_small, Hc by lia. rewrite Z.ltb_irrefl. cbn [mbind result_bind app].
  replace (negb (ms_type m =? pduGetRequest) && negb (ms_type m =? pduSetRequest)) with false
    by (by destruct Ht as [-> | ->]).
  rewrite (parsePDU_view m) by done. cbn [mbind result_bind]. unfold answer.
  destruct (bytes_eqb _ _); cbn [negb]; [|done]. by destruct (handle_all _ _ _).
Qed.

Lemma handle_community_view s m c p tail : ber tagOctetString (ms_community m) c -> ber_pdu m p -> request_ok m ->
  small (c ++ p) ->
  handle_community s (view (c ++ p) tail) = Ok ((answer s m).1, Some (answer s m).2).
Proof.
  intros Hc Hp Hok Hs. destruct (ber_reads _ _ _ p tail Hc) as (ln & h & K).
  pose proof K as [Hln Hsz Hh Hx Hlen Hcut _]. assert (Hsp : small p) by (by eapply small_r).
  unfold small in Hs. rewrite length_app in Hs. unfold handle_community. rewrite view_len, length_app.
  destruct (Z.ltb_spec (Z.of_nat (length c + length p)) 2); [lia|].
  rewrite Hx. cbn [mbind result_bind]. rewrite Z.eqb_refl. cbn [negb]. rewrite (read_length _ _ _ Hlen).
  rewrite !wrap_small by lia. rewrite (reads_rest _ _ _ _ _ _ _ K), Hsz, Hcut. cbn [mbind result_bind].
  destruct (Z.ltb_spec (Z.of_nat (length c + length p)) (h + ln)); [lia|].
  rewrite content_view. by apply handle_pdu_view.
Qed.

Lemma handle_version_view s version body tail :
  handle_version s (view ([tagInteger; 1; version] ++ body) tail) = handle_community s (view body tail).
Proof.
  unfold handle_version. rewrite view_len, length_app. cbn [length].
  destruct (Z.ltb_spec (Z.of_nat (3 + length body)) 3); [lia|].
  cbn [app]. rewrite index_view. cbn [mbind result_bind]. rewrite Z.eqb_refl. cbn [negb]. rewrite from_view_1.
  cbn [mbind result_bind]. change (1 :: version :: body) with ([1] ++ (version :: body)).
  rewrite (parseLength_view 1) by (apply ber_short; lia). cbn [mbind result_bind length].
  destruct (Z.ltb_spec (Z.of_nat 1) 1); [lia|].
  destruct (Z.ltb_spec (Z.of_nat (3 + length body)) (2 + Z.of_nat 1)); [lia|]. cbn [orb].
  change (2 + Z.of_nat 1) with (Z.of_nat (length [tagInteger; 1; version])).
  pose proof (from_view [tagInteger; 1; version] body tail) as E. cbn [app] in E |- *. by rewrite E.
Qed.

Lemma handleRequest_view s m bs tail : ber_message m bs -> request_ok m -> small bs ->
  handleRequest s (view bs tail) = Ok ((answer s m).1, Some (answer s m).2).
Proof.
  intros (version & c & p & Hc & Hp & Hber) Hok Hs.
  destruct (ber_reads _ _ _ [] tail Hber) as (ln & h & [Hln Hsz Hh Hx Hlen Hcut _]). rewrite !app_nil_r in *.
  assert (Hs' : small ([tagInteger; 1; version] ++ c ++ p)).
  { rewrite <- (app_nil_r bs) in Hs. apply (ber_body_small _ _ _ _ Hber) in Hs. by rewrite app_nil_r in Hs. }
  unfold handleRequest. rewrite view_len. destruct (Z.ltb_spec (Z.of_nat (length bs)) 2); [lia|].
  rewrite Hx. cbn [mbind result_bind]. rewrite Z.eqb_refl. cbn [negb]. rewrite (read_length _ _ _ Hlen).
  unfold small in Hs. rewrite Hsz, wrap_small, Hcut by lia. cbn [mbind result_bind].
  rewrite view_len, Hln, Z.ltb_irrefl, handle_version_view. apply handle_community_view; [done..|].
  by apply small_r in Hs'.
Qed.

(** *** What the encoders write *)

Lemma land_255 v : Z.land v 255 = v mod 256.
Proof. change 255 with (Z.ones 8). by rewrite Z.land_ones. Qed.
Lemma land_127 v : Z.land v 127 = v mod 128.
Proof. change 127 with (Z.ones 7). by rewrite Z.land_ones. Qed.

Lemma fold_base_app k ds es v :
  fold_left (fun v d => v * k + d) (ds ++ es) v =
  fold_left (fun v d => v * k + d) es (fold_left (fun v d => v * k + d) ds v).
Proof. apply fold_left_app. Qed.

Lemma be_bytes_spec fuel : forall v, 0 <= v < 256 ^ Z.of_nat fuel ->
  exists ds, (forall body, be_bytes fuel v body = ds ++ body) /\ Forall is_byte ds /\ be_value ds = v /\
    (length ds <= fuel)%nat /\ (0 < v -> exists x r, ds = x :: r /\ 0 < x).
Proof.
  induction fuel as [|f IH]; intros v Hv.
  - exists []. cbn in *. repeat split; [done|lia|done|lia].
  - cbn [be_bytes]. destruct (Z.leb_spec v 0) as [Hz|Hz].
    + exists []. repeat split; [done|cbn; lia|cbn; lia|lia].
    + rewrite Nat2Z.inj_succ, Z.pow_succ_r in Hv by lia.
      rewrite Z.shiftr_div_pow2 by done. change (2 ^ 8) with 256.
      destruct (IH (v / 256)) as (ds & Hds & Hb & Hval & Hlen & Hpos).
      { split; [apply Z.div_pos; lia|]. apply Z.div_lt_upper_bound; lia. }
      pose proof (Z.mod_pos_bound v 256). pose proof (Z.div_mod v 256).
      exists (ds ++ [v mod 256]). repeat split.
      * intros body. rewrite Hds, land_255, <- app_assoc. done.
      * apply Forall_app. split; [done|]. apply Forall_singleton. unfold is_byte. lia.
      * unfold be_value in *. rewrite fold_base_app, Hval. cbn. lia.
      * rewrite length_app. cbn. lia.
      * intros _. destruct (Z.lt_ge_cases 0 (v / 256)) as [Hp|Hp].
        { destruct (Hpos Hp) as (x & r & -> & Hx). exists x, (r ++ [v mod 256]). done. }
        assert (v / 256 = 0) as E by (pose proof (Z.div_pos v 256); lia).
        destruct ds as [|x r]; [exists (v mod 256), []; split; [done|]; lia|].
        exfalso. rewrite E in Hds. specialize (Hds []). rewrite app_nil_r in Hds. by destruct f.
Qed.

Lemma encodeLength_ber n : 0 <= n <= max_int64 -> ber_length n (encodeLength n) /\ (length (encodeLength n) <= 9)%nat.
Proof.
  intros Hn. unfold encodeLength. destruct (Z.ltb_spec n 128); [split; [apply ber_short; lia|cbn; lia]|].
  destruct (be_bytes_spec 8 n) as (ds & Hds & Hb & Hval & Hlen & Hpos); [unfold max_int64 in Hn; cbn; lia|].
  rewrite Hds, app_nil_r. destruct Hpos as (x & r & E & _); [lia|].
  assert (Z.lor 128 (Z.of_nat (length ds)) = 128 + Z.of_nat (length ds)) as ->.
  { change 128 with (Z.shiftl 1 7) at 1. rewrite lor_low; [done|done|]. cbn. lia. }
  split; [|cbn; lia]. rewrite <- Hval. apply ber_long; [by rewrite E|lia|done|]. lia.
Qed.

(** The numbers that [encodeInteger] writes with the sign bit clear. *)
Definition plain (v : Z) : Prop :=
  0 <= v < 2 ^ 7 \/ 2 ^ 8 <= v < 2 ^ 15 \/ 2 ^ 16 <= v < 2 ^ 23 \/ 2 ^ 24 <= v < 2 ^ 32.

Lemma be_value_cons x r : be_value (x :: r) = fold_left (fun v b => v * 256 + b) r x.
Proof. done. Qed.

Lemma plain_head x r : Forall is_byte (x :: r) -> 0 < x -> plain (be_value (x :: r)) -> be_value (x :: r) < 2 ^ 31 ->
  (length r <= 3)%nat -> x < 128.
Proof.
  unfold is_byte, plain. intros Hb Hx Hp Hm Hl.
  destruct r as [|b [|c [|d [|e r]]]]; cbn in Hl; try lia; repeat (apply Forall_cons in Hb as [? Hb]);
    unfold be_value in *; cbn [fold_left] in *; lia.
Qed.

Lemma pad5_spec v : 0 <= v < 2 ^ 32 -> Forall is_byte (pad5 v) /\ be_value (pad5 v) = v.
Proof.
  intros Hv. unfold pad5. split.
  - rewrite !land_255. assert (B : forall z, is_byte (z mod 256)) by (intros z; by apply Z.mod_pos_bound).
    apply Forall_cons. split; [by unfold is_byte|]. by repeat (apply Forall_cons; split; [apply B|]).
  - unfold be_value. cbn [fold_left]. rewrite !Z.shiftr_div_pow2, !land_255 by done.
    change (2 ^ 24) with (256 * 256 * 256). change (2 ^ 16) with (256 * 256). change (2 ^ 8) with 256.
    rewrite <- !Z.div_div by lia. pose proof (Z.div_mod v 256). pose proof (Z.div_mod (v / 256) 256).
    pose proof (Z.div_mod (v / 256 / 256) 256).
    rewrite (Z.mod_small (v / 256 / 256 / 256)); [lia|]. rewrite !Z.div_div by lia.
    split; [apply Z.div_pos; lia|]. apply Z.div_lt_upper_bound; lia.
Qed.

Lemma encodeInteger_ber v : plain v -> ber_nat v (encodeInteger v) /\ (length (encodeInteger v) <= 7)%nat.
Proof.
  intros Hp. assert (Hv : 0 <= v < 2 ^ 32) by (unfold plain in Hp; lia). unfold encodeInteger.
  destruct (Z.eqb_spec v 0) as [->|Hz].
  { split; [|cbn; lia]. exists 0, []. split; [by apply Forall_singleton|].
    split; [done|]. split; [done|]. split; [done|]. exists [1]. split; [by apply ber_short|done]. }
  assert (Hshape : exists x body, Forall is_byte (x :: body) /\ x < 128 /\ be_value (x :: body) = v /\
    (length (x :: body) <= 5)%nat /\ (if Z.shiftr v 31 =? 1 then pad5 v else be_bytes 4 v []) = x :: body).
  { rewrite Z.shiftr_div_pow2 by done. destruct (Z.eqb_spec (v / 2 ^ 31) 1) as [E|E].
    - destruct (pad5_spec v Hv) as [Hb Hval]. unfold pad5 in *. eexists 0, _.
      split; [exact Hb|]. split; [done|]. split; [exact Hval|]. split; [cbn; lia|done].
    - assert (v < 2 ^ 31).
      { destruct (Z.lt_ge_cases v (2 ^ 31)); [done|]. exfalso. apply E. symmetry.
        apply (Z.div_unique _ _ _ (v - 2 ^ 31)); lia. }
      destruct (be_bytes_spec 4 v) as (ds & Hds & Hb & Hval & Hlen & Hpos); [cbn; lia|].
      destruct Hpos as (x & r & -> & Hx); [lia|]. rewrite Hds, app_nil_r. exists x, r.
      split; [done|]. split; [|split; [done|split; [lia|done]]]. eapply (plain_head x r); rewrite ?Hval; try done. cbn in Hlen. lia. }
  destruct Hshape as (x & body & Hb & Hx & Hval & Hlen & ->). split; [|cbn in *; lia].
  exists x, body. split; [done|]. split; [done|]. split; [done|]. split; [lia|]. exists [Z.of_nat (length (x :: body))].
  split; [apply ber_short; lia|done].
Qed.

(** The other half: a number that is not plain goes out as another one. *)
Example encodeInteger_negative : encodeInteger 128 = [2; 1; 128] /\ encodeInteger 40000 = [2; 2; 156; 64].
Proof. done. Qed.

Lemma base128_spec fuel : forall v, 0 <= v < 128 ^ Z.of_nat fuel ->
  exists ds, (forall body, base128 fuel v body = ds ++ body) /\ Forall (fun x => 0 <= x < 128) ds /\
    seven_value ds = v /\ (0 < v -> ds <> []).
Proof.
  induction fuel as [|f IH]; intros v Hv.
  - exists []. cbn in *. repeat split; [done|lia|lia].
  - cbn [base128]. destruct (Z.leb_spec v 0) as [Hz|Hz].
    + exists []. repeat split; [done|cbn; lia|lia].
    + rewrite Nat2Z.inj_succ, Z.pow_succ_r in Hv by lia.
      rewrite Z.shiftr_div_pow2 by done. change (2 ^ 7) with 128.
      destruct (IH (v / 128)) as (ds & Hds & Hb & Hval & _).
      { split; [apply Z.div_pos; lia|]. apply Z.div_lt_upper_bound; lia. }
      pose proof (Z.mod_pos_bound v 128). pose proof (Z.div_mod v 128).
      exists (ds ++ [v mod 128]). repeat split.
      * intros body. by rewrite Hds, land_127, <- app_assoc.
      * apply Forall_app. split; [done|]. apply Forall_singleton. lia.
      * unfold seven_value in *. rewrite fold_base_app, Hval. cbn. lia.
      * intros _ E. by apply app_nil in E as [_ E].
Qed.

Lemma lor_mark x : 0 <= x < 128 -> Z.lor x 128 = 128 + x.
Proof. intros H. rewrite Z.lor_comm. change 128 with (Z.shiftl 1 7) at 1. rewrite lor_low by (cbn; lia). cbn. lia. Qed.

Lemma mark_snoc ds d : Forall (fun x => 0 <= x < 128) ds ->
  mark_all_but_last (ds ++ [d]) = map (fun x => 128 + x) ds ++ [d].
Proof.
  induction 1 as [|x ds Hx Hd IH]; [done|]. cbn [app map mark_all_but_last]. rewrite <- IH, <- lor_mark by done.
  by destruct ds.
Qed.

Lemma encodeBase128_subid v : 0 <= v < 2 ^ 32 -> subid v (encodeBase128 v).
Proof.
  intros Hv. unfold encodeBase128. destruct (Z.eqb_spec v 0) as [->|Hz].
  { exists [], 0. split; [done|]. split; [by apply Forall_singleton|done]. }
  destruct (base128_spec 5 v) as (ds & Hds & Hb & Hval & Hne); [cbn; lia|].
  destruct (exists_last (Hne ltac:(lia))) as (init & d & E). exists init, d. rewrite Hds, app_nil_r, E in *.
  split; [|done]. apply mark_snoc. by apply Forall_app in Hb as [Hb _].
Qed.

(** *** The text of an identifier *)

Lemma itoa_not_empty v : itoa v <> EmptyString.
Proof. destruct v as [|p|p]; [done|apply pretty_N_nonempty|done]. Qed.

Lemma ParseUint_itoa v bits : 0 <= v < 2 ^ bits -> ParseUint (itoa v) bits = Some v.
Proof.
  intros Hv. unfold ParseUint. rewrite (proj2 (str_eqb_neq _ _) (itoa_not_empty v)). unfold itoa.
  assert (all_bytes is_digit (pretty v) = true /\ Z.of_N (dec_value 0 (pretty v)) = v) as [-> ->].
  { destruct v as [|p|p]; [done| |lia]. change (pretty (Z.pos p)) with (pretty (N.pos p)).
    destruct (pretty_N_digits (N.pos p)) as [-> ->]. done. }
  cbn [orb negb]. by destruct (Z.ltb_spec v (2 ^ bits)); [|lia].
Qed.

Lemma itoa_no_dot v : 0 <= v -> no_byte "." (itoa v) = true.
Proof.
  intros Hv. destruct v as [|p|p]; [done| |lia]. unfold itoa. change (pretty (Z.pos p)) with (pretty (N.pos p)).
  destruct (pretty_N_digits (N.pos p)) as [H _]. revert H. unfold no_byte. generalize (pretty (N.pos p)).
  intros s. induction s as [|c s IH]; cbn; [done|]. intros H. bool_simpl.
  - by byte_cases c.
  - by apply IH.
Qed.

Definition oid_parts (o : oid) : list Z := o_first o :: o_second o :: o_arcs o.

Lemma oid_split o : oid_ok o -> split "." (oid_text o) = map itoa (oid_parts o).
Proof.
  intros (Ha & Hb & Harcs). unfold oid_text, oid_parts. cbn [map]. apply split_join; [done|].
  repeat (apply Forall_cons; split; [apply itoa_no_dot; lia|]). apply Forall_map.
  eapply Forall_impl; [exact Harcs|]. cbn. intros x Hx. apply itoa_no_dot. lia.
Qed.

Lemma canonical_oid o : oid_ok o -> canonicalOID (oid_text o) = oid_text o.
Proof.
  intros Ho. unfold canonicalOID, trim_prefix. replace (has_prefix (oid_text o) ".") with false; [done|].
  destruct Ho as (Ha & _). unfold oid_text.
  assert (o_first o = 0 \/ o_first o = 1 \/ o_first o = 2) as [-> | [-> | ->]] by lia; reflexivity.
Qed.

Lemma oid_text_inj o o' : oid_ok o -> oid_ok o' -> oid_text o = oid_text o' -> o = o'.
Proof.
  intros Ho Ho' E. assert (Em : map itoa (oid_parts o) = map itoa (oid_parts o')) by (by rewrite <- !oid_split, E).
  apply (inj (map itoa)) in Em. destruct o, o'. unfold oid_parts in Em. cbn in Em. congruence.
Qed.

Lemma encode_arcs_ok arcs : Forall (fun a => 0 <= a < 2 ^ 32) arcs ->
  encode_arcs (map itoa arcs) = Some (concat (map encodeBase128 arcs)).
Proof.
  induction 1 as [|a arcs Ha _ IH]; [done|]. cbn [map encode_arcs concat]. rewrite ParseUint_itoa by done.
  cbn. by rewrite IH.
Qed.

(** An identifier whose body takes the short form of a length. *)
Definition oid_short (o : oid) : Prop := (length (concat (map encodeBase128 (o_arcs o))) < 127)%nat.

Lemma encodeOID_ber o : oid_ok o -> oid_short o ->
  exists bs, encodeObjectIdentifier (oid_text o) = Some bs /\ ber_oid o bs /\ (length bs <= 129)%nat.
Proof.
  intros Ho Hs. assert (Ho' := Ho). destruct Ho' as (Ha & Hb & Harcs). unfold encodeObjectIdentifier.
  rewrite canonical_oid, oid_split by done. unfold oid_parts. cbn [map].
  rewrite ParseUint_itoa by (cbn; lia). cbn [mbind option_bind].
  rewrite ParseUint_itoa by (cbn; lia). cbn [mbind option_bind].
  rewrite (proj2 (Z.ltb_ge 2 _)), (proj2 (Z.ltb_ge 39 _)), andb_false_r, encode_arcs_ok by (done || lia).
  cbn [mbind option_bind].
  rewrite !land_255. unfold oid_short in Hs.
  rewrite (Z.mod_small (o_first o * 40 + o_second o)), Z.mod_small by (cbn [length]; lia).
  eexists. split; [done|]. split; [|cbn [length]; lia].
  exists (map encodeBase128 (o_arcs o)). split.
  - clear Hs. induction Harcs as [|a arcs Ha' _ IH]; constructor; [by apply encodeBase128_subid|done].
  - rewrite (Z.mul_comm 40). exists [Z.of_nat (length (o_first o * 40 + o_second o :: concat (map encodeBase128 (o_arcs o))))].
    split; [apply ber_short; cbn [length]; lia|done].
Qed.

(** ** The table of integers: what the agent promises *)

#[export] Instance oid_eq_dec : EqDecision oid.
Proof. solve_decision. Defined.
#[export] Instance oid_countable : Countable oid.
Proof.
  apply (inj_countable' (fun o => (o_first o, o_second o, o_arcs o)) (fun p => mkOid p.1.1 p.1.2 p.2)). by intros [].
Defined.

Record table : Type := mkTable { tb_values : gmap oid Z; tb_masked : gset oid; tb_requests : Z }.

Inductive command : Type := CSet (o : oid) (v : Z) | CMask (o : oid) | CUnmask (o : oid) | CAsk (m : message).

Definition table_get (t : table) (o : oid) : datum :=
  if decide (o ∈ tb_masked t) then DNoSuch
  else match tb_values t !! o with Some v => DInt v | None => DNoSuch end.
Definition table_put (t : table) (o : oid) (v : Z) : table :=
  mkTable (<[o := v]> (tb_values t)) (tb_masked t) (tb_requests t).
Definition table_set (t : table) (b : binding) : table * datum :=
  if decide (b.1 ∈ tb_masked t) then (t, DNoSuch)
  else match b.2 with DInt v => (table_put t b.1 v, DInt v) | _ => (t, DNoSuch) end.

(** The bindings of one request, in their order. *)
Fixpoint table_all (set : bool) (t : table) (items : list binding) : table * list binding :=
  match items with
  | [] => (t, [])
  | b :: items =>
      let '(t, d) := if set then table_set t b else (t, table_get t b.1) in
      let '(t, out) := table_all set t items in (t, (b.1, d) :: out)
  end.

(** A request of another community is told so, and changes nothing. *)
Definition table_ask (community : bytes) (t : table) (m : message) : table * message :=
  if decide (ms_community m = community) then
    let '(t, out) := table_all (ms_type m =? pduSetRequest) t (ms_items m) in
    (t, mkMessage community pduGetResponse (ms_rid m) (ms_es m) (ms_ei m) out)
  else (t, mkMessage community pduGetResponse (ms_rid m) snmpErrAuthorizationError 0 (ms_items m)).

Definition table_step (community : bytes) (t : table) (c : command) : table * option message :=
  match c with
  | CSet o v => (table_put t o v, None)
  | CMask o => (mkTable (tb_values t) ({[o]} ∪ tb_masked t) (tb_requests t), None)
  | CUnmask o => (mkTable (tb_values t) (tb_masked t ∖ {[o]}) (tb_requests t), None)
  | CAsk m =>
      let '(t, r) := table_ask community (mkTable (tb_values t) (tb_masked t) (tb_requests t + 1)) m in (t, Some r)
  end.

Fixpoint table_run (community : bytes) (t : table) (cs : list command) : table * list (option message) :=
  match cs with
  | [] => (t, [])
  | c :: cs =>
      let '(t, out) := table_step community t c in
      let '(t, outs) := table_run community t cs in (t, out :: outs)
  end.

(** *** What a command is sent as *)

Definition datum_plain (d : datum) : Prop := match d with DInt v => plain v | _ => True end.
Definition binding_plain (b : binding) : Prop := oid_ok b.1 /\ oid_short b.1 /\ datum_plain b.2.
Definition message_plain (m : message) : Prop :=
  plain (ms_rid m) /\ plain (ms_es m) /\ 0 <= ms_ei m < 128 /\ Forall binding_plain (ms_items m).

(** An identifier is named with or without a dot in front. *)
Definition names_oid (o : oid) (name : string) : Prop :=
  oid_ok o /\ (name = oid_text o \/ name = String "." (oid_text o)).

Definition sent_as (c : command) (i : input) : Prop :=
  match c, i with
  | CSet o v, InSet n w => names_oid o n /\ plain v /\ w = v
  | CMask o, InMask n | CUnmask o, InUnmask n => names_oid o n
  | CAsk m, InDatagram d =>
      ber_message m d /\ request_ok m /\ message_plain m /\ (length d <= buffer_size)%nat
  | _, _ => False
  end.
Definition answered_as (m : option message) (out : option bytes) : Prop :=
  match m, out with
  | Some m, Some bs => ber_message m bs
  | None, None => True
  | _, _ => False
  end.

(** The agent that holds a table. *)
Record represents (community : bytes) (s : Sim) (t : table) : Prop := mkRepresents {
  rp_community : sm_community s = community;
  rp_values : forall o, oid_ok o -> sm_values s !! oid_text o = tb_values t !! o;
  rp_masked : forall o, oid_ok o -> oid_text o ∈ sm_masked s <-> o ∈ tb_masked t;
  rp_requests : sm_requests s = tb_requests t mod 2 ^ 64;
  rp_plain : forall o v, tb_values t !! o = Some v -> plain v
}.

(** *** Responses are BER *)

Lemma ber_short_form tag body : (length body < 128)%nat -> ber tag body (tag :: Z.of_nat (length body) :: body).
Proof. intros H. exists [Z.of_nat (length body)]. split; [apply ber_short; lia|done]. Qed.

Lemma ber_encode tag body : Z.of_nat (length body) <= max_int64 ->
  ber tag body (tag :: encodeLength (Z.of_nat (length body)) ++ body) /\
  (length (tag :: encodeLength (Z.of_nat (length body)) ++ body) <= 10 + length body)%nat.
Proof.
  intros H. destruct (encodeLength_ber (Z.of_nat (length body))) as [Hl Hs]; [lia|].
  split; [by eexists|]. cbn [length]. rewrite length_app. lia.
Qed.

Lemma plain_range v : plain v -> 0 <= v < 2 ^ 32.
Proof. unfold plain. lia. Qed.

Lemma encodeValue_ber b : datum_plain b.2 ->
  ber_datum b.2 (encodeValue (pdu_of b)) /\ (length (encodeValue (pdu_of b)) <= 7)%nat.
Proof.
  unfold pdu_of. destruct (b.2) as [|v|]; cbn [datum_plain ber_datum]; intros Hd.
  - split; [by apply (ber_short_form tagNull []); cbn; lia|cbn; lia].
  - unfold encodeValue. cbn [pd_Type pd_Value]. change (tagInteger =? tagInteger) with true. cbv iota.
    unfold u32. rewrite Z.mod_small by (by apply plain_range). by apply encodeInteger_ber.
  - split; [by apply (ber_short_form tagNoSuchInstance []); cbn; lia|cbn; lia].
Qed.

Lemma encodeVarbind_ber b : binding_plain b ->
  ber_binding b (encodeVarbind (pdu_of b)) /\ (length (encodeVarbind (pdu_of b)) <= 146)%nat.
Proof.
  intros (Ho & Hs & Hd). destruct (encodeOID_ber _ Ho Hs) as (ob & Eo & Hob & Hol).
  destruct (encodeValue_ber b Hd) as [Hv Hvl]. unfold encodeVarbind.
  assert (pd_Name (pdu_of b) = oid_text b.1) as -> by (unfold pdu_of; by destruct (b.2)).
  rewrite Eo. change (default [tagObjectIdentifier; 0] (Some ob)) with ob. destruct (ber_encode tagSequence (ob ++ encodeValue (pdu_of b))) as [Hb Hl].
  { rewrite length_app. unfold max_int64. lia. }
  split; [by exists ob, (encodeValue (pdu_of b))|]. etrans; [exact Hl|]. rewrite length_app. lia.
Qed.

Lemma varbinds_ber items : Forall binding_plain items ->
  Forall2 ber_binding items (encodeVarbind <$> (map pdu_of items)) /\
  (length (concat (encodeVarbind <$> map pdu_of items)) <= 146 * length items)%nat.
Proof.
  induction 1 as [|b items Hb _ [IH1 IH2]]; [split; [constructor|cbn; lia]|].
  destruct (encodeVarbind_ber b Hb) as [H1 H2]. split; [by constructor|].
  cbn [map fmap list_fmap concat length] in *. rewrite length_app. cbn in IH2. lia.
Qed.

Lemma buildResponse_ber s m ei : message_plain m -> 0 <= ei < 128 -> ms_ei m = ei ->
  ms_community m = sm_community s ->
  (length (sm_community s) < 128)%nat -> Z.of_nat (length (ms_items m)) < 2 ^ 32 ->
  ber_message m (buildResponse s (ms_type m) (mkHeader (ms_rid m) (ms_es m) ei) (map pdu_of (ms_items m))).
Proof.
  intros (Hr & He & Hi & Hb) Hei Ee Ec Hc Hn.
  destruct (encodeInteger_ber _ Hr) as [Hr1 Hr2]. destruct (encodeInteger_ber _ He) as [He1 He2].
  destruct (encodeInteger_ber ei) as [Hi1 Hi2]; [unfold plain; lia|].
  destruct (varbinds_ber _ Hb) as [Hv1 Hv2]. unfold buildResponse, encodePDUHeader. cbn [ph_rid ph_es ph_ei].
  set (vb := concat (encodeVarbind <$> map pdu_of (ms_items m))) in *.
  destruct (ber_encode tagSequence vb) as [Hl1 Hl2]; [unfold max_int64; lia|].
  set (vbl := tagSequence :: encodeLength (Z.of_nat (length vb)) ++ vb) in *.
  rewrite <- !app_assoc.
  set (body := encodeInteger (ms_rid m) ++ encodeInteger (ms_es m) ++ encodeInteger ei ++ vbl) in *.
  assert (Hbl : (length body <= 21 + length vbl)%nat) by (unfold body; rewrite !length_app; lia).
  destruct (ber_encode (ms_type m) body) as [Hp1 Hp2]; [unfold max_int64; lia|].
  set (pdu := ms_type m :: encodeLength (Z.of_nat (length body)) ++ body) in *.
  set (com := tagOctetString :: Z.land (Z.of_nat (length (sm_community s))) 255 :: sm_community s).
  assert (Hcom : com = tagOctetString :: Z.of_nat (length (sm_community s)) :: sm_community s).
  { unfold com. rewrite land_255, Z.mod_small by lia. done. }
  exists 1, com, pdu. split; [rewrite Ec, Hcom; by apply ber_short_form|]. split.
  - exists (encodeInteger (ms_rid m)), (encodeInteger (ms_es m)), (encodeInteger ei), vbl.
    rewrite Ee. split; [done|]. split; [done|]. split; [done|]. split; [by eexists|done].
  - apply ber_encode. rewrite !length_app, Hcom. cbn [length]. unfold max_int64. lia.
Qed.

(** *** The simulation *)

Lemma canonical_named o name : names_oid o name -> canonicalOID name = oid_text o.
Proof.
  intros [Ho [-> | ->]]; [by apply canonical_oid|]. unfold canonicalOID. apply (trim_prefix_app ".").
Qed.

Section agent.
Context (community : bytes).

Lemma represents_put s t o name v : represents community s t -> names_oid o name -> plain v ->
  represents community (SetOID s name v) (table_put t o v).
Proof.
  intros [Hc Hv Hm Hr Hp] Hn Hpl. pose proof (canonical_named _ _ Hn) as E. destruct Hn as [Ho _].
  split; cbn; [done| |done|done|].
  - intros o' Ho'. rewrite E. destruct (decide (o = o')) as [->|Hne]; [by rewrite !lookup_insert_eq|].
    rewrite !lookup_insert_ne; [by apply Hv|done|]. intros Eq. by apply Hne, oid_text_inj.
  - intros o' w. destruct (decide (o = o')) as [->|Hne]; [rewrite lookup_insert_eq; by intros [= <-]|].
    rewrite lookup_insert_ne by done. apply Hp.
Qed.

Lemma represents_mask s t o name : represents community s t -> names_oid o name ->
  represents community (Mask s name) (mkTable (tb_values t) ({[o]} ∪ tb_masked t) (tb_requests t)) /\
  represents community (Unmask s name) (mkTable (tb_values t) (tb_masked t ∖ {[o]}) (tb_requests t)).
Proof.
  intros [Hc Hv Hm Hr Hp] Hn. pose proof (canonical_named _ _ Hn) as E. destruct Hn as [Ho _].
  assert (Hi : forall o', oid_ok o' -> oid_text o' = oid_text o <-> o' = o).
  { intros o' Ho'. split; [by apply oid_text_inj|by intros ->]. }
  split; split; cbn; try done; intros o' Ho'; specialize (Hm o' Ho'); specialize (Hi o' Ho');
    rewrite E, ?elem_of_union, ?elem_of_difference, !elem_of_singleton, Hm, Hi; done.
Qed.

Lemma binding_plain_of (b : binding) d : binding_plain b -> datum_plain d -> binding_plain (b.1, d).
Proof. intros (Ho & Hs & _) Hd. by split. Qed.

Lemma handleGet_table s t b : represents community s t -> binding_plain b ->
  handleGet s (pdu_of b) = pdu_of (b.1, table_get t b.1) /\ binding_plain (b.1, table_get t b.1).
Proof.
  intros [Hc Hv Hm Hr Hp] Hb. pose proof (proj1 Hb) as Ho. unfold handleGet, table_get.
  assert (pd_Name (pdu_of b) = oid_text b.1) as -> by (unfold pdu_of; by destruct (b.2)).
  rewrite canonical_oid by done. unfold Get. rewrite canonical_oid, Hv by done. specialize (Hm _ Ho).
  destruct (decide (b.1 ∈ tb_masked t)) as [Hin|Hout].
  - rewrite bool_decide_eq_true_2 by by apply Hm. split; [done|by apply binding_plain_of].
  - rewrite bool_decide_eq_false_2 by by rewrite Hm.
    destruct (tb_values t !! b.1) as [v|] eqn:E; (split; [done|]); apply binding_plain_of; try done. by apply (Hp b.1).
Qed.

Lemma handleSet_table s t b : represents community s t -> binding_plain b -> request_datum b.2 ->
  exists s' t' d, handleSet s (pdu_of b) = (s', pdu_of (b.1, d)) /\ table_set t b = (t', d) /\
    represents community s' t' /\ binding_plain (b.1, d).
Proof.
  intros R Hb Hq. pose proof Hb as (Ho & Hs & Hd). pose proof R as [Hc Hv Hm Hr Hp]. unfold handleSet, table_set.
  assert (pd_Name (pdu_of b) = oid_text b.1) as -> by (unfold pdu_of; by destruct (b.2)).
  rewrite canonical_oid by done. specialize (Hm _ Ho).
  pose proof (binding_plain_of b DNoSuch Hb I) as Hno. destruct (decide (b.1 ∈ tb_masked t)) as [Hin|Hout].
  - rewrite bool_decide_eq_true_2 by by apply Hm. by exists s, t, DNoSuch.
  - rewrite bool_decide_eq_false_2 by by rewrite Hm. unfold pdu_of. destruct (b.2) as [|v|]; [| |done]; cbn.
    + by exists s, t, DNoSuch.
    + exists (SetOID s (oid_text b.1) v), (table_put t b.1 v), (DInt v). split; [done|]. split; [done|].
      split; [|by apply binding_plain_of]. apply represents_put; [done|split; [done|by left]|done].
Qed.

Lemma handle_all_table ty items : ty = pduGetRequest \/ ty = pduSetRequest ->
  Forall binding_plain items -> Forall item_ok items -> forall s t, represents community s t ->
  exists s' t' out, handle_all s ty (map pdu_of items) = (s', map pdu_of out) /\
    table_all (ty =? pduSetRequest) t items = (t', out) /\ represents community s' t' /\
    Forall binding_plain out /\ length out = length items.
Proof.
  intros Hty. induction 1 as [|b items Hb _ IH]; intros Hi s t R; [by exists s, t, []|].
  apply Forall_cons in Hi as [[_ Hq] Hi].
  destruct Hty as [-> | ->]; cbn [handle_all table_all map].
  - destruct (handleGet_table s t b R Hb) as [Eg Hpl]. destruct (IH Hi s t R) as (s' & t' & out & E1 & E2 & R' & Hpo & Hl).
    exists s', t', ((b.1, table_get t b.1) :: out). change (pduGetRequest =? pduGetRequest) with true.
    change (pduGetRequest =? pduSetRequest) with false in *. cbv iota. rewrite E1, E2, Eg. cbn [length].
    split; [done|]. split; [done|]. split; [done|]. split; [by apply Forall_cons|lia].
  - destruct (handleSet_table s t b R Hb Hq) as (s1 & t1 & d & Es & Et & R1 & Hpl).
    destruct (IH Hi s1 t1 R1) as (s' & t' & out & E1 & E2 & R' & Hpo & Hl).
    exists s', t', ((b.1, d) :: out). change (pduSetRequest =? pduGetRequest) with false.
    change (pduSetRequest =? pduSetRequest) with true in *. cbv iota. rewrite Es, E1, Et, E2. cbn [length].
    split; [done|]. split; [done|]. split; [done|]. split; [by apply Forall_cons|lia].
Qed.

Context (Hshort : (length community < 128)%nat).

Lemma land_small ei : 0 <= ei < 128 -> Z.land ei 255 = ei.
Proof. intros H. rewrite land_255. apply Z.mod_small. lia. Qed.

Lemma answer_table s t m : represents community s t -> request_ok m -> message_plain m ->
  Z.of_nat (length (ms_items m)) < 2 ^ 32 ->
  represents community (answer s m).1 (table_ask community t m).1 /\
  ber_message (table_ask community t m).2 (answer s m).2.
Proof.
  intros R [Hty Hok] Hpl Hn. pose proof Hpl as (Hr & He & Hei & Hb). pose proof (rp_community _ _ _ R) as Hc.
  unfold answer, table_ask, header_of, bytes_eqb. rewrite Hc, land_small by done.
  destruct (decide (ms_community m = community)) as [E|E].
  - rewrite bool_decide_eq_true_2 by done.
    destruct (handle_all_table _ _ Hty Hb Hok s t R) as (s' & t' & out & -> & -> & R' & Hpo & Hl). cbn [fst snd].
    split; [done|]. pose proof (rp_community _ _ _ R') as Hc'.
    eapply (buildResponse_ber s' (mkMessage community pduGetResponse (ms_rid m) (ms_es m) (ms_ei m) out));
      cbn; rewrite ?Hc', ?Hl; try done.
  - rewrite bool_decide_eq_false_2 by done. cbn [fst snd]. split; [done|].
    eapply (buildResponse_ber s (mkMessage community pduGetResponse (ms_rid m) snmpErrAuthorizationError 0 (ms_items m)));
      cbn; rewrite ?Hc; try done. split; [done|]. split; [|by split]. unfold plain, ms_es, snmpErrAuthorizationError. lia.
Qed.

Lemma concat_length_ge (parts : list bytes) : Forall (fun p => p <> []) parts -> (length parts <= length (concat parts))%nat.
Proof. induction 1 as [|p parts Hp _ IH]; [done|]. destruct p; [done|]. cbn. rewrite length_app. lia. Qed.

Lemma ber_length_body tag body bs : ber tag body bs -> (length body < length bs)%nat.
Proof. intros (l & _ & ->). cbn. rewrite length_app. lia. Qed.

Lemma items_bound m bs : ber_message m bs -> (length (ms_items m) <= length bs)%nat.
Proof.
  intros (v & c & p & _ & (r & e & i & l & _ & _ & _ & (parts & Hp & Hl) & Hpdu) & Hm).
  apply ber_length_body in Hm, Hpdu, Hl. rewrite !length_app in *.
  assert (Hne : Forall (fun q => q <> []) parts).
  { clear -Hp. induction Hp as [|b q items parts (o & w & _ & _ & (k & _ & ->)) _ IH]; by constructor. }
  apply concat_length_ge in Hne. apply Forall2_length in Hp. lia.
Qed.

Lemma read_from_view buf d : (length d <= length buf)%nat ->
  read_from buf d = view d (drop (length d) buf) /\ length (sl_mem (read_from buf d)) = length buf.
Proof.
  intros H. unfold read_from, view. rewrite take_ge by done. split; [done|]. cbn. rewrite length_app, length_drop. lia.
Qed.

(** One input: the agent answers as the table does, whatever its buffer held. *)
Lemma step_table s t buf c i : represents community s t -> length buf = buffer_size -> sent_as c i ->
  exists s' buf' out, step s buf i = Ok (s', buf', out) /\ length buf' = buffer_size /\
    represents community s' (table_step community t c).1 /\ answered_as (table_step community t c).2 out.
Proof.
  intros R Hbuf Hs. destruct c as [o v|o|o|m], i as [n w|n|n|d]; try done; cbn [step table_step fst snd].
  - destruct Hs as (Hn & Hp & ->). exists (SetOID s n v), buf, None. split; [done|]. split; [done|]. split; [by apply represents_put|done].
  - exists (Mask s n), buf, None. split; [done|]. split; [done|]. split; [|done]. by apply (represents_mask s t o n R Hs).
  - exists (Unmask s n), buf, None. split; [done|]. split; [done|]. split; [|done]. by apply (represents_mask s t o n R Hs).
  - destruct Hs as (Hm & Hok & Hpl & Hlen). unfold serve.
    destruct (read_from_view buf d) as [Er Hl]; [by rewrite Hbuf|]. rewrite Er in *.
    rewrite (handleRequest_view _ m).
    2,3: done. 2: { unfold small, buffer_size in *. lia. }
    cbn [mbind result_bind fst snd]. pose proof (items_bound _ _ Hm) as Hn.
    set (s1 := mkSim _ _ _ _). set (t1 := mkTable _ _ (tb_requests t + 1)).
    assert (R1 : represents community s1 t1).
    { destruct R as [Hc Hv Hmk Hr Hp]. split; cbn; try done. rewrite Hr. by rewrite Zplus_mod_idemp_l. }
    destruct (answer_table s1 t1 m R1 Hok Hpl) as [R2 Hb]; [unfold buffer_size in *; lia|].
    destruct (table_ask community t1 m) as [t2 r]. eexists _, _, _. split; [done|]. split; [by rewrite Hl|done].
Qed.

(** Any inputs, in any order. *)
Lemma run_table cs inputs : Forall2 sent_as cs inputs -> forall s t buf,
  represents community s t -> length buf = buffer_size ->
  exists s' outs, run s buf inputs = Ok (s', outs) /\ represents community s' (table_run community t cs).1 /\
    Forall2 answered_as (table_run community t cs).2 outs.
Proof.
  induction 1 as [|c i cs inputs Hs _ IH]; intros s t buf R Hbuf; [by exists s, []|].
  destruct (step_table s t buf c i R Hbuf Hs) as (s1 & buf1 & out & E & Hb1 & R1 & Ha). cbn [run table_run].
  rewrite E. cbn [mbind result_bind]. destruct (table_step community t c) as [t1 mo]. cbn [fst snd] in *.
  destruct (IH s1 t1 buf1 R1 Hb1) as (s' & outs & E' & R' & Hf). rewrite E'. cbn [mbind result_bind fst snd].
  destruct (table_run community t1 cs) as [t' ms]. eexists _, _. split; [done|]. split; [done|by constructor].
Qed.
End agent.

(** ** Requests the table does not cover *)

Definition public : bytes := [112; 117; 98; 108; 105; 99].
Definition sysUpTime : oid := mkOid 1 3 [6; 1; 2; 1; 1; 3; 0].
Definition request (ty : Z) (d : datum) : message := mkMessage public ty 77 0 0 [(sysUpTime, d)].
Definition sent (m : message) : bytes :=
  buildResponse (New public) (ms_type m) (mkHeader (ms_rid m) (ms_es m) (ms_ei m)) (map pdu_of (ms_items m)).

(** A SET of a counter, of a gauge or of ticks is not applied: the reader of the
    value wants the tag of an INTEGER, and the request number is lost. *)
Definition set_gauge : bytes :=
  [48; 39; 2; 1; 1; 4; 6; 112; 117; 98; 108; 105; 99;
   163; 26; 2; 1; 77; 2; 1; 0; 2; 1; 0; 48; 15; 48; 13; 6; 8; 43; 6; 1; 2; 1; 1; 3; 0; 66; 1; 5].
Lemma gauge_refused : handleRequest (New public) (view set_gauge []) = Ok (New public, Some (gen_err (New public))).
Proof. vm_compute. reflexivity. Qed.

(** Two bytes make the agent apply the request before them once more. *)
Definition replayed : list input :=
  [InDatagram (sent (request pduSetRequest (DInt 5))); InSet ".1.3.6.1.2.1.1.3.0" 9;
   InDatagram (take 2 (sent (request pduSetRequest (DInt 5))))].
Lemma two_bytes_replay :
  match run (New public) (repeat 0 100) replayed with
  | Ok r => (Get r.1 "1.3.6.1.2.1.1.3.0", r.2)
  | Err _ => (None, [])
  end = (let ok := Some (sent (request pduGetResponse (DInt 5))) in (Some 5, [ok; None; ok])).
Proof. vm_compute. reflexivity. Qed.

(** A community one byte longer than what is left of the message stops the process. *)
Definition short_community : bytes := [48; 6; 2; 1; 1; 4; 2; 120].
Lemma short_community_panics s : handleRequest s (view short_community (repeat 0 100)) = Err Panic.
Proof. vm_compute. reflexivity. Qed.

(** *** The loop over the entries ends: an entry that is read takes bytes *)

Lemma parseLength_header b n h : parseLength b = Ok (Some (n, h)) -> 1 <= h.
Proof.
  unfold parseLength. destruct (sl_len b <? 1); [done|]. destruct (index b 0) as [first|]; [|done].
  cbn [mbind result_bind]. destruct (first <? 128); [intros [= <- <-]; lia|].
  destruct (_ || _ || _); [done|]. intros [= <- <-]. pose proof (proj2 (Z.land_nonneg first 127)) as H. lia.
Qed.

Lemma cut_len b i j c : cut b i j = Ok c -> i <= j /\ sl_len c = j - i.
Proof. unfold cut. destruct (_ && _ && _) eqn:E; [|done]. intros [= <-]. cbn. lia. Qed.

Lemma decode_entry_shrinks b p b' : decode_entry b = Ok (Some (p, b')) -> 0 <= sl_len b' < sl_len b.
Proof.
  unfold decode_entry. destruct (index b 0) as [tag|]; [|done]. cbn [mbind result_bind]. destruct (negb _); [done|].
  destruct (from b 1) as [b1|]; [|done]. cbn [mbind result_bind].
  destruct (parseLength b1) as [[[n h]|]|] eqn:Ep; [|done..]. cbn [mbind result_bind]. apply parseLength_header in Ep.
  destruct (cut b (1 + h) _) as [inner|] eqn:Ec; [|done]. cbn [mbind result_bind]. apply cut_len in Ec as [Hc _].
  destruct (from b (wrap64 _)) as [rest|] eqn:Ef; [|done]. cbn [mbind result_bind]. apply cut_len in Ef as [Hf Hl].
  destruct (decodeOID inner) as [[[o k]|]|]; [|done..]. cbn [mbind result_bind].
  destruct (from inner k) as [r|]; [|done]. cbn [mbind result_bind].
  assert (Hr : 0 <= sl_len rest < sl_len b) by lia.
  destruct (sl_len r <? 1); [by intros [= <- <-]|]. destruct (index r 0) as [t|]; [|done]. cbn [mbind result_bind].
  destruct (t =? tagNull); [by intros [= <- <-]|]. destruct (existsb _ _); [|by intros [= <- <-]].
  destruct (decodeInteger r) as [[[v w]|]|]; [|done..]. by intros [= <- <-].
Qed.

Lemma decode_entries_fuel f : forall b g, (Z.to_nat (sl_len b) < f)%nat -> (f <= g)%nat ->
  decode_entries g b = decode_entries f b.
Proof.
  induction f as [|f IH]; intros b g Hb Hg; [lia|]. destruct g as [|g]; [lia|]. cbn [decode_entries].
  destruct (Z.leb_spec (sl_len b) 0); [done|]. destruct (decode_entry b) as [[[p b']|]|] eqn:E; try done.
  cbn [mbind result_bind]. apply decode_entry_shrinks in E. rewrite (IH b' g) by lia. done.
Qed.

(** ** The agent against its table *)

Lemma represents_New community : community <> [] ->
  represents community (New community) (mkTable ∅ ∅ 0).
Proof.
  intros H. split; cbn; [by destruct community|done|set_solver|done|]. intros o v. by rewrite lookup_empty.
Qed.


(** A set object, masked, asked for, shown again, written by a request of the
    network and asked for by another community, over a buffer of rubbish. *)
Definition demo_commands : list command :=
  [CSet sysUpTime 300; CAsk (request pduGetRequest DNull); CMask sysUpTime;
   CAsk (request pduSetRequest (DInt 70000)); CUnmask sysUpTime; CAsk (request pduSetRequest (DInt 70000))].
Definition demo_inputs : list input :=
  [InSet ".1.3.6.1.2.1.1.3.0" 300; InDatagram (sent (request pduGetRequest DNull)); InMask "1.3.6.1.2.1.1.3.0";
   InDatagram (sent (request pduSetRequest (DInt 70000))); InUnmask "1.3.6.1.2.1.1.3.0";
   InDatagram (sent (request pduSetRequest (DInt 70000)))].

Lemma sysUpTime_ok : oid_ok sysUpTime /\ oid_short sysUpTime.
Proof. split; [|vm_compute; lia]. split; [cbn; lia|]. split; [cbn; lia|]. by repeat (apply Forall_cons; split; [cbn; lia|]). Qed.

Lemma sent_ask ty d : ty = pduGetRequest \/ ty = pduSetRequest -> request_datum d -> datum_plain d ->
  (length (sent (request ty d)) <= buffer_size)%nat ->
  sent_as (CAsk (request ty d)) (InDatagram (sent (request ty d))).
Proof.
  intros Hty Hq Hd Hl. destruct sysUpTime_ok as [Ho Hs].
  assert (Hp : message_plain (request ty d)).
  { split; [left; cbn; lia|]. split; [left; cbn; lia|]. split; [cbn; lia|]. apply Forall_singleton. by split. }
  split; [refine (buildResponse_ber (New public) (request ty d) 0 Hp _ eq_refl eq_refl _ _); cbn; lia|].
  split; [split; [done|apply Forall_singleton; by split]|]. by split.
Qed.

Lemma demo_sizes :
  (length (sent (request pduGetRequest DNull)) <=? buffer_size)%nat = true /\
  (length (sent (request pduSetRequest (DInt 70000))) <=? buffer_size)%nat = true.
Proof. split; vm_compute; reflexivity. Qed.

Lemma demo_sent : Forall2 sent_as demo_commands demo_inputs.
Proof.
  destruct sysUpTime_ok as [Ho Hs]. destruct demo_sizes as [H1%Nat.leb_le H2%Nat.leb_le].
  assert (Hd : names_oid sysUpTime ".1.3.6.1.2.1.1.3.0") by (split; [exact Ho|by right]).
  assert (Hn : names_oid sysUpTime "1.3.6.1.2.1.1.3.0") by (split; [exact Ho|by left]).
  assert (Hp : plain 300 /\ plain 70000) by (unfold plain; lia).
  assert (A1 := sent_ask _ DNull (or_introl eq_refl) ltac:(done) I H1).
  assert (A2 := sent_ask _ (DInt 70000) (or_intror eq_refl) ltac:(done) (proj2 Hp) H2).
  unfold demo_commands, demo_inputs. constructor; [exact (conj Hd (conj (proj1 Hp) eq_refl))|].
  constructor; [exact A1|]. constructor; [exact Hn|]. constructor; [exact A2|]. constructor; [exact Hn|].
  constructor; [exact A2|constructor].
Qed.

