(* ===== verification/Gateway.v ===== *)
(** * The gateway (gateway/, pkg/modbusbind)

    Configuration, the construction of one pipeline per point, the conversion
    of samples to exposition lines, the bring-up of the devices, one tick of
    collection and the control registry.  The drivers are used through the
    interface [Southbound]; the Modbus and SNMP drivers are its instances. *)
From Stdlib Require Import SpecFloat.
From S2P Require Import Prelude Float64 GoTime CPath Http PromProj Cursor DictLoad PointMap Modbus GoNet Snmp.
Open Scope string_scope.
Open Scope list_scope.

(** ** The driver interface (pkg/driver/driver.go)

    [sd_points]: the points of the binding table and whether they are
    writable.  A result of [sd_Write] carries whether the error is nil. *)
Class Southbound (D W : Type) : Type := {
  sd_points : D -> list (string * bool);
  sd_Collect : D -> W -> D * W * option (list Sample);
  sd_Write : ControlCommand -> D -> W -> D * W * (ControlResult * bool)
}.

(** The contract of the drivers: a round returns one sample per point, in the
    order of the table, with a quality; a write to a point that is not
    writable touches neither the driver nor the world; the table is fixed. *)
Class SouthboundOk (D W : Type) `{Southbound D W} : Prop := {
  sd_collect_table : forall d w d' w' r, sd_Collect d w = (d', w', r) -> sd_points d' = sd_points d;
  sd_collect_all : forall d w d' w' ss, sd_Collect d w = (d', w', Some ss) ->
    s_Point <$> ss = (sd_points d).*1;
  sd_write_table : forall cmd d w d' w' r, sd_Write cmd d w = (d', w', r) -> sd_points d' = sd_points d;
  sd_write_guard : forall cmd d w d' w' r, sd_Write cmd d w = (d', w', r) ->
    (d' = d /\ w' = w /\ r_Accepted r.1 = false) \/ In (c_Point cmd, true) (sd_points d)
}.

(** Two kinds of driver side by side: the dynamic dispatch of the interface
    value. *)
#[export] Instance southbound_sum {A B W} `{Southbound A W} `{Southbound B W} : Southbound (A + B) W := {|
  sd_points d := match d with inl a => sd_points a | inr b => sd_points b end;
  sd_Collect d w :=
    match d with
    | inl a => let '(a, w, r) := sd_Collect a w in (inl a, w, r)
    | inr b => let '(b, w, r) := sd_Collect b w in (inr b, w, r)
    end;
  sd_Write cmd d w :=
    match d with
    | inl a => let '(a, w, r) := sd_Write cmd a w in (inl a, w, r)
    | inr b => let '(b, w, r) := sd_Write cmd b w in (inr b, w, r)
    end
|}.

(** ** Configuration (config.go) *)

Record Device : Type := mkDevice {
  dv_Asset : string;
  dv_PointMap : string;
  dv_Endpoint : string;
  dv_UnitID : string;
  dv_PluginBinary : string;
  dv_Protocol : string;
  dv_Community : string;
  dv_baseDir : string
}.

Record NATSConfig : Type := mkNATS {
  nc_URL : string; nc_StreamName : string; nc_WALPath : string; nc_WALMaxBytes : Z
}.

Record Config : Type := mkConfig {
  cf_Site : string;
  cf_ProtocolDir : string;
  cf_VMWriteURL : string;
  cf_Interval : Duration;
  cf_Devices : list Device;
  cf_NATS : option NATSConfig
}.

Inductive gw_err : Type :=
  | GRead | GParse | GSite | GVMWriteURL | GProtocolDir | GDevices | GNATSURL
  | GDictionary (e : load_err) | GUnits (e : units_err)
  | GAssetEmpty (i : nat) | GAsset (i : nat) (e : cpath_err) | GAssetSite (i : nat)
  | GPointMapEmpty (i : nat) | GEndpointEmpty (i : nat) | GSnmpPlugin (i : nat) | GProtocol (i : nat)
  | GNilMap | GEmptyAsset | GV1 (e : cpath_err) | GQuantity | GConvert | GMetric (e : proj_err)
  | GRegister | GTable | GOID
  | GPointMapInvalid (asset : string) | GPipeline (asset point : string) (e : gw_err)
  | GPlugin (asset : string) | GNoDevices | GNilDriver
  | GControlToken | GControlListen.

Definition default_str (s dflt : string) : string := if str_eqb s EmptyString then dflt else s.

Definition nats_defaults (n : NATSConfig) : NATSConfig :=
  mkNATS (nc_URL n) (default_str (nc_StreamName n) "CIOS_TLM")
    (default_str (nc_WALPath n) "/var/lib/cios/gateway.wal") (nc_WALMaxBytes n).

Definition IsAbs (path : string) : bool := has_prefix path "/".

Section config.
(** [filepath.Join] of a directory and a relative path. *)
Context (Join : string -> string -> string).

Definition resolve (base path : string) : string := if IsAbs path then path else Join base path.

(** The body of the loop over the devices. *)
Definition check_device (d : Dict) (site abs : string) (i : nat) (dev : Device) : result gw_err Device :=
  if str_eqb (dv_Asset dev) EmptyString then Err (GAssetEmpty i)
  else match ParseAssetPath d (dv_Asset dev) with
  | Err e => Err (GAsset i e)
  | Ok ap =>
      if negb (str_eqb (ap_Site ap) site) then Err (GAssetSite i)
      else if str_eqb (dv_PointMap dev) EmptyString then Err (GPointMapEmpty i)
      else if str_eqb (dv_Endpoint dev) EmptyString then Err (GEndpointEmpty i)
      else
        let protocol := default_str (dv_Protocol dev) "modbus" in
        community ←
          (if str_eqb protocol "modbus" then Ok (dv_Community dev)
           else if str_eqb protocol "snmp" then
             if negb (str_eqb (dv_PluginBinary dev) EmptyString) then Err (GSnmpPlugin i)
             else Ok (default_str (dv_Community dev) "public")
           else Err (GProtocol i));
        mret (mkDevice (dv_Asset dev) (dv_PointMap dev) (dv_Endpoint dev)
          (default_str (dv_UnitID dev) "1")
          (if str_eqb (dv_PluginBinary dev) EmptyString then EmptyString
           else resolve abs (dv_PluginBinary dev))
          protocol community abs)
  end.

Fixpoint check_devices (d : Dict) (site abs : string) (i : nat) (devs : list Device) :
    result gw_err (list Device) :=
  match devs with
  | [] => Ok []
  | dev :: devs' =>
      dev' ← check_device d site abs i dev;
      rest ← check_devices d site abs (i + 1) devs';
      mret (dev' :: rest)
  end.

(** [LoadConfig] on the decoded file; [abs] is the directory of the file and
    [load_dict] loads the dictionary of a directory. *)
Definition LoadConfig (cfg : Config) (abs : string) (load_dict : string -> result load_err Dict) :
    result gw_err Config :=
  if str_eqb (cf_Site cfg) EmptyString then Err GSite
  else if str_eqb (cf_VMWriteURL cfg) EmptyString then Err GVMWriteURL
  else if str_eqb (cf_ProtocolDir cfg) EmptyString then Err GProtocolDir
  else
    let interval := if (cf_Interval cfg <=? 0)%Z then (10 * Second)%Z else cf_Interval cfg in
    if (length (cf_Devices cfg) =? 0)%nat then Err GDevices
    else if from_option (fun n => str_eqb (nc_URL n) EmptyString) false (cf_NATS cfg) then Err GNATSURL
    else
      let dir := resolve abs (cf_ProtocolDir cfg) in
      match load_dict dir with
      | Err e => Err (GDictionary e)
      | Ok d =>
          devs ← check_devices d (cf_Site cfg) abs 0 (cf_Devices cfg);
          mret (mkConfig (cf_Site cfg) dir (cf_VMWriteURL cfg) interval devs
            (nats_defaults <$> cf_NATS cfg))
      end.

Definition PointMapPath (dev : Device) : string := resolve (dv_baseDir dev) (dv_PointMap dev).
End config.

(** ** Pipelines (pipeline.go) *)

Record Pipeline : Type := mkPipeline {
  pl_dict : Dict;
  pl_point : Point;
  pl_qDef : QuantityDef;
  pl_conv : Conv;
  pl_scale : float64;
  pl_emap : gmap Z Z;
  pl_limits : option Limits;
  pl_metricName : string
}.

Definition newPipelineCore (asset : string) (pm : option PointMap) (pd : PointDef) (d : Dict) (u : Units) :
    result gw_err Pipeline :=
  match pm with
  | None => Err GNilMap
  | Some _ =>
      if str_eqb asset EmptyString then Err GEmptyAsset
      else match ParsePoint d (asset +:+ "." +:+ pd_Point pd) with
      | Err e => Err (GV1 e)
      | Ok p =>
          match d_Quantities d !! p_Quantity p with
          | None => Err GQuantity
          | Some q =>
              conv ←
                (if negb (str_eqb (pd_UnitIn pd) EmptyString) then
                   match CanConvert u (qd_Unit q) (pd_UnitIn pd) with
                   | None => Err GConvert
                   | Some c => Ok c
                   end
                 else Ok identity_conv);
              match MetricName (p_Quantity p) d with
              | Err e => Err (GMetric e)
              | Ok mn => mret (mkPipeline d p q conv (pd_Scale pd) (pd_EnumMap pd) (pd_Limits pd) mn)
              end
          end
      end
  end.

Section modbusbind.
Context (oor : float64 -> Z).

(** [modbusbind.BuildFromPointDef]: the register wraps to sixteen bits. *)
Definition register_of (raw : yaml) : result gw_err Z :=
  match raw with
  | YNull => Err GRegister
  | YInt n => Ok (u16 n)
  | YInt64 n => Ok (u16 n)
  | YFloat n => Ok (to_uint16 oor n)
  | YStr n => match ParseUint 16 n with Some v => Ok v | None => Err GRegister end
  | _ => Err GRegister
  end.

Definition table_of (protocol : fields) : result gw_err Table :=
  match protocol !! "table" with
  | None => Ok Holding
  | Some (YStr s) =>
      if str_eqb s "holding" then Ok Holding
      else if str_eqb s "input" then Ok Input else Err GTable
  | Some _ => Err GTable
  end.

Definition BuildFromPointDef (pd : PointDef) : result gw_err Modbus.Binding :=
  reg ← register_of (field (pd_Protocol pd) "register");
  table ← table_of (pd_Protocol pd);
  mret (Modbus.mkBinding (pd_Point pd) table reg (str_eqb (pd_Access pd) "rw")).

Definition snmpBindingFromProtocol (pd : PointDef) : result gw_err snmp_Binding :=
  match field (pd_Protocol pd) "oid" with
  | YStr oid =>
      mret (mkSnmpBinding (pd_Point pd) oid (str_eqb (pd_Access pd) "rw")
        (as_string (field (pd_Protocol pd) "kind")))
  | _ => Err GOID
  end.

Definition NewPipeline (asset : string) (pm : option PointMap) (pd : PointDef) (d : Dict) (u : Units) :
    result gw_err (Pipeline * Modbus.Binding) :=
  pl ← newPipelineCore asset pm pd d u;
  b ← BuildFromPointDef pd;
  mret (pl, b).
End modbusbind.

(** [string(s.Quality)] *)
Definition quality_string (q : Quality) : string :=
  match q with
  | QGood => "good" | QStale => "stale" | QSuspect => "suspect" | QSubstituted => "substituted"
  end.

Section convert.
Context (formatFloat : float64 -> string) (oor : float64 -> Z).

(** The steps of [Convert]: the scaled value through the enumeration map, the
    unit conversion, and the quality of the result. *)
Definition enum_step (pl : Pipeline) (v : float64) : float64 :=
  if bool_decide (qd_Enum (pl_qDef pl) = ∅) then v
  else match pl_emap pl !! to_int oor v with
       | Some mapped => f_of_Z mapped
       | None => v
       end.

Definition enum_known (pl : Pipeline) (v : float64) : bool :=
  bool_decide (qd_Enum (pl_qDef pl) = ∅) ||
  bool_decide (is_Some (qd_Enum (pl_qDef pl) !! to_int oor v)).

Definition convert_unit (pl : Pipeline) (v : float64) : float64 :=
  fadd (fmul v (c_Factor (pl_conv pl))) (c_Offset (pl_conv pl)).

Definition limits_violated (pl : Pipeline) (v : float64) : bool :=
  match pl_limits pl with
  | None => false
  | Some l => fltb v (l_Min l) || fgtb v (l_Max l)
  end.

Definition converted (pl : Pipeline) (raw : float64) : float64 :=
  convert_unit pl (enum_step pl (fmul raw (pl_scale pl))).

Definition converted_quality (pl : Pipeline) (s : Sample) : string :=
  let code := enum_step pl (fmul (s_Value s) (pl_scale pl)) in
  let quality := if enum_known pl code then quality_string (s_Quality s) else "suspect" in
  if limits_violated pl (convert_unit pl code) then "suspect" else quality.

Definition Convert (pl : Pipeline) (s : Sample) : result proj_err string :=
  Render formatFloat (pl_point pl) (converted pl (s_Value s)) (s_Ts s) (converted_quality pl s) (pl_dict pl).
End convert.

(** ** Heartbeat (heartbeat.go) *)

(** [topAssetOf]: the first two segments. *)
Definition topAssetOf (asset : string) : string :=
  match split "." asset with
  | a :: b :: _ => a +:+ "." +:+ b
  | _ => asset
  end.

Fixpoint strip_digits_rev (s : string) : string :=
  match s with
  | String c r => if is_digit c then strip_digits_rev r else s
  | EmptyString => EmptyString
  end.

(** The last segment without its trailing digits, the segment itself when it
    has nothing else. *)
Definition leafType (asset : string) : string :=
  let seg := List.last (split "." asset) EmptyString in
  let stem := rev_str (strip_digits_rev (rev_str seg)) in
  if str_eqb stem EmptyString then seg else stem.

Definition siteOf (asset : string) : string :=
  match cut_at "." asset with
  | Some (before, _) => if str_eqb before EmptyString then asset else before
  | None => asset
  end.

(** [strings.ReplaceAll] of one byte. *)
Fixpoint replace_byte (c : ascii) (by_ : string) (s : string) : string :=
  match s with
  | EmptyString => EmptyString
  | String b r => (if byte_eqb b c then by_ else String b EmptyString) +:+ replace_byte c by_ r
  end.

Definition escapePromLabel (s : string) : string :=
  let s := replace_byte BS (String BS (String BS EmptyString)) s in
  let s := replace_byte DQ (String BS (String DQ EmptyString)) s in
  replace_byte LF (String BS "n") s.

Definition quoted (s : string) : string := String DQ (escapePromLabel s +:+ String DQ EmptyString).

Definition pipelineHeartbeatLine (site asset topAsset assetType : string) (ts : time) : string :=
  let assetType := default_str assetType (leafType asset) in
  let topAsset := default_str topAsset (topAssetOf asset) in
  let site := default_str site (siteOf asset) in
  "cios_pipeline_heartbeat{site=" +:+ quoted site +:+ ",path=" +:+ quoted asset +:+
  ",top_asset=" +:+ quoted topAsset +:+ ",asset_type=" +:+ quoted assetType +:+ "} 1 " +:+
  itoa (UnixMilli ts).

Definition appendHeartbeat (lines : list string) (site asset topAsset assetType : string) (ts : time) :
    list string :=
  if existsb (fun l => has_prefix l "cios_pipeline_heartbeat{" &&
                       contains ("path=" +:+ quoted asset) l) lines
  then lines
  else lines ++ [pipelineHeartbeatLine site asset topAsset assetType ts].

(** ** One tick (run.go) *)

Record TelemetryBatch : Type := mkBatch {
  tb_Site : string;
  tb_TopAsset : string;
  tb_Timestamp : time;
  tb_Encoding : string;
  tb_Lines : list string
}.

Section tick.
Context (formatFloat : float64 -> string) (oor : float64 -> Z).
Context {D W : Type} `{Southbound D W}.

Record gatewayDevice : Type := mkGwDevice {
  gd_cfg : Device;
  gd_drv : D;
  gd_pipes : gmap string Pipeline
}.

Definition with_drv (d : gatewayDevice) (drv : D) : gatewayDevice := mkGwDevice (gd_cfg d) drv (gd_pipes d).

(** The lines of the samples of one round; a sample without a pipeline or that
    cannot be rendered is logged and skipped. *)
Definition convert_samples (pipes : gmap string Pipeline) (ss : list Sample) : list string :=
  omap (fun s =>
    match pipes !! s_Point s with
    | None => None
    | Some pl => match Convert formatFloat oor pl s with Ok line => Some line | Err _ => None end
    end) ss.

(** The body of the loop of [publishBatch]: the batch of one device, [None]
    when the device is skipped. *)
Definition device_batch (site : string) (t : time) (retired : gset string) (d : gatewayDevice) (w : W) :
    gatewayDevice * W * option TelemetryBatch :=
  let asset := dv_Asset (gd_cfg d) in
  if bool_decide (asset ∈ retired) then (d, w, None)
  else match sd_Collect (gd_drv d) w with
  | (drv, w, None) => (with_drv d drv, w, None)
  | (drv, w, Some samples) =>
      let lines := convert_samples (gd_pipes d) samples in
      let top := topAssetOf asset in
      let lines := appendHeartbeat lines site asset top (leafType asset) t in
      (with_drv d drv, w,
       if (length lines =? 0)%nat then None else Some (mkBatch site top t "promtext" lines))
  end.

(** [publishBatch] over the state [P] of the publisher. *)
Section publish.
Context {P : Type} (publish : P -> TelemetryBatch -> P * bool).

Fixpoint publishBatch (site : string) (t : time) (retired : gset string) (devs : list gatewayDevice)
    (w : W) (p : P) : list gatewayDevice * W * P :=
  match devs with
  | [] => ([], w, p)
  | d :: devs' =>
      let '(d, w, b) := device_batch site t retired d w in
      let p := match b with Some b => (publish p b).1 | None => p end in
      let '(devs', w, p) := publishBatch site t retired devs' w p in
      (d :: devs', w, p)
  end.
End publish.

Definition with_lf (line : string) : string := line +:+ String LF EmptyString.

(** The part of the body one device contributes in [postBatch]. *)
Definition device_body (t : time) (retired : gset string) (d : gatewayDevice) (w : W) :
    gatewayDevice * W * list string :=
  let asset := dv_Asset (gd_cfg d) in
  if bool_decide (asset ∈ retired) then (d, w, [])
  else match sd_Collect (gd_drv d) w with
  | (drv, w, None) => (with_drv d drv, w, [])
  | (drv, w, Some samples) =>
      let lines := convert_samples (gd_pipes d) samples in
      (with_drv d drv, w,
       if (length lines =? 0)%nat then []
       else lines ++ [pipelineHeartbeatLine (siteOf asset) asset (topAssetOf asset) (leafType asset) t])
  end.

Fixpoint post_lines (t : time) (retired : gset string) (devs : list gatewayDevice) (w : W) :
    list gatewayDevice * W * list string :=
  match devs with
  | [] => ([], w, [])
  | d :: devs' =>
      let '(d, w, ls) := device_body t retired d w in
      let '(devs', w, rest) := post_lines t retired devs' w in
      (d :: devs', w, ls ++ rest)
  end.

(** [postBatch] up to the request: the body that is posted, [None] when there
    is nothing to write. *)
Definition postBatch (t : time) (retired : gset string) (devs : list gatewayDevice) (w : W) :
    list gatewayDevice * W * option string :=
  let '(devs, w, lines) := post_lines t retired devs w in
  let body := foldr (fun l acc => with_lf l +:+ acc) EmptyString lines in
  (devs, w, if str_eqb body EmptyString then None else Some body).

(** ** The control registry and its endpoint (control.go) *)

(** A driver is known by the position of its device. *)
Record controlTarget : Type := mkTarget { ct_dev : nat; ct_relPoint : string; ct_asset : string }.

Definition register (asset relPoint : string) (dev : nat) (reg : gmap string controlTarget) :
    gmap string controlTarget :=
  if str_eqb asset EmptyString || str_eqb relPoint EmptyString then reg
  else <[asset +:+ "." +:+ relPoint := mkTarget dev relPoint asset]> reg.

Fixpoint register_all (i : nat) (devs : list gatewayDevice) (reg : gmap string controlTarget) :
    gmap string controlTarget :=
  match devs with
  | [] => reg
  | d :: devs' =>
      register_all (i + 1) devs'
        (foldl (fun reg rel => register (dv_Asset (gd_cfg d)) rel i reg) reg
           ((map_to_list (gd_pipes d)).*1))
  end.

(** What a write through the registry does to the devices; [None] is the error
    of an unknown point. *)
Definition control_write (reg : gmap string controlTarget) (fullPath : string) (value : float64)
    (requestID : string) (ttl : Z) (devs : list gatewayDevice) (w : W) :
    list gatewayDevice * W * option (ControlResult * bool) :=
  match reg !! fullPath with
  | None => (devs, w, None)
  | Some t =>
      match devs !! ct_dev t with
      | None => (devs, w, None)
      | Some gd =>
          let '(drv, w, r) := sd_Write (mkCommand (ct_relPoint t) value requestID ttl) (gd_drv gd) w in
          (<[ct_dev t := with_drv gd drv]> devs, w, Some r)
      end
  end.

Record controlSetRequest : Type := mkSetRequest {
  cs_Path : string; cs_Value : float64; cs_RequestID : string; cs_TTLSeconds : Z
}.

Record http_request : Type := mkHttpRequest {
  hr_method : string;
  hr_token_header : string;
  hr_authorization : string;
  hr_body : option controlSetRequest
}.

(** [controlTokenFromRequest] *)
Definition controlTokenFromRequest (r : http_request) : string :=
  let h := TrimSpace (hr_token_header r) in
  if negb (str_eqb h EmptyString) then h
  else
    let auth := TrimSpace (hr_authorization r) in
    if (7 <=? str_len auth)%nat && EqualFold latin_orbit (String.substring 0 7 auth) "bearer "
    then TrimSpace (String.substring 7 (str_len auth - 7) auth)
    else EmptyString.

Definition controlTokenOK (got want : string) : bool :=
  let got := TrimSpace got in
  let want := TrimSpace want in
  if str_eqb want EmptyString || str_eqb got EmptyString || negb (str_len got =? str_len want)%nat
  then false
  else str_eqb got want.

Inductive control_status : Type := CMethod | CUnauthorized | CBadJSON | CPathRequired | CNotFound | COk | CConflict.

(** The handler of POST /v1/control/set; [gen] is the id minted for a request
    without one.  The response is the status, whether the write is reported as
    accepted, and the readback. *)
Definition handle_set (token gen : string) (reg : gmap string controlTarget) (r : http_request)
    (devs : list gatewayDevice) (w : W) :
    list gatewayDevice * W * (control_status * bool * float64) :=
  if negb (str_eqb (hr_method r) "POST") then (devs, w, (CMethod, false, f0))
  else if negb (controlTokenOK (controlTokenFromRequest r) token) then (devs, w, (CUnauthorized, false, f0))
  else match hr_body r with
  | None => (devs, w, (CBadJSON, false, f0))
  | Some req =>
      if str_eqb (cs_Path req) EmptyString then (devs, w, (CPathRequired, false, f0))
      else
        let ttl := wrap64 (cs_TTLSeconds req * Second) in
        let ttl := if (ttl <=? 0)%Z then (30 * Second)%Z else ttl in
        let id := default_str (cs_RequestID req) gen in
        match control_write reg (cs_Path req) (cs_Value req) id ttl devs w with
        | (devs, w, None) => (devs, w, (CNotFound, false, f0))
        | (devs, w, Some (res, ok)) =>
            if negb ok then (devs, w, (CNotFound, false, f0))
            else (devs, w, (if r_Accepted res then COk else CConflict, r_Accepted res, r_Readback res))
        end
  end.

(** [controlListenLoopback]; [lookup] resolves a host name to whether each of
    its addresses is a loopback one, [lower] is the table of lower-case runes. *)
Definition controlListenLoopback (lower : N -> N) (lookup : string -> list bool) (addr : string) : bool :=
  match SplitHostPort addr with
  | None => false
  | Some (host, _) =>
      let h := TrimSpace host in
      let l := ToLower lower h in
      if contains_string ["127.0.0.1"; "::1"; "localhost"] l then true
      else if contains_string [EmptyString; "0.0.0.0"; "::"; "[::]"] l then false
      else
        let ips := lookup h in
        negb (length ips =? 0)%nat && forallb id ips
  end.

(** The checks of [startControlServer]: [Ok None] when the API is disabled,
    [Ok (Some token)] when it listens. *)
Definition startControlServer (lower : N -> N) (lookup : string -> list bool) (addr token : string) :
    result gw_err (option string) :=
  let addr := TrimSpace addr in
  if str_eqb addr EmptyString then Ok None
  else
    let token := TrimSpace token in
    if str_eqb token EmptyString then Err GControlToken
    else if negb (controlListenLoopback lower lookup addr) then Err GControlListen
    else Ok (Some token).
End tick.
Arguments gatewayDevice D : clear implicits.

(** ** The two drivers behind the interface *)

(** The conversion of a float that does not fit an integer type; see
    [Float64.ftrunc]. *)
Class FloatToInt : Type := float_to_int : float64 -> Z.

#[export] Instance modbus_southbound {W} `{FloatToInt} `{Network W} : Southbound Modbus.Driver W := {|
  sd_points d := (fun b => (Modbus.b_Point b, Modbus.b_Writable b)) <$> Modbus.d_bindings d;
  sd_Collect d w := let '(d, w, ss) := Modbus.Collect d w in (d, w, Some ss);
  sd_Write cmd d w :=
    let '(d, w, (r, err)) := Modbus.Write float_to_int false cmd d w in
    (d, w, (r, bool_decide (err = None)))
|}.

#[export] Instance snmp_southbound {W} `{FloatToInt} `{Agent W} : Southbound snmp_Driver W := {|
  sd_points d := (fun b => (sb_Point b, sb_Writable b)) <$> n_bindings d;
  sd_Collect d w := let '(d, w, ss) := snmp_Collect d w in (d, w, Some ss);
  sd_Write cmd d w :=
    let '(d, w, (r, err)) := snmp_Write float_to_int false cmd d w in
    (d, w, (r, bool_decide (err = None)))
|}.

(** ** Bring-up (run.go)

    [plugin] starts a driver process for a device; [None] when it cannot. *)
Section run.
Context {W PD : Type} `{FloatToInt} `{Network W} `{Agent W}.
Context (Join : string -> string -> string).
Context (plugin : Device -> option PD) (plugin_init : PD -> W -> PD * W).
Context (load : string -> Dict -> Units -> option PointMap * list pm_err).

Abbreviation driver := (Modbus.Driver + (snmp_Driver + PD))%type.

(** The loop over the points of one device: the pipelines and the bindings. *)
Fixpoint build_modbus (asset : string) (pm : PointMap) (pds : list PointDef) (d : Dict) (u : Units)
    (pipes : gmap string Pipeline) : result gw_err (gmap string Pipeline * list Modbus.Binding) :=
  match pds with
  | [] => Ok (pipes, [])
  | pd :: pds' =>
      match NewPipeline float_to_int asset (Some pm) pd d u with
      | Err e => Err (GPipeline asset (pd_Point pd) e)
      | Ok (pl, b) =>
          '(pipes, bs) ← build_modbus asset pm pds' d u (<[pd_Point pd := pl]> pipes);
          mret (pipes, b :: bs)
      end
  end.

Fixpoint build_snmp (asset : string) (pm : PointMap) (pds : list PointDef) (d : Dict) (u : Units)
    (pipes : gmap string Pipeline) : result gw_err (gmap string Pipeline * list snmp_Binding) :=
  match pds with
  | [] => Ok (pipes, [])
  | pd :: pds' =>
      match newPipelineCore asset (Some pm) pd d u with
      | Err e => Err (GPipeline asset (pd_Point pd) e)
      | Ok pl =>
          match snmpBindingFromProtocol pd with
          | Err e => Err (GPipeline asset (pd_Point pd) e)
          | Ok b =>
              '(pipes, bs) ← build_snmp asset pm pds' d u (<[pd_Point pd := pl]> pipes);
              mret (pipes, b :: bs)
          end
      end
  end.

(** The driver of a device before its plugin replaces it, and its pipelines;
    a protocol that [LoadConfig] does not let through leaves the interface nil. *)
Definition build_driver (dev : Device) (pm : PointMap) (d : Dict) (u : Units) :
    result gw_err (gmap string Pipeline * (Modbus.Driver + snmp_Driver)) :=
  if str_eqb (dv_Protocol dev) EmptyString || str_eqb (dv_Protocol dev) "modbus" then
    '(pipes, bs) ← build_modbus (dv_Asset dev) pm (pm_Points pm) d u ∅;
    mret (pipes, inl (Modbus.New bs))
  else if str_eqb (dv_Protocol dev) "snmp" then
    '(pipes, bs) ← build_snmp (dv_Asset dev) pm (pm_Points pm) d u ∅;
    mret (pipes, inr (snmp_New bs))
  else Err GNilDriver.

(** [Init]; its error is logged and the device kept. *)
Definition init_driver (dev : Device) (drv : driver) (w : W) : driver * W :=
  match drv with
  | inl m => let '(m, w, _) := Modbus.Init false (dv_Endpoint dev) (dv_UnitID dev) m w in (inl m, w)
  | inr (inl n) =>
      let '(n, w, _) := snmp_Init false false (dv_Endpoint dev) (dv_Community dev) n w in (inr (inl n), w)
  | inr (inr p) => let '(p, w) := plugin_init p w in (inr (inr p), w)
  end.

Definition start_device (d : Dict) (u : Units) (dev : Device) (w : W) :
    W * result gw_err (gatewayDevice driver) :=
  match load (PointMapPath Join dev) d u with
  | (_, _ :: _) => (w, Err (GPointMapInvalid (dv_Asset dev)))
  | (None, []) => (w, Err GNilMap)
  | (Some pm, []) =>
      match build_driver dev pm d u with
      | Err e => (w, Err e)
      | Ok (pipes, drv) =>
          let drv : result gw_err driver :=
            if negb (str_eqb (dv_PluginBinary dev) EmptyString) then
              match plugin dev with Some p => Ok (inr (inr p)) | None => Err (GPlugin (dv_Asset dev)) end
            else Ok (match drv with inl m => inl m | inr n => inr (inl n) end) in
          match drv with
          | Err e => (w, Err e)
          | Ok drv => let '(drv, w) := init_driver dev drv w in (w, Ok (mkGwDevice dev drv pipes))
          end
      end
  end.

Fixpoint start_devices (d : Dict) (u : Units) (devs : list Device) (w : W) :
    W * result gw_err (list (gatewayDevice driver)) :=
  match devs with
  | [] => (w, Ok [])
  | dev :: devs' =>
      match start_device d u dev w with
      | (w, Err e) => (w, Err e)
      | (w, Ok gd) =>
          match start_devices d u devs' w with
          | (w, Err e) => (w, Err e)
          | (w, Ok gds) => (w, Ok (gd :: gds))
          end
      end
  end.

(** [Run] up to the tick loop: the devices, the control registry and the
    token the control API asks for, if it is enabled. *)
Definition bring_up (lower : N -> N) (lookup : string -> list bool) (load_dict : string -> result load_err Dict)
    (load_units : string -> result units_err Units) (cfg : Config) (listen token : string) (w : W) :
    W * result gw_err (list (gatewayDevice driver) * gmap string controlTarget * option string) :=
  match load_dict (cf_ProtocolDir cfg) with
  | Err e => (w, Err (GDictionary e))
  | Ok d =>
      match load_units (cf_ProtocolDir cfg) with
      | Err e => (w, Err (GUnits e))
      | Ok u =>
          match start_devices d u (cf_Devices cfg) w with
          | (w, Err e) => (w, Err e)
          | (w, Ok []) => (w, Err GNoDevices)
          | (w, Ok gds) =>
              match startControlServer lower lookup listen token with
              | Err e => (w, Err e)
              | Ok tok => (w, Ok (gds, register_all 0 gds ∅, tok))
              end
          end
      end
  end.
End run.

(** ** The contract of the drivers *)

Lemma modbus_collect_table {W} `{NetworkOk W} d w :
  let '(d', _, ss) := Modbus.Collect d w in
  map s_Point ss = map Modbus.b_Point (Modbus.d_bindings d) /\ Modbus.d_bindings d' = Modbus.d_bindings d.
Proof.
  unfold Modbus.Collect. destruct (Modbus.d_conn d).
  { pose proof (collect_loop_post (Modbus.d_bindings d) true d w) as Hp.
    destruct (collect_loop _ true d w) as [[d' w'] ss]. destruct Hp as (Hp & _ & Hb & _). done. }
  pose proof (reconnect_state d w) as Hrc. destruct (reconnect d w) as [[d1 w1] [e|]]; destruct Hrc as (Hb1 & _).
  - pose proof (fillSuspect_spec (Modbus.d_bindings d1) w1) as [Hp _]. unfold fillSuspect in *.
    cbn [Modbus.d_bindings with_errors]. destruct (now w1) as [w2 t]. cbn in Hp. by rewrite Hp, Hb1.
  - pose proof (collect_loop_post (Modbus.d_bindings d1) true d1 w1) as Hp.
    destruct (collect_loop _ true d1 w1) as [[d' w'] ss]. destruct Hp as (Hp & _ & Hb & _).
    by rewrite Hp, Hb, Hb1.
Qed.

Lemma snmp_collect_table {W} `{Agent W} d w :
  let '(d', _, ss) := snmp_Collect d w in
  map s_Point ss = map sb_Point (n_bindings d) /\ n_bindings d' = n_bindings d.
Proof.
  unfold snmp_Collect. destruct (n_sess d).
  { pose proof (snmp_loop_post (n_bindings d) true d w) as Hp.
    destruct (snmp_loop _ true d w) as [[d' w'] ss]. destruct Hp as (Hp & _ & Hb & _). done. }
  pose proof (snmp_reconnect_state d w) as Hrc.
  destruct (snmp_reconnect d w) as [[d1 w1] [e|]]; destruct Hrc as (Hb1 & _).
  - pose proof (snmp_fillSuspect_spec (n_bindings d1) w1) as [Hp _]. unfold snmp_fillSuspect in *.
    change (n_bindings (n_count d1)) with (n_bindings d1). destruct (a_now w1) as [w2 t]. cbn in Hp.
    cbn. by rewrite Hp, Hb1.
  - pose proof (snmp_loop_post (n_bindings d1) true d1 w1) as Hp.
    destruct (snmp_loop _ true d1 w1) as [[d' w'] ss]. destruct Hp as (Hp & _ & Hb & _).
    by rewrite Hp, Hb, Hb1.
Qed.

Lemma find_In {A} (f : A -> string) (g : A -> bool) pt xs x :
  List.find (fun y => str_eqb (f y) pt) xs = Some x -> g x = true ->
  In (pt, true) ((fun y => (f y, g y)) <$> xs).
Proof.
  intros [Hin Hf%str_eqb_eq]%find_some Hg. apply list_elem_of_In, list_elem_of_fmap.
  exists x. rewrite Hf, Hg. split; [done|by apply list_elem_of_In].
Qed.

#[export] Instance modbus_southbound_ok {W} `{FloatToInt} `{NetworkOk W} : SouthboundOk Modbus.Driver W.
Proof.
  split; cbn [sd_points sd_Collect sd_Write modbus_southbound]; intros.
  - pose proof (modbus_collect_table d w) as Hp. destruct (Modbus.Collect d w) as [[d1 w1] ss].
    simplify_eq. by destruct Hp as [_ ->].
  - pose proof (modbus_collect_table d w) as Hp. destruct (Modbus.Collect d w) as [[d1 w1] ss1].
    simplify_eq. destruct Hp as [Hp _]. rewrite <- list_fmap_compose. exact Hp.
  - pose proof (Write_contract float_to_int false cmd d w) as Hp.
    destruct (Modbus.Write _ false cmd d w) as [[d1 w1] [r1 err]]. simplify_eq.
    by destruct Hp as (_ & _ & _ & -> & _).
  - pose proof (Write_contract float_to_int false cmd d w) as Hp.
    destruct (Modbus.Write _ false cmd d w) as [[d1 w1] [r1 err]]. simplify_eq.
    destruct Hp as (_ & _ & _ & _ & [?|(_ & _ & b & Hb & Hw)]); [by left|right].
    by eapply find_In.
Qed.

#[export] Instance snmp_southbound_ok {W} `{FloatToInt} `{Agent W} : SouthboundOk snmp_Driver W.
Proof.
  split; cbn [sd_points sd_Collect sd_Write snmp_southbound]; intros.
  - pose proof (snmp_collect_table d w) as Hp. destruct (snmp_Collect d w) as [[d1 w1] ss].
    simplify_eq. by destruct Hp as [_ ->].
  - pose proof (snmp_collect_table d w) as Hp. destruct (snmp_Collect d w) as [[d1 w1] ss1].
    simplify_eq. destruct Hp as [Hp _]. rewrite <- list_fmap_compose. exact Hp.
  - pose proof (snmp_Write_state float_to_int false cmd d w) as Hp.
    destruct (snmp_Write _ false cmd d w) as [[d1 w1] [r1 err]]. simplify_eq.
    by destruct Hp as (-> & _).
  - pose proof (snmp_Write_state float_to_int false cmd d w) as Hp.
    destruct (snmp_Write _ false cmd d w) as [[d1 w1] [r1 err]]. simplify_eq.
    destruct Hp as (_ & _ & _ & [?|(_ & _ & b & Hb & Hw)]); [by left|right].
    by eapply find_In.
Qed.

#[export] Instance southbound_sum_ok {A B W} `{SouthboundOk A W} `{SouthboundOk B W} :
  SouthboundOk (A + B) W.
Proof.
  split; intros *; cbn; destruct d as [a|b];
    (destruct (sd_Collect _ w) as [[x w1] r1] eqn:E || destruct (sd_Write cmd _ w) as [[x w1] r1] eqn:E);
    intros; simplify_eq; cbn.
  - by eapply sd_collect_table.
  - by eapply sd_collect_table.
  - by eapply sd_collect_all.
  - by eapply sd_collect_all.
  - by eapply sd_write_table.
  - by eapply sd_write_table.
  - apply sd_write_guard in E as [(-> & -> & ?)|?]; [by left|by right].
  - apply sd_write_guard in E as [(-> & -> & ?)|?]; [by left|by right].
Qed.
