(* ===== verification/GatewayRun.v ===== *)
(** * The gateway in operation

    What a bring-up on accepted point maps gives, and the invariant that the
    ticks and the control requests keep: every point of the map has one
    pipeline with its full address, a round publishes one line per point and
    the heartbeat, and only the points declared writable are ever driven. *)
From Stdlib Require Import SpecFloat.
From S2P Require Import Prelude Float64 GoTime CPath Http PromProj Cursor DictLoad PointMap Modbus GoNet Snmp Gateway.
Open Scope string_scope.
Open Scope list_scope.

(** ** The pipeline of a point *)

Record pipeline_ok (d : Dict) (u : Units) (asset : string) (pd : PointDef) (pl : Pipeline) : Prop := {
  pi_dict : pl_dict pl = d;
  pi_point : Point_String (pl_point pl) = asset +:+ "." +:+ pd_Point pd;
  pi_point_ok : point_ok d (pl_point pl);
  pi_quantity : d_Quantities d !! p_Quantity (pl_point pl) = Some (pl_qDef pl);
  pi_metric : MetricName (p_Quantity (pl_point pl)) d = Ok (pl_metricName pl);
  pi_conv : if str_eqb (pd_UnitIn pd) EmptyString then pl_conv pl = identity_conv
            else CanConvert u (qd_Unit (pl_qDef pl)) (pd_UnitIn pd) = Some (pl_conv pl);
  pi_scale : pl_scale pl = pd_Scale pd;
  pi_emap : pl_emap pl = pd_EnumMap pd;
  pi_limits : pl_limits pl = pd_Limits pd
}.

Lemma newPipelineCore_ok asset pm pd d u pl :
  newPipelineCore asset (Some pm) pd d u = Ok pl -> pipeline_ok d u asset pd pl.
Proof.
  unfold newPipelineCore. destruct (str_eqb asset EmptyString); [done|].
  destruct (ParsePoint d _) as [p|e] eqn:Hp; [|done].
  destruct (d_Quantities d !! p_Quantity p) as [q|] eqn:Hq; [|done].
  intros H. apply bind_Ok in H as (conv & Hc & H).
  destruct (MetricName (p_Quantity p) d) as [mn|] eqn:Hm; [|done]. apply Ok_inj in H as <-.
  apply parsed_point_ok in Hp as [Hs Hok]. split; cbn; try done.
  destruct (str_eqb (pd_UnitIn pd) EmptyString); cbn [negb] in Hc.
  - by apply Ok_inj in Hc as <-.
  - destruct (CanConvert u (qd_Unit q) (pd_UnitIn pd)); [|done]. by apply Ok_inj in Hc as <-.
Qed.

(** The address of a point below an asset ends in the point's quantity. *)
Lemma quantity_below d a s p :
  ParsePoint d (a +:+ "." +:+ s) = Ok p -> p_Quantity p = quantityOf s.
Proof.
  intros [Hs Hok]%parsed_point_ok. change ("." +:+ s) with (String "." s) in Hs.
  apply (f_equal (split ".")) in Hs. unfold Point_String in Hs.
  rewrite !str_app_assoc, !split_app_two, (split_no_sep _ (p_Quantity p)) in Hs
    by (pose proof (pk_quantity_seg d p Hok); eauto with cios).
  unfold quantityOf. pose proof (split_not_nil "." s) as Hne.
  destruct (exists_last Hne) as (l & x & Hx). rewrite Hx in *. rewrite app_assoc in Hs.
  apply app_inj_tail in Hs as [_ ->]. by rewrite List.last_last.
Qed.

(** A point that the loader accepts for a type has a pipeline below every
    asset of that type. *)
Lemma newPipelineCore_accepts d u ty a pm pd :
  is_asset d ty a -> point_valid d u ty pd ->
  exists pl, newPipelineCore (AssetPath_String a) (Some pm) pd d u = Ok pl.
Proof.
  intros Ha Hv. destruct (proj2 (pv_point d u ty pd Hv) a Ha) as [p Hp].
  unfold newPipelineCore. change (String "." (pd_Point pd)) with ("." +:+ pd_Point pd) in Hp.
  rewrite (proj2 (str_eqb_neq _ _)).
  2: { unfold AssetPath_String. intros [H _]%str_app_nil_inv.
       destruct Ha as [(_ & Hseg & _) _]. by rewrite H in Hseg. }
  rewrite Hp. pose proof (quantity_below _ _ _ _ Hp) as Hq.
  apply parsed_point_ok in Hp as [_ Hok].
  destruct (pk_quantity d p Hok) as (_ & _ & [[q Hqd]|(def & Hdef & _)]).
  2: { rewrite Hq, (pv_derived d u ty pd Hv) in Hdef. done. }
  rewrite Hqd. unfold MetricName, lookupQuantity. rewrite Hqd.
  destruct (str_eqb (pd_UnitIn pd) EmptyString) eqn:Hu; cbn [negb].
  - destruct (str_eqb (qd_Unit q) "enum"); by eexists.
  - apply str_eqb_neq in Hu. destruct (pv_unit d u ty pd Hv Hu) as (q' & Hq' & _ & [c Hc]).
    rewrite <- Hq, Hqd in Hq'. injection Hq' as <-. rewrite Hc.
    destruct (str_eqb (qd_Unit q) "enum"); by eexists.
Qed.

(** ** The loop over the points of a map

    The two loops of the bring-up are one loop over the way a point is
    built. *)
Section build.
Context {B : Type} (asset : string) (mk : PointDef -> result gw_err (Pipeline * B)).

Fixpoint build (pds : list PointDef) (pipes : gmap string Pipeline) :
    result gw_err (gmap string Pipeline * list B) :=
  match pds with
  | [] => Ok (pipes, [])
  | pd :: pds' =>
      match mk pd with
      | Err e => Err (GPipeline asset (pd_Point pd) e)
      | Ok (pl, b) =>
          '(pipes, bs) ← build pds' (<[pd_Point pd := pl]> pipes);
          mret (pipes, b :: bs)
      end
  end.

Lemma build_Ok pds : forall pipes pipes' bs, build pds pipes = Ok (pipes', bs) ->
  NoDup (pd_Point <$> pds) ->
  Forall2 (fun pd b => exists pl, mk pd = Ok (pl, b) /\ pipes' !! pd_Point pd = Some pl) pds bs /\
  (forall k, ~ In k (pd_Point <$> pds) -> pipes' !! k = pipes !! k).
Proof.
  induction pds as [|pd pds IH]; intros pipes pipes' bs H Hnd; cbn in H.
  { apply Ok_inj in H. injection H as <- <-. split; [constructor|done]. }
  destruct (mk pd) as [[pl b]|e] eqn:Hmk; [|done].
  apply bind_Ok in H as ([pipes1 bs1] & H & Hr). apply Ok_inj in Hr. injection Hr as <- <-.
  cbn in Hnd. inv Hnd. apply IH in H as [Hf Hk]; [|done]. split.
  - constructor; [|done]. exists pl. split; [done|]. rewrite Hk by (by rewrite <- list_elem_of_In).
    apply lookup_insert_eq.
  - intros k Hin. cbn in Hin. rewrite Hk by tauto. apply lookup_insert_ne. tauto.
Qed.

Lemma build_total pds : forall pipes, Forall (fun pd => exists r, mk pd = Ok r) pds ->
  exists r, build pds pipes = Ok r.
Proof.
  induction pds as [|pd pds IH]; intros pipes H; cbn; [by eexists|].
  inv H. rename select (exists r, _) into Hr. destruct Hr as [[pl b] ->].
  destruct (IH (<[pd_Point pd := pl]> pipes)) as [[pipes' bs] ->]; [done|]. by eexists.
Qed.

Lemma build_fails pds : forall pipes e, build pds pipes = Err e ->
  exists pd e', In pd pds /\ mk pd = Err e' /\ e = GPipeline asset (pd_Point pd) e'.
Proof.
  induction pds as [|pd pds IH]; intros pipes e H; cbn in H; [done|].
  destruct (mk pd) as [[pl b]|e'] eqn:Hmk.
  - apply bind_Err in H as [H|([? ?] & _ & H)]; [|done].
    apply IH in H as (pd' & e' & ? & ? & ?). exists pd', e'. split; [by right|done].
  - injection H as <-. exists pd, e'. split; [by left|done].
Qed.
End build.

Lemma build_modbus_build `{FloatToInt} asset pm d u pds : forall pipes,
  build_modbus asset pm pds d u pipes =
  build asset (fun pd => NewPipeline float_to_int asset (Some pm) pd d u) pds pipes.
Proof.
  induction pds as [|pd pds IH]; intros pipes; cbn [build_modbus build]; [done|].
  destruct (NewPipeline _ _ _ _ _ _) as [[pl b]|e]; [|done]. by rewrite IH.
Qed.

Definition snmp_point (asset : string) (pm : PointMap) (d : Dict) (u : Units) (pd : PointDef) :
    result gw_err (Pipeline * snmp_Binding) :=
  pl ← newPipelineCore asset (Some pm) pd d u;
  b ← snmpBindingFromProtocol pd;
  mret (pl, b).

Lemma build_snmp_build asset pm d u pds : forall pipes,
  build_snmp asset pm pds d u pipes = build asset (snmp_point asset pm d u) pds pipes.
Proof.
  induction pds as [|pd pds IH]; intros pipes; cbn [build_snmp build]; [done|].
  unfold snmp_point. destruct (newPipelineCore _ _ _ _ _) as [pl|e]; [|done].
  cbn [mbind result_bind]. destruct (snmpBindingFromProtocol pd) as [b|e]; [|done].
  cbn [mbind result_bind mret result_ret]. by rewrite IH.
Qed.

(** The binding of a point has the point's name, and is writable exactly when
    the map says so. *)
Lemma BuildFromPointDef_table oor pd b : BuildFromPointDef oor pd = Ok b ->
  Modbus.b_Point b = pd_Point pd /\ Modbus.b_Writable b = str_eqb (pd_Access pd) "rw".
Proof.
  unfold BuildFromPointDef. intros H. apply bind_Ok in H as (reg & _ & H).
  apply bind_Ok in H as (tab & _ & H). by apply Ok_inj in H as <-.
Qed.

Lemma snmpBinding_table pd b : snmpBindingFromProtocol pd = Ok b ->
  sb_Point b = pd_Point pd /\ sb_Writable b = str_eqb (pd_Access pd) "rw".
Proof. unfold snmpBindingFromProtocol. intros H. case_match; try done. by apply Ok_inj in H as <-. Qed.

(** ** A running device *)

(** The binding table that a map asks for. *)
Definition table_of_map (pm : PointMap) : list (string * bool) :=
  (fun pd => (pd_Point pd, str_eqb (pd_Access pd) "rw")) <$> pm_Points pm.

(** The drivers that always answer a round, and keep doing so. *)
Class Answering {D W : Type} `{Southbound D W} (local : D -> Prop) : Prop := {
  answers : forall d w, local d -> exists d' w' ss, sd_Collect d w = (d', w', Some ss) /\ local d';
  write_local : forall cmd d w d' w' r, local d -> sd_Write cmd d w = (d', w', r) -> local d'
}.

Section device.
Context {D W : Type} `{SouthboundOk D W} (local : D -> Prop) `{!Answering local}.

Record device_ok (d : Dict) (u : Units) (pm : PointMap) (gd : gatewayDevice D) : Prop := {
  dk_nodup : NoDup (pd_Point <$> pm_Points pm);
  dk_table : sd_points (gd_drv gd) = table_of_map pm;
  dk_pipes : forall pd, In pd (pm_Points pm) -> exists pl,
    gd_pipes gd !! pd_Point pd = Some pl /\ pipeline_ok d u (dv_Asset (gd_cfg gd)) pd pl;
  dk_dom : forall k, is_Some (gd_pipes gd !! k) -> In k (pd_Point <$> pm_Points pm);
  dk_local : local (gd_drv gd)
}.

Lemma device_ok_drv d u pm gd drv : device_ok d u pm gd ->
  sd_points drv = sd_points (gd_drv gd) -> local drv -> device_ok d u pm (with_drv gd drv).
Proof using Type. intros [] Hp Hl. split; cbn; try done. by rewrite Hp. Qed.

Lemma collect_device_ok d u pm gd w drv w' r : device_ok d u pm gd ->
  sd_Collect (gd_drv gd) w = (drv, w', r) -> device_ok d u pm (with_drv gd drv).
Proof.
  intros Hok Hc. apply device_ok_drv; [done|by eapply sd_collect_table|].
  destruct (answers (gd_drv gd) w (dk_local _ _ _ _ Hok)) as (? & ? & ? & E & ?). congruence.
Qed.
End device.

(** ** The drivers that run inside the gateway *)

Section local.
Context {W PD : Type} `{FloatToInt} `{NetworkOk W} `{!Agent W} `{!Southbound PD W} `{!SouthboundOk PD W}.

Abbreviation driver := (Modbus.Driver + (snmp_Driver + PD))%type.

Definition in_process (drv : driver) : Prop :=
  match drv with inr (inr _) => False | _ => True end.

#[export] Instance in_process_answers : Answering in_process.
Proof using Type.
  split.
  - intros [m|[n|p]] w Hl; [| |done]; cbn -[Modbus.Collect snmp_Collect].
    + destruct (Modbus.Collect m w) as [[m' w'] ss]. by eexists _, _, _.
    + destruct (snmp_Collect n w) as [[n' w'] ss]. by eexists _, _, _.
  - intros cmd [m|[n|p]] w d' w' r Hl; [| |done]; cbn -[Modbus.Write snmp_Write].
    + destruct (Modbus.Write _ _ _ m w) as [[m' w1] [? ?]]. intros [= <- <- <-]. done.
    + destruct (snmp_Write _ _ _ n w) as [[n' w1] [? ?]]. intros [= <- <- <-]. done.
Qed.
End local.

Lemma Init_bindings {W} `{Network W} c e uid d w : Modbus.d_bindings (Init c e uid d w).1.1 = Modbus.d_bindings d.
Proof.
  unfold Init. destruct c; [done|]. destruct (Modbus.d_bindings d) eqn:E; [done|].
  destruct (check_bindings _ _ _); [done|]. destruct (ParseUint _ _); [|done].
  by destruct (dial w e) as [w' []].
Qed.

Lemma snmp_Init_bindings {W} `{Agent W} c x e com d w : n_bindings (snmp_Init c x e com d w).1.1 = n_bindings d.
Proof. unfold snmp_Init. repeat (case_match; try done). Qed.

(** ** Bring-up *)

(** The protocol sections of a map give bindings. *)
Definition bindable `{FloatToInt} (protocol : string) (pd : PointDef) : Prop :=
  if str_eqb protocol "snmp" then exists b, snmpBindingFromProtocol pd = Ok b
  else exists b, BuildFromPointDef float_to_int pd = Ok b.

(** A map that [Load] returned without errors for devices of the type [ty]. *)
Definition accepted (d : Dict) (u : Units) (pm : PointMap) : Prop :=
  NoDup (pd_Point <$> pm_Points pm) /\ Forall (point_valid d u (pm_AppliesTo pm)) (pm_Points pm).

(** What the loop over the points gives, for a builder whose pipelines and
    bindings are those of the map. *)
Lemma build_map {B} (name : B -> string) (wr : B -> bool) d u asset pm
    (mk : PointDef -> result gw_err (Pipeline * B)) (pipes : gmap string Pipeline) bs :
  (forall pd pl b, mk pd = Ok (pl, b) -> pipeline_ok d u asset pd pl /\
     name b = pd_Point pd /\ wr b = str_eqb (pd_Access pd) "rw") ->
  NoDup (pd_Point <$> pm_Points pm) -> build asset mk (pm_Points pm) ∅ = Ok (pipes, bs) ->
  (forall pd, In pd (pm_Points pm) -> exists pl, pipes !! pd_Point pd = Some pl /\ pipeline_ok d u asset pd pl) /\
  (forall k, is_Some (pipes !! k) -> In k (pd_Point <$> pm_Points pm)) /\
  (fun b => (name b, wr b)) <$> bs = table_of_map pm.
Proof.
  intros Hmk Hnd Hb. apply build_Ok in Hb as [Hf Hk]; [|done]. split; [|split].
  - intros pd [i Hi]%list_elem_of_In%list_elem_of_lookup.
    destruct (Forall2_lookup_l _ _ _ _ _ Hf Hi) as (b & _ & pl & Hm & Hp).
    exists pl. split; [done|]. by eapply Hmk.
  - intros k [pl Hpl]. destruct (In_dec string_dec k (pd_Point <$> pm_Points pm)); [done|].
    rewrite Hk in Hpl by done. by rewrite lookup_empty in Hpl.
  - unfold table_of_map. clear Hk Hnd. induction Hf as [|pd b pds bs' (pl & Hm & _) _ IH]; cbn; [done|].
    apply Hmk in Hm as (_ & -> & ->). by rewrite IH.
Qed.

Lemma NewPipeline_ok oor asset pm pd d u pl b : NewPipeline oor asset (Some pm) pd d u = Ok (pl, b) ->
  pipeline_ok d u asset pd pl /\ Modbus.b_Point b = pd_Point pd /\
  Modbus.b_Writable b = str_eqb (pd_Access pd) "rw".
Proof.
  unfold NewPipeline. intros H. apply bind_Ok in H as (pl' & Hp & H).
  apply bind_Ok in H as (b' & Hb & H). apply Ok_inj in H. injection H as <- <-.
  split; [by eapply newPipelineCore_ok|by eapply BuildFromPointDef_table].
Qed.

Lemma snmp_point_ok asset pm pd d u pl b : snmp_point asset pm d u pd = Ok (pl, b) ->
  pipeline_ok d u asset pd pl /\ sb_Point b = pd_Point pd /\ sb_Writable b = str_eqb (pd_Access pd) "rw".
Proof.
  unfold snmp_point. intros H. apply bind_Ok in H as (pl' & Hp & H).
  apply bind_Ok in H as (b' & Hb & H). apply Ok_inj in H. injection H as <- <-.
  split; [by eapply newPipelineCore_ok|by apply snmpBinding_table].
Qed.

Lemma NewPipeline_accepts oor d u ty a pm pd : is_asset d ty a -> point_valid d u ty pd ->
  (exists b, BuildFromPointDef oor pd = Ok b) ->
  exists r, NewPipeline oor (AssetPath_String a) (Some pm) pd d u = Ok r.
Proof.
  intros Ha Hv [b Hb]. destruct (newPipelineCore_accepts d u ty a pm pd Ha Hv) as [pl Hpl].
  unfold NewPipeline. rewrite Hpl, Hb. by eexists.
Qed.

Lemma snmp_point_accepts d u ty a pm pd : is_asset d ty a -> point_valid d u ty pd ->
  (exists b, snmpBindingFromProtocol pd = Ok b) ->
  exists r, snmp_point (AssetPath_String a) pm d u pd = Ok r.
Proof.
  intros Ha Hv [b Hb]. destruct (newPipelineCore_accepts d u ty a pm pd Ha Hv) as [pl Hpl].
  unfold snmp_point. rewrite Hpl, Hb. by eexists.
Qed.

Section bring_up.
Context {W PD : Type} `{FloatToInt} `{NetworkOk W} `{!Agent W} `{!Southbound PD W} `{!SouthboundOk PD W}.
Context (Join : string -> string -> string).
Context (plugin : Device -> option PD) (plugin_init : PD -> W -> PD * W).
Context (load : string -> Dict -> Units -> option PointMap * list pm_err).

Definition known_protocol (p : string) : Prop := p = EmptyString \/ p = "modbus" \/ p = "snmp".

(** The table of a freshly built driver. *)
Definition built_table (drv : Modbus.Driver + snmp_Driver) : list (string * bool) := sd_points drv.

Lemma build_driver_ok dev pm d u pipes drv :
  NoDup (pd_Point <$> pm_Points pm) -> build_driver dev pm d u = Ok (pipes, drv) ->
  (forall pd, In pd (pm_Points pm) -> exists pl, pipes !! pd_Point pd = Some pl /\
     pipeline_ok d u (dv_Asset dev) pd pl) /\
  (forall k, is_Some (pipes !! k) -> In k (pd_Point <$> pm_Points pm)) /\
  built_table drv = table_of_map pm.
Proof using Type.
  intros Hnd. unfold build_driver, built_table.
  destruct (_ || _); [|destruct (str_eqb _ _); [|done]]; intros Hb;
    apply bind_Ok in Hb as ([pipes1 bs] & Hb & Hr); apply Ok_inj in Hr; injection Hr as <- <-;
    [rewrite build_modbus_build in Hb|rewrite build_snmp_build in Hb].
  - eapply (build_map Modbus.b_Point Modbus.b_Writable); [|done|exact Hb].
    intros *. apply NewPipeline_ok.
  - eapply (build_map sb_Point sb_Writable); [|done|exact Hb]. intros *. apply snmp_point_ok.
Qed.

(** On an accepted map of the asset's type the only thing that can fail is a
    protocol section. *)
Lemma build_driver_total dev a pm d u : known_protocol (dv_Protocol dev) ->
  accepted d u pm -> is_asset d (pm_AppliesTo pm) a -> dv_Asset dev = AssetPath_String a ->
  Forall (bindable (dv_Protocol dev)) (pm_Points pm) ->
  exists r, build_driver dev pm d u = Ok r.
Proof using Type.
  intros Hpr [_ Hv] Ha Hd Hb. unfold build_driver. rewrite Hd.
  assert (Hboth : forall pd, In pd (pm_Points pm) ->
    point_valid d u (pm_AppliesTo pm) pd /\ bindable (dv_Protocol dev) pd)
    by (rewrite List.Forall_forall in Hv, Hb; auto).
  assert (Hm : str_eqb (dv_Protocol dev) "snmp" = false ->
    exists r, build_modbus (AssetPath_String a) pm (pm_Points pm) d u ∅ = Ok r).
  { intros Hn. rewrite build_modbus_build. apply build_total, List.Forall_forall.
    intros pd [Hvd Hbd]%Hboth. eapply NewPipeline_accepts; try done. unfold bindable in Hbd. by rewrite Hn in Hbd. }
  destruct Hpr as [Hp|[Hp|Hp]]; rewrite Hp in *.
  - destruct Hm as [[pipes bs] Hm]; [done|]. change (str_eqb EmptyString EmptyString || _) with true.
    cbn iota. rewrite Hm. by eexists.
  - destruct Hm as [[pipes bs] Hm]; [done|]. change (str_eqb "modbus" EmptyString || _) with true.
    cbn iota. rewrite Hm. by eexists.
  - change (str_eqb "snmp" EmptyString || _) with false. cbn iota. change (str_eqb "snmp" "snmp") with true.
    cbn iota. rewrite build_snmp_build.
    destruct (build_total (AssetPath_String a) (snmp_point (AssetPath_String a) pm d u) (pm_Points pm) ∅)
      as [[pipes bs] Hs]; [|rewrite Hs; by eexists].
    apply List.Forall_forall. intros pd [Hvd Hbd]%Hboth. by eapply snmp_point_accepts.
Qed.

Lemma init_driver_ok dev (drv : Modbus.Driver + snmp_Driver) w :
  let drv0 := match drv with inl m => inl m | inr n => inr (inl n) end in
  let r := init_driver plugin_init dev drv0 w in
  sd_points r.1 = sd_points drv /\ in_process r.1.
Proof using Type.
  destruct drv as [m|n]; cbn zeta; cbn [init_driver].
  - pose proof (Init_bindings false (dv_Endpoint dev) (dv_UnitID dev) m w) as Hb.
    destruct (Init _ _ _ m w) as [[m' w'] e]. cbn -[Init snmp_Init] in *. by rewrite Hb.
  - pose proof (snmp_Init_bindings false false (dv_Endpoint dev) (dv_Community dev) n w) as Hb.
    destruct (snmp_Init _ _ _ _ n w) as [[n' w'] e]. cbn -[Init snmp_Init] in *. by rewrite Hb.
Qed.

Lemma start_device_ok d u dev pm w w' gd :
  dv_PluginBinary dev = EmptyString -> accepted d u pm ->
  load (PointMapPath Join dev) d u = (Some pm, []) ->
  start_device Join plugin plugin_init load d u dev w = (w', Ok gd) ->
  device_ok in_process d u pm gd /\ gd_cfg gd = dev.
Proof using Type.
  intros Hpb [Hnd _] Hl. unfold start_device. rewrite Hl, Hpb. cbn [negb str_eqb].
  destruct (build_driver dev pm d u) as [[pipes drv]|e] eqn:Hb; [|done].
  apply build_driver_ok in Hb as (Hp & Hdom & Htab); [|done].
  pose proof (init_driver_ok dev drv w) as [Ht Hloc]. cbn zeta in *.
  change (str_eqb EmptyString EmptyString) with true. cbn [negb].
  destruct (init_driver _ _ _ _) as [drv' w1]. cbn [fst] in *. intros [= <- <-].
  split; [|done]. split; cbn -[sd_points]; try done. by rewrite Ht.
Qed.
Lemma start_device_total d u dev a pm w :
  dv_PluginBinary dev = EmptyString -> known_protocol (dv_Protocol dev) -> accepted d u pm ->
  is_asset d (pm_AppliesTo pm) a -> dv_Asset dev = AssetPath_String a ->
  load (PointMapPath Join dev) d u = (Some pm, []) -> Forall (bindable (dv_Protocol dev)) (pm_Points pm) ->
  exists w' gd, start_device Join plugin plugin_init load d u dev w = (w', Ok gd).
Proof using Type.
  intros Hpb Hk Hacc Ha Hd Hl Hb. destruct (build_driver_total dev a pm d u) as [[pipes drv] Hbd]; try done.
  unfold start_device. rewrite Hl, Hbd, Hpb. change (str_eqb EmptyString EmptyString) with true. cbn [negb].
  destruct (init_driver _ _ _ _) as [drv' w1]. by eexists _, _.
Qed.

Lemma build_driver_bindable dev pm d u r : known_protocol (dv_Protocol dev) ->
  NoDup (pd_Point <$> pm_Points pm) -> build_driver dev pm d u = Ok r ->
  Forall (bindable (dv_Protocol dev)) (pm_Points pm).
Proof using Type.
  intros Hk Hnd. unfold build_driver. assert (Hm : forall r', str_eqb (dv_Protocol dev) "snmp" = false ->
    build_modbus (dv_Asset dev) pm (pm_Points pm) d u ∅ = Ok r' ->
    Forall (bindable (dv_Protocol dev)) (pm_Points pm)).
  { intros [pipes bs] Hn Hb. rewrite build_modbus_build in Hb. apply build_Ok in Hb as [Hb _]; [|done].
    eapply Forall2_Forall_l; [exact Hb|]. apply Forall_true. intros b pd (pl & Hpl & _). unfold bindable.
    rewrite Hn. unfold NewPipeline in Hpl. apply bind_Ok in Hpl as (? & _ & Hpl).
    apply bind_Ok in Hpl as (b' & Hb' & _). by exists b'. }
  destruct Hk as [Hp|[Hp|Hp]]; rewrite Hp in *.
  1, 2: intros Hb; apply bind_Ok in Hb as (r' & Hb & _); by eapply Hm.
  intros Hb. change (str_eqb "snmp" EmptyString || _) with false in Hb. cbn iota in Hb.
  change (str_eqb "snmp" "snmp") with true in Hb. cbn iota in Hb.
  apply bind_Ok in Hb as ([pipes bs] & Hb & _). rewrite build_snmp_build in Hb.
  apply build_Ok in Hb as [Hb _]; [|done].
  eapply Forall2_Forall_l; [exact Hb|]. apply Forall_true. intros b pd (pl & Hpl & _). unfold bindable.
  unfold snmp_point in Hpl. apply bind_Ok in Hpl as (? & _ & Hpl).
  apply bind_Ok in Hpl as (b' & Hb' & _). by exists b'.
Qed.
End bring_up.

(** ** The lines of a round *)

(** The projection never names the heartbeat's metric: quantity names have no
    underscore, and the vocabulary has no quantity called pipeline. *)
Lemma metric_not_heartbeat d q name : proj_dict d -> d_Quantities d !! "pipeline" = None ->
  is_Some (d_Quantities d !! q) -> MetricName q d = Ok name -> name <> "cios_pipeline_heartbeat".
Proof.
  intros Hd Hp [def Hq] Hn ->. unfold MetricName, lookupQuantity in Hn. rewrite Hq in Hn.
  destruct (pd_quantity d Hd q def) as ([_ Hs]%seg_ok_spec & _); [by left|].
  apply alnum_no_underscore in Hs. destruct (str_eqb (qd_Unit def) "enum"); apply Ok_inj in Hn.
  - injection Hn as ->. done.
  - injection Hn as Hn. apply (f_equal (split "_")) in Hn. cbn [String.append] in Hn.
    rewrite split_app_sep in Hn by done. cbn in Hn. injection Hn as -> _. by rewrite Hp in Hq.
Qed.

Section lines.
Context (formatFloat : float64 -> string) (oor : float64 -> Z) (d : Dict) (u : Units).

Lemma Convert_line asset pd pl s : proj_dict d -> d_Quantities d !! "pipeline" = None ->
  pipeline_ok d u asset pd pl ->
  exists line, Convert formatFloat oor pl s = Ok line /\ has_prefix line "cios_pipeline_heartbeat{" = false.
Proof using Type.
  intros Hd Hp [Hdict _ Hok Hq Hm _ _ _ _]. unfold Convert, Render. rewrite Hdict.
  rewrite (proj2 (str_eqb_neq _ _)).
  2: { intros E. pose proof (pk_quantity_seg d _ Hok) as Hs. by rewrite E in Hs. }
  rewrite Hm. eexists. split; [reflexivity|]. apply not_true_iff_false. intros [r Hr]%has_prefix_split.
  pose proof (MetricName_text d _ _ Hd Hm) as [Hb _]. apply (f_equal (split "{")) in Hr.
  cbn [String.append] in Hr. rewrite split_app_sep in Hr by done.
  change (String "c" _) with ("cios_pipeline_heartbeat" +:+ String "{" r) in Hr.
  rewrite (split_app_sep "{" "cios_pipeline_heartbeat") in Hr by done. injection Hr as Hr _.
  by eapply metric_not_heartbeat.
Qed.

(** The line of a point: some sample of the point through its pipeline. *)
Definition point_line (asset : string) (pd : PointDef) (line : string) : Prop :=
  exists pl s, pipeline_ok d u asset pd pl /\ s_Point s = pd_Point pd /\
    Convert formatFloat oor pl s = Ok line.

Lemma convert_samples_all asset (pipes : gmap string Pipeline) pds : forall ss,
  proj_dict d -> d_Quantities d !! "pipeline" = None ->
  (forall pd, In pd pds -> exists pl, pipes !! pd_Point pd = Some pl /\ pipeline_ok d u asset pd pl) ->
  s_Point <$> ss = pd_Point <$> pds ->
  Forall2 (point_line asset) pds (convert_samples formatFloat oor pipes ss) /\
  existsb (fun l => has_prefix l "cios_pipeline_heartbeat{")
    (convert_samples formatFloat oor pipes ss) = false.
Proof using Type.
  induction pds as [|pd pds IH]; intros [|s ss] Hd Hp Hpipes Hss; try done.
  cbn in Hss. injection Hss as Hs Hss. destruct (Hpipes pd) as (pl & Hpl & Hok); [by left|].
  destruct (Convert_line asset pd pl s Hd Hp Hok) as (line & Hline & Hpre).
  destruct (IH ss Hd Hp) as [IH1 IH2]; [by intros ? ?; apply Hpipes; right|done|].
  unfold convert_samples. cbn [omap list_omap]. rewrite Hs, Hpl, Hline. split.
  - constructor; [|exact IH1]. by exists pl, s.
  - cbn [existsb]. by rewrite Hpre.
Qed.
End lines.

(** ** The gateway as a state machine

    What happens after the bring-up: ticks of the two kinds, control requests,
    and changes of the world. *)
Inductive gw_event (W : Type) : Type :=
  | EvPublish (t : time) (retired : gset string)
  | EvPost (t : time) (retired : gset string)
  | EvControl (gen : string) (r : http_request)
  | EvWorld (w : W).
Arguments EvPublish {W}. Arguments EvPost {W}. Arguments EvControl {W}. Arguments EvWorld {W}.

Section operation.
Context {D W P : Type} `{SouthboundOk D W} (local : D -> Prop) `{!Answering local}.
Context (formatFloat : float64 -> string) (oor : float64 -> Z) (d : Dict) (u : Units).
Context (publish : P -> TelemetryBatch -> P * bool).

Definition gw_state : Type := list (gatewayDevice D) * W * P.

(** One event; [token] is [None] when the control API is disabled. *)
Definition gw_step (site : string) (token : option string) (reg : gmap string controlTarget)
    (ev : gw_event W) (st : gw_state) : gw_state :=
  let '(devs, w, p) := st in
  match ev with
  | EvPublish t retired => publishBatch formatFloat oor publish site t retired devs w p
  | EvPost t retired => let '(devs, w, _) := postBatch formatFloat oor t retired devs w in (devs, w, p)
  | EvControl gen r =>
      match token with
      | None => st
      | Some token => let '(devs, w, _) := handle_set token gen reg r devs w in (devs, w, p)
      end
  | EvWorld w => (devs, w, p)
  end.

Definition gw_run (site : string) (token : option string) (reg : gmap string controlTarget)
    (evs : list (gw_event W)) (st : gw_state) : gw_state :=
  foldl (fun st ev => gw_step site token reg ev st) st evs.

(** What no event changes of a device. *)
Definition same_device (gd gd' : gatewayDevice D) : Prop :=
  gd_cfg gd' = gd_cfg gd /\ gd_pipes gd' = gd_pipes gd /\
  sd_points (gd_drv gd') = sd_points (gd_drv gd) /\ (local (gd_drv gd) -> local (gd_drv gd')).

#[export] Instance same_device_preorder : PreOrder same_device.
Proof using Type.
  split; [by intros gd|]. intros a b c (H1 & H2 & H3 & H4) (H5 & H6 & H7 & H8).
  split_and!; [congruence..|auto].
Qed.

Lemma device_ok_same pm gd gd' : same_device gd gd' -> device_ok local d u pm gd -> device_ok local d u pm gd'.
Proof using Type.
  intros (Hc & Hp & Hs & Hl) [H1 H2 H3 H4 H5]. split; rewrite ?Hc, ?Hp, ?Hs; auto.
Qed.

Lemma collect_same gd w drv w' r : sd_Collect (gd_drv gd) w = (drv, w', r) -> same_device gd (with_drv gd drv).
Proof.
  intros Hc. split_and!; try done; cbn; [by eapply sd_collect_table|]. intros Hl.
  destruct (answers (gd_drv gd) w Hl) as (? & ? & ? & E & ?). congruence.
Qed.

Lemma device_batch_same site t retired gd w gd' w' b :
  device_batch formatFloat oor site t retired gd w = (gd', w', b) -> same_device gd gd'.
Proof.
  unfold device_batch. destruct (bool_decide _); [by intros [= <- <- <-]|].
  destruct (sd_Collect (gd_drv gd) w) as [[drv w1] [ss|]] eqn:Hc; intros [= <- <- <-]; by eapply collect_same.
Qed.

Lemma device_body_same t retired gd w gd' w' b :
  device_body formatFloat oor t retired gd w = (gd', w', b) -> same_device gd gd'.
Proof.
  unfold device_body. destruct (bool_decide _); [by intros [= <- <- <-]|].
  destruct (sd_Collect (gd_drv gd) w) as [[drv w1] [ss|]] eqn:Hc; intros [= <- <- <-]; by eapply collect_same.
Qed.

Lemma publishBatch_same site t retired devs : forall w p devs' w' p',
  publishBatch formatFloat oor publish site t retired devs w p = (devs', w', p') ->
  Forall2 same_device devs devs'.
Proof.
  induction devs as [|gd devs IH]; intros w p devs' w' p' Hr; cbn in Hr; [by injection Hr as <- _ _|].
  destruct (device_batch _ _ _ _ _ gd w) as [[gd1 w1] b] eqn:Hb.
  destruct (publishBatch _ _ _ _ _ _ devs w1 _) as [[devs1 w2] p1] eqn:Hp. injection Hr as <- _ _.
  constructor; [by eapply device_batch_same|by eapply IH].
Qed.

Lemma post_lines_same t retired devs : forall w devs' w' ls,
  post_lines formatFloat oor t retired devs w = (devs', w', ls) -> Forall2 same_device devs devs'.
Proof.
  induction devs as [|gd devs IH]; intros w devs' w' ls Hr; cbn in Hr; [by injection Hr as <- _ _|].
  destruct (device_body _ _ _ _ gd w) as [[gd1 w1] b] eqn:Hb.
  destruct (post_lines _ _ _ _ devs w1) as [[devs1 w2] rest] eqn:Hp. injection Hr as <- _ _.
  constructor; [by eapply device_body_same|by eapply IH].
Qed.

Lemma same_devices_refl devs : Forall2 same_device devs devs.
Proof using Type. apply Forall_Forall2_diag, Forall_true. by intros gd. Qed.

(** A write through the registry: the devices keep their tables, and it has
    an effect only on a point that its device's table declares writable. *)
Lemma control_write_guard reg path value id ttl devs w devs' w' r :
  control_write reg path value id ttl devs w = (devs', w', r) ->
  Forall2 same_device devs devs' /\
  ((devs' = devs /\ w' = w /\ (forall res ok, r = Some (res, ok) -> r_Accepted res = false)) \/
   exists t gd, reg !! path = Some t /\ devs !! ct_dev t = Some gd /\
     In (ct_relPoint t, true) (sd_points (gd_drv gd))).
Proof.
  unfold control_write. destruct (reg !! path) as [tg|] eqn:Hreg.
  2: { intros [= <- <- <-]. split; [apply same_devices_refl|by left]. }
  destruct (devs !! ct_dev tg) as [gd|] eqn:Hgd.
  2: { intros [= <- <- <-]. split; [apply same_devices_refl|by left]. }
  destruct (sd_Write _ (gd_drv gd) w) as [[drv w1] [res ok]] eqn:Hw. intros [= <- <- <-]. split.
  - assert (Hs : same_device gd (with_drv gd drv)).
    { split_and!; try done; cbn; [by eapply sd_write_table|]. intros Hl. by eapply write_local. }
    rewrite <- (list_insert_id devs (ct_dev tg) gd) at 1 by done.
    by apply Forall2_insert; [apply same_devices_refl|].
  - apply sd_write_guard in Hw as [(-> & -> & Hres)|Hin]; [left|right; by exists tg, gd].
    split; [|split; [done|by intros ? ? [= <- <-]]].
    apply list_insert_id. rewrite Hgd. f_equal. by destruct gd.
Qed.

Lemma handle_set_same token gen reg r devs w devs' w' res :
  handle_set token gen reg r devs w = (devs', w', res) -> Forall2 same_device devs devs'.
Proof.
  unfold handle_set. repeat (case_match; try (intros [= <- <- <-]; apply same_devices_refl)).
  all: intros [= <- <- <-]; by eapply control_write_guard.
Qed.

Lemma gw_step_same site token reg ev st : Forall2 same_device st.1.1 (gw_step site token reg ev st).1.1.
Proof.
  destruct st as [[devs w] p], ev as [t retired|t retired|gen r|w1]; cbn.
  - destruct (publishBatch _ _ _ _ _ _ _ _ _) as [[devs' w'] p'] eqn:E. by eapply publishBatch_same.
  - unfold postBatch. destruct (post_lines _ _ _ _ _ _) as [[devs' w'] ls] eqn:E. by eapply post_lines_same.
  - destruct token; [|apply same_devices_refl].
    destruct (handle_set _ _ _ _ _ _) as [[devs' w'] res] eqn:E. by eapply handle_set_same.
  - apply same_devices_refl.
Qed.

Lemma gw_run_same site token reg evs : forall st, Forall2 same_device st.1.1 (gw_run site token reg evs st).1.1.
Proof.
  induction evs as [|ev evs IH]; intros st; [apply same_devices_refl|].
  cbn [gw_run foldl]. etrans; [apply (gw_step_same site token reg ev)|apply IH].
Qed.
End operation.

(** ** The registry *)

Section registry.
Context {D : Type}.

Lemma register_points asset i rels : forall (reg : gmap string controlTarget) path tg,
  foldl (fun reg rel => register asset rel i reg) reg rels !! path = Some tg ->
  reg !! path = Some tg \/
  (tg = mkTarget i (ct_relPoint tg) asset /\ In (ct_relPoint tg) rels /\
   path = asset +:+ "." +:+ ct_relPoint tg).
Proof.
  induction rels as [|rel rels IH]; intros reg path tg H; cbn in H; [by left|].
  apply IH in H as [H|(H1 & H2 & H3)]; [|right; split; [done|]; split; [by right|done]].
  unfold register in H. destruct (_ || _); [by left|].
  apply lookup_insert_Some in H as [[<- <-]|[_ H]]; [right|by left]. cbn. auto.
Qed.

(** An entry of the registry names a device and one of its pipelines. *)
Lemma register_all_entry (devs : list (gatewayDevice D)) : forall i reg path tg,
  register_all i devs reg !! path = Some tg ->
  reg !! path = Some tg \/
  exists gd, devs !! (ct_dev tg - i) = Some gd /\ i <= ct_dev tg /\
    is_Some (gd_pipes gd !! ct_relPoint tg) /\
    path = dv_Asset (gd_cfg gd) +:+ "." +:+ ct_relPoint tg.
Proof.
  induction devs as [|gd devs IH]; intros i reg path tg H; cbn in H; [by left|].
  apply IH in H as [H|(gd' & H1 & H2 & H3 & H4)].
  - apply register_points in H as [H|(Htg & Hin & Hp)]; [by left|right]. exists gd.
    rewrite Htg. cbn. rewrite Nat.sub_diag. split; [done|]. split; [done|]. split; [|done].
    apply list_elem_of_In, list_elem_of_fmap in Hin as ([k pl] & -> & Hkv).
    apply elem_of_map_to_list in Hkv. by exists pl.
  - right. exists gd'. split; [|split; [lia|done]].
    replace (ct_dev tg - i) with (S (ct_dev tg - (i + 1))) by lia. done.
Qed.
End registry.

(** A request that has an effect, or is answered as accepted, is an
    authenticated POST for a registered point that its device's table declares
    writable. *)
Lemma handle_set_guard {D W} `{SouthboundOk D W} (local : D -> Prop) `{!Answering local}
    token gen reg r (devs : list (gatewayDevice D)) (w : W) devs' w' st acc rb :
  handle_set token gen reg r devs w = (devs', w', (st, acc, rb)) ->
  (devs' = devs /\ w' = w /\ acc = false) \/
  hr_method r = "POST" /\ controlTokenOK (controlTokenFromRequest r) token = true /\
  exists req tg gd, hr_body r = Some req /\ reg !! cs_Path req = Some tg /\ devs !! ct_dev tg = Some gd /\
    In (ct_relPoint tg, true) (sd_points (gd_drv gd)).
Proof.
  unfold handle_set. destruct (str_eqb (hr_method r) "POST") eqn:Hm; cbn [negb];
    [apply str_eqb_eq in Hm|intros [= <- <- <- <- <-]; by left].
  destruct (controlTokenOK _ _) eqn:Ht; cbn [negb]; [|intros [= <- <- <- <- <-]; by left].
  destruct (hr_body r) as [req|]; [|intros [= <- <- <- <- <-]; by left].
  destruct (str_eqb (cs_Path req) _); [intros [= <- <- <- <- <-]; by left|].
  destruct (control_write _ _ _ _ _ devs w) as [[devs1 w1] r1] eqn:Hw.
  apply (control_write_guard local) in Hw as [_ [(-> & -> & Hacc)|(tg & gd & Hr & Hd & Hin)]].
  - intros Heq. left. destruct r1 as [[res [|]]|]; cbn [negb] in Heq; injection Heq; intros; subst; try done.
    split_and!; try done. by eapply Hacc.
  - intros _. right. split; [done|]. split; [done|]. by exists req, tg, gd.
Qed.

(** ** From the bring-up on *)

Section gateway.
Context {W PD : Type} `{FloatToInt} `{NetworkOk W} `{!Agent W} `{!Southbound PD W} `{!SouthboundOk PD W}.
Context (Join : string -> string -> string) (plugin : Device -> option PD) (plugin_init : PD -> W -> PD * W).
Context (ParseFloat : string -> option float64) (ReadFile : list string -> option string)
  (as_doc : string -> option doc).

Abbreviation driver := (Modbus.Driver + (snmp_Driver + PD))%type.
Definition load_map (path : string) (d : Dict) (u : Units) : option PointMap * list pm_err :=
  Load ParseFloat float_to_int ReadFile as_doc [path] d u.

Lemma load_map_accepted path d u pm : types_ok d -> load_map path d u = (Some pm, []) -> accepted d u pm.
Proof.
  intros Hd Hl. apply (proj1 (load_accepts _ _ _ _ _ _ _ _ Hd)) in Hl as (raw & x & Hl).
  destruct Hl as (_ & _ & _ & _ & _ & _ & _ & _ & _ & _ & ? & ?). done.
Qed.

(** A device runs the map of its configuration. *)
Definition runs_map (d : Dict) (u : Units) (pm : PointMap) (gd : gatewayDevice driver) : Prop :=
  load_map (PointMapPath Join (gd_cfg gd)) d u = (Some pm, []) /\ accepted d u pm /\
  device_ok in_process d u pm gd.

Lemma start_devices_ok d u devs : forall w w' gds, types_ok d ->
  Forall (fun dev => dv_PluginBinary dev = EmptyString) devs ->
  start_devices Join plugin plugin_init load_map d u devs w = (w', Ok gds) ->
  gd_cfg <$> gds = devs /\ Forall (fun gd => exists pm, runs_map d u pm gd) gds.
Proof.
  induction devs as [|dev devs IH]; intros w w' gds Hd Hpb Hs; cbn in Hs; [by injection Hs as <- <-|].
  inv Hpb. destruct (start_device _ _ _ _ _ _ dev w) as [w1 [gd|e]] eqn:Hgd; [|done].
  destruct (start_devices _ _ _ _ _ _ devs w1) as [w2 [gds'|e]] eqn:Hds; [|done]. injection Hs as <- <-.
  apply IH in Hds as [Hc Hall]; [|done..].
  assert (Hl : exists pm, load_map (PointMapPath Join dev) d u = (Some pm, [])).
  { unfold start_device in Hgd. destruct (load_map _ _ _) as [[pm|] [|??]]; try done. by exists pm. }
  destruct Hl as [pm Hl]. pose proof (load_map_accepted _ _ _ _ Hd Hl) as Hacc.
  apply (start_device_ok _ _ _ _ _ _ _ pm) in Hgd as [Hok Hcfg]; [|done..].
  split; [by rewrite fmap_cons, Hcfg, Hc|]. constructor; [|done]. exists pm. by rewrite <- Hcfg in Hl.
Qed.

Definition gateway_up (lower : N -> N) (lookup : string -> list bool) (load_dict : string -> result load_err Dict)
    (load_units : string -> result units_err Units) (cfg : Config) (listen token : string) (w : W) :=
  bring_up Join plugin plugin_init load_map lower lookup load_dict load_units cfg listen token w.

Lemma bring_up_ok lower lookup load_dict load_units cfg listen token w w' gds reg tok d u :
  load_dict (cf_ProtocolDir cfg) = Ok d -> load_units (cf_ProtocolDir cfg) = Ok u -> types_ok d ->
  Forall (fun dev => dv_PluginBinary dev = EmptyString) (cf_Devices cfg) ->
  gateway_up lower lookup load_dict load_units cfg listen token w = (w', Ok (gds, reg, tok)) ->
  gd_cfg <$> gds = cf_Devices cfg /\ Forall (fun gd => exists pm, runs_map d u pm gd) gds /\
  reg = register_all 0 gds ∅ /\
  (forall t, tok = Some t -> t = TrimSpace token /\ t <> EmptyString).
Proof.
  unfold gateway_up, bring_up. intros -> -> Hd Hpb.
  destruct (start_devices _ _ _ _ _ _ _ w) as [w1 [gds'|e]] eqn:Hs; [|done].
  destruct gds' as [|gd0 gds0]; [done|].
  destruct (startControlServer _ _ _ _) as [tok'|e] eqn:Hc; [|done]. intros [= <- <- <- <-].
  apply start_devices_ok in Hs as [Hcfg Hall]; [|done..]. split_and!; try done.
  intros t ->. unfold startControlServer in Hc. destruct (str_eqb (TrimSpace listen) _); [done|].
  destruct (str_eqb (TrimSpace token) _) eqn:Ht; [done|]. destruct (negb _); [done|].
  injection Hc as <-. by apply str_eqb_neq in Ht.
Qed.
Lemma runs_map_same d u pm gd gd' : same_device in_process gd gd' -> runs_map d u pm gd -> runs_map d u pm gd'.
Proof.
  intros Hs (Hl & Hacc & Hok). split; [|split; [done|by eapply device_ok_same]].
  by destruct Hs as (-> & _).
Qed.

Context {P : Type} (publish : P -> TelemetryBatch -> P * bool) (formatFloat : float64 -> string).

(** What the devices look like after any events that follow the bring-up. *)
Lemma running_ok lower lookup load_dict load_units cfg listen token w0 w gds reg tok d u site evs p devs w1 p1 :
  load_dict (cf_ProtocolDir cfg) = Ok d -> load_units (cf_ProtocolDir cfg) = Ok u -> types_ok d ->
  Forall (fun dev => dv_PluginBinary dev = EmptyString) (cf_Devices cfg) ->
  gateway_up lower lookup load_dict load_units cfg listen token w0 = (w, Ok (gds, reg, tok)) ->
  gw_run formatFloat float_to_int publish site tok reg evs (gds, w, p) = (devs, w1, p1) ->
  gd_cfg <$> devs = cf_Devices cfg /\ Forall (fun gd => exists pm, runs_map d u pm gd) devs /\
  reg = register_all 0 gds ∅ /\ Forall2 (same_device in_process) gds devs.
Proof.
  intros Hd Hu Ht Hpb Hup Hrun.
  eapply bring_up_ok in Hup as (Hcfg & Hall & Hreg & _); [|exact Hd|exact Hu|done..].
  pose proof (gw_run_same in_process formatFloat float_to_int publish site tok reg evs (gds, w, p)) as Hsame.
  rewrite Hrun in Hsame. cbn in Hsame. split_and!; try done.
  - rewrite <- Hcfg. clear -Hsame. induction Hsame as [|gd gd' gds devs (Hc & _) _ IH]; [done|].
    by rewrite !fmap_cons, Hc, IH.
  - clear -Hsame Hall. induction Hsame as [|gd gd' gds devs Hs _ IH]; [done|]. inv Hall.
    constructor; [|by apply IH]. rename select (exists pm, _) into Hpm. destruct Hpm as [pm Hpm].
    exists pm. by eapply runs_map_same.
Qed.

(** The batch a device owes the publisher at a tick. *)
Definition complete_batch (d : Dict) (u : Units) (site : string) (t : time) (gd : gatewayDevice driver)
    (b : TelemetryBatch) : Prop :=
  let asset := dv_Asset (gd_cfg gd) in
  exists pm lines, runs_map d u pm gd /\
    Forall2 (point_line formatFloat float_to_int d u asset) (pm_Points pm) lines /\
    b = mkBatch site (topAssetOf asset) t "promtext"
          (lines ++ [pipelineHeartbeatLine site asset (topAssetOf asset) (leafType asset) t]).

Lemma device_batch_complete d u site t retired pm gd w gd' w' b :
  proj_dict d -> d_Quantities d !! "pipeline" = None -> runs_map d u pm gd ->
  device_batch formatFloat float_to_int site t retired gd w = (gd', w', b) ->
  if decide (dv_Asset (gd_cfg gd) ∈ retired) then b = None
  else exists b', b = Some b' /\ complete_batch d u site t gd b'.
Proof.
  intros Hd Hp Hr. pose proof Hr as (_ & _ & [Hnd Htab Hpipes Hdom Hloc]). unfold device_batch.
  destruct (decide _) as [Hin|Hin]; [rewrite bool_decide_eq_true_2 by done; by intros [= <- <- <-]|].
  rewrite bool_decide_eq_false_2 by done.
  destruct (answers (gd_drv gd) w Hloc) as (drv & w1 & ss & Hc & _). rewrite Hc. intros [= <- <- <-].
  apply sd_collect_all in Hc. rewrite Htab in Hc. unfold table_of_map in Hc.
  rewrite <- list_fmap_compose in Hc.
  destruct (convert_samples_all formatFloat float_to_int d u (dv_Asset (gd_cfg gd)) (gd_pipes gd) (pm_Points pm) ss
    Hd Hp Hpipes Hc) as [Hlines Hno].
  set (lines := convert_samples _ _ _ _) in *. unfold appendHeartbeat.
  replace (existsb _ lines) with false.
  2: { symmetry. clear -Hno. induction lines as [|l ls IH]; [done|]. cbn [existsb] in *. bool_simpl.
       - by rewrite H0.
       - by apply IH. }
  rewrite (proj2 (Nat.eqb_neq _ _)) by (rewrite length_app; cbn; lia).
  eexists. split; [reflexivity|]. by exists pm, lines.
Qed.

Lemma publishBatch_complete d u site t retired : proj_dict d -> d_Quantities d !! "pipeline" = None ->
  forall devs w p devs' w' p', Forall (fun gd => exists pm, runs_map d u pm gd) devs ->
  publishBatch formatFloat float_to_int publish site t retired devs w p = (devs', w', p') ->
  exists bs, p' = foldl (fun p b => (publish p b).1) p bs /\
    Forall2 (complete_batch d u site t)
      (filter (fun gd => dv_Asset (gd_cfg gd) ∉ retired) devs) bs.
Proof.
  intros Hd Hp. induction devs as [|gd devs IH]; intros w p devs' w' p' Hall Hr; cbn [publishBatch] in Hr.
  { injection Hr as _ _ <-. exists []. split; [done|constructor]. }
  inv Hall. rename select (exists pm, _) into Hpm. destruct Hpm as [pm Hpm].
  destruct (device_batch _ _ _ _ _ gd w) as [[gd1 w1] b] eqn:Hb.
  destruct (publishBatch _ _ _ _ _ _ devs w1 _) as [[devs1 w2] p1] eqn:Hrest. injection Hr as _ _ <-.
  apply IH in Hrest as (bs & Hbs & Hf); [|done].
  eapply device_batch_complete in Hb; [|done..]. rewrite filter_cons.
  destruct (decide (dv_Asset (gd_cfg gd) ∈ retired)) as [Hin|Hin].
  - subst b. rewrite decide_False by tauto. by exists bs.
  - destruct Hb as (b' & -> & Hb'). rewrite decide_True by done. exists (b' :: bs). split; [done|]. by constructor.
Qed.
End gateway.

Section claims.
Context {W PD P : Type} `{FloatToInt} `{NetworkOk W} `{!Agent W} `{!Southbound PD W} `{!SouthboundOk PD W}.
Context (Join : string -> string -> string) (plugin : Device -> option PD) (plugin_init : PD -> W -> PD * W).
Context (ParseFloat : string -> option float64) (ReadFile : list string -> option string)
  (as_doc : string -> option doc).
Context (publish : P -> TelemetryBatch -> P * bool) (formatFloat : float64 -> string).

Abbreviation load := (load_map ParseFloat ReadFile as_doc).
Abbreviation up := (gateway_up Join plugin plugin_init ParseFloat ReadFile as_doc).
Abbreviation runs := (runs_map Join ParseFloat ReadFile as_doc).

(** Bring-up of a device: for a device whose asset is of the type the map
    applies to, a point map that the loader accepted starts exactly when every
    protocol section gives a binding of the device's protocol; the device then
    has one pipeline per point, with the point's full address, and a binding
    table in the order of the map that is writable exactly at the read-write
    points. *)
Lemma accepted_device_starts d u dev a pm w :
  types_ok d -> dv_PluginBinary dev = EmptyString -> known_protocol (dv_Protocol dev) ->
  ParseAssetPath d (dv_Asset dev) = Ok a -> last_type (ap_Nodes a) = Some (pm_AppliesTo pm) ->
  load (PointMapPath Join dev) d u = (Some pm, []) ->
  ((exists w' gd, start_device Join plugin plugin_init load d u dev w = (w', Ok gd)) <->
   Forall (bindable (dv_Protocol dev)) (pm_Points pm)) /\
  forall w' gd, start_device Join plugin plugin_init load d u dev w = (w', Ok gd) ->
    device_ok in_process d u pm gd /\ gd_cfg gd = dev.
Proof.
  intros Hd Hpb Hk Ha Hlast Hl. pose proof (load_map_accepted _ _ _ _ _ _ _ Hd Hl) as Hacc.
  apply asset_path_iff in Ha as [Haok Hs]. split; [split|].
  - intros (w' & gd & Hst). unfold start_device in Hst. rewrite Hl in Hst.
    destruct (build_driver dev pm d u) as [r|e] eqn:Hb; [|done].
    eapply build_driver_bindable; [done|apply Hacc|exact Hb].
  - intros Hb. by eapply start_device_total.
  - intros w' gd. by eapply start_device_ok.
Qed.

(** Completeness of telemetry: after a bring-up whose devices run in the
    gateway, and after any sequence of ticks, control requests and changes of
    the world, a tick hands the publisher one batch per device that is not
    retired, in the configured order; the batch has exactly one line for each
    point of the device's map, in the map's order, whatever the device
    answered, and ends with the heartbeat of the asset. *)
Lemma tick_complete lower lookup load_dict load_units cfg listen token w0 w gds reg tok d u evs p
    devs w1 p1 t retired devs2 w2 p2 :
  load_dict (cf_ProtocolDir cfg) = Ok d -> load_units (cf_ProtocolDir cfg) = Ok u -> types_ok d ->
  proj_dict d -> d_Quantities d !! "pipeline" = None ->
  Forall (fun dev => dv_PluginBinary dev = EmptyString) (cf_Devices cfg) ->
  up lower lookup load_dict load_units cfg listen token w0 = (w, Ok (gds, reg, tok)) ->
  gw_run formatFloat float_to_int publish (cf_Site cfg) tok reg evs (gds, w, p) = (devs, w1, p1) ->
  publishBatch formatFloat float_to_int publish (cf_Site cfg) t retired devs w1 p1 = (devs2, w2, p2) ->
  gd_cfg <$> devs = cf_Devices cfg /\
  exists bs, p2 = foldl (fun p b => (publish p b).1) p1 bs /\
    Forall2 (complete_batch Join ParseFloat ReadFile as_doc formatFloat d u (cf_Site cfg) t)
      (filter (fun gd => dv_Asset (gd_cfg gd) ∉ retired) devs) bs.
Proof.
  intros Hd Hu Ht Hpd Hpipe Hpb Hup Hrun Hpub.
  eapply running_ok in Hrun as (Hcfg & Hall & _); [|exact Hd|exact Hu|done..].
  split; [done|]. by eapply publishBatch_complete.
Qed.

End claims.


(** ** A concrete gateway

    One Modbus and one SNMP device over a world made of a scripted peer and a
    simulated agent; no device has a plugin. *)
Definition demo_world : Type := scripted * agent_sim.

#[export] Instance demo_world_network : Network demo_world := {|
  now w := let '(s, t) := now w.1 in ((s, w.2), t);
  dial w e := let '(s, r) := dial w.1 e in ((s, w.2), r);
  set_deadline w := let '(s, r) := set_deadline w.1 in ((s, w.2), r);
  send w bs := let '(s, r) := send w.1 bs in ((s, w.2), r);
  recv w n := let '(s, r) := recv w.1 n in ((s, w.2), r)
|}.

#[export] Instance demo_world_ok : NetworkOk demo_world.
Proof.
  intros [s a] n w' bs. cbn -[scripted_network]. destruct (recv s n) as [s' r] eqn:E.
  intros [= <- ->]. by eapply recv_full.
Qed.

#[export] Instance demo_world_agent : Agent demo_world := {|
  a_now w := let '(s, t) := a_now w.2 in ((w.1, s), t);
  a_connect w h p c := let '(s, r) := a_connect w.2 h p c in ((w.1, s), r);
  a_get w oid := let '(s, r) := a_get w.2 oid in ((w.1, s), r);
  a_set w oid b v := let '(s, r) := a_set w.2 oid b v in ((w.1, s), r)
|}.

#[export] Instance no_plugin : Southbound Empty_set demo_world := {|
  sd_points (d : Empty_set) := match d with end;
  sd_Collect (d : Empty_set) := match d with end;
  sd_Write _ (d : Empty_set) := match d with end
|}.
#[export] Instance no_plugin_ok : SouthboundOk Empty_set demo_world.
Proof. split; intros; by match goal with x : Empty_set |- _ => destruct x end. Qed.

#[export] Instance demo_float_to_int : FloatToInt := PointMap.demo_oor.

Definition demo_snmp_doc : doc := mkDoc "PointMap" "cdu-y" "snmp" "cdu"
  [Some (<["point" := YStr "flow"]> (<["access" := YStr "rw"]> (<["risk_class" := YStr "a"]>
   (<["limits" := YMap [("max", YInt 90); ("min", YInt 10)]]> (<["readback" := YStr "flow"]>
   (<["oid" := YStr "1.3.2"]> (<["kind" := YStr "gauge"]> ∅)))))))].

Definition demo_files (path : list string) : option string :=
  if bool_decide (path = ["/etc/cdu.yaml"]) then Some "modbus"
  else if bool_decide (path = ["/etc/snmp.yaml"]) then Some "snmp" else None.
Definition demo_as_doc (raw : string) : option doc :=
  Some (if str_eqb raw "modbus" then demo_doc else demo_snmp_doc).

Definition demo_dev1 : Device :=
  mkDevice "sgp01.pod002.cdu007" "cdu.yaml" "10.0.0.4:502" "1" EmptyString "modbus" EmptyString "/etc".
Definition demo_dev2 : Device :=
  mkDevice "sgp01.pod002.cdu008" "snmp.yaml" "10.0.0.5" "1" EmptyString "snmp" "public" "/etc".
Definition demo_cfg : Config :=
  mkConfig "sgp01" "/etc/protocol" "http://vm/write" (10 * Second) [demo_dev1; demo_dev2] None.
Definition demo_w0 : demo_world := (mkScripted demo_stream 0, demo_agent_sim []).

Definition demo_join (a b : string) : string := a +:+ "/" +:+ b.
Definition demo_publish (p : list TelemetryBatch) (b : TelemetryBatch) : list TelemetryBatch * bool := (p ++ [b], true).

Abbreviation demo_up := (gateway_up demo_join (fun _ => None) (fun (p : Empty_set) (w : demo_world) => (p, w))
  demo_parse demo_files demo_as_doc (fun r => r) (fun _ => []) (fun _ => Ok demo_ext_dict)
  (fun _ => Ok demo_units) demo_cfg "127.0.0.1:9000" "secret" demo_w0).

Definition demo_set (path : string) (v : float64) : http_request :=
  mkHttpRequest "POST" "secret" EmptyString (Some (mkSetRequest path v "r1" 5)).
Definition minute1 : time := (1000000 * Hour + Minute)%Z.
Definition demo_set_events : list (gw_event demo_world) :=
  [EvPublish minute1 ∅; EvControl "g" (demo_set "sgp01.pod002.cdu008.flow" (f_of_Z 55));
   EvWorld (mkScripted write_stream 7, demo_agent_sim []); EvPost (minute1 + Minute)%Z ∅].

Lemma demo_ext_proj : proj_dict demo_ext_dict.
Proof.
  split.
  - intros q def [H|H]; cbn in H;
      repeat (apply lookup_insert_Some in H as [[<- <-]|[_ H]]; [by vm_compute|]);
      by rewrite lookup_empty in H.
  - intros w [<-|[<-|[<-|[]]]]; vm_compute; done.
  - intros k [v H]. cbn in H. by rewrite lookup_empty in H.
Qed.

Definition metric_of (line : string) : string := default EmptyString (head (split "{" line)).

Example demo_gateway_lines :
  match demo_up with
  | (w, Ok (gds, reg, tok)) =>
      let '(_, _, p) := gw_run demo_format float_to_int demo_publish "sgp01" tok reg
        [EvPublish minute1 ∅] (gds, w, []) in (fun b => metric_of <$> tb_Lines b) <$> p
  | _ => []
  end = [["cios_temp_celsius"; "cios_flow_lpm"; "cios_status"; "cios_pipeline_heartbeat"];
         ["cios_flow_lpm"; "cios_pipeline_heartbeat"]].
Proof. vm_compute. reflexivity. Qed.

(** A set that the agent carried out, whose read-back is then lost, is answered
    as an unknown point: the world has the new value, the caller is told that
    nothing was accepted. *)
Example lost_readback_is_not_found :
  match demo_up with
  | (w, Ok (gds, reg, tok)) =>
      let '(_, w', (st, acc, _)) := handle_set "secret" "g" reg (demo_set "sgp01.pod002.cdu008.flow" (f_of_Z 55))
        gds (w.1, demo_agent_sim [false; true]) in
      (st, acc, ag_table w'.2 !! "1.3.2")
  | _ => (COk, false, None)
  end = (CNotFound, false, Some 55%Z).
Proof. vm_compute. reflexivity. Qed.

(** The state after the demonstration's events. *)
Lemma demo_up_ok : exists w gds reg tok, demo_up = (w, Ok (gds, reg, tok)).
Proof. vm_compute. by eexists _, _, _, _. Qed.

Lemma tick_complete_witness : exists w gds reg tok bs,
  demo_up = (w, Ok (gds, reg, tok)) /\
  let '(devs, w1, p1) := gw_run demo_format float_to_int demo_publish "sgp01" tok reg demo_set_events (gds, w, []) in
  (publishBatch demo_format float_to_int demo_publish "sgp01" (minute1 + Hour)%Z
     {["sgp01.pod002.cdu007"]} devs w1 p1).2 = foldl (fun p b => (demo_publish p b).1) p1 bs /\
  length bs = 1.
Proof.
  destruct demo_up_ok as (w & gds & reg & tok & Hup). exists w, gds, reg, tok.
  destruct (gw_run demo_format float_to_int demo_publish "sgp01" tok reg demo_set_events (gds, w, []))
    as [[devs w1] p1] eqn:Hrun.
  destruct (publishBatch demo_format float_to_int demo_publish "sgp01" (minute1 + Hour)%Z
     {["sgp01.pod002.cdu007"]} devs w1 p1) as [[devs2 w2] p2] eqn:Hpub.
  destruct (tick_complete demo_join (fun _ => None) (fun (p : Empty_set) (w : demo_world) => (p, w))
    demo_parse demo_files demo_as_doc demo_publish demo_format (fun r => r) (fun _ => [])
    (fun _ => Ok demo_ext_dict) (fun _ => Ok demo_units) demo_cfg "127.0.0.1:9000" "secret" demo_w0
    w gds reg tok demo_ext_dict demo_units demo_set_events [] devs w1 p1 (minute1 + Hour)%Z
    {["sgp01.pod002.cdu007"]} devs2 w2 p2 eq_refl eq_refl demo_types_ok demo_ext_proj eq_refl
    ltac:(repeat constructor) Hup Hrun Hpub) as (Hcfg & bs & Hp2 & Hbs).
  exists bs. split; [done|]. split; [exact Hp2|].
  rewrite <- (Forall2_length _ _ _ Hbs).
  destruct devs as [|g1 [|g2 [|? ?]]]; try discriminate Hcfg. injection Hcfg as H1 H2.
  rewrite !filter_cons, H1, H2. vm_compute. reflexivity.
Defined.

Lemma demo_set_accepted :
  match demo_up with
  | (w, Ok (gds, reg, _)) =>
      (handle_set "secret" "g" reg (demo_set "sgp01.pod002.cdu008.flow" (f_of_Z 55)) gds w).2.1.2
  | _ => false
  end = true.
Proof. vm_compute. reflexivity. Qed.


Lemma accepted_device_starts_witness :
  exists pm w' gd, load_map demo_parse demo_files demo_as_doc "/etc/cdu.yaml" demo_ext_dict demo_units = (Some pm, []) /\
    start_device demo_join (fun _ => None) (fun (p : Empty_set) (w : demo_world) => (p, w))
      (load_map demo_parse demo_files demo_as_doc) demo_ext_dict demo_units demo_dev1 demo_w0 = (w', Ok gd) /\
    device_ok in_process demo_ext_dict demo_units pm gd.
Proof.
  destruct (load_map demo_parse demo_files demo_as_doc "/etc/cdu.yaml" demo_ext_dict demo_units)
    as [[pm|] [|e es]] eqn:Hl; try (vm_compute in Hl; discriminate Hl).
  destruct (start_device demo_join (fun _ => None) (fun (p : Empty_set) (w : demo_world) => (p, w))
    (load_map demo_parse demo_files demo_as_doc) demo_ext_dict demo_units demo_dev1 demo_w0)
    as [w' [gd|e]] eqn:Hst; [|vm_compute in Hst; discriminate Hst].
  assert (Ht : pm_AppliesTo pm = "cdu") by (vm_compute in Hl; injection Hl as <-; reflexivity).
  destruct (accepted_device_starts demo_join (fun _ => None) (fun (p : Empty_set) (w : demo_world) => (p, w))
    demo_parse demo_files demo_as_doc demo_ext_dict demo_units demo_dev1 demo_cdu pm demo_w0
    demo_types_ok eq_refl ltac:(by right; left) eq_refl ltac:(by rewrite Ht) Hl) as [_ Hok].
  exists pm, w', gd. split; [done|]. split; [done|]. by apply (Hok w' gd Hst).
Defined.

(** The temperature of the map under limits, and a sample below them. *)
Definition demo_temp_def : PointDef := mkPointDef "fws1.supply.temp" "ro" EmptyString EmptyString EmptyString
  f1 (Some (mkLimits f0 (f_of_Z 90))) ∅ EmptyString ∅.

