(* ===== verification/Publish.v ===== *)
(** * Telemetry publishing and its consumer (pkg/natspub, cmd/cios-edge-writer)

    The publisher puts batches on the message bus and keeps the ones it cannot
    deliver in the write-ahead log; the edge writer takes them from the bus and
    writes them to the time-series database.  The bus, the JSON text of a batch
    and the compression of the log are parameters. *)
From S2P Require Import Prelude Float64 GoTime CPath Http PromProj WAL Cursor DictLoad PointMap Modbus GoNet Snmp Gateway GatewayRun.
Open Scope string_scope.
Open Scope list_scope.

(** ** Subjects and delivery (types.go, drop.go) *)

Definition Subject (b : TelemetryBatch) : string := "cios.tlm." +:+ tb_Site b +:+ "." +:+ tb_TopAsset b.

Definition PoisonDeliverCap : Z := 5.

Definition NakBackoff (deliveries : Z) : Duration :=
  let deliveries := if (deliveries <? 1)%Z then 1%Z else deliveries in
  if (deliveries <=? 1)%Z then (5 * Second)%Z
  else if (deliveries =? 2)%Z then (15 * Second)%Z
  else if (deliveries =? 3)%Z then (30 * Second)%Z
  else if (deliveries =? 4)%Z then Minute
  else (2 * Minute)%Z.

(** The metadata of a message, when it has any: the number of deliveries. *)
Definition DeliveryCount (meta : option Z) : Z :=
  match meta with
  | None => 1
  | Some dc => if (dc <? 1)%Z then 1%Z else dc
  end.

Definition DropIfPoison (meta : option Z) : bool * Z :=
  match meta with
  | None => (false, 0%Z)
  | Some dc => (bool_decide (PoisonDeliverCap <= dc)%Z, dc)
  end.

(** ** The bus

    [js_publish]: the state after a publication and whether it was
    acknowledged.  [js_stored] is what the stream holds: an acknowledged message
    is stored; of an unacknowledged one nothing is known (it can be stored, the
    acknowledgement being what was lost). *)
Class Bus (B : Type) : Type := {
  js_publish : B -> string -> bytes -> B * bool;
  js_stored : B -> list (string * bytes)
}.
Class BusOk (B : Type) `{Bus B} : Prop :=
  js_acked : forall s subj msg s' ok, js_publish s subj msg = (s', ok) ->
    js_stored s' = js_stored s ++ [(subj, msg)] \/ ok = false /\ js_stored s' = js_stored s.

(** ** The publisher (publisher.go) *)

Inductive pub_err : Type := PNilJetStream | PContext | PMarshal | PBus | PBusAndWAL (e : wal_err).

Section publisher.
Context {B : Type} `{Bus B}.
Context (gzipFrame : bytes -> bytes) (gunzipFrame : bytes -> option bytes).
Context (Marshal : TelemetryBatch -> option bytes) (Unmarshal : bytes -> option TelemetryBatch).

(** A publisher with its bus; [None] is a nil pointer. *)
Record Publisher : Type := mkPublisher { pb_js : option B; pb_wal : option wal }.

Definition New (js : option B) (w : option wal) : Publisher := mkPublisher js w.

Definition WALBytes (p : option Publisher) : Z :=
  match p with Some (mkPublisher _ (Some w)) => Size w | _ => 0%Z end.

(** The callback of the replay: a frame that cannot be decoded is skipped, the
    others go to their own subject. *)
Definition replay_frame (bus : B) (frame : bytes) : B * option unit :=
  match Unmarshal frame with
  | None => (bus, None)
  | Some parsed =>
      let '(bus, ok) := js_publish bus (Subject parsed) frame in
      (bus, if ok then None else Some tt)
  end.

(** [Publish]; [io] is what the file system answers to the log's write. *)
Definition Publish (ctx_err : bool) (b : TelemetryBatch) (io : write_io) (p : Publisher) :
    Publisher * result pub_err unit :=
  match pb_js p with
  | None => (p, Err PNilJetStream)
  | Some bus =>
      if ctx_err then (p, Err PContext)
      else match Marshal b with
      | None => (p, Err PMarshal)
      | Some payload =>
          let '(w, bus) :=
            match pb_wal p with
            | None => (None, bus)
            | Some w =>
                if (0 <? Len w)%Z then
                  let '(w, bus, _) := Replay gunzipFrame replay_frame w bus in (Some w, bus)
                else (Some w, bus)
            end in
          match js_publish bus (Subject b) payload with
          | (bus, true) => (mkPublisher (Some bus) w, Ok tt)
          | (bus, false) =>
              match w with
              | None => (mkPublisher (Some bus) None, Err PBus)
              | Some w =>
                  let '(w, r) := WAL.Write gzipFrame w payload io in
                  (mkPublisher (Some bus) (Some w),
                   match r with Ok _ => Ok tt | Err e => Err (PBusAndWAL e) end)
              end
          end
      end
  end.

(** The publisher as the gateway uses it, with a script of what the file system
    answers. *)
Definition gateway_publish (p : Publisher * list write_io) (b : TelemetryBatch) :
    (Publisher * list write_io) * bool :=
  let '(p', r) := Publish false b (default IoOk (head p.2)) p.1 in
  ((p', tail p.2), match r with Ok _ => true | Err _ => false end).

(** ** At-least-once *)

(** The messages that a queue of frames stands for. *)
Definition message_of (frame : bytes) : option (string * bytes) :=
  (fun b => (Subject b, frame)) <$> Unmarshal frame.
Definition messages (q : list bytes) : list (string * bytes) := omap message_of q.

(** The publisher holds the queue [q], which a consumer can decode. *)
Definition holds (p : Publisher) (bus : B) (q : list bytes) : Prop :=
  pb_js p = Some bus /\ Forall (fun f => is_Some (Unmarshal f)) q /\
  exists w, pb_wal p = Some w /\ represents gzipFrame w q.

Context `{!BusOk B}.
Context (gunzip_gzip : forall p, gunzipFrame (gzipFrame p) = Some p).
Context (Unmarshal_Marshal : forall b x, Marshal b = Some x -> Unmarshal x = Some b).

(** What a replay puts on the bus: a prefix of the queue, all of it when it
    succeeds. *)
Lemma deliver_stored q : forall bus, Forall (fun f => is_Some (Unmarshal f)) q ->
  let '(bus', r) := deliver replay_frame bus q in
  exists n, n <= length q /\ js_stored bus' = js_stored bus ++ messages (take n q) /\
    (r = None -> n = length q).
Proof using BusOk0.
  induction q as [|f q IH]; intros bus Hq; cbn [deliver].
  { exists 0. split; [done|]. split; [by rewrite app_nil_r|done]. }
  inv Hq. rename select (is_Some _) into Hf. destruct Hf as [b Hb]. unfold replay_frame at 1. rewrite Hb.
  destruct (js_publish bus (Subject b) f) as [bus1 ok] eqn:Hp.
  apply js_acked in Hp as [Hs|[-> Hs]].
  - destruct ok.
    + specialize (IH bus1 ltac:(done)). destruct (deliver replay_frame bus1 q) as [bus' r].
      destruct IH as (n & Hn & Hst & Hr). exists (S n). split; [cbn; lia|]. split; [|intros ->; cbn; by rewrite Hr].
      rewrite Hst, Hs, <- app_assoc. unfold messages. cbn [take omap list_omap].
      unfold message_of at 2. rewrite Hb. done.
    + exists 1. split; [cbn; lia|]. split; [|done].
      rewrite Hs. unfold messages, message_of. cbn [take omap list_omap]. by rewrite take_0, Hb.
  - exists 0. split; [lia|]. split; [by rewrite Hs, app_nil_r|done].
Qed.

(** A message that the stream stores, or that the log still holds. *)
Definition kept (bus : B) (q : list bytes) (m : string * bytes) : Prop :=
  In m (js_stored bus) \/ In m (messages q).

Lemma messages_app q1 q2 : messages (q1 ++ q2) = messages q1 ++ messages q2.
Proof. apply omap_app. Qed.

Lemma message_of_Marshal b x : Marshal b = Some x -> message_of x = Some (Subject b, x).
Proof using Unmarshal_Marshal. intros Hm. unfold message_of. by rewrite (Unmarshal_Marshal _ _ Hm). Qed.

(** The replay that opens a publication. *)
Lemma drain w bus q : represents gzipFrame w q -> Forall (fun f => is_Some (Unmarshal f)) q ->
  let '(w', bus', _) := Replay gunzipFrame replay_frame w bus in
  exists q' n, represents gzipFrame w' q' /\ w_maxSize w' = w_maxSize w /\ (q' = q \/ q' = [] /\ n = length q) /\
    js_stored bus' = js_stored bus ++ messages (take n q).
Proof using BusOk0 gunzip_gzip.
  intros Hw Hq. rewrite (Replay_deliver _ _ gunzip_gzip _ _ _ _ Hw).
  pose proof (deliver_stored q bus Hq) as Hd. destruct (deliver replay_frame bus q) as [bus' [e|]].
  - destruct Hd as (n & _ & Hs & _). exists q, n. split; [done|]. split; [done|]. split; [by left|done].
  - destruct Hd as (n & _ & Hs & Hn). exists [], n. split; [|split; [done|split; [right; auto|done]]].
    destruct Hw as (_ & _ & _ & Hm). repeat split; (done || cbn; lia).
Qed.

(** The three things that happen to what is kept: the log is drained, the live
    message goes out, or it goes to the log. *)
Lemma drain_kept w bus q : represents gzipFrame w q -> Forall (fun f => is_Some (Unmarshal f)) q ->
  exists w' bus1 q1, represents gzipFrame w' q1 /\ Forall (fun f => is_Some (Unmarshal f)) q1 /\
    (forall m, kept bus1 q1 m <-> kept bus q m) /\
    (if (0 <? Len w)%Z then let '(w, bus, _) := Replay gunzipFrame replay_frame w bus in (Some w, bus)
     else (Some w, bus)) = (Some w', bus1).
Proof using BusOk0 gunzip_gzip.
  intros Hw Hq. destruct (0 <? Len w)%Z; [|by exists w, bus, q].
  pose proof (drain w bus q Hw Hq) as Hd. destruct (Replay _ _ w bus) as [[w' bus1] r].
  destruct Hd as (q1 & n & H1 & _ & H2 & H3). exists w', bus1, q1. split; [done|].
  split; [by destruct H2 as [->|[-> _]]|]. split; [|done]. intros m. unfold kept. rewrite H3, in_app_iff.
  assert (Htake : In m (messages (take n q)) -> In m (messages q)).
  { intros Hin. rewrite <- (take_drop n q), messages_app. apply in_or_app. by left. }
  destruct H2 as [->|[-> ->]]; [tauto|]. rewrite firstn_all. unfold messages at 2. cbn. tauto.
Qed.

Lemma live_kept bus subj x bus' ok q : js_publish bus subj x = (bus', ok) ->
  (forall m, kept bus q m -> kept bus' q m) /\ (forall m, kept bus' q m -> kept bus q m \/ m = (subj, x)) /\
  (ok = true -> kept bus' q (subj, x)).
Proof using BusOk0.
  unfold kept. intros [Hs|[-> Hs]]%js_acked; rewrite Hs; [|split_and!; auto; done].
  split_and!; intros *; rewrite ?in_app_iff; cbn; [tauto| |tauto]. intros [[?|[<-|[]]]|?]; auto.
Qed.

Lemma log_kept bus b x q m : Marshal b = Some x ->
  kept bus (q ++ [x]) m <-> kept bus q m \/ m = (Subject b, x).
Proof using Unmarshal_Marshal.
  intros Hx. unfold kept. rewrite messages_app, in_app_iff. unfold messages at 2. cbn [omap list_omap].
  rewrite (message_of_Marshal b x Hx). cbn. split; [intros [?|[?|[<-|[]]]]|intros [[?|?]| ->]]; auto.
Qed.

(** One publication: what was kept is kept, a batch that is answered without
    error is kept, and nothing else appears. *)
Definition publish_post (b : TelemetryBatch) (bus bus' : B) (q q' : list bytes) (r : result pub_err unit) : Prop :=
  (forall m, kept bus q m -> kept bus' q' m) /\
  (r = Ok tt -> exists x, Marshal b = Some x /\ kept bus' q' (Subject b, x)) /\
  (forall m, kept bus' q' m -> kept bus q m \/ exists x, Marshal b = Some x /\ m = (Subject b, x)).

Lemma Publish_step ctx b io p bus q : holds p bus q -> io_rolled_back io = true ->
  let '(p', r) := Publish ctx b io p in
  exists bus' q', holds p' bus' q' /\ publish_post b bus bus' q q' r.
Proof using BusOk0 gunzip_gzip Unmarshal_Marshal.
  intros (Hjs & Hq & w & Hwal & Hw) Hio. unfold Publish. rewrite Hjs.
  assert (Hskip : forall e, exists bus' q', holds p bus' q' /\ publish_post b bus bus' q q' (Err e)).
  { intros e. exists bus, q. split; [split; [done|split; [done|by exists w]]|]. split_and!; auto; done. }
  destruct ctx; [apply Hskip|]. destruct (Marshal b) as [x|] eqn:Hx; [|apply Hskip]. clear Hskip.
  rewrite Hwal. destruct (drain_kept w bus q Hw Hq) as (w' & bus1 & q1 & Hw' & Hdec & Hk & ->).
  destruct (js_publish bus1 (Subject b) x) as [bus2 ok] eqn:Hp.
  pose proof (live_kept _ _ _ _ _ q1 Hp) as (Hk1 & Hk2 & Hk3). destruct ok.
  { exists bus2, q1. split; [split; [done|split; [done|by exists w']]|]. split_and!.
    - intros m Hm. by apply Hk1, Hk.
    - intros _. exists x. auto.
    - intros m [Hm| ->]%Hk2; [left; by apply Hk|right; by exists x]. }
  pose proof (Write_queue _ w' q1 x io Hw' Hio) as Hwr. destruct (WAL.Write _ w' x io) as [w2 [[]|e]].
  - destruct Hwr as (Hw2 & _). exists bus2, (q1 ++ [x]). split.
    { split; [done|]. split; [|by exists w2]. apply Forall_app. split; [done|].
      constructor; [|constructor]. exists b. by apply Unmarshal_Marshal. }
    split_and!; [intros m Hm|intros _|intros m]; rewrite ?(log_kept _ b x) by done.
    + left. by apply Hk1, Hk.
    + exists x. split; [done|]. rewrite (log_kept _ b x) by done. by right.
    + intros [[Hm| ->]%Hk2| ->]; [left; by apply Hk|right; by exists x|right; by exists x].
  - assert (w2 = w') as -> by (destruct e; by destruct Hwr). exists bus2, q1.
    split; [split; [done|split; [done|by exists w']]|]. split_and!; [|done|].
    + intros m Hm. by apply Hk1, Hk.
    + intros m [Hm| ->]%Hk2; [left; by apply Hk|right; by exists x].
Qed.

(** ** Sequences of publications *)

Record pub_event : Type := mkPubEvent { pe_ctx : bool; pe_batch : TelemetryBatch; pe_io : write_io }.

Fixpoint pub_run (evs : list pub_event) (p : Publisher) : Publisher * list (result pub_err unit) :=
  match evs with
  | [] => (p, [])
  | ev :: evs' =>
      let '(p, r) := Publish (pe_ctx ev) (pe_batch ev) (pe_io ev) p in
      let '(p, rs) := pub_run evs' p in (p, r :: rs)
  end.

Definition run_post (evs : list pub_event) (bus bus' : B) (q q' : list bytes) (rs : list (result pub_err unit)) : Prop :=
  (forall m, kept bus q m -> kept bus' q' m) /\
  Forall2 (fun ev r => r = Ok tt -> exists x, Marshal (pe_batch ev) = Some x /\
    kept bus' q' (Subject (pe_batch ev), x)) evs rs /\
  (forall m, kept bus' q' m -> kept bus q m \/
     exists ev x, In ev evs /\ Marshal (pe_batch ev) = Some x /\ m = (Subject (pe_batch ev), x)).

Lemma pub_run_post evs : forall p bus q, holds p bus q -> Forall (fun ev => io_rolled_back (pe_io ev) = true) evs ->
  let '(p', rs) := pub_run evs p in
  exists bus' q', holds p' bus' q' /\ run_post evs bus bus' q q' rs.
Proof using BusOk0 gunzip_gzip Unmarshal_Marshal.
  induction evs as [|ev evs IH]; intros p bus q Hp Hio; cbn [pub_run].
  { exists bus, q. split; [done|]. split_and!; [done|constructor|by left]. }
  inv Hio. pose proof (Publish_step (pe_ctx ev) (pe_batch ev) (pe_io ev) p bus q Hp ltac:(done)) as Hs.
  destruct (Publish _ _ _ p) as [p1 r]. destruct Hs as (bus1 & q1 & Hp1 & K1 & K2 & K3).
  specialize (IH p1 bus1 q1 Hp1 ltac:(done)). destruct (pub_run evs p1) as [p' rs].
  destruct IH as (bus' & q' & Hp' & I1 & I2 & I3). exists bus', q'. split; [done|]. split_and!.
  - auto.
  - constructor; [|done]. intros Hr. destruct (K2 Hr) as (x & Hx & Hk). exists x. auto.
  - intros m [Hm|(ev' & x & Hin & Hx & Hm)]%I3.
    + apply K3 in Hm as [Hm|(x & Hx & Hm)]; [by left|right]. exists ev, x. split; [by left|done].
    + right. exists ev', x. split; [by right|done].
Qed.

(** A bus that acknowledges everything. *)
Definition bus_up : Prop := forall s subj msg, (js_publish s subj msg).2 = true.

Lemma deliver_up q : bus_up -> forall bus, Forall (fun f => is_Some (Unmarshal f)) q ->
  (deliver replay_frame bus q).2 = None.
Proof using Type.
  intros Hup. induction q as [|f q IH]; intros bus Hq; cbn [deliver]; [done|]. inv Hq.
  rename select (is_Some _) into Hf. destruct Hf as [b Hb]. unfold replay_frame at 1. rewrite Hb.
  pose proof (Hup bus (Subject b) f) as Ho. destruct (js_publish bus _ f) as [bus1 ok]. cbn in Ho. subst ok. by apply IH.
Qed.

Lemma Publish_up b io p bus q x : bus_up -> holds p bus q -> Marshal b = Some x ->
  let '(p', r) := Publish false b io p in
  r = Ok tt /\ exists bus', holds p' bus' [] /\ js_stored bus' = js_stored bus ++ messages q ++ [(Subject b, x)].
Proof using BusOk0 gunzip_gzip.
  intros Hup (Hjs & Hq & w & Hwal & Hw) Hx. unfold Publish. rewrite Hjs, Hx, Hwal.
  assert (Hd : exists w' bus1, represents gzipFrame w' [] /\ js_stored bus1 = js_stored bus ++ messages q /\
    (if (0 <? Len w)%Z then let '(w, bus, _) := Replay gunzipFrame replay_frame w bus in (Some w, bus)
     else (Some w, bus)) = (Some w', bus1)).
  { destruct (Z.ltb_spec 0 (Len w)) as [Hl|Hl].
    - rewrite (Replay_deliver _ _ gunzip_gzip _ _ _ _ Hw). pose proof (deliver_up q Hup bus Hq) as Hn.
      pose proof (deliver_stored q bus Hq) as Hs. destruct (deliver replay_frame bus q) as [bus1 r]. cbn in Hn. subst r.
      destruct Hs as (n & _ & Hs & Hn). rewrite (Hn eq_refl), firstn_all in Hs.
      exists (with_file w [] 0), bus1. split; [|done]. destruct Hw as (_ & _ & _ & Hm). repeat split; (done || cbn; lia).
    - exists w, bus. destruct q as [|f q]; [split; [done|split; [by rewrite app_nil_r|done]]|].
      exfalso. destruct Hw as (_ & Hc & _). unfold Len in Hl. rewrite Hc in Hl. cbn in Hl. lia. }
  destruct Hd as (w' & bus1 & Hw' & Hst & ->). pose proof (Hup bus1 (Subject b) x) as Ho.
  destruct (js_publish bus1 _ x) as [bus2 ok] eqn:Hp. cbn in Ho. subst ok. split; [done|].
  apply js_acked in Hp as [Hs|[? _]]; [|done]. exists bus2.
  split; [split; [done|split; [constructor|by exists w']]|]. by rewrite Hs, Hst, app_assoc.
Qed.

(** Telemetry is kept at least once: whatever the bus answers (an
    acknowledgement can be lost) and whenever the log is full or its file fails,
    a batch whose publication returned no error, and every batch that was kept
    before, is stored by the stream under its own subject or still in the log;
    nothing else is ever put into either. *)
Lemma at_least_once evs p bus q :
  holds p bus q -> Forall (fun ev => io_rolled_back (pe_io ev) = true) evs ->
  let '(p', rs) := pub_run evs p in
  exists bus' q', holds p' bus' q' /\
  (forall m, kept bus q m -> kept bus' q' m) /\
  Forall2 (fun ev r => r = Ok tt -> exists x, Marshal (pe_batch ev) = Some x /\
    kept bus' q' (Subject (pe_batch ev), x)) evs rs /\
  (forall m, kept bus' q' m -> kept bus q m \/
     exists ev x, In ev evs /\ Marshal (pe_batch ev) = Some x /\ m = (Subject (pe_batch ev), x)).
Proof using BusOk0 gunzip_gzip Unmarshal_Marshal. apply pub_run_post. Qed.

End publisher.

(** ** The edge writer (cmd/cios-edge-writer)

    [vm_post]: the answer of the database to a body, and what it has stored. *)
Inductive vm_answer : Type := VMBuildErr | VMDoErr | VMStatus (code : Z).
Inductive delivery : Type := Ack | NakDelay (d : Duration).

Section edge_writer.
Context {V : Type} (vm_post : V -> string -> V * vm_answer).
Context (Unmarshal : bytes -> option TelemetryBatch).

(** [makeHandler]: what happens to one delivery of a message. *)
Definition edge_handler (siteFilter : string) (meta : option Z) (data : bytes) (v : V) : V * delivery :=
  match Unmarshal data with
  | None => (v, Ack)
  | Some batch =>
      if negb (str_eqb (tb_Encoding batch) "promtext") then (v, Ack)
      else if negb (str_eqb siteFilter EmptyString) && negb (str_eqb (tb_Site batch) siteFilter) then (v, Ack)
      else
        match vm_post v (join LF (tb_Lines batch)) with
        | (v, VMStatus code) =>
            if (Z.quot code 100 =? 2)%Z then (v, Ack) else (v, NakDelay (NakBackoff (DeliveryCount meta)))
        | (v, _) => (v, NakDelay (NakBackoff (DeliveryCount meta)))
        end
  end.

(** The stream redelivers a message until it is acknowledged; [n] counts the
    deliveries, the result lists the delays.  [None]: not acknowledged within
    the fuel. *)
Fixpoint redeliver (fuel : nat) (siteFilter : string) (n : Z) (data : bytes) (v : V) : option (V * list Duration) :=
  match fuel with
  | O => None
  | S fuel' =>
      match edge_handler siteFilter (Some n) data v with
      | (v, Ack) => Some (v, [])
      | (v, NakDelay d) =>
          '(v, ds) ← redeliver fuel' siteFilter (n + 1) data v;
          Some (v, d :: ds)
      end
  end.
End edge_writer.

Lemma NakBackoff_bounds n : (5 * Second <= NakBackoff n <= 2 * Minute)%Z.
Proof. unfold NakBackoff. repeat case_match; vm_compute; split; discriminate. Qed.

Lemma NakBackoff_mono n m : (n <= m)%Z -> (NakBackoff n <= NakBackoff m)%Z.
Proof.
  intros H. unfold NakBackoff.
  repeat match goal with |- context [Z.ltb ?a ?b] => destruct (Z.ltb_spec a b) end;
  repeat match goal with |- context [Z.leb ?a ?b] => destruct (Z.leb_spec a b) end;
  repeat match goal with |- context [Z.eqb ?a ?b] => destruct (Z.eqb_spec a b) end;
  try lia; vm_compute; discriminate.
Qed.

(** A database that refuses some requests and then takes one. *)
Definition refusal (a : vm_answer) : bool :=
  match a with VMStatus code => negb (Z.quot code 100 =? 2)%Z | _ => true end.

(** The database as a script of answers and the bodies it took. *)
Definition script_post (v : list vm_answer * list string) (body : string) : (list vm_answer * list string) * vm_answer :=
  match v.1 with
  | [] => (([], v.2 ++ [body]), VMStatus 204)
  | a :: rest => ((rest, if refusal a then v.2 else v.2 ++ [body]), a)
  end.

Section delivery.
Context (Unmarshal : bytes -> option TelemetryBatch) (siteFilter : string) (data : bytes) (batch : TelemetryBatch).
Context (Hdata : Unmarshal data = Some batch) (Henc : tb_Encoding batch = "promtext").
Context (Hsite : siteFilter = EmptyString \/ tb_Site batch = siteFilter).

(** A delivery to the script that the handler does not drop. *)
Lemma edge_handler_posts meta a rest stored :
  edge_handler script_post Unmarshal siteFilter meta data (a :: rest, stored) =
  if refusal a then ((rest, stored), NakDelay (NakBackoff (DeliveryCount meta)))
  else ((rest, stored ++ [join LF (tb_Lines batch)]), Ack).
Proof using Hdata Henc Hsite.
  unfold edge_handler. rewrite Hdata, Henc. change (str_eqb "promtext" "promtext") with true. cbn [negb].
  assert (Hs : negb (str_eqb siteFilter EmptyString) && negb (str_eqb (tb_Site batch) siteFilter) = false).
  { destruct Hsite as [->| ->]; [done|]. rewrite str_eqb_refl. by rewrite andb_false_r. }
  rewrite Hs. unfold script_post. cbn [fst snd]. destruct a as [| |code]; cbn [refusal]; [done|done|].
  by destruct (Z.quot code 100 =? 2)%Z.
Qed.

Lemma redeliver_taken refusals a rest : forall n fuel stored,
  forallb refusal refusals = true -> refusal a = false -> length refusals < fuel -> (1 <= n)%Z ->
  redeliver script_post Unmarshal fuel siteFilter n data (refusals ++ a :: rest, stored) =
  Some ((rest, stored ++ [join LF (tb_Lines batch)]),
        (fun i => NakBackoff (n + Z.of_nat i)) <$> seq 0 (length refusals)).
Proof using Hdata Henc Hsite.
  induction refusals as [|r refusals IH]; intros n fuel stored Hr Ha Hf Hn; (destruct fuel as [|fuel]; [cbn in Hf; lia|]);
    cbn [redeliver app]; rewrite edge_handler_posts.
  - by rewrite Ha.
  - cbn [forallb] in Hr. bool_simpl. rename select (refusal r = true) into Hrr. rewrite Hrr, IH by (done || cbn in Hf; lia).
    cbn [mbind option_bind length seq]. rewrite fmap_cons, <- (fmap_S_seq 0), <- list_fmap_compose.
    unfold DeliveryCount. destruct (Z.ltb_spec n 1); [lia|]. rewrite Z.add_0_r. do 3 f_equal.
    apply list_fmap_ext. intros i x _. cbn. f_equal. lia.
Qed.
End delivery.

(** The consumer delivers what the stream stores: a batch of the gateway,
    redelivered by the stream until it is acknowledged, is written to the
    database exactly once after any finite number of failing requests, however
    many: no count of deliveries drops it, the waits never get shorter and each
    is between five seconds and two minutes. *)
Lemma edge_delivers Unmarshal siteFilter data batch refusals a rest stored :
  Unmarshal data = Some batch -> tb_Encoding batch = "promtext" ->
  siteFilter = EmptyString \/ tb_Site batch = siteFilter ->
  forallb refusal refusals = true -> refusal a = false ->
  exists delays,
    redeliver script_post Unmarshal (S (length refusals)) siteFilter 1 data (refusals ++ a :: rest, stored) =
    Some ((rest, stored ++ [join LF (tb_Lines batch)]), delays) /\
    length delays = length refusals /\
    (forall i j x y, i <= j -> delays !! i = Some x -> delays !! j = Some y -> (x <= y)%Z) /\
    Forall (fun x => 5 * Second <= x <= 2 * Minute)%Z delays.
Proof.
  intros Hu He Hs Hr Ha. eexists. split; [apply redeliver_taken; try done; lia|].
  split; [by rewrite length_fmap, length_seq|]. split.
  - intros i j x y Hij Hx Hy. rewrite list_lookup_fmap in Hx, Hy.
    apply fmap_Some in Hx as (k & [-> _]%lookup_seq & ->). apply fmap_Some in Hy as (l & [-> _]%lookup_seq & ->).
    apply NakBackoff_mono. lia.
  - apply Forall_fmap, Forall_true. intros i. apply NakBackoff_bounds.
Qed.

(** ** The gateway over this publisher *)

Section tick.
Context {B : Type} `{BusOk B}.
Context (gzipFrame : bytes -> bytes) (gunzipFrame : bytes -> option bytes).
Context (Marshal : TelemetryBatch -> option bytes) (Unmarshal : bytes -> option TelemetryBatch).
Context (gunzip_gzip : forall p, gunzipFrame (gzipFrame p) = Some p).
Context (Unmarshal_Marshal : forall b x, Marshal b = Some x -> Unmarshal x = Some b).

Abbreviation publish := (gateway_publish gzipFrame gunzipFrame Marshal Unmarshal).
Abbreviation holds := (holds gzipFrame Unmarshal).
Abbreviation kept := (kept Unmarshal).

(** The publisher's state in the gateway: the log is sound, and the file system
    rolls a failed write back. *)
Definition publisher_ok (p : Publisher (B:=B) * list write_io) (bus : B) (q : list bytes) : Prop :=
  holds p.1 bus q /\ Forall (fun io => io_rolled_back io = true) p.2.

Definition accepted_or_kept (bus : B) (q : list bytes) (b : TelemetryBatch) (r : bool) : Prop :=
  r = true -> exists x, Marshal b = Some x /\ kept bus q (Subject b, x).

Lemma publish_step_ok b p bus q : publisher_ok p bus q ->
  exists bus' q', publisher_ok (publish p b).1 bus' q' /\ (forall m, kept bus q m -> kept bus' q' m) /\
    accepted_or_kept bus' q' b (publish p b).2.
Proof using H0 gunzip_gzip Unmarshal_Marshal.
  intros [Hp Hio]. unfold gateway_publish.
  assert (Hhead : io_rolled_back (default IoOk (head p.2)) = true) by (by destruct Hio).
  pose proof (Publish_step gzipFrame gunzipFrame Marshal Unmarshal gunzip_gzip Unmarshal_Marshal
    false b _ _ bus q Hp Hhead) as Hs.
  destruct (Publish _ _ _ _ false b _ p.1) as [p' r]. destruct Hs as (bus' & q' & Hp' & H1 & H2 & _).
  exists bus', q'. cbn [fst snd]. split; [split; [done|]|split; [done|]].
  - destruct Hio; [constructor|done].
  - destruct r as [[]|]; [by intros _; apply H2|done].
Qed.

(** The answers to the batches of a tick. *)
Fixpoint publish_results (bs : list TelemetryBatch) (p : Publisher (B:=B) * list write_io) : list bool :=
  match bs with
  | [] => []
  | b :: bs' => let '(p, r) := publish p b in r :: publish_results bs' p
  end.

Lemma publish_all_ok bs : forall p bus q, publisher_ok p bus q ->
  exists bus' q', publisher_ok (foldl (fun p b => (publish p b).1) p bs) bus' q' /\
    (forall m, kept bus q m -> kept bus' q' m) /\
    Forall2 (accepted_or_kept bus' q') bs (publish_results bs p).
Proof using H0 gunzip_gzip Unmarshal_Marshal.
  induction bs as [|b bs IH]; intros p bus q Hp; cbn [foldl publish_results].
  { exists bus, q. split; [done|]. split; [done|constructor]. }
  destruct (publish_step_ok b p bus q Hp) as (bus1 & q1 & Hp1 & Hk1 & Ha).
  destruct (IH _ _ _ Hp1) as (bus' & q' & Hp' & Hk & Hall). exists bus', q'. split; [done|]. split; [auto|].
  destruct (publish p b) as [p1 r]. cbn [fst snd] in *. constructor; [|done].
  intros Hr. destruct (Ha Hr) as (x & Hx & Hkx). exists x. auto.
Qed.
End tick.

Section end_to_end.
Context {W PD B : Type} `{FloatToInt} `{NetworkOk W} `{!Agent W} `{!Southbound PD W} `{!SouthboundOk PD W} `{BusOk B}.
Context (Join : string -> string -> string) (plugin : Device -> option PD) (plugin_init : PD -> W -> PD * W).
Context (ParseFloat : string -> option float64) (ReadFile : list string -> option string)
  (as_doc : string -> option doc) (formatFloat : float64 -> string).
Context (gzipFrame : bytes -> bytes) (gunzipFrame : bytes -> option bytes).
Context (Marshal : TelemetryBatch -> option bytes) (Unmarshal : bytes -> option TelemetryBatch).
Context (gunzip_gzip : forall p, gunzipFrame (gzipFrame p) = Some p).
Context (Unmarshal_Marshal : forall b x, Marshal b = Some x -> Unmarshal x = Some b).

Abbreviation up := (gateway_up Join plugin plugin_init ParseFloat ReadFile as_doc).
Abbreviation publish := (gateway_publish gzipFrame gunzipFrame Marshal Unmarshal).

(** Ticks and requests keep the publisher sound and lose nothing it keeps. *)
Lemma gw_run_publisher site tok reg evs : forall st bus q,
  publisher_ok gzipFrame Unmarshal st.2 bus q ->
  exists bus' q', publisher_ok gzipFrame Unmarshal
      (gw_run (D := (Modbus.Driver + (snmp_Driver + PD))%type) (W := W) formatFloat float_to_int publish
        site tok reg evs st).2 bus' q' /\
    (forall m, kept Unmarshal bus q m -> kept Unmarshal bus' q' m).
Proof using H3 gunzip_gzip Unmarshal_Marshal.
  assert (Hpub : forall t retired devs w p bus q, publisher_ok gzipFrame Unmarshal p bus q ->
    exists bus' q', publisher_ok gzipFrame Unmarshal
        (publishBatch (D := (Modbus.Driver + (snmp_Driver + PD))%type) (W := W) formatFloat float_to_int publish
          site t retired devs w p).2 bus' q' /\
      (forall m, kept Unmarshal bus q m -> kept Unmarshal bus' q' m)).
  { intros t retired devs. induction devs as [|gd devs IH]; intros w p bus q Hp; cbn [publishBatch]; [by exists bus, q|].
    destruct (device_batch _ _ _ _ _ gd w) as [[gd1 w1] b]. set (p1 := match b with Some b => _ | None => p end).
    assert (Hp1 : exists bus1 q1, publisher_ok gzipFrame Unmarshal p1 bus1 q1 /\
      (forall m, kept Unmarshal bus q m -> kept Unmarshal bus1 q1 m)).
    { unfold p1. destruct b as [b|]; [|by exists bus, q].
      destruct (publish_step_ok _ _ _ _ gunzip_gzip Unmarshal_Marshal b p bus q Hp) as (bus1 & q1 & ? & ? & _).
      by exists bus1, q1. }
    destruct Hp1 as (bus1 & q1 & Hp1 & Hk1). destruct (IH w1 p1 bus1 q1 Hp1) as (bus' & q' & Hp' & Hk').
    destruct (publishBatch _ _ _ _ _ _ devs w1 p1) as [[devs1 w2] p2]. exists bus', q'. split; [done|]. auto. }
  induction evs as [|ev evs IH]; intros st bus q Hp; cbn [gw_run foldl]; [by exists bus, q|].
  assert (Hs : exists bus1 q1, publisher_ok gzipFrame Unmarshal
      (gw_step formatFloat float_to_int publish site tok reg ev st).2 bus1 q1 /\
      (forall m, kept Unmarshal bus q m -> kept Unmarshal bus1 q1 m)).
  { destruct st as [[devs w] p], ev as [t retired|t retired|gen r|w1]; cbn [gw_step snd] in *.
    - by apply Hpub.
    - destruct (postBatch _ _ _ _ _ _) as [[? ?] ?]. by exists bus, q.
    - destruct tok; [|by exists bus, q]. destruct (handle_set _ _ _ _ _ _) as [[? ?] ?]. by exists bus, q.
    - by exists bus, q. }
  destruct Hs as (bus1 & q1 & Hp1 & Hk1). destruct (IH _ _ _ Hp1) as (bus' & q' & Hp' & Hk').
  exists bus', q'. split; [exact Hp'|auto].
Qed.

End end_to_end.

(** ** A concrete bus and codec

    The bus answers from a script: it acknowledges, it stores and loses the
    acknowledgement, or it refuses. *)
Inductive bus_answer : Type := BAck | BLost | BRefused.
Record script_bus : Type := mkBus { sb_stored : list (string * bytes); sb_script : list bus_answer }.

#[export] Instance script_bus_bus : Bus script_bus := {|
  js_publish s subj msg :=
    let rest := tail (sb_script s) in
    match default BAck (head (sb_script s)) with
    | BAck => (mkBus (sb_stored s ++ [(subj, msg)]) rest, true)
    | BLost => (mkBus (sb_stored s ++ [(subj, msg)]) rest, false)
    | BRefused => (mkBus (sb_stored s) rest, false)
    end;
  js_stored := sb_stored
|}.
#[export] Instance script_bus_ok : BusOk script_bus.
Proof.
  intros s subj msg s' ok. cbn. destruct (default BAck (head (sb_script s))); intros [= <- <-]; cbn; auto.
Qed.

(** A bus that is always up. *)
#[export] Instance open_bus : Bus (list (string * bytes)) := {|
  js_publish s subj msg := (s ++ [(subj, msg)], true); js_stored s := s
|}.
#[export] Instance open_bus_ok : BusOk (list (string * bytes)).
Proof. intros s subj msg s' ok [= <- <-]. by left. Qed.

(** Any injective coding of batches stands for their JSON text. *)
Definition demo_fields (b : TelemetryBatch) : string * string * Z * string * list string :=
  (tb_Site b, tb_TopAsset b, tb_Timestamp b, tb_Encoding b, tb_Lines b).
Definition demo_Marshal (b : TelemetryBatch) : option bytes := Some [Zpos (countable.encode (demo_fields b))].
Definition demo_Unmarshal (x : bytes) : option TelemetryBatch :=
  match x with
  | [Zpos p] =>
      (fun f : string * string * Z * string * list string =>
         let '(s, a, t, e, ls) := f in mkBatch s a t e ls) <$> countable.decode p
  | _ => None
  end.
Lemma demo_Unmarshal_Marshal b x : demo_Marshal b = Some x -> demo_Unmarshal x = Some b.
Proof. intros [= <-]. unfold demo_Unmarshal. rewrite countable.decode_encode. by destruct b. Qed.

Definition demo_batch (n : Z) : TelemetryBatch := mkBatch "sgp01" "sgp01.pod002" n "promtext" ["up 1"].

Definition demo_log : wal := OpenWithMaxSize [] 64.
Lemma demo_log_empty : represents demo_gzip demo_log [].
Proof. repeat split; (constructor || vm_compute; done). Qed.

Definition demo_pub : Publisher := mkPublisher (Some (mkBus [] [BLost; BRefused; BRefused])) (Some demo_log).
Lemma demo_pub_holds : holds demo_gzip demo_Unmarshal demo_pub (mkBus [] [BLost; BRefused; BRefused]) [].
Proof. split; [done|]. split; [constructor|]. exists demo_log. split; [done|apply demo_log_empty]. Qed.

Definition demo_pub_events : list pub_event :=
  [mkPubEvent false (demo_batch 1) IoOk; mkPubEvent false (demo_batch 2) (IoSyncFails true);
   mkPubEvent true (demo_batch 3) IoOk; mkPubEvent false (demo_batch 4) IoOk].

(** The first batch is stored twice (its acknowledgement was lost); the second
    is refused by the bus and the disk; the third is cancelled. *)
Example demo_pub_run :
  let '(p, rs) := pub_run demo_gzip demo_gunzip demo_Marshal demo_Unmarshal demo_pub_events demo_pub in
  rs = [Ok tt; Err (PBusAndWAL ESync); Err PContext; Ok tt] /\
  (fun m => tb_Timestamp <$> demo_Unmarshal m.2) <$> from_option sb_stored [] (pb_js p) = [Some 1; Some 1; Some 4]%Z /\
  from_option Len 7%Z (pb_wal p) = 0%Z.
Proof. vm_compute. repeat split. Qed.

Lemma at_least_once_witness : exists bus' q',
  holds demo_gzip demo_Unmarshal
    (pub_run demo_gzip demo_gunzip demo_Marshal demo_Unmarshal demo_pub_events demo_pub).1 bus' q' /\
  Forall2 (fun ev r => r = Ok tt -> exists x, demo_Marshal (pe_batch ev) = Some x /\
    kept demo_Unmarshal bus' q' (Subject (pe_batch ev), x)) demo_pub_events
    (pub_run demo_gzip demo_gunzip demo_Marshal demo_Unmarshal demo_pub_events demo_pub).2.
Proof.
  pose proof (at_least_once demo_gzip demo_gunzip demo_Marshal demo_Unmarshal demo_gunzip_gzip demo_Unmarshal_Marshal
    demo_pub_events demo_pub _ [] demo_pub_holds ltac:(repeat constructor)) as Hw.
  destruct (pub_run demo_gzip demo_gunzip demo_Marshal demo_Unmarshal demo_pub_events demo_pub) as [p rs].
  destruct Hw as (bus' & q' & Hh & _ & Hf & _). by exists bus', q'.
Defined.

(** Two batches in the log of a gateway whose bus is back. *)
Definition demo_payload (n : Z) : bytes := default [] (demo_Marshal (demo_batch n)).
Definition demo_backlog : wal :=
  (WAL.Write demo_gzip (WAL.Write demo_gzip demo_log (demo_payload 1) IoOk).1 (demo_payload 2) IoOk).1.
Definition demo_pub_open : Publisher (B := list (string * bytes)) := mkPublisher (Some []) (Some demo_backlog).
Lemma open_bus_up : bus_up (B := list (string * bytes)).
Proof. done. Qed.
Lemma demo_backlog_holds : holds demo_gzip demo_Unmarshal demo_pub_open
  ([] : list (string * bytes)) [demo_payload 1; demo_payload 2].
Proof.
  split; [done|]. split; [repeat constructor; by eexists; apply demo_Unmarshal_Marshal|].
  exists demo_backlog. split; [done|].
  pose proof (Write_queue demo_gzip demo_log [] (demo_payload 1) IoOk demo_log_empty eq_refl) as H1.
  cbv beta iota zeta delta [app] in H1.
  assert (Hw1 : represents demo_gzip (WAL.Write demo_gzip demo_log (demo_payload 1) IoOk).1 [demo_payload 1]).
  { revert H1. vm_compute. intros [H _]. exact H. }
  pose proof (Write_queue demo_gzip _ _ (demo_payload 2) IoOk Hw1 eq_refl) as H2. clear H1.
  revert H2. vm_compute. intros [H _]. exact H.
Qed.


Lemma edge_delivers_witness : exists delays,
  redeliver script_post demo_Unmarshal 7 "sgp01" 1 (demo_payload 1)
    ([VMDoErr; VMStatus 503; VMBuildErr; VMDoErr; VMStatus 429; VMStatus 500; VMStatus 204], []) =
  Some (([], ["up 1"]), delays) /\ length delays = 6.
Proof.
  destruct (edge_delivers demo_Unmarshal "sgp01" (demo_payload 1) (demo_batch 1)
    [VMDoErr; VMStatus 503; VMBuildErr; VMDoErr; VMStatus 429; VMStatus 500] (VMStatus 204) [] []
    (demo_Unmarshal_Marshal (demo_batch 1) _ eq_refl) eq_refl (or_intror eq_refl) eq_refl eq_refl)
    as (delays & Hr & Hl & _). by exists delays.
Defined.

Abbreviation demo_gw_publish := (gateway_publish demo_gzip demo_gunzip demo_Marshal demo_Unmarshal).

