(* ===== verification/Calendar.v ===== *)
(** * Dates and their text

    What the program uses of package time beyond [GoTime]: the civil date of an
    instant, [time.Date] with its normalisation, [AddDate], locations, and the
    text of RFC 3339.  A location is given by the lookup of the zone in force
    at a second; the database of time zones is outside. *)
From S2P Require Import Prelude Float64 GoTime CPath Cursor.
Open Scope string_scope.
Open Scope list_scope.

(** ** The Gregorian calendar

    Days are counted from the first of January of the year 1. *)
Definition isLeap (y : Z) : bool :=
  ((y mod 4 =? 0) && (negb (y mod 100 =? 0) || (y mod 400 =? 0)))%Z.

Definition days_before_year (y : Z) : Z :=
  (365 * (y - 1) + (y - 1) / 4 - (y - 1) / 100 + (y - 1) / 400)%Z.

(** The library's table, for a common year. *)
Definition daysBefore (m : Z) : Z :=
  nth (Z.to_nat m) [0; 31; 59; 90; 120; 151; 181; 212; 243; 273; 304; 334; 365]%Z 0%Z.

(** Days of the year before month [m] (from 1), and of the month. *)
Definition days_before_month (leap : bool) (m : Z) : Z :=
  (daysBefore (m - 1) + (if leap && (3 <=? m) then 1 else 0))%Z.
Definition daysIn (m y : Z) : Z :=
  if (m =? 2)%Z && isLeap y then 29%Z else (daysBefore m - daysBefore (m - 1))%Z.

(** The day of a date; a day outside of its month counts on. *)
Definition date_days (y m d : Z) : Z := (days_before_year y + days_before_month (isLeap y) m + d - 1)%Z.

(** The year that contains a day: cycles of 400, 100 and 4 years and years, the
    last of each one day longer. *)
Definition year_of_days (n : Z) : Z :=
  let a := (n / 146097)%Z in let n := (n - 146097 * a)%Z in
  let b := Z.min 3 (n / 36524) in let n := (n - 36524 * b)%Z in
  let c := (n / 1461)%Z in let n := (n - 1461 * c)%Z in
  let e := Z.min 3 (n / 365) in
  (400 * a + 100 * b + 4 * c + e + 1)%Z.

(** Month and day of a day of the year, as the library computes them. *)
Definition date_of_yday (leap : bool) (yday : Z) : Z * Z :=
  let feb29 := leap && (yday =? 59)%Z in
  if feb29 then (2, 29)%Z
  else
    let day := if leap && (59 <? yday)%Z then (yday - 1)%Z else yday in
    let month := (day / 31)%Z in
    let '(month, begin) :=
      if (daysBefore (month + 1) <=? day)%Z then ((month + 1)%Z, daysBefore (month + 1)) else (month, daysBefore month) in
    ((month + 1)%Z, (day - begin + 1)%Z).

Record civil : Type := mkCivil { c_year : Z; c_month : Z; c_day : Z }.
Definition civil_of_days (n : Z) : civil :=
  let y := year_of_days n in
  let '(m, d) := date_of_yday (isLeap y) (n - days_before_year y) in
  mkCivil y m d.

(** [time.Date] normalises the month. *)
Definition Date_days (y m d : Z) : Z := (date_days (y + (m - 1) / 12) ((m - 1) mod 12 + 1) d)%Z.

Definition valid_date (y m d : Z) : Prop := (1 <= m <= 12 /\ 1 <= d <= daysIn m y)%Z.

(** ** Instants, locations and dates *)

Definition unix_seconds : Z := 62135596800.
Definition Unix (t : time) : Z := (time_sec t - unix_seconds)%Z.

(** The zone in force at a Unix second: its offset, and from when until when. *)
Record zone : Type := mkZone { z_offset : Z; z_start : Z; z_end : Z }.
Inductive Location : Type := UTC | Zones (lookup : Z -> zone).

Definition offset_at (loc : Location) (unix : Z) : Z :=
  match loc with UTC => 0%Z | Zones l => z_offset (l unix) end.

(** Seconds of the wall clock since the first day. *)
Definition local_sec (loc : Location) (t : time) : Z := (time_sec t + offset_at loc (Unix t))%Z.
Definition civil_in (loc : Location) (t : time) : civil := civil_of_days (local_sec loc t / day_seconds).

(** [time.Date] with [sod] the second of the day: the offset is looked up at the
    wall clock's reading and corrected once. *)
Definition Date (y m d sod nsec : Z) (loc : Location) : time :=
  let sec := (Date_days y m d * day_seconds + sod)%Z in
  match loc with
  | UTC => at_sec sec nsec
  | Zones l =>
      let unix := (sec - unix_seconds)%Z in
      let z := l unix in
      if (z_offset z =? 0)%Z then at_sec sec nsec
      else
        let utc := (unix - z_offset z)%Z in
        let offset := if ((utc <? z_start z) || (z_end z <=? utc))%Z then z_offset (l utc) else z_offset z in
        at_sec (sec - offset) nsec
  end.

Definition AddDate (loc : Location) (t : time) (years months days : Z) : time :=
  let c := civil_in loc t in
  Date (c_year c + years) (c_month c + months) (c_day c + days) (local_sec loc t mod day_seconds) (time_nsec t) loc.

(** ** The text of RFC 3339 *)

Definition digit_char (n : Z) : ascii := ascii_of_N (48 + Z.to_N n).

(** [w] digits, leading zeros included. *)
Fixpoint digits (w : nat) (n : Z) : string :=
  match w with
  | O => EmptyString
  | S w' => String (digit_char (n / 10 ^ Z.of_nat w')) (digits w' (n mod 10 ^ Z.of_nat w'))
  end.
Definition pad (w : nat) (n : Z) : string :=
  if ((0 <=? n) && (n <? 10 ^ Z.of_nat w))%Z then digits w n
  else if (n <? 0)%Z then "-" +:+ (if (- n <? 10 ^ Z.of_nat w)%Z then digits w (- n) else itoa (- n))
  else itoa n.

Fixpoint trim_zeros (s : string) : string :=
  match s with
  | EmptyString => EmptyString
  | String c r =>
      let r := trim_zeros r in
      if str_eqb r EmptyString && byte_eqb c "0" then EmptyString else String c r
  end.

(** [t.UTC().Format(time.RFC3339)], and with the fraction of a second. *)
Definition format_with (frac : string) (t : time) : string :=
  let c := civil_in UTC t in
  let sod := (time_sec t mod day_seconds)%Z in
  pad 4 (c_year c) +:+ "-" +:+ pad 2 (c_month c) +:+ "-" +:+ pad 2 (c_day c) +:+ "T" +:+
  pad 2 (sod / 3600) +:+ ":" +:+ pad 2 (sod / 60 mod 60) +:+ ":" +:+ pad 2 (sod mod 60) +:+ frac +:+ "Z".
Definition FormatRFC3339 : time -> string := format_with EmptyString.
Definition FormatRFC3339Nano (t : time) : string :=
  format_with (if (time_nsec t =? 0)%Z then EmptyString else "." +:+ trim_zeros (digits 9 (time_nsec t))) t.

Definition digit_of (c : ascii) : Z := Z.of_N (code c - 48).

(** [getnum]: two digits, or one where [fixed] is false. *)
Definition getnum (fixed : bool) (s : string) : option (Z * string) :=
  match s with
  | String a r =>
      if negb (is_digit a) then None
      else match r with
      | String b r' =>
          if is_digit b then Some ((10 * digit_of a + digit_of b)%Z, r')
          else if fixed then None else Some (digit_of a, r)
      | EmptyString => if fixed then None else Some (digit_of a, r)
      end
  | EmptyString => None
  end.

Definition skip (c : ascii) (s : string) : option string :=
  match s with String b r => if byte_eqb b c then Some r else None | EmptyString => None end.

Definition below (lo hi : Z) (r : option (Z * string)) : option (Z * string) :=
  match r with Some (n, s) => if ((lo <=? n) && (n <? hi))%Z then Some (n, s) else None | None => None end.

Definition parse_year (s : string) : option (Z * string) :=
  match getnum true s with
  | Some (h, s) => match getnum true s with Some (l, s) => Some ((100 * h + l)%Z, s) | None => None end
  | None => None
  end.

Definition comma_or_period (c : ascii) : bool := byte_eqb c "." || byte_eqb c ",".

(** A fraction of a second that the layout does not ask for: any number of
    digits, of which nine count. *)
Definition parse_frac (s : string) : Z * string :=
  match s with
  | String c (String d _ as r) =>
      if comma_or_period c && is_digit d then
        let '(ds, rest) := span_bytes is_digit r in
        let ds := String.substring 0 9 ds in
        ((Z.of_N (dec_value 0 ds) * 10 ^ (9 - Z.of_nat (str_len ds)))%Z, rest)
      else (0%Z, s)
  | _ => (0%Z, s)
  end.

(** The offset: Z, or a sign, hours and minutes; hours up to 24 and minutes up to
    60 are let through. *)
Definition parse_zone (s : string) : option (Z * string) :=
  match s with
  | String c r =>
      if byte_eqb c "Z" then Some (0%Z, r)
      else
        '(hh, r) ← below 0 25 (getnum true r);
        r ← skip ":" r;
        '(mm, r) ← below 0 61 (getnum true r);
        let off := ((hh * 60 + mm) * 60)%Z in
        if byte_eqb c "+" then Some (off, r)
        else if byte_eqb c "-" then Some ((- off)%Z, r) else None
  | EmptyString => None
  end.

(** [time.Parse(time.RFC3339, s)], the instant. *)
Definition ParseRFC3339 (s : string) : option time :=
  '(year, s) ← parse_year s;
  s ← skip "-" s;
  '(month, s) ← below 1 13 (getnum true s);
  s ← skip "-" s;
  '(day, s) ← getnum true s;
  s ← skip "T" s;
  '(hour, s) ← below 0 24 (getnum false s);
  s ← skip ":" s;
  '(min, s) ← below 0 60 (getnum true s);
  s ← skip ":" s;
  '(sec, s) ← below 0 60 (getnum true s);
  let '(nsec, s) := parse_frac s in
  '(off, s) ← parse_zone s;
  if negb (str_eqb s EmptyString) then None
  else if ((day <? 1) || (daysIn month year <? day))%Z then None
  else Some (at_sec (date_days year month day * day_seconds + hour * 3600 + min * 60 + sec - off) nsec).

(** ** Lemmas *)

Lemma year_of_days_spec n :
  (days_before_year (year_of_days n) <= n < days_before_year (year_of_days n + 1))%Z.
Proof.
  unfold year_of_days. cbv zeta. set (a := (n / 146097)%Z).
  set (n1 := (n - 146097 * a)%Z). set (b := Z.min 3 (n1 / 36524)). set (n2 := (n1 - 36524 * b)%Z).
  set (c := (n2 / 1461)%Z). set (n3 := (n2 - 1461 * c)%Z). set (e := Z.min 3 (n3 / 365)).
  assert (H1 : (0 <= n1 < 146097)%Z) by (subst n1 a; Z.to_euclidean_division_equations; lia).
  assert (H2 : (0 <= b <= 3 /\ 0 <= n2 <= 36524 /\ (b < 3 -> n2 < 36524))%Z)
    by (subst n2 b; Z.to_euclidean_division_equations; lia).
  assert (H3 : (0 <= c <= 24 /\ 0 <= n3 < 1461 /\ (c = 24 -> b < 3 -> n3 < 1460))%Z)
    by (subst n3 c; Z.to_euclidean_division_equations; lia).
  assert (H4 : (0 <= e <= 3 /\ 0 <= n3 - 365 * e <= 365 /\ (e < 3 -> n3 - 365 * e < 365))%Z)
    by (subst e; Z.to_euclidean_division_equations; lia).
  assert (Hn : n = (146097 * a + 36524 * b + 1461 * c + n3)%Z) by (subst n3 n2 n1; lia).
  assert (Hn2 : n2 = (1461 * c + n3)%Z) by (subst n3; lia). rewrite Hn2 in H2.
  clearbody a b c e n3. clear n1 n2 Hn2 H1. unfold days_before_year. subst n.
  assert (E4 : ((400 * a + 100 * b + 4 * c + e + 1 - 1) / 4 = 100 * a + 25 * b + c)%Z)
    by (Z.to_euclidean_division_equations; lia).
  assert (E100 : ((400 * a + 100 * b + 4 * c + e + 1 - 1) / 100 = 4 * a + b)%Z)
    by (Z.to_euclidean_division_equations; lia).
  assert (E400 : ((400 * a + 100 * b + 4 * c + e + 1 - 1) / 400 = a)%Z)
    by (Z.to_euclidean_division_equations; lia).
  assert (F4 : ((400 * a + 100 * b + 4 * c + e + 1 + 1 - 1) / 4 =
    100 * a + 25 * b + c + (if e =? 3 then 1 else 0))%Z)
    by (destruct (Z.eqb_spec e 3); Z.to_euclidean_division_equations; lia).
  assert (F100 : ((400 * a + 100 * b + 4 * c + e + 1 + 1 - 1) / 100 =
    4 * a + b + (if (e =? 3) && (c =? 24) then 1 else 0))%Z)
    by (destruct (Z.eqb_spec e 3), (Z.eqb_spec c 24); cbn [andb]; Z.to_euclidean_division_equations; lia).
  assert (F400 : ((400 * a + 100 * b + 4 * c + e + 1 + 1 - 1) / 400 =
    a + (if (e =? 3) && (c =? 24) && (b =? 3) then 1 else 0))%Z)
    by (destruct (Z.eqb_spec e 3), (Z.eqb_spec c 24), (Z.eqb_spec b 3); cbn [andb];
        Z.to_euclidean_division_equations; lia).
  rewrite E4, E100, E400, F4, F100, F400.
  destruct (Z.eqb_spec e 3), (Z.eqb_spec c 24), (Z.eqb_spec b 3); cbn [andb]; lia.
Qed.

Lemma days_before_year_mono y z : (y <= z)%Z -> (days_before_year y + 365 * (z - y) <= days_before_year z)%Z.
Proof.
  unfold days_before_year. intros H.
  pose proof (Z.div_le_mono (y - 1) (z - 1) 4). pose proof (Z.div_le_mono (y - 1) (z - 1) 400).
  enough ((z - 1) / 100 - (y - 1) / 100 <= (z - 1) / 4 - (y - 1) / 4)%Z by lia.
  clear -H. Z.to_euclidean_division_equations. lia.
Qed.

(** The year of a day is the only one that contains it. *)
Lemma year_of_days_unique n y :
  (days_before_year y <= n < days_before_year (y + 1))%Z -> year_of_days n = y.
Proof.
  intros H. pose proof (year_of_days_spec n) as Hs.
  destruct (Z.lt_trichotomy (year_of_days n) y) as [Hl|[?|Hl]]; [|done|].
  - pose proof (days_before_year_mono (year_of_days n + 1) y). lia.
  - pose proof (days_before_year_mono (y + 1) (year_of_days n)). lia.
Qed.

(** A leap year has one day more. *)
Lemma year_length y : (days_before_year (y + 1) = days_before_year y + 365 + (if isLeap y then 1 else 0))%Z.
Proof.
  unfold days_before_year, isLeap. replace (y + 1 - 1)%Z with y by lia.
  destruct (Z.eqb_spec (y mod 4) 0), (Z.eqb_spec (y mod 100) 0), (Z.eqb_spec (y mod 400) 0); cbn [andb orb negb];
    Z.to_euclidean_division_equations; lia.
Qed.

(** Both directions between the days of a year and its months, by inspection. *)
Definition month_ok (leap : bool) (yday : Z) : bool :=
  let '(m, d) := date_of_yday leap yday in
  ((1 <=? m) && (m <=? 12) && (1 <=? d) && (days_before_month leap m + d - 1 =? yday) &&
   (d <=? (if (m =? 2) && leap then 29 else daysBefore m - daysBefore (m - 1))))%Z.
Definition ydays (leap : bool) : list Z := Z.of_nat <$> seq 0 (if leap then 366 else 365).
Lemma months_ok : forallb (month_ok true) (ydays true) && forallb (month_ok false) (ydays false) = true.
Proof. vm_compute. reflexivity. Qed.

Definition yday_ok (leap : bool) (m d : Z) : bool :=
  let '(m', d') := date_of_yday leap (days_before_month leap m + d - 1) in ((m =? m') && (d =? d'))%Z.
Definition month_days (leap : bool) (m : nat) : list nat :=
  seq 1 (Z.to_nat (if (m =? 2)%nat && leap then 29 else daysBefore (Z.of_nat m) - daysBefore (Z.of_nat m - 1))).
Lemma ydays_ok : forallb (fun leap => forallb (fun m => forallb (fun d => yday_ok leap (Z.of_nat m) (Z.of_nat d))
  (month_days leap m)) (seq 1 12)) [true; false] = true.
Proof. vm_compute. reflexivity. Qed.

Lemma date_of_yday_ok (leap : bool) yday : (0 <= yday < 365 + (if leap then 1 else 0))%Z -> month_ok leap yday = true.
Proof.
  intros H. pose proof months_ok as Hm. apply andb_true_iff in Hm as [H1 H2].
  assert (Hin : In yday (ydays leap)).
  { apply list_elem_of_In, list_elem_of_fmap. exists (Z.to_nat yday). split; [by rewrite Z2Nat.id by lia|].
    apply elem_of_seq. destruct leap; lia. }
  destruct leap; [by apply (proj1 (forallb_forall _ _) H1)|by apply (proj1 (forallb_forall _ _) H2)].
Qed.

Lemma yday_of_date (leap : bool) m d : (1 <= m <= 12)%Z ->
  (1 <= d <= (if (m =? 2)%Z && leap then 29 else daysBefore m - daysBefore (m - 1)))%Z ->
  date_of_yday leap (days_before_month leap m + d - 1) = (m, d).
Proof.
  intros Hm Hd. pose proof ydays_ok as H.
  assert (Hl : In leap [true; false]) by (destruct leap; cbn; auto).
  pose proof (proj1 (forallb_forall _ _) H leap Hl) as H1. cbv beta in H1.
  assert (Hm' : In (Z.to_nat m) (seq 1 12)) by (apply in_seq; lia).
  pose proof (proj1 (forallb_forall _ _) H1 _ Hm') as H2. cbv beta in H2.
  assert (Hd' : In (Z.to_nat d) (month_days leap (Z.to_nat m))).
  { unfold month_days. apply in_seq. rewrite Z2Nat.id by lia.
    replace (Z.to_nat m =? 2)%nat with (m =? 2)%Z; [lia|].
    apply Bool.eq_iff_eq_true. rewrite Z.eqb_eq, Nat.eqb_eq. lia. }
  pose proof (proj1 (forallb_forall _ _) H2 _ Hd') as H3. cbv beta in H3. rewrite !Z2Nat.id in H3 by lia.
  unfold yday_ok in H3. destruct (date_of_yday _ _) as [m' d']. bool_simpl. f_equal; lia.
Qed.

Lemma daysIn_if m y : daysIn m y = (if (m =? 2)%Z && isLeap y then 29 else daysBefore m - daysBefore (m - 1))%Z.
Proof. done. Qed.

(** Days and dates are in bijection. *)
Lemma civil_days n : let c := civil_of_days n in
  valid_date (c_year c) (c_month c) (c_day c) /\ date_days (c_year c) (c_month c) (c_day c) = n.
Proof.
  unfold civil_of_days. pose proof (year_of_days_spec n) as Hs. set (y := year_of_days n) in *.
  rewrite year_length in Hs.
  pose proof (date_of_yday_ok (isLeap y) (n - days_before_year y) ltac:(lia)) as Hok. unfold month_ok in Hok.
  destruct (date_of_yday _ _) as [m d]. bool_simpl. cbn [c_year c_month c_day]. unfold valid_date, date_days.
  rewrite daysIn_if. split; lia.
Qed.

(** One goal per month. *)
Ltac each_month m :=
  let H := fresh "Hmonth" in
  assert (H : In m [1; 2; 3; 4; 5; 6; 7; 8; 9; 10; 11; 12]%Z) by (cbn [In]; lia);
  cbn [In] in H; repeat (destruct H as [<-|H]); [..|done].

Lemma month_fits leap m : (1 <= m <= 12)%Z ->
  (0 <= days_before_month leap m /\
   days_before_month leap m + (if (m =? 2)%Z && leap then 29 else daysBefore m - daysBefore (m - 1)) <=
   365 + (if leap then 1 else 0))%Z.
Proof.
  intros Hm. each_month m; destruct leap; vm_compute;
    split; discriminate.
Qed.

Lemma days_civil y m d : valid_date y m d -> civil_of_days (date_days y m d) = mkCivil y m d.
Proof.
  intros [Hm Hd]. rewrite daysIn_if in Hd. unfold civil_of_days, date_days.
  pose proof (month_fits (isLeap y) m Hm) as Hf.
  rewrite (year_of_days_unique _ y) by (rewrite year_length; lia).
  replace (days_before_year y + days_before_month (isLeap y) m + d - 1 - days_before_year y)%Z
    with (days_before_month (isLeap y) m + d - 1)%Z by lia.
  by rewrite yday_of_date.
Qed.

Lemma month_next (leap : bool) m : (1 <= m <= 12)%Z ->
  (days_before_month leap m + (if (m =? 2) && leap then 29 else daysBefore m - daysBefore (m - 1)) =
   if m =? 12 then 365 + (if leap then 1 else 0) else days_before_month leap (m + 1))%Z.
Proof. intros Hm. each_month m; destruct leap; vm_compute; reflexivity. Qed.

(** The months follow one another. *)
Lemma next_month y m : (1 <= m <= 12)%Z -> Date_days y (m + 1) 1 = (date_days y m 1 + daysIn m y)%Z.
Proof.
  intros Hm. unfold Date_days. replace (m + 1 - 1)%Z with m by lia.
  pose proof (month_next (isLeap y) m Hm) as Hn. rewrite daysIn_if. unfold date_days.
  destruct (Z.eqb_spec m 12) as [->|Hne].
  - change (12 / 12)%Z with 1%Z. change (12 mod 12)%Z with 0%Z. rewrite year_length.
    change (days_before_month (isLeap (y + 1)) (0 + 1)) with (0 + (if isLeap (y + 1) && false then 1 else 0))%Z.
    rewrite andb_false_r. lia.
  - rewrite Z.div_small, Z.mod_small by lia. rewrite Z.add_0_r. lia.
Qed.

Lemma Date_days_valid y m d : (1 <= m <= 12)%Z -> Date_days y m d = date_days y m d.
Proof.
  intros Hm. unfold Date_days. rewrite Z.div_small, Z.mod_small by lia. f_equal; lia.
Qed.

Lemma daysIn_range m y : (1 <= m <= 12)%Z -> (28 <= daysIn m y <= 31)%Z.
Proof.
  intros Hm. rewrite daysIn_if.
  each_month m; destruct (isLeap y); vm_compute;
    split; discriminate.
Qed.

Example rfc3339_read :
  ParseRFC3339 "1970-01-01T00:00:00Z" = Some (unix_seconds * Second)%Z /\
  ParseRFC3339 "2024-02-29T23:59:59.5+08:00" = ParseRFC3339 "2024-02-29T15:59:59,50Z" /\
  ParseRFC3339 "2023-02-29T00:00:00Z" = None /\
  ParseRFC3339 "2023-01-01T1:00:00Z" = ParseRFC3339 "2023-01-01T01:00:00Z" /\
  ParseRFC3339 "2023-01-01T00:00:60Z" = None /\ ParseRFC3339 "2023-01-01" = None.
Proof. vm_compute. repeat split. Qed.
Example rfc3339_written :
  FormatRFC3339Nano (unix_seconds * Second + 1500000000)%Z = "1970-01-01T00:00:01.5Z" /\
  FormatRFC3339 (unix_seconds * Second - 1)%Z = "1969-12-31T23:59:59Z".
Proof. vm_compute. split; reflexivity. Qed.

(** ** Months of a location with one offset *)

Definition fixed_offset (loc : Location) (off : Z) : Prop :=
  match loc with UTC => off = 0%Z | Zones l => forall u, z_offset (l u) = off end.

(** Midnight of a local day. *)
Definition midnight (off day : Z) : time := at_sec (day * day_seconds - off) 0.

Lemma midnight_eq off day : midnight off day = (day * 86400000000000 - off * 1000000000)%Z.
Proof. unfold midnight, at_sec, day_seconds, Second. lia. Qed.

Section fixed.
Context (loc : Location) (off : Z) (Hloc : fixed_offset loc off).

Lemma offset_fixed u : offset_at loc u = off.
Proof using Hloc. destruct loc; [done|by apply Hloc]. Qed.

Lemma Date_fixed y m d sod nsec :
  Date y m d sod nsec loc = at_sec (Date_days y m d * day_seconds + sod - off) nsec.
Proof using Hloc.
  unfold Date. destruct loc as [|l]; [cbn in Hloc; subst; by rewrite Z.sub_0_r|]. cbn zeta. rewrite !Hloc.
  destruct (Z.eqb_spec off 0) as [->|_]; [by rewrite Z.sub_0_r|]. by destruct (_ || _).
Qed.

Lemma Date_midnight y m d : Date y m d 0 0 loc = midnight off (Date_days y m d).
Proof using Hloc. rewrite Date_fixed. unfold midnight. f_equal. lia. Qed.

Lemma midnight_sec day : time_sec (midnight off day) = (day * day_seconds - off)%Z.
Proof using Type. unfold midnight, at_sec, time_sec, Second. by rewrite Z.add_0_r, Z.div_mul. Qed.

(** A local day is the time between two midnights. *)
Lemma local_day_bounds t :
  let day := (local_sec loc t / day_seconds)%Z in (midnight off day <= t < midnight off (day + 1))%Z.
Proof using Hloc.
  unfold local_sec, midnight, at_sec. rewrite offset_fixed. cbv zeta. unfold time_sec, Second, day_seconds.
  Z.to_euclidean_division_equations. lia.
Qed.

Lemma local_day_unique t day : (midnight off day <= t < midnight off (day + 1))%Z ->
  (local_sec loc t / day_seconds)%Z = day.
Proof using Hloc.
  unfold local_sec, midnight, at_sec. rewrite offset_fixed. unfold time_sec, Second, day_seconds.
  Z.to_euclidean_division_equations. lia.
Qed.

Lemma midnight_clock day : (local_sec loc (midnight off day) mod day_seconds = 0)%Z.
Proof using Hloc.
  unfold local_sec. rewrite offset_fixed, midnight_sec.
  replace (day * day_seconds - off + off)%Z with (day * day_seconds)%Z by lia. by apply Z.mod_mul.
Qed.

Lemma midnight_mono d1 d2 : (d1 <= d2)%Z <-> (midnight off d1 <= midnight off d2)%Z.
Proof using Type. unfold midnight, at_sec, Second, day_seconds. lia. Qed.

Lemma midnight_civil day : civil_in loc (midnight off day) = civil_of_days day.
Proof using Hloc.
  unfold civil_in. rewrite (local_day_unique _ day); [done|]. unfold midnight, at_sec, Second, day_seconds. lia.
Qed.

(** The first instant of a month; months before 1 and after 12 count on. *)
Definition month_start (y m : Z) : time := midnight off (Date_days y m 1).

Lemma Date_days_shift y m d k : Date_days y (m + 12 * k) d = Date_days (y + k) m d.
Proof using Type.
  unfold Date_days. replace (m + 12 * k - 1)%Z with (m - 1 + k * 12)%Z by lia.
  rewrite Z.div_add, Z.mod_add by done. f_equal. lia.
Qed.

Lemma month_length y m : exists n, (28 <= n <= 31)%Z /\ Date_days y (m + 1) 1 = (Date_days y m 1 + n)%Z /\
  ((1 <= m <= 12)%Z -> n = daysIn m y).
Proof using Type.
  set (k := ((m - 1) / 12)%Z). set (m0 := ((m - 1) mod 12 + 1)%Z).
  assert (Hm0 : (1 <= m0 <= 12)%Z) by (subst m0; pose proof (Z.mod_pos_bound (m - 1) 12 ltac:(done)); lia).
  assert (Hm : m = (m0 + 12 * k)%Z) by (subst m0 k; Z.to_euclidean_division_equations; lia).
  exists (daysIn m0 (y + k)). split; [by apply daysIn_range|]. split.
  - rewrite Hm. replace (m0 + 12 * k + 1)%Z with (m0 + 1 + 12 * k)%Z by lia. rewrite !Date_days_shift.
    rewrite next_month by done. by rewrite Date_days_valid.
  - intros Hv. assert (k = 0%Z) by (subst k; apply Z.div_small; lia). rewrite H in Hm |- *. f_equal; lia.
Qed.

(** The month of an instant, and the instants of a month. *)
Lemma month_bounds t : let c := civil_in loc t in
  (month_start (c_year c) (c_month c) <= t < month_start (c_year c) (c_month c + 1))%Z.
Proof using Hloc.
  cbv zeta. pose proof (local_day_bounds t) as Hb. cbv zeta in Hb. unfold civil_in, month_start. revert Hb.
  generalize (local_sec loc t / day_seconds)%Z. intros day Hb. pose proof (civil_days day) as Hc. cbv zeta in Hc.
  revert Hc. generalize (civil_of_days day). intros c [[Hm Hd] Hn].
  rewrite next_month by done. rewrite Date_days_valid by done. subst day.
  rewrite !midnight_eq in *. unfold date_days in *. lia.
Qed.

Lemma month_unique t y m : (1 <= m <= 12)%Z -> (month_start y m <= t < month_start y (m + 1))%Z ->
  c_year (civil_in loc t) = y /\ c_month (civil_in loc t) = m.
Proof using Hloc.
  intros Hm Ht. pose proof (local_day_bounds t) as Hb. cbv zeta in Hb. unfold civil_in. revert Hb.
  generalize (local_sec loc t / day_seconds)%Z. intros day Hb.
  unfold month_start in Ht. rewrite next_month in Ht by done. rewrite Date_days_valid in Ht by done.
  rewrite !midnight_eq in *.
  assert (Hday : (date_days y m 1 <= day < date_days y m 1 + daysIn m y)%Z) by lia.
  assert (Hd : day = date_days y m (day - date_days y m 1 + 1)) by (unfold date_days; lia).
  rewrite Hd, days_civil; [done|]. split; [done|lia].
Qed.
End fixed.

(** ** What is written is read back *)

Lemma digit_char_ok d : (0 <= d < 10)%Z -> is_digit (digit_char d) = true /\ digit_of (digit_char d) = d.
Proof.
  intros Hd. assert (H : In d [0; 1; 2; 3; 4; 5; 6; 7; 8; 9]%Z) by (cbn [In]; lia). cbn [In] in H.
  repeat (destruct H as [<-|H]; [by vm_compute|]). done.
Qed.

Lemma getnum_two n s : (0 <= n < 100)%Z -> getnum true (digits 2 n +:+ s) = Some (n, s).
Proof.
  intros Hn. cbn [digits String.append]. change (10 ^ Z.of_nat 1)%Z with 10%Z. change (10 ^ Z.of_nat 0)%Z with 1%Z.
  rewrite Z.div_1_r. unfold getnum.
  destruct (digit_char_ok (n / 10)) as [-> ->]; [Z.to_euclidean_division_equations; lia|].
  destruct (digit_char_ok (n mod 10)) as [-> ->]; [Z.to_euclidean_division_equations; lia|]. cbn [negb].
  do 2 f_equal. Z.to_euclidean_division_equations; lia.
Qed.

Lemma getnum_loose n s : (0 <= n < 100)%Z -> getnum false (digits 2 n +:+ s) = Some (n, s).
Proof.
  intros Hn. pose proof (getnum_two n s Hn) as H. destruct (digits 2 n +:+ s) as [|a [|b r]]; [done| |];
    cbn [getnum] in *; destruct (is_digit a); cbn [negb] in *; try discriminate H.
  by destruct (is_digit b).
Qed.

Lemma year_read n s : (0 <= n < 10000)%Z -> parse_year (digits 4 n +:+ s) = Some (n, s).
Proof.
  intros Hn. assert (Hd : digits 4 n +:+ s = digits 2 (n / 100) +:+ (digits 2 (n mod 100) +:+ s)).
  { cbn [digits String.append]. change (10 ^ Z.of_nat 3)%Z with 1000%Z. change (10 ^ Z.of_nat 2)%Z with 100%Z.
    change (10 ^ Z.of_nat 1)%Z with 10%Z. change (10 ^ Z.of_nat 0)%Z with 1%Z.
    assert (E1 : (n / 1000 = n / 100 / 10)%Z) by (Z.to_euclidean_division_equations; lia).
    assert (E2 : (n mod 1000 / 100 = (n / 100) mod 10)%Z) by (Z.to_euclidean_division_equations; lia).
    assert (E3 : ((n mod 1000) mod 100 = n mod 100)%Z) by (Z.to_euclidean_division_equations; lia).
    by rewrite !Z.div_1_r, E3, E2, E1. }
  rewrite Hd. unfold parse_year. rewrite getnum_two by (Z.to_euclidean_division_equations; lia).
  rewrite getnum_two by (Z.to_euclidean_division_equations; lia). do 2 f_equal.
  Z.to_euclidean_division_equations; lia.
Qed.

Lemma digits_digits w : forall n, (0 <= n < 10 ^ Z.of_nat w)%Z ->
  all_bytes is_digit (digits w n) = true /\ str_len (digits w n) = w /\
  forall acc, Z.of_N (dec_value acc (digits w n)) = (Z.of_N acc * 10 ^ Z.of_nat w + n)%Z.
Proof.
  induction w as [|w IH]; intros n Hn; [cbn in *; split_and!; [done..|]; intros acc; lia|].
  rewrite Nat2Z.inj_succ, Z.pow_succ_r in Hn by lia. set (p := (10 ^ Z.of_nat w)%Z) in *.
  assert (Hp : (0 < p)%Z) by (apply Z.pow_pos_nonneg; lia). cbn [digits all_bytes str_len String.length dec_value].
  fold p.
  assert (Hq : (0 <= n / p < 10)%Z) by (split; [apply Z.div_pos; lia|apply Z.div_lt_upper_bound; lia]).
  destruct (digit_char_ok (n / p)%Z Hq) as [-> Hv]. destruct (IH (n mod p)%Z) as (-> & Hl & Hd).
  { apply Z.mod_pos_bound. lia. }
  split; [done|]. split; [by rewrite Hl|]. intros acc. rewrite Hd.
  unfold digit_of in Hv. rewrite N2Z.inj_add, N2Z.inj_mul, Hv. rewrite Nat2Z.inj_succ, Z.pow_succ_r by lia.
  fold p. pose proof (Z.div_mod n p). unfold p in *. lia.
Qed.

Lemma trim_zeros_value s : forall acc, all_bytes is_digit s = true ->
  all_bytes is_digit (trim_zeros s) = true /\ str_len (trim_zeros s) <= str_len s /\
  Z.of_N (dec_value acc s) =
    (Z.of_N (dec_value acc (trim_zeros s)) * 10 ^ (Z.of_nat (str_len s) - Z.of_nat (str_len (trim_zeros s))))%Z.
Proof.
  induction s as [|c s IH]; intros acc Hs; [cbn; split_and!; [done|lia|lia]|].
  cbn [all_bytes] in Hs. apply andb_true_iff in Hs as [Hc Hs]. cbn [trim_zeros dec_value].
  destruct (IH (acc * 10 + (code c - 48))%N Hs) as (Ha & Hl & ->).
  destruct (str_eqb (trim_zeros s) EmptyString) eqn:E; cbn [andb].
  - apply str_eqb_eq in E. rewrite E in *. destruct (byte_eqb c "0") eqn:Ec.
    + apply byte_eqb_eq in Ec as ->. split; [done|]. split; [cbn; lia|].
      cbn [dec_value str_len String.length]. change (code "0" - 48)%N with 0%N.
      rewrite N.add_0_r, N2Z.inj_mul. unfold str_len. cbn [String.length].
      rewrite !Z.sub_0_r, Nat2Z.inj_succ, Z.pow_succ_r by lia. lia.
    + split; [cbn; by rewrite Hc|]. split; [cbn in *; lia|]. cbn [dec_value].
      unfold str_len. cbn [String.length]. do 2 f_equal. lia.
  - split; [cbn [all_bytes]; by rewrite Hc, Ha|]. split; [unfold str_len in *; cbn; lia|].
    cbn [dec_value]. unfold str_len. cbn [String.length]. do 2 f_equal. lia.
Qed.

Lemma is_digit_Z : is_digit "Z" = false.
Proof. reflexivity. Qed.

(** The fraction that is written, read in front of the Z. *)
Lemma frac_read nsec : (0 < nsec < Second)%Z ->
  parse_frac ("." +:+ trim_zeros (digits 9 nsec) +:+ "Z") = (nsec, "Z").
Proof.
  unfold Second. intros Hn. destruct (digits_digits 9 nsec ltac:(change (10 ^ Z.of_nat 9)%Z with 1000000000%Z; lia))
    as (Hd & Hl & Hv). specialize (Hv 0%N).
  destruct (trim_zeros_value (digits 9 nsec) 0 Hd) as (Hdt & Hlt & Hvt). rewrite Hl in Hvt, Hlt.
  set (ds := trim_zeros (digits 9 nsec)) in *. rewrite Hv in Hvt.
  destruct ds as [|d ds'] eqn:E; [cbn in Hvt; lia|]. rewrite <- E in *. unfold parse_frac.
  cbn [String.append]. rewrite E at 1. cbn [String.append]. change (comma_or_period ".") with true.
  assert (Hd1 : is_digit d = true) by (rewrite E in Hdt; cbn [all_bytes] in Hdt; by apply andb_true_iff in Hdt as [? _]).
  rewrite Hd1. cbn [andb].
  rewrite (span_bytes_split is_digit ds "Z" Hdt is_digit_Z).
  assert (Hs : String.substring 0 9 ds = ds).
  { clear -Hlt. revert Hlt. generalize 9%nat. clearbody ds. induction ds as [|c ds IH]; intros k Hk; [by destruct k|].
    destruct k as [|k]; [cbn in Hk; lia|]. cbn. f_equal. apply IH. cbn in Hk. lia. }
  rewrite Hs. f_equal. change (Z.of_nat 9) with 9%Z in Hvt. change (Z.of_N 0) with 0%Z in Hvt. clearbody ds. lia.
Qed.

(** The parts of a second of the day. *)
Lemma clock_parts sod : (0 <= sod < day_seconds)%Z ->
  (0 <= sod / 3600 < 24 /\ 0 <= sod / 60 mod 60 < 60 /\ 0 <= sod mod 60 < 60 /\
   sod = sod / 3600 * 3600 + (sod / 60 mod 60) * 60 + sod mod 60)%Z.
Proof. unfold day_seconds. intros H. Z.to_euclidean_division_equations. lia. Qed.

Definition four_digit_year (t : time) : Prop := (0 <= c_year (civil_in UTC t) < 10000)%Z.

Lemma format_read frac nsec t : four_digit_year t ->
  parse_frac (frac +:+ "Z") = (nsec, "Z") ->
  ParseRFC3339 (format_with frac t) = Some (at_sec (time_sec t) nsec).
Proof.
  unfold four_digit_year, civil_in, local_sec. cbn [offset_at]. rewrite Z.add_0_r. intros Hy Hf.
  set (n := (time_sec t / day_seconds)%Z) in *. set (sod := (time_sec t mod day_seconds)%Z).
  pose proof (civil_days n) as [[Hm Hd] Hn]. pose proof (daysIn_range _ (c_year (civil_of_days n)) Hm) as Hr.
  assert (Hsod : (0 <= sod < day_seconds)%Z) by (by apply Z.mod_pos_bound).
  pose proof (clock_parts sod Hsod) as (Hh & Hmi & Hs & Hsum).
  unfold format_with, civil_in, local_sec. cbn [offset_at]. rewrite Z.add_0_r. fold n sod.
  set (c := civil_of_days n) in *.
  assert (Hpad : forall w k, (0 <= k < 10 ^ Z.of_nat w)%Z -> pad w k = digits w k).
  { intros w k Hk. unfold pad. destruct (Z.leb_spec 0 k), (Z.ltb_spec k (10 ^ Z.of_nat w)); (done || lia). }
  rewrite (Hpad 4), !(Hpad 2) by (change (10 ^ Z.of_nat 4)%Z with 10000%Z; change (10 ^ Z.of_nat 2)%Z with 100%Z; lia).
  unfold ParseRFC3339. rewrite year_read by lia.
  unfold mbind, option_bind. cbn [String.append skip byte_eqb]. rewrite !byte_eqb_refl.
  rewrite getnum_two by lia. cbn [below].
  destruct (Z.leb_spec 1 (c_month c)), (Z.ltb_spec (c_month c) 13); try lia. cbn [andb skip String.append].
  rewrite !byte_eqb_refl, getnum_two by lia. cbn [skip String.append]. rewrite !byte_eqb_refl, getnum_loose by lia.
  cbn [below]. destruct (Z.leb_spec 0 (sod / 3600)), (Z.ltb_spec (sod / 3600) 24); try lia.
  cbn [andb skip String.append]. rewrite !byte_eqb_refl, getnum_two by lia.
  cbn [below]. destruct (Z.leb_spec 0 (sod / 60 mod 60)), (Z.ltb_spec (sod / 60 mod 60) 60); try lia.
  cbn [andb skip String.append]. rewrite !byte_eqb_refl, getnum_two by lia.
  cbn [below]. destruct (Z.leb_spec 0 (sod mod 60)), (Z.ltb_spec (sod mod 60) 60); try lia. cbn [andb].
  rewrite Hf. cbn. destruct (Z.ltb_spec (c_day c) 1), (Z.ltb_spec (daysIn (c_month c) (c_year c)) (c_day c)); try lia.
  cbn [orb]. do 2 f_equal. rewrite Hn. rewrite Z.sub_0_r. pose proof (Z.div_mod (time_sec t) day_seconds ltac:(done)).
  fold n sod in H. lia.
Qed.

Lemma Nano_read t : four_digit_year t -> ParseRFC3339 (FormatRFC3339Nano t) = Some t.
Proof.
  intros Hy. unfold FormatRFC3339Nano. rewrite (format_read _ (time_nsec t) t Hy); [by rewrite at_sec_split|].
  destruct (Z.eqb_spec (time_nsec t) 0) as [E|E]; [by rewrite E|].
  rewrite <- str_app_assoc. apply frac_read. unfold time_nsec in *. pose proof (Z.mod_pos_bound t Second ltac:(done)). lia.
Qed.

(** The text of an instant is read back as that instant: to the nanosecond for
    the long form, and to the second for the short form, for the years that have
    four digits. *)
Lemma RFC3339_roundtrip t : four_digit_year t ->
  ParseRFC3339 (FormatRFC3339Nano t) = Some t /\
  ParseRFC3339 (FormatRFC3339 t) = Some (t - time_nsec t)%Z.
Proof.
  intros Hy. split; [by apply Nano_read|].
  unfold FormatRFC3339. rewrite (format_read EmptyString 0 t) by done. f_equal.
  pose proof (at_sec_split t). unfold at_sec in *. lia.
Qed.
Lemma RFC3339_roundtrip_witness :
  ParseRFC3339 (FormatRFC3339Nano (unix_seconds * Second + 1500000000)) = Some (unix_seconds * Second + 1500000000)%Z.
Proof. apply (RFC3339_roundtrip (unix_seconds * Second + 1500000000)). vm_compute. split; done. Defined.
