(* ===== verification/Usage.v ===== *)
(** * Usage metering (core/usage.go, usage_period.go, usage_scan.go,
      usage_http.go and the usage part of store.go)

    Periods of the calendar, rack hours from the assets, energy from meter
    readings, the table of usage facts with its natural key, the compute and
    list endpoints and the scheduled pass.  The zone database, the queries to
    the time-series database and minted ids are arguments. *)
From Stdlib Require Import SpecFloat.
From stdpp Require Import sorting.
From S2P Require Import Prelude Float64 GoTime CPath RBAC Http PromProj Registry Cursor Pages Assets Calendar.
Open Scope string_scope.
Open Scope list_scope.

(** ** Data (usage.go) *)

Definition UsageKindEnergy : string := "energy".
Definition UsageKindRackHour : string := "rack_hour".
Definition UsageDaily : string := "daily".
Definition UsageMonthly : string := "monthly".

Record Measurement : Type := mkMeasurement {
  me_AssetPath : string; me_Time : time; me_Quantity : float64; me_Unit : string
}.

Record UsageRecord : Type := mkUsage {
  us_ID : string; us_Kind : string; us_TenantID : string; us_OrgID : string; us_SiteID : string;
  us_AssetPath : string; us_PeriodStart : time; us_PeriodEnd : time; us_Granularity : string;
  us_Quantity : float64; us_Unit : string
}.

Record UsageListFilter : Type := mkUsageFilter {
  uf_TenantID : string; uf_SiteID : string; uf_Kind : string; uf_Granularity : string;
  uf_PeriodStart : time; uf_PeriodEnd : time
}.

Definition with_identity (r : UsageRecord) (id tenant org site : string) : UsageRecord :=
  mkUsage id (us_Kind r) tenant org site (us_AssetPath r) (us_PeriodStart r) (us_PeriodEnd r) (us_Granularity r)
    (us_Quantity r) (us_Unit r).

Definition usageNaturalKey (r : UsageRecord) : string :=
  us_Kind r +:+ "|" +:+ us_AssetPath r +:+ "|" +:+ FormatRFC3339Nano (us_PeriodStart r) +:+ "|" +:+
  FormatRFC3339Nano (us_PeriodEnd r) +:+ "|" +:+ us_Granularity r.

(** [strings.IndexByte(path, '.')] *)
Definition siteIDFromPath (path : string) : string :=
  match cut_at "." path with Some (site, _) => site | None => path end.

Definition EnrichUsageIdentity (rg : registry) (rec : UsageRecord) : UsageRecord :=
  let rec := if str_eqb (us_SiteID rec) EmptyString
             then with_identity rec (us_ID rec) (us_TenantID rec) (us_OrgID rec) (siteIDFromPath (us_AssetPath rec))
             else rec in
  if str_eqb (us_SiteID rec) EmptyString then rec
  else match rg_siteOrgs rg !! us_SiteID rec with
  | None => rec
  | Some so =>
      if str_eqb (so_OrgID so) EmptyString then rec
      else
        let org := if str_eqb (us_OrgID rec) EmptyString then so_OrgID so else us_OrgID rec in
        let tenant := if str_eqb (us_TenantID rec) EmptyString
                      then match rg_orgs rg !! so_OrgID so with Some o => og_TenantID o | None => EmptyString end
                      else us_TenantID rec in
        with_identity rec (us_ID rec) tenant org (us_SiteID rec)
  end.

(** [Duration.Hours] *)
Definition Hours (d : Duration) : float64 :=
  fadd (f_of_Z (Z.quot d Hour)) (fdiv (f_of_Z (Z.rem d Hour)) (f_of_Z Hour)).

Definition billed_rack (a : asset_view) : bool :=
  str_eqb (spec_string (av_Spec a) "type") "rack" && str_eqb (spec_string (av_Spec a) "lifecycle") "active".

Definition ComputeRackHourUsage (assets : list asset_view) (start end_ : time) (g : string) : list UsageRecord :=
  let hours := Hours (time_sub end_ start) in
  (fun a => mkUsage EmptyString UsageKindRackHour EmptyString EmptyString (siteIDFromPath (av_Path a)) (av_Path a)
              start end_ g hours "h") <$> List.filter billed_rack assets.

(** The loop over the measurements: the sums, and the paths in the order they
    were first seen. *)
Definition metered (start end_ : time) (m : Measurement) : bool :=
  str_eqb (me_Unit m) "kWh" && (start <=? me_Time m)%Z && (me_Time m <? end_)%Z.

Fixpoint sum_energy (start end_ : time) (ms : list Measurement) (sums : gmap string float64) (order : list string) :
    gmap string float64 * list string :=
  match ms with
  | [] => (sums, order)
  | m :: ms' =>
      if negb (metered start end_ m) then sum_energy start end_ ms' sums order
      else
        let order := match sums !! me_AssetPath m with None => order ++ [me_AssetPath m] | Some _ => order end in
        sum_energy start end_ ms'
          (<[me_AssetPath m := fadd (default f0 (sums !! me_AssetPath m)) (me_Quantity m)]> sums) order
  end.

Definition ComputeEnergyUsage (ms : list Measurement) (start end_ : time) (g : string) : list UsageRecord :=
  let '(sums, order) := sum_energy start end_ ms ∅ [] in
  (fun path => mkUsage EmptyString UsageKindEnergy EmptyString EmptyString (siteIDFromPath path) path start end_ g
                 (default f0 (sums !! path)) "kWh") <$> order.

(** ** Periods (usage_period.go, usage_scan.go) *)

Definition previousUTCDay (now : time) : time * time :=
  let c := civil_in UTC now in
  let end_ := Date (c_year c) (c_month c) (c_day c) 0 0 UTC in
  (time_add end_ (- (24 * Hour)), end_).

Definition previousCalendarMonth (now : time) (loc : Location) : time * time :=
  let c := civil_in loc now in
  let end_ := Date (c_year c) (c_month c) 1 0 0 loc in
  (AddDate loc end_ 0 (-1) 0, end_).

Section zones.
Context (LoadLocation : string -> option Location).

Definition locationFromSiteSpec (sp : option spec) : Location :=
  let raw := TrimSpace (spec_string sp "timezone") in
  if str_eqb raw EmptyString then UTC else default UTC (LoadLocation raw).

Definition has_string (sp : spec) (key : string) : bool :=
  match sp !! key with Some (JString _) => true | _ => false end.

(** The body of the loop of [siteLocationMap]. *)
Definition add_location (out : gmap string Location) (a : asset_view) : gmap string Location :=
  let path := av_Path a in
  let site := siteIDFromPath path in
  if str_eqb site EmptyString then out
  else if negb (str_eqb path site) && negb (str_eqb path (site +:+ ".")) && bool_decide (is_Some (out !! site)) then out
  else match av_Spec a with
  | None => out
  | Some sp =>
      if negb (has_string sp "timezone") && negb (str_eqb path site) then out
      else <[site := locationFromSiteSpec (Some sp)]> out
  end.
Definition siteLocationMap (assets : list asset_view) : gmap string Location := foldl add_location ∅ assets.
Definition locationForSite (m : gmap string Location) (site : string) : Location := default UTC (m !! site).
End zones.

(** ** The table of facts (store.go) *)

Abbreviation usages := (gmap string UsageRecord).

Inductive usage_err : Type := ErrUsageSave.

(** [new] is the minted id, [saved] whether the save succeeds. *)
Definition UpsertUsage (tbl : usages) (rec : UsageRecord) (new : string) (saved : bool) :
    usages * result usage_err UsageRecord :=
  let id :=
    if str_eqb (us_ID rec) EmptyString then
      match List.find (fun kv => str_eqb (usageNaturalKey kv.2) (usageNaturalKey rec)) (map_to_list tbl) with
      | Some (id, _) => id
      | None => new
      end
    else us_ID rec in
  let rec := with_identity rec id (us_TenantID rec) (us_OrgID rec) (us_SiteID rec) in
  if saved then (<[id := rec]> tbl, Ok rec) else (tbl, Err ErrUsageSave).

Definition usage_wanted (f : UsageListFilter) (r : UsageRecord) : bool :=
  (str_eqb (uf_TenantID f) EmptyString || str_eqb (us_TenantID r) (uf_TenantID f)) &&
  (str_eqb (uf_SiteID f) EmptyString || str_eqb (us_SiteID r) (uf_SiteID f)) &&
  (str_eqb (uf_Kind f) EmptyString || str_eqb (us_Kind r) (uf_Kind f)) &&
  (str_eqb (uf_Granularity f) EmptyString || str_eqb (us_Granularity r) (uf_Granularity f)) &&
  (IsZero (uf_PeriodEnd f) || (us_PeriodStart r <? uf_PeriodEnd f)%Z) &&
  (IsZero (uf_PeriodStart f) || (uf_PeriodStart f <? us_PeriodEnd r)%Z).

(** The order of the list: period, path, kind; rows that agree on the three may
    come in any order, since they are collected from a map. *)
Definition usage_le (a b : UsageRecord) : Prop :=
  (us_PeriodStart a < us_PeriodStart b)%Z \/
  (us_PeriodStart a = us_PeriodStart b /\ pair_lt (us_AssetPath b, us_Kind b) (us_AssetPath a, us_Kind a) = false).
Definition usage_listed (tbl : usages) (f : UsageListFilter) (all : list UsageRecord) : Prop :=
  all ≡ₚ List.filter (usage_wanted f) (map_to_list tbl).*2 /\ StronglySorted usage_le all.

(** ** The compute endpoint (usage_http.go) *)

Record usageComputeRequest : Type := mkUsageCompute {
  uc_PeriodStart : time; uc_PeriodEnd : time; uc_Granularity : string; uc_Kinds : list string;
  uc_Measurements : list Measurement
}.

(** The loop over the computed facts; [new k] and [saved k] are the minted id
    and the outcome of the [k]-th save. *)
Fixpoint store_computed (tenant : option string) (rg : registry) (recs : list UsageRecord)
    (new : nat -> string) (saved : nat -> bool) (k : nat) (tbl : usages) :
    usages * result problem (list UsageRecord) :=
  match recs with
  | [] => (tbl, Ok [])
  | rec :: recs' =>
      let rec := match tenant with
                 | Some tid => with_identity rec (us_ID rec) tid (us_OrgID rec) (us_SiteID rec)
                 | None => rec
                 end in
      match UpsertUsage tbl (EnrichUsageIdentity rg rec) (new k) (saved k) with
      | (tbl, Err _) => (tbl, Err store_error)
      | (tbl, Ok r) =>
          let '(tbl, rs) := store_computed tenant rg recs' new saved (S k) tbl in
          (tbl, rs ← rs; mret (r :: rs))
      end
  end.

Definition computed_facts (assets : list asset_view) (req : usageComputeRequest) : result problem (list UsageRecord) :=
  if IsZero (uc_PeriodStart req) || IsZero (uc_PeriodEnd req) then Err (bad_request "missing period")
  else if (uc_PeriodEnd req <=? uc_PeriodStart req)%Z then Err (bad_request "bad period")
  else if str_eqb (uc_Granularity req) EmptyString then Err (bad_request "missing granularity")
  else if negb (str_eqb (uc_Granularity req) UsageDaily || str_eqb (uc_Granularity req) UsageMonthly)
  then Err (bad_request "bad granularity")
  else if negb (forallb (fun k => str_eqb k UsageKindEnergy || str_eqb k UsageKindRackHour) (uc_Kinds req))
  then Err (bad_request "bad kind")
  else
    let want k := match uc_Kinds req with [] => true | ks => contains_string ks k end in
    let s := uc_PeriodStart req in let e := uc_PeriodEnd req in let g := uc_Granularity req in
    Ok ((if want UsageKindRackHour then ComputeRackHourUsage assets s e g else []) ++
        (if want UsageKindEnergy then ComputeEnergyUsage (uc_Measurements req) s e g else [])).

Definition serveUsageCompute (tbl : usages) (rg : registry) (assets : list asset_view)
    (auth : option Principal) (tenant : option string) (body : option usageComputeRequest)
    (new : nat -> string) (saved : nat -> bool) : usages * result problem (list UsageRecord) :=
  if negb (match auth with Some p => bool_decide (p_Role p = RoleAdmin) | None => false end)
  then (tbl, Err (Problem 403 "forbidden" "forbidden"))
  else match body with
  | None => (tbl, Err (bad_request "bad json"))
  | Some req =>
      match computed_facts assets req with
      | Err e => (tbl, Err e)
      | Ok recs => store_computed tenant rg recs new saved 0 tbl
      end
  end.

(** ** The list endpoint *)

Record usageQuery : Type := mkUsageQuery {
  qu_tenant_id : string; qu_site_id : string; qu_kind : string; qu_granularity : string;
  qu_period_start : string; qu_period_end : string; qu_page_size : string; qu_page_token : string
}.

Definition parse_bound (title v : string) : result problem time :=
  if str_eqb v EmptyString then Ok zero_time
  else match ParseRFC3339 v with Some t => Ok t | None => Err (bad_request title) end.

Definition parseUsageListQuery (tenant : option string) (q : usageQuery) :
    result problem (UsageListFilter * Z * Z) :=
  tid ← match tenant with
        | Some tid => if negb (str_eqb (qu_tenant_id q) EmptyString) && negb (str_eqb (qu_tenant_id q) tid)
                      then Err scope_mismatch else Ok tid
        | None => Ok (qu_tenant_id q)
        end;
  if negb (contains_string [EmptyString; UsageKindEnergy; UsageKindRackHour] (qu_kind q))
  then Err (bad_request "bad kind")
  else if negb (contains_string [EmptyString; UsageDaily; UsageMonthly] (qu_granularity q))
  then Err (bad_request "bad granularity")
  else
    from ← parse_bound "bad period_start" (qu_period_start q);
    to ← parse_bound "bad period_end" (qu_period_end q);
    pageSize ← parsePageSize (qu_page_size q);
    startIdx ← (if str_eqb (qu_page_token q) EmptyString then Ok 0%Z
                else match Atoi (qu_page_token q) with
                     | Some n => if (n <? 0)%Z then Err bad_token else Ok n
                     | None => Err bad_token
                     end);
    mret (mkUsageFilter tid (qu_site_id q) (qu_kind q) (qu_granularity q) from to, pageSize, startIdx).

(** [list f] is what [ListUsage] returned. *)
Definition serveUsage (list_ : UsageListFilter -> list UsageRecord) (tenant : option string) (q : usageQuery) :
    result problem (list UsageRecord * string) :=
  '(f, pageSize, startIdx) ← parseUsageListQuery tenant q;
  let items := list_ f in
  let startIdx := Z.min startIdx (Z.of_nat (length items)) in
  let page := drop (Z.to_nat startIdx) items in
  mret (if (pageSize <? Z.of_nat (length page))%Z
        then (take (Z.to_nat pageSize) page, itoa (startIdx + pageSize)) else (page, EmptyString)).

(** The export, every matching record; the fields of a row, the quantity as the
    formatter writes it. *)
Definition export_row (formatFloat : float64 -> string) (r : UsageRecord) : list string :=
  [us_ID r; us_Kind r; us_TenantID r; us_SiteID r; us_AssetPath r; FormatRFC3339 (us_PeriodStart r);
   FormatRFC3339 (us_PeriodEnd r); us_Granularity r; formatFloat (us_Quantity r); us_Unit r].
Definition serveUsageExport (formatFloat : float64 -> string) (list_ : UsageListFilter -> list UsageRecord)
    (tenant : option string) (q : usageQuery) : result problem (list (list string)) :=
  '(f, _, _) ← parseUsageListQuery tenant q;
  mret (["id"; "kind"; "tenant_id"; "site_id"; "asset_path"; "period_start"; "period_end"; "granularity"; "quantity";
         "unit"] :: (export_row formatFloat <$> list_ f)).

(** ** The scheduled pass (usage_scan.go)

    [vm] answers a query with a number, or not at all; [None] when no database
    is configured. *)

(** [escapeLabelValue] *)
Fixpoint escapeLabelValue (s : string) : string :=
  match s with
  | EmptyString => EmptyString
  | String c r =>
      (if byte_eqb c BS then String BS (String BS EmptyString)
       else if byte_eqb c DQ then String BS (String DQ EmptyString)
       else if byte_eqb c LF then String BS "n" else String c EmptyString) +:+ escapeLabelValue r
  end.

Section scan.
Context (LoadLocation : string -> option Location) `{MapOrder} (vm : option (string -> option float64)).

Definition metric_query (fn metric assetPath window : string) : string :=
  fn +:+ "(" +:+ metric +:+ "{asset_path=" +:+ String DQ (escapeLabelValue assetPath +:+ String DQ
    ("}[" +:+ window +:+ "])")).

(** [int(hours+0.5)] hours; a window of no hours asks for a day. *)
Definition window_of (hours : float64) : string :=
  let window := itoa (trunc_float (fadd hours (fdiv f1 (f_of_Z 2)))) +:+ "h" in
  if str_eqb window "0h" then "24h" else window.

(** The increase of the energy counter, else the mean power times the hours. *)
Definition fetch_kwh (ask : string -> option float64) (path window : string) (hours : float64) : option float64 :=
  match ask (metric_query "increase" "cios_energy_kwh" path window) with
  | Some kwh => Some kwh
  | None =>
      match ask (metric_query "avg_over_time" "cios_power_watt" path window) with
      | Some watts => Some (fdiv (fmul watts hours) (f_of_Z 1000))
      | None => None
      end
  end.

Fixpoint fetch_loop (ask : string -> option float64) (window : string) (hours : float64) (mid : time)
    (assets : list asset_view) (seen : gset string) : list Measurement :=
  match assets with
  | [] => []
  | a :: assets' =>
      let path := av_Path a in
      if str_eqb path EmptyString || bool_decide (path ∈ seen)
      then fetch_loop ask window hours mid assets' seen
      else match fetch_kwh ask path window hours with
      | None => fetch_loop ask window hours mid assets' seen
      | Some kwh =>
          if fleb kwh f0 then fetch_loop ask window hours mid assets' seen
          else mkMeasurement path mid kwh "kWh" :: fetch_loop ask window hours mid assets' ({[path]} ∪ seen)
      end
  end.

Definition fetchEnergyMeasurements (assets : list asset_view) (start end_ : time) : list Measurement :=
  match vm with
  | None => []
  | Some ask =>
      let hours := Hours (time_sub end_ start) in
      if fleb hours f0 then []
      else fetch_loop ask (window_of hours) hours (time_add start (Z.quot (time_sub end_ start) 2)) assets ∅
  end.

Definition computeUsageWindow (assets : list asset_view) (start end_ : time) (g : string) : list UsageRecord :=
  ComputeRackHourUsage assets start end_ g ++ ComputeEnergyUsage (fetchEnergyMeasurements assets start end_) start end_ g.

(** The site of an asset as the pass groups them, and the sites that occur. *)
Definition site_group (a : asset_view) : string :=
  let sid := siteIDFromPath (av_Path a) in if str_eqb sid EmptyString then "_" else sid.
Definition sites_of (assets : list asset_view) : list string := remove_dups (site_group <$> assets).

Definition tick_facts (assets : list asset_view) (now : time) : list UsageRecord :=
  let '(dStart, dEnd) := previousUTCDay now in
  let locs := siteLocationMap LoadLocation assets in
  computeUsageWindow assets dStart dEnd UsageDaily ++
  concat ((fun sid =>
    let '(mStart, mEnd) := previousCalendarMonth now (locationForSite locs sid) in
    computeUsageWindow (List.filter (fun a => str_eqb (site_group a) sid) assets) mStart mEnd UsageMonthly)
    <$> shuffle (sites_of assets)).

(** A fact that cannot be stored is logged and skipped. *)
Fixpoint store_tick (rg : registry) (recs : list UsageRecord) (new : nat -> string) (saved : nat -> bool) (k : nat)
    (tbl : usages) : usages :=
  match recs with
  | [] => tbl
  | rec :: recs' =>
      store_tick rg recs' new saved (S k) (UpsertUsage tbl (EnrichUsageIdentity rg rec) (new k) (saved k)).1
  end.

Definition scanUsageTick (locked : bool) (rg : registry) (assets : list asset_view) (now : time)
    (new : nat -> string) (saved : nat -> bool) (tbl : usages) : usages :=
  if negb locked then tbl else store_tick rg (tick_facts assets now) new saved 0 tbl.
End scan.

(** ** Periods *)

(** The month of an instant moved by [k] months: its first instant. *)
Definition first_of (off : Z) (loc : Location) (t : time) (k : Z) : time :=
  month_start off (c_year (civil_in loc t)) (c_month (civil_in loc t) + k).

Lemma first_valid loc t : valid_date (c_year (civil_in loc t)) (c_month (civil_in loc t)) 1.
Proof.
  unfold civil_in. generalize (local_sec loc t / day_seconds)%Z. intros n.
  pose proof (civil_days n) as [[Hm Hd] _]. split; [exact Hm|]. lia.
Qed.
Lemma civil_month loc t : (1 <= c_month (civil_in loc t) <= 12)%Z.
Proof. destruct (first_valid loc t) as [H _]. exact H. Qed.
#[local] Opaque civil_in civil_of_days.

Section fixed_zone.
Context (loc : Location) (off : Z) (Hloc : fixed_offset loc off).

Lemma midnight_nsec day : time_nsec (midnight off day) = 0%Z.
Proof using Type. unfold midnight, at_sec, time_nsec. rewrite Z.add_0_r. by apply Z.mod_mul. Qed.

Lemma month_window y m : valid_date y m 1 ->
  Date y m 1 0 0 loc = month_start off y m /\
  AddDate loc (month_start off y m) 0 (-1) 0 = month_start off y (m - 1).
Proof using Hloc.
  intros Hv. split; [by apply (Date_midnight loc off Hloc)|]. unfold AddDate, month_start.
  rewrite (midnight_civil loc off Hloc), (midnight_clock loc off Hloc), midnight_nsec.
  rewrite Date_days_valid by apply Hv. rewrite days_civil by done. cbn [c_year c_month c_day].
  rewrite !Z.add_0_r. by apply Date_midnight.
Qed.

Lemma previousCalendarMonth_fixed now :
  previousCalendarMonth now loc = (first_of off loc now (-1), first_of off loc now 0).
Proof using Hloc.
  unfold previousCalendarMonth, first_of.
  destruct (month_window (c_year (civil_in loc now)) (c_month (civil_in loc now))) as [-> ->]; [apply first_valid|].
  by rewrite Z.add_0_r.
Qed.

(** The instants of the same month and of the next. *)
Lemma first_of_same now now' :
  (first_of off loc now 0 <= now' < first_of off loc now 1)%Z ->
  forall k, first_of off loc now' k = first_of off loc now k.
Proof using Hloc.
  intros H k. unfold first_of in *. rewrite Z.add_0_r in H.
  apply (month_unique loc off Hloc) in H as [-> ->]; [done|]. apply civil_month.
Qed.

Lemma first_of_next now now' :
  (first_of off loc now 1 <= now' < first_of off loc now 2)%Z ->
  forall k, first_of off loc now' k = first_of off loc now (k + 1).
Proof using Hloc.
  intros H k. pose proof (civil_month loc now) as Hm. unfold first_of in *.
  revert Hm H. generalize (c_year (civil_in loc now)) (c_month (civil_in loc now)). intros y m Hm H.
  destruct (decide (m = 12%Z)) as [->|E].
  - assert (Hs : forall j, month_start off y (12 + j) = month_start off (y + 1) j).
    { intros j. unfold month_start. replace (12 + j)%Z with (j + 12 * 1)%Z by lia. by rewrite Date_days_shift. }
    rewrite !Hs in H. apply (month_unique loc off Hloc) in H as [-> ->]; [|lia]. rewrite Hs. f_equal. lia.
  - replace (m + 2)%Z with (m + 1 + 1)%Z in H by lia.
    apply (month_unique loc off Hloc) in H as [-> ->]; [|lia]. f_equal. lia.
Qed.
End fixed_zone.

Definition Day : Duration := (24 * Hour)%Z.

Lemma Hours_days n : (0 <= n <= 31)%Z -> Hours (n * Day) = f_of_Z (24 * n).
Proof.
  intros Hn. assert (Hin : In n (Z.of_nat <$> seq 0 32)).
  { apply list_elem_of_In, list_elem_of_fmap. exists (Z.to_nat n). split; [by rewrite Z2Nat.id by lia|].
    apply elem_of_seq. lia. }
  cbn [fmap list_fmap seq In] in Hin. repeat (destruct Hin as [<-|Hin]; [by vm_compute|]). done.
Qed.

Lemma month_hours off y m : exists n, (28 <= n <= 31)%Z /\
  (month_start off y (m + 1) - month_start off y m = n * Day)%Z /\
  Hours (time_sub (month_start off y (m + 1)) (month_start off y m)) = f_of_Z (24 * n).
Proof.
  destruct (month_length y m) as (n & Hn & Hd & _). exists n. split; [done|].
  assert (Hdiff : (month_start off y (m + 1) - month_start off y m = n * Day)%Z).
  { unfold month_start. rewrite Hd, !midnight_eq. unfold Day, Hour, Minute, Second. lia. }
  split; [done|]. unfold time_sub. rewrite Hdiff.
  assert (Hb : (min_int64 <= n * Day <= max_int64)%Z)
    by (unfold min_int64, max_int64, Day, Hour, Minute, Second; lia).
  rewrite Z.min_r, Z.max_r by lia. apply Hours_days. lia.
Qed.

Definition ordinary (t : time) : Prop := (0 <= time_sec t <= 2 ^ 62)%Z.

(** Midnight of the day of an instant. *)
Definition day_start (t : time) : time := midnight 0 (time_sec t / day_seconds).

Lemma day_start_bounds t : (day_start t <= t < day_start t + Day)%Z.
Proof.
  unfold day_start. rewrite midnight_eq. unfold Day, Hour, Minute, time_sec, Second, day_seconds.
  Z.to_euclidean_division_equations. lia.
Qed.

Lemma day_start_unique t t' : (day_start t <= t' < day_start t + Day)%Z -> day_start t' = day_start t.
Proof.
  unfold day_start. rewrite !midnight_eq. unfold Day, Hour, Minute, time_sec, Second, day_seconds.
  intros H. Z.to_euclidean_division_equations. lia.
Qed.

Lemma day_start_next t t' : (day_start t + Day <= t' < day_start t + 2 * Day)%Z -> day_start t' = (day_start t + Day)%Z.
Proof.
  unfold day_start. rewrite !midnight_eq. unfold Day, Hour, Minute, time_sec, Second, day_seconds.
  intros H. Z.to_euclidean_division_equations. lia.
Qed.

#[local] Transparent civil_in.
Lemma previousUTCDay_start now : ordinary now -> previousUTCDay now = ((day_start now - Day)%Z, day_start now).
Proof.
  intros Ho. unfold previousUTCDay, day_start. cbn zeta. unfold civil_in, local_sec. cbn [offset_at]. rewrite Z.add_0_r.
  assert (Hd : (0 <= time_sec now / day_seconds /\ time_sec now / day_seconds * 86400 <= 2 ^ 62)%Z).
  { unfold ordinary, day_seconds in *. Z.to_euclidean_division_equations. lia. }
  revert Hd. generalize (time_sec now / day_seconds)%Z. intros n Hd.
  pose proof (civil_days n) as [[Hm Hv] Hn]. cbv zeta in *. revert Hm Hv Hn. generalize (civil_of_days n). intros c Hm Hv Hn.
  rewrite (Date_midnight UTC 0 eq_refl), Date_days_valid, Hn by done. f_equal.
  rewrite time_add_exact; [unfold Day; lia|]. rewrite midnight_eq. unfold time_sec, Hour, Minute, Second, max_int64.
  replace (n * 86400000000000 - 0 * 1000000000 + - (24 * (60 * (60 * 1000000000))))%Z
    with ((n - 1) * 86400 * 1000000000)%Z by lia.
  rewrite Z.div_mul by done. lia.
Qed.

(** Billing periods tile the calendar: in a location with one offset (UTC
    among them) the month that a pass bills is the month before the one of the
    clock, every clock reading of the same month bills the same period, and the
    readings of the next month the period that begins where this one ends; a
    period has 28 to 31 whole days, and every rack is billed exactly that many
    times 24 hours; likewise for the days. *)
Lemma billing_periods loc off now assets g :
  fixed_offset loc off -> ordinary now ->
  let first := first_of off loc now in
  (previousCalendarMonth now loc = (first (-1), first 0) /\ first 0 <= now < first 1 /\
   (forall now', first 0 <= now' < first 1 -> previousCalendarMonth now' loc = (first (-1), first 0)) /\
   (forall now', first 1 <= now' < first 2 -> previousCalendarMonth now' loc = (first 0, first 1)) /\
   exists n, 28 <= n <= 31 /\ first 0 - first (-1) = n * Day /\
     forall r, r ∈ ComputeRackHourUsage assets (first (-1)) (first 0) g -> us_Quantity r = f_of_Z (24 * n))%Z /\
  let today := day_start now in
  (previousUTCDay now = (today - Day, today) /\ today <= now < today + Day /\
   (forall now', ordinary now' -> today <= now' < today + Day -> previousUTCDay now' = (today - Day, today)) /\
   (forall now', ordinary now' -> today + Day <= now' < today + 2 * Day -> previousUTCDay now' = (today, today + Day)))%Z.
Proof.
  intros Hloc Ho. cbv zeta. split; [split_and!|split_and!].
  - by apply previousCalendarMonth_fixed.
  - pose proof (month_bounds loc off Hloc now) as Hb. cbv zeta in Hb. unfold first_of. rewrite Z.add_0_r. apply Hb.
  - pose proof (month_bounds loc off Hloc now) as Hb. cbv zeta in Hb. unfold first_of. apply Hb.
  - intros now' H. rewrite (previousCalendarMonth_fixed loc off Hloc). by rewrite !(first_of_same loc off Hloc now now' H).
  - intros now' H. rewrite (previousCalendarMonth_fixed loc off Hloc).
    by rewrite !(first_of_next loc off Hloc now now' H).
  - destruct (month_hours off (c_year (civil_in loc now)) (c_month (civil_in loc now) + -1)) as (n & Hn & Hd & Hh).
    replace (c_month (civil_in loc now) + -1 + 1)%Z with (c_month (civil_in loc now) + 0)%Z in * by lia.
    exists n. split; [done|]. split; [exact Hd|]. intros r (a & -> & _)%list_elem_of_fmap. exact Hh.
  - by apply previousUTCDay_start.
  - apply day_start_bounds.
  - apply day_start_bounds.
  - intros now' Ho' H. rewrite previousUTCDay_start by done. by rewrite (day_start_unique now now' H).
  - intros now' Ho' H. rewrite previousUTCDay_start by done. rewrite (day_start_next now now' H). f_equal. lia.
Qed.

(** ** Energy *)

(** The readings of one asset that count, in order. *)
Definition readings (start end_ : time) (p : string) (ms : list Measurement) : list float64 :=
  me_Quantity <$> List.filter (fun m => metered start end_ m && str_eqb (me_AssetPath m) p) ms.

Definition summed (s0 : option float64) (qs : list float64) : option float64 :=
  match qs with [] => s0 | _ => Some (foldl fadd (default f0 s0) qs) end.

Lemma summed_cons s0 q qs : summed s0 (q :: qs) = summed (Some (fadd (default f0 s0) q)) qs.
Proof. by destruct qs. Qed.

Lemma sum_energy_spec start end_ ms : forall sums order,
  NoDup order -> (forall p, p ∈ order <-> is_Some (sums !! p)) ->
  let '(sums', order') := sum_energy start end_ ms sums order in
  NoDup order' /\ (forall p, p ∈ order' <-> is_Some (sums' !! p)) /\
  forall p, sums' !! p = summed (sums !! p) (readings start end_ p ms).
Proof.
  induction ms as [|m ms IH]; intros sums order Hnd Hin; cbn [sum_energy]; [done|].
  destruct (metered start end_ m) eqn:Em; cbn [negb].
  - set (p0 := me_AssetPath m). set (order1 := match sums !! p0 with None => order ++ [p0] | Some _ => order end).
    set (sums1 := <[p0 := _]> sums).
    assert (H1 : NoDup order1 /\ forall p, p ∈ order1 <-> is_Some (sums1 !! p)).
    { subst order1 sums1. destruct (sums !! p0) as [v|] eqn:E.
      - split; [done|]. intros p. rewrite Hin, lookup_insert. case_decide as Hp; [|done]. subst p. rewrite E. split; by eexists.
      - split.
        + apply NoDup_app. split; [done|]. split; [|by apply NoDup_singleton].
          intros x Hx ->%list_elem_of_singleton. apply Hin in Hx. rewrite E in Hx. by destruct Hx.
        + intros p. rewrite elem_of_app, list_elem_of_singleton, Hin, lookup_insert. case_decide as Hp.
          * subst p. split; [by eexists|by right].
          * split; [|by left]. intros [?|Hx]; [done|]. by rewrite Hx in Hp. }
    destruct H1 as [Hnd1 Hin1]. specialize (IH sums1 order1 Hnd1 Hin1).
    destruct (sum_energy start end_ ms sums1 order1) as [sums' order']. destruct IH as (Ha & Hb & Hc).
    split; [done|]. split; [done|]. intros p. rewrite Hc. unfold readings at 2. cbn [List.filter]. rewrite Em. cbn [andb].
    subst sums1. rewrite lookup_insert. fold p0. case_decide as Hp.
    + subst p. rewrite str_eqb_refl. cbn [fmap list_fmap]. by rewrite summed_cons.
    + apply str_eqb_neq in Hp. by rewrite Hp.
  - specialize (IH sums order Hnd Hin). destruct (sum_energy start end_ ms sums order) as [sums' order'].
    destruct IH as (Ha & Hb & Hc). split; [done|]. split; [done|]. intros p. rewrite Hc. unfold readings. cbn [List.filter].
    by rewrite Em.
Qed.

(** One record per asset that has a reading in the period, with the sum of its
    readings in their order; no other record. *)
Lemma ComputeEnergyUsage_exact ms start end_ g p :
  List.filter (fun r => str_eqb (us_AssetPath r) p) (ComputeEnergyUsage ms start end_ g) =
  match readings start end_ p ms with
  | [] => []
  | qs => [mkUsage EmptyString UsageKindEnergy EmptyString EmptyString (siteIDFromPath p) p start end_ g
             (foldl fadd f0 qs) "kWh"]
  end.
Proof.
  unfold ComputeEnergyUsage.
  pose proof (sum_energy_spec start end_ ms ∅ [] (NoDup_nil_2)) as H.
  destruct (sum_energy start end_ ms ∅ []) as [sums order]. destruct H as (Hnd & Hin & Hs).
  { intros p'. rewrite lookup_empty. split; [by intros ?%elem_of_nil|by intros []]. }
  specialize (Hs p). specialize (Hin p). rewrite lookup_empty in Hs.
  set (mk := fun path => mkUsage _ _ _ _ (siteIDFromPath path) path _ _ _ (default f0 (sums !! path)) _).
  assert (Hone : forall l, NoDup l -> List.filter (fun r => str_eqb (us_AssetPath r) p) (mk <$> l) =
    if decide (p ∈ l) then [mk p] else []).
  { clear. induction l as [|x l IH]; intros Hnd; [done|]. apply NoDup_cons in Hnd as [Hx Hnd].
    cbn [fmap list_fmap List.filter us_AssetPath mk]. rewrite IH by done.
    destruct (str_eqb x p) eqn:E.
    - apply str_eqb_eq in E as ->. rewrite (decide_False (P := p ∈ l)) by done.
      by rewrite decide_True by (by left).
    - apply str_eqb_neq in E. destruct (decide (p ∈ l)) as [Hp|Hp].
      + by rewrite decide_True by (by right).
      + rewrite decide_False; [done|]. intros [->|?]%elem_of_cons; done. }
  rewrite Hone by done. destruct (readings start end_ p ms) as [|q qs] eqn:E; cbn [summed] in Hs.
  - rewrite decide_False; [done|]. rewrite Hin, Hs. by intros [].
  - rewrite decide_True by (apply Hin; rewrite Hs; by eexists). unfold mk. by rewrite Hs.
Qed.

(** ** The table is a map of facts *)

Abbreviation fact := (string * string * time * time * string)%type.
Definition fact_of (r : UsageRecord) : fact :=
  (us_Kind r, us_AssetPath r, us_PeriodStart r, us_PeriodEnd r, us_Granularity r).

(** What the natural key tells apart. *)
Record good_fact (r : UsageRecord) : Prop := mkGoodFact {
  gf_kind : no_byte "|" (us_Kind r) = true;
  gf_path : no_byte "|" (us_AssetPath r) = true;
  gf_start : four_digit_year (us_PeriodStart r);
  gf_end : four_digit_year (us_PeriodEnd r)
}.

Lemma digits_plain w n : (0 <= n < 10 ^ Z.of_nat w)%Z -> no_byte "|" (digits w n) = true.
Proof.
  intros Hn. destruct (digits_digits w n Hn) as [Hd _]. unfold no_byte. eapply all_bytes_impl; [|exact Hd].
  intros c Hc. destruct (byte_eqb c "|") eqn:E; [|done]. apply byte_eqb_eq in E as ->. discriminate Hc.
Qed.

Lemma pad_plain w n : (0 <= n < 10 ^ Z.of_nat w)%Z -> no_byte "|" (pad w n) = true.
Proof.
  intros Hn. unfold pad. destruct (Z.leb_spec 0 n), (Z.ltb_spec n (10 ^ Z.of_nat w)); try lia. by apply digits_plain.
Qed.

Lemma format_with_plain frac t : four_digit_year t -> no_byte "|" frac = true -> no_byte "|" (format_with frac t) = true.
Proof.
  intros Hy Hf. unfold format_with. pose proof (civil_month UTC t) as Hm. unfold four_digit_year in Hy.
  assert (Hd : (1 <= c_day (civil_in UTC t) <= 31)%Z).
  { unfold civil_in. pose proof (civil_days (local_sec UTC t / day_seconds)) as [[Hm' Hd] _]. cbv zeta in *.
    pose proof (daysIn_range _ (c_year (civil_of_days (local_sec UTC t / day_seconds))) Hm'). lia. }
  pose proof (clock_parts (time_sec t mod day_seconds) ltac:(by apply Z.mod_pos_bound)) as (Hh & Hmi & Hs & _).
  rewrite !no_byte_app, Hf.
  rewrite !pad_plain by (change (10 ^ Z.of_nat 4)%Z with 10000%Z; change (10 ^ Z.of_nat 2)%Z with 100%Z; lia).
  reflexivity.
Qed.

Lemma FormatRFC3339Nano_plain t : four_digit_year t -> no_byte "|" (FormatRFC3339Nano t) = true.
Proof.
  intros Hy. unfold FormatRFC3339Nano. apply format_with_plain; [done|]. destruct (Z.eqb _ _); [done|].
  rewrite no_byte_app. apply andb_true_iff. split; [done|].
  assert (Hn : (0 <= time_nsec t < 10 ^ Z.of_nat 9)%Z).
  { unfold time_nsec. change (10 ^ Z.of_nat 9)%Z with Second. by apply Z.mod_pos_bound. }
  destruct (digits_digits 9 _ Hn) as [Hd _]. destruct (trim_zeros_value _ 0 Hd) as [Ht _].
  unfold no_byte. eapply all_bytes_impl; [|exact Ht]. intros c Hc. destruct (byte_eqb c "|") eqn:E; [|done].
  apply byte_eqb_eq in E as ->. discriminate Hc.
Qed.

(** The text of an instant determines it. *)
Lemma FormatRFC3339Nano_inj t1 t2 : four_digit_year t1 -> four_digit_year t2 ->
  FormatRFC3339Nano t1 = FormatRFC3339Nano t2 -> t1 = t2.
Proof.
  intros H1 H2 E. apply (f_equal ParseRFC3339) in E.
  rewrite !Nano_read in E by done. by injection E.
Qed.

Lemma bar_cut a b r1 r2 : no_byte "|" a = true -> no_byte "|" b = true ->
  a +:+ "|" +:+ r1 = b +:+ "|" +:+ r2 -> a = b /\ r1 = r2.
Proof.
  intros Ha Hb E. apply (f_equal (cut_at "|")) in E. cbn [String.append] in E.
  rewrite !cut_at_app in E by done. by injection E.
Qed.

Lemma usageNaturalKey_inj r1 r2 : good_fact r1 -> good_fact r2 ->
  usageNaturalKey r1 = usageNaturalKey r2 <-> fact_of r1 = fact_of r2.
Proof.
  intros [K1 P1 S1 E1] [K2 P2 S2 E2]. split.
  - unfold usageNaturalKey. intros H.
    apply bar_cut in H as [HK H]; [|done..]. apply bar_cut in H as [HP H]; [|done..].
    apply bar_cut in H as [HS H]; [|by apply FormatRFC3339Nano_plain..].
    apply bar_cut in H as [HE HG]; [|by apply FormatRFC3339Nano_plain..].
    apply FormatRFC3339Nano_inj in HS; [|done..]. apply FormatRFC3339Nano_inj in HE; [|done..].
    unfold fact_of. congruence.
  - unfold fact_of, usageNaturalKey. intros [= -> -> -> -> ->]. done.
Qed.

(** The record without its id, and the table as a map from facts. *)
Definition with_id (r : UsageRecord) (id : string) : UsageRecord :=
  with_identity r id (us_TenantID r) (us_OrgID r) (us_SiteID r).
Definition anonymous (r : UsageRecord) : UsageRecord := with_id r EmptyString.

Abbreviation book := (gmap fact UsageRecord).
Record represents (tbl : usages) (b : book) : Prop := mkRepresents {
  rp_rows : forall id r, tbl !! id = Some r -> us_ID r = id /\ good_fact r /\ b !! fact_of r = Some (anonymous r);
  rp_facts : forall f r, b !! f = Some r -> fact_of r = f /\ exists id, tbl !! id = Some (with_id r id);
  rp_one : forall id1 id2 r1 r2, tbl !! id1 = Some r1 -> tbl !! id2 = Some r2 -> fact_of r1 = fact_of r2 -> id1 = id2
}.

(** Rows keep their fact. *)
Definition ids_kept (tbl tbl' : usages) : Prop :=
  forall id r, tbl !! id = Some r -> exists r', tbl' !! id = Some r' /\ fact_of r' = fact_of r.

Lemma with_id_fact r id : fact_of (with_id r id) = fact_of r.
Proof. done. Qed.
Lemma with_id_good r id : good_fact r -> good_fact (with_id r id).
Proof. by intros [? ? ? ?]. Qed.
Lemma anonymous_with_id r id : us_ID r = EmptyString -> anonymous (with_id r id) = r.
Proof. intros E. unfold anonymous, with_id, with_identity. destruct r. cbn in *. by subst. Qed.

(** The id an upsert uses: that of the row of the fact, else the minted one. *)
Definition row_id (tbl : usages) (rec : UsageRecord) (new id : string) : Prop :=
  (exists r, tbl !! id = Some r /\ fact_of r = fact_of rec) \/
  (id = new /\ forall id' r, tbl !! id' = Some r -> fact_of r <> fact_of rec).

Lemma UpsertUsage_inv tbl b rec new saved : represents tbl b -> good_fact rec -> us_ID rec = EmptyString ->
  exists id, row_id tbl rec new id /\
    UpsertUsage tbl rec new saved =
      if saved then (<[id := with_id rec id]> tbl, Ok (with_id rec id)) else (tbl, Err ErrUsageSave).
Proof.
  intros [Hrows _ _] Hg Hid. unfold UpsertUsage. rewrite Hid. change (str_eqb EmptyString EmptyString) with true.
  destruct (List.find _ (map_to_list tbl)) as [[id r]|] eqn:E.
  - exists id. split; [left|by destruct saved]. apply find_some in E as [Hin Hk]. cbn in Hk.
    apply list_elem_of_In, elem_of_map_to_list in Hin. exists r. split; [done|].
    apply str_eqb_eq in Hk. apply usageNaturalKey_inj in Hk; [done| |done]. by apply (Hrows id r).
  - exists new. split; [right|by destruct saved]. split; [done|]. intros id' r Hr Hf.
    pose proof (find_none _ _ E (id', r)) as Hn. cbn in Hn.
    rewrite (proj2 (usageNaturalKey_inj r rec (proj1 (proj2 (Hrows _ _ Hr))) Hg) Hf), str_eqb_refl in Hn.
    enough (true = false) by done. apply Hn. apply list_elem_of_In. by apply elem_of_map_to_list.
Qed.

Lemma insert_book tbl b rec new id : represents tbl b -> good_fact rec -> us_ID rec = EmptyString ->
  tbl !! new = None -> row_id tbl rec new id ->
  represents (<[id := with_id rec id]> tbl) (<[fact_of rec := rec]> b) /\ ids_kept tbl (<[id := with_id rec id]> tbl).
Proof.
  intros [Hrows Hfacts Hone] Hg Hid Hnew Hrow.
  assert (Hat : forall r, tbl !! id = Some r -> fact_of r = fact_of rec).
  { intros r Hr. destruct Hrow as [(r' & Hr' & Hf)|[-> _]]; congruence. }
  assert (Helse : forall id' r, id' <> id -> tbl !! id' = Some r -> fact_of r <> fact_of rec).
  { intros id' r Hne Hr Hf. destruct Hrow as [(r' & Hr' & Hf')|[_ Hno]]; [|by eapply Hno].
    apply Hne, (Hone id' id r r' Hr Hr'). congruence. }
  split; [split|].
  - intros id' r [[<- <-]|[Hne Hr]]%lookup_insert_Some.
    + split; [done|]. split; [by apply with_id_good|]. rewrite with_id_fact, lookup_insert_eq.
      by rewrite anonymous_with_id.
    + destruct (Hrows id' r Hr) as (H1 & H2 & H3). split; [done|]. split; [done|].
      rewrite lookup_insert_ne; [done|]. apply not_eq_sym. by eapply Helse.
  - intros f r [[<- <-]|[Hne Hr]]%lookup_insert_Some.
    + split; [done|]. exists id. by rewrite lookup_insert_eq.
    + destruct (Hfacts f r Hr) as [H1 [id' H2]]. split; [done|]. exists id'. rewrite lookup_insert_ne; [done|].
      intros <-. apply Hne. rewrite <- (Hat _ H2), with_id_fact. done.
  - intros id1 id2 r1 r2 [[<- <-]|[Hne1 Hr1]]%lookup_insert_Some [[<- <-]|[Hne2 Hr2]]%lookup_insert_Some Hf;
      [done|..].
    + exfalso. by eapply (Helse id2 r2).
    + exfalso. by eapply (Helse id1 r1).
    + by eapply Hone.
  - intros id' r Hr. destruct (decide (id' = id)) as [->|Hne].
    + exists (with_id rec id). rewrite lookup_insert_eq. split; [done|]. by rewrite (Hat _ Hr).
    + exists r. by rewrite lookup_insert_ne.
Qed.

Lemma ids_kept_trans t1 t2 t3 : ids_kept t1 t2 -> ids_kept t2 t3 -> ids_kept t1 t3.
Proof.
  intros H1 H2 id r Hr. destruct (H1 id r Hr) as (r' & Hr' & E). destruct (H2 id r' Hr') as (r'' & Hr'' & E').
  exists r''. split; [done|]. congruence.
Qed.

(** Storing facts is inserting them, one after the other, those whose save
    succeeded. *)
Fixpoint book_tick (facts : list UsageRecord) (saved : nat -> bool) (k : nat) (b : book) : book :=
  match facts with
  | [] => b
  | r :: rest => book_tick rest saved (S k) (if saved k then <[fact_of r := r]> b else b)
  end.

Definition fresh_from (new : nat -> string) (tbl : usages) (k : nat) : Prop :=
  (forall j, k <= j -> tbl !! new j = None) /\ forall i j, new i = new j -> i = j.

Lemma fresh_step new tbl k rec id : fresh_from new tbl k -> row_id tbl rec (new k) id ->
  fresh_from new (<[id := with_id rec id]> tbl) (S k).
Proof.
  intros [Hf Hi] Hrow. split; [|done]. intros j Hj. rewrite lookup_insert_ne; [apply Hf; lia|].
  intros ->. destruct Hrow as [(r & Hr & _)|[E _]]; [rewrite Hf in Hr by lia; done|]. apply Hi in E. lia.
Qed.

Lemma Enrich_fact rg r : fact_of (EnrichUsageIdentity rg r) = fact_of r /\ us_ID (EnrichUsageIdentity rg r) = us_ID r /\
  us_Quantity (EnrichUsageIdentity rg r) = us_Quantity r.
Proof. unfold EnrichUsageIdentity. by repeat case_match. Qed.

Lemma Enrich_good rg r : good_fact r -> good_fact (EnrichUsageIdentity rg r).
Proof.
  intros [? ? ? ?]. destruct (Enrich_fact rg r) as (E & _). unfold fact_of in E. injection E as E1 E2 E3 E4 E5.
  split; congruence.
Qed.

Definition computed (r : UsageRecord) : Prop := good_fact r /\ us_ID r = EmptyString.

Lemma store_tick_book rg new saved recs : forall k tbl b, represents tbl b -> Forall computed recs ->
  fresh_from new tbl k ->
  represents (store_tick rg recs new saved k tbl) (book_tick (EnrichUsageIdentity rg <$> recs) saved k b) /\
  ids_kept tbl (store_tick rg recs new saved k tbl).
Proof.
  induction recs as [|rec recs IH]; intros k tbl b Hr Hc Hf; cbn [store_tick book_tick fmap list_fmap].
  { split; [done|]. intros id r ?. by exists r. }
  apply Forall_cons in Hc as [[Hg Hid] Hc]. destruct (Enrich_fact rg rec) as (_ & Hid' & _). rewrite Hid in Hid'.
  pose proof (Enrich_good rg rec Hg) as Hg'. set (rec' := EnrichUsageIdentity rg rec) in *.
  destruct (UpsertUsage_inv tbl b rec' (new k) (saved k) Hr Hg' Hid') as (id & Hrow & ->).
  destruct (saved k); cbn [fst].
  - destruct (insert_book tbl b rec' (new k) id Hr Hg' Hid') as [Hr' Hk]; [by apply Hf|done|].
    destruct (IH (S k) _ _ Hr' Hc (fresh_step _ _ _ _ _ Hf Hrow)) as [H1 H2]. split; [done|].
    by eapply ids_kept_trans.
  - apply IH; [done|done|]. destruct Hf as [Hf Hi]. split; [|done]. intros j Hj. apply Hf. lia.
Qed.

(** Inserting the same facts again changes nothing. *)
Lemma book_tick_lookup facts : forall k b f,
  book_tick facts (fun _ => true) k b !! f =
  match List.find (fun r => bool_decide (fact_of r = f)) (rev facts) with Some r => Some r | None => b !! f end.
Proof.
  induction facts as [|r facts IH]; intros k b f; [done|]. cbn [book_tick rev]. rewrite IH.
  assert (Happ : forall l, List.find (fun r0 => bool_decide (fact_of r0 = f)) (l ++ [r]) =
    match List.find (fun r0 => bool_decide (fact_of r0 = f)) l with Some x => Some x
    | None => if bool_decide (fact_of r = f) then Some r else None end).
  { induction l as [|x l IHl]; cbn [List.find app]; [done|].
    destruct (bool_decide (fact_of x = f)); [done|exact IHl]. }
  rewrite Happ. destruct (List.find _ (rev facts)); [done|]. rewrite lookup_insert. case_decide as E.
  - by rewrite bool_decide_eq_true_2.
  - by rewrite bool_decide_eq_false_2.
Qed.

Lemma book_tick_again facts k b :
  book_tick facts (fun _ => true) k (book_tick facts (fun _ => true) k b) = book_tick facts (fun _ => true) k b.
Proof.
  apply map_eq. intros f. rewrite !book_tick_lookup. by destruct (List.find _ (rev facts)).
Qed.

Lemma represents_inj tbl tbl' b : represents tbl b -> represents tbl' b -> ids_kept tbl tbl' -> tbl' = tbl.
Proof.
  intros [Hr Hf Ho] [Hr' Hf' Ho'] Hk. apply map_eq. intros id.
  assert (Hsub : forall id r, tbl !! id = Some r -> tbl' !! id = Some r).
  { intros id0 r Hid. destruct (Hk id0 r Hid) as (r' & Hid' & E). destruct (Hr _ _ Hid) as (I1 & _ & B1).
    destruct (Hr' _ _ Hid') as (I2 & _ & B2). rewrite E in B2. rewrite B1 in B2. injection B2 as Ea.
    rewrite Hid'. f_equal. unfold anonymous, with_id, with_identity in Ea. destruct r, r'; cbn in *. congruence. }
  destruct (tbl' !! id) as [r'|] eqn:E'.
  - destruct (tbl !! id) as [r|] eqn:E; [apply Hsub in E; congruence|]. exfalso.
    destruct (Hr' _ _ E') as (_ & _ & B). destruct (Hf _ _ B) as [_ [id0 H0]]. pose proof (Hsub _ _ H0) as H0'.
    assert (id0 = id) as -> by (by eapply Ho'). congruence.
  - destruct (tbl !! id) eqn:E; [apply Hsub in E; congruence|done].
Qed.

(** ** The compute endpoint on the book *)

Definition forced (tenant : option string) (rg : registry) (r : UsageRecord) : UsageRecord :=
  EnrichUsageIdentity rg
    match tenant with Some tid => with_identity r (us_ID r) tid (us_OrgID r) (us_SiteID r) | None => r end.

Lemma forced_fact tenant rg r : fact_of (forced tenant rg r) = fact_of r /\ us_ID (forced tenant rg r) = us_ID r /\
  us_Quantity (forced tenant rg r) = us_Quantity r.
Proof.
  unfold forced. destruct tenant as [tid|]; [|apply Enrich_fact].
  exact (Enrich_fact rg (with_identity r (us_ID r) tid (us_OrgID r) (us_SiteID r))).
Qed.

(** The answer of a successful request lists what was stored, and a failed save
    keeps what was stored before it. *)
Lemma store_computed_book tenant rg new saved recs : forall k tbl b, represents tbl b -> Forall computed recs ->
  fresh_from new tbl k ->
  let '(tbl', res) := store_computed tenant rg recs new saved k tbl in
  exists n, n <= length recs /\
    represents tbl' (book_tick (take n (forced tenant rg <$> recs)) (fun _ => true) k b) /\ ids_kept tbl tbl' /\
    match res with
    | Ok rs => n = length recs /\ anonymous <$> rs = forced tenant rg <$> recs
    | Err _ => exists j, saved j = false
    end.
Proof.
  induction recs as [|rec recs IH]; intros k tbl b Hr Hc Hf; cbn [store_computed fmap list_fmap].
  { exists 0. split; [done|]. split; [done|]. split; [|done]. intros id r ?. by exists r. }
  apply Forall_cons in Hc as [[Hg Hid] Hc]. fold (forced tenant rg rec).
  assert (Hg' : good_fact (forced tenant rg rec)).
  { unfold forced. apply Enrich_good. destruct tenant; [|done]. by destruct Hg. }
  destruct (forced_fact tenant rg rec) as (_ & Hid' & _). rewrite Hid in Hid'. set (rec' := forced tenant rg rec) in *.
  destruct (UpsertUsage_inv tbl b rec' (new k) (saved k) Hr Hg' Hid') as (id & Hrow & ->).
  destruct (saved k) eqn:Es.
  - destruct (insert_book tbl b rec' (new k) id Hr Hg' Hid') as [Hr' Hk]; [by apply Hf|done|].
    specialize (IH (S k) _ _ Hr' Hc (fresh_step _ _ _ _ _ Hf Hrow)).
    destruct (store_computed tenant rg recs new saved (S k) _) as [tbl' res]. destruct IH as (n & Hn & Hb & Hk' & Hres).
    exists (S n). split; [cbn; lia|]. split; [exact Hb|]. split; [by eapply ids_kept_trans|].
    destruct res as [rs|e]; cbn; [|done]. destruct Hres as [-> Hrs]. split; [done|].
    by rewrite anonymous_with_id, Hrs.
  - exists 0. split; [lia|]. split; [done|]. split; [intros id0 r ?; by exists r|]. by exists k.
Qed.

Lemma represents_empty : represents ∅ ∅.
Proof. split; intros *; by rewrite lookup_empty. Qed.

(** C33: the table of usage is a map from facts (kind, asset, period, grain) to
    quantities: a scheduled pass, whichever of its saves fail, inserts exactly
    the facts it computed whose save succeeded, the last one winning; a row never
    changes its fact nor a fact its row, no two rows carry one fact, and when
    all saves succeed a second pass over the same data leaves the table as it
    is. *)
Theorem usage_book LoadLocation `{MapOrder} vm rg assets now new new' saved tbl b :
  represents tbl b -> Forall computed (tick_facts LoadLocation vm assets now) -> fresh_from new tbl 0 ->
  let pass := scanUsageTick LoadLocation vm true rg assets now in
  let facts := EnrichUsageIdentity rg <$> tick_facts LoadLocation vm assets now in
  represents (pass new saved tbl) (book_tick facts saved 0 b) /\ ids_kept tbl (pass new saved tbl) /\
  ((forall j, saved j = true) -> fresh_from new' (pass new saved tbl) 0 ->
   pass new' saved (pass new saved tbl) = pass new saved tbl).
Proof.
  intros Hr Hc Hf. cbv zeta. unfold scanUsageTick. cbn [negb].
  destruct (store_tick_book rg new saved _ 0 tbl b Hr Hc Hf) as [H1 H2]. split; [done|]. split; [done|].
  intros Hs Hf'. assert (Hall : forall facts k b0, book_tick facts saved k b0 = book_tick facts (fun _ => true) k b0).
  { clear -Hs. induction facts as [|r facts IH]; intros k b0; cbn [book_tick]; [done|]. by rewrite Hs, IH. }
  rewrite Hall in H1. destruct (store_tick_book rg new' saved _ 0 _ _ H1 Hc Hf') as [H3 H4].
  rewrite Hall, book_tick_again in H3. by eapply represents_inj.
Qed.

(** ** Closed instances *)

Definition demo_rack (path : string) (zone : option string) : asset_view :=
  mkView path 1 (Some (<["type" := JString "rack"]> (<["lifecycle" := JString "active"]>
    match zone with Some z => {["timezone" := JString z]} | None => ∅ end))) 0 0.
Definition march1 : time := Date 2024 3 1 0 0 UTC.
Definition no_zones (_ : string) : option Location := None.
Definition demo_ids (prefix : string) (k : nat) : string := prefix +:+ Nat.iter k (String "x") EmptyString.
Definition demo_registry : registry :=
  mkReg ∅ ({["o1" := mkOrg "o1" "t1" "Org one" 0]}) ({["s1" := mkSiteOrg "s1" "o1" 0 0]}) [] [].

Lemma billing_periods_witness :
  previousCalendarMonth (march1 + Hour)%Z UTC = (Date 2024 2 1 0 0 UTC, march1) /\
  previousUTCDay (march1 + Hour)%Z = (Date 2024 2 29 0 0 UTC, march1).
Proof.
  assert (H1 : fixed_offset UTC 0) by done.
  assert (H2 : ordinary (march1 + Hour)) by (split; vm_compute; done).
  pose proof (billing_periods UTC 0 (march1 + Hour) [demo_rack "s1.r1" None] UsageMonthly H1 H2) as [[E _] [E' _]].
  split; [rewrite E|rewrite E']; vm_compute; reflexivity.
Defined.

Definition demo_usage_assets : list asset_view :=
  [demo_rack "s1.r1" None; demo_rack "s1.r2" None; demo_rack "s2.r1" None].
Definition demo_vm (q : string) : option float64 :=
  if str_eqb q (metric_query "increase" "cios_energy_kwh" "s1.r1" "24h") then Some (f_of_Z 7) else None.
Definition demo_pass (prefix : string) : usages -> usages :=
  @scanUsageTick no_zones demo_order (Some demo_vm) true demo_registry demo_usage_assets (march1 + Hour)%Z
    (demo_ids prefix) (fun _ => true).

Lemma demo_ids_fresh prefix tbl :
  forallb (fun id => negb (has_prefix id prefix)) (map_to_list tbl).*1 = true -> fresh_from (demo_ids prefix) tbl 0.
Proof.
  intros Hf. split.
  - intros j _. destruct (tbl !! demo_ids prefix j) as [r|] eqn:E; [|done]. exfalso.
    rewrite forallb_forall in Hf. specialize (Hf (demo_ids prefix j)).
    rewrite negb_true_iff in Hf. unfold demo_ids in Hf at 2. rewrite has_prefix_app in Hf. discriminate Hf.
    apply list_elem_of_In, list_elem_of_fmap. exists (demo_ids prefix j, r). split; [done|].
    by apply elem_of_map_to_list.
  - intros i j E. apply (f_equal (fun s => trim_prefix s prefix)) in E. unfold demo_ids in E.
    rewrite !trim_prefix_app in E. revert j E.
    induction i as [|i IH]; intros [|j] E; try done. injection E as E. by rewrite (IH j E).
Qed.

Lemma usage_book_witness :
  demo_pass "v" (demo_pass "u" ∅) = demo_pass "u" ∅ /\
  ((fun r : UsageRecord => (us_Kind r, us_AssetPath r, us_TenantID r, us_Granularity r)) <$>
     (map_to_list (demo_pass "u" ∅)).*2) =
  [("rack_hour", "s2.r1", EmptyString, "monthly"); ("rack_hour", "s1.r2", "t1", "monthly");
   ("rack_hour", "s1.r1", "t1", "monthly"); ("energy", "s1.r1", "t1", "daily"); ("rack_hour", "s2.r1", EmptyString, "daily");
   ("rack_hour", "s1.r2", "t1", "daily"); ("rack_hour", "s1.r1", "t1", "daily")].
Proof.
  assert (Hc : Forall computed (@tick_facts no_zones demo_order (Some demo_vm) demo_usage_assets (march1 + Hour)%Z)).
  { vm_compute @tick_facts. repeat (constructor; [split; [split; vm_compute; done|done]|]). constructor. }
  pose proof (@usage_book no_zones demo_order (Some demo_vm) demo_registry demo_usage_assets (march1 + Hour)%Z
    (demo_ids "u") (demo_ids "v") (fun _ => true) ∅ ∅ represents_empty Hc
    (demo_ids_fresh "u" ∅ eq_refl)) as (_ & _ & Hagain).
  split.
  - apply Hagain; [done|]. apply demo_ids_fresh. vm_compute. reflexivity.
  - vm_compute. reflexivity.
Defined.

(** The queries name only the asset and the length of the window, so the
    energy of a period is whatever the database holds for a window of that length
    ending when the pass runs. *)
Lemma fetch_loop_mid ask window hours mid mid' assets : forall seen,
  me_Quantity <$> fetch_loop ask window hours mid assets seen =
  me_Quantity <$> fetch_loop ask window hours mid' assets seen.
Proof.
  induction assets as [|a assets IH]; intros seen; cbn [fetch_loop]; [done|].
  destruct (_ || _); [apply IH|]. destruct (fetch_kwh _ _ _ _) as [kwh|]; [|apply IH].
  destruct (fleb kwh f0); [apply IH|]. cbn [fmap list_fmap me_Quantity]. f_equal. apply IH.
Qed.

Lemma energy_ignores_period vm assets s e s' e' : time_sub e s = time_sub e' s' ->
  me_Quantity <$> fetchEnergyMeasurements vm assets s e = me_Quantity <$> fetchEnergyMeasurements vm assets s' e'.
Proof.
  intros E. unfold fetchEnergyMeasurements. destruct vm as [ask|]; [|done]. rewrite E.
  destruct (fleb _ _); [done|]. apply fetch_loop_mid.
Qed.

(** An answer that is not a number passes the test for a positive reading. *)
Example nan_billed :
  (fun m => fleb (me_Quantity m) (me_Quantity m)) <$>
    fetchEnergyMeasurements (Some (fun _ => Some S754_nan)) [demo_rack "s1.r1" None] (march1 - Day) march1 = [false].
Proof. vm_compute. reflexivity. Qed.

(** A compute request of an administrator confined to a tenant labels the racks
    of every other tenant with his own, in place of the facts already stored. *)
Example tenant_forced :
  let admin := Some (mkPrincipal "root" RoleAdmin ["*"] None) in
  let req := mkUsageCompute (march1 - Day) march1 UsageDaily [UsageKindRackHour] [] in
  let run tenant tbl := (serveUsageCompute tbl demo_registry [demo_rack "s1.r1" None] admin tenant (Some req)
                           (demo_ids "u") (fun _ => true)).1 in
  (us_TenantID <$> (map_to_list (run None ∅)).*2) = ["t1"] /\
  (us_TenantID <$> (map_to_list (run (Some "t2") (run None ∅))).*2) = ["t2"].
Proof. vm_compute. split; reflexivity. Qed.

(** A clock that goes from 00:00 to 01:00 on the first of March: the February
    that is billed in March begins an hour after the January that was billed
    in February ended. *)
Definition spring (at_ : Z) : Location :=
  Zones (fun u => if (u <? at_)%Z then mkZone 0 (- 2 ^ 63) at_ else mkZone 3600 at_ (2 ^ 63 - 1)).
Example month_gap :
  let loc := spring (Unix march1) in
  let '(_, end_) := previousCalendarMonth (march1 - 15 * Day)%Z loc in
  let '(start, _) := previousCalendarMonth (march1 + 15 * Day)%Z loc in
  (start - end_)%Z = Hour.
Proof. vm_compute. reflexivity. Qed.

(** The daily fact of the first of a month and the monthly fact tie in the list:
    either may come first, at each request anew, while pages are cut by
    position. *)
Example listing_ties :
  let r id g e := mkUsage id UsageKindRackHour EmptyString EmptyString "s1" "s1.r1" march1 e g f1 "h" in
  let d := r "u1" UsageDaily (march1 + Day)%Z in let m := r "u2" UsageMonthly (march1 + 31 * Day)%Z in
  let f := mkUsageFilter EmptyString EmptyString EmptyString EmptyString zero_time zero_time in
  usage_listed (<["u1" := d]> {["u2" := m]}) f [d; m] /\ usage_listed (<["u1" := d]> {["u2" := m]}) f [m; d].
Proof.
  cbv zeta. assert (Hle : forall a b, us_PeriodStart a = us_PeriodStart b -> us_AssetPath a = us_AssetPath b ->
    us_Kind a = us_Kind b -> usage_le a b).
  { intros a b E1 E2 E3. right. split; [done|]. rewrite E2, E3. apply pair_lt_irrefl. }
  split; (split; [vm_compute; first [reflexivity|apply perm_swap]|repeat constructor; by apply Hle]).
Qed.
