(* ===== verification/Windows.v ===== *)
(** * Maintenance windows (core/mwindows.go, core/maintenance.go and their part
      of store.go)

    The table of windows, the window in force for an asset, the list by cursor,
    the create and delete handlers and the merged list of upcoming work.  The
    cursor carries the start of a window as 64-bit nanoseconds; the list is an
    instance of the theory of [Cursor] for starts that fit. *)
From stdpp Require Import sorting.
From S2P Require Import Prelude GoTime CPath RBAC Http PromProj Cursor Schedule Registry Pages Calendar.
Open Scope string_scope.
Open Scope list_scope.

(** ** Data *)

Record MaintenanceWindow : Type := mkWindow {
  mw_ID : string; mw_AssetPath : string; mw_StartsAt : time; mw_EndsAt : time; mw_Reason : string
}.

Record maintenanceWindowCreateRequest : Type := mkWindowCreate {
  wr_AssetPath : string; wr_StartsAt : string; wr_EndsAt : string; wr_Reason : string
}.

(** [maintenanceWindowIDPattern]: mw_ and sixteen of A-Z, 2-7. *)
Definition base32_byte (c : ascii) : bool := is_upper c || (("2" <=? c)%char && (c <=? "7")%char).
Definition window_id (id : string) : bool :=
  has_prefix id "mw_" && (String.length id =? 19)%nat && all_bytes base32_byte (trim_prefix id "mw_").

(** ** The table (store.go) *)

Abbreviation windows := (gmap string MaintenanceWindow).

(** The order of the list and of the windows in force: start, then id. *)
Definition window_le (a b : MaintenanceWindow) : Prop :=
  (mw_StartsAt a < mw_StartsAt b)%Z \/
  (mw_StartsAt a = mw_StartsAt b /\ String.leb (mw_ID a) (mw_ID b) = true).
#[global] Instance window_le_dec : RelDecision window_le.
Proof. unfold window_le. intros a b. apply _. Defined.

Definition PutMaintenanceWindow (tbl : windows) (m : MaintenanceWindow) (saved : bool) : windows :=
  if saved then <[mw_ID m := m]> tbl else tbl.
Definition GetMaintenanceWindow (tbl : windows) (id : string) : option MaintenanceWindow := tbl !! id.
Definition ListMaintenanceWindows (tbl : windows) : list MaintenanceWindow :=
  merge_sort window_le (map_to_list tbl).*2.

(** Whether the window was there, or the failure of the save. *)
Definition DeleteMaintenanceWindow (tbl : windows) (id : string) (saved : bool) : windows * result problem bool :=
  match tbl !! id with
  | None => (tbl, Ok false)
  | Some _ => if saved then (delete id tbl, Ok true) else (tbl, Err store_error)
  end.

Definition in_force (path : string) (now : time) (m : MaintenanceWindow) : bool :=
  negb ((now <? mw_StartsAt m)%Z || negb (now <? mw_EndsAt m)%Z) &&
  (str_eqb (mw_AssetPath m) path || has_prefix path (mw_AssetPath m +:+ ".")).
Definition ActiveWindowFor (tbl : windows) (path : string) (now : time) : option MaintenanceWindow :=
  head (merge_sort window_le (List.filter (in_force path now) (map_to_list tbl).*2)).

(** ** The list endpoint *)

(** [Time.UnixNano]: the 64-bit product and sum wrap around. *)
Definition UnixNano (t : time) : Z := wrap64 (Unix t * Second + time_nsec t).

Definition maintenanceWindowAfterCursor (m : MaintenanceWindow) (cursorKey cursorID : string) : bool :=
  match Atoi cursorKey with
  | None => true
  | Some curNS =>
      let thisNS := UnixNano (mw_StartsAt m) in
      if negb (thisNS =? curNS)%Z then (curNS <? thisNS)%Z else str_lt cursorID (mw_ID m)
  end.

Definition behind_window (k : string * string) (m : MaintenanceWindow) : bool :=
  negb (negb (str_eqb k.1 EmptyString) && negb (maintenanceWindowAfterCursor m k.1 k.2)).

Definition window_key (m : MaintenanceWindow) : string * string := (itoa (UnixNano (mw_StartsAt m)), mw_ID m).

Definition serveMaintenanceWindowsList (tbl : windows) (mt : meter) (auth : option Principal)
    (page_size page_token : string) : meter * result problem (list MaintenanceWindow * string) :=
  match parsePageSize page_size with
  | Err e => (mt, Err e)
  | Ok pageSize =>
      match (if str_eqb page_token EmptyString then Some (EmptyString, EmptyString)
             else decodePageTokenPair page_token) with
      | None => (mt, Err bad_token)
      | Some k =>
          let '(mt', items) := filter_visible mt auth (behind_window k) mw_AssetPath (ListMaintenanceWindows tbl) in
          (mt', Ok (cut_page window_key encodePageTokenPair pageSize items))
      end
  end.

(** ** Create *)

Definition parseMaintenanceWindowTime (s field : string) : result problem time :=
  if str_eqb s EmptyString then Err (bad_request ("missing " +:+ field +:+ " (need RFC3339)"))
  else match ParseRFC3339 s with
  | Some t => Ok t
  | None => Err (bad_request ("bad " +:+ field +:+ " (need RFC3339)"))
  end.

(** The body of a valid request as a window under the minted id. *)
Definition requested (d : Dict) (body : option maintenanceWindowCreateRequest) (id : string) :
    result problem MaintenanceWindow :=
  match body with
  | None => Err (bad_request "bad json")
  | Some req =>
      if str_eqb (wr_AssetPath req) EmptyString then Err (bad_request "missing asset_path")
      else if negb (is_ok (ParseAssetPath d (wr_AssetPath req))) then Err (Problem 400 "bad-path" "bad asset_path")
      else
        startsAt ← parseMaintenanceWindowTime (wr_StartsAt req) "starts_at";
        endsAt ← parseMaintenanceWindowTime (wr_EndsAt req) "ends_at";
        if negb (startsAt <? endsAt)%Z then Err (bad_request "ends_at must be after starts_at")
        else Ok (mkWindow id (wr_AssetPath req) startsAt endsAt (wr_Reason req))
  end.

Definition serveMaintenanceWindowsCreate (d : Dict) (tbl : windows) (mt : meter) (auth : option Principal)
    (body : option maintenanceWindowCreateRequest) (id : string) (saved : bool) :
    windows * meter * result problem MaintenanceWindow :=
  match requested d body id with
  | Err e => (tbl, mt, Err e)
  | Ok mw =>
      let '(mt', ok) := in_scope mt auth (mw_AssetPath mw) in
      if negb ok then (tbl, mt', Err (Problem 403 "forbidden" "out of scope"))
      else (PutMaintenanceWindow tbl mw saved, mt', if saved then Ok mw else Err store_error)
  end.

(** ** Delete, in two halves: the check of the stored window, and the removal *)

Definition window_not_found : problem := Problem 404 "path-not-found" "maintenance window not found".

Definition delete_read (tbl : windows) (mt : meter) (auth : option Principal) (id : string) :
    meter * result problem MaintenanceWindow :=
  if negb (window_id id) then (mt, Err (bad_request "bad maintenance window id"))
  else match GetMaintenanceWindow tbl id with
  | None => (mt, Err window_not_found)
  | Some cur =>
      let '(mt', ok) := in_scope mt auth (mw_AssetPath cur) in
      (mt', if negb ok then Err (Problem 403 "forbidden" "out of scope") else Ok cur)
  end.

Definition delete_commit (tbl : windows) (id : string) (saved : bool) : windows * result problem string :=
  match DeleteMaintenanceWindow tbl id saved with
  | (tbl', Err e) => (tbl', Err e)
  | (tbl', Ok deleted) => (tbl', if negb deleted then Err window_not_found else Ok id)
  end.

Definition serveMaintenanceWindowDelete (tbl : windows) (mt : meter) (auth : option Principal) (id : string)
    (saved : bool) : windows * meter * result problem string :=
  match delete_read tbl mt auth id with
  | (mt', Err e) => (tbl, mt', Err e)
  | (mt', Ok _) => let '(tbl', r) := delete_commit tbl id saved in (tbl', mt', r)
  end.

(** ** Upcoming work (maintenance.go) *)

Record maintenanceUpcomingItem : Type := mkUpcoming {
  ui_Kind : string; ui_ID : string; ui_AssetPath : string; ui_Title : string; ui_NextDue : time; ui_Overdue : bool
}.

(** [strconv.ParseBool] *)
Definition ParseBool (v : string) : option bool :=
  if contains_string ["1"; "t"; "T"; "TRUE"; "true"; "True"] v then Some true
  else if contains_string ["0"; "f"; "F"; "FALSE"; "false"; "False"] v then Some false
  else None.

Definition pm_item (now : time) (p : PMSchedule) : maintenanceUpcomingItem :=
  mkUpcoming "pm" (pm_ID p) (pm_AssetPath p) (pm_Title p) (pm_NextDue p) (pm_NextDue p <? now)%Z.
Definition insp_item (now : time) (p : InspectionTemplate) : maintenanceUpcomingItem :=
  mkUpcoming "inspection" (in_ID p) (in_AssetPath p) (in_Title p) (in_NextDue p) (in_NextDue p <? now)%Z.

Definition upcoming_wanted (before : option time) (overdueOnly : option bool) (it : maintenanceUpcomingItem) : bool :=
  negb (match before with Some b => (b <? ui_NextDue it)%Z | None => false end) &&
  match overdueOnly with
  | Some b => negb (b && negb (ui_Overdue it)) && negb (negb b && ui_Overdue it)
  | None => true
  end.

(** Date, kind, id. *)
Definition upcoming_le (a b : maintenanceUpcomingItem) : Prop :=
  (ui_NextDue a < ui_NextDue b)%Z \/
  (ui_NextDue a = ui_NextDue b /\ pair_lt (ui_Kind b, ui_ID b) (ui_Kind a, ui_ID a) = false).
#[global] Instance upcoming_le_dec : RelDecision upcoming_le.
Proof. unfold upcoming_le. intros a b. apply _. Defined.

Definition optional {A} (parse : string -> option A) (bad : problem) (v : string) : result problem (option A) :=
  if str_eqb v EmptyString then Ok None
  else match parse v with Some x => Ok (Some x) | None => Err bad end.

Definition serveMaintenanceUpcoming (pms : gmap string PMSchedule) (insps : gmap string InspectionTemplate)
    (mt : meter) (auth : option Principal) (before overdue : string) (now : time) :
    meter * result problem (list maintenanceUpcomingItem) :=
  match optional ParseRFC3339 (bad_request "bad before (need RFC3339)") before with
  | Err e => (mt, Err e)
  | Ok before =>
      match optional ParseBool (bad_request "bad overdue (need bool)") overdue with
      | Err e => (mt, Err e)
      | Ok overdueOnly =>
          let '(mt1, pm) := filter_visible mt auth pm_Enabled pm_AssetPath (ListSchedules pms) in
          let '(mt2, insp) := filter_visible mt1 auth in_Enabled in_AssetPath (ListSchedules insps) in
          let items := map (pm_item now) pm ++ map (insp_item now) insp in
          (mt2, Ok (merge_sort upcoming_le (List.filter (upcoming_wanted before overdueOnly) items)))
      end
  end.

(** ** The orders are total, so that a list is determined by its rows *)

#[local] Instance window_le_trans : Transitive window_le.
Proof.
  intros x y z [H1|[E1 H1]] [H2|[E2 H2]]; unfold window_le; [lia..|right]. split; [lia|]. by eapply leb_trans.
Qed.
#[local] Instance window_le_total : Total window_le.
Proof.
  intros x y. unfold window_le. destruct (Z.lt_trichotomy (mw_StartsAt x) (mw_StartsAt y)) as [H|[H|H]]; [auto| |auto].
  destruct (String.leb_total (mw_ID x) (mw_ID y)); auto.
Qed.

#[local] Instance upcoming_le_trans : Transitive upcoming_le.
Proof.
  intros x y z [H1|[E1 H1]] [H2|[E2 H2]]; unfold upcoming_le; [lia..|right]. split; [lia|].
  apply not_true_iff_false. intros H3.
  destruct (pair_lt_total (ui_Kind y, ui_ID y) (ui_Kind x, ui_ID x)) as [E|[E|E]]; [congruence|congruence|].
  pose proof (pair_lt_trans _ _ _ H3 E). congruence.
Qed.
#[local] Instance upcoming_le_total : Total upcoming_le.
Proof.
  intros x y. unfold upcoming_le.
  destruct (Z.lt_trichotomy (ui_NextDue x) (ui_NextDue y)) as [H|[H|H]]; [auto| |auto].
  destruct (pair_lt_total (ui_Kind x, ui_ID x) (ui_Kind y, ui_ID y)) as [E|[E|E]].
  - left. right. split; [done|]. by apply pair_lt_asym.
  - left. right. split; [done|]. rewrite E. apply pair_lt_irrefl.
  - right. right. split; [done|]. by apply pair_lt_asym.
Qed.

(** A row of the table stands under its id. *)
Definition windows_keyed (tbl : windows) : Prop := forall id m, tbl !! id = Some m -> mw_ID m = id.

Lemma ListMaintenanceWindows_rows tbl :
  ListMaintenanceWindows tbl ≡ₚ (map_to_list tbl).*2 /\ StronglySorted window_le (ListMaintenanceWindows tbl).
Proof.
  split; [apply merge_sort_Permutation|]. apply StronglySorted_merge_sort; apply _.
Qed.

Lemma in_listed tbl m : m ∈ ListMaintenanceWindows tbl <-> exists id, tbl !! id = Some m.
Proof. rewrite (proj1 (ListMaintenanceWindows_rows tbl)). apply in_rows. Qed.

(** The window in force: one that covers the time and the asset, and no other
    one starts earlier, or at the same time under a smaller id; none exactly when
    nothing covers. *)
Lemma ActiveWindowFor_spec tbl path now :
  match ActiveWindowFor tbl path now with
  | Some m => (exists id, tbl !! id = Some m) /\ in_force path now m = true /\
      forall id m', tbl !! id = Some m' -> in_force path now m' = true -> window_le m m'
  | None => forall id m', tbl !! id = Some m' -> in_force path now m' = false
  end.
Proof.
  unfold ActiveWindowFor. set (l := List.filter _ _).
  pose proof (merge_sort_Permutation window_le l) as Hp.
  pose proof (StronglySorted_merge_sort window_le l) as Hs.
  assert (Hin : forall m, m ∈ merge_sort window_le l <-> (exists id, tbl !! id = Some m) /\ in_force path now m = true).
  { intros m. rewrite Hp. unfold l. by rewrite in_filter, in_rows. }
  destruct (merge_sort window_le l) as [|m rest]; cbn [head].
  - intros id m' Hm. apply not_true_iff_false. intros Hf.
    assert (m' ∈ ([] : list MaintenanceWindow)) as []%elem_of_nil. apply Hin. eauto.
  - destruct (proj1 (Hin m) ltac:(by left)) as [Hm Hf]. split; [done|]. split; [done|].
    intros id m' Hm' Hf'. assert (m' ∈ m :: rest) as [->|Hr]%elem_of_cons by (apply Hin; eauto);
      [right; split; [done|apply leb_refl]|].
    apply StronglySorted_inv in Hs as [_ Hs]. by eapply Forall_forall in Hs.
Qed.

(** What covering means. *)
Lemma in_force_iff path now m : in_force path now m = true <->
  (mw_StartsAt m <= now < mw_EndsAt m)%Z /\
  (path = mw_AssetPath m \/ exists part, path = mw_AssetPath m +:+ "." +:+ part).
Proof.
  unfold in_force. rewrite andb_true_iff, negb_orb, negb_involutive, andb_true_iff, negb_true_iff, orb_true_iff.
  rewrite Z.ltb_ge, Z.ltb_lt, str_eqb_eq. apply and_iff_compat_l. split.
  - intros [->|[part ->]%has_prefix_split]; [auto|right]. exists part. by rewrite str_app_assoc.
  - intros [->|[part ->]]; [auto|right]. rewrite str_app_assoc. apply has_prefix_app.
Qed.

(** ** The list is an enumeration by cursor *)

(** A start that is a 64-bit number of nanoseconds: the years 1678 to 2261. *)
Definition nano_time (t : time) : Prop := (min_int64 <= Unix t * Second + time_nsec t <= max_int64)%Z.

Lemma UnixNano_exact t : nano_time t -> UnixNano t = (t - unix_seconds * Second)%Z.
Proof.
  intros H. unfold UnixNano. rewrite wrap64_id by done. unfold Unix. pose proof (at_sec_split t) as E.
  unfold at_sec in E. lia.
Qed.

Lemma window_token m : decodePageTokenPair (encodePageTokenPair (window_key m)) = Some (window_key m).
Proof.
  apply decode_encode_pair. cbn [window_key fst]. generalize (UnixNano (mw_StartsAt m)). intros z.
  unfold no_byte. eapply all_bytes_impl; [|apply (itoa_word z)]. intros c Hc.
  destruct (byte_eqb c US) eqn:E; [|done]. apply byte_eqb_eq in E as ->. discriminate Hc.
Qed.

Lemma behind_window_lt x y : behind_window (window_key x) y =
  (if negb (UnixNano (mw_StartsAt y) =? UnixNano (mw_StartsAt x))%Z
   then (UnixNano (mw_StartsAt x) <? UnixNano (mw_StartsAt y))%Z else str_lt (mw_ID x) (mw_ID y)).
Proof.
  unfold behind_window, maintenanceWindowAfterCursor. cbn [window_key fst snd].
  pose proof (itoa_nonempty (UnixNano (mw_StartsAt x))) as Hn. apply str_eqb_neq in Hn. rewrite Hn.
  rewrite Atoi_itoa by apply wrap64_range. cbn [negb andb]. by rewrite negb_involutive.
Qed.

Lemma window_irr x : ~ behind window_key behind_window x x.
Proof. unfold behind. by rewrite behind_window_lt, Z.eqb_refl, str_lt_irrefl. Qed.

Lemma window_trans x y z : behind window_key behind_window x y -> behind window_key behind_window y z ->
  behind window_key behind_window x z.
Proof.
  unfold behind. rewrite !behind_window_lt.
  destruct (Z.eqb_spec (UnixNano (mw_StartsAt y)) (UnixNano (mw_StartsAt x))) as [E1|E1],
    (Z.eqb_spec (UnixNano (mw_StartsAt z)) (UnixNano (mw_StartsAt y))) as [E2|E2],
    (Z.eqb_spec (UnixNano (mw_StartsAt z)) (UnixNano (mw_StartsAt x))) as [E3|E3]; cbn [negb];
    rewrite ?Z.ltb_lt; try lia; try (intros; congruence); try apply str_lt_trans.
Qed.

Lemma window_le_behind x y : nano_time (mw_StartsAt x) -> nano_time (mw_StartsAt y) -> mw_ID x <> mw_ID y ->
  window_le x y -> behind window_key behind_window x y.
Proof.
  unfold behind, window_le. rewrite behind_window_lt. intros Hx Hy Hne H.
  rewrite !UnixNano_exact by done. destruct (Z.eqb_spec (mw_StartsAt y - unix_seconds * Second)
    (mw_StartsAt x - unix_seconds * Second)) as [E|E]; cbn [negb].
  - destruct H as [H|[_ H]]; [lia|]. by apply leb_neq_lt.
  - apply Z.ltb_lt. lia.
Qed.

Definition window_rows (l : list MaintenanceWindow) : Prop :=
  listing window_key behind_window (fun m => nano_time (mw_StartsAt m)) l.

Lemma windows_listing tbl : windows_keyed tbl -> (forall id m, tbl !! id = Some m -> nano_time (mw_StartsAt m)) ->
  window_rows (ListMaintenanceWindows tbl).
Proof.
  intros Hk Hn. destruct (ListMaintenanceWindows_rows tbl) as [Hp Hs].
  assert (Hnano : Forall (fun m => nano_time (mw_StartsAt m)) (ListMaintenanceWindows tbl)).
  { rewrite Hp. apply rows_Forall. exact Hn. }
  assert (Hids : NoDup (map mw_ID (ListMaintenanceWindows tbl))).
  { change (map mw_ID) with (fmap (M:=list) mw_ID). rewrite Hp. exact (map_rows_keys tbl mw_ID Hk). }
  split; [|done]. clear Hp Hk Hn.
  induction Hs as [|x l Hs IH Hx]; [constructor|]. apply Forall_cons in Hnano as [Hnx Hnl].
  cbn [map] in Hids. apply NoDup_cons in Hids as [Hni Hids]. constructor; [by apply IH|].
  apply Forall_forall. intros y Hy. apply window_le_behind; [done|by eapply Forall_forall in Hnl| |by eapply Forall_forall in Hx].
  intros E. apply Hni. rewrite E. by apply list_elem_of_fmap_2.
Qed.

Lemma filter_and {A} (f g : A -> bool) l : List.filter (fun x => f x && g x) l = List.filter f (List.filter g l).
Proof.
  induction l as [|x l IH]; [done|]. cbn [List.filter].
  destruct (g x); rewrite ?andb_true_r, ?andb_false_r; [|done]. cbn [List.filter]. by destruct (f x); rewrite IH.
Qed.

(** What a principal sees of the table. *)
Definition seen_windows (closed : bool) (auth : option Principal) (tbl : windows) : list MaintenanceWindow :=
  List.filter (fun m => sees closed auth (mw_AssetPath m)) (ListMaintenanceWindows tbl).

Lemma windows_page tbl mt auth ps size tok : parsePageSize ps = Ok size ->
  (serveMaintenanceWindowsList tbl mt auth ps tok).2 =
  as_answer (page_at window_key behind_window encodePageTokenPair decodePageTokenPair
    (seen_windows (m_closed mt) auth tbl) size tok).
Proof.
  intros Hs. unfold serveMaintenanceWindowsList, page_at. rewrite Hs.
  assert (Hone : forall k, (let '(mt', items) := filter_visible mt auth (behind_window k) mw_AssetPath
      (ListMaintenanceWindows tbl) in (mt', Ok (cut_page window_key encodePageTokenPair size items))).2 =
    Ok (E:=problem) (cut_page window_key encodePageTokenPair size
      (List.filter (behind_window k) (seen_windows (m_closed mt) auth tbl)))).
  { intros k. pose proof (filter_visible_sees auth (behind_window k) mw_AssetPath (ListMaintenanceWindows tbl) mt) as [H _].
    destruct (filter_visible _ _ _ _ _) as [mt' items]. cbn [snd] in *. by rewrite H, filter_and. }
  destruct (str_eqb tok EmptyString).
  - rewrite Hone. cbn [as_answer]. by rewrite (scan_all _ (behind_window _)) by done.
  - destruct (decodePageTokenPair tok) as [k|]; [|done]. by rewrite Hone.
Qed.

Lemma seen_rows closed auth tbl : windows_keyed tbl ->
  (forall id m, tbl !! id = Some m -> nano_time (mw_StartsAt m)) -> window_rows (seen_windows closed auth tbl).
Proof. intros Hk Hn. by apply listing_filter, windows_listing. Qed.

(** While windows are created and removed between the requests, a client still
    terminates, and sees the windows in strictly increasing order, hence none
    twice, only windows that were there at some request, and every window that
    was there and visible at all of them. *)
Lemma windows_pages_changing (tbls : nat -> windows) mt auth ps size u : parsePageSize ps = Ok size ->
  (forall k, windows_keyed (tbls k)) -> (forall k id m, tbls k !! id = Some m -> m ∈ u) ->
  (forall m, m ∈ u -> nano_time (mw_StartsAt m)) ->
  exists out,
    client (S (length u)) (fun k tok => (serveMaintenanceWindowsList (tbls k) mt auth ps tok).2) EmptyString = Some out /\
    StronglySorted (behind window_key behind_window) out /\
    (forall m, m ∈ out -> exists k, m ∈ seen_windows (m_closed mt) auth (tbls k)) /\
    (forall m, (forall k, m ∈ seen_windows (m_closed mt) auth (tbls k)) -> m ∈ out).
Proof.
  intros Hs Hk Hu Hn. pose proof (parsePageSize_range _ _ Hs).
  set (snap k := seen_windows (m_closed mt) auth (tbls k)).
  destruct (follow_changing window_key behind_window encodePageTokenPair decodePageTokenPair
    (fun m => nano_time (mw_StartsAt m)) (fun m _ => window_token m) (fun m _ => token_pair_nonempty _)
    (fun m _ => window_irr m) (fun x y z _ _ _ => window_trans x y z) size u ltac:(lia)
    ltac:(by apply Forall_forall) (S (length u)) snap None) as (out & Hout & Hgot).
  - intros k. apply seen_rows; [done|]. intros id m Hm. by eapply Hn, Hu.
  - intros k m [Hm _]%in_filter. apply in_listed in Hm as [id Hm]. by eapply Hu.
  - done.
  - cbn. lia.
  - exists out. rewrite (client_follow window_key behind_window encodePageTokenPair decodePageTokenPair size _ _ snap)
      by (intros k t; by apply windows_page).
    destruct Hgot as (Hsort & _ & _ & Hfrom & Hall). split; [done|]. split; [done|]. split; [done|].
    intros m Hm. by apply Hall.
Qed.

(** ** Histories

    Creations, and deletions in two halves, of any principals in any order.  The
    log says who created and who removed which window. *)

(** May the principal write at the path; [closed] is the legacy switch. *)
Definition may_write (closed : bool) (auth : option Principal) (path : string) : bool :=
  (in_scope (mkMeter 0 ∅ closed) auth path).2.

Lemma in_scope_may mt auth path : (in_scope mt auth path).2 = may_write (m_closed mt) auth path.
Proof.
  unfold may_write, in_scope. destruct auth as [p|]; [|done].
  pose proof (authorize_meter mt (mkMeter 0 ∅ (m_closed mt)) p ActionControlWrite path eq_refl) as H.
  destruct (authorize mt p ActionControlWrite path), (authorize (mkMeter 0 ∅ (m_closed mt)) p ActionControlWrite path).
  cbn in *. by rewrite H.
Qed.

Inductive wevent : Type :=
  | Created (auth : option Principal) (m : MaintenanceWindow)
  | Removed (auth : option Principal) (m : MaintenanceWindow).

Record wsys : Type := mkWsys {
  wy_tbl : windows; wy_reads : list (option Principal * MaintenanceWindow); wy_log : list wevent
}.

Section history.
Context (d : Dict) (closed : bool).

Inductive wstep : wsys -> wsys -> Prop :=
  | w_create tbl reads log mt auth body id saved tbl' mt' r :
      m_closed mt = closed -> (forall a m, Created a m ∈ log -> mw_ID m <> id) ->
      serveMaintenanceWindowsCreate d tbl mt auth body id saved = (tbl', mt', r) ->
      wstep (mkWsys tbl reads log)
        (mkWsys tbl' reads (match r with Ok m => Created auth m :: log | Err _ => log end))
  | w_delete_read tbl reads log mt auth id mt' m :
      m_closed mt = closed -> delete_read tbl mt auth id = (mt', Ok m) ->
      wstep (mkWsys tbl reads log) (mkWsys tbl ((auth, m) :: reads) log)
  | w_delete_commit tbl reads log auth m saved tbl' r :
      (auth, m) ∈ reads -> delete_commit tbl (mw_ID m) saved = (tbl', r) ->
      wstep (mkWsys tbl reads log)
        (mkWsys tbl' reads (match r, tbl !! mw_ID m with Ok _, Some m' => Removed auth m' :: log | _, _ => log end)).

Inductive wreachable : wsys -> Prop :=
  | wr_init : wreachable (mkWsys ∅ [] [])
  | wr_step y y' : wreachable y -> wstep y y' -> wreachable y'.

Definition proper_window (auth : option Principal) (m : MaintenanceWindow) : Prop :=
  may_write closed auth (mw_AssetPath m) = true /\ is_ok (ParseAssetPath d (mw_AssetPath m)) = true /\
  (mw_StartsAt m < mw_EndsAt m)%Z.

Definition removed_ids (log : list wevent) : list string :=
  omap (fun e => match e with Removed _ m => Some (mw_ID m) | Created _ _ => None end) log.

Record windows_ok (y : wsys) : Prop := mkWindowsOk {
  wo_table : forall id m, wy_tbl y !! id = Some m <->
    mw_ID m = id /\ (exists a, Created a m ∈ wy_log y) /\ id ∉ removed_ids (wy_log y);
  wo_created : forall a m, Created a m ∈ wy_log y -> proper_window a m;
  wo_one : forall a a' m m', Created a m ∈ wy_log y -> Created a' m' ∈ wy_log y -> mw_ID m = mw_ID m' -> m = m';
  wo_reads : forall a m, (a, m) ∈ wy_reads y ->
    may_write closed a (mw_AssetPath m) = true /\ exists a', Created a' m ∈ wy_log y;
  wo_removed : forall a m, Removed a m ∈ wy_log y ->
    may_write closed a (mw_AssetPath m) = true /\ exists a', Created a' m ∈ wy_log y;
  wo_once : NoDup (removed_ids (wy_log y))
}.

Lemma requested_proper body id m : requested d body id = Ok m ->
  mw_ID m = id /\ is_ok (ParseAssetPath d (mw_AssetPath m)) = true /\ (mw_StartsAt m < mw_EndsAt m)%Z.
Proof.
  unfold requested. destruct body as [req|]; [|done]. destruct (str_eqb _ _); [done|].
  destruct (is_ok _) eqn:Hp; [|done]. cbn [negb].
  destruct (parseMaintenanceWindowTime (wr_StartsAt req) _) as [s|]; [|done].
  destruct (parseMaintenanceWindowTime (wr_EndsAt req) _) as [e|]; [|done]. cbn.
  destruct (Z.ltb_spec s e); [|done]. cbn [negb]. intros [= <-]. done.
Qed.

(** A creation answers with the row it stored, or leaves the table. *)
Lemma create_inv tbl mt auth body id saved tbl' mt' r :
  serveMaintenanceWindowsCreate d tbl mt auth body id saved = (tbl', mt', r) -> m_closed mt = closed ->
  match r with
  | Ok m => tbl' = <[id := m]> tbl /\ mw_ID m = id /\ proper_window auth m
  | Err _ => tbl' = tbl
  end.
Proof using Type.
  unfold serveMaintenanceWindowsCreate. destruct (requested d body id) as [m|] eqn:Hr; [|by intros [= <- <- <-]].
  apply requested_proper in Hr as (Hid & Hp & Ht). pose proof (in_scope_may mt auth (mw_AssetPath m)) as Hs.
  destruct (in_scope mt auth (mw_AssetPath m)) as [mt1 ok]. cbn [snd] in Hs.
  destruct ok; cbn [negb]; [|by intros [= <- <- <-]]. unfold PutMaintenanceWindow.
  intros [= <- <- <-] Hc. destruct saved; [|done]. rewrite Hid. split; [done|]. split; [done|].
  split; [by rewrite <- Hc, <- Hs|done].
Qed.

Lemma delete_read_inv tbl mt auth id mt' m : delete_read tbl mt auth id = (mt', Ok m) -> m_closed mt = closed ->
  tbl !! id = Some m /\ may_write closed auth (mw_AssetPath m) = true.
Proof using Type.
  unfold delete_read, GetMaintenanceWindow. destruct (negb _); [done|]. destruct (tbl !! id) as [m0|]; [|done].
  pose proof (in_scope_may mt auth (mw_AssetPath m0)) as Hs. destruct (in_scope _ _ _) as [mt1 ok]. cbn [snd] in Hs.
  destruct ok; [|done]. intros [= _ <-] <-. done.
Qed.

Lemma delete_commit_inv tbl id saved tbl' r : delete_commit tbl id saved = (tbl', r) ->
  match r with Ok _ => tbl' = delete id tbl /\ is_Some (tbl !! id) | Err _ => tbl' = tbl end.
Proof using Type.
  unfold delete_commit, DeleteMaintenanceWindow. destruct (tbl !! id) as [m|] eqn:E.
  - destruct saved; intros [= <- <-]; [|done]. by split.
  - by intros [= <- <-].
Qed.

Lemma in_removed id log : id ∈ removed_ids log <-> exists a m, Removed a m ∈ log /\ mw_ID m = id.
Proof using Type.
  unfold removed_ids. rewrite list_elem_of_omap. split.
  - intros ([a m|a m] & Hin & E); [done|]. injection E as <-. eauto.
  - intros (a & m & Hin & <-). by exists (Removed a m).
Qed.

Lemma windows_ok_create tbl reads log auth m :
  windows_ok (mkWsys tbl reads log) -> (forall a m', Created a m' ∈ log -> mw_ID m' <> mw_ID m) ->
  proper_window auth m -> windows_ok (mkWsys (<[mw_ID m := m]> tbl) reads (Created auth m :: log)).
Proof using Type.
  intros [Ht Hc Ho Hr Hm Hn] Hnew Hp. cbn [wy_tbl wy_reads wy_log] in *.
  assert (Hfresh : mw_ID m ∉ removed_ids log).
  { intros (a & m' & Hin & E)%in_removed. destruct (Hm _ _ Hin) as [_ [a' Hcr]]. by apply (Hnew _ _ Hcr). }
  split; cbn [wy_tbl wy_reads wy_log].
  - intros id m'. change (removed_ids (Created auth m :: log)) with (removed_ids log).
    rewrite lookup_insert_Some. split.
    + intros [[<- <-]|[Hne Hl]].
      * split; [done|]. split; [exists auth; by left|done].
      * apply Ht in Hl as (H1 & [a H2] & H3). split; [done|]. split; [exists a; by right|done].
    + intros (<- & [a [[= _ ->]|Ha]%elem_of_cons] & Hrem); [by left|right].
      split; [by apply not_eq_sym, (Hnew a)|]. apply Ht. eauto.
  - intros a m' [[= -> ->]|Hin]%elem_of_cons; [done|by apply Hc].
  - intros a a' m1 m2 [[= -> ->]|H1]%elem_of_cons [[= -> ->]|H2]%elem_of_cons E; [done|..|by eapply Ho].
    + exfalso. by apply (Hnew _ _ H2).
    + exfalso. by apply (Hnew _ _ H1).
  - intros a m' Hin. destruct (Hr _ _ Hin) as [H1 [a' H2]]. split; [done|]. exists a'. by right.
  - intros a m' [E|Hin]%elem_of_cons; [done|]. destruct (Hm _ _ Hin) as [H1 [a' H2]]. split; [done|]. exists a'. by right.
  - exact Hn.
Qed.

Lemma windows_ok_remove tbl reads log auth m m' :
  windows_ok (mkWsys tbl reads log) -> (auth, m) ∈ reads -> tbl !! mw_ID m = Some m' ->
  windows_ok (mkWsys (delete (mw_ID m) tbl) reads (Removed auth m' :: log)).
Proof using Type.
  intros [Ht Hc Ho Hr Hm Hn] Hin Hl. cbn [wy_tbl wy_reads wy_log] in *.
  apply Ht in Hl as (Hid & [a0 Hcr] & Hrem). destruct (Hr _ _ Hin) as [Hmay [a1 Hcr1]].
  assert (m' = m) as -> by (by eapply Ho).
  assert (Hcre : forall a x, Created a x ∈ Removed auth m :: log <-> Created a x ∈ log).
  { intros a x. rewrite elem_of_cons. split; [by intros [E|?]|auto]. }
  split; cbn [wy_tbl wy_reads wy_log].
  - intros id x. change (removed_ids (Removed auth m :: log)) with (mw_ID m :: removed_ids log).
    rewrite lookup_delete_Some, Ht, not_elem_of_cons. split.
    + intros (Hne & H1 & [a H2] & H3). split; [done|]. split; [exists a; by apply Hcre|]. by split.
    + intros (H1 & [a H2%Hcre] & H3 & H4). split; [done|]. eauto.
  - intros a x Hx%Hcre. by apply Hc.
  - intros a a' x x' Hx%Hcre Hx'%Hcre. by eapply Ho.
  - intros a x Hx. destruct (Hr _ _ Hx) as [H1 [a' H2]]. split; [done|]. exists a'. by apply Hcre.
  - intros a x [[= -> ->]|Hx]%elem_of_cons.
    + split; [done|]. exists a0. by apply Hcre.
    + destruct (Hm _ _ Hx) as [H1 [a' H2]]. split; [done|]. exists a'. by apply Hcre.
  - change (removed_ids (Removed auth m :: log)) with (mw_ID m :: removed_ids log). by apply NoDup_cons.
Qed.

Lemma wreachable_ok y : wreachable y -> windows_ok y.
Proof using Type.
  induction 1 as [|y y' _ IH Hs].
  { split; cbn; try (by intros * []%elem_of_nil); try (by constructor); try (by intros * []%elem_of_nil ?).
    intros id m. rewrite lookup_empty. split; [done|]. by intros (_ & [a []%elem_of_nil] & _). }
  destruct Hs as [tbl reads log mt auth body id saved tbl' mt' r Hc Hnew H|tbl reads log mt auth id mt' m Hc H|
    tbl reads log auth m saved tbl' r Hin H].
  - apply create_inv in H; [|done]. destruct r as [m|e]; [|by subst]. destruct H as (-> & <- & Hp).
    by apply windows_ok_create.
  - apply delete_read_inv in H as [Hl Hmay]; [|done]. destruct IH as [Ht Hc' Ho Hr Hm Hn].
    split; [exact Ht|exact Hc'|exact Ho| |exact Hm|exact Hn]. cbn [wy_reads wy_log] in *.
    intros a x [[= -> ->]|Hx]%elem_of_cons; [|by apply Hr]. split; [done|]. by apply Ht in Hl as (_ & ? & _).
  - apply delete_commit_inv in H. destruct r as [i|e]; [|by subst]. destruct H as [-> [m' Hm']]. rewrite Hm'.
    by apply windows_ok_remove.
Qed.

Lemma wreachable_keyed y : wreachable y -> windows_keyed (wy_tbl y).
Proof using Type. intros Hy id m Hm. by apply (wo_table _ (wreachable_ok _ Hy)) in Hm as [? _]. Qed.

(** C34: maintenance windows are what was authorised: after any history of
    requests, whatever happens between the check and the removal of a delete and
    whichever saves fail, the table holds exactly the windows that were created
    and not removed; each was created under a valid path, with its end behind its
    start, by a principal that may write there, each removal was of a window at a
    path its principal may write, and no window is removed twice; and an asset is
    under maintenance at a time exactly when one of those windows covers the time
    and the asset or an ancestor, the first of them in the order of the list being
    the one that is reported. *)
Theorem windows_ledger y : wreachable y ->
  (forall id m, wy_tbl y !! id = Some m <->
     mw_ID m = id /\ (exists a, Created a m ∈ wy_log y) /\ id ∉ removed_ids (wy_log y)) /\
  (forall a m, Created a m ∈ wy_log y -> proper_window a m) /\
  (forall a m, Removed a m ∈ wy_log y -> may_write closed a (mw_AssetPath m) = true) /\
  NoDup (removed_ids (wy_log y)) /\
  (forall path now,
    let covers m := (exists a, Created a m ∈ wy_log y) /\ (mw_ID m ∉ removed_ids (wy_log y)) /\
      (mw_StartsAt m <= now < mw_EndsAt m)%Z /\
      (path = mw_AssetPath m \/ exists part, path = mw_AssetPath m +:+ "." +:+ part) in
    match ActiveWindowFor (wy_tbl y) path now with
    | Some m => covers m /\ forall m', covers m' -> window_le m m'
    | None => forall m, ~ covers m
    end).
Proof using Type.
  intros Hy. pose proof (wreachable_ok y Hy) as Hok. split; [apply Hok|]. split; [apply Hok|].
  split; [by intros a m Hm; apply (wo_removed _ Hok) in Hm as [? _]|]. split; [apply Hok|].
  intros path now covers. pose proof (ActiveWindowFor_spec (wy_tbl y) path now) as Ha.
  assert (Hcov : forall m, covers m <-> (exists id, wy_tbl y !! id = Some m) /\ in_force path now m = true).
  { intros m. unfold covers. rewrite in_force_iff. split.
    - intros (Hc & Hr & H). split; [|done]. exists (mw_ID m). by apply (wo_table _ Hok).
    - intros [[id (<- & Hc & Hr)%(wo_table _ Hok)] H]. done. }
  destruct (ActiveWindowFor _ _ _) as [m|].
  - destruct Ha as (H1 & H2 & H3). split; [by apply Hcov|]. intros m' [[id Hm'] Hf]%Hcov. by eapply H3.
  - intros m [[id Hm] Hf]%Hcov. by rewrite (Ha id m Hm) in Hf.
Qed.
End history.

(** ** Upcoming work *)

(** Which items are listed, and in the order of date, kind and id. *)
Lemma upcoming_spec pms insps mt auth before overdue now items :
  (serveMaintenanceUpcoming pms insps mt auth before overdue now).2 = Ok items ->
  exists b o, optional ParseRFC3339 (bad_request "bad before (need RFC3339)") before = Ok b /\
    optional ParseBool (bad_request "bad overdue (need bool)") overdue = Ok o /\
    StronglySorted upcoming_le items /\
    forall it, it ∈ items <->
      upcoming_wanted b o it = true /\ sees (m_closed mt) auth (ui_AssetPath it) = true /\
      ((exists id p, pms !! id = Some p /\ pm_Enabled p = true /\ it = pm_item now p) \/
       (exists id p, insps !! id = Some p /\ in_Enabled p = true /\ it = insp_item now p)).
Proof.
  unfold serveMaintenanceUpcoming.
  destruct (optional ParseRFC3339 _ before) as [b|]; [|done]. destruct (optional ParseBool _ overdue) as [o|]; [|done].
  pose proof (filter_visible_sees auth pm_Enabled pm_AssetPath (ListSchedules pms) mt) as [E1 C1].
  destruct (filter_visible mt auth pm_Enabled pm_AssetPath _) as [mt1 pm]. cbn [fst snd] in E1, C1.
  pose proof (filter_visible_sees auth in_Enabled in_AssetPath (ListSchedules insps) mt1) as [E2 _].
  destruct (filter_visible mt1 auth in_Enabled in_AssetPath _) as [mt2 insp]. cbn [snd] in *.
  intros [= <-]. exists b, o. split; [done|]. split; [done|]. split; [apply StronglySorted_merge_sort; apply _|].
  assert (Hl : forall {P} `{Scheduled P} (m : gmap string P) x, x ∈ ListSchedules m <-> exists id, m !! id = Some x).
  { intros P HP m x. unfold ListSchedules. rewrite merge_sort_Permutation. apply in_rows. }
  intros it. rewrite merge_sort_Permutation, in_filter, elem_of_app. rewrite C1 in E2. rewrite E1, E2.
  split.
  - intros [[Hin|Hin] Hw]; apply list_elem_of_fmap in Hin as (p & -> & [Hp [He Hs]%andb_true_iff]%in_filter);
      apply Hl in Hp as [id Hp]; split; try done; split; try done; [left|right]; eauto.
  - intros (Hw & Hs & [(id & p & Hp & He & ->)|(id & p & Hp & He & ->)]); split; try done; [left|right];
      apply list_elem_of_fmap; exists p; (split; [done|]); apply in_filter; (split; [apply Hl; eauto|]);
      apply andb_true_iff; done.
Qed.

(** ** Closed instances *)

Definition window_req (path from to : string) : option maintenanceWindowCreateRequest :=
  Some (mkWindowCreate path from to "filters").
Definition mw1 : string := "mw_AAAAAAAAAAAAAAAA".
Definition mw2 : string := "mw_AAAAAAAAAAAAAAAB".
Definition free_meter : meter := mkMeter 0 ∅ false.
Definition admin : option Principal := Some root.

(** Two windows are created, and the first is removed. *)
Definition created1 : windows :=
  (serveMaintenanceWindowsCreate demo_dict ∅ free_meter admin
     (window_req "sgp01.pod002" "2024-03-01T00:00:00Z" "2024-03-02T00:00:00Z") mw1 true).1.1.
Definition created2 : windows :=
  (serveMaintenanceWindowsCreate demo_dict created1 free_meter admin
     (window_req "sgp01.pod002.cdu000" "2024-03-01T06:00:00Z" "2024-03-01T18:00:00+02:00") mw2 true).1.1.
Definition march1_noon : time := Date 2024 3 1 43200 0 UTC.

Example window_of_ancestor :
  mw_ID <$> ActiveWindowFor created2 "sgp01.pod002.cdu000.gpu001" march1_noon = Some mw1 /\
  mw_ID <$> ActiveWindowFor (serveMaintenanceWindowDelete created2 free_meter admin mw1 true).1.1
    "sgp01.pod002.cdu000.gpu001" march1_noon = Some mw2 /\
  mw_ID <$> ActiveWindowFor created2 "sgp01.pod0020" march1_noon = None.
Proof. vm_compute. repeat split. Qed.

Definition after_create (y : wsys) (body : option maintenanceWindowCreateRequest) (id : string) : wsys :=
  let x := serveMaintenanceWindowsCreate demo_dict (wy_tbl y) free_meter admin body id true in
  mkWsys x.1.1 (wy_reads y) (match x.2 with Ok m => Created admin m :: wy_log y | Err _ => wy_log y end).
Definition after_read (y : wsys) (id : string) : wsys :=
  match (delete_read (wy_tbl y) free_meter admin id).2 with
  | Ok m => mkWsys (wy_tbl y) ((admin, m) :: wy_reads y) (wy_log y)
  | Err _ => y
  end.
Definition after_commit (y : wsys) : wsys :=
  match wy_reads y with
  | [] => y
  | (auth, m) :: _ =>
      let x := delete_commit (wy_tbl y) (mw_ID m) true in
      mkWsys x.1 (wy_reads y)
        (match x.2, wy_tbl y !! mw_ID m with Ok _, Some m' => Removed auth m' :: wy_log y | _, _ => wy_log y end)
  end.

Lemma after_create_step y body id : wreachable demo_dict false y ->
  forallb (fun e => match e with Created _ m => negb (str_eqb (mw_ID m) id) | Removed _ _ => true end) (wy_log y) = true ->
  wreachable demo_dict false (after_create y body id).
Proof.
  intros Hy Hf. eapply wr_step; [exact Hy|]. unfold after_create. destruct y as [tbl reads log]. cbn [wy_tbl wy_reads wy_log] in *.
  destruct (serveMaintenanceWindowsCreate demo_dict tbl free_meter admin body id true) as [[tbl' mt'] r] eqn:E.
  eapply (w_create demo_dict false tbl reads log free_meter admin body id true); [done| |exact E].
  intros a m Hm Heq. rewrite forallb_forall in Hf. apply list_elem_of_In in Hm. apply Hf in Hm. cbn in Hm.
  by rewrite Heq, str_eqb_refl in Hm.
Qed.
Lemma after_read_step y id : wreachable demo_dict false y -> wreachable demo_dict false (after_read y id).
Proof.
  intros Hy. unfold after_read. destruct y as [tbl reads log]. cbn [wy_tbl wy_reads wy_log] in *.
  destruct (delete_read tbl free_meter admin id) as [mt' [m|e]] eqn:E; cbn [snd]; [|done].
  eapply wr_step; [exact Hy|]. by eapply (w_delete_read demo_dict false tbl reads log free_meter admin id).
Qed.
Lemma after_commit_step y : wreachable demo_dict false y -> wreachable demo_dict false (after_commit y).
Proof.
  intros Hy. unfold after_commit. destruct y as [tbl [|[auth m] reads] log]; cbn [wy_tbl wy_reads wy_log]; [done|].
  eapply wr_step; [exact Hy|]. destruct (delete_commit tbl (mw_ID m) true) as [tbl' r] eqn:E.
  by eapply (w_delete_commit demo_dict false tbl ((auth, m) :: reads) log auth m true); [left|].
Qed.

Definition demo_history : wsys :=
  after_commit (after_read (after_create (after_create (mkWsys ∅ [] [])
    (window_req "sgp01.pod002" "2024-03-01T00:00:00Z" "2024-03-02T00:00:00Z") mw1)
    (window_req "sgp01.pod002.cdu000" "2024-03-01T06:00:00Z" "2024-03-01T18:00:00+02:00") mw2) mw1).
Lemma demo_history_reachable : wreachable demo_dict false demo_history.
Proof.
  unfold demo_history. apply after_commit_step, after_read_step, after_create_step; [apply after_create_step|];
    [constructor|vm_compute; reflexivity..].
Qed.

Lemma windows_ledger_witness :
  is_Some (wy_tbl demo_history !! mw2) /\ mw1 ∈ removed_ids (wy_log demo_history) /\
  (mw1 ∈ removed_ids (wy_log demo_history) -> forall m, wy_tbl demo_history !! mw1 <> Some m).
Proof.
  pose proof (windows_ledger demo_dict false demo_history demo_history_reachable) as (H & _).
  split; [by eexists; vm_compute|]. split; [vm_compute; by left|].
  intros Hin m Hm. by apply H in Hm as (_ & _ & Hn).
Defined.

(** A window of the year 9000: its start does not fit 64-bit nanoseconds, its
    cursor sorts before the cursors of today, and a client that pages one by
    one never sees it. *)
Definition far : MaintenanceWindow :=
  mkWindow mw2 "sgp01.pod002" (Date 9000 1 1 0 0 UTC) (Date 9001 1 1 0 0 UTC) EmptyString.
Definition near : MaintenanceWindow :=
  mkWindow mw1 "sgp01.pod002" (Date 2024 3 1 0 0 UTC) (Date 2024 3 2 0 0 UTC) EmptyString.
Example far_window_skipped :
  let tbl : windows := <[mw1 := near]> {[mw2 := far]} in
  map mw_ID (ListMaintenanceWindows tbl) = [mw1; mw2] /\
  (map mw_ID <$> client 5 (fun _ tok => (serveMaintenanceWindowsList tbl free_meter admin "1" tok).2) EmptyString) =
    Some [mw1].
Proof. vm_compute. split; reflexivity. Qed.
