(* ===== verification/AlarmDesk.v ===== *)
(** * The alarm desk (core/alarms.go and its part of store.go)

    The list of alarms and their acknowledgement over the file store: seeding at
    start, the order of the list, the acknowledgement in two halves, the copy on
    disk.  A desk is a run of the service from one start to the next; the
    ledger theorem says what any interleaving of requests leaves behind. *)
From stdpp Require Import sorting.
From S2P Require Import Prelude GoTime CPath Glob AlarmEngine RBAC Http PromProj Cursor Schedule Registry Pages Calendar Windows.
Open Scope string_scope.
Open Scope list_scope.

(** ** Data *)

Record Alarm : Type := mkAlarm {
  al_ID : string; al_Path : string; al_Severity : string; al_State : string; al_Summary : string; al_Since : time;
  al_AckedBy : string; al_AckedAt : option time
}.
Abbreviation alarms := (gmap string Alarm).

Inductive alarm_err : Type := ErrAlarmNotAckable | ErrAlarmSave.

(** ** The store *)

Definition severityRank (s : string) : Z :=
  if str_eqb s "critical" then 0 else if str_eqb s "major" then 1
  else if str_eqb s "minor" then 2 else if str_eqb s "info" then 3 else 4.

(** Critical first, then the newest. *)
Definition alarm_le (a b : Alarm) : Prop :=
  (severityRank (al_Severity a) < severityRank (al_Severity b))%Z \/
  (severityRank (al_Severity a) = severityRank (al_Severity b) /\ (al_Since b <= al_Since a)%Z).

(** What [ListAlarms] may return: the rows, sorted; it collects them from a map,
    so that rows with equal severity and time come in any order. *)
Definition alarms_listed (tbl : alarms) (all : list Alarm) : Prop :=
  all ≡ₚ (map_to_list tbl).*2 /\ StronglySorted alarm_le all.

(** The body of the loop of [SeedAlarms]. *)
Definition seed_alarm (tbl : alarms) (a : Alarm) : alarms :=
  match tbl !! al_ID a with
  | Some prev =>
      <[al_ID a := mkAlarm (al_ID prev) (al_Path a) (al_Severity a) (al_State a) (al_Summary a) (al_Since prev)
                     (al_AckedBy prev) (al_AckedAt prev)]> tbl
  | None => <[al_ID a := a]> tbl
  end.
Definition SeedAlarms (tbl : alarms) (seed : list Alarm) : alarms := foldl seed_alarm tbl seed.

Definition acked (a : Alarm) (actor : string) (now : time) : Alarm :=
  mkAlarm (al_ID a) (al_Path a) (al_Severity a) "acked" (al_Summary a) (al_Since a) actor (Some now).

(** The row and whether it was found; a failed save leaves the row acknowledged
    in memory. *)
Definition AckAlarm (tbl : alarms) (id actor : string) (now : time) (saved : bool) :
    alarms * (option Alarm * option alarm_err) :=
  match tbl !! id with
  | None => (tbl, (None, None))
  | Some a =>
      if negb (str_eqb (al_State a) "firing") then (tbl, (Some a, Some ErrAlarmNotAckable))
      else
        let a := acked a actor now in
        (<[id := a]> tbl, (Some a, if saved then None else Some ErrAlarmSave))
  end.

(** ** The list endpoint; [all] is what [ListAlarms] returned *)

Definition allowedStates : list string := ["firing"; "acked"; "resolved"].

Record alarmQuery : Type := mkAlarmQuery {
  aq_severity : string; aq_state : string; aq_filter : string; aq_page_size : string; aq_page_token : string
}.

Definition alarm_wanted (glob : Glob) (q : alarmQuery) (a : Alarm) : bool :=
  wanted (aq_severity q) (al_Severity a) && wanted (aq_state q) (al_State a) && Match glob (al_Path a).

Definition serveAlarms (all : list Alarm) (mt : meter) (auth : option Principal) (q : alarmQuery) :
    meter * result problem (list Alarm * string) :=
  if negb (str_eqb (aq_severity q) EmptyString) && negb (contains_string AllowedSeverities (aq_severity q))
  then (mt, Err (bad_request "bad severity"))
  else if negb (str_eqb (aq_state q) EmptyString) && negb (contains_string allowedStates (aq_state q))
  then (mt, Err (bad_request "bad state"))
  else
    match CompileGlob (if str_eqb (aq_filter q) EmptyString then "**" else aq_filter q) with
    | Err _ => (mt, Err (bad_request "bad filter"))
    | Ok glob =>
        match parsePageSize (aq_page_size q) with
        | Err e => (mt, Err e)
        | Ok pageSize =>
            if negb (str_eqb (aq_page_token q) EmptyString) &&
               negb (bool_decide (is_Some (decodePageToken (aq_page_token q))))
            then (mt, Err bad_token)
            else
              let '(mt', items) := filter_visible mt auth (alarm_wanted glob q) al_Path all in
              (mt', index_page items pageSize (aq_page_token q))
        end
    end.

(** ** Acknowledgement, in two halves: the check of the listed alarm, and the
    write *)

Definition alarm_not_found : problem := Problem 404 "path-not-found" "alarm not found".

Definition ack_read (all : list Alarm) (mt : meter) (auth : option Principal) (id : string) :
    meter * result problem (Principal * Alarm) :=
  match auth with
  | None => (mt, Err (Problem 401 "unauthorized" "Unauthorized"))
  | Some p =>
      if str_eqb (p_Subject p) EmptyString then (mt, Err (Problem 401 "unauthorized" "Unauthorized"))
      else match List.find (fun a => str_eqb (al_ID a) id) all with
      | None => (mt, Err alarm_not_found)
      | Some cur =>
          let '(mt', r) := authorize mt p ActionControlWrite (al_Path cur) in
          (mt', if is_ok r then Ok (p, cur) else Err (Problem 403 "forbidden" "Forbidden"))
      end
  end.

Definition ack_commit (tbl : alarms) (p : Principal) (id : string) (now : time) (saved : bool) :
    alarms * result problem Alarm :=
  match AckAlarm tbl id (p_Subject p) now saved with
  | (tbl', (_, Some ErrAlarmNotAckable)) =>
      (tbl', Err (Problem 409 "conflict" "alarm already acknowledged or resolved"))
  | (tbl', (_, Some ErrAlarmSave)) => (tbl', Err store_error)
  | (tbl', (None, None)) => (tbl', Err alarm_not_found)
  | (tbl', (Some a, None)) => (tbl', Ok a)
  end.

Definition serveAlarmAck (tbl : alarms) (all : list Alarm) (mt : meter) (auth : option Principal) (id : string)
    (now : time) (saved : bool) : alarms * meter * result problem Alarm :=
  match ack_read all mt auth id with
  | (mt', Err e) => (tbl, mt', Err e)
  | (mt', Ok (p, _)) => let '(tbl', r) := ack_commit tbl p id now saved in (tbl', mt', r)
  end.

(** ** Seeding *)

Definition alarms_keyed (tbl : alarms) : Prop := forall id a, tbl !! id = Some a -> al_ID a = id.

Lemma seed_alarm_keyed tbl a : alarms_keyed tbl -> alarms_keyed (seed_alarm tbl a).
Proof.
  intros Hk id b. unfold seed_alarm. destruct (tbl !! al_ID a) as [prev|] eqn:E;
    intros [[<- <-]|[_ Hb]]%lookup_insert_Some; cbn; try done; [by apply Hk|by apply Hk|by apply Hk].
Qed.

Lemma SeedAlarms_keyed seed : forall tbl, alarms_keyed tbl -> alarms_keyed (SeedAlarms tbl seed).
Proof. induction seed as [|a seed IH]; intros tbl Hk; [done|]. apply IH. by apply seed_alarm_keyed. Qed.

(** Seeding touches the alarms of the seed only; a seed without repetitions gives
    a new alarm as it is written and overwrites the severity, the state, the text
    and the path of one that is there. *)
Lemma SeedAlarms_other seed : forall tbl id, id ∉ al_ID <$> seed -> SeedAlarms tbl seed !! id = tbl !! id.
Proof.
  induction seed as [|a seed IH]; intros tbl id Hid; [done|].
  rewrite fmap_cons, not_elem_of_cons in Hid. destruct Hid as [Hne Hid]. cbn [SeedAlarms foldl].
  change (foldl seed_alarm (seed_alarm tbl a) seed) with (SeedAlarms (seed_alarm tbl a) seed).
  rewrite IH by done. unfold seed_alarm. destruct (tbl !! al_ID a); by rewrite lookup_insert_ne.
Qed.

Lemma SeedAlarms_seeded seed tbl a : NoDup (al_ID <$> seed) -> a ∈ seed ->
  SeedAlarms tbl seed !! al_ID a =
  Some match tbl !! al_ID a with
       | Some prev => mkAlarm (al_ID prev) (al_Path a) (al_Severity a) (al_State a) (al_Summary a) (al_Since prev)
                        (al_AckedBy prev) (al_AckedAt prev)
       | None => a
       end.
Proof.
  revert tbl. induction seed as [|b seed IH]; intros tbl Hn Ha; [by apply elem_of_nil in Ha|].
  rewrite fmap_cons, NoDup_cons in Hn. destruct Hn as [Hb Hn]. cbn [SeedAlarms foldl].
  change (foldl seed_alarm (seed_alarm tbl b) seed) with (SeedAlarms (seed_alarm tbl b) seed).
  apply elem_of_cons in Ha as [->|Ha].
  - rewrite SeedAlarms_other by done. unfold seed_alarm. destruct (tbl !! al_ID b); by rewrite lookup_insert_eq.
  - rewrite IH by done. assert (Hne : al_ID b <> al_ID a).
    { intros E. apply Hb. rewrite E. by apply list_elem_of_fmap_2. }
    assert (Hl : seed_alarm tbl b !! al_ID a = tbl !! al_ID a).
    { unfold seed_alarm. destruct (tbl !! al_ID b); by rewrite lookup_insert_ne. }
    by rewrite Hl.
Qed.

(** ** Histories *)

(** An acknowledgement that reached memory, and whether it was answered with
    success. *)
Record ack : Type := mkAck { ak_who : Principal; ak_id : string; ak_at : time; ak_ok : bool }.
Record desk : Type := mkDesk {
  dk_mem : alarms; dk_disk : alarms; dk_reads : list (Principal * string); dk_log : list ack
}.

Definition logged (p : Principal) (id : string) (now : time) (answer : option Alarm * option alarm_err) : list ack :=
  match answer with
  | (Some _, None) => [mkAck p id now true]
  | (Some _, Some ErrAlarmSave) => [mkAck p id now false]
  | _ => []
  end.

Section history.
Context (closed : bool) (boot : alarms) (Hboot : alarms_keyed boot).

(** The halves of the handler, and saves of other parts of the store, which
    write the whole file. *)
Inductive dstep : desk -> desk -> Prop :=
  | d_read mem disk reads log all mt auth id mt' p cur :
      alarms_listed mem all -> m_closed mt = closed -> ack_read all mt auth id = (mt', Ok (p, cur)) ->
      dstep (mkDesk mem disk reads log) (mkDesk mem disk ((p, id) :: reads) log)
  | d_commit mem disk reads log p id now saved mem' r :
      (p, id) ∈ reads -> ack_commit mem p id now saved = (mem', r) ->
      dstep (mkDesk mem disk reads log)
        (mkDesk mem' (if is_ok r then mem' else disk) reads
           (logged p id now (AckAlarm mem id (p_Subject p) now saved).2 ++ log))
  | d_save mem disk reads log : dstep (mkDesk mem disk reads log) (mkDesk mem mem reads log).

Inductive dreachable : desk -> Prop :=
  | dr_init : dreachable (mkDesk boot boot [] [])
  | dr_step y y' : dreachable y -> dstep y y' -> dreachable y'.

(** The row of an alarm after the acknowledgements of a log. *)
Definition after_acks (log : list ack) (id : string) : option Alarm :=
  match List.find (fun k => str_eqb (ak_id k) id) log with
  | Some k => (fun a => acked a (p_Subject (ak_who k)) (ak_at k)) <$> boot !! id
  | None => boot !! id
  end.

Definition backed (p : Principal) (id : string) : Prop :=
  p_Subject p <> EmptyString /\ exists a, boot !! id = Some a /\ may_write closed (Some p) (al_Path a) = true.

Record desk_ok (y : desk) : Prop := mkDeskOk {
  do_mem : forall id, dk_mem y !! id = after_acks (dk_log y) id;
  do_disk : forall id, dk_disk y !! id = dk_mem y !! id \/
    (dk_disk y !! id = boot !! id /\ forall k, k ∈ dk_log y -> ak_id k = id -> ak_ok k = false);
  do_once : NoDup (ak_id <$> dk_log y);
  do_reads : forall p id, (p, id) ∈ dk_reads y -> backed p id;
  do_log : forall k, k ∈ dk_log y -> backed (ak_who k) (ak_id k) /\
    exists a, boot !! ak_id k = Some a /\ al_State a = "firing"
}.

Lemma find_alarm all id a : List.find (fun a => str_eqb (al_ID a) id) all = Some a -> a ∈ all /\ al_ID a = id.
Proof using Type.
  intros H. apply find_some in H as [Hin He]. split; [by apply list_elem_of_In|by apply str_eqb_eq].
Qed.

Lemma after_acks_path log id a : after_acks log id = Some a -> exists b, boot !! id = Some b /\ al_Path a = al_Path b.
Proof using Type.
  unfold after_acks. destruct (List.find _ _) as [k|]; [|by eauto].
  destruct (boot !! id) as [b|]; [|done]. intros [= <-]. by exists b.
Qed.

Lemma after_acks_id log id a : after_acks log id = Some a -> al_ID a = id.
Proof using Hboot.
  unfold after_acks. destruct (List.find _ _) as [k|]; [|by apply Hboot].
  destruct (boot !! id) as [b|] eqn:E; [|done]. intros [= <-]. cbn. by apply Hboot.
Qed.

Lemma ack_read_backed mem log all mt auth id mt' p cur : (forall i, mem !! i = after_acks log i) ->
  alarms_listed mem all -> m_closed mt = closed -> ack_read all mt auth id = (mt', Ok (p, cur)) -> backed p id.
Proof using Hboot.
  intros Hmem [Hp _] Hc. unfold ack_read. destruct auth as [q|]; [|done].
  destruct (str_eqb (p_Subject q) EmptyString) eqn:Hs; [done|]. destruct (List.find _ all) as [c|] eqn:Hf; [|done].
  apply find_alarm in Hf as [Hin Hid]. rewrite Hp in Hin. apply in_rows in Hin as [i Hi].
  pose proof (in_scope_may mt (Some q) (al_Path c)) as Hm. unfold in_scope in Hm.
  destruct (authorize mt q ActionControlWrite (al_Path c)) as [mt1 r]. cbn [snd] in Hm.
  destruct (is_ok r); [|done]. intros [= _ <- <-]. split; [by apply str_eqb_neq|].
  rewrite Hmem in Hi. pose proof (after_acks_id _ _ _ Hi) as Hi'. assert (i = id) as -> by congruence.
  destruct (after_acks_path _ _ _ Hi) as (b & Hb & Hpath). exists b. split; [done|]. by rewrite <- Hpath, <- Hc, <- Hm.
Qed.

Lemma after_acks_new k log a : boot !! ak_id k = Some a ->
  forall id, after_acks (k :: log) id =
    if decide (ak_id k = id) then Some (acked a (p_Subject (ak_who k)) (ak_at k)) else after_acks log id.
Proof using Type.
  intros Ha id. unfold after_acks. cbn [List.find]. destruct (decide (ak_id k = id)) as [<-|Hne].
  - by rewrite str_eqb_refl, Ha.
  - apply str_eqb_neq in Hne. by rewrite Hne.
Qed.

(** A firing alarm is one that was firing at the start and is in no entry. *)
Lemma firing_unlogged log id a : after_acks log id = Some a -> al_State a = "firing" ->
  boot !! id = Some a /\ id ∉ ak_id <$> log.
Proof using Type.
  unfold after_acks. intros Ha Hs. destruct (List.find _ log) as [k|] eqn:Hf.
  - destruct (boot !! id); [|done]. injection Ha as <-. discriminate Hs.
  - split; [done|]. intros (k & -> & Hk)%list_elem_of_fmap. apply list_elem_of_In in Hk.
    pose proof (find_none _ _ Hf k Hk) as E. cbn in E. by rewrite str_eqb_refl in E.
Qed.

(** What an acknowledgement does. *)
Lemma AckAlarm_inv mem id actor now saved :
  match mem !! id with
  | None => AckAlarm mem id actor now saved = (mem, (None, None))
  | Some a =>
      if str_eqb (al_State a) "firing" then
        AckAlarm mem id actor now saved =
          (<[id := acked a actor now]> mem, (Some (acked a actor now), if saved then None else Some ErrAlarmSave))
      else AckAlarm mem id actor now saved = (mem, (Some a, Some ErrAlarmNotAckable))
  end.
Proof using Type. unfold AckAlarm. destruct (mem !! id) as [a|]; [|done]. by destruct (str_eqb _ _). Qed.

Lemma desk_ok_same mem disk reads log : desk_ok (mkDesk mem disk reads log) -> desk_ok (mkDesk mem mem reads log).
Proof using Type. intros [H1 H2 H3 H4 H5]. split; try done. intros id. by left. Qed.

Lemma desk_ok_commit mem disk reads log p id now saved mem' r :
  desk_ok (mkDesk mem disk reads log) -> (p, id) ∈ reads -> ack_commit mem p id now saved = (mem', r) ->
  desk_ok (mkDesk mem' (if is_ok r then mem' else disk) reads
    (logged p id now (AckAlarm mem id (p_Subject p) now saved).2 ++ log)).
Proof using Type.
  intros Hok Hin Hc. unfold ack_commit in Hc. pose proof (AckAlarm_inv mem id (p_Subject p) now saved) as Hi.
  destruct (mem !! id) as [a|] eqn:Hl; [|by rewrite Hi in *; injection Hc as <- <-].
  destruct (str_eqb (al_State a) "firing") eqn:Hs; [|by rewrite Hi in *; injection Hc as <- <-].
  apply str_eqb_eq in Hs. rewrite Hi in *. destruct Hok as [Hm Hd Hn Hr Hlog]. cbn [dk_mem dk_disk dk_reads dk_log] in *.
  pose proof Hl as Hl'. rewrite Hm in Hl'. apply firing_unlogged in Hl' as [Hb Hnew]; [|done].
  set (k := mkAck p id now saved).
  assert (Hlogged : logged p id now
    (Some (acked a (p_Subject p) now), if saved then None else Some ErrAlarmSave) = [k]) by (by destruct saved).
  cbn [snd]. rewrite Hlogged. clear Hlogged.
  assert (E : mem' = <[id := acked a (p_Subject p) now]> mem /\ is_ok r = saved).
  { destruct saved; by injection Hc as <- <-. }
  destruct E as [-> ->]. clear Hi Hc.
  assert (Hmem : forall i, <[id := acked a (p_Subject p) now]> mem !! i = after_acks (k :: log) i).
  { intros i. rewrite (after_acks_new k log a Hb), lookup_insert. cbn. by case_decide; [|rewrite Hm]. }
  split; cbn [dk_mem dk_disk dk_reads dk_log app].
  - exact Hmem.
  - intros i. destruct saved; [by left|]. destruct (decide (id = i)) as [<-|Hne].
    + right. split.
      * destruct (Hd id) as [E|[E _]]; [|done]. rewrite E, Hl. done.
      * intros k' [->|Hk]%elem_of_cons Hid; [done|]. exfalso. apply Hnew. rewrite <- Hid. by apply list_elem_of_fmap_2.
    + rewrite lookup_insert_ne by done. destruct (Hd i) as [E|[E Ek]]; [by left|right]. split; [done|].
      intros k' [->|Hk]%elem_of_cons Hid; [by destruct Hne|by apply Ek].
  - rewrite fmap_cons. by apply NoDup_cons.
  - exact Hr.
  - intros k' [->|Hk]%elem_of_cons; [|by apply Hlog]. split; [by apply Hr|]. by exists a.
Qed.

Lemma dreachable_ok y : dreachable y -> desk_ok y.
Proof using Hboot.
  induction 1 as [|y y' _ IH Hs].
  { split; cbn; try done; try (by intros * []%elem_of_nil); [by left|constructor]. }
  destruct Hs as [mem disk reads log all mt auth id mt' p cur Ha Hc Hr|mem disk reads log p id now saved mem' r Hin Hc|].
  - pose proof IH as [H1 H2 H3 H4 H5]. split; cbn [dk_mem dk_disk dk_reads dk_log] in *; try done.
    intros q i [[= -> ->]|Hq]%elem_of_cons; [|by apply H4]. by eapply ack_read_backed.
  - by eapply desk_ok_commit.
  - by eapply desk_ok_same.
Qed.

(** C35: acknowledgements are one-way, once, and signed: from one start of the
    service to the next, whatever requests interleave and whichever saves fail,
    an alarm in memory is as it was at the start or carries the one
    acknowledgement the log has for it, which only a firing alarm gets and only
    from a named principal that may act on the path of the alarm; an
    acknowledgement that was answered with success is on disk, and the disk
    never holds anything but the alarm at the start or the alarm in memory. *)
Theorem ack_ledger y : dreachable y ->
  (forall id, dk_mem y !! id =
     match List.find (fun k => str_eqb (ak_id k) id) (dk_log y) with
     | Some k => (fun a => acked a (p_Subject (ak_who k)) (ak_at k)) <$> boot !! id
     | None => boot !! id
     end) /\
  NoDup (ak_id <$> dk_log y) /\
  (forall k, k ∈ dk_log y -> p_Subject (ak_who k) <> EmptyString /\
     exists a, boot !! ak_id k = Some a /\ al_State a = "firing" /\
       may_write closed (Some (ak_who k)) (al_Path a) = true) /\
  (forall k, k ∈ dk_log y -> ak_ok k = true -> dk_disk y !! ak_id k = dk_mem y !! ak_id k) /\
  (forall id, dk_disk y !! id = dk_mem y !! id \/ dk_disk y !! id = boot !! id).
Proof using Hboot.
  intros Hy. pose proof (dreachable_ok y Hy) as [Hm Hd Hn _ Hl]. split; [exact Hm|]. split; [exact Hn|].
  split; [|split].
  - intros k Hk. destruct (Hl k Hk) as [[Hs (b & Hb & Hw)] (a & Ha & Hf)]. split; [done|].
    exists a. assert (b = a) as -> by congruence. done.
  - intros k Hk Ho. destruct (Hd (ak_id k)) as [E|[_ E]]; [done|]. by rewrite (E k Hk eq_refl) in Ho.
  - intros id. destruct (Hd id) as [E|[E _]]; auto.
Qed.
End history.

(** ** The list *)

(** The rows of the list are the visible and wanted alarms in the order of what
    the store listed, cut by position. *)
Lemma serveAlarms_rows all mt auth q glob size :
  str_eqb (aq_severity q) EmptyString || contains_string AllowedSeverities (aq_severity q) = true ->
  str_eqb (aq_state q) EmptyString || contains_string allowedStates (aq_state q) = true ->
  CompileGlob (if str_eqb (aq_filter q) EmptyString then "**" else aq_filter q) = Ok glob ->
  parsePageSize (aq_page_size q) = Ok size ->
  (serveAlarms all mt auth q).2 =
    index_page (List.filter (fun a => alarm_wanted glob q a && sees (m_closed mt) auth (al_Path a)) all) size
      (aq_page_token q).
Proof.
  intros H1 H2 Hg Hs. unfold serveAlarms.
  destruct (str_eqb (aq_severity q) EmptyString), (contains_string AllowedSeverities _); try discriminate H1; cbn [negb andb];
  (destruct (str_eqb (aq_state q) EmptyString), (contains_string allowedStates _); try discriminate H2; cbn [negb andb]);
  rewrite Hg, Hs; pose proof (filter_visible_sees auth (alarm_wanted glob q) al_Path all mt) as [E _];
  destruct (filter_visible _ _ _ _ _) as [mt' items]; cbn [snd] in E; subst items;
  unfold index_page; destruct (str_eqb (aq_page_token q) EmptyString); try done; cbn [negb andb];
  destruct (decodePageToken (aq_page_token q)) as [t|]; try done;
  rewrite bool_decide_eq_true_2 by (by eexists); done.
Qed.

(** ** Closed instances *)

Definition alarm_at (id path state : string) : Alarm :=
  mkAlarm id path "major" state "too hot" march1_noon EmptyString None.
Definition demo_boot : alarms :=
  SeedAlarms ∅ [alarm_at "a1" "s1.cdu1" "firing"; alarm_at "a2" "s1.cdu2" "firing"; alarm_at "a3" "s1.cdu3" "resolved"].
Definition demo_all : list Alarm := (map_to_list demo_boot).*2.

Lemma demo_boot_keyed : alarms_keyed demo_boot.
Proof. apply SeedAlarms_keyed. intros id a. by rewrite lookup_empty. Qed.

Definition desk_commit (y : desk) (p : Principal) (id : string) (now : time) (saved : bool) : desk :=
  let x := ack_commit (dk_mem y) p id now saved in
  mkDesk x.1 (if is_ok x.2 then x.1 else dk_disk y) (dk_reads y)
    (logged p id now (AckAlarm (dk_mem y) id (p_Subject p) now saved).2 ++ dk_log y).

Lemma desk_commit_step boot y p id now saved : dreachable false boot y -> (p, id) ∈ dk_reads y ->
  dreachable false boot (desk_commit y p id now saved).
Proof.
  intros Hy Hin. eapply dr_step; [exact Hy|]. unfold desk_commit. destruct y as [mem disk reads log].
  cbn [dk_mem dk_disk dk_reads dk_log] in *. destruct (ack_commit mem p id now saved) as [mem' r] eqn:E.
  by apply (d_commit false mem disk reads log p id now saved mem' r).
Qed.

Lemma ties_sorted sev since l :
  forallb (fun a => str_eqb (al_Severity a) sev && (al_Since a =? since)%Z) l = true -> StronglySorted alarm_le l.
Proof.
  intros Hl. assert (Ha : Forall (fun a => al_Severity a = sev /\ al_Since a = since) l).
  { apply Forall_forall. intros a Ha. rewrite forallb_forall in Hl. apply list_elem_of_In, Hl in Ha.
    apply andb_true_iff in Ha as [H1 H2]. split; [by apply str_eqb_eq|by apply Z.eqb_eq]. }
  clear Hl. induction l as [|a l IH]; [constructor|]. apply Forall_cons in Ha as [[E1 E2] Ha].
  constructor; [by apply IH|]. eapply Forall_impl; [exact Ha|]. intros b [E1' E2'].
  right. rewrite E1, E1', E2, E2'. split; [done|lia].
Qed.

(** The three alarms tie, so that the store may list them in any order. *)
Example demo_listed : alarms_listed demo_boot demo_all /\ alarms_listed demo_boot (rev demo_all).
Proof.
  split; split.
  - reflexivity.
  - apply (ties_sorted "major" march1_noon). vm_compute. reflexivity.
  - symmetry. apply Permutation_rev.
  - apply (ties_sorted "major" march1_noon). vm_compute. reflexivity.
Qed.

(** Two operators read the alarm, the first acknowledges it, the second is
    refused. *)
Definition demo_reads : desk :=
  mkDesk demo_boot demo_boot [(root, "a2"); (root, "a1")] [].
Lemma demo_reads_reachable : dreachable false demo_boot demo_reads.
Proof.
  eapply dr_step; [eapply dr_step; [apply dr_init|]|].
  - apply (d_read false demo_boot demo_boot [] [] demo_all free_meter admin "a1" free_meter root (alarm_at "a1" "s1.cdu1" "firing"));
      [apply (proj1 demo_listed)|done|vm_compute; reflexivity].
  - apply (d_read false demo_boot demo_boot _ [] demo_all free_meter admin "a2" free_meter root (alarm_at "a2" "s1.cdu2" "firing"));
      [apply (proj1 demo_listed)|done|vm_compute; reflexivity].
Qed.

Definition demo_desk : desk :=
  desk_commit (desk_commit (desk_commit demo_reads root "a1" march1_noon true) root "a2" march1_noon false)
    root "a2" march1_noon true.

Lemma ack_ledger_witness :
  ak_id <$> dk_log demo_desk = ["a2"; "a1"] /\ dk_disk demo_desk !! "a1" = dk_mem demo_desk !! "a1".
Proof.
  assert (Hy : dreachable false demo_boot demo_desk).
  { apply desk_commit_step; [apply desk_commit_step; [apply desk_commit_step; [apply demo_reads_reachable|]|]|];
      vm_compute; [right; left|left|left]. }
  pose proof (ack_ledger false demo_boot demo_boot_keyed demo_desk Hy) as (_ & _ & _ & Hdisk & _).
  split; [vm_compute; reflexivity|].
  apply (Hdisk (mkAck root "a1" march1_noon true)); [vm_compute; right; left|reflexivity].
Defined.

(** A save that fails is answered as an error, but the alarm stays acknowledged
    in memory: the same request again is a conflict, while on disk, and hence
    after a restart, the alarm is firing. *)
Example failed_ack_sticks :
  let '(mem, r1) := ack_commit demo_boot root "a1" march1_noon false in
  r1 = Err store_error /\
  (ack_commit mem root "a1" march1_noon true).2 =
    Err (Problem 409 "conflict" "alarm already acknowledged or resolved").
Proof. vm_compute. split; reflexivity. Qed.

(** The next start seeds again: the alarm is firing, still with the name of the
    one who acknowledged it. *)
Example seed_unacknowledges :
  (fun a => (al_State a, al_AckedBy a)) <$>
    SeedAlarms (ack_commit demo_boot root "a1" march1_noon true).1 [alarm_at "a1" "s1.cdu1" "firing"] !! "a1" =
    Some ("firing", "u:root").
Proof. vm_compute. reflexivity. Qed.
