(* ===== verification/Forms.v ===== *)
(** * Inspection forms (core/inspection_form.go)

    The checklist of an inspection ticket as a form: rendering it, submitting it,
    and storing photos as evidence.  A handler reads the ticket and writes it back
    without a version, so a submission and an upload are two halves each, and what
    lies in between is lost.  The main theorem says what is kept nevertheless
    under every interleaving and every failure of disk and store. *)
From stdpp Require Import sorting.
From S2P Require Import Prelude GoTime GoPath CPath RBAC Http Tickets PromProj Cursor Schedule Gateway Calendar Windows.
Open Scope string_scope.
Open Scope list_scope.

(** ** The runbook of a ticket *)

Definition inspectionFormPrefix : string := "inspection:".
Definition inspectionFormResultPrefix : string := "result:".
Definition inspectionFormPhotoPrefix : string := "result:photo=".
Definition newline : string := String LF EmptyString.

Definition checklist_line (line : string) : bool :=
  negb (str_eqb line EmptyString) && negb (has_prefix line inspectionFormResultPrefix).

Definition decodeInspectionRunbook (runbook : string) : list string :=
  if negb (has_prefix runbook inspectionFormPrefix) then []
  else
    let body := trim_prefix runbook inspectionFormPrefix in
    if str_eqb body EmptyString then [] else List.filter checklist_line (split LF body).

(** [if runbook != "" && !strings.HasSuffix(runbook, "\n")] *)
Definition line_start (runbook : string) : string :=
  if negb (str_eqb runbook EmptyString) && negb (has_suffix runbook newline) then runbook +:+ newline else runbook.

Definition checked_csv (checked : list Z) : string := join "," (map itoa checked).

Definition appendInspectionResult (runbook note : string) (checked : list Z) (now : time) : string :=
  line_start runbook +:+
  inspectionFormResultPrefix +:+ "submitted=" +:+ FormatRFC3339 now +:+ newline +:+
  inspectionFormResultPrefix +:+ "checked=" +:+ checked_csv checked +:+ newline +:+
  (if str_eqb note EmptyString then EmptyString
   else inspectionFormResultPrefix +:+ "note=" +:+ replace_byte CR EmptyString note +:+ newline).

Definition appendInspectionPhoto (runbook relPath : string) : string :=
  line_start runbook +:+ inspectionFormPhotoPrefix +:+ relPath +:+ newline.

(** The loop over the form values, and the sort in place: one more value sinks
    from the end to its place. *)
Definition collect_checked (values : list string) : list Z :=
  foldl (fun out v =>
    match Atoi v with
    | Some n => if (n <? 0)%Z || existsb (Z.eqb n) out then out else out ++ [n]
    | None => out
    end) [] values.
Fixpoint sink (x : Z) (before : list Z) : list Z :=
  match before with
  | y :: before' => if (x <? y)%Z then y :: sink x before' else x :: before
  | [] => [x]
  end.
Definition parseCheckedIndices (values : list string) : list Z :=
  rev (foldl (fun before x => sink x before) [] (collect_checked values)).

(** ** Loading *)

Definition check (mt : meter) (auth : option Principal) (action : Action) (path : string) : meter * bool :=
  match auth with
  | None => (mt, true)
  | Some p => let '(mt', r) := authorize mt p action path in (mt', is_ok r)
  end.

Abbreviation tickets := (gmap string Ticket).

Definition loadInspectionFormTicket (m : tickets) (mt : meter) (auth : option Principal) (id : string)
    (action : Action) : meter * result problem Ticket :=
  match GetTicket m id with
  | None => (mt, Err not_found)
  | Some t =>
      if negb (has_prefix (t_Runbook t) inspectionFormPrefix)
      then (mt, Err (Problem 404 "path-not-found" "ticket is not an inspection"))
      else
        let '(mt', ok) := check mt auth action (t_AssetPath t) in
        (mt', if ok then Ok t else Err forbidden)
  end.

(** ** The page *)

Record inspectionFormItem : Type := mkFormItem { fi_Index : Z; fi_Text : string }.
Record inspectionFormPage : Type := mkFormPage {
  pg_TicketID : string; pg_Title : string; pg_AssetPath : string; pg_State : string; pg_Items : list inspectionFormItem
}.

Definition serveInspectionFormGet (m : tickets) (mt : meter) (auth : option Principal) (id : string) :
    meter * result problem inspectionFormPage :=
  let '(mt', r) := loadInspectionFormTicket m mt auth id ActionRead in
  (mt', t ← r;
        Ok (mkFormPage (t_ID t) (t_Title t) (t_AssetPath t) (t_State t)
              (imap (fun i txt => mkFormItem (Z.of_nat i) txt) (decodeInspectionRunbook (t_Runbook t))))).

(** ** Submission, in two halves *)

(** The fields of the form; [None] when reading it failed. *)
Record inspectionForm : Type := mkForm { if_notes : string; if_item : list string }.

Definition form_read (m : tickets) (mt : meter) (auth : option Principal) (id : string) (body : option inspectionForm) :
    meter * result problem (Ticket * inspectionForm) :=
  let '(mt', r) := loadInspectionFormTicket m mt auth id ActionControlWrite in
  (mt', t ← r;
        match body with
        | None => Err (bad_request "bad form")
        | Some f =>
            if (65536 <? Z.of_nat (str_len (if_notes f)))%Z then Err (bad_request "notes too large")
            else if negb (allowedTransition (t_State t) "resolved")
            then Err (Problem 422 "invalid-transition" "illegal transition")
            else Ok (t, f)
        end).

Definition with_runbook (t : Ticket) (runbook : string) : Ticket :=
  mkTicket (t_ID t) (t_AlarmID t) (t_AssetPath t) (t_Title t) (t_Severity t) (t_State t) (t_Assignee t)
    (t_OpenedAt t) (t_AckedAt t) (t_ResolvedAt t) (t_ClosedAt t) (t_EscalatedAt t) (t_ResourceVersion t) runbook.

Definition submitted (t : Ticket) (f : inspectionForm) (now : time) : Ticket :=
  let t := with_runbook t
    (appendInspectionResult (t_Runbook t) (if_notes f) (parseCheckedIndices (if_item f)) now) in
  mkTicket (t_ID t) (t_AlarmID t) (t_AssetPath t) (t_Title t) (t_Severity t) "resolved" (t_Assignee t)
    (t_OpenedAt t) (t_AckedAt t) (first_time (t_ResolvedAt t) now) (t_ClosedAt t) (t_EscalatedAt t)
    (t_ResourceVersion t) (t_Runbook t).

(** The answer is the address of the redirect. *)
Definition form_commit (m : tickets) (t : Ticket) (f : inspectionForm) (now : time) (saved : bool) :
    tickets * result problem string :=
  match PutTicket m (submitted t f now) 0 saved with
  | (m', Ok _) => (m', Ok ("/v1/inspections/form/" +:+ t_ID t))
  | (m', Err _) => (m', Err store_error)
  end.

Definition serveInspectionFormPost (m : tickets) (mt : meter) (auth : option Principal) (id : string)
    (body : option inspectionForm) (now : time) (saved : bool) : tickets * meter * result problem string :=
  match form_read m mt auth id body with
  | (mt', Err e) => (m, mt', Err e)
  | (mt', Ok (t, f)) => let '(m', r) := form_commit m t f now saved in (m', mt', r)
  end.

(** ** Photos *)

Definition allowedPhotoExts : list string := [".jpg"; ".jpeg"; ".png"; ".pdf"].
Definition photoUploadSniffLen : nat := 4096.

(** The signatures of [http.DetectContentType] for the types that are allowed;
    every other content has a type that is not. *)
Definition byte_string (bs : list nat) : string := foldr (fun n s => String (ascii_of_nat n) s) EmptyString bs.
Definition DetectContentType (data : string) : string :=
  if has_prefix data "%PDF-" then "application/pdf"
  else if has_prefix data (byte_string [137; 80; 78; 71; 13; 10; 26; 10]) then "image/png"
  else if has_prefix data (byte_string [255; 216; 255]) then "image/jpeg"
  else "application/octet-stream".

(** Files are named by their absolute path. *)
Abbreviation files := (gmap string string).

Section photos.
(** [unicode.ToLower] outside ASCII, the directory of the photos as it is
    configured, and the working directory. *)
Context (lower_rune : N -> N) (inspectionPhotoDir : string) (wd : option string).

Definition has_allowed_ext (name : string) : bool := existsb (has_suffix (ToLower lower_rune name)) allowedPhotoExts.

Definition safePhotoName (input : string) : option string :=
  if str_eqb input EmptyString then None
  else
    let base := path_Base input in
    if str_eqb base "." || str_eqb base ".." || str_eqb base "/" || str_eqb base EmptyString then None
    else
      let cleaned := path_Clean base in
      if negb (str_eqb cleaned base) then None
      else if contains ".." cleaned then None
      else if negb (no_byte "/" cleaned && no_byte BS cleaned && no_byte (ascii_of_nat 0) cleaned) then None
      else if has_allowed_ext cleaned then Some cleaned else None.

Definition mimeMatchesExtension (mime name : string) : bool :=
  let lower := ToLower lower_rune name in
  if str_eqb mime "image/jpeg" then has_suffix lower ".jpg" || has_suffix lower ".jpeg"
  else if str_eqb mime "image/png" then has_suffix lower ".png"
  else if str_eqb mime "application/pdf" then has_suffix lower ".pdf"
  else false.

(** What the multipart parser makes of the body: too large or malformed, without
    a file, or a file with its name. *)
Inductive upload : Type := BadBody | NoFile | File (filename content : string).

Definition below (p dir : string) : bool := has_prefix (path_Abs wd p) (path_Abs wd dir +:+ "/").

Definition photo_read (m : tickets) (mt : meter) (auth : option Principal) (id : string) (u : upload) :
    meter * result problem (Ticket * string * string) :=
  let '(mt', r) := loadInspectionFormTicket m mt auth id ActionControlWrite in
  (mt', t ← r;
        if str_eqb inspectionPhotoDir EmptyString then Err (Problem 503 "disabled" "photo upload disabled")
        else match u with
        | BadBody => Err (Problem 413 "too-large" "upload too large")
        | NoFile => Err (bad_request "missing file field")
        | File filename content =>
            match safePhotoName filename with
            | None => Err (Problem 415 "unsupported-media-type" "unsupported file type")
            | Some name =>
                if negb (mimeMatchesExtension (DetectContentType (substring 0 photoUploadSniffLen content)) name)
                then Err (Problem 415 "unsupported-media-type" "MIME does not match extension")
                else if negb (below (path_Join inspectionPhotoDir (t_ID t)) inspectionPhotoDir)
                then Err (bad_request "bad ticket id for photo dir")
                else Ok (t, name, content)
            end
        end).

(** What the system does to the second half: whether the directory can be made
    and the file created, the random prefix if there is one, whether writing and
    closing succeed, and whether the store can save. *)
Record disk_env : Type := mkDisk {
  de_mkdir : bool; de_rand : option string; de_open : bool; de_write : bool; de_saved : bool
}.

Record photoUploadResponse : Type := mkPhotoResponse { pr_Path : string; pr_Name : string; pr_Size : Z }.

(** Creation is exclusive. *)
Definition photo_commit (m : tickets) (fs : files) (t : Ticket) (name content : string) (env : disk_env) :
    tickets * files * result problem photoUploadResponse :=
  let failed title := (m, fs, Err (Problem 500 "bad-request" title)) in
  let ticketSubdir := path_Join inspectionPhotoDir (t_ID t) in
  if negb (de_mkdir env) then failed "mkdir failed"
  else match de_rand env with
  | None => failed "rand failed"
  | Some randPrefix =>
      let storedName := randPrefix +:+ "-" +:+ name in
      let fullPath := path_Join ticketSubdir storedName in
      if negb (below fullPath ticketSubdir) then (m, fs, Err (bad_request "bad photo filename"))
      else
        let absFull := path_Abs wd fullPath in
        if negb (de_open env) || bool_decide (is_Some (fs !! absFull)) then failed "create file failed"
        else if negb (de_write env) then (m, delete absFull fs, Err (Problem 500 "bad-request" "write failed"))
        else
          let fs' := <[absFull := content]> fs in
          let relPath := path_Join (t_ID t) storedName in
          match PutTicket m (with_runbook t (appendInspectionPhoto (t_Runbook t) relPath)) 0 (de_saved env) with
          | (m', Ok _) => (m', fs', Ok (mkPhotoResponse relPath storedName (Z.of_nat (str_len content))))
          | (m', Err _) => (m', fs', Err store_error)
          end
  end.

Definition servePhotoUpload (m : tickets) (fs : files) (mt : meter) (auth : option Principal) (id : string)
    (u : upload) (env : disk_env) : tickets * files * meter * result problem photoUploadResponse :=
  match photo_read m mt auth id u with
  | (mt', Err e) => (m, fs, mt', Err e)
  | (mt', Ok (t, name, content)) =>
      let '(m', fs', r) := photo_commit m fs t name content env in (m', fs', mt', r)
  end.
End photos.

(** ** What a runbook says

    The blocks that submissions and uploads append behind the checklist. *)

Inductive block : Type := Submitted (note : string) (checked : list Z) (at_ : time) | Photo (rel : string).
Definition append_block (runbook : string) (b : block) : string :=
  match b with
  | Submitted note checked now => appendInspectionResult runbook note checked now
  | Photo rel => appendInspectionPhoto runbook rel
  end.
Definition runbook_of (origin : string) (blocks : list block) : string := foldl append_block origin blocks.

(** A block that adds its own lines only. *)
Definition one_line (b : block) : Prop :=
  match b with Submitted note _ _ => no_byte LF note = true | Photo rel => no_byte LF rel = true end.

Lemma has_suffix_newline r c : has_suffix (r +:+ String c EmptyString) newline = byte_eqb c LF.
Proof.
  unfold has_suffix. rewrite str_len_app. change (str_len newline) with 1. change (str_len (String c EmptyString)) with 1.
  rewrite (proj2 (Nat.leb_le _ _)) by lia. replace (str_len r + 1 - 1) with (str_len r) by lia.
  rewrite substring_app. cbn. unfold str_eqb, byte_eqb. cbn. by destruct (Ascii.eqb c LF).
Qed.

Lemma last_byte s : s = EmptyString \/ exists r c, s = r +:+ String c EmptyString.
Proof.
  induction s as [|d s [->|(r & c & ->)]]; [by left|right..]; [by exists EmptyString, d|by exists (String d r), c].
Qed.

Definition checklist_lines (s : string) : list string := List.filter checklist_line (split LF s).

Lemma lines_app a b : checklist_lines (a +:+ String LF b) = checklist_lines a ++ checklist_lines b.
Proof. unfold checklist_lines. rewrite split_app_two. apply List.filter_app. Qed.

Lemma lines_one a : no_byte LF a = true -> checklist_line a = false -> checklist_lines a = [].
Proof. intros H1 H2. unfold checklist_lines. rewrite split_no_sep by done. cbn. by rewrite H2. Qed.

Lemma decode_body body : decodeInspectionRunbook (inspectionFormPrefix +:+ body) = checklist_lines body.
Proof.
  unfold decodeInspectionRunbook. rewrite has_prefix_app, trim_prefix_app. cbn [negb].
  destruct (str_eqb body EmptyString) eqn:E; [|done]. by apply str_eqb_eq in E as ->.
Qed.

(** The text that is appended starts on a line of its own. *)
Lemma decode_started body text :
  exists body', line_start (inspectionFormPrefix +:+ body) = inspectionFormPrefix +:+ body' /\
    checklist_lines (body' +:+ text) = checklist_lines body ++ checklist_lines text.
Proof.
  unfold line_start. change (str_eqb (inspectionFormPrefix +:+ body) EmptyString) with false. cbn [negb andb].
  destruct (last_byte body) as [->|(r & c & ->)].
  - exists newline. split; [done|]. apply (lines_app EmptyString text).
  - rewrite str_app_assoc, has_suffix_newline. destruct (byte_eqb c LF) eqn:E; cbn [negb].
    + apply byte_eqb_eq in E as ->. exists (r +:+ newline). split; [by rewrite str_app_assoc|].
      rewrite <- str_app_assoc. unfold newline. cbn [String.append]. rewrite !lines_app. cbn. by rewrite app_nil_r.
    + exists ((r +:+ String c EmptyString) +:+ newline). split; [by rewrite !str_app_assoc|].
      rewrite <- str_app_assoc. unfold newline. cbn [String.append]. by rewrite lines_app.
Qed.

(** Numbers and times stay on their line. *)
Definition number_byte (b : ascii) : bool := is_digit b || byte_eqb b "-".

Lemma digits_number s : all_bytes is_digit s = true -> all_bytes number_byte s = true.
Proof. apply all_bytes_impl. unfold number_byte. by intros c ->. Qed.

Lemma itoa_number z : all_bytes number_byte (itoa z) = true.
Proof.
  unfold itoa. destruct z as [|p|p]; [done| |].
  - change (pretty (Z.pos p)) with (pretty (N.pos p)). by apply digits_number, pretty_N_digits.
  - change (pretty (Z.neg p)) with (String "-" (pretty (N.pos p))). cbn. by apply digits_number, pretty_N_digits.
Qed.

Lemma pad_number w n : all_bytes number_byte (pad w n) = true.
Proof.
  unfold pad. destruct (_ && _) eqn:E.
  - apply digits_number, digits_digits. apply andb_true_iff in E as [H1 H2]. lia.
  - destruct (Z.ltb_spec n 0); [|apply itoa_number]. rewrite all_bytes_app. cbn [all_bytes andb].
    destruct (Z.ltb_spec (- n) (10 ^ Z.of_nat w)); [|apply itoa_number]. apply digits_number, digits_digits. lia.
Qed.

Lemma number_line s : all_bytes number_byte s = true -> no_byte LF s = true.
Proof. apply all_bytes_impl. intros c. by byte_cases c. Qed.


Lemma time_line t : no_byte LF (FormatRFC3339 t) = true.
Proof.
  unfold FormatRFC3339, format_with.
  rewrite !no_byte_app, !(number_line (pad _ _)) by apply pad_number. done.
Qed.

Lemma csv_line checked : no_byte LF (checked_csv checked) = true.
Proof.
  unfold checked_csv. induction checked as [|x checked IH]; [done|]. cbn [map].
  destruct checked as [|y checked]; cbn [map join] in *; [by apply number_line, itoa_number|].
  rewrite no_byte_app, (number_line (itoa x)) by apply itoa_number. exact IH.
Qed.

Lemma replace_line note : no_byte LF note = true -> no_byte LF (replace_byte CR EmptyString note) = true.
Proof.
  induction note as [|c r IH]; [done|]. unfold no_byte in *. cbn [all_bytes replace_byte]. intros H. bool_simpl.
  destruct (byte_eqb c CR); cbn; [by apply IH|]. by rewrite H, IH.
Qed.

(** A line of a result is none of the checklist. *)
Lemma result_line s : no_byte LF s = true -> checklist_lines (inspectionFormResultPrefix +:+ s) = [].
Proof.
  intros H. apply lines_one; [by rewrite no_byte_app|]. unfold checklist_line. rewrite has_prefix_app.
  by rewrite andb_false_r.
Qed.

Lemma result_then s rest : no_byte LF s = true ->
  checklist_lines (inspectionFormResultPrefix +:+ s +:+ newline +:+ rest) = checklist_lines rest.
Proof.
  intros H. rewrite !str_app_assoc, <- (str_app_assoc _ newline). unfold newline. cbn [String.append].
  change ("result:" +:+ ?x) with (inspectionFormResultPrefix +:+ x). by rewrite lines_app, result_line.
Qed.

(** The checklist is the one the ticket was opened with, whatever was appended on
    lines of its own. *)
Lemma append_block_decode b body : one_line b ->
  exists body', append_block (inspectionFormPrefix +:+ body) b = inspectionFormPrefix +:+ body' /\
    checklist_lines body' = checklist_lines body.
Proof.
  intros H. destruct b as [note checked now|rel]; cbn [append_block one_line] in *.
  - unfold appendInspectionResult.
    match goal with |- context [line_start _ +:+ ?t] =>
      destruct (decode_started body t) as (body' & -> & E); exists (body' +:+ t) end.
    split; [by rewrite !str_app_assoc|]. rewrite E.
    rewrite (str_app_assoc "submitted="), result_then by (rewrite no_byte_app; by rewrite time_line).
    rewrite (str_app_assoc "checked="), result_then by (rewrite no_byte_app; by rewrite csv_line).
    destruct (str_eqb note EmptyString); [cbn; by rewrite app_nil_r|].
    rewrite <- (str_app_nil_r newline), (str_app_assoc "note="), result_then
      by (rewrite no_byte_app; by rewrite replace_line). cbn. by rewrite app_nil_r.
  - unfold appendInspectionPhoto.
    destruct (decode_started body (inspectionFormPhotoPrefix +:+ rel +:+ newline)) as (body' & -> & E).
    exists (body' +:+ inspectionFormPhotoPrefix +:+ rel +:+ newline). split; [by rewrite !str_app_assoc|]. rewrite E.
    change inspectionFormPhotoPrefix with (inspectionFormResultPrefix +:+ "photo=").
    rewrite <- (str_app_nil_r newline), <- !str_app_assoc, (str_app_assoc "photo="), result_then
      by (by rewrite no_byte_app). cbn. by rewrite app_nil_r.
Qed.

Lemma runbook_decode blocks : Forall one_line blocks -> forall body,
  decodeInspectionRunbook (runbook_of (inspectionFormPrefix +:+ body) blocks) =
  decodeInspectionRunbook (inspectionFormPrefix +:+ body).
Proof.
  induction 1 as [|b blocks Hb _ IH]; intros body; [done|]. cbn [runbook_of foldl].
  destruct (append_block_decode b body Hb) as (body' & -> & E). fold (runbook_of (inspectionFormPrefix +:+ body') blocks).
  by rewrite IH, !decode_body.
Qed.

(** ** The values of a form *)

Lemma collect_step values v : collect_checked (values ++ [v]) =
  match Atoi v with
  | Some n => if (n <? 0)%Z || existsb (Z.eqb n) (collect_checked values) then collect_checked values
              else collect_checked values ++ [n]
  | None => collect_checked values
  end.
Proof. unfold collect_checked. by rewrite foldl_app. Qed.

Lemma existsb_eqb n l : existsb (Z.eqb n) l = true <-> n ∈ l.
Proof.
  rewrite existsb_exists. split; [intros (x & Hx & ->%Z.eqb_eq)|]; [by apply list_elem_of_In|].
  intros Hn. exists n. split; [by apply list_elem_of_In|apply Z.eqb_refl].
Qed.

Lemma collect_checked_spec values : NoDup (collect_checked values) /\
  forall n, n ∈ collect_checked values <-> (0 <= n)%Z /\ exists v, v ∈ values /\ Atoi v = Some n.
Proof.
  induction values as [|v values [IHn IH]] using rev_ind.
  - split; [constructor|]. intros n. split; [by intros []%elem_of_nil|]. intros (_ & v & []%elem_of_nil & _).
  - rewrite collect_step. assert (Hold : forall n, (exists w, w ∈ values ++ [v] /\ Atoi w = Some n) <->
      (exists w, w ∈ values /\ Atoi w = Some n) \/ Atoi v = Some n).
    { intros n. split.
      - intros (w & [Hw| ->%list_elem_of_singleton]%elem_of_app & Hn); [left; by exists w|by right].
      - intros [(w & Hw & Hn)|Hn]; [exists w|exists v]; (split; [|done]); apply elem_of_app; [by left|right; by left]. }
    destruct (Atoi v) as [n|] eqn:Ea.
    + assert (Hk : forall k, Some n = Some k <-> k = n) by (intros k; split; congruence).
      destruct (Z.ltb_spec n 0) as [Hneg|Hpos]; cbn [orb].
      * split; [done|]. intros k. rewrite IH, Hold, Hk. split; [tauto|]. intros [H [H'| ->]]; [done|lia].
      * destruct (existsb (Z.eqb n) (collect_checked values)) eqn:Ed.
        -- apply existsb_eqb in Ed. split; [done|]. intros k. rewrite IH, Hold, Hk. split; [tauto|].
           intros [H [H'| ->]]; [done|]. by apply IH in Ed.
        -- assert (Hn : n ∉ collect_checked values) by (rewrite <- existsb_eqb; congruence). split.
           ++ apply NoDup_app. split; [done|]. split; [|apply NoDup_singleton].
              by intros x Hx ->%list_elem_of_singleton.
           ++ intros k. rewrite elem_of_app, list_elem_of_singleton, IH, Hold, Hk. split; [|tauto].
              intros [[H H']| ->]; [tauto|]. split; [done|by right].
    + split; [done|]. intros k. rewrite IH, Hold. split; [tauto|]. intros [H [H'|H']]; [done|discriminate].
Qed.

Lemma sink_in x l k : k ∈ sink x l <-> k = x \/ k ∈ l.
Proof.
  induction l as [|y l IH]; cbn; [by rewrite elem_of_cons|]. destruct (x <? y)%Z; rewrite !elem_of_cons; [rewrite IH|]; tauto.
Qed.

Lemma sink_sorted x l : StronglySorted Z.gt l -> x ∉ l -> StronglySorted Z.gt (sink x l).
Proof.
  induction 1 as [|y l Hs IH Hy]; intros Hx; cbn; [by repeat constructor|]. rewrite not_elem_of_cons in Hx.
  destruct (Z.ltb_spec x y).
  - constructor; [apply IH, Hx|]. apply Forall_forall. intros k [->|Hk]%sink_in; [lia|].
    rewrite Forall_forall in Hy. by apply Hy.
  - constructor; [by constructor|]. constructor; [lia|]. eapply Forall_impl; [exact Hy|]. cbn. lia.
Qed.

Lemma rev_sorted l : StronglySorted Z.gt l -> StronglySorted Z.lt (rev l).
Proof.
  induction 1 as [|y l _ IH Hy]; cbn; [constructor|]. apply StronglySorted_app_2; [|done|by repeat constructor].
  intros a b Ha ->%list_elem_of_singleton. apply list_elem_of_In, in_rev, list_elem_of_In in Ha.
  rewrite Forall_forall in Hy. specialize (Hy a Ha). lia.
Qed.

(** The boxes that were checked: each once, in order, no matter how they were sent. *)
Lemma parseCheckedIndices_spec values : StronglySorted Z.lt (parseCheckedIndices values) /\
  forall n, n ∈ parseCheckedIndices values <-> (0 <= n)%Z /\ exists v, v ∈ values /\ Atoi v = Some n.
Proof.
  destruct (collect_checked_spec values) as [Hn Hin]. unfold parseCheckedIndices.
  assert (H : forall l before, NoDup l -> StronglySorted Z.gt before -> (forall x, x ∈ l -> x ∉ before) ->
    StronglySorted Z.gt (foldl (fun before x => sink x before) before l) /\
    forall n, n ∈ foldl (fun before x => sink x before) before l <-> n ∈ l \/ n ∈ before).
  { clear. induction l as [|x l IH]; intros before Hn Hs Hd; cbn.
    - split; [done|]. intros n. rewrite elem_of_nil. tauto.
    - apply NoDup_cons in Hn as [Hx Hn]. destruct (IH (sink x before)) as [H1 H2]; [done| | |].
      + apply sink_sorted; [done|]. apply Hd. by left.
      + intros y Hy [->|Hb]%sink_in; [done|]. by apply (Hd y); [right|].
      + split; [done|]. intros n. rewrite H2, sink_in, elem_of_cons. tauto. }
  destruct (H (collect_checked values) [] Hn ltac:(constructor)) as [H1 H2]; [by intros x _ []%elem_of_nil|].
  split; [by apply rev_sorted|]. intros n. rewrite <- Hin, list_elem_of_In, <- in_rev, <- list_elem_of_In, H2, elem_of_nil.
  tauto.
Qed.

(** ** Names of photos *)

Definition hex_byte (c : ascii) : bool := is_digit c || in_range "a" "f" c.
(** [randomHex(4)] *)
Definition random_prefix (s : string) : Prop := str_len s = 8 /\ all_bytes hex_byte s = true.

Lemma base32_name id : ticketIDPattern id = true -> path_name id.
Proof.
  unfold ticketIDPattern. intros H. bool_simpl. apply has_prefix_split in H as [r ->].
  rewrite trim_prefix_app in *. change ("tk_" +:+ r) with (String "t" (String "k" (String "_" r))) in *.
  split; [done|]. split; [done|]. split; [done|]. cbn. eapply all_bytes_impl; [|done]. intros c. cbn. by byte_cases c.
Qed.

Section names.
Context (lower_rune : N -> N).

Record safe_name (s : string) : Prop := mkSafeName {
  sn_slash : no_byte "/" s = true;
  sn_backslash : no_byte BS s = true;
  sn_nul : no_byte (ascii_of_nat 0) s = true;
  sn_up : contains ".." s = false;
  sn_ext : has_allowed_ext lower_rune s = true
}.

Lemma safePhotoName_safe input name : safePhotoName lower_rune input = Some name -> safe_name name.
Proof.
  unfold safePhotoName. destruct (str_eqb input EmptyString); [done|]. destruct (_ || _ || _ || _); [done|].
  destruct (negb _); [done|]. set (s := path_Clean _). destruct (contains ".." s) eqn:H1; [done|].
  destruct (no_byte "/" s) eqn:H2; [|done]. destruct (no_byte BS s) eqn:H3; [|done].
  destruct (no_byte (ascii_of_nat 0) s) eqn:H4; [|done]. cbn [andb negb].
  destruct (has_allowed_ext lower_rune s) eqn:H5; [|done]. by intros [= <-].
Qed.

(** The name a photo is stored under. *)
Definition photo_name (s : string) : Prop :=
  exists rand name, s = rand +:+ "-" +:+ name /\ random_prefix rand /\ safe_name name.

Lemma photo_name_path s : photo_name s -> path_name s.
Proof.
  intros (rand & name & -> & [Hl Hh] & Hn).
  assert (Hlen : 9 <= str_len (rand +:+ "-" +:+ name)) by (rewrite str_len_app, Hl; cbn; lia).
  split; [|split; [|split]]; try (intros E; rewrite E in Hlen; cbn in Hlen; lia).
  rewrite no_byte_app. apply andb_true_iff. split.
  - eapply all_bytes_impl; [|exact Hh]. intros c. unfold hex_byte. by byte_cases c.
  - cbn. apply Hn.
Qed.
End names.

Lemma Join_names a b : path_name a -> path_name b -> path_Join a b = a +:+ "/" +:+ b.
Proof.
  intros Ha Hb. unfold path_Join. pose proof (proj1 Ha) as Hne. apply str_eqb_neq in Hne as Hne'. rewrite Hne'.
  unfold path_Clean. assert (str_eqb (a +:+ "/" +:+ b) EmptyString = false) as -> by (by destruct a).
  assert (Hrel : path_IsAbs (a +:+ "/" +:+ b) = false).
  { destruct Ha as (_ & _ & _ & Ha). unfold path_IsAbs. destruct a as [|c r]; [done|]. cbn in *. bool_simpl.
    by rewrite (byte_eqb_sym "/" c), H. }
  rewrite Hrel, elements_snoc by done. unfold path_elements. rewrite split_no_sep by apply Ha. cbn [foldl].
  rewrite push_name by done. cbn [rev app join].
  assert (str_eqb (a +:+ String "/" b) EmptyString = false) as -> by (by destruct a). done.
Qed.

(** ** Histories

    Requests in two halves each, any other writes of tickets that leave the
    runbook of an existing row alone, failures of disk and store anywhere. *)

Record forms : Type := mkForms {
  fm_tickets : tickets; fm_files : files; fm_forms : list (Ticket * inspectionForm);
  fm_photos : list (Ticket * string * string)
}.

Section ledger.
Context (lower_rune : N -> N) (dir w : string) (Hw : path_IsAbs w = true) (Hroot : path_Abs (Some w) dir <> "/").
Context (origin : string -> string) (files0 : files) (tickets0 : tickets).

Inductive fstep : forms -> forms -> Prop :=
  | f_form_read m fs fo ph mt auth id body mt' x : ticketIDPattern id = true ->
      form_read m mt auth id body = (mt', Ok x) ->
      fstep (mkForms m fs fo ph) (mkForms m fs (x :: fo) ph)
  | f_form_commit m fs fo ph t f now saved m' r : (t, f) ∈ fo -> form_commit m t f now saved = (m', r) ->
      fstep (mkForms m fs fo ph) (mkForms m' fs fo ph)
  | f_photo_read m fs fo ph mt auth id u mt' x : ticketIDPattern id = true ->
      photo_read lower_rune dir (Some w) m mt auth id u = (mt', Ok x) ->
      fstep (mkForms m fs fo ph) (mkForms m fs fo (x :: ph))
  | f_photo_commit m fs fo ph t name content env m' fs' r : (t, name, content) ∈ ph ->
      (forall rand, de_rand env = Some rand -> random_prefix rand) ->
      photo_commit dir (Some w) m fs t name content env = (m', fs', r) ->
      fstep (mkForms m fs fo ph) (mkForms m' fs' fo ph)
  | f_other m fs fo ph t v saved m' r : PutTicket m t v saved = (m', r) ->
      t_Runbook t = match m !! t_ID t with Some cur => t_Runbook cur | None => origin (t_ID t) end ->
      fstep (mkForms m fs fo ph) (mkForms m' fs fo ph).

Inductive freachable : forms -> Prop :=
  | fr_init : (forall id t, tickets0 !! id = Some t -> t_ID t = id /\ t_Runbook t = origin id) ->
      freachable (mkForms tickets0 files0 [] [])
  | fr_step y y' : freachable y -> fstep y y' -> freachable y'.

(** Where the photo of a ticket is, and what a marker of one stands for. *)
Definition photo_path (id name : string) : string := path_Abs (Some w) dir +:+ "/" +:+ id +:+ "/" +:+ name.
Definition stored (fs : files) (id rel : string) : Prop :=
  exists name, rel = id +:+ "/" +:+ name /\ photo_name lower_rune name /\ is_Some (fs !! photo_path id name).

Record row_ok (fs : files) (t : Ticket) : Prop := mkRowOk {
  ro_blocks : exists blocks, t_Runbook t = runbook_of (origin (t_ID t)) blocks /\
    (blocks <> [] -> has_prefix (origin (t_ID t)) inspectionFormPrefix = true) /\
    forall rel, Photo rel ∈ blocks -> stored fs (t_ID t) rel
}.

Definition genuine (name content : string) : Prop :=
  safe_name lower_rune name /\
  mimeMatchesExtension lower_rune (DetectContentType (substring 0 photoUploadSniffLen content)) name = true.

Record forms_ok (y : forms) : Prop := mkFormsOk {
  fo_rows : forall id t, fm_tickets y !! id = Some t -> t_ID t = id /\ row_ok (fm_files y) t;
  fo_forms : forall t f, (t, f) ∈ fm_forms y ->
    row_ok (fm_files y) t /\ has_prefix (t_Runbook t) inspectionFormPrefix = true;
  fo_photos : forall t name content, (t, name, content) ∈ fm_photos y ->
    row_ok (fm_files y) t /\ has_prefix (t_Runbook t) inspectionFormPrefix = true /\
    ticketIDPattern (t_ID t) = true /\ dir <> EmptyString /\ genuine name content;
  fo_kept : files0 ⊆ fm_files y;
  fo_new : forall p c, fm_files y !! p = Some c -> files0 !! p = Some c \/
    exists id rand name, p = photo_path id (rand +:+ "-" +:+ name) /\ ticketIDPattern id = true /\
      random_prefix rand /\ genuine name c
}.

Lemma row_ok_mono fs fs' t : fs ⊆ fs' -> row_ok fs t -> row_ok fs' t.
Proof using Type.
  intros Hsub [(blocks & E & Hp & Hs)]. split. exists blocks. split; [done|]. split; [done|].
  intros rel (name & -> & Hn & [c Hc])%Hs. exists name. split; [done|]. split; [done|]. exists c.
  by eapply lookup_weaken.
Qed.

Lemma row_ok_append fs t t' b : row_ok fs t -> has_prefix (t_Runbook t) inspectionFormPrefix = true ->
  t_ID t' = t_ID t -> t_Runbook t' = append_block (t_Runbook t) b ->
  (forall rel, b = Photo rel -> stored fs (t_ID t) rel) -> row_ok fs t'.
Proof using Type.
  intros [(blocks & E & Hp & Hs)] Hpre Hid Hrb Hb. split. rewrite Hid, Hrb, E.
  exists (blocks ++ [b]). split; [unfold runbook_of; by rewrite foldl_app|]. split.
  - intros _. destruct (decide (blocks = [])) as [->|Hne]; [|by apply Hp]. by rewrite E in Hpre.
  - intros rel [Hin|Hin%list_elem_of_singleton]%elem_of_app; [by apply Hs|by apply Hb].
Qed.

Lemma put_rows fs m t v saved m' r : PutTicket m t v saved = (m', r) ->
  (forall id t, m !! id = Some t -> t_ID t = id /\ row_ok fs t) -> row_ok fs t ->
  forall id t, m' !! id = Some t -> t_ID t = id /\ row_ok fs t.
Proof using Type.
  intros Hp Hm Ht id t'. apply PutTicket_inv in Hp as [[-> _]|(ver & _ & -> & _)]; [apply Hm|].
  intros [[<- <-]|[_ H]]%lookup_insert_Some; [|by apply Hm]. split; [done|]. destruct Ht as [Ht]. by split.
Qed.

Lemma load_ok m mt auth id action mt' t : loadInspectionFormTicket m mt auth id action = (mt', Ok t) ->
  m !! id = Some t /\ has_prefix (t_Runbook t) inspectionFormPrefix = true.
Proof using Type.
  unfold loadInspectionFormTicket, GetTicket. destruct (m !! id) as [t'|]; [|done].
  destruct (has_prefix (t_Runbook t') inspectionFormPrefix) eqn:E; [|done]. cbn [negb].
  destruct (check mt auth action (t_AssetPath t')) as [mt1 ok]. destruct ok; [|done]. by intros [= _ <-].
Qed.

Lemma form_read_ok m mt auth id body mt' t f : form_read m mt auth id body = (mt', Ok (t, f)) ->
  m !! id = Some t /\ has_prefix (t_Runbook t) inspectionFormPrefix = true.
Proof using Type.
  unfold form_read. destruct (loadInspectionFormTicket _ _ _ _ _) as [mt1 r] eqn:El.
  intros [= _ H]. apply bind_Ok in H as (t' & -> & H). destruct body as [g|]; [|done].
  destruct (_ <? _)%Z; [done|]. destruct (negb _); [done|]. apply Ok_inj in H as [= -> _]. by eapply load_ok.
Qed.

Lemma photo_read_ok m mt auth id u mt' t name content :
  photo_read lower_rune dir (Some w) m mt auth id u = (mt', Ok (t, name, content)) ->
  m !! id = Some t /\ has_prefix (t_Runbook t) inspectionFormPrefix = true /\ dir <> EmptyString /\ genuine name content.
Proof using Type.
  unfold photo_read. destruct (loadInspectionFormTicket _ _ _ _ _) as [mt1 r] eqn:El.
  intros [= _ H]. apply bind_Ok in H as (t' & -> & H). apply load_ok in El as [Hm Hp].
  destruct (str_eqb dir EmptyString) eqn:Ed; [done|]. apply str_eqb_neq in Ed. destruct u as [| |fn ct]; [done..|].
  destruct (safePhotoName lower_rune fn) as [n|] eqn:En; [|done]. apply safePhotoName_safe in En.
  destruct (mimeMatchesExtension _ _ _) eqn:Em; [|done]. cbn [negb] in H. destruct (negb _); [done|].
  by apply Ok_inj in H as [= -> -> ->].
Qed.

(** Where the file of an upload is. *)
Lemma photo_full id name : path_name id -> path_name name -> dir <> EmptyString ->
  path_Abs (Some w) (path_Join (path_Join dir id) name) = photo_path id name.
Proof using Hw Hroot.
  intros Hid Hn Hdir. destruct (Join_below w dir id Hw Hdir Hid Hroot) as (E1 & _ & Hr1).
  destruct (Join_below w (path_Join dir id) name Hw (Join_nonempty dir id Hdir) Hn Hr1) as (E2 & _ & _).
  by rewrite E2, E1, <- !str_app_assoc.
Qed.

(** What the second half of an upload does: nothing, or the one new file, with
    its marker on the row or without. *)
Lemma photo_commit_inv m fs t name content env m' fs' r :
  photo_commit dir (Some w) m fs t name content env = (m', fs', r) ->
  ticketIDPattern (t_ID t) = true -> dir <> EmptyString -> safe_name lower_rune name ->
  (forall rand, de_rand env = Some rand -> random_prefix rand) ->
  (m' = m /\ fs' = fs) \/
  exists rand, random_prefix rand /\ fs !! photo_path (t_ID t) (rand +:+ "-" +:+ name) = None /\
    fs' = <[photo_path (t_ID t) (rand +:+ "-" +:+ name) := content]> fs /\
    exists r', PutTicket m (with_runbook t (append_block (t_Runbook t)
      (Photo (t_ID t +:+ "/" +:+ rand +:+ "-" +:+ name)))) 0 (de_saved env) = (m', r').
Proof using Hw Hroot.
  unfold photo_commit. intros H Hid Hdir Hn Hrand. apply base32_name in Hid as Hidn.
  destruct (de_mkdir env); cbn [negb] in H; [|injection H as <- <- _; by left].
  destruct (de_rand env) as [rand|]; [|injection H as <- <- _; by left]. specialize (Hrand rand eq_refl).
  destruct (negb (below _ _ _)); [injection H as <- <- _; by left|].
  assert (Hst : path_name (rand +:+ "-" +:+ name)).
  { apply (photo_name_path lower_rune). by exists rand, name. }
  rewrite (photo_full _ _ Hidn Hst Hdir), (Join_names _ _ Hidn Hst) in H.
  destruct (negb (de_open env)); cbn [orb] in H; [injection H as <- <- _; by left|].
  case_bool_decide as Hx; [injection H as <- <- _; by left|].
  apply eq_None_not_Some in Hx. destruct (de_write env); cbn [negb] in H.
  - right. exists rand. split; [done|]. split; [done|].
    destruct (PutTicket _ _ _ _) as [m1 r1] eqn:Ep. destruct r1; injection H as <- <- _; (split; [done|]); by eexists.
  - injection H as <- <- _. left. split; [done|]. by apply delete_id.
Qed.

Lemma photo_commit_success m fs t name content env m' fs' resp :
  photo_commit dir (Some w) m fs t name content env = (m', fs', Ok resp) ->
  ticketIDPattern (t_ID t) = true -> dir <> EmptyString -> safe_name lower_rune name ->
  (forall rand, de_rand env = Some rand -> random_prefix rand) ->
  fs !! photo_path (t_ID t) (pr_Name resp) = None /\
  fs' !! photo_path (t_ID t) (pr_Name resp) = Some content /\
  t_Runbook <$> m' !! t_ID t = Some (append_block (t_Runbook t) (Photo (pr_Path resp))).
Proof using Hw Hroot.
  unfold photo_commit. intros H Hid Hdir Hn Hrand. apply base32_name in Hid as Hidn.
  destruct (de_mkdir env); [cbn [negb] in H|done]. destruct (de_rand env) as [rand|]; [|done].
  specialize (Hrand rand eq_refl). destruct (negb (below _ _ _)); [done|].
  assert (Hst : path_name (rand +:+ "-" +:+ name)) by (apply (photo_name_path lower_rune); by exists rand, name).
  rewrite (photo_full _ _ Hidn Hst Hdir), (Join_names _ _ Hidn Hst) in H.
  destruct (negb (de_open env)); [done|]. cbn [orb] in H. case_bool_decide as Hx; [done|].
  destruct (negb (de_write env)); [done|]. destruct (PutTicket _ _ _ _) as [m1 r1] eqn:Ep.
  destruct r1 as [t1|e]; [|done]. injection H as <- <- <-. cbn [pr_Name pr_Path].
  split; [by apply eq_None_not_Some|]. split; [by rewrite lookup_insert_eq|].
  apply PutTicket_inv in Ep as [[_ [e E]]|(n & _ & -> & _)]; [done|]. by rewrite lookup_insert_eq.
Qed.

Lemma forms_ok_step y y' : forms_ok y -> fstep y y' -> forms_ok y'.
Proof using Hw Hroot.
  intros [Hrows Hfo Hph Hkept Hnew] Hs.
  destruct Hs as [m fs fo ph mt auth id body mt' [t f] Hid Hr|m fs fo ph t f now saved m' r Hin Hc|
    m fs fo ph mt auth id u mt' [[t name] content] Hid Hr|m fs fo ph t name content env m' fs' r Hin Hrand Hc|
    m fs fo ph t v saved m' r Hp Hrb]; cbn [fm_tickets fm_files fm_forms fm_photos] in *.
  - apply form_read_ok in Hr as [Hm Hpre]. split; cbn; try done.
    intros t' f' [[= -> ->]|Hin]%elem_of_cons; [|by eapply Hfo]. split; [by eapply Hrows|done].
  - split; cbn; try done. destruct (Hfo t f Hin) as [Hrow Hpre]. unfold form_commit in Hc.
    destruct (PutTicket _ _ _ _) as [m1 r1] eqn:Ep. assert (m1 = m') as -> by (by destruct r1; injection Hc).
    apply (put_rows fs _ _ _ _ _ _ Ep Hrows).
    by apply (row_ok_append fs t _ (Submitted (if_notes f) (parseCheckedIndices (if_item f)) now)).
  - apply photo_read_ok in Hr as (Hm & Hpre & Hd & Hg). split; cbn; try done.
    intros t' n' c' [[= -> -> ->]|Hin]%elem_of_cons; [|by eapply Hph].
    destruct (Hrows id t Hm) as [-> Hrow]. by split.
  - destruct (Hph t name content Hin) as (Hrow & Hpre & Hid & Hd & [Hn Hg]).
    destruct (photo_commit_inv _ _ _ _ _ _ _ _ _ Hc Hid Hd Hn Hrand)
      as [[-> ->]|(rand & Hra & Hx & -> & r' & Ep)]; [by split|].
    assert (Hsub : fs ⊆ <[photo_path (t_ID t) (rand +:+ "-" +:+ name) := content]> fs) by (by apply insert_subseteq).
    split; cbn.
    + apply (put_rows _ _ _ _ _ _ _ Ep).
      * intros id' t' Ht'. destruct (Hrows id' t' Ht') as [E Hr']. split; [done|]. by eapply row_ok_mono.
      * eapply (row_ok_append _ t _ (Photo (t_ID t +:+ "/" +:+ rand +:+ "-" +:+ name))); [|done|done|done|].
        { by eapply row_ok_mono. }
        intros rel [= <-]. exists (rand +:+ "-" +:+ name). split; [done|]. split; [by exists rand, name|].
        rewrite lookup_insert_eq. by eexists.
    + intros t' f' Hin'. destruct (Hfo t' f' Hin') as [H1 H2]. split; [by eapply row_ok_mono|done].
    + intros t' n' c' Hin'. destruct (Hph t' n' c' Hin') as [H1 H2]. split; [by eapply row_ok_mono|done].
    + by etrans.
    + intros p c [[<- <-]|[_ Hp]]%lookup_insert_Some; [right|by apply Hnew].
      exists (t_ID t), rand, name. by split.
  - split; cbn; try done. apply (put_rows fs _ _ _ _ _ _ Hp Hrows). destruct (m !! t_ID t) as [cur|] eqn:Ec.
    + destruct (Hrows _ _ Ec) as [E [(blocks & Eb & Hb1 & Hb2)]]. split. exists blocks. rewrite Hrb. by rewrite E in *.
    + split. exists []. split; [done|]. split; [done|]. by intros rel []%elem_of_nil.
Qed.

Lemma freachable_ok y : freachable y -> forms_ok y.
Proof using Hw Hroot.
  induction 1 as [H0|y y' _ IH Hs]; [|by eapply forms_ok_step].
  split; cbn; try done; try (by intros * []%elem_of_nil); [|by left].
  intros id t Ht. destruct (H0 id t Ht) as [E Hr]. split; [done|]. split. exists []. rewrite Hr, E.
  split; [done|]. split; [done|]. by intros rel []%elem_of_nil.
Qed.

End ledger.

(** ** Closed instances *)

Definition tk (n : string) : string := "tk_" +:+ n +:+ "AAAAAAAAAAAAAAA".
Definition demo_runbook : string := encodeInspectionRunbook ["check fans"; "check filters"].
Definition demo_ticket (state : string) : Ticket :=
  mkTicket (tk "A") EmptyString "s1.cdu001" "weekly" "info" state EmptyString march1_noon None None None None 0 demo_runbook.
Definition demo_tickets : tickets := {[ tk "A" := demo_ticket "acknowledged" ]}.
Definition no_meter : meter := mkMeter 0 ∅ false.
Definition png : string := byte_string [137; 80; 78; 71; 13; 10; 26; 10].
Definition good_disk (rand : string) : disk_env := mkDisk true (Some rand) true true true.

(** The halves of the requests as functions on the state of a history. *)
Definition do_form_read (y : forms) (id : string) (f : inspectionForm) : forms :=
  match (form_read (fm_tickets y) no_meter None id (Some f)).2 with
  | Ok x => mkForms (fm_tickets y) (fm_files y) (x :: fm_forms y) (fm_photos y)
  | Err _ => y
  end.
Definition do_photo_read (y : forms) (id filename content : string) : forms :=
  match (photo_read (fun r => r) "photos" (Some "/srv") (fm_tickets y) no_meter None id (File filename content)).2 with
  | Ok x => mkForms (fm_tickets y) (fm_files y) (fm_forms y) (x :: fm_photos y)
  | Err _ => y
  end.
Definition do_form_commit (y : forms) : forms :=
  match fm_forms y with
  | (t, f) :: _ => mkForms (form_commit (fm_tickets y) t f march1_noon true).1 (fm_files y) (fm_forms y) (fm_photos y)
  | [] => y
  end.
Definition do_photo_commit (y : forms) (rand : string) : forms :=
  match fm_photos y with
  | (t, name, content) :: _ =>
      let r := photo_commit "photos" (Some "/srv") (fm_tickets y) (fm_files y) t name content (good_disk rand) in
      mkForms r.1.1 r.1.2 (fm_forms y) (fm_photos y)
  | [] => y
  end.

Definition demo_start : forms := mkForms demo_tickets {[ "/srv/secret" := "keep" ]} [] [].
Definition both_read : forms :=
  do_photo_read (do_form_read demo_start (tk "A") (mkForm "all fine" ["1"; "0"; "1"])) (tk "A") "../fan.PNG" png.
Definition demo_forms : forms := do_photo_commit (do_form_commit both_read) "0011aabb".

(** The upload that read the ticket before the submission resolved it puts it
    back: the state, and the results with it. *)
Lemma upload_reopens :
  (fun t => (t_State t, has_suffix (t_Runbook t) ("check filters" +:+ newline +:+ "result:photo=" +:+ tk "A" +:+
      "/0011aabb-fan.PNG" +:+ newline))) <$> fm_tickets demo_forms !! tk "A" = Some ("acknowledged", true) /\
  t_State <$> fm_tickets (do_form_commit both_read) !! tk "A" = Some "resolved".
Proof. split; vm_compute; reflexivity. Qed.

(** Two uploads at once: both files are on disk, one of them is in no runbook. *)
Definition two_uploads : forms :=
  let y := do_photo_read (do_photo_read demo_start (tk "A") "a.png" png) (tk "A") "b.png" png in
  let y := do_photo_commit y "00000001" in
  do_photo_commit (mkForms (fm_tickets y) (fm_files y) [] (tail (fm_photos y))) "00000002".
Lemma upload_orphaned :
  contains "-b.png" <$> (t_Runbook <$> fm_tickets two_uploads !! tk "A") = Some false /\
  fm_files two_uploads !! ("/srv/photos/" +:+ tk "A" +:+ "/00000001-b.png") = Some png.
Proof. split; vm_compute; reflexivity. Qed.

(** A note of two lines puts an item on the checklist. *)
Lemma note_forges_item :
  decodeInspectionRunbook (appendInspectionResult demo_runbook ("done" +:+ newline +:+ "open the valve") [] march1_noon)
  = ["check fans"; "check filters"; "open the valve"].
Proof. vm_compute. reflexivity. Qed.

(** A ticket the scanner has just opened cannot be submitted. *)
Lemma open_not_submitted :
  (form_read {[ tk "A" := demo_ticket "open" ]} no_meter None (tk "A") (Some (mkForm EmptyString []))).2 =
  Err (Problem 422 "invalid-transition" "illegal transition").
Proof. vm_compute. reflexivity. Qed.

(** The same checklist again, as long as results keep to their lines. *)
Lemma forms_roundtrip items blocks : items <> [] ->
  Forall (fun i => no_byte LF i = true /\ checklist_line i = true) items -> Forall one_line blocks ->
  decodeInspectionRunbook (runbook_of (encodeInspectionRunbook items) blocks) = items.
Proof.
  intros Hne Hi Hb. destruct items as [|i items]; [done|].
  change (encodeInspectionRunbook (i :: items)) with (inspectionFormPrefix +:+ join LF (i :: items)).
  rewrite runbook_decode, decode_body by done. unfold checklist_lines. rewrite split_join; [|done|].
  - clear Hne Hb blocks. induction Hi as [|j items' [_ Hj] _ IH]; [done|]. cbn. by rewrite Hj, IH.
  - eapply Forall_impl; [exact Hi|]. by intros x [Hx _].
Qed.

(** *** Reaching them *)

Lemma do_form_read_ok w origin files0 tickets0 y id f : ticketIDPattern id = true ->
  freachable (fun r => r) "photos" w origin files0 tickets0 y ->
  freachable (fun r => r) "photos" w origin files0 tickets0 (do_form_read y id f).
Proof.
  intros Hid Hy. unfold do_form_read. destruct y as [m fs fo ph]. cbn [fm_tickets fm_files fm_forms fm_photos].
  destruct (form_read m no_meter None id (Some f)) as [mt r] eqn:E. cbn [snd]. destruct r as [x|e]; [|done].
  eapply fr_step; [exact Hy|]. by eapply f_form_read.
Qed.

Lemma do_photo_read_ok origin files0 tickets0 y id fn c : ticketIDPattern id = true ->
  freachable (fun r => r) "photos" "/srv" origin files0 tickets0 y ->
  freachable (fun r => r) "photos" "/srv" origin files0 tickets0 (do_photo_read y id fn c).
Proof.
  intros Hid Hy. unfold do_photo_read. destruct y as [m fs fo ph]. cbn [fm_tickets fm_files fm_forms fm_photos].
  destruct (photo_read _ "photos" (Some "/srv") m no_meter None id _) as [mt r] eqn:E. cbn [snd].
  destruct r as [x|e]; [|done]. eapply fr_step; [exact Hy|]. by eapply f_photo_read.
Qed.

Lemma do_form_commit_ok w origin files0 tickets0 y :
  freachable (fun r => r) "photos" w origin files0 tickets0 y ->
  freachable (fun r => r) "photos" w origin files0 tickets0 (do_form_commit y).
Proof.
  intros Hy. unfold do_form_commit. destruct y as [m fs [|[t f] fo] ph]; cbn [fm_tickets fm_files fm_forms fm_photos]; [done|].
  eapply fr_step; [exact Hy|]. destruct (form_commit m t f march1_noon true) as [m' r] eqn:E.
  eapply f_form_commit; [by left|exact E].
Qed.

Lemma do_photo_commit_ok origin files0 tickets0 y rand : random_prefix rand ->
  freachable (fun r => r) "photos" "/srv" origin files0 tickets0 y ->
  freachable (fun r => r) "photos" "/srv" origin files0 tickets0 (do_photo_commit y rand).
Proof.
  intros Hr Hy. unfold do_photo_commit.
  destruct y as [m fs fo [|[[t n] c] ph]]; cbn [fm_tickets fm_files fm_forms fm_photos]; [done|].
  eapply fr_step; [exact Hy|].
  destruct (photo_commit "photos" (Some "/srv") m fs t n c (good_disk rand)) as [[m' fs'] r] eqn:E.
  eapply f_photo_commit; [by left| |exact E]. by intros r' [= <-].
Qed.

Definition demo_origin (id : string) : string := demo_runbook.

Lemma demo_forms_reachable :
  freachable (fun r => r) "photos" "/srv" demo_origin {[ "/srv/secret" := "keep" ]} demo_tickets demo_forms.
Proof.
  unfold demo_forms, both_read, demo_start.
  apply do_photo_commit_ok; [by vm_compute|]. apply do_form_commit_ok.
  apply do_photo_read_ok; [by vm_compute|]. apply do_form_read_ok; [by vm_compute|]. apply fr_init.
  unfold demo_tickets. intros id t [<- <-]%lookup_singleton_Some. by vm_compute.
Qed.

