(* ===== verification/Runbooks.v ===== *)
(** * Runbooks and cases (core/runbooks.go)

    The documents of the runbook directory by key, and the closed tickets as
    cases, in JSON and as a table of comma-separated values.  The documents served
    are exactly those of well-formed keys below the directory; the table, read
    back by the rules of RFC 4180, is exactly the selected rows. *)
From stdpp Require Import sorting.
From S2P Require Import Prelude GoTime GoPath CPath AlarmEngine RBAC Http Tickets PromProj Cursor Pages Gateway Calendar Windows Forms.
Open Scope string_scope.
Open Scope list_scope.

(** ** Runbooks *)

Definition key_byte (c : ascii) : bool := is_lower c || is_upper c || is_digit c || byte_eqb c "_" || byte_eqb c "-".

(** [^[A-Za-z0-9_\-]+(/[A-Za-z0-9_\-]+)*$] *)
Definition runbookIDPattern (key : string) : bool :=
  forallb (fun s => negb (str_eqb s EmptyString) && all_bytes key_byte s) (split "/" key).

Section serving.
(** The configured directory and the working directory; [fs] are the files by
    their absolute path, and [unreadable] those that cannot be read. *)
Context (runbookDir : string) (wd : option string) (fs : files) (unreadable : gset string).

Definition serveRunbook (method url_path : string) : result problem string :=
  if negb (str_eqb method "GET") then Err (Problem 405 "bad-request" "method not allowed")
  else
    let key := trim_prefix url_path "/v1/runbooks/" in
    if str_eqb key EmptyString || str_eqb key url_path then Err (bad_request "missing key")
    else
      let key := trim_suffix key ".md" in
      if negb (str_eqb (path_Clean key) key) || negb (runbookIDPattern key) then Err (bad_request "bad runbook key")
      else if str_eqb runbookDir EmptyString then Err (Problem 404 "not-found" "runbook dir not configured")
      else
        let full := path_Join runbookDir (key +:+ ".md") in
        if negb (below wd full runbookDir) then Err (bad_request "bad runbook key")
        else match fs !! path_Abs wd full with
        | None => Err (Problem 404 "not-found" "runbook not found")
        | Some body =>
            if bool_decide (path_Abs wd full ∈ unreadable) then Err (Problem 500 "bad-request" "read error") else Ok body
        end.
End serving.

(** ** The writer of encoding/csv *)

Definition special_byte (c : ascii) : bool := byte_eqb c "," || byte_eqb c DQ || byte_eqb c CR || byte_eqb c LF.
Definition starts_with_space (s : string) : bool := negb (str_eqb (trim_left s) s).

Definition fieldNeedsQuotes (field : string) : bool :=
  if str_eqb field EmptyString then false
  else if str_eqb field (String BS ".") then true
  else negb (all_bytes (fun c => negb (special_byte c)) field) || starts_with_space field.

Definition quote_field (field : string) : string :=
  String DQ (replace_byte DQ (String DQ (String DQ EmptyString)) field) +:+ String DQ EmptyString.
Definition csv_field (field : string) : string := if fieldNeedsQuotes field then quote_field field else field.
Definition csv_record (fields : list string) : string := join "," (map csv_field fields) +:+ newline.
Definition csv_body (records : list (list string)) : string := foldr (fun r s => csv_record r +:+ s) EmptyString records.

(** ** Cases *)

Definition casesHardLimit : Z := 1000.
Definition casesDefaultLimit : Z := 100.

Record casesQuery : Type := mkCasesQuery {
  cq_severity : string; cq_asset_prefix : string; cq_since : string; cq_until : string; cq_limit : string;
  cq_format : string
}.

Definition parse_bound (s title : string) : result problem (option time) :=
  if str_eqb s EmptyString then Ok None
  else match ParseRFC3339 s with Some t => Ok (Some t) | None => Err (bad_request title) end.

Definition parse_limit (s : string) : result problem Z :=
  if str_eqb s EmptyString then Ok casesDefaultLimit
  else match Atoi s with
  | Some n => if (n <=? 0)%Z then Err (bad_request "bad limit") else Ok (Z.min n casesHardLimit)
  | None => Err (bad_request "bad limit")
  end.

(** The conditions of the loop before the check of the scope. *)
Definition case_wanted (q : casesQuery) (since until : option time) (t : Ticket) : bool :=
  str_eqb (t_State t) "closed" && wanted (cq_severity q) (t_Severity t) &&
  (str_eqb (cq_asset_prefix q) EmptyString || has_prefix (t_AssetPath t) (cq_asset_prefix q)) &&
  match since with
  | Some s => match t_ClosedAt t with Some c => negb (c <? s)%Z | None => false end
  | None => true
  end &&
  match until with
  | Some u => match t_ClosedAt t with Some c => negb (u <? c)%Z | None => false end
  | None => true
  end.

Definition cases_header : list string :=
  ["id"; "severity"; "asset_path"; "title"; "opened_at"; "closed_at"; "runbook"].
Definition case_row (t : Ticket) : list string :=
  [t_ID t; t_Severity t; t_AssetPath t; t_Title t; FormatRFC3339 (t_OpenedAt t);
   match t_ClosedAt t with Some c => FormatRFC3339 c | None => EmptyString end; t_Runbook t].
Definition writeCasesCSV (items : list Ticket) : string := csv_body (cases_header :: map case_row items).

Inductive cases_answer : Type := CasesJSON (items : list Ticket) | CasesCSV (body : string).

Section cases.
Context (lower_rune : N -> N).

(** [all] is what [ListTickets] returned. *)
Definition serveCases (all : list Ticket) (mt : meter) (auth : option Principal) (method : string) (q : casesQuery) :
    meter * result problem cases_answer :=
  if negb (str_eqb method "GET") then (mt, Err (Problem 405 "bad-request" "method not allowed"))
  else if negb (str_eqb (cq_severity q) EmptyString) && negb (contains_string AllowedSeverities (cq_severity q))
  then (mt, Err (bad_request "bad severity"))
  else
    match (since ← parse_bound (cq_since q) "bad since (need RFC3339)";
           until ← parse_bound (cq_until q) "bad until (need RFC3339)";
           limit ← parse_limit (cq_limit q);
           let format := ToLower lower_rune (cq_format q) in
           let format := if str_eqb format EmptyString then "json" else format in
           if negb (str_eqb format "json") && negb (str_eqb format "csv")
           then Err (bad_request "bad format (need json|csv)") else Ok (since, until, limit, format)) with
    | Err e => (mt, Err e)
    | Ok (since, until, limit, format) =>
        let '(mt', items) := filter_visible mt auth (case_wanted q since until) t_AssetPath all in
        let items := take (Z.to_nat limit) items in
        (mt', Ok (if str_eqb format "csv" then CasesCSV (writeCasesCSV items) else CasesJSON items))
    end.
End cases.

(** ** Reading the table, by the rules of RFC 4180

    Records end with a line feed, fields are separated by commas, a quoted field
    may hold anything with its quotes doubled, any other none of the four bytes. *)

Inductive csv_mode : Type := CStart | CPlain | CQuoted | CClosing.

Fixpoint csv_go (s : string) (mode : csv_mode) (field : string) (row : list string) (rows : list (list string)) :
    option (list (list string)) :=
  match s with
  | EmptyString => match mode, row with CStart, [] => Some rows | _, _ => None end
  | String c s =>
      let next := csv_go s CStart EmptyString (row ++ [field]) rows in
      let line := csv_go s CStart EmptyString [] (rows ++ [row ++ [field]]) in
      let add := field +:+ String c EmptyString in
      match mode with
      | CStart =>
          if byte_eqb c DQ then csv_go s CQuoted EmptyString row rows
          else if byte_eqb c "," then next else if byte_eqb c LF then line
          else if byte_eqb c CR then None else csv_go s CPlain add row rows
      | CPlain =>
          if byte_eqb c "," then next else if byte_eqb c LF then line
          else if byte_eqb c DQ || byte_eqb c CR then None else csv_go s CPlain add row rows
      | CQuoted => if byte_eqb c DQ then csv_go s CClosing field row rows else csv_go s CQuoted add row rows
      | CClosing =>
          if byte_eqb c DQ then csv_go s CQuoted add row rows
          else if byte_eqb c "," then next else if byte_eqb c LF then line else None
      end
  end.
Definition csv_read (s : string) : option (list (list string)) := csv_go s CStart EmptyString [] [].

Definition field_end (c : ascii) (s field : string) (row : list string) (rows : list (list string)) :
    option (list (list string)) :=
  if byte_eqb c "," then csv_go s CStart EmptyString (row ++ [field]) rows
  else csv_go s CStart EmptyString [] (rows ++ [row ++ [field]]).

Lemma csv_end mode c s field row rows : c = ","%char \/ c = LF -> mode <> CQuoted ->
  csv_go (String c s) mode field row rows = field_end c s field row rows.
Proof. intros [-> | ->] Hm; by destruct mode. Qed.

Lemma csv_plain f : all_bytes (fun c => negb (special_byte c)) f = true -> forall acc rest row rows,
  csv_go (f +:+ rest) CPlain acc row rows = csv_go rest CPlain (acc +:+ f) row rows.
Proof.
  induction f as [|c f IH]; intros H acc rest row rows; [by rewrite str_app_nil_r|]. cbn [all_bytes] in H. bool_simpl.
  unfold special_byte in H. destruct (byte_eqb c ",") eqn:E1; [done|]. destruct (byte_eqb c DQ) eqn:E2; [done|].
  destruct (byte_eqb c CR) eqn:E3; [done|]. destruct (byte_eqb c LF) eqn:E4; [done|].
  cbn [String.append csv_go]. rewrite E1, E2, E3, E4. cbn [orb]. rewrite IH by done. by rewrite <- str_app_assoc.
Qed.

Lemma csv_quoted f : forall acc rest row rows,
  csv_go (replace_byte DQ (String DQ (String DQ EmptyString)) f +:+ String DQ rest) CQuoted acc row rows =
  csv_go rest CClosing (acc +:+ f) row rows.
Proof.
  induction f as [|c f IH]; intros acc rest row rows; [by rewrite str_app_nil_r|]. cbn [replace_byte].
  destruct (byte_eqb c DQ) eqn:E.
  - apply byte_eqb_eq in E as ->. rewrite <- str_app_assoc. cbn [String.append csv_go]. rewrite byte_eqb_refl, IH.
    by rewrite <- str_app_assoc.
  - rewrite <- str_app_assoc. cbn [String.append csv_go]. rewrite E, IH. by rewrite <- str_app_assoc.
Qed.

Lemma csv_field_read f c s row rows : c = ","%char \/ c = LF ->
  csv_go (csv_field f +:+ String c s) CStart EmptyString row rows = field_end c s f row rows.
Proof.
  intros Hc. unfold csv_field. destruct (fieldNeedsQuotes f) eqn:Hq.
  - unfold quote_field. cbn [String.append csv_go]. rewrite byte_eqb_refl, <- str_app_assoc. cbn [String.append].
    rewrite csv_quoted. by apply csv_end.
  - unfold fieldNeedsQuotes in Hq. destruct f as [|a f]; [by apply csv_end|]. cbn [str_eqb] in Hq.
    destruct (str_eqb (String a f) (String BS ".")); [done|]. cbn [orb] in Hq.
    apply orb_false_iff in Hq as [Hq _]. apply negb_false_iff in Hq. pose proof Hq as Hf. cbn [all_bytes] in Hf. bool_simpl.
    unfold special_byte in H. destruct (byte_eqb a ",") eqn:E1; [done|]. destruct (byte_eqb a DQ) eqn:E2; [done|].
    destruct (byte_eqb a CR) eqn:E3; [done|]. destruct (byte_eqb a LF) eqn:E4; [done|].
    cbn [String.append csv_go]. rewrite E1, E2, E3, E4, csv_plain by done. by apply csv_end.
Qed.

Lemma csv_record_read fields : fields <> [] -> forall row rows s,
  csv_go (csv_record fields +:+ s) CStart EmptyString row rows =
  csv_go s CStart EmptyString [] (rows ++ [row ++ fields]).
Proof.
  unfold csv_record. induction fields as [|f fields IH]; intros Hne row rows s; [done|]. destruct fields as [|g fields].
  - cbn [map join]. rewrite <- str_app_assoc. unfold newline. cbn [String.append]. rewrite csv_field_read by auto. done.
  - cbn [map] in *. rewrite join_cons by done. set (j := join "," (csv_field g :: map csv_field fields)) in *. clearbody j.
    rewrite <- !str_app_assoc. change (String "," j +:+ newline +:+ s) with (String "," (j +:+ newline +:+ s)).
    rewrite csv_field_read by auto. unfold field_end. change (byte_eqb "," ",") with true. cbv iota.
    rewrite (str_app_assoc j), IH by done. by rewrite <- app_assoc.
Qed.

Lemma csv_body_read records : Forall (fun r => r <> []) records -> forall rows,
  csv_go (csv_body records) CStart EmptyString [] rows = Some (rows ++ records).
Proof.
  induction 1 as [|r records Hr _ IH]; intros rows; [cbn; by rewrite app_nil_r|]. cbn [csv_body foldr].
  fold (csv_body records). rewrite csv_record_read by done. rewrite IH. by rewrite <- app_assoc.
Qed.

Lemma cases_csv_read items : csv_read (writeCasesCSV items) = Some (cases_header :: map case_row items).
Proof.
  unfold csv_read, writeCasesCSV. rewrite csv_body_read; [done|]. constructor; [done|].
  apply Forall_map, Forall_true. done.
Qed.

(** ** What is served *)

Lemma key_byte_plain c : key_byte c = true -> byte_eqb c "/" = false /\ byte_eqb c "." = false.
Proof. by byte_cases c. Qed.

Lemma split_app_tail sep a b : no_byte sep b = true ->
  exists init final, split sep a = init ++ [final] /\ split sep (a +:+ b) = init ++ [final +:+ b].
Proof.
  intros Hb. induction a as [|c a (init & final & E1 & E2)].
  - exists [], EmptyString. split; [done|]. cbn. by apply split_no_sep.
  - cbn [split String.append]. rewrite E1, E2. destruct (byte_eqb c sep).
    + by exists (EmptyString :: init), final.
    + destruct init as [|h init]; cbn [app]; [by exists [], (String c final)|by exists (String c h :: init), final].
Qed.

Lemma key_name s : s <> EmptyString -> all_bytes key_byte s = true -> path_name s /\ path_name (s +:+ ".md").
Proof.
  intros Hne Hk. assert (Hsl : no_byte "/" s = true /\ no_byte "." s = true).
  { unfold no_byte. split; (eapply all_bytes_impl; [|exact Hk]); intros c Hc; apply key_byte_plain in Hc;
      destruct Hc as [H1 H2]; [by rewrite H1|by rewrite H2]. }
  destruct Hsl as [Hsl Hd]. assert (Hlen : 1 <= str_len s) by (destruct s; [done|cbn; lia]).
  split; (split; [|split; [|split]]); try done; try (by intros ->); try (by destruct s);
    try (intros E; apply (f_equal str_len) in E; rewrite str_len_app in E; cbn in E; lia).
  by rewrite no_byte_app, Hsl.
Qed.

Lemma key_names key : runbookIDPattern key = true ->
  Forall path_name (split "/" key) /\ Forall path_name (split "/" (key +:+ ".md")).
Proof.
  unfold runbookIDPattern. rewrite forallb_forall. intros H.
  destruct (split_app_tail "/" key ".md" eq_refl) as (init & final & E1 & E2). rewrite E2, E1 in *.
  assert (Hall : forall s, s ∈ init ++ [final] -> path_name s /\ path_name (s +:+ ".md")).
  { intros s Hs. apply list_elem_of_In in Hs. specialize (H s Hs). bool_simpl. apply str_eqb_neq in H.
    by apply key_name. }
  split; apply Forall_forall; [by intros s [Hs _]%Hall|].
  intros s [Hs|Hs]%elem_of_app; [apply Hall; by apply elem_of_app; left|].
  apply list_elem_of_singleton in Hs as ->. apply Hall. apply elem_of_app. right. by left.
Qed.

(** A key is clean as it is. *)
Lemma key_clean key : runbookIDPattern key = true -> path_Clean key = key.
Proof.
  intros Hk. destruct (key_names key Hk) as [Hn _]. pose proof (split_not_nil "/" key) as Hne.
  destruct (join_names (split "/" key) Hne) as (H1 & H2 & _).
  { eapply Forall_impl; [exact Hn|apply path_name_plain]. }
  rewrite join_split in H1, H2. unfold path_Clean. apply str_eqb_neq in H1. rewrite H1, H2.
  unfold path_elements. rewrite fold_names, app_nil_r, rev_involutive, join_split by done. by rewrite H1.
Qed.

Lemma key_no_md key : runbookIDPattern key = true -> trim_suffix key ".md" = key.
Proof.
  intros Hk. unfold trim_suffix. destruct (has_suffix key ".md") eqn:E; [|done]. exfalso.
  apply has_suffix_split in E. set (x := trim_suffix key ".md") in E. clearbody x. subst key.
  destruct (split_app_tail "/" x ".md" eq_refl) as (init & final & _ & E2). unfold runbookIDPattern in Hk.
  rewrite E2, forallb_app in Hk. cbn [forallb] in Hk. bool_simpl. rewrite all_bytes_app in *. by bool_simpl.
Qed.

(** The documents served are those of the keys, from below the directory: a
    request gets the file of its key, and what a request gets is such a file. *)
Section served.
Context (dir w : string) (fs : files) (unreadable : gset string).
Context (Hw : path_IsAbs w = true) (Hd : dir <> EmptyString) (Hr : path_Abs (Some w) dir <> "/").

Definition document (key : string) : string := path_Abs (Some w) dir +:+ "/" +:+ key +:+ ".md".

Lemma document_file key : runbookIDPattern key = true ->
  path_Abs (Some w) (path_Join dir (key +:+ ".md")) = document key /\ below (Some w) (path_Join dir (key +:+ ".md")) dir = true.
Proof using Hw Hd Hr.
  intros Hk. destruct (key_names key Hk) as [_ Hn]. pose proof (split_not_nil "/" (key +:+ ".md")) as Hne.
  pose proof (Join_names_below w dir _ Hw Hd Hne Hn Hr) as E. rewrite join_split in E. split; [exact E|].
  unfold below. rewrite E, str_app_assoc. apply has_prefix_app.
Qed.

Lemma serveRunbook_key url key : trim_suffix (trim_prefix url "/v1/runbooks/") ".md" = key ->
  runbookIDPattern key = true -> url <> trim_prefix url "/v1/runbooks/" -> trim_prefix url "/v1/runbooks/" <> EmptyString ->
  serveRunbook dir (Some w) fs unreadable "GET" url =
    match fs !! document key with
    | None => Err (Problem 404 "not-found" "runbook not found")
    | Some body =>
        if bool_decide (document key ∈ unreadable) then Err (Problem 500 "bad-request" "read error") else Ok body
    end.
Proof using Hw Hd Hr.
  intros E Hk Hu He. unfold serveRunbook. change (negb (str_eqb "GET" "GET")) with false. cbv iota zeta.
  apply str_eqb_neq in He. rewrite He. assert (str_eqb (trim_prefix url "/v1/runbooks/") url = false) as ->.
  { apply str_eqb_neq. by intros E'. }
  cbn [orb]. rewrite E, (key_clean key Hk), str_eqb_refl, Hk. cbn [negb orb]. apply str_eqb_neq in Hd as Hd'. rewrite Hd'.
  destruct (document_file key Hk) as [-> ->]. done.
Qed.

Lemma serveRunbook_only method url body : serveRunbook dir (Some w) fs unreadable method url = Ok body ->
  exists key, runbookIDPattern key = true /\ trim_suffix (trim_prefix url "/v1/runbooks/") ".md" = key /\
    fs !! document key = Some body.
Proof using Hw Hd Hr.
  unfold serveRunbook. destruct (negb _); [done|]. destruct (_ || _); [done|].
  set (key := trim_suffix _ _). destruct (runbookIDPattern key) eqn:Hk; [|by rewrite orb_true_r].
  destruct (negb _ || _); [done|]. destruct (str_eqb dir EmptyString); [done|].
  destruct (document_file key Hk) as [-> ->]. cbn [negb]. destruct (fs !! document key) eqn:E; [|done].
  destruct (bool_decide _); [done|]. intros <-%Ok_inj. by exists key.
Qed.
End served.

(** ** Which cases *)

(** What the query asks of a ticket. *)
Record asked (q : casesQuery) (t : Ticket) : Prop := mkAsked {
  as_closed : t_State t = "closed";
  as_severity : cq_severity q = EmptyString \/ t_Severity t = cq_severity q;
  as_prefix : exists rest, t_AssetPath t = cq_asset_prefix q +:+ rest;
  as_since : cq_since q = EmptyString \/
    exists s c, ParseRFC3339 (cq_since q) = Some s /\ t_ClosedAt t = Some c /\ (s <= c)%Z;
  as_until : cq_until q = EmptyString \/
    exists u c, ParseRFC3339 (cq_until q) = Some u /\ t_ClosedAt t = Some c /\ (c <= u)%Z
}.

Lemma parse_bound_Ok s title o : parse_bound s title = Ok o ->
  (s = EmptyString /\ o = None) \/ (s <> EmptyString /\ exists t, ParseRFC3339 s = Some t /\ o = Some t).
Proof.
  unfold parse_bound. destruct (str_eqb s EmptyString) eqn:E.
  - apply str_eqb_eq in E. intros <-%Ok_inj. by left.
  - apply str_eqb_neq in E. destruct (ParseRFC3339 s) as [t|] eqn:Ep; [|done]. intros <-%Ok_inj. right. split; [done|].
    by exists t.
Qed.

Lemma parse_limit_Ok s n : parse_limit s = Ok n -> (1 <= n <= casesHardLimit)%Z.
Proof.
  unfold parse_limit, casesHardLimit, casesDefaultLimit. destruct (str_eqb s EmptyString); [intros <-%Ok_inj; lia|].
  destruct (Atoi s) as [k|]; [|done]. destruct (Z.leb_spec k 0); [done|]. intros <-%Ok_inj. lia.
Qed.

Lemma prefix_wanted path pre :
  str_eqb pre EmptyString || has_prefix path pre = true <-> exists rest, path = pre +:+ rest.
Proof.
  split.
  - intros [->%str_eqb_eq|H]%orb_true_iff; [by exists path|by apply has_prefix_split].
  - intros [rest ->]. by rewrite has_prefix_app, orb_true_r.
Qed.

Lemma wanted_iff want v : wanted want v = true <-> want = EmptyString \/ v = want.
Proof. unfold wanted. by rewrite orb_true_iff, !str_eqb_eq. Qed.

Lemma case_wanted_asked q since until t s1 s2 :
  parse_bound (cq_since q) s1 = Ok since -> parse_bound (cq_until q) s2 = Ok until ->
  case_wanted q since until t = true <-> asked q t.
Proof.
  intros Hs Hu. apply parse_bound_Ok in Hs, Hu. unfold case_wanted. rewrite !andb_true_iff, str_eqb_eq, wanted_iff, prefix_wanted.
  assert (H1 : match since with
    | Some s => match t_ClosedAt t with Some c => negb (c <? s)%Z | None => false end | None => true end = true <->
    cq_since q = EmptyString \/ exists s c, ParseRFC3339 (cq_since q) = Some s /\ t_ClosedAt t = Some c /\ (s <= c)%Z).
  { destruct Hs as [[E ->]|[E (s & Ep & ->)]]; [tauto|]. rewrite Ep. destruct (t_ClosedAt t) as [c|].
    - rewrite negb_true_iff, Z.ltb_ge. split; [intros H; right; by exists s, c|].
      intros [?|(s' & c' & [= <-] & [= <-] & H)]; [done|lia].
    - split; [done|]. intros [?|(s' & c' & _ & ? & _)]; done. }
  assert (H2 : match until with
    | Some u => match t_ClosedAt t with Some c => negb (u <? c)%Z | None => false end | None => true end = true <->
    cq_until q = EmptyString \/ exists u c, ParseRFC3339 (cq_until q) = Some u /\ t_ClosedAt t = Some c /\ (c <= u)%Z).
  { destruct Hu as [[E ->]|[E (u & Ep & ->)]]; [tauto|]. rewrite Ep. destruct (t_ClosedAt t) as [c|].
    - rewrite negb_true_iff, Z.ltb_ge. split; [intros H; right; by exists u, c|].
      intros [?|(s' & c' & [= <-] & [= <-] & H)]; [done|lia].
    - split; [done|]. intros [?|(s' & c' & _ & ? & _)]; done. }
  rewrite H1, H2. split; [intros ((((? & ?) & ?) & ?) & ?); by split|by intros []].
Qed.

Definition newer (a b : Ticket) : Prop := (t_OpenedAt b <= t_OpenedAt a)%Z.

Lemma newest_kept g all : StronglySorted newer all -> StronglySorted newer (List.filter g all).
Proof.
  induction 1 as [|t all _ IH Ht]; [constructor|]. cbn. destruct (g t); [|done]. constructor; [done|].
  rewrite Forall_forall in Ht |- *. intros x Hx. apply Ht. apply list_elem_of_In, filter_In in Hx as [Hx _].
  by apply list_elem_of_In.
Qed.


(** *** Closed instances *)

Definition closed_ticket (id title : string) (at_ : time) : Ticket :=
  mkTicket id EmptyString "s1.cdu001" title "major" "closed" EmptyString at_ None None (Some (at_ + Second)%Z) None 1
    demo_runbook.
Definition quoted_title : string := "pump, " +:+ String DQ ("A" +:+ String DQ (newline +:+ " leaks")).
Definition demo_cases : tickets :=
  {[ tk "A" := closed_ticket (tk "A") quoted_title march1_noon;
     tk "B" := closed_ticket (tk "B") "fan" (march1_noon + Second)%Z;
     tk "C" := demo_ticket "open" ]}.
Definition demo_case_query : casesQuery := mkCasesQuery "major" "s1." "2024-03-01T00:00:00Z" EmptyString "1" "CSV".

Definition demo_listed : list Ticket :=
  [closed_ticket (tk "B") "fan" (march1_noon + Second)%Z; closed_ticket (tk "A") quoted_title march1_noon;
   demo_ticket "open"].
Lemma demo_cases_listed : tickets_listed demo_cases demo_listed.
Proof.
  split.
  - symmetry. vm_compute. solve_Permutation.
  - assert (H : (march1_noon <= march1_noon + Second)%Z) by (unfold Second; lia).
    unfold demo_listed. repeat (constructor; [|repeat constructor; cbn; (exact H || apply Z.le_refl)]). constructor.
Qed.

(** The whole of the table: quotes are doubled, line feeds stay inside. *)
Lemma demo_table : csv_read (writeCasesCSV demo_listed) = Some (cases_header :: map case_row demo_listed).
Proof. apply cases_csv_read. Qed.


(** A document, and keys that try to leave the directory. *)
Definition demo_documents : files := {[ "/srv/rb/cdu/low-flow.md" := "open the valve"; "/srv/rb.md" := "other" ]}.
Lemma demo_runbooks :
  serveRunbook "rb" (Some "/srv") demo_documents ∅ "GET" "/v1/runbooks/cdu/low-flow.md" = Ok "open the valve" /\
  serveRunbook "rb" (Some "/srv") demo_documents ∅ "GET" "/v1/runbooks/../rb" = Err (bad_request "bad runbook key").
Proof. split; vm_compute; reflexivity. Qed.
