(* ===== verification/Layout.v ===== *)
(** * Site layouts (core/sitelayout.go, core/sitelayout_http.go)

    The drawing of a site - instances placed on a canvas, edges between them -
    its validation against the vocabulary, and the write-back of the drawing into
    the assets.  Exactly the valid drawings are accepted, and a write-back leaves
    in the store the drawing and everything that was curated there before. *)
From S2P Require Import Prelude GoTime CPath Glob RBAC Http Tickets AuthMW Routes Registry PromProj Calendar Cursor Assets.
Open Scope string_scope.
Open Scope list_scope.

(** ** The document; numbers are kept as their text in JSON *)

Record LayoutInstance : Type := mkInstance {
  li_ID : string; li_Path : string; li_Type : string; li_Model : string; li_PackType : string;
  li_X : string; li_Y : string; li_Rot : string
}.
Record LayoutEdge : Type := mkEdge { le_ID : string; le_FromID : string; le_ToID : string; le_Relation : string }.
Record LayoutWritebackResult : Type := mkWriteback {
  wb_At : time; wb_Actor : string; wb_Created : Z; wb_Updated : Z; wb_EdgesKept : Z; wb_Errors : list string
}.
Record SiteLayout : Type := mkLayout {
  sy_Site : string; sy_Instances : list LayoutInstance; sy_Edges : list LayoutEdge; sy_UpdatedAt : time;
  sy_UpdatedBy : string; sy_LastWriteback : option LayoutWritebackResult
}.
(** The documents on disk, under the name of the site. *)
Abbreviation layouts := (gmap string SiteLayout).

(** [sanitizeSeg] of modelpacks.go *)
Definition sanitizeSeg (s : string) : string :=
  let s := TrimSpace s in
  if str_eqb s EmptyString || contains ".." s || negb (no_byte "/" s && no_byte (ascii_of_nat 92) s)
  then EmptyString else s.

Definition LoadSiteLayout (ls : layouts) (site : string) : result string SiteLayout :=
  let site := sanitizeSeg site in
  if str_eqb site EmptyString then Err "bad site slug"
  else match ls !! site with
  | None => Ok (mkLayout site [] [] zero_time EmptyString None)
  | Some lay => Ok (mkLayout site (sy_Instances lay) (sy_Edges lay) (sy_UpdatedAt lay) (sy_UpdatedBy lay) (sy_LastWriteback lay))
  end.

Section validation.
Context (lower_rune : N -> N) (dict : option Dict).
Abbreviation lower := (ToLower lower_rune).

(** [typeVocab] and [relationVocab] *)
Definition typeVocab : list string :=
  match dict with Some d => map lower (map_to_list (d_Types d)).*1 | None => [] end.
Definition relationVocab : list string :=
  match dict with Some d => map lower (map_to_list (d_Relations d)).*1 | None => [] end.
Definition in_vocab (vocab : list string) (s : string) : bool := (length vocab =? 0)%nat || contains_string vocab s.

Definition trimmed_instance (i : LayoutInstance) : LayoutInstance :=
  mkInstance (TrimSpace (li_ID i)) (TrimSpace (li_Path i)) (lower (TrimSpace (li_Type i))) (li_Model i) (li_PackType i)
    (li_X i) (li_Y i) (li_Rot i).
Definition trimmed_edge (e : LayoutEdge) : LayoutEdge :=
  mkEdge (TrimSpace (le_ID e)) (TrimSpace (le_FromID e)) (TrimSpace (le_ToID e)) (lower (TrimSpace (le_Relation e))).

Definition path_parses (p : string) : bool :=
  match dict with Some d => is_ok (ParseAssetPath d p) | None => true end.
Definition under_site (site : string) (i : LayoutInstance) : bool :=
  has_prefix (li_Path i) (site +:+ ".") || str_eqb (li_Path i) site || str_eqb (li_Type i) "site".

(** The loop over the instances, with the ids and paths seen so far. *)
Fixpoint validate_instances (site : string) (insts : list LayoutInstance) (ids paths : list string) :
    result string (list LayoutInstance * list string) :=
  match insts with
  | [] => Ok ([], ids)
  | i :: insts =>
      let i := trimmed_instance i in
      if str_eqb (li_ID i) EmptyString then Err "instance missing id"
      else if contains_string ids (li_ID i) then Err "duplicate instance id"
      else if str_eqb (li_Path i) EmptyString || str_eqb (li_Type i) EmptyString then Err "instance needs path and type"
      else if negb (in_vocab typeVocab (li_Type i)) then Err "type not in protocol types.yaml"
      else if negb (path_parses (li_Path i)) then Err "instance path"
      else if negb (under_site site i) then Err "path must be under site"
      else if contains_string paths (li_Path i) then Err "path used twice"
      else
        r ← validate_instances site insts (li_ID i :: ids) (li_Path i :: paths);
        Ok (i :: r.1, r.2)
  end.

Fixpoint validate_edges (ids : list string) (edges : list LayoutEdge) : result string (list LayoutEdge) :=
  match edges with
  | [] => Ok []
  | e :: edges =>
      let e := trimmed_edge e in
      if str_eqb (le_ID e) EmptyString || str_eqb (le_FromID e) EmptyString || str_eqb (le_ToID e) EmptyString
      then Err "edge incomplete"
      else if str_eqb (le_FromID e) (le_ToID e) then Err "edge self-loop"
      else if negb (contains_string ids (le_FromID e)) then Err "edge from unknown instance"
      else if negb (contains_string ids (le_ToID e)) then Err "edge to unknown instance"
      else if negb (in_vocab relationVocab (le_Relation e)) then Err "bad relation"
      else rest ← validate_edges ids edges; Ok (e :: rest)
  end.

Definition normalizeValidateLayout (lay : SiteLayout) : result string SiteLayout :=
  let site := sanitizeSeg (sy_Site lay) in
  if str_eqb site EmptyString || negb (validSiteSlug site) then Err "invalid site slug"
  else
    r ← validate_instances site (sy_Instances lay) [] [];
    edges ← validate_edges r.2 (sy_Edges lay);
    Ok (mkLayout site r.1 edges (sy_UpdatedAt lay) (sy_UpdatedBy lay) (sy_LastWriteback lay)).

(** [saved] says whether writing the file succeeded. *)
Definition SaveSiteLayout (ls : layouts) (lay : SiteLayout) (actor : string) (now : time) (saved : bool) :
    layouts * result string SiteLayout :=
  match normalizeValidateLayout lay with
  | Err e => (ls, Err e)
  | Ok lay =>
      let lay := mkLayout (sy_Site lay) (sy_Instances lay) (sy_Edges lay) now actor (sy_LastWriteback lay) in
      if saved then (<[sy_Site lay := lay]> ls, Ok lay) else (ls, Err "write")
  end.

(** ** Writing back *)

(** The values of the two keys that are not strings, as the text they stand for. *)
Definition quoted_text (s : string) : string := String DQ (s +:+ String DQ EmptyString).
Definition layout_value (i : LayoutInstance) : jvalue :=
  JOther ("{" +:+ quoted_text "rot" +:+ ":" +:+ li_Rot i +:+ "," +:+ quoted_text "x" +:+ ":" +:+ li_X i +:+ "," +:+
          quoted_text "y" +:+ ":" +:+ li_Y i +:+ "}").
Definition edges_value (outs : list (string * string)) : jvalue :=
  JOther ("[" +:+ join "," (map (fun o => "{" +:+ quoted_text "relation" +:+ ":" +:+ quoted_text o.2 +:+ "," +:+
                                          quoted_text "to" +:+ ":" +:+ quoted_text o.1 +:+ "}") outs) +:+ "]").

(** The edges that leave an instance, with the path of the other end. *)
Definition outgoing (lay : SiteLayout) (i : LayoutInstance) : list (string * string) :=
  omap (fun e =>
    if negb (str_eqb (le_FromID e) (li_ID i)) then None
    else match List.find (fun o => str_eqb (li_ID o) (le_ToID e)) (sy_Instances lay) with
    | Some o => if str_eqb (li_Path o) EmptyString then None else Some (li_Path o, le_Relation e)
    | None => None
    end) (sy_Edges lay).

Definition set_if (c : bool) (key : string) (v : jvalue) (sp : spec) : spec := if c then <[key := v]> sp else sp.

(** The spec that is stored; [existing] is the row that was found. *)
Definition merged_spec (existing : option (option spec)) (lay : SiteLayout) (i : LayoutInstance) : spec :=
  let sp : spec := match existing with
    | Some (Some sp) => sp
    | _ => <["type" := JString (li_Type i)]> (<["lifecycle" := JString "planned"]> (<["source" := JString "site-draw"]> ∅))
    end in
  let sp := set_if (match sp !! "type" with
                    | None => true | Some (JString t) => str_eqb t EmptyString | Some (JOther _) => false end)
              "type" (JString (li_Type i)) sp in
  let sp := <["layout" := layout_value i]> sp in
  let sp := set_if (negb (str_eqb (li_Model i) EmptyString)) "model" (JString (li_Model i)) sp in
  let sp := set_if (negb (str_eqb (li_PackType i) EmptyString)) "pack_type" (JString (li_PackType i)) sp in
  let fresh := negb (bool_decide (is_Some existing)) in
  let sp := set_if fresh "source" (JString "site-draw") sp in
  let sp := set_if (fresh && negb (bool_decide (is_Some (sp !! "lifecycle")))) "lifecycle" (JString "planned") sp in
  match outgoing lay i with
  | [] => delete "layout_edges" sp
  | outs => <["layout_edges" := edges_value outs]> sp
  end.

(** What happens to one instance: the reference of the map allocated for it, the
    clock, and whether the store can save. *)
Record wenv : Type := mkWenv { we_loc : positive; we_now : time; we_saved : bool }.
Inductive outcome : Type := Created | Updated | Failed (title : string).

Definition placeable (lay : SiteLayout) (i : LayoutInstance) : bool :=
  negb (str_eqb (li_Path i) (sy_Site lay) || negb (contains "." (li_Path i))).

Definition writeback_one (st : cmdb) (lay : SiteLayout) (i : LayoutInstance) (env : wenv) : cmdb * outcome :=
  if negb (placeable lay i)
  then (st, Failed (li_Path i +:+ ": path must be site.<type><index> (not site-only)"))
  else
    let existing := cm_rows st !! li_Path i in
    let sp := merged_spec ((fun a => deref (cm_heap st) (as_Spec a)) <$> existing) lay i in
    let st := with_heap st (<[we_loc env := sp]> (cm_heap st)) in
    match PutAsset st (mkAsset (li_Path i) 0 (Some (we_loc env)) zero_time zero_time) 0 (we_now env) (we_saved env) with
    | (st, Ok _) => (st, if bool_decide (is_Some existing) then Updated else Created)
    | (st, Err _) => (st, Failed (li_Path i +:+ ": save"))
    end.

Fixpoint writeback_loop (st : cmdb) (lay : SiteLayout) (insts : list LayoutInstance) (env : LayoutInstance -> wenv) :
    cmdb * list outcome :=
  match insts with
  | [] => (st, [])
  | i :: insts =>
      let '(st, o) := writeback_one st lay i (env i) in
      let '(st, os) := writeback_loop st lay insts env in (st, o :: os)
  end.

Definition count_outcomes (f : outcome -> bool) (os : list outcome) : Z := Z.of_nat (length (List.filter f os)).
Definition failures (os : list outcome) : list string := omap (fun o => match o with Failed t => Some t | _ => None end) os.
Definition is_created (o : outcome) : bool := match o with Created => true | _ => false end.
Definition is_updated (o : outcome) : bool := match o with Updated => true | _ => false end.

Definition WritebackSiteLayout (st : cmdb) (ls : layouts) (lay : SiteLayout) (actor : string) (now : time)
    (env : LayoutInstance -> wenv) (saved : bool) :
    cmdb * layouts * result string (SiteLayout * LayoutWritebackResult) :=
  match normalizeValidateLayout lay with
  | Err e => (st, ls, Err e)
  | Ok lay =>
      let '(st, os) := writeback_loop st lay (sy_Instances lay) env in
      let res := mkWriteback now actor (count_outcomes is_created os) (count_outcomes is_updated os)
                   (Z.of_nat (length (sy_Edges lay))) (failures os) in
      let lay := mkLayout (sy_Site lay) (sy_Instances lay) (sy_Edges lay) (sy_UpdatedAt lay) (sy_UpdatedBy lay) (Some res) in
      match SaveSiteLayout ls lay actor now saved with
      | (ls, Err e) => (st, ls, Err e)
      | (ls, Ok lay) => (st, ls, Ok (lay, res))
      end
  end.

(** ** Which drawings are accepted *)

Record instance_ok (site : string) (i : LayoutInstance) : Prop := mkInstanceOk {
  io_id : li_ID i <> EmptyString; io_path : li_Path i <> EmptyString; io_type : li_Type i <> EmptyString;
  io_vocab : in_vocab typeVocab (li_Type i) = true; io_parses : path_parses (li_Path i) = true;
  io_under : under_site site i = true
}.
Record edge_ok (ids : list string) (e : LayoutEdge) : Prop := mkEdgeOk {
  eo_id : le_ID e <> EmptyString; eo_ends : le_FromID e <> EmptyString /\ le_ToID e <> EmptyString;
  eo_loop : le_FromID e <> le_ToID e; eo_from : le_FromID e ∈ ids; eo_to : le_ToID e ∈ ids;
  eo_relation : in_vocab relationVocab (le_Relation e) = true
}.
Record layout_ok (lay : SiteLayout) : Prop := mkLayoutOk {
  lo_site : validSiteSlug (sy_Site lay) = true;
  lo_instances : Forall (instance_ok (sy_Site lay)) (sy_Instances lay);
  lo_ids : NoDup (map li_ID (sy_Instances lay));
  lo_paths : NoDup (map li_Path (sy_Instances lay));
  lo_edges : Forall (edge_ok (map li_ID (sy_Instances lay))) (sy_Edges lay)
}.

Definition normalized (lay : SiteLayout) : SiteLayout :=
  mkLayout (sanitizeSeg (sy_Site lay)) (map trimmed_instance (sy_Instances lay)) (map trimmed_edge (sy_Edges lay))
    (sy_UpdatedAt lay) (sy_UpdatedBy lay) (sy_LastWriteback lay).

Lemma elem_contains_string xs x : contains_string xs x = true <-> x ∈ xs.
Proof using Type. by rewrite contains_string_In, list_elem_of_In. Qed.

Lemma instance_guard site ids paths i (r : result string (list LayoutInstance * list string)) res :
  (if str_eqb (li_ID i) EmptyString then Err "instance missing id"
   else if contains_string ids (li_ID i) then Err "duplicate instance id"
   else if str_eqb (li_Path i) EmptyString || str_eqb (li_Type i) EmptyString then Err "instance needs path and type"
   else if negb (in_vocab typeVocab (li_Type i)) then Err "type not in protocol types.yaml"
   else if negb (path_parses (li_Path i)) then Err "instance path"
   else if negb (under_site site i) then Err "path must be under site"
   else if contains_string paths (li_Path i) then Err "path used twice" else r) = Ok res <->
  instance_ok site i /\ (li_ID i ∉ ids) /\ (li_Path i ∉ paths) /\ r = Ok res.
Proof using Type.
  rewrite <- !elem_contains_string. split.
  - destruct (str_eqb (li_ID i) EmptyString) eqn:E1; [done|]. destruct (contains_string ids _) eqn:E2; [done|].
    destruct (str_eqb (li_Path i) EmptyString) eqn:E3; [done|]. destruct (str_eqb (li_Type i) EmptyString) eqn:E4; [done|].
    destruct (in_vocab _ _) eqn:E5; [|done]. destruct (path_parses _) eqn:E6; [|done].
    destruct (under_site _ _) eqn:E7; [|done]. destruct (contains_string paths _) eqn:E8; [done|].
    apply str_eqb_neq in E1, E3, E4. cbn. intros H. by split.
  - intros ([H1%str_eqb_neq H2%str_eqb_neq H3%str_eqb_neq H4 H5 H6] & H7%not_true_is_false & H8%not_true_is_false & H).
    by rewrite H1, H2, H3, H4, H5, H6, H7, H8.
Qed.

Lemma edge_guard ids e (r : result string (list LayoutEdge)) res :
  (if str_eqb (le_ID e) EmptyString || str_eqb (le_FromID e) EmptyString || str_eqb (le_ToID e) EmptyString
   then Err "edge incomplete"
   else if str_eqb (le_FromID e) (le_ToID e) then Err "edge self-loop"
   else if negb (contains_string ids (le_FromID e)) then Err "edge from unknown instance"
   else if negb (contains_string ids (le_ToID e)) then Err "edge to unknown instance"
   else if negb (in_vocab relationVocab (le_Relation e)) then Err "bad relation" else r) = Ok res <->
  edge_ok ids e /\ r = Ok res.
Proof using Type.
  split.
  - destruct (str_eqb (le_ID e) EmptyString) eqn:E1; [done|]. destruct (str_eqb (le_FromID e) EmptyString) eqn:E2; [done|].
    destruct (str_eqb (le_ToID e) EmptyString) eqn:E3; [done|]. destruct (str_eqb (le_FromID e) (le_ToID e)) eqn:E4; [done|].
    destruct (contains_string ids (le_FromID e)) eqn:E5; [|done]. destruct (contains_string ids (le_ToID e)) eqn:E6; [|done].
    destruct (in_vocab _ _) eqn:E7; [|done]. apply str_eqb_neq in E1, E2, E3, E4. apply elem_contains_string in E5, E6.
    cbn. intros H. by split.
  - intros ([H1%str_eqb_neq [H2%str_eqb_neq H3%str_eqb_neq] H4%str_eqb_neq H5%elem_contains_string H6%elem_contains_string H7] & H).
    by rewrite H1, H2, H3, H4, H5, H6, H7.
Qed.

Lemma validate_instances_iff site insts : forall ids paths r ids',
  validate_instances site insts ids paths = Ok (r, ids') <->
  r = map trimmed_instance insts /\ ids' = rev (map li_ID r) ++ ids /\ Forall (instance_ok site) r /\
  NoDup (map li_ID r) /\ NoDup (map li_Path r) /\
  (forall x, x ∈ map li_ID r -> x ∉ ids) /\ (forall x, x ∈ map li_Path r -> x ∉ paths).
Proof using Type.
  induction insts as [|i insts IH]; intros ids paths r ids'; cbn [validate_instances map].
  - split; [intros [= <- <-]%Ok_inj|].
    + split; [done|]. split; [done|]. split; [constructor|]. split; [constructor|]. split; [constructor|].
      by split; intros x []%elem_of_nil.
    + by intros (-> & -> & _).
  - rewrite instance_guard. set (j := trimmed_instance i). split.
    + intros (Hok & Hid & Hpath & ([r1 ids1] & H & E%Ok_inj)%bind_Ok). cbn [fst snd] in E. injection E as <- <-.
      apply IH in H as (-> & -> & Hf & Hn1 & Hn2 & Hd1 & Hd2).
      split; [done|]. split; [cbn; by rewrite <- app_assoc|]. split; [by constructor|]. cbn [map].
      split; [constructor; [|done]; intros Hin%Hd1; apply Hin; by left|].
      split; [constructor; [|done]; intros Hin%Hd2; apply Hin; by left|]. split.
      * intros x [->|Hx%Hd1]%elem_of_cons; [done|]. intros Hx'. apply Hx. by right.
      * intros x [->|Hx%Hd2]%elem_of_cons; [done|]. intros Hx'. apply Hx. by right.
    + intros (-> & -> & [Hok Hf]%Forall_cons & [Hx1 Hn1]%NoDup_cons & [Hx2 Hn2]%NoDup_cons & Hd1 & Hd2).
      split; [done|]. split; [apply Hd1; by left|]. split; [apply Hd2; by left|]. apply bind_Ok.
      exists (map trimmed_instance insts, rev (map li_ID (map trimmed_instance insts)) ++ li_ID j :: ids).
      split; [|cbn; by rewrite <- app_assoc]. apply IH. split; [done|]. split; [done|]. split; [done|]. split; [done|].
      split; [done|]. split; intros x Hx [->|Hin]%elem_of_cons; try done; [by apply (Hd1 x); [right|]|by apply (Hd2 x); [right|]].
Qed.

Lemma validate_edges_iff ids edges r : validate_edges ids edges = Ok r <->
  r = map trimmed_edge edges /\ Forall (edge_ok ids) r.
Proof using Type.
  revert r. induction edges as [|e edges IH]; intros r; cbn [validate_edges map].
  - split; [intros <-%Ok_inj; by split|by intros [-> _]].
  - rewrite edge_guard. split.
    + intros [Hok (r1 & [-> Hf]%IH & <-%Ok_inj)%bind_Ok]. split; [done|by constructor].
    + intros [-> [Hok Hf]%Forall_cons]. split; [done|]. apply bind_Ok. exists (map trimmed_edge edges). split; [by apply IH|done].
Qed.

Lemma normalize_iff lay lay' : normalizeValidateLayout lay = Ok lay' <-> lay' = normalized lay /\ layout_ok lay'.
Proof using Type.
  unfold normalizeValidateLayout. set (site := sanitizeSeg (sy_Site lay)). split.
  - destruct (str_eqb site EmptyString || negb (validSiteSlug site)) eqn:Es; [done|].
    apply orb_false_iff in Es as [_ Es%negb_false_iff]. intros ([r ids] & H & H')%bind_Ok.
    apply bind_Ok in H' as (es & He & <-%Ok_inj). cbn [fst snd] in *.
    apply validate_instances_iff in H as (-> & -> & Hf & Hn1 & Hn2 & _). apply validate_edges_iff in He as [-> He].
    split; [done|]. split; cbn; try done. rewrite app_nil_r in He. eapply Forall_impl; [exact He|].
    intros e [H1 H2 H3 H4 H5 H6]. rewrite list_elem_of_In, <- in_rev, <- list_elem_of_In in H4, H5. by split.
  - intros [-> [Hs Hf Hn1 Hn2 He]]. cbn in Hs, Hf, Hn1, Hn2, He.
    assert (str_eqb site EmptyString = false) as Hne.
    { apply str_eqb_neq. intros E. fold site in Hs. by rewrite E in Hs. }
    fold site in Hs. rewrite Hne, Hs. cbn [orb negb]. apply bind_Ok.
    exists (map trimmed_instance (sy_Instances lay), rev (map li_ID (map trimmed_instance (sy_Instances lay)))). split.
    + apply validate_instances_iff. split; [done|]. split; [by rewrite app_nil_r|]. split; [done|]. split; [done|].
      split; [done|]. by split; intros x _ []%elem_of_nil.
    + apply bind_Ok. exists (map trimmed_edge (sy_Edges lay)). split; [|done]. apply validate_edges_iff. split; [done|].
      eapply Forall_impl; [exact He|]. intros e [H1 H2 H3 H4 H5 H6]. cbn [snd].
      split; try done; by rewrite list_elem_of_In, <- in_rev, <- list_elem_of_In.
Qed.

(** ** What a write-back leaves *)

(** The row of a path as it would be marshalled. *)
Definition shown (st : cmdb) (p : string) : option asset_view := view_of (cm_heap st) <$> cm_rows st !! p.

(** The maps that are allocated are new, and no two are the same. *)
Record fresh_env (st : cmdb) (insts : list LayoutInstance) (env : LayoutInstance -> wenv) : Prop := mkFresh {
  fe_new : forall i p a, i ∈ insts -> cm_rows st !! p = Some a -> as_Spec a <> Some (we_loc (env i));
  fe_apart : NoDup (map (fun i => we_loc (env i)) insts)
}.
Definition rows_keyed (st : cmdb) : Prop := forall p a, cm_rows st !! p = Some a -> as_Path a = p.

Definition written (lay : SiteLayout) (env : LayoutInstance -> wenv) (i : LayoutInstance) : bool :=
  placeable lay i && we_saved (env i).

(** The row of an instance after it was written. *)
Definition drawn (lay : SiteLayout) (i : LayoutInstance) (e : wenv) (old : option asset_view) : asset_view :=
  let sp := Some (merged_spec (av_Spec <$> old) lay i) in
  match old with
  | Some v => mkView (li_Path i) (av_Version v + 1) sp (av_CreatedAt v) (we_now e)
  | None => mkView (li_Path i) 1 sp (we_now e) (we_now e)
  end.

Definition outcome_of (lay : SiteLayout) (env : LayoutInstance -> wenv) (st : cmdb) (i : LayoutInstance) (o : outcome) : Prop :=
  if written lay env i
  then o = (if bool_decide (is_Some (cm_rows st !! li_Path i)) then Updated else Created)
  else exists title, o = Failed title.

Lemma view_other st l sp a : as_Spec a <> Some l -> view_of (<[l := sp]> (cm_heap st)) a = view_of (cm_heap st) a.
Proof using Type.
  intros H. unfold view_of, deref. destruct (as_Spec a) as [k|]; [|done]. by rewrite lookup_insert_ne by congruence.
Qed.

Definition put_row (st : cmdb) (a : Asset) (now : time) : Asset :=
  match cm_rows st !! as_Path a with
  | Some cur => mkAsset (as_Path cur) (as_Version cur + 1) (as_Spec a) (as_CreatedAt cur) now
  | None => mkAsset (as_Path a) 1 (as_Spec a) now now
  end.

(** A put without a version stores the row or, when the save fails, nothing. *)
Lemma put_blind st a now saved st' r : PutAsset st a 0 now saved = (st', r) ->
  cm_heap st' = cm_heap st /\ is_ok r = saved /\
  cm_rows st' = (if saved then <[as_Path a := put_row st a now]> (cm_rows st) else cm_rows st).
Proof using Type.
  unfold PutAsset, put_row. change (0 <? 0)%Z with false. cbn [andb].
  destruct (cm_rows st !! as_Path a) as [cur|] eqn:E; destruct saved; intros [= <- <-];
    (split; [done|split; [done|]]); cbn; [done| |done|].
  - rewrite insert_insert_eq. by apply insert_id.
  - rewrite delete_insert_eq. by apply delete_id.
Qed.

Lemma writeback_one_rows st lay i env st' o : writeback_one st lay i (env i) = (st', o) ->
  let sp := merged_spec (av_Spec <$> shown st (li_Path i)) lay i in
  let st1 := with_heap st (<[we_loc (env i) := sp]> (cm_heap st)) in
  if written lay env i then
    cm_heap st' = cm_heap st1 /\
    cm_rows st' = <[li_Path i := put_row st (mkAsset (li_Path i) 0 (Some (we_loc (env i))) zero_time zero_time)
                                   (we_now (env i))]> (cm_rows st) /\
    o = (if bool_decide (is_Some (cm_rows st !! li_Path i)) then Updated else Created)
  else (cm_heap st' = cm_heap st1 \/ cm_heap st' = cm_heap st) /\ cm_rows st' = cm_rows st /\ exists t, o = Failed t.
Proof using Type.
  unfold writeback_one, written. intros H. cbn zeta.
  destruct (placeable lay i); cbn [negb andb] in *; [|injection H as <- <-; split; [by right|split; [done|by eexists]]].
  assert (E : (fun a => deref (cm_heap st) (as_Spec a)) <$> cm_rows st !! li_Path i = av_Spec <$> shown st (li_Path i)).
  { unfold shown. by destruct (cm_rows st !! li_Path i). }
  rewrite E in H. clear E. destruct (PutAsset _ _ _ _ _) as [st2 r] eqn:Ep. apply put_blind in Ep as (Hh & Hr & Hrows).
  destruct (we_saved (env i)); destruct r as [a|e]; try discriminate Hr; injection H as <- <-.
  - by split.
  - split; [by left|]. split; [done|by eexists].
Qed.

Lemma put_row_path st l i now : rows_keyed st ->
  as_Path (put_row st (mkAsset (li_Path i) 0 l zero_time zero_time) now) = li_Path i.
Proof using Type. intros Hk. unfold put_row. cbn. destruct (cm_rows st !! li_Path i) eqn:E; cbn; [by eapply Hk|done]. Qed.

Lemma writeback_one_spec st lay i insts env st' o : rows_keyed st -> fresh_env st (i :: insts) env ->
  writeback_one st lay i (env i) = (st', o) ->
  (forall p, shown st' p = if decide (p = li_Path i /\ written lay env i = true)
                           then Some (drawn lay i (env i) (shown st p)) else shown st p) /\
  outcome_of lay env st i o /\ rows_keyed st' /\ fresh_env st' insts env.
Proof using Type.
  intros Hk [Hnew Hap] H. apply writeback_one_rows in H. cbn zeta in H. unfold outcome_of.
  assert (Hold : forall p a sp, cm_rows st !! p = Some a ->
    view_of (<[we_loc (env i) := sp]> (cm_heap st)) a = view_of (cm_heap st) a).
  { intros p a sp Ha. apply view_other. apply (Hnew i p a); [by left|done]. }
  cbn [map] in Hap. apply NoDup_cons in Hap as [Hhd Hap]. destruct (written lay env i) eqn:Hw.
  - destruct H as (Hh & Hr & ->). cbn in Hh. split; [|split; [done|split]].
    + intros p. unfold shown at 1. rewrite Hr, Hh. destruct (decide _) as [[-> _]|Hne].
      * rewrite lookup_insert_eq. cbn [fmap option_fmap option_map]. unfold put_row, drawn, view_of. cbn [as_Path as_Spec].
        unfold shown. destruct (cm_rows st !! li_Path i) as [cur|] eqn:Ec; cbn; rewrite lookup_insert_eq; [|done].
        by rewrite (Hk _ _ Ec).
      * rewrite lookup_insert_ne by naive_solver. unfold shown. destruct (cm_rows st !! p) as [a|] eqn:Ea; [|done].
        cbn. by rewrite (Hold p a).
    + intros p a. rewrite Hr. intros [[<- <-]|[_ Ha]]%lookup_insert_Some; [by apply put_row_path|by apply Hk].
    + split; [|done]. intros j p a Hj. rewrite Hr. intros [[<- <-]|[_ Ha]]%lookup_insert_Some.
      * unfold put_row. destruct (cm_rows st !! _); cbn; intros [= E]; apply Hhd; rewrite E;
          by apply (list_elem_of_fmap_2 (fun i => we_loc (env i))).
      * apply (Hnew j p a); [by right|done].
  - destruct H as (Hh & Hr & Ho). split; [|split; [done|split]].
    + intros p. destruct (decide _) as [[_ Hf]|_]; [done|]. unfold shown. rewrite Hr.
      destruct (cm_rows st !! p) as [a|] eqn:Ea; [|done]. cbn. destruct Hh as [-> | ->]; [|done]. cbn. by rewrite (Hold p a).
    + intros p a. rewrite Hr. apply Hk.
    + split; [|done]. intros j p a Hj. rewrite Hr. intros Ha. apply (Hnew j p a); [by right|done].
Qed.

Lemma drawn_found lay env st st' i p : (forall q, shown st' q = if decide (q = li_Path i /\ written lay env i = true)
                           then Some (drawn lay i (env i) (shown st q)) else shown st q) ->
  p <> li_Path i -> shown st' p = shown st p.
Proof using Type. intros H Hne. rewrite H. by destruct (decide _) as [[E _]|]. Qed.

Lemma shown_row st p : is_Some (shown st p) <-> is_Some (cm_rows st !! p).
Proof using Type. unfold shown. by rewrite fmap_is_Some. Qed.

(** The loop: every instance is written on its own. *)
Lemma writeback_loop_spec lay env insts : NoDup (map li_Path insts) -> forall st st' os,
  rows_keyed st -> fresh_env st insts env -> writeback_loop st lay insts env = (st', os) ->
  (forall p, p ∉ map li_Path insts -> shown st' p = shown st p) /\
  (forall i, i ∈ insts -> shown st' (li_Path i) =
     if written lay env i then Some (drawn lay i (env i) (shown st (li_Path i))) else shown st (li_Path i)) /\
  Forall2 (outcome_of lay env st) insts os.
Proof using Type.
  induction insts as [|i insts IH]; intros Hn st st' os Hk Hf H; cbn [writeback_loop map] in *.
  - injection H as <- <-. split; [done|]. split; [by intros i []%elem_of_nil|constructor].
  - apply NoDup_cons in Hn as [Hi Hn]. destruct (writeback_one st lay i (env i)) as [st1 o] eqn:E1.
    destruct (writeback_loop st1 lay insts env) as [st2 os2] eqn:E2. injection H as <- <-.
    destruct (writeback_one_spec _ _ _ _ _ _ _ Hk Hf E1) as (Hs & Ho & Hk1 & Hf1).
    destruct (IH Hn _ _ _ Hk1 Hf1 E2) as (Hoth & Hin & Hos).
    assert (Hother : forall j, j ∈ insts -> li_Path j <> li_Path i).
    { intros j Hj E. apply Hi. rewrite <- E. by apply list_elem_of_fmap_2. }
    split; [|split].
    + intros p [Hp Hp']%not_elem_of_cons. rewrite Hoth by done. by eapply drawn_found.
    + intros j [->|Hj]%elem_of_cons.
      * rewrite Hoth, Hs by done. destruct (written lay env i); destruct (decide _) as [[? ?]|Hd]; try done. by destruct Hd.
      * rewrite (Hin j Hj), (drawn_found lay env st st1 i) by (done || by apply Hother). done.
    + constructor; [done|]. apply Forall2_same_length_lookup_2; [by apply Forall2_length in Hos|].
      intros k j oj Hj Hoj. pose proof (Forall2_lookup_lr _ _ _ _ _ _ Hos Hj Hoj) as H. unfold outcome_of in *.
      destruct (written lay env j); [|done]. rewrite H.
      assert (Hiff : is_Some (cm_rows st1 !! li_Path j) <-> is_Some (cm_rows st !! li_Path j)).
      { rewrite <- !shown_row. rewrite (drawn_found lay env st st1 i); [done|done|].
        apply Hother. by eapply list_elem_of_lookup_2. }
      by rewrite (bool_decide_ext _ _ Hiff).
Qed.
(** What a write-back does not touch in the spec of an asset that exists. *)
Definition curated (key : string) (sp : spec) : Prop :=
  key <> "layout" /\ key <> "layout_edges" /\ key <> "model" /\ key <> "pack_type" /\
  (key = "type" -> exists v, sp !! "type" = Some v /\ v <> JString EmptyString).

Lemma set_if_other c k key v sp : key <> k -> set_if c k v sp !! key = sp !! key.
Proof using Type. intros H. destruct c; [|done]. by apply lookup_insert_ne. Qed.

Lemma set_if_false k v sp : set_if false k v sp = sp.
Proof using Type. done. Qed.

Lemma merged_curated sp lay i key : curated key sp -> merged_spec (Some (Some sp)) lay i !! key = sp !! key.
Proof using Type.
  intros (H1 & H2 & H3 & H4 & H5). unfold merged_spec. rewrite bool_decide_eq_true_2 by (by eexists). cbn [negb andb].
  set (sp1 := set_if _ "type" _ sp). assert (E1 : sp1 !! key = sp !! key).
  { unfold sp1. destruct (decide (key = "type")) as [->|Hne]; [|by apply set_if_other].
    destruct (H5 eq_refl) as (v & Et & Hv). rewrite Et. unfold set_if. destruct v as [t|raw]; [|by rewrite Et].
    by rewrite (proj2 (str_eqb_neq t EmptyString)) by (intros ->; by destruct Hv). }
  rewrite !set_if_false.
  destruct (outgoing lay i); [rewrite lookup_delete_ne by congruence|rewrite lookup_insert_ne by congruence];
    rewrite !set_if_other by done; rewrite lookup_insert_ne by congruence; exact E1.
Qed.

Lemma merged_drawn old lay i : merged_spec old lay i !! "layout" = Some (layout_value i) /\
  merged_spec old lay i !! "layout_edges" =
    match outgoing lay i with [] => None | outs => Some (edges_value outs) end.
Proof using Type.
  unfold merged_spec. split; destruct (outgoing lay i); rewrite ?lookup_delete_eq, ?lookup_insert_eq; try done;
    rewrite ?lookup_delete_ne, ?lookup_insert_ne by done; rewrite !set_if_other by done; by rewrite lookup_insert_eq.
Qed.

Lemma outcomes_add os : (count_outcomes is_created os + count_outcomes is_updated os + Z.of_nat (length (failures os)) =
  Z.of_nat (length os))%Z.
Proof using Type.
  unfold count_outcomes, failures. induction os as [|o os IH]; [done|]. destruct o; cbn [List.filter is_created is_updated omap list_omap length]; cbn in IH |- *; lia.
Qed.

Lemma failures_unwritten lay env st insts os : Forall2 (outcome_of lay env st) insts os ->
  length (failures os) = length (List.filter (fun i => negb (written lay env i)) insts).
Proof using Type.
  induction 1 as [|i o insts os Ho _ IH]; [done|]. unfold outcome_of in Ho. cbn [List.filter].
  destruct (written lay env i); cbn [negb].
  - destruct (bool_decide _); subst o; exact IH.
  - destruct Ho as [t ->]. cbn. by rewrite <- IH.
Qed.

Lemma SaveSiteLayout_inv ls lay actor now saved ls' r : SaveSiteLayout ls lay actor now saved = (ls', r) ->
  match r with
  | Ok lay' => ls' = <[sy_Site lay' := lay']> ls /\ layout_ok lay' /\ sy_LastWriteback lay' = sy_LastWriteback lay
  | Err _ => ls' = ls
  end.
Proof using Type.
  unfold SaveSiteLayout. pose proof (normalize_iff lay) as Hiff.
  destruct (normalizeValidateLayout lay) as [lay1|e]; [|by intros [= <- <-]].
  destruct (proj1 (Hiff lay1) eq_refl) as [-> Hok]. destruct saved; intros [= <- <-]; [|done].
  split; [done|]. split; [|done]. by destruct Hok.
Qed.

End validation.

(** ** Handlers *)

Section handlers.
Context (lower_rune : N -> N) (dict : option Dict).

Definition actor_of (auth : option Principal) : string := match auth with Some p => p_Subject p | None => EmptyString end.
Definition at_site (lay : SiteLayout) (site : string) : SiteLayout :=
  mkLayout site (sy_Instances lay) (sy_Edges lay) (sy_UpdatedAt lay) (sy_UpdatedBy lay) (sy_LastWriteback lay).

(** Where a request under /v1/site-layouts/ goes; [rest] is what follows the prefix. *)
Inductive layout_route : Type :=
  LGet (site : string) | LPut (site : string) | LWriteback (site : string) | LRebuild (site : string) | LSceneJob (site : string).

Definition serveSiteLayout (method rest : string) : result problem layout_route :=
  let only verb route := if str_eqb method verb then Ok route else Err method_not_allowed in
  if str_eqb rest EmptyString then Err (bad_request "missing site")
  else if has_suffix rest ":writeback" then only "POST" (LWriteback (trim_suffix rest ":writeback"))
  else if has_suffix rest ":rebuild-scene" then only "POST" (LRebuild (trim_suffix rest ":rebuild-scene"))
  else if has_suffix rest "/scene-job" then only "GET" (LSceneJob (trim_suffix (trim_suffix rest "/scene-job") "/"))
  else
    let site := sanitizeSeg rest in
    if str_eqb site EmptyString then Err (bad_request "bad site")
    else if str_eqb method "GET" then Ok (LGet site)
    else only "PUT" (LPut site).

Definition serveSiteLayoutGet (ls : layouts) (auth : option Principal) (site : string) : result problem SiteLayout :=
  if negb (requireOrgAdmin auth) then Err not_admin
  else match LoadSiteLayout ls site with Ok lay => Ok lay | Err _ => Err (bad_request "load layout") end.

(** [body] is [None] when reading or decoding it failed. *)
Definition serveSiteLayoutPut (ls : layouts) (auth : option Principal) (site : string) (body : option SiteLayout)
    (now : time) (saved : bool) : layouts * result problem SiteLayout :=
  if negb (requireOrgAdmin auth) then (ls, Err not_admin)
  else match body with
  | None => (ls, Err (bad_request "bad json"))
  | Some lay =>
      match SaveSiteLayout lower_rune dict ls (at_site lay site) (actor_of auth) now saved with
      | (ls, Ok lay) => (ls, Ok lay)
      | (ls, Err _) => (ls, Err (bad_request "save layout"))
      end
  end.

(** The body of a write-back is empty, malformed, or a drawing to store first. *)
Inductive writeback_body : Type := NoOverride | BadOverride | Override (lay : SiteLayout).

Definition serveSiteLayoutWriteback (st : cmdb) (ls : layouts) (auth : option Principal) (site : string)
    (body : writeback_body) (now : time) (env : LayoutInstance -> wenv) (saved1 saved2 : bool) :
    cmdb * layouts * result problem (SiteLayout * LayoutWritebackResult) :=
  if negb (requireOrgAdmin auth) then (st, ls, Err not_admin)
  else
    let site := sanitizeSeg site in
    match LoadSiteLayout ls site with
    | Err _ => (st, ls, Err (bad_request "load layout"))
    | Ok lay =>
        let '(ls, r) := match body with
          | NoOverride => (ls, Ok lay)
          | BadOverride => (ls, Err (bad_request "bad writeback body"))
          | Override lay =>
              match SaveSiteLayout lower_rune dict ls (at_site lay site) (actor_of auth) now saved1 with
              | (ls, Ok lay) => (ls, Ok lay)
              | (ls, Err _) => (ls, Err (bad_request "save layout override"))
              end
          end in
        match r with
        | Err e => (st, ls, Err e)
        | Ok lay =>
            match WritebackSiteLayout lower_rune dict st ls lay (actor_of auth) now env saved2 with
            | (st, ls, Ok x) => (st, ls, Ok x)
            | (st, ls, Err _) => (st, ls, Err (bad_request "writeback failed"))
            end
        end
    end.

(** Only an administrator changes a drawing, and only the one of the site that is
    named. *)
Lemma put_of_admin ls auth site body now saved ls' r : serveSiteLayoutPut ls auth site body now saved = (ls', r) ->
  (ls' = ls /\ is_ok r = false) \/
  (requireOrgAdmin auth = true /\ exists lay, r = Ok lay /\ ls' = <[sy_Site lay := lay]> ls /\ layout_ok lower_rune dict lay /\
     sy_UpdatedBy lay = actor_of auth).
Proof.
  unfold serveSiteLayoutPut.
  destruct (requireOrgAdmin auth); [|intros [= <- <-]; by left]. cbn [negb].
  destruct body as [lay|]; [|intros [= <- <-]; by left].
  destruct (SaveSiteLayout _ _ _ _ _ _ _) as [ls1 r1] eqn:E. pose proof E as E'. apply SaveSiteLayout_inv in E.
  destruct r1 as [lay1|e]; intros [= <- <-]; [|subst; by left]. right. split; [done|]. exists lay1.
  destruct E as (H1 & H2 & _). split; [done|]. split; [done|]. split; [done|].
  unfold SaveSiteLayout in E'. destruct (normalizeValidateLayout _ _ _); [|done]. destruct saved; [|done].
  injection E' as <- <-. done.
Qed.

Lemma writeback_of_admin st ls auth site body now env saved1 saved2 :
  requireOrgAdmin auth = false ->
  serveSiteLayoutWriteback st ls auth site body now env saved1 saved2 = (st, ls, Err not_admin).
Proof. intros H. unfold serveSiteLayoutWriteback. by rewrite H. Qed.
End handlers.

(** ** A free path for a new instance *)

Definition next_path (site typ : string) (n : nat) : string := site +:+ "." +:+ typ +:+ pad 3 (Z.of_nat n).

(** [%s.%s%03d] over 0, 1, ..., 999; then the number of instances, free or not. *)
Definition NextLayoutPath (lower_rune : N -> N) (lay : SiteLayout) (typ : string) : string :=
  let typ := ToLower lower_rune (TrimSpace typ) in
  match List.find (fun n => negb (contains_string (map li_Path (sy_Instances lay)) (next_path (sy_Site lay) typ n))) (seq 0 1000) with
  | Some n => next_path (sy_Site lay) typ n
  | None => next_path (sy_Site lay) typ (length (sy_Instances lay))
  end.

Lemma pad3_inj n m : n < 1000 -> m < 1000 -> pad 3 (Z.of_nat n) = pad 3 (Z.of_nat m) -> n = m.
Proof.
  intros Hn Hm. unfold pad. change (10 ^ Z.of_nat 3)%Z with 1000%Z.
  rewrite !(proj2 (Z.leb_le 0 _)), !(proj2 (Z.ltb_lt _ 1000)) by lia. cbn [andb]. intros E.
  destruct (digits_digits 3 (Z.of_nat n) ltac:(change (10 ^ Z.of_nat 3)%Z with 1000%Z; lia)) as (_ & _ & Hv1).
  destruct (digits_digits 3 (Z.of_nat m) ltac:(change (10 ^ Z.of_nat 3)%Z with 1000%Z; lia)) as (_ & _ & Hv2).
  specialize (Hv1 0%N). specialize (Hv2 0%N). rewrite E in Hv1. lia.
Qed.

Lemma next_path_inj site typ n m : n < 1000 -> m < 1000 -> next_path site typ n = next_path site typ m -> n = m.
Proof. unfold next_path. intros Hn Hm H%(inj (String.append _))%(inj (String.append _))%(inj (String.append _)). by apply pad3_inj. Qed.

(** Below a thousand instances the path that is offered is free. *)
Lemma NextLayoutPath_free lower_rune lay typ : length (sy_Instances lay) < 1000 ->
  NextLayoutPath lower_rune lay typ ∉ map li_Path (sy_Instances lay).
Proof.
  intros Hlen. unfold NextLayoutPath. set (t := ToLower _ _). set (used := map li_Path (sy_Instances lay)).
  destruct (List.find _ _) as [n|] eqn:E.
  - apply find_some in E as [_ E%negb_true_iff]. intros H%elem_contains_string. by rewrite E in H.
  - exfalso. pose proof (find_none _ _ E) as Hall.
    assert (Hin : incl (map (next_path (sy_Site lay) t) (seq 0 1000)) used).
    { intros x (n & <- & Hn)%in_map_iff. specialize (Hall n Hn). apply negb_false_iff in Hall.
      by apply contains_string_In in Hall. }
    apply NoDup_incl_length in Hin; [|].
    + unfold used in Hin. rewrite !length_map, length_seq in Hin. lia.
    + apply NoDup_map_NoDup_ForallPairs; [|apply seq_NoDup]. intros n m Hn%in_seq Hm%in_seq. apply next_path_inj; lia.
Qed.

(** ** A drawing that is written back *)

Definition demo_layout : SiteLayout :=
  mkLayout "sgp01" [mkInstance "i1" " sgp01.pod000" "POD" "DC45" EmptyString "99" "11" "15";
                    mkInstance "i2" "sgp01.pod000.cdu000" "cdu" EmptyString EmptyString "40" "20" "0"]
    [mkEdge "e1" "i1" "i2" "feeds"] zero_time EmptyString None.
Definition demo_row : Asset := mkAsset "sgp01.pod000" 3 (Some 1%positive) unix_epoch unix_epoch.
Definition demo_rows : cmdb :=
  mkCmdb {["sgp01.pod000" := demo_row]}
    {[1%positive := <["serial" := JString "KEEP-ME"]> {["type" := JString "pod"]}]} ∅ [] ∅.
Definition demo_wenv (i : LayoutInstance) : wenv :=
  mkWenv (if str_eqb (li_ID i) "i1" then 2 else 3)%positive unix_epoch (str_eqb (li_ID i) "i1").

Lemma demo_rows_keyed : rows_keyed demo_rows.
Proof. unfold rows_keyed, demo_rows. cbn [cm_rows]. by intros p a [<- <-]%lookup_singleton_Some. Qed.
Lemma demo_fresh : fresh_env demo_rows (sy_Instances (normalized id demo_layout)) demo_wenv.
Proof.
  split; [|by apply (bool_decide_unpack _)].
  unfold demo_rows. cbn [cm_rows]. intros i p a _ [_ <-]%lookup_singleton_Some. cbn. by destruct (str_eqb _ _).
Qed.

Lemma demo_shown : shown demo_rows "sgp01.pod000" =
  Some (mkView "sgp01.pod000" 3 (Some (<["serial" := JString "KEEP-ME"]> {["type" := JString "pod"]})) unix_epoch unix_epoch).
Proof. by vm_compute. Qed.

Definition demo_run : cmdb * layouts * result string (SiteLayout * LayoutWritebackResult) :=
  WritebackSiteLayout id (Some demo_dict) demo_rows ∅ demo_layout "svc:admin" unix_epoch demo_wenv true.

Lemma demo_run_counts :
  match demo_run.2 with Ok (_, res) => Some (wb_Created res, wb_Updated res) | Err _ => None end = Some (0, 1)%Z.
Proof. by vm_compute. Qed.


(** The type of an instance is not compared with its address: the asset that a
    write-back makes of it is one that a put would refuse. *)
Example type_mismatch_written :
  let lay := mkLayout "sgp01" [mkInstance "i1" "sgp01.pod000" "gpu" EmptyString EmptyString "0" "0" "0"] [] zero_time EmptyString None in
  let '(st, _, r) := WritebackSiteLayout id (Some demo_dict) (mkCmdb ∅ ∅ ∅ [] ∅) ∅ lay "svc:admin" unix_epoch
                       (fun _ => mkWenv 1 unix_epoch true) true in
  is_ok r = true /\ (shown st "sgp01.pod000" ≫= av_Spec) ≫= (fun sp => sp !! "type") = Some (JString "gpu").
Proof. vm_compute. done. Qed.
