(* ===== verification/Reconcile.v ===== *)
(** * Reconciliation (core/reconcile.go, the window grammar of core/vmquery.go)

    Registered assets against the series of the time-series database: the
    classification, the report with its orphans, and the scanner that opens a
    ticket for an asset that has gone silent.  The database is a function from
    the text of a query to its decoded answer. *)
From Stdlib Require Import SpecFloat.
From S2P Require Import Prelude Float64 GoTime CPath RBAC Http PromProj Tickets TicketScan Cursor Schedule Registry Pages Assets Usage.
Open Scope string_scope.
Open Scope list_scope.

(** ** The window: one number and one unit *)

Definition defaultReconcileWindow : string := "7d".
Definition maxCapacityWindowDays : Z := 90.

Fixpoint split_last (s : string) : option (string * ascii) :=
  match s with
  | EmptyString => None
  | String c EmptyString => Some (EmptyString, c)
  | String c r => (fun '(a, l) => (String c a, l)) <$> split_last r
  end.

Definition validCapacityWindow (s : string) : bool :=
  if (String.length s <? 2)%nat || (5 <? String.length s)%nat then false
  else match split_last s with
  | None => false
  | Some (num, unit) =>
      if negb (existsb (byte_eqb unit) ["d"; "h"; "m"; "s"]%char) then false
      else match Atoi num with
      | None => false
      | Some n =>
          if (n <=? 0)%Z then false
          else negb (byte_eqb unit "d" && (maxCapacityWindowDays <? n)%Z)
      end
  end.

(** ** The answers of the database *)

(** A row of a vector; [None] in the list is a row that does not decode. *)
Record vm_series : Type := mkSeries { vs_metric : gmap string string; vs_value : list jvalue }.
Record vm_response : Type := mkResponse { vr_Status : string; vr_Result : list (option vm_series) }.

(** [None]: unreachable, or a body that does not decode. *)
Abbreviation vm_db := (string -> option vm_response).

(** [regexp.QuoteMeta] *)
Definition meta_byte (c : ascii) : bool :=
  byte_eqb c BS ||
  existsb (byte_eqb c) ["."; "+"; "*"; "?"; "("; ")"; "|"; "["; "]"; "{"; "}"; "^"; "$"]%char.
Fixpoint QuoteMeta (s : string) : string :=
  match s with
  | EmptyString => EmptyString
  | String c r => if meta_byte c then String BS (String c (QuoteMeta r)) else String c (QuoteMeta r)
  end.

Fixpoint join_with (sep : string) (parts : list string) : string :=
  match parts with [] => EmptyString | [p] => p | p :: rest => p +:+ sep +:+ join_with sep rest end.

Definition presence_query (paths : list string) (window : string) : string :=
  "count_over_time(cios_metric{asset_path=~" +:+ String DQ ("^(" +:+ join_with "|" (map QuoteMeta paths) +:+ ")$" +:+
    String DQ ("}[" +:+ window +:+ "]) > 0 by (asset_path)")).

(** [strconv.ParseFloat]: the special values in any case, else a decimal. *)
Definition lower_byte (c : ascii) : ascii := if is_upper c then byte_of (code c + 32) else c.
Fixpoint lower (s : string) : string :=
  match s with EmptyString => EmptyString | String c r => String (lower_byte c) (lower r) end.
Definition parse_value (s : string) : option float64 :=
  let '(neg, body) := match s with
                      | String c r => if byte_eqb c "-" then (true, r) else if byte_eqb c "+" then (false, r) else (false, s)
                      | EmptyString => (false, s)
                      end in
  if contains_string ["inf"; "infinity"] (lower body) then Some (S754_infinity neg)
  else if str_eqb (lower s) "nan" then Some S754_nan
  else match ParseFloat s with Ok x => Some x | Err _ => None end.

(** What a row says: the path and whether it is present. *)
Definition row_verdict (row : option vm_series) : option (string * bool) :=
  match row with
  | None => None
  | Some s =>
      let p := default EmptyString (vs_metric s !! "asset_path") in
      if str_eqb p EmptyString then None
      else match vs_value s with
      | _ :: v :: _ =>
          match parse_value (match v with JString t => t | JOther _ => EmptyString end) with
          | None => None
          | Some x => if fgeb x f1 then Some (p, true) else if fleb x f0 then Some (p, false) else None
          end
      | _ => None
      end
  end.

Definition apply_row (out : gmap string bool) (row : option vm_series) : gmap string bool :=
  match row_verdict row with Some (p, b) => <[p := b]> out | None => out end.

(** The presence of the paths, and whether the answer is unusable. *)
Definition assetHasTelemetryBatch (vm : vm_db) (paths : list string) (window : string) : gmap string bool * bool :=
  let out := foldl (fun out p => <[p := false]> out) ∅ paths in
  match paths with
  | [] => (out, false)
  | _ =>
      match vm (presence_query paths window) with
      | None => (∅, true)
      | Some r =>
          if negb (str_eqb (vr_Status r) "success") then (∅, true)
          else (foldl apply_row out (vr_Result r), false)
      end
  end.

(** The query for one path: whether it is present, and whether that is unknown. *)
Definition single_query (path window : string) : string :=
  "count_over_time(cios_metric{asset_path=" +:+ String DQ (escapeLabelValue path +:+ String DQ ("}[" +:+ window +:+
    "]) > 0")).
Definition assetHasTelemetry (vm : vm_db) (path window : string) : bool * bool :=
  match vm (single_query path window) with
  | None => (false, true)
  | Some r =>
      if negb (str_eqb (vr_Status r) "success") then (false, true)
      else match vr_Result r with
      | [] => (false, false)
      | None :: _ => (false, true)
      | Some s :: _ =>
          match vs_value s with
          | _ :: v :: _ =>
              match parse_value (match v with JString t => t | JOther _ => EmptyString end) with
              | None => (false, true)
              | Some x => if fgeb x f1 then (true, false) else if fleb x f0 then (false, false) else (false, true)
              end
          | _ => (false, true)
          end
      end
  end.

Definition fetchVMAssetPaths (vm : vm_db) : list string * bool :=
  match vm "label_values(cios_metric, asset_path)" with
  | None => ([], true)
  | Some r =>
      if negb (str_eqb (vr_Status r) "success") then ([], true)
      else (omap (fun row => match row with
                             | Some s => let p := default EmptyString (vs_metric s !! "asset_path") in
                                         if str_eqb p EmptyString then None else Some p
                             | None => None
                             end) (vr_Result r), false)
  end.

(** ** The report *)

Record reconcileEntry : Type := mkEntry {
  en_Path : string; en_Lifecycle : string; en_State : string; en_Present : bool; en_Unknown : bool
}.
Record reconcileResponse : Type := mkReconcile {
  rc_Window : string; rc_Degraded : bool; rc_Restricted : bool; rc_Entries : list reconcileEntry;
  rc_Orphans : list string
}.

Definition in_service (a : asset_view) : bool :=
  let lc := spec_string (av_Spec a) "lifecycle" in str_eqb lc "active" || str_eqb lc "maintenance".

Definition classify (presentMap : gmap string bool) (vmDegraded : bool) (a : asset_view) : reconcileEntry :=
  let lc := spec_string (av_Spec a) "lifecycle" in
  if vmDegraded then mkEntry (av_Path a) lc EmptyString false true
  else
    let present := default false (presentMap !! av_Path a) in
    mkEntry (av_Path a) lc (if present then "ok" else "registered_no_telemetry") present false.

(** [assets] is [None] when the store fails. *)
Definition computeReconcile (assets : option (list asset_view)) (vm : vm_db) (window : string) : reconcileResponse :=
  match assets with
  | None => mkReconcile window true false [] []
  | Some all =>
      let visible := List.filter in_service all in
      let '(presentMap, vmDegraded) := assetHasTelemetryBatch vm (map av_Path visible) window in
      mkReconcile window vmDegraded false (map (classify presentMap vmDegraded) visible) []
  end.

Definition serveReconcile (assets : option (list asset_view)) (vm : vm_db) (mt : meter) (auth : option Principal)
    (window : string) : meter * result problem reconcileResponse :=
  if negb (str_eqb window EmptyString) && negb (validCapacityWindow window) then (mt, Err (bad_request "bad window"))
  else
    let window := if str_eqb window EmptyString then defaultReconcileWindow else window in
    let rep := computeReconcile assets vm window in
    let '(mt', visible) := filter_visible mt auth (fun _ => true) en_Path (rc_Entries rep) in
    (mt', Ok
      (if match auth with None => true | Some p => is_ok (roleAllows p ActionControlWrite) end then
         let '(vmPaths, vmDegraded) := fetchVMAssetPaths vm in
         if vmDegraded then mkReconcile window true false visible []
         else mkReconcile window (rc_Degraded rep) false visible
                (List.filter (fun p => negb (contains_string (map en_Path visible) p)) vmPaths)
       else mkReconcile window (rc_Degraded rep) true visible [])).

(** ** The scanner *)

Definition reconcileAlarmID (assetPath : string) : string := "reconcile:" +:+ assetPath.

#[export] Instance drift_source : TicketSource reconcileEntry := {
  source_alarm e := reconcileAlarmID (en_Path e);
  source_wants e := str_eqb (en_State e) "registered_no_telemetry";
  source_ticket e now id := mkTicket id (reconcileAlarmID (en_Path e)) (en_Path e)
    ("No telemetry: " +:+ en_Path e) "major" "open" EmptyString now None None None None 0 EmptyString }.

Definition hasOpenDriftTicket (m : gmap string Ticket) (assetPath : string) : bool :=
  has_open_ticket m (reconcileAlarmID assetPath).
Definition fireDriftTicket (m : gmap string Ticket) (e : reconcileEntry) (now : time) (id : string) (saved : bool) :
    gmap string Ticket := open_ticket m e now id saved.

Definition scanReconcileTick (m : gmap string Ticket) (locked : bool) (assets : option (list asset_view)) (vm : vm_db)
    (window : string) (now : time) (id : nat -> string) (saved : nat -> bool) : gmap string Ticket :=
  if negb locked then m
  else
    let rep := computeReconcile assets vm window in
    if rc_Degraded rep then m else ticket_loop m (rc_Entries rep) now id saved 0.

(** The window of the scanner's flag. *)
Definition scanner_window (window : string) : string :=
  if validCapacityWindow window then window else defaultReconcileWindow.

(** ** The classification *)

(** What an answer says of a path: the last decided row about it. *)
Definition heard (r : vm_response) (p : string) : bool :=
  match last (List.filter (fun v => str_eqb v.1 p) (omap row_verdict (vr_Result r))) with
  | Some (_, b) => b
  | None => false
  end.

(** The answer about the assets in service, when there is a usable one. *)
Definition usable (vm : vm_db) (all : list asset_view) (window : string) : option vm_response :=
  match vm (presence_query (map av_Path (List.filter in_service all)) window) with
  | Some r => if str_eqb (vr_Status r) "success" then Some r else None
  | None => None
  end.

Lemma apply_rows rows p : forall out, foldl apply_row out rows !! p =
  match last (List.filter (fun v => str_eqb v.1 p) (omap row_verdict rows)) with
  | Some (_, b) => Some b
  | None => out !! p
  end.
Proof.
  induction rows as [|row rows IH]; intros out; [done|]. cbn [foldl]. rewrite IH. unfold apply_row.
  change (omap row_verdict (row :: rows)) with
    (match row_verdict row with Some v => v :: omap row_verdict rows | None => omap row_verdict rows end).
  destruct (row_verdict row) as [[q b]|]; [|done]. cbn [List.filter fst].
  destruct (str_eqb q p) eqn:E.
  - apply str_eqb_eq in E as ->. rewrite last_cons.
    destruct (last (List.filter _ _)) as [[q' b']|]; [done|]. by rewrite lookup_insert_eq.
  - destruct (last (List.filter _ _)) as [[q' b']|]; [done|]. apply str_eqb_neq in E. by rewrite lookup_insert_ne.
Qed.

Lemma seeded (paths : list string) p : forall out : gmap string bool,
  p ∈ paths -> (foldl (fun out p => <[p := false]> out) out paths) !! p = Some false.
Proof.
  induction paths as [|q paths IH]; intros out Hp; [by apply elem_of_nil in Hp|]. cbn [foldl].
  destruct (decide (p ∈ paths)) as [Hin|Hn]; [by apply IH|].
  apply elem_of_cons in Hp as [<-|]; [|done]. clear IH.
  assert (Hk : forall out : gmap string bool, out !! p = Some false ->
    foldl (fun out p => <[p := false]> out) out paths !! p = Some false).
  { induction paths as [|q paths IH]; intros o Ho; [done|]. cbn [foldl]. apply not_elem_of_cons in Hn as [Hne Hn].
    apply (IH Hn). by rewrite lookup_insert_ne. }
  apply Hk. by rewrite lookup_insert_eq.
Qed.

(** The report without its orphans: every asset in service with what the answer
    says of it, or every one of them unknown. *)
Lemma computeReconcile_spec all vm window :
  let visible := List.filter in_service all in
  let rep := computeReconcile (Some all) vm window in
  match usable vm all window with
  | Some r => rc_Degraded rep = false /\
      rc_Entries rep = map (fun a => mkEntry (av_Path a) (spec_string (av_Spec a) "lifecycle")
        (if heard r (av_Path a) then "ok" else "registered_no_telemetry") (heard r (av_Path a)) false) visible
  | None => visible <> [] -> rc_Degraded rep = true /\
      rc_Entries rep = map (fun a => mkEntry (av_Path a) (spec_string (av_Spec a) "lifecycle") EmptyString false true) visible
  end.
Proof.
  cbv zeta. unfold computeReconcile, usable, assetHasTelemetryBatch. set (visible := List.filter in_service all).
  destruct (map av_Path visible) as [|p0 ps] eqn:Hp.
  { apply map_eq_nil in Hp. rewrite Hp. destruct (vm _) as [r|]; [|done]. by destruct (str_eqb (vr_Status r) "success"). }
  destruct (vm (presence_query (p0 :: ps) window)) as [r|]; [|done].
  destruct (str_eqb (vr_Status r) "success"); cbn [negb rc_Degraded rc_Entries]; [|done].
  split; [done|]. apply map_ext_in. intros a Ha. unfold classify.
  assert (E : default false (foldl apply_row (foldl (fun out p => <[p := false]> out) ∅ (p0 :: ps)) (vr_Result r) !! av_Path a)
    = heard r (av_Path a)).
  { rewrite apply_rows. unfold heard. destruct (last _) as [[q b]|]; [done|].
    rewrite seeded; [done|]. rewrite <- Hp. apply list_elem_of_In. by apply in_map. }
  by rewrite E.
Qed.

(** ** The scanner *)

#[export] Instance drift_laws : TicketSourceLaws reconcileEntry.
Proof. split; [done|]. intros e now id. repeat split; done. Qed.

Definition drift_ticket (path : string) (now : time) (id : string) : Ticket :=
  mkTicket id (reconcileAlarmID path) path ("No telemetry: " +:+ path) "major" "open" EmptyString now
    None None None None 1 EmptyString.

(** An asset in service of which a usable answer says nothing positive. *)
Definition silent (vm : vm_db) (all : list asset_view) (window path : string) : Prop :=
  exists r a, usable vm all window = Some r /\ a ∈ all /\ in_service a = true /\ av_Path a = path /\
    heard r path = false.

Lemma wanted_entries all vm window r e : usable vm all window = Some r ->
  e ∈ rc_Entries (computeReconcile (Some all) vm window) -> source_wants e = true ->
  silent vm all window (en_Path e).
Proof.
  intros Hu He Hw. pose proof (computeReconcile_spec all vm window) as Hs. cbv zeta in Hs. rewrite Hu in Hs.
  destruct Hs as [_ Hs]. rewrite Hs in He. apply list_elem_of_fmap in He as (a & -> & [Ha Hi]%in_filter).
  exists r, a. split; [done|]. split; [done|]. split; [done|]. split; [done|]. cbn in Hw |- *.
  by destruct (heard r (av_Path a)).
Qed.

Lemma silent_entries all vm window path : silent vm all window path ->
  exists e, e ∈ rc_Entries (computeReconcile (Some all) vm window) /\ source_wants e = true /\ en_Path e = path.
Proof.
  intros (r & a & Hu & Ha & Hi & <- & Hh). pose proof (computeReconcile_spec all vm window) as Hs. cbv zeta in Hs.
  rewrite Hu in Hs. destruct Hs as [_ Hs]. eexists. split; [|split; [|]].
  - rewrite Hs. apply list_elem_of_fmap. exists a. split; [done|]. by apply in_filter.
  - cbn. by rewrite Hh.
  - done.
Qed.

(** Without a usable answer a pass opens nothing. *)
Lemma pass_unusable m all vm window now id saved : usable vm all window = None ->
  scanReconcileTick m true (Some all) vm window now id saved = m.
Proof.
  intros Hu. pose proof (computeReconcile_spec all vm window) as Hs. cbv zeta in Hs. rewrite Hu in Hs.
  unfold scanReconcileTick. cbn [negb]. destruct (List.filter in_service all) as [|a l] eqn:E.
  - assert (He : rc_Entries (computeReconcile (Some all) vm window) = []) by (unfold computeReconcile; by rewrite E).
    rewrite He. by destruct (rc_Degraded _).
  - destruct Hs as [-> _]; [done|]. done.
Qed.

Lemma pass_usable m all vm window now id saved r : usable vm all window = Some r ->
  scanReconcileTick m true (Some all) vm window now id saved =
  ticket_loop m (rc_Entries (computeReconcile (Some all) vm window)) now id saved 0.
Proof.
  intros Hu. pose proof (computeReconcile_spec all vm window) as Hs. cbv zeta in Hs. rewrite Hu in Hs.
  unfold scanReconcileTick. by rewrite (proj1 Hs).
Qed.


(** ** Closed instances *)

Definition demo_asset (path lifecycle : string) : asset_view :=
  mkView path 1 (Some ({["lifecycle" := JString lifecycle]})) 0 0.
Definition demo_assets : list asset_view :=
  [demo_asset "s1.cdu1" "active"; demo_asset "s1.cdu2" "maintenance"; demo_asset "s1.cdu3" "retired"].
Definition demo_series (path value : string) : option vm_series :=
  Some (mkSeries {["asset_path" := path]} [JOther "1717"; JString value]).
(** The database has heard of the first asset and of the retired one. *)
Definition demo_db : vm_db := fun q =>
  if str_eqb q "label_values(cios_metric, asset_path)"
  then Some (mkResponse "success" [demo_series "s1.cdu1" "1"; demo_series "s1.cdu3" "1"; demo_series "s1.new" "1"])
  else Some (mkResponse "success" [demo_series "s1.cdu1" "12"; None; demo_series "s1.cdu2" "none"]).

Lemma table_ok_empty : table_ok ∅.
Proof.
  split; [|split]; intros *; rewrite ?lookup_empty; done.
Qed.


(** A path that has an asset is reported as one without: the orphans are taken
    against the entries of the report, from which assets out of service and out
    of the caller's scope have been dropped. *)
Example retired_is_orphan :
  (fun rep => rc_Orphans rep) <$> (serveReconcile (Some demo_assets) demo_db (mkMeter 0 ∅ false) None EmptyString).2 =
    Ok ["s1.cdu3"; "s1.new"].
Proof. vm_compute. reflexivity. Qed.

(** The window may be four digits long and may carry a sign. *)
Example windows_accepted : validCapacityWindow "9999h" = true /\ validCapacityWindow "+7d" = true /\
  validCapacityWindow "91d" = false /\ validCapacityWindow "007d" = true.
Proof. vm_compute. repeat split. Qed.

(** The comment of the single query says that the batch of one path asks the
    same; the texts differ. *)
Example single_is_not_batch :
  single_query "s1" "7d" <> presence_query ["s1"] "7d".
Proof. vm_compute. discriminate. Qed.
