(* ===== verification/Freshness.v ===== *)
(** * Pipeline freshness (pkg/freshness, cmd/cios-alarm/freshness.go)

    The watch remembers when each asset was last heard; the gap tracker turns
    silence and its end into alarm events.  Heartbeat lines of the gateway reach
    the watch although they are not telemetry. *)
From S2P Require Import Prelude Float64 GoTime CPath Http PromProj AlarmExpr AlarmEngine Cursor DictLoad PointMap Modbus GoNet Snmp Gateway GatewayRun.
Open Scope string_scope.
Open Scope list_scope.

(** ** The watch (watch.go)

    [wall] is the wall clock, read in place of a zero time. *)
Definition DefaultStaleAfter : Duration := (10 * Minute)%Z.

Record Gap : Type := mkGap { g_AssetPath : string; g_LastSeen : time; g_Age : Duration }.
Record Watch : Type := mkWatch { w_last : gmap string time; w_staleAfter : Duration }.

Definition NewWatch (staleAfter : Duration) : Watch :=
  mkWatch ∅ (if (staleAfter <=? 0)%Z then DefaultStaleAfter else staleAfter).

Definition or_wall (wall t : time) : time := if IsZero t then wall else t.

Definition Touch (wall : time) (assetPath : string) (t : time) (w : Watch) : Watch :=
  if str_eqb assetPath EmptyString then w
  else mkWatch (<[assetPath := or_wall wall t]> (w_last w)) (w_staleAfter w).

Definition watched (w : Watch) : list string := sort_strings (map_to_list (w_last w)).*1.

Definition Gaps (wall now : time) (w : Watch) : list Gap :=
  omap (fun path =>
    last ← w_last w !! path;
    let age := time_sub (or_wall wall now) last in
    if (w_staleAfter w <? age)%Z then Some (mkGap path last age) else None) (watched w).

Definition Fresh (wall now : time) (w : Watch) : list string :=
  List.filter (fun path =>
    match w_last w !! path with
    | Some last => (time_sub (or_wall wall now) last <=? w_staleAfter w)%Z
    | None => false
    end) (watched w).

Definition StaleAfter (w : Watch) : Duration := w_staleAfter w.
Definition watch_Len (w : Watch) : nat := size (w_last w).

(** ** The gap tracker (freshness.go) *)

Definition pipelineGapRule : string := "pipeline-gap".

(** The assets whose gap alarm is firing, with its beginning. *)
Abbreviation gapTracker := (gmap string time).
Definition newGapTracker : gapTracker := ∅.

Section tracker.
Context (duration_text : Duration -> string).

Definition gap_event (w : Watch) (path : string) (st : State) (since now : time) : Event :=
  mkEvent pipelineGapRule path (path +:+ ".pipeline.heartbeat") "major" st
    (match st with
     | StateFiring => "pipeline gap: no telemetry for " +:+ path +:+ " (stale > " +:+
                        duration_text (StaleAfter w) +:+ ")"
     | _ => "pipeline gap resolved: telemetry resumed for " +:+ path
     end) since now "rb/pipeline-gap".

(** When the gap began: the last sign of life plus the threshold, at the latest
    now. *)
Definition gap_since (w : Watch) (now last : time) : time :=
  let since := (last + StaleAfter w)%Z in if (now <? since)%Z then now else since.

Fixpoint fire_gaps (w : Watch) (now : time) (gaps : list Gap) (trk : gapTracker) : gapTracker * list Event :=
  match gaps with
  | [] => (trk, [])
  | g :: gaps' =>
      match trk !! g_AssetPath g with
      | Some _ => fire_gaps w now gaps' trk
      | None =>
          let since := gap_since w now (g_LastSeen g) in
          let '(trk, evs) := fire_gaps w now gaps' (<[g_AssetPath g := since]> trk) in
          (trk, gap_event w (g_AssetPath g) StateFiring since now :: evs)
      end
  end.

Fixpoint resolve_gaps (w : Watch) (now : time) (fresh : list string) (trk : gapTracker) : gapTracker * list Event :=
  match fresh with
  | [] => (trk, [])
  | path :: fresh' =>
      match trk !! path with
      | None => resolve_gaps w now fresh' trk
      | Some since =>
          let '(trk, evs) := resolve_gaps w now fresh' (delete path trk) in
          (trk, gap_event w path StateResolved since now :: evs)
      end
  end.

Definition evaluateFreshness `{MapOrder} (wall now : time) (w : Watch) (trk : gapTracker) : gapTracker * list Event :=
  let '(trk, evs1) := fire_gaps w now (shuffle (Gaps wall now w)) trk in
  let '(trk, evs2) := resolve_gaps w now (Fresh wall now w) trk in
  (trk, evs1 ++ evs2).
End tracker.

(** ** Heartbeat lines *)

(** [strings.Index]: what stands in front of and behind the first occurrence. *)
Fixpoint cut_string (sub s : string) : option (string * string) :=
  if has_prefix s sub then Some (EmptyString, String.substring (str_len sub) (str_len s - str_len sub) s)
  else match s with
       | EmptyString => None
       | String c s' => '(a, b) ← cut_string sub s'; Some (String c a, b)
       end.

Definition path_key : string := "path=" +:+ String DQ EmptyString.

Definition heartbeatPath (line : string) : option string :=
  if negb (has_prefix line "cios_pipeline_heartbeat{") then None
  else match cut_string path_key line with
  | None => None
  | Some (_, rest) =>
      match cut_at DQ rest with
      | Some (path, _) => if str_eqb path EmptyString then None else Some path
      | None => None
      end
  end.

Fixpoint touchFromHeartbeatLines (wall : time) (lines : list string) (now : time) (w : Watch) : Watch :=
  match lines with
  | [] => w
  | line :: lines' =>
      touchFromHeartbeatLines wall lines' now
        match heartbeatPath line with Some path => Touch wall path now w | None => w end
  end.

(** ** Every asset on its own *)

Definition heard (w : Watch) (a : string) : option time := w_last w !! a.

(** Silent for longer than the threshold. *)
Definition gapped (wall now : time) (w : Watch) (a : string) : bool :=
  match heard w a with
  | Some last => (w_staleAfter w <? time_sub (or_wall wall now) last)%Z
  | None => false
  end.

Lemma watched_In w a : In a (watched w) <-> is_Some (heard w a).
Proof.
  unfold watched, heard. rewrite <- list_elem_of_In. split.
  - intros ([k t] & -> & Hin)%in_sort_strings%list_elem_of_fmap. apply elem_of_map_to_list in Hin. by exists t.
  - intros [t Ht]. apply sort_strings_in, list_elem_of_fmap. exists (a, t). split; [done|].
    by apply elem_of_map_to_list.
Qed.

Lemma Gaps_In wall now w g : In g (Gaps wall now w) <->
  exists last, heard w (g_AssetPath g) = Some last /\ gapped wall now w (g_AssetPath g) = true /\
    g = mkGap (g_AssetPath g) last (time_sub (or_wall wall now) last).
Proof.
  unfold Gaps. rewrite <- list_elem_of_In, list_elem_of_omap. unfold gapped, heard. split.
  - intros (path & _ & Hp). destruct (w_last w !! path) as [last|] eqn:E; [|done]. cbn in Hp.
    destruct (_ <? _)%Z eqn:El in Hp; [|done]. injection Hp as <-. cbn. rewrite E. by exists last.
  - intros (last & Hl & Hg & ->). cbn in *. exists (g_AssetPath g). split.
    + apply list_elem_of_In, watched_In. unfold heard. by exists last.
    + rewrite Hl in *. cbn. by rewrite Hg.
Qed.

Lemma Fresh_In wall now w a : In a (Fresh wall now w) <->
  is_Some (heard w a) /\ gapped wall now w a = false.
Proof.
  unfold Fresh. rewrite List.filter_In, watched_In. unfold gapped, heard.
  destruct (w_last w !! a) as [last|]; [|split; intros [[? ?] ?]; done].
  rewrite Z.leb_le, Z.ltb_ge. split; intros [? ?]; split; eauto.
Qed.

Section tracker_facts.
Context (duration_text : Duration -> string).
Abbreviation event := (gap_event duration_text).
Abbreviation mine a evs := (events_of pipelineGapRule a evs).

Lemma mine_event w b st since now a : mine a [event w b st since now] = if str_eqb b a then [event w b st since now] else [].
Proof.
  unfold events_of. cbn [List.filter]. change (ev_AssetPath (event w b st since now)) with b.
  by change (str_eqb (ev_RuleName (event w b st since now)) pipelineGapRule) with true.
Qed.

Lemma mine_cons a ev evs : mine a (ev :: evs) = mine a [ev] ++ mine a evs.
Proof. apply (events_of_app pipelineGapRule a [ev] evs). Qed.

(** The loop over the gaps, seen from one asset. *)
Lemma fire_gaps_asset w now a gaps : forall trk,
  let '(trk', evs) := fire_gaps duration_text w now gaps trk in
  match trk !! a with
  | Some since => trk' !! a = Some since /\ mine a evs = []
  | None =>
      match List.find (fun g => str_eqb (g_AssetPath g) a) gaps with
      | Some g => let since := gap_since w now (g_LastSeen g) in
                  trk' !! a = Some since /\ mine a evs = [event w a StateFiring since now]
      | None => trk' !! a = None /\ mine a evs = []
      end
  end.
Proof.
  induction gaps as [|g gaps IH]; intros trk; cbn [fire_gaps List.find].
  { by destruct (trk !! a). }
  destruct (trk !! g_AssetPath g) as [s|] eqn:Hg.
  - specialize (IH trk). destruct (fire_gaps _ w now gaps trk) as [trk' evs].
    destruct (trk !! a) as [since|] eqn:Ha; [done|].
    destruct (str_eqb (g_AssetPath g) a) eqn:E; [|done]. apply str_eqb_eq in E as <-. congruence.
  - set (since := gap_since w now (g_LastSeen g)). specialize (IH (<[g_AssetPath g := since]> trk)).
    destruct (fire_gaps _ w now gaps _) as [trk' evs]. rewrite mine_cons, mine_event.
    destruct (str_eqb (g_AssetPath g) a) eqn:E.
    + apply str_eqb_eq in E as <-. rewrite lookup_insert_eq in IH. destruct IH as [H1 H2]. rewrite Hg, H2. done.
    + apply str_eqb_neq in E. rewrite lookup_insert_ne in IH by done. exact IH.
Qed.

Lemma resolve_gaps_asset w now a fresh : forall trk, NoDup fresh ->
  let '(trk', evs) := resolve_gaps duration_text w now fresh trk in
  match trk !! a with
  | Some since =>
      if decide (a ∈ fresh) then trk' !! a = None /\ mine a evs = [event w a StateResolved since now]
      else trk' !! a = Some since /\ mine a evs = []
  | None => trk' !! a = None /\ mine a evs = []
  end.
Proof.
  induction fresh as [|p fresh IH]; intros trk Hnd; cbn [resolve_gaps].
  { destruct (trk !! a); [|done]. by rewrite decide_False by (by intros ?%elem_of_nil). }
  inv Hnd. destruct (trk !! p) as [s|] eqn:Hp.
  - specialize (IH (delete p trk) ltac:(done)). destruct (resolve_gaps _ w now fresh _) as [trk' evs].
    rewrite mine_cons, mine_event. destruct (decide (p = a)) as [->|Hne].
    + rewrite str_eqb_refl, Hp, decide_True by (by left). rewrite lookup_delete_eq in IH.
      destruct IH as [H3 H4]. by rewrite H4.
    + rewrite (proj2 (str_eqb_neq _ _)) by done. rewrite lookup_delete_ne in IH by done.
      destruct (trk !! a) as [since|]; [|done].
      destruct (decide (a ∈ fresh)) as [Hin|Hin]; [rewrite decide_True by (by right)|rewrite decide_False by (by intros [?|?]%elem_of_cons)];
        done.
  - specialize (IH trk ltac:(done)). destruct (resolve_gaps _ w now fresh trk) as [trk' evs].
    destruct (trk !! a) as [since|] eqn:Ha; [|done].
    destruct (decide (a ∈ fresh)) as [Hin|Hin]; [by rewrite decide_True by (by right)|].
    rewrite decide_False; [done|]. intros [->|?]%elem_of_cons; congruence.
Qed.
End tracker_facts.

Lemma Fresh_NoDup wall now w : NoDup (Fresh wall now w).
Proof.
  unfold Fresh, watched. apply NoDup_ListNoDup, List.NoDup_filter, NoDup_ListNoDup.
  rewrite sort_strings_perm. apply NoDup_fst_map_to_list.
Qed.

(** The gap of an asset in any order of the gaps. *)
Lemma find_gap wall now w a gaps : gaps ≡ₚ Gaps wall now w ->
  List.find (fun g => str_eqb (g_AssetPath g) a) gaps =
  last ← heard w a;
  if gapped wall now w a then Some (mkGap a last (time_sub (or_wall wall now) last)) else None.
Proof.
  intros Hp. assert (Hin : forall g, In g gaps <-> In g (Gaps wall now w)).
  { intros g. rewrite <- !list_elem_of_In. by rewrite Hp. }
  destruct (List.find _ gaps) as [g|] eqn:Hf.
  - apply find_some in Hf as [Hg Ha%str_eqb_eq]. apply Hin, Gaps_In in Hg as (last & Hl & Hgap & Hg).
    rewrite Ha in *. rewrite Hl. cbn. rewrite Hgap. by rewrite <- Hg.
  - destruct (heard w a) as [last|] eqn:Hl; [|done]. cbn. destruct (gapped wall now w a) eqn:Hgap; [|done].
    exfalso. set (g := mkGap a last (time_sub (or_wall wall now) last)).
    assert (Hg : In g gaps). { apply Hin, Gaps_In. exists last. by split_and!. }
    pose proof (find_none _ _ Hf g Hg) as Hn. cbn in Hn. by rewrite str_eqb_refl in Hn.
Qed.

Section evaluate.
Context (duration_text : Duration -> string) `{MapOrderOk}.
Abbreviation event := (gap_event duration_text).
Abbreviation mine a evs := (events_of pipelineGapRule a evs).

(** One evaluation, seen from one asset. *)
Lemma evaluate_asset wall now w trk a :
  let '(trk', evs) := evaluateFreshness duration_text wall now w trk in
  match heard w a with
  | None => trk' !! a = trk !! a /\ mine a evs = []
  | Some last =>
      if gapped wall now w a then
        match trk !! a with
        | Some since => trk' !! a = Some since /\ mine a evs = []
        | None => let since := gap_since w now last in
                  trk' !! a = Some since /\ mine a evs = [event w a StateFiring since now]
        end
      else
        match trk !! a with
        | Some since => trk' !! a = None /\ mine a evs = [event w a StateResolved since now]
        | None => trk' !! a = None /\ mine a evs = []
        end
  end.
Proof.
  unfold evaluateFreshness.
  pose proof (fire_gaps_asset duration_text w now a (shuffle (Gaps wall now w)) trk) as Hf.
  rewrite (find_gap wall now w a) in Hf by apply shuffle_perm.
  destruct (fire_gaps _ w now _ trk) as [trk1 evs1].
  pose proof (resolve_gaps_asset duration_text w now a (Fresh wall now w) trk1 (Fresh_NoDup _ _ _)) as Hr.
  destruct (resolve_gaps _ w now _ trk1) as [trk2 evs2]. rewrite events_of_app.
  assert (Hfresh : a ∈ Fresh wall now w <-> is_Some (heard w a) /\ gapped wall now w a = false)
    by (rewrite list_elem_of_In; apply Fresh_In).
  destruct (heard w a) as [last|] eqn:Hl; cbn [mbind option_bind] in Hf.
  - destruct (gapped wall now w a) eqn:Hg.
    + destruct (trk !! a) as [since|]; destruct Hf as [H1 H2]; rewrite H1 in Hr;
        (rewrite decide_False in Hr by (rewrite Hfresh; intros [_ ?]; done));
        destruct Hr as [H3 H4]; by rewrite H2, H4.
    + destruct (trk !! a) as [since|]; destruct Hf as [H1 H2]; rewrite H1 in Hr.
      * rewrite decide_True in Hr by (rewrite Hfresh; by split; [eexists|]). destruct Hr as [H3 H4]. by rewrite H2, H4.
      * destruct Hr as [H3 H4]. by rewrite H2, H4.
  - destruct (trk !! a) as [since|]; destruct Hf as [H1 H2]; rewrite H1 in Hr.
    + rewrite decide_False in Hr by (rewrite Hfresh; intros [[? ?] _]; done).
      destruct Hr as [H3 H4]. by rewrite H2, H4.
    + destruct Hr as [H3 H4]. by rewrite H2, H4.
Qed.

(** ** Runs *)

Inductive fresh_event : Type :=
  | FTouch (wall : time) (asset : string) (t : time)
  | FEval (wall now : time).

Fixpoint fresh_run (evs : list fresh_event) (w : Watch) (trk : gapTracker) : Watch * gapTracker * list Event :=
  match evs with
  | [] => (w, trk, [])
  | FTouch wall a t :: evs' => fresh_run evs' (Touch wall a t w) trk
  | FEval wall now :: evs' =>
      let '(trk, out) := evaluateFreshness duration_text wall now w trk in
      let '(w, trk, rest) := fresh_run evs' w trk in (w, trk, out ++ rest)
  end.

Lemma fresh_run_app l1 l2 : forall w trk,
  fresh_run (l1 ++ l2) w trk =
  let '(w1, trk1, out1) := fresh_run l1 w trk in
  let '(w2, trk2, out2) := fresh_run l2 w1 trk1 in (w2, trk2, out1 ++ out2).
Proof.
  induction l1 as [|[wall a t|wall now] l1 IH]; intros w trk; cbn [app fresh_run].
  - by destruct (fresh_run l2 w trk) as [[? ?] ?].
  - apply IH.
  - destruct (evaluateFreshness _ wall now w trk) as [trk1 out]. rewrite IH.
    destruct (fresh_run l1 w trk1) as [[w2 trk2] o2]. destruct (fresh_run l2 w2 trk2) as [[w3 trk3] o3].
    by rewrite app_assoc.
Qed.

(** Only assets that were heard have an alarm, and what was heard stays. *)
Definition tracked (w : Watch) (trk : gapTracker) : Prop := forall a, is_Some (trk !! a) -> is_Some (heard w a).

Lemma touch_tracked wall a t w trk : tracked w trk -> tracked (Touch wall a t w) trk.
Proof.
  intros Ht b Hb%Ht. unfold heard, Touch in *. destruct (str_eqb a EmptyString); [done|]. cbn.
  destruct (decide (a = b)) as [->|Hne]; [rewrite lookup_insert_eq; by eexists|by rewrite lookup_insert_ne].
Qed.

Lemma evaluate_tracked wall now w trk : tracked w trk -> tracked w (evaluateFreshness duration_text wall now w trk).1.
Proof.
  intros Ht a Ha. pose proof (evaluate_asset wall now w trk a) as He.
  destruct (evaluateFreshness _ wall now w trk) as [trk' out]. cbn [fst] in Ha.
  destruct (heard w a) as [last|] eqn:Hl; [by eexists|]. destruct He as [He _]. rewrite He in Ha. apply Ht in Ha. by rewrite Hl in Ha.
Qed.

Lemma fresh_run_tracked l : forall w trk, tracked w trk ->
  tracked (fresh_run l w trk).1.1 (fresh_run l w trk).1.2.
Proof.
  induction l as [|[wall a t|wall now] l IH]; intros w trk Ht; cbn [fresh_run]; [done| |].
  - by apply IH, touch_tracked.
  - pose proof (evaluate_tracked wall now w trk Ht) as He.
    destruct (evaluateFreshness _ wall now w trk) as [trk1 out]. specialize (IH w trk1 He).
    by destruct (fresh_run l w trk1) as [[w2 trk2] o2].
Qed.

Lemma fresh_run_alternates a l : forall w trk, tracked w trk ->
  alternates (trk !! a) (mine a (fresh_run l w trk).2).
Proof.
  induction l as [|[wall b t|wall now] l IH]; intros w trk Ht; cbn [fresh_run]; [done| |].
  - by apply IH, touch_tracked.
  - pose proof (evaluate_asset wall now w trk a) as He. pose proof (evaluate_tracked wall now w trk Ht) as Ht'.
    destruct (evaluateFreshness _ wall now w trk) as [trk1 out]. specialize (IH w trk1 Ht').
    destruct (fresh_run l w trk1) as [[w2 trk2] o2]. cbn [fst snd] in *. rewrite events_of_app.
    destruct (heard w a) as [last|].
    + destruct (gapped wall now w a), (trk !! a) as [since|]; destruct He as [H1 H2]; rewrite H2, H1 in *; cbn; done.
    + destruct He as [H1 H2]. rewrite H2. by rewrite <- H1.
Qed.

End evaluate.

(** ** The heartbeat of the gateway *)

Lemma replace_byte_none c t s : no_byte c s = true -> replace_byte c t s = s.
Proof.
  induction s as [|b s IH]; cbn; intros Hs; [done|]. bool_simpl.
  rename select (byte_eqb b c = false) into Hb. rewrite Hb. cbn. by rewrite IH.
Qed.

Lemma escape_prom_plain s : plain s = true -> escapePromLabel s = s.
Proof.
  intros Hs. unfold escapePromLabel.
  assert (Hno : forall c, plain_byte c = false -> no_byte c s = true).
  { intros c Hc. eapply all_bytes_impl; [|exact Hs]. intros b Hb. destruct (byte_eqb b c) eqn:E; [|done].
    apply byte_eqb_eq in E as ->. by rewrite Hc in Hb. }
  rewrite (replace_byte_none BS), (replace_byte_none DQ), (replace_byte_none LF) by (apply Hno; reflexivity). done.
Qed.

(** No occurrence of the key begins inside a value without an equals sign. *)
Lemma no_key_inside s t : no_byte "=" s = true -> has_prefix (s +:+ String DQ t) path_key = false.
Proof.
  intros Hs. apply not_true_iff_false. intros [r Hr]%has_prefix_split.
  destruct s as [|c0 [|c1 [|c2 [|c3 [|c4 s]]]]]; cbn in Hr; try discriminate Hr.
  injection Hr; intros; subst. cbn in Hs. discriminate Hs.
Qed.

Lemma cut_string_skip sub c s : has_prefix (String c s) sub = false ->
  cut_string sub (String c s) = ('(a, b) ← cut_string sub s; Some (String c a, b)).
Proof. intros H. unfold cut_string at 1. fold cut_string. by rewrite H. Qed.

Lemma cut_value s t : no_byte "=" s = true ->
  cut_string path_key (s +:+ String DQ (String "," (path_key +:+ t))) = Some (s +:+ String DQ ("," +:+ EmptyString), t).
Proof.
  intros Hs. induction s as [|c s IH].
  - cbn [String.append]. rewrite !cut_string_skip by reflexivity.
    assert (cut_string path_key (path_key +:+ t) = Some (EmptyString, t)) as ->; [|done].
    unfold cut_string. pose proof (has_prefix_app path_key t) as Hp. cbn [String.append path_key] in *.
    rewrite Hp. fold path_key. cbn. by rewrite Nat.sub_0_r, substring_all.
  - pose proof (no_key_inside (String c s) (String "," (path_key +:+ t)) Hs) as Hn.
    cbn [String.append] in *. rewrite cut_string_skip by done. unfold no_byte in Hs. cbn [all_bytes] in Hs. bool_simpl.
    by rewrite IH.
Qed.

(** The heartbeat that the gateway appends to a batch is recognised by the
    alarm daemon as a sign of life of exactly that asset, although its metric is
    none of the vocabulary. *)
Lemma heartbeat_recognised site asset top ty ts :
  site <> EmptyString -> no_byte "=" site = true -> plain site = true ->
  asset <> EmptyString -> plain asset = true ->
  heartbeatPath (pipelineHeartbeatLine site asset top ty ts) = Some asset.
Proof.
  intros Hs1 Hs2 Hs3 Ha1 Ha2. unfold pipelineHeartbeatLine, default_str.
  rewrite (proj2 (str_eqb_neq site _)) by done.
  set (top' := if str_eqb top _ then _ else _). set (ty' := if str_eqb ty _ then _ else _).
  unfold quoted. rewrite (escape_prom_plain site), (escape_prom_plain asset) by done.
  set (tail := ",top_asset=" +:+ _).
  assert (Hline : "cios_pipeline_heartbeat{site=" +:+ String DQ (site +:+ String DQ EmptyString) +:+ ",path=" +:+
      String DQ (asset +:+ String DQ EmptyString) +:+ tail =
    "cios_pipeline_heartbeat{site=" +:+ String DQ (site +:+ String DQ (String "," (path_key +:+ asset +:+ String DQ tail)))).
  { cbn [String.append]. do 30 f_equal. rewrite <- !str_app_assoc. cbn [String.append]. do 2 f_equal. }
  rewrite Hline. unfold heartbeatPath.
  change (has_prefix ("cios_pipeline_heartbeat{site=" +:+ _) _)
    with (has_prefix ("cios_pipeline_heartbeat{" +:+ ("site=" +:+ String DQ (site +:+ String DQ (String ","
      (path_key +:+ asset +:+ String DQ tail))))) "cios_pipeline_heartbeat{").
  rewrite has_prefix_app. cbn [negb String.append]. do 30 (rewrite cut_string_skip by reflexivity).
  rewrite cut_value by done. cbn [mbind option_bind].
  assert (Hd : no_byte DQ asset = true).
  { eapply all_bytes_impl; [|exact Ha2]. intros b Hb. destruct (byte_eqb b DQ) eqn:E; [|done].
    apply byte_eqb_eq in E as ->. discriminate Hb. }
  rewrite cut_at_app by done. by rewrite (proj2 (str_eqb_neq asset _)).
Qed.

(** ** Concrete runs *)

Definition demo_fresh : list fresh_event :=
  [FTouch 0 "s1.cdu1" minute1; FTouch 0 "s1.cdu2" (minute1 + Minute)%Z; FEval 0 (minute1 + 11 * Minute - 1)%Z;
   FEval 0 (minute1 + 11 * Minute + 1)%Z; FTouch 0 "s1.cdu1" (minute1 + 12 * Minute)%Z].

Example demo_gap_events :
  (fun ev => (ev_AssetPath ev, ev_State ev)) <$>
    (@fresh_run (fun _ => "10m0s") demo_order (demo_fresh ++ [FEval 0 (minute1 + 13 * Minute)%Z])
      (NewWatch 0) newGapTracker).2 =
  [("s1.cdu1", StateFiring); ("s1.cdu2", StateFiring); ("s1.cdu1", StateResolved)].
Proof. vm_compute. reflexivity. Qed.


Lemma heartbeat_recognised_witness :
  heartbeatPath (pipelineHeartbeatLine "sgp01" "sgp01.pod002.cdu007" EmptyString EmptyString minute1) =
  Some "sgp01.pod002.cdu007".
Proof. apply heartbeat_recognised; (reflexivity || discriminate). Defined.
