(* ===== verification/AlarmDaemon.v ===== *)
(** * The alarm daemon (cmd/cios-alarm/main.go, pkg/alarm/store.go)

    One message of the bus becomes snapshots of assets, the engine's events, rows
    of the alarms table and tickets; a failed row makes the stream redeliver the
    message.  The tables are maps and lists; a script says which statements the
    database fails. *)
From S2P Require Import Prelude Float64 GoTime CPath Http PromProj AlarmExpr AlarmEngine Cursor DictLoad PointMap Modbus GoNet Snmp Gateway GatewayRun Publish Freshness.
Open Scope string_scope.
Open Scope list_scope.

(** ** Decoding (main.go) *)

Inductive decode_err : Type := DLine (e : proj_err) | DNoPath | DRel (e : proj_err).

Record decoded : Type := mkDecoded {
  dc_assetPath : string; dc_assetType : string; dc_relPoint : string; dc_value : float64; dc_quality : string
}.

Record snapshotEntry : Type := mkEntry { se_assetType : string; se_snapshot : gmap string float64 }.

Section decode.
Context (parseFloat : string -> option float64).

Definition decodeLine (line : string) (d : Dict) : result decode_err decoded :=
  match ParseLine parseFloat line d with
  | Err e => Err (DLine e)
  | Ok (labels, value) =>
      if str_eqb (label labels "path") EmptyString then Err DNoPath
      else match RelPoint labels d with
      | Err e => Err (DRel e)
      | Ok rel => Ok (mkDecoded (label labels "path") (label labels "asset_type") rel value (label labels "quality"))
      end
  end.

Definition dropped (quality : string) : bool := str_eqb quality "suspect" || str_eqb quality "bad".

(** The body of the loop of [decodeBatch]. *)
Definition add_line (d : Dict) (out : gmap string snapshotEntry) (line : string) : gmap string snapshotEntry :=
  match decodeLine line d with
  | Err _ => out
  | Ok x =>
      if dropped (dc_quality x) then out
      else
        let entry := default (mkEntry (dc_assetType x) ∅) (out !! dc_assetPath x) in
        <[dc_assetPath x := mkEntry (se_assetType entry) (<[dc_relPoint x := dc_value x]> (se_snapshot entry))]> out
  end.

Definition decodeBatch (lines : list string) (d : Dict) : gmap string snapshotEntry := foldl (add_line d) ∅ lines.
End decode.

(** ** The store (store.go) *)

Record alarm_row : Type := mkRow {
  ar_path : string; ar_severity : string; ar_state : State; ar_summary : string; ar_since : time
}.
Record ticket_row : Type := mkTicketRow {
  tr_id : string; tr_alarm : string; tr_asset : string; tr_title : string; tr_severity : string;
  tr_state : string; tr_opened : time; tr_runbook : string
}.
Record window_row : Type := mkWindowRow { wr_id : string; wr_asset : string; wr_starts : time; wr_ends : time }.

(** [st_script]: whether the coming statements succeed; when it is used up they
    do. *)
Record Store : Type := mkStore {
  st_alarms : gmap string alarm_row;
  st_tickets : list ticket_row;
  st_windows : list window_row;
  st_script : list bool
}.

(** The LIKE operator of the database: percent, underscore and backslash. *)
Fixpoint like (p : string) : string -> bool :=
  match p with
  | EmptyString => fun s => str_eqb s EmptyString
  | String c p' =>
      if byte_eqb c "%" then
        fix any (s : string) : bool :=
          like p' s || match s with EmptyString => false | String _ s' => any s' end
      else if byte_eqb c "_" then fun s => match s with EmptyString => false | String _ s' => like p' s' end
      else if byte_eqb c BS then
        match p' with
        | EmptyString => fun _ => false
        | String e p'' => fun s => match s with EmptyString => false | String b s' => byte_eqb b e && like p'' s' end
        end
      else fun s => match s with EmptyString => false | String b s' => byte_eqb b c && like p' s' end
  end.

Definition event_key (rule asset : string) : string := rule +:+ "|" +:+ asset.

Section store.
Context (sha16 : string -> string) (mint : nat -> string).

(** The key of a row: sixteen digits of a digest. *)
Definition eventID (rule asset : string) : string := sha16 (event_key rule asset).

(** What the statement of [Upsert] does to the row of its key: the beginning is
    kept from the first insert. *)
Definition upsert_row (ev : Event) (old : option alarm_row) : alarm_row :=
  mkRow (ev_AssetPath ev) (ev_Severity ev) (ev_State ev) (ev_Summary ev)
    match old with Some row => ar_since row | None => ev_Since ev end.

Definition next_ok (st : Store) : bool * Store :=
  match st_script st with
  | [] => (true, st)
  | ok :: rest => (ok, mkStore (st_alarms st) (st_tickets st) (st_windows st) rest)
  end.

Definition Upsert (ev : Event) (st : Store) : Store * bool :=
  let '(ok, st) := next_ok st in
  if ok then
    let id := eventID (ev_RuleName ev) (ev_AssetPath ev) in
    (mkStore (<[id := upsert_row ev (st_alarms st !! id)]> (st_alarms st)) (st_tickets st) (st_windows st) (st_script st),
     true)
  else (st, false).

(** The two probes of [OpenTicket]. *)
Definition open_for (alarmID : string) (t : ticket_row) : bool :=
  str_eqb (tr_alarm t) alarmID && negb (str_eqb (tr_state t) "closed").
Definition window_hits (asset : string) (now : time) (w : window_row) : bool :=
  (wr_starts w <=? now)%Z && (now <? wr_ends w)%Z &&
  (str_eqb (wr_asset w) asset || like (asset +:+ ".%") (wr_asset w)).

Definition OpenTicket (now : time) (ev : Event) (st : Store) : Store * bool :=
  let alarmID := eventID (ev_RuleName ev) (ev_AssetPath ev) in
  let '(ok, st) := next_ok st in
  if negb ok then (st, false)
  else if existsb (open_for alarmID) (st_tickets st) then (st, true)
  else if existsb (window_hits (ev_AssetPath ev) now) (st_windows st) then (st, true)
  else
    let title := default_str (ev_Summary ev) (ev_RuleName ev) in
    let t := mkTicketRow (mint (length (st_tickets st))) alarmID (ev_AssetPath ev) title (ev_Severity ev)
               "open" now (ev_Runbook ev) in
    (mkStore (st_alarms st) (st_tickets st ++ [t]) (st_windows st) (st_script st), true).

(** [processEvents]: whether some row could not be written; a ticket that could
    not be opened does not count. *)
Fixpoint processEvents (autoTicket : bool) (now : time) (evs : list Event) (st : Store) : Store * bool :=
  match evs with
  | [] => (st, false)
  | ev :: evs' =>
      let '(st, ok) := Upsert ev st in
      let st := if autoTicket && bool_decide (ev_State ev = StateFiring) then (OpenTicket now ev st).1 else st in
      let '(st, failed) := processEvents autoTicket now evs' st in
      (st, negb ok || failed)
  end.
End store.

(** ** The handler (main.go) *)

Record Daemon : Type := mkDaemon { dm_engine : Engine; dm_watch : Watch; dm_store : Store }.

Section handler.
Context (parseFloat : string -> option float64) (sha16 : string -> string) (mint : nat -> string).
Context (Unmarshal : bytes -> option TelemetryBatch) `{MapOrder} (d : Dict) (autoTicket : bool).

Definition observations (entries : list (string * snapshotEntry)) (now : time) : list observation :=
  (fun x => mkObs x.1 (se_assetType x.2) (se_snapshot x.2) now) <$> entries.

(** One delivery; [wall] is the wall clock, [meta] the delivery count. *)
Definition alarm_handler (wall : time) (meta : option Z) (data : bytes) (dm : Daemon) : Daemon * delivery :=
  match Unmarshal data with
  | None => (dm, Ack)
  | Some batch =>
      if negb (str_eqb (tb_Encoding batch) "promtext") then (dm, Ack)
      else
        let now := or_wall wall (tb_Timestamp batch) in
        let entries := shuffle (map_to_list (decodeBatch parseFloat (tb_Lines batch) d)) in
        let w := foldl (fun w x => Touch wall x.1 now w) (dm_watch dm) entries in
        let '(e, evs) := run (dm_engine dm) (observations entries now) in
        let w := touchFromHeartbeatLines wall (tb_Lines batch) now w in
        let '(st, failed) := processEvents sha16 mint autoTicket wall evs (dm_store dm) in
        (mkDaemon e w st,
         if failed then NakDelay (NakBackoff (DeliveryCount meta)) else Ack)
  end.

Definition NewDaemon (rules : list AlarmRule) (stale : Duration) (st : Store) : Daemon :=
  mkDaemon (NewEngine rules) (NewWatch stale) st.

(** One tick of [runFreshnessLoop]; a row that could not be written is only
    counted. *)
Fixpoint upsert_gaps (evs : list Event) (st : Store) : Store :=
  match evs with
  | [] => st
  | ev :: evs' => upsert_gaps evs' (Upsert sha16 ev st).1
  end.
Definition freshness_tick (duration_text : Duration -> string) (wall now : time) (trk : gapTracker) (dm : Daemon) :
    Daemon * gapTracker * list Event :=
  let '(trk, evs) := evaluateFreshness duration_text wall now (dm_watch dm) trk in
  (mkDaemon (dm_engine dm) (dm_watch dm) (upsert_gaps evs (dm_store dm)), trk, evs).

(** Messages one after the other, each with the clock and its count. *)
Definition alarm_msg : Type := time * option Z * bytes.
Fixpoint alarm_run (msgs : list alarm_msg) (dm : Daemon) : Daemon * list delivery :=
  match msgs with
  | [] => (dm, [])
  | (wall, meta, data) :: msgs' =>
      let '(dm, r) := alarm_handler wall meta data dm in
      let '(dm, rs) := alarm_run msgs' dm in (dm, r :: rs)
  end.
End handler.

(** ** The rows mirror the engine *)

(** No two of the keys in use have the same digest. *)
Definition no_collision (sha16 : string -> string) (names assets : list string) : Prop :=
  forall n1 n2 a1 a2, n1 ∈ names -> n2 ∈ names -> a1 ∈ assets -> a2 ∈ assets ->
    eventID sha16 n1 a1 = eventID sha16 n2 a2 -> event_key n1 a1 = event_key n2 a2.

Section mirror.
Context (sha16 : string -> string) (mint : nat -> string).
Context (names assets : list string) (Hsha : no_collision sha16 names assets).
Context (Hbar : Forall (fun n => no_byte "|" n = true) names).

(** A key whose rule name has no bar tells the rule and the asset. *)
Lemma eventID_inj n1 a1 n2 a2 : n1 ∈ names -> n2 ∈ names -> a1 ∈ assets -> a2 ∈ assets ->
  eventID sha16 n1 a1 = eventID sha16 n2 a2 -> n1 = n2 /\ a1 = a2.
Proof using Hsha Hbar.
  intros Hn1 Hn2 Ha1 Ha2 Heq. apply Hsha, (f_equal (cut_at "|")) in Heq; [|done..]. unfold event_key in Heq.
  cbn [String.append] in Heq. rewrite !cut_at_app in Heq by by eapply (proj1 (Forall_forall _ _) Hbar).
  by injection Heq.
Qed.

(** The row of one pair after some events, from the events of that pair. *)
Definition row_step (row : option alarm_row) (ev : Event) : option alarm_row := Some (upsert_row ev row).

Definition nameable (evs : list Event) : Prop :=
  Forall (fun ev => ev_RuleName ev ∈ names /\ ev_AssetPath ev ∈ assets) evs.

(** A ticket touches no row; without failing statements nothing fails. *)
Lemma OpenTicket_keeps now ev st : st_script st = [] ->
  st_script (OpenTicket sha16 mint now ev st).1 = [] /\
  st_alarms (OpenTicket sha16 mint now ev st).1 = st_alarms st.
Proof using Type.
  intros Hst. unfold OpenTicket, next_ok. rewrite Hst. cbn [negb]. by repeat case_match.
Qed.

Lemma processEvents_acks auto now evs : forall st, st_script st = [] ->
  (processEvents sha16 mint auto now evs st).2 = false /\ st_script (processEvents sha16 mint auto now evs st).1 = [].
Proof using Type.
  induction evs as [|ev evs IH]; intros st Hst; cbn [processEvents]; [done|].
  unfold Upsert, next_ok. rewrite Hst. cbn [negb orb]. set (st1 := mkStore _ _ _ _).
  pose proof (OpenTicket_keeps now ev st1 Hst) as [H2 _]. set (st2 := if auto && _ then _ else st1).
  destruct (IH st2) as [H3 H4]; [unfold st2; by destruct (auto && _)|].
  by destruct (processEvents _ _ _ _ evs st2) as [st' failed].
Qed.

(** Without failing statements the rows are a fold of the events. *)
Lemma processEvents_rows auto now evs n a : nameable evs -> n ∈ names -> a ∈ assets -> forall st,
  st_script st = [] ->
  st_alarms (processEvents sha16 mint auto now evs st).1 !! eventID sha16 n a =
  foldl row_step (st_alarms st !! eventID sha16 n a) (events_of n a evs).
Proof using Hsha Hbar.
  intros Hev Hn Ha. induction Hev as [|ev evs [Hname Hpath] _ IH]; intros st Hst; cbn [processEvents]; [done|].
  unfold Upsert, next_ok. rewrite Hst. cbn [negb]. set (st1 := mkStore (<[_ := _]> _) _ _ _).
  pose proof (OpenTicket_keeps now ev st1 Hst) as [H2 H3]. set (st2 := if auto && _ then _ else st1).
  assert (H4 : st_alarms st2 = st_alarms st1) by (unfold st2; by destruct (auto && _)).
  specialize (IH st2 ltac:(unfold st2; by destruct (auto && _))).
  destruct (processEvents _ _ _ _ evs st2) as [st' failed]. cbn [fst] in *. rewrite IH, H4. cbn [st_alarms st1].
  unfold events_of. cbn [List.filter].
  destruct (str_eqb (ev_RuleName ev) n && str_eqb (ev_AssetPath ev) a) eqn:E.
  - bool_simpl. rename select (str_eqb _ n = true) into En. rename select (str_eqb _ a = true) into Ea.
    apply str_eqb_eq in En as <-. apply str_eqb_eq in Ea as <-. by rewrite lookup_insert_eq.
  - rewrite lookup_insert_ne; [done|]. intros Heq. apply eventID_inj in Heq as [En Ea]; [|done..].
    by rewrite En, Ea, !str_eqb_refl in E.
Qed.

(** The row of an instance: none before it first fires, then its state. *)
Definition mirrors (i : instance) (row : option alarm_row) : Prop :=
  match row with
  | None => i_state i = StateResolved
  | Some row => ar_state row = i_state i /\ i_state i <> StateAcked /\ ar_path row = i_assetPath i /\
                ar_severity row = sp_Severity (r_Spec (i_rule i))
  end.

Lemma tick_silent i s t : (tick i s t).2 = None -> i_state (tick i s t).1 = i_state i.
Proof using Type. unfold tick. destruct (i_state i) eqn:E; repeat case_match; cbn; congruence. Qed.

Lemma tick_severity i s t ev : (tick i s t).2 = Some ev -> ev_Severity ev = sp_Severity (r_Spec (i_rule i)).
Proof using Type. unfold tick. repeat case_match; intros; simplify_eq/=; done. Qed.

Lemma mirrors_live i row : mirrors i row -> live i.
Proof using Type. unfold mirrors, live. destruct row; [by intros (_ & ? & _)|by intros ->]. Qed.

Lemma tick_mirrors i s t row : mirrors i row ->
  mirrors (tick i s t).1 (foldl row_step row (option_list (tick i s t).2)).
Proof using Type.
  intros Hm. pose proof (mirrors_live i row Hm) as Hl. pose proof (tick_live i s t Hl) as Hl'.
  pose proof (tick_identity i s t) as (Hr & Ha & _). destruct (tick i s t).2 as [ev|] eqn:E; cbn [option_list foldl].
  - unfold mirrors, row_step, upsert_row. cbn. pose proof (tick_severity _ _ _ _ E) as Hsev.
    apply tick_event in E as (_ & Hpath & _ & Hst & _). rewrite Ha, Hr. done.
  - pose proof (tick_silent _ _ _ E) as Hst. unfold mirrors in *. rewrite Hst, Hr, Ha. by destruct row.
Qed.

Lemma run_ticks_mirrors l : forall i row, mirrors i row ->
  mirrors (run_ticks i l).1 (foldl row_step row (run_ticks i l).2).
Proof using Type.
  induction l as [|[s t] l IH]; intros i row Hm; [done|]. rewrite run_ticks_cons. cbn [fst snd].
  rewrite foldl_app. by apply IH, tick_mirrors.
Qed.
End mirror.

(** The events of a run are named after the rules of the engine. *)
Lemma observe_rules_names rules a ty s t : forall insts, AlarmEngine.keyed insts ->
  Forall (fun ev => ev_RuleName ev ∈ rule_name <$> rules /\ ev_AssetPath ev = a) (observe_rules rules insts a ty s t).2.
Proof.
  induction rules as [|r rules IH]; intros insts Hk; [constructor|]. rewrite observe_rules_cons.
  destruct (str_eqb _ _).
  - cbn zeta. cbn [snd]. apply Forall_app. split.
    + destruct (tick (current insts r a) s t).2 as [ev|] eqn:E; cbn; [|constructor]. constructor; [|constructor].
      apply tick_event in E as (-> & -> & _). destruct (current_keyed insts r a Hk) as [-> ->]. split; [by left|done].
    + eapply Forall_impl; [apply IH, tick_keyed, Hk|]. intros ev [? ?]. split; [by right|done].
  - eapply Forall_impl; [by apply IH|]. intros ev [? ?]. split; [by right|done].
Qed.

(** What a run keeps of an engine: the machines are of its own rules. *)
Definition owned (rules : list AlarmRule) (insts : gmap dedupKey instance) : Prop :=
  forall k i, insts !! k = Some i -> i_rule i ∈ rules.
Record engine_ok (rules : list AlarmRule) (e : Engine) : Prop := mkEngineOk {
  eo_rules : e_rules e = rules;
  eo_keyed : AlarmEngine.keyed (e_instances e);
  eo_owned : owned rules (e_instances e)
}.

Lemma current_owned rules insts r a : owned rules insts -> r ∈ rules -> i_rule (current insts r a) ∈ rules.
Proof. unfold current. intros Ho Hr. destruct (insts !! _) eqn:E; cbn; [by eapply Ho|done]. Qed.

Lemma observe_rules_owned all rules a ty s t : rules ⊆ all -> forall insts, owned all insts ->
  owned all (observe_rules rules insts a ty s t).1.
Proof.
  induction rules as [|r rules IH]; intros Hsub insts Ho; [done|]. rewrite observe_rules_cons.
  destruct (str_eqb _ _); [|apply IH; [set_solver|done]]. cbn zeta. cbn [fst]. apply IH; [set_solver|].
  intros k i [[_ <-]|[_ Hi]]%lookup_insert_Some; [|by eapply Ho].
  destruct (tick_identity (current insts r a) s t) as (-> & _ & _). apply current_owned; [done|set_solver].
Qed.

Lemma observe_rules_keyed rules a ty s t : forall insts, AlarmEngine.keyed insts ->
  AlarmEngine.keyed (observe_rules rules insts a ty s t).1.
Proof.
  induction rules as [|r rules IH]; intros insts Hk; [done|]. rewrite observe_rules_cons.
  destruct (str_eqb _ _); [|by apply IH]. cbn zeta. cbn [fst]. by apply IH, tick_keyed.
Qed.

Lemma new_engine_ok rules : engine_ok rules (NewEngine rules).
Proof. split; [done|intros ? ? ?|intros ? ?]; cbn; by rewrite lookup_empty. Qed.

Lemma Observe_ok rules e a ty s t : NoDup (rule_name <$> rules) -> engine_ok rules e ->
  engine_ok rules (Observe e a ty s t).1 /\
  Forall (fun ev => ev_RuleName ev ∈ rule_name <$> rules /\ ev_AssetPath ev = a) (Observe e a ty s t).2.
Proof.
  intros Hnd [Hr Hk Ho]. unfold Observe. destruct (str_eqb ty EmptyString); [split; [done|constructor]|].
  pose proof (observe_rules_names rules a ty s t _ Hk) as Hn. rewrite Hr.
  pose proof (observe_rules_keyed rules a ty s t _ Hk) as Hk'.
  pose proof (observe_rules_owned rules rules a ty s t ltac:(done) _ Ho) as Ho'.
  destruct (observe_rules _ _ _ _ _ _) as [insts evs]. by split.
Qed.

Lemma run_ok rules (assets : list string) obs : NoDup (rule_name <$> rules) -> Forall (fun o => o_asset o ∈ assets) obs ->
  forall e, engine_ok rules e -> engine_ok rules (run e obs).1 /\
  Forall (fun ev => ev_RuleName ev ∈ rule_name <$> rules /\ ev_AssetPath ev ∈ assets) (run e obs).2.
Proof.
  intros Hnd Hobs. induction Hobs as [|o obs Ho _ IH]; intros e He; cbn [run]; [split; [done|constructor]|].
  destruct (Observe_ok rules e (o_asset o) (o_type o) (o_snap o) (o_now o) Hnd He) as [He1 Hn1].
  destruct (Observe e _ _ _ _) as [e1 evs1]. cbn [fst snd] in *. destruct (IH e1 He1) as [He2 Hn2].
  destruct (run e1 obs) as [e2 evs2]. cbn [fst snd] in *. split; [done|]. apply Forall_app. split; [|done].
  eapply Forall_impl; [exact Hn1|]. by intros ev [? ->].
Qed.

Section daemon.
Context (parseFloat : string -> option float64) (sha16 : string -> string) (mint : nat -> string).
Context (Unmarshal : bytes -> option TelemetryBatch) `{MapOrderOk} (d : Dict) (autoTicket : bool).
Context (rules : list AlarmRule) (Hnd : NoDup (rule_name <$> rules)).
Context (Hbar : Forall (fun n => no_byte "|" n = true) (rule_name <$> rules)).
Context (assets : list string) (Hsha : no_collision sha16 (rule_name <$> rules) assets).

Abbreviation handler := (alarm_handler parseFloat sha16 mint Unmarshal d autoTicket).

Definition daemon_ok (dm : Daemon) : Prop :=
  engine_ok rules (dm_engine dm) /\ st_script (dm_store dm) = [] /\
  forall r a, r ∈ rules -> a ∈ assets -> mirrors (current (e_instances (dm_engine dm)) r a)
    (st_alarms (dm_store dm) !! eventID sha16 (rule_name r) a).

(** The message is about the assets in hand. *)
Definition about_assets (data : bytes) : Prop :=
  match Unmarshal data with
  | Some batch => forall a, is_Some (decodeBatch parseFloat (tb_Lines batch) d !! a) -> a ∈ assets
  | None => True
  end.

Lemma handler_ok wall meta data dm : about_assets data -> daemon_ok dm ->
  daemon_ok (handler wall meta data dm).1 /\ (handler wall meta data dm).2 = Ack.
Proof using All.
  intros Habout Hdm. pose proof Hdm as (He & Hst & Hm). unfold alarm_handler.
  unfold about_assets in Habout. destruct (Unmarshal data) as [batch|]; [|done].
  destruct (negb _); [done|]. cbn zeta. set (now := or_wall _ _). set (obs := observations _ now).
  assert (Hobs : Forall (fun o => o_asset o ∈ assets) obs).
  { apply Forall_forall. intros o ([p x] & -> & Hin)%list_elem_of_fmap. cbn. apply Habout.
    rewrite shuffle_perm in Hin. apply elem_of_map_to_list in Hin. by eexists. }
  pose proof (run_ok rules assets obs Hnd Hobs (dm_engine dm) He) as [He' Hnames].
  pose proof He as [Her Hek _].
  assert (Hkey : forall r a, r ∈ rules -> a ∈ assets ->
    let '(e', evs) := run (dm_engine dm) obs in
    forall st', st_alarms st' !! eventID sha16 (rule_name r) a =
      foldl row_step (st_alarms (dm_store dm) !! eventID sha16 (rule_name r) a) (events_of (rule_name r) a evs) ->
    mirrors (current (e_instances e') r a) (st_alarms st' !! eventID sha16 (rule_name r) a)).
  { intros r a Hr Ha. pose proof (run_key (dm_engine dm) obs r a Hek) as Hk. rewrite Her in Hk.
    specialize (Hk Hnd Hr). destruct (run _ _) as [e evs]. destruct Hk as [-> Hev]. intros st' ->. rewrite Hev.
    by apply run_ticks_mirrors, Hm. }
  destruct (run (dm_engine dm) obs) as [e evs]. cbn [fst snd] in *.
  pose proof (processEvents_acks sha16 mint autoTicket wall evs (dm_store dm) Hst) as Hacks.
  pose proof (fun n a Hn Ha => processEvents_rows sha16 mint _ _ Hsha Hbar autoTicket wall evs n a Hnames Hn Ha
    (dm_store dm) Hst) as Hrows.
  destruct (processEvents _ _ _ _ _ _) as [st' failed]. cbn [fst snd] in *. destruct Hacks as [-> Hs].
  split; [|done]. split; [done|]. split; [done|]. intros r a Hr Ha. apply Hkey; [done..|].
  apply Hrows; [|done]. apply list_elem_of_fmap. by exists r.
Qed.

Lemma alarm_run_ok msgs : Forall (fun m => about_assets m.2) msgs -> forall dm, daemon_ok dm ->
  daemon_ok (alarm_run parseFloat sha16 mint Unmarshal d autoTicket msgs dm).1 /\
  Forall (eq Ack) (alarm_run parseFloat sha16 mint Unmarshal d autoTicket msgs dm).2.
Proof using All.
  induction 1 as [|[[wall meta] data] msgs Habout _ IH]; intros dm Hdm; cbn [alarm_run]; [split; [done|constructor]|].
  destruct (handler_ok wall meta data dm Habout Hdm) as [Hdm1 Hr]. destruct (handler wall meta data dm) as [dm1 r].
  cbn [fst snd] in *. destruct (IH dm1 Hdm1) as [Hdm2 Hrs]. destruct (alarm_run _ _ _ _ _ _ msgs dm1) as [dm2 rs].
  cbn [fst snd] in *. split; [done|]. by constructor.
Qed.

End daemon.

(** ** Delivering a message again *)

(** Seeing the same readings at the same instant again says nothing new. *)
Lemma tick_again i s t : (0 <= sp_ForDuration (r_Spec (i_rule i)))%Z -> (tick (tick i s t).1 s t).2 = None.
Proof.
  intros Hfor. assert (Hsub : time_sub t t = 0%Z) by (unfold time_sub; rewrite Z.sub_diag; reflexivity).
  unfold tick. destruct (i_state i) eqn:Es.
  - destruct (satisfied (i_rule i) s) eqn:Esat; [cbn [fst]; by rewrite Es, Esat|].
    destruct (i_recovery i s) as [[]|] eqn:Er; cbn [fst set_state i_state i_rule]; [by rewrite Esat|..];
      by rewrite Es, Esat, Er.
  - destruct (satisfied (i_rule i) s) eqn:Esat; [|cbn; by rewrite Esat].
    destruct (Z.eqb_spec (sp_ForDuration (r_Spec (i_rule i))) 0) as [E0|E0]; [cbn; by rewrite Esat|].
    assert (Hz : (sp_ForDuration (r_Spec (i_rule i)) =? 0)%Z = false) by (by apply Z.eqb_neq).
    destruct (IsZero (i_firstSatisfiedAt i)) eqn:Ez.
    + cbn. rewrite Esat, Hz. destruct (IsZero t) eqn:Et; [done|]. rewrite Hsub.
      destruct (Z.leb_spec (sp_ForDuration (r_Spec (i_rule i))) 0); [lia|done].
    + destruct (sp_ForDuration (r_Spec (i_rule i)) <=? _)%Z eqn:El; cbn; [by rewrite Esat|].
      by rewrite Es, Esat, Hz, Ez, El.
  - cbn. by rewrite Es.
Qed.

Lemma events_of_nil (rules : list AlarmRule) (assets : list string) evs :
  Forall (fun ev => ev_RuleName ev ∈ rule_name <$> rules /\ ev_AssetPath ev ∈ assets) evs ->
  (forall r a, r ∈ rules -> a ∈ assets -> events_of (rule_name r) a evs = []) -> evs = [].
Proof.
  destruct evs as [|ev evs]; [done|]. intros [[Hn Ha] _]%Forall_cons Hall.
  apply list_elem_of_fmap in Hn as (r & Hn & Hr). specialize (Hall r (ev_AssetPath ev) Hr Ha).
  unfold events_of in Hall. cbn [List.filter] in Hall. by rewrite Hn, !str_eqb_refl in Hall.
Qed.

(** Of each asset a batch has one reading. *)
Lemma samples_once r a obs : NoDup (o_asset <$> obs) ->
  samples_for r a obs = [] \/ exists x, samples_for r a obs = [x].
Proof.
  unfold samples_for. induction obs as [|o obs IH]; intros Hnd; cbn; [by left|].
  apply NoDup_cons in Hnd as [Hni Hnd]. destruct (IH Hnd) as [E|[x E]].
  - destruct (_ && _); [right; cbn; rewrite E; by eexists|by left].
  - destruct (str_eqb (o_asset o) a) eqn:Ea; [|right; by exists x].
    apply str_eqb_eq in Ea as <-. exfalso. apply Hni, list_elem_of_In.
    destruct (List.filter _ obs) as [|y ys] eqn:Ef; [done|].
    assert (Hy : List.In y (List.filter (fun o0 => str_eqb (o_asset o0) (o_asset o) &&
        str_eqb (applies_to r) (o_type o0) && negb (str_eqb (o_type o0) EmptyString)) obs)) by (rewrite Ef; by left).
    apply List.filter_In in Hy as [Hy Hp]. bool_simpl. rename select (str_eqb (o_asset y) _ = true) into Hya.
    apply str_eqb_eq in Hya as <-. by apply List.in_map.
Qed.

Lemma samples_permuted r a obs obs' : obs ≡ₚ obs' -> samples_for r a obs ≡ₚ samples_for r a obs'.
Proof.
  unfold samples_for. intros Hp. apply Permutation_map.
  induction Hp; cbn; repeat case_match; econstructor; eauto.
Qed.

(** Whatever the order the assets are visited in. *)
Lemma run_again rules e obs obs' : NoDup (rule_name <$> rules) -> engine_ok rules e -> NoDup (o_asset <$> obs) ->
  obs ≡ₚ obs' -> Forall (fun r => (0 <= sp_ForDuration (r_Spec r))%Z) rules ->
  (run (run e obs).1 obs').2 = [].
Proof.
  intros Hnd He Ho Hperm Hrs. assert (Hobs' : Forall (fun o => o_asset o ∈ o_asset <$> obs') obs').
  { apply Forall_forall. intros o Hin. by apply list_elem_of_fmap_2. }
  assert (Hobs : Forall (fun o => o_asset o ∈ o_asset <$> obs) obs).
  { apply Forall_forall. intros o Hin. by apply list_elem_of_fmap_2. }
  pose proof (run_ok rules _ obs Hnd Hobs e He) as [He1 _].
  pose proof (run_ok rules _ obs' Hnd Hobs' _ He1) as [_ Hn2].
  apply (events_of_nil _ _ _ Hn2). intros r a Hr _.
  destruct He as [Her Hek Hown], He1 as [Her1 Hek1 _].
  pose proof (run_key e obs r a Hek) as H1. rewrite Her in H1. specialize (H1 Hnd Hr).
  destruct (run e obs) as [e1 evs1]. cbn [fst] in *. destruct H1 as [H1 _].
  pose proof (run_key e1 obs' r a Hek1) as H2. rewrite Her1 in H2. specialize (H2 Hnd Hr).
  destruct (run e1 obs') as [e2 evs2]. destruct H2 as [_ H2]. cbn [snd]. rewrite H2, H1.
  pose proof (samples_permuted r a _ _ Hperm) as Hsp.
  destruct (samples_once r a obs Ho) as [E|[[s t] E]]; rewrite E in *.
  { by apply Permutation_nil in Hsp as ->. }
  apply Permutation_length_1_inv in Hsp as ->.
  rewrite !run_ticks_cons. cbn [run_ticks fst snd]. rewrite tick_again; [done|].
  by apply (proj1 (Forall_forall _ _) Hrs), current_owned.
Qed.

Section redelivery.
Context (parseFloat : string -> option float64) (sha16 : string -> string) (mint : nat -> string).
Context (Unmarshal : bytes -> option TelemetryBatch) (d : Dict) (autoTicket : bool).
Context (order1 order2 : MapOrder) (Ho1 : @MapOrderOk order1) (Ho2 : @MapOrderOk order2).
Context (rules : list AlarmRule) (Hnd : NoDup (rule_name <$> rules)).
Context (Hfor : Forall (fun r => (0 <= sp_ForDuration (r_Spec r))%Z) rules).

Abbreviation handle order := (@alarm_handler parseFloat sha16 mint Unmarshal order d autoTicket).
Abbreviation entries lines := (map_to_list (decodeBatch parseFloat lines d)).

Lemma batch_assets lines now : NoDup (o_asset <$> observations (@shuffle order1 _ (entries lines)) now).
Proof using Ho1.
  unfold observations. rewrite <- list_fmap_compose, (@shuffle_perm _ Ho1). cbn. apply NoDup_fst_map_to_list.
Qed.

Lemma batch_permuted lines now :
  observations (@shuffle order1 _ (entries lines)) now ≡ₚ observations (@shuffle order2 _ (entries lines)) now.
Proof using Ho1 Ho2. unfold observations. by rewrite (@shuffle_perm _ Ho1), (@shuffle_perm _ Ho2). Qed.

(** A redelivered message only moves the watch: whatever became of the first
    delivery's statements, the daemon takes the second delivery of a message
    that carries its own time, in whatever order the assets of the batch are
    visited, without an event, so it writes no row, opens no
    ticket and acknowledges it. *)
Lemma redelivery_silent wall wall' meta meta' data batch dm :
  engine_ok rules (dm_engine dm) -> Unmarshal data = Some batch -> IsZero (tb_Timestamp batch) = false ->
  let dm1 := (handle order1 wall meta data dm).1 in
  let '(dm2, r) := handle order2 wall' meta' data dm1 in
  r = Ack /\ dm_store dm2 = dm_store dm1.
Proof using Ho1 Ho2 Hnd Hfor.
  intros He Hu Hz. unfold alarm_handler. rewrite Hu. destruct (negb _); [done|]. cbn zeta.
  assert (Hnow : forall w, or_wall w (tb_Timestamp batch) = tb_Timestamp batch).
  { intros w. unfold or_wall. by rewrite Hz. }
  rewrite !Hnow. pose proof (run_again rules (dm_engine dm) _ _ Hnd He (batch_assets (tb_Lines batch) (tb_Timestamp batch))
    (batch_permuted _ _) Hfor) as Hsilent.
  set (obs := observations (@shuffle order1 _ _) _) in *. set (obs' := observations (@shuffle order2 _ _) _) in *.
  destruct (run (dm_engine dm) obs) as [e evs]. destruct (processEvents _ _ _ _ evs _) as [st failed].
  cbn [fst dm_engine dm_watch dm_store] in *. destruct (run e obs') as [e2 evs2]. cbn [snd] in Hsilent. subst evs2.
  done.
Qed.
End redelivery.

(** ** Tickets *)

(** At most one ticket of an alarm is not closed, whatever the statements do. *)
Definition one_open (l : list ticket_row) : Prop :=
  forall a, length (List.filter (open_for a) l) <= 1.

Lemma OpenTicket_one_open sha16 mint now ev st : one_open (st_tickets st) ->
  one_open (st_tickets (OpenTicket sha16 mint now ev st).1).
Proof.
  intros Ho. unfold OpenTicket, next_ok.
  set (p := match st_script st with [] => _ | _ => _ end).
  assert (Hp : st_tickets p.2 = st_tickets st) by (unfold p; by case_match).
  destruct p as [ok st1]. cbn in Hp. rewrite <- Hp in Ho. destruct (negb ok); [done|].
  destruct (existsb (open_for _) _) eqn:E; [done|]. destruct (existsb (window_hits _ _) _); [done|].
  cbn. intros a. rewrite List.filter_app, length_app. cbn [List.filter]. set (t := mkTicketRow _ _ _ _ _ _ _ _).
  destruct (open_for a t) eqn:Et; cbn; [|specialize (Ho a); lia].
  unfold open_for in Et. bool_simpl. rename select (str_eqb _ a = true) into Ea. apply str_eqb_eq in Ea. cbn in Ea.
  rewrite Ea in E. enough (List.filter (open_for a) (st_tickets st1) = []) as -> by (cbn; lia).
  clear -E. induction (st_tickets st1) as [|x l IH]; [done|]. cbn in *. apply orb_false_iff in E as [-> E]. by apply IH.
Qed.

Lemma processEvents_one_open sha16 mint auto now evs : forall st, one_open (st_tickets st) ->
  one_open (st_tickets (processEvents sha16 mint auto now evs st).1).
Proof.
  induction evs as [|ev evs IH]; intros st Ho; cbn [processEvents]; [done|].
  destruct (Upsert sha16 ev st) as [st1 ok] eqn:Eu.
  assert (H1 : st_tickets st1 = st_tickets st).
  { unfold Upsert, next_ok in Eu. repeat case_match; simplify_eq; done. }
  rewrite <- H1 in Ho. set (st2 := if auto && _ then _ else st1).
  assert (H2 : one_open (st_tickets st2)) by (unfold st2; destruct (_ && _); [by apply OpenTicket_one_open|done]).
  specialize (IH st2 H2). by destruct (processEvents _ _ _ _ evs st2).
Qed.

(** ** A concrete daemon

    One rule without a hold time over one temperature, one cooling unit. *)
Definition temp_rule : AlarmRule :=
  mkAlarmRule "AlarmRule" (mkRuleMetadata "temp-low" "cdu")
    (mkRuleSpec "fws1.supply.temp < 4" EmptyString "major" f0 ∅ 0)
    (mkCompiled (mkLogical KAnd [mkCmp OpLt (EIdent "fws1.supply.temp") (ENum (f_of_Z 4))]) ["fws1.supply.temp"]).
Definition temp_line (text : string) : string :=
  match Render (fun _ => text) demo_point f1 unix_epoch "good" demo_dict with Ok line => line | Err _ => EmptyString end.
Definition temp_cdu : string := "sgp01.pod002.cdu000".
Definition temp_msg (t : time) (text : string) : option bytes :=
  demo_Marshal (mkBatch "sgp01" "sgp01.pod002" t "promtext" [temp_line text; "garbage"]).
Definition msg_at (t : time) (text : string) : alarm_msg := (t, Some 1%Z, default [] (temp_msg t text)).

Abbreviation temp_run := (@alarm_run PromProj.demo_read id (fun n => "tk_1") demo_Unmarshal demo_order demo_dict true).
Abbreviation temp_daemon windows script := (NewDaemon [temp_rule] 0 (mkStore ∅ [] windows script)).
Definition temp_row (dm : Daemon) : option (State * time) :=
  (fun r => (ar_state r, ar_since r)) <$> st_alarms (dm_store dm) !! event_key "temp-low" temp_cdu.
Abbreviation temp_state dm := (i_state (current (e_instances (dm_engine dm)) temp_rule temp_cdu)).

(** Firing, recovery and firing again: one ticket, and the row keeps the
    beginning of the first episode. *)
Definition temp_story : list alarm_msg := [msg_at 100 "3"; msg_at 200 "6"; msg_at 300 "3"].
Example since_of_first_episode :
  let '(dm, rs) := temp_run temp_story (temp_daemon [] []) in
  rs = [Ack; Ack; Ack] /\ temp_row dm = Some (StateFiring, 100%Z) /\ i_since (current (e_instances (dm_engine dm)) temp_rule temp_cdu) = 300%Z /\
  length (st_tickets (dm_store dm)) = 1.
Proof. vm_compute. done. Qed.

(** The statement of the transition fails: the message is handed back, and its
    redelivery is acknowledged with the row still missing. *)
Example lost_transition :
  let '(dm, rs) := temp_run [msg_at 100 "3"; (150%Z, Some 2%Z, default [] (temp_msg 100 "3"))] (temp_daemon [] [false]) in
  rs = [NakDelay (NakBackoff 1); Ack] /\ temp_row dm = None /\ temp_state dm = StateFiring.
Proof. vm_compute. done. Qed.

(** A maintenance window of the pod does not keep the ticket of a unit of the
    pod from being opened; one of a part of the unit does. *)
Example windows_of_parts :
  (fun w => length (st_tickets (dm_store (temp_run [msg_at 100 "3"]
     (temp_daemon [mkWindowRow "mw_1" w 0 1000] [])).1))) <$> ["sgp01.pod002"; temp_cdu; "sgp01.pod002.cdu000.gpu1"]
  = [1; 0; 0].
Proof. vm_compute. done. Qed.

Lemma temp_rules_nd : NoDup (rule_name <$> [temp_rule]).
Proof. apply NoDup_singleton. Qed.
Lemma temp_rules_hold : Forall (fun r => (0 <= sp_ForDuration (r_Spec r))%Z) [temp_rule].
Proof. repeat constructor; done. Qed.
Definition about_list (data : bytes) : list string :=
  match demo_Unmarshal data with
  | Some batch => (map_to_list (decodeBatch PromProj.demo_read (tb_Lines batch) demo_dict)).*1
  | None => []
  end.
Lemma about_list_about assets data : Forall (fun p => p ∈ assets) (about_list data) ->
  about_assets PromProj.demo_read demo_Unmarshal demo_dict assets data.
Proof.
  unfold about_list, about_assets. destruct (demo_Unmarshal data) as [batch|]; [|done].
  intros Hall a [x Hx]. apply (proj1 (Forall_forall _ _) Hall). apply list_elem_of_fmap. exists (a, x).
  split; [done|]. by apply elem_of_map_to_list.
Qed.
Definition about_list_in (assets : list string) (data : bytes) : bool :=
  bool_decide (Forall (fun p => p ∈ assets) (about_list data)).
Lemma about_list_all assets (msgs : list alarm_msg) : forallb (fun m => about_list_in assets m.2) msgs = true ->
  Forall (fun m => about_assets PromProj.demo_read demo_Unmarshal demo_dict assets m.2) msgs.
Proof.
  intros Hf. apply Forall_forall. intros m Hm. apply about_list_about, (bool_decide_eq_true_1 (Forall _ _)).
  by apply (proj1 (forallb_forall _ _) Hf), list_elem_of_In.
Qed.
Lemma temp_story_about :
  Forall (fun m => about_assets PromProj.demo_read demo_Unmarshal demo_dict [temp_cdu] m.2) temp_story.
Proof. apply about_list_all. vm_compute. reflexivity. Qed.

Lemma id_no_collision names assets : no_collision id names assets.
Proof. by intros n1 n2 a1 a2 _ _ _ _ Heq. Qed.
Lemma temp_no_bar : Forall (fun n => no_byte "|" n = true) (rule_name <$> [temp_rule]).
Proof. by repeat constructor. Qed.


Lemma redelivery_silent_witness :
  let '(dm1, r1) := @alarm_handler PromProj.demo_read id (fun n => "tk_1") demo_Unmarshal demo_order demo_dict true
    100 (Some 1%Z) (default [] (temp_msg 100 "3")) (temp_daemon [] [false]) in
  let '(dm2, r2) := @alarm_handler PromProj.demo_read id (fun n => "tk_1") demo_Unmarshal demo_order demo_dict true
    150 (Some 2%Z) (default [] (temp_msg 100 "3")) dm1 in
  r1 = NakDelay (NakBackoff 1) /\ r2 = Ack /\ dm_store dm2 = dm_store dm1.
Proof.
  destruct (temp_msg 100 "3") as [data|] eqn:Em; [|discriminate Em]. cbn [default]. change (id data) with data.
  pose proof (redelivery_silent PromProj.demo_read id (fun n => "tk_1") demo_Unmarshal demo_dict true demo_order demo_order
    demo_order_ok demo_order_ok [temp_rule] temp_rules_nd temp_rules_hold 100 150 (Some 1%Z) (Some 2%Z) data _
    (temp_daemon [] [false]) (new_engine_ok _) (demo_Unmarshal_Marshal _ _ Em) eq_refl) as Hw.
  assert (Hr : (@alarm_handler PromProj.demo_read id (fun n => "tk_1") demo_Unmarshal demo_order demo_dict true
    100 (Some 1%Z) data (temp_daemon [] [false])).2 = NakDelay (NakBackoff 1)).
  { injection Em as <-. vm_compute. reflexivity. }
  destruct (alarm_handler _ _ _ _ _ _ 100 _ data _) as [dm1 r1]. cbn [fst snd] in *.
  destruct (alarm_handler _ _ _ _ _ _ 150 _ data dm1) as [dm2 r2]. destruct Hw as [Hw1 Hw2]. by split.
Defined.

(** A gap whose row could not be written is not reported again: the next tick has
    no event, and the table never says that the pipeline is silent. *)
Example lost_gap :
  let dm := (temp_run [msg_at 100 "6"] (temp_daemon [] [])).1 in
  let dm := mkDaemon (dm_engine dm) (dm_watch dm) (mkStore ∅ [] [] [false]) in
  let tick n := @freshness_tick id demo_order (fun _ => "10m0s") 0 (n * Hour)%Z in
  let '(dm1, trk1, evs1) := tick 1%Z newGapTracker dm in
  let '(dm2, trk2, evs2) := tick 2%Z trk1 dm1 in
  ev_State <$> evs1 = [StateFiring] /\ evs2 = [] /\ is_Some (trk2 !! temp_cdu) /\ st_alarms (dm_store dm2) = ∅.
Proof. vm_compute. split_and!; try done. by eexists. Qed.
