(* ===== verification/Tokens.v ===== *)
(** * Signed tokens and cookies (pkg/sts, pkg/authn/session.go and the cookie
      part of pkg/authn/handler.go)

    The token service: signing and parsing of API tokens, the exchange, the
    client-credentials grant, revocation; the session cookie and the state
    cookie.  All three are messages with a MAC under a secret key.  What they
    promise is stated relative to the messages the service has signed: whoever
    cannot produce a MAC can present no other message.

    The MAC (HMAC-SHA256) and the JSON text of the claims are arguments.  A
    [Codec] is an encoder with its decoder; the law is that decoding gives the
    value back, for the values [representable] in JSON text (a string that is
    not UTF-8 is not). *)
From S2P Require Import Prelude Float64 GoTime Cursor.
Open Scope string_scope.
Open Scope list_scope.

(** ** Seconds since 1970 *)

Definition unixToInternal : Z := 62135596800.
Definition Unix (t : time) : Z := wrap64 (time_sec t - unixToInternal).
Definition time_Unix (sec : Z) : time := at_sec (wrap64 (sec + unixToInternal)) 0.

(** [int(d.Seconds())] *)
Definition Seconds (d : Duration) : float64 :=
  fadd (f_of_Z (Z.quot d Second)) (fdiv (f_of_Z (Z.rem d Second)) (f_of_Z Second)).
Definition int_seconds (d : Duration) : Z := default 0%Z (ftrunc (Seconds d)).

(** ** JSON text *)

Record Codec (A : Type) : Type := mkCodec { enc : A -> string; dec : string -> option A }.
Arguments mkCodec {A}. Arguments enc {A}. Arguments dec {A}.

Definition codec_law {A} (c : Codec A) (representable : A -> Prop) : Prop :=
  forall a, representable a -> dec c (enc c a) = Some a.

Definition QUOTE : ascii := Ascii.ascii_of_nat 34.
Definition quoted (s : string) : string := String QUOTE (s +:+ String QUOTE EmptyString).

(** [splitDots] of both packages: the pieces between the dots, cut to three. *)
Definition splitDots (s : string) : list string :=
  let out := split "." s in if (3 <? length out)%nat then take 3 out else out.

(** ** pkg/sts/token.go *)

Record TokenClaims : Type := mkClaims
  { t_Subject : string; t_Realm : string; t_Audience : string; t_Scope : list string;
    t_JTI : string; t_Expiry : time; t_Tenant : string; t_IsolationTier : string;
    t_Org : string; t_Sites : list string }.

#[export] Instance TokenClaims_eq_dec : EqDecision TokenClaims.
Proof. solve_decision. Defined.

Record wireClaims : Type := mkWire
  { w_Sub : string; w_Realm : string; w_Aud : string; w_Scope : list string; w_JTI : string;
    w_Exp : Z; w_Iat : Z; w_Tenant : string; w_Tier : string; w_Org : string;
    w_Sites : list string }.

#[export] Instance wireClaims_eq_dec : EqDecision wireClaims.
Proof. solve_decision. Defined.

Inductive sts_err : Type :=
  | EEmptyKey | ENoSubject | ENoRealm | ENoJTI | EZeroExpiry
  | ErrRealmUnknown | EMintJTI | ErrBadCredentials | ErrScopeExceeded.

#[export] Instance sts_err_eq_dec : EqDecision sts_err.
Proof. solve_decision. Defined.

(** [json.Marshal(tokenHeader)] *)
Definition header_json : string :=
  "{" +:+ quoted "alg" +:+ ":" +:+ quoted "HS256" +:+ "," +:+
  quoted "typ" +:+ ":" +:+ quoted "JWT" +:+ "}".

Definition to_wire (c : TokenClaims) (iat : Z) : wireClaims :=
  mkWire (t_Subject c) (t_Realm c) (t_Audience c) (t_Scope c) (t_JTI c) (Unix (t_Expiry c)) iat
    (t_Tenant c) (t_IsolationTier c) (t_Org c) (t_Sites c).

Definition of_wire (w : wireClaims) : TokenClaims :=
  mkClaims (w_Sub w) (w_Realm w) (w_Aud w) (w_Scope w) (w_JTI w) (time_Unix (w_Exp w))
    (w_Tenant w) (w_Tier w) (w_Org w) (w_Sites w).

Section sts.
Context (hmac : string -> string -> string).
Context (claims_json : Codec wireClaims) (header_alg : string -> option string).

(** What the signature covers. *)
Definition token_message (w : wireClaims) : string :=
  b64_encode header_json +:+ "." +:+ b64_encode (enc claims_json w).

Definition Sign (key : string) (c : TokenClaims) (now : time) : result sts_err string :=
  if str_eqb key EmptyString then Err EEmptyKey
  else if str_eqb (t_Subject c) EmptyString then Err ENoSubject
  else if str_eqb (t_Realm c) EmptyString then Err ENoRealm
  else if str_eqb (t_JTI c) EmptyString then Err ENoJTI
  else if IsZero (t_Expiry c) then Err EZeroExpiry
  else
    let m := token_message (to_wire c (Unix now)) in
    Ok (m +:+ "." +:+ b64_encode (hmac key m)).

(** Every failure of [Parse] is the one error [ErrTokenInvalid]. *)
Definition Parse (key raw : string) (now : time) : option TokenClaims :=
  if str_eqb key EmptyString then None
  else match splitDots raw with
  | [p0; p1; p2] =>
      hdr ← b64_decode p0;
      alg ← header_alg hdr;
      if negb (str_eqb alg "HS256") then None
      else
        payload ← b64_decode p1;
        w ← dec claims_json payload;
        sig ← b64_decode p2;
        if negb (str_eqb sig (hmac key (p0 +:+ "." +:+ p1))) then None
        else if str_eqb (w_Sub w) EmptyString || str_eqb (w_Realm w) EmptyString ||
                str_eqb (w_JTI w) EmptyString then None
        else if (w_Exp w <=? Unix now)%Z then None
        else Some (of_wire w)
  | _ => None
  end.

(** ** pkg/sts/sts.go, revoke.go *)

(** The signing key, the time to live and the revoker ([None] without one). *)
Record STS : Type := mkSTS { s_key : string; s_ttl : Duration; s_rev : option (gset string) }.

Definition realm_known (r : string) : bool := str_eqb r "ops" || str_eqb r "customer".

Definition CheckRealm (urlRealm sessionRealm : string) : option sts_err :=
  if negb (str_eqb urlRealm sessionRealm) then Some ErrRealmUnknown
  else if negb (realm_known urlRealm) then Some ErrRealmUnknown else None.

Definition IsRevoked (rev : option (gset string)) (jti : string) : bool :=
  match rev with Some r => bool_decide (jti ∈ r) | None => false end.

Definition Revoke (s : STS) (jti : string) : STS :=
  mkSTS (s_key s) (s_ttl s) ((fun r => {[ jti ]} ∪ r) <$> s_rev s).

(** The claims [Exchange] signs. *)
Definition exchange_claims (s : STS) (sub realm : string) (scope : list string) (jti : string)
    (now : time) : TokenClaims :=
  mkClaims sub realm realm scope jti (time_add now (s_ttl s)) EmptyString EmptyString EmptyString [].

(** [jti] is what the random source gave ([None] when it failed), [now] the
    service's clock and [wall] the clock of [Sign]. *)
Definition Exchange (s : STS) (sub realm : string) (scope : list string) (jti : option string)
    (now wall : time) : result sts_err (string * Z) :=
  if negb (realm_known realm) then Err ErrRealmUnknown
  else if str_eqb sub EmptyString then Err ENoSubject
  else match jti with
  | None => Err EMintJTI
  | Some j =>
      raw ← Sign (s_key s) (exchange_claims s sub realm scope j now) wall;
      Ok (raw, int_seconds (s_ttl s))
  end.

Definition Verify (s : STS) (raw : string) (wall now : time) : option TokenClaims :=
  c ← Parse (s_key s) raw wall;
  if negb (now <? t_Expiry c)%Z then None
  else if negb (realm_known (t_Realm c)) then None
  else if IsRevoked (s_rev s) (t_JTI c) then None
  else Some c.

(** ** pkg/sts/client_credentials.go *)

Record ServiceAccount : Type := mkAccount
  { sa_ClientID : string; sa_SecretHash : string; sa_MaxScope : list string; sa_Realm : string }.

Definition HashSecret (key secret : string) : string := hmac key secret.

Definition scopeContains (set : list string) (x : string) : bool :=
  existsb (fun v => str_eqb v x) set.

Definition account_realm (a : ServiceAccount) : string :=
  if str_eqb (sa_Realm a) EmptyString then "ops" else sa_Realm a.

Definition IssueClientCredentials (s : STS) (store : option (gmap string ServiceAccount))
    (clientID secret : string) (reqScope : list string) (jti : option string) (now wall : time) :
    result sts_err (string * Z) :=
  match store with
  | None => Err ErrBadCredentials
  | Some accounts =>
      if str_eqb clientID EmptyString || str_eqb secret EmptyString then Err ErrBadCredentials
      else match accounts !! clientID with
      | None => Err ErrBadCredentials
      | Some acct =>
          let want := HashSecret (s_key s) secret in
          if str_eqb (sa_SecretHash acct) EmptyString || negb (str_eqb (sa_SecretHash acct) want)
          then Err ErrBadCredentials
          else if negb (forallb (scopeContains (sa_MaxScope acct)) reqScope)
          then Err ErrScopeExceeded
          else Exchange s clientID (account_realm acct) reqScope jti now wall
      end
  end.

(** *** What [Parse] and [Verify] look at *)

(** The message and the MAC a string presents. *)
Definition presents (raw msg sig : string) : Prop :=
  exists p0 p1 p2, splitDots raw = [p0; p1; p2] /\ msg = p0 +:+ "." +:+ p1 /\
    b64_decode p2 = Some sig.

Lemma Parse_inv key raw now c :
  Parse key raw now = Some c ->
  exists p0 p1 p2 payload w,
    splitDots raw = [p0; p1; p2] /\ b64_decode p1 = Some payload /\
    dec claims_json payload = Some w /\ c = of_wire w /\
    presents raw (p0 +:+ "." +:+ p1) (hmac key (p0 +:+ "." +:+ p1)) /\ (Unix now < w_Exp w)%Z /\
    w_Sub w <> EmptyString /\ w_Realm w <> EmptyString /\ w_JTI w <> EmptyString.
Proof using.
  unfold Parse. destruct (str_eqb key EmptyString); [done|].
  destruct (splitDots raw) as [|p0 [|p1 [|p2 [|]]]] eqn:Es; try done.
  destruct (b64_decode p0) as [hdr|]; [|done]. cbn.
  destruct (header_alg hdr) as [alg|]; [|done]. cbn.
  destruct (str_eqb alg "HS256"); [|done]. cbn.
  destruct (b64_decode p1) as [payload|] eqn:Ep; [|done]. cbn.
  destruct (dec claims_json payload) as [w|] eqn:Ew; [|done]. cbn.
  destruct (b64_decode p2) as [sig|] eqn:Esig; [|done]. cbn.
  destruct (str_eqb sig _) eqn:Em; [|done]. apply str_eqb_eq in Em. cbn. subst sig.
  destruct (_ || _) eqn:Eo; [done|]. bool_simpl.
  destruct (Z.leb_spec (w_Exp w) (Unix now)); [done|]. intros [= <-].
  rewrite !str_eqb_neq in *. exists p0, p1, p2, payload, w. do 4 (split; [done|]).
  split; [by exists p0, p1, p2|done].
Qed.

(** Base64 text has no dot, so the three parts of a token can be told apart. *)
Lemma enc6_no_dot n : (n < 64)%N -> byte_eqb (enc6 n) "." = false.
Proof using.
  intros H. assert (n = N.of_nat (N.to_nat n)) as -> by lia.
  assert (N.to_nat n < 64) as Hm by lia. clear H. revert Hm. generalize (N.to_nat n). intros m Hm.
  do 64 (destruct m as [|m]; [reflexivity|]). lia.
Qed.

Lemma b64_no_dot x : no_byte "." (b64_encode x) = true.
Proof using.
  unfold no_byte. induction x as [|a|a b|a b c r IH] using string_ind3; [done|..].
  - byte_bounds a. cbn [b64_encode all_bytes]. by rewrite !enc6_no_dot by lia.
  - byte_bounds a. byte_bounds b. cbn [b64_encode all_bytes]. by rewrite !enc6_no_dot by lia.
  - byte_bounds a. byte_bounds b. byte_bounds c. cbn [b64_encode all_bytes].
    by rewrite !enc6_no_dot, IH by lia.
Qed.

Lemma split_three a b c : no_byte "." a = true -> no_byte "." b = true -> no_byte "." c = true ->
  splitDots (a +:+ "." +:+ b +:+ "." +:+ c) = [a; b; c].
Proof using.
  intros Ha Hb Hc. unfold splitDots. cbn [String.app].
  change ("." +:+ c) with (String "." c). rewrite (split_app_sep "." a), (split_app_sep "." b) by done.
  by rewrite split_no_sep.
Qed.

Lemma splitDots_no_dot raw p0 p1 p2 : splitDots raw = [p0; p1; p2] ->
  no_byte "." p0 = true /\ no_byte "." p1 = true /\ no_byte "." p2 = true.
Proof using.
  unfold splitDots. intros H. pose proof (split_no_byte "." raw) as Hf.
  assert (Forall (fun p => no_byte "." p = true) [p0; p1; p2]) as Hp.
  { rewrite <- H. destruct (3 <? _)%nat; [by apply Forall_take|done]. }
  rewrite !Forall_cons in Hp. by destruct Hp as (? & ? & ? & _).
Qed.

(** The message determines its two parts. *)
Lemma message_parts a b c d :
  no_byte "." a = true -> no_byte "." b = true -> no_byte "." c = true -> no_byte "." d = true ->
  a +:+ "." +:+ b = c +:+ "." +:+ d -> a = c /\ b = d.
Proof using.
  intros Ha Hb Hc Hd Heq. assert (split "." (a +:+ "." +:+ b) = [a; b]) as H1.
  { change ("." +:+ b) with (String "." b). rewrite split_app_sep by done. by rewrite split_no_sep. }
  assert (split "." (c +:+ "." +:+ d) = [c; d]) as H2.
  { change ("." +:+ d) with (String "." d). rewrite split_app_sep by done. by rewrite split_no_sep. }
  rewrite Heq, H2 in H1. by injection H1.
Qed.

Context (representable : wireClaims -> Prop) (json_ok : codec_law claims_json representable).
Context (header_ok : header_alg header_json = Some "HS256").

Definition signed_token (key : string) (w : wireClaims) : string :=
  token_message w +:+ "." +:+ b64_encode (hmac key (token_message w)).

Lemma Sign_Ok key c now raw : Sign key c now = Ok raw ->
  raw = signed_token key (to_wire c (Unix now)) /\ key <> EmptyString /\
  t_Subject c <> EmptyString /\ t_Realm c <> EmptyString /\ t_JTI c <> EmptyString.
Proof using.
  unfold Sign. destruct (str_eqb key _) eqn:?; [done|].
  destruct (str_eqb (t_Subject c) _) eqn:?; [done|]. destruct (str_eqb (t_Realm c) _) eqn:?; [done|].
  destruct (str_eqb (t_JTI c) _) eqn:?; [done|].
  destruct (IsZero _); [done|]. intros [= <-]. rewrite !str_eqb_neq in *. done.
Qed.

(** What parsing makes of a signed token. *)
Lemma Parse_signed key w now :
  representable w -> key <> EmptyString -> w_Sub w <> EmptyString -> w_Realm w <> EmptyString ->
  w_JTI w <> EmptyString ->
  Parse key (signed_token key w) now =
  if (w_Exp w <=? Unix now)%Z then None else Some (of_wire w).
Proof using json_ok header_ok.
  intros Hw Hk Hs Hr Hj. unfold Parse, signed_token, token_message.
  apply str_eqb_neq in Hk. rewrite Hk. rewrite <- !str_app_assoc.
  rewrite split_three by apply b64_no_dot. rewrite !b64_roundtrip. cbn [mbind option_bind].
  rewrite header_ok. cbn [mbind option_bind]. rewrite !str_eqb_refl. cbn [negb].
  rewrite json_ok by done. cbn [mbind option_bind].
  apply str_eqb_neq in Hs, Hr, Hj. by rewrite Hs, Hr, Hj.
Qed.

(** A string whose message was signed parses to the claims of that message. *)
Lemma Parse_issued key raw now c (issued : list wireClaims) :
  Parse key raw now = Some c -> Forall representable issued ->
  (forall msg, presents raw msg (hmac key msg) -> msg ∈ map token_message issued) ->
  exists w, w ∈ issued /\ c = of_wire w /\ (Unix now < w_Exp w)%Z.
Proof using json_ok.
  intros Hp Hrep Hun. apply Parse_inv in Hp as (p0 & p1 & p2 & payload & w & Es & Ep & Ew & -> & Hpr & He & _).
  apply Hun in Hpr. apply list_elem_of_fmap in Hpr as (w0 & Hm & Hin).
  pose proof (splitDots_no_dot _ _ _ _ Es) as (Hn0 & Hn1 & _).
  apply message_parts in Hm as [-> ->]; [|done|done|apply b64_no_dot..].
  rewrite b64_roundtrip in Ep. injection Ep as <-.
  rewrite Forall_forall in Hrep. rewrite json_ok in Ew by (by apply Hrep).
  injection Ew as <-. eauto.
Qed.

Lemma Verify_inv s raw wall now c : Verify s raw wall now = Some c ->
  Parse (s_key s) raw wall = Some c /\ (now < t_Expiry c)%Z /\ realm_known (t_Realm c) = true /\
  IsRevoked (s_rev s) (t_JTI c) = false.
Proof using.
  unfold Verify. destruct (Parse _ raw wall) as [c'|]; [|done]. cbn.
  destruct (Z.ltb_spec now (t_Expiry c')); [|done].
  destruct (realm_known _) eqn:?; [|done]. destruct (IsRevoked _ _) eqn:?; [done|].
  by intros [= <-].
Qed.

(** The life of an exchanged token, on a service with the same key. *)
Lemma Exchange_Ok s sub realm scope jti now wall raw ttl :
  Exchange s sub realm scope jti now wall = Ok (raw, ttl) ->
  exists j, jti = Some j /\ realm_known realm = true /\ sub <> EmptyString /\ j <> EmptyString /\
    s_key s <> EmptyString /\ ttl = int_seconds (s_ttl s) /\
    raw = signed_token (s_key s) (to_wire (exchange_claims s sub realm scope j now) (Unix wall)).
Proof using.
  unfold Exchange. destruct (realm_known realm) eqn:Er; [|done]. cbn [negb].
  destruct (str_eqb sub EmptyString) eqn:Es; [done|]. apply str_eqb_neq in Es.
  destruct jti as [j|]; [|done]. intros H. apply bind_Ok in H as (r & Hs & [= <- <-]).
  apply Sign_Ok in Hs as (-> & Hk & _ & _ & Hj). by exists j.
Qed.

(** A token that the exchange issued verifies, on any instance of the
    service with the same key and whatever was revoked meanwhile, exactly until
    its expiry in whole seconds and as long as its identifier is not revoked;
    it then gives the subject, the realm and the scopes it was issued for, and
    no tenant. *)
Lemma Exchange_Verify s s' sub realm scope jti now wall raw ttl wall' now' :
  Exchange s sub realm scope jti now wall = Ok (raw, ttl) -> s_key s' = s_key s ->
  (forall j, jti = Some j ->
    representable (to_wire (exchange_claims s sub realm scope j now) (Unix wall))) ->
  exists j, jti = Some j /\
  let exp := Unix (time_add now (s_ttl s)) in
  Verify s' raw wall' now' =
  if (exp <=? Unix wall')%Z || (time_Unix exp <=? now')%Z || IsRevoked (s_rev s') j then None
  else Some (mkClaims sub realm realm scope j (time_Unix exp) EmptyString EmptyString EmptyString []).
Proof using json_ok header_ok.
  intros Hx Hk Hrep. apply Exchange_Ok in Hx as (j & -> & Hr & Hs & Hj & Hkey & _ & ->).
  exists j. split; [done|]. cbv zeta. unfold Verify. rewrite Hk.
  assert (realm <> EmptyString) as Hne by (by intros ->).
  rewrite Parse_signed by (try done; by apply Hrep). cbn [w_Exp to_wire exchange_claims t_Expiry].
  destruct (_ <=? Unix wall')%Z; [done|]. cbn [mbind option_bind orb].
  cbn [of_wire t_Expiry t_Realm t_JTI w_Exp w_Realm w_JTI to_wire exchange_claims]. rewrite Hr. cbn [negb].
  rewrite Z.leb_antisym. destruct (now' <? _)%Z; [|done]. cbn [negb orb].
  by destruct (IsRevoked (s_rev s') j).
Qed.

(** The client-credentials grant succeeds exactly for a known account whose
    stored hash is the hash of the secret and whose maximum covers every
    requested scope (and when the random source works and the account's realm
    is a known one); the scopes are never widened or cut, the token is the one
    the portal's exchange would issue.  An unknown client and a wrong secret
    cannot be told apart. *)
Lemma IssueClientCredentials_iff s store clientID secret reqScope jti now wall raw ttl :
  IssueClientCredentials s store clientID secret reqScope jti now wall = Ok (raw, ttl) <->
  exists accounts acct, store = Some accounts /\ accounts !! clientID = Some acct /\
    clientID <> EmptyString /\ secret <> EmptyString /\ sa_SecretHash acct <> EmptyString /\
    sa_SecretHash acct = hmac (s_key s) secret /\ reqScope ⊆ sa_MaxScope acct /\
    Exchange s clientID (account_realm acct) reqScope jti now wall = Ok (raw, ttl).
Proof using.
  assert (forall m, forallb (scopeContains m) reqScope = true <-> reqScope ⊆ m) as Hsc.
  { intros m. rewrite List.forallb_forall. split.
    - intros H x Hx. apply list_elem_of_In in Hx. apply H in Hx. unfold scopeContains in Hx.
      apply existsb_exists in Hx as (v & Hv & ->%str_eqb_eq). by apply list_elem_of_In.
    - intros H x Hx. apply existsb_exists. exists x. rewrite str_eqb_refl. split; [|done].
      by apply list_elem_of_In, H, list_elem_of_In. }
  unfold IssueClientCredentials, HashSecret. split.
  - destruct store as [accounts|]; [|done].
    destruct (str_eqb clientID _ || _) eqn:E1; [done|]. destruct (accounts !! clientID) as [acct|] eqn:Ea; [|done].
    destruct (str_eqb (sa_SecretHash acct) _ || _) eqn:E2; [done|].
    destruct (forallb _ _) eqn:E3; [|done]. cbn [negb]. intros Hx. bool_simpl.
    rewrite str_eqb_neq in *. rewrite str_eqb_eq in *. apply Hsc in E3. eauto 12.
  - intros (accounts & acct & -> & -> & H1 & H2 & H3 & H4 & H5 & Hx).
    apply str_eqb_neq in H1, H2. rewrite H1, H2. cbn [orb].
    rewrite <- H4. apply str_eqb_neq in H3. rewrite H3, str_eqb_refl. cbn [orb negb].
    apply Hsc in H5. by rewrite H5.
Qed.

End sts.

(** ** The session cookie (pkg/authn/session.go) *)

(** A claim of the identity provider, as JSON decodes it into [any]. *)
#[warnings="-register-all"] Inductive jval : Type :=
  | JNull
  | JBool (b : bool)
  | JNum (f : float64)
  | JStr (s : string)
  | JArr (l : list jval)
  | JObj (l : list (string * jval)).

Abbreviation Claims := (gmap string jval).

Record Session : Type := mkSession
  { ss_subject : string; ss_realm : string; ss_expiresAt : Z; ss_claims : Claims }.

Definition sessionCookieVersion : string := "v1".

(** What the state cookie hides (pkg/authn/handler.go). *)
Record statePayload : Type := mkState
  { sp_Realm : string; sp_State : string; sp_Nonce : string; sp_CodeVerifier : string;
    sp_IssuedAt : Z; sp_RedirectTo : string }.

Section cookies.
Context (hmac : string -> string -> string).
Context (session_json : Codec Session) (state_json : Codec statePayload).

Definition session_message (s : Session) : string :=
  sessionCookieVersion +:+ "." +:+ b64_encode (enc session_json s).

Definition EncodeSession (key : string) (s : Session) : option string :=
  if str_eqb key EmptyString then None
  else Some (session_message s +:+ "." +:+ b64_encode (hmac key (session_message s))).

Definition DecodeSession (key cookie : string) (now : time) : option Session :=
  if str_eqb key EmptyString then None
  else match splitDots cookie with
  | [p0; p1; p2] =>
      if negb (str_eqb p0 sessionCookieVersion) then None
      else
        body ← b64_decode p1;
        sig ← b64_decode p2;
        if negb (str_eqb sig (hmac key (p0 +:+ "." +:+ p1))) then None
        else
          s ← dec session_json body;
          if negb (realm_known (ss_realm s)) then None
          else if str_eqb (ss_subject s) EmptyString then None
          else if (ss_expiresAt s <=? Unix now)%Z then None
          else Some s
  | _ => None
  end.

(** [strings.SplitN(s, ".", 3)] when it gives three pieces. *)
Definition splitN3 (s : string) : option (string * string * string) :=
  '(a, r) ← cut_at "." s;
  '(b, c) ← cut_at "." r;
  Some (a, b, c).

Definition state_message (body realm : string) : string := body +:+ "." +:+ realm.

Definition signStateValue (key body realm : string) : string :=
  b64_encode body +:+ "." +:+ b64_encode (hmac key (state_message body realm)) +:+ "." +:+ realm.

Definition verifyStateValue (key cookie realm : string) : option string :=
  '(p0, p1, p2) ← splitN3 cookie;
  if negb (str_eqb p2 realm) then None
  else
    body ← b64_decode p0;
    want ← b64_decode p1;
    if negb (str_eqb want (hmac key (state_message body realm))) then None else Some body.

Definition writeStateCookie (key realm : string) (p : statePayload) : string :=
  signStateValue key (enc state_json p) realm.

Definition decodeStateCookie (key : string) (ttl : Duration) (realm cookie : string) (now : time) :
    option statePayload :=
  body ← verifyStateValue key cookie realm;
  p ← dec state_json body;
  if (time_add (time_Unix (sp_IssuedAt p)) ttl <? now)%Z then None else Some p.

(** *** Two kinds of messages under one key *)

Context (session_ok : Session -> Prop) (state_ok : statePayload -> Prop).
Context (session_law : codec_law session_json session_ok) (state_law : codec_law state_json state_ok).

(** JSON text of a struct begins with a brace. *)
Definition braced (s : string) : bool := has_prefix s "{".
Context (session_brace : forall s, braced (enc session_json s) = true).
Context (state_brace : forall p, braced (enc state_json p) = true).

Definition signed_messages (sessions : list Session) (states : list statePayload) : list string :=
  map session_message sessions ++
  map (fun p => state_message (enc state_json p) (sp_Realm p)) states.

Lemma split_app_last sep a r :
  no_byte sep r = true -> split sep (a +:+ String sep r) = split sep a ++ [r].
Proof using.
  intros Hr. induction a as [|c a IH].
  - cbn [String.app split]. rewrite byte_eqb_refl. by rewrite split_no_sep.
  - cbn [String.app split]. rewrite IH. destruct (byte_eqb c sep); [done|].
    by destruct (split sep a) as [|x xs] eqn:E; [apply split_not_nil in E|].
Qed.

Lemma last_dot a r a' r' : no_byte "." r = true -> no_byte "." r' = true ->
  a +:+ "." +:+ r = a' +:+ "." +:+ r' -> a = a' /\ r = r'.
Proof using.
  intros Hr Hr' Heq. change ("." +:+ r) with (String "." r) in Heq.
  change ("." +:+ r') with (String "." r') in Heq.
  pose proof (split_app_last "." a r Hr) as H1. rewrite Heq, split_app_last in H1 by done.
  apply app_inj_tail in H1 as [H1 ->]. by apply split_inj in H1.
Qed.

Lemma realm_no_dot r : realm_known r = true -> no_byte "." r = true.
Proof using. unfold realm_known. intros [->%str_eqb_eq | ->%str_eqb_eq]%orb_true_iff; done. Qed.

(** A realm is not the base64 of JSON text. *)
Lemma realm_not_json r s : realm_known r = true -> braced s = true -> b64_encode s <> r.
Proof using.
  intros Hr Hb Heq. pose proof (b64_roundtrip s) as H. rewrite Heq in H.
  unfold realm_known in Hr. apply orb_true_iff in Hr as [->%str_eqb_eq | ->%str_eqb_eq];
    vm_compute in H; injection H as <-; done.
Qed.

Lemma DecodeSession_inv key cookie now s : DecodeSession key cookie now = Some s ->
  exists p1 body, b64_decode p1 = Some body /\ dec session_json body = Some s /\
    no_byte "." p1 = true /\
    presents cookie (sessionCookieVersion +:+ "." +:+ p1)
      (hmac key (sessionCookieVersion +:+ "." +:+ p1)) /\
    realm_known (ss_realm s) = true /\ ss_subject s <> EmptyString /\
    (Unix now < ss_expiresAt s)%Z.
Proof using.
  unfold DecodeSession. destruct (str_eqb key EmptyString); [done|].
  destruct (splitDots cookie) as [|p0 [|p1 [|p2 [|]]]] eqn:Es; try done.
  destruct (str_eqb p0 sessionCookieVersion) eqn:Ev; [|done]. apply str_eqb_eq in Ev as ->.
  cbn [negb]. destruct (b64_decode p1) as [body|] eqn:Eb; [|done]. cbn [mbind option_bind].
  destruct (b64_decode p2) as [sig|] eqn:Esig; [|done]. cbn [mbind option_bind].
  destruct (str_eqb sig _) eqn:Em; [|done]. apply str_eqb_eq in Em as ->. cbn [negb].
  destruct (dec session_json body) as [s'|] eqn:Ed; [|done]. cbn [mbind option_bind].
  destruct (realm_known _) eqn:Er; [|done]. cbn [negb].
  destruct (str_eqb (ss_subject s') EmptyString) eqn:Esub; [done|]. apply str_eqb_neq in Esub.
  destruct (Z.leb_spec (ss_expiresAt s') (Unix now)); [done|]. intros [= <-].
  exists p1, body. repeat (split; [done|]). split; [by destruct (splitDots_no_dot _ _ _ _ Es) as (_ & Hn & _)|].
  split; [by exists sessionCookieVersion, p1, p2|done].
Qed.

(** Only sessions that were issued decode: a state cookie, signed with the same
    key, cannot be passed off as a session. *)
Lemma DecodeSession_issued key cookie now s sessions states :
  DecodeSession key cookie now = Some s -> Forall session_ok sessions ->
  (forall msg, presents cookie msg (hmac key msg) -> msg ∈ signed_messages sessions states) ->
  s ∈ sessions.
Proof using session_law state_brace.
  intros Hd Hok Hun. apply DecodeSession_inv in Hd as (p1 & body & Eb & Ed & Hn & Hp & _).
  apply Hun, elem_of_app in Hp as [Hp|Hp]; apply list_elem_of_fmap in Hp as (x & Hm & Hin).
  - unfold session_message in Hm. apply str_app_inv_head in Hm. cbn in Hm. injection Hm as ->.
    rewrite b64_roundtrip in Eb. injection Eb as <-. rewrite Forall_forall in Hok.
    rewrite session_law in Ed by (by apply Hok). by injection Ed as <-.
  - exfalso. pose proof (state_brace x) as Hb. unfold state_message, braced in *.
    destruct (enc state_json x) as [|c t]; [done|]. cbn in Hm, Hb. injection Hm as <- _. done.
Qed.

Lemma verifyStateValue_inv key cookie realm body : verifyStateValue key cookie realm = Some body ->
  exists p0 p1, splitN3 cookie = Some (p0, p1, realm) /\ b64_decode p0 = Some body /\
    b64_decode p1 = Some (hmac key (state_message body realm)).
Proof using.
  unfold verifyStateValue. destruct (splitN3 cookie) as [[[p0 p1] p2]|]; [|done].
  cbn [mbind option_bind]. destruct (str_eqb p2 realm) eqn:Er; [|done]. apply str_eqb_eq in Er as ->.
  cbn [negb]. destruct (b64_decode p0) as [b|] eqn:E0; [|done]. cbn [mbind option_bind].
  destruct (b64_decode p1) as [w|] eqn:E1; [|done]. cbn [mbind option_bind].
  destruct (str_eqb w _) eqn:Em; [|done]. apply str_eqb_eq in Em as ->. intros [= ->].
  by exists p0, p1.
Qed.

(** The message and the MAC a state cookie presents. *)
Definition presents_state (cookie msg sig : string) : Prop :=
  exists p0 p1 p2 body, splitN3 cookie = Some (p0, p1, p2) /\ b64_decode p0 = Some body /\
    msg = state_message body p2 /\ b64_decode p1 = Some sig.

(** Only states that were issued decode, and only under their own realm. *)
Lemma decodeState_issued key ttl realm cookie now p sessions states :
  decodeStateCookie key ttl realm cookie now = Some p -> realm_known realm = true ->
  Forall state_ok states -> Forall (fun x => realm_known (sp_Realm x) = true) states ->
  (forall msg, presents_state cookie msg (hmac key msg) -> msg ∈ signed_messages sessions states) ->
  p ∈ states /\ sp_Realm p = realm.
Proof using state_law session_brace.
  unfold decodeStateCookie. intros Hd Hr Hok Hrs Hun.
  destruct (verifyStateValue key cookie realm) as [body|] eqn:Ev; [|done]. cbn [mbind option_bind] in Hd.
  destruct (dec state_json body) as [p'|] eqn:Ed; [|done]. cbn [mbind option_bind] in Hd.
  destruct (_ <? now)%Z; [done|]. injection Hd as <-.
  apply verifyStateValue_inv in Ev as (p0 & p1 & E3 & E0 & E1).
  assert (state_message body realm ∈ signed_messages sessions states) as Hin.
  { apply Hun. by exists p0, p1, realm, body. }
  apply elem_of_app in Hin as [Hin|Hin]; apply list_elem_of_fmap in Hin as (x & Hm & Hin).
  - exfalso. unfold session_message, state_message in Hm.
    apply last_dot in Hm as [_ Hm]; [|by apply realm_no_dot|apply b64_no_dot].
    by apply (realm_not_json realm (enc session_json x)).
  - rewrite Forall_forall in Hok, Hrs. unfold state_message in Hm.
    apply last_dot in Hm as [-> ->]; [|by apply realm_no_dot|by apply realm_no_dot, Hrs].
    rewrite state_law in Ed by (by apply Hok). by injection Ed as <-.
Qed.

End cookies.

(** ** A concrete service

    Stand-ins for the parameters: a MAC that is the key and the message, field
    lists in braces for JSON, a signature that is the digest. *)
Definition demo_hmac (key msg : string) : string := key +:+ "#" +:+ msg.

Definition fields_text (l : list string) : string := "{" +:+ join "|" l.
Definition text_fields (s : string) : list string := split "|" (trim_prefix s "{").
Definition number (z : Z) : string := pretty z.
Definition demo_hdr_alg (s : string) : option string :=
  if str_eqb s header_json then Some "HS256" else None.

Definition demo_claims_json : Codec wireClaims := mkCodec
  (fun w => fields_text [w_Sub w; w_Realm w; w_Aud w; join ";" (w_Scope w); w_JTI w;
                         number (w_Exp w); number (w_Iat w)])
  (fun s => match text_fields s with
            | [a; b; c; d; e; f; g] =>
                i ← Atoi f; j ← Atoi g;
                Some (mkWire a b c (split ";" d) e i j EmptyString EmptyString EmptyString [])
            | _ => None
            end).

(** The values these texts carry. *)
Definition carried {A} (c : Codec A) (a : A) : Prop := dec c (enc c a) = Some a.
Lemma carried_law {A} (c : Codec A) : codec_law c (carried c).
Proof. by intros a. Defined.

Definition demo_time : time := time_Unix 1000.
Definition demo_sts (rev : gset string) : STS := mkSTS "k2" (15 * Minute) (Some rev).

Lemma Exchange_Verify_witness :
  let s := demo_sts ∅ in
  let raw := signed_token demo_hmac demo_claims_json "k2"
    (to_wire (exchange_claims s "alice" "ops" ["viewer"] "jti1" demo_time) 1000) in
  Exchange demo_hmac demo_claims_json s "alice" "ops" ["viewer"] (Some "jti1") demo_time demo_time =
    Ok (raw, 900%Z) /\
  Verify demo_hmac demo_claims_json demo_hdr_alg s raw (time_Unix 1899) (time_Unix 1899) =
    Some (mkClaims "alice" "ops" "ops" ["viewer"] "jti1" (time_Unix 1900)
      EmptyString EmptyString EmptyString []) /\
  Verify demo_hmac demo_claims_json demo_hdr_alg (demo_sts {[ "jti1" ]}) raw demo_time demo_time = None.
Proof.
  cbv zeta. set (s := demo_sts ∅). set (raw := signed_token _ _ _ _).
  assert (Exchange demo_hmac demo_claims_json s "alice" "ops" ["viewer"] (Some "jti1") demo_time demo_time =
    Ok (raw, 900%Z)) as Hx by (vm_compute; reflexivity).
  assert (forall j, Some "jti1" = Some j -> carried demo_claims_json
    (to_wire (exchange_claims s "alice" "ops" ["viewer"] j demo_time) (Unix demo_time))) as Hrep.
  { intros j [= <-]. vm_compute. reflexivity. }
  split; [exact Hx|]. split.
  - pose proof (Exchange_Verify demo_hmac demo_claims_json demo_hdr_alg (carried demo_claims_json)
      (carried_law demo_claims_json) eq_refl s s _ _ _ _ _ _ _ _ (time_Unix 1899) (time_Unix 1899)
      Hx (eq_refl "k2") Hrep) as (j & [= <-] & Hv). rewrite Hv. vm_compute. reflexivity.
  - pose proof (Exchange_Verify demo_hmac demo_claims_json demo_hdr_alg (carried demo_claims_json)
      (carried_law demo_claims_json) eq_refl s (demo_sts {[ "jti1" ]}) _ _ _ _ _ _ _ _ demo_time demo_time
      Hx (eq_refl "k2") Hrep) as (j & [= <-] & Hv). rewrite Hv. vm_compute. reflexivity.
Defined.
