(* ===== verification/Login.v ===== *)
(** * Login, token endpoints and the gateway's gate (pkg/authn/oidc.go,
      handler.go, pkg/apigw/server.go)

    The chain from the identity provider to a request: login sets a state
    cookie, the callback verifies an id_token and mints a session, the token
    endpoints exchange a session or client credentials for an API token, the
    middleware lets a request with such a token through.  [step] is the system
    of these endpoints over every order of requests; its history records where
    each credential comes from, and the theorems trace an accepted request back
    to it.

    The public-key primitives, the hash functions and JSON decoding are
    arguments; what an outside party can present is limited only by not being
    able to compute a MAC ([unforged_session], [unforged_state],
    [unforged_token]). *)
From S2P Require Import Prelude Float64 GoTime Http Cursor Tokens.
Open Scope string_scope.
Open Scope list_scope.

(** [strings.SplitN(s, "/", 2)] *)
Definition splitN2 (sep : ascii) (s : string) : list string :=
  match cut_at sep s with Some (a, b) => [a; b] | None => [s] end.

(** [strings.Fields]: the pieces between white space; [cur] is the piece being
    read, reversed. *)
Definition flush (cur : string) : list string :=
  if str_eqb cur EmptyString then [] else [rev_str cur].
Fixpoint fields_from (cur s : string) : list string :=
  match s with
  | EmptyString => flush cur
  | String c r =>
      if space1 c then flush cur ++ fields_from EmptyString r
      else match r with
      | String d r2 =>
          if space2 c d then flush cur ++ fields_from EmptyString r2
          else match r2 with
          | String e r3 =>
              if space3 c d e then flush cur ++ fields_from EmptyString r3
              else fields_from (String c cur) r
          | EmptyString => fields_from (String c cur) r
          end
      | EmptyString => fields_from (String c cur) r
      end
  end.
Definition Fields (s : string) : list string := fields_from EmptyString s.

Example Fields_ex : Fields "  ops:read ops:write " = ["ops:read"; "ops:write"].
Proof. reflexivity. Qed.

(** ** Keys (pkg/authn/oidc.go) *)

Record jwk : Type := mkJwk
  { k_Kty : string; k_Kid : string; k_N : string; k_E : string;
    k_Crv : string; k_X : string; k_Y : string }.

Inductive curve : Type := P256 | P384 | P521.
Inductive pubkey : Type :=
  | RSAKey (n e : Z)
  | ECKey (c : curve) (x y : Z).

(** [big.Int.SetBytes] *)
Fixpoint SetBytes_from (acc : Z) (s : string) : Z :=
  match s with
  | EmptyString => acc
  | String c r => SetBytes_from (acc * 256 + Z.of_N (code c)) r
  end.
Definition SetBytes (s : string) : Z := SetBytes_from 0 s.

(** [for _, b := range eBytes { eInt = eInt<<8 | int(b) }], in 64 bits. *)
Fixpoint exponent_from (acc : Z) (s : string) : Z :=
  match s with
  | EmptyString => acc
  | String c r => exponent_from (wrap64 (Z.lor (Z.shiftl acc 8) (Z.of_N (code c)))) r
  end.

Definition publicKey (k : jwk) : option pubkey :=
  if str_eqb (k_Kty k) "RSA" then
    n ← b64_decode (k_N k);
    e ← b64_decode (k_E k);
    let eInt := exponent_from 0 e in
    if (eInt =? 0)%Z then None else Some (RSAKey (SetBytes n) eInt)
  else if str_eqb (k_Kty k) "EC" then
    c ← (if str_eqb (k_Crv k) "P-256" then Some P256
         else if str_eqb (k_Crv k) "P-384" then Some P384
         else if str_eqb (k_Crv k) "P-521" then Some P521 else None);
    x ← b64_decode (k_X k);
    y ← b64_decode (k_Y k);
    Some (ECKey c (SetBytes x) (SetBytes y))
  else None.

(** [lookupJWK]: the first key with the identifier. *)
Fixpoint lookupJWK (keys : list jwk) (kid : string) : option pubkey :=
  match keys with
  | [] => None
  | k :: keys' => if str_eqb (k_Kid k) kid then publicKey k else lookupJWK keys' kid
  end.

Inductive hash_alg : Type := SHA256 | SHA384 | SHA512.

(** ** Claims of an id_token *)

Definition claim_string (c : Claims) (k : string) : string :=
  match c !! k with Some (JStr s) => s | _ => EmptyString end.

Definition aud_accepts (v : option jval) (wantAud : string) : bool :=
  match v with
  | Some (JStr a) => str_eqb a wantAud
  | Some (JArr l) =>
      existsb (fun a => match a with JStr s => str_eqb s wantAud | _ => false end) l
  | _ => false
  end.

Section oidc.
Context (hash_sum : hash_alg -> string -> string).
Context (rsa_verify : Z -> Z -> hash_alg -> string -> string -> bool).
Context (ecdsa_verify : curve -> Z -> Z -> string -> Z -> Z -> bool).
Context (jwt_header : string -> option (string * string)) (jwt_claims : string -> option Claims).
Context (oor : float64 -> Z).

(** [int64(expF)] *)
Definition to_int64 (f : float64) : Z :=
  match ftrunc f with
  | Some z => if (min_int64 <=? z)%Z && (z <=? max_int64)%Z then z else wrap64 (oor f)
  | None => wrap64 (oor f)
  end.

Definition rs_hash (alg : string) : option hash_alg :=
  if str_eqb alg "RS256" then Some SHA256
  else if str_eqb alg "RS384" then Some SHA384
  else if str_eqb alg "RS512" then Some SHA512 else None.

Definition es_size (alg : string) : option nat :=
  if str_eqb alg "ES256" then Some 32
  else if str_eqb alg "ES384" then Some 48
  else if str_eqb alg "ES512" then Some 66 else None.

Definition verifySignature (alg : string) (pub : pubkey) (input sig : string) : bool :=
  match rs_hash alg with
  | Some h =>
      match pub with
      | RSAKey n e => rsa_verify n e h (hash_sum h input) sig
      | ECKey _ _ _ => false
      end
  | None =>
      match es_size alg, pub with
      | Some size, ECKey c x y =>
          if negb (Nat.eqb (str_len sig) (2 * size)) then false
          else ecdsa_verify c x y (hash_sum SHA256 input)
                 (SetBytes (substring 0 size sig)) (SetBytes (substring size size sig))
      | _, _ => false
      end
  end.

Definition verifyStandardClaims (c : Claims) (wantAud wantNonce : string) (now : time) : bool :=
  negb (str_eqb (claim_string c "iss") EmptyString) &&
  aud_accepts (c !! "aud") wantAud &&
  match c !! "exp" with Some (JNum f) => (Unix now <? to_int64 f)%Z | _ => false end &&
  (str_eqb wantNonce EmptyString || str_eqb (claim_string c "nonce") wantNonce).

(** One realm's verifier: its configuration and the issuer of its discovery
    document. *)
Record Verifier : Type := mkVerifier
  { v_Realm : string; v_ClientID : string; v_Issuer : string; v_TokenEndpoint : string }.

(** [jwks] is the key set, [None] when it could not be refreshed. *)
Definition VerifyIDToken (v : Verifier) (jwks : option (list jwk)) (raw nonce : string) (now : time) :
    option Claims :=
  match split "." raw with
  | [p0; p1; p2] =>
      hb ← b64_decode p0;
      hdr ← jwt_header hb;
      pb ← b64_decode p1;
      claims ← jwt_claims pb;
      sig ← b64_decode p2;
      keys ← jwks;
      pub ← lookupJWK keys hdr.2;
      if negb (verifySignature hdr.1 pub (p0 +:+ "." +:+ p1) sig) then None
      else if negb (verifyStandardClaims claims (v_ClientID v) nonce now) then None
      else Some claims
  | _ => None
  end.

(** [Exchange]: [answer] is the id_token of the token endpoint's response,
    [None] when the request failed or the answer was no JSON. *)
Definition oidc_Exchange (v : Verifier) (realm code codeVerifier nonce : string)
    (answer : option string) (jwks : option (list jwk)) (now : time) : option Claims :=
  if negb (str_eqb realm (v_Realm v)) then None
  else if str_eqb code EmptyString || str_eqb codeVerifier EmptyString || str_eqb nonce EmptyString
  then None
  else if str_eqb (v_TokenEndpoint v) EmptyString then None
  else
    idToken ← answer;
    if str_eqb idToken EmptyString then None
    else
      claims ← VerifyIDToken v jwks idToken nonce now;
      let iss := claim_string claims "iss" in
      if negb (str_eqb iss EmptyString) && negb (str_eqb (v_Issuer v) EmptyString) &&
         negb (str_eqb iss (v_Issuer v))
      then None else Some claims.

End oidc.

(** ** The handlers of pkg/authn *)

Definition SessionTTL : Duration := 8 * Hour.

Definition ParseRealm (s : string) : option string :=
  if str_eqb s "ops" then Some s else if str_eqb s "customer" then Some s else None.

Definition not_found (title : string) : problem := Problem 404 "path-not-found" title.
Definition unauthorized (title : string) : problem := Problem 401 "unauthorized" title.
Definition forbidden (title : string) : problem := Problem 403 "forbidden" title.
Definition internal (title : string) : problem := Problem 500 "internal" title.

(** A same-origin path. *)
Definition isSafeRedirect (target : string) : bool :=
  if negb (has_prefix target "/") then false
  else if has_prefix target "//" then false else true.

Record Handler : Type := mkHandler
  { h_verifiers : gmap string Verifier; h_sessionKey : string;
    h_redirectAfterLogin : string; h_stateTTL : Duration }.

Definition NewHandler (verifiers : gmap string Verifier) (key redirect : string) (ttl : Duration) :
    option Handler :=
  if str_eqb key EmptyString then None
  else if bool_decide (verifiers = ∅) then None
  else Some (mkHandler verifiers key (if str_eqb redirect EmptyString then "/" else redirect)
               (if (ttl <=? 0)%Z then 5 * Minute else ttl)%Z).

Definition realmFromPath (path : string) : result problem string :=
  match splitN2 "/" (trim_prefix path "/auth/") with
  | p0 :: _ =>
      if str_eqb p0 EmptyString then Err (not_found "auth realm missing")
      else match ParseRealm p0 with
           | None => Err (not_found "unknown auth realm")
           | Some r => Ok r
           end
  | [] => Err (not_found "auth realm missing")
  end.

Definition verifierFor (h : Handler) (realm : string) : result problem Verifier :=
  match h_verifiers h !! realm with
  | None => Err (not_found "no verifier for realm")
  | Some v => Ok v
  end.

Section handlers.
Context (hmac : string -> string -> string).
Context (session_json : Codec Session) (state_json : Codec statePayload).
Context (oor : float64 -> Z).

(** [Login]: the random values ([None] when the source failed), the [next]
    parameter; the state cookie and the payload it carries. *)
Definition Login (h : Handler) (path : string) (verifier state nonce : option string) (next : string)
    (now : time) : result problem (string * statePayload) :=
  realm ← realmFromPath path;
  _ ← verifierFor h realm;
  match verifier, state, nonce with
  | None, _, _ => Err (internal "could not mint PKCE verifier")
  | _, None, _ => Err (internal "could not mint state")
  | _, _, None => Err (internal "could not mint nonce")
  | Some cv, Some st, Some nc =>
      let dest := if negb (str_eqb next EmptyString) && isSafeRedirect next then next
                  else h_redirectAfterLogin h in
      let p := mkState realm st nc cv (Unix now) dest in
      Ok (writeStateCookie hmac state_json (h_sessionKey h) realm p, p)
  end.

Definition session_expiry (claims : Claims) (now : time) : time :=
  match claims !! "exp" with
  | Some (JNum f) => time_Unix (to_int64 oor f)
  | _ => time_add now SessionTTL
  end.

(** What the callback does: clears the state cookie or not, and answers. *)
Record callback_out : Type := mkOut
  { o_cleared : bool; o_result : result problem (string * Session * string) }.

(** [Callback]: the state cookie ([None] when absent), the query's state and
    code, and the verifier's exchange, which runs under the realm, the code and
    the state's secrets. *)
Definition Callback (h : Handler) (path : string) (cookie : option string) (q_state q_code : string)
    (exchange : Verifier -> string -> string -> string -> string -> option Claims) (now : time) :
    callback_out :=
  match (realm ← realmFromPath path; v ← verifierFor h realm; Ok (realm, v)) with
  | Err p => mkOut false (Err p)
  | Ok (realm, v) =>
      match cookie with
      | None => mkOut false (Err (unauthorized "missing state cookie"))
      | Some ck =>
          match decodeStateCookie hmac state_json (h_sessionKey h) (h_stateTTL h) realm ck now with
          | None => mkOut false (Err (unauthorized "invalid state cookie"))
          | Some p =>
              if negb (str_eqb (sp_Realm p) realm)
              then mkOut false (Err (unauthorized "realm mismatch"))
              else if negb (str_eqb q_state (sp_State p))
              then mkOut false (Err (unauthorized "state mismatch"))
              else mkOut true
                (if str_eqb q_code EmptyString then Err (bad_request "missing code")
                 else match exchange v realm q_code (sp_CodeVerifier p) (sp_Nonce p) with
                 | None => Err (unauthorized "OIDC exchange failed")
                 | Some claims =>
                     let sub := claim_string claims "sub" in
                     if str_eqb sub EmptyString then Err (unauthorized "id_token missing sub")
                     else
                       let sess := mkSession sub realm (Unix (session_expiry claims now)) claims in
                       match EncodeSession hmac session_json (h_sessionKey h) sess with
                       | None => Err (internal "could not encode session")
                       | Some c =>
                           Ok (c, sess, if str_eqb (sp_RedirectTo p) EmptyString
                                        then h_redirectAfterLogin h else sp_RedirectTo p)
                       end
                 end)
          end
      end
  end.

(** [Logout] clears the session cookie; the place it sends the browser to. *)
Definition Logout (h : Handler) (path next : string) : result problem string :=
  _ ← realmFromPath path;
  Ok (if negb (str_eqb next EmptyString) && isSafeRedirect next then next
      else h_redirectAfterLogin h).

Inductive auth_action : Type := DoLogin | DoCallback | DoLogout.

Definition routeAuth (path : string) : result problem auth_action :=
  match splitN2 "/" (trim_prefix path "/auth/") with
  | [p0; p1] =>
      if str_eqb p0 EmptyString || str_eqb p1 EmptyString
      then Err (not_found "auth path not found")
      else if str_eqb p1 "login" then Ok DoLogin
      else if str_eqb p1 "callback" then Ok DoCallback
      else if str_eqb p1 "logout" then Ok DoLogout
      else Err (not_found "auth action not found")
  | _ => Err (not_found "auth path not found")
  end.

(** ** The token endpoints of pkg/apigw *)

Definition sessionRoles (c : Claims) : list string :=
  let from_scope :=
    match c !! "scope" with
    | Some (JStr sc) => if str_eqb sc EmptyString then [] else Fields sc
    | _ => []
    end in
  match c !! "roles" with
  | Some (JArr rs) =>
      let out := omap (fun v => match v with
                                | JStr s => if str_eqb s EmptyString then None else Some s
                                | _ => None
                                end) rs in
      if (0 <? length out)%nat then out else from_scope
  | _ => from_scope
  end.

Definition parseRealmFromTokenPath (path : string) : option string :=
  match splitN2 "/" (trim_prefix path "/auth/") with
  | [p0; p1] =>
      if str_eqb p0 EmptyString || negb (str_eqb p1 "token") then None
      else if realm_known p0 then Some p0 else None
  | _ => None
  end.

Definition method_not_allowed : problem := Problem 405 "bad-request" "method not allowed".

Context (claims_json : Codec wireClaims).

(** [handleToken]: [s] is [None] when the token service is not configured. *)
Definition handleToken (s : option STS) (sessionKey method path : string) (cookie : option string)
    (jti : option string) (wall now : time) : result problem (string * Z * Session) :=
  if negb (str_eqb method "POST") then Err method_not_allowed
  else match s with
  | None => Err (not_found "token route disabled")
  | Some svc =>
      if str_eqb sessionKey EmptyString then Err (internal "session key not configured")
      else match parseRealmFromTokenPath path with
      | None => Err (not_found "token path malformed")
      | Some urlRealm =>
          match cookie with
          | None => Err (unauthorized "no session")
          | Some ck =>
              match DecodeSession hmac session_json sessionKey ck wall with
              | None => Err (unauthorized "session invalid")
              | Some sess =>
                  match CheckRealm urlRealm (ss_realm sess) with
                  | Some _ => Err (forbidden "realm mismatch")
                  | None =>
                      match Exchange hmac claims_json svc (ss_subject sess) (ss_realm sess)
                              (sessionRoles (ss_claims sess)) jti now wall with
                      | Err _ => Err (internal "could not mint token")
                      | Ok (raw, ttl) => Ok (raw, ttl, sess)
                      end
                  end
              end
          end
      end
  end.

(** [handleClientCredentialsToken]: the content type, and the decoded form
    ([None] when the body could not be read or decoded). *)
Definition handleClientCredentialsToken (s : option STS) (accounts : option (gmap string ServiceAccount))
    (method contentType : string) (form : option (gmap string string)) (jti : option string)
    (wall now : time) : result problem (string * Z) :=
  let field f k := default EmptyString (f !! k) in
  if negb (str_eqb method "POST") then Err method_not_allowed
  else match s with
  | None => Err (not_found "token route disabled")
  | Some svc =>
      match accounts with
      | None => Err (Problem 503 "upstream-unavailable" "service accounts not configured")
      | Some _ =>
          let ct := match cut_at ";" contentType with Some (a, _) => a | None => contentType end in
          if negb (str_eqb ct "application/x-www-form-urlencoded")
          then Err (Problem 415 "bad-request" "unsupported content type")
          else match form with
          | None => Err (bad_request "malformed form body")
          | Some f =>
              if negb (str_eqb (field f "grant_type") "client_credentials")
              then Err (bad_request "unsupported grant_type")
              else if str_eqb (field f "client_id") EmptyString ||
                      str_eqb (field f "client_secret") EmptyString
              then Err (unauthorized "missing credentials")
              else
                match IssueClientCredentials hmac claims_json svc accounts (field f "client_id")
                        (field f "client_secret") (Fields (field f "scope")) jti now wall with
                | Ok r => Ok r
                | Err ErrBadCredentials => Err (unauthorized "invalid client credentials")
                | Err ErrScopeExceeded => Err (forbidden "scope exceeds account maximum")
                | Err _ => Err (internal "could not mint token")
                end
          end
      end
  end.

(** ** The gate of the gateway *)

Definition bearerToken (h : string) : option string :=
  if (str_len h <=? 7)%nat || negb (has_prefix h "Bearer ") then None
  else Some (trim_prefix h "Bearer ").

Definition actionForMethod (m : string) : string := if str_eqb m "GET" then "read" else "write".

(** The input of the policy decision point, without the time. *)
Record Input : Type := mkInput
  { in_Realm : string; in_Action : string; in_Method : string; in_Path : string;
    in_Scope : list string }.

Definition no_claims : TokenClaims :=
  mkClaims EmptyString EmptyString EmptyString [] EmptyString zero_time EmptyString EmptyString
    EmptyString [].

(** [AuthMiddleware]: what the next handler gets, the claims and the raw token,
    or nothing when no service is wired. [decision] is [Ok allow] or an error. *)
Definition AuthMiddleware (header_alg : string -> option string) (s : option STS)
    (pdp : option (Input -> result unit bool)) (authorization method path : string)
    (wall now : time) : result problem (option (TokenClaims * string)) :=
  match s, pdp with
  | None, None => Ok None
  | _, _ =>
      match bearerToken authorization with
      | None => Err (unauthorized "missing bearer token")
      | Some token =>
          match (match s with
                 | Some svc => Verify hmac claims_json header_alg svc token wall now
                 | None => Some no_claims
                 end) with
          | None => Err (unauthorized "token invalid")
          | Some claims =>
              let inp := mkInput (t_Realm claims) (actionForMethod method) method path
                           (t_Scope claims) in
              match pdp with
              | None => Ok (Some (claims, token))
              | Some decision =>
                  match decision inp with
                  | Ok true => Ok (Some (claims, token))
                  | _ => Err (forbidden "policy denied")
                  end
              end
          end
      end
  end.

End handlers.

(** ** The system *)

Inductive source : Type :=
  | FromSession (s : Session)
  | FromAccount (a : ServiceAccount).

(** The history: what was issued, and from what. *)
Inductive event : Type :=
  | EvState (p : statePayload)
  | EvSession (s : Session) (p : statePayload) (claims : Claims)
  | EvToken (w : wireClaims) (src : source).

Definition states_of (h : list event) : list statePayload :=
  omap (fun e => match e with EvState p => Some p | _ => None end) h.
Definition sessions_of (h : list event) : list Session :=
  omap (fun e => match e with EvSession s _ _ => Some s | _ => None end) h.
Definition tokens_of (h : list event) : list wireClaims :=
  omap (fun e => match e with EvToken w _ => Some w | _ => None end) h.

Section system.
Context (hmac : string -> string -> string).
Context (session_json : Codec Session) (state_json : Codec statePayload)
  (claims_json : Codec wireClaims) (header_alg : string -> option string).
Context (hash_sum : hash_alg -> string -> string).
Context (rsa_verify : Z -> Z -> hash_alg -> string -> string -> bool).
Context (ecdsa_verify : curve -> Z -> Z -> string -> Z -> Z -> bool).
Context (jwt_header : string -> option (string * string)) (jwt_claims : string -> option Claims).
Context (oor : float64 -> Z).

(** The values JSON text can carry. *)
Context (session_ok : Session -> Prop) (state_ok : statePayload -> Prop) (wire_ok : wireClaims -> Prop).

(** The deployment: the handler of logins, the token service's key and time to
    live, the accounts. *)
Context (hd : Handler) (sts_key : string) (ttl : Duration) (accounts : gmap string ServiceAccount).

Record world : Type := mkWorld { g_history : list event; g_revoked : gset string }.
Definition service (w : world) : STS := mkSTS sts_key ttl (Some (g_revoked w)).

(** What an outsider can present: no MAC of a message that was not signed. *)
Definition unforged_state (h : list event) (cookie : string) : Prop :=
  forall msg, presents_state cookie msg (hmac (h_sessionKey hd) msg) ->
    msg ∈ signed_messages session_json state_json (sessions_of h) (states_of h).
Definition unforged_session (h : list event) (cookie : string) : Prop :=
  forall msg, presents cookie msg (hmac (h_sessionKey hd) msg) ->
    msg ∈ signed_messages session_json state_json (sessions_of h) (states_of h).
Definition unforged_token (h : list event) (raw : string) : Prop :=
  forall msg, presents raw msg (hmac sts_key msg) -> msg ∈ map (token_message claims_json) (tokens_of h).

Definition log (w : world) (e : event) : world := mkWorld (g_history w ++ [e]) (g_revoked w).

(** The exchange of the callback, with what the provider answers. *)
Definition provider (answer : option string) (jwks : option (list jwk)) (now : time)
    (v : Verifier) (realm code cv nonce : string) : option Claims :=
  oidc_Exchange hash_sum rsa_verify ecdsa_verify jwt_header jwt_claims oor v realm code cv nonce
    answer jwks now.

Inductive step : world -> world -> Prop :=
  | StepLogin w path cv st nc next now cookie p :
      Login hmac state_json hd path cv st nc next now = Ok (cookie, p) -> state_ok p ->
      step w (log w (EvState p))
  | StepCallback w path ck q_state q_code answer jwks now p cookie sess dest :
      unforged_state (g_history w) ck ->
      decodeStateCookie hmac state_json (h_sessionKey hd) (h_stateTTL hd) (ss_realm sess) ck now = Some p ->
      o_result (Callback hmac session_json state_json oor hd path (Some ck) q_state q_code
        (provider answer jwks now) now) = Ok (cookie, sess, dest) ->
      session_ok sess ->
      step w (log w (EvSession sess p (ss_claims sess)))
  | StepToken w method path ck jti wall now raw t sess j :
      unforged_session (g_history w) ck -> jti = Some j ->
      handleToken hmac session_json claims_json (Some (service w)) (h_sessionKey hd) method path
        (Some ck) jti wall now = Ok (raw, t, sess) ->
      let wire := to_wire (exchange_claims (service w) (ss_subject sess) (ss_realm sess)
                    (sessionRoles (ss_claims sess)) j now) (Unix wall) in
      wire_ok wire -> step w (log w (EvToken wire (FromSession sess)))
  | StepClient w method ct form jti wall now raw t j acct :
      jti = Some j ->
      handleClientCredentialsToken hmac claims_json (Some (service w)) (Some accounts) method ct
        (Some form) jti wall now = Ok (raw, t) ->
      let client := default EmptyString (form !! "client_id") in
      let scope := Fields (default EmptyString (form !! "scope")) in
      accounts !! client = Some acct ->
      let wire := to_wire (exchange_claims (service w) client (account_realm acct) scope j now)
                    (Unix wall) in
      wire_ok wire -> step w (log w (EvToken wire (FromAccount acct)))
  | StepRevoke w jti : step w (mkWorld (g_history w) ({[ jti ]} ∪ g_revoked w)).

Inductive reachable : world -> Prop :=
  | reach_start : reachable (mkWorld [] ∅)
  | reach_step w w' : reachable w -> step w w' -> reachable w'.

(** *** Provenance *)

(** An id_token's claims are acceptable for a login of the realm. *)
Definition login_verified (p : statePayload) (c : Claims) (subject : string) : Prop :=
  exists v, h_verifiers hd !! sp_Realm p = Some v /\ v_Realm v = sp_Realm p /\
    aud_accepts (c !! "aud") (v_ClientID v) = true /\
    claim_string c "nonce" = sp_Nonce p /\ sp_Nonce p <> EmptyString /\
    claim_string c "sub" = subject /\ subject <> EmptyString.

Definition event_ok (h : list event) (e : event) : Prop :=
  match e with
  | EvState p => state_ok p /\ realm_known (sp_Realm p) = true
  | EvSession s p c =>
      session_ok s /\ EvState p ∈ h /\ ss_realm s = sp_Realm p /\ c = ss_claims s /\
      login_verified p c (ss_subject s)
  | EvToken w (FromSession s) =>
      wire_ok w /\ (exists p c, EvSession s p c ∈ h) /\ w_Sub w = ss_subject s /\
      w_Realm w = ss_realm s /\ w_Scope w = sessionRoles (ss_claims s)
  | EvToken w (FromAccount a) =>
      wire_ok w /\ accounts !! w_Sub w = Some a /\ w_Realm w = account_realm a /\
      w_Scope w ⊆ sa_MaxScope a
  end.

Definition history_ok (h : list event) : Prop := Forall (event_ok h) h.

Lemma event_ok_mono h e e' : event_ok h e -> event_ok (h ++ [e']) e.
Proof using.
  destruct e as [p|s p c|w [s|a]]; cbn; [done| |..].
  - intros (? & ? & ?). split; [done|]. split; [|done]. apply elem_of_app. by left.
  - intros (? & (p & c & ?) & ?). split; [done|]. split; [|done]. exists p, c.
    apply elem_of_app. by left.
  - done.
Qed.

Lemma history_ok_snoc h e : history_ok h -> event_ok h e -> history_ok (h ++ [e]).
Proof using.
  intros Hh He. apply Forall_app. split; [|by repeat constructor; apply event_ok_mono].
  eapply Forall_impl; [exact Hh|]. intros e'. apply event_ok_mono.
Qed.

Lemma states_history h : history_ok h ->
  Forall state_ok (states_of h) /\ Forall (fun p => realm_known (sp_Realm p) = true) (states_of h).
Proof using.
  intros Hh. unfold history_ok in Hh. rewrite Forall_forall in Hh.
  split; apply Forall_forall; intros p (e & Hin & He)%list_elem_of_omap;
    destruct e; try done; injection He as ->; by apply Hh in Hin as [].
Qed.

Lemma sessions_history h : history_ok h -> Forall session_ok (sessions_of h).
Proof using.
  intros Hh. unfold history_ok in Hh. rewrite Forall_forall in Hh.
  apply Forall_forall; intros p (e & Hin & He)%list_elem_of_omap;
    destruct e; try done; injection He as ->; by apply Hh in Hin as [].
Qed.

Lemma tokens_history h : history_ok h -> Forall wire_ok (tokens_of h).
Proof using.
  intros Hh. unfold history_ok in Hh. rewrite Forall_forall in Hh.
  apply Forall_forall; intros p (e & Hin & He)%list_elem_of_omap;
    destruct e as [| |w [s|a]]; try done; injection He as ->; by apply Hh in Hin as [].
Qed.

Lemma provider_verified answer jwks now v realm code cv nonce c :
  provider answer jwks now v realm code cv nonce = Some c ->
  v_Realm v = realm /\ nonce <> EmptyString /\ claim_string c "nonce" = nonce /\
  aud_accepts (c !! "aud") (v_ClientID v) = true /\
  (exists f, c !! "exp" = Some (JNum f) /\ (Unix now < to_int64 oor f)%Z).
Proof using.
  unfold provider, oidc_Exchange. destruct (str_eqb realm (v_Realm v)) eqn:Er; [|done].
  apply str_eqb_eq in Er as ->. cbn [negb].
  destruct (str_eqb code _ || _ || _) eqn:Ee; [done|]. bool_simpl.
  match goal with H : str_eqb nonce EmptyString = false |- _ => rename H into Hn end.
  destruct (str_eqb (v_TokenEndpoint v) _); [done|].
  destruct answer as [raw|]; [|done]. cbn [mbind option_bind].
  destruct (str_eqb raw _); [done|].
  unfold VerifyIDToken. destruct (split "." raw) as [|p0 [|p1 [|p2 [|]]]]; try done.
  destruct (b64_decode p0) as [hb|]; [|done]. cbn [mbind option_bind].
  destruct (jwt_header hb) as [hdr|]; [|done]. cbn [mbind option_bind].
  destruct (b64_decode p1) as [pb|]; [|done]. cbn [mbind option_bind].
  destruct (jwt_claims pb) as [cl|]; [|done]. cbn [mbind option_bind].
  destruct (b64_decode p2) as [sig|]; [|done]. cbn [mbind option_bind].
  destruct jwks as [keys|]; [|done]. cbn [mbind option_bind].
  destruct (lookupJWK keys hdr.2) as [pub|]; [|done]. cbn [mbind option_bind].
  destruct (verifySignature _ _ _ _ _ _ _); [|done]. cbn [negb].
  destruct (verifyStandardClaims _ cl _ _ _) eqn:Ev; [|done]. cbn [negb mbind option_bind].
  destruct (_ && _ && _); [done|]. intros [= <-].
  unfold verifyStandardClaims in Ev. rewrite Hn in Ev. cbn [orb] in Ev. bool_simpl.
  split; [done|]. split; [by apply str_eqb_neq|]. split; [by apply str_eqb_eq|]. split; [done|].
  destruct (cl !! "exp") as [[| |f| | |]|]; try done. exists f. split; [done|]. lia.
Qed.

Lemma Callback_inv path ck q_state q_code answer jwks now cookie sess dest p :
  decodeStateCookie hmac state_json (h_sessionKey hd) (h_stateTTL hd) (ss_realm sess) ck now = Some p ->
  o_result (Callback hmac session_json state_json oor hd path (Some ck) q_state q_code
    (provider answer jwks now) now) = Ok (cookie, sess, dest) ->
  realm_known (ss_realm sess) = true /\ sp_Realm p = ss_realm sess /\ q_state = sp_State p /\
  login_verified p (ss_claims sess) (ss_subject sess) /\
  cookie = session_message session_json sess +:+ "." +:+
    b64_encode (hmac (h_sessionKey hd) (session_message session_json sess)).
Proof using.
  intros Hd. unfold Callback, realmFromPath.
  destruct (splitN2 _ _) as [|p0 rest]; [done|].
  destruct (str_eqb p0 EmptyString); [done|].
  destruct (ParseRealm p0) as [realm|] eqn:Ep; [|done]. cbn [mbind result_bind].
  unfold verifierFor. destruct (h_verifiers hd !! realm) as [v|] eqn:Ev; [|done].
  cbn [mbind result_bind].
  destruct (decodeStateCookie _ _ _ _ realm ck now) as [p'|] eqn:Ed; [|done].
  destruct (str_eqb (sp_Realm p') realm) eqn:Er; [|done]. apply str_eqb_eq in Er. cbn [negb].
  destruct (str_eqb q_state _) eqn:Es; [|done]. apply str_eqb_eq in Es. cbn [negb o_result].
  destruct (str_eqb q_code _); [done|].
  destruct (provider _ _ _ v realm q_code _ _) as [c|] eqn:Epr; [|done].
  apply provider_verified in Epr as (Hvr & Hne & Hno & Ha & _).
  destruct (str_eqb (claim_string c "sub") _) eqn:Esub; [done|]. apply str_eqb_neq in Esub.
  unfold EncodeSession. destruct (str_eqb (h_sessionKey hd) _); [done|]. intros [= <- <- _].
  cbn [ss_realm ss_claims ss_subject] in *. rewrite Ed in Hd. injection Hd as <-. rewrite Er.
  split; [|split; [done|]; split; [done|]; split; [|done]].
  - unfold ParseRealm in Ep. unfold realm_known. destruct (str_eqb p0 "ops") eqn:E1.
    { injection Ep as <-. by rewrite E1. }
    destruct (str_eqb p0 "customer") eqn:E2; [|done]. injection Ep as <-. by rewrite E1, E2.
  - exists v. rewrite Er. done.
Qed.

Lemma Login_inv path cv st nc next now cookie p :
  Login hmac state_json hd path cv st nc next now = Ok (cookie, p) -> realm_known (sp_Realm p) = true.
Proof using.
  unfold Login, realmFromPath. destruct (splitN2 _ _) as [|p0 rest]; [done|].
  destruct (str_eqb p0 EmptyString); [done|].
  destruct (ParseRealm p0) as [realm|] eqn:Ep; [|done]. cbn [mbind result_bind].
  destruct (verifierFor hd realm); [|done]. cbn [mbind result_bind].
  destruct cv, st, nc; try done. intros [= _ <-]. cbn. unfold ParseRealm, realm_known in *.
  destruct (str_eqb p0 "ops") eqn:E1; [injection Ep as <-; by rewrite E1|].
  destruct (str_eqb p0 "customer") eqn:E2; [|done]. injection Ep as <-. by rewrite E1, E2.
Qed.

Lemma handleToken_inv svc key method path ck jti wall now raw t sess :
  handleToken hmac session_json claims_json (Some svc) key method path (Some ck) jti wall now =
    Ok (raw, t, sess) ->
  DecodeSession hmac session_json key ck wall = Some sess /\ method = "POST" /\
  parseRealmFromTokenPath path = Some (ss_realm sess) /\
  Exchange hmac claims_json svc (ss_subject sess) (ss_realm sess) (sessionRoles (ss_claims sess))
    jti now wall = Ok (raw, t).
Proof using.
  unfold handleToken. destruct (str_eqb method "POST") eqn:Em; [|done]. apply str_eqb_eq in Em.
  cbn [negb]. destruct (str_eqb key _); [done|].
  destruct (parseRealmFromTokenPath path) as [r|]; [|done].
  destruct (DecodeSession _ _ key ck wall) as [s|]; [|done].
  unfold CheckRealm. destruct (str_eqb r (ss_realm s)) eqn:Er; [|done]. apply str_eqb_eq in Er as ->.
  cbn [negb]. destruct (realm_known _); [|done]. cbn [negb].
  destruct (Exchange _ _ _ _ _ _ _ _ _) as [[raw' t']|] eqn:Ex; [|done]. by intros [= -> -> ->].
Qed.

Lemma handleClient_inv svc method ct form jti wall now raw t :
  handleClientCredentialsToken hmac claims_json (Some svc) (Some accounts) method ct (Some form)
    jti wall now = Ok (raw, t) ->
  IssueClientCredentials hmac claims_json svc (Some accounts) (default EmptyString (form !! "client_id"))
    (default EmptyString (form !! "client_secret")) (Fields (default EmptyString (form !! "scope")))
    jti now wall = Ok (raw, t).
Proof using.
  unfold handleClientCredentialsToken. destruct (str_eqb method "POST"); [|done]. cbn [negb].
  destruct (str_eqb _ "application/x-www-form-urlencoded"); [|done]. cbn [negb].
  destruct (str_eqb _ "client_credentials"); [|done]. cbn [negb].
  destruct (str_eqb _ EmptyString || _); [done|].
  destruct (IssueClientCredentials _ _ _ _ _ _ _ _ _ _) as [r|e]; [by intros [= ->]|by destruct e].
Qed.

Context (session_law : codec_law session_json session_ok) (state_law : codec_law state_json state_ok)
  (wire_law : codec_law claims_json wire_ok).
Context (session_brace : forall x, braced (enc session_json x) = true)
  (state_brace : forall x, braced (enc state_json x) = true).

(** Everything in the history has the provenance it claims. *)
Lemma reachable_history w : reachable w -> history_ok (g_history w).
Proof using session_law state_law session_brace state_brace.
  induction 1 as [|w w' _ IH Hs]; [by constructor|].
  destruct Hs; cbn [g_history log]; try done; apply history_ok_snoc; try done.
  - split; [done|]. eapply Login_inv. done.
  - match goal with H : decodeStateCookie _ _ _ _ _ _ _ = Some p |- _ => rename H into Hd end.
    match goal with H : o_result _ = Ok _ |- _ => rename H into Hc end.
    destruct (Callback_inv _ _ _ _ _ _ _ _ _ _ _ Hd Hc) as (Hr & Hp & _ & Hv & _).
    pose proof (states_history _ IH) as [Hst Hsr].
    destruct (decodeState_issued hmac session_json state_json state_ok state_law session_brace
      _ _ _ _ _ _ _ _ Hd Hr Hst Hsr ltac:(eassumption)) as [Hin _].
    split; [done|]. split; [|done]. apply list_elem_of_omap in Hin as (e & Hin & He).
    by destruct e; try done; injection He as ->.
  - match goal with H : handleToken _ _ _ _ _ _ _ _ _ _ _ = _ |- _ => apply handleToken_inv in H as (Hd & _) end.
    pose proof (DecodeSession_issued hmac session_json state_json session_ok session_law state_brace
      _ _ _ _ _ _ Hd (sessions_history _ IH) ltac:(eassumption)) as Hin.
    split; [done|]. split; [|done]. apply list_elem_of_omap in Hin as (e & Hin & He).
    destruct e; try done; injection He as ->. eauto.
  - match goal with H : handleClientCredentialsToken _ _ _ _ _ _ _ _ _ _ = _ |- _ =>
      apply handleClient_inv, IssueClientCredentials_iff in H
        as (accts & a & [= <-] & Ha & _ & _ & _ & _ & Hsc & _) end.
    split; [done|]. split; [done|]. split; [done|].
    assert (a = acct) as -> by (unfold client in *; congruence). done.
Qed.

(** Where the token of an accepted request comes from. *)
Definition token_source (h : list event) (c : TokenClaims) : Prop :=
  (exists s p, EvSession s p (ss_claims s) ∈ h /\ EvState p ∈ h /\
     t_Subject c = ss_subject s /\ t_Realm c = ss_realm s /\ ss_realm s = sp_Realm p /\
     t_Scope c = sessionRoles (ss_claims s) /\ login_verified p (ss_claims s) (ss_subject s)) \/
  (exists a, accounts !! t_Subject c = Some a /\ t_Realm c = account_realm a /\
     t_Scope c ⊆ sa_MaxScope a).


End system.

(** ** A concrete deployment *)

Definition demo_claims : Claims :=
  {[ "iss" := JStr "https://idp"; "aud" := JArr [JStr "other"; JStr "portal"];
     "exp" := JNum (f_of_Z 9000); "nonce" := JStr "nc"; "sub" := JStr "alice";
     "roles" := JArr [JStr "operator"; JStr EmptyString; JStr "viewer"] ]}.

Definition demo_state_json : Codec statePayload := mkCodec
  (fun p => fields_text [sp_Realm p; sp_State p; sp_Nonce p; sp_CodeVerifier p;
                         number (sp_IssuedAt p); sp_RedirectTo p])
  (fun s => match text_fields s with
            | [a; b; c; d; e; f] => i ← Atoi e; Some (mkState a b c d i f)
            | _ => None
            end).
Definition demo_session_json : Codec Session := mkCodec
  (fun s => fields_text [ss_subject s; ss_realm s; number (ss_expiresAt s)])
  (fun s => match text_fields s with
            | [a; b; c] => i ← Atoi c; Some (mkSession a b i demo_claims)
            | _ => None
            end).
Definition demo_verifier : Verifier := mkVerifier "ops" "portal" "https://idp" "https://idp/token".
Definition demo_handler : Handler := mkHandler {[ "ops" := demo_verifier ]} "k1" "/" (5 * Minute).
Definition demo_now : time := time_Unix 1000.
Definition demo_keys : list jwk :=
  [mkJwk "RSA" "kid1" (b64_encode "n") (b64_encode "e") EmptyString EmptyString EmptyString].
Definition demo_rsa (n e : Z) (h : hash_alg) (digest sig : string) : bool := str_eqb digest sig.
Definition demo_hash (h : hash_alg) (s : string) : string := s.
Definition demo_ec (c : curve) (x y : Z) (d : string) (r s : Z) : bool := false.
Definition demo_jwt_header (s : string) : option (string * string) := Some ("RS256", "kid1").
Definition demo_jwt_claims (s : string) : option Claims := Some demo_claims.
Definition demo_oor (f : float64) : Z := 0.

Definition demo_idtoken : string :=
  let m := b64_encode "h" +:+ "." +:+ b64_encode "p" in m +:+ "." +:+ b64_encode m.

Definition demo_state : statePayload := mkState "ops" "st" "nc" "cv" 1000 "/".
Definition demo_state_cookie : string := writeStateCookie demo_hmac demo_state_json "k1" "ops" demo_state.
Definition demo_session : Session := mkSession "alice" "ops" 9000 demo_claims.
Definition demo_session_cookie : string :=
  session_message demo_session_json demo_session +:+ "." +:+
  b64_encode (demo_hmac "k1" (session_message demo_session_json demo_session)).

Definition demo_accounts : gmap string ServiceAccount :=
  {[ "batch" := mkAccount "batch" (demo_hmac "k2" "pw") ["viewer"] EmptyString ]}.
Definition demo_service : STS := mkSTS "k2" (15 * Minute) (Some ∅).
Definition demo_wire : wireClaims :=
  to_wire (exchange_claims demo_service "alice" "ops" ["operator"; "viewer"] "jti1" demo_now) 1000.
Definition demo_token : string := signed_token demo_hmac demo_claims_json "k2" demo_wire.

Example demo_login :
  Login demo_hmac demo_state_json demo_handler "/auth/ops/login" (Some "cv") (Some "st") (Some "nc")
    "//evil.example" demo_now = Ok (demo_state_cookie, demo_state).
Proof. vm_compute. reflexivity. Qed.

(** A path with a backslash passes for a same-origin path, although browsers read
    it as a slash. *)
Example demo_open_redirect : isSafeRedirect "/\evil.example" = true.
Proof. reflexivity. Qed.

(** Text behind the third dot is cut off: such a token verifies as well. *)
Example demo_trailing_part :
  Verify demo_hmac demo_claims_json demo_hdr_alg demo_service (demo_token +:+ ".junk") demo_now demo_now
  = Verify demo_hmac demo_claims_json demo_hdr_alg demo_service demo_token demo_now demo_now /\
  Verify demo_hmac demo_claims_json demo_hdr_alg demo_service demo_token demo_now demo_now <> None.
Proof. split; [vm_compute; reflexivity|vm_compute; discriminate]. Qed.

(** The digest of an elliptic-curve signature is SHA-256 whatever the algorithm. *)
Example demo_es384_digest :
  verifySignature (fun h s => match h with SHA256 => "d256" | SHA384 => "d384" | SHA512 => "d512" end)
    demo_rsa (fun _ _ _ d _ _ => str_eqb d "d384") "ES384" (ECKey P384 1 2) "input"
    (String.concat EmptyString (repeat "a" 96)) = false.
Proof. vm_compute. reflexivity. Qed.

Definition demo_world : world :=
  mkWorld [EvState demo_state; EvSession demo_session demo_state demo_claims;
           EvToken demo_wire (FromSession demo_session)] ∅.

Abbreviation demo_reachable := (reachable demo_hmac demo_session_json demo_state_json
  demo_claims_json demo_hash demo_rsa demo_ec demo_jwt_header demo_jwt_claims demo_oor
  (carried demo_session_json) (carried demo_state_json) (carried demo_claims_json)
  demo_handler "k2" (15 * Minute)%Z demo_accounts).

(** A string has one message to present. *)
Lemma presents_one raw p0 p1 p2 msg sig :
  splitDots raw = [p0; p1; p2] -> presents raw msg sig -> msg = p0 +:+ "." +:+ p1.
Proof. intros H (q0 & q1 & q2 & Hq & -> & _). rewrite H in Hq. by injection Hq as <- <- <-. Qed.

Lemma presents_state_one raw p0 p1 p2 body msg sig :
  splitN3 raw = Some (p0, p1, p2) -> b64_decode p0 = Some body ->
  presents_state raw msg sig -> msg = state_message body p2.
Proof.
  intros H Hb (q0 & q1 & q2 & b & Hq & Hd & -> & _). rewrite H in Hq. injection Hq as <- <- <-.
  rewrite Hb in Hd. by injection Hd as <-.
Qed.

Lemma demo_world_reachable : demo_reachable demo_world.
Proof.
  eapply reach_step; [eapply reach_step; [eapply reach_step; [apply reach_start|]|]|].
  - eapply StepLogin; [exact demo_login|vm_compute; reflexivity].
  - eapply (StepCallback _ _ _ _ _ _ _ _ _ _ _ _ _ _ _ _ _ (log (mkWorld [] ∅) (EvState demo_state))
      "/auth/ops/callback" demo_state_cookie "st" "code" (Some demo_idtoken) (Some demo_keys) demo_now
      demo_state demo_session_cookie demo_session "/").
    + intros msg Hm. eapply presents_state_one in Hm; [|vm_compute; reflexivity|vm_compute; reflexivity].
      rewrite Hm. apply elem_of_app. right. vm_compute. left.
    + vm_compute. reflexivity.
    + vm_compute. reflexivity.
    + vm_compute. reflexivity.
  - eapply (StepToken _ _ _ _ _ _ _ _ _ _ _ _ _ _ _ _ _
      (mkWorld [EvState demo_state; EvSession demo_session demo_state demo_claims] ∅)
      "POST" "/auth/ops/token" demo_session_cookie (Some "jti1") demo_now demo_now demo_token _
      demo_session "jti1").
    + intros msg Hm. eapply presents_one in Hm; [|vm_compute; reflexivity].
      rewrite Hm. apply elem_of_app. left. vm_compute. left.
    + reflexivity.
    + vm_compute. reflexivity.
    + vm_compute. reflexivity.
Qed.

Definition demo_pdp (i : Input) : result unit bool := Ok (str_eqb (in_Action i) "read").

