(* ===== verification/NetURL.v ===== *)
(** * URLs of the language's library (net/url)

    Percent-encoding, query strings and the target of a request: what the
    program asks of package net/url when it builds the URL of another service's
    endpoint out of pieces of text.  A query that is encoded parses back to its
    pairs, and a path of plain bytes is the path that is requested. *)
From S2P Require Import Prelude GoTime Http Cursor.
Open Scope string_scope.
Open Scope list_scope.

(** ** Percent-encoding *)

Definition in_bytes (lo hi c : ascii) : bool := ((code lo <=? code c) && (code c <=? code hi))%N.

(** [ishex] and [unhex] *)
Definition unhex (c : ascii) : option N :=
  if in_bytes "0" "9" c then Some (code c - 48)%N
  else if in_bytes "a" "f" c then Some (code c - 87)%N
  else if in_bytes "A" "F" c then Some (code c - 55)%N
  else None.
Definition upperhex (n : N) : ascii := ascii_of_N (if (n <? 10)%N then 48 + n else 55 + n)%N.

(** [unescape]; in a query a plus is a space. *)
Fixpoint unescape (query : bool) (s : string) : option string :=
  match s with
  | EmptyString => Some EmptyString
  | String c r =>
      if byte_eqb c "%" then
        match r with
        | String a (String b r) =>
            match unhex a, unhex b with
            | Some x, Some y => String (ascii_of_N (16 * x + y)) <$> unescape query r
            | _, _ => None
            end
        | _ => None
        end
      else String (if query && byte_eqb c "+" then " "%char else c) <$> unescape query r
  end.

(** [shouldEscape] in a component of a query *)
Definition unreserved (c : ascii) : bool :=
  in_bytes "a" "z" c || in_bytes "A" "Z" c || in_bytes "0" "9" c ||
  byte_eqb c "-" || byte_eqb c "_" || byte_eqb c "." || byte_eqb c "~".

Definition escape_byte (c : ascii) : string :=
  if byte_eqb c " " then String "+" EmptyString
  else if unreserved c then String c EmptyString
  else String "%" (String (upperhex (code c / 16)) (String (upperhex (code c mod 16)) EmptyString)).

Fixpoint QueryEscape (s : string) : string :=
  match s with EmptyString => EmptyString | String c r => escape_byte c +:+ QueryEscape r end.

(** ** Query strings *)

Definition parse_pair (seg : string) : option (string * string) :=
  if str_eqb seg EmptyString || negb (no_byte ";" seg) then None
  else
    let '(k, v) := default (seg, EmptyString) (cut_at "=" seg) in
    k ← unescape true k; v ← unescape true v; Some (k, v).

(** [u.Query()]: what cannot be parsed is dropped. *)
Definition parse_query (q : string) : list (string * string) := omap parse_pair (split "&" q).
Definition query_get (kvs : list (string * string)) (k : string) : string :=
  match List.find (fun kv => str_eqb kv.1 k) kvs with Some kv => kv.2 | None => EmptyString end.

(** [q.Encode()], of the pairs in the order of their keys *)
Definition encode_pair (kv : string * string) : string := QueryEscape kv.1 +:+ "=" +:+ QueryEscape kv.2.
Definition encode_query (kvs : list (string * string)) : string := join "&" (map encode_pair kvs).

(** ** Request targets *)

Definition control_byte (c : ascii) : bool := ((code c <? 32) || (code c =? 127))%N.

(** What a server reads of a request for "http://host" followed by [target]: the
    decoded path and the query; [None] when the URL is malformed and no request
    is made. *)
Definition parse_target (target : string) : option (string * string) :=
  let '(u, frag) := default (target, EmptyString) (cut_at "#" target) in
  if negb (all_bytes (fun c => negb (control_byte c)) u) then None
  else
    let '(p, q) := default (u, EmptyString) (cut_at "?" u) in
    _ ← unescape false frag; p ← unescape false p; Some (p, q).

(** ** Encoding and decoding *)

Lemma unescape_byte c r : unescape true (escape_byte c +:+ r) = String c <$> unescape true r.
Proof. destruct c as [[] [] [] [] [] [] [] []]; reflexivity. Qed.

Lemma QueryEscape_round s : unescape true (QueryEscape s) = Some s.
Proof. induction s as [|c s IH]; [done|]. cbn [QueryEscape]. by rewrite unescape_byte, IH. Qed.

(** The bytes of an escaped component. *)
Definition component_byte (c : ascii) : bool := unreserved c || byte_eqb c "+" || byte_eqb c "%".

Lemma escape_byte_component c : all_bytes component_byte (escape_byte c) = true.
Proof. destruct c as [[] [] [] [] [] [] [] []]; reflexivity. Qed.

Lemma QueryEscape_component s : all_bytes component_byte (QueryEscape s) = true.
Proof. induction s as [|c s IH]; [done|]. cbn [QueryEscape]. by rewrite all_bytes_app, escape_byte_component, IH. Qed.

Lemma QueryEscape_no_byte b s : component_byte b = false -> no_byte b (QueryEscape s) = true.
Proof.
  intros Hb. eapply all_bytes_impl; [|apply QueryEscape_component]. intros c Hc. apply negb_true_iff, byte_eqb_neq.
  intros ->. by rewrite Hb in Hc.
Qed.

Lemma no_byte_string_app b x y : no_byte b (x +:+ y) = no_byte b x && no_byte b y.
Proof. apply all_bytes_app. Qed.

Lemma parse_pair_encode kv : parse_pair (encode_pair kv) = Some kv.
Proof.
  destruct kv as [k v]. unfold parse_pair, encode_pair. cbn [fst snd].
  assert (str_eqb (QueryEscape k +:+ "=" +:+ QueryEscape v) EmptyString = false) as ->.
  { apply str_eqb_neq. intros [_ [=]]%str_app_nil_inv. }
  rewrite !no_byte_string_app, !(QueryEscape_no_byte ";") by done. cbn [orb negb andb].
  change ("=" +:+ QueryEscape v) with (String "=" (QueryEscape v)).
  rewrite cut_at_app by by apply (QueryEscape_no_byte "="). unfold default, id.
  cbn [from_option]. rewrite !QueryEscape_round. done.
Qed.

(** A query that is encoded parses back to its pairs. *)
Lemma parse_query_encode kvs : parse_query (encode_query kvs) = kvs.
Proof.
  unfold parse_query, encode_query. destruct kvs as [|kv kvs]; [done|]. rewrite split_join; [|done|].
  - induction (kv :: kvs) as [|x l IH]; [done|]. cbn [map omap list_omap]. rewrite parse_pair_encode. by f_equal.
  - apply Forall_map, Forall_true. intros [k v]. unfold encode_pair. cbn [fst snd].
    by rewrite !no_byte_string_app, !(QueryEscape_no_byte "&") by done.
Qed.

(** ** Plain targets *)

Definition plain_byte (c : ascii) : bool :=
  negb (control_byte c || byte_eqb c "%" || byte_eqb c "?" || byte_eqb c "#").

Lemma unescape_plain s : all_bytes plain_byte s = true -> unescape false s = Some s.
Proof.
  induction s as [|c s IH]; [done|]. cbn [all_bytes unescape]. intros [Hc Hs]%andb_true_iff. unfold plain_byte in Hc.
  bool_simpl. rewrite IH by done. by destruct (byte_eqb c "%").
Qed.

Lemma cut_at_none b s : no_byte b s = true -> cut_at b s = None.
Proof.
  unfold no_byte. induction s as [|c s IH]; [done|]. cbn. intros [Hc%negb_true_iff Hs]%andb_true_iff. by rewrite Hc, IH.
Qed.

(** A query that can be forwarded as it is. *)
Definition query_byte (c : ascii) : bool := negb (control_byte c || byte_eqb c "#").

Definition with_query (base q : string) : string := if str_eqb q EmptyString then base else base +:+ "?" +:+ q.

Lemma plain_no_byte b s : plain_byte b = false -> all_bytes plain_byte s = true -> no_byte b s = true.
Proof.
  intros Hb. apply all_bytes_impl. intros c Hc. apply negb_true_iff, byte_eqb_neq. intros ->. by rewrite Hb in Hc.
Qed.

(** A path of plain bytes and a query without a fragment are what is requested. *)
Lemma parse_target_plain p q : all_bytes plain_byte p = true -> all_bytes query_byte q = true ->
  parse_target (with_query p q) = Some (p, q).
Proof.
  intros Hp Hq.
  assert (Hpc : all_bytes (fun c => negb (control_byte c)) p = true).
  { revert Hp. apply all_bytes_impl. intros c Hc. unfold plain_byte in Hc. by destruct (control_byte c). }
  assert (Hqc : all_bytes (fun c => negb (control_byte c)) q = true).
  { revert Hq. apply all_bytes_impl. intros c Hc. unfold query_byte in Hc. by destruct (control_byte c). }
  assert (Hqh : no_byte "#" q = true).
  { revert Hq. apply all_bytes_impl. intros c Hc. unfold query_byte in Hc. by destruct (control_byte c), (byte_eqb c "#"). }
  assert (Hph : no_byte "#" p = true) by by apply plain_no_byte.
  unfold parse_target, with_query. destruct (str_eqb q EmptyString) eqn:Eq.
  - apply str_eqb_eq in Eq as ->. rewrite cut_at_none by done. cbn [default from_option]. unfold id. rewrite Hpc. cbn [negb].
    rewrite cut_at_none by by apply plain_no_byte. cbn [default from_option]. unfold id. by rewrite unescape_plain.
  - assert (no_byte "#" (p +:+ "?" +:+ q) = true) as Hn.
    { rewrite !no_byte_string_app, Hph, Hqh. done. }
    rewrite cut_at_none by done. cbn [default from_option]. unfold id. rewrite !all_bytes_app, Hpc, Hqc. cbn [negb andb].
    change ("?" +:+ q) with (String "?" q). rewrite cut_at_app by by apply (plain_no_byte "?").
    cbn [default from_option]. unfold id. by rewrite unescape_plain.
Qed.
