(* ===== verification/ApiGW.v ===== *)
(** * The public API of the gateway (pkg/apigw: reads.go, sites.go,
      admin_proxy.go, customer.go, upstream.go, omniverse.go, sse.go and the
      routes of server.go; pkg/tenant/claim.go)

    Every endpoint stands behind the gate of [Login] and passes the request on to
    core with the identity of the caller.  A handler is a [proxy]: it answers, or
    it sends one request and goes on with what came back; what core answers, and
    whether it answers, is not known to it.  The theorems say which requests
    reach core, on whose behalf, and what of the answer reaches the caller. *)
From stdpp Require Import sorting.
From S2P Require Import Prelude GoTime CPath Http Cursor Tokens Login NetURL Usage.
Open Scope string_scope.
Open Scope list_scope.

(** ** Requests, answers, proxies *)

Record request : Type := mkRequest {
  rq_Method : string; rq_Path : string; rq_RawQuery : string;
  rq_Body : option string;                 (* [None]: reading it fails *)
  rq_Header : string -> string; rq_RemoteAddr : string
}.
Inductive peer : Type := Core | Omniverse.

(** A request to another service, as that service reads it. *)
Record wire : Type := mkSent {
  fw_To : peer; fw_Method : string; fw_Path : string; fw_Query : string;
  fw_Bearer : option string; fw_Tenant : option string; fw_Headers : list (string * string); fw_Body : option string
}.
Record answer : Type := mkAnswer { an_Status : Z; an_Header : string -> string; an_Body : string }.
Definition an_CT (a : answer) : string := an_Header a "Content-Type".

Inductive proxy (A : Type) : Type :=
  | Ret (a : A)
  | Ask (w : wire) (k : option answer -> proxy A).
Arguments Ret {A}. Arguments Ask {A}.

#[export] Instance proxy_ret : MRet proxy := fun A a => Ret a.
#[export] Instance proxy_bind : MBind proxy := fun A B f =>
  fix go p := match p with Ret a => f a | Ask w k => Ask w (fun a => go (k a)) end.

(** A run against services that see the requests made so far. *)
Fixpoint run {A} (world : list wire -> wire -> option answer) (p : proxy A) (sent : list wire) : list wire * A :=
  match p with
  | Ret a => (sent, a)
  | Ask w k => run world (k (world sent w)) (sent ++ [w])
  end.

(** ** pkg/tenant/claim.go *)

Inductive Tier : Type := TierDB | TierRow | TierLabel.
Definition ParseTier (s : string) : option Tier :=
  if str_eqb s "db" then Some TierDB else if str_eqb s "row" then Some TierRow
  else if str_eqb s "label" then Some TierLabel else None.

Definition TenantFromClaims (c : TokenClaims) : option (string * Tier) :=
  let id := TrimSpace (t_Tenant c) in
  if str_eqb id EmptyString then None else t ← ParseTier (t_IsolationTier c); Some (id, t).

(** ** Upstream *)

(** The base URL: the path behind its host, without slashes at the end, or [None]
    when it has no scheme or no host. *)
Record Upstream : Type := mkUpstream { up_base : option string }.
Inductive up_err : Type := errUpstreamNil | errUpstreamEmptyPath | errBaseURL | errRequest | errTransport | ErrTenantMissing.

Definition joinURL (base path : string) : string :=
  base +:+ "/" +:+ (if has_prefix path "/" then trim_prefix path "/" else path).

Definition bearer (raw : string) : option string :=
  if str_eqb raw EmptyString then None else Some ("Bearer " +:+ raw).

(** Building the request, sending it and reading the body of the answer. *)
Definition send (u : Upstream) (method raw : string) (tenant : option string) (path : string) (body : option string) :
    proxy (result up_err answer) :=
  match up_base u with
  | None => Ret (Err errBaseURL)
  | Some base =>
      match parse_target (joinURL base path) with
      | None => Ret (Err errRequest)
      | Some (p, q) =>
          Ask (mkSent Core method p q (bearer raw) tenant [] body)
            (fun a => Ret (match a with Some a => Ok a | None => Err errTransport end))
      end
  end.

Definition checked (up : option Upstream) (path : string) (k : Upstream -> proxy (result up_err answer)) :
    proxy (result up_err answer) :=
  match up with
  | None => Ret (Err errUpstreamNil)
  | Some u => if str_eqb path EmptyString then Ret (Err errUpstreamEmptyPath) else k u
  end.

Definition GetV1As (up : option Upstream) (raw path : string) : proxy (result up_err answer) :=
  checked up path (fun u => send u "GET" raw None path None).
Definition PostV1As (up : option Upstream) (raw path body : string) : proxy (result up_err answer) :=
  checked up path (fun u => send u "POST" raw None path (Some body)).
Definition PutV1As (up : option Upstream) (raw path body : string) : proxy (result up_err answer) :=
  checked up path (fun u => send u "PUT" raw None path (Some body)).
Definition DeleteV1As (up : option Upstream) (raw path : string) : proxy (result up_err answer) :=
  checked up path (fun u => send u "DELETE" raw None path None).
Definition GetV1AsTenant (up : option Upstream) (c : TokenClaims) (raw path : string) : proxy (result up_err answer) :=
  checked up path (fun u =>
    match TenantFromClaims c with
    | None => Ret (Err ErrTenantMissing)
    | Some (id, _) => send u "GET" raw (Some id) path None
    end).
Definition PostV1AsTenant (up : option Upstream) (c : TokenClaims) (raw path body : string) :
    proxy (result up_err answer) :=
  checked up path (fun u =>
    match TenantFromClaims c with
    | None => Ret (Err ErrTenantMissing)
    | Some (id, _) => send u "POST" raw (Some id) path (Some body)
    end).

(** ** Replies *)

Record customerSiteStatus : Type := mkSite { cs_ID : string; cs_Health : string; cs_OpenAlarms : Z }.
Inductive reply : Type :=
  | RProblem (p : problem)
  | RRelay (status : Z) (headers : list (string * string)) (body : string)
  | RStatus (tenant : string) (sites : list customerSiteStatus) (asOf : time) (degraded : bool)
  | RSLADefault
  | RUsageDegraded (tenant note : string)
  | RStream (body : string).

Definition no_identity : problem := Problem 401 "unauthorized" "no verified identity".
Definition tenant_missing : problem := Problem 403 "forbidden" "tenant or isolation tier missing".
Definition unavailable : problem := Problem 502 "upstream-unavailable" "upstream unavailable".
Definition no_handler : problem := Problem 404 "path-not-found" "API path not found".

(** The last part of a handler: problems for errors, the answer otherwise. *)
Definition relay (r : result up_err answer) : reply :=
  match r with
  | Err ErrTenantMissing => RProblem tenant_missing
  | Err _ => RProblem unavailable
  | Ok a =>
      if (500 <=? an_Status a)%Z then RProblem unavailable
      else
        let ct := if str_eqb (an_CT a) EmptyString
                  then (if (400 <=? an_Status a)%Z then "application/problem+json" else "application/json")
                  else an_CT a in
        RRelay (an_Status a) [("Content-Type", ct)] (an_Body a)
  end.

(** [io.ReadAll(io.LimitReader(r.Body, 1<<20))] *)
Fixpoint take_bytes (n : N) (s : string) : string :=
  match s with
  | EmptyString => EmptyString
  | String c r => if (n =? 0)%N then EmptyString else String c (take_bytes (N.pred n) r)
  end.
Definition read_body (rq : request) : option string := take_bytes (2 ^ 20) <$> rq_Body rq.

Definition method_is (rq : request) (m : string) : bool := str_eqb (rq_Method rq) m.
Definition refuse (p : problem) : proxy reply := Ret (RProblem p).

(** The id behind a prefix: one segment that is not empty. *)
Definition last_segment (prefix p : string) : option string :=
  let rest := trim_prefix p prefix in
  if str_eqb rest p then None
  else match splitN2 "/" rest with
  | [id] => if str_eqb id EmptyString then None else Some id
  | _ => None
  end.
Definition extractTicketID (p : string) : option string :=
  let rest := trim_prefix p "/api/tickets/" in
  if str_eqb rest p then None
  else
    let rest := match cut_at ":" rest with Some (before, _) => before | None => rest end in
    match splitN2 "/" rest with
    | [id] => if str_eqb id EmptyString then None else Some id
    | _ => None
    end.
Definition extractTicketTransition (p : string) : option string :=
  if negb (has_suffix p ":transition") then None else extractTicketID (trim_suffix p ":transition").
Definition extractAlarmAck (p : string) : option string :=
  if negb (has_suffix p ":ack") then None
  else
    let rest := trim_prefix (trim_suffix p ":ack") "/api/alarms/" in
    if str_eqb rest EmptyString || negb (no_byte "/" rest) || negb (no_byte ":" rest) then None else Some rest.
Definition extractPMScheduleID : string -> option string := last_segment "/api/pm/schedules/".
Definition extractSpareID : string -> option string := last_segment "/api/spares/".
Definition extractInspectionID : string -> option string := last_segment "/api/inspections/".
Definition extractRunbookKey : string -> option string := last_segment "/api/runbooks/".

Section handlers.
Context (up : option Upstream).
Abbreviation identity := (option (TokenClaims * string)).

(** The two checks every handler of reads.go makes. *)
Definition with_tenant (who : identity) (k : TokenClaims -> string -> string -> proxy reply) : proxy reply :=
  match who with
  | None => refuse no_identity
  | Some (c, raw) =>
      match TenantFromClaims c with
      | None => refuse tenant_missing
      | Some (id, _) => k c raw id
      end
  end.

Definition get_core (c : TokenClaims) (raw url : string) : proxy reply :=
  r ← GetV1AsTenant up c raw url; Ret (relay r).
Definition post_core (rq : request) (c : TokenClaims) (raw url : string) : proxy reply :=
  match read_body rq with
  | None => refuse (bad_request "read body")
  | Some body => r ← PostV1AsTenant up c raw url body; Ret (relay r)
  end.

(** A read at a fixed path, without or with the query of the request, or of one
    object. *)
Definition read_plain (who : identity) (rq : request) (path : string) : proxy reply :=
  if negb (method_is rq "GET") then refuse method_not_allowed
  else with_tenant who (fun c raw _ => get_core c raw path).
Definition read_query (who : identity) (rq : request) (path : string) : proxy reply :=
  if negb (method_is rq "GET") then refuse method_not_allowed
  else with_tenant who (fun c raw _ => get_core c raw (with_query path (rq_RawQuery rq))).
Definition read_object (who : identity) (rq : request) (extract : string -> option string) (prefix : string) : proxy reply :=
  if negb (method_is rq "GET") then refuse method_not_allowed
  else with_tenant who (fun c raw _ =>
    match extract (rq_Path rq) with
    | None => refuse no_handler
    | Some id => get_core c raw (prefix +:+ id)
    end).

Definition handleSites who rq := read_plain who rq "/v1/sites".
Definition handleAssets who rq := read_plain who rq "/v1/assets".
Definition handleAlarms who rq := read_plain who rq "/v1/alarms".
Definition handleTopology who rq := read_plain who rq "/v1/topology".
Definition handleMetricsQuery who rq :=
  read_query who rq (if str_eqb (rq_Path rq) "/api/metrics/query_range" then "/v1/metrics/query_range" else "/v1/metrics/query").
Definition handleCapacity who rq := read_query who rq "/v1/capacity".
Definition handleCapacityForecast who rq := read_query who rq "/v1/capacity/forecast".
Definition handleCapacityMetrics who rq := read_query who rq "/v1/capacity/metrics".
Definition handleUsage who rq := read_query who rq "/v1/usage".
Definition handleMaintenanceUpcoming who rq := read_query who rq "/v1/maintenance/upcoming".
Definition handlePMSchedules who rq := read_query who rq "/v1/pm/schedules".
Definition handleSpares who rq := read_query who rq "/v1/spares".
Definition handleInspections who rq := read_query who rq "/v1/inspections".
Definition handleCases who rq := read_query who rq "/v1/cases".
Definition handleReportOps who rq := read_query who rq "/v1/reports/ops".
Definition handleReportReconcile who rq := read_query who rq "/v1/reports/reconcile".
Definition handlePMScheduleByID who rq := read_object who rq extractPMScheduleID "/v1/pm/schedules/".
Definition handleSpareByID who rq := read_object who rq extractSpareID "/v1/spares/".
Definition handleInspectionByID who rq := read_object who rq extractInspectionID "/v1/inspections/".
Definition handleRunbookByKey who rq := read_object who rq extractRunbookKey "/v1/runbooks/".

Definition handleTickets (who : identity) (rq : request) : proxy reply :=
  if negb (method_is rq "GET") && negb (method_is rq "POST") then refuse method_not_allowed
  else with_tenant who (fun c raw _ =>
    if method_is rq "POST" then post_core rq c raw "/v1/tickets"
    else get_core c raw (with_query "/v1/tickets" (rq_RawQuery rq))).

Definition handleTicketTransition (who : identity) (rq : request) (id : string) : proxy reply :=
  if negb (method_is rq "POST") then refuse method_not_allowed
  else if str_eqb id EmptyString then refuse no_handler
  else with_tenant who (fun c raw _ => post_core rq c raw ("/v1/tickets/" +:+ id +:+ ":transition")).

Definition handleTicketByID (who : identity) (rq : request) : proxy reply :=
  match extractTicketTransition (rq_Path rq) with
  | Some id => handleTicketTransition who rq id
  | None => read_object who rq extractTicketID "/v1/tickets/"
  end.

Definition handleAlarmAck (who : identity) (rq : request) : proxy reply :=
  if negb (method_is rq "POST") then refuse method_not_allowed
  else match extractAlarmAck (rq_Path rq) with
  | None => refuse no_handler
  | Some id => with_tenant who (fun c raw _ => post_core rq c raw ("/v1/alarms/" +:+ id +:+ ":ack"))
  end.

(** ** admin_proxy.go: bearer only, no tenant *)

Definition bad_gateway (title : string) : problem := Problem 502 "bad-gateway" title.

Definition relay_admin (r : result up_err answer) : reply :=
  match r with
  | Err _ => RProblem (bad_gateway "upstream error")
  | Ok a =>
      if (500 <=? an_Status a)%Z then RProblem (bad_gateway "upstream 5xx")
      else RRelay (an_Status a)
             (if negb (str_eqb (an_CT a) EmptyString) then [("Content-Type", an_CT a)]
              else if negb (an_Status a =? 204)%Z then [("Content-Type", "application/json")] else [])
             (an_Body a)
  end.

Definition proxyAdminV1Methods (who : identity) (rq : request) (upstreamBase : string) (allowDelete allowPut : bool) : proxy reply :=
  match who with
  | None => refuse no_identity
  | Some (c, raw) =>
      let upstream := with_query upstreamBase (rq_RawQuery rq) in
      let finish (p : proxy (result up_err answer)) := r ← p; Ret (relay_admin r) in
      let with_body (k : string -> proxy (result up_err answer)) :=
        match read_body rq with None => refuse (bad_request "read body") | Some body => finish (k body) end in
      if method_is rq "GET" then finish (GetV1As up raw upstream)
      else if method_is rq "POST" then with_body (PostV1As up raw upstream)
      else if method_is rq "PUT" then
        if negb allowPut then refuse method_not_allowed else with_body (PutV1As up raw upstream)
      else if method_is rq "DELETE" then
        if negb allowDelete then refuse method_not_allowed else finish (DeleteV1As up raw upstream)
      else refuse method_not_allowed
  end.
Definition proxyAdminV1 (who : identity) (rq : request) (upstreamBase : string) (allowDelete : bool) : proxy reply :=
  proxyAdminV1Methods who rq upstreamBase allowDelete false.

(** The path below a collection; a lone slash is the collection. *)
Definition admin_path (to from p : string) : string :=
  let upstream := to +:+ trim_prefix p from in
  if str_eqb upstream (to +:+ "/") then to else upstream.

Definition handleSiteOrgs who rq := proxyAdminV1 who rq "/v1/site-orgs" true.
Definition handleRoleBindings who rq := proxyAdminV1 who rq "/v1/role-bindings" true.
Definition handleModelPacks who rq :=
  proxyAdminV1Methods who rq (admin_path "/v1/model-packs" "/api/model-packs" (rq_Path rq)) true true.
Definition handleSiteLayouts who rq :=
  proxyAdminV1Methods who rq (admin_path "/v1/site-layouts" "/api/site-layouts" (rq_Path rq)) false true.
Definition handleTenants who rq :=
  proxyAdminV1Methods who rq (admin_path "/v1/tenants" "/api/tenants" (rq_Path rq)) false false.
Definition handleOrgs who rq :=
  proxyAdminV1Methods who rq (admin_path "/v1/orgs" "/api/orgs" (rq_Path rq)) true false.

(** ** customer.go *)

Record customerAlarm : Type := mkCAlarm { ca_Path : string; ca_Severity : string; ca_State : string }.

(** Decoding the two lists core answers with; [None] when it is no such list. *)
Context (alarms_json : string -> option (list customerAlarm)) (sites_json : string -> option (list string)).

Definition fetched {A} (decode : string -> option (list A)) (r : result up_err answer) : list A * bool :=
  match r with
  | Ok a =>
      if (an_Status a <? 200)%Z || (300 <=? an_Status a)%Z then ([], false)
      else match decode (an_Body a) with Some items => (items, true) | None => ([], false) end
  | Err _ => ([], false)
  end.
Definition fetchCustomerAlarms (c : TokenClaims) (raw : string) : proxy (list customerAlarm * bool) :=
  r ← GetV1AsTenant up c raw "/v1/alarms"; Ret (fetched alarms_json r).
Definition fetchCustomerSiteIDs (c : TokenClaims) (raw : string) : proxy (list string * bool) :=
  r ← GetV1AsTenant up c raw "/v1/sites";
  let '(ids, ok) := fetched sites_json r in
  Ret (List.filter (fun id => negb (str_eqb id EmptyString)) (map TrimSpace ids), ok).

Definition isCustomerOpenAlarm (state : string) : bool := str_eqb state "firing" || str_eqb state "acked".
(** A dot in front does not end a site. *)
Definition customerSiteOf (path : string) : string :=
  let path := TrimSpace path in
  match cut_at "." path with
  | Some (site, _) => if str_eqb site EmptyString then path else site
  | None => path
  end.

Definition green (id : string) : customerSiteStatus := mkSite id "green" 0.
Definition worse (severity : string) (s : customerSiteStatus) : customerSiteStatus :=
  mkSite (cs_ID s)
    (if str_eqb severity "critical" then "red"
     else if negb (str_eqb (cs_Health s) "red") then "yellow" else cs_Health s)
    (cs_OpenAlarms s + 1).
Definition add_alarm (m : gmap string customerSiteStatus) (a : customerAlarm) : gmap string customerSiteStatus :=
  if negb (isCustomerOpenAlarm (ca_State a)) then m
  else
    let site := customerSiteOf (ca_Path a) in
    if str_eqb site EmptyString then m
    else <[site := worse (ca_Severity a) (default (green site) (m !! site))]> m.

(** The table of sites: those of the list in its order, then the others in the order
    of their names. *)
Definition by_site (ids : list string) (alarms : list customerAlarm) : gmap string customerSiteStatus :=
  foldl add_alarm (foldl (fun m id => <[id := green id]> m) ∅ ids) alarms.
Definition site_rows (ids : list string) (alarms : list customerAlarm) : list customerSiteStatus :=
  let m := by_site ids alarms in
  let extra := sort_by id (List.filter (fun id => negb (contains_string ids id)) (map_to_list m).*1) in
  omap (fun id => m !! id) ids ++ omap (fun id => m !! id) extra.

Definition handleCustomerStatus (who : identity) (rq : request) (now : time) : proxy reply :=
  if negb (method_is rq "GET") then refuse method_not_allowed
  else with_tenant who (fun c raw tenantID =>
    '(siteIDs, sitesOK) ← fetchCustomerSiteIDs c raw;
    '(alarms, alarmsOK) ← fetchCustomerAlarms c raw;
    Ret (RStatus tenantID (site_rows siteIDs alarms) now (negb sitesOK || negb alarmsOK))).

Definition handleCustomerSLA (who : identity) (rq : request) : proxy reply :=
  if negb (method_is rq "GET") then refuse method_not_allowed
  else with_tenant who (fun c raw _ =>
    r ← GetV1AsTenant up c raw "/v1/sla";
    Ret match r with
        | Ok a =>
            if (200 <=? an_Status a)%Z && (an_Status a <? 300)%Z && negb (str_eqb (an_Body a) EmptyString)
            then RRelay (an_Status a)
                   [("Content-Type", if str_eqb (an_CT a) EmptyString then "application/json" else an_CT a)] (an_Body a)
            else RSLADefault
        | Err ErrTenantMissing => RProblem tenant_missing
        | Err _ => RSLADefault
        end).

Definition usage_keys : list string := ["kind"; "granularity"; "period_start"; "period_end"; "page_size"; "page_token"].

(** The query core gets: the parameters of the request that are known, and the
    tenant of the claims. *)
Definition usage_query (tenantID rawQuery : string) : list (string * string) :=
  let asked := parse_query rawQuery in
  sort_by fst
    (("tenant_id", tenantID) ::
     omap (fun k => let v := TrimSpace (query_get asked k) in if str_eqb v EmptyString then None else Some (k, v)) usage_keys).

Definition handleCustomerUsage (who : identity) (rq : request) : proxy reply :=
  if negb (method_is rq "GET") then refuse method_not_allowed
  else with_tenant who (fun c raw tenantID =>
    r ← GetV1AsTenant up c raw ("/v1/usage?" +:+ encode_query (usage_query tenantID (rq_RawQuery rq)));
    Ret match r with
        | Err ErrTenantMissing => RProblem tenant_missing
        | Err _ => RUsageDegraded tenantID "usage upstream unavailable"
        | Ok a =>
            if (500 <=? an_Status a)%Z then RUsageDegraded tenantID "usage upstream error"
            else if (400 <=? an_Status a)%Z then RUsageDegraded tenantID "usage upstream rejected"
            else RRelay (an_Status a)
                   [("Content-Type", if str_eqb (an_CT a) EmptyString then "application/json" else an_CT a)] (an_Body a)
        end).

(** ** sse.go *)

Definition parseSiteFromStreamPath (p : string) : option string :=
  let rest := trim_prefix p "/api/sites/" in
  if str_eqb rest p then None
  else match splitN2 "/" rest with
  | [site; tail] => if str_eqb site EmptyString || negb (str_eqb tail "stream") then None else Some site
  | _ => None
  end.

(** [splitDataLines]: every line ending of the payload becomes a line feed. *)
Fixpoint line_feeds (s : string) : string :=
  match s with
  | EmptyString => EmptyString
  | String c r =>
      if byte_eqb c CR then
        match r with
        | String d r' => if byte_eqb d LF then String LF (line_feeds r') else String LF (line_feeds r)
        | EmptyString => String LF EmptyString
        end
      else String c (line_feeds r)
  end.
Definition splitDataLines (payload : string) : list string :=
  if str_eqb payload EmptyString then [] else split LF (line_feeds payload).

Record Event : Type := mkEvent { ev_ID : string; ev_Type : string; ev_Data : string }.
Definition line (s : string) : string := s +:+ String LF EmptyString.
Definition writeSSEEvent (ev : Event) : string :=
  (if str_eqb (ev_ID ev) EmptyString then EmptyString else line ("id: " +:+ ev_ID ev)) +:+
  (if str_eqb (ev_Type ev) EmptyString then EmptyString else line ("event: " +:+ ev_Type ev)) +:+
  (if str_eqb (ev_Data ev) EmptyString then line "data: "
   else foldr (fun l out => line ("data: " +:+ l) +:+ out) EmptyString (splitDataLines (ev_Data ev))) +:+
  String LF EmptyString.

(** The default source: one read of core, one event. *)
Definition Subscribe (raw site : string) : proxy (result unit (list Event)) :=
  match up with
  | None => Ret (Err tt)
  | Some _ =>
      if negb (re_site site) then Ret (Err tt)
      else
        r ← GetV1As up raw ("/v1/sites/" +:+ site +:+ "/telemetry");
        Ret match r with
            | Ok a => if (400 <=? an_Status a)%Z then Err tt else Ok [mkEvent EmptyString "telemetry" (an_Body a)]
            | Err _ => Err tt
            end
  end.

(** [flusher] says whether the writer of the response can flush; the comments that
    keep an idle connection open are left out of the body. *)
Definition handleSiteStream (flusher : bool) (who : identity) (rq : request) : proxy reply :=
  if negb (method_is rq "GET") then refuse method_not_allowed
  else match who with
  | None => refuse no_identity
  | Some (c, raw) =>
      match parseSiteFromStreamPath (rq_Path rq) with
      | None => refuse (Problem 404 "path-not-found" "stream path malformed")
      | Some site =>
          if negb (re_site site) then refuse (bad_request "invalid site")
          else if negb flusher then refuse (Problem 500 "internal" "streaming unsupported")
          else
            r ← Subscribe raw site;
            Ret match r with
                | Err _ => RProblem unavailable
                | Ok events => RStream (foldr (fun ev out => writeSSEEvent ev +:+ out) EmptyString events)
                end
      end
  end.

(** ** omniverse.go *)

Record omniverse : Type := mkOmniverse {
  ov_token : option (result unit string);  (* the source of the service token, if wired, and what it gives *)
  ov_base : option string                  (* the path of the base URL; [None] when there is none or it is malformed *)
}.
Context (ov : omniverse).

Definition set_header (name v : string) : list (string * string) := if str_eqb v EmptyString then [] else [(name, v)].
Definition copyOutboundHeaders (rq : request) : list (string * string) :=
  set_header "Content-Type" (rq_Header rq "Content-Type") ++ set_header "Accept" (rq_Header rq "Accept") ++
  set_header "User-Agent" (rq_Header rq "User-Agent") ++
  (if negb (str_eqb (rq_Header rq "X-Forwarded-For") EmptyString)
   then [("X-Forwarded-For", rq_Header rq "X-Forwarded-For" +:+ ", " +:+ rq_RemoteAddr rq)]
   else set_header "X-Forwarded-For" (rq_RemoteAddr rq)).
Definition copyResponseHeaders (a : answer) : list (string * string) :=
  concat (map (fun h => set_header h (an_Header a h)) ["Content-Type"; "X-Request-Id"; "X-Trace-Id"; "Cache-Control"]).

Definition handleOmniverse (rq : request) : proxy reply :=
  match ov_token ov with
  | None | Some (Err _) => refuse unavailable
  | Some (Ok tok) =>
      match ov_base ov with
      | None => refuse unavailable
      | Some base =>
          let suffix := trim_prefix (rq_Path rq) "/api/omniverse" in
          let suffix := if str_eqb suffix EmptyString then "/" else suffix in
          let body := if method_is rq "GET" || method_is rq "HEAD" then None else rq_Body rq in
          match parse_target (with_query (base +:+ suffix) (rq_RawQuery rq)) with
          | None => refuse unavailable
          | Some (p, q) =>
              Ask (mkSent Omniverse (rq_Method rq) p q (Some ("Bearer " +:+ tok)) None (copyOutboundHeaders rq) body)
                (fun a => Ret match a with
                  | None => RProblem unavailable
                  | Some a =>
                      if (500 <=? an_Status a)%Z then RProblem unavailable
                      else RRelay (an_Status a)
                        (copyResponseHeaders a ++
                         (if negb (str_eqb (an_CT a) EmptyString) then []
                          else [("Content-Type", if (400 <=? an_Status a)%Z then "application/problem+json" else "application/json")]))
                        (an_Body a)
                  end)
          end
      end
  end.

(** ** The routes *)

Definition parseOmniversePath (p : string) : bool := str_eqb p "/api/omniverse" || has_prefix p "/api/omniverse/".
Definition isSiteStreamPath (p : string) : bool := bool_decide (is_Some (parseSiteFromStreamPath p)).
Definition under (p root : string) : bool := str_eqb p root || has_prefix p (root +:+ "/").

Definition apiHandler (flusher : bool) (who : identity) (rq : request) (now : time) : proxy reply :=
  let p := rq_Path rq in
  if str_eqb p "/api/sites" then handleSites who rq
  else if str_eqb p "/api/site-orgs" then handleSiteOrgs who rq
  else if str_eqb p "/api/role-bindings" then handleRoleBindings who rq
  else if under p "/api/model-packs" then handleModelPacks who rq
  else if under p "/api/site-layouts" then handleSiteLayouts who rq
  else if under p "/api/tenants" then handleTenants who rq
  else if under p "/api/orgs" then handleOrgs who rq
  else if str_eqb p "/api/assets" then handleAssets who rq
  else if str_eqb p "/api/alarms" then handleAlarms who rq
  else if has_prefix p "/api/alarms/" then handleAlarmAck who rq
  else if str_eqb p "/api/metrics/query" || str_eqb p "/api/metrics/query_range" then handleMetricsQuery who rq
  else if str_eqb p "/api/topology" then handleTopology who rq
  else if str_eqb p "/api/tickets" then handleTickets who rq
  else if has_prefix p "/api/tickets/" then handleTicketByID who rq
  else if str_eqb p "/api/capacity" then handleCapacity who rq
  else if str_eqb p "/api/capacity/metrics" then handleCapacityMetrics who rq
  else if str_eqb p "/api/capacity/forecast" then handleCapacityForecast who rq
  else if str_eqb p "/api/usage" then handleUsage who rq
  else if str_eqb p "/api/maintenance/upcoming" then handleMaintenanceUpcoming who rq
  else if str_eqb p "/api/pm/schedules" then handlePMSchedules who rq
  else if has_prefix p "/api/pm/schedules/" then handlePMScheduleByID who rq
  else if str_eqb p "/api/spares" then handleSpares who rq
  else if has_prefix p "/api/spares/" then handleSpareByID who rq
  else if str_eqb p "/api/inspections" then handleInspections who rq
  else if has_prefix p "/api/inspections/" then handleInspectionByID who rq
  else if has_prefix p "/api/runbooks/" then handleRunbookByKey who rq
  else if str_eqb p "/api/cases" then handleCases who rq
  else if str_eqb p "/api/reports/ops" then handleReportOps who rq
  else if str_eqb p "/api/reports/reconcile" then handleReportReconcile who rq
  else if str_eqb p "/api/customer/status" then handleCustomerStatus who rq now
  else if str_eqb p "/api/customer/sla" then handleCustomerSLA who rq
  else if str_eqb p "/api/customer/usage" then handleCustomerUsage who rq
  else if isSiteStreamPath p then handleSiteStream flusher who rq
  else if parseOmniversePath p then handleOmniverse rq
  else refuse no_handler.

(** [statusCapturingWriter] of audit.go wraps the writer of every request under
    /api/; of the interfaces of the language's library it has the methods of
    ResponseWriter alone. *)
Definition wrapped_flusher : bool := false.

(** The service under /api/: access log, gate, routes. *)
Definition serveAPI (hmac : string -> string -> string) (claims_json : Codec wireClaims)
    (header_alg : string -> option string) (sts : option STS) (pdp : option (Input -> result unit bool))
    (rq : request) (wall now : time) : proxy reply :=
  match AuthMiddleware hmac claims_json header_alg sts pdp (rq_Header rq "Authorization")
          (rq_Method rq) (rq_Path rq) wall now with
  | Err p => refuse p
  | Ok who => apiHandler wrapped_flusher who rq now
  end.

(** ** What reaches core, and for whom *)

(** The endpoints of administrators; core decides by the bearer alone. *)
Definition admin_route (p : string) : bool :=
  str_eqb p "/api/site-orgs" || str_eqb p "/api/role-bindings" || under p "/api/model-packs" ||
  under p "/api/site-layouts" || under p "/api/tenants" || under p "/api/orgs".
Definition collection_slash (p : string) : bool :=
  str_eqb p "/api/model-packs/" || str_eqb p "/api/site-layouts/" || str_eqb p "/api/tenants/" || str_eqb p "/api/orgs/".
Definition drops_query (rq : request) : bool :=
  let p := rq_Path rq in
  str_eqb p "/api/sites" || str_eqb p "/api/assets" || str_eqb p "/api/alarms" || str_eqb p "/api/topology" ||
  str_eqb p "/api/tickets" && method_is rq "POST" || has_prefix p "/api/alarms/" || has_prefix p "/api/pm/schedules/" ||
  has_prefix p "/api/spares/" || has_prefix p "/api/inspections/" || has_prefix p "/api/runbooks/".
Definition before (c : ascii) (s : string) : string := match cut_at c s with Some (a, _) => a | None => s end.

(** The URLs below the base URL that a request may be passed on to: the same path
    under /v1, with its query or without; for a ticket, the id up to a colon. *)
Definition core_urls (c : TokenClaims) (rq : request) : list string :=
  let p := rq_Path rq in
  let same := "/v1" +:+ trim_prefix p "/api" in
  if str_eqb p "/api/customer/status" then ["/v1/sites"; "/v1/alarms"]
  else if str_eqb p "/api/customer/sla" then ["/v1/sla"]
  else if str_eqb p "/api/customer/usage" then
    ["/v1/usage?" +:+ encode_query (usage_query (TrimSpace (t_Tenant c)) (rq_RawQuery rq))]
  else if admin_route p then [with_query (if collection_slash p then trim_suffix same "/" else same) (rq_RawQuery rq)]
  else if has_prefix p "/api/tickets/" then
    ["/v1/tickets/" +:+ before ":" (trim_prefix p "/api/tickets/") +:+
     (if has_suffix p ":transition" then ":transition" else EmptyString)]
  else [if drops_query rq then same else with_query same (rq_RawQuery rq)].

(** A request to core is the one that was made, under the identity that made it. *)
Record forwarded (c : TokenClaims) (raw : string) (rq : request) (w : wire) : Prop := mkForwarded {
  fo_to : fw_To w = Core;
  fo_method : fw_Method w = rq_Method rq;
  fo_bearer : fw_Bearer w = bearer raw;
  fo_tenant : fw_Tenant w = if admin_route (rq_Path rq) then None else fst <$> TenantFromClaims c;
  fo_tenanted : admin_route (rq_Path rq) = false -> is_Some (TenantFromClaims c);
  fo_headers : fw_Headers w = [];
  fo_body : fw_Body w = if method_is rq "POST" || method_is rq "PUT" then read_body rq else None;
  fo_url : exists base url, up = Some (mkUpstream (Some base)) /\ url ∈ core_urls c rq /\
           parse_target (joinURL base url) = Some (fw_Path w, fw_Query w)
}.

Definition is_502 (r : reply) : Prop := exists title, r = RProblem (Problem 502 "upstream-unavailable" title) \/ r = RProblem (bad_gateway title).

(** What becomes of the answer. *)
Definition relayed (a : option answer) (r : reply) : Prop :=
  match a with
  | Some a =>
      if (500 <=? an_Status a)%Z then is_502 r
      else exists hs, r = RRelay (an_Status a) hs (an_Body a) /\
                      (an_CT a <> EmptyString -> ("Content-Type", an_CT a) ∈ hs)
  | None => is_502 r
  end.

(** A proxy that asks at most once and then passes on what it got. *)
Definition relays (P : wire -> Prop) (p : proxy reply) : Prop :=
  match p with
  | Ret r => exists pr, r = RProblem pr
  | Ask w k => P w /\ forall a, exists r, k a = Ret r /\ relayed a r
  end.

Lemma relays_refuse P pr : relays P (refuse pr).
Proof using Type. by eexists. Qed.
Hint Resolve relays_refuse : cios.

Lemma relays_impl (P Q : wire -> Prop) p : (forall w, P w -> Q w) -> relays P p -> relays Q p.
Proof using Type. intros H. destruct p; cbn; [done|]. intros [Hw Hk]. split; [by apply H|done]. Qed.

Lemma relay_relayed a : relayed a (relay (match a with Some a => Ok a | None => Err errTransport end)).
Proof using Type.
  destruct a as [a|]; cbn; [|by eexists; left]. destruct (500 <=? _)%Z; [by eexists; left|].
  eexists. split; [done|]. intros Hct. rewrite (proj2 (str_eqb_neq _ _) Hct). by left.
Qed.

Lemma relay_admin_relayed a : relayed a (relay_admin (match a with Some a => Ok a | None => Err errTransport end)).
Proof using Type.
  destruct a as [a|]; cbn; [|by eexists; right]. destruct (500 <=? _)%Z; [by eexists; right|].
  eexists. split; [done|]. intros Hct. rewrite (proj2 (str_eqb_neq _ _) Hct). by left.
Qed.

Lemma relay_error e : exists pr, relay (Err e) = RProblem pr.
Proof using Type. destruct e; by eexists. Qed.
Lemma relay_admin_error e : exists pr, relay_admin (Err e) = RProblem pr.
Proof using Type. by eexists. Qed.

(** Sending, then relaying. *)
Lemma send_relays P u method raw tenant path body fin :
  (forall e, exists pr, fin (Err e) = RProblem pr) ->
  (forall a, relayed a (fin (match a with Some a => Ok a | None => Err errTransport end))) ->
  (forall base p q, up_base u = Some base -> parse_target (joinURL base path) = Some (p, q) ->
    P (mkSent Core method p q (bearer raw) tenant [] body)) ->
  relays P (r ← send u method raw tenant path body; Ret (fin r)).
Proof using Type.
  intros He Ha HP. unfold send. destruct (up_base u) as [base|]; [|apply He].
  destruct (parse_target _) as [[p q]|] eqn:E; [|apply He]. cbn. split; [by eapply HP|].
  intros a. eexists. split; [reflexivity|]. apply Ha.
Qed.

Lemma checked_relays P path k fin :
  (forall e, exists pr, fin (Err e) = RProblem pr) ->
  (forall u, up = Some u -> relays P (r ← k u; Ret (fin r))) ->
  relays P (r ← checked up path k; Ret (fin r)).
Proof using Type.
  intros He Hk. unfold checked. destruct up as [u|] eqn:Eu; [|apply He]. destruct (str_eqb path _); [apply He|by apply Hk].
Qed.

Lemma get_core_relays rq c raw url id t : rq_Method rq = "GET" -> TenantFromClaims c = Some (id, t) ->
  admin_route (rq_Path rq) = false -> url ∈ core_urls c rq -> relays (forwarded c raw rq) (get_core c raw url).
Proof using Type.
  intros Hm Ht Ha Hu. unfold get_core, GetV1AsTenant. apply checked_relays; [apply relay_error|]. intros [base] Eu. rewrite Ht.
  apply send_relays; [apply relay_error|apply relay_relayed|]. cbn [up_base]. intros b p q -> Hp.
  split; cbn; rewrite ?Ha, ?Ht; try done. { by unfold method_is; rewrite Hm. } by exists b, url.
Qed.

Lemma post_core_relays rq c raw url id t : rq_Method rq = "POST" -> TenantFromClaims c = Some (id, t) ->
  admin_route (rq_Path rq) = false -> url ∈ core_urls c rq -> relays (forwarded c raw rq) (post_core rq c raw url).
Proof using Type.
  intros Hm Ht Ha Hu. unfold post_core, PostV1AsTenant. destruct (read_body rq) as [body|] eqn:Eb; [|apply relays_refuse].
  apply checked_relays; [apply relay_error|]. intros [base] Eu. rewrite Ht.
  apply send_relays; [apply relay_error|apply relay_relayed|]. cbn [up_base]. intros b p q -> Hp.
  split; cbn; rewrite ?Ha, ?Ht; try done. { by unfold method_is; rewrite Hm, Eb. } by exists b, url.
Qed.

Definition by_caller (who : identity) (rq : request) (w : wire) : Prop :=
  exists c raw, who = Some (c, raw) /\ forwarded c raw rq w.

Lemma with_tenant_relays who rq k :
  (forall c raw id t, who = Some (c, raw) -> TenantFromClaims c = Some (id, t) -> relays (forwarded c raw rq) (k c raw id)) ->
  relays (by_caller who rq) (with_tenant who k).
Proof using Type.
  intros H. unfold with_tenant. destruct who as [[c raw]|]; [|apply relays_refuse].
  destruct (TenantFromClaims c) as [[id t]|] eqn:E; [|apply relays_refuse].
  eapply relays_impl; [|by eapply H]. intros w Hw. by exists c, raw.
Qed.

Lemma method_is_eq rq m : method_is rq m = true -> rq_Method rq = m.
Proof using Type. apply str_eqb_eq. Qed.

Lemma read_plain_relays who rq path : admin_route (rq_Path rq) = false ->
  (forall c, path ∈ core_urls c rq) -> relays (by_caller who rq) (read_plain who rq path).
Proof using Type.
  intros Ha Hu. unfold read_plain. destruct (method_is rq "GET") eqn:Em; [|apply relays_refuse]. cbn [negb].
  apply with_tenant_relays. intros c raw id t _ Ht. by eapply get_core_relays; [apply method_is_eq| | |].
Qed.

Lemma read_query_relays who rq path : admin_route (rq_Path rq) = false ->
  (forall c, with_query path (rq_RawQuery rq) ∈ core_urls c rq) -> relays (by_caller who rq) (read_query who rq path).
Proof using Type. apply read_plain_relays. Qed.

Lemma read_object_relays who rq extract prefix : admin_route (rq_Path rq) = false ->
  (forall c id, extract (rq_Path rq) = Some id -> rq_Method rq = "GET" -> prefix +:+ id ∈ core_urls c rq) ->
  relays (by_caller who rq) (read_object who rq extract prefix).
Proof using Type.
  intros Ha Hu. unfold read_object. destruct (method_is rq "GET") eqn:Em; [|apply relays_refuse]. cbn [negb].
  apply with_tenant_relays. intros c raw id t _ Ht. destruct (extract (rq_Path rq)) as [i|] eqn:Ei; [|apply relays_refuse].
  apply method_is_eq in Em. eapply get_core_relays; try done. by apply Hu.
Qed.

Lemma admin_relays who rq base allowDelete allowPut : admin_route (rq_Path rq) = true ->
  (forall c, with_query base (rq_RawQuery rq) ∈ core_urls c rq) ->
  relays (by_caller who rq) (proxyAdminV1Methods who rq base allowDelete allowPut).
Proof using Type.
  intros Ha Hu. unfold proxyAdminV1Methods. destruct who as [[c raw]|]; [|apply relays_refuse].
  assert (Hget : forall method body, rq_Method rq = method ->
    body = (if method_is rq "POST" || method_is rq "PUT" then read_body rq else None) ->
    relays (by_caller (Some (c, raw)) rq) (r ← checked up (with_query base (rq_RawQuery rq))
      (fun u => send u method raw None (with_query base (rq_RawQuery rq)) body); Ret (relay_admin r))).
  { intros method body Hm Hb. apply checked_relays; [apply relay_admin_error|]. intros [b] Eu.
    apply send_relays; [apply relay_admin_error|apply relay_admin_relayed|]. cbn [up_base]. intros b' p q -> Hp.
    exists c, raw. split; [done|]. split; cbn; rewrite ?Ha; try done. by exists b', (with_query base (rq_RawQuery rq)). }
  unfold GetV1As, PostV1As, PutV1As, DeleteV1As.
  destruct (method_is rq "GET") eqn:E1; [apply method_is_eq in E1; apply Hget; [done|]; unfold method_is; by rewrite E1|].
  destruct (method_is rq "POST") eqn:E2.
  { destruct (read_body rq) as [body|] eqn:Eb; [|apply relays_refuse]. apply Hget; [by apply method_is_eq|].
    cbn [orb]. done. }
  destruct (method_is rq "PUT") eqn:E3.
  { destruct allowPut; [|apply relays_refuse]. cbn [negb].
    destruct (read_body rq) as [body|] eqn:Eb; [|apply relays_refuse]. apply Hget; [by apply method_is_eq|done]. }
  destruct (method_is rq "DELETE") eqn:E4; [|apply relays_refuse]. destruct allowDelete; [|apply relays_refuse].
  cbn [negb]. apply Hget; [by apply method_is_eq|done].
Qed.

(** ** The routes one by one *)

Lemma core_urls_same c rq x : rq_Path rq = "/api" +:+ x ->
  admin_route (rq_Path rq) = false -> has_prefix (rq_Path rq) "/api/tickets/" = false ->
  has_prefix (rq_Path rq) "/api/customer/" = false ->
  core_urls c rq = [if drops_query rq then "/v1" +:+ x else with_query ("/v1" +:+ x) (rq_RawQuery rq)].
Proof using Type.
  intros Hp Ha Ht Hc. unfold core_urls. rewrite Ha, Ht.
  assert (forall y, str_eqb (rq_Path rq) ("/api/customer/" +:+ y) = false) as Hx.
  { intros y. apply str_eqb_neq. intros E. rewrite E, has_prefix_app in Hc. done. }
  pose proof (Hx "status") as H1. pose proof (Hx "sla") as H2. pose proof (Hx "usage") as H3. cbn in H1, H2, H3.
  rewrite H1, H2, H3, Hp, trim_prefix_app. done.
Qed.

Lemma core_urls_admin c rq x : rq_Path rq = "/api" +:+ x -> admin_route (rq_Path rq) = true ->
  core_urls c rq = [with_query (if collection_slash (rq_Path rq) then trim_suffix ("/v1" +:+ x) "/" else "/v1" +:+ x)
                     (rq_RawQuery rq)].
Proof using Type.
  intros Hp Ha. unfold core_urls. rewrite Ha. destruct (str_eqb (rq_Path rq) "/api/customer/status") eqn:E1.
  { apply str_eqb_eq in E1. by rewrite E1 in Ha. }
  destruct (str_eqb (rq_Path rq) "/api/customer/sla") eqn:E2. { apply str_eqb_eq in E2. by rewrite E2 in Ha. }
  destruct (str_eqb (rq_Path rq) "/api/customer/usage") eqn:E3. { apply str_eqb_eq in E3. by rewrite E3 in Ha. }
  by rewrite Hp, trim_prefix_app.
Qed.

(** An endpoint with a fixed path. *)
Lemma fixed_route c rq url : core_urls c rq = [url] -> url ∈ core_urls c rq.
Proof using Type. intros ->. left. Qed.

Lemma plain_route who rq p path : rq_Path rq = p -> admin_route p = false ->
  (forall c, core_urls c rq = [path]) -> relays (by_caller who rq) (read_plain who rq path).
Proof using Type. intros <- Ha Hu. apply read_plain_relays; [done|]. intros c. by apply fixed_route. Qed.

Lemma last_segment_Some prefix rest id : last_segment prefix (prefix +:+ rest) = Some id -> id = rest.
Proof using Type.
  unfold last_segment. rewrite trim_prefix_app. destruct (str_eqb _ _); [done|]. unfold splitN2.
  destruct (cut_at "/" rest) as [[a b]|]; [done|]. destruct (str_eqb rest EmptyString); [done|]. by intros [= ->].
Qed.

Lemma object_route who rq extract root prefix rest :
  rq_Path rq = root +:+ rest -> extract = last_segment root -> admin_route (rq_Path rq) = false ->
  (forall c, core_urls c rq = [prefix +:+ rest]) -> relays (by_caller who rq) (read_object who rq extract prefix).
Proof using Type.
  intros Hp -> Ha Hu. apply read_object_relays; [done|]. intros c id Hid _. rewrite Hp in Hid.
  apply last_segment_Some in Hid as ->. by apply fixed_route.
Qed.

Lemma before_app c x y : before c (x +:+ String c y) = before c x.
Proof using Type.
  unfold before. induction x as [|d x IH]; cbn; [by rewrite byte_eqb_refl|]. destruct (byte_eqb d c); [done|].
  destruct (cut_at c (x +:+ String c y)) as [[a b]|], (cut_at c x) as [[a' b']|]; cbn in *; congruence.
Qed.

Lemma extractTicketID_app rest : extractTicketID ("/api/tickets/" +:+ rest) =
  match splitN2 "/" (before ":" rest) with
  | [id] => if str_eqb id EmptyString then None else Some id
  | _ => None
  end.
Proof using Type.
  unfold extractTicketID. rewrite trim_prefix_app. rewrite (proj2 (str_eqb_neq _ _)); [done|].
  intros E%(f_equal str_len). rewrite str_len_app in E. cbn in E. lia.
Qed.

Lemma extractTicketID_Some rest id : extractTicketID ("/api/tickets/" +:+ rest) = Some id -> id = before ":" rest.
Proof using Type.
  rewrite extractTicketID_app. unfold splitN2.
  destruct (cut_at "/" (before ":" rest)) as [[a b]|]; [done|]. destruct (str_eqb _ EmptyString); [done|]. by intros [= ->].
Qed.

(** A suffix that begins with a byte the first part does not have lies in the rest. *)
Lemma suffix_in_rest c a rest b x : no_byte c a = true -> a +:+ rest = b +:+ String c x ->
  exists r, rest = r +:+ String c x /\ b = a +:+ r.
Proof using Type.
  revert b. induction a as [|d a IH]; intros b Ha E; [by exists b|]. unfold no_byte in Ha. cbn in Ha. bool_simpl.
  destruct b as [|e b]; cbn in E; [injection E as -> _; by rewrite byte_eqb_refl in *|].
  injection E as -> E. destruct (IH b H0 E) as (r & -> & ->). by exists r.
Qed.

Lemma extractTicketID_prefix p id : extractTicketID p = Some id -> exists rest, p = "/api/tickets/" +:+ rest.
Proof using Type.
  unfold extractTicketID, trim_prefix. destruct (has_prefix p "/api/tickets/") eqn:E; [intros _; by apply has_prefix_split|].
  by rewrite (proj2 (str_eqb_eq p p) eq_refl).
Qed.

Lemma transition_of rest id : extractTicketTransition ("/api/tickets/" +:+ rest) = Some id ->
  has_suffix ("/api/tickets/" +:+ rest) ":transition" = true /\ id = before ":" rest.
Proof using Type.
  unfold extractTicketTransition. destruct (has_suffix _ _) eqn:E; [|done]. cbn [negb]. intros H. split; [done|].
  destruct (extractTicketID_prefix _ _ H) as [r Hr]. rewrite Hr in H. apply extractTicketID_Some in H as ->.
  apply has_suffix_split in E. rewrite Hr in E. change ":transition" with (String ":" "transition") in E.
  rewrite <- str_app_assoc in E. apply str_app_inv_head in E as ->. by rewrite before_app.
Qed.

Lemma ticket_urls c rq rest : rq_Path rq = "/api/tickets/" +:+ rest ->
  core_urls c rq = ["/v1/tickets/" +:+ before ":" rest +:+
                    (if has_suffix (rq_Path rq) ":transition" then ":transition" else EmptyString)].
Proof using Type. intros Hp. unfold core_urls. rewrite Hp, trim_prefix_app. reflexivity. Qed.

Lemma ticket_route who rq rest : rq_Path rq = "/api/tickets/" +:+ rest ->
  relays (by_caller who rq) (handleTicketByID who rq).
Proof using Type.
  intros Hp. assert (Ha : admin_route (rq_Path rq) = false) by by rewrite Hp.
  unfold handleTicketByID. destruct (extractTicketTransition (rq_Path rq)) as [id|] eqn:Et.
  - rewrite Hp in Et. apply transition_of in Et as [Hs ->]. unfold handleTicketTransition.
    destruct (method_is rq "POST") eqn:Em; [|apply relays_refuse]. cbn [negb].
    destruct (str_eqb (before ":" rest) EmptyString); [apply relays_refuse|]. apply with_tenant_relays.
    intros c raw id t _ Ht. eapply post_core_relays; [by apply method_is_eq|done|done|]. apply fixed_route.
    rewrite (ticket_urls c rq rest Hp), Hp, Hs. done.
  - apply read_object_relays; [done|]. intros c id Hid Hm. rewrite Hp in Hid. apply extractTicketID_Some in Hid as E.
    subst id. apply fixed_route. rewrite (ticket_urls c rq rest Hp).
    destruct (has_suffix (rq_Path rq) ":transition") eqn:Es; [|by rewrite str_app_nil_r].
    exfalso. unfold extractTicketTransition in Et. rewrite Es in Et. cbn [negb] in Et. rewrite Hp in Et, Es.
    pose proof (has_suffix_split _ _ Es) as E. apply suffix_in_rest in E as (r & -> & Eb); [|done].
    rewrite Eb, extractTicketID_app in Et. rewrite extractTicketID_app, before_app, Et in Hid. done.
Qed.

Lemma ack_route who rq rest : rq_Path rq = "/api/alarms/" +:+ rest -> relays (by_caller who rq) (handleAlarmAck who rq).
Proof using Type.
  intros Hp. assert (Ha : admin_route (rq_Path rq) = false) by by rewrite Hp. unfold handleAlarmAck.
  destruct (method_is rq "POST") eqn:Em; [|apply relays_refuse]. cbn [negb].
  destruct (extractAlarmAck (rq_Path rq)) as [id|] eqn:Eid; [|apply relays_refuse]. apply with_tenant_relays.
  intros c raw i t _ Ht. eapply post_core_relays; [by apply method_is_eq|done|done|]. apply fixed_route.
  unfold extractAlarmAck in Eid. rewrite Hp in Eid. destruct (has_suffix _ ":ack") eqn:Es; [|done]. cbn [negb] in Eid.
  pose proof (has_suffix_split _ _ Es) as E. apply suffix_in_rest in E as (r & -> & Eb); [|done].
  rewrite Eb, trim_prefix_app in Eid. destruct (_ || _); [done|]. injection Eid as <-.
  rewrite (core_urls_same c rq ("/alarms/" +:+ r +:+ ":ack") Hp) by by rewrite Hp.
  unfold drops_query. rewrite Hp. reflexivity.
Qed.

Lemma tickets_route who rq : rq_Path rq = "/api/tickets" -> relays (by_caller who rq) (handleTickets who rq).
Proof using Type.
  intros Hp. assert (Ha : admin_route (rq_Path rq) = false) by by rewrite Hp. unfold handleTickets.
  assert (Hu : forall c, core_urls c rq = [if method_is rq "POST" then "/v1/tickets" else with_query "/v1/tickets" (rq_RawQuery rq)]).
  { intros c. rewrite (core_urls_same c rq "/tickets" Hp) by by rewrite Hp. unfold drops_query. rewrite Hp.
    by destruct (method_is rq "POST"). }
  destruct (method_is rq "POST") eqn:Em.
  - rewrite andb_false_r. apply with_tenant_relays. intros c raw i t _ Ht.
    eapply post_core_relays; [by apply method_is_eq|done|done|]. by apply fixed_route.
  - destruct (method_is rq "GET") eqn:Eg; [|apply relays_refuse]. cbn [negb andb]. apply with_tenant_relays.
    intros c raw i t _ Ht. eapply get_core_relays; [by apply method_is_eq|done|done|]. by apply fixed_route.
Qed.

Lemma admin_route_at who rq from to allowDelete allowPut :
  (from = "/api/model-packs" /\ to = "/v1/model-packs") \/ (from = "/api/site-layouts" /\ to = "/v1/site-layouts") \/
  (from = "/api/tenants" /\ to = "/v1/tenants") \/ (from = "/api/orgs" /\ to = "/v1/orgs") ->
  under (rq_Path rq) from = true ->
  relays (by_caller who rq) (proxyAdminV1Methods who rq (admin_path to from (rq_Path rq)) allowDelete allowPut).
Proof using Type.
  intros Hft Hu.
  assert (exists rest, rq_Path rq = from +:+ rest /\ (rest = EmptyString \/ exists r, rest = String "/" r)) as (rest & Hp & Hr).
  { unfold under in Hu. apply orb_true_iff in Hu as [Hu%str_eqb_eq|Hu].
    - exists EmptyString. rewrite str_app_nil_r. split; [done|by left].
    - apply has_prefix_split in Hu as [r Hr]. exists (String "/" r). split; [|right; by exists r].
      by rewrite Hr, <- str_app_assoc. }
  assert (Ha : admin_route (rq_Path rq) = true).
  { unfold admin_route. rewrite Hp in *. destruct Hft as [[-> _]|[[-> _]|[[-> _]|[-> _]]]]; rewrite Hu, ?orb_true_r; done. }
  apply admin_relays; [done|]. intros c. apply fixed_route. unfold admin_path.
  replace (trim_prefix (rq_Path rq) from) with rest by (rewrite Hp; symmetry; apply trim_prefix_app).
  assert (Hx : exists x, from = "/api" +:+ x /\ to = "/v1" +:+ x).
  { destruct Hft as [[-> ->]|[[-> ->]|[[-> ->]|[-> ->]]]]; by eexists. }
  destruct Hx as (x & Ef & Et). rewrite (core_urls_admin c rq (x +:+ rest)); [|by rewrite Hp, Ef, <- str_app_assoc|done].
  rewrite Hp.
  destruct Hft as [[-> ->]|[[-> ->]|[[-> ->]|[-> ->]]]]; cbn in Ef; injection Ef as <-;
    destruct Hr as [-> | [[|e r] ->]]; reflexivity.
Qed.

(** ** Proxies that may ask more than once *)

Fixpoint asks {A} (P : wire -> Prop) (n : nat) (p : proxy A) {struct p} : Prop :=
  match p with
  | Ret _ => True
  | Ask w k => P w /\ match n with O => False | S n => forall a, asks P n (k a) end
  end.

Lemma asks_mono {A} P n m (p : proxy A) : n <= m -> asks P n p -> asks P m p.
Proof using Type.
  revert n m. induction p as [a|w k IH]; intros n m Hle; cbn; [done|]. intros [Hw Hn]. split; [done|].
  destruct n as [|n], m as [|m]; try done; [lia|]. intros a. eapply IH; [|apply Hn]. lia.
Qed.

Lemma asks_bind {A B} P n m (p : proxy A) (f : A -> proxy B) :
  asks P n p -> (forall a, asks P m (f a)) -> asks P (n + m) (p ≫= f).
Proof using Type.
  intros Hp Hf. revert n Hp. induction p as [a|w k IH]; intros n Hp; [eapply asks_mono, Hf; lia|].
  destruct Hp as [Hw Hk]. split; [done|]. destruct n as [|n]; [done|]. intros a. apply IH, Hk.
Qed.

Lemma relays_asks P p : relays P p -> asks P 1 p.
Proof using Type. destruct p as [|w k]; cbn; [done|]. intros [Hw Hk]. split; [done|]. intros a. by destruct (Hk a) as (r & -> & _). Qed.

Lemma asks_run {A} P world n (p : proxy A) sent ws r : asks P n p -> run world p sent = (ws, r) ->
  exists new, ws = sent ++ new /\ Forall P new /\ length new <= n.
Proof using Type.
  revert n sent. induction p as [a|w k IH]; intros n sent Ha; cbn [run].
  - intros [= <- _]. exists []. rewrite app_nil_r. split; [done|]. split; [done|]. cbn. lia.
  - destruct Ha as [Hw Hk]. destruct n as [|n]; [done|]. intros H.
    destruct (IH _ n _ (Hk _) H) as (new & -> & Hn & Hl). exists (w :: new). rewrite <- app_assoc.
    split; [done|]. split; [by constructor|]. cbn. lia.
Qed.

Lemma get_tenant_asks rq c raw url id t : rq_Method rq = "GET" -> TenantFromClaims c = Some (id, t) ->
  admin_route (rq_Path rq) = false -> url ∈ core_urls c rq -> asks (forwarded c raw rq) 1 (GetV1AsTenant up c raw url).
Proof using Type.
  intros Hm Ht Ha Hu. unfold GetV1AsTenant, checked. destruct up as [[[base|]]|] eqn:Eu; try done;
    (destruct (str_eqb url _); [done|]); rewrite Ht; unfold send; cbn [up_base]; [|done].
  destruct (parse_target _) as [[p q]|] eqn:Ep; [|done]. split; [|done].
  split; cbn; rewrite ?Ha, ?Ht; try done. { by unfold method_is; rewrite Hm. } by exists base, url.
Qed.

Lemma with_tenant_asks who rq n k :
  (forall c raw id t, who = Some (c, raw) -> TenantFromClaims c = Some (id, t) -> asks (forwarded c raw rq) n (k c raw id)) ->
  asks (by_caller who rq) n (with_tenant who k).
Proof using Type.
  intros H. unfold with_tenant. destruct who as [[c raw]|]; [|done]. destruct (TenantFromClaims c) as [[id t]|] eqn:E; [|done].
  specialize (H c raw id t eq_refl E). revert H. generalize n (k c raw id). clear.
  intros n p. revert n. induction p as [a|w p IH]; intros n; [done|]. intros [Hw Hk]. split; [by exists c, raw|].
  destruct n as [|n]; [done|]. intros a. by apply IH.
Qed.

Lemma TenantFromClaims_id c id t : TenantFromClaims c = Some (id, t) -> id = TrimSpace (t_Tenant c).
Proof using Type. unfold TenantFromClaims. destruct (str_eqb _ _); [done|]. destruct (ParseTier _); cbn; [by intros [= <- _]|done]. Qed.

Definition customer_path (p : string) : bool :=
  str_eqb p "/api/customer/status" || str_eqb p "/api/customer/sla" || str_eqb p "/api/customer/usage".

Lemma status_asks who rq now : rq_Path rq = "/api/customer/status" -> asks (by_caller who rq) 2 (handleCustomerStatus who rq now).
Proof using Type.
  intros Hp. assert (Ha : admin_route (rq_Path rq) = false) by by rewrite Hp.
  assert (Hu : forall c, core_urls c rq = ["/v1/sites"; "/v1/alarms"]) by (intros c; unfold core_urls; by rewrite Hp).
  unfold handleCustomerStatus. destruct (method_is rq "GET") eqn:Em; [|done]. apply method_is_eq in Em. cbn [negb].
  apply with_tenant_asks. intros c raw id t _ Ht. apply (asks_bind _ 1 1).
  - unfold fetchCustomerSiteIDs. apply (asks_bind _ 1 0); [|intros r; by destruct (fetched _ r)].
    eapply get_tenant_asks; [done..|]. rewrite Hu. left.
  - intros [ids ok]. apply (asks_bind _ 1 0); [|by intros [alarms ok']].
    unfold fetchCustomerAlarms. apply (asks_bind _ 1 0); [|done]. eapply get_tenant_asks; [done..|]. rewrite Hu. right. left.
Qed.

Lemma sla_asks who rq : rq_Path rq = "/api/customer/sla" -> asks (by_caller who rq) 1 (handleCustomerSLA who rq).
Proof using Type.
  intros Hp. assert (Ha : admin_route (rq_Path rq) = false) by by rewrite Hp.
  unfold handleCustomerSLA. destruct (method_is rq "GET") eqn:Em; [|done]. apply method_is_eq in Em. cbn [negb].
  apply with_tenant_asks. intros c raw id t _ Ht. apply (asks_bind _ 1 0); [|done].
  eapply get_tenant_asks; [done..|]. unfold core_urls. rewrite Hp. left.
Qed.

Lemma customer_usage_asks who rq : rq_Path rq = "/api/customer/usage" -> asks (by_caller who rq) 1 (handleCustomerUsage who rq).
Proof using Type.
  intros Hp. assert (Ha : admin_route (rq_Path rq) = false) by by rewrite Hp.
  unfold handleCustomerUsage. destruct (method_is rq "GET") eqn:Em; [|done]. apply method_is_eq in Em. cbn [negb].
  apply with_tenant_asks. intros c raw id t _ Ht. apply (asks_bind _ 1 0); [|done].
  eapply get_tenant_asks; [done..|]. apply TenantFromClaims_id in Ht as ->. unfold core_urls. rewrite Hp. left.
Qed.

(** ** All routes *)

Record to_omniverse (rq : request) (w : wire) : Prop := mkToOmniverse {
  tv_to : fw_To w = Omniverse;
  tv_path : parseOmniversePath (rq_Path rq) = true;
  tv_method : fw_Method w = rq_Method rq;
  tv_bearer : exists tok, ov_token ov = Some (Ok tok) /\ fw_Bearer w = Some ("Bearer " +:+ tok);
  tv_tenant : fw_Tenant w = None
}.

Lemma omniverse_relays rq : parseOmniversePath (rq_Path rq) = true -> relays (to_omniverse rq) (handleOmniverse rq).
Proof using Type.
  intros Hp. unfold handleOmniverse. destruct (ov_token ov) as [[tok|]|] eqn:Et; try apply relays_refuse.
  destruct (ov_base ov) as [base|]; [|apply relays_refuse]. destruct (parse_target _) as [[p q]|]; [|apply relays_refuse].
  split; [split; try done; by exists tok|]. intros a. eexists. split; [reflexivity|].
  destruct a as [a|]; cbn; [|by eexists; left]. destruct (500 <=? _)%Z; [by eexists; left|].
  eexists. split; [done|]. intros Hct. apply elem_of_app. left. unfold copyResponseHeaders, set_header. cbn [map concat].
  unfold an_CT in Hct. rewrite (proj2 (str_eqb_neq _ _) Hct). by left.
Qed.

Lemma stream_refused who rq : exists pr, handleSiteStream wrapped_flusher who rq = refuse pr.
Proof using Type.
  unfold handleSiteStream. destruct (method_is rq "GET"); [|by eexists]. destruct who as [[c raw]|]; [|by eexists].
  destruct (parseSiteFromStreamPath _); [|by eexists]. destruct (re_site _); by eexists.
Qed.

(** An endpoint with a fixed path; one of an object; one of administrators. *)
Local Ltac fixed_at E :=
  apply str_eqb_eq in E; left;
  match type of E with _ = ?p =>
    let x := eval vm_compute in (trim_prefix p "/api") in
    first [apply read_plain_relays | apply read_query_relays];
      [by rewrite E|intros c; apply fixed_route; rewrite (core_urls_same c _ x E) by (by rewrite E);
                    unfold drops_query; rewrite E; reflexivity]
  end.
Local Ltac object_at E x :=
  apply has_prefix_split in E as [rest E]; left;
  eapply object_route; [exact E|reflexivity|by rewrite E|];
  intros c; rewrite (core_urls_same c _ (x +:+ rest) E) by (by rewrite E); unfold drops_query; rewrite E; reflexivity.
Local Ltac admin_at E := left; apply admin_route_at; [tauto|exact E].
Local Ltac admin_fixed E x :=
  apply str_eqb_eq in E; left; apply admin_relays;
  [by rewrite E|intros c; apply fixed_route; rewrite (core_urls_admin c _ x E) by (by rewrite E); by rewrite E].

Lemma api_shape who rq now :
  let p := apiHandler wrapped_flusher who rq now in
  relays (by_caller who rq) p \/ (customer_path (rq_Path rq) = true /\ asks (by_caller who rq) 2 p) \/ relays (to_omniverse rq) p.
Proof using Type.
  cbv zeta. unfold apiHandler.
  destruct (str_eqb (rq_Path rq) "/api/sites") eqn:E; [fixed_at E|clear E].
  destruct (str_eqb (rq_Path rq) "/api/site-orgs") eqn:E; [admin_fixed E "/site-orgs"|clear E].
  destruct (str_eqb (rq_Path rq) "/api/role-bindings") eqn:E; [admin_fixed E "/role-bindings"|clear E].
  destruct (under (rq_Path rq) "/api/model-packs") eqn:E; [admin_at E|clear E].
  destruct (under (rq_Path rq) "/api/site-layouts") eqn:E; [admin_at E|clear E].
  destruct (under (rq_Path rq) "/api/tenants") eqn:E; [admin_at E|clear E].
  destruct (under (rq_Path rq) "/api/orgs") eqn:E; [admin_at E|clear E].
  destruct (str_eqb (rq_Path rq) "/api/assets") eqn:E; [fixed_at E|clear E].
  destruct (str_eqb (rq_Path rq) "/api/alarms") eqn:E; [fixed_at E|clear E].
  destruct (has_prefix (rq_Path rq) "/api/alarms/") eqn:E;
    [apply has_prefix_split in E as [rest E]; left; by eapply ack_route|clear E].
  destruct (str_eqb (rq_Path rq) "/api/metrics/query" || str_eqb (rq_Path rq) "/api/metrics/query_range") eqn:E.
  { unfold handleMetricsQuery. apply orb_true_iff in E as [E|E]; pose proof E as E'; apply str_eqb_eq in E'; rewrite E';
      [change (str_eqb "/api/metrics/query" _) with false|change (str_eqb "/api/metrics/query_range" _) with true];
      fixed_at E. }
  clear E.
  destruct (str_eqb (rq_Path rq) "/api/topology") eqn:E; [fixed_at E|clear E].
  destruct (str_eqb (rq_Path rq) "/api/tickets") eqn:E; [apply str_eqb_eq in E; left; by apply tickets_route|clear E].
  destruct (has_prefix (rq_Path rq) "/api/tickets/") eqn:E;
    [apply has_prefix_split in E as [rest E]; left; by eapply ticket_route|clear E].
  destruct (str_eqb (rq_Path rq) "/api/capacity") eqn:E; [fixed_at E|clear E].
  destruct (str_eqb (rq_Path rq) "/api/capacity/metrics") eqn:E; [fixed_at E|clear E].
  destruct (str_eqb (rq_Path rq) "/api/capacity/forecast") eqn:E; [fixed_at E|clear E].
  destruct (str_eqb (rq_Path rq) "/api/usage") eqn:E; [fixed_at E|clear E].
  destruct (str_eqb (rq_Path rq) "/api/maintenance/upcoming") eqn:E; [fixed_at E|clear E].
  destruct (str_eqb (rq_Path rq) "/api/pm/schedules") eqn:E; [fixed_at E|clear E].
  destruct (has_prefix (rq_Path rq) "/api/pm/schedules/") eqn:E; [object_at E "/pm/schedules/"|clear E].
  destruct (str_eqb (rq_Path rq) "/api/spares") eqn:E; [fixed_at E|clear E].
  destruct (has_prefix (rq_Path rq) "/api/spares/") eqn:E; [object_at E "/spares/"|clear E].
  destruct (str_eqb (rq_Path rq) "/api/inspections") eqn:E; [fixed_at E|clear E].
  destruct (has_prefix (rq_Path rq) "/api/inspections/") eqn:E; [object_at E "/inspections/"|clear E].
  destruct (has_prefix (rq_Path rq) "/api/runbooks/") eqn:E; [object_at E "/runbooks/"|clear E].
  destruct (str_eqb (rq_Path rq) "/api/cases") eqn:E; [fixed_at E|clear E].
  destruct (str_eqb (rq_Path rq) "/api/reports/ops") eqn:E; [fixed_at E|clear E].
  destruct (str_eqb (rq_Path rq) "/api/reports/reconcile") eqn:E; [fixed_at E|clear E].
  unfold customer_path.
  destruct (str_eqb (rq_Path rq) "/api/customer/status") eqn:E.
  { apply str_eqb_eq in E. right. left. split; [done|by apply status_asks]. }
  destruct (str_eqb (rq_Path rq) "/api/customer/sla") eqn:E1.
  { apply str_eqb_eq in E1. right. left. split; [done|]. eapply asks_mono; [|by apply sla_asks]. lia. }
  destruct (str_eqb (rq_Path rq) "/api/customer/usage") eqn:E2.
  { apply str_eqb_eq in E2. right. left. split; [done|]. eapply asks_mono; [|by apply customer_usage_asks]. lia. }
  destruct (isSiteStreamPath (rq_Path rq)); [left; destruct (stream_refused who rq) as [pr ->]; apply relays_refuse|].
  destruct (parseOmniversePath (rq_Path rq)) eqn:E3; [right; right; by apply omniverse_relays|left; apply relays_refuse].
Qed.


(** Nobody without a tenant reads anything but the lists of administrators. *)
Lemma tenantless_refused c raw rq now : TenantFromClaims c = None -> admin_route (rq_Path rq) = false ->
  parseOmniversePath (rq_Path rq) = false ->
  exists pr, apiHandler wrapped_flusher (Some (c, raw)) rq now = refuse pr.
Proof using Type.
  intros Ht Ha Ho.
  assert (Hnone : forall n (p : proxy reply), asks (by_caller (Some (c, raw)) rq) n p -> match p with Ret _ => True | Ask _ _ => False end).
  { intros n [r|w k]; [done|]. intros [(c' & raw' & [= <- <-] & Hf) _]. destruct (fo_tenanted _ _ _ _ Hf Ha) as [x Hx]. congruence. }
  pose proof (api_shape (Some (c, raw)) rq now) as Hs. cbv zeta in Hs.
  destruct Hs as [Hs|[[Hc Hs]|Hs]].
  - pose proof (Hnone 1 _ (relays_asks _ _ Hs)) as Hn. revert Hs Hn. destruct (apiHandler _ _ _ _); [|done].
    intros [pr ->] _. by exists pr.
  - clear Hs. unfold customer_path in Hc.
    apply orb_true_iff in Hc as [Hc|Hc]; [apply orb_true_iff in Hc as [Hc|Hc]|]; apply str_eqb_eq in Hc;
      unfold apiHandler; rewrite Hc; cbn -[handleCustomerStatus handleCustomerSLA handleCustomerUsage];
      unfold handleCustomerStatus, handleCustomerSLA, handleCustomerUsage, with_tenant;
      (destruct (method_is rq "GET"); [|by eexists]); rewrite Ht; by eexists.
  - revert Hs. destruct (apiHandler _ _ _ _) as [r|w k]; [intros [pr ->]; by exists pr|].
    intros [[_ Hp _ _ _] _]. congruence.
Qed.
End handlers.

(** ** Tokens the service issues *)

Section issued.
Context (hmac : string -> string -> string).
Context (session_json : Codec Session) (state_json : Codec statePayload)
  (claims_json : Codec wireClaims) (header_alg : string -> option string).
Context (hash_sum : hash_alg -> string -> string).
Context (rsa_verify : Z -> Z -> hash_alg -> string -> string -> bool).
Context (ecdsa_verify : curve -> Z -> Z -> string -> Z -> Z -> bool).
Context (jwt_header : string -> option (string * string)) (jwt_claims : string -> option Claims).
Context (oor : Float64.float64 -> Z).
Context (session_ok : Session -> Prop) (state_ok : statePayload -> Prop) (wire_ok : wireClaims -> Prop).
Context (hd : Handler) (sts_key : string) (ttl : Duration) (accounts : gmap string ServiceAccount).
Context (wire_law : codec_law claims_json wire_ok).
Abbreviation reachable := (Login.reachable hmac session_json state_json claims_json hash_sum rsa_verify ecdsa_verify
  jwt_header jwt_claims oor session_ok state_ok wire_ok hd sts_key ttl accounts).

(** Neither the exchange of a session nor that of client credentials names a tenant. *)
Lemma issued_tenantless w : reachable w ->
  Forall (fun wi => wire_ok wi /\ w_Tenant wi = EmptyString) (tokens_of (g_history w)).
Proof using Type.
  induction 1 as [|w w' _ IH Hs]; [constructor|]. unfold tokens_of in *.
  destruct Hs; cbn [g_history log]; try done; rewrite omap_app; apply Forall_app; (split; [done|]);
    repeat constructor; done.
Qed.

(** So whoever comes with a token of this service - from a login or from client
    credentials - is refused by every endpoint that reads for a tenant, and core
    is not asked. *)
Lemma issued_reads_refused up alarms_json sites_json ov w pdp rq wall now :
  reachable w ->
  (forall raw, bearerToken (rq_Header rq "Authorization") = Some raw ->
     unforged_token hmac claims_json sts_key (g_history w) raw) ->
  admin_route (rq_Path rq) = false -> parseOmniversePath (rq_Path rq) = false ->
  exists pr, serveAPI up alarms_json sites_json ov hmac claims_json header_alg
    (Some (service sts_key ttl w)) pdp rq wall now = refuse pr.
Proof using wire_law.
  intros Hw Hun Ha Ho. unfold serveAPI. destruct (AuthMiddleware _ _ _ _ _ _ _ _ _ _) as [who|p] eqn:E; [|by eexists].
  unfold AuthMiddleware in E. destruct (bearerToken (rq_Header rq "Authorization")) as [raw|]; [|done].
  destruct (Verify _ _ _ _ raw wall now) as [c|] eqn:Ev; [|done].
  assert (who = Some (c, raw)) as ->.
  { destruct pdp as [d|]; [destruct (d _) as [[]|]; try done|]; by injection E as <-. }
  apply tenantless_refused; [|done..]. apply Verify_inv in Ev as (Hp & _).
  pose proof (issued_tenantless w Hw) as Hall.
  eapply (Parse_issued hmac claims_json header_alg wire_ok wire_law) in Hp as (wi & Hin & -> & _).
  - apply (proj1 (Forall_forall _ _) Hall) in Hin as [_ Ht]. unfold TenantFromClaims, of_wire. cbn [t_Tenant]. by rewrite Ht.
  - eapply Forall_impl; [exact Hall|]. by intros x [Hx _].
  - by apply Hun.
Qed.
End issued.

(** ** The customer's view *)

(** An alarm that counts for a site. *)
Definition counted (site : string) (a : customerAlarm) : bool :=
  isCustomerOpenAlarm (ca_State a) && str_eqb (customerSiteOf (ca_Path a)) site && negb (str_eqb site EmptyString).
Definition site_status (alarms : list customerAlarm) (site : string) : customerSiteStatus :=
  let open := List.filter (counted site) alarms in
  mkSite site
    (if existsb (fun a => str_eqb (ca_Severity a) "critical") open then "red"
     else if negb (length open =? 0)%nat then "yellow" else "green")
    (Z.of_nat (length open)).
(** Whether a site is shown. *)
Definition shown_site (ids : list string) (alarms : list customerAlarm) (site : string) : bool :=
  contains_string ids site || existsb (counted site) alarms.

Lemma greens_lookup (ids : list string) (m : gmap string customerSiteStatus) site :
  foldl (fun m id => <[id := green id]> m) m ids !! site =
  if contains_string ids site then Some (green site) else m !! site.
Proof.
  revert m. induction ids as [|id ids IH]; intros m; [done|]. cbn [foldl]. rewrite IH. cbn [contains_string existsb].
  unfold contains_string. destruct (existsb _ ids); [by rewrite orb_true_r|]. rewrite orb_false_r.
  rewrite lookup_insert. unfold contains_string. cbn. destruct (str_eqb _ _) eqn:E.
  - apply str_eqb_eq in E. subst. by rewrite decide_True.
  - apply str_eqb_neq in E. by rewrite decide_False by congruence.
Qed.

Lemma add_alarm_lookup m a site : add_alarm m a !! site =
  if counted site a then Some (worse (ca_Severity a) (default (green site) (m !! site))) else m !! site.
Proof.
  unfold add_alarm, counted. destruct (isCustomerOpenAlarm _); [|done]. cbn [negb andb].
  destruct (str_eqb (customerSiteOf (ca_Path a)) site) eqn:E.
  - apply str_eqb_eq in E. subst site. cbn [andb]. destruct (str_eqb _ EmptyString); [done|]. cbn [negb]. by rewrite lookup_insert_eq.
  - apply str_eqb_neq in E. cbn [andb]. destruct (str_eqb _ EmptyString); [done|]. by rewrite lookup_insert_ne.
Qed.

Lemma site_status_snoc alarms a site : site_status (alarms ++ [a]) site =
  if counted site a then worse (ca_Severity a) (site_status alarms site) else site_status alarms site.
Proof.
  unfold site_status. rewrite List.filter_app. cbn [List.filter]. destruct (counted site a); [|by rewrite app_nil_r].
  rewrite existsb_app, length_app. cbn [existsb length]. rewrite orb_false_r. unfold worse. cbn [cs_ID cs_Health cs_OpenAlarms].
  f_equal; [|lia]. rewrite (proj2 (Nat.eqb_neq (_ + 1) 0)) by lia. cbn [negb].
  destruct (str_eqb (ca_Severity a) "critical"); [by rewrite orb_true_r|]. rewrite orb_false_r.
  destruct (existsb _ _); [done|]. by destruct (length _ =? 0)%nat.
Qed.

Lemma by_site_lookup ids alarms site : by_site ids alarms !! site =
  if shown_site ids alarms site then Some (site_status alarms site) else None.
Proof.
  unfold by_site, shown_site. induction alarms as [|a alarms IH] using rev_ind.
  - cbn [foldl]. rewrite greens_lookup, lookup_empty. cbn [existsb]. rewrite orb_false_r. by destruct (contains_string ids site).
  - rewrite foldl_app. cbn [foldl]. rewrite add_alarm_lookup, IH, site_status_snoc, existsb_app. cbn [existsb].
    rewrite orb_false_r. destruct (counted site a) eqn:Ec; [|by rewrite orb_false_r]. rewrite !orb_true_r. f_equal. f_equal.
    destruct (contains_string ids site || existsb _ alarms) eqn:E; [done|]. apply orb_false_iff in E as [_ E]. cbn [default from_option].
    unfold site_status, green. replace (List.filter (counted site) alarms) with (@nil customerAlarm); [done|].
    symmetry. clear -E. induction alarms as [|b l IH]; [done|]. cbn in *. apply orb_false_iff in E as [-> E]. by apply IH.
Qed.

Lemma omap_found (m : gmap string customerSiteStatus) f l : (forall x, x ∈ l -> m !! x = Some (f x)) ->
  omap (fun x => m !! x) l = map f l.
Proof.
  induction l as [|x l IH]; [done|]. intros H. cbn. rewrite H by by left. f_equal. apply IH. intros y Hy. apply H. by right.
Qed.

(** The rows of the customer's view: the sites of the list, in its order, and
    then every other site with an open alarm, in the order of the names; each with
    the number of its open alarms, red when one of them is critical and green
    when there is none. *)
Lemma site_rows_exact ids alarms : exists extra,
  site_rows ids alarms = map (site_status alarms) (ids ++ extra) /\
  NoDup extra /\ StronglySorted (fun a b => str_lt a b = true) extra /\
  forall site, site ∈ extra <-> (site ∉ ids) /\ exists a, a ∈ alarms /\ counted site a = true.
Proof.
  set (extra := sort_by id (List.filter (fun site => negb (contains_string ids site)) (map_to_list (by_site ids alarms)).*1)).
  assert (Hperm : extra ≡ₚ List.filter (fun site => negb (contains_string ids site)) (map_to_list (by_site ids alarms)).*1)
    by apply sort_by_perm.
  assert (Hnd : NoDup extra).
  { rewrite Hperm. apply NoDup_ListNoDup, List.NoDup_filter, NoDup_ListNoDup, NoDup_fst_map_to_list. }
  assert (Hin : forall site, site ∈ extra <-> (site ∉ ids) /\ exists a, a ∈ alarms /\ counted site a = true).
  { intros site. rewrite Hperm, list_elem_of_In, filter_In, <- list_elem_of_In, negb_true_iff, <- not_true_iff_false,
      contains_string_In, <- list_elem_of_In, list_elem_of_fmap.
    assert ((exists y : string * customerSiteStatus, site = y.1 /\ y ∈ map_to_list (by_site ids alarms)) <->
            shown_site ids alarms site = true) as ->.
    { split.
      - intros ([k v] & -> & H%elem_of_map_to_list). cbn. rewrite by_site_lookup in H. by destruct (shown_site _ _ _).
      - intros H. exists (site, site_status alarms site). split; [done|]. apply elem_of_map_to_list.
        by rewrite by_site_lookup, H. }
    unfold shown_site. rewrite orb_true_iff, contains_string_In, <- list_elem_of_In, existsb_exists.
    setoid_rewrite list_elem_of_In. tauto. }
  exists extra. split; [|split; [done|split; [|done]]].
  - unfold site_rows. fold extra. rewrite map_app. f_equal.
    + assert (Hall : forall x, x ∈ ids -> by_site ids alarms !! x = Some (site_status alarms x)).
      { intros x Hx. rewrite by_site_lookup. unfold shown_site. apply list_elem_of_In, contains_string_In in Hx. by rewrite Hx. }
      by apply omap_found.
    + assert (Hall : forall x, x ∈ extra -> by_site ids alarms !! x = Some (site_status alarms x)).
      { intros x Hx%Hin. rewrite by_site_lookup. unfold shown_site.
        destruct Hx as (_ & a & Ha & Hc). replace (existsb (counted x) alarms) with true; [by rewrite orb_true_r|].
        symmetry. apply existsb_exists. exists a. by rewrite <- list_elem_of_In. }
      by apply omap_found.
  - assert (Hs : StronglySorted (key_le id) extra) by apply sort_by_sorted.
    clear -Hs Hnd. clearbody extra. induction Hs as [|x l Hs IH Hx]; [constructor|].
    apply NoDup_cons in Hnd as [Hn Hnd]. constructor; [by apply IH|]. rewrite Forall_forall in Hx |- *.
    intros y Hy. apply leb_neq_lt; [by apply Hx|]. by intros ->.
Qed.

(** The query core gets for the customer's usage names the tenant of the claims and
    nothing but the known parameters of the request. *)
Lemma query_get_NoDup kvs k v : NoDup kvs.*1 -> (k, v) ∈ kvs -> query_get kvs k = v.
Proof.
  intros Hn Hin. unfold query_get. induction kvs as [|[k' v'] kvs IH]; [by apply elem_of_nil in Hin|].
  cbn [fmap list_fmap fst] in Hn. apply NoDup_cons in Hn as [Hk Hn]. cbn [List.find fst].
  destruct (str_eqb k' k) eqn:E.
  - apply str_eqb_eq in E as ->. apply elem_of_cons in Hin as [[= ->]|Hin]; [done|].
    exfalso. apply Hk. by apply (list_elem_of_fmap_2 fst) in Hin.
  - apply str_eqb_neq in E. apply elem_of_cons in Hin as [[= -> ->]|Hin]; [done|by apply IH].
Qed.

Lemma usage_query_keys tenant raw : NoDup (usage_query tenant raw).*1.
Proof.
  unfold usage_query. rewrite sort_by_perm. cbn [fmap list_fmap fst].
  assert (Hsub : forall ks : list string, (omap (fun k => let v := TrimSpace (query_get (parse_query raw) k) in
    if str_eqb v EmptyString then None else Some (k, v)) ks).*1 `sublist_of` ks).
  { intros ks. induction ks as [|k ks IH]; [constructor|]. cbn. destruct (str_eqb _ _); cbn; by constructor. }
  eapply sublist_NoDup; [|apply sublist_skip, Hsub]. unfold usage_keys. by apply (bool_decide_unpack _).
Qed.

Lemma usage_of_own_tenant tenant raw :
  query_get (parse_query (encode_query (usage_query tenant raw))) "tenant_id" = tenant.
Proof.
  rewrite parse_query_encode. apply query_get_NoDup; [apply usage_query_keys|]. unfold usage_query. rewrite sort_by_perm. left.
Qed.

(** ** Requests through the gateway *)

Definition tenant_wire : wireClaims :=
  mkWire "alice" "customer" "customer" ["viewer"] "jti7" 9000 1000 " t1 " "row" EmptyString [].
Definition tenant_codec : Codec wireClaims := mkCodec (fun _ => "claims") (fun _ => Some tenant_wire).
Definition tenant_token : string := signed_token demo_hmac tenant_codec "k2" tenant_wire.
Definition demo_up : option Upstream := Some (mkUpstream (Some EmptyString)).
Definition demo_ov : omniverse := mkOmniverse (Some (Ok "svc")) (Some EmptyString).
Definition demo_request (method path query : string) (body : option string) : request :=
  mkRequest method path query body
    (fun h => if str_eqb h "Authorization" then "Bearer " +:+ tenant_token else EmptyString) "10.0.0.1:5000".
Definition demo_answer (a : option answer) (_ : list wire) (_ : wire) : option answer := a.
Definition found_answer : answer := mkAnswer 200 (fun h => if str_eqb h "Content-Type" then "text/csv" else EmptyString) "ok".
Definition demo_run (rq : request) (world : list wire -> wire -> option answer) : list wire * reply :=
  run world (serveAPI demo_up (fun _ => None) (fun _ => None) demo_ov demo_hmac tenant_codec demo_hdr_alg (Some demo_service)
    (Some (fun _ => Ok true)) rq demo_now demo_now) [].


(** Text that the path of a request holds behind an escape ends up in the URL that
    core is asked for: a query, or another endpoint. *)
Example path_injects_query :
  map (fun w => (fw_Path w, fw_Query w))
    (demo_run (demo_request "GET" "/api/spares/s1?as_of=x" EmptyString None) (demo_answer None)).1 = [("/v1/spares/s1", "as_of=x")].
Proof. vm_compute. done. Qed.
Example path_climbs :
  map fw_Path (demo_run (demo_request "GET" "/api/spares/%2e%2e%2ftenants" EmptyString None) (demo_answer None)).1 =
  ["/v1/spares/../tenants"].
Proof. vm_compute. done. Qed.

(** The history of a ticket is answered with the ticket. *)
Example history_is_ticket :
  map fw_Path (demo_run (demo_request "GET" "/api/tickets/t9:history" EmptyString None) (demo_answer None)).1 = ["/v1/tickets/t9"].
Proof. vm_compute. done. Qed.

(** The lists of assets and alarms cannot be paged. *)
Example list_query_dropped :
  map (fun w => (fw_Path w, fw_Query w))
    (demo_run (demo_request "GET" "/api/assets" "page_token=abc" None) (demo_answer None)).1 = [("/v1/assets", EmptyString)].
Proof. vm_compute. done. Qed.

(** A number sign in a query cuts it. *)
Example query_cut :
  map fw_Query (demo_run (demo_request "GET" "/api/cases" "q=a#b&limit=5" None) (demo_answer None)).1 = ["q=a"].
Proof. vm_compute. done. Qed.

(** The stream of a site never opens. *)
Example stream_unsupported :
  demo_run (demo_request "GET" "/api/sites/sgp01/stream" EmptyString None) (demo_answer (Some found_answer)) =
  ([], RProblem (Problem 500 "internal" "streaming unsupported")).
Proof. vm_compute. done. Qed.

(** What a handler with a writer that can flush would send. *)
Example stream_event :
  writeSSEEvent (mkEvent EmptyString "telemetry" ("a" +:+ String CR (String LF "b"))) =
  line "event: telemetry" +:+ line "data: a" +:+ line "data: b" +:+ String LF EmptyString.
Proof. vm_compute. done. Qed.
