(* ===== verification/Reports.v ===== *)
(** * Operations reports (core/reports.go, core/report_gen.go)

    The figures computed over tickets and alarms, the endpoint that serves them,
    and the directory of daily pages with its retention.  The figures are those of
    the tickets the caller may read; the top list is the longest prefix of one
    total order; a pass keeps the newest pages and the index lists exactly them.
    A page stands for its text: it is the data the template is given. *)
From Stdlib Require Import SpecFloat.
From stdpp Require Import sorting.
From S2P Require Import Prelude Float64 GoTime CPath Glob RBAC Http Tickets Tokens Cursor Pages Calendar AlarmDesk Runbooks.
Open Scope string_scope.
Open Scope list_scope.

(** ** Figures *)

Record opsReport : Type := mkReport {
  or_MTTR : option float64; or_Response : option float64; or_MTBF : option float64;
  or_ByState : gmap string Z; or_BySeverity : gmap string Z; or_AlarmTop : list (string * Z); or_Since : option time
}.

(** [m[k]++] over a list *)
Definition count_up (m : gmap string Z) (k : string) : gmap string Z := <[k := (default 0 (m !! k) + 1)%Z]> m.
Definition tally (ks : list string) : gmap string Z := foldl count_up ∅ ks.

(** The mean of the durations that are not negative. *)
Definition mean_of (ds : list float64) : option float64 :=
  let ds := List.filter (fun d => negb (fltb d (f_of_Z 0))) ds in
  match ds with
  | [] => None
  | _ => Some (fdiv (foldl fadd (f_of_Z 0) ds) (f_of_Z (Z.of_nat (length ds))))
  end.
Definition elapsed (t : Ticket) (to : option time) : option float64 := (fun e => Seconds (time_sub e (t_OpenedAt t))) <$> to.
Definition meanMTTR (ts : list Ticket) : option float64 := mean_of (omap (fun t => elapsed t (t_ResolvedAt t)) ts).
Definition meanResponse (ts : list Ticket) : option float64 := mean_of (omap (fun t => elapsed t (t_AckedAt t)) ts).

(** The gaps between the openings of the tickets of one asset. *)
Fixpoint gaps (ts : list time) : list float64 :=
  match ts with
  | a :: (b :: _) as rest => Seconds (time_sub b a) :: gaps rest
  | _ => []
  end.
Definition add_to_group (m : gmap string (list time)) (t : Ticket) : gmap string (list time) :=
  <[t_AssetPath t := default [] (m !! t_AssetPath t) ++ [t_OpenedAt t]]> m.
Definition by_asset (ts : list Ticket) : gmap string (list time) := foldl add_to_group ∅ ts.

Section figures.
Context `{MapOrder}.

Definition meanMTBF (ts : list Ticket) : option float64 :=
  mean_of (concat (map (fun g => gaps (merge_sort Z.le g.2)) (shuffle (map_to_list (by_asset ts))))).

Definition computeOpsReport (ts : list Ticket) : opsReport :=
  mkReport (meanMTTR ts) (meanResponse ts) (meanMTBF ts) (tally (map t_State ts)) (tally (map t_Severity ts)) [] None.

(** More alarms first, then by path. *)
Definition row_le (x y : string * Z) : Prop := (y.2 < x.2)%Z \/ (x.2 = y.2 /\ String.leb x.1 y.1 = true).
#[global] Instance row_le_dec : RelDecision row_le.
Proof. unfold row_le. intros x y. apply _. Defined.

Definition topAlarmsByPath (alarms : list Alarm) (topN : Z) : list (string * Z) :=
  let firing := List.filter (fun a => str_eqb (al_State a) "firing") alarms in
  take (Z.to_nat topN) (merge_sort row_le (map_to_list (tally (map al_Path firing)))).

(** ** The endpoint *)

Record opsQuery : Type := mkOpsQuery { oq_since : string; oq_top : string; oq_filter : string }.

Definition parse_top (s : string) : result problem Z :=
  if str_eqb s EmptyString then Ok 10%Z
  else match Atoi s with
  | Some n => if (n <=? 0)%Z then Err (bad_request "bad top (need positive int)")
              else if (100 <? n)%Z then Err (bad_request "top > 100") else Ok n
  | None => Err (bad_request "bad top (need positive int)")
  end.

Definition ticket_wanted (since : option time) (glob : Glob) (t : Ticket) : bool :=
  match since with Some s => negb (t_OpenedAt t <? s)%Z | None => true end && Match glob (t_AssetPath t).

(** [tickets] and [alarms] are what the store lists, [None] when it fails. *)
Definition serveOpsReport (tickets : option (list Ticket)) (alarms : option (list Alarm)) (mt : meter)
    (auth : option Principal) (method : string) (q : opsQuery) : meter * result problem opsReport :=
  if negb (str_eqb method "GET") then (mt, Err (Problem 405 "bad-request" "method not allowed"))
  else
    match (since ← parse_bound (oq_since q) "bad since (need RFC3339)";
           top ← parse_top (oq_top q);
           glob ← match CompileGlob (if str_eqb (oq_filter q) EmptyString then "**" else oq_filter q) with
                  | Ok g => Ok g | Err _ => Err (bad_request "bad filter") end;
           Ok (since, top, glob)) with
    | Err e => (mt, Err e)
    | Ok (since, top, glob) =>
        match tickets, alarms with
        | Some tickets, Some alarms =>
            let '(mt, ts) := filter_visible mt auth (ticket_wanted since glob) t_AssetPath tickets in
            let r := computeOpsReport ts in
            let '(mt, seen) := filter_visible mt auth (fun a => Match glob (al_Path a)) al_Path alarms in
            (mt, Ok (mkReport (or_MTTR r) (or_Response r) (or_MTBF r) (or_ByState r) (or_BySeverity r)
                       (topAlarmsByPath seen top) since))
        | _, _ => (mt, Err store_error)
        end
    end.

(** ** The directory of pages *)

Record gap_row : Type := mkGapRow { gr_Path : string; gr_Since : string; gr_Summary : string }.

Definition pipelineGapsFromAlarms (lower_rune : N -> N) (alarms : list Alarm) : list gap_row :=
  let told (a : Alarm) := (str_eqb (al_State a) "firing" || str_eqb (al_State a) "acked") &&
                          (contains "pipeline gap" (ToLower lower_rune (al_Summary a)) ||
                           contains "pipeline-gap" (ToLower lower_rune (al_Summary a))) in
  sort_by gr_Path (map (fun a => mkGapRow (al_Path a) (FormatRFC3339 (al_Since a)) (al_Summary a)) (List.filter told alarms)).

Inductive page : Type :=
  | OpsPage (r : opsReport) (at_ : time) (gaps : list gap_row)
  | IndexPage (entries : list (string * string))
  | OtherFile (content : string).
(** The files of the directory with the times they were written. *)
Abbreviation directory := (gmap string (page * time)).

Definition is_report (name : string) : bool := has_prefix name "ops-".
Definition report_name (now : time) : string :=
  let c := civil_in UTC now in
  "ops-" +:+ pad 4 (c_year c) +:+ "-" +:+ pad 2 (c_month c) +:+ "-" +:+ pad 2 (c_day c) +:+ ".html".

(** The reports, newest first; [sort.Slice] leaves equal times in any order. *)
Definition newer (x y : string * time) : Prop := (y.2 <= x.2)%Z.
#[global] Instance newer_dec : RelDecision newer.
Proof. unfold newer. intros x y. apply _. Defined.
Definition reports_of (dir : directory) : list (string * time) :=
  merge_sort newer (shuffle (map (fun f => (f.1, f.2.2)) (List.filter (fun f => is_report f.1) (map_to_list dir)))).

(** Removing stops at the first failure. *)
Fixpoint remove_all (can_remove : string -> bool) (names : list string) (dir : directory) : directory * result unit unit :=
  match names with
  | [] => (dir, Ok tt)
  | n :: names => if can_remove n then remove_all can_remove names (delete n dir) else (dir, Err tt)
  end.
Definition pruneReports (can_remove : string -> bool) (keep : Z) (dir : directory) : directory :=
  if (keep <=? 0)%Z then dir
  else (remove_all can_remove (map fst (drop (Z.to_nat keep) (reports_of dir))) dir).1.

Definition writeReportIndex (can_write : bool) (written : time) (dir : directory) : directory :=
  if can_write
  then <["index.html" := (IndexPage (map (fun f => (f.1, FormatRFC3339 f.2)) (reports_of dir)), written)]> dir
  else dir.

(** What the surroundings do: the lock, the lists, the writes, the clock of the
    file system. *)
Record renv : Type := mkRenv {
  re_locked : bool; re_tickets : option (list Ticket); re_alarms : option (list Alarm);
  re_mkdir : bool; re_write : bool; re_written : time; re_remove : string -> bool; re_index : bool
}.

Definition reportOne (lower_rune : N -> N) (configured : bool) (keep : Z) (now : time) (env : renv) (dir : directory) :
    directory * result string unit :=
  if negb configured || negb (re_locked env) then (dir, Ok tt)
  else match re_tickets env, re_alarms env with
  | None, _ => (dir, Err "list tickets")
  | _, None => (dir, Err "list alarms")
  | Some tickets, Some alarms =>
      let r := computeOpsReport tickets in
      let r := mkReport (or_MTTR r) (or_Response r) (or_MTBF r) (or_ByState r) (or_BySeverity r)
                 (topAlarmsByPath alarms 10) None in
      if negb (re_mkdir env) then (dir, Err "mkdir")
      else if negb (re_write env) then (dir, Err "write")
      else
        let dir := <[report_name now := (OpsPage r now (pipelineGapsFromAlarms lower_rune alarms), re_written env)]> dir in
        let dir := pruneReports (re_remove env) keep dir in
        (writeReportIndex (re_index env) (re_written env) dir, Ok tt)
  end.
End figures.

(** ** What the figures are *)

Definition occurrences (k : string) (ks : list string) : Z := Z.of_nat (length (List.filter (str_eqb k) ks)).

Lemma tally_lookup ks k : tally ks !! k = if (occurrences k ks =? 0)%Z then None else Some (occurrences k ks).
Proof.
  unfold tally, occurrences. induction ks as [|x ks IH] using rev_ind; [done|].
  rewrite foldl_app, List.filter_app, length_app. cbn [foldl List.filter]. unfold count_up at 1. rewrite lookup_insert.
  destruct (decide (x = k)) as [->|Hne].
  - rewrite (proj2 (str_eqb_eq k k) eq_refl), IH. cbn [length]. generalize (length (List.filter (str_eqb k) ks)) as n.
    intros n. rewrite (proj2 (Z.eqb_neq (Z.of_nat (n + 1)) 0)) by lia. f_equal.
    destruct (Z.eqb_spec (Z.of_nat n) 0); cbn; lia.
  - rewrite (proj2 (str_eqb_neq k x)) by congruence. cbn [length]. by rewrite Nat.add_0_r.
Qed.

#[local] Instance row_le_total : Total row_le.
Proof.
  intros [p c] [q d]. unfold row_le. cbn. destruct (Z.lt_trichotomy c d) as [H|[->|H]]; [right; by left| |left; by left].
  destruct (String.leb_total p q); [left|right]; by right.
Qed.
#[local] Instance row_le_trans : Transitive row_le.
Proof.
  intros [p c] [q d] [r e]. unfold row_le. cbn. intros [H|[-> H]] [H'|[-> H']]; try (left; lia). right. split; [done|].
  by eapply leb_trans.
Qed.

(** The firing alarms of a path. *)
Definition firing_at (alarms : list Alarm) (p : string) : Z :=
  occurrences p (map al_Path (List.filter (fun a => str_eqb (al_State a) "firing") alarms)).

(** The top list: at most [n] rows in the order of their numbers, each a path with
    the number of its firing alarms, and no path that is left out comes before one
    that is shown. *)
Lemma topAlarms_exact alarms n : let rows := topAlarmsByPath alarms n in
  (length rows <= Z.to_nat n)%nat /\ NoDup rows.*1 /\ StronglySorted row_le rows /\
  (forall p c, (p, c) ∈ rows -> c = firing_at alarms p /\ (0 < c)%Z) /\
  (forall p, (0 < firing_at alarms p)%Z -> (p, firing_at alarms p) ∈ rows \/
     (length rows = Z.to_nat n /\ forall r, r ∈ rows -> row_le r (p, firing_at alarms p))).
Proof.
  cbv zeta. unfold topAlarmsByPath, firing_at. set (paths := map al_Path _). set (all := merge_sort row_le _).
  assert (Hp : all ≡ₚ map_to_list (tally paths)) by apply merge_sort_Permutation.
  assert (Hs : StronglySorted row_le all) by (apply StronglySorted_merge_sort; apply _).
  assert (Hin : forall p c, (p, c) ∈ all <-> c = occurrences p paths /\ (0 < c)%Z).
  { intros p c. rewrite Hp, elem_of_map_to_list, tally_lookup. unfold occurrences.
    destruct (Z.eqb_spec (Z.of_nat (length (List.filter (str_eqb p) paths))) 0); split; try done;
      [intros [-> ?]; lia|intros [= <-]; split; [done|lia]|by intros [-> _]]. }
  pose proof (take_drop (Z.to_nat n) all) as Htd. set (rows := take _ all) in *. set (rest := drop _ all) in *.
  rewrite <- Htd in Hs. apply StronglySorted_app in Hs as (Hcross & Hs1 & _).
  split; [unfold rows; rewrite length_take; lia|]. split; [|split; [done|split]].
  - assert (Hnd : NoDup all.*1) by (rewrite Hp; apply NoDup_fst_map_to_list).
    rewrite <- Htd, fmap_app in Hnd. by apply NoDup_app in Hnd as [Hnd _].
  - intros p c H. apply Hin. rewrite <- Htd. apply elem_of_app. by left.
  - intros p Hpos. assert (H : (p, occurrences p paths) ∈ all) by by apply Hin.
    rewrite <- Htd in H. apply elem_of_app in H as [H|H]; [by left|right]. split; [|intros r Hr; by apply Hcross].
    unfold rows. rewrite length_take. apply Nat.min_l. destruct (Nat.le_gt_cases (Z.to_nat n) (length all)) as [?|Hlt]; [done|].
    unfold rest in H. rewrite drop_ge in H by lia. by apply elem_of_nil in H.
Qed.

(** The endpoint answers with the figures of the tickets that the query asks for and
    that the caller may read. *)
Lemma serveOpsReport_exact `{MapOrder} tickets alarms mt auth q r mt' :
  serveOpsReport tickets alarms mt auth "GET" q = (mt', Ok r) -> exists ts als since top glob,
    tickets = Some ts /\ alarms = Some als /\ parse_bound (oq_since q) "bad since (need RFC3339)" = Ok since /\
    parse_top (oq_top q) = Ok top /\
    CompileGlob (if str_eqb (oq_filter q) EmptyString then "**" else oq_filter q) = Ok glob /\ or_Since r = since /\
    let mine := List.filter (fun t => ticket_wanted since glob t && sees (m_closed mt) auth (t_AssetPath t)) ts in
    let seen := List.filter (fun a => Match glob (al_Path a) && sees (m_closed mt) auth (al_Path a)) als in
    or_MTTR r = meanMTTR mine /\ or_Response r = meanResponse mine /\ or_MTBF r = meanMTBF mine /\
    or_ByState r = tally (map t_State mine) /\ or_BySeverity r = tally (map t_Severity mine) /\
    or_AlarmTop r = topAlarmsByPath seen top.
Proof.
  unfold serveOpsReport. change (str_eqb "GET" "GET") with true. cbn [negb].
  destruct (parse_bound _ _) as [since|] eqn:E1; [|done]. cbn [mbind result_bind].
  destruct (parse_top _) as [top|] eqn:E2; [|done]. cbn.
  destruct (CompileGlob _) as [glob|] eqn:E3; [|done]. cbn.
  destruct tickets as [ts|]; [|done]. destruct alarms as [als|]; [|done].
  pose proof (filter_visible_sees auth (ticket_wanted since glob) t_AssetPath ts mt) as [H1 H2].
  destruct (filter_visible mt auth (ticket_wanted since glob) t_AssetPath ts) as [mt1 mine]. cbn in H1, H2.
  pose proof (filter_visible_sees auth (fun a => Match glob (al_Path a)) al_Path als mt1) as [H3 H4].
  destruct (filter_visible mt1 auth _ al_Path als) as [mt2 seen]. cbn in H3, H4. rewrite H2 in H3. intros [= _ <-].
  exists ts, als, since, top, glob. cbn. subst mine seen. by split_and!.
Qed.

(** ** What a pass leaves in the directory *)

Section retention.
Context `{MapOrderOk}.

#[local] Instance newer_total : Total newer.
Proof. intros x y. unfold newer. lia. Qed.
#[local] Instance newer_trans : Transitive newer.
Proof. intros x y z. unfold newer. lia. Qed.

Lemma reports_of_elem dir n t : (n, t) ∈ reports_of dir <-> is_report n = true /\ exists p, dir !! n = Some (p, t).
Proof using Type*.
  unfold reports_of. rewrite merge_sort_Permutation, shuffle_perm, list_elem_of_fmap. split.
  - intros ([n' [p t']] & [= -> ->] & H1%list_elem_of_In). apply filter_In in H1 as [H1%list_elem_of_In Hr].
    apply elem_of_map_to_list in H1. split; [done|by exists p].
  - intros [Hr [p Hp]]. exists (n, (p, t)). split; [done|]. apply list_elem_of_In, filter_In. split; [|done].
    by apply list_elem_of_In, elem_of_map_to_list.
Qed.

Lemma reports_of_NoDup dir : NoDup (map fst (reports_of dir)).
Proof using Type*.
  unfold reports_of. rewrite merge_sort_Permutation, shuffle_perm, map_map. cbn [fst].
  apply NoDup_map_filter, NoDup_fst_map_to_list.
Qed.

Lemma reports_of_sorted dir : StronglySorted newer (reports_of dir).
Proof using Type*. apply StronglySorted_merge_sort; apply _. Qed.

Lemma remove_all_lookup names dir n :
  (remove_all (fun _ => true) names dir).1 !! n = if contains_string names n then None else dir !! n.
Proof using Type.
  revert dir. induction names as [|x names IH]; intros dir; [done|]. cbn [remove_all]. rewrite IH. unfold contains_string.
  cbn [existsb]. destruct (existsb _ names); [by rewrite orb_true_r|]. rewrite orb_false_r. destruct (str_eqb x n) eqn:E.
  - apply str_eqb_eq in E as ->. apply lookup_delete_eq.
  - apply str_eqb_neq in E. by apply lookup_delete_ne.
Qed.

(** Pruning keeps the newest reports, as many as asked for, and every other file. *)
Lemma prune_keeps keep dir : (0 < keep)%Z -> let dir' := pruneReports (fun _ => true) keep dir in
  (forall n, dir' !! n = dir !! n \/ (dir' !! n = None /\ is_report n = true)) /\
  length (reports_of dir') = Nat.min (Z.to_nat keep) (length (reports_of dir)) /\
  (forall n t, (n, t) ∈ reports_of dir -> dir' !! n = None -> Z.to_nat keep <= length (reports_of dir') /\
     forall n' t', (n', t') ∈ reports_of dir' -> (t <= t')%Z).
Proof using Type*.
  intros Hk. cbv zeta. unfold pruneReports. rewrite (proj2 (Z.leb_gt keep 0)) by lia. set (k := Z.to_nat keep).
  set (R := reports_of dir). set (dir' := (remove_all _ _ _).1).
  assert (Hl : forall n, dir' !! n = if contains_string (map fst (drop k R)) n then None else dir !! n)
    by (intros n; apply remove_all_lookup).
  pose proof (reports_of_NoDup dir) as Hnd. fold R in Hnd. rewrite <- (take_drop k R), map_app in Hnd.
  apply NoDup_app in Hnd as (Hnd1 & Hdisj & _).
  assert (Hkept : forall n t, (n, t) ∈ reports_of dir' <-> (n, t) ∈ take k R).
  { intros n t. rewrite reports_of_elem, Hl. split.
    - intros [Hr [p Hp]]. destruct (contains_string _ n) eqn:Ec; [done|].
      assert (Hin : (n, t) ∈ R) by (apply reports_of_elem; split; [done|by exists p]).
      rewrite <- (take_drop k R) in Hin. apply elem_of_app in Hin as [Hin|Hin]; [done|].
      exfalso. apply not_true_iff_false in Ec. apply Ec, contains_string_In, list_elem_of_In.
      by apply (list_elem_of_fmap_2 fst) in Hin.
    - intros Hin. assert (HR : (n, t) ∈ R) by (rewrite <- (take_drop k R); apply elem_of_app; by left).
      apply reports_of_elem in HR as [Hr Hp]. split; [done|].
      destruct (contains_string _ n) eqn:Ec; [|done]. apply contains_string_In, list_elem_of_In in Ec.
      exfalso. apply (Hdisj n); [by apply (list_elem_of_fmap_2 fst) in Hin|done]. }
  assert (Hperm : reports_of dir' ≡ₚ take k R).
  { apply NoDup_Permutation; [|by eapply (NoDup_fmap_1 fst)|by intros [n t]].
    eapply (NoDup_fmap_1 fst), reports_of_NoDup. }
  assert (Hlen : length (reports_of dir') = Nat.min k (length R)) by by rewrite Hperm, length_take.
  split; [|split; [done|]].
  - intros n. rewrite Hl. destruct (contains_string _ n) eqn:Ec; [right|by left]. split; [done|].
    apply contains_string_In, list_elem_of_In, list_elem_of_fmap in Ec as ([n' t] & -> & Hin).
    assert (HR : (n', t) ∈ R) by (rewrite <- (take_drop k R); apply elem_of_app; by right).
    by apply reports_of_elem in HR as [? _].
  - intros n t HR Hnone. assert (Hd : (n, t) ∈ drop k R).
    { fold R in HR. rewrite <- (take_drop k R) in HR. apply elem_of_app in HR as [HR|HR]; [|done].
      apply Hkept, reports_of_elem in HR as [_ [p Hp]]. congruence. }
    split.
    + rewrite Hlen. destruct (Nat.le_gt_cases k (length R)) as [?|Hlt]; [lia|].
      rewrite drop_ge in Hd by lia. by apply elem_of_nil in Hd.
    + intros n' t' H1%Hkept. pose proof (reports_of_sorted dir) as Hs. fold R in Hs. rewrite <- (take_drop k R) in Hs.
      apply StronglySorted_app in Hs as (Hc & _ & _). by apply (Hc _ _ H1 Hd).
Qed.

Lemma report_name_is_report now : is_report (report_name now) = true.
Proof using Type. apply has_prefix_app. Qed.

Lemma remove_all_ext (f : string -> bool) names dir : (forall n, f n = true) ->
  remove_all f names dir = remove_all (fun _ => true) names dir.
Proof using Type. intros Hf. revert dir. induction names as [|x names IH]; intros dir; cbn; [done|]. by rewrite Hf. Qed.

(** A file that is no page does not change the list of pages. *)
Lemma reports_of_other name x dir : is_report name = false ->
  (forall n t, (n, t) ∈ reports_of (<[name := x]> dir) <-> (n, t) ∈ reports_of dir) /\
  length (reports_of (<[name := x]> dir)) = length (reports_of dir).
Proof using Type*.
  intros Hn. assert (Hrep : forall n t, (n, t) ∈ reports_of (<[name := x]> dir) <-> (n, t) ∈ reports_of dir).
  { intros n t. rewrite !reports_of_elem. split; intros [Hr [p Hp]]; (split; [done|]); exists p;
      (destruct (decide (n = name)) as [->|Hne]; [congruence|]).
    - by rewrite lookup_insert_ne in Hp by congruence.
    - by rewrite lookup_insert_ne by congruence. }
  split; [done|]. apply Permutation_length, NoDup_Permutation; [eapply (NoDup_fmap_1 fst), reports_of_NoDup..|].
  by intros [n t].
Qed.

(** A page newer than every other one is kept. *)
Lemma newest_page_kept keep dir name pg t : (0 < keep)%Z -> is_report name = true -> dir !! name = Some (pg, t) ->
  (forall n p u, dir !! n = Some (p, u) -> is_report n = true -> n <> name -> (u < t)%Z) ->
  pruneReports (fun _ => true) keep dir !! name = Some (pg, t).
Proof using Type*.
  intros Hk Hr Hname Hold. destruct (prune_keeps keep dir Hk) as (Hfiles & _ & Hgone). cbv zeta in *.
  set (dir' := pruneReports _ _ _) in *. destruct (Hfiles name) as [E|[Hn _]]; [by rewrite E|]. exfalso.
  assert (Hin : (name, t) ∈ reports_of dir) by (apply reports_of_elem; split; [done|by eexists]).
  destruct (Hgone _ _ Hin Hn) as [Hle Hall]. destruct (reports_of dir') as [|[n' t'] l] eqn:El; [cbn in Hle; lia|].
  specialize (Hall n' t' ltac:(left)). assert (Hin' : (n', t') ∈ reports_of dir') by (rewrite El; left).
  apply reports_of_elem in Hin' as [Hr' [p Hp]]. destruct (decide (n' = name)) as [->|Hne']; [congruence|].
  destruct (Hfiles n') as [E|[E _]]; [|congruence]. rewrite E in Hp. specialize (Hold _ _ _ Hp Hr' Hne'). lia.
Qed.

(** A pass whose writes succeed leaves the page of the day, the newest other pages
    up to the number to keep, every file that is no page, and an index of exactly the
    pages that are there, newest first. *)
Lemma reportOne_retention lower_rune keep now env dir dir' r ts als :
  reportOne lower_rune true keep now env dir = (dir', Ok r) -> re_locked env = true ->
  re_tickets env = Some ts -> re_alarms env = Some als -> (forall n, re_remove env n = true) -> re_index env = true ->
  (0 < keep)%Z -> (forall n p t, dir !! n = Some (p, t) -> is_report n = true -> n <> report_name now -> (t < re_written env)%Z) ->
  (exists rep gs, dir' !! report_name now = Some (OpsPage rep now gs, re_written env) /\
     or_ByState rep = tally (map t_State ts) /\ or_AlarmTop rep = topAlarmsByPath als 10) /\
  (length (reports_of dir') <= Z.to_nat keep)%nat /\
  (forall n, n <> report_name now -> n <> "index.html" ->
     dir' !! n = dir !! n \/ (dir' !! n = None /\ is_report n = true /\ length (reports_of dir') = Z.to_nat keep)) /\
  (forall n p t, dir !! n = Some (p, t) -> n <> report_name now -> is_report n = true -> dir' !! n = None ->
     forall n' t', (n', t') ∈ reports_of dir' -> (t <= t')%Z) /\
  (exists entries, dir' !! "index.html" = Some (IndexPage entries, re_written env) /\
     forall n, n ∈ map fst entries <-> is_report n = true /\ is_Some (dir' !! n)).
Proof using Type*.
  unfold reportOne. intros Hrun Hlock Ets Eal Hrm Hidx Hk Hold. rewrite Hlock, Ets, Eal in Hrun. cbn [negb orb] in Hrun.
  destruct (re_mkdir env); [|done]. destruct (re_write env); [|done]. cbn [negb] in Hrun. rewrite Hidx in Hrun.
  cbn [writeReportIndex] in Hrun.
  set (rep := mkReport _ _ _ _ _ _ _) in Hrun. set (gs := pipelineGapsFromAlarms _ _) in Hrun.
  set (D := <[report_name now := _]> dir) in Hrun.
  assert (Hpr : pruneReports (re_remove env) keep D = pruneReports (fun _ => true) keep D).
  { unfold pruneReports. by rewrite remove_all_ext. }
  rewrite Hpr in Hrun. clear Hpr. destruct (prune_keeps keep D Hk) as (Hfiles & Hlen & Hgone). cbv zeta in *.
  assert (HD' : pruneReports (fun _ => true) keep D !! report_name now = Some (OpsPage rep now gs, re_written env)).
  { apply newest_page_kept; [done|apply report_name_is_report|apply lookup_insert_eq|].
    intros n p u Hp Hr Hn. unfold D in Hp. rewrite lookup_insert_ne in Hp by congruence. by eapply Hold. }
  set (D' := pruneReports _ _ _) in *. injection Hrun as <- <-.
  assert (Hne : report_name now <> "index.html").
  { intros E. pose proof (report_name_is_report now) as Hr. by rewrite E in Hr. }
  destruct (reports_of_other "index.html" (IndexPage (map (fun f => (f.1, FormatRFC3339 f.2)) (reports_of D')), re_written env) D'
    eq_refl) as [Hrep Hlen'].
  split; [exists rep, gs; by rewrite lookup_insert_ne by congruence|]. rewrite Hlen'.
  split; [rewrite Hlen; lia|]. split; [|split].
  - intros n H1 H2. rewrite !lookup_insert_ne by congruence. destruct (Hfiles n) as [E|[E Hr]].
    + left. rewrite E. unfold D. by rewrite lookup_insert_ne by congruence.
    + destruct (dir !! n) as [[p t]|] eqn:Ed; [|by left]. right. split; [done|]. split; [done|].
      assert (Hin : (n, t) ∈ reports_of D).
      { apply reports_of_elem. split; [done|]. exists p. unfold D. by rewrite lookup_insert_ne by congruence. }
      destruct (Hgone _ _ Hin E) as [Hle _]. lia.
  - intros n p t Hd H1 Hr Hn n' t' Hin%Hrep.
    assert (Hin0 : (n, t) ∈ reports_of D).
    { apply reports_of_elem. split; [done|]. exists p. unfold D. by rewrite lookup_insert_ne by congruence. }
    rewrite lookup_insert_ne in Hn by (intros <-; discriminate). by apply (proj2 (Hgone _ _ Hin0 Hn) n' t').
  - eexists. split; [apply lookup_insert_eq|]. intros n. rewrite map_map. cbn [fst]. rewrite list_elem_of_fmap. split.
    + intros ([n' t] & -> & Hin). cbn [fst]. apply reports_of_elem in Hin as [Hr [p Hp]]. split; [done|].
      rewrite lookup_insert_ne by (intros <-; discriminate). by eexists.
    + intros [Hr [[p t] Hp]]. rewrite lookup_insert_ne in Hp by (intros <-; discriminate). exists (n, t). split; [done|].
      apply reports_of_elem. split; [done|by exists p].
Qed.
End retention.

(** ** Examples *)

Definition opened (id path : string) (ns : Z) : Ticket :=
  mkTicket id EmptyString path EmptyString "minor" "open" EmptyString (Date 2026 7 1 0 0 UTC + ns)%Z None None None None 1 EmptyString.
Definition demo_tickets : list Ticket :=
  [opened "1" "a" 0; opened "2" "a" 100000000; opened "3" "b" 0; opened "4" "b" 200000000;
   opened "5" "c" 0; opened "6" "c" 300000000].
Definition other_order : MapOrder := fun _ l => match l with x :: l => x :: rev l | [] => [] end.

(** The mean time between failures adds floats in the order of a map, so its last
    digit changes from request to request. *)
Example mtbf_varies :
  @meanMTBF demo_order demo_tickets <> None /\ @meanMTBF demo_order demo_tickets <> @meanMTBF other_order demo_tickets.
Proof. vm_compute. split; discriminate. Qed.

(** A pass on the third day with two pages to keep. *)
Definition day (n : Z) : time := Date 2026 7 n 0 0 UTC.
Definition demo_dir : gmap string (page * time) :=
  {["ops-2026-07-01.html" := (OtherFile "one", day 1); "ops-2026-07-02.html" := (OtherFile "two", day 2);
    "notes.txt" := (OtherFile "n", day 1)]}.
Example demo_pass_kept :
  let env := mkRenv true (Some demo_tickets) (Some []) true true (day 3) (fun _ => true) true in
  let '(dir, r) := @reportOne demo_order id true 2 (day 3) env demo_dir in
  is_ok r = true /\ map (fun f => f.1) (@reports_of demo_order dir) = ["ops-2026-07-03.html"; "ops-2026-07-02.html"] /\
  is_Some (dir !! "notes.txt").
Proof. vm_compute. split; [done|]. split; [done|by eexists]. Qed.
