(* ===== verification/Migrate.v ===== *)
(** * The migration to scoped bindings (core/migrate_v11.go, core/auth.go)

    The one-shot migration gives every tenant its default organisation, attaches the
    sites and rewrites the dot-globs of role bindings as resource names; the loader
    joins the bindings to the configured principals.  A save or the audit sink may
    fail at any step, which is also where a run may be interrupted.  Whatever the
    point of failure, every caller is allowed exactly what it was allowed before,
    and a second run after a complete one changes nothing. *)
From stdpp Require Import sorting.
From S2P Require Import Prelude GoTime CPath Glob RBAC Http Routes Registry.
Open Scope string_scope.
Open Scope list_scope.

(** ** Reports and the sink *)

Record RewriteDiff : Type := mkDiff { df_TS : time; df_Subject : string; df_OldScope : string; df_NewScope : string }.

Record MigrateReport : Type := mkReport {
  rp_TenantsSeen : Z; rp_OrgsEnsured : Z; rp_OrgsAlready : Z; rp_SitesAttached : Z; rp_SitesAlready : Z;
  rp_RBTotal : Z; rp_RBRewritten : Z; rp_RBSkippedCRN : Z; rp_RBSkippedNoSite : Z; rp_Diffs : list RewriteDiff
}.
Definition empty_report : MigrateReport := mkReport 0 0 0 0 0 0 0 0 0 [].

(** The counters, one definition per increment of the code. *)
Definition count_org (r : MigrateReport) (new : bool) : MigrateReport :=
  mkReport (rp_TenantsSeen r) (rp_OrgsEnsured r + if new then 1 else 0) (rp_OrgsAlready r + if new then 0 else 1)
    (rp_SitesAttached r) (rp_SitesAlready r) (rp_RBTotal r) (rp_RBRewritten r) (rp_RBSkippedCRN r)
    (rp_RBSkippedNoSite r) (rp_Diffs r).
Definition count_site (r : MigrateReport) (new : bool) : MigrateReport :=
  mkReport (rp_TenantsSeen r) (rp_OrgsEnsured r) (rp_OrgsAlready r) (rp_SitesAttached r + if new then 1 else 0)
    (rp_SitesAlready r + if new then 0 else 1) (rp_RBTotal r) (rp_RBRewritten r) (rp_RBSkippedCRN r)
    (rp_RBSkippedNoSite r) (rp_Diffs r).
Definition count_skip (r : MigrateReport) (crn : bool) : MigrateReport :=
  mkReport (rp_TenantsSeen r) (rp_OrgsEnsured r) (rp_OrgsAlready r) (rp_SitesAttached r) (rp_SitesAlready r)
    (rp_RBTotal r) (rp_RBRewritten r) (rp_RBSkippedCRN r + if crn then 1 else 0)
    (rp_RBSkippedNoSite r + if crn then 0 else 1) (rp_Diffs r).
Definition count_rewrite (r : MigrateReport) (d : RewriteDiff) : MigrateReport :=
  mkReport (rp_TenantsSeen r) (rp_OrgsEnsured r) (rp_OrgsAlready r) (rp_SitesAttached r) (rp_SitesAlready r)
    (rp_RBTotal r) (rp_RBRewritten r + 1) (rp_RBSkippedCRN r) (rp_RBSkippedNoSite r) (rp_Diffs r ++ [d]).
Definition count_seen (r : MigrateReport) (tenants bindings : Z) : MigrateReport :=
  mkReport (rp_TenantsSeen r + tenants) (rp_OrgsEnsured r) (rp_OrgsAlready r) (rp_SitesAttached r) (rp_SitesAlready r)
    (rp_RBTotal r + bindings) (rp_RBRewritten r) (rp_RBSkippedCRN r) (rp_RBSkippedNoSite r) (rp_Diffs r).

(** ** Lists of the store *)

Definition ListTenants (rg : registry) : list Tenant :=
  omap (fun id => rg_tenants rg !! id) (sort_strings (map fst (map_to_list (rg_tenants rg)))).
Definition org_le (x y : Org) : Prop := String.leb (og_Name x) (og_Name y) = true.
#[global] Instance org_le_dec : RelDecision org_le.
Proof. unfold org_le. intros x y. apply _. Defined.
Definition ListOrgs (rg : registry) (tenantID : string) : list Org :=
  merge_sort org_le (List.filter (fun o => str_eqb (og_TenantID o) tenantID) (map snd (map_to_list (rg_orgs rg)))).
Definition ListSiteOrgs (rg : registry) : list SiteOrg :=
  omap (fun site => rg_siteOrgs rg !! site) (sort_strings (map fst (map_to_list (rg_siteOrgs rg)))).
(** By subject, then by scope. *)
Definition binding_le (x y : RoleBinding) : Prop :=
  (rb_Subject x <> rb_Subject y /\ String.leb (rb_Subject x) (rb_Subject y) = true) \/
  (rb_Subject x = rb_Subject y /\ String.leb (rb_Scope x) (rb_Scope y) = true).
#[global] Instance binding_le_dec : RelDecision binding_le.
Proof. unfold binding_le. intros x y. apply _. Defined.
Definition ListAllRoleBindings (rg : registry) : list RoleBinding := merge_sort binding_le (rg_bindings rg).

(** ** The sites and their tenants *)

(** [firstPathSegment]: everything before the first dot. *)
Fixpoint firstPathSegment (path : string) : string :=
  match path with
  | EmptyString => EmptyString
  | String c rest => if byte_eqb c "." then EmptyString else String c (firstPathSegment rest)
  end.
Definition legacyScopeSite (scope : string) : option string :=
  let s := firstPathSegment scope in if str_eqb s EmptyString then None else Some s.

Inductive mig_err : Type := MErrAttribution | MErrOrgGone | MErrNoDefault | MErrStore (e : reg_err) | MErrSink.

Section migration.
Context `{MapOrder}.

(** The tenant whose listed organisations have the id. *)
Definition tenant_of_org (byTenant : list (string * list Org)) (orgID : string) : option string :=
  fst <$> List.find (fun kv => negb (str_eqb kv.1 EmptyString) && existsb (fun o => str_eqb (og_ID o) orgID) kv.2)
            (shuffle byTenant).

Definition attribute_link (byTenant : list (string * list Org)) (m : gmap string string) (so : SiteOrg) : gmap string string :=
  match tenant_of_org byTenant (so_OrgID so) with Some t => <[so_Site so := t]> m | None => m end.

(** The second loop: [seenSites] only spares work, for a site that was seen is
    attributed. *)
Fixpoint attribute_assets (tenants : list Tenant) (paths : list string) (m : gmap string string) :
    result mig_err (gmap string string) :=
  match paths with
  | [] => Ok m
  | p :: paths =>
      let s := firstPathSegment p in
      if str_eqb s EmptyString then attribute_assets tenants paths m
      else match m !! s with
      | Some _ => attribute_assets tenants paths m
      | None =>
          match tenants with
          | [t] => attribute_assets tenants paths (<[s := tn_ID t]> m)
          | _ => Err MErrAttribution
          end
      end
  end.

Definition buildSiteTenantMap (tenants : list Tenant) (paths : list string) (links : list SiteOrg)
    (byTenant : list (string * list Org)) : result mig_err (gmap string string) :=
  attribute_assets tenants paths (foldl (attribute_link byTenant) ∅ links).

(** ** The run *)

(** What the surroundings do: the clock, the minted ids and the outcome of the save
    at each write, and the audit sink. *)
Record menv : Type := mkMenv {
  me_org : string -> wenv; me_site : string -> wenv; me_put : RoleBinding -> wenv;
  me_deleted : RoleBinding -> bool; me_sink : RoleBinding -> bool; me_ts : time
}.

(** The state of a run: the store, the sink, the report. *)
Record mig : Type := mkMig { mg_reg : registry; mg_sink : list RewriteDiff; mg_rep : MigrateReport }.

Definition on_reg (s : mig) (rg : registry) : mig := mkMig rg (mg_sink s) (mg_rep s).
Definition on_rep (s : mig) (r : MigrateReport) : mig := mkMig (mg_reg s) (mg_sink s) r.

(** A loop that stops at the first error. *)
Fixpoint each {A S : Type} (f : S -> A -> S * result mig_err unit) (l : list A) (s : S) : S * result mig_err unit :=
  match l with
  | [] => (s, Ok tt)
  | x :: l => match f s x with (s, Ok _) => each f l s | (s, Err e) => (s, Err e) end
  end.

(** Pass 1: the default organisation of a tenant. *)
Definition ensure_default (orgs : string -> list Org) (principal : string) (env : menv)
    (sd : mig * gmap string string) (t : Tenant) : (mig * gmap string string) * result mig_err unit :=
  let '(s, defaults) := sd in
  match CreateOrg (mg_reg s) (tn_ID t) "default" principal (me_org env (tn_ID t)) with
  | (rg, Ok o) => ((on_rep (on_reg s rg) (count_org (mg_rep s) true), <[tn_ID t := og_ID o]> defaults), Ok tt)
  | (rg, Err ErrOrgNameConflict) =>
      let s := on_rep (on_reg s rg) (count_org (mg_rep s) false) in
      match List.find (fun o => str_eqb (og_Name o) "default") (orgs (tn_ID t)) with
      | Some o => ((s, <[tn_ID t := og_ID o]> defaults), Ok tt)
      | None => ((s, defaults), Err MErrOrgGone)
      end
  | (rg, Err e) => ((on_reg s rg, defaults), Err (MErrStore e))
  end.

(** Pass 2: a site below the default organisation of its tenant. *)
Definition attach_site (links : list SiteOrg) (defaults : gmap string string) (principal : string) (env : menv)
    (s : mig) (st : string * string) : mig * result mig_err unit :=
  match defaults !! st.2 with
  | None => (s, Err MErrNoDefault)
  | Some orgID =>
      if existsb (fun so => str_eqb (so_Site so) st.1 && str_eqb (so_OrgID so) orgID) links
      then (on_rep s (count_site (mg_rep s) false), Ok tt)
      else match AttachSiteToOrg (mg_reg s) st.1 orgID principal (me_site env st.1) with
      | (rg, Ok _) => (on_rep (on_reg s rg) (count_site (mg_rep s) true), Ok tt)
      | (rg, Err e) => (on_reg s rg, Err (MErrStore e))
      end
  end.

(** Pass 3: a row of the bindings.  The new row is put before the old one goes. *)
Definition rewrite_binding (sites : gmap string string) (env : menv) (s : mig) (rb : RoleBinding) :
    mig * result mig_err unit :=
  if str_eqb (rb_Origin rb) "crn" then (on_rep s (count_skip (mg_rep s) true), Ok tt)
  else match legacyScopeSite (rb_Scope rb) ≫= (fun site => sites !! site) with
  | None => (on_rep s (count_skip (mg_rep s) false), Ok tt)
  | Some tenantID =>
      let newScope := crn_String (legacyToCRN (rb_Scope rb) tenantID) in
      if str_eqb (rb_Scope rb) newScope then (s, Ok tt)
      else
        let put := me_put env rb in
        let crnRow := mkBinding (we_id put) (rb_Subject rb) newScope "crn" (rb_CreatedAt rb) (we_now put) in
        match PutRoleBinding (mg_reg s) crnRow put with
        | (rg, Err e) => (on_reg s rg, Err (MErrStore e))
        | (rg, Ok _) =>
            match DeleteRoleBinding rg (rb_Subject rb) (rb_Scope rb) (me_deleted env rb) with
            | (rg, Err e) => (on_reg s rg, Err (MErrStore e))
            | (rg, Ok _) =>
                let d := mkDiff (me_ts env) (rb_Subject rb) (rb_Scope rb) newScope in
                if me_sink env rb then (mkMig rg (mg_sink s ++ [d]) (count_rewrite (mg_rep s) d), Ok tt)
                else (on_reg s rg, Err MErrSink)
            end
        end
  end.

(** The store is read once before anything is written; the bindings are read after the
    sites are attached. *)
Definition MigrateV11 (rg : registry) (assets : list string) (sink : list RewriteDiff) (principal : string) (env : menv) :
    mig * result mig_err unit :=
  let principal := if str_eqb principal EmptyString then "system:migrate-v11" else principal in
  let tenants := ListTenants rg in
  let s := mkMig rg sink (count_seen empty_report (Z.of_nat (length tenants)) 0) in
  let byTenant := map (fun t => (tn_ID t, ListOrgs rg (tn_ID t))) tenants in
  let links := ListSiteOrgs rg in
  match buildSiteTenantMap tenants assets links byTenant with
  | Err e => (s, Err e)
  | Ok sites =>
      match each (ensure_default (ListOrgs rg) principal env) tenants (s, ∅) with
      | ((s, _), Err e) => (s, Err e)
      | ((s, defaults), Ok _) =>
          match each (attach_site links defaults principal env) (shuffle (map_to_list sites)) s with
          | (s, Err e) => (s, Err e)
          | (s, Ok _) =>
              let rows := ListAllRoleBindings (mg_reg s) in
              each (rewrite_binding sites env) rows
                (on_rep s (count_seen (mg_rep s) 0 (Z.of_nat (length rows))))
          end
      end
  end.

(** ** The bindings of the configured principals *)

Definition LoadRoleBindingsInto (rg : registry) (seed : gmap string Principal) : gmap string Principal :=
  let rows (subject : string) := map rb_Scope (List.filter (fun rb =>
    negb (str_eqb (rb_Subject rb) EmptyString || str_eqb (rb_Scope rb) EmptyString) &&
    str_eqb (rb_Subject rb) subject) (ListAllRoleBindings rg)) in
  (fun p => mkPrincipal (p_Subject p) (p_Role p) (p_Scopes p ++ rows (p_Subject p)) None) <$> seed.

(** Every scope is compiled at boot; one that does not compile fails the boot. *)
Definition compile_entry (kv : string * Principal) : result scope_err (string * Principal) :=
  match compilePrincipalScopes kv.2 with Ok p => Ok (kv.1, p) | Err e => Err e end.
Fixpoint compile_entries (l : list (string * Principal)) : result scope_err (list (string * Principal)) :=
  match l with [] => Ok [] | kv :: l => kv ← compile_entry kv; l ← compile_entries l; Ok (kv :: l) end.
Definition NewStaticTokenVerifier (tokens : gmap string Principal) : result scope_err (gmap string Principal) :=
  l ← compile_entries (shuffle (map_to_list tokens)); Ok (list_to_map l).
(** [digest] is the hash of a token as text. *)
Definition Verify (digest : string -> string) (byHash : gmap string Principal) (raw : string) : option Principal :=
  if str_eqb raw EmptyString then None else byHash !! digest raw.
End migration.

(** ** The report on legacy use *)

Record ClosureReport : Type := mkClosure {
  cl_Days : Z; cl_Uses : Z; cl_FlagOpen : bool; cl_Ready : bool; cl_Evidence : bool }.
Definition ReportLegacyUse (mt : meter) (days : Z) : ClosureReport :=
  mkClosure (if (days <=? 0)%Z then 30 else days) (m_uses mt) (negb (m_closed mt)) (m_uses mt =? 0)%Z false.

(** ** A rewritten scope grants what it granted *)

Lemma pattern_bytes_piece x : all_bytes (fun c => is_alnum c || byte_eqb c "*") x = true ->
  x = "**" \/ contains "**" x = false -> crnValidPiece x = true.
Proof.
  intros Hb [->|Hc]; [done|]. unfold crnValidPiece, crnGlobSegRe, glob_byte. rewrite Hb, Hc. cbn [negb andb].
  rewrite andb_true_r. destruct (contains "*" x) eqn:Es; [by rewrite !orb_true_r|].
  assert (all_bytes is_alnum x = true) as ->; [|by rewrite !orb_true_r].
  clear Hc. induction x as [|c x IH]; [done|]. cbn [all_bytes contains] in Hb, Es |- *.
  apply andb_true_iff in Hb as [Hc Hb]. apply orb_false_iff in Es as [E1 E2].
  rewrite IH by done. destruct (byte_eqb c "*") eqn:Ec; [|by rewrite orb_false_r in Hc; rewrite Hc].
  apply byte_eqb_eq in Ec as ->. cbn in E1. by destruct x.
Qed.

Lemma slug_tid t : validTenantSlug t = true -> crnIsTidOrOid t = true.
Proof.
  unfold validTenantSlug, crnIsTidOrOid, crnTidOidRe. destruct t as [|c t]; [done|].
  destruct (_ || _) eqn:E; [done|]. intros Ht. apply orb_true_iff. right.
  apply orb_false_iff in E as [E1 E2]. cbn [str_len] in E1, E2.
  apply Nat.ltb_ge in E1, E2. destruct (is_lower c); [|done]. cbn [negb] in Ht.
  assert (all_bytes (fun d => is_alnum d || byte_eqb d "-") t = true) as ->.
  { eapply all_bytes_impl; [|exact Ht]. unfold slug_byte, is_alnum. by intros d. }
  cbn [andb]. apply andb_true_iff. split; apply Nat.leb_le; lia.
Qed.

Lemma crn_String_prefix c : has_prefix (crn_String c) "crn:" = true.
Proof. apply has_prefix_app. Qed.

Lemma rewritten_parts s g tid : CompileGlob s = Ok g -> validTenantSlug tid = true ->
  scope_parts (crn_String (legacyToCRN s tid)) = Ok (s, originCRN, tid).
Proof.
  intros Hg Ht. assert (Hok : is_ok (CompileGlob s) = true) by by rewrite Hg. apply CompileGlob_ok_iff in Hok.
  assert (Hne : s <> EmptyString) by (intros ->; inv Hok; by destruct H1).
  pose proof (legacy_dotPath s tid Hne) as Hd. revert Hd. unfold legacyToCRN.
  rewrite (proj2 (str_eqb_neq s EmptyString) Hne). destruct (split "." s) as [|sid tail] eqn:Es; [by apply split_not_nil in Es|].
  intros Hd. apply Forall_cons in Hok as [(Hs1 & Hs2 & Hs3) Htail].
  unfold scope_parts. rewrite crn_String_prefix, ParseCRN_String, Hd; [done| |].
  - split; [by apply slug_tid|]. split; [done|]. split.
    + unfold crnSiteRe, glob_byte. cbn [crn_sid]. by rewrite Hs2, (proj2 (str_eqb_neq sid EmptyString) Hs1).
    + eapply Forall_impl; [exact Htail|]. intros x (_ & ? & ?). by apply pattern_bytes_piece.
  - eapply Forall_impl; [exact Htail|]. by intros x (? & _).
Qed.

Definition compiles (s : string) : Prop := is_ok (compile_one s) = true.

(** The scope a legacy row is rewritten to, when it can be evaluated at all. *)
Lemma rewritten_scope s tid : has_prefix s "crn:" = false -> s <> EmptyString -> validTenantSlug tid = true -> compiles s ->
  let new := crn_String (legacyToCRN s tid) in
  compiles new /\ forall a path, grants new a path <-> grants s a path.
Proof.
  intros Hp Hne Ht Hc. cbv zeta.
  assert (Hs : scope_parts s = Ok (s, originLegacy, EmptyString)).
  { unfold scope_parts. rewrite Hp, legacy_dotPath by done. unfold legacyToCRN.
    rewrite (proj2 (str_eqb_neq s EmptyString) Hne). by destruct (split "." s). }
  unfold compiles, compile_one in Hc. rewrite Hs in Hc. cbn in Hc. destruct (CompileGlob s) as [g|] eqn:Hg; [|done].
  pose proof (rewritten_parts s g tid Hg Ht) as Hn. split.
  - unfold compiles, compile_one. rewrite Hn. cbn. rewrite Hg. by destruct (CompileGlob (s +:+ ".**")).
  - intros a path. unfold grants. rewrite Hn, Hs. split; intros (b & o & t & g' & [= <- <- <-] & H2 & H3); by do 4 eexists.
Qed.

(** ** The keys of the bindings *)

Definition keys (rg : registry) : list (string * string) := map binding_key (rg_bindings rg).

(** What the rows let a subject do, and that its boot succeeds. *)
Definition rows_allow (K : list (string * string)) (subject : string) (a : Action) (path : string) : Prop :=
  exists c, (subject, c) ∈ K /\ grants c a path.
Definition rows_compile (K : list (string * string)) (subject : string) : Prop := forall c, (subject, c) ∈ K -> compiles c.

(** Whoever could boot still can, with the same access. *)
Definition keeps (K K' : list (string * string)) : Prop := forall subject, rows_compile K subject ->
  rows_compile K' subject /\ forall a path, rows_allow K' subject a path <-> rows_allow K subject a path.

#[local] Instance keeps_refl : Reflexive keeps.
Proof. by intros K subject. Qed.
#[local] Instance keeps_trans : Transitive keeps.
Proof.
  intros K1 K2 K3 H12 H23 subject H1. destruct (H12 _ H1) as [H2 E2]. destruct (H23 _ H2) as [H3 E3].
  split; [done|]. intros a path. by rewrite E3, E2.
Qed.

(** A row is replaced by one that grants the same, in two writes. *)
Lemma keeps_put K K' subject old new : (subject, old) ∈ K ->
  (compiles old -> compiles new /\ forall a path, grants new a path <-> grants old a path) ->
  (forall k, k ∈ K' <-> k ∈ K \/ k = (subject, new)) -> keeps K K'.
Proof.
  intros Hold Hnew Hk s Hs. split.
  - intros c [H|[= -> ->]]%Hk; [by apply Hs|]. by apply Hnew, Hs.
  - intros a path. split; intros (c & Hc & Hg).
    + apply Hk in Hc as [Hc|[= -> ->]]; [by exists c|]. exists old. split; [done|]. by apply Hnew; [apply Hs|].
    + exists c. split; [apply Hk; by left|done].
Qed.

Lemma keeps_delete K K' subject old new : (subject, new) ∈ K -> (subject, old) ∈ K -> new <> old ->
  (compiles old -> compiles new /\ forall a path, grants new a path <-> grants old a path) ->
  (forall k, k ∈ K' <-> k ∈ K /\ k <> (subject, old)) -> keeps K K'.
Proof.
  intros Hnew Hold Hne Hg Hk s Hs. split; [intros c [H _]%Hk; by apply Hs|].
  intros a path. split; intros (c & Hc & Hp); [apply Hk in Hc as [Hc _]; by exists c|].
  destruct (decide ((s, c) = (subject, old))) as [[= -> ->]|Hn].
  - exists new. split; [apply Hk; split; [done|congruence]|]. by apply Hg; [apply Hs|].
  - exists c. split; [by apply Hk|done].
Qed.

Definition is_err {E A} (r : result E A) : Prop := exists e, r = Err e.

Lemma update_binding_key l rb now l' : update_binding l rb now = Some l' ->
  binding_key rb ∈ map binding_key l /\ map binding_key l' = map binding_key l.
Proof.
  revert l'. induction l as [|x l IH]; intros l'; cbn [update_binding]; [done|]. destruct (_ && _) eqn:E.
  - intros [= <-]. apply andb_true_iff in E as [E1%str_eqb_eq E2%str_eqb_eq]. split; [|done]. cbn [map].
    unfold binding_key at 1. rewrite <- E1, <- E2. by left.
  - destruct (update_binding l rb now) as [l1|]; [|done]. intros [= <-]. destruct (IH _ eq_refl) as [H1 H2].
    cbn [map]. rewrite H2. split; [by right|done].
Qed.

Lemma PutRoleBinding_keys rg rb env rg' r : rb_Origin rb = "crn" -> PutRoleBinding rg rb env = (rg', r) ->
  (rg' = rg /\ is_err r) \/
  (r = Ok tt /\ (exists l, rg' = with_bindings rg l) /\ forall k, k ∈ keys rg' <-> k ∈ keys rg \/ k = binding_key rb).
Proof.
  intros Ho. unfold PutRoleBinding. rewrite Ho. destruct (_ || _); [intros [= <- <-]; left; split; [done|by eexists]|].
  change (str_eqb "crn" EmptyString) with false. cbv iota.
  destruct (update_binding _ _ _) as [l|] eqn:Hu; destruct (we_saved env); intros [= <- <-].
  - right. split; [done|]. split; [by eexists|]. apply update_binding_key in Hu as [Hin Hk].
    unfold keys. cbn [with_bindings rg_bindings]. rewrite Hk. intros k. split; [by left|]. by intros [?| ->].
  - left. rewrite with_bindings_same. split; [done|by eexists].
  - right. split; [done|]. split; [by eexists|]. intros k. unfold keys. cbn [with_bindings rg_bindings].
    rewrite map_app, elem_of_app. cbn [map]. by rewrite list_elem_of_singleton.
  - left. rewrite truncate_app, with_bindings_same. split; [done|by eexists].
Qed.

Lemma cut_binding_cases l s c :
  match cut_binding l s c with
  | Some (b, x, a) => l = b ++ x :: a /\ binding_key x = (s, c)
  | None => (s, c) ∉ map binding_key l
  end.
Proof.
  induction l as [|y l IH]; cbn [cut_binding map]; [apply not_elem_of_nil|]. destruct (_ || _) eqn:E.
  - assert (binding_key y <> (s, c)) as Hy.
    { unfold binding_key. intros [= E1 E2]. by rewrite E1, E2, !str_eqb_refl in E. }
    destruct (cut_binding l s c) as [[[b x] a]|]; cbn; [by destruct IH as [-> ?]|].
    by apply not_elem_of_cons.
  - apply orb_false_iff in E as [E1%negb_false_iff%str_eqb_eq E2%negb_false_iff%str_eqb_eq].
    split; [done|]. unfold binding_key. congruence.
Qed.

Lemma DeleteRoleBinding_keys rg s c saved rg' r : NoDup (keys rg) -> DeleteRoleBinding rg s c saved = (rg', r) ->
  (rg' = rg /\ is_err r) \/
  (r = Ok tt /\ (exists l, rg' = with_bindings rg l) /\ forall k, k ∈ keys rg' <-> k ∈ keys rg /\ k <> (s, c)).
Proof.
  intros Hnd. unfold DeleteRoleBinding. destruct (_ || _); [intros [= <- <-]; left; split; [done|by eexists]|].
  pose proof (cut_binding_cases (rg_bindings rg) s c) as Hcut.
  destruct (cut_binding _ _ _) as [[[b x] a]|]; [destruct Hcut as [Hl Hx]; destruct saved|]; intros [= <- <-].
  - right. split; [done|]. split; [by eexists|]. intros k. unfold keys in Hnd |- *. cbn [with_bindings rg_bindings].
    rewrite Hl, !map_app in *. cbn [map] in *. rewrite Hx in *. rewrite !elem_of_app, elem_of_cons.
    apply NoDup_app in Hnd as (Hb & Hdisj & [Hna _]%NoDup_cons). split.
    + intros [Hk|Hk]; [split; [by left|]|split; [by right; right|]]; intros ->; [|done]. apply (Hdisj _ Hk). by left.
    + intros [[?|[?|?]] ?]; [by left|done|by right].
  - left. rewrite <- Hl, with_bindings_same. split; [done|by eexists].
  - right. split; [done|]. split; [exists (rg_bindings rg); by rewrite with_bindings_same|]. intros k.
    split; [intros Hk; split; [done|by intros ->]|by intros [? _]].
Qed.

(** No write makes a row with the old origin. *)
Lemma PutRoleBinding_rows rg rb env rg' r x : rb_Origin rb = "crn" -> PutRoleBinding rg rb env = (rg', r) ->
  x ∈ rg_bindings rg' -> x ∈ rg_bindings rg \/ rb_Origin x = "crn".
Proof.
  intros Ho. unfold PutRoleBinding. rewrite Ho. destruct (_ || _); [intros [= <- _]; by left|].
  change (str_eqb "crn" EmptyString) with false. cbv iota.
  destruct (update_binding _ _ _) as [l|] eqn:Hu; destruct (we_saved env); intros [= <- _];
    rewrite ?truncate_app, ?with_bindings_same; try (by left); cbn [with_bindings rg_bindings].
  - apply update_binding_Some in Hu as (b & o & a & n & -> & -> & _ & Hn).
    cbn [with_bindings rg_bindings]. rewrite !elem_of_app, !elem_of_cons. intros [?|[->|?]]; [left; by left|by right|left; right; by right].
  - rewrite elem_of_app, list_elem_of_singleton. intros [?| ->]; [by left|by right].
Qed.

Lemma DeleteRoleBinding_rows rg s c saved rg' r x : DeleteRoleBinding rg s c saved = (rg', r) ->
  x ∈ rg_bindings rg' -> x ∈ rg_bindings rg.
Proof.
  unfold DeleteRoleBinding. destruct (_ || _); [by intros [= <- _]|].
  destruct (cut_binding _ _ _) as [[[b o] a]|] eqn:Hc; [|by intros [= <- _]]. apply cut_binding_Some in Hc as ->.
  destruct saved; intros [= <- _]; cbn [with_bindings rg_bindings]; [|done]. rewrite !elem_of_app, elem_of_cons. tauto.
Qed.

(** ** The third pass *)

(** The sites are plain names and the tenants are known ones. *)
Definition sites_ok (sites : gmap string string) : Prop := forall site t, sites !! site = Some t ->
  no_byte ":" site = true /\ validTenantSlug t = true.

Definition only_bindings (rg rg' : registry) : Prop := exists l, rg' = with_bindings rg l.
#[local] Instance only_bindings_refl : Reflexive only_bindings.
Proof. intros rg. exists (rg_bindings rg). by rewrite with_bindings_same. Qed.
#[local] Instance only_bindings_trans : Transitive only_bindings.
Proof. by intros r1 r2 r3 [l1 ->] [l2 ->]; exists l2. Qed.

Lemma site_no_crn s site : legacyScopeSite s = Some site -> no_byte ":" site = true -> has_prefix s "crn:" = false.
Proof.
  unfold legacyScopeSite. destruct (str_eqb _ _); [done|]. intros [= <-] Hn. destruct (has_prefix s "crn:") eqn:Hp; [|done].
  apply has_prefix_split in Hp as [r ->]. done.
Qed.

Lemma site_nonempty s site : legacyScopeSite s = Some site -> s <> EmptyString.
Proof. by intros H ->. Qed.

(** The target of a row, or [None] where the row stays as it is. *)
Definition target (sites : gmap string string) (rb : RoleBinding) : option string :=
  if str_eqb (rb_Origin rb) "crn" then None
  else (fun t => crn_String (legacyToCRN (rb_Scope rb) t)) <$> (legacyScopeSite (rb_Scope rb) ≫= (fun site => sites !! site)).

Lemma target_grants sites rb new : sites_ok sites -> target sites rb = Some new -> new <> rb_Scope rb /\
  (compiles (rb_Scope rb) -> compiles new /\ forall a path, grants new a path <-> grants (rb_Scope rb) a path).
Proof.
  unfold target. intros Hok. destruct (str_eqb _ _); [done|]. destruct (legacyScopeSite _) as [site|] eqn:Es; [|done].
  cbn [mbind option_bind]. destruct (sites !! site) as [t|] eqn:Et; [|done]. cbn [fmap option_fmap option_map].
  intros Hn%(inj Some). subst new. destruct (Hok _ _ Et) as [Hc Ht].
  pose proof (site_no_crn _ _ Es Hc) as Hp. split.
  - intros E. by rewrite <- E, crn_String_prefix in Hp.
  - apply rewritten_scope; [done|by eapply site_nonempty|done].
Qed.

Lemma rewrite_step sites env s rb s' r : sites_ok sites -> registry_ok (mg_reg s) -> binding_key rb ∈ keys (mg_reg s) ->
  rewrite_binding sites env s rb = (s', r) ->
  only_bindings (mg_reg s) (mg_reg s') /\ registry_ok (mg_reg s') /\ keeps (keys (mg_reg s)) (keys (mg_reg s')) /\
  (forall k, k <> binding_key rb -> k ∈ keys (mg_reg s) -> k ∈ keys (mg_reg s')) /\
  (r = Ok tt -> is_Some (target sites rb) -> binding_key rb ∉ keys (mg_reg s')) /\
  (forall x, x ∈ rg_bindings (mg_reg s') -> x ∈ rg_bindings (mg_reg s) \/ rb_Origin x = "crn").
Proof.
  intros Hs Hok Hin. unfold rewrite_binding. pose proof (target_grants sites rb) as Htg. revert Htg. unfold target.
  destruct (str_eqb (rb_Origin rb) "crn");
    [intros _ [= <- <-]; split_and!; [done..|by intros _ [? ?]|by left]|].
  destruct (legacyScopeSite _ ≫= _) as [t|]; cbn [fmap option_fmap option_map];
    [|intros _ [= <- <-]; split_and!; [done..|by intros _ [? ?]|by left]].
  set (new := crn_String _). intros Htg. specialize (Htg _ Hs eq_refl) as [Hne Hg].
  rewrite (proj2 (str_eqb_neq (rb_Scope rb) new)) by congruence.
  set (row := mkBinding _ _ new _ _ _). destruct (PutRoleBinding _ _ _) as [rg1 r1] eqn:Ep.
  assert (Hok1 : registry_ok rg1).
  { destruct (PutRoleBinding_change _ row _ EmptyString _ _ (or_intror eq_refl) Ep) as [t' Hch].
    by eapply change_ok. }
  pose proof (fun x => PutRoleBinding_rows _ row _ _ _ x eq_refl Ep) as Hx1.
  apply PutRoleBinding_keys in Ep as [[-> [e ->]]|(-> & Hf1 & Hk1)];
    [intros [= <- <-]; split_and!; [done..|by left]| |done].
  change (binding_key row) with (rb_Subject rb, new) in Hk1.
  assert (K1 : keeps (keys (mg_reg s)) (keys rg1)) by by eapply keeps_put.
  destruct (DeleteRoleBinding _ _ _ _) as [rg2 r2] eqn:Ed.
  assert (Hok2 : registry_ok rg2).
  { destruct (DeleteRoleBinding_change _ _ _ _ EmptyString _ _ Ed) as [t' Hch]. by eapply change_ok. }
  assert (Hx2 : forall x, x ∈ rg_bindings rg2 -> x ∈ rg_bindings (mg_reg s) \/ rb_Origin x = "crn").
  { intros x Hx. by eapply Hx1, DeleteRoleBinding_rows. }
  apply DeleteRoleBinding_keys in Ed as [[-> [e ->]]|(-> & Hf2 & Hk2)]; [| |apply Hok1].
  - intros [= <- <-]. cbn. split_and!; [done..| |done|done]. intros k _ Hk. apply Hk1. by left.
  - assert (K2 : keeps (keys rg1) (keys rg2)).
    { eapply keeps_delete; [| |exact Hne|exact Hg|exact Hk2]; apply Hk1; [by right|by left]. }
    assert (Hall : only_bindings (mg_reg s) rg2 /\ registry_ok rg2 /\ keeps (keys (mg_reg s)) (keys rg2) /\
      (forall k, k <> binding_key rb -> k ∈ keys (mg_reg s) -> k ∈ keys rg2) /\ binding_key rb ∉ keys rg2).
    { split; [by etrans|]. split; [done|]. split; [by etrans|]. split.
      - intros k Hn Hk. apply Hk2. split; [apply Hk1; by left|done].
      - intros [_ Hk]%Hk2. done. }
    destruct Hall as (? & ? & ? & ? & ?). destruct (me_sink env rb); intros [= <- <-]; cbn; by split_and!.
Qed.

(** A pass keeps everyone's access wherever it stops, and when it ends no row is left
    that has a target. *)
Lemma rewrite_pass sites env l s s' r : sites_ok sites -> registry_ok (mg_reg s) -> NoDup (map binding_key l) ->
  (forall k, k ∈ map binding_key l -> k ∈ keys (mg_reg s)) ->
  (forall x, x ∈ rg_bindings (mg_reg s) -> target sites x = None \/ x ∈ l) ->
  each (rewrite_binding sites env) l s = (s', r) ->
  only_bindings (mg_reg s) (mg_reg s') /\ registry_ok (mg_reg s') /\ keeps (keys (mg_reg s)) (keys (mg_reg s')) /\
  (r = Ok tt -> forall x, x ∈ rg_bindings (mg_reg s') -> target sites x = None).
Proof.
  intros Hs. revert s. induction l as [|rb l IH]; intros s Hok Hnd Hin Hrows; cbn [each].
  { intros [= <- <-]. split_and!; [done..|]. intros _ x Hx. by destruct (Hrows x Hx) as [?|?%elem_of_nil]. }
  cbn [map] in Hnd, Hin. apply NoDup_cons in Hnd as [Hn Hnd].
  destruct (rewrite_binding sites env s rb) as [s1 r1] eqn:E.
  destruct (rewrite_step _ _ _ _ _ _ Hs Hok (Hin _ ltac:(by left)) E) as (F1 & Hok1 & K1 & Hk1 & Hgone & Hx1).
  destruct r1 as [[]|e]; [|by intros [= <- <-]]. intros Hl.
  destruct (IH s1) as (F2 & Hok2 & K2 & Hend); [done|done| | |done|split_and!; [by etrans|done|by etrans|done]].
  - intros k Hk. apply Hk1; [by intros ->|]. apply Hin. by right.
  - intros x Hx. assert (Hcrn : rb_Origin x = "crn" -> target sites x = None) by (unfold target; by intros ->).
    destruct (Hx1 x Hx) as [H1|H1]; [|by auto]. destruct (Hrows x H1) as [?|[->|?]%elem_of_cons]; [by left| |by right].
    left. destruct (target sites rb) eqn:Et; [|done]. exfalso. apply (Hgone eq_refl); [by eexists|].
    unfold keys. by apply (list_elem_of_fmap_2 binding_key).
Qed.

(** A pass over rows without a target writes nothing. *)
Lemma rewrite_idle sites env l s : (forall x, x ∈ l -> target sites x = None) ->
  exists rep, each (rewrite_binding sites env) l s = (on_rep s rep, Ok tt) /\
    rp_RBRewritten rep = rp_RBRewritten (mg_rep s) /\ rp_Diffs rep = rp_Diffs (mg_rep s) /\
    rp_OrgsEnsured rep = rp_OrgsEnsured (mg_rep s) /\ rp_SitesAttached rep = rp_SitesAttached (mg_rep s).
Proof.
  revert s. induction l as [|rb l IH]; intros s Hl; cbn [each]; [exists (mg_rep s); by destruct s|].
  pose proof (Hl rb ltac:(by left)) as Ht. unfold target in Ht. unfold rewrite_binding at 1.
  destruct (str_eqb (rb_Origin rb) "crn"); [|destruct (legacyScopeSite _ ≫= _); [done|]];
    (edestruct IH as (rep & -> & E1 & E2 & E3 & E4); [intros x Hx; apply Hl; by right|]); exists rep; by split_and!.
Qed.

(** ** What the store lists *)

Lemma map_to_list_omap {A} (m : gmap string A) (x : A) :
  x ∈ omap (fun k => m !! k) (sort_strings (map fst (map_to_list m))) <-> exists k, m !! k = Some x.
Proof.
  rewrite list_elem_of_omap. split; [intros (k & _ & Hk); by exists k|]. intros [k Hk]. exists k. split; [|done].
  apply sort_strings_in, list_elem_of_fmap. exists (k, x).
  split; [done|]. by apply elem_of_map_to_list.
Qed.

(** Rows that carry their own keys. *)
Lemma listed_NoDup {A} (f : A -> string) (m : gmap string A) : (forall k x, m !! k = Some x -> f x = k) ->
  NoDup (map f (omap (fun k => m !! k) (sort_strings (map fst (map_to_list m))))).
Proof.
  intros Hf. assert (Hks : forall k, k ∈ sort_strings (map fst (map_to_list m)) -> is_Some (m !! k)).
  { intros k ([k' x] & -> & Hin%elem_of_map_to_list)%in_sort_strings%list_elem_of_fmap. by eexists. }
  assert (Hnd : NoDup (sort_strings (map fst (map_to_list m)))) by (rewrite sort_strings_perm; apply NoDup_fst_map_to_list).
  assert (Heq : map f (omap (fun k => m !! k) (sort_strings (map fst (map_to_list m)))) = sort_strings (map fst (map_to_list m)));
    [|by rewrite Heq].
  clear Hnd. induction (sort_strings (map fst (map_to_list m))) as [|k ks IH]; [done|]. cbn.
  destruct (Hks k ltac:(by left)) as [x Hx]. rewrite Hx. cbn. rewrite IH by (intros; apply Hks; by right).
  by rewrite (Hf _ _ Hx).
Qed.

Lemma ListTenants_elem rg t : registry_ok rg -> t ∈ ListTenants rg <-> rg_tenants rg !! tn_ID t = Some t.
Proof.
  intros Hok. unfold ListTenants. rewrite map_to_list_omap. split; [|by eexists]. intros [k Hk].
  destruct (ro_tenant _ Hok _ _ Hk) as (<- & _). done.
Qed.

Lemma ListOrgs_elem rg tid o : o ∈ ListOrgs rg tid <-> og_TenantID o = tid /\ exists id, rg_orgs rg !! id = Some o.
Proof.
  unfold ListOrgs. rewrite merge_sort_Permutation, list_elem_of_In, filter_In, <- list_elem_of_In, list_elem_of_fmap, str_eqb_eq.
  split.
  - intros [([id o'] & -> & Hin%elem_of_map_to_list) Ht]. by split; [|exists id].
  - intros [Ht [id Hin]]. split; [|done]. exists (id, o). split; [done|]. by apply elem_of_map_to_list.
Qed.

Lemma ListSiteOrgs_elem rg so : registry_ok rg -> so ∈ ListSiteOrgs rg <-> rg_siteOrgs rg !! so_Site so = Some so.
Proof.
  intros Hok. unfold ListSiteOrgs. rewrite map_to_list_omap. split; [|by eexists]. intros [k Hk].
  destruct (ro_site _ Hok _ _ Hk) as (<- & _). done.
Qed.

Lemma ListAll_elem rg rb : rb ∈ ListAllRoleBindings rg <-> rb ∈ rg_bindings rg.
Proof. unfold ListAllRoleBindings. by rewrite merge_sort_Permutation. Qed.

(** ** The attribution of sites *)

(** The tenant of the organisation a site is linked to. *)
Definition owner (rg : registry) (site : string) : option string :=
  so ← rg_siteOrgs rg !! site; og_TenantID <$> rg_orgs rg !! so_OrgID so.
Definition by_tenant (rg : registry) : list (string * list Org) :=
  map (fun t => (tn_ID t, ListOrgs rg (tn_ID t))) (ListTenants rg).

Section attribution.
Context `{MapOrderOk}.

Lemma tenant_of_org_spec rg id : registry_ok rg -> tenant_of_org (by_tenant rg) id = og_TenantID <$> rg_orgs rg !! id.
Proof using Type*.
  intros Hok. unfold tenant_of_org. destruct (List.find _ _) as [[tid os]|] eqn:Ef.
  - apply List.find_some in Ef as [Hin Hf]. apply list_elem_of_In in Hin. rewrite shuffle_perm in Hin.
    apply list_elem_of_fmap in Hin as (t & [= -> ->] & Ht). cbn in Hf |- *.
    apply andb_true_iff in Hf as [_ (o & Ho%list_elem_of_In & E%str_eqb_eq)%List.existsb_exists].
    apply ListOrgs_elem in Ho as [Et [k Hk]]. destruct (ro_org _ Hok _ _ Hk) as (<- & _).
    rewrite <- E, Hk. cbn. by rewrite Et.
  - destruct (rg_orgs rg !! id) as [o|] eqn:Eo; [|done]. exfalso. destruct (ro_org _ Hok _ _ Eo) as (Hid & [t Ht] & _).
    destruct (ro_tenant _ Hok _ _ Ht) as (Eid & Hs%slug_nonempty & _).
    assert (Hin : In (tn_ID t, ListOrgs rg (tn_ID t)) (shuffle (by_tenant rg))).
    { apply list_elem_of_In. rewrite shuffle_perm. apply list_elem_of_fmap. exists t. split; [done|].
      apply ListTenants_elem; [done|]. by rewrite Eid. }
    pose proof (List.find_none _ _ Ef _ Hin) as Hn. cbn [fst snd] in Hn.
    rewrite Eid, (proj2 (str_eqb_neq _ _) Hs) in Hn. cbn [negb andb] in Hn. apply not_true_iff_false in Hn. apply Hn.
    apply List.existsb_exists. exists o. split; [|by apply str_eqb_eq]. apply list_elem_of_In, ListOrgs_elem. eauto.
Qed.

Lemma attribute_links rg l m site : registry_ok rg -> NoDup (map so_Site l) ->
  foldl (attribute_link (by_tenant rg)) m l !! site =
  match List.find (fun so => str_eqb (so_Site so) site) l with
  | Some so => match og_TenantID <$> rg_orgs rg !! so_OrgID so with Some t => Some t | None => m !! site end
  | None => m !! site
  end.
Proof using Type*.
  intros Hok. revert m. induction l as [|so l IH]; intros m Hnd; cbn [foldl List.find map] in *; [done|].
  apply NoDup_cons in Hnd as [Hn Hnd]. rewrite IH by done. unfold attribute_link. rewrite tenant_of_org_spec by done.
  destruct (str_eqb (so_Site so) site) eqn:E.
  - apply str_eqb_eq in E as <-. destruct (List.find _ l) as [so'|] eqn:Ef.
    { apply List.find_some in Ef as [Hin%list_elem_of_In E%str_eqb_eq]. destruct Hn. rewrite <- E.
      by apply (list_elem_of_fmap_2 so_Site). }
    destruct (rg_orgs rg !! so_OrgID so); cbn; [by rewrite lookup_insert_eq|done].
  - apply str_eqb_neq in E. destruct (rg_orgs rg !! so_OrgID so); cbn; [by rewrite !lookup_insert_ne by done|done].
Qed.

Lemma ListSiteOrgs_NoDup rg : registry_ok rg -> NoDup (map so_Site (ListSiteOrgs rg)).
Proof using Type. intros Hok. apply listed_NoDup. intros k so Hk. by destruct (ro_site _ Hok _ _ Hk) as (<- & _). Qed.

Lemma attributed_owner rg site : registry_ok rg ->
  foldl (attribute_link (by_tenant rg)) ∅ (ListSiteOrgs rg) !! site = owner rg site.
Proof using Type*.
  intros Hok. rewrite attribute_links by auto using ListSiteOrgs_NoDup. unfold owner.
  destruct (List.find _ _) as [so|] eqn:Ef.
  - apply List.find_some in Ef as [Hin%list_elem_of_In E%str_eqb_eq]. apply ListSiteOrgs_elem in Hin; [|done].
    rewrite E in Hin. rewrite Hin. cbn. by destruct (rg_orgs rg !! so_OrgID so).
  - rewrite lookup_empty. destruct (rg_siteOrgs rg !! site) as [so|] eqn:Es; [|done]. exfalso.
    destruct (ro_site _ Hok _ _ Es) as (E & _). pose proof (List.find_none _ _ Ef so) as Hn. cbn in Hn.
    rewrite E, str_eqb_refl in Hn. discriminate Hn. apply list_elem_of_In, ListSiteOrgs_elem; [done|]. by rewrite E.
Qed.
End attribution.

Lemma attribute_assets_spec tenants paths m m' : attribute_assets tenants paths m = Ok m' ->
  (forall s t, m !! s = Some t -> m' !! s = Some t) /\
  (forall s t, m' !! s = Some t -> m !! s = Some t \/
     (exists p, p ∈ paths /\ firstPathSegment p = s) /\ exists tn, tn ∈ tenants /\ tn_ID tn = t) /\
  (forall p, p ∈ paths -> firstPathSegment p <> EmptyString -> is_Some (m' !! firstPathSegment p)).
Proof.
  revert m. induction paths as [|p paths IH]; intros m; cbn [attribute_assets].
  { intros [= <-]. split_and!; [done|by left|by intros ? ?%elem_of_nil]. }
  assert (Hweak : (forall s t, m' !! s = Some t -> m !! s = Some t \/
      (exists p, p ∈ paths /\ firstPathSegment p = s) /\ exists tn, tn ∈ tenants /\ tn_ID tn = t) ->
    forall s t, m' !! s = Some t -> m !! s = Some t \/
      (exists p', p' ∈ p :: paths /\ firstPathSegment p' = s) /\ exists tn, tn ∈ tenants /\ tn_ID tn = t).
  { intros Hw s t Hs. destruct (Hw s t Hs) as [?|[(p' & Hp' & ?) ?]]; [by left|right]. split; [|done].
    exists p'. split; [by right|done]. }
  destruct (str_eqb (firstPathSegment p) EmptyString) eqn:E.
  - intros H0. destruct (IH _ H0) as (H1 & H2 & H3). split_and!; [done|auto|].
    intros p' [->|Hp']%elem_of_cons; [|by apply H3]. by apply str_eqb_eq in E.
  - destruct (m !! firstPathSegment p) as [t0|] eqn:El.
    + intros H0. destruct (IH _ H0) as (H1 & H2 & H3). split_and!; [done|auto|].
      intros p' [->|Hp']%elem_of_cons; [|by apply H3]. intros _. exists t0. by apply H1.
    + destruct tenants as [|tn [|]]; [done| |done]. intros H0. destruct (IH _ H0) as (H1 & H2 & H3). split_and!.
      * intros s t Hs. apply H1. rewrite lookup_insert_ne; [done|congruence].
      * intros s t Hs. destruct (H2 s t Hs) as [[[<- <-]|[_ ?]]%lookup_insert_Some|[(p' & Hp' & ?) ?]]; [|by left|].
        -- right. split; [exists p; split; [by left|done]|]. exists tn. split; [by left|done].
        -- right. split; [|done]. exists p'. split; [by right|done].
      * intros p' [->|Hp']%elem_of_cons; [|by apply H3]. intros _. eexists. apply H1, lookup_insert_eq.
Qed.

Lemma attribute_assets_done tenants paths m :
  (forall p, p ∈ paths -> firstPathSegment p <> EmptyString -> is_Some (m !! firstPathSegment p)) ->
  attribute_assets tenants paths m = Ok m.
Proof.
  induction paths as [|p paths IH]; intros Hp; cbn [attribute_assets]; [done|].
  assert (Hrest : attribute_assets tenants paths m = Ok m) by (apply IH; intros p' Hp'; apply Hp; by right).
  destruct (str_eqb _ _) eqn:E; [done|]. apply str_eqb_neq in E. by destruct (Hp p ltac:(by left) E) as [t ->].
Qed.

Lemma slug_plain s : validSiteSlug s = true -> no_byte ":" s = true.
Proof.
  unfold validSiteSlug. destruct (_ || _) eqn:E; [done|]. apply orb_false_iff in E as [E1%Nat.ltb_ge _].
  destruct (all_bytes is_digit _) eqn:Hd; [|done]. cbn [negb]. destruct (str_eqb _ "00"); [done|]. intros Hl.
  rewrite <- (substring_split s (str_len s - 2)) by lia. unfold no_byte. rewrite all_bytes_app. apply andb_true_iff. split.
  - eapply all_bytes_impl; [|exact Hl]. intros c Hc. apply negb_true_iff, byte_eqb_neq. by intros ->.
  - replace (str_len s - (str_len s - 2)) with 2 by lia.
    eapply all_bytes_impl; [|exact Hd]. intros c Hc. apply negb_true_iff, byte_eqb_neq. by intros ->.
Qed.

Section attribution_facts.
Context `{MapOrderOk}.

(** The attribution: a linked site belongs to the tenant of its organisation, every
    site of an asset is attributed, and nothing else is. *)
Lemma build_spec rg paths sites : registry_ok rg ->
  buildSiteTenantMap (ListTenants rg) paths (ListSiteOrgs rg) (by_tenant rg) = Ok sites ->
  (forall s t, owner rg s = Some t -> sites !! s = Some t) /\
  (forall s t, sites !! s = Some t -> is_Some (rg_tenants rg !! t) /\
     (owner rg s = Some t \/ exists p, p ∈ paths /\ firstPathSegment p = s)) /\
  (forall p, p ∈ paths -> firstPathSegment p <> EmptyString -> is_Some (sites !! firstPathSegment p)).
Proof using Type*.
  intros Hok Hb. unfold buildSiteTenantMap in Hb. apply attribute_assets_spec in Hb as (H1 & H2 & H3).
  split; [|split; [|done]].
  - intros s t Ho. apply H1. by rewrite attributed_owner.
  - intros s t Hs. destruct (H2 s t Hs) as [Ho|[Hp (tn & Ht & <-)]].
    + rewrite attributed_owner in Ho by done. split; [|by left]. unfold owner in Ho.
      destruct (rg_siteOrgs rg !! s) as [so|]; [|done]. cbn in Ho. destruct (rg_orgs rg !! so_OrgID so) as [o|] eqn:Eo; [|done].
      injection Ho as <-. by destruct (ro_org _ Hok _ _ Eo) as (_ & ? & _).
    + split; [|by right]. apply ListTenants_elem in Ht; [|done]. by eexists.
Qed.

Lemma build_sites_ok rg paths sites : registry_ok rg -> (forall p, p ∈ paths -> no_byte ":" (firstPathSegment p) = true) ->
  buildSiteTenantMap (ListTenants rg) paths (ListSiteOrgs rg) (by_tenant rg) = Ok sites -> sites_ok sites.
Proof using Type*.
  intros Hok Hp Hb site t Hs. destruct (build_spec _ _ _ Hok Hb) as (_ & H2 & _).
  destruct (H2 _ _ Hs) as [[tn Ht] Ho]. split; [|by destruct (ro_tenant _ Hok _ _ Ht) as (_ & ? & _)].
  destruct Ho as [Ho|(p & Hin & <-)]; [|by apply Hp]. unfold owner in Ho.
  destruct (rg_siteOrgs rg !! site) as [so|] eqn:Es; [|done]. apply slug_plain. by destruct (ro_site _ Hok _ _ Es) as (_ & ? & _).
Qed.

(** Attributing again, when every attributed site is linked below its tenant. *)
Lemma build_again rg rg' paths sites : registry_ok rg -> registry_ok rg' ->
  buildSiteTenantMap (ListTenants rg) paths (ListSiteOrgs rg) (by_tenant rg) = Ok sites ->
  (forall s, owner rg' s = sites !! s) ->
  buildSiteTenantMap (ListTenants rg') paths (ListSiteOrgs rg') (by_tenant rg') = Ok sites.
Proof using Type*.
  intros Hok Hok' Hb Ho. destruct (build_spec _ _ _ Hok Hb) as (_ & _ & H3). unfold buildSiteTenantMap.
  assert (foldl (attribute_link (by_tenant rg')) ∅ (ListSiteOrgs rg') = sites) as ->.
  { apply map_eq. intros s. by rewrite attributed_owner. }
  by apply attribute_assets_done.
Qed.
End attribution_facts.

(** ** The first two passes *)

(** Only organisations were added. *)
Record grown (rg rg' : registry) : Prop := mkGrown {
  gr_tenants : rg_tenants rg' = rg_tenants rg; gr_bindings : rg_bindings rg' = rg_bindings rg;
  gr_sites : rg_siteOrgs rg' = rg_siteOrgs rg; gr_orgs : rg_orgs rg ⊆ rg_orgs rg' }.
#[local] Instance grown_refl : Reflexive grown.
Proof. by intros rg; split. Qed.
#[local] Instance grown_trans : Transitive grown.
Proof. intros r1 r2 r3 [? ? ? ?] [? ? ? ?]. split; [congruence..|by etrans]. Qed.

(** The default organisation of a tenant. *)
Definition default_of (rg : registry) (tid d : string) : Prop :=
  exists o, rg_orgs rg !! d = Some o /\ og_TenantID o = tid /\ og_Name o = "default".
Definition defaults_ok (rg : registry) (defaults : gmap string string) : Prop :=
  forall tid d, defaults !! tid = Some d -> default_of rg tid d.

Lemma default_grown rg rg' tid d : grown rg rg' -> default_of rg tid d -> default_of rg' tid d.
Proof. intros Hg (o & Ho & ?). exists o. split; [by eapply lookup_weaken, gr_orgs|done]. Qed.

Lemma defaults_insert rg defaults tid d : defaults_ok rg defaults -> default_of rg tid d ->
  defaults_ok rg (<[tid := d]> defaults).
Proof. intros Hd Ho t' d' [[<- <-]|[_ Hl]]%lookup_insert_Some; [done|by apply Hd]. Qed.

Lemma CreateOrg_cases rg tid principal env rg' r : rg_orgs rg !! we_id env = None ->
  CreateOrg rg tid "default" principal env = (rg', r) ->
  (exists e, r = Err e /\ rg' = rg) \/
  (exists o, r = Ok o /\ grown rg rg' /\ default_of rg' tid (og_ID o) /\ og_ID o = we_id env /\
     rg_orgs rg' = <[we_id env := o]> (rg_orgs rg)).
Proof.
  intros Hf. unfold CreateOrg. destruct (negb _); [intros [= <- <-]; left; by eexists|].
  destruct (rg_tenants rg !! tid); [|intros [= <- <-]; left; by eexists].
  destruct (some_row _ _); [intros [= <- <-]; left; by eexists|]. cbn [og_ID]. destruct (we_saved env); intros [= <- <-].
  - right. exists (mkOrg (we_id env) tid "default" (we_now env)). split; [done|]. split; [|split; [|done]].
    + split; cbn; [done..|]. by apply insert_subseteq.
    + eexists. split; [apply lookup_insert_eq|done].
  - left. eexists. split; [done|]. by rewrite truncate_app, undo_insert, with_orgs_same.
Qed.

Lemma ensure_step rg0 principal env s defaults t s' d' r :
  rg_orgs (mg_reg s) !! we_id (me_org env (tn_ID t)) = None -> registry_ok (mg_reg s) -> grown rg0 (mg_reg s) ->
  defaults_ok (mg_reg s) defaults -> ensure_default (ListOrgs rg0) principal env (s, defaults) t = ((s', d'), r) ->
  registry_ok (mg_reg s') /\ grown (mg_reg s) (mg_reg s') /\ defaults_ok (mg_reg s') d' /\
  (forall id, id <> we_id (me_org env (tn_ID t)) -> rg_orgs (mg_reg s) !! id = None -> rg_orgs (mg_reg s') !! id = None) /\
  (forall x, is_Some (defaults !! x) \/ (r = Ok tt /\ x = tn_ID t) -> is_Some (d' !! x)).
Proof.
  intros Hf Hok Hg Hd. unfold ensure_default. destruct (CreateOrg _ _ _ _ _) as [rg1 r1] eqn:Ec.
  assert (Hok1 : registry_ok rg1).
  { destruct (CreateOrg_change _ _ _ principal _ _ _ Hf Ec) as [->|Hch]; [done|by eapply change_ok]. }
  apply CreateOrg_cases in Ec as [(e & -> & ->)|(o & -> & Hgr & Ho & Eid & Eorgs)]; [| |done].
  - destruct e; try (intros [= <- <- <-]; split_and!; [done..|by auto|by intros x [?|[? _]]]).
    destruct (List.find _ _) as [o|] eqn:Ef; intros [= <- <- <-];
      [|split_and!; [done..|by auto|by intros x [?|[? _]]]].
    apply List.find_some in Ef as [Hin%list_elem_of_In%ListOrgs_elem En%str_eqb_eq]. destruct Hin as [Et [id Hid]].
    assert (Hid' : rg_orgs (mg_reg s) !! id = Some o) by by eapply lookup_weaken, gr_orgs.
    split_and!; [done..| |by auto|].
    + apply defaults_insert; [done|]. exists o. destruct (ro_org _ Hok _ _ Hid') as (-> & _). done.
    + intros x [?|[_ ->]]; [by apply is_Some_insert|rewrite lookup_insert_eq; by eexists].
  - intros [= <- <- <-]. split_and!; [done..| | |].
    + apply defaults_insert; [|done]. intros tid d Hl. by eapply default_grown, Hd.
    + intros id Hn Hl. cbn. by rewrite Eorgs, lookup_insert_ne.
    + intros x [?|[_ ->]]; [by apply is_Some_insert|rewrite lookup_insert_eq; by eexists].
Qed.

Definition org_id (env : menv) (t : Tenant) : string := we_id (me_org env (tn_ID t)).

Lemma ensure_pass rg0 principal env l s defaults s' d' r :
  NoDup (map (org_id env) l) -> (forall t, t ∈ l -> rg_orgs (mg_reg s) !! org_id env t = None) ->
  registry_ok (mg_reg s) -> grown rg0 (mg_reg s) -> defaults_ok (mg_reg s) defaults ->
  each (ensure_default (ListOrgs rg0) principal env) l (s, defaults) = ((s', d'), r) ->
  registry_ok (mg_reg s') /\ grown (mg_reg s) (mg_reg s') /\ defaults_ok (mg_reg s') d' /\
  (forall x, is_Some (defaults !! x) -> is_Some (d' !! x)) /\ (r = Ok tt -> forall t, t ∈ l -> is_Some (d' !! tn_ID t)).
Proof.
  revert s defaults. induction l as [|t l IH]; intros s defaults Hnd Hf Hok Hg Hd; cbn [each].
  { intros [= <- <- <-]. split_and!; [done..|]. by intros _ ? ?%elem_of_nil. }
  cbn [map] in Hnd. apply NoDup_cons in Hnd as [Hn Hnd].
  destruct (ensure_default _ _ _ _ t) as [[s1 d1] r1] eqn:E.
  destruct (ensure_step _ _ _ _ _ _ _ _ _ (Hf t ltac:(by left)) Hok Hg Hd E) as (Hok1 & Hg1 & Hd1 & Hf1 & Hs1).
  destruct r1 as [[]|e]; [|intros [= <- <- <-]; split_and!; [done..|by auto|done]].
  intros Hl. destruct (IH s1 d1) as (Hok2 & Hg2 & Hd2 & Hs2 & Hall); [done| |done|by etrans|done|done|].
  - intros t' Ht'. apply Hf1; [|apply Hf; by right]. intros E'. apply Hn. change (org_id env t' = org_id env t) in E'.
    rewrite <- E'. by apply (list_elem_of_fmap_2 (org_id env)).
  - split_and!; [done|by etrans|done|by auto|]. intros Hr t' [->|Ht']%elem_of_cons; [apply Hs2, Hs1; by right|by apply Hall].
Qed.

(** Only links of sites changed. *)
Record relinked (rg rg' : registry) : Prop := mkRelinked {
  rl_tenants : rg_tenants rg' = rg_tenants rg; rl_bindings : rg_bindings rg' = rg_bindings rg;
  rl_orgs : rg_orgs rg' = rg_orgs rg }.
#[local] Instance relinked_refl : Reflexive relinked.
Proof. by intros rg; split. Qed.
#[local] Instance relinked_trans : Transitive relinked.
Proof. intros r1 r2 r3 [? ? ?] [? ? ?]. split; congruence. Qed.

Lemma AttachSiteToOrg_cases rg site org principal env rg' r : AttachSiteToOrg rg site org principal env = (rg', r) ->
  relinked rg rg' /\ (forall s, s <> site -> rg_siteOrgs rg' !! s = rg_siteOrgs rg !! s) /\
  (r = Ok tt -> so_OrgID <$> rg_siteOrgs rg' !! site = Some org).
Proof.
  unfold AttachSiteToOrg. destruct (negb _); [by intros [= <- <-]|].
  destruct (rg_orgs rg !! org) as [o|]; [|by intros [= <- <-]].
  destruct (rg_siteOrgs rg !! site) as [cur|] eqn:Ecur.
  - destruct (str_eqb (so_OrgID cur) org) eqn:E.
    { intros [= <- <-]. split_and!; [done..|]. intros _. rewrite Ecur. cbn. f_equal. by apply str_eqb_eq. }
    destruct (we_saved env); intros [= <- <-]; cbn; split_and!; try done.
    + intros s Hs. by rewrite lookup_insert_ne.
    + intros _. by rewrite lookup_insert_eq.
    + intros s Hs. by rewrite !lookup_insert_ne.
  - destruct (we_saved env); intros [= <- <-]; cbn; split_and!; try done.
    + intros s Hs. by rewrite lookup_insert_ne.
    + intros _. by rewrite lookup_insert_eq.
    + intros s Hs. rewrite lookup_delete_ne by done. by rewrite lookup_insert_ne.
Qed.

(** Each site of the pass ends below its tenant's default organisation; the others
    stay where they are. *)
Lemma attach_pass links defaults principal env l s s' r :
  NoDup (map fst l) -> registry_ok (mg_reg s) ->
  (forall site, site ∈ map fst l -> forall so, so ∈ links -> so_Site so = site -> rg_siteOrgs (mg_reg s) !! site = Some so) ->
  each (attach_site links defaults principal env) l s = (s', r) ->
  registry_ok (mg_reg s') /\ relinked (mg_reg s) (mg_reg s') /\
  (forall site, site ∉ map fst l -> rg_siteOrgs (mg_reg s') !! site = rg_siteOrgs (mg_reg s) !! site) /\
  (r = Ok tt -> forall site t, (site, t) ∈ l -> exists d, defaults !! t = Some d /\
     so_OrgID <$> rg_siteOrgs (mg_reg s') !! site = Some d).
Proof.
  revert s. induction l as [|[site t] l IH]; intros s Hnd Hok Hl; cbn [each].
  { intros [= <- <-]. split_and!; [done..|]. by intros _ ? ? ?%elem_of_nil. }
  cbn [map fst] in Hnd, Hl |- *. apply NoDup_cons in Hnd as [Hn Hnd].
  assert (Hone : forall s1 r1, attach_site links defaults principal env s (site, t) = (s1, r1) ->
    registry_ok (mg_reg s1) /\ relinked (mg_reg s) (mg_reg s1) /\
    (forall x, x <> site -> rg_siteOrgs (mg_reg s1) !! x = rg_siteOrgs (mg_reg s) !! x) /\
    (r1 = Ok tt -> exists d, defaults !! t = Some d /\ so_OrgID <$> rg_siteOrgs (mg_reg s1) !! site = Some d)).
  { intros s1 r1. unfold attach_site. cbn [fst snd]. destruct (defaults !! t) as [d|]; [|by intros [= <- <-]].
    destruct (existsb _ links) eqn:Ex.
    - intros [= <- <-]. split_and!; [done..|]. intros _. exists d. split; [done|].
      apply List.existsb_exists in Ex as (so & Hin%list_elem_of_In & [E1%str_eqb_eq E2%str_eqb_eq]%andb_true_iff).
      cbn. rewrite (Hl site ltac:(by left) so) by done. cbn. by rewrite E2.
    - destruct (AttachSiteToOrg _ _ _ _ _) as [rg1 r2] eqn:Ea.
      assert (Hok1 : registry_ok rg1).
      { destruct (AttachSiteToOrg_change _ _ _ _ _ _ _ Ea) as [x Hch]. by eapply change_ok. }
      apply AttachSiteToOrg_cases in Ea as (H1 & H2 & H3). destruct r2 as [[]|e]; intros [= <- <-]; cbn;
        split_and!; [done|done|done| |done|done|done|done]. intros _. exists d. split; [done|by apply H3]. }
  destruct (attach_site _ _ _ _ s (site, t)) as [s1 r1] eqn:E. destruct (Hone _ _ eq_refl) as (Hok1 & Hr1 & Ho1 & Hd1).
  destruct r1 as [[]|e].
  2: { intros [= <- <-]. split_and!; [done..| |done]. intros x [Hx _]%not_elem_of_cons. by apply Ho1. }
  intros He. destruct (IH s1) as (Hok2 & Hr2 & Ho2 & Hd2); [done|done| |done|].
  - intros x Hx so Hin Hso. rewrite Ho1 by (intros ->; done). by apply Hl; [right|..].
  - split_and!; [done|by etrans| |].
    + intros x [Hx Hx']%not_elem_of_cons. rewrite Ho2 by done. by apply Ho1.
    + intros Hr x u [[= -> ->]|Hin]%elem_of_cons; [|by apply Hd2]. destruct (Hd1 eq_refl) as (d & ? & ?).
      exists d. split; [done|]. by rewrite Ho2.
Qed.

(** ** The run *)

Lemma keys_NoDup rg : registry_ok rg -> NoDup (map binding_key (ListAllRoleBindings rg)).
Proof. intros Hok. unfold ListAllRoleBindings. rewrite merge_sort_Permutation. apply Hok. Qed.

(** A store the handlers keep, assets with plain paths, and ids that are new. *)
Record run_ok (rg : registry) (assets : list string) (env : menv) : Prop := mkRunOk {
  run_reg : registry_ok rg;
  run_assets : forall p, p ∈ assets -> no_byte ":" (firstPathSegment p) = true;
  run_fresh : forall t, t ∈ ListTenants rg -> rg_orgs rg !! org_id env t = None;
  run_distinct : NoDup (map (org_id env) (ListTenants rg)) }.

(** A store in which nothing is left to migrate. *)
Record migrated (sites : gmap string string) (rg : registry) : Prop := mkMigrated {
  md_orgs : forall t, is_Some (rg_tenants rg !! t) -> exists d, default_of rg t d;
  md_sites : forall site t, sites !! site = Some t -> exists d, default_of rg t d /\ so_OrgID <$> rg_siteOrgs rg !! site = Some d;
  md_owner : forall site, owner rg site = sites !! site;
  md_rows : forall x, x ∈ rg_bindings rg -> target sites x = None }.

Lemma owner_linked rg site t d : default_of rg t d -> so_OrgID <$> rg_siteOrgs rg !! site = Some d -> owner rg site = Some t.
Proof.
  intros (o & Ho & <- & _) Hso. unfold owner. destruct (rg_siteOrgs rg !! site) as [so|]; [|done]. injection Hso as <-.
  cbn. by rewrite Ho.
Qed.

Lemma owner_None rg site : registry_ok rg -> owner rg site = None -> rg_siteOrgs rg !! site = None.
Proof.
  intros Hok. unfold owner. destruct (rg_siteOrgs rg !! site) as [so|] eqn:E; [|done]. cbn.
  destruct (ro_site _ Hok _ _ E) as (_ & _ & [o Ho]). by rewrite Ho.
Qed.

Section run.
Context `{MapOrderOk}.

Lemma MigrateV11_spec rg assets sink principal env s' r : run_ok rg assets env ->
  MigrateV11 rg assets sink principal env = (s', r) ->
  registry_ok (mg_reg s') /\ keeps (keys rg) (keys (mg_reg s')) /\
  (r = Ok tt -> exists sites, buildSiteTenantMap (ListTenants rg) assets (ListSiteOrgs rg) (by_tenant rg) = Ok sites /\
     migrated sites (mg_reg s')).
Proof using Type*.
  intros [Hok Hp Hf Hnd]. unfold MigrateV11. fold (by_tenant rg). set (pr := if str_eqb principal _ then _ else _).
  destruct (buildSiteTenantMap _ _ _ _) as [sites|e] eqn:Eb; [|by intros [= <- <-]].
  pose proof (build_sites_ok _ _ _ Hok Hp Eb) as Hs. destruct (build_spec _ _ _ Hok Eb) as (B1 & B2 & _).
  destruct (each (ensure_default _ _ _) _ _) as [[s1 defaults] r1] eqn:E1.
  assert (Hd0 : defaults_ok rg ∅) by (intros ? ?; by rewrite lookup_empty).
  apply ensure_pass in E1 as (Hok1 & Hg & Hd & _ & Hall); [|done|done|done|done|done]. cbn [mg_reg] in Hg.
  destruct r1 as [[]|e]; [|intros [= <- <-]; split_and!; [done| |done]; unfold keys; by rewrite (gr_bindings _ _ Hg)].
  destruct (each (attach_site _ _ _ _) _ s1) as [s2 r2] eqn:E2.
  assert (Hkeys : map fst (shuffle (map_to_list sites)) ≡ₚ map fst (map_to_list sites)) by by rewrite shuffle_perm.
  apply attach_pass in E2 as (Hok2 & Hr & Hother & Hend); [|by rewrite Hkeys; apply NoDup_fst_map_to_list|done|].
  2: { intros site _ so Hin <-. rewrite (gr_sites _ _ Hg). by apply ListSiteOrgs_elem in Hin. }
  assert (Hb : rg_bindings (mg_reg s2) = rg_bindings rg) by by rewrite (rl_bindings _ _ Hr), (gr_bindings _ _ Hg).
  destruct r2 as [[]|e]; [|intros [= <- <-]; split_and!; [done| |done]; unfold keys; by rewrite Hb].
  intros E3. apply rewrite_pass in E3 as ([l El] & Hok3 & Hk & Hrows); [|done|done|by apply keys_NoDup| |].
  2: { intros k (rb & -> & Hin%ListAll_elem)%list_elem_of_fmap. by apply (list_elem_of_fmap_2 binding_key). }
  2: { intros x Hx. right. by apply ListAll_elem. }
  cbn [on_rep mg_reg] in El, Hk. split; [done|]. split; [unfold keys in Hk |- *; by rewrite Hb in Hk|].
  intros ->. exists sites. split; [done|].
  assert (Hdef : forall tid d, defaults !! tid = Some d -> default_of (mg_reg s') tid d).
  { intros tid d (o & Ho & ?)%Hd. exists o. rewrite El. cbn. by rewrite (rl_orgs _ _ Hr). }
  assert (Hlink : forall site t, sites !! site = Some t -> exists d, default_of (mg_reg s') t d /\
    so_OrgID <$> rg_siteOrgs (mg_reg s') !! site = Some d).
  { intros site t Hsite. destruct (Hend eq_refl site t) as (d & Hdd & Hso).
    - rewrite shuffle_perm. by apply elem_of_map_to_list.
    - exists d. split; [by apply Hdef|]. by rewrite El. }
  split; [|done| |by auto].
  - intros t [tn Ht]. rewrite El in Ht. cbn in Ht. rewrite (rl_tenants _ _ Hr), (gr_tenants _ _ Hg) in Ht.
    destruct (ro_tenant _ Hok _ _ Ht) as (<- & _).
    destruct (Hall eq_refl tn) as [d Hdd]; [by apply ListTenants_elem|]. exists d. by apply Hdef.
  - intros site. destruct (sites !! site) as [t|] eqn:Es.
    + destruct (Hlink _ _ Es) as (d & Hdd & Hso). by eapply owner_linked.
    + unfold owner. assert (rg_siteOrgs (mg_reg s') !! site = None) as ->; [|done]. rewrite El. cbn.
      rewrite Hother, (gr_sites _ _ Hg).
      * apply owner_None; [done|]. destruct (owner rg site) as [t|] eqn:Ho; [|done]. apply B1 in Ho. congruence.
      * rewrite Hkeys. intros ([k t] & -> & Hin%elem_of_map_to_list)%list_elem_of_fmap. cbn in Es. congruence.
Qed.
End run.
